(* ===== verification/_CoqProject ===== *)
-Q . S2P
Prelude.v
UriComponent.v
JsNumber.v
StableSort.v
WorkspaceTabLayout.v
WorkspaceTabInvariant.v
WorkspaceTabDrop.v
WorkspaceTab.v
TerminalTabPlacement.v
WorkspaceTabPersistence.v
SqlExecutionTypes.v
SqlExecutionLog.v
SqlExecutionLogOutputs.v
SqlExecutionLogState.v
SqlExecutionStream.v
LatestRequest.v
SqlExecutionRequests.v
SseStream.v
SseRequest.v
SqlText.v
SqlTextMask.v
SqlInsertValues.v
SqlValuesRow.v
LocalFileSave.v
SavedConsoleMutation.v
ResultColumns.v
RedisKeyTree.v
RedisExpansion.v
TextDecoding.v
LargeCellValue.v
ResultCopy.v
ResultPaste.v
QueryComposer.v
ResultTabSelection.v
SqlTableIdentifier.v
TreeNodes.v
SelectDatabaseRequests.v
TreeData.v
TreeSearch.v
HiddenTreeNodes.v
LatestLoad.v
TerminalBuffer.v
ContentDiff.v
ContentDiffHunks.v
ContentDiffRevert.v
ImportExportTasks.v
ImportExportStore.v
TerminalAttachment.v
SqlInClipboard.v
EditorDataSource.v
EditorClose.v
TextRanges.v
InsertValueHints.v
RoutineHints.v
ParameterHints.v
SqlExecutor.v
UpdateChecks.v
CommandLine.v
CompletionHintStore.v
ExecutionSnapshots.v
ConsoleTabs.v
ConsoleActions.v
SqlInputPunctuation.v
CompletionSuggestions.v
CompletionSession.v
EditorSave.v
RegExps.v
ConnectionUrl.v
DynamicDatabases.v
DatabaseTypes.v
ObjectTree.v
ObjectTreeKeys.v
TreeLoading.v
TabLocator.v
Shortcuts.v
ShortcutSettings.v
BackendMessages.v
BackendStreams.v
BackendStreamLaws.v
BackendObserver.v
