(* ===== verification/Prelude.v ===== *)
(** * Verification of the Chat2DB client

    Chat2DB is a database client: a TypeScript user interface
    ([apps/community-client/src], run in a browser or in a desktop shell), Rust
    services and a Java engine that talks to databases.  The development models
    the logic of the TypeScript client that decides what the user sees and what
    is kept of his work, away from React, the network and the editor widget, as
    pure functions, reducers and step functions, and proves it correct.  Paths
    below are relative to [apps/community-client/src].

    ** Parts and files

    Shared: [Prelude] (strings as lists of UTF-16 code units, objects used as
    maps in insertion order, array methods, tactics), [UriComponent]
    ([encodeURIComponent] and its inverse), [JsNumber] ([Number] on decimal
    integers), [StableSort] ([Array.prototype.sort]).

    Workspace tabs.  A tree of panes ([WorkspaceTabLayout], from
    [WorkspaceTabs/workspaceTabLayout.ts]) with the tabs and the active tab of
    each pane; [WorkspaceTabInvariant] says when a layout is consistent;
    [WorkspaceTabDrop] ([workspaceTabDrop.ts]) splits a pane at an edge for a
    dragged tab; [TerminalTabPlacement] ([terminalTabPlacement.ts]) docks
    terminals; [WorkspaceTab] ([workspaceTabSelection.ts]) chooses the next
    active tab; [WorkspaceTabPersistence] ([store/workspace/utils/
    workspaceTabPersistence.ts]) decides what is stored and restored.  The ids
    of new tree nodes come from the clock: the operations run in the state
    monad [Seq] on it.  [TerminalBuffer] ([utils/terminalBuffer.ts]) keeps the
    screens of recent terminals, [TerminalAttachment]
    ([WorkspaceTabs/terminalAttachmentLifecycle.ts]) detaches the terminals
    nobody shows.  [ConsoleTabs] has what the tabs of consoles hold and their
    names ([store/workspace/utils/consoleTabName.ts]), [ConsoleActions] the
    store that opens, names, saves and closes them
    ([store/workspace/slices/console/action.ts]).  [EditorDataSource]
    ([utils/editorDataSourceLifecycle.ts]) changes the data source of an
    editor; [EditorClose] ([utils/editorCloseGuard.ts],
    [utils/editorCloseConfirmation.tsx]) asks before edited texts are closed.

    SQL executions.  The desktop engine streams events of an execution.
    [SqlExecutionTypes] has results and events; [SqlExecutionLog] the reducers
    of [service/sqlExecutionLog.ts], [SqlExecutionLogOutputs] and
    [SqlExecutionLogState] their properties; [SqlExecutionStream]
    ([service/sqlExecutionStream.ts]) the list of results the events build;
    [SqlExecutionRequests] the request tracker and the batches of results
    ([service/sqlExecutionRequestTracker.ts], [service/sqlExecutionBatch.ts]);
    [SqlExecutor] the hook that runs and cancels the statements of an editor
    ([hooks/useSqlExecutor.ts]), a client of the tracker; [ExecutionSnapshots]
    ([service/dataSourceExecutionSnapshot.ts]) what executions were started
    against.

    The desktop: [CommandLine] ([service/commandLine/commandLine.ts],
    [redactForLog.ts]) lists the requests to the engine, settles them and logs
    them; [UpdateChecks] ([store/global/slices/hotUpdate/action.ts],
    [blocks/UpdateDetection]) looks for updates.

    Server-sent events, for the AI features: [SseStream]
    ([components/SSERequest/sseStream.ts]) parses the stream, [SseRequest]
    ([requestOwner.ts], [clientRequestHandle.ts]) owns and settles requests.

    SQL editor: [SqlText], [SqlTextMask], [SqlValuesRow] and [SqlInsertValues]
    model [components/SQLEditor/helper/sqlInsertValueDefaults.ts], the scanners
    that tell code from quoted text and comments and the hints on the values of
    an insert statement.  [ContentDiff] is the diff of an edited text against
    its saved version ([editor/MonacoEditor/contentDiff.ts]),
    [ContentDiffHunks] its hunks and the limits on it
    ([helper/contentDiffGuard.ts]), [ContentDiffRevert] the edits that take a
    hunk back ([editor/MonacoEditor/index.tsx]).  [SqlTableIdentifier]
    ([helper/tableIdentifier.ts]) finds the object named under the cursor and
    what the editor underlines.  [TextRanges] has the ranges of the engine's
    hints and [InsertValueHints] ([helper/insertValueHighlight.ts]) those of
    insert statements, [RoutineHints] ([helper/routineParameterHint.ts]) those
    of calls; [ParameterHints] ([helper/parameterHint.ts]) shows both in one
    popup, and [CompletionSuggestions]
    ([core/sqlCompletionBackendSuggestion.ts]) makes the suggestions of an
    answer of the engine and [CompletionSession]
    ([core/completionProviderManager.ts]) asks for them; [CompletionHintStore]
    ([core/sqlCompletionHintStore.ts]) keeps the hints of a completion.
    [SqlInputPunctuation] ([helper/sqlInputPunctuation.ts]) replaces
    punctuation typed in another script; [SqlInClipboard]
    ([utils/sqlInClipboard.ts]) makes an [IN] list of what was copied.

    Object tree: [TreeNodes] the nodes ([typings/tree.ts]); [TreeData] looking
    up, removing, refreshing and merging them ([utils/treeNodeLookup.ts] and
    [treeDataUpdate.ts], [backgroundRefresh.ts], [treeNodeLoadState.ts],
    [dataSourceList.ts] of [store/tree]); [TreeSearch] filtering and searching
    ([utils/filterTreeNodes.ts], [utils/searchTreeNodes.ts],
    [utils/hydrateTreeForSearch.ts]); [HiddenTreeNodes] the reads and writes of
    the hidden nodes ([store/tree/hiddenTreeNodeState.ts]); [LatestLoad] the
    loads of the tree, of which only the latest counts
    ([store/tree/loadNamespaceTree.ts]).  [DatabaseTypes]
    ([constants/database.ts], [utils/databaseJudgments.ts]) says what a type of
    databases has and supports; on it [ObjectTree]
    ([blocks/NewTree/treeConfig.tsx]) makes the keys of the nodes and their
    children from the answers of the engine, and [ObjectTreeKeys] shows which
    node a key stands for.  [TreeLoading] ([handleLoadData] of
    [store/tree/index.tsx]) is one load, and [TabLocator]
    ([pages/main/workspace/utils/activeTabLocator.ts], [WorkspaceLeft]) loads
    the way to the node of the active tab and selects it.

    Requests whose latest answer counts: [LatestRequest] is the generation
    counter ([utils/latestRequest.ts]) and the class [LatestRequests] of what
    it promises; [SqlExecutionRequests] and [SelectDatabaseRequests]
    ([hooks/selectDatabaseRequestLifecycle.ts]) are its clients.

    Import and export: [ImportExportTasks] ([store/importExport/
    taskCenterUtils.ts]) merges reports of tasks and finds their completions,
    [ImportExportStore] ([store/importExport/index.ts]) polls them.

    What is kept of the user's work: [LocalFileSave]
    ([utils/localFileSaveCoordinator.ts]) serializes and merges the writes of a
    file, [SavedConsoleMutation] ([store/workspace/utils/
    savedConsoleMutationCoordinator.ts]) the saves and removals of a console;
    [EditorSave] ([SQLEditor/hooks/useSaveEditorData.ts]) saves the text of an
    editor through it, or as a draft.

    Settings and connections: [ConnectionUrl] ([ConnectionEdit/index.tsx],
    [utils/jdbcUrl.ts], [utils/nativeUrl.ts], [config/dataSource.ts]) keeps the
    URL and the fields of the form of a data source in step, with the patterns
    of [RegExps], a matcher with the greedy search of the language;
    [DynamicDatabases] ([utils/dynamicDatabaseRegistry.ts],
    [layouts/init/useGlobalData.tsx]) registers the types of databases that the
    engine adds, with their forms; [Shortcuts] ([constants/shortcut.ts],
    [utils/shortcutDispatch.ts]) has the bindings of keys, their normal form
    and defaults, [ShortcutSettings] ([blocks/Setting/ShortcutSetting],
    [store/global/slices/settings/action.ts], [utils/shortcutManager.ts]) the
    input that captures them, the overrides of the user and what the window
    does with a key.

    Results: [ResultColumns] ([ResultSetTable/columnState.ts]) hides, freezes
    and orders columns.  [ResultTabSelection] ([SearchResult/tabSelection.ts])
    chooses the active tab.  [LargeCellValue] ([ViewData/largeCellValue.ts])
    reads values that are served in chunks, on the decoders of [TextDecoding];
    [ResultCopy] ([ResultSetTable/copyValues.ts], [markdownTable.ts]) copies
    cells, [ResultPaste] ([onPasteData/pasteData.ts],
    [utils/internalClipboard.ts]) pastes them; [QueryComposer]
    ([ScreeningResult/queryComposer.ts]) composes the query when a result is
    filtered or ordered.

    Redis: [RedisKeyTree] ([blocks/RedisAllData/redisKeyTree.ts]) groups keys,
    [RedisExpansion] ([redisExpansion.ts]) keeps what is expanded.

    The second frontend ([apps/frontend/src], next to the client):
    [BackendMessages] has the schemas of [generated/contract.ts] and the guards
    of [backend/client.ts] that check what the runtime sends; [BackendStreams]
    subscribes to the events of a run or an operation ([backend/http.ts],
    [backend/tauri.ts]) and [BackendStreamLaws] says what both transports
    promise, as the class [KeepsContract]; [BackendObserver] follows a run over
    reconnects ([backend/agent.ts], [backend/operation.ts]), with what it
    tells, opens and releases.

    ** What the theorems show

    Invariants over all runs: every reachable execution log is bounded and free
    of replaced executions; layouts stay consistent under drops and docking; at
    most one request is active, one write per file and one access to the hidden
    nodes in progress that no reset has outdated; mutations of a console run in
    order and each ends once; the active tab of the consoles is listed and no
    tab is listed twice; an editor shows that it executes exactly while a
    request is unsettled; a key has one meaning in a scope, whatever is
    captured in the settings; loads keep the object tree to what the engine
    listed.  Functional behaviour: a streamed result holds exactly its rows,
    docking and dropping move the named tab and nothing else, the code mask and
    the values of a row are those of a grammar of SQL texts, a search finds
    exactly the matching nodes, a reverted hunk has its saved lines again, the
    Redis tree holds every key in the group of its prefixes, a slot of a
    snippet follows the typing, a click opens what is underlined, the tab the
    user chose stays, closing a tab activates its neighbour, a captured
    shortcut is called by its key, a registration adds each unknown type once,
    a key of the object tree stands for one node and the table of the active
    tab is shown in it, each input of the engine ends a request with the
    outcome the code gives it, the arguments of a call are found.  Equivalence:
    two scans of SQL texts agree where both are meant to.  Refinement: the scan
    that cuts a diff into hunks implements their declarative grouping.
    Termination and liveness: reading a large value ends as long as the engine
    bounds its size; the walk of the diff ends and its common lines are as many
    as any two texts can share; redirected promises lead to an answer; loads,
    reads and writes that end leave nobody waiting.  Round trips: cells copied
    and pasted, qualified names, drop targets, printed events, offsets and
    positions, stored state, URLs and the fields of their forms, the displayed
    order of columns.  Bounds: records, outputs, screens, message lengths, the
    32-bit hash, the streams that an observer opens.  Safety under failure:
    removed consoles are not saved back, no column set hides everything,
    callers of a save are told exactly once, a text that closing does not ask
    for is stored, hints and prepared suggestions are those of the latest
    request, a cancellation reaches the engine whichever comes first, no check
    takes an update away, nothing secret is logged.

    ** Modelling choices

    A function that mutates an object takes it and returns it.  Asynchronous
    classes are step functions: a step is the code that runs without
    interruption, between two awaits, and theorems quantify over all sequences
    of steps.  Functions of other code (JSON parsing, the engine, callbacks,
    string collation) are section variables; the text model of the editor is
    the class [TextModel] with its laws, of which plain texts are an instance.
    Objects that are shared, the records of a result table, live in a store.
    Loops over an index are structural recursions on the rest of the text or
    list, with a count of characters to skip where the code advances the index
    inside the loop.  Fuel is used in few places: the reads of a large value
    are bounded by its bytes (theorem [large_value_read_ends]); the walk back
    through the table of a diff has as much as the texts have lines, every step
    consumes one of them (theorem [diff_ops_minimal]); following redirected
    promises has as much as there are promises, a redirection leads to a later
    one (theorem [latest_load_callers]).  Numbers are [Z] or [nat]: sequence
    numbers, times and offsets stay far below 2^53, where numbers are exact;
    the hash of a text is cut to 32 bits at each step as the code does.  Case
    mapping is that of ASCII letters unless it is a parameter.  Regular
    expressions are the scanners they stand for, those of the connection forms
    terms that a matcher interprets; patterns made of a search text are literal
    texts.

    ** Not modelled

    The Rust and Java programs; React views, and hooks other than those named
    above; the declarations of service calls and of the desktop bridge; stores
    that only keep what views set; data tables (translations, keywords, styles,
    connection forms); the views of the second frontend and its requests with a
    single answer.  Planned next: the sums of a selection of cells, the effects
    that follow the active tab and the other operations of the tree store. *)

(** * Prelude: the JavaScript values the TypeScript sources work on

    This file is shared by every component of the development.  It holds
    - [jstr]: JavaScript strings as lists of UTF-16 code units, their literals
      ([js "..."]) and the string operations of the standard library the
      sources call (prefix test, [slice], [split], [trim], [indexOf], ...);
    - [znum]: the decimal rendering of integers in template literals, with its
      injectivity;
    - [dict]: plain objects used as maps, in insertion order (the order
      [Object.keys] and [Object.entries] enumerate non-index keys in);
    - [uniq] and [take_last]: [Array.from(new Set(xs))] and [xs.slice(-n)];
    - generic list lemmas, the [js] rewrite database and the proof tactics the
      components use. *)

From Stdlib Require Export Ascii String.
From stdpp Require Export base list gmap strings pretty sorting.
From Stdlib Require Export Lia.

(* ------------------------------------------------------------------ *)
(** ** Strings *)

(** A JavaScript string is the sequence of its UTF-16 code units. *)
Abbreviation jstr := (list N).

(** The string of an ASCII literal of the source. *)
Definition js (s : string) : jstr := N_of_ascii <$> list_ascii_of_string s.

(** The code unit of an ASCII character literal of the source. *)
Definition ch (c : ascii) : N := N_of_ascii c.

(** [text.startsWith(p)]. *)
Definition startsWith (p text : jstr) : bool := bool_decide (take (length p) text = p).

(** [text.endsWith(p)] for a one-character [p]. *)
Definition endsWithChar (c : N) (text : jstr) : bool := bool_decide (last text = Some c).

(** [text.startsWith(p)] for a one-character [p]. *)
Definition startsWithChar (c : N) (text : jstr) : bool := bool_decide (head text = Some c).

(** [text.indexOf(c)] for a one-character [c]; [None] stands for -1. *)
Fixpoint indexOf (c : N) (text : jstr) : option nat :=
  match text with
  | [] => None
  | x :: text' => if decide (x = c) then Some 0 else S <$> indexOf c text'
  end.

(** [text.lastIndexOf(c)] for a one-character [c]; [None] stands for -1. *)
Fixpoint lastIndexOf (c : N) (text : jstr) : option nat :=
  match text with
  | [] => None
  | x :: text' =>
      match lastIndexOf c text' with
      | Some i => Some (S i)
      | None => if decide (x = c) then Some 0 else None
      end
  end.

(** The white space [String.prototype.trim] removes and [\s] matches:
    WhiteSpace and LineTerminator of the language specification. *)
Definition is_space (c : N) : bool :=
  ((9 <=? c) && (c <=? 13) || (c =? 32) || (c =? 160) || (c =? 5760)
   || ((8192 <=? c) && (c <=? 8202)) || (c =? 8232) || (c =? 8233)
   || (c =? 8239) || (c =? 8287) || (c =? 12288) || (c =? 65279))%N.

Fixpoint trimStart (text : jstr) : jstr :=
  match text with
  | [] => []
  | c :: text' => if is_space c then trimStart text' else text
  end.

Definition trimEnd (text : jstr) : jstr := reverse (trimStart (reverse text)).

(** [text.trim()]. *)
Definition trim (text : jstr) : jstr := trimEnd (trimStart text).

(** [text.split(c)] for a one-character separator. *)
Fixpoint split_char (c : N) (text : jstr) : list jstr :=
  match text with
  | [] => [[]]
  | x :: text' =>
      if decide (x = c) then [] :: split_char c text'
      else match split_char c text' with
           | [] => [[x]]
           | p :: ps => (x :: p) :: ps
           end
  end.

(** [text.replace(/\r\n/g, '\n')]. *)
Fixpoint replaceCRLF (text : jstr) : jstr :=
  match text with
  | [] => []
  | c :: text' =>
      match text' with
      | d :: _ => if (c =? 13)%N && (d =? 10)%N then replaceCRLF text' else c :: replaceCRLF text'
      | [] => [c]
      end
  end.

(** [text.replace(/\s+/g, ' ')]; [gap] tells whether the previous character
    was white space. *)
Fixpoint collapseSpaces (gap : bool) (text : jstr) : jstr :=
  match text with
  | [] => []
  | c :: text' =>
      if is_space c then (if gap then collapseSpaces true text' else 32%N :: collapseSpaces true text')
      else c :: collapseSpaces false text'
  end.

(** [parts.join(sep)]. *)
Fixpoint join (sep : jstr) (parts : list jstr) : jstr :=
  match parts with
  | [] => []
  | [p] => p
  | p :: ps => p ++ sep ++ join sep ps
  end.

(** Case mapping, on the ASCII letters. *)
Definition upper_char (c : N) : N := if ((97 <=? c) && (c <=? 122))%N then (c - 32)%N else c.
Definition lower_char (c : N) : N := if ((65 <=? c) && (c <=? 90))%N then (c + 32)%N else c.
Definition toUpperCase (text : jstr) : jstr := upper_char <$> text.
Definition toLowerCase (text : jstr) : jstr := lower_char <$> text.

(** [a || b] on strings: the empty string is falsy. *)
Definition or_else (a b : jstr) : jstr := match a with [] => b | _ => a end.

(** [`${n}`] for an integer. *)
Definition znum (n : Z) : jstr := js (pretty n).

(** The characters of a rendered integer. *)
Definition is_digit_char (c : N) : Prop := (48 ≤ c ≤ 57)%N.
Definition is_num_char (c : N) : Prop := c = ch "-" ∨ is_digit_char c.

(* ------------------------------------------------------------------ *)
(** ** Plain objects as maps *)

(** An object of type [Record<string, V>], in insertion order.  A
    well-formed one has no duplicate key ([NoDup (dkeys d)]). *)
Abbreviation dict V := (list (jstr * V)).

Section dict.
Context {V : Type}.

(** [d[k]]; [None] stands for [undefined]. *)
Fixpoint dget (k : jstr) (d : dict V) : option V :=
  match d with
  | [] => None
  | (k', v) :: d' => if decide (k' = k) then Some v else dget k d'
  end.

(** [{ ...d, [k]: v }]: an existing key keeps its place. *)
Fixpoint dset (k : jstr) (v : V) (d : dict V) : dict V :=
  match d with
  | [] => [(k, v)]
  | (k', v') :: d' => if decide (k' = k) then (k, v) :: d' else (k', v') :: dset k v d'
  end.

(** [Object.keys(d)] and [Object.values(d)]. *)
Definition dkeys (d : dict V) : list jstr := d.*1.
Definition dvalues (d : dict V) : list V := d.*2.
End dict.

(* ------------------------------------------------------------------ *)
(** ** Arrays *)

(** [Array.from(new Set(xs))]: first occurrences, in order. *)
Fixpoint uniq {A} `{EqDecision A} (xs : list A) : list A :=
  match xs with
  | [] => []
  | x :: xs' => x :: filter (λ y, y ≠ x) (uniq xs')
  end.

(** [xs.slice(-n)] for [n > 0]. *)
Definition take_last {A} (n : nat) (xs : list A) : list A := drop (length xs - n) xs.

(** [xs.includes(x)]. *)
Definition includes {A} `{EqDecision A} (x : A) (xs : list A) : bool := bool_decide (x ∈ xs).

(** [xs.find(f)]. *)
Definition js_find {A} (f : A → bool) (xs : list A) : option A := List.find f xs.

(** [o ?? d] and [o?.f ...]. *)
Definition nullish {A} (o : option A) (d : A) : A := default d o.

(* ------------------------------------------------------------------ *)
(** ** Tactics *)

(** Case analysis on the tests of the code, keeping their outcome. *)
Ltac case_test :=
  match goal with
  | |- context [ if ?b then _ else _ ] => let E := fresh "Etest" in destruct b eqn:E
  | H : context [ if ?b then _ else _ ] |- _ => let E := fresh "Etest" in destruct b eqn:E
  end.

(** Boolean tests to propositions. *)
Ltac to_prop :=
  repeat match goal with
  | H : bool_decide _ = true |- _ => apply bool_decide_eq_true_1 in H
  | H : bool_decide _ = false |- _ => apply bool_decide_eq_false_1 in H
  | H : andb _ _ = true |- _ => apply andb_true_iff in H as [??]
  | H : andb _ _ = false |- _ => apply andb_false_iff in H
  | H : orb _ _ = true |- _ => apply orb_true_iff in H
  | H : orb _ _ = false |- _ => apply orb_false_iff in H as [??]
  | H : negb _ = true |- _ => apply negb_true_iff in H
  | H : negb _ = false |- _ => apply negb_false_iff in H
  end.

(* ------------------------------------------------------------------ *)
(** ** Lemmas on strings *)

Lemma js_inj s t : js s = js t → s = t.
Proof.
  unfold js. intros H.
  rewrite <-(string_of_list_ascii_of_string s), <-(string_of_list_ascii_of_string t).
  f_equal. revert H. generalize (list_ascii_of_string s) (list_ascii_of_string t).
  intros l. induction l as [|a l IH]; intros [|b l']; csimpl; intros; simplify_eq; auto.
  f_equal; [|by apply IH].
  rewrite <-(ascii_N_embedding a), <-(ascii_N_embedding b). congruence.
Qed.

#[export] Instance znum_inj : Inj (=) (=) znum.
Proof. intros x y H. apply js_inj in H. by apply (inj (pretty (A:=Z))) in H. Qed.

Lemma js_app s t : js (s +:+ t) = js s ++ js t.
Proof. unfold js. induction s; csimpl; by f_equal. Qed.

Lemma pretty_N_go_digits x s :
  Forall is_digit_char (js s) → Forall is_digit_char (js (pretty_N_go x s)).
Proof.
  revert s. induction (N.lt_wf_0 x) as [x _ IH]; intros s Hs.
  destruct (decide (x = 0%N)) as [->|Hx]; [by rewrite pretty_N_go_0|].
  rewrite pretty_N_go_step by lia. apply IH; [apply N.div_lt; lia|].
  unfold js. csimpl. constructor; [|done].
  unfold pretty_N_char. repeat case_match; vm_compute; split; discriminate.
Qed.

Lemma pretty_N_digits (x : N) : Forall is_digit_char (js (pretty x)).
Proof.
  unfold pretty, pretty_N. case_decide.
  - vm_compute. constructor; [|done]. split; discriminate.
  - apply pretty_N_go_digits. constructor.
Qed.

Lemma znum_digits n : (0 ≤ n)%Z → Forall is_digit_char (znum n).
Proof.
  intros Hn. unfold znum. destruct n as [|p|p]; [|apply pretty_N_digits|lia].
  vm_compute. constructor; [|done]. split; discriminate.
Qed.

Lemma pretty_N_chars (x : N) : Forall is_num_char (js (pretty x)).
Proof. eapply Forall_impl; [apply pretty_N_digits|]. intros c Hc. by right. Qed.

Lemma znum_chars n : Forall is_num_char (znum n).
Proof.
  unfold znum. destruct n as [|p|p]; [apply (pretty_N_chars 0)|apply pretty_N_chars|].
  change (pretty (Z.neg p)) with ("-" +:+ pretty (N.pos p)). rewrite js_app.
  apply Forall_app. split; [|apply pretty_N_chars].
  vm_compute. constructor; [by left|constructor].
Qed.

(** A rendered integer holds no character outside its alphabet, so it can be
    cut off an identifier at a separator. *)
Lemma znum_not_in c n : ¬ is_num_char c → c ∉ znum n.
Proof. intros Hc Hin. pose proof (znum_chars n) as H. rewrite Forall_forall in H. auto. Qed.

Lemma colon_not_num : ¬ is_num_char (ch ":").
Proof. vm_compute. intros [H|[_ H]]; by try apply H. Qed.
Lemma underscore_not_num : ¬ is_num_char (ch "_").
Proof. vm_compute. intros [H|[_ H]]; by try apply H. Qed.

Lemma app_sep_inj_r {A} (c : A) (xs ys xs' ys' : list A) :
  c ∉ ys → c ∉ ys' → xs ++ c :: ys = xs' ++ c :: ys' → xs = xs' ∧ ys = ys'.
Proof.
  intros H H'. revert xs'. induction xs as [|x xs IH]; intros [|x' xs']; simpl;
    intros Heq; simplify_eq; auto.
  - exfalso. apply H. set_solver.
  - exfalso. apply H'. set_solver.
  - destruct (IH xs') as [-> ->]; auto.
Qed.

Lemma app_sep_inj_l {A} (c : A) (xs ys xs' ys' : list A) :
  c ∉ xs → c ∉ xs' → xs ++ c :: ys = xs' ++ c :: ys' → xs = xs' ∧ ys = ys'.
Proof.
  intros H H'. revert xs' H'. induction xs as [|x xs IH]; intros [|x' xs'] H' Heq; simplify_eq/=; auto.
  - destruct H'. by left.
  - destruct H. by left.
  - rewrite not_elem_of_cons in H, H'. destruct H as [_ H], H' as [_ H'].
    destruct (IH H xs' H') as [-> ->]; auto.
Qed.

(** An identifier ending in a separator and an integer determines both parts. *)
Lemma id_suffix_inj c p p' n n' :
  ¬ is_num_char c → p ++ c :: znum n = p' ++ c :: znum n' → p = p' ∧ n = n'.
Proof.
  intros Hc Heq.
  apply app_sep_inj_r in Heq as [-> Hn]; try by apply znum_not_in.
  split; [done|]. by apply (inj znum) in Hn.
Qed.

Lemma startsWith_app p t : startsWith p (p ++ t) = true.
Proof. unfold startsWith. apply bool_decide_eq_true_2. by rewrite take_app_length. Qed.

Lemma startsWith_inv p t : startsWith p t = true → t = p ++ drop (length p) t.
Proof. unfold startsWith. intros H. to_prop. rewrite <-H at 1. by rewrite take_drop. Qed.

Lemma indexOf_app c p t : c ∉ p → indexOf c (p ++ c :: t) = Some (length p).
Proof.
  induction p as [|x p IH]; simpl; intros H; [by rewrite decide_True|].
  rewrite decide_False by set_solver. by rewrite IH by set_solver.
Qed.

Lemma indexOf_None c t : indexOf c t = None ↔ c ∉ t.
Proof.
  induction t as [|x t IH]; simpl; [set_solver|].
  case_decide; [subst; split; [done|set_solver]|].
  rewrite fmap_None, IH. set_solver.
Qed.

Lemma lastIndexOf_None c t : c ∉ t → lastIndexOf c t = None.
Proof.
  induction t as [|x t IH]; simpl; intros H; [done|].
  rewrite IH by set_solver. by rewrite decide_False by set_solver.
Qed.

Lemma lastIndexOf_app c p t : c ∉ t → lastIndexOf c (p ++ c :: t) = Some (length p).
Proof.
  intros H. induction p as [|x p IH]; simpl.
  - rewrite lastIndexOf_None by done. by rewrite decide_True.
  - by rewrite IH.
Qed.

Lemma split_char_not_nil c t : split_char c t ≠ [].
Proof. destruct t; simpl; repeat case_match; done. Qed.

(** Splitting and joining with the same separator gives the text back. *)
Lemma join_split_char c t : join [c] (split_char c t) = t.
Proof.
  induction t as [|x t IH]; [done|]. cbn [split_char].
  destruct (split_char c t) as [|p ps] eqn:E; [by apply split_char_not_nil in E|].
  case_decide as Hx; destruct ps; simpl in *; rewrite ?Hx; by rewrite <-IH.
Qed.

Lemma split_char_no_sep c t : Forall (λ p, c ∉ p) (split_char c t).
Proof.
  induction t as [|x t IH]; simpl; [repeat constructor; set_solver|].
  case_decide; [constructor; [set_solver|done]|].
  case_match; inversion IH; subst; repeat constructor; set_solver.
Qed.

Lemma split_char_one c p : c ∉ p → split_char c p = [p].
Proof.
  induction p as [|x p IH]; [done|]. intros Hp. cbn. rewrite decide_False by set_solver. rewrite IH by set_solver. done.
Qed.

Lemma split_char_before c p t : c ∉ p → split_char c (p ++ c :: t) = p :: split_char c t.
Proof.
  induction p as [|x p IH]; intros Hp; cbn; [by rewrite decide_True|].
  rewrite decide_False by set_solver. rewrite IH by set_solver. done.
Qed.

Lemma split_char_join c parts :
  parts ≠ [] → Forall (λ p, c ∉ p) parts → split_char c (join [c] parts) = parts.
Proof.
  intros Hne H. induction H as [|p ps Hp Hps IH]; [done|].
  destruct ps as [|q ps]; [by apply split_char_one|].
  change (join [c] (p :: q :: ps)) with (p ++ c :: join [c] (q :: ps)).
  rewrite split_char_before, IH by done. done.
Qed.

(* ------------------------------------------------------------------ *)
(** ** Lemmas on objects *)

Section dict_lemmas.
Context {V : Type}.
Implicit Types d : dict V.

Lemma dget_dset k k' v d :
  dget k' (dset k v d) = if decide (k = k') then Some v else dget k' d.
Proof.
  induction d as [|[k0 v0] d IH]; simpl; [done|].
  repeat (case_decide; subst; simpl); try done.
Qed.

Lemma dget_dset_eq k v d : dget k (dset k v d) = Some v.
Proof. rewrite dget_dset. by rewrite decide_True. Qed.

Lemma dget_dset_ne k k' v d : k ≠ k' → dget k' (dset k v d) = dget k' d.
Proof. intros. rewrite dget_dset. by rewrite decide_False. Qed.

Lemma dget_Some_elem k v d : dget k d = Some v → (k, v) ∈ d.
Proof.
  induction d as [|[k0 v0] d IH]; simpl; [done|].
  case_decide; intros; simplify_eq; set_solver.
Qed.

Lemma elem_dget k v d : NoDup (dkeys d) → (k, v) ∈ d → dget k d = Some v.
Proof.
  induction d as [|[k0 v0] d IH]; unfold dkeys; csimpl; [set_solver|].
  rewrite NoDup_cons. intros [Hk Hd]. rewrite elem_of_cons. intros [?|Hin].
  - simplify_eq. by rewrite decide_True.
  - rewrite decide_False; [by apply IH|]. intros ->. apply Hk.
    apply list_elem_of_fmap. by exists (k, v).
Qed.

Lemma dget_is_Some k d : is_Some (dget k d) ↔ k ∈ dkeys d.
Proof.
  unfold dkeys. induction d as [|[k0 v0] d IH]; csimpl.
  - split; [by intros [??]|set_solver].
  - rewrite elem_of_cons. case_decide; subst.
    + split; eauto.
    + rewrite IH. naive_solver.
Qed.

Lemma dkeys_dset k v d :
  dkeys (dset k v d) = if decide (k ∈ dkeys d) then dkeys d else dkeys d ++ [k].
Proof.
  unfold dkeys. induction d as [|[k0 v0] d IH]; [done|]. cbn.
  destruct (decide (k0 = k)) as [->|Hk]; cbn; [by rewrite decide_True by set_solver|].
  rewrite IH. repeat case_decide; set_solver.
Qed.

Lemma elem_dkeys_dset k k' v d : k' ∈ dkeys (dset k v d) ↔ k' = k ∨ k' ∈ dkeys d.
Proof. rewrite dkeys_dset. case_decide; set_solver. Qed.

Lemma NoDup_dkeys_dset k v d : NoDup (dkeys d) → NoDup (dkeys (dset k v d)).
Proof.
  rewrite dkeys_dset. case_decide; [done|]. intros. apply NoDup_app.
  split_and!; [done|set_solver|apply NoDup_singleton].
Qed.

(** Where [dset] puts a value. *)
Lemma dset_split k v d :
  (∃ pre old post, d = pre ++ (k, old) :: post ∧ dget k d = Some old ∧
     dset k v d = pre ++ (k, v) :: post) ∨
  (dget k d = None ∧ dset k v d = d ++ [(k, v)]).
Proof.
  induction d as [|[k' v'] d IH]; cbn; [by right|]. case_decide; subst.
  - left. by exists [], v', d.
  - destruct IH as [(pre & old & post & -> & Hg & ->)|[Hg ->]]; [|by right].
    left. by exists ((k', v') :: pre), old, post.
Qed.

Lemma dset_fresh k v d : k ∉ dkeys d → dset k v d = d ++ [(k, v)].
Proof.
  unfold dkeys. induction d as [|[k0 v0] d IH]; csimpl; intros H; [done|].
  rewrite decide_False by set_solver. by rewrite IH by set_solver.
Qed.

Lemma dset_Forall (P : jstr * V → Prop) k v d : P (k, v) → Forall P d → Forall P (dset k v d).
Proof.
  intros Hv. induction 1 as [|[k' v'] d Hx Hd IH]; cbn; [by repeat constructor|]. destruct (decide (k' = k)); by constructor.
Qed.
End dict_lemmas.

(* ------------------------------------------------------------------ *)
(** ** Lemmas on arrays *)

Lemma list_filter_all {A} (f : A → bool) xs : (∀ x, x ∈ xs → f x = true) → List.filter f xs = xs.
Proof.
  induction xs as [|x xs IH]; intros H; [done|]. cbn. rewrite (H x) by (by left). f_equal. apply IH. intros y Hy. apply H. by right.
Qed.

Lemma list_filter_none {A} (f : A → bool) xs : (∀ x, x ∈ xs → f x = false) → List.filter f xs = [].
Proof. induction xs as [|x xs IH]; intros H; [done|]. cbn. rewrite (H x) by (by left). apply IH. intros y Hy. apply H. by right. Qed.

Lemma filter_all {A} (P : A → Prop) `{∀ x, Decision (P x)} (xs : list A) :
  Forall P xs → filter P xs = xs.
Proof.
  induction 1; [done|]. rewrite filter_cons_True by done. by f_equal.
Qed.

Lemma sublist_elem {A} (xs ys : list A) x : xs `sublist_of` ys → x ∈ xs → x ∈ ys.
Proof. intros H Hx. eapply elem_of_submseteq; [exact Hx|by apply sublist_submseteq]. Qed.

Lemma Forall_sublist {A} (P : A → Prop) xs ys : xs `sublist_of` ys → Forall P ys → Forall P xs.
Proof. rewrite !Forall_forall. intros Hs H x Hx. by eapply H, sublist_elem. Qed.

Lemma NoDup_sublist {A} (xs ys : list A) : xs `sublist_of` ys → NoDup ys → NoDup xs.
Proof.
  induction 1 as [|x xs ys Hsub IH|x xs ys Hsub IH]; rewrite ?NoDup_cons; [done| |naive_solver].
  intros [Hx ?]. split; [|auto]. intros Hin. by eapply Hx, sublist_elem.
Qed.

Lemma NoDup_fmap_sublist {A B} (f : A → B) (xs ys : list A) :
  xs `sublist_of` ys → NoDup (f <$> ys) → NoDup (f <$> xs).
Proof. intros Hs H. eapply NoDup_sublist; [by apply fmap_sublist|exact H]. Qed.

Section array_lemmas.
Context {A : Type} `{EqDecision A}.
Implicit Types xs ys : list A.

Lemma elem_of_uniq x xs : x ∈ uniq xs ↔ x ∈ xs.
Proof.
  induction xs as [|y xs IH]; simpl; [done|].
  rewrite !elem_of_cons, list_elem_of_filter, IH.
  destruct (decide (x = y)); naive_solver.
Qed.

Lemma NoDup_uniq xs : NoDup (uniq xs).
Proof.
  induction xs as [|y xs IH]; simpl; constructor.
  - rewrite list_elem_of_filter. naive_solver.
  - by apply NoDup_filter.
Qed.

Lemma uniq_NoDup_id xs : NoDup xs → uniq xs = xs.
Proof.
  induction 1 as [|y xs Hy Hxs IH]; simpl; [done|]. rewrite IH. f_equal.
  apply filter_all, Forall_forall. intros x Hx ->. done.
Qed.

Lemma uniq_uniq xs : uniq (uniq xs) = uniq xs.
Proof. apply uniq_NoDup_id, NoDup_uniq. Qed.

Lemma includes_true x xs : includes x xs = true ↔ x ∈ xs.
Proof. unfold includes. apply bool_decide_eq_true. Qed.

Lemma includes_false x xs : includes x xs = false ↔ x ∉ xs.
Proof. unfold includes. apply bool_decide_eq_false. Qed.
End array_lemmas.

Lemma js_find_Some {A} (f : A → bool) xs x :
  js_find f xs = Some x → x ∈ xs ∧ f x = true.
Proof. intros H. apply List.find_some in H as [H ?]. by rewrite <-list_elem_of_In in H. Qed.

Lemma js_find_None {A} (f : A → bool) xs :
  js_find f xs = None ↔ ∀ x, x ∈ xs → f x = false.
Proof.
  split.
  - intros H x Hx. eapply List.find_none in H; [done|]. by rewrite <-list_elem_of_In.
  - induction xs as [|y xs IH]; simpl; intros H; [done|].
    unfold js_find in *. simpl. rewrite (H y) by set_solver. apply IH. set_solver.
Qed.

Lemma js_find_is_Some {A} (f : A → bool) xs x :
  x ∈ xs → f x = true → is_Some (js_find f xs).
Proof.
  intros Hx Hf. destruct (js_find f xs) eqn:E; [eauto|].
  rewrite js_find_None in E. by rewrite E in Hf.
Qed.

Lemma js_find_first {A} (f : A → bool) pre x post :
  (∀ y, y ∈ pre → f y = false) → f x = true → js_find f (pre ++ x :: post) = Some x.
Proof.
  unfold js_find. intros Hpre Hx. induction pre as [|y pre IH]; cbn; [by rewrite Hx|].
  rewrite Hpre by set_solver. apply IH. set_solver.
Qed.

Lemma length_take_last {A} n (xs : list A) : length (take_last n xs) = min n (length xs).
Proof. unfold take_last. rewrite length_drop. lia. Qed.

Lemma take_last_elem {A} n (xs : list A) x : x ∈ take_last n xs → x ∈ xs.
Proof. unfold take_last. intros H. rewrite <-(take_drop (length xs - n) xs). set_solver. Qed.

Lemma take_last_all {A} n (xs : list A) : length xs ≤ n → take_last n xs = xs.
Proof. intros. unfold take_last. by replace (length xs - n) with 0 by lia. Qed.

Lemma NoDup_take_last {A} n (xs : list A) : NoDup xs → NoDup (take_last n xs).
Proof.
  unfold take_last. intros H. rewrite <-(take_drop (length xs - n) xs) in H.
  by apply NoDup_app in H as (_ & _ & ?).
Qed.

(** White space, and texts that neither begin nor end with it. *)
Definition blank (t : jstr) : Prop := Forall (λ c, is_space c = true) t.

Lemma trimStart_blank sp t : blank sp → trimStart (sp ++ t) = trimStart t.
Proof. induction 1 as [|c sp Hc _ IH]; cbn; [done|]. by rewrite Hc. Qed.

Definition solid (t : jstr) : Prop :=
  (∃ c t', t = c :: t' ∧ is_space c = false) ∧ (∃ t' c, t = t' ++ [c] ∧ is_space c = false).

Lemma trim_solid a t b : blank a → solid t → blank b → trim (a ++ t ++ b) = t.
Proof.
  intros Ha [(c & t1 & Hc & Hsc) (t2 & d & Hd & Hsd)] Hb. unfold trim, trimEnd.
  rewrite trimStart_blank by done.
  assert (trimStart (t ++ b) = t ++ b) as -> by (subst t; cbn; by rewrite Hsc).
  rewrite reverse_app, trimStart_blank by (by apply Forall_reverse).
  assert (trimStart (reverse t) = reverse t) as ->
    by (rewrite Hd, reverse_app; cbn; by rewrite Hsd).
  by rewrite reverse_involutive.
Qed.

Lemma trim_solid_id t : solid t → trim t = t.
Proof.
  intros Ht. pose proof (trim_solid [] t [] (Forall_nil_2 _) Ht (Forall_nil_2 _)) as H. by rewrite app_nil_r in H.
Qed.

(** *** Trimming *)

Lemma trimStart_elem c t : c ∈ trimStart t → c ∈ t.
Proof. induction t as [|d t IH]; [done|]. cbn. case_match; [|done]. intros ?%IH. by right. Qed.

Lemma trim_elem c t : c ∈ trim t → c ∈ t.
Proof. unfold trim, trimEnd. rewrite elem_of_reverse. intros Hc%trimStart_elem. rewrite elem_of_reverse in Hc. by apply trimStart_elem. Qed.

Lemma trimStart_head t c : head (trimStart t) = Some c → is_space c = false.
Proof. induction t as [|d t IH]; [done|]. cbn. case_match eqn:E; [done|]. by intros [= <-]. Qed.

Lemma trimStart_id t : (∀ c, head t = Some c → is_space c = false) → trimStart t = t.
Proof. destruct t as [|c t]; [done|]. intros H. cbn. by rewrite (H c). Qed.

Lemma trimStart_suffix t : ∃ a, t = a ++ trimStart t.
Proof. induction t as [|c t [a IH]]; [by exists []|]. cbn. case_match; [|by exists []]. exists (c :: a). cbn. by f_equal. Qed.

Lemma trim_trim t : trim (trim t) = trim t.
Proof.
  unfold trim, trimEnd. set (y := trimStart t). assert (∀ c, head y = Some c → is_space c = false) as Hy by (apply trimStart_head).
  clearbody y. set (z := trimStart (reverse y)). assert (∃ b, y = reverse z ++ b) as [b Hb].
  { destruct (trimStart_suffix (reverse y)) as [a Ha]. fold z in Ha. exists (reverse a). by rewrite <- reverse_app, <- Ha, reverse_involutive. }
  rewrite (trimStart_id (reverse z)).
  - rewrite reverse_involutive. f_equal. apply trimStart_id. apply trimStart_head.
  - intros c Hc. apply Hy. rewrite Hb. by destruct (reverse z).
Qed.

Lemma solid_trim t : trim t ≠ [] → solid (trim t).
Proof.
  intros Hne. assert (∀ c, head (trim t) = Some c → is_space c = false) as Hh.
  { rewrite <- trim_trim. unfold trim at 1. intros c Hc. unfold trimEnd in Hc.
    destruct (trimStart_suffix (reverse (trimStart (trim t)))) as [a Ha]. apply (trimStart_head (trim t)).
    replace (trimStart (trim t)) with (reverse (trimStart (reverse (trimStart (trim t)))) ++ reverse a)
      by (by rewrite <- reverse_app, <- Ha, reverse_involutive).
    by destruct (reverse (trimStart (reverse (trimStart (trim t))))). }
  assert (∀ c, head (reverse (trim t)) = Some c → is_space c = false) as Hl.
  { unfold trim, trimEnd. rewrite reverse_involutive. apply trimStart_head. }
  split.
  - destruct (trim t) as [|c t']; [done|]. exists c, t'. split; [done|]. by apply Hh.
  - destruct (trim t) as [|c t' _] using rev_ind; [done|]. exists t', c. split; [done|]. apply Hl. by rewrite reverse_snoc.
Qed.

#[global] Arguments js : simpl never.
#[global] Arguments ch : simpl never.
#[global] Arguments znum : simpl never.

Create HintDb js discriminated.
#[export] Hint Rewrite @dget_dset_eq @includes_true @includes_false @length_take_last @uniq_uniq : js.
#[export] Hint Resolve NoDup_uniq NoDup_dkeys_dset NoDup_take_last sublist_filter znum_not_in
  colon_not_num underscore_not_num : js.
