(* ===== verification/UriComponent.v ===== *)
(** * UriComponent: [encodeURIComponent] and [decodeURIComponent]

    The two functions of the JavaScript standard library the sources use to
    carry arbitrary names inside identifiers (the drop targets of the workspace
    tabs, the group keys of the Redis tree): percent-encoding of the UTF-8 form
    of a UTF-16 string.  [None] stands for the [URIError] they throw.  The
    file's result is the round trip on well-formed strings. *)

From S2P Require Import Prelude.
Local Open Scope N_scope.

(* ------------------------------------------------------------------ *)
(** ** Characters *)

(** The characters [encodeURIComponent] does not escape: letters, digits and
    [- _ . ! ~ * ' ( )]. *)
Definition uri_unreserved (c : N) : bool :=
  ((65 <=? c) && (c <=? 90)) || ((97 <=? c) && (c <=? 122)) || ((48 <=? c) && (c <=? 57))
  || bool_decide (c ∈ [45; 95; 46; 33; 126; 42; 39; 40; 41]).

Definition is_high (c : N) : bool := (55296 <=? c) && (c <=? 56319).
Definition is_low (c : N) : bool := (56320 <=? c) && (c <=? 57343).

(** The code point of a surrogate pair. *)
Definition pair_code (h l : N) : N := 65536 + (h - 55296) * 1024 + (l - 56320).

(** The UTF-16 form of a code point. *)
Definition utf16 (cp : N) : jstr :=
  if cp <? 65536 then [cp]
  else [55296 + (cp - 65536) / 1024; 56320 + (cp - 65536) mod 1024].

(** The UTF-8 form of a code point. *)
Definition utf8 (cp : N) : list N :=
  if cp <? 128 then [cp]
  else if cp <? 2048 then [192 + cp / 64; 128 + cp mod 64]
  else if cp <? 65536 then [224 + cp / 4096; 128 + cp / 64 mod 64; 128 + cp mod 64]
  else [240 + cp / 262144; 128 + cp / 4096 mod 64; 128 + cp / 64 mod 64; 128 + cp mod 64].

Definition hexdigit (n : N) : N := if n <? 10 then 48 + n else 55 + n.

Definition unhex (c : N) : option N :=
  if (48 <=? c) && (c <=? 57) then Some (c - 48)
  else if (65 <=? c) && (c <=? 70) then Some (c - 55)
  else if (97 <=? c) && (c <=? 102) then Some (c - 87)
  else None.

Definition percent (b : N) : jstr := [37; hexdigit (b / 16); hexdigit (b mod 16)].

(* ------------------------------------------------------------------ *)
(** ** The two functions *)

Fixpoint encodeURIComponent (s : jstr) : option jstr :=
  match s with
  | [] => Some []
  | c :: s' =>
      if uri_unreserved c then cons c <$> encodeURIComponent s'
      else if is_high c then
        match s' with
        | d :: s'' =>
            if is_low d then
              app (utf8 (pair_code c d) ≫= percent) <$> encodeURIComponent s''
            else None
        | [] => None
        end
      else if is_low c then None
      else app (utf8 c ≫= percent) <$> encodeURIComponent s'
  end.

(** The byte two hexadecimal digits stand for. *)
Definition byteOf (h l : N) : option N :=
  match unhex h, unhex l with Some a, Some b => Some (16 * a + b) | _, _ => None end.

(** The payload of an escaped continuation byte. *)
Definition contByte (p h l : N) : option N :=
  if p =? 37 then
    match byteOf h l with
    | Some b => if (128 <=? b) && (b <? 192) then Some (b - 128) else None
    | None => None
    end
  else None.

Fixpoint decodeURIComponent (s : jstr) : option jstr :=
  match s with
  | [] => Some []
  | c :: s1 =>
      if negb (c =? 37) then cons c <$> decodeURIComponent s1 else
      match s1 with
      | h :: l :: s2 =>
          match byteOf h l with
          | None => None
          | Some b =>
              if b <? 128 then cons b <$> decodeURIComponent s2
              else if (192 <=? b) && (b <? 224) then
                match s2 with
                | p1 :: h1 :: l1 :: s3 =>
                    match contByte p1 h1 l1 with
                    | Some x1 =>
                        let cp := (b - 192) * 64 + x1 in
                        if 128 <=? cp then app (utf16 cp) <$> decodeURIComponent s3 else None
                    | None => None
                    end
                | _ => None
                end
              else if (224 <=? b) && (b <? 240) then
                match s2 with
                | p1 :: h1 :: l1 :: p2 :: h2 :: l2 :: s3 =>
                    match contByte p1 h1 l1, contByte p2 h2 l2 with
                    | Some x1, Some x2 =>
                        let cp := (b - 224) * 4096 + x1 * 64 + x2 in
                        if (2048 <=? cp) && negb (is_high cp) && negb (is_low cp)
                        then app (utf16 cp) <$> decodeURIComponent s3 else None
                    | _, _ => None
                    end
                | _ => None
                end
              else if (240 <=? b) && (b <? 248) then
                match s2 with
                | p1 :: h1 :: l1 :: p2 :: h2 :: l2 :: p3 :: h3 :: l3 :: s3 =>
                    match contByte p1 h1 l1, contByte p2 h2 l2, contByte p3 h3 l3 with
                    | Some x1, Some x2, Some x3 =>
                        let cp := (b - 240) * 262144 + x1 * 4096 + x2 * 64 + x3 in
                        if (65536 <=? cp) && (cp <? 1114112)
                        then app (utf16 cp) <$> decodeURIComponent s3 else None
                    | _, _, _ => None
                    end
                | _ => None
                end
              else None
          end
      | _ => None
      end
  end.

(** A UTF-16 string: code units, every surrogate in a pair. *)
Fixpoint wf_utf16 (s : jstr) : bool :=
  match s with
  | [] => true
  | c :: s' =>
      (c <? 65536) &&
      if is_high c then match s' with d :: s'' => is_low d && wf_utf16 s'' | [] => false end
      else negb (is_low c) && wf_utf16 s'
  end.

(* ------------------------------------------------------------------ *)
(** ** The round trip *)

Ltac Ztests :=
  repeat match goal with
  | H : (_ <? _) = true |- _ => apply N.ltb_lt in H
  | H : (_ <? _) = false |- _ => apply N.ltb_ge in H
  | H : (_ <=? _) = true |- _ => apply N.leb_le in H
  | H : (_ <=? _) = false |- _ => apply N.leb_gt in H
  end.

(** Decides a test of the goal by [lia]. *)
Ltac decide_test :=
  match goal with
  | |- context [?a <? ?b] =>
      first [rewrite (proj2 (N.ltb_lt a b)) by lia | rewrite (proj2 (N.ltb_ge a b)) by lia]
  | |- context [?a <=? ?b] =>
      first [rewrite (proj2 (N.leb_le a b)) by lia | rewrite (proj2 (N.leb_gt a b)) by lia]
  end.

Lemma unhex_hexdigit n : n < 16 → unhex (hexdigit n) = Some n.
Proof.
  intros H. unfold hexdigit, unhex. destruct (n <? 10) eqn:E; Ztests;
    repeat decide_test; cbn; f_equal; lia.
Qed.

Lemma byteOf_percent b : b < 256 → byteOf (hexdigit (b / 16)) (hexdigit (b mod 16)) = Some b.
Proof.
  intros H. unfold byteOf.
  rewrite !unhex_hexdigit by (try apply N.Div0.div_lt_upper_bound; try apply N.mod_lt; lia).
  f_equal. symmetry. apply N.Div0.div_mod.
Qed.

Lemma contByte_percent x :
  x < 64 → contByte 37 (hexdigit ((128 + x) / 16)) (hexdigit ((128 + x) mod 16)) = Some x.
Proof.
  intros H. unfold contByte. rewrite byteOf_percent by lia. cbn [N.eqb Pos.eqb].
  repeat decide_test. cbn. f_equal. lia.
Qed.

Lemma decode_plain c s :
  c ≠ 37 → decodeURIComponent (c :: s) = cons c <$> decodeURIComponent s.
Proof. intros H. cbn. by rewrite (proj2 (N.eqb_neq c 37) H). Qed.

(** Decoding the escaped UTF-8 form of a code point that is not a surrogate. *)
Lemma decode_utf8 cp s :
  cp < 1114112 → is_high cp = false → is_low cp = false →
  decodeURIComponent ((utf8 cp ≫= percent) ++ s) = app (utf16 cp) <$> decodeURIComponent s.
Proof.
  intros Hcp Hh Hl. unfold utf8.
  assert (∀ y, y mod 64 < 64) as Hm by (intros; by apply N.mod_lt).
  pose proof (N.Div0.div_mod cp 64) as D1. pose proof (N.Div0.div_mod (cp / 64) 64) as D2.
  rewrite N.Div0.div_div in D2. change (64 * 64) with 4096 in D2.
  pose proof (N.Div0.div_mod (cp / 4096) 64) as D3.
  rewrite N.Div0.div_div in D3. change (4096 * 64) with 262144 in D3.
  pose proof (Hm cp). pose proof (Hm (cp / 64)). pose proof (Hm (cp / 4096)). clear Hm.
  generalize dependent (cp mod 64). intros r0.
  generalize dependent ((cp / 64) mod 64). intros r1.
  generalize dependent ((cp / 4096) mod 64). intros r2.
  generalize dependent (cp / 262144). intros q3.
  generalize dependent (cp / 4096). intros q2.
  generalize dependent (cp / 64). intros q1 D1 D2 D3 **.
  destruct (cp <? 128) eqn:E1; [|destruct (cp <? 2048) eqn:E2; [|destruct (cp <? 65536) eqn:E3]];
    Ztests; cbn [mbind list_bind app percent]; unfold percent; cbn [app];
    cbn [decodeURIComponent N.eqb Pos.eqb negb];
    rewrite byteOf_percent by lia;
    repeat decide_test; cbn [andb]; rewrite ?contByte_percent by done.
  - unfold utf16. by decide_test.
  - replace ((192 + q1 - 192) * 64 + r0) with cp by lia. by decide_test.
  - replace ((224 + q2 - 224) * 4096 + r1 * 64 + r0) with cp by lia.
    rewrite Hh, Hl. by decide_test.
  - replace ((240 + q3 - 240) * 262144 + r2 * 4096 + r1 * 64 + r0) with cp by lia.
    by repeat decide_test.
Qed.

Lemma utf16_pair h l :
  is_high h = true → is_low l = true →
  utf16 (pair_code h l) = [h; l] ∧ 65536 ≤ pair_code h l < 1114112.
Proof.
  unfold is_high, is_low, pair_code, utf16. intros Hh Hl. to_prop. Ztests.
  decide_test. split; [|lia].
  replace (65536 + (h - 55296) * 1024 + (l - 56320) - 65536)
    with ((l - 56320) + (h - 55296) * 1024) by lia.
  rewrite N.div_add, N.Div0.mod_add by lia.
  rewrite N.div_small, N.mod_small by lia. repeat f_equal; lia.
Qed.

Lemma unreserved_ascii c : uri_unreserved c = true → c < 128.
Proof.
  unfold uri_unreserved. rewrite !orb_true_iff, !andb_true_iff, !N.leb_le, bool_decide_eq_true.
  rewrite !elem_of_cons, elem_of_nil. intros. destruct_or!; lia.
Qed.

Lemma decode_encode_bounded n s :
  (length s ≤ n)%nat → wf_utf16 s = true →
  ∃ e, encodeURIComponent s = Some e ∧ decodeURIComponent e = Some s.
Proof.
  revert s. induction n as [|n IH]; intros [|c s] Hn Hwf; cbn in Hn; try lia; [by exists []..|].
  cbn in Hwf |- *. apply andb_true_iff in Hwf as [Hc Hwf]. Ztests.
  destruct (uri_unreserved c) eqn:Eu.
  { assert (wf_utf16 s = true) as Hs.
    { destruct (is_high c) eqn:Eh; [|by to_prop].
      apply unreserved_ascii in Eu. unfold is_high in Eh. to_prop. Ztests. lia. }
    destruct (IH s) as (e & -> & He); [lia|done|]. exists (c :: e). split; [done|].
    rewrite decode_plain, He by (intros ->; done). done. }
  destruct (is_high c) eqn:Eh.
  - destruct s as [|d s]; [done|]. apply andb_true_iff in Hwf as [Hd Hwf]. rewrite Hd.
    destruct (IH s) as (e & -> & He); [cbn in Hn; lia|done|].
    destruct (utf16_pair c d Eh Hd) as [Hp ?].
    eexists. split; [done|]. rewrite decode_utf8, He, Hp; [done|lia|..];
      unfold is_high, is_low; apply andb_false_iff; right; apply N.leb_gt; lia.
  - apply andb_true_iff in Hwf as [Hl Hwf]. apply negb_true_iff in Hl. rewrite Hl.
    destruct (IH s) as (e & -> & He); [lia|done|].
    eexists. split; [done|]. rewrite decode_utf8, He by (done || lia).
    unfold utf16. by decide_test.
Qed.

(** [decodeURIComponent] undoes [encodeURIComponent] on every well-formed
    string, where the latter does not throw. *)
Lemma decode_encode s :
  wf_utf16 s = true → ∃ e, encodeURIComponent s = Some e ∧ decodeURIComponent e = Some s.
Proof. by apply (decode_encode_bounded (length s)). Qed.

(** The encoding is injective. *)
Lemma encode_Some_inj s t e :
  wf_utf16 s = true → wf_utf16 t = true →
  encodeURIComponent s = Some e → encodeURIComponent t = Some e → s = t.
Proof.
  intros Hs Ht Es Et. destruct (decode_encode s Hs) as (? & Es' & Ds).
  destruct (decode_encode t Ht) as (? & Et' & Dt). congruence.
Qed.
