(* ===== verification/JsNumber.v ===== *)
(** * JsNumber: reading decimal integers

    [Number(text)] on texts of decimal integers, the only ones the modelled
    code converts back, and its inverse relation to the rendering [znum].  Any
    other text gives [None] here, standing for [NaN]. *)

From S2P Require Import Prelude.
Local Open Scope Z_scope.

(** [Number(text)] on the texts an identifier holds: decimal integers. *)
Definition digit (c : N) : option Z :=
  if ((48 <=? c) && (c <=? 57))%N then Some (Z.of_N (c - 48)) else None.

Fixpoint parseDigits (acc : Z) (s : jstr) : option Z :=
  match s with
  | [] => Some acc
  | c :: s => d ← digit c; parseDigits (10 * acc + d) s
  end.

Definition js_Number (s : jstr) : option Z :=
  match s with
  | [] => Some 0
  | c :: s' => if decide (c = ch "-") then match s' with [] => None | _ => Z.opp <$> parseDigits 0 s' end
               else parseDigits 0 s
  end.

Lemma digit_pretty (d : N) : (d < 10)%N → digit (ch (pretty_N_char d)) = Some (Z.of_N d).
Proof.
  intros Hd. assert (d = 0 ∨ d = 1 ∨ d = 2 ∨ d = 3 ∨ d = 4 ∨ d = 5 ∨ d = 6 ∨ d = 7 ∨ d = 8 ∨ d = 9)%N
    as H by lia.
  by repeat destruct H as [->|H]; [..|subst].
Qed.

Lemma parseDigits_pretty_go x s :
  parseDigits 0 (js (pretty_N_go x s)) = parseDigits (Z.of_N x) (js s).
Proof.
  revert s. induction (N.lt_wf_0 x) as [x _ IH]; intros s.
  destruct (decide (x = 0%N)) as [->|Hx]; [by rewrite pretty_N_go_0|].
  rewrite pretty_N_go_step by lia. rewrite IH by (apply N.div_lt; lia).
  change (js (String (pretty_N_char (x `mod` 10)) s))
    with (ch (pretty_N_char (x `mod` 10)) :: js s).
  cbn [parseDigits]. rewrite digit_pretty by (by apply N.mod_lt). cbn. f_equal.
  rewrite N2Z.inj_div, N2Z.inj_mod. symmetry. apply Z.div_mod. lia.
Qed.

Lemma parseDigits_pretty_N (x : N) : parseDigits 0 (js (pretty x)) = Some (Z.of_N x).
Proof.
  unfold pretty, pretty_N. case_decide; [by subst|]. by rewrite parseDigits_pretty_go.
Qed.

Lemma pretty_N_head (x : N) : ∃ c s, js (pretty x) = c :: s ∧ c ≠ ch "-".
Proof.
  pose proof (parseDigits_pretty_N x) as H. pose proof (pretty_N_chars x) as Hc.
  destruct (js (pretty x)) as [|c s] eqn:E; [destruct x as [|p]; [done|]|].
  - cbn in H. simplify_eq.
  - exists c, s. split; [done|]. intros ->. by cbn in H.
Qed.

(** Reading a rendered integer back. *)
Lemma js_Number_znum n : js_Number (znum n) = Some n.
Proof.
  unfold znum. destruct n as [|p|p]; [done| |].
  - change (js_Number (js (pretty (N.pos p))) = Some (Z.pos p)).
    pose proof (parseDigits_pretty_N (N.pos p)) as H.
    destruct (pretty_N_head (N.pos p)) as (c & s & E & Hc). rewrite E in *.
    unfold js_Number. by rewrite decide_False.
  - change (js (pretty (Z.neg p))) with (ch "-" :: js (pretty (N.pos p))).
    pose proof (parseDigits_pretty_N (N.pos p)) as H. unfold js_Number.
    rewrite decide_True by done. destruct (js (pretty (N.pos p))) eqn:E; [by cbn in H|].
    by rewrite H.
Qed.
