(* ===== verification/StableSort.v ===== *)
(** * StableSort: [Array.prototype.sort] with a consistent comparator

    The language requires [sort] to be stable and, for a consistent comparator
    (a total preorder), determines its result.  [stable_sort le] is that result,
    for [le x y] the test [compare(x, y) <= 0]: [stable_sort_unique] shows that
    any sorted arrangement that keeps equal elements in order is this one. *)

From S2P Require Import Prelude.

Fixpoint insert_by {A} (le : A → A → bool) (x : A) (ys : list A) : list A :=
  match ys with
  | [] => [x]
  | y :: ys' => if le x y then x :: ys else y :: insert_by le x ys'
  end.

Definition stable_sort {A} (le : A → A → bool) (xs : list A) : list A :=
  foldr (insert_by le) [] xs.

(** [compare(x, y) <= 0] is a total preorder. *)
Class Preorder {A} (le : A → A → bool) : Prop := {
  le_total : ∀ x y, le x y = true ∨ le y x = true;
  le_trans : ∀ x y z, le x y = true → le y z = true → le x z = true;
}.

Section stable_sort.
Context {A : Type} (le : A → A → bool).
Implicit Types xs ys : list A.

Definition le_sorted xs : Prop := StronglySorted (λ x y, le x y = true) xs.

Definition tied (x y : A) : Prop := le x y = true ∧ le y x = true.

#[local] Instance tied_dec x y : Decision (tied x y).
Proof. unfold tied. apply _. Defined.

Lemma insert_by_perm x ys : insert_by le x ys ≡ₚ x :: ys.
Proof.
  induction ys as [|y ys IH]; cbn; [done|]. destruct (le x y); [done|].
  rewrite IH. solve_Permutation.
Qed.

Lemma stable_sort_perm xs : stable_sort le xs ≡ₚ xs.
Proof.
  unfold stable_sort. induction xs as [|x xs IH]; cbn; [done|]. by rewrite insert_by_perm, IH.
Qed.

Context `{!Preorder le}.

Lemma insert_by_sorted x ys : le_sorted ys → le_sorted (insert_by le x ys).
Proof.
  induction 1 as [|y ys Hys IH Hy]; cbn; [repeat constructor|].
  destruct (le x y) eqn:E.
  - constructor; [by constructor|]. constructor; [done|].
    eapply Forall_impl; [exact Hy|]. intros z Hz. by eapply le_trans.
  - constructor; [done|]. rewrite insert_by_perm. constructor; [|done].
    by destruct (le_total x y); congruence.
Qed.

Lemma stable_sort_sorted xs : le_sorted (stable_sort le xs).
Proof.
  unfold stable_sort. induction xs as [|x xs IH]; cbn; [constructor|by apply insert_by_sorted].
Qed.

Lemma insert_by_tied x z ys :
  le_sorted ys → filter (tied z) (insert_by le x ys) = filter (tied z) (x :: ys).
Proof.
  induction 1 as [|y ys Hys IH Hy]; cbn; [done|].
  destruct (le x y) eqn:E; [done|]. rewrite filter_cons, IH, !filter_cons.
  repeat case_decide; try done. exfalso.
  destruct (le_total x y) as [?|?]; [congruence|].
  match goal with H : tied z x, H' : tied z y |- _ => destruct H as [_ ?], H' as [? _] end.
  assert (le x y = true) by (by eapply le_trans). congruence.
Qed.

Lemma stable_sort_tied z xs : filter (tied z) (stable_sort le xs) = filter (tied z) xs.
Proof.
  unfold stable_sort. induction xs as [|x xs IH]; cbn; [done|].
  rewrite insert_by_tied by apply stable_sort_sorted. by rewrite !filter_cons, IH.
Qed.

Lemma le_refl x : le x x = true.
Proof. by destruct (le_total x x). Qed.

Lemma tied_refl x : tied x x.
Proof. split; apply le_refl. Qed.

(** Sorted arrangements with the same ties are equal. *)
Lemma sorted_tied_eq xs ys :
  le_sorted xs → le_sorted ys → (∀ z, filter (tied z) xs = filter (tied z) ys) → xs = ys.
Proof.
  intros Hxs. revert ys. induction Hxs as [|x xs Hxs IH Hx]; intros ys Hys Heq.
  - destruct ys as [|y ys]; [done|]. specialize (Heq y).
    rewrite filter_cons_True in Heq by apply tied_refl. done.
  - destruct ys as [|y ys].
    { specialize (Heq x). rewrite filter_cons_True in Heq by apply tied_refl. done. }
    apply StronglySorted_inv in Hys as [Hys Hy].
    assert (∀ z, z ∈ x :: xs ↔ z ∈ y :: ys) as Hin.
    { intros z. split; intros Hz.
      - assert (z ∈ filter (tied z) (x :: xs)) as Hf by (apply list_elem_of_filter; by split; [apply tied_refl|]).
        rewrite Heq in Hf. by apply list_elem_of_filter in Hf as [_ ?].
      - assert (z ∈ filter (tied z) (y :: ys)) as Hf by (apply list_elem_of_filter; by split; [apply tied_refl|]).
        rewrite <-Heq in Hf. by apply list_elem_of_filter in Hf as [_ ?]. }
    rewrite Forall_forall in Hx, Hy.
    assert (tied x y) as Ht.
    { assert (y ∈ x :: xs) as Hyx by (apply Hin; left).
      assert (x ∈ y :: ys) as Hxy by (apply Hin; left).
      apply elem_of_cons in Hyx as [->|Hyx]; [apply tied_refl|].
      apply elem_of_cons in Hxy as [->|Hxy]; [apply tied_refl|]. split; auto. }
    assert (x = y) as <-.
    { specialize (Heq x). rewrite !filter_cons_True in Heq by (done || apply tied_refl). by simplify_eq. }
    f_equal. apply IH; [done|]. intros z. specialize (Heq z). rewrite !filter_cons in Heq.
    case_decide; by simplify_eq.
Qed.

(** The specification of a stable sort determines its result. *)
Lemma stable_sort_unique xs ys :
  le_sorted ys → (∀ z, filter (tied z) ys = filter (tied z) xs) → stable_sort le xs = ys.
Proof.
  intros Hys Heq. apply sorted_tied_eq; [apply stable_sort_sorted|done|].
  intros z. by rewrite Heq, stable_sort_tied.
Qed.

Lemma stable_sort_id xs : le_sorted xs → stable_sort le xs = xs.
Proof. intros. by apply stable_sort_unique. Qed.
End stable_sort.

Lemma StronglySorted_impl {A} (R R' : A → A → Prop) xs :
  (∀ x y, R x y → R' x y) → StronglySorted R xs → StronglySorted R' xs.
Proof.
  intros H. induction 1 as [|x xs Hxs IH Hx]; constructor; [done|].
  eapply Forall_impl; [exact Hx|]. intros y. apply H.
Qed.

(** Only the comparisons of elements of the list matter. *)
Lemma insert_by_ext {A} (le le' : A → A → bool) x ys :
  (∀ y, y ∈ ys → le x y = le' x y) → insert_by le x ys = insert_by le' x ys.
Proof.
  induction ys as [|y ys IH]; intros H; cbn; [done|].
  rewrite (H y) by set_solver. rewrite IH by set_solver. done.
Qed.

Lemma stable_sort_ext {A} (le le' : A → A → bool) xs :
  (∀ x y, x ∈ xs → y ∈ xs → le x y = le' x y) → stable_sort le xs = stable_sort le' xs.
Proof.
  unfold stable_sort. induction xs as [|x xs IH]; intros H; cbn; [done|].
  rewrite <-IH by set_solver. apply insert_by_ext. intros y Hy.
  fold (stable_sort le xs) in Hy. rewrite stable_sort_perm in Hy. apply H; set_solver.
Qed.

#[export] Instance insert_by_proper {A} (le : A → A → bool) x :
  Proper ((≡ₚ) ==> (≡ₚ)) (insert_by le x).
Proof. intros xs ys H. by rewrite !insert_by_perm, H. Qed.
