(* ===== verification/WorkspaceTabLayout.v ===== *)
(** * WorkspaceTabLayout: the split layout of the workspace tabs

    Models
    [apps/community-client/src/pages/main/workspace/components/WorkspaceTabs/workspaceTabLayout.ts]
    and the layout types of [typings/workspace.ts]: the binary tree of panes,
    the per-pane tab lists, the creation of split nodes with fresh identifiers,
    and the comparison the component uses to skip a redundant update.

    The module variable [splitNodeSequence] is threaded explicitly (the monad
    [Seq]); [Date.now()] is a clock that gives a reading for each creation. *)

From S2P Require Import Prelude.
Local Open Scope Z_scope.

(* ------------------------------------------------------------------ *)
(** ** Data *)

(** [string | number], the type of tab identifiers. *)
Inductive TabId :=
  | IdStr (s : jstr)
  | IdNum (n : Z).

#[export] Instance TabId_eq_dec : EqDecision TabId.
Proof. solve_decision. Defined.

(** [T | null | undefined]. *)
Inductive nul (A : Type) :=
  | Undefined
  | Null
  | Val (a : A).
Arguments Undefined {A}.
Arguments Null {A}.
Arguments Val {A} a.

#[export] Instance nul_eq_dec `{EqDecision A} : EqDecision (nul A).
Proof. solve_decision. Defined.

Inductive WorkspaceTabSplitDirection := horizontal | vertical.

#[export] Instance direction_eq_dec : EqDecision WorkspaceTabSplitDirection.
Proof. solve_decision. Defined.

(** [number | string], the size of the first half of a split. *)
Inductive NodeSize :=
  | SizeNum (n : Z)
  | SizeStr (s : jstr).

#[export] Instance NodeSize_eq_dec : EqDecision NodeSize.
Proof. solve_decision. Defined.

Inductive IWorkspaceTabPaneNode :=
  | Pane (id : jstr)
  | Split (nodeId : option jstr) (direction : WorkspaceTabSplitDirection)
      (size : option NodeSize) (first second : IWorkspaceTabPaneNode).

#[export] Instance PaneNode_eq_dec : EqDecision IWorkspaceTabPaneNode.
Proof. solve_decision. Defined.

Record IWorkspaceTabSplitLayout := mkLayout {
  direction : WorkspaceTabSplitDirection;
  activePane : jstr;
  lastNonTerminalActiveTabId : nul TabId;
  paneTabIds : dict (list TabId);
  activeTabIds : dict (nul TabId);
  root : option IWorkspaceTabPaneNode;
}.

(** [layout.paneTabIds[paneId] || []]. *)
Definition tabsOf (l : IWorkspaceTabSplitLayout) (paneId : jstr) : list TabId :=
  default [] (dget paneId (paneTabIds l)).

(** [layout.activeTabIds[paneId]]. *)
Definition activeOf (l : IWorkspaceTabSplitLayout) (paneId : jstr) : nul TabId :=
  default Undefined (dget paneId (activeTabIds l)).

(* ------------------------------------------------------------------ *)
(** ** Operations on layouts *)

(** [appendWorkspaceTabToPane]; [None] is the omitted third argument. *)
Definition appendWorkspaceTabToPane (layout : IWorkspaceTabSplitLayout) (tabId : TabId)
    (paneId : option jstr) : IWorkspaceTabSplitLayout :=
  let paneId := default (activePane layout) paneId in
  let ids := tabsOf layout paneId in
  {| direction := direction layout;
     activePane := paneId;
     lastNonTerminalActiveTabId := lastNonTerminalActiveTabId layout;
     paneTabIds := dset paneId (if includes tabId ids then ids else ids ++ [tabId])
                     (paneTabIds layout);
     activeTabIds := dset paneId (Val tabId) (activeTabIds layout);
     root := root layout |}.

(* ------------------------------------------------------------------ *)
(** ** Fresh node identifiers *)

(** A computation over the module variable [splitNodeSequence]. *)
Definition Seq (A : Type) : Type := Z → A * Z.

#[export] Instance Seq_ret : MRet Seq := λ A a s, (a, s).
#[export] Instance Seq_bind : MBind Seq := λ A B f m s, let '(a, s') := m s in f a s'.

(** Runs the monadic computations of a hypothesis. *)
Ltac run_seq H := cbn in H; unfold mret, mbind, Seq_ret, Seq_bind in H; cbn in H.

Section node_ids.
(** [clock k] is what [Date.now()] returns at the [k]-th creation. *)
Context (clock : Z → Z).

Definition splitNodeId (seq : Z) : jstr :=
  js "split_" ++ znum (clock seq) ++ ch "_" :: znum seq.

Definition createSplitNodeId : Seq jstr := λ splitNodeSequence,
  let splitNodeSequence := splitNodeSequence + 1 in
  (splitNodeId splitNodeSequence, splitNodeSequence).

Definition createWorkspaceTabSplitNode (dir : WorkspaceTabSplitDirection)
    (first second : IWorkspaceTabPaneNode) (size : option NodeSize)
    : Seq IWorkspaceTabPaneNode :=
  nodeId ← createSplitNodeId;
  mret (Split (Some nodeId) dir size first second).

(** [node.nodeId] as a condition: neither missing nor empty. *)
Definition hasNodeId (nodeId : option jstr) : bool :=
  match nodeId with Some (_ :: _) => true | _ => false end.

(** The early [return node] of the code rebuilds the same node. *)
Fixpoint ensureWorkspaceTabSplitNodeIds (node : IWorkspaceTabPaneNode)
    : Seq IWorkspaceTabPaneNode :=
  match node with
  | Pane _ => mret node
  | Split nodeId dir size first second =>
      first' ← ensureWorkspaceTabSplitNodeIds first;
      second' ← ensureWorkspaceTabSplitNodeIds second;
      if hasNodeId nodeId then mret (Split nodeId dir size first' second')
      else (id ← createSplitNodeId; mret (Split (Some id) dir size first' second'))
  end.
End node_ids.

(* ------------------------------------------------------------------ *)
(** ** The pane tree *)

Fixpoint collectPanes (node : IWorkspaceTabPaneNode) : list jstr :=
  match node with
  | Pane id => [id]
  | Split _ _ _ first second => collectPanes first ++ collectPanes second
  end.

(** [collectWorkspaceTabPaneIds]; [None] is a missing node. *)
Definition collectWorkspaceTabPaneIds (node : option IWorkspaceTabPaneNode) : list jstr :=
  match node with None => [] | Some n => collectPanes n end.

Fixpoint replaceWorkspaceTabPaneNode (node : IWorkspaceTabPaneNode) (paneId : jstr)
    (replacement : IWorkspaceTabPaneNode) : IWorkspaceTabPaneNode :=
  match node with
  | Pane id => if decide (id = paneId) then replacement else node
  | Split nodeId dir size first second =>
      Split nodeId dir size
        (replaceWorkspaceTabPaneNode first paneId replacement)
        (replaceWorkspaceTabPaneNode second paneId replacement)
  end.

Fixpoint updateWorkspaceTabSplitNodeSize (node : IWorkspaceTabPaneNode) (nodeId : jstr)
    (size : NodeSize) : IWorkspaceTabPaneNode :=
  match node with
  | Pane _ => node
  | Split nodeId' dir size' first second =>
      if decide (nodeId' = Some nodeId) then Split nodeId' dir (Some size) first second
      else Split nodeId' dir size'
             (updateWorkspaceTabSplitNodeSize first nodeId size)
             (updateWorkspaceTabSplitNodeSize second nodeId size)
  end.

Fixpoint pruneWorkspaceTabPaneNode (node : IWorkspaceTabPaneNode) (validPaneIds : gset jstr)
    : option IWorkspaceTabPaneNode :=
  match node with
  | Pane id => if decide (id ∈ validPaneIds) then Some node else None
  | Split nodeId dir size first second =>
      match pruneWorkspaceTabPaneNode first validPaneIds,
            pruneWorkspaceTabPaneNode second validPaneIds with
      | Some first', Some second' => Some (Split nodeId dir size first' second')
      | Some first', None => Some first'
      | None, second' => second'
      end
  end.

(* ------------------------------------------------------------------ *)
(** ** Comparison *)

(** The shortcut [left === right] compares references: it returns early on
    trees the recursion finds equal anyway ([nodesEqual_true]). *)
Fixpoint nodesEqual (left right : IWorkspaceTabPaneNode) : bool :=
  match left, right with
  | Pane id, Pane id' => bool_decide (id = id')
  | Split nodeId dir size first second, Split nodeId' dir' size' first' second' =>
      bool_decide (nodeId = nodeId') && bool_decide (dir = dir') && bool_decide (size = size')
      && nodesEqual first first' && nodesEqual second second'
  | _, _ => false
  end.

Definition paneNodesEqual (left right : option IWorkspaceTabPaneNode) : bool :=
  match left, right with
  | None, None => true
  | Some l, Some r => nodesEqual l r
  | _, _ => false
  end.

Definition recordOfIdsEqual (left right : dict (list TabId)) : bool :=
  (length (dkeys left) =? length (dkeys right))%nat &&
  forallb (λ key,
    includes key (dkeys right) &&
    bool_decide (default [] (dget key left) = default [] (dget key right))) (dkeys left).

Definition activeIdsEqual (left right : dict (nul TabId)) : bool :=
  (length (dkeys left) =? length (dkeys right))%nat &&
  forallb (λ key,
    includes key (dkeys right) &&
    bool_decide (default Undefined (dget key left) = default Undefined (dget key right)))
    (dkeys left).

(** Both [null] and [undefined] are [None] here: the code treats them alike. *)
Definition areWorkspaceTabSplitLayoutsEqual
    (left right : option IWorkspaceTabSplitLayout) : bool :=
  match left, right with
  | None, None => true
  | Some l, Some r =>
      bool_decide (direction l = direction r) &&
      bool_decide (activePane l = activePane r) &&
      bool_decide (lastNonTerminalActiveTabId l = lastNonTerminalActiveTabId r) &&
      paneNodesEqual (root l) (root r) &&
      recordOfIdsEqual (paneTabIds l) (paneTabIds r) &&
      activeIdsEqual (activeTabIds l) (activeTabIds r)
  | _, _ => false
  end.

(* ------------------------------------------------------------------ *)
(** ** Specification vocabulary *)

(** Identifiers of the split nodes, missing or empty ones left out. *)
Fixpoint splitNodeIds (node : IWorkspaceTabPaneNode) : list jstr :=
  match node with
  | Pane _ => []
  | Split nodeId _ _ first second =>
      (if hasNodeId nodeId then option_list nodeId else []) ++ splitNodeIds first ++ splitNodeIds second
  end.

(** Number of split nodes, identified or not. *)
Fixpoint splitCount (node : IWorkspaceTabPaneNode) : nat :=
  match node with
  | Pane _ => 0
  | Split _ _ _ first second => S (splitCount first + splitCount second)
  end.

(** Two objects that map the same keys to the same values, in any order. *)
Definition dict_equiv {V} (d d' : dict V) : Prop := ∀ k, dget k d = dget k d'.

(** Layouts equal up to the order of the keys of their two objects. *)
Record layout_equiv (l l' : IWorkspaceTabSplitLayout) : Prop := {
  le_direction : direction l = direction l';
  le_activePane : activePane l = activePane l';
  le_last : lastNonTerminalActiveTabId l = lastNonTerminalActiveTabId l';
  le_root : root l = root l';
  le_tabs : dict_equiv (paneTabIds l) (paneTabIds l');
  le_active : dict_equiv (activeTabIds l) (activeTabIds l');
}.

#[export] Instance layout_equiv_equivalence : Equivalence layout_equiv.
Proof.
  split.
  - by intros [].
  - intros l l' []. split; try done; by intros ?.
  - intros l l' l'' [] []. split; try congruence; intros k; etrans; eauto.
Qed.

(** The keys of a JavaScript object are distinct. *)
Definition layout_keys (l : IWorkspaceTabSplitLayout) : Prop :=
  NoDup (dkeys (paneTabIds l)) ∧ NoDup (dkeys (activeTabIds l)).

(* ------------------------------------------------------------------ *)
(** ** Lemmas *)

(** Appending respects [layout_equiv]: the order of the keys is invisible. *)
#[export] Instance append_proper :
  Proper (layout_equiv ==> eq ==> eq ==> layout_equiv) appendWorkspaceTabToPane.
Proof.
  intros l l' [? Hp ? ? Ht Ha] t ? <- p ? <-.
  unfold appendWorkspaceTabToPane, tabsOf. rewrite Hp, (Ht (default _ p)).
  split; simpl; try done; intros k; rewrite !dget_dset; by case_decide.
Qed.

Lemma nodesEqual_true l r : nodesEqual l r = true ↔ l = r.
Proof.
  revert r. induction l as [id|nodeId d s f IHf g IHg]; intros [id'|nodeId' d' s' f' g']; simpl.
  - rewrite bool_decide_eq_true. naive_solver.
  - done.
  - done.
  - rewrite !andb_true_iff, !bool_decide_eq_true, IHf, IHg. naive_solver.
Qed.

Lemma paneNodesEqual_true l r : paneNodesEqual l r = true ↔ l = r.
Proof. destruct l, r; simpl; rewrite ?nodesEqual_true; naive_solver. Qed.

Section dict_compare.
Context {V : Type} `{EqDecision V} (d0 : V).

(** The comparison loop shared by the two objects of a layout. *)
Lemma keys_compare (l r : dict V) :
  NoDup (dkeys l) → NoDup (dkeys r) →
  (length (dkeys l) =? length (dkeys r))%nat &&
  forallb (λ key, includes key (dkeys r) &&
    bool_decide (default d0 (dget key l) = default d0 (dget key r))) (dkeys l) = true
  ↔ dict_equiv l r.
Proof.
  intros Hl Hr. rewrite andb_true_iff, Nat.eqb_eq, forallb_forall. split.
  - intros [Hlen Hall]. assert (dkeys l ⊆ dkeys r) as Hsub.
    { intros k Hk. apply list_elem_of_In, Hall in Hk. to_prop. by autorewrite with js in *. }
    assert (dkeys l ≡ₚ dkeys r) as Hperm.
    { apply submseteq_length_Permutation; [by apply NoDup_submseteq|lia]. }
    intros k. destruct (decide (k ∈ dkeys l)) as [Hk|Hk].
    + pose proof (Hall k (proj1 (list_elem_of_In _ _) Hk)) as H. to_prop.
      pose proof (Hsub k Hk) as Hk'. apply dget_is_Some in Hk as [v Hv], Hk' as [v' Hv'].
      rewrite Hv, Hv' in *. by simplify_eq/=.
    + assert (k ∉ dkeys r) as Hk' by by rewrite <-Hperm.
      rewrite <-dget_is_Some in Hk, Hk'. apply eq_None_not_Some in Hk, Hk'. congruence.
  - intros Heq.
    assert (∀ k, k ∈ dkeys l ↔ k ∈ dkeys r) as Hk.
    { intros k. by rewrite <-!dget_is_Some, Heq. }
    split.
    + apply Permutation_length, NoDup_Permutation; done.
    + intros k Hin%list_elem_of_In. rewrite andb_true_iff, bool_decide_eq_true.
      autorewrite with js. rewrite <-Hk, Heq. done.
Qed.
End dict_compare.

Lemma collectPanes_not_nil n : collectPanes n ≠ [].
Proof. induction n; simpl; [done|]. intros [??]%app_nil. done. Qed.

Lemma hasNodeId_true o : hasNodeId o = true ↔ ∃ id, o = Some id ∧ id ≠ [].
Proof. destruct o as [[|c id]|]; simpl; naive_solver. Qed.

Lemma splitNodeId_not_nil clock k : splitNodeId clock k ≠ [].
Proof. done. Qed.

Lemma hasNodeId_new clock k : hasNodeId (Some (splitNodeId clock k)) = true.
Proof. done. Qed.

(** The identifiers handed out at different counter values differ, whatever
    the clock says. *)
Lemma splitNodeId_inj clock clock' k k' : splitNodeId clock k = splitNodeId clock' k' → k = k'.
Proof.
  unfold splitNodeId. rewrite !(assoc_L (++)). intros H.
  by apply id_suffix_inj in H as [_ ?]; [|apply underscore_not_num].
Qed.
#[export] Hint Resolve splitNodeId_not_nil collectPanes_not_nil : js.

(** The fresh identifiers [ensureWorkspaceTabSplitNodeIds] hands out. *)
#[local] Arguments seqZ : simpl never.

Lemma ensure_spec clock n s n' s' :
  ensureWorkspaceTabSplitNodeIds clock n s = (n', s') →
  s ≤ s' ∧ collectPanes n' = collectPanes n ∧ length (splitNodeIds n') = splitCount n ∧
  splitCount n' = splitCount n ∧
  splitNodeIds n' ≡ₚ splitNodeIds n ++ (splitNodeId clock <$> seqZ (s + 1) (s' - s)).
Proof.
  revert s n' s'.
  induction n as [id|nodeId d sz f IHf g IHg]; intros s n' s' H; run_seq H.
  - simplify_eq/=. split_and!; try done; try lia.
    rewrite Z.sub_diag. done.
  - destruct (ensureWorkspaceTabSplitNodeIds clock f s) as [f' s1] eqn:Ef.
    destruct (ensureWorkspaceTabSplitNodeIds clock g s1) as [g' s2] eqn:Eg.
    apply IHf in Ef as (? & Hf1 & Hf2 & Hf3 & Hf4).
    apply IHg in Eg as (? & Hg1 & Hg2 & Hg3 & Hg4).
    assert (splitNodeIds f' ++ splitNodeIds g' ≡ₚ
      splitNodeIds f ++ splitNodeIds g ++ (splitNodeId clock <$> seqZ (s + 1) (s2 - s))) as Hperm.
    { rewrite Hf4, Hg4. replace (s2 - s) with ((s1 - s) + (s2 - s1)) by lia.
      rewrite seqZ_app by lia. replace (s + 1 + (s1 - s)) with (s1 + 1) by lia.
      rewrite fmap_app. solve_Permutation. }
    destruct (hasNodeId nodeId) eqn:En; cbn in H; simplify_eq;
      cbn -[hasNodeId]; rewrite ?En, ?hasNodeId_new.
    + apply hasNodeId_true in En as (id & -> & _). cbn.
      split_and!; try lia; [congruence|rewrite length_app; lia|].
      rewrite Hperm. solve_Permutation.
    + cbn. split_and!; try lia; [congruence|rewrite length_app; lia|].
      rewrite Hperm. replace (s2 + 1 - s) with ((s2 - s) + 1) by lia.
      rewrite seqZ_app by lia. replace (s + 1 + (s2 - s)) with (s2 + 1) by lia.
      rewrite fmap_app. cbn. solve_Permutation.
Qed.

Lemma length_splitNodeIds n : (length (splitNodeIds n) ≤ splitCount n)%nat.
Proof.
  induction n as [|nodeId d sz f IHf g IHg]; cbn; [lia|]. rewrite !length_app.
  destruct nodeId as [[|? ?]|]; cbn; lia.
Qed.

(** A tree whose split nodes all have identifiers is left alone. *)
Lemma ensure_id clock n s :
  length (splitNodeIds n) = splitCount n → ensureWorkspaceTabSplitNodeIds clock n s = (n, s).
Proof.
  revert s. induction n as [|nodeId d sz f IHf g IHg]; intros s Hlen; [done|].
  pose proof (length_splitNodeIds f). pose proof (length_splitNodeIds g).
  cbn in *. unfold mret, mbind, Seq_ret, Seq_bind. rewrite !length_app in Hlen.
  destruct (hasNodeId nodeId) eqn:En; cbn in Hlen; [|lia].
  apply hasNodeId_true in En as (id & -> & _). cbn in Hlen.
  rewrite IHf by lia. by rewrite IHg by lia.
Qed.

Lemma collect_prune n valid :
  collectWorkspaceTabPaneIds (pruneWorkspaceTabPaneNode n valid)
  = filter (λ p, p ∈ valid) (collectPanes n).
Proof.
  induction n as [id|nodeId d sz f IHf g IHg]; cbn.
  - by case_decide.
  - rewrite filter_app, <-IHf, <-IHg.
    destruct (pruneWorkspaceTabPaneNode f valid), (pruneWorkspaceTabPaneNode g valid);
      cbn; by rewrite ?app_nil_r.
Qed.

Lemma collect_replace n p r :
  collectPanes (replaceWorkspaceTabPaneNode n p r)
  = collectPanes n ≫= (λ q, if decide (q = p) then collectPanes r else [q]).
Proof.
  induction n as [id|nodeId d sz f IHf g IHg]; cbn.
  - case_decide; cbn; by rewrite ?app_nil_r.
  - by rewrite bind_app, IHf, IHg.
Qed.

(** Looks up the size of the split with a given identifier. *)
Fixpoint sizeOf (n : IWorkspaceTabPaneNode) (id : jstr) : option (option NodeSize) :=
  match n with
  | Pane _ => None
  | Split nodeId _ size first second =>
      if decide (nodeId = Some id) then Some size
      else match sizeOf first id with Some s => Some s | None => sizeOf second id end
  end.

(* ------------------------------------------------------------------ *)
(** ** Properties *)

(** [ensureWorkspaceTabSplitNodeIds] keeps the panes and the identifiers
    that were there, gives every split node an identifier, and all identifiers
    are distinct afterwards, whatever the clock does, provided the old ones
    were distinct and none of them is an identifier still to be handed out.
    A second run changes nothing and draws no further identifier. *)
Theorem ensure_ids_distinct clock n s n' s' :
  ensureWorkspaceTabSplitNodeIds clock n s = (n', s') →
  NoDup (splitNodeIds n) →
  (∀ k, s < k → splitNodeId clock k ∉ splitNodeIds n) →
  collectPanes n' = collectPanes n ∧
  splitNodeIds n ⊆ splitNodeIds n' ∧
  length (splitNodeIds n') = splitCount n' ∧
  NoDup (splitNodeIds n') ∧
  ensureWorkspaceTabSplitNodeIds clock n' s' = (n', s').
Proof.
  intros H Hnd Hfresh. pose proof H as H'.
  apply ensure_spec in H as (? & Hp & Hlen & Hc & Hperm).
  split_and!; [done|rewrite Hperm; set_solver|by rewrite Hc| |apply ensure_id; by rewrite Hc].
  rewrite Hperm. apply NoDup_app. split_and!; [done| |].
  - intros id Hid Hin. apply list_elem_of_fmap in Hin as (k & -> & Hk).
    apply elem_of_seqZ in Hk. apply (Hfresh k); [lia|done].
  - apply NoDup_fmap_2_strong; [|apply NoDup_seqZ].
    intros k k' _ _. apply splitNodeId_inj.
Qed.

Example ensure_ids_distinct_witness :
  let n := Split None vertical None (Pane (js "a"))
             (Split (Some (js "k")) horizontal None (Pane (js "b")) (Pane (js "c"))) in
  collectPanes (fst (ensureWorkspaceTabSplitNodeIds (λ _, 7) n 0)) = [js "a"; js "b"; js "c"] ∧
  NoDup (splitNodeIds (fst (ensureWorkspaceTabSplitNodeIds (λ _, 7) n 0))).
Proof.
  intros n.
  destruct (ensure_ids_distinct (λ _, 7) n 0 _ _ eq_refl) as (Hp & _ & _ & Hn & _).
  - apply NoDup_singleton.
  - intros k _. change (splitNodeId (λ _, 7) k ∉ [js "k"]). rewrite list_elem_of_singleton. discriminate.
  - split; [exact Hp|exact Hn].
Defined.

(** Pruning keeps exactly the panes of the valid set, in their order, and
    returns no tree exactly when no pane is valid. *)
Theorem prune_panes n valid :
  collectWorkspaceTabPaneIds (pruneWorkspaceTabPaneNode n valid)
    = filter (λ p, p ∈ valid) (collectPanes n) ∧
  (pruneWorkspaceTabPaneNode n valid = None ↔ ∀ p, p ∈ collectPanes n → p ∉ valid).
Proof.
  pose proof (collect_prune n valid) as H. split; [done|]. split.
  - intros E p Hp Hv. rewrite E in H. cbn in H. symmetry in H.
    by apply (filter_nil_not_elem_of _ _ p H Hv).
  - intros Hno. destruct (pruneWorkspaceTabPaneNode n valid) as [m|]; [|done].
    exfalso. apply (collectPanes_not_nil m). cbn in H. rewrite H.
    apply list_nil_subseteq. intros p [Hv Hp]%list_elem_of_filter. by destruct (Hno p).
Qed.

(** The comparison that lets the component skip an update holds exactly of
    the layouts that agree on every field and, key by key, on both objects:
    it is sound (no visible change is skipped) and insensitive to key order. *)
Theorem areEqual_iff_equiv l r :
  layout_keys l → layout_keys r →
  areWorkspaceTabSplitLayoutsEqual (Some l) (Some r) = true ↔ layout_equiv l r.
Proof.
  intros [Hl1 Hl2] [Hr1 Hr2]. cbn. rewrite !andb_true_iff, !bool_decide_eq_true,
    paneNodesEqual_true. unfold recordOfIdsEqual, activeIdsEqual.
  rewrite !keys_compare by done. split; [naive_solver eauto using Build_layout_equiv|].
  intros []. naive_solver.
Qed.

Example areEqual_iff_equiv_witness :
  let l := mkLayout vertical (js "a") Null [(js "a", [IdNum 1]); (js "b", [])] [] None in
  let r := mkLayout vertical (js "a") Null [(js "b", []); (js "a", [IdNum 1])] [] None in
  layout_equiv l r.
Proof.
  intros l r. apply (areEqual_iff_equiv l r); [| |reflexivity].
  - split; compute_done.
  - split; compute_done.
Defined.
