(* ===== verification/WorkspaceTabInvariant.v ===== *)
(** * WorkspaceTabInvariant: what a consistent split layout is

    The invariant the operations on split layouts (WorkspaceTabDrop,
    TerminalTabPlacement) keep: the panes of the tree are distinct, every tab
    is shown in exactly one pane of the tree, and the active tab of a pane is
    one of its tabs.  The file also holds the lemmas on updating one pane of
    the [paneTabIds] object that both components use. *)

From S2P Require Import Prelude WorkspaceTabLayout.

(** All tabs of a layout, pane by pane: [Object.values(paneTabIds).flat()]. *)
Definition allTabs (d : dict (list TabId)) : list TabId := concat (dvalues d).
#[global] Arguments allTabs : simpl never.

Record layout_wf (l : IWorkspaceTabSplitLayout) (r : IWorkspaceTabPaneNode) : Prop := {
  lw_panes : NoDup (collectPanes r);
  lw_keys : layout_keys l;
  lw_shown : ∀ p t, t ∈ tabsOf l p → p ∈ collectPanes r;
  lw_tabs : NoDup (allTabs (paneTabIds l));
  lw_active : ∀ p t, activeOf l p = Val t → t ∈ tabsOf l p;
  lw_activePane : activePane l ∈ collectPanes r;
}.

(** Entries of [paneTabIds], a missing one read as the empty list. *)
Notation tabsAt d p := (default [] (dget p d)).

Section pane_dict.
Implicit Types d : dict (list TabId).

Lemma allTabs_cons p ts d : allTabs ((p, ts) :: d) = ts ++ allTabs d.
Proof. done. Qed.

(** Replacing the tabs of one pane exchanges them in the whole. *)
Lemma allTabs_dset p ts d : allTabs (dset p ts d) ++ tabsAt d p ≡ₚ allTabs d ++ ts.
Proof.
  induction d as [|[p' ts'] d IH]; cbn.
  - unfold allTabs; cbn. by rewrite !app_nil_r.
  - case_decide; rewrite !allTabs_cons; cbn; [solve_Permutation|].
    by rewrite <-!(assoc_L (++)), IH.
Qed.

Lemma tabsAt_dset p ts d q : tabsAt (dset p ts d) q = if decide (p = q) then ts else tabsAt d q.
Proof. rewrite dget_dset. by case_decide. Qed.

Lemma tabsAt_allTabs p t d : t ∈ tabsAt d p → t ∈ allTabs d.
Proof.
  induction d as [|[p' ts] d IH]; cbn; [set_solver|].
  rewrite allTabs_cons, elem_of_app. case_decide; cbn; auto.
Qed.

Lemma allTabs_tabsAt t d : NoDup (dkeys d) → t ∈ allTabs d → ∃ p, t ∈ tabsAt d p.
Proof.
  intros Hk Hin. unfold allTabs, dvalues in Hin.
  apply list_elem_of_In, in_concat in Hin as (ts & Hts & Ht).
  apply list_elem_of_In, list_elem_of_fmap in Hts as ([p ts'] & -> & Hp).
  exists p. rewrite (elem_dget p ts') by done. by apply list_elem_of_In.
Qed.

Lemma NoDup_tabsAt p d : NoDup (allTabs d) → NoDup (tabsAt d p).
Proof.
  induction d as [|[p' ts] d IH]; cbn; [constructor|].
  rewrite allTabs_cons, NoDup_app. intros (? & _ & ?). case_decide; cbn; auto.
Qed.

(** A tab sits in one pane only. *)
Lemma tabsAt_unique p q t d : NoDup (allTabs d) → t ∈ tabsAt d p → t ∈ tabsAt d q → p = q.
Proof.
  induction d as [|[p' ts] d IH]; cbn; [set_solver|].
  rewrite allTabs_cons, NoDup_app. intros (_ & Hdisj & ?).
  repeat case_decide; subst; cbn; auto; intros Hp Hq.
  - by destruct (Hdisj t Hp); eapply tabsAt_allTabs.
  - by destruct (Hdisj t Hq); eapply tabsAt_allTabs.
Qed.
End pane_dict.

(** Removing one occurrence of an element that occurs once. *)
Lemma filter_neq_perm {A} `{EqDecision A} (x : A) xs :
  NoDup xs → x ∈ xs → xs ≡ₚ x :: filter (λ y, y ≠ x) xs.
Proof.
  induction 1 as [|y xs Hy Hxs IH]; [set_solver|].
  rewrite filter_cons, elem_of_cons. case_decide as E.
  - intros [?|Hin]; [done|]. rewrite (IH Hin) at 1. solve_Permutation.
  - intros _. subst y.
    by rewrite filter_all by (apply Forall_forall; intros z Hz ->; done).
Qed.

Lemma filter_neq_absent {A} `{EqDecision A} (x : A) (xs : list A) :
  x ∉ xs → filter (λ y, y ≠ x) xs = xs.
Proof. intros H. apply filter_all, Forall_forall. by intros z Hz ->. Qed.
