(* ===== verification/WorkspaceTabDrop.v ===== *)
(** * WorkspaceTabDrop: dropping a tab on the edge of a pane

    Models
    [apps/community-client/src/pages/main/workspace/components/WorkspaceTabs/workspaceTabDrop.ts]:
    the identifiers of the drop targets and the split layout that results from
    dropping a tab on one of the four edges of a pane. *)

From S2P Require Import Prelude UriComponent WorkspaceTabLayout WorkspaceTabInvariant.

(* ------------------------------------------------------------------ *)
(** ** Drop targets *)

Inductive WorkspaceTabDropPosition := Top | Right | Bottom | Left.

#[export] Instance position_eq_dec : EqDecision WorkspaceTabDropPosition.
Proof. solve_decision. Defined.

(** The string of a position. *)
Definition position_string (p : WorkspaceTabDropPosition) : jstr :=
  match p with
  | Top => js "top"
  | Right => js "right"
  | Bottom => js "bottom"
  | Left => js "left"
  end.

Definition WORKSPACE_TAB_EDGE_DROP_PREFIX : jstr := js "workspace-tab-edge:".

Definition WORKSPACE_TAB_DROP_POSITIONS : list WorkspaceTabDropPosition :=
  [Top; Right; Bottom; Left].

(** [None]: [encodeURIComponent] throws on a lone surrogate. *)
Definition getWorkspaceTabEdgeDropId (paneId : jstr) (position : WorkspaceTabDropPosition)
    : option jstr :=
  e ← encodeURIComponent paneId;
  Some (WORKSPACE_TAB_EDGE_DROP_PREFIX ++ e ++ ch ":" :: position_string position).

Definition getWorkspaceTabEdgeDropTarget (id : jstr)
    : option (jstr * WorkspaceTabDropPosition) :=
  if negb (startsWith WORKSPACE_TAB_EDGE_DROP_PREFIX id) then None else
  let target := drop (length WORKSPACE_TAB_EDGE_DROP_PREFIX) id in
  match lastIndexOf (ch ":") target with
  | None => None
  | Some separatorIndex =>
      match js_find (λ p, bool_decide (position_string p = drop (separatorIndex + 1) target))
              WORKSPACE_TAB_DROP_POSITIONS with
      | None => None
      | Some position =>
          match decodeURIComponent (take separatorIndex target) with
          | None => None
          | Some [] => None
          | Some paneId => Some (paneId, position)
          end
      end
  end.

Inductive Placement := first_half | second_half.

Definition getWorkspaceTabDropPlacement (position : WorkspaceTabDropPosition)
    : WorkspaceTabSplitDirection * Placement :=
  (match position with Left | Right => vertical | _ => horizontal end,
   match position with Left | Top => first_half | _ => second_half end).

Fixpoint hasPaneNode (node : IWorkspaceTabPaneNode) (paneId : jstr) : bool :=
  match node with
  | Pane id => bool_decide (id = paneId)
  | Split _ _ _ first second => hasPaneNode first paneId || hasPaneNode second paneId
  end.

(** [getActiveTabId]: the current active tab if it is still there, else the
    first tab, else [null]. *)
Definition getActiveTabId (tabIds : list TabId) (currentActiveTabId : nul TabId) : nul TabId :=
  match currentActiveTabId with
  | Val t => if includes t tabIds then Val t
             else match tabIds with t' :: _ => Val t' | [] => Null end
  | _ => match tabIds with t' :: _ => Val t' | [] => Null end
  end.

(* ------------------------------------------------------------------ *)
(** ** The split *)

Section edge_split.
Context (clock : Z → Z).

Definition createWorkspaceTabEdgeSplitLayout (currentLayout : IWorkspaceTabSplitLayout)
    (currentRoot : IWorkspaceTabPaneNode) (sourcePaneId : jstr) (sourceTabId : TabId)
    (targetPaneId newPaneId : jstr) (position : WorkspaceTabDropPosition)
    : Seq (option IWorkspaceTabSplitLayout) :=
  let sourcePaneTabIds := tabsOf currentLayout sourcePaneId in
  let targetPaneTabIds := tabsOf currentLayout targetPaneId in
  if negb (includes sourceTabId sourcePaneTabIds)
     || negb (hasPaneNode currentRoot targetPaneId)
     || (bool_decide (sourcePaneId = targetPaneId) && (length sourcePaneTabIds <=? 1))
  then mret None else
  let '(dir, newPanePlacement) := getWorkspaceTabDropPlacement position in
  let newPaneNode := Pane newPaneId in
  let targetPaneNode := Pane targetPaneId in
  replacement ←
    match newPanePlacement with
    | first_half => createWorkspaceTabSplitNode clock dir newPaneNode targetPaneNode None
    | second_half => createWorkspaceTabSplitNode clock dir targetPaneNode newPaneNode None
    end;
  let nextRoot := replaceWorkspaceTabPaneNode currentRoot targetPaneId replacement in
  let nextSourcePaneTabIds := filter (λ id, id ≠ sourceTabId) sourcePaneTabIds in
  let nextTargetPaneTabIds :=
    if decide (sourcePaneId = targetPaneId) then nextSourcePaneTabIds
    else filter (λ id, id ≠ sourceTabId) targetPaneTabIds in
  mret (Some
    {| direction := match nextRoot with Split _ d _ _ _ => d | Pane _ => dir end;
       activePane := newPaneId;
       lastNonTerminalActiveTabId := lastNonTerminalActiveTabId currentLayout;
       paneTabIds :=
         dset newPaneId [sourceTabId]
           (dset targetPaneId nextTargetPaneTabIds
             (dset sourcePaneId nextSourcePaneTabIds (paneTabIds currentLayout)));
       activeTabIds :=
         dset newPaneId (Val sourceTabId)
           (dset targetPaneId
             (getActiveTabId nextTargetPaneTabIds (activeOf currentLayout targetPaneId))
             (dset sourcePaneId
               (getActiveTabId nextSourcePaneTabIds (activeOf currentLayout sourcePaneId))
               (activeTabIds currentLayout)));
       root := Some nextRoot |}).
End edge_split.

(* ------------------------------------------------------------------ *)
(** ** Lemmas *)

Lemma hasPaneNode_true n p : hasPaneNode n p = true ↔ p ∈ collectPanes n.
Proof.
  induction n as [id|? ? ? f IHf g IHg]; cbn.
  - rewrite bool_decide_eq_true, list_elem_of_singleton. naive_solver.
  - by rewrite orb_true_iff, IHf, IHg, elem_of_app.
Qed.

Lemma getActiveTabId_elem ts cur t : getActiveTabId ts cur = Val t → t ∈ ts.
Proof.
  unfold getActiveTabId. destruct cur as [| |t'].
  1,2: destruct ts; intros; simplify_eq; set_solver.
  case_test; [autorewrite with js in *; naive_solver|].
  destruct ts; intros; simplify_eq; set_solver.
Qed.

(** Replacing a pane of a tree with distinct panes adds the new pane. *)
Lemma collect_replace_split n p q r :
  NoDup (collectPanes n) → p ∈ collectPanes n →
  collectPanes r ≡ₚ [q; p] →
  collectPanes (replaceWorkspaceTabPaneNode n p r) ≡ₚ q :: collectPanes n.
Proof.
  rewrite collect_replace. generalize (collectPanes n) as ps. intros ps Hnd Hp Hr.
  rewrite (filter_neq_perm p ps) by done. cbn. rewrite decide_True by done.
  rewrite Hr. cbn. do 2 f_equiv.
  clear Hnd Hp. induction ps as [|x ps IH]; cbn; [done|].
  case_decide; cbn; [by rewrite decide_False, IH|done].
Qed.

(** The tabs of every pane after the split: the new pane holds the dragged tab
    alone, the others lose it. *)
Lemma edge_tabsAt (d : dict (list TabId)) sp tp np t q :
  let L := filter (λ id, id ≠ t) (tabsAt d sp) in
  let T := if decide (sp = tp) then L else filter (λ id, id ≠ t) (tabsAt d tp) in
  NoDup (allTabs d) → t ∈ tabsAt d sp → np ≠ sp → np ≠ tp →
  tabsAt (dset np [t] (dset tp T (dset sp L d))) q =
    if decide (q = np) then [t] else filter (λ id, id ≠ t) (tabsAt d q).
Proof.
  intros L T Hnd Hin H1 H2. rewrite !tabsAt_dset. unfold T, L.
  destruct (decide (np = q)) as [->|Hq]; [by rewrite decide_True|].
  rewrite (decide_False (P:=q = np)) by done.
  destruct (decide (tp = q)) as [->|Htp]; [by case_decide; subst|].
  destruct (decide (sp = q)) as [->|Hsp]; [done|].
  rewrite filter_neq_absent; [done|]. intros Hx. by destruct (tabsAt_unique q sp t d Hnd Hx Hin).
Qed.

(** No tab is lost or duplicated by moving one into a fresh pane. *)
Lemma edge_allTabs (d : dict (list TabId)) sp tp np t :
  let L := filter (λ id, id ≠ t) (tabsAt d sp) in
  let T := if decide (sp = tp) then L else filter (λ id, id ≠ t) (tabsAt d tp) in
  NoDup (allTabs d) → t ∈ tabsAt d sp → np ∉ dkeys d → np ≠ sp → np ≠ tp →
  allTabs (dset np [t] (dset tp T (dset sp L d))) ≡ₚ allTabs d.
Proof.
  intros L T Hnd Ht Hnp Hsp Htp.
  assert (tabsAt d sp ≡ₚ t :: L) as HL by (apply filter_neq_perm; [by apply NoDup_tabsAt|done]).
  assert (tabsAt (dset sp L d) tp = T) as HT.
  { rewrite tabsAt_dset. unfold T. case_decide as E; [done|].
    rewrite filter_neq_absent; [done|]. intros Ht'. by apply E, (tabsAt_unique sp tp t d). }
  assert (allTabs (dset tp T (dset sp L d)) ≡ₚ allTabs (dset sp L d)) as H1.
  { apply (Permutation_app_inv_r T). by rewrite <-HT at 2; rewrite allTabs_dset. }
  assert (t :: allTabs (dset sp L d) ≡ₚ allTabs d) as H2.
  { apply (Permutation_app_inv_r L). rewrite <-allTabs_dset, HL. solve_Permutation. }
  assert (np ∉ dkeys (dset tp T (dset sp L d))) by (rewrite !elem_dkeys_dset; naive_solver).
  rewrite dset_fresh by done. unfold allTabs, dvalues. rewrite fmap_app, concat_app.
  fold (dvalues (dset tp T (dset sp L d))). fold (allTabs (dset tp T (dset sp L d))).
  cbn. rewrite H1, <-H2. solve_Permutation.
Qed.

(** The active tab of every pane after the split is one of its tabs. *)
Lemma edge_active (l : IWorkspaceTabSplitLayout) sp tp np t p t' :
  let L := filter (λ id, id ≠ t) (tabsOf l sp) in
  let T := if decide (sp = tp) then L else filter (λ id, id ≠ t) (tabsOf l tp) in
  NoDup (allTabs (paneTabIds l)) → t ∈ tabsOf l sp →
  (∀ p t, activeOf l p = Val t → t ∈ tabsOf l p) →
  default Undefined (dget p (dset np (Val t) (dset tp (getActiveTabId T (activeOf l tp))
    (dset sp (getActiveTabId L (activeOf l sp)) (activeTabIds l))))) = Val t' →
  t' ∈ if decide (p = np) then [t] else filter (λ id, id ≠ t) (tabsOf l p).
Proof.
  intros L T Hnd Hin Ha. rewrite !dget_dset.
  destruct (decide (np = p)) as [->|Hnp]; cbn.
  { rewrite decide_True by done. intros; simplify_eq. set_solver. }
  rewrite (decide_False (P:=p = np)) by done.
  destruct (decide (tp = p)) as [->|Htp]; cbn.
  { intros H%getActiveTabId_elem. unfold T in H. by case_decide; subst. }
  destruct (decide (sp = p)) as [->|Hsp]; cbn; [by intros H%getActiveTabId_elem|].
  intros H%Ha. apply list_elem_of_filter. split; [|done]. intros ->.
  by apply Hsp, (tabsAt_unique sp p t (paneTabIds l)).
Qed.

(** The conditions under which the code refuses the drop. *)
Definition drop_refused (l : IWorkspaceTabSplitLayout) (r : IWorkspaceTabPaneNode)
    (sp : jstr) (t : TabId) (tp : jstr) : Prop :=
  t ∉ tabsOf l sp ∨ tp ∉ collectPanes r ∨ (sp = tp ∧ length (tabsOf l sp) ≤ 1).

Lemma drop_guard l r sp t tp :
  negb (includes t (tabsOf l sp)) || negb (hasPaneNode r tp)
    || (bool_decide (sp = tp) && (length (tabsOf l sp) <=? 1)) = true
  ↔ drop_refused l r sp t tp.
Proof.
  unfold drop_refused. rewrite !orb_true_iff, !negb_true_iff, andb_true_iff, bool_decide_eq_true,
    Nat.leb_le, includes_false, <-(not_true_iff_false (hasPaneNode r tp)), hasPaneNode_true.
  tauto.
Qed.

(** The layout an accepted drop produces. *)
Lemma edge_split_inv clock l r sp t tp np pos s l' s' :
  createWorkspaceTabEdgeSplitLayout clock l r sp t tp np pos s = (Some l', s') →
  ∃ repl,
    let L := filter (λ id, id ≠ t) (tabsOf l sp) in
    let T := if decide (sp = tp) then L else filter (λ id, id ≠ t) (tabsOf l tp) in
    ¬ drop_refused l r sp t tp ∧
    collectPanes repl =
      match (getWorkspaceTabDropPlacement pos).2 with
      | first_half => [np; tp] | second_half => [tp; np] end ∧
    root l' = Some (replaceWorkspaceTabPaneNode r tp repl) ∧
    activePane l' = np ∧
    paneTabIds l' = dset np [t] (dset tp T (dset sp L (paneTabIds l))) ∧
    activeTabIds l' = dset np (Val t)
      (dset tp (getActiveTabId T (activeOf l tp))
        (dset sp (getActiveTabId L (activeOf l sp)) (activeTabIds l))).
Proof.
  unfold createWorkspaceTabEdgeSplitLayout. intros H.
  destruct (negb _ || negb _ || _) eqn:E; [done|].
  rewrite <-not_true_iff_false, drop_guard in E.
  destruct pos; run_seq H; unfold createWorkspaceTabSplitNode in H; run_seq H; simplify_eq;
    eexists; cbv zeta; (split_and!; [done| |done..]); done.
Qed.

(* ------------------------------------------------------------------ *)
(** ** Properties *)

(** C31: an accepted edge drop keeps the layout consistent: the tree gains exactly
    the new pane, next to the target pane on the dropped side; no tab of the
    layout is lost or duplicated; the dragged tab is alone and active in the
    new pane, and every other pane keeps its tabs without it. *)
Theorem edge_split_preserves clock l r sp t tp np pos s l' s' :
  createWorkspaceTabEdgeSplitLayout clock l r sp t tp np pos s = (Some l', s') →
  layout_wf l r → np ∉ collectPanes r → np ∉ dkeys (paneTabIds l) →
  ∃ r', root l' = Some r' ∧ layout_wf l' r' ∧
    collectPanes r' = (collectPanes r ≫= λ q,
      if decide (q = tp)
      then match (getWorkspaceTabDropPlacement pos).2 with
           | first_half => [np; tp] | second_half => [tp; np] end
      else [q]) ∧
    allTabs (paneTabIds l') ≡ₚ allTabs (paneTabIds l) ∧
    activePane l' = np ∧ tabsOf l' np = [t] ∧ activeOf l' np = Val t ∧
    (∀ p, p ≠ np → tabsOf l' p = filter (λ id, id ≠ t) (tabsOf l p)).
Proof.
  intros (repl & Hok & Hrepl & Hroot & Hap & Htabs & Hact)%edge_split_inv [Hn [Hk1 Hk2] Hs Ht Ha _] Hnp Hnp'.
  unfold drop_refused in Hok.
  assert (t ∈ tabsOf l sp) as Hin by (apply dec_stable; tauto).
  assert (tp ∈ collectPanes r) as Htp by (apply dec_stable; tauto).
  assert (np ≠ tp ∧ np ≠ sp) as [Hne1 Hne2].
  { split; intros ->; [done|]. by apply Hnp, (Hs sp t). }
  assert (∀ q, tabsOf l' q = if decide (q = np) then [t] else filter (λ id, id ≠ t) (tabsOf l q)) as Hq.
  { intros q. unfold tabsOf at 1. rewrite Htabs. by apply edge_tabsAt. }
  assert (collectPanes (replaceWorkspaceTabPaneNode r tp repl) ≡ₚ np :: collectPanes r) as Hperm.
  { apply collect_replace_split; [done..|]. rewrite Hrepl.
    destruct (getWorkspaceTabDropPlacement pos).2; [done|solve_Permutation]. }
  assert (allTabs (paneTabIds l') ≡ₚ allTabs (paneTabIds l)) as Hall.
  { rewrite Htabs. by apply edge_allTabs. }
  eexists. split; [exact Hroot|]. split_and!.
  - split.
    + rewrite Hperm. by constructor.
    + split; rewrite ?Htabs, ?Hact; auto with js.
    + intros p t'. rewrite Hq, Hperm, elem_of_cons. destruct (decide (p = np)); [intros _; by left|].
      rewrite list_elem_of_filter. intros [_ ?]. right. by apply (Hs p t').
    + by rewrite Hall.
    + intros p t' Hv. rewrite Hq. unfold activeOf in Hv. rewrite Hact in Hv.
      by apply (edge_active l sp tp).
    + rewrite Hap, Hperm. by left.
  - by rewrite collect_replace, Hrepl.
  - done.
  - done.
  - by rewrite Hq, decide_True.
  - unfold activeOf. by rewrite Hact, dget_dset_eq.
  - intros p Hp. by rewrite Hq, decide_False.
Qed.

(** The layout used by the witnesses: two panes, three tabs. *)
Definition sample_root : IWorkspaceTabPaneNode :=
  Split (Some (js "split_1_1")) vertical None (Pane (js "source")) (Pane (js "target")).
Definition sample_layout : IWorkspaceTabSplitLayout :=
  {| direction := vertical; activePane := js "source"; lastNonTerminalActiveTabId := Undefined;
     paneTabIds := [(js "source", [IdStr (js "a"); IdNum 2]); (js "target", [IdNum 3])];
     activeTabIds := [(js "source", Val (IdNum 2)); (js "target", Val (IdNum 3))];
     root := Some sample_root |}.

Lemma sample_layout_wf : layout_wf sample_layout sample_root.
Proof.
  split; [by compute_done|split; by compute_done| |by compute_done| |by compute_done];
    intros p t; unfold tabsOf, activeOf; cbn; repeat case_decide; subst; cbn;
    intros; simplify_eq; set_solver.
Qed.

Example edge_split_preserves_witness :
  let out := fst (createWorkspaceTabEdgeSplitLayout (λ _, 0%Z) sample_layout sample_root
    (js "source") (IdNum 2) (js "target") (js "new") Top 4%Z) in
  match out with
  | Some l' => tabsOf l' (js "new") = [IdNum 2] ∧ tabsOf l' (js "source") = [IdStr (js "a")]
  | None => False
  end.
Proof.
  destruct (edge_split_preserves (λ _, 0%Z) sample_layout sample_root (js "source") (IdNum 2)
    (js "target") (js "new") Top 4%Z _ _ eq_refl sample_layout_wf)
    as (r' & _ & _ & _ & _ & _ & Hnew & _ & Hold).
  - apply (bool_decide_unpack _). vm_compute. exact I.
  - apply (bool_decide_unpack _). vm_compute. exact I.
  - split; [exact Hnew|]. rewrite Hold; [reflexivity|discriminate].
Defined.

(** An edge drop is refused exactly when the dragged tab is not in the
    source pane, the target pane is not in the tree, or a pane would be split
    off its own only tab; a refused drop draws no node identifier. *)
Theorem edge_split_refused clock l r sp t tp np pos s :
  (∃ s', createWorkspaceTabEdgeSplitLayout clock l r sp t tp np pos s = (None, s'))
  ↔ drop_refused l r sp t tp.
Proof.
  rewrite <-drop_guard. unfold createWorkspaceTabEdgeSplitLayout.
  destruct (negb _ || negb _ || _); [split; [done|by eexists]|].
  split; [|done]. intros [s' H]. destruct pos; run_seq H;
    unfold createWorkspaceTabSplitNode in H; run_seq H; done.
Qed.

(** The drop-target identifier of a pane and an edge is read back as that
    pane and that edge, for every non-empty pane identifier that is a
    well-formed string (separators, percent signs and non-ASCII included). *)
Theorem drop_id_roundtrip paneId position :
  wf_utf16 paneId = true → paneId ≠ [] →
  ∃ id, getWorkspaceTabEdgeDropId paneId position = Some id ∧
        getWorkspaceTabEdgeDropTarget id = Some (paneId, position).
Proof.
  intros Hwf Hne. destruct (decode_encode paneId Hwf) as (e & He & Hd).
  unfold getWorkspaceTabEdgeDropId. rewrite He. eexists. split; [done|].
  unfold getWorkspaceTabEdgeDropTarget. rewrite startsWith_app, drop_app_length. cbn [negb].
  rewrite lastIndexOf_app by (destruct position; compute_done).
  rewrite take_app_length, Hd.
  replace (drop (length e + 1) (e ++ ch ":" :: position_string position))
    with (position_string position) by (rewrite <-drop_drop, drop_app_length; done).
  destruct paneId; [done|]. by destruct position.
Qed.

Example drop_id_roundtrip_witness :
  ∃ id, getWorkspaceTabEdgeDropId (js "pane:with/slashes") Left = Some id ∧
        getWorkspaceTabEdgeDropTarget id = Some (js "pane:with/slashes", Left).
Proof. apply drop_id_roundtrip; [vm_compute; reflexivity|discriminate]. Defined.
