(* ===== verification/WorkspaceTab.v ===== *)
(** * WorkspaceTab: the tabs of the workspace

    The types of [apps/community-client/src/typings/workspace.ts] and
    [constants/workspace.ts] the tab operations work on, and the choice of the
    next active tab when tabs are closed
    ([pages/main/workspace/components/WorkspaceTabs/workspaceTabSelection.ts]). *)

From S2P Require Import Prelude WorkspaceTabLayout WorkspaceTabInvariant.

(* ------------------------------------------------------------------ *)
(** ** Data *)

Inductive WorkspaceTabType :=
  | LocalSQLFile | CONSOLE | FUNCTION | PROCEDURE | VIEW | TRIGGER | EditTable | ViewView
  | CreateTable | EditTableData | ViewAllTable | ViewAllView | ViewERModal | RedisAllData
  | AccountPrivileges | ActiveTransactions | ContentDiff | Terminal.

#[export] Instance WorkspaceTabType_eq_dec : EqDecision WorkspaceTabType.
Proof. solve_decision. Defined.

(** ['tab' | 'bottom' | 'right']. *)
Inductive TerminalOpenPosition := PosTab | PosBottom | PosRight.

#[export] Instance TerminalOpenPosition_eq_dec : EqDecision TerminalOpenPosition.
Proof. solve_decision. Defined.

(** The fields of [uniqueData] the modelled operations read, and the others. *)
Record IBoundInfo := mkBoundInfo {
  ddl : option jstr;
  filePreviewMimeType : option jstr;
  terminalOpenPosition : option TerminalOpenPosition;
  boundRest : dict jstr;
}.

Record IWorkspaceTab := mkTab {
  tabId : TabId;
  tabType : WorkspaceTabType;
  title : jstr;
  uniqueData : option IBoundInfo;
  pinned : option bool;
}.

(* ------------------------------------------------------------------ *)
(** ** Closing tabs *)

(** [id is string | number]: a present identifier, not closed, still listed. *)
Definition isAvailableTabId (closeTabIds : list TabId) (tabs : list IWorkspaceTab)
    (id : nul TabId) : bool :=
  match id with
  | Val t => negb (includes t closeTabIds) && includes t (tabId <$> tabs)
  | _ => false
  end.

(** The pane whose tab list holds the tab; an empty pane name is falsy. *)
Definition findActivePane (d : dict (list TabId)) (t : TabId) : option jstr :=
  match js_find (λ p, includes t (default [] (dget p d))) (dkeys d) with
  | Some (c :: p) => Some (c :: p)
  | _ => None
  end.

(** The position of a tab in a list that holds it. *)
Fixpoint findTabIndex (t : TabId) (ts : list TabId) : nat :=
  match ts with
  | [] => 0
  | t' :: ts' => if decide (t' = t) then 0 else S (findTabIndex t ts')
  end.

(** The candidates in the active pane: the nearest available tab before the
    closed one, the nearest after it, then any. *)
Definition paneCandidate (avail : nul TabId → bool) (ts : list TabId) (t : TabId) : option TabId :=
  let activeIndex := findTabIndex t ts in
  match js_find (λ x, avail (Val x)) (reverse (take activeIndex ts)) with
  | Some x => Some x
  | None =>
      match js_find (λ x, avail (Val x)) (drop (activeIndex + 1) ts) with
      | Some x => Some x
      | None => js_find (λ x, avail (Val x)) ts
      end
  end.

(** The candidates outside the active pane. *)
Definition otherCandidate (avail : nul TabId → bool) (layout : IWorkspaceTabSplitLayout)
    (activePaneId : jstr) : nul TabId :=
  if avail (lastNonTerminalActiveTabId layout) then lastNonTerminalActiveTabId layout else
  let otherActive := (filter (λ e, e.1 ≠ activePaneId) (activeTabIds layout)).*2 in
  match js_find avail otherActive with
  | Some v => v
  | None =>
      let otherTabs := concat ((filter (λ e, e.1 ≠ activePaneId) (paneTabIds layout)).*2) in
      match js_find (λ x, avail (Val x)) otherTabs with
      | Some x => Val x
      | None => Undefined
      end
  end.

Definition getNextActiveWorkspaceTabIdAfterClose (activeConsoleId : nul TabId)
    (closeTabIds : list TabId) (layout : option IWorkspaceTabSplitLayout)
    (orderedNextWorkspaceTabList : list IWorkspaceTab) : nul TabId :=
  match activeConsoleId with
  | Undefined | Null => Null
  | Val active =>
      if negb (includes active closeTabIds) then Val active else
      match last orderedNextWorkspaceTabList with
      | None => Null
      | Some lastTab =>
          let avail := isAvailableTabId closeTabIds orderedNextWorkspaceTabList in
          let fallback := Val (tabId lastTab) in
          match layout with
          | None => fallback
          | Some l =>
              match findActivePane (paneTabIds l) active with
              | None => fallback
              | Some activePaneId =>
                  match paneCandidate avail (tabsOf l activePaneId) active with
                  | Some x => Val x
                  | None =>
                      match otherCandidate avail l activePaneId with
                      | Undefined => fallback
                      | v => v
                      end
                  end
              end
          end
      end
  end.

(* ------------------------------------------------------------------ *)
(** ** Lemmas *)

Lemma isAvailable_spec close tabs v :
  isAvailableTabId close tabs v = true ↔ ∃ t, v = Val t ∧ t ∉ close ∧ t ∈ tabId <$> tabs.
Proof.
  destruct v; cbn; [naive_solver..|].
  rewrite andb_true_iff, negb_true_iff. autorewrite with js. naive_solver.
Qed.

Lemma paneCandidate_avail avail ts t x : paneCandidate avail ts t = Some x → avail (Val x) = true.
Proof.
  unfold paneCandidate. intros H.
  destruct (js_find _ (reverse _)) eqn:E1; [by apply js_find_Some in E1 as [_ ?]; simplify_eq|].
  destruct (js_find _ (drop _ _)) eqn:E2; [by apply js_find_Some in E2 as [_ ?]; simplify_eq|].
  by apply js_find_Some in H as [_ ?].
Qed.

Lemma otherCandidate_avail avail l p :
  otherCandidate avail l p = Undefined ∨ avail (otherCandidate avail l p) = true.
Proof.
  unfold otherCandidate. case_test; [by right|].
  destruct (js_find avail _) eqn:E1; [right; by apply js_find_Some in E1 as [_ ?]|].
  destruct (js_find _ (concat _)) eqn:E2; [right; by apply js_find_Some in E2 as [_ ?]|by left].
Qed.

Lemma findTabIndex_app pre t post :
  t ∉ pre → findTabIndex t (pre ++ t :: post) = length pre.
Proof.
  induction pre as [|x pre IH]; cbn; intros H; [by rewrite decide_True|].
  rewrite decide_False by set_solver. by rewrite IH by set_solver.
Qed.

Lemma findActivePane_unique d p t :
  NoDup (dkeys d) → NoDup (allTabs d) → p ≠ [] → t ∈ tabsAt d p → findActivePane d t = Some p.
Proof.
  intros Hk Hnd Hp Ht. unfold findActivePane.
  destruct (js_find _ _) as [q|] eqn:E.
  - apply js_find_Some in E as [_ Hq]. autorewrite with js in Hq.
    rewrite (tabsAt_unique q p t d) by done. by destruct p.
  - rewrite js_find_None in E. destruct (dget p d) as [ts|] eqn:Ep; [|set_solver].
    specialize (E p). rewrite Ep in E. autorewrite with js in E. destruct E; [|done].
    apply dget_is_Some. eauto.
Qed.

(* ------------------------------------------------------------------ *)
(** ** Properties *)

(** Closing tabs never leaves a closed or vanished tab active: when the
    active tab is closed and tabs remain (none of them closed), the next active
    tab is one of them; when none remains there is no active tab; and an active
    tab that is not closed stays active. *)
Theorem next_active_available active close layout tabs :
  (∀ t, t ∈ tabId <$> tabs → t ∉ close) →
  let next := getNextActiveWorkspaceTabIdAfterClose (Val active) close layout tabs in
  if includes active close then
    if decide (tabs = []) then next = Null
    else ∃ t, next = Val t ∧ t ∈ tabId <$> tabs ∧ t ∉ close
  else next = Val active.
Proof.
  intros Hclose. cbn. destruct (includes active close) eqn:E; cbn; [|done].
  destruct (last tabs) as [lastTab|] eqn:El.
  2: { apply last_None in El as ->. done. }
  rewrite decide_False by (intros ->; done).
  assert (∃ t, Val (tabId lastTab) = Val t ∧ t ∈ tabId <$> tabs ∧ t ∉ close) as Hlast.
  { eexists. split; [done|]. apply last_Some in El as [tabs' ->].
    rewrite fmap_app, elem_of_app in *. cbn. split; [set_solver|]. apply Hclose. set_solver. }
  destruct layout as [l|]; [|done]. destruct (findActivePane _ _) as [p|]; [|done].
  destruct (paneCandidate _ _ _) as [x|] eqn:Ec.
  { apply paneCandidate_avail, isAvailable_spec in Ec as (t & ? & ? & ?). simplify_eq. eauto. }
  destruct (otherCandidate_avail (isAvailableTabId close tabs) l p) as [->|Ha]; [done|].
  apply isAvailable_spec in Ha as (t & -> & ? & ?). eauto.
Qed.

Example next_active_available_witness :
  ∃ t, getNextActiveWorkspaceTabIdAfterClose (Val (IdNum 1)) [IdNum 1] None
         [mkTab (IdNum 2) CONSOLE [] None None] = Val t ∧
       t ∈ tabId <$> [mkTab (IdNum 2) CONSOLE [] None None] ∧ t ∉ [IdNum 1].
Proof.
  apply (next_active_available (IdNum 1) [IdNum 1] None [mkTab (IdNum 2) CONSOLE [] None None]).
  intros t. cbn. rewrite !list_elem_of_singleton. by intros ->.
Defined.

(** Within a split pane, closing the active tab activates the nearest tab
    to its left that is still available, else the nearest to its right. *)
Theorem next_active_nearest active close l tabs p pre post pre1 x pre2 :
  NoDup (dkeys (paneTabIds l)) → NoDup (allTabs (paneTabIds l)) → p ≠ [] →
  tabsOf l p = pre ++ active :: post → active ∈ close →
  let avail t := t ∉ close ∧ t ∈ tabId <$> tabs in
  (pre = pre1 ++ x :: pre2 ∧ avail x ∧ (∀ y, y ∈ pre2 → ¬ avail y) ∨
   post = pre1 ++ x :: pre2 ∧ avail x ∧ (∀ y, y ∈ pre → ¬ avail y) ∧ (∀ y, y ∈ pre1 → ¬ avail y)) →
  getNextActiveWorkspaceTabIdAfterClose (Val active) close (Some l) tabs = Val x.
Proof.
  intros Hk Hnd Hp Htabs Hac avail Hx.
  assert (active ∉ pre) as Hpre.
  { apply (NoDup_tabsAt p) in Hnd. unfold tabsOf in Htabs. rewrite Htabs in Hnd.
    apply NoDup_app in Hnd as (_ & Hd & _). intros Hin. by destruct (Hd _ Hin); left. }
  assert (∃ lt, last tabs = Some lt) as [lt Hlt].
  { destruct (last tabs) eqn:El; [eauto|]. apply last_None in El as ->.
    exfalso. unfold avail in Hx. set_solver. }
  assert (∀ y, isAvailableTabId close tabs (Val y) = true ↔ avail y) as Hav.
  { intros y. rewrite isAvailable_spec. unfold avail. naive_solver. }
  cbn. rewrite (proj2 (includes_true _ _) Hac), Hlt. cbn.
  rewrite (findActivePane_unique _ p) by (done || unfold tabsOf in Htabs; rewrite Htabs; set_solver).
  rewrite Htabs. unfold paneCandidate. rewrite findTabIndex_app, take_app_length by done.
  rewrite Nat.add_1_r, drop_app_ge by lia. replace (S (length pre) - length pre) with 1 by lia. cbn.
  assert (∀ y, ¬ avail y → isAvailableTabId close tabs (Val y) = false) as Hno.
  { intros y Hy. apply not_true_is_false. by rewrite Hav. }
  destruct Hx as [(-> & Hx & H2)|(-> & Hx & Hpre' & H1)]; apply Hav in Hx.
  - rewrite reverse_app, reverse_cons, <-(assoc_L (++)). cbn [app].
    rewrite (js_find_first _ (reverse pre2)); [done| |done].
    intros y Hy. apply Hno, H2. by apply elem_of_reverse.
  - rewrite (proj2 (js_find_None _ (reverse pre))).
    + rewrite drop_0, (js_find_first _ pre1); [done| |done]. intros y Hy. by apply Hno, H1.
    + intros y Hy. apply Hno, Hpre'. by apply elem_of_reverse.
Qed.

Definition closing_layout : IWorkspaceTabSplitLayout :=
  mkLayout vertical (js "p") Undefined [(js "p", IdNum <$> [1; 2; 3]%Z)] [] None.

Example next_active_nearest_witness :
  getNextActiveWorkspaceTabIdAfterClose (Val (IdNum 2)) [IdNum 2] (Some closing_layout)
    [mkTab (IdNum 1) CONSOLE [] None None; mkTab (IdNum 3) CONSOLE [] None None] = Val (IdNum 1).
Proof.
  apply (next_active_nearest (IdNum 2) [IdNum 2] closing_layout _ (js "p") [IdNum 1] [IdNum 3]
           [] (IdNum 1) []); [compute_done|compute_done|done|done|compute_done|].
  left. split_and!; [done|compute_done|compute_done|]. set_solver.
Defined.
