(* ===== verification/TerminalTabPlacement.v ===== *)
(** * TerminalTabPlacement: docking terminal tabs

    Models
    [apps/community-client/src/pages/main/workspace/components/WorkspaceTabs/terminalTabPlacement.ts]:
    terminals that open at the bottom or at the right get a pane of their own,
    created at the edge of the layout when it is missing.

    [applyTerminalTabOpenPositions] is a loop of [dockTerminalTab] over the
    terminals no pane shows yet; the lemma [dock_step] is the effect of one
    iteration and [dock_all] that of the loop. *)

From S2P Require Import Prelude WorkspaceTabLayout WorkspaceTabInvariant WorkspaceTabDrop WorkspaceTab.

(* ------------------------------------------------------------------ *)
(** ** Positions *)

Definition MAIN_WORKSPACE_TAB_PANE : jstr := js "main".

(** [Exclude<TerminalOpenPosition, 'tab'>]. *)
Inductive DockPosition := DockBottom | DockRight.

#[export] Instance DockPosition_eq_dec : EqDecision DockPosition.
Proof. solve_decision. Defined.

Definition TERMINAL_PANE_IDS (position : DockPosition) : jstr :=
  match position with
  | DockBottom => js "terminal-panel:bottom"
  | DockRight => js "terminal-panel:right"
  end.

(** The type guard gives the narrowed value. *)
Definition isTerminalDockPosition (value : option TerminalOpenPosition) : option DockPosition :=
  match value with
  | Some PosBottom => Some DockBottom
  | Some PosRight => Some DockRight
  | _ => None
  end.

Definition isTerminalDockPaneId (paneId : jstr) : bool :=
  includes paneId [TERMINAL_PANE_IDS DockBottom; TERMINAL_PANE_IDS DockRight].

(** [position === 'right' ? 'vertical' : 'horizontal'], and the size. *)
Definition dockDirection (position : DockPosition) : WorkspaceTabSplitDirection :=
  match position with DockRight => vertical | DockBottom => horizontal end.

Definition dockSize (position : DockPosition) : NodeSize :=
  SizeStr (match position with DockRight => js "70%" | DockBottom => js "65%" end).

(** The dock a tab asks for, when it is a docked terminal. *)
Definition dockOf (tab : IWorkspaceTab) : option DockPosition :=
  if decide (tabType tab = Terminal) then isTerminalDockPosition (uniqueData tab ≫= terminalOpenPosition)
  else None.

(** [workspaceTabs.find(tab => tab.id === id)]. *)
Definition findTab (workspaceTabs : list IWorkspaceTab) (id : nul TabId) : option IWorkspaceTab :=
  match id with
  | Val t => js_find (λ tab, bool_decide (tabId tab = t)) workspaceTabs
  | _ => None
  end.

Definition notTerminal (tab : IWorkspaceTab) : bool := negb (bool_decide (tabType tab = Terminal)).

Definition resolveLastNonTerminalActiveTabId (workspaceTabs : list IWorkspaceTab)
    (activeTabId fallbackTabId : nul TabId) : nul TabId :=
  let firstNonTerminal :=
    match js_find notTerminal workspaceTabs with Some tab => Val (tabId tab) | None => Null end in
  let fallback :=
    match findTab workspaceTabs fallbackTabId with
    | Some tab => if notTerminal tab then Val (tabId tab) else firstNonTerminal
    | None => firstNonTerminal
    end in
  match findTab workspaceTabs activeTabId with
  | Some tab => if notTerminal tab then Val (tabId tab) else fallback
  | None => fallback
  end.

(* ------------------------------------------------------------------ *)
(** ** Placement *)

Section placement.
Context (clock : Z → Z).

(** [paneIds.slice(1).reduce(...)]. *)
Fixpoint splitAll (dir : WorkspaceTabSplitDirection) (node : IWorkspaceTabPaneNode)
    (paneIds : list jstr) : Seq IWorkspaceTabPaneNode :=
  match paneIds with
  | [] => mret node
  | paneId :: paneIds =>
      node' ← createWorkspaceTabSplitNode clock dir node (Pane paneId) None;
      splitAll dir node' paneIds
  end.

Definition createRootFromLayout (layout : IWorkspaceTabSplitLayout) : Seq IWorkspaceTabPaneNode :=
  match root layout with
  | Some root => mret root
  | None =>
      let paneIds := filter (λ p, tabsOf layout p ≠ []) (dkeys (paneTabIds layout)) in
      splitAll (direction layout)
        (Pane (or_else (default [] (head paneIds)) MAIN_WORKSPACE_TAB_PANE)) (tail paneIds)
  end.

Definition setRoot (layout : IWorkspaceTabSplitLayout) (node : IWorkspaceTabPaneNode)
    : IWorkspaceTabSplitLayout :=
  {| direction := direction layout; activePane := activePane layout;
     lastNonTerminalActiveTabId := lastNonTerminalActiveTabId layout;
     paneTabIds := paneTabIds layout; activeTabIds := activeTabIds layout; root := Some node |}.

(** The body of [pendingTerminalTabs.forEach]; [node] is [nextLayout.root!]. *)
Definition dockTerminalTab (position : DockPosition) (tab : TabId)
    (nextLayout : IWorkspaceTabSplitLayout) (node : IWorkspaceTabPaneNode)
    : Seq IWorkspaceTabSplitLayout :=
  let paneId := TERMINAL_PANE_IDS position in
  if includes paneId (collectPanes node) then
    mret {| direction := direction nextLayout;
            activePane := paneId;
            lastNonTerminalActiveTabId := lastNonTerminalActiveTabId nextLayout;
            paneTabIds := dset paneId (tabsOf nextLayout paneId ++ [tab]) (paneTabIds nextLayout);
            activeTabIds := dset paneId (Val tab) (activeTabIds nextLayout);
            root := root nextLayout |}
  else
    nextRoot ← createWorkspaceTabSplitNode clock (dockDirection position) node (Pane paneId)
                 (Some (dockSize position));
    mret {| direction := dockDirection position;
            activePane := paneId;
            lastNonTerminalActiveTabId := lastNonTerminalActiveTabId nextLayout;
            paneTabIds := dset paneId [tab] (paneTabIds nextLayout);
            activeTabIds := dset paneId (Val tab) (activeTabIds nextLayout);
            root := Some nextRoot |}.

(** The loop; the root is set before it starts and stays so. *)
Fixpoint dockAll (pending : list (DockPosition * TabId)) (nextLayout : IWorkspaceTabSplitLayout)
    : Seq IWorkspaceTabSplitLayout :=
  match pending with
  | [] => mret nextLayout
  | (position, tab) :: pending =>
      nextLayout' ←
        match root nextLayout with
        | Some node => dockTerminalTab position tab nextLayout node
        | None => mret nextLayout
        end;
      dockAll pending nextLayout'
  end.

(** The docked terminals no pane of the layout shows yet, with their docks. *)
Definition pendingTerminalTabs (assigned : list TabId) (workspaceTabs : list IWorkspaceTab)
    : list (DockPosition * TabId) :=
  omap (λ tab, position ← dockOf tab;
               if includes (tabId tab) assigned then None else Some (position, tabId tab))
    workspaceTabs.

(** The layout with a single main pane, for a workspace that had none. *)
Definition initialLayout (workspaceTabs : list IWorkspaceTab) (pendingIds : list TabId)
    (activeTabId : nul TabId) : option IWorkspaceTabSplitLayout :=
  match tabId <$> filter (λ tab, tabId tab ∉ pendingIds) workspaceTabs with
  | [] => None
  | mainTabIds =>
      Some {| direction := vertical;
              activePane := MAIN_WORKSPACE_TAB_PANE;
              lastNonTerminalActiveTabId :=
                resolveLastNonTerminalActiveTabId workspaceTabs activeTabId Undefined;
              paneTabIds := [(MAIN_WORKSPACE_TAB_PANE, mainTabIds)];
              activeTabIds :=
                [(MAIN_WORKSPACE_TAB_PANE, getActiveTabId mainTabIds activeTabId)];
              root := Some (Pane MAIN_WORKSPACE_TAB_PANE) |}
  end.

(** The pane of the active tab becomes the active pane. *)
Definition focusActiveTab (activeTabId : nul TabId) (nextLayout : IWorkspaceTabSplitLayout)
    : IWorkspaceTabSplitLayout :=
  match activeTabId with
  | Val t =>
      match findActivePane (paneTabIds nextLayout) t with
      | Some activePane =>
          {| direction := direction nextLayout; activePane := activePane;
             lastNonTerminalActiveTabId := lastNonTerminalActiveTabId nextLayout;
             paneTabIds := paneTabIds nextLayout;
             activeTabIds := dset activePane (Val t) (activeTabIds nextLayout);
             root := root nextLayout |}
      | None => nextLayout
      end
  | _ => nextLayout
  end.

Definition applyTerminalTabOpenPositions (layout : option IWorkspaceTabSplitLayout)
    (workspaceTabs : list IWorkspaceTab) (activeTabId : nul TabId)
    : Seq (option IWorkspaceTabSplitLayout) :=
  let assignedTabIds := match layout with Some l => allTabs (paneTabIds l) | None => [] end in
  let pending := pendingTerminalTabs assignedTabIds workspaceTabs in
  if decide (pending = []) then mret layout else
  start ←
    match layout with
    | Some l => (node ← createRootFromLayout l; mret (Some (setRoot l node)))
    | None => mret (initialLayout workspaceTabs pending.*2 activeTabId)
    end;
  match start with
  | None => mret None
  | Some nextLayout =>
      docked ← dockAll pending nextLayout;
      mret (Some (focusActiveTab activeTabId docked))
  end.

Definition setLastNonTerminal (layout : IWorkspaceTabSplitLayout) (t : nul TabId)
    : IWorkspaceTabSplitLayout :=
  {| direction := direction layout; activePane := activePane layout;
     lastNonTerminalActiveTabId := t;
     paneTabIds := paneTabIds layout; activeTabIds := activeTabIds layout; root := root layout |}.

(** The empty dock pane [prepareTerminalTabLayout] adds ahead of the terminal. *)
Definition prepareDock (layout : option IWorkspaceTabSplitLayout)
    (workspaceTabs : list IWorkspaceTab) (activeTabId : nul TabId) (position : DockPosition)
    : Seq (option IWorkspaceTabSplitLayout) :=
  let paneId := TERMINAL_PANE_IDS position in
  let dir := dockDirection position in
  let dockedTerminalIds := tabId <$> filter (λ tab, is_Some (dockOf tab)) workspaceTabs in
  let mainTabIds := tabId <$> filter (λ tab, tabId tab ∉ dockedTerminalIds) workspaceTabs in
  if decide (mainTabIds = []) then mret layout else
  match layout with
  | None =>
      node ← createWorkspaceTabSplitNode clock dir (Pane MAIN_WORKSPACE_TAB_PANE) (Pane paneId)
               (Some (dockSize position));
      mret (Some
        {| direction := dir;
           activePane := MAIN_WORKSPACE_TAB_PANE;
           lastNonTerminalActiveTabId :=
             resolveLastNonTerminalActiveTabId workspaceTabs activeTabId Undefined;
           paneTabIds := [(MAIN_WORKSPACE_TAB_PANE, mainTabIds); (paneId, [])];
           activeTabIds := [(MAIN_WORKSPACE_TAB_PANE, getActiveTabId mainTabIds activeTabId);
                            (paneId, Null)];
           root := Some node |})
  | Some l =>
      node ← createRootFromLayout l;
      if includes paneId (collectPanes node) then mret (Some l) else
      node' ← createWorkspaceTabSplitNode clock dir node (Pane paneId) (Some (dockSize position));
      mret (Some
        {| direction := dir;
           activePane := activePane l;
           lastNonTerminalActiveTabId := lastNonTerminalActiveTabId l;
           paneTabIds := dset paneId [] (paneTabIds l);
           activeTabIds := dset paneId Null (activeTabIds l);
           root := Some node' |})
  end.

Definition prepareTerminalTabLayout (layout : option IWorkspaceTabSplitLayout)
    (workspaceTabs : list IWorkspaceTab) (activeTabId : nul TabId)
    (preferredOpenPosition : TerminalOpenPosition) : Seq (option IWorkspaceTabSplitLayout) :=
  let prepared :=
    (λ l, setLastNonTerminal l
            (resolveLastNonTerminalActiveTabId workspaceTabs activeTabId
               (lastNonTerminalActiveTabId l))) <$> layout in
  preparedLayout ←
    match isTerminalDockPosition (Some preferredOpenPosition) with
    | Some position => prepareDock prepared workspaceTabs activeTabId position
    | None => mret prepared
    end;
  applyTerminalTabOpenPositions preparedLayout workspaceTabs activeTabId.
End placement.

(* ------------------------------------------------------------------ *)
(** ** Lemmas *)

(** The terminals of [pending] that go to pane [p]. *)
Definition pendingAt (p : jstr) (pending : list (DockPosition * TabId)) : list TabId :=
  (filter (λ e, TERMINAL_PANE_IDS e.1 = p) pending).*2.

(** The dock panes [pending] adds to a tree with the panes [ps]. *)
Fixpoint newDocks (ps : list jstr) (pending : list (DockPosition * TabId)) : list jstr :=
  match pending with
  | [] => []
  | (position, _) :: pending =>
      let p := TERMINAL_PANE_IDS position in
      if includes p ps then newDocks ps pending else p :: newDocks (ps ++ [p]) pending
  end.

Lemma TERMINAL_PANE_IDS_not_nil position : TERMINAL_PANE_IDS position ≠ [].
Proof. by destruct position. Qed.

#[export] Instance TERMINAL_PANE_IDS_inj : Inj (=) (=) TERMINAL_PANE_IDS.
Proof. by intros [] []. Qed.

Lemma pendingAt_main pending : pendingAt MAIN_WORKSPACE_TAB_PANE pending = [].
Proof. unfold pendingAt. induction pending as [|[[] t] ps IH]; [done|exact IH..]. Qed.

(** Appending to one pane a tab no pane shows. *)
Lemma allTabs_append p t (d : dict (list TabId)) :
  allTabs (dset p (tabsAt d p ++ [t]) d) ≡ₚ t :: allTabs d.
Proof. apply (Permutation_app_inv_r (tabsAt d p)). rewrite allTabs_dset. solve_Permutation. Qed.

(** The tree of a docked layout is consistent: the tab is appended to its dock
    pane [p], which the tree [r'] holds. *)
Lemma append_wf l r l' r' p t :
  layout_wf l r → t ∉ allTabs (paneTabIds l) →
  NoDup (collectPanes r') → collectPanes r ⊆ collectPanes r' → p ∈ collectPanes r' →
  paneTabIds l' = dset p (tabsOf l p ++ [t]) (paneTabIds l) →
  activeTabIds l' = dset p (Val t) (activeTabIds l) → activePane l' = p →
  layout_wf l' r'.
Proof.
  intros [Hps [Hk1 Hk2] Hsh Htabs Hact Hap] Ht Hnd Hsub Hp Htab' Hact' Hap'.
  assert (∀ q, tabsOf l' q = tabsOf l q ++ if decide (p = q) then [t] else []) as Hof.
  { intros q. unfold tabsOf. rewrite Htab', tabsAt_dset.
    case_decide; [by subst|by rewrite app_nil_r]. }
  constructor; [done|split| | | |by rewrite Hap'].
  - rewrite Htab'. by apply NoDup_dkeys_dset.
  - rewrite Hact'. by apply NoDup_dkeys_dset.
  - intros q u. rewrite Hof, elem_of_app. intros [Hu|Hu]; [eauto|].
    case_decide; [by subst|set_solver].
  - rewrite Htab'. unfold tabsOf. rewrite allTabs_append. by constructor.
  - intros q u. unfold activeOf. rewrite Hact', dget_dset, Hof, elem_of_app.
    case_decide; cbn; [intros; simplify_eq; right; set_solver|]. intros. left. by apply Hact.
Qed.

Section lemmas.
Context (clock : Z → Z).

Lemma dock_step position t l r s l' s' :
  layout_wf l r → root l = Some r → t ∉ allTabs (paneTabIds l) →
  dockTerminalTab clock position t l r s = (l', s') →
  let p := TERMINAL_PANE_IDS position in
  paneTabIds l' = dset p (tabsOf l p ++ [t]) (paneTabIds l) ∧
  ∃ r', root l' = Some r' ∧ layout_wf l' r' ∧
    collectPanes r' = collectPanes r ++ (if includes p (collectPanes r) then [] else [p]).
Proof.
  intros Hwf Hr Ht Hrun p. unfold dockTerminalTab, createWorkspaceTabSplitNode in Hrun. fold p in Hrun.
  destruct (includes p (collectPanes r)) eqn:E; run_seq Hrun;
    simplify_eq; autorewrite with js in E; cbn [paneTabIds root].
  - split; [done|]. exists r. rewrite app_nil_r. split_and!; [done| |done].
    eapply append_wf; try done. apply Hwf.
  - assert (tabsOf l p = []) as Hp.
    { destruct (tabsOf l p) as [|u ?] eqn:Ep; [done|].
      destruct E. apply (lw_shown l r Hwf p u). rewrite Ep. set_solver. }
    split; [by rewrite Hp|]. eexists. split_and!; [done| |done].
    eapply append_wf; try done; cbn; [| set_solver..|by rewrite Hp].
    apply NoDup_app. split_and!; [apply Hwf| |apply NoDup_singleton].
    intros x Hx. rewrite list_elem_of_singleton. by intros ->.
Qed.

(** The whole loop. *)
Lemma dock_all pending l r s l' s' :
  layout_wf l r → root l = Some r → NoDup pending.*2 →
  (∀ t, t ∈ pending.*2 → t ∉ allTabs (paneTabIds l)) →
  dockAll clock pending l s = (l', s') →
  (∀ p, tabsOf l' p = tabsOf l p ++ pendingAt p pending) ∧
  allTabs (paneTabIds l') ≡ₚ allTabs (paneTabIds l) ++ pending.*2 ∧
  ∃ r', root l' = Some r' ∧ layout_wf l' r' ∧
    collectPanes r' = collectPanes r ++ newDocks (collectPanes r) pending.
Proof.
  revert l r s. induction pending as [|[pos t] pending IH]; intros l r s Hwf Hr Hnd Hfresh Hrun.
  - run_seq Hrun. simplify_eq. split_and!; [intros p; by rewrite app_nil_r|by rewrite app_nil_r|].
    exists r. by rewrite app_nil_r.
  - cbn in Hnd. apply NoDup_cons in Hnd as [Ht Hnd].
    run_seq Hrun. rewrite Hr in Hrun.
    destruct (dockTerminalTab clock pos t l r s) as [l1 s1] eqn:E.
    destruct (dock_step _ _ _ _ _ _ _ Hwf Hr (Hfresh t ltac:(cbn; set_solver)) E)
      as (Hd & r1 & Hr1 & Hwf1 & Hc1).
    assert (allTabs (paneTabIds l1) ≡ₚ t :: allTabs (paneTabIds l)) as Hall.
    { rewrite Hd. apply allTabs_append. }
    destruct (IH l1 r1 s1 Hwf1 Hr1 Hnd) as (Htabs & Hall' & r' & ? & ? & Hc'); [|done|].
    { intros u Hu. rewrite Hall. cbn in Hfresh. set_solver. }
    split_and!.
    + intros p. rewrite Htabs. unfold tabsOf in *. rewrite Hd, tabsAt_dset.
      unfold pendingAt. rewrite filter_cons. cbn [fst].
      repeat case_decide; subst; try done. by rewrite <-(assoc_L (++)).
    + rewrite Hall', Hall. cbn. solve_Permutation.
    + exists r'. split_and!; [done..|]. rewrite Hc', Hc1. cbn.
      destruct (includes _ _); [by rewrite app_nil_r|]. by rewrite <-(assoc_L (++)).
Qed.
End lemmas.

(** Focusing the active tab moves no tab and keeps the layout consistent. *)
Lemma focus_tabs a l : paneTabIds (focusActiveTab a l) = paneTabIds l.
Proof. by destruct a; cbn; repeat case_match. Qed.

Lemma focus_root a l : root (focusActiveTab a l) = root l.
Proof. by destruct a; cbn; repeat case_match. Qed.

Lemma findActivePane_Some d p t : findActivePane d t = Some p → t ∈ tabsAt d p ∧ p ∈ dkeys d.
Proof.
  unfold findActivePane. destruct (js_find _ _) as [[|c q]|] eqn:E; intros; simplify_eq.
  apply js_find_Some in E as [? E]. by rewrite includes_true in E.
Qed.

Lemma focus_wf a l r : layout_wf l r → layout_wf (focusActiveTab a l) r.
Proof.
  intros Hwf. destruct a as [| |t]; cbn; [done..|].
  destruct (findActivePane _ _) as [p|] eqn:E; [|done]. apply findActivePane_Some in E as [Hp _].
  destruct Hwf as [? [??] ? ? Hact ?]. constructor; try done; cbn.
  - split; [done|]. by apply NoDup_dkeys_dset.
  - intros q u. unfold activeOf; cbn. rewrite dget_dset.
    case_decide; cbn; [intros; by simplify_eq|apply Hact].
  - unfold tabsOf in *. eauto.
Qed.

Lemma elem_pending assigned tabs pos t :
  (pos, t) ∈ pendingTerminalTabs assigned tabs ↔
  ∃ tab, tab ∈ tabs ∧ dockOf tab = Some pos ∧ tabId tab = t ∧ t ∉ assigned.
Proof.
  unfold pendingTerminalTabs. rewrite list_elem_of_omap. f_equiv. intros tab.
  destruct (dockOf tab) as [q|]; cbn; [|naive_solver].
  case_test; autorewrite with js in *; naive_solver.
Qed.

Lemma pending_sublist assigned tabs :
  (pendingTerminalTabs assigned tabs).*2 `sublist_of` (tabId <$> tabs).
Proof.
  induction tabs as [|tab tabs IH]; cbn; [done|].
  destruct (dockOf tab); cbn; [|by constructor]. by destruct (includes _ _); constructor.
Qed.

(** Once every docked terminal is shown by some pane, nothing is pending. *)
Lemma pending_none assigned assigned' tabs :
  (∀ t, t ∈ assigned ∨ t ∈ (pendingTerminalTabs assigned tabs).*2 → t ∈ assigned') →
  pendingTerminalTabs assigned' tabs = [].
Proof.
  intros H. destruct (pendingTerminalTabs assigned' tabs) as [|[pos t] ps] eqn:E; [done|].
  assert ((pos, t) ∈ pendingTerminalTabs assigned' tabs) as Hin by (rewrite E; set_solver).
  apply elem_pending in Hin as (tab & Htab & Hdock & Ht & Hno). destruct Hno. apply H.
  destruct (decide (t ∈ assigned)); [by left|right]. apply list_elem_of_fmap.
  exists (pos, t). split; [done|]. apply elem_pending. eauto.
Qed.

Lemma setRoot_wf l r : layout_wf l r → layout_wf (setRoot l r) r.
Proof. by intros []; constructor. Qed.

(** The tabs that stay in the main pane of a fresh layout. *)
Definition mainIds (tabs : list IWorkspaceTab) : list TabId :=
  tabId <$> filter (λ tab, tabId tab ∉ (pendingTerminalTabs [] tabs).*2) tabs.

Lemma initial_wf tabs a l :
  NoDup (tabId <$> tabs) → initialLayout tabs (pendingTerminalTabs [] tabs).*2 a = Some l →
  layout_wf l (Pane MAIN_WORKSPACE_TAB_PANE) ∧ root l = Some (Pane MAIN_WORKSPACE_TAB_PANE) ∧
  paneTabIds l = [(MAIN_WORKSPACE_TAB_PANE, mainIds tabs)].
Proof.
  unfold initialLayout. fold (mainIds tabs). intros Hnd H.
  assert (NoDup (mainIds tabs)).
  { eapply NoDup_sublist, Hnd. apply fmap_sublist, sublist_filter. }
  destruct (mainIds tabs) as [|m ms]; [done|]. simplify_eq. split_and!; [|done..].
  constructor; try done; cbn.
  - apply NoDup_singleton.
  - split; apply NoDup_singleton.
  - intros p t. unfold tabsOf; cbn. case_decide; cbn; set_solver.
  - unfold allTabs; cbn. by rewrite app_nil_r.
  - intros p t. unfold activeOf, tabsOf; cbn. case_decide; cbn; [apply getActiveTabId_elem|done].
  - set_solver.
Qed.

Lemma main_split tabs :
  NoDup (tabId <$> tabs) → mainIds tabs ++ (pendingTerminalTabs [] tabs).*2 ≡ₚ tabId <$> tabs.
Proof.
  intros Hnd. apply NoDup_Permutation; [|done|].
  - apply NoDup_app. split_and!.
    + eapply NoDup_sublist, Hnd. apply fmap_sublist, sublist_filter.
    + intros t Ht Hp. apply list_elem_of_fmap in Ht as (tab & -> & Ht).
      by apply list_elem_of_filter in Ht as [? _].
    + eapply NoDup_sublist, Hnd. apply pending_sublist.
  - intros t. unfold mainIds. rewrite elem_of_app. split.
    + intros [Ht|Ht]; [|by eapply elem_of_submseteq, sublist_submseteq, pending_sublist].
      eapply elem_of_submseteq, sublist_submseteq, fmap_sublist, sublist_filter; done.
    + intros (tab & -> & Ht)%list_elem_of_fmap.
      destruct (decide (tabId tab ∈ (pendingTerminalTabs [] tabs).*2)); [by right|left].
      apply list_elem_of_fmap. exists tab. by rewrite list_elem_of_filter.
Qed.

(** What a run that has something to dock does, from the layout [l0] it
    starts the loop with. *)
Section apply_run.
Context (clock : Z → Z).

Lemma apply_run pending l0 r0 a s l' s' :
  layout_wf l0 r0 → root l0 = Some r0 → NoDup pending.*2 →
  (∀ t, t ∈ pending.*2 → t ∉ allTabs (paneTabIds l0)) →
  (docked ← dockAll clock pending l0; mret (Some (focusActiveTab a docked))) s = (l', s') →
  ∃ l1, l' = Some (focusActiveTab a l1) ∧
    (∀ p, tabsOf l1 p = tabsOf l0 p ++ pendingAt p pending) ∧
    allTabs (paneTabIds l1) ≡ₚ allTabs (paneTabIds l0) ++ pending.*2 ∧
    ∃ r', root l1 = Some r' ∧ layout_wf l1 r' ∧
      collectPanes r' = collectPanes r0 ++ newDocks (collectPanes r0) pending.
Proof.
  intros Hwf Hr Hnd Hfresh Hrun. unfold mbind, Seq_bind in Hrun.
  destruct (dockAll clock pending l0 s) as [l1 s1] eqn:E. unfold mret, Seq_ret in Hrun.
  simplify_eq. exists l1. split; [done|]. by eapply dock_all.
Qed.

Lemma pending_fresh assigned tabs t :
  t ∈ (pendingTerminalTabs assigned tabs).*2 → t ∉ assigned.
Proof.
  intros ([pos ?] & -> & H)%list_elem_of_fmap. by apply elem_pending in H as (? & ? & ? & ? & ?).
Qed.

(** Either nothing is pending, or the run is the loop on a consistent
    layout, or there is no tab left for a main pane. *)
Lemma apply_start layout tabs a s res s' :
  let assigned := match layout with Some l => allTabs (paneTabIds l) | None => [] end in
  let pending := pendingTerminalTabs assigned tabs in
  NoDup (tabId <$> tabs) →
  (∀ l, layout = Some l → layout_wf l (createRootFromLayout clock l s).1) →
  applyTerminalTabOpenPositions clock layout tabs a s = (res, s') →
  (pending = [] ∧ res = layout ∧ s' = s) ∨
  (pending ≠ [] ∧ layout = None ∧ mainIds tabs = [] ∧ res = None) ∨
  (pending ≠ [] ∧ ∃ l0 r0 s0, layout_wf l0 r0 ∧ root l0 = Some r0 ∧
    match layout with
    | Some l => l0 = setRoot l (createRootFromLayout clock l s).1
    | None => paneTabIds l0 = [(MAIN_WORKSPACE_TAB_PANE, mainIds tabs)] ∧
              r0 = Pane MAIN_WORKSPACE_TAB_PANE
    end ∧
    (docked ← dockAll clock pending l0; mret (Some (focusActiveTab a docked))) s0 = (res, s')).
Proof.
  intros assigned pending Hnd Hwf Hrun. unfold applyTerminalTabOpenPositions in Hrun.
  fold assigned pending in Hrun. destruct (decide (pending = [])) as [Hp|Hp].
  { left. unfold mret, Seq_ret in Hrun. by simplify_eq. }
  right. destruct layout as [l|].
  - right. split; [done|]. specialize (Hwf l eq_refl). unfold mbind, Seq_bind in Hrun.
    destruct (createRootFromLayout clock l s) as [r0 s0] eqn:E.
    exists (setRoot l r0), r0, s0. split_and!; [by apply setRoot_wf|done|done|exact Hrun].
  - subst pending assigned. unfold mbind, Seq_bind, mret, Seq_ret in Hrun.
    destruct (initialLayout tabs (pendingTerminalTabs [] tabs).*2 a) as [l0|] eqn:E.
    + right. split; [done|]. apply initial_wf in E as E'; [|done].
      destruct E' as (? & ? & ?). exists l0, (Pane MAIN_WORKSPACE_TAB_PANE), s.
      by split_and!.
    + left. simplify_eq. split_and!; try done.
      unfold initialLayout in E. fold (mainIds tabs) in E. by case_match.
Qed.
End apply_run.

(** The active tab, when a pane shows it, gets the focus. *)
Definition focused (a : nul TabId) (l : IWorkspaceTabSplitLayout) : Prop :=
  ∀ t p, a = Val t → p ≠ [] → t ∈ tabsOf l p → activePane l = p ∧ activeOf l p = Val t.

Lemma focus_focused a l r : layout_wf l r → focused a (focusActiveTab a l).
Proof.
  intros Hwf t p -> Hp Ht. unfold tabsOf in Ht. rewrite focus_tabs in Ht. cbn.
  rewrite (findActivePane_unique _ p) by (done || apply Hwf). cbn.
  split; [done|]. unfold activeOf; cbn. by rewrite dget_dset_eq.
Qed.

Lemma tabsOf_focus a l p : tabsOf (focusActiveTab a l) p = tabsOf l p.
Proof. unfold tabsOf. by rewrite focus_tabs. Qed.

(* ------------------------------------------------------------------ *)
(** ** Properties *)

(** C16: docking the pending terminals of a consistent layout moves nothing
    else: every pane keeps its tabs in order, the terminals are appended to the
    pane of the position they ask for in their order in the workspace, the tree
    keeps its panes in order and only gains the missing dock panes, the result
    is consistent, and the active tab has the focus. *)
Theorem terminal_docking clock l tabs a s l' s' :
  let pending := pendingTerminalTabs (allTabs (paneTabIds l)) tabs in
  let r := (createRootFromLayout clock l s).1 in
  NoDup (tabId <$> tabs) → layout_wf l r → pending ≠ [] →
  applyTerminalTabOpenPositions clock (Some l) tabs a s = (Some l', s') →
  (∀ p, tabsOf l' p = tabsOf l p ++ pendingAt p pending) ∧ focused a l' ∧
  ∃ r', root l' = Some r' ∧ layout_wf l' r' ∧
    collectPanes r' = collectPanes r ++ newDocks (collectPanes r) pending.
Proof.
  intros pending r Hnd Hwf Hp Hrun.
  destruct (apply_start clock (Some l) tabs a s (Some l') s' Hnd ltac:(naive_solver) Hrun)
    as [[? _]|[(_ & ? & _)|(_ & l0 & r0 & s0 & Hwf0 & Hr0 & -> & Hloop)]]; [done..|].
  cbn in Hr0. assert (r0 = r) as -> by naive_solver.
  destruct (apply_run clock _ _ _ _ _ _ _ Hwf0 Hr0 (NoDup_sublist _ _ (pending_sublist _ _) Hnd)
    (pending_fresh _ _) Hloop) as (l1 & ? & Htabs & Hall & r' & ? & ? & ?). simplify_eq.
  split_and!; [|by eapply focus_focused|].
  - intros p. by rewrite tabsOf_focus, Htabs.
  - exists r'. rewrite focus_root. auto using focus_wf.
Qed.

Definition terminal_tab (n : Z) (position : TerminalOpenPosition) : IWorkspaceTab :=
  mkTab (IdNum n) Terminal [] (Some (mkBoundInfo None None (Some position) [])) None.

Example terminal_docking_witness :
  ∃ l', (applyTerminalTabOpenPositions id (Some closing_layout)
           [terminal_tab 7 PosBottom; mkTab (IdNum 1) CONSOLE [] None None] (Val (IdNum 1)) 0%Z).1
        = Some l' ∧ tabsOf l' (js "terminal-panel:bottom") = [IdNum 7].
Proof.
  eexists. split; [vm_compute; reflexivity|].
  refine (proj1 (terminal_docking id closing_layout
    [terminal_tab 7 PosBottom; mkTab (IdNum 1) CONSOLE [] None None] (Val (IdNum 1)) 0%Z _ 1%Z
    _ _ _ _) _); [compute_done| |done|vm_compute; reflexivity].
  constructor; [compute_done|split; compute_done| |compute_done| |compute_done].
  - intros p t. unfold tabsOf; cbn. case_decide; cbn; set_solver.
  - intros p t. done.
Defined.

(** When the workspace had no split layout, docking terminals creates one
    that shows every tab exactly once, the tabs that are not docked in the
    main pane; there is none to create when every tab is a docked terminal. *)
Theorem terminal_fresh_layout clock tabs a s res s' :
  NoDup (tabId <$> tabs) → pendingTerminalTabs [] tabs ≠ [] →
  applyTerminalTabOpenPositions clock None tabs a s = (res, s') →
  match res with
  | None => mainIds tabs = []
  | Some l => (∃ r, root l = Some r ∧ layout_wf l r) ∧
              tabsOf l MAIN_WORKSPACE_TAB_PANE = mainIds tabs ∧
              allTabs (paneTabIds l) ≡ₚ tabId <$> tabs
  end.
Proof.
  intros Hnd Hp Hrun.
  destruct (apply_start clock None tabs a s res s' Hnd ltac:(done) Hrun)
    as [[? _]|[(_ & _ & ? & ->)|(_ & l0 & r0 & s0 & Hwf0 & Hr0 & [Hd ->] & Hloop)]]; [done..|].
  assert (allTabs (paneTabIds l0) = mainIds tabs) as Hall0.
  { rewrite Hd. unfold allTabs; cbn. by rewrite app_nil_r. }
  assert (∀ t, t ∈ (pendingTerminalTabs [] tabs).*2 → t ∉ allTabs (paneTabIds l0)) as Hfresh.
  { intros t Ht Hin. rewrite Hall0 in Hin. pose proof (main_split tabs Hnd) as Hs.
    rewrite <-Hs in Hnd. apply NoDup_app in Hnd as (_ & Hdis & _). by apply (Hdis t). }
  destruct (apply_run clock _ _ _ _ _ _ _ Hwf0 Hr0 (NoDup_sublist _ _ (pending_sublist _ _) Hnd)
    Hfresh Hloop) as (l1 & -> & Htabs & Hall & r' & ? & ? & ?).
  split_and!.
  - exists r'. rewrite focus_root. auto using focus_wf.
  - rewrite tabsOf_focus, Htabs. unfold tabsOf. rewrite Hd. cbn.
    by rewrite pendingAt_main, app_nil_r.
  - by rewrite focus_tabs, Hall, Hall0, main_split.
Qed.

Example terminal_fresh_layout_witness :
  mainIds [terminal_tab 7 PosBottom] = [].
Proof.
  apply (terminal_fresh_layout id [terminal_tab 7 PosBottom] Null 0%Z None 0%Z);
    [compute_done|done|reflexivity].
Defined.

(** Docking is idempotent: once it has run, every docked terminal is shown,
    and running it again changes nothing. *)
Theorem terminal_idempotent clock layout tabs a s res s' :
  NoDup (tabId <$> tabs) →
  (∀ l, layout = Some l → layout_wf l (createRootFromLayout clock l s).1) →
  applyTerminalTabOpenPositions clock layout tabs a s = (res, s') →
  applyTerminalTabOpenPositions clock res tabs a s' = (res, s').
Proof.
  intros Hnd Hwf Hrun.
  destruct (apply_start clock layout tabs a s res s' Hnd Hwf Hrun)
    as [(Hp & -> & ->)|[(_ & -> & _ & ->)|(_ & l0 & r0 & s0 & Hwf0 & Hr0 & Hlay & Hloop)]].
  - done.
  - unfold applyTerminalTabOpenPositions, mbind, Seq_bind, mret, Seq_ret in *.
    case_decide; [done|]. by destruct (initialLayout _ _ _); [case_match|].
  - assert (∃ l1, res = Some (focusActiveTab a l1) ∧
      allTabs (paneTabIds l1) ≡ₚ allTabs (paneTabIds l0) ++
        (pendingTerminalTabs (match layout with Some l => allTabs (paneTabIds l) | None => [] end)
           tabs).*2) as (l1 & -> & Hall).
    { edestruct apply_run as (l1 & -> & _ & ? & _); [exact Hwf0|exact Hr0| | |exact Hloop|eauto].
      - eapply NoDup_sublist, Hnd. apply pending_sublist.
      - intros t Ht. destruct layout as [l|]; [subst l0; by eapply pending_fresh|].
        destruct Hlay as [-> _]. unfold allTabs; cbn. rewrite app_nil_r. intros Hin.
        rewrite <-main_split in Hnd by done. apply NoDup_app in Hnd as (_ & Hd & _).
        by apply (Hd t). }
    unfold applyTerminalTabOpenPositions. rewrite focus_tabs. rewrite decide_True; [done|].
    eapply pending_none. intros t [Ht|Ht]; rewrite Hall, elem_of_app; [left|by right; apply Ht].
    destruct layout as [l|]; [by subst l0|]. set_solver.
Qed.

Example terminal_idempotent_witness :
  applyTerminalTabOpenPositions id None [terminal_tab 7 PosBottom] Null 0%Z = (None, 0%Z).
Proof.
  apply (terminal_idempotent id None [terminal_tab 7 PosBottom] Null 0%Z None 0%Z);
    [compute_done|done|reflexivity].
Defined.
