(* ===== verification/WorkspaceTabPersistence.v ===== *)
(** * WorkspaceTabPersistence: what of the workspace is stored

    Models
    [apps/community-client/src/store/workspace/utils/workspaceTabPersistence.ts]:
    the part of the tab state that is written to the browser storage and the
    normalisation of the panel layout read back from it.

    The tabs of the model hold plain data (identifiers, texts, flags), on which
    [JSON.parse(JSON.stringify(tabs, replacer))] is a deep copy, so the copy is
    the list itself; the effect of the replacer on functions and cycles is the
    subject of PersistenceReplacer. *)

From Stdlib Require Import QArith.
From S2P Require Import Prelude WorkspaceTabLayout WorkspaceTab.
Close Scope Q_scope.

(* ------------------------------------------------------------------ *)
(** ** The panel layout *)

(** A value read from the storage: [typeof] and, for a number, whether it is
    finite. *)
Inductive JsValue :=
  | JsUndefined
  | JsNull
  | JsBool (b : bool)
  | JsFinite (q : Q)
  | JsNotFinite
  | JsOther.

(** [ConfigState['layout']], with the fields as they may come from the storage. *)
Record RawLayout := mkRaw {
  rawPanelLeft : JsValue;
  rawPanelLeftWidth : JsValue;
  rawPanelRight : JsValue;
  rawPanelRightWidth : JsValue;
}.

Record PanelLayout := mkPanelLayout {
  panelLeft : bool;
  panelLeftWidth : Q;
  panelRight : bool;
  panelRightWidth : Q;
}.

Definition initConfigState : PanelLayout := mkPanelLayout true 260 true 300.

(** [Math.max(0, q)]. *)
Definition max0 (q : Q) : Q := if Qle_bool q 0 then 0%Q else q.

Definition normalizedWidth (width : JsValue) (initial : Q) : Q :=
  match width with JsFinite q => max0 q | _ => initial end.

Definition getPersistableWorkspaceLayout (layout : RawLayout) : PanelLayout :=
  let normalizedPanelLeftWidth :=
    normalizedWidth (rawPanelLeftWidth layout) (panelLeftWidth initConfigState) in
  let leftWidth :=
    match rawPanelLeft layout with JsBool false => 0%Q | _ => normalizedPanelLeftWidth end in
  let rightWidth := normalizedWidth (rawPanelRightWidth layout) (panelRightWidth initConfigState) in
  {| panelLeft := negb (Qle_bool leftWidth 0);
     panelLeftWidth := leftWidth;
     panelRight := match rawPanelRight layout with JsBool b => b | _ => false end;
     panelRightWidth := rightWidth |}.

(** A stored layout: [None] for a value that is no object, and for each field
    whether the object has it. *)
Record StoredLayout := mkStored {
  storedPanelLeft : option JsValue;
  storedPanelLeftWidth : option JsValue;
  storedPanelRight : option JsValue;
  storedPanelRightWidth : option JsValue;
}.

Definition rawLayout (l : PanelLayout) : RawLayout :=
  mkRaw (JsBool (panelLeft l)) (JsFinite (panelLeftWidth l))
    (JsBool (panelRight l)) (JsFinite (panelRightWidth l)).

Definition getHydratedWorkspaceLayout (currentLayout : PanelLayout)
    (persistedLayout : option StoredLayout) : PanelLayout :=
  let storedLayout := default (mkStored None None None None) persistedLayout in
  let current := rawLayout currentLayout in
  getPersistableWorkspaceLayout
    (mkRaw (default (rawPanelLeft current) (storedPanelLeft storedLayout))
       (default (rawPanelLeftWidth current) (storedPanelLeftWidth storedLayout))
       (default (rawPanelRight current) (storedPanelRight storedLayout))
       (default (rawPanelRightWidth current) (storedPanelRightWidth storedLayout))).

(* ------------------------------------------------------------------ *)
(** ** The tabs *)

Definition MAX_PERSISTED_TABS : nat := 100.

Definition capPersistedTabs (tabs : list IWorkspaceTab) : list IWorkspaceTab :=
  if decide (MAX_PERSISTED_TABS < length tabs) then take_last MAX_PERSISTED_TABS tabs else tabs.

Definition stripLocalFileContent (tab : IWorkspaceTab) : IWorkspaceTab :=
  match tabType tab, uniqueData tab with
  | LocalSQLFile, Some data =>
      mkTab (tabId tab) (tabType tab) (title tab)
        (Some (mkBoundInfo None (filePreviewMimeType data) (terminalOpenPosition data)
                 (boundRest data)))
        (pinned tab)
  | _, _ => tab
  end.

(** [!tab.uniqueData?.filePreviewMimeType]: absent or empty. *)
Definition isPersistable (tab : IWorkspaceTab) : Prop :=
  tabType tab ≠ Terminal ∧
  match uniqueData tab ≫= filePreviewMimeType with Some (_ :: _) => False | _ => True end.

#[export] Instance isPersistable_dec tab : Decision (isPersistable tab).
Proof. unfold isPersistable. repeat case_match; apply _. Defined.

(** [None] is [null] or [undefined]. *)
Definition getPersistableWorkspaceTabList (workspaceTabList : option (list IWorkspaceTab))
    : option (list IWorkspaceTab) :=
  match workspaceTabList with
  | None | Some [] => workspaceTabList
  | Some tabs =>
      Some (capPersistedTabs (stripLocalFileContent <$> filter isPersistable tabs))
  end.

(** A truthy identifier. *)
Definition truthyId (t : TabId) : bool :=
  match t with IdStr [] => false | IdNum 0 => false | _ => true end.

(** The active tab among tabs with these identifiers. *)
Definition activeAmong (active : nul TabId) (ids : list TabId) : nul TabId :=
  match ids with
  | [] => Null
  | id0 :: _ =>
      match active with
      | Val t => if includes t ids then (if truthyId t then Val t else Null) else Val id0
      | _ => Val id0
      end
  end.

Definition getPersistableActiveConsoleId (activeConsoleId : nul TabId)
    (workspaceTabList : option (list IWorkspaceTab)) : nul TabId :=
  activeAmong activeConsoleId (tabId <$> default [] workspaceTabList).

Record PersistedWorkspaceTabsState := mkPersisted {
  workspaceTabList : option (list IWorkspaceTab);
  activeConsoleId : nul TabId;
  recentlyClosedWorkspaceTabs : option (list IWorkspaceTab);
}.

Definition sanitizePersistedWorkspaceTabsState (state : PersistedWorkspaceTabsState)
    : PersistedWorkspaceTabsState :=
  let tabs := getPersistableWorkspaceTabList (workspaceTabList state) in
  {| workspaceTabList := tabs;
     activeConsoleId := getPersistableActiveConsoleId (activeConsoleId state) tabs;
     recentlyClosedWorkspaceTabs :=
       Some (default [] (getPersistableWorkspaceTabList (recentlyClosedWorkspaceTabs state))) |}.

(* ------------------------------------------------------------------ *)
(** ** Lemmas *)

Lemma capPersistedTabs_take tabs : capPersistedTabs tabs = take_last MAX_PERSISTED_TABS tabs.
Proof. unfold capPersistedTabs. case_decide; [done|]. by rewrite take_last_all by lia. Qed.

Lemma take_last_idemp {A} n (xs : list A) : take_last n (take_last n xs) = take_last n xs.
Proof. apply take_last_all. rewrite length_take_last. lia. Qed.

Lemma strip_idemp tab : stripLocalFileContent (stripLocalFileContent tab) = stripLocalFileContent tab.
Proof. by destruct tab as [? [] ? [[]|] ?]. Qed.

Lemma strip_id tab : tabId (stripLocalFileContent tab) = tabId tab.
Proof. by destruct tab as [? [] ? [[]|] ?]. Qed.

Lemma strip_persistable tab : isPersistable (stripLocalFileContent tab) ↔ isPersistable tab.
Proof. by destruct tab as [? [] ? [[]|] ?]. Qed.

(** Everything that is stored is persistable and stripped. *)
Definition stored_ok (tab : IWorkspaceTab) : Prop :=
  isPersistable tab ∧ stripLocalFileContent tab = tab.

Lemma persisted_ok tabs tabs' :
  getPersistableWorkspaceTabList (Some tabs) = Some tabs' →
  Forall stored_ok tabs' ∧ length tabs' ≤ MAX_PERSISTED_TABS.
Proof.
  intros H. assert (tabs' = take_last MAX_PERSISTED_TABS
    (stripLocalFileContent <$> filter isPersistable tabs)) as ->.
  { destruct tabs; cbn in H; simplify_eq; [done|]. by rewrite capPersistedTabs_take. }
  rewrite length_take_last. split; [|lia]. apply Forall_forall. intros tab Htab.
  apply take_last_elem, list_elem_of_fmap in Htab as (tab' & -> & Htab).
  apply list_elem_of_filter in Htab as [? _]. split; [by apply strip_persistable|apply strip_idemp].
Qed.

Lemma persist_stored tabs :
  Forall stored_ok tabs → length tabs ≤ MAX_PERSISTED_TABS →
  getPersistableWorkspaceTabList (Some tabs) = Some tabs.
Proof.
  intros Hok Hlen. destruct tabs as [|tab tabs]; [done|].
  change (Some (capPersistedTabs (stripLocalFileContent <$> filter isPersistable (tab :: tabs)))
          = Some (tab :: tabs)).
  rewrite filter_all by (eapply Forall_impl; [done|by intros ? []]).
  rewrite capPersistedTabs_take. f_equal.
  assert (stripLocalFileContent <$> (tab :: tabs) = tab :: tabs) as ->; [|by apply take_last_all].
  clear Hlen. induction Hok as [|t ts [_ Ht] _ IH]; [done|]. cbn. by rewrite Ht, IH.
Qed.

Lemma persist_idemp o :
  getPersistableWorkspaceTabList (getPersistableWorkspaceTabList o)
  = getPersistableWorkspaceTabList o.
Proof.
  destruct o as [tabs|]; [|done].
  destruct (getPersistableWorkspaceTabList (Some tabs)) as [tabs'|] eqn:E; [|done].
  apply persisted_ok in E as [? ?]. by apply persist_stored.
Qed.

Lemma max0_nonneg q : (0 <= max0 q)%Q.
Proof.
  unfold max0. destruct (Qle_bool q 0) eqn:E; [apply Qle_refl|].
  apply not_true_iff_false in E. rewrite Qle_bool_iff in E. apply Qnot_le_lt in E.
  by apply Qlt_le_weak.
Qed.

Lemma max0_idemp q : max0 (max0 q) = max0 q.
Proof. unfold max0. destruct (Qle_bool q 0) eqn:E; [done|]. by rewrite E. Qed.

Lemma max0_pos q : Qle_bool q 0 = false → max0 q = q.
Proof. unfold max0. by intros ->. Qed.

Lemma width_nonneg v i : (0 <= i)%Q → (0 <= normalizedWidth v i)%Q.
Proof. destruct v; cbn; try done. intros _. apply max0_nonneg. Qed.

Lemma width_idemp v i : (0 <= i)%Q → max0 i = i → max0 (normalizedWidth v i) = normalizedWidth v i.
Proof. destruct v; cbn; try done. intros _ _. apply max0_idemp. Qed.

Lemma persistable_layout_ok raw :
  let l := getPersistableWorkspaceLayout raw in
  (0 <= panelLeftWidth l)%Q ∧ (0 <= panelRightWidth l)%Q ∧
  (panelLeft l = true ↔ (0 < panelLeftWidth l)%Q) ∧
  getPersistableWorkspaceLayout (rawLayout l) = l.
Proof.
  destruct raw as [a b c d]. unfold getPersistableWorkspaceLayout; cbn.
  set (lw := match a with JsBool false => 0%Q | _ => normalizedWidth b 260 end).
  assert ((0 <= lw)%Q ∧ max0 lw = lw) as [Hlw Hm].
  { unfold lw. destruct a as [| |[]| | |]; try (by split);
      (split; [apply width_nonneg|apply width_idemp]); by vm_compute. }
  split_and!; [done|by apply width_nonneg; vm_compute| |].
  - rewrite negb_true_iff. rewrite <-not_true_iff_false, Qle_bool_iff.
    split; [by intros H%Qnot_le_lt|]. intros H. by apply Qlt_not_le.
  - rewrite width_idemp by by vm_compute.
    destruct (Qle_bool lw 0) eqn:E; cbn; rewrite ?Hm, ?E; cbn; [|by destruct c].
    assert (lw = 0%Q) as -> by (rewrite <-Hm; unfold max0; by rewrite E). by destruct c.
Qed.

(* ------------------------------------------------------------------ *)
(** ** Properties *)

(** What is stored of the tabs is bounded and safe to restore: at most a
    hundred tabs, the most recent persistable ones in their order, none a
    terminal or a file preview, no text of a local file; the active identifier
    is that of a stored tab (the current one when it is stored), and is absent
    only when nothing is stored.  The closed tabs are treated the same way. *)
Theorem sanitize_bounded state tabs :
  workspaceTabList (sanitizePersistedWorkspaceTabsState state) = Some tabs →
  (∀ t, activeConsoleId state = Val t → truthyId t = true) →
  let s' := sanitizePersistedWorkspaceTabsState state in
  Forall stored_ok tabs ∧ length tabs ≤ 100 ∧
  (∃ given, workspaceTabList state = Some given ∧
     tabs = take_last 100 (stripLocalFileContent <$> filter isPersistable given)) ∧
  (tabs = [] → activeConsoleId s' = Null) ∧
  (tabs ≠ [] → ∃ t, activeConsoleId s' = Val t ∧ t ∈ tabId <$> tabs ∧
     ∀ t', activeConsoleId state = Val t' → t' ∈ tabId <$> tabs → t = t') ∧
  ∃ closed, recentlyClosedWorkspaceTabs s' = Some closed ∧
    Forall stored_ok closed ∧ length closed ≤ 100.
Proof.
  intros Htabs Hact s'. cbn in Htabs. destruct (workspaceTabList state) as [given|] eqn:Eg; [|done].
  pose proof (persisted_ok _ _ Htabs) as [Hok Hlen].
  assert (activeConsoleId s' = getPersistableActiveConsoleId (activeConsoleId state) (Some tabs))
    as Ha by (unfold s'; cbn; by rewrite Eg, Htabs).
  split_and!; [done|done| | | |].
  - exists given. split; [done|]. rewrite <-capPersistedTabs_take.
    destruct given; cbn in Htabs; by simplify_eq.
  - intros ->. by rewrite Ha.
  - intros Hne. rewrite Ha. destruct tabs as [|tab0 rest]; [done|].
    unfold getPersistableActiveConsoleId. cbn.
    destruct (activeConsoleId state) as [| |t].
    1,2: exists (tabId tab0); split_and!; [done|cbn; set_solver|done].
    destruct (includes t _) eqn:E; autorewrite with js in E.
    + rewrite Hact by done. exists t. split_and!; [done|done|congruence].
    + exists (tabId tab0). split_and!; [done|cbn; set_solver|congruence].
  - cbn. eexists. split; [done|].
    destruct (recentlyClosedWorkspaceTabs state) as [rc|]; [|split; [constructor|cbn; lia]].
    destruct (getPersistableWorkspaceTabList (Some rc)) as [rc'|] eqn:Er;
      [by apply persisted_ok in Er|split; [constructor|cbn; lia]].
Qed.

Example sanitize_bounded_witness :
  activeConsoleId (sanitizePersistedWorkspaceTabsState
    (mkPersisted (Some [mkTab (IdNum 1) Terminal [] None None; mkTab (IdNum 2) CONSOLE [] None None])
       (Val (IdNum 1)) None)) = Val (IdNum 2).
Proof.
  edestruct (sanitize_bounded (mkPersisted (Some [mkTab (IdNum 1) Terminal [] None None;
    mkTab (IdNum 2) CONSOLE [] None None]) (Val (IdNum 1)) None)
    [mkTab (IdNum 2) CONSOLE [] None None]) as (_ & _ & _ & _ & H & _).
  - reflexivity.
  - intros t [= <-]. reflexivity.
  - destruct (H ltac:(done)) as (t & -> & Ht & _). f_equal.
    by apply list_elem_of_singleton in Ht.
Defined.

(** The active tab is chosen among the tabs once and for all. *)
Lemma activeAmong_idemp a ids :
  (∀ t, t ∈ ids → truthyId t = true) → activeAmong (activeAmong a ids) ids = activeAmong a ids.
Proof.
  destruct ids as [|id0 ids]; [done|]. intros Htr.
  assert (activeAmong (Val id0) (id0 :: ids) = Val id0) as H0.
  { unfold activeAmong. by rewrite (proj2 (includes_true id0 (id0 :: ids))), Htr by set_solver. }
  destruct a as [| |t]; [done..|]. cbn. case_test; [|done].
  apply includes_true in Etest as Ht. by rewrite (Htr t Ht), Etest, (Htr t Ht).
Qed.

(** Storing is idempotent: a state that was stored and restored is stored
    again unchanged (for identifiers that are neither 0 nor empty). *)
Theorem sanitize_idempotent state :
  (∀ tabs tab, workspaceTabList state = Some tabs → tab ∈ tabs → truthyId (tabId tab) = true) →
  sanitizePersistedWorkspaceTabsState (sanitizePersistedWorkspaceTabsState state)
  = sanitizePersistedWorkspaceTabsState state.
Proof.
  intros Hid. unfold sanitizePersistedWorkspaceTabsState.
  cbn [workspaceTabList activeConsoleId recentlyClosedWorkspaceTabs]. rewrite persist_idemp.
  assert (∀ o, default [] (getPersistableWorkspaceTabList
    (Some (default [] (getPersistableWorkspaceTabList o)))) =
    default [] (getPersistableWorkspaceTabList o)) as ->.
  { intros o. pose proof (persist_idemp o) as H.
    destruct (getPersistableWorkspaceTabList o) as [ts|]; [|done].
    unfold default at 2, from_option, id. by rewrite H. }
  f_equal. destruct (workspaceTabList state) as [given|]; [|done].
  destruct (getPersistableWorkspaceTabList (Some given)) as [[|tab0 rest]|] eqn:E; [done| |done].
  assert (∀ t, t ∈ tabId <$> tab0 :: rest → truthyId t = true) as Htr.
  { intros t Ht. assert (tab0 :: rest = take_last MAX_PERSISTED_TABS
      (stripLocalFileContent <$> filter isPersistable given)) as Heq.
    { rewrite <-capPersistedTabs_take. destruct given; cbn in E; by simplify_eq. }
    rewrite Heq in Ht. apply list_elem_of_fmap in Ht as (tab & -> & Ht).
    apply take_last_elem, list_elem_of_fmap in Ht as (tab' & -> & Ht).
    apply list_elem_of_filter in Ht as [_ Ht]. rewrite strip_id. eauto. }
  by apply activeAmong_idemp.
Qed.

Example sanitize_idempotent_witness :
  let state := mkPersisted (Some [mkTab (IdNum 2) CONSOLE [] None None]) Undefined None in
  sanitizePersistedWorkspaceTabsState (sanitizePersistedWorkspaceTabsState state)
  = sanitizePersistedWorkspaceTabsState state.
Proof.
  apply (sanitize_idempotent
    (mkPersisted (Some [mkTab (IdNum 2) CONSOLE [] None None]) Undefined None)).
  intros tabs tab [= <-] ->%list_elem_of_singleton. reflexivity.
Defined.

(** Whatever the storage holds, the restored panel layout is well-formed:
    the widths are not negative, the left panel is shown exactly when it has a
    width, and restoring the result again gives the same layout. *)
Theorem hydrated_layout_ok current stored :
  let l := getHydratedWorkspaceLayout current stored in
  (0 <= panelLeftWidth l)%Q ∧ (0 <= panelRightWidth l)%Q ∧
  (panelLeft l = true ↔ (0 < panelLeftWidth l)%Q) ∧
  getPersistableWorkspaceLayout (rawLayout l) = l.
Proof. apply persistable_layout_ok. Qed.
