(* ===== verification/SqlExecutionTypes.v ===== *)
(** * SqlExecutionTypes: the data of SQL executions

    The result, message and event types shared by the execution log and the
    result stream of the SQL editor:
    [apps/community-client/src/typings/database.ts] ([IManageResultData] and the
    types it uses) and the event types of
    [service/sqlExecutionStream.ts].

    Numbers (sequence numbers, counts, epoch milliseconds) are integers.  A
    missing field is [None].  The [extra] object of a result has its [messages]
    and, for its other keys, scalar values. *)

From S2P Require Import Prelude.
Local Open Scope Z_scope.

(* ------------------------------------------------------------------ *)
(** ** Scalars of [extra] *)

Inductive scalar :=
  | SNull
  | SBool (b : bool)
  | SNum (n : Z)
  | SStr (s : jstr).

#[export] Instance scalar_eq_dec : EqDecision scalar.
Proof. solve_decision. Defined.

(** [typeof value === 'string' ? value : '']. *)
Definition text (value : option scalar) : jstr :=
  match value with Some (SStr s) => s | _ => [] end.

(** [typeof value === 'number' && Number.isFinite(value) ? value : undefined]. *)
Definition numeric (value : option scalar) : option Z :=
  match value with Some (SNum n) => Some n | _ => None end.

(** [a ?? b] when both may be missing. *)
Definition orElse {A} (a b : option A) : option A :=
  match a with Some _ => a | None => b end.

(** A string condition: present and not empty. *)
Definition truthyStr (s : option jstr) : bool :=
  match s with Some (_ :: _) => true | _ => false end.

(* ------------------------------------------------------------------ *)
(** ** Results *)

Record IExecutionMetrics := mkMetrics {
  startedAtEpochMs : option Z;
  finishedAtEpochMs : option Z;
  totalDurationMs : option Z;
  executeDurationMs : option Z;
  fetchDurationMs : option Z;
  fetchedRowCount : option Z;
}.

(** A field of the execution context is absent, or present with a string or
    another value ([hasOwnProperty] tells them apart). *)
Record IExecutionContext := mkExecutionContext {
  contextDatabaseName : option (option jstr);
  contextSchemaName : option (option jstr);
}.

Inductive Level := INFO | WARN | ERROR.

#[export] Instance Level_eq_dec : EqDecision Level.
Proof. solve_decision. Defined.

Record SqlExecutionMessage := mkMessage {
  msgLevel : option jstr;
  msgText : option jstr;
  msgErrorCode : option Z;
  msgSqlState : option jstr;
  msgSource : option jstr;
}.

#[export] Instance SqlExecutionMessage_eq_dec : EqDecision SqlExecutionMessage.
Proof. solve_decision. Defined.

Record Extra := mkExtra {
  messages : option (list SqlExecutionMessage);
  extraFields : dict scalar;
}.

(** A cell is its text or [null]; a row is its cells. *)
Abbreviation Row := (list (option jstr)).

Record IManageResultData := mkResult {
  uuid : option jstr;
  displayName : option jstr;
  dataList : option (list Row);
  headerList : option (list jstr);
  description : option jstr;
  message : option jstr;
  sql : option jstr;
  originalSql : option jstr;
  success : option bool;
  updateCount : option Z;
  canEdit : option bool;
  tableName : option jstr;
  sqlType : option jstr;
  refreshTargets : option (list (dict scalar));
  comment : option jstr;
  resultSetId : option Z;
  resultStatementSequence : option Z;
  executionMetrics : option IExecutionMetrics;
  executionContext : option IExecutionContext;
  extra : option Extra;
  pageNo : option Z;
  pageSize : option Z;
  fuzzyTotal : option jstr;
  hasNextPage : option bool;
}.

(** A result with rows and nothing else, for examples. *)
Definition rowsOnly (rows : list Row) : IManageResultData :=
  mkResult None None (Some rows) None None None None None None None None None None None None None
    None None None None None None None None.

(** [result.extra?.[key]]. *)
Definition extraGet (key : jstr) (result : IManageResultData) : option scalar :=
  e ← extra result; dget key (extraFields e).

(** [result.extra?.messages]. *)
Definition extraMessages (result : IManageResultData) : option (list SqlExecutionMessage) :=
  extra result ≫= messages.

(* ------------------------------------------------------------------ *)
(** ** Events *)

Record SqlExecutionStatement := mkStatement {
  stmtSql : option jstr;
  stmtOriginalSql : option jstr;
  stmtComment : option jstr;
}.

(** A value of type [unknown] caught or received as an error. *)
Inductive ErrorField :=
  | FieldText (s : jstr)
  | FieldObject (message errorMessage : option jstr)
  | FieldOther.

Inductive ErrorValue :=
  | ErrorText (s : jstr)
  | ErrorObject (name code : option jstr) (message errorMessage : option ErrorField)
  | ErrorOther.

(** The event types, each with the message it carries. *)
Inductive SqlExecutionEventBody :=
  | Started
  | StatementStarted (stmt : option SqlExecutionStatement)
  | ResultStarted (result : option IManageResultData)
  | Rows (chunk : option IManageResultData)
  | UpdateCount (result : IManageResultData)
  | Message (msg : option SqlExecutionMessage)
  | ResultFinished (result : IManageResultData)
  | StatementFinished (duration : option Z)
  | Finished
  | Failed (error : ErrorValue)
  | Cancelled.

Record SqlExecutionEvent := mkEvent {
  eventExecutionId : jstr;
  eventSequence : option Z;
  occurredAtEpochMs : option Z;
  statementSequence : option Z;
  resultSequence : option Z;
  resultKey : option jstr;
  eventBody : SqlExecutionEventBody;
}.
