(* ===== verification/SqlExecutionLog.v ===== *)
(** * SqlExecutionLog: the SQL execution log

    Models [apps/community-client/src/service/sqlExecutionLog.ts], the reducers
    that turn the executions of the SQL editor into the records of its output
    panel: the web operations ([beginWebSqlExecution], [completeWebSqlExecution],
    [failWebSqlExecution]), the desktop event reducer, and the operations that
    replace the log by that of a new execution.

    [Date.now()] is the argument [now] of the operations that read it.  An
    updater of a record returns [None] when the code returns the record itself
    (the reference comparison [next !== record] of [updateRecord]). *)

From S2P Require Import Prelude JsNumber SqlExecutionTypes.
Local Open Scope Z_scope.

(* ------------------------------------------------------------------ *)
(** ** Data *)

Inductive SqlExecutionLogStatus := running | success_ | failed | cancelled.

#[export] Instance SqlExecutionLogStatus_eq_dec : EqDecision SqlExecutionLogStatus.
Proof. solve_decision. Defined.

Record SqlExecutionLogContext := mkLogContext {
  dataSourceId : option Z;
  dataSourceName : option jstr;
  databaseType : option jstr;
  databaseName : option jstr;
  schemaName : option jstr;
}.

Record MessageOutput := mkMessageOutput {
  moId : jstr;
  moOccurredAt : Z;
  moLevel : Level;
  moMessage : jstr;
  moErrorCode : option Z;
  moSqlState : option jstr;
  moSource : option jstr;
}.

Record ResultOutput := mkResultOutput {
  roId : jstr;
  roOccurredAt : Z;
  roResultKey : option jstr;
  roResultSequence : option Z;
  roSuccess : bool;
  roRowCount : option Z;
  roUpdateCount : option Z;
  roDurationMs : option Z;
  roExecutionMetrics : option IExecutionMetrics;
  roMessage : option jstr;
}.

Inductive SqlExecutionLogOutput :=
  | OutMessage (m : MessageOutput)
  | OutResult (r : ResultOutput).

Definition outputId (o : SqlExecutionLogOutput) : jstr :=
  match o with OutMessage m => moId m | OutResult r => roId r end.

Record SqlExecutionLogRecord := mkRecord {
  recId : jstr;
  recExecutionId : jstr;
  recExecutionSequence : option Z;
  recStatementSequence : Z;
  recStartedAt : Z;
  recFinishedAt : option Z;
  status : SqlExecutionLogStatus;
  recSql : jstr;
  recComment : option jstr;
  context : SqlExecutionLogContext;
  outputs : list SqlExecutionLogOutput;
  pendingRowCounts : dict Z;
  durationMs : option Z;
  temporary : bool;
}.

Record SqlExecutionLogState := mkState {
  records : list SqlExecutionLogRecord;
  activeExecutionIds : option (list jstr);
  replacementExecutionId : option jstr;
  replacementRequestSequence : option Z;
  supersededExecutionIds : option (list jstr);
}.

Definition MAX_RECORDS : nat := 200.
Definition MAX_SUPERSEDED_EXECUTIONS : nat := MAX_RECORDS.
Definition MAX_OUTPUTS_PER_RECORD : nat := 200.
Definition MAX_MESSAGE_LENGTH : nat := 8192.
Definition MESSAGE_TRUNCATION_MARKER : jstr := (10 :: js "...[truncated]..." ++ [10])%N.

(** Updates of one field of a record. *)
Definition withContext (r : SqlExecutionLogRecord) (c : SqlExecutionLogContext) :=
  mkRecord (recId r) (recExecutionId r) (recExecutionSequence r) (recStatementSequence r)
    (recStartedAt r) (recFinishedAt r) (status r) (recSql r) (recComment r) c
    (outputs r) (pendingRowCounts r) (durationMs r) (temporary r).
Definition withOutputs (r : SqlExecutionLogRecord) (os : list SqlExecutionLogOutput) :=
  mkRecord (recId r) (recExecutionId r) (recExecutionSequence r) (recStatementSequence r)
    (recStartedAt r) (recFinishedAt r) (status r) (recSql r) (recComment r) (context r)
    os (pendingRowCounts r) (durationMs r) (temporary r).
Definition withPending (r : SqlExecutionLogRecord) (p : dict Z) :=
  mkRecord (recId r) (recExecutionId r) (recExecutionSequence r) (recStatementSequence r)
    (recStartedAt r) (recFinishedAt r) (status r) (recSql r) (recComment r) (context r)
    (outputs r) p (durationMs r) (temporary r).
Definition withStatus (r : SqlExecutionLogRecord) (s : SqlExecutionLogStatus) :=
  mkRecord (recId r) (recExecutionId r) (recExecutionSequence r) (recStatementSequence r)
    (recStartedAt r) (recFinishedAt r) s (recSql r) (recComment r) (context r)
    (outputs r) (pendingRowCounts r) (durationMs r) (temporary r).
(** Status, end and duration together. *)
Definition withEnd (r : SqlExecutionLogRecord) (s : SqlExecutionLogStatus) (finishedAt duration : Z) :=
  mkRecord (recId r) (recExecutionId r) (recExecutionSequence r) (recStatementSequence r)
    (recStartedAt r) (Some finishedAt) s (recSql r) (recComment r) (context r)
    (outputs r) (pendingRowCounts r) (Some duration) (temporary r).
Definition notTemporary (r : SqlExecutionLogRecord) :=
  mkRecord (recId r) (recExecutionId r) (recExecutionSequence r) (recStatementSequence r)
    (recStartedAt r) (recFinishedAt r) (status r) (recSql r) (recComment r) (context r)
    (outputs r) (pendingRowCounts r) (durationMs r) false.

(** Updates of one field of the state. *)
Definition withRecords (s : SqlExecutionLogState) (rs : list SqlExecutionLogRecord) :=
  mkState rs (activeExecutionIds s) (replacementExecutionId s) (replacementRequestSequence s)
    (supersededExecutionIds s).
Definition withActive (s : SqlExecutionLogState) (ids : option (list jstr)) :=
  mkState (records s) ids (replacementExecutionId s) (replacementRequestSequence s)
    (supersededExecutionIds s).

Definition isRunning (r : SqlExecutionLogRecord) : bool := bool_decide (status r = running).

(* ------------------------------------------------------------------ *)
(** ** Identifiers and texts *)

Definition idFor (executionId : jstr) (statementSequence : Z) : jstr :=
  executionId ++ ch ":" :: znum statementSequence.

Definition levelOf (level : option jstr) : Level :=
  let value := toUpperCase (or_else (default [] level) (js "INFO")) in
  if decide (value = js "ERROR") then ERROR
  else if decide (value = js "WARN" ∨ value = js "WARNING") then WARN
  else INFO.

Definition fieldText (f : option ErrorField) : jstr :=
  match f with Some (FieldText s) => s | _ => [] end.

Definition errorText (error : ErrorValue) : jstr :=
  match error with
  | ErrorText s => s
  | ErrorOther => []
  | ErrorObject _ _ (Some (FieldObject msg errorMessage)) _ =>
      or_else (default [] msg) (default [] errorMessage)
  | ErrorObject _ _ msg errorMessage => or_else (fieldText msg) (fieldText errorMessage)
  end.

Definition isSqlExecutionCancellationError (error : ErrorValue) : bool :=
  match error with
  | ErrorObject name code _ _ =>
      bool_decide (name = Some (js "AbortError")) || bool_decide (name = Some (js "CanceledError"))
      || bool_decide (code = Some (js "ERR_CANCELED"))
  | _ => false
  end.

(** [\w]. *)
Definition is_word (c : N) : bool :=
  ((48 <=? c) && (c <=? 57) || (65 <=? c) && (c <=? 90) || (97 <=? c) && (c <=? 122)
   || (c =? 95))%N.

(** The word [w] at the start of [s], with a word boundary after it. *)
Definition wordHere (w s : jstr) : bool :=
  startsWith w s && negb (match drop (length w) s with c :: _ => is_word c | [] => false end).

(** [/\b(?:aborted|cancell?ed)\b/i.test(message)]; [before] tells whether the
    previous character is a word character. *)
Fixpoint hasCancellationWord (before : bool) (s : jstr) : bool :=
  match s with
  | [] => false
  | c :: s' =>
      negb before && (wordHere (js "aborted") s || wordHere (js "cancelled") s
                      || wordHere (js "canceled") s)
      || hasCancellationWord (is_word c) s'
  end.

Definition isCancellationMessage (message : option jstr) : bool :=
  match message with
  | Some m => hasCancellationWord false (toLowerCase m)
  | None => false
  end.

(** [Array.from(text)]: the code points. *)
Definition is_high (c : N) : bool := ((55296 <=? c) && (c <=? 56319))%N.
Definition is_low (c : N) : bool := ((56320 <=? c) && (c <=? 57343))%N.

Fixpoint codePoints (s : jstr) : list jstr :=
  match s with
  | [] => []
  | h :: s' =>
      match s' with
      | l :: s'' => if is_high h && is_low l then [h; l] :: codePoints s'' else [h] :: codePoints s'
      | [] => [[h]]
      end
  end.

(** The head and the tail of the code points, around the marker. *)
Definition truncateMessage (value : jstr) : jstr :=
  if decide (length value ≤ MAX_MESSAGE_LENGTH)%nat then value else
  let characters := codePoints value in
  if decide (length characters ≤ MAX_MESSAGE_LENGTH)%nat then value else
  let retainedLength := (MAX_MESSAGE_LENGTH - length MESSAGE_TRUNCATION_MARKER)%nat in
  let prefixLength := Nat.div2 (S retainedLength) in
  let suffixLength := Nat.div2 retainedLength in
  concat (take prefixLength characters) ++ MESSAGE_TRUNCATION_MARKER
    ++ concat (take_last suffixLength characters).

(* ------------------------------------------------------------------ *)
(** ** Outputs *)

Definition isCriticalOutput (output : SqlExecutionLogOutput) : bool :=
  match output with
  | OutMessage m => bool_decide (moLevel m = ERROR)
  | OutResult r => negb (roSuccess r)
  end.

(** The two loops of [retainOutputs], from index [n - 1] down to 0. *)
Fixpoint retainLoop (keep : nat → bool) (n : nat) (retained : gset nat) : gset nat :=
  match n with
  | O => retained
  | S index =>
      if decide (size retained < MAX_OUTPUTS_PER_RECORD)%nat then
        retainLoop keep index (if keep index then {[index]} ∪ retained else retained)
      else retained
  end.

(** [outputs.filter((_, index) => retainedIndexes.has(index))], from index [i]. *)
Fixpoint filterIndexes {A} (retained : gset nat) (i : nat) (xs : list A) : list A :=
  match xs with
  | [] => []
  | x :: xs => if decide (i ∈ retained) then x :: filterIndexes retained (S i) xs
               else filterIndexes retained (S i) xs
  end.

Definition retainOutputs (outputs : list SqlExecutionLogOutput) : list SqlExecutionLogOutput :=
  if decide (length outputs ≤ MAX_OUTPUTS_PER_RECORD)%nat then outputs else
  let critical :=
    retainLoop (λ index, match outputs !! index with Some o => isCriticalOutput o | None => false end)
      (length outputs) ∅ in
  let retained := retainLoop (λ _, true) (length outputs) critical in
  filterIndexes retained 0 outputs.

(** The additions whose identifier is new, [outputIds] being the ones seen. *)
Fixpoint uniqueAdditions (outputIds : list jstr) (additions : list SqlExecutionLogOutput)
    : list SqlExecutionLogOutput :=
  match additions with
  | [] => []
  | output :: additions =>
      if includes (outputId output) outputIds then uniqueAdditions outputIds additions
      else output :: uniqueAdditions (outputId output :: outputIds) additions
  end.

(** [None]: the record itself is returned. *)
Definition appendOutputs (record : SqlExecutionLogRecord)
    (additions : list SqlExecutionLogOutput) : option SqlExecutionLogRecord :=
  match uniqueAdditions (outputId <$> outputs record) additions with
  | [] => None
  | uniqueAdditions => Some (withOutputs record (retainOutputs (outputs record ++ uniqueAdditions)))
  end.

Definition nextMessageSequence (record : SqlExecutionLogRecord) : Z :=
  let prefix := recId record ++ js ":message:" in
  fold_left
    (λ next output,
      if negb (startsWith prefix (outputId output)) then next else
      match split_char (ch ":") (drop (length prefix) (outputId output)) !! 1%nat ≫= js_Number with
      | Some sequence => Z.max next (sequence + 1)
      | None => next
      end)
    (outputs record) 0.

Definition nextResultSequence (record : SqlExecutionLogRecord) : Z :=
  fold_left
    (λ next output,
      match output with
      | OutResult r => match roResultSequence r with Some n => Z.max next (n + 1) | None => next end
      | OutMessage _ => next
      end)
    (outputs record) 1.

Inductive MessageSource := web_result | desktop_event | desktop_result | generated.

Definition source_string (s : MessageSource) : jstr :=
  match s with
  | web_result => js "web-result"
  | desktop_event => js "desktop-event"
  | desktop_result => js "desktop-result"
  | generated => js "generated"
  end.

Definition messageOutputId (recordId : jstr) (source : MessageSource) (sequence : jstr) : jstr :=
  recordId ++ js ":message:" ++ source_string source ++ ch ":" :: sequence.

(** [sequence] is a number or a text in the code: here its rendering. *)
Definition createMessageOutput (record : SqlExecutionLogRecord)
    (message : option SqlExecutionMessage) (occurredAtEpochMs : Z) (source : MessageSource)
    (sequence : jstr) : option MessageOutput :=
  match truncateMessage (default [] (message ≫= msgText)) with
  | [] => None
  | messageText =>
      Some {| moId := messageOutputId (recId record) source sequence;
              moOccurredAt := occurredAtEpochMs;
              moLevel := levelOf (message ≫= msgLevel);
              moMessage := messageText;
              moErrorCode := message ≫= msgErrorCode;
              moSqlState := message ≫= msgSqlState;
              moSource := message ≫= msgSource |}
  end.

Definition appendMessage (record : SqlExecutionLogRecord) (message : option SqlExecutionMessage)
    (occurredAtEpochMs : Z) (source : MessageSource) (sequence : option Z)
    : option SqlExecutionLogRecord :=
  output ← createMessageOutput record message occurredAtEpochMs source
             (znum (default (nextMessageSequence record) sequence));
  appendOutputs record [OutMessage output].

(** An empty string counts as missing: [s || undefined]. *)
Definition nonEmpty (s : jstr) : option jstr := match s with [] => None | _ => Some s end.

Definition createResultOutput (record : SqlExecutionLogRecord) (result : IManageResultData)
    (occurredAt : Z) (event : option SqlExecutionEvent) (fallbackSequence : option Z)
    : ResultOutput :=
  let explicitResultSequence :=
    orElse (event ≫= resultSequence)
      (orElse (numeric (extraGet (js "resultSequence") result))
        (orElse (numeric (extraGet (js "streamResultId") result)) (resultSetId result))) in
  let seq :=
    default (match fallbackSequence with None => nextResultSequence record | Some n => n + 1 end)
      explicitResultSequence in
  let rawResultKey :=
    nonEmpty (or_else (default [] (event ≫= resultKey)) (text (extraGet (js "resultKey") result))) in
  let key := if decide (1 < length (default [] (headerList result)))%nat then rawResultKey else None in
  let outputIdentity :=
    match rawResultKey with
    | Some k => js "key:" ++ k
    | None =>
        match explicitResultSequence with
        | Some n => js "sequence:" ++ znum n
        | None => match event ≫= eventSequence with
                  | Some n => js "event:" ++ znum n
                  | None => js "fallback:" ++ znum seq
                  end
        end
    end in
  {| roId := recId record ++ js ":result:" ++ outputIdentity;
     roOccurredAt := default occurredAt (executionMetrics result ≫= finishedAtEpochMs);
     roResultKey := key;
     roResultSequence := Some seq;
     roSuccess := negb (bool_decide (success result = Some false));
     roRowCount :=
       orElse (executionMetrics result ≫= fetchedRowCount)
         (orElse (dget (znum seq) (pendingRowCounts record))
           (Z.of_nat ∘ length <$> dataList result));
     roUpdateCount := updateCount result;
     roDurationMs := executionMetrics result ≫= totalDurationMs;
     roExecutionMetrics := executionMetrics result;
     roMessage := nonEmpty (truncateMessage (default [] (message result))) |}.

Definition mergeContextName (currentValue : option jstr) (field : option (option jstr)) : option jstr :=
  match field with
  | None => currentValue
  | Some (Some (c :: s)) => Some (c :: s)
  | Some _ => None
  end.

Definition mergeExecutionContext (context : SqlExecutionLogContext)
    (executionContext : option IExecutionContext) : SqlExecutionLogContext :=
  match executionContext with
  | None => context
  | Some e =>
      mkLogContext (dataSourceId context) (dataSourceName context) (databaseType context)
        (mergeContextName (databaseName context) (contextDatabaseName e))
        (mergeContextName (schemaName context) (contextSchemaName e))
  end.

Definition createRecord (executionId : jstr) (executionSequence : option Z)
    (statementSequence : Z) (sql : jstr) (context : SqlExecutionLogContext)
    (startedAtEpochMs : Z) (comment : option jstr) (temporary : bool) : SqlExecutionLogRecord :=
  mkRecord (idFor executionId statementSequence) executionId executionSequence statementSequence
    startedAtEpochMs None running sql comment context [] [] None temporary.

(* ------------------------------------------------------------------ *)
(** ** Records of a state *)

(** The filter of [setRecords]: drops [overflow] finished records, oldest first. *)
Fixpoint dropFinished (overflow : nat) (records : list SqlExecutionLogRecord)
    : list SqlExecutionLogRecord :=
  match records with
  | [] => []
  | record :: records =>
      match overflow with
      | S overflow' => if isRunning record then record :: dropFinished overflow records
                       else dropFinished overflow' records
      | O => record :: dropFinished 0 records
      end
  end.

Definition setRecords (state : SqlExecutionLogState) (rs : list SqlExecutionLogRecord)
    : SqlExecutionLogState :=
  if decide (length rs ≤ MAX_RECORDS)%nat then withRecords state rs
  else withRecords state (dropFinished (length rs - MAX_RECORDS) rs).

Definition updateRecord (state : SqlExecutionLogState) (id : option jstr)
    (updater : SqlExecutionLogRecord → option SqlExecutionLogRecord) : SqlExecutionLogState :=
  match id with
  | None | Some [] => state
  | Some id =>
      let update record := if decide (recId record = id) then updater record else None in
      if existsb (λ record, bool_decide (is_Some (update record))) (records state)
      then setRecords state ((λ record, default record (update record)) <$> records state)
      else state
  end.

Definition isSupersededExecution (state : SqlExecutionLogState) (executionId : jstr) : bool :=
  includes executionId (default [] (supersededExecutionIds state))
  || truthyStr (replacementExecutionId state)
     && negb (bool_decide (replacementExecutionId state = Some executionId)).

Definition isSqlExecutionTracked (state : SqlExecutionLogState) (executionId : jstr) : bool :=
  bool_decide (replacementExecutionId state = Some executionId)
  || includes executionId (default [] (activeExecutionIds state))
  || includes executionId (default [] (supersededExecutionIds state))
  || includes executionId (recExecutionId <$> records state).

Definition addExecutionId (executionIds : option (list jstr)) (executionId : jstr) : list jstr :=
  let ids := default [] executionIds in
  if includes executionId ids then ids else ids ++ [executionId].

Definition trackActiveExecution (state : SqlExecutionLogState) (executionId : jstr)
    : SqlExecutionLogState :=
  withActive state (Some (addExecutionId (activeExecutionIds state) executionId)).

Definition finishActiveExecution (state : SqlExecutionLogState) (executionId : jstr)
    : SqlExecutionLogState :=
  let ids := default [] (activeExecutionIds state) in
  if negb (includes executionId ids) then state else
  withActive state
    (match filter (λ id, id ≠ executionId) ids with [] => None | ids' => Some ids' end).

Definition latestRecord (records : list SqlExecutionLogRecord) (executionId : jstr)
    : option SqlExecutionLogRecord :=
  js_find (λ record, bool_decide (recExecutionId record = executionId)) (reverse records).

(* ------------------------------------------------------------------ *)
(** ** Terminal states of a record *)

(** Applies an updater whose [None] is the record itself. *)
Definition orSame (record : SqlExecutionLogRecord) (next : option SqlExecutionLogRecord)
    : SqlExecutionLogRecord := default record next.

Definition addError (record : SqlExecutionLogRecord) (error : ErrorValue) (occurredAt : Z)
    : SqlExecutionLogRecord :=
  match errorText error with
  | [] => record
  | message =>
      orSame record
        (appendMessage record (Some (mkMessage (Some (js "ERROR")) (Some message) None None None))
           occurredAt generated None)
  end.

(** The output of a failed result that only reports the cancellation. *)
Definition isCancellationResult (output : SqlExecutionLogOutput) : bool :=
  match output with
  | OutResult r => negb (roSuccess r) && isCancellationMessage (roMessage r)
  | OutMessage _ => false
  end.

(** [finishTerminal]: [None] is a [cancelled] event, [Some error] a [failed] one. *)
Definition finishTerminal (record : SqlExecutionLogRecord) (error : option ErrorValue)
    (occurredAt : Z) : SqlExecutionLogRecord :=
  let duration := Z.max 0 (occurredAt - recStartedAt record) in
  match error with
  | None =>
      notTemporary
        (withEnd
           (withOutputs record (filter (λ output, isCancellationResult output = false) (outputs record)))
           cancelled occurredAt duration)
  | Some error =>
      addError (notTemporary (withEnd record failed occurredAt duration)) error occurredAt
  end.

(* ------------------------------------------------------------------ *)
(** ** Operations on the state *)

Definition createSqlExecutionLogState : SqlExecutionLogState := mkState [] None None None None.

Definition clearSqlExecutionLog (state : SqlExecutionLogState) : SqlExecutionLogState :=
  withRecords state ((λ record, withOutputs record []) <$> filter isRunning (records state)).

Definition runningExecutions (rs : list SqlExecutionLogRecord) : list jstr :=
  recExecutionId <$> filter isRunning rs.

Definition prepareSqlExecutionLogForExecution (state : SqlExecutionLogState) (executionId : jstr)
    (keepHistory : bool) : SqlExecutionLogState :=
  if includes executionId (default [] (supersededExecutionIds state)) then state else
  let activeIds := addExecutionId (activeExecutionIds state) executionId in
  if keepHistory then
    if bool_decide (activeExecutionIds state = Some activeIds)
       && negb (truthyStr (replacementExecutionId state)) then state
    else mkState (records state) (Some activeIds) None (replacementRequestSequence state)
           (supersededExecutionIds state)
  else if decide (replacementExecutionId state = Some executionId) then
    withActive state (Some activeIds)
  else
    let superseded :=
      take_last MAX_SUPERSEDED_EXECUTIONS
        (uniq (default [] (supersededExecutionIds state)
               ++ filter (λ id, id ≠ executionId) (default [] (activeExecutionIds state))
               ++ filter (λ id, id ≠ executionId) (runningExecutions (records state)))) in
    mkState (filter (λ record, recExecutionId record = executionId) (records state))
      (Some [executionId]) (Some executionId) (replacementRequestSequence state) (Some superseded).

Definition prepareDesktopSqlExecutionLogForRequest (state : SqlExecutionLogState)
    (requestSequence : Z) (keepHistory : bool) : SqlExecutionLogState :=
  if keepHistory then
    if truthyStr (replacementExecutionId state)
    then mkState (records state) (activeExecutionIds state) None (replacementRequestSequence state)
           (supersededExecutionIds state)
    else state
  else if default 0 (replacementRequestSequence state) >=? requestSequence then state
  else
    let superseded :=
      take_last MAX_SUPERSEDED_EXECUTIONS
        (uniq (default [] (supersededExecutionIds state) ++ default [] (activeExecutionIds state)
               ++ runningExecutions (records state))) in
    mkState [] None None (Some requestSequence) (Some superseded).

(** The parameters shared by the web operations. *)
Record BeginWebSqlExecutionParams := mkParams {
  pExecutionId : jstr;
  pExecutionSequence : option Z;
  pSql : jstr;
  pContext : SqlExecutionLogContext;
  pOccurredAt : option Z;
}.

Definition beginWebSqlExecution (now : Z) (state : SqlExecutionLogState)
    (params : BeginWebSqlExecutionParams) : SqlExecutionLogState :=
  if isSupersededExecution state (pExecutionId params) then state else
  let trackedState := trackActiveExecution state (pExecutionId params) in
  if includes (pExecutionId params) (recExecutionId <$> records trackedState) then trackedState else
  let startedAt := default now (pOccurredAt params) in
  setRecords trackedState
    (records trackedState
     ++ [createRecord (pExecutionId params) (pExecutionSequence params) 1 (pSql params)
           (pContext params) startedAt None true]).

(** The sequence number a web result is grouped by. *)
Definition webSequence (result : IManageResultData) (index : nat) : Z :=
  default (Z.of_nat index + 1)
    (orElse (resultStatementSequence result) (numeric (extraGet (js "statementSequence") result))).

(** One iteration of the grouping loop: a [Map] in insertion order. *)
Fixpoint addToGroup (sequence : Z) (result : IManageResultData)
    (groups : list (Z * list IManageResultData)) : list (Z * list IManageResultData) :=
  match groups with
  | [] => [(sequence, [result])]
  | (s, rs) :: groups =>
      if decide (s = sequence) then (s, rs ++ [result]) :: groups
      else (s, rs) :: addToGroup sequence result groups
  end.

Fixpoint groupResults (index : nat) (results : list IManageResultData)
    (groups : list (Z * list IManageResultData)) : list (Z * list IManageResultData) :=
  match results with
  | [] => groups
  | result :: results =>
      groupResults (S index) results (addToGroup (webSequence result index) result groups)
  end.

Definition totalDuration (results : list IManageResultData) : option Z :=
  match omap (λ result, executionMetrics result ≫= totalDurationMs) results with
  | [] => None
  | durations => Some (fold_left Z.add durations 0)
  end.

(** The outputs of the messages of one result; [sequence] counts every message. *)
Fixpoint webMessages (record : SqlExecutionLogRecord) (completedAt : Z) (sequence : nat)
    (msgs : list SqlExecutionMessage) : list SqlExecutionLogOutput :=
  match msgs with
  | [] => []
  | message :: msgs =>
      match createMessageOutput record (Some message) completedAt web_result
              (znum (Z.of_nat sequence)) with
      | Some output => OutMessage output :: webMessages record completedAt (S sequence) msgs
      | None => webMessages record completedAt (S sequence) msgs
      end
  end.

Fixpoint webOutputs (record : SqlExecutionLogRecord) (completedAt : Z) (sequence resultIndex : nat)
    (results : list IManageResultData) : list SqlExecutionLogOutput :=
  match results with
  | [] => []
  | result :: results =>
      let msgs := default [] (extraMessages result) in
      webMessages record completedAt sequence msgs
      ++ OutResult (createResultOutput record result completedAt None (Some (Z.of_nat resultIndex)))
      :: webOutputs record completedAt (sequence + length msgs) (S resultIndex) results
  end.

(** The record of one group of results. *)
Definition webRecord (params : BeginWebSqlExecutionParams) (temporaryRecord : option SqlExecutionLogRecord)
    (completedAt : Z) (group : Z * list IManageResultData) : list SqlExecutionLogRecord :=
  match group.2 with
  | [] => []
  | (first :: _) as results =>
      let startedAt :=
        default completedAt
          (orElse (executionMetrics first ≫= startedAtEpochMs) (recStartedAt <$> temporaryRecord)) in
      let record :=
        createRecord (pExecutionId params)
          (orElse (pExecutionSequence params) (temporaryRecord ≫= recExecutionSequence))
          group.1 (or_else (default [] (originalSql first)) (pSql params))
          (mergeExecutionContext (pContext params) (executionContext first))
          startedAt (comment first) false in
      let record := orSame record (appendOutputs record (webOutputs record completedAt 0 0 results)) in
      let finishedAt :=
        fold_left
          (λ latest result,
            Z.max latest (default 0 (executionMetrics result ≫= finishedAtEpochMs)))
          results completedAt in
      [withEnd record
         (if existsb (λ result, bool_decide (success result = Some false)) results
          then failed else success_)
         finishedAt
         (default (Z.max 0 (finishedAt - startedAt)) (totalDuration results))]
  end.

Definition completeWebSqlExecution (now : Z) (state : SqlExecutionLogState)
    (params : BeginWebSqlExecutionParams) (results : list IManageResultData) : SqlExecutionLogState :=
  if isSupersededExecution state (pExecutionId params) then state else
  let completedAt := default now (pOccurredAt params) in
  let temporaryRecord :=
    js_find (λ record, bool_decide (recExecutionId record = pExecutionId params) && temporary record)
      (records state) in
  match results with
  | [] =>
      finishActiveExecution
        (updateRecord state (recId <$> temporaryRecord)
           (λ record,
             Some (notTemporary
               (withEnd record success_ completedAt (Z.max 0 (completedAt - recStartedAt record))))))
        (pExecutionId params)
  | _ =>
      let replacement :=
        concat (webRecord params temporaryRecord completedAt <$> groupResults 0 results []) in
      finishActiveExecution
        (setRecords state
           (filter (λ record, Some (recId record) ≠ recId <$> temporaryRecord) (records state)
            ++ replacement))
        (pExecutionId params)
  end.

Definition failWebSqlExecution (now : Z) (state : SqlExecutionLogState)
    (params : BeginWebSqlExecutionParams) (error : ErrorValue) : SqlExecutionLogState :=
  if isSupersededExecution state (pExecutionId params) then state else
  let finishedAt := default now (pOccurredAt params) in
  let isCancelled := isSqlExecutionCancellationError error in
  let end_ := if isCancelled then cancelled else failed in
  match latestRecord (records state) (pExecutionId params) with
  | None =>
      let record :=
        createRecord (pExecutionId params) (pExecutionSequence params) 1 (pSql params)
          (pContext params) finishedAt None false in
      let finishedRecord := withEnd record end_ finishedAt 0 in
      finishActiveExecution
        (setRecords state
           (records state
            ++ [if isCancelled then finishedRecord else addError finishedRecord error finishedAt]))
        (pExecutionId params)
  | Some existing =>
      finishActiveExecution
        (updateRecord state (Some (recId existing))
           (λ record,
             let finishedRecord :=
               notTemporary
                 (withEnd record end_ finishedAt (Z.max 0 (finishedAt - recStartedAt record))) in
             Some (if isCancelled then finishedRecord else addError finishedRecord error finishedAt)))
        (pExecutionId params)
  end.

(* ------------------------------------------------------------------ *)
(** ** The desktop reducer *)

Definition eventResultSequence (event : SqlExecutionEvent) (chunk : option IManageResultData) : Z :=
  default 1
    (orElse (resultSequence event)
      (orElse (chunk ≫= resultSetId)
        (chunk ≫= λ c, numeric (extraGet (js "streamResultId") c)))).

(** [resultFinished] and [updateCount]. *)
Definition finishResult (record : SqlExecutionLogRecord) (event : SqlExecutionEvent)
    (result : IManageResultData) (occurredAt : Z) : SqlExecutionLogRecord :=
  let contextualRecord :=
    withContext record (mergeExecutionContext (context record) (executionContext result)) in
  let messageSequenceBase := default (nextMessageSequence contextualRecord) (eventSequence event) in
  let messageOutputs :=
    concat (imap
      (λ index message,
        match createMessageOutput contextualRecord (Some message) occurredAt desktop_result
                (znum messageSequenceBase ++ ch ":" :: znum (Z.of_nat index)) with
        | Some output => [OutMessage output]
        | None => []
        end)
      (default [] (extraMessages result))) in
  let resultOutput := createResultOutput contextualRecord result occurredAt (Some event) None in
  let duplicateFallbackEvent :=
    startsWith (recId contextualRecord ++ js ":result:event:") (roId resultOutput)
    && existsb (λ output, bool_decide (outputId output = roId resultOutput))
         (outputs contextualRecord) in
  let next :=
    if duplicateFallbackEvent then contextualRecord
    else orSame contextualRecord
           (appendOutputs contextualRecord (messageOutputs ++ [OutResult resultOutput])) in
  if decide (success result = Some false) then withStatus next failed else next.

(** The [switch] of [reduceDesktopSqlExecutionEvent]. *)
Definition updateForEvent (event : SqlExecutionEvent) (occurredAt : Z)
    (record : SqlExecutionLogRecord) : option SqlExecutionLogRecord :=
  let elapsed := Z.max 0 (occurredAt - recStartedAt record) in
  match eventBody event with
  | ResultStarted result =>
      Some (withContext record (mergeExecutionContext (context record) (result ≫= executionContext)))
  | Rows chunk =>
      let key := znum (eventResultSequence event chunk) in
      Some (withPending record
        (dset key
           (default 0 (dget key (pendingRowCounts record))
            + Z.of_nat (length (default [] (chunk ≫= dataList))))
           (pendingRowCounts record)))
  | Message msg => appendMessage record msg occurredAt desktop_event (eventSequence event)
  | ResultFinished result | UpdateCount result => Some (finishResult record event result occurredAt)
  | StatementFinished duration =>
      Some (withEnd record (if decide (status record = failed) then failed else success_)
              occurredAt (default elapsed duration))
  | Failed error => Some (finishTerminal record (Some error) occurredAt)
  | Cancelled => Some (finishTerminal record None occurredAt)
  | Finished =>
      if isRunning record then Some (withEnd record success_ occurredAt elapsed) else None
  | Started | StatementStarted _ => None
  end.

Definition isTerminalEvent (body : SqlExecutionEventBody) : bool :=
  match body with Finished | Failed _ | Cancelled => true | _ => false end.

(** The record an event is about. *)
Definition eventTarget (rs : list SqlExecutionLogRecord) (event : SqlExecutionEvent)
    : option SqlExecutionLogRecord :=
  let latest := latestRecord rs (eventExecutionId event) in
  match statementSequence event with
  | None => latest
  | Some n =>
      orElse (js_find (λ record, bool_decide (recId record = idFor (eventExecutionId event) n)) rs)
        latest
  end.

Definition reduceDesktopSqlExecutionEvent (now : Z) (state : SqlExecutionLogState)
    (event : SqlExecutionEvent) (context : SqlExecutionLogContext) (executionSequence : option Z)
    : SqlExecutionLogState :=
  let executionId := eventExecutionId event in
  if isSupersededExecution state executionId then state else
  let trackedState := trackActiveExecution state executionId in
  let occurredAt := default now (occurredAtEpochMs event) in
  let sequence := default 1 (statementSequence event) in
  let recordId := idFor executionId sequence in
  match eventBody event with
  | Started => trackedState
  | StatementStarted stmt =>
      if includes recordId (recId <$> records trackedState) then trackedState else
      setRecords trackedState
        (records trackedState
         ++ [createRecord executionId executionSequence sequence
               (or_else (default [] (stmt ≫= stmtOriginalSql)) (default [] (stmt ≫= stmtSql)))
               context occurredAt (nonEmpty (default [] (stmt ≫= stmtComment))) false])
  | body =>
      match eventTarget (records trackedState) event with
      | None =>
          let fresh :=
            createRecord executionId executionSequence sequence [] context occurredAt None false in
          let finishWith error :=
            finishActiveExecution
              (setRecords trackedState (records trackedState ++ [finishTerminal fresh error occurredAt]))
              executionId in
          match body with
          | Failed error => finishWith (Some error)
          | Cancelled => finishWith None
          | Finished => finishActiveExecution trackedState executionId
          | _ => trackedState
          end
      | Some target =>
          let nextState :=
            updateRecord trackedState (Some (recId target)) (updateForEvent event occurredAt) in
          if isTerminalEvent body then finishActiveExecution nextState executionId else nextState
      end
  end.

Definition reduceDesktopSqlExecutionEventWithHistoryPreference (now : Z)
    (state : SqlExecutionLogState) (event : SqlExecutionEvent) (context : SqlExecutionLogContext)
    (keepHistory : bool) (requestSequence executionSequence : option Z) : SqlExecutionLogState :=
  match requestSequence with
  | Some r =>
      if match replacementRequestSequence state with Some n => r <? n | None => false end then state
      else reduceDesktopSqlExecutionEvent now state event context executionSequence
  | None =>
      let started := match eventBody event with Started => true | _ => false end in
      let preparedState :=
        if started || negb (isSqlExecutionTracked state (eventExecutionId event))
        then prepareSqlExecutionLogForExecution state (eventExecutionId event) keepHistory
        else state in
      reduceDesktopSqlExecutionEvent now preparedState event context executionSequence
  end.
