(* ===== verification/SqlExecutionLogOutputs.v ===== *)
(** * SqlExecutionLogOutputs: the outputs of a record of the SQL log

    What the operations on one record promise: the outputs that
    [retainOutputs] keeps, the bound of [truncateMessage], and the freshness of
    the identifiers of generated messages. *)

From S2P Require Import Prelude JsNumber SqlExecutionTypes SqlExecutionLog.
Local Open Scope nat_scope.

(* ------------------------------------------------------------------ *)
(** ** Retention *)

(** The loops only add indices below their bound, from the top down, until the
    capacity is reached. *)
Record loop_spec (keep : nat → bool) (n : nat) (S R : gset nat) : Prop := {
  ls_sub : S ⊆ R;
  ls_new : ∀ i, i ∈ R → i ∉ S → i < n ∧ keep i = true;
  ls_closed : ∀ i j, i ∈ R → i ∉ S → i < j → j < n → keep j = true → j ∈ R;
  ls_full : (∀ i, i < n → keep i = true → i ∈ R) ∨ size R = MAX_OUTPUTS_PER_RECORD;
  ls_size : size R ≤ MAX_OUTPUTS_PER_RECORD;
}.

Lemma size_add (i : nat) (R : gset nat) :
  size ({[i]} ∪ R) ≤ Datatypes.S (size R).
Proof.
  destruct (decide (i ∈ R)) as [Hi|Hi].
  - replace ({[i]} ∪ R) with R by set_solver. lia.
  - rewrite size_union by set_solver. rewrite size_singleton. lia.
Qed.

Lemma retainLoop_spec keep n S :
  size S ≤ MAX_OUTPUTS_PER_RECORD → loop_spec keep n S (retainLoop keep n S).
Proof.
  revert S. induction n as [|n IH]; intros S HS; cbn.
  { constructor; [done|naive_solver|naive_solver|left; lia|done]. }
  case_decide as Hsz; [|constructor; [done|naive_solver|naive_solver|right; lia|done]].
  set (S1 := if keep n then {[n]} ∪ S else S).
  assert (size S1 ≤ MAX_OUTPUTS_PER_RECORD) as HS1.
  { unfold S1. destruct (keep n); [|lia]. pose proof (size_add n S). lia. }
  assert (∀ i, i ∈ S1 ↔ i ∈ S ∨ i = n ∧ keep n = true) as HS1'.
  { intros i. unfold S1. destruct (keep n); set_solver. }
  destruct (IH S1 HS1) as [H1 H2 H3 H4 H5]. constructor; [set_solver| | | |done].
  - intros i Hi Hni. destruct (decide (i ∈ S1)) as [H|H].
    + apply HS1' in H as [?|[-> ?]]; [done|]. split; [lia|done].
    + destruct (H2 i Hi H). split; [lia|done].
  - intros i j Hi Hni Hij Hj Hk. destruct (decide (j = n)) as [->|Hjn].
    { apply H1, HS1'. by right. }
    apply H3 with i; try done; [|lia]. intros H. apply HS1' in H as [?|[-> _]]; [done|lia].
  - destruct H4 as [H4|H4]; [left|by right]. intros i Hi Hk.
    destruct (decide (i = n)) as [->|]; [apply H1, HS1'; by right|apply H4; [lia|done]].
Qed.

Section filterIndexes.
Context {A : Type} (P : A → Prop) `{∀ x, Decision (P x)}.
Implicit Types xs : list A.

Lemma filterIndexes_sublist R i xs : filterIndexes R i xs `sublist_of` xs.
Proof. revert i. induction xs as [|x xs IH]; intros i; cbn; [done|]. case_decide; by constructor. Qed.

Lemma filterIndexes_length R i xs :
  length (filterIndexes R i xs) = length (filter (λ j, j ∈ R) (seq i (length xs))).
Proof.
  revert i. induction xs as [|x xs IH]; intros i; cbn [filterIndexes length seq]; [done|].
  rewrite filter_cons. case_decide; cbn; by rewrite IH.
Qed.

Lemma filterIndexes_all R i xs :
  (∀ k x, xs !! k = Some x → P x → i + k ∈ R) → filter P (filterIndexes R i xs) = filter P xs.
Proof.
  revert i. induction xs as [|x xs IH]; intros i HR; cbn [filterIndexes]; [done|].
  assert (filter P (filterIndexes R (S i) xs) = filter P xs) as Hxs.
  { apply IH. intros k y Hk Hy. specialize (HR (S k) y Hk Hy). by rewrite Nat.add_succ_r in HR. }
  destruct (decide (P x)) as [Hx|Hx].
  - rewrite decide_True by (specialize (HR 0 x eq_refl Hx); by rewrite Nat.add_0_r in HR).
    by rewrite !filter_cons_True, Hxs.
  - rewrite (filter_cons_False P x xs) by done. case_decide; [|done].
    by rewrite filter_cons_False.
Qed.

(** A selection of the elements of [P] that is closed upwards is a tail of
    them. *)
Lemma filterIndexes_tail R i xs :
  (∀ j k x, xs !! j = Some x → P x → i + j ∈ R → ∀ y, j < k → xs !! k = Some y → P y → i + k ∈ R) →
  filter P (filterIndexes R i xs)
  = take_last (length (filter P (filterIndexes R i xs))) (filter P xs).
Proof.
  revert i. induction xs as [|x xs IH]; intros i HR; [done|]. cbn [filterIndexes].
  assert (filter P (filterIndexes R (S i) xs)
    = take_last (length (filter P (filterIndexes R (S i) xs))) (filter P xs)) as Hxs.
  { apply IH. intros j k y Hj Hy HjR z Hjk Hk Hz. rewrite Nat.add_succ_comm in HjR |- *.
    apply (HR (S j) (S k) y Hj Hy HjR) with z; [lia|done..]. }
  destruct (decide (P x)) as [Hx|Hx].
  - destruct (decide (i ∈ R)) as [Hi|Hi].
    + assert (filter P (filterIndexes R (S i) xs) = filter P xs) as Hall.
      { apply filterIndexes_all. intros k y Hk Hy. rewrite Nat.add_succ_comm.
        apply (HR 0 (S k) x eq_refl Hx) with y; [by rewrite Nat.add_0_r|lia|done..]. }
      rewrite !filter_cons_True by done. rewrite Hall. by rewrite take_last_all by (cbn; lia).
    + rewrite (filter_cons_True P x xs) by done. rewrite Hxs at 1.
      unfold take_last. cbn [length].
      assert (length (filter P (filterIndexes R (S i) xs)) ≤ length (filter P xs)) as Hle.
      { rewrite Hxs, length_take_last. lia. }
      by rewrite Nat.sub_succ_l.
  - rewrite (filter_cons_False P x xs) by done.
    case_decide; [rewrite (filter_cons_False P x (filterIndexes _ _ _)) by done|]; done.
Qed.
End filterIndexes.

Lemma size_seq_filter (R : gset nat) n :
  (∀ i, i ∈ R → i < n) → length (filter (λ j, j ∈ R) (seq 0 n)) = size R.
Proof.
  intros HR. unfold size, set_size. cbn. apply Permutation_length, NoDup_Permutation.
  - apply NoDup_filter, NoDup_seq.
  - apply NoDup_elements.
  - intros i. rewrite list_elem_of_filter, elem_of_elements, elem_of_seq.
    split; [naive_solver|]. intros Hi. split; [done|]. specialize (HR i Hi). lia.
Qed.

Lemma length_filter_split {A} (P : A → Prop) `{∀ x, Decision (P x)} (xs : list A) :
  length xs = length (filter P xs) + length (filter (λ x, ¬ P x) xs).
Proof.
  induction xs as [|x xs IH]; [done|]. rewrite !filter_cons. cbn [length].
  destruct (decide (P x)), (decide (¬ P x)); cbn [length]; try done; lia.
Qed.

Abbreviation critical o := (isCriticalOutput o = true).

(** What the two loops of [retainOutputs] select. *)
Lemma retain_indices (os : list SqlExecutionLogOutput) :
  MAX_OUTPUTS_PER_RECORD < length os →
  ∃ C R : gset nat, retainOutputs os = filterIndexes R 0 os ∧
    loop_spec (λ i, match os !! i with Some o => isCriticalOutput o | None => false end)
      (length os) ∅ C ∧
    loop_spec (λ _, true) (length os) C R ∧ size R = MAX_OUTPUTS_PER_RECORD ∧
    ∀ i, i ∈ R → i < length os.
Proof.
  intros Hlen. unfold retainOutputs. rewrite decide_False by lia.
  eexists _, _. split; [done|].
  pose proof (retainLoop_spec (λ i, match os !! i with Some o => isCriticalOutput o | None => false end)
    (length os) ∅ ltac:(rewrite size_empty; lia)) as HC. split; [done|].
  pose proof (retainLoop_spec (λ _, true) (length os) _ (ls_size _ _ _ _ HC)) as HR.
  split; [done|]. revert HC HR. generalize (retainLoop (λ _, true) (length os)
    (retainLoop (λ i, match os !! i with Some o => isCriticalOutput o | None => false end)
      (length os) ∅)) as R.
  generalize (retainLoop (λ i, match os !! i with Some o => isCriticalOutput o | None => false end)
      (length os) ∅) as C. intros C R HC HR.
  assert (∀ i, i ∈ R → i < length os) as Hb.
  { intros i Hi. destruct (decide (i ∈ C)) as [Hc|Hc].
    - by apply (ls_new _ _ _ _ HC).
    - by apply (ls_new _ _ _ _ HR). }
  split; [|done]. destruct (ls_full _ _ _ _ HR) as [Hall|?]; [|done].
  pose proof (ls_size _ _ _ _ HR) as Hsz. exfalso.
  assert (size (list_to_set (seq 0 (length os)) : gset nat) ≤ size R) as Hle.
  { apply subseteq_size. intros i Hi. apply elem_of_list_to_set, elem_of_seq in Hi.
    apply Hall; [lia|done]. }
  rewrite size_list_to_set, length_seq in Hle by apply NoDup_seq. lia.
Qed.

Lemma retain_length os : length (retainOutputs os) = min MAX_OUTPUTS_PER_RECORD (length os).
Proof.
  destruct (decide (MAX_OUTPUTS_PER_RECORD < length os)) as [Hlen|Hlen].
  - destruct (retain_indices os Hlen) as (C & R & -> & _ & _ & Hsz & Hb).
    rewrite filterIndexes_length, size_seq_filter by done. lia.
  - unfold retainOutputs. rewrite decide_True by lia. lia.
Qed.

Lemma retain_sublist os : retainOutputs os `sublist_of` os.
Proof. unfold retainOutputs. case_decide; [done|apply filterIndexes_sublist]. Qed.

(** The critical outputs that stay are the latest two hundred. *)
Lemma retain_critical os :
  filter (λ o, critical o) (retainOutputs os)
  = take_last MAX_OUTPUTS_PER_RECORD (filter (λ o, critical o) os).
Proof.
  destruct (decide (MAX_OUTPUTS_PER_RECORD < length os)) as [Hlen|Hlen].
  2: { unfold retainOutputs. rewrite decide_True by lia. rewrite take_last_all; [done|].
       etrans; [apply length_filter|lia]. }
  pose proof (retain_length os) as Hrl.
  destruct (retain_indices os Hlen) as (C & R & E & HC & HR & Hsz & Hb). rewrite E in *.
  destruct (ls_full _ _ _ _ HC) as [Hall|Hfull].
  - rewrite filterIndexes_all.
    + rewrite take_last_all; [done|].
      rewrite <-(filterIndexes_all (λ o, critical o) R 0 os).
      * etrans; [apply length_filter|]. lia.
      * intros k o Hk Ho. apply (ls_sub _ _ _ _ HR), Hall; cbn; [by eapply lookup_lt_Some|by rewrite Hk].
    + intros k o Hk Ho. apply (ls_sub _ _ _ _ HR), Hall; cbn; [by eapply lookup_lt_Some|by rewrite Hk].
  - assert (C = R) as <-.
    { apply set_subseteq_size_eq; [apply HR|lia]. }
    rewrite filterIndexes_tail.
    + f_equal. rewrite filter_all; [lia|]. clear -HC. apply Forall_forall. intros o Ho.
      assert (∀ i xs, o ∈ filterIndexes C i xs → ∃ k, xs !! k = Some o ∧ i + k ∈ C) as Hin.
      { intros i xs. revert i. induction xs as [|x xs IH]; intros i; cbn; [set_solver|].
        case_decide; [rewrite elem_of_cons; intros [->|Hx]; [exists 0; by rewrite Nat.add_0_r|]|intros Hx];
        destruct (IH _ Hx) as (k & ? & ?); exists (S k); by rewrite Nat.add_succ_r. }
      apply Hin in Ho as (k & Hk & HkC).
      apply (ls_new _ _ _ _ HC) in HkC as [_ HkC]; [|set_solver]. cbn in HkC. by rewrite Hk in HkC.
    + cbn. intros j k o Hj Ho HjC y Hjk Hk Hy. eapply (ls_closed _ _ _ _ HC); [exact HjC|set_solver|done| |].
      * by eapply lookup_lt_Some.
      * by rewrite Hk.
Qed.

(** The other outputs fill the rest of the capacity, the latest first. *)
Lemma retain_other os :
  let ks := retainOutputs os in
  filter (λ o, ¬ critical o) ks
  = take_last (MAX_OUTPUTS_PER_RECORD - length (filter (λ o, critical o) ks))
      (filter (λ o, ¬ critical o) os).
Proof.
  intros ks. pose proof (length_filter_split (λ o, critical o) ks) as Hsplit. cbn beta in Hsplit.
  pose proof (retain_length os) as Hrl. fold ks in Hrl.
  destruct (decide (MAX_OUTPUTS_PER_RECORD < length os)) as [Hlen|Hlen].
  2: { unfold ks, retainOutputs in *. rewrite decide_True in * by lia. rewrite take_last_all; [done|lia]. }
  replace (MAX_OUTPUTS_PER_RECORD - length (filter (λ o, critical o) ks))
    with (length (filter (λ o, ¬ critical o) ks)) by lia.
  clear Hsplit Hrl. unfold ks.
  destruct (retain_indices os Hlen) as (C & R & E & HC & HR & Hsz & Hb). rewrite E.
  apply filterIndexes_tail. cbn. intros j k o Hj Ho HjR y Hjk Hk Hy.
  eapply (ls_closed _ _ _ _ HR); [exact HjR| |done|by eapply lookup_lt_Some|done].
  intros HjC. apply (ls_new _ _ _ _ HC) in HjC as [_ HjC]; [|set_solver]. by rewrite Hj in HjC.
Qed.

(* ------------------------------------------------------------------ *)
(** ** Properties: retention *)

(** Retention keeps the outputs in order and within the capacity; the
    critical ones (errors and failed results) come first: the latest two
    hundred of them stay, and the latest other outputs fill what is left. *)
Theorem retainOutputs_spec os :
  let ks := retainOutputs os in
  let crits xs := filter (λ o, isCriticalOutput o = true) xs in
  let others xs := filter (λ o, ¬ isCriticalOutput o = true) xs in
  ks `sublist_of` os ∧ length ks = min 200 (length os) ∧
  crits ks = take_last 200 (crits os) ∧
  others ks = take_last (200 - length (crits ks)) (others os).
Proof.
  split_and!; [apply retain_sublist|apply retain_length|apply retain_critical|apply retain_other].
Qed.

(* ------------------------------------------------------------------ *)
(** ** Truncation *)

Lemma low_not_high c : is_low c = true → is_high c = false.
Proof.
  unfold is_low, is_high. rewrite andb_true_iff, andb_false_iff, !N.leb_le, !N.leb_gt. lia.
Qed.

Lemma codePoints_cons2 h l s :
  codePoints (h :: l :: s)
  = if is_high h && is_low l then [h; l] :: codePoints s else [h] :: codePoints (l :: s).
Proof. done. Qed.

Lemma codePoints_cons_nonhigh h s : is_high h = false → codePoints (h :: s) = [h] :: codePoints s.
Proof. intros Hh. destruct s; cbn; [done|]. by rewrite Hh. Qed.

(** Induction on a text, two code units at a time. *)
Lemma two_step_ind (P : jstr → Prop) :
  P [] → (∀ h, P [h]) → (∀ h l s, P s → P (l :: s) → P (h :: l :: s)) → ∀ s, P s.
Proof.
  intros H0 H1 H2 s. assert (P s ∧ ∀ h, P (h :: s)) as [? _]; [|done].
  induction s as [|l s [IH1 IH2]]; [done|]. split; [apply IH2|]. intros h. apply H2; auto.
Qed.

Lemma concat_codePoints s : concat (codePoints s) = s.
Proof.
  induction s as [|h|h l s IH1 IH2] using two_step_ind; [done..|].
  rewrite codePoints_cons2. destruct (is_high h && is_low l); cbn [concat app]; by rewrite ?IH1, ?IH2.
Qed.

Lemma codePoints_app_le a b :
  length (codePoints (a ++ b)) ≤ length (codePoints a) + length (codePoints b).
Proof.
  induction a as [|h|h l s IH1 IH2] using two_step_ind; [done| |].
  - destruct b as [|l b]; [cbn; lia|]. cbn [app]. rewrite codePoints_cons2.
    destruct (is_high h && is_low l) eqn:E; [|cbn; lia]. to_prop.
    rewrite (codePoints_cons_nonhigh l) by (by apply low_not_high). cbn. lia.
  - cbn [app]. rewrite !codePoints_cons2.
    destruct (is_high h && is_low l); cbn [length app] in *; lia.
Qed.

Lemma codePoints_single s p : p ∈ codePoints s → length (codePoints p) = 1.
Proof.
  induction s as [|h|h l s IH1 IH2] using two_step_ind; [set_solver|cbn; set_solver|].
  rewrite codePoints_cons2. destruct (is_high h && is_low l) eqn:E; rewrite elem_of_cons;
    intros [->|Hp]; [|auto|done|auto]. cbn. by rewrite E.
Qed.

Lemma codePoints_concat_le ps :
  (∀ p, p ∈ ps → length (codePoints p) = 1) → length (codePoints (concat ps)) ≤ length ps.
Proof.
  induction ps as [|p ps IH]; intros H; cbn [concat]; [done|].
  etrans; [apply codePoints_app_le|]. rewrite (H p) by set_solver. cbn.
  apply le_n_S, IH. set_solver.
Qed.

Lemma length_codePoints s : length (codePoints s) ≤ length s.
Proof.
  induction s as [|h|h l s IH1 IH2] using two_step_ind; [done|cbn; lia|].
  rewrite codePoints_cons2. destruct (is_high h && is_low l); cbn [length] in *; lia.
Qed.

Lemma max_length_split : MAX_MESSAGE_LENGTH = 4087 + 19 + 4086.
Proof. by vm_compute. Qed.

(** A list longer than the bound, cut into the kept ends and the removed rest. *)
Lemma cut_middle {A} (m n : nat) (xs : list A) :
  m + n ≤ length xs → xs = take m xs ++ take (length xs - (m + n)) (drop m xs) ++ take_last n xs.
Proof.
  intros Hlen. rewrite <-(take_drop m xs) at 1. f_equal.
  rewrite <-(take_drop (length xs - (m + n)) (drop m xs)) at 1. f_equal.
  unfold take_last. rewrite drop_drop. f_equal. lia.
Qed.

Lemma truncateMessage_short value :
  length (codePoints value) ≤ MAX_MESSAGE_LENGTH → truncateMessage value = value.
Proof. intros Hlen. unfold truncateMessage. case_decide; [done|]. by rewrite decide_True. Qed.

Lemma truncateMessage_long value :
  MAX_MESSAGE_LENGTH < length (codePoints value) →
  truncateMessage value
  = concat (take 4087 (codePoints value)) ++ MESSAGE_TRUNCATION_MARKER
    ++ concat (take_last 4086 (codePoints value)).
Proof.
  intros Hlen. pose proof (length_codePoints value). unfold truncateMessage.
  rewrite decide_False by lia. rewrite decide_False by lia.
  replace (Nat.div2 (S (MAX_MESSAGE_LENGTH - length MESSAGE_TRUNCATION_MARKER))) with 4087
    by (by vm_compute).
  by replace (Nat.div2 (MAX_MESSAGE_LENGTH - length MESSAGE_TRUNCATION_MARKER)) with 4086
    by (by vm_compute).
Qed.

(** A message is never longer than 8192 characters (code points) in the
    log: a longer one keeps its first and last characters around the marker,
    and no character is cut in two. *)
Theorem truncateMessage_spec value :
  length (codePoints (truncateMessage value)) ≤ MAX_MESSAGE_LENGTH ∧
  (length (codePoints value) ≤ MAX_MESSAGE_LENGTH → truncateMessage value = value) ∧
  (MAX_MESSAGE_LENGTH < length (codePoints value) → ∃ prefix removed suffix,
     codePoints value = prefix ++ removed ++ suffix ∧
     length prefix = 4087 ∧ length suffix = 4086 ∧
     truncateMessage value = concat prefix ++ MESSAGE_TRUNCATION_MARKER ++ concat suffix).
Proof.
  pose proof max_length_split as Hmax. split_and!; [|apply truncateMessage_short|].
  - destruct (decide (MAX_MESSAGE_LENGTH < length (codePoints value))) as [Hlen|Hlen].
    + rewrite truncateMessage_long by done.
      etrans; [apply codePoints_app_le|]. etrans; [apply Nat.add_le_mono_l, codePoints_app_le|].
      replace (length (codePoints MESSAGE_TRUNCATION_MARKER)) with 19 by (by vm_compute).
      pose proof (codePoints_concat_le (take 4087 (codePoints value))) as H1.
      pose proof (codePoints_concat_le (take_last 4086 (codePoints value))) as H2.
      rewrite length_take in H1. rewrite length_take_last in H2.
      assert (∀ p, p ∈ take 4087 (codePoints value) → length (codePoints p) = 1) as Ht.
      { intros p Hp. eapply codePoints_single, elem_of_submseteq; [exact Hp|].
        apply sublist_submseteq, sublist_take. }
      assert (∀ p, p ∈ take_last 4086 (codePoints value) → length (codePoints p) = 1) as Hl.
      { intros p Hp. by eapply codePoints_single, take_last_elem. }
      specialize (H1 Ht). specialize (H2 Hl). lia.
    + rewrite truncateMessage_short; lia.
  - intros Hlen. exists (take 4087 (codePoints value)),
      (take (length (codePoints value) - (4087 + 4086)) (drop 4087 (codePoints value))),
      (take_last 4086 (codePoints value)).
    rewrite length_take, length_take_last, truncateMessage_long by done.
    split_and!; [apply cut_middle; lia|lia|lia|done].
Qed.

Example truncateMessage_spec_witness : truncateMessage (js "error") = js "error".
Proof. apply (proj1 (proj2 (truncateMessage_spec (js "error")))). apply Nat.leb_le. reflexivity. Defined.

(* ------------------------------------------------------------------ *)
(** ** Generated identifiers *)

(** Splitting at a separator the head does not hold. *)
Lemma split_char_head c p s : c ∉ p → split_char c (p ++ c :: s) = p :: split_char c s.
Proof.
  induction p as [|x p IH]; cbn; intros H; [by rewrite decide_True|].
  rewrite decide_False by set_solver. by rewrite IH by set_solver.
Qed.

Lemma split_char_none c p : c ∉ p → split_char c p = [p].
Proof.
  induction p as [|x p IH]; cbn; intros H; [done|].
  rewrite decide_False by set_solver. by rewrite IH by set_solver.
Qed.

Lemma fold_max_ge {A} (f : A → option Z) (xs : list A) (z : Z) x n :
  x ∈ xs → f x = Some n →
  (n + 1 <= fold_left (λ next x, match f x with Some m => Z.max next (m + 1) | None => next end) xs z)%Z.
Proof.
  assert (∀ xs z, (z <= fold_left (λ next x, match f x with
    Some m => Z.max next (m + 1) | None => next end) xs z)%Z) as Hmono.
  { clear. induction xs as [|y xs IH]; intros z; cbn; [lia|]. etrans; [|apply IH].
    destruct (f y); lia. }
  intros Hx Hf. revert z. induction xs as [|y xs IH]; intros z; [set_solver|]. cbn.
  apply elem_of_cons in Hx as [->|Hx]; [|by apply IH]. rewrite Hf. etrans; [|apply Hmono]. lia.
Qed.

(** The sequence number [nextMessageSequence] reads out of an identifier. *)
Definition sequenceOf (recordId id : jstr) : option Z :=
  let prefix := recordId ++ js ":message:" in
  if negb (startsWith prefix id) then None
  else split_char (ch ":") (drop (length prefix) id) !! 1 ≫= js_Number.

Lemma nextMessageSequence_fold record :
  nextMessageSequence record
  = fold_left (λ next o, match sequenceOf (recId record) (outputId o) with
                         | Some m => Z.max next (m + 1) | None => next end) (outputs record) 0%Z.
Proof.
  unfold nextMessageSequence. generalize 0%Z.
  induction (outputs record) as [|o os IH]; intros z; cbn; [done|]. rewrite IH. f_equal.
  unfold sequenceOf. by destruct (negb _).
Qed.

Lemma nextMessageSequence_ge record o n :
  o ∈ outputs record → sequenceOf (recId record) (outputId o) = Some n →
  (n + 1 <= nextMessageSequence record)%Z.
Proof.
  intros Ho Hn. rewrite nextMessageSequence_fold.
  by apply (fold_max_ge (λ o, sequenceOf (recId record) (outputId o)) _ _ o).
Qed.

Lemma sequenceOf_message recordId source n :
  sequenceOf recordId (messageOutputId recordId source (znum n)) = Some n.
Proof.
  unfold sequenceOf, messageOutputId. rewrite (assoc_L (++) recordId), startsWith_app. cbn [negb].
  rewrite drop_app_length, split_char_head by (destruct source; compute_done).
  rewrite split_char_none by auto with js. cbn. apply js_Number_znum.
Qed.

(** The identifier of a generated message is new in its record. *)
Lemma generated_id_fresh record source :
  messageOutputId (recId record) source (znum (nextMessageSequence record))
  ∉ outputId <$> outputs record.
Proof.
  intros (o & Ho & Hin)%list_elem_of_fmap.
  pose proof (nextMessageSequence_ge record o (nextMessageSequence record) Hin) as H.
  rewrite <-Ho, sequenceOf_message in H. specialize (H eq_refl). lia.
Qed.

(* ------------------------------------------------------------------ *)
(** ** Appending *)

Lemma uniqueAdditions_spec ids additions :
  let us := uniqueAdditions ids additions in
  us `sublist_of` additions ∧ NoDup (outputId <$> us) ∧ (∀ o, o ∈ us → outputId o ∉ ids).
Proof.
  revert ids. induction additions as [|o os IH]; intros ids; cbn.
  { split_and!; [done|constructor|set_solver]. }
  destruct (includes (outputId o) ids) eqn:E; autorewrite with js in E.
  - destruct (IH ids) as (? & ? & ?). split_and!; [by constructor|done|done].
  - destruct (IH (outputId o :: ids)) as (Hs & Hnd & Hnew). split_and!; [by constructor| |].
    + cbn. constructor; [|done]. intros (o' & Ho' & Hin)%list_elem_of_fmap.
      apply (Hnew o' Hin). rewrite Ho'. set_solver.
    + intros o' [->|Ho']%elem_of_cons; [done|]. specialize (Hnew o' Ho'). set_solver.
Qed.

(** What every record of the log satisfies. *)
Record record_ok (r : SqlExecutionLogRecord) : Prop := {
  ro_ids : NoDup (outputId <$> outputs r);
  ro_length : length (outputs r) ≤ MAX_OUTPUTS_PER_RECORD;
}.

Lemma record_ok_same r r' : outputs r' = outputs r → record_ok r → record_ok r'.
Proof. intros Heq [? ?]. by constructor; rewrite Heq. Qed.

Lemma record_ok_sublist r r' : outputs r' `sublist_of` outputs r → record_ok r → record_ok r'.
Proof.
  intros Hs [? ?]. constructor; [by eapply NoDup_fmap_sublist|].
  etrans; [by apply sublist_length|done].
Qed.

Lemma appendOutputs_spec record additions next :
  appendOutputs record additions = Some next →
  next = withOutputs record
    (retainOutputs (outputs record ++ uniqueAdditions (outputId <$> outputs record) additions)).
Proof. unfold appendOutputs. destruct (uniqueAdditions _ _) eqn:E; intros; by simplify_eq. Qed.

Lemma appendOutputs_ok record additions :
  record_ok record → record_ok (orSame record (appendOutputs record additions)).
Proof.
  intros Hok. destruct (appendOutputs record additions) as [next|] eqn:E; [|done].
  apply appendOutputs_spec in E as ->.
  destruct (uniqueAdditions_spec (outputId <$> outputs record) additions) as (_ & Hnd & Hnew).
  constructor; cbn [outputs withOutputs].
  - eapply NoDup_fmap_sublist; [apply retain_sublist|]. rewrite fmap_app. apply NoDup_app.
    split_and!; [apply Hok| |done]. intros id Hid (o & -> & Ho)%list_elem_of_fmap.
    by apply (Hnew o Ho).
  - change (length (retainOutputs (outputs record ++ uniqueAdditions (outputId <$> outputs record) additions)) ≤ MAX_OUTPUTS_PER_RECORD).
    rewrite retain_length. lia.
Qed.

Lemma appendMessage_ok record msg at_ source seq :
  record_ok record → record_ok (orSame record (appendMessage record msg at_ source seq)).
Proof.
  intros Hok. unfold appendMessage. destruct (createMessageOutput _ _ _ _ _); cbn; [|done].
  by apply appendOutputs_ok.
Qed.

Lemma addError_ok record error at_ : record_ok record → record_ok (addError record error at_).
Proof. intros Hok. unfold addError. destruct (errorText error); [done|by apply appendMessage_ok]. Qed.

Lemma truncate_nil value : truncateMessage value = [] → value = [].
Proof.
  intros H. destruct (decide (MAX_MESSAGE_LENGTH < length (codePoints value))) as [Hlen|Hlen].
  - rewrite truncateMessage_long in H by done. by apply app_eq_nil in H as [_ ?].
  - by rewrite truncateMessage_short in H by lia.
Qed.

Lemma createMessageOutput_text record msg at_ source seq t :
  truncateMessage (default [] (msgText msg)) = t → t ≠ [] →
  createMessageOutput record (Some msg) at_ source seq
  = Some (mkMessageOutput (messageOutputId (recId record) source seq) at_
            (levelOf (msgLevel msg)) t (msgErrorCode msg) (msgSqlState msg) (msgSource msg)).
Proof.
  intros Ht Hne. unfold createMessageOutput.
  change (Some msg ≫= msgText) with (msgText msg). rewrite Ht. by destruct t.
Qed.

(** An error is never lost: whatever a record holds, failing it with an
    error that has a text adds an error message with the (truncated) text under
    an identifier that is new in the record, and retention keeps it. *)
Theorem addError_shown record error at_ :
  errorText error ≠ [] →
  ∃ m, OutMessage m ∈ outputs (addError record error at_) ∧ moLevel m = ERROR ∧
    moMessage m = truncateMessage (errorText error) ∧ moId m ∉ outputId <$> outputs record.
Proof.
  intros He. unfold addError. destruct (errorText error) as [|c s] eqn:E; [done|].
  unfold appendMessage.
  rewrite (createMessageOutput_text _ _ _ _ _ (truncateMessage (c :: s)));
    [|done|by intros ?%truncate_nil].
  cbn [default mbind option_bind].
  match goal with |- context [OutMessage ?m0] => set (m := m0) end.
  pose proof (generated_id_fresh record generated) as Hfresh.
  exists m. split_and!; [|done|done|exact Hfresh].
  unfold appendOutputs. cbn [uniqueAdditions outputId].
  rewrite (proj2 (includes_false _ _) Hfresh). cbn [orSame default outputs withOutputs].
  assert (OutMessage m ∈ filter (λ o, critical o)
    (retainOutputs (outputs record ++ [OutMessage m]))) as Hin.
  { rewrite retain_critical, filter_app. rewrite (filter_cons_True _ (OutMessage m) []) by done.
    cbn. unfold take_last. rewrite drop_app_le; [set_solver|]. rewrite length_app. cbn.
    assert (1 ≤ MAX_OUTPUTS_PER_RECORD) by (by apply Nat.leb_le). lia. }
  by apply list_elem_of_filter in Hin as [_ ?].
Qed.

Definition sample_record : SqlExecutionLogRecord :=
  createRecord (js "run") None 1 (js "select 1") (mkLogContext None None None None None) 0 None false.

Example addError_shown_witness :
  ∃ m, OutMessage m ∈ outputs (addError sample_record (ErrorText (js "boom")) 5) ∧
    moMessage m = truncateMessage (js "boom").
Proof.
  destruct (addError_shown sample_record (ErrorText (js "boom")) 5 ltac:(done)) as (m & Hm & _ & Ht & _).
  exists m. split; [exact Hm|exact Ht].
Defined.
