(* ===== verification/SqlExecutionLogState.v ===== *)
(** * SqlExecutionLogState: the invariant of the SQL log

    The operations of SqlExecutionLog as steps of a transition system, the
    invariant every reachable log satisfies, and what replacing the log by that
    of a new request guarantees: the executions it replaces cannot touch it any
    more. *)

From S2P Require Import Prelude SqlExecutionTypes SqlExecutionLog SqlExecutionLogOutputs.
Local Open Scope nat_scope.

(* ------------------------------------------------------------------ *)
(** ** The transition system *)

Inductive log_op :=
  | OpClear
  | OpPrepare (executionId : jstr) (keepHistory : bool)
  | OpPrepareDesktop (requestSequence : Z) (keepHistory : bool)
  | OpBegin (now : Z) (params : BeginWebSqlExecutionParams)
  | OpComplete (now : Z) (params : BeginWebSqlExecutionParams) (results : list IManageResultData)
  | OpFail (now : Z) (params : BeginWebSqlExecutionParams) (error : ErrorValue)
  | OpEvent (now : Z) (event : SqlExecutionEvent) (context : SqlExecutionLogContext)
      (keepHistory : bool) (requestSequence executionSequence : option Z).

Definition apply_op (s : SqlExecutionLogState) (op : log_op) : SqlExecutionLogState :=
  match op with
  | OpClear => clearSqlExecutionLog s
  | OpPrepare id keep => prepareSqlExecutionLogForExecution s id keep
  | OpPrepareDesktop n keep => prepareDesktopSqlExecutionLogForRequest s n keep
  | OpBegin now p => beginWebSqlExecution now s p
  | OpComplete now p results => completeWebSqlExecution now s p results
  | OpFail now p e => failWebSqlExecution now s p e
  | OpEvent now ev ctx keep rs es =>
      reduceDesktopSqlExecutionEventWithHistoryPreference now s ev ctx keep rs es
  end.

Inductive log_step : SqlExecutionLogState → SqlExecutionLogState → Prop :=
  | log_step_op s op : log_step s (apply_op s op).

Definition reachable (s : SqlExecutionLogState) : Prop := rtc log_step createSqlExecutionLogState s.

(* ------------------------------------------------------------------ *)
(** ** The invariant *)

Definition activeIds (s : SqlExecutionLogState) : list jstr := default [] (activeExecutionIds s).
Definition supersededIds (s : SqlExecutionLogState) : list jstr :=
  default [] (supersededExecutionIds s).

(** At most two hundred records, unless all of them run. *)
Definition bounded (rs : list SqlExecutionLogRecord) : Prop :=
  length rs ≤ MAX_RECORDS ∨ Forall (λ r, status r = running) rs.

Record log_ok (s : SqlExecutionLogState) : Prop := {
  lo_records : Forall record_ok (records s);
  lo_bounded : bounded (records s);
  lo_active : NoDup (activeIds s) ∧ activeExecutionIds s ≠ Some [];
  lo_superseded : NoDup (supersededIds s) ∧ length (supersededIds s) ≤ MAX_SUPERSEDED_EXECUTIONS;
  lo_active_live : ∀ id, id ∈ activeIds s → id ∉ supersededIds s;
  lo_records_live : ∀ r, r ∈ records s → recExecutionId r ∉ supersededIds s;
}.

(* ------------------------------------------------------------------ *)
(** ** Records *)

Lemma isRunning_true r : isRunning r = true ↔ status r = running.
Proof. unfold isRunning. apply bool_decide_eq_true. Qed.

Lemma dropFinished_sublist k rs : dropFinished k rs `sublist_of` rs.
Proof.
  revert k. induction rs as [|r rs IH]; intros k; cbn; [done|].
  destruct k; [by constructor|]. destruct (isRunning r); by constructor.
Qed.

Lemma dropFinished_0 rs : dropFinished 0 rs = rs.
Proof. induction rs as [|r rs IH]; cbn; [done|by rewrite IH]. Qed.

(** Either the overflow is removed, or only running records are left. *)
Lemma dropFinished_length k rs :
  length (dropFinished k rs) + k = length rs ∨ Forall (λ r, status r = running) (dropFinished k rs).
Proof.
  revert k. induction rs as [|r rs IH]; intros k; cbn; [by right|].
  destruct k as [|k]; [left; cbn; rewrite dropFinished_0; lia|].
  destruct (isRunning r) eqn:E.
  - destruct (IH (S k)) as [H|H]; [left; cbn; lia|right]. apply isRunning_true in E. by constructor.
  - destruct (IH k) as [H|H]; [left; lia|by right].
Qed.

(** Running records always stay; the finished ones are dropped oldest first. *)
Lemma dropFinished_running k rs : filter isRunning (dropFinished k rs) = filter isRunning rs.
Proof.
  revert k. induction rs as [|r rs IH]; intros k; cbn [dropFinished]; [done|].
  destruct k; [by rewrite dropFinished_0|].
  destruct (isRunning r) eqn:E.
  - rewrite !filter_cons_True by (by rewrite E). by rewrite IH.
  - rewrite filter_cons_False by (rewrite E; by intros []). apply IH.
Qed.

Lemma dropFinished_finished k rs :
  filter (λ r, isRunning r = false) (dropFinished k rs)
  = drop k (filter (λ r, isRunning r = false) rs).
Proof.
  revert k. induction rs as [|r rs IH]; intros k; cbn [dropFinished]; [by destruct k|].
  destruct k; [by rewrite dropFinished_0|].
  destruct (isRunning r) eqn:E.
  - rewrite !filter_cons_False by (by rewrite E). apply IH.
  - rewrite (filter_cons_True _ r rs) by done. apply IH.
Qed.

Lemma setRecords_records s rs : records (setRecords s rs) = dropFinished (length rs - MAX_RECORDS) rs.
Proof.
  unfold setRecords. case_decide; cbn; [|done].
  replace (length rs - MAX_RECORDS) with 0 by lia. by rewrite dropFinished_0.
Qed.

Lemma setRecords_bounded s rs : bounded (records (setRecords s rs)).
Proof.
  rewrite setRecords_records. destruct (dropFinished_length (length rs - MAX_RECORDS) rs) as [H|H].
  - destruct (decide (length rs ≤ MAX_RECORDS)) as [Hle|Hle]; left.
    + replace (length rs - MAX_RECORDS) with 0 by lia. by rewrite dropFinished_0.
    + lia.
  - by right.
Qed.

Lemma setRecords_active s rs : activeExecutionIds (setRecords s rs) = activeExecutionIds s.
Proof. unfold setRecords. by case_decide. Qed.
Lemma setRecords_superseded s rs :
  supersededExecutionIds (setRecords s rs) = supersededExecutionIds s.
Proof. unfold setRecords. by case_decide. Qed.
Lemma setRecords_replacement s rs :
  replacementExecutionId (setRecords s rs) = replacementExecutionId s.
Proof. unfold setRecords. by case_decide. Qed.

(** What an update of the records has to satisfy to keep the invariant. *)
Definition live (s : SqlExecutionLogState) (r : SqlExecutionLogRecord) : Prop :=
  record_ok r ∧ recExecutionId r ∉ supersededIds s.

Lemma log_ok_live s : log_ok s → Forall (live s) (records s).
Proof.
  intros H. apply Forall_forall. intros r Hr. split; [|by apply (lo_records_live s H)].
  by apply (proj1 (Forall_forall _ _) (lo_records s H)).
Qed.

Lemma setRecords_ok s rs : log_ok s → Forall (live s) rs → log_ok (setRecords s rs).
Proof.
  intros [H1 H2 H3 H4 H5 H6] Hrs.
  assert (Forall (live s) (records (setRecords s rs))) as Hrs'.
  { rewrite setRecords_records. rewrite Forall_forall in *. intros r Hr. apply Hrs.
    eapply elem_of_submseteq; [exact Hr|]. apply sublist_submseteq, dropFinished_sublist. }
  unfold activeIds, supersededIds in *.
  constructor; unfold activeIds, supersededIds; rewrite ?setRecords_active, ?setRecords_superseded;
    try done.
  - eapply Forall_impl; [exact Hrs'|by intros ? []].
  - apply setRecords_bounded.
  - intros r Hr. rewrite Forall_forall in Hrs'. by apply Hrs'.
Qed.

(** Updaters keep the identity of a record and its outputs consistent. *)
Definition good_update (f : SqlExecutionLogRecord → option SqlExecutionLogRecord) : Prop :=
  ∀ r r', f r = Some r' → record_ok r → record_ok r' ∧ recExecutionId r' = recExecutionId r.

Lemma updateRecord_ok s id f : log_ok s → good_update f → log_ok (updateRecord s id f).
Proof.
  intros Hok Hf. unfold updateRecord. destruct id as [[|c id]|]; try done.
  case_test; [|done]. apply setRecords_ok; [done|]. pose proof (log_ok_live s Hok) as Hl.
  apply Forall_fmap. eapply Forall_impl; [exact Hl|]. intros r [Hr Hlive]. cbn.
  case_decide; [|done]. destruct (f r) as [r'|] eqn:E; [|done]. cbn.
  destruct (Hf r r' E Hr) as [? Heq]. split; [done|]. by rewrite Heq.
Qed.

Lemma trackActive_ok s id : log_ok s → id ∉ supersededIds s → log_ok (trackActiveExecution s id).
Proof.
  intros [H1 H2 [H3 H3'] H4 H5 H6] Hid.
  assert (∀ x, x ∈ addExecutionId (activeExecutionIds s) id ↔ x ∈ activeIds s ∨ x = id) as Hin.
  { intros x. unfold addExecutionId. fold (activeIds s).
    destruct (includes id (activeIds s)) eqn:E; autorewrite with js in E; set_solver. }
  constructor; try done; unfold activeIds; cbn -[includes].
  - unfold addExecutionId. fold (activeIds s).
    destruct (includes id (activeIds s)) eqn:E; autorewrite with js in E.
    + split; [done|]. intros [= Hnil]. by rewrite Hnil in E; apply not_elem_of_nil in E.
    + split; [|by destruct (activeIds s)]. apply NoDup_app.
      split_and!; [done| |apply NoDup_singleton]. intros x Hx. by intros ->%list_elem_of_singleton.
  - intros x Hx. apply Hin in Hx as [?| ->]; [by apply H5|done].
Qed.

Lemma finishActive_ok s id : log_ok s → log_ok (finishActiveExecution s id).
Proof.
  intros Hok. unfold finishActiveExecution. case_test; [done|].
  destruct Hok as [H1 H2 [H3 H3'] H4 H5 H6]. fold (activeIds s).
  assert (∀ ids', ids' = filter (λ x, x ≠ id) (activeIds s) →
    NoDup ids' ∧ ∀ x, x ∈ ids' → x ∉ supersededIds s) as Hf.
  { intros ids' ->. split; [by apply NoDup_filter|].
    intros x [_ ?]%list_elem_of_filter. by apply H5. }
  constructor; try done; unfold activeIds at 1; cbn.
  - destruct (filter _ _) as [|x xs] eqn:E; cbn; [split; [constructor|done]|].
    by destruct (Hf (x :: xs)).
  - destruct (filter _ _) as [|x xs] eqn:E; cbn; [intros; set_solver|].
    destruct (Hf (x :: xs)) as [_ H]; [done|]. exact H.
Qed.

(* ------------------------------------------------------------------ *)
(** ** Updates of one record *)

Lemma finishTerminal_ok r error at_ : record_ok r → record_ok (finishTerminal r error at_).
Proof.
  intros Hr. unfold finishTerminal. destruct error as [e|].
  - apply addError_ok. by apply (record_ok_same r).
  - eapply record_ok_sublist, Hr. cbn. apply sublist_filter.
Qed.

Lemma orSame_id {A} (f : SqlExecutionLogRecord → A) r o :
  (∀ r', o = Some r' → f r' = f r) → f (orSame r o) = f r.
Proof. destruct o; cbn; auto. Qed.

Lemma appendOutputs_execution r adds r' :
  appendOutputs r adds = Some r' → recExecutionId r' = recExecutionId r.
Proof. by intros ->%appendOutputs_spec. Qed.

Lemma appendMessage_execution r msg at_ src seq r' :
  appendMessage r msg at_ src seq = Some r' → recExecutionId r' = recExecutionId r.
Proof.
  unfold appendMessage. destruct (createMessageOutput _ _ _ _ _); cbn; [|done].
  apply appendOutputs_execution.
Qed.

Lemma addError_execution r e at_ : recExecutionId (addError r e at_) = recExecutionId r.
Proof.
  unfold addError. destruct (errorText e); [done|].
  apply orSame_id. intros r'. apply appendMessage_execution.
Qed.

Lemma finishTerminal_execution r error at_ :
  recExecutionId (finishTerminal r error at_) = recExecutionId r.
Proof. destruct error; cbn; [|done]. by rewrite addError_execution. Qed.

Lemma finishResult_ok r ev result at_ :
  record_ok r →
  record_ok (finishResult r ev result at_) ∧
  recExecutionId (finishResult r ev result at_) = recExecutionId r.
Proof.
  intros Hr. unfold finishResult.
  set (c := withContext r _).
  assert (record_ok c) as Hc by (by apply (record_ok_same r)).
  match goal with |- context [withStatus ?n failed] => set (next := n) end.
  assert (record_ok next ∧ recExecutionId next = recExecutionId r) as [Hn He].
  { unfold next. destruct (_ && _); [done|]. split; [by apply appendOutputs_ok|].
    rewrite (orSame_id recExecutionId); [done|]. intros r'. apply appendOutputs_execution. }
  case_decide; [|done]. split; [by apply (record_ok_same next)|done].
Qed.

Lemma updateForEvent_good ev at_ : good_update (updateForEvent ev at_).
Proof.
  intros r r' H Hr. unfold updateForEvent in H.
  destruct (eventBody ev); simplify_eq;
    try (split; [by apply (record_ok_same r)|done]);
    try (by apply finishResult_ok);
    try (split; [by apply finishTerminal_ok|apply finishTerminal_execution]).
  - pose proof (appendMessage_ok r msg at_ desktop_event (eventSequence ev) Hr) as Hok.
    apply appendMessage_execution in H as He. by rewrite H in Hok.
  - destruct (isRunning r); simplify_eq. split; [by apply (record_ok_same r)|done].
Qed.

Lemma createRecord_ok ex es n sql ctx t c tmp : record_ok (createRecord ex es n sql ctx t c tmp).
Proof. constructor; cbn; [constructor|lia]. Qed.

(* ------------------------------------------------------------------ *)
(** ** Operations *)

Lemma bounded_filter (P : SqlExecutionLogRecord → Prop) `{∀ r, Decision (P r)} rs :
  bounded rs → bounded (filter P rs).
Proof.
  intros [Hlen|Hrun]; [left|right; by eapply Forall_sublist, Hrun; apply sublist_filter].
  etrans; [apply length_filter|done].
Qed.

Lemma notSuperseded s id :
  isSupersededExecution s id = false → id ∉ supersededIds s.
Proof. unfold isSupersededExecution. intros H. to_prop. by autorewrite with js in *. Qed.

Lemma supersededIds_track s id : supersededIds (trackActiveExecution s id) = supersededIds s.
Proof. done. Qed.

(** Adding one consistent record of a live execution. *)
Lemma add_record_ok s r : log_ok s → live s r → log_ok (setRecords s (records s ++ [r])).
Proof.
  intros Hok Hr. apply setRecords_ok; [done|]. apply Forall_app.
  split; [by apply log_ok_live|by constructor].
Qed.

Lemma clear_ok s : log_ok s → log_ok (clearSqlExecutionLog s).
Proof.
  intros [H1 H2 H3 H4 H5 H6]. constructor; try done; cbn.
  - apply Forall_fmap. eapply Forall_impl; [eapply Forall_sublist, H1; apply sublist_filter|].
    intros r Hr. constructor; cbn; [constructor|lia].
  - right. apply Forall_fmap, Forall_forall. intros r [Hr _]%list_elem_of_filter. cbn.
    apply isRunning_true. by destruct (isRunning r).
  - intros r (r' & -> & Hr)%list_elem_of_fmap. apply list_elem_of_filter in Hr as [_ Hr]. exact (H6 r' Hr).
Qed.

(** The state after a replacement: new superseded executions, fewer records. *)
Lemma replace_ok s ids sup rs repl seq :
  log_ok s → rs `sublist_of` records s →
  NoDup (default [] ids) → ids ≠ Some [] →
  (∀ id, id ∈ default [] ids → id ∉ sup) →
  (∀ r, r ∈ rs → recExecutionId r ∉ sup) →
  log_ok (mkState rs ids repl seq (Some (take_last MAX_SUPERSEDED_EXECUTIONS (uniq sup)))).
Proof.
  intros [H1 H2 H3 H4 H5 H6] Hsub Hnd Hne Hids Hrs.
  assert (∀ id, id ∉ sup → id ∉ take_last MAX_SUPERSEDED_EXECUTIONS (uniq sup)) as Hsup.
  { intros id Hid Hin. by apply Hid, elem_of_uniq, (take_last_elem MAX_SUPERSEDED_EXECUTIONS). }
  constructor; unfold activeIds, supersededIds; cbn -[take_last uniq]; auto.
  - eapply Forall_sublist; [|exact H1]. done.
  - destruct H2 as [Hlen|Hrun]; [left; etrans; [by apply sublist_length|done]|].
    right. by eapply Forall_sublist.
  - split; [auto with js|]. rewrite length_take_last. lia.
Qed.

Lemma NoDup_addExecutionId s id :
  log_ok s → NoDup (addExecutionId (activeExecutionIds s) id) ∧
             addExecutionId (activeExecutionIds s) id ≠ [].
Proof.
  intros Hok. pose proof (lo_active s Hok) as [Hnd _]. unfold addExecutionId. fold (activeIds s).
  destruct (includes id (activeIds s)) eqn:E; autorewrite with js in E.
  - split; [done|]. intros H. by rewrite H in E; apply not_elem_of_nil in E.
  - split; [|by destruct (activeIds s)]. apply NoDup_app.
    split_and!; [done| |apply NoDup_singleton]. intros x Hx. by intros ->%list_elem_of_singleton.
Qed.

Lemma elem_addExecutionId s id x :
  x ∈ addExecutionId (activeExecutionIds s) id → x ∈ activeIds s ∨ x = id.
Proof. unfold addExecutionId. fold (activeIds s). destruct (includes _ _); set_solver. Qed.

Lemma live_active s ids id :
  log_ok s → id ∉ supersededIds s →
  ids = addExecutionId (activeExecutionIds s) id → ∀ x, x ∈ ids → x ∉ supersededIds s.
Proof.
  intros Hok Hid -> x [Hx|Hx]%elem_addExecutionId; [by apply (lo_active_live s Hok)|by subst].
Qed.

Lemma prepare_ok s id keep : log_ok s → log_ok (prepareSqlExecutionLogForExecution s id keep).
Proof.
  intros Hok. unfold prepareSqlExecutionLogForExecution.
  destruct (includes id _) eqn:E; [done|]. apply includes_false in E. fold (supersededIds s) in E.
  pose proof (NoDup_addExecutionId s id Hok) as [Hnd Hne].
  pose proof (live_active s _ id Hok E eq_refl) as Hlive.
  destruct keep.
  - case_test; [done|]. destruct Hok. constructor; try done; split; cbn; [done|congruence].
  - case_decide as Hr.
    + destruct Hok. constructor; try done; split; cbn; [done|congruence].
    + apply (replace_ok s); [done|apply sublist_filter|apply NoDup_singleton|done| |].
      * cbn. intros x ->%list_elem_of_singleton. fold (supersededIds s).
        rewrite !elem_of_app, !list_elem_of_filter. naive_solver.
      * intros r [<- Hin]%list_elem_of_filter. fold (supersededIds s).
        rewrite !elem_of_app, !list_elem_of_filter. naive_solver.
Qed.

Lemma prepareDesktop_ok s n keep :
  log_ok s → log_ok (prepareDesktopSqlExecutionLogForRequest s n keep).
Proof.
  intros Hok. unfold prepareDesktopSqlExecutionLogForRequest.
  destruct keep; [case_test; [by destruct Hok|done]|]. case_test; [done|].
  apply (replace_ok s); [done|apply sublist_nil_l|constructor|done|cbn; set_solver|set_solver].
Qed.

Lemma begin_ok now s p : log_ok s → log_ok (beginWebSqlExecution now s p).
Proof.
  intros Hok. unfold beginWebSqlExecution. destruct (isSupersededExecution s _) eqn:E; [done|].
  apply notSuperseded in E. pose proof (trackActive_ok s _ Hok E) as Ht.
  case_test; [done|]. apply add_record_ok; [done|]. split; [apply createRecord_ok|done].
Qed.

Lemma webRecord_live s p tmp at_ group r :
  pExecutionId p ∉ supersededIds s → r ∈ webRecord p tmp at_ group → live s r.
Proof.
  intros Hid. unfold webRecord. destruct group as [n [|first rest]]; cbn [snd]; [set_solver|].
  intros ->%list_elem_of_singleton. split.
  - match goal with |- record_ok (withEnd ?q _ _ _) => apply (record_ok_same q); [done|] end.
    apply appendOutputs_ok, createRecord_ok.
  - cbn [recExecutionId withEnd]. rewrite (orSame_id recExecutionId); [done|].
    intros r'. apply appendOutputs_execution.
Qed.

Lemma complete_ok now s p results : log_ok s → log_ok (completeWebSqlExecution now s p results).
Proof.
  intros Hok. unfold completeWebSqlExecution. destruct (isSupersededExecution s _) eqn:E; [done|].
  apply notSuperseded in E. destruct results as [|res results].
  - apply finishActive_ok, updateRecord_ok; [done|]. intros r r' ? Hr. simplify_eq.
    split; [by apply (record_ok_same r)|done].
  - apply finishActive_ok, setRecords_ok; [done|]. apply Forall_app. split.
    + eapply Forall_sublist; [apply sublist_filter|by apply log_ok_live].
    + apply Forall_forall. intros r Hr.
      apply list_elem_of_In, in_concat in Hr as (rs & Hrs & Hr).
      apply list_elem_of_In in Hrs, Hr. apply list_elem_of_fmap in Hrs as (g & -> & _).
      by eapply webRecord_live.
Qed.

Lemma fail_ok now s p e : log_ok s → log_ok (failWebSqlExecution now s p e).
Proof.
  intros Hok. unfold failWebSqlExecution. destruct (isSupersededExecution s _) eqn:E; [done|].
  apply notSuperseded in E. destruct (latestRecord _ _) as [existing|].
  - apply finishActive_ok, updateRecord_ok; [done|]. intros r r' ? Hr. simplify_eq.
    destruct (isSqlExecutionCancellationError e);
      [split; [by apply (record_ok_same r)|done]|].
    split; [apply addError_ok; by apply (record_ok_same r)|by rewrite addError_execution].
  - apply finishActive_ok, add_record_ok; [done|].
    destruct (isSqlExecutionCancellationError e).
    + split; [|done]. apply (record_ok_same sample_record); [done|apply createRecord_ok].
    + split; [|by rewrite addError_execution]. apply addError_ok.
      apply (record_ok_same sample_record); [done|apply createRecord_ok].
Qed.

Lemma reduce_ok now s ev ctx es : log_ok s → log_ok (reduceDesktopSqlExecutionEvent now s ev ctx es).
Proof.
  intros Hok. unfold reduceDesktopSqlExecutionEvent.
  destruct (isSupersededExecution s _) eqn:E; [done|]. apply notSuperseded in E.
  pose proof (trackActive_ok s _ Hok E) as Ht.
  set (t := trackActiveExecution s (eventExecutionId ev)) in *.
  assert (∀ x n sql c b, live t (createRecord (eventExecutionId ev) es n sql ctx x c b)) as Hnew.
  { intros. split; [apply createRecord_ok|done]. }
  assert (∀ r e a, live t r → live t (finishTerminal r e a)) as Hfin.
  { intros r e a [??]. split; [by apply finishTerminal_ok|by rewrite finishTerminal_execution]. }
  pose proof (λ r at_, updateRecord_ok t (Some (recId r)) _ Ht (updateForEvent_good ev at_)) as Hupd.
  destruct (eventBody ev); [done|case_test; [done|by apply add_record_ok]|..];
    (destruct (eventTarget _ _) as [target|]; cbn [isTerminalEvent];
      [try apply finishActive_ok; apply Hupd|]); try done;
    apply finishActive_ok; try done; by apply add_record_ok; auto.
Qed.

Lemma apply_op_ok s op : log_ok s → log_ok (apply_op s op).
Proof.
  intros Hok. destruct op; cbn.
  - by apply clear_ok.
  - by apply prepare_ok.
  - by apply prepareDesktop_ok.
  - by apply begin_ok.
  - by apply complete_ok.
  - by apply fail_ok.
  - unfold reduceDesktopSqlExecutionEventWithHistoryPreference.
    repeat case_match; try done; apply reduce_ok; auto using prepare_ok.
Qed.

Lemma initial_ok : log_ok createSqlExecutionLogState.
Proof.
  constructor; unfold activeIds, supersededIds; cbn; try set_solver.
  - left. apply Nat.le_0_l.
  - split; [constructor|done].
  - split; [constructor|apply Nat.le_0_l].
Qed.

Lemma reachable_ok s : reachable s → log_ok s.
Proof.
  unfold reachable. intros H. pose proof initial_ok as Hi. revert Hi.
  induction H as [s|s s' s'' Hstep _ IH]; [done|]. intros Hs. apply IH.
  destruct Hstep. by apply apply_op_ok.
Qed.

(* ------------------------------------------------------------------ *)
(** ** Replacement *)

(** The execution an operation is about. *)
Definition op_execution (op : log_op) : option jstr :=
  match op with
  | OpClear | OpPrepareDesktop _ _ => None
  | OpPrepare id _ => Some id
  | OpBegin _ p | OpComplete _ p _ | OpFail _ p _ => Some (pExecutionId p)
  | OpEvent _ ev _ _ _ _ => Some (eventExecutionId ev)
  end.

Lemma superseded_ignored s op id :
  op_execution op = Some id → id ∈ supersededIds s → apply_op s op = s.
Proof.
  intros Hop Hid. apply includes_true in Hid as Hin. unfold supersededIds in Hin.
  assert (isSupersededExecution s id = true) as Hs.
  { unfold isSupersededExecution. by rewrite Hin. }
  assert (∀ keep, prepareSqlExecutionLogForExecution s id keep = s) as Hp.
  { intros keep. unfold prepareSqlExecutionLogForExecution. by rewrite Hin. }
  assert (∀ now ev ctx es, eventExecutionId ev = id →
    reduceDesktopSqlExecutionEvent now s ev ctx es = s) as Hr.
  { intros now ev ctx es <-. unfold reduceDesktopSqlExecutionEvent. by rewrite Hs. }
  destruct op; cbn in *; simplify_eq; [apply Hp|..].
  - unfold beginWebSqlExecution. by rewrite Hs.
  - unfold completeWebSqlExecution. by rewrite Hs.
  - unfold failWebSqlExecution. by rewrite Hs.
  - unfold reduceDesktopSqlExecutionEventWithHistoryPreference.
    repeat case_match; rewrite ?Hp; auto.
Qed.

Lemma uniq_app_disjoint {A} `{EqDecision A} (xs ys : list A) :
  (∀ x, x ∈ ys → x ∉ xs) → uniq (xs ++ ys) = uniq xs ++ uniq ys.
Proof.
  intros Hd. induction xs as [|x xs IH]; cbn; [done|]. rewrite IH by set_solver.
  rewrite filter_app. f_equal. f_equal. apply filter_all, Forall_forall.
  intros y Hy ->. rewrite elem_of_uniq in Hy. apply (Hd x Hy). set_solver.
Qed.

Lemma length_uniq {A} `{EqDecision A} (xs : list A) : length (uniq xs) ≤ length xs.
Proof.
  induction xs as [|x xs IH]; cbn; [done|]. apply le_n_S.
  etrans; [apply length_filter|done].
Qed.

(** The newly superseded executions are the last ones: the cap does not drop
    them as long as there are no more of them than it allows. *)
Lemma superseded_kept (old new : list jstr) id :
  (∀ x, x ∈ new → x ∉ old) → length new ≤ MAX_SUPERSEDED_EXECUTIONS → id ∈ new →
  id ∈ take_last MAX_SUPERSEDED_EXECUTIONS (uniq (old ++ new)).
Proof.
  intros Hd Hlen Hid. rewrite uniq_app_disjoint by done. unfold take_last.
  pose proof (length_uniq new). rewrite drop_app_le by (rewrite length_app; lia).
  apply elem_of_app. right. by apply elem_of_uniq.
Qed.

Lemma running_live s id :
  log_ok s → id ∈ runningExecutions (records s) → id ∉ supersededIds s.
Proof.
  intros Hok (r & -> & Hr)%list_elem_of_fmap. apply list_elem_of_filter in Hr as [_ Hr].
  by apply (lo_records_live s Hok).
Qed.

Lemma superseded_fold s ops :
  (∀ op, op ∈ ops → ∃ id, op_execution op = Some id ∧ id ∈ supersededIds s) →
  fold_left apply_op ops s = s.
Proof.
  induction ops as [|op ops IH]; intros H; cbn; [done|].
  destruct (H op ltac:(set_solver)) as (id & Hop & Hid).
  rewrite (superseded_ignored s op id) by done. apply IH. set_solver.
Qed.

(* ------------------------------------------------------------------ *)
(** ** Ends of executions *)

Lemma finishActive_not_in s id : id ∉ activeIds (finishActiveExecution s id).
Proof.
  unfold finishActiveExecution. destruct (includes id _) eqn:E; cbn [negb].
  - unfold activeIds; cbn. destruct (filter _ _) as [|x xs] eqn:Ef; cbn; [set_solver|].
    intros Hin. assert (id ∈ filter (λ x, x ≠ id) (default [] (activeExecutionIds s))) as Hf.
    { by rewrite Ef. }
    by apply list_elem_of_filter in Hf as [? _].
  - by apply includes_false in E.
Qed.

Lemma finishActive_records s id : records (finishActiveExecution s id) = records s.
Proof. unfold finishActiveExecution. by case_test. Qed.

(** A record of an updated state is one of the updater, or is not the target. *)
Lemma updateRecord_target s id f r :
  id ≠ [] → r ∈ records (updateRecord s (Some id) f) →
  recId r ≠ id ∨ ∃ r0, r0 ∈ records s ∧ r = orSame r0 (f r0).
Proof.
  intros Hid. unfold updateRecord. destruct id as [|c id]; [done|]. case_test.
  - rewrite setRecords_records. intros Hr. apply (sublist_elem _ _ _ (dropFinished_sublist _ _)) in Hr.
    apply list_elem_of_fmap in Hr as (r0 & -> & Hr0). case_decide; [|by left]. right. eauto.
  - intros Hr. destruct (decide (recId r = c :: id)) as [Heq|]; [|by left]. right.
    exists r. split; [done|]. assert (f r = None) as ->; [|done].
    apply not_true_iff_false in Etest. destruct (f r) eqn:Ef; [|done].
    exfalso. apply Etest, existsb_exists. exists r. rewrite <-list_elem_of_In. split; [done|].
    rewrite decide_True by done. rewrite Ef. by apply bool_decide_eq_true_2.
Qed.

Lemma addError_status r e at_ : status (addError r e at_) = status r.
Proof.
  unfold addError. destruct (errorText e); [done|]. apply orSame_id. intros r'.
  unfold appendMessage. destruct (createMessageOutput _ _ _ _ _); cbn; [|done].
  by intros ->%appendOutputs_spec.
Qed.

Lemma finishTerminal_status r e at_ : status (finishTerminal r e at_) ≠ running.
Proof. destruct e; cbn; [by rewrite addError_status|done]. Qed.

Lemma terminal_not_running ev at_ r :
  isTerminalEvent (eventBody ev) = true → status (orSame r (updateForEvent ev at_ r)) ≠ running.
Proof.
  unfold updateForEvent. destruct (eventBody ev); try done; intros _.
  - destruct (isRunning r) eqn:E; cbn; [done|]. intros H. by apply isRunning_true in H; rewrite H in E.
  - exact (finishTerminal_status r (Some error) at_).
Qed.

(* ------------------------------------------------------------------ *)
(** ** Row counts *)

(** A [rows] event of result [n] with [k] rows. *)
Definition rows_event (id : jstr) (n : Z) (chunk : IManageResultData) : SqlExecutionEvent :=
  mkEvent id None None None (Some n) None (Rows (Some chunk)).

Definition chunkRows (chunk : IManageResultData) : nat := length (default [] (dataList chunk)).

Definition total_rows (chunks : list IManageResultData) : Z :=
  Z.of_nat (sum_list_with chunkRows chunks).

Lemma rows_fold id n at_ chunks r :
  let r' := fold_left (λ r c, orSame r (updateForEvent (rows_event id n c) at_ r)) chunks r in
  recId r' = recId r ∧ outputs r' = outputs r ∧
  default 0%Z (dget (znum n) (pendingRowCounts r'))
  = (default 0 (dget (znum n) (pendingRowCounts r)) + total_rows chunks)%Z.
Proof.
  revert r. induction chunks as [|c cs IH]; intros r.
  - cbn. split_and!; [done..|]. unfold total_rows; cbn. lia.
  - destruct (IH (orSame r (updateForEvent (rows_event id n c) at_ r))) as (H1 & H2 & H3).
    cbn [fold_left]. split_and!; [by rewrite H1|by rewrite H2|]. rewrite H3. cbn.
    unfold eventResultSequence; cbn. rewrite dget_dset_eq. cbn.
    unfold total_rows; cbn [sum_list_with]. unfold chunkRows at 2. lia.
Qed.

(* ------------------------------------------------------------------ *)
(** ** Properties *)

(** C1: the invariant of the log: whatever operations and events ran, the
    identifiers of the outputs of a record are distinct and at most two hundred,
    there are at most two hundred records unless all of them run, the active
    executions are distinct (and an empty list is never stored), the superseded
    ones are distinct and at most two hundred, and no superseded execution is
    active or owns a record. *)
Theorem log_invariant s : reachable s → log_ok s.
Proof. apply reachable_ok. Qed.

Definition sample_params : BeginWebSqlExecutionParams :=
  mkParams (js "run") None (js "select 1") (mkLogContext None None None None None) (Some 3%Z).

Example log_invariant_witness : log_ok (apply_op createSqlExecutionLogState (OpBegin 0 sample_params)).
Proof.
  apply (log_invariant (apply_op createSqlExecutionLogState (OpBegin 0 sample_params))).
  eapply rtc_l; [apply log_step_op|apply rtc_refl].
Defined.

(** The cap on the records drops finished records only, oldest first and
    no more than needed; a running record is never dropped. *)
Theorem setRecords_spec s rs :
  let kept := records (setRecords s rs) in
  let finished xs := filter (λ r, isRunning r = false) xs in
  kept `sublist_of` rs ∧ filter isRunning kept = filter isRunning rs ∧
  finished kept = drop (length rs - 200) (finished rs) ∧
  (length kept ≤ 200 ∨ Forall (λ r, status r = running) kept).
Proof.
  cbn. rewrite setRecords_records. split_and!.
  - apply dropFinished_sublist.
  - apply dropFinished_running.
  - apply dropFinished_finished.
  - pose proof (setRecords_bounded s rs) as H. by rewrite setRecords_records in H.
Qed.

(** C2: replacing the log by that of a new request cuts off the executions it
    replaces: as long as no more than two hundred are active or running, no
    later operation or event of theirs, in any number and order, changes the
    new log. *)
Theorem replaced_executions_ignored s n ops :
  reachable s → (default 0 (replacementRequestSequence s) < n)%Z →
  let old := activeIds s ++ runningExecutions (records s) in
  length old ≤ 200 →
  (∀ op, op ∈ ops → ∃ id, op_execution op = Some id ∧ id ∈ old) →
  let s' := prepareDesktopSqlExecutionLogForRequest s n false in
  records s' = [] ∧ activeIds s' = [] ∧ fold_left apply_op ops s' = s'.
Proof.
  intros Hs%reachable_ok Hn old Hold Hops s'.
  unfold s', prepareDesktopSqlExecutionLogForRequest.
  destruct (_ >=? n)%Z eqn:E; [apply Z.geb_le in E; lia|]. split_and!; [done..|].
  apply superseded_fold. intros op Hop. destruct (Hops op Hop) as (id & Hid & Hin).
  exists id. split; [done|]. unfold supersededIds; cbn -[take_last uniq].
  apply superseded_kept; [|done|done]. intros x Hx. apply elem_of_app in Hx as [Hx|Hx].
  - by apply (lo_active_live s Hs).
  - by apply (running_live s x Hs).
Qed.

Example replaced_executions_ignored_witness :
  let s := apply_op createSqlExecutionLogState (OpBegin 0 sample_params) in
  let s' := prepareDesktopSqlExecutionLogForRequest s 1 false in
  fold_left apply_op [OpFail 9 sample_params (ErrorText (js "late"))] s' = s'.
Proof.
  apply (replaced_executions_ignored
    (apply_op createSqlExecutionLogState (OpBegin 0 sample_params)) 1
    [OpFail 9 sample_params (ErrorText (js "late"))]).
  - eapply rtc_l; [apply log_step_op|apply rtc_refl].
  - reflexivity.
  - apply Nat.leb_le. reflexivity.
  - intros op ->%list_elem_of_singleton. exists (js "run"). split; [reflexivity|].
    vm_compute. left.
Defined.

(** A terminal event of an execution that was not superseded ends it: the
    execution is no longer active, and the record the event is about is no
    longer running. *)
Theorem terminal_event_ends now s ev ctx es :
  isSupersededExecution s (eventExecutionId ev) = false →
  isTerminalEvent (eventBody ev) = true →
  let s' := reduceDesktopSqlExecutionEvent now s ev ctx es in
  eventExecutionId ev ∉ activeIds s' ∧
  ∀ target r, eventTarget (records s) ev = Some target → recId target ≠ [] →
    r ∈ records s' → recId r = recId target → status r ≠ running.
Proof.
  intros Hs Ht s'. unfold s', reduceDesktopSqlExecutionEvent. rewrite Hs.
  set (t := trackActiveExecution s (eventExecutionId ev)). change (records s) with (records t).
  destruct (eventTarget (records t) ev) as [target|] eqn:Et.
  - set (at_ := default now (occurredAtEpochMs ev)).
    set (u := updateRecord t (Some (recId target)) (updateForEvent ev at_)).
    assert (∀ r, recId target ≠ [] → r ∈ records u → recId r = recId target → status r ≠ running)
      as Hu.
    { intros r Hne Hr Heq.
      apply (updateRecord_target t (recId target) _ r Hne) in Hr as [?|(r0 & _ & ->)]; [done|].
      by apply terminal_not_running. }
    destruct (eventBody ev); try done; cbn [isTerminalEvent];
      (split; [apply finishActive_not_in|]; intros target' r [= <-];
       rewrite finishActive_records; apply Hu).
  - destruct (eventBody ev); try done; split; try apply finishActive_not_in; by intros.
Qed.

Example terminal_event_ends_witness :
  js "run" ∉ activeIds (reduceDesktopSqlExecutionEvent 5
    (apply_op createSqlExecutionLogState (OpBegin 0 sample_params))
    (mkEvent (js "run") None None None None None Finished) (pContext sample_params) None).
Proof.
  apply (terminal_event_ends 5 (apply_op createSqlExecutionLogState (OpBegin 0 sample_params))
    (mkEvent (js "run") None None None None None Finished) (pContext sample_params) None);
    reflexivity.
Defined.

(** The row count shown for a streamed result is the number of rows that
    were streamed for it, whatever the chunking, unless the server reports a
    count of its own. *)
Theorem streamed_row_count id n at_ chunks r ev result :
  chunks ≠ [] → dget (znum n) (pendingRowCounts r) = None →
  resultSequence ev = Some n → executionMetrics result ≫= fetchedRowCount = None →
  let r' := fold_left (λ r c, orSame r (updateForEvent (rows_event id n c) at_ r)) chunks r in
  roRowCount (createResultOutput r' result at_ (Some ev) None) = Some (total_rows chunks).
Proof.
  intros Hne Hfresh Hseq Hm r'.
  destruct (rows_fold id n at_ chunks r) as (_ & _ & Hcount). fold r' in Hcount.
  unfold createResultOutput; cbn -[znum]. rewrite Hseq; cbn -[znum]. cbn in Hm. rewrite Hm. cbn -[znum].
  rewrite Hfresh in Hcount. cbn -[total_rows znum] in Hcount.
  assert (is_Some (dget (znum n) (pendingRowCounts r'))) as [k Hk].
  { unfold r'. destruct chunks as [|c cs] using rev_ind; [done|].
    rewrite fold_left_app. cbn -[znum]. unfold eventResultSequence; cbn -[znum].
    rewrite dget_dset_eq. eauto. }
  rewrite Hk in *. cbn in Hcount |- *. by rewrite Hcount.
Qed.

Example streamed_row_count_witness :
  roRowCount (createResultOutput
    (fold_left (λ r c, orSame r (updateForEvent (rows_event (js "run") 1 c) 0 r))
       [rowsOnly [[]; []]; rowsOnly [[]]] sample_record)
    (rowsOnly []) 0 (Some (mkEvent (js "run") None None None (Some 1%Z) None Started)) None)
  = Some 3%Z.
Proof.
  apply (streamed_row_count (js "run") 1 0 [rowsOnly [[]; []]; rowsOnly [[]]] sample_record
    (mkEvent (js "run") None None None (Some 1%Z) None Started) (rowsOnly [])); done.
Defined.
