(* ===== verification/SqlExecutionStream.v ===== *)
(** * SqlExecutionStream: results streamed by an execution

    Models the result list of
    [apps/community-client/src/service/sqlExecutionStream.ts]: which incoming
    result updates which result on screen, the accumulation of streamed rows
    outside the result list, the results the user closed while they were still
    streaming, and the order of the result tabs.

    Not modelled: the calls to the desktop bridge ([startSqlExecution],
    [cancelSqlExecution], [onSqlExecutionEvent]) and the promise around
    [cancelSqlExecutionWithReconciliation]. *)

From S2P Require Import Prelude JsNumber StableSort SqlExecutionTypes.
Local Open Scope Z_scope.

(* ------------------------------------------------------------------ *)
(** ** Closed results *)

Abbreviation ClosedSqlExecutionResults := (gmap jstr (gset jstr)).

Record SqlExecutionResultIdentity := mkIdentity {
  identityExecutionId : jstr;
  identityResultKey : jstr;
}.

Definition markClosed (closedResults : ClosedSqlExecutionResults)
    (identity : SqlExecutionResultIdentity) : ClosedSqlExecutionResults :=
  let resultKeys := default ∅ (closedResults !! identityExecutionId identity) in
  <[identityExecutionId identity := resultKeys ∪ {[identityResultKey identity]}]> closedResults.

Definition markSqlExecutionResultsClosed (closedResults : ClosedSqlExecutionResults)
    (identities : list SqlExecutionResultIdentity) : ClosedSqlExecutionResults :=
  fold_left markClosed identities closedResults.

Definition isSqlExecutionResultClosed (closedResults : ClosedSqlExecutionResults)
    (executionId resultKey : jstr) : bool :=
  match closedResults !! executionId with
  | Some resultKeys => bool_decide (resultKey ∈ resultKeys)
  | None => false
  end.

Definition clearClosedSqlExecutionResults (closedResults : ClosedSqlExecutionResults)
    (executionId : option jstr) : ClosedSqlExecutionResults :=
  match executionId with
  | Some (c :: id) => delete (c :: id) closedResults
  | _ => ∅
  end.

(* ------------------------------------------------------------------ *)
(** ** The identity of a result *)

(** [a !== undefined && b !== undefined && a === b], and with [a !== b]. *)
Definition bothEqual {A} `{EqDecision A} (a b : option A) : bool :=
  match a, b with Some x, Some y => bool_decide (x = y) | _, _ => false end.

Definition bothDiffer {A} `{EqDecision A} (a b : option A) : bool :=
  match a, b with Some x, Some y => negb (bool_decide (x = y)) | _, _ => false end.

Definition both {A} (a b : option A) : bool :=
  match a, b with Some _, Some _ => true | _, _ => false end.

Definition isSameResult (left right : IManageResultData) : bool :=
  let get key := (extraGet key left, extraGet key right) in
  let '(leftResultKey, rightResultKey) := get (js "resultKey") in
  let '(leftExecutionId, rightExecutionId) := get (js "executionId") in
  let '(leftHistoryKey, rightHistoryKey) := get (js "historyKey") in
  let '(leftStatementSequence, rightStatementSequence) := get (js "statementSequence") in
  let '(leftResultSequence, rightResultSequence) := get (js "resultSequence") in
  let '(leftStreamResultId, rightStreamResultId) := get (js "streamResultId") in
  if bothEqual leftResultKey rightResultKey then true
  else if both leftResultKey rightResultKey && bothEqual leftExecutionId rightExecutionId then false
  else if bothEqual leftHistoryKey rightHistoryKey then true
  else if both leftHistoryKey rightHistoryKey && bothDiffer leftExecutionId rightExecutionId then false
  else if bothEqual leftExecutionId rightExecutionId
          && bothEqual leftStatementSequence rightStatementSequence
          && both leftResultSequence rightResultSequence
  then bothEqual leftResultSequence rightResultSequence
  else if bothDiffer leftExecutionId rightExecutionId then false
  else if both leftStreamResultId rightStreamResultId
  then bothEqual leftStreamResultId rightStreamResultId
  else if both leftExecutionId rightExecutionId && both leftStatementSequence rightStatementSequence
  then bothEqual leftExecutionId rightExecutionId
       && bothEqual leftStatementSequence rightStatementSequence
  else if both (resultSetId left) (resultSetId right)
  then bothEqual (resultSetId left) (resultSetId right)
       && bool_decide (originalSql left = originalSql right)
  else bool_decide (originalSql left = originalSql right) && bool_decide (sql left = sql right).

Definition isSameExecutionResult (left right : IManageResultData) : bool :=
  let get key := (extraGet key left, extraGet key right) in
  let '(leftResultKey, rightResultKey) := get (js "resultKey") in
  let '(leftExecutionId, rightExecutionId) := get (js "executionId") in
  let '(leftStatementSequence, rightStatementSequence) := get (js "statementSequence") in
  let '(leftResultSequence, rightResultSequence) := get (js "resultSequence") in
  if bothEqual leftResultKey rightResultKey then true
  else if both leftResultKey rightResultKey && bothEqual leftExecutionId rightExecutionId then false
  else if bothEqual leftExecutionId rightExecutionId
          && bothEqual leftStatementSequence rightStatementSequence
          && both leftResultSequence rightResultSequence
  then bothEqual leftResultSequence rightResultSequence
  else bothEqual leftExecutionId rightExecutionId
       && bothEqual leftStatementSequence rightStatementSequence.

(* ------------------------------------------------------------------ *)
(** ** Results *)

Definition strOr (s : option jstr) (d : jstr) : option jstr := Some (or_else (default [] s) d).
Definition numOr (n : option Z) (d : Z) : option Z :=
  Some (match n with Some 0 | None => d | Some n => n end).

Definition ensureResultData (r : IManageResultData) : IManageResultData :=
  {| uuid := uuid r; displayName := displayName r;
     dataList := Some (default [] (dataList r));
     headerList := Some (default [] (headerList r));
     description := strOr (description r) [];
     message := message r;
     sql := strOr (sql r) (default [] (originalSql r));
     originalSql := strOr (originalSql r) (default [] (sql r));
     success := Some (default true (success r));
     updateCount := updateCount r; canEdit := canEdit r; tableName := tableName r;
     sqlType := strOr (sqlType r) (js "OTHER");
     refreshTargets := Some (default [] (refreshTargets r));
     comment := comment r; resultSetId := resultSetId r;
     resultStatementSequence := resultStatementSequence r;
     executionMetrics := executionMetrics r; executionContext := executionContext r;
     extra := extra r;
     pageNo := numOr (pageNo r) 1;
     pageSize := numOr (pageSize r) 0;
     fuzzyTotal := strOr (fuzzyTotal r) (js "0");
     hasNextPage := Some (default false (hasNextPage r)) |}.

Definition mergeExecutionMessages (messageGroups : list (option (list SqlExecutionMessage)))
    : option (list SqlExecutionMessage) :=
  match concat (default [] <$> messageGroups) with
  | [] => None
  | messages => Some messages
  end.

(** [{ ...r, uuid, displayName, dataList, extra: { ...(r.extra || {}), messages } }]. *)
Definition withMerged (r : IManageResultData) (u d : option jstr) (rows : option (list Row))
    (msgs : option (list SqlExecutionMessage)) : IManageResultData :=
  {| uuid := u; displayName := d; dataList := rows; headerList := headerList r;
     description := description r; message := message r; sql := sql r;
     originalSql := originalSql r; success := success r; updateCount := updateCount r;
     canEdit := canEdit r; tableName := tableName r; sqlType := sqlType r;
     refreshTargets := refreshTargets r; comment := comment r; resultSetId := resultSetId r;
     resultStatementSequence := resultStatementSequence r;
     executionMetrics := executionMetrics r; executionContext := executionContext r;
     extra := Some (mkExtra msgs (match extra r with Some e => extraFields e | None => [] end));
     pageNo := pageNo r; pageSize := pageSize r; fuzzyTotal := fuzzyTotal r;
     hasNextPage := hasNextPage r |}.

Definition withRows (r : IManageResultData) (rows : list Row) : IManageResultData :=
  {| uuid := uuid r; displayName := displayName r; dataList := Some rows;
     headerList := headerList r; description := description r; message := message r; sql := sql r;
     originalSql := originalSql r; success := success r; updateCount := updateCount r;
     canEdit := canEdit r; tableName := tableName r; sqlType := sqlType r;
     refreshTargets := refreshTargets r; comment := comment r; resultSetId := resultSetId r;
     resultStatementSequence := resultStatementSequence r;
     executionMetrics := executionMetrics r; executionContext := executionContext r;
     extra := extra r; pageNo := pageNo r; pageSize := pageSize r; fuzzyTotal := fuzzyTotal r;
     hasNextPage := hasNextPage r |}.

Inductive MergeMode := prepend | append.

(** [current.map(...)] with the flag [matched]. *)
Definition updateSame (current : list IManageResultData) (same : IManageResultData → bool)
    (update : IManageResultData → IManageResultData) : list IManageResultData * bool :=
  ((λ item, if same item then update item else item) <$> current, existsb same current).

Definition placeNew (mode : MergeMode) (current : list IManageResultData) (r : IManageResultData) :=
  match mode with append => current ++ [r] | prepend => r :: current end.

Definition mergeResultStartedWithMode (current : list IManageResultData)
    (result : IManageResultData) (mode : MergeMode) : list IManageResultData :=
  let normalizedResult := ensureResultData result in
  let '(next, matched) :=
    updateSame current (λ item, isSameResult item normalizedResult)
      (λ item, withMerged normalizedResult (uuid item) (displayName item)
                 (dataList normalizedResult)
                 (mergeExecutionMessages [extraMessages item; extraMessages normalizedResult])) in
  if matched : bool then next else placeNew mode current normalizedResult.

Definition mergeResultStarted current result := mergeResultStartedWithMode current result prepend.
Definition appendResultStarted current result := mergeResultStartedWithMode current result append.

Definition mergeRows (current : list IManageResultData) (chunk : IManageResultData)
    : list IManageResultData :=
  let normalizedChunk := ensureResultData chunk in
  let '(next, matched) :=
    updateSame current (λ item, isSameResult item chunk)
      (λ item, withRows item (default [] (dataList item) ++ default [] (dataList normalizedChunk))) in
  if matched : bool then next else next ++ [normalizedChunk].

(** [item.dataList?.length ? item.dataList : rows]. *)
Definition keepRows (item : IManageResultData) (rows : option (list Row)) : option (list Row) :=
  match dataList item with Some (r :: rs) => Some (r :: rs) | _ => rows end.

Definition mergeResultFinishedWithMode (current : list IManageResultData)
    (result : IManageResultData) (mode : MergeMode) : list IManageResultData :=
  let '(next, matched) :=
    updateSame current (λ item, isSameResult item result)
      (λ item, withMerged (ensureResultData result) (uuid item) (displayName item)
                 (keepRows item (dataList result))
                 (mergeExecutionMessages [extraMessages item; extraMessages result])) in
  if matched : bool then next else placeNew mode current (ensureResultData result).

Definition mergeResultFinished current result := mergeResultFinishedWithMode current result prepend.
Definition appendResultFinished current result := mergeResultFinishedWithMode current result append.

Inductive UpsertStage := stage_started | stage_finished.

(** The result that replaces a matched one. *)
Definition upsertMerged (stage : UpsertStage) (item normalizedResult : IManageResultData)
    : IManageResultData :=
  let mergeCurrentResult := isSameExecutionResult item normalizedResult in
  let msgs :=
    if mergeCurrentResult
    then mergeExecutionMessages [extraMessages item; extraMessages normalizedResult]
    else extraMessages normalizedResult in
  let name := if truthyStr (displayName normalizedResult) then displayName normalizedResult
              else displayName item in
  let rows :=
    match stage with
    | stage_finished => if mergeCurrentResult then keepRows item (dataList normalizedResult)
                        else dataList normalizedResult
    | stage_started => dataList normalizedResult
    end in
  withMerged normalizedResult (uuid item) name rows msgs.

(** [current.map] with [matched]: only the first match is replaced. *)
Fixpoint upsertFirst (current : list IManageResultData) (stage : UpsertStage)
    (normalizedResult : IManageResultData) : list IManageResultData * bool :=
  match current with
  | [] => ([], false)
  | item :: current =>
      if isSameResult item normalizedResult then
        (upsertMerged stage item normalizedResult :: current, true)
      else
        let '(next, matched) := upsertFirst current stage normalizedResult in
        (item :: next, matched)
  end.

Definition upsertResult (current : list IManageResultData) (result : IManageResultData)
    (stage : UpsertStage) : list IManageResultData :=
  let normalizedResult := ensureResultData result in
  let '(next, matched) := upsertFirst current stage normalizedResult in
  if matched : bool then next else current ++ [normalizedResult].

Definition upsertResultStarted current result := upsertResult current result stage_started.
Definition upsertResultFinished current result := upsertResult current result stage_finished.

Definition attachExecutionIdentity (result : IManageResultData) (executionId : jstr)
    (sequence : option Z) : IManageResultData :=
  let fields := match extra result with Some e => extraFields e | None => [] end in
  let fields := dset (js "executionId") (SStr executionId) fields in
  let fields :=
    match sequence with
    | Some n => dset (js "statementSequence") (SNum n) fields
    | None => filter (λ e, e.1 ≠ js "statementSequence") fields
    end in
  {| uuid := uuid result; displayName := displayName result; dataList := dataList result;
     headerList := headerList result; description := description result;
     message := message result; sql := sql result; originalSql := originalSql result;
     success := success result; updateCount := updateCount result; canEdit := canEdit result;
     tableName := tableName result; sqlType := sqlType result;
     refreshTargets := refreshTargets result; comment := comment result;
     resultSetId := resultSetId result;
     resultStatementSequence := resultStatementSequence result;
     executionMetrics := executionMetrics result; executionContext := executionContext result;
     extra := Some (mkExtra (extraMessages result) fields);
     pageNo := pageNo result; pageSize := pageSize result; fuzzyTotal := fuzzyTotal result;
     hasNextPage := hasNextPage result |}.

(* ------------------------------------------------------------------ *)
(** ** Pending rows *)

(** A [Map] in insertion order.  The rows are copied on insertion, so the
    in-place [push] only reaches the entry itself. *)
Abbreviation PendingSqlExecutionRows := (dict IManageResultData).

Definition appendRowsToPendingResult (pendingRows : PendingSqlExecutionRows) (resultKey : jstr)
    (chunk : IManageResultData) : PendingSqlExecutionRows * nat :=
  let rows := default [] (dataList chunk) in
  match dget resultKey pendingRows with
  | None => (dset resultKey (withRows chunk rows) pendingRows, length rows)
  | Some existing =>
      let all := default [] (dataList existing) ++ rows in
      (dset resultKey (withRows existing all) pendingRows, length all)
  end.

Definition discardPendingRowsForExecution (pendingRows : PendingSqlExecutionRows)
    (executionId : jstr) : PendingSqlExecutionRows :=
  filter (λ e, extraGet (js "executionId") e.2 ≠ Some (SStr executionId)) pendingRows.

(* ------------------------------------------------------------------ *)
(** ** The order of the results *)

(** [Number(value || 0)] and [Number(value ?? 0)] on the scalars of [extra];
    [None] is [NaN]. *)
Definition toNumber (value : scalar) : option Z :=
  match value with
  | SNull => Some 0
  | SBool b => Some (if b then 1 else 0)
  | SNum n => Some n
  | SStr s => js_Number s
  end.

Definition truthyScalar (value : option scalar) : bool :=
  match value with
  | None | Some SNull | Some (SBool false) | Some (SNum 0) | Some (SStr []) => false
  | _ => true
  end.

(** [values.find(truthy) || 0] as a number. *)
Definition firstTruthyNumber (values : list (option scalar)) : option Z :=
  match js_find truthyScalar values with
  | Some (Some v) => toNumber v
  | _ => Some 0
  end.

(** [a ?? b ?? 0]: [null] counts as missing. *)
Definition nullishNumber (a : option scalar) (b : option Z) : option Z :=
  match a with
  | None | Some SNull => Some (default 0 b)
  | Some v => toNumber v
  end.

Definition getResultSortIdentity (item : IManageResultData) : jstr :=
  let str v :=
    match v with
    | Some (SStr s) => s
    | Some (SNum n) => znum n
    | Some (SBool b) => if b : bool then js "true" else js "false"
    | _ => []
    end in
  let ofExtra key := let v := extraGet key item in if truthyScalar v then str v else [] in
  or_else (ofExtra (js "resultKey"))
    (or_else (ofExtra (js "historyKey"))
      (or_else (default [] (uuid item))
        (or_else (default [] (originalSql item)) (default [] (sql item))))).

Section sort.
(** [a.localeCompare(b)], which depends on the locale of the browser. *)
Context (localeCompare : jstr → jstr → Z).

(** [None] when a key is [NaN]: the comparator then returns [NaN]. *)
Definition compareNumbers (a b : option Z) (next : Z) : Z :=
  match a, b with
  | Some x, Some y => if decide (x = y) then next else x - y
  | _, _ => 0
  end.

Definition executionKey (r : IManageResultData) : option Z :=
  firstTruthyNumber [extraGet (js "executionSequence") r].
Definition statementKey (r : IManageResultData) : option Z :=
  nullishNumber (extraGet (js "statementSequence") r) (resultStatementSequence r).
Definition resultNumberKey (r : IManageResultData) : option Z :=
  firstTruthyNumber
    [extraGet (js "resultSequence") r; extraGet (js "streamResultId") r; SNum <$> resultSetId r].

Definition compareResults (left right : IManageResultData) : Z :=
  compareNumbers (executionKey left) (executionKey right)
    (compareNumbers (statementKey left) (statementKey right)
      (compareNumbers (resultNumberKey left) (resultNumberKey right)
        (localeCompare (getResultSortIdentity left) (getResultSortIdentity right)))).

Definition sortExecutionResults (current : list IManageResultData) : list IManageResultData :=
  stable_sort (λ left right, compareResults left right <=? 0) current.
End sort.

#[global] Arguments isSameResult : simpl never.
#[global] Arguments isSameExecutionResult : simpl never.
#[global] Arguments upsertMerged : simpl never.

(* ------------------------------------------------------------------ *)
(** ** Lemmas *)

Lemma bothEqual_true {A} `{EqDecision A} (a b : option A) :
  bothEqual a b = true ↔ ∃ x, a = Some x ∧ b = Some x.
Proof. destruct a, b; cbn; rewrite ?bool_decide_eq_true; naive_solver. Qed.

(** A result of another identity than result [k] of execution [e]: another
    result of the same execution, or a result of another execution that has no
    history key. *)
Definition foreign (e k : scalar) (item : IManageResultData) : Prop :=
  ∃ k' e', extraGet (js "resultKey") item = Some k' ∧ k' ≠ k ∧
    extraGet (js "executionId") item = Some e' ∧
    (e' = e ∨ extraGet (js "historyKey") item = None).

(** A result of identity [k] of execution [e]. *)
Definition identified (e k : scalar) (r : IManageResultData) : Prop :=
  extraGet (js "resultKey") r = Some k ∧ extraGet (js "executionId") r = Some e.

Lemma foreign_not_same e k item r :
  foreign e k item → identified e k r → isSameResult item r = false.
Proof.
  intros (k' & e' & Hk' & Hne & He' & Hh) [Hk He]. unfold isSameResult.
  rewrite Hk', Hk, He', He. cbn. rewrite bool_decide_eq_false_2 by done.
  destruct (bool_decide (e' = e)) eqn:E; [done|]. apply bool_decide_eq_false_1 in E.
  destruct Hh as [?|Hh]; [done|]. by rewrite Hh.
Qed.

Lemma identified_same e k x y : identified e k x → identified e k y → isSameResult x y = true.
Proof.
  intros [Hx _] [Hy _]. unfold isSameResult. rewrite Hx, Hy. cbn.
  by rewrite bool_decide_eq_true_2.
Qed.

Lemma identified_same_execution e k x y :
  identified e k x → identified e k y → isSameExecutionResult x y = true.
Proof.
  intros [Hx _] [Hy _]. unfold isSameExecutionResult. rewrite Hx, Hy. cbn.
  by rewrite bool_decide_eq_true_2.
Qed.

Lemma identified_ensure e k r : identified e k r → identified e k (ensureResultData r).
Proof. done. Qed.

Lemma identified_withRows e k r rows : identified e k r → identified e k (withRows r rows).
Proof. done. Qed.

Lemma identified_withMerged e k r u d rows msgs :
  identified e k r → identified e k (withMerged r u d rows msgs).
Proof.
  unfold identified, extraGet, withMerged; cbn. destruct (extra r); cbn; [done|]. by intros [? ?].
Qed.

Lemma upsertFirst_none current stage r :
  (∀ x, x ∈ current → isSameResult x r = false) → upsertFirst current stage r = (current, false).
Proof.
  induction current as [|x current IH]; intros H; cbn; [done|].
  rewrite H by set_solver. by rewrite IH by set_solver.
Qed.

Lemma upsertFirst_found pre item post stage r :
  (∀ x, x ∈ pre → isSameResult x r = false) → isSameResult item r = true →
  upsertFirst (pre ++ item :: post) stage r = (pre ++ upsertMerged stage item r :: post, true).
Proof.
  induction pre as [|x pre IH]; intros Hpre Hi; cbn; [by rewrite Hi|].
  rewrite Hpre by set_solver. by rewrite IH by set_solver.
Qed.

Lemma upsertFirst_cases current r :
  (∃ pre item post, current = pre ++ item :: post ∧
     (∀ x, x ∈ pre → isSameResult x r = false) ∧ isSameResult item r = true) ∨
  (∀ x, x ∈ current → isSameResult x r = false).
Proof.
  induction current as [|x current IH]; [right; set_solver|].
  destruct (isSameResult x r) eqn:E; [left; exists [], x, current; set_solver|].
  destruct IH as [(pre & item & post & -> & Hpre & Hi)|H]; [left|right; set_solver].
  exists (x :: pre), item, post. set_solver.
Qed.

Lemma upsertFirst_app a b stage r :
  upsertFirst (a ++ b) stage r =
  let '(a', m) := upsertFirst a stage r in
  if m : bool then (a' ++ b, true) else let '(b', m') := upsertFirst b stage r in (a' ++ b', m').
Proof.
  induction a as [|x a IH]; cbn; [by destruct (upsertFirst b stage r)|]. destruct (isSameResult x r); [done|]. rewrite IH.
  destruct (upsertFirst a stage r) as [a' [|]]; [done|]. by destruct (upsertFirst b stage r).
Qed.

(* ------------------------------------------------------------------ *)
(** ** Streams *)

(** The events of streamed results, and what their handlers do to the result list. *)
Inductive StreamEvent :=
  | ResultStarted (r : IManageResultData)
  | RowsArrived (chunk : IManageResultData)
  | ResultFinished (r : IManageResultData).

Definition eventResult (ev : StreamEvent) : IManageResultData :=
  match ev with ResultStarted r | RowsArrived r | ResultFinished r => r end.

Definition streamStep (current : list IManageResultData) (ev : StreamEvent) : list IManageResultData :=
  match ev with
  | ResultStarted r => upsertResultStarted current r
  | RowsArrived chunk => mergeRows current chunk
  | ResultFinished r => upsertResultFinished current r
  end.

Definition streamEvents (current : list IManageResultData) (events : list StreamEvent) : list IManageResultData :=
  fold_left streamStep events current.

#[export] Instance identified_dec e k r : Decision (identified e k r).
Proof. apply and_dec; apply _. Defined.

Lemma foreign_not_identified e k r : foreign e k r → ¬ identified e k r.
Proof. intros (k' & e' & Hk & Hne & _) [Hk' _]. congruence. Qed.

Lemma identified_not_same e k item r : identified e k item → foreign e k r → isSameResult item r = false.
Proof.
  intros [Hk He] (k' & e' & Hk' & Hne & He' & Hh). unfold isSameResult.
  rewrite Hk', Hk, He', He. cbn. rewrite bool_decide_eq_false_2 by done.
  destruct (bool_decide (e = e')) eqn:E; [done|]. apply bool_decide_eq_false_1 in E.
  destruct Hh as [->|Hh]; [done|]. rewrite Hh. by destruct (extraGet (js "historyKey") item).
Qed.

Lemma foreign_withMerged e k r u d rows msgs : foreign e k r → foreign e k (withMerged r u d rows msgs).
Proof.
  unfold foreign, extraGet, withMerged; cbn. intros (k' & e' & H). exists k', e'. destruct (extra r); cbn in *; [done|].
  destruct H as [? _]. done.
Qed.

(** [l'] is [l] without [item]. *)
Definition besides (item : IManageResultData) (l l' : list IManageResultData) : Prop :=
  ∃ pre post, l = pre ++ item :: post ∧ l' = pre ++ post.

Definition allForeign (e k : scalar) (l : list IManageResultData) : Prop := ∀ x, x ∈ l → foreign e k x.

Lemma upsertFirst_foreign e k l stage r :
  allForeign e k l → foreign e k r → allForeign e k (upsertFirst l stage r).1.
Proof.
  intros Hl Hr. induction l as [|x l IH]; [done|]. cbn. destruct (isSameResult x r).
  - intros y [->|Hy]%elem_of_cons; [by apply foreign_withMerged|apply Hl; set_solver].
  - destruct (upsertFirst l stage r) as [l' m]. cbn in *.
    intros y [->|Hy]%elem_of_cons; [apply Hl; set_solver|apply IH; [|done]; intros z Hz; apply Hl; set_solver].
Qed.

Lemma upsertResult_foreign e k l stage r : allForeign e k l → foreign e k r → allForeign e k (upsertResult l r stage).
Proof.
  intros Hl Hr. unfold upsertResult. pose proof (upsertFirst_foreign e k l stage (ensureResultData r) Hl Hr) as Hu.
  destruct (upsertFirst l stage (ensureResultData r)) as [l' [|]]; [done|].
  intros y [Hy| ->%list_elem_of_singleton]%elem_of_app; [by apply Hl|exact Hr].
Qed.

Lemma mergeRows_foreign e k l c : allForeign e k l → foreign e k c → allForeign e k (mergeRows l c).
Proof.
  intros Hl Hc. unfold mergeRows, updateSame. set (f := λ item : IManageResultData, if isSameResult item c then _ else item).
  assert (allForeign e k (f <$> l)) as Hm.
  { intros y (x & -> & Hx)%list_elem_of_fmap. subst f. cbn. destruct (isSameResult x c); apply (Hl x Hx). }
  destruct (existsb _ l); [exact Hm|]. intros y [Hy| ->%list_elem_of_singleton]%elem_of_app; [by apply Hm|exact Hc].
Qed.

Lemma streamStep_foreign e k l ev : allForeign e k l → foreign e k (eventResult ev) → allForeign e k (streamStep l ev).
Proof. destruct ev; [apply upsertResult_foreign|apply mergeRows_foreign|apply upsertResult_foreign]. Qed.

(** An event of another result does to the others what it does without the result. *)
Lemma upsertResult_besides item l l' stage r :
  isSameResult item (ensureResultData r) = false → besides item l l' → besides item (upsertResult l r stage) (upsertResult l' r stage).
Proof.
  intros Hi (pre & post & -> & ->). unfold upsertResult. rewrite !upsertFirst_app. cbn [upsertFirst]. rewrite Hi.
  destruct (upsertFirst pre stage (ensureResultData r)) as [pre' [|]]; [by exists pre', post|].
  destruct (upsertFirst post stage (ensureResultData r)) as [post' [|]]; [by exists pre', post'|].
  exists pre, (post ++ [ensureResultData r]). by rewrite <- !(assoc_L (++)).
Qed.

Lemma mergeRows_besides item l l' c : isSameResult item c = false → besides item l l' → besides item (mergeRows l c) (mergeRows l' c).
Proof.
  intros Hi (pre & post & -> & ->). unfold mergeRows, updateSame. rewrite !fmap_app, !existsb_app, fmap_cons. cbn [existsb]. rewrite Hi. cbn [orb].
  destruct (existsb _ pre || existsb _ post); [by eexists _, _|]. rewrite <- !(assoc_L (++)). by eexists _, _.
Qed.

Lemma streamStep_besides e k item l l' ev :
  identified e k item → foreign e k (eventResult ev) → besides item l l' → besides item (streamStep l ev) (streamStep l' ev).
Proof.
  intros Hi Hf. destruct ev as [r|c|r]; cbn in Hf.
  - apply upsertResult_besides. by apply (identified_not_same e k).
  - apply mergeRows_besides. by apply (identified_not_same e k).
  - apply upsertResult_besides. by apply (identified_not_same e k).
Qed.

(** The events of the result itself. *)
Lemma started_besides e k l r :
  allForeign e k l → identified e k r → besides (ensureResultData r) (streamStep l (ResultStarted r)) l.
Proof.
  intros Hl Hr. cbn. unfold upsertResultStarted, upsertResult. rewrite upsertFirst_none by (intros x Hx; by apply (foreign_not_same e k); [apply Hl|]).
  exists l, []. by rewrite app_nil_r.
Qed.

Lemma rows_besides e k item l l' c :
  allForeign e k l' → identified e k item → identified e k c → besides item l l' →
  besides (withRows item (default [] (dataList item) ++ default [] (dataList c))) (streamStep l (RowsArrived c)) l'.
Proof.
  intros Hl Hi Hc (pre & post & -> & ->). cbn. unfold mergeRows, updateSame. set (f := λ item : IManageResultData, if isSameResult item c then _ else item).
  assert (∀ x, x ∈ pre ++ post → f x = x) as Hsame.
  { intros x Hx. subst f. cbn. by rewrite (foreign_not_same e k) by (done || by apply Hl). }
  assert (∀ m : list IManageResultData, (∀ x, x ∈ m → f x = x) → f <$> m = m) as Hmap.
  { intros m Hm. induction m as [|x m IH]; [done|]. cbn. rewrite Hm by set_solver. f_equal. apply IH. set_solver. }
  rewrite existsb_app. cbn [existsb]. rewrite (identified_same e k item c) by done. cbn [orb]. rewrite orb_true_r.
  exists pre, post. split; [|done]. rewrite fmap_app, fmap_cons, !Hmap by (intros; apply Hsame; set_solver).
  subst f. cbn. by rewrite (identified_same e k item c).
Qed.

Lemma finished_besides e k item l l' r :
  allForeign e k l' → identified e k item → identified e k r → besides item l l' →
  besides (upsertMerged stage_finished item (ensureResultData r)) (streamStep l (ResultFinished r)) l'.
Proof.
  intros Hl Hi Hr (pre & post & -> & ->). cbn. unfold upsertResultFinished, upsertResult.
  rewrite upsertFirst_found; [by exists pre, post| |by apply (identified_same e k)].
  intros x Hx. apply (foreign_not_same e k); [apply Hl; set_solver|done].
Qed.

Section interleaving.
Context (e k : scalar).

(** Every event is of the result, or of another. *)
Definition sorted_out (events : list StreamEvent) : Prop :=
  ∀ ev, ev ∈ events → identified e k (eventResult ev) ∨ foreign e k (eventResult ev).

Definition own (events : list StreamEvent) : list StreamEvent := filter (λ ev, identified e k (eventResult ev)) events.
Definition others (events : list StreamEvent) : list StreamEvent := filter (λ ev, ¬ identified e k (eventResult ev)) events.

Lemma sorted_out_cons ev events : sorted_out (ev :: events) ↔ (identified e k (eventResult ev) ∨ foreign e k (eventResult ev)) ∧ sorted_out events.
Proof. unfold sorted_out. setoid_rewrite elem_of_cons. naive_solver. Qed.

Lemma own_cons ev events :
  identified e k (eventResult ev) → own (ev :: events) = ev :: own events ∧ others (ev :: events) = others events.
Proof. intros H. unfold own, others. by rewrite !filter_cons, decide_True, decide_False by auto. Qed.

Lemma other_cons ev events :
  foreign e k (eventResult ev) → own (ev :: events) = own events ∧ others (ev :: events) = ev :: others events.
Proof. intros H%foreign_not_identified. unfold own, others. by rewrite !filter_cons, decide_False, decide_True by auto. Qed.

(** After the end. *)
Lemma stream_ended events item l l' :
  sorted_out events → own events = [] → identified e k item → allForeign e k l' → besides item l l' →
  besides item (streamEvents l events) (streamEvents l' (others events)) ∧ allForeign e k (streamEvents l' (others events)).
Proof.
  revert l l'. induction events as [|ev events IH]; intros l l' Hs Ho Hi Hf Hb; [done|]. apply sorted_out_cons in Hs as [[Hev|Hev] Hs].
  - destruct (own_cons ev events Hev) as [He _]. by rewrite He in Ho.
  - destruct (other_cons ev events Hev) as [He Hr]. rewrite He in Ho. rewrite Hr. cbn.
    apply IH; [done..|by apply streamStep_foreign|by apply (streamStep_besides e k)].
Qed.

(** While rows arrive. *)
Lemma stream_rows events item l l' chunks final :
  sorted_out events → own events = (RowsArrived <$> chunks) ++ [ResultFinished final] → identified e k item → allForeign e k l' → besides item l l' →
  let rows := default [] (dataList item) ++ concat ((λ c, default [] (dataList c)) <$> chunks) in
  ∃ item', besides item' (streamEvents l events) (streamEvents l' (others events)) ∧ allForeign e k (streamEvents l' (others events)) ∧
    identified e k item' ∧ uuid item' = uuid item ∧
    dataList item' = (if decide (rows = []) then Some (default [] (dataList final)) else Some rows) ∧
    success item' = Some (default true (success final)).
Proof.
  revert item l l' chunks. induction events as [|ev events IH]; intros item l l' chunks Hs Ho Hi Hf Hb rows; [by destruct chunks|].
  apply sorted_out_cons in Hs as [[Hev|Hev] Hs].
  - destruct (own_cons ev events Hev) as [He Hr]. rewrite He in Ho. rewrite Hr. cbn [streamEvents fold_left].
    destruct chunks as [|c chunks]; cbn in Ho; injection Ho as -> Ho.
    + cbn in Hev. destruct (stream_ended events (upsertMerged stage_finished item (ensureResultData final)) (streamStep l (ResultFinished final)) l')
        as [Hb' Hf']; [done|done|by apply identified_withMerged|done|by apply (finished_besides e k)|].
      eexists. split_and!; [exact Hb'|exact Hf'|by apply identified_withMerged|done| |done].
      unfold upsertMerged. rewrite (identified_same_execution e k) by done. cbn. unfold keepRows. subst rows. cbn. rewrite app_nil_r.
      by destruct (dataList item) as [[|]|].
    + cbn in Hev. destruct (IH (withRows item (default [] (dataList item) ++ default [] (dataList c))) (streamStep l (RowsArrived c)) l' chunks)
        as (item' & H1 & H2 & H3 & H4 & H5 & H6); [done|done|done|done|by apply (rows_besides e k)|].
      exists item'. split_and!; [done..| |done]. rewrite H5. subst rows. cbn. by rewrite (assoc_L (++)).
  - destruct (other_cons ev events Hev) as [He Hr]. rewrite He in Ho. rewrite Hr. cbn [streamEvents fold_left].
    apply IH; [done..|by apply streamStep_foreign|by apply (streamStep_besides e k)].
Qed.
End interleaving.

(* ------------------------------------------------------------------ *)
(** ** Pending rows *)

Lemma appendRows_get key key' pending chunk :
  default [] (dget key' (appendRowsToPendingResult pending key chunk).1 ≫= dataList)
  = default [] (dget key' pending ≫= dataList)
    ++ (if decide (key = key') then default [] (dataList chunk) else []).
Proof.
  unfold appendRowsToPendingResult.
  destruct (dget key pending) as [ex|] eqn:E; cbn; rewrite dget_dset;
    destruct (decide (key = key')) as [->|]; rewrite ?E, ?app_nil_r; done.
Qed.

(** The rows of the chunks of a key, in order. *)
Definition rowsFor (key : jstr) (chunks : list (jstr * IManageResultData)) : list Row :=
  concat ((λ c, default [] (dataList c.2)) <$> filter (λ c, c.1 = key) chunks).

Definition appendAll (pending : PendingSqlExecutionRows)
    (chunks : list (jstr * IManageResultData)) : PendingSqlExecutionRows :=
  fold_left (λ p c, (appendRowsToPendingResult p c.1 c.2).1) chunks pending.

Lemma appendAll_get key pending chunks :
  default [] (dget key (appendAll pending chunks) ≫= dataList)
  = default [] (dget key pending ≫= dataList) ++ rowsFor key chunks.
Proof.
  revert pending. induction chunks as [|[k c] chunks IH]; intros pending.
  - unfold rowsFor; cbn. by rewrite app_nil_r.
  - change (appendAll pending ((k, c) :: chunks))
      with (appendAll (appendRowsToPendingResult pending k c).1 chunks).
    rewrite IH, appendRows_get. unfold rowsFor. rewrite filter_cons. cbn [fst].
    destruct (decide (k = key)); cbn; by rewrite <-(assoc_L (++)).
Qed.

(* ------------------------------------------------------------------ *)
(** ** Closed results *)

Lemma markClosed_closed closed i e k :
  isSqlExecutionResultClosed (markClosed closed i) e k = true ↔
  i = mkIdentity e k ∨ isSqlExecutionResultClosed closed e k = true.
Proof.
  destruct i as [e' k']. unfold isSqlExecutionResultClosed, markClosed; cbn.
  destruct (decide (e' = e)) as [->|Hne].
  - rewrite lookup_insert_eq. rewrite bool_decide_eq_true.
    destruct (closed !! e) as [ks|]; cbn; rewrite ?bool_decide_eq_true; set_solver.
  - rewrite lookup_insert_ne by done. naive_solver.
Qed.

(* ------------------------------------------------------------------ *)
(** ** The order *)

(** The keys the comparator reads are numbers. *)
Definition numericKeys (r : IManageResultData) : Prop :=
  is_Some (executionKey r) ∧ is_Some (statementKey r) ∧ is_Some (resultNumberKey r).

(** The order of the tabs: execution, statement, result. *)
Definition orderKey (r : IManageResultData) : Z * Z * Z :=
  (default 0 (executionKey r), default 0 (statementKey r), default 0 (resultNumberKey r)).

Definition keyLe (a b : Z * Z * Z) : Prop :=
  let '(x, y, z) := a in let '(x', y', z') := b in
  x < x' ∨ x = x' ∧ (y < y' ∨ y = y' ∧ z <= z').

Section order.
Context (localeCompare : jstr → jstr → Z).
Context `{!Preorder (λ a b, localeCompare a b <=? 0)}.

(** The comparator on numeric keys, as a boolean. *)
Definition resultLe (left right : IManageResultData) : bool :=
  let '(x, y, z) := orderKey left in let '(x', y', z') := orderKey right in
  if decide (x = x') then
    if decide (y = y') then
      if decide (z = z')
      then localeCompare (getResultSortIdentity left) (getResultSortIdentity right) <=? 0
      else z <=? z'
    else y <=? y'
  else x <=? x'.

Lemma compareResults_le left right :
  numericKeys left → numericKeys right →
  (compareResults localeCompare left right <=? 0) = resultLe left right.
Proof.
  intros ([x Hx] & [y Hy] & [z Hz]) ([x' Hx'] & [y' Hy'] & [z' Hz']).
  unfold compareResults, resultLe, orderKey. rewrite Hx, Hy, Hz, Hx', Hy', Hz'. cbn.
  repeat case_decide; try done; apply Bool.eq_true_iff_eq; rewrite !Z.leb_le; lia.
Qed.

Lemma resultLe_key left right : resultLe left right = true → keyLe (orderKey left) (orderKey right).
Proof.
  unfold resultLe, keyLe. destruct (orderKey left) as [[x y] z], (orderKey right) as [[x' y'] z'].
  repeat case_decide; rewrite ?Z.leb_le; lia.
Qed.

#[export] Instance resultLe_preorder : Preorder resultLe.
Proof.
  split.
  - intros l r. unfold resultLe.
    destruct (orderKey l) as [[x y] z], (orderKey r) as [[x' y'] z'].
    repeat case_decide; subst; try congruence; rewrite ?Z.leb_le; try lia.
    rewrite <-!Z.leb_le. apply (le_total (le := λ a b, localeCompare a b <=? 0)).
  - intros a b c. unfold resultLe.
    destruct (orderKey a) as [[x y] z], (orderKey b) as [[x' y'] z'], (orderKey c) as [[x'' y''] z''].
    repeat case_decide; subst; try congruence; rewrite ?Z.leb_le; try lia.
    rewrite <-!Z.leb_le. apply (le_trans (le := λ a b, localeCompare a b <=? 0)).
Qed.
End order.

(* ------------------------------------------------------------------ *)
(** ** Properties *)

(** C30: a result that starts, streams its rows in any number of chunks and
    finishes ends up once in the list, with all its rows in order and under its
    identifier on screen, whatever the finishing message carries and whatever events of
    other results come before, in between and after.  The other results are what they would be
    without it, in the same order: those of the same execution, and those of others that have no
    history key. *)
Theorem streamed_result e k current events first chunks final :
  allForeign e k current → sorted_out e k events →
  own e k events = ResultStarted first :: (RowsArrived <$> chunks) ++ [ResultFinished final] →
  let rows := default [] (dataList first) ++ concat ((λ c, default [] (dataList c)) <$> chunks) in
  ∃ pre item post, streamEvents current events = pre ++ item :: post ∧
    streamEvents current (others e k events) = pre ++ post ∧
    identified e k item ∧ (∀ x, x ∈ pre ++ post → ¬ identified e k x) ∧ uuid item = uuid first ∧
    dataList item = (if decide (rows = []) then Some (default [] (dataList final)) else Some rows) ∧
    success item = Some (default true (success final)).
Proof.
  intros Hc Hs Ho rows. revert current Hc Ho. induction events as [|ev events IH]; intros current Hc Ho; [done|].
  apply sorted_out_cons in Hs as [[Hev|Hev] Hs].
  - destruct (own_cons e k ev events Hev) as [He Hr]. rewrite He in Ho. injection Ho as -> Ho. cbn in Hev. rewrite Hr.
    destruct (stream_rows e k events (ensureResultData first) (streamStep current (ResultStarted first)) current chunks final)
      as (item & (pre & post & Hl & Hl') & Hf & Hi & Hu & Hd & Hsu); [done|done|done|done|by apply started_besides with e k|].
    exists pre, item, post. split_and!; [exact Hl|exact Hl'|done| |done..]. rewrite <- Hl'. intros x Hx. by apply foreign_not_identified, Hf.
  - destruct (other_cons e k ev events Hev) as [He Hr]. rewrite He in Ho. rewrite Hr. cbn. apply IH; [done| |done]. by apply streamStep_foreign.
Qed.

(** A result with an identity and rows, for examples. *)
Definition sample_result (k : string) (rows : list Row) : IManageResultData :=
  mkResult (Some (js k)) None (Some rows) None None None None None None None None None None None
    None None None None None
    (Some (mkExtra None [(js "resultKey", SStr (js k)); (js "executionId", SStr (js "run"))]))
    None None None None.

(** Rows of two results arrive in turns. *)
Definition sample_events : list StreamEvent :=
  [ResultStarted (sample_result "b" []); ResultStarted (sample_result "c" []); RowsArrived (sample_result "b" [[None]]);
   RowsArrived (sample_result "c" [[]; []]); RowsArrived (sample_result "b" [[]]); ResultFinished (sample_result "c" []);
   ResultFinished (sample_result "b" [])].

Lemma sample_foreign k : js k ≠ js "b" → foreign (SStr (js "run")) (SStr (js "b")) (sample_result k []).
Proof. intros H. exists (SStr (js k)), (SStr (js "run")). split_and!; [done|congruence|done|by left]. Qed.

Example streamed_result_witness :
  ∃ pre item post, streamEvents [sample_result "a" []] sample_events = pre ++ item :: post ∧
    streamEvents [sample_result "a" []] (others (SStr (js "run")) (SStr (js "b")) sample_events) = pre ++ post ∧
    dataList item = Some [[None]; []].
Proof.
  destruct (streamed_result (SStr (js "run")) (SStr (js "b")) [sample_result "a" []] sample_events (sample_result "b" [])
    [sample_result "b" [[None]]; sample_result "b" [[]]] (sample_result "b" [])) as (pre & item & post & Hl & Hl' & _ & _ & _ & Hd & _).
  - intros x ->%list_elem_of_singleton. by apply sample_foreign.
  - intros ev Hev. repeat (apply elem_of_cons in Hev as [->|Hev]; [first [left; by split|right; by apply sample_foreign]|]).
    by apply not_elem_of_nil in Hev.
  - vm_compute. reflexivity.
  - exists pre, item, post. split_and!; [exact Hl|exact Hl'|exact Hd].
Defined.

(** An incoming result replaces the first result on screen it is the same
    as, in its place and keeping its identifier, and is appended when there is
    none; every other result stays as it is. *)
Theorem upsert_spec current result stage :
  let r := ensureResultData result in
  (∃ pre item post, current = pre ++ item :: post ∧
     (∀ x, x ∈ pre → isSameResult x r = false) ∧ isSameResult item r = true ∧
     upsertResult current result stage = pre ++ upsertMerged stage item r :: post ∧
     uuid (upsertMerged stage item r) = uuid item) ∨
  ((∀ x, x ∈ current → isSameResult x r = false) ∧
   upsertResult current result stage = current ++ [r]).
Proof.
  intros r. unfold upsertResult. fold r.
  destruct (upsertFirst_cases current r) as [(pre & item & post & -> & Hpre & Hi)|H]; [left|right].
  - exists pre, item, post. rewrite upsertFirst_found by done. by split_and!.
  - by rewrite upsertFirst_none.
Qed.

(** The accumulated rows of a result are the rows of its chunks in the
    order they arrived, whatever other results stream in between, and
    discarding an execution removes the rows of its results and no others. *)
Theorem pending_rows_spec chunks executionId :
  let pending := appendAll [] chunks in
  (∀ key, default [] (dget key pending ≫= dataList) = rowsFor key chunks) ∧
  (∀ key r, (key, r) ∈ discardPendingRowsForExecution pending executionId ↔
     (key, r) ∈ pending ∧ extraGet (js "executionId") r ≠ Some (SStr executionId)).
Proof.
  intros pending. split.
  - intros key. unfold pending. by rewrite appendAll_get.
  - intros key r. unfold discardPendingRowsForExecution. rewrite list_elem_of_filter. naive_solver.
Qed.

(** A result counts as closed exactly when it was marked since the last
    time its execution (or everything) was cleared. *)
Theorem closed_results_spec closed identities e k cleared :
  let marked := markSqlExecutionResultsClosed closed identities in
  (isSqlExecutionResultClosed marked e k = true ↔
     mkIdentity e k ∈ identities ∨ isSqlExecutionResultClosed closed e k = true) ∧
  (isSqlExecutionResultClosed (clearClosedSqlExecutionResults marked cleared) e k = true ↔
     isSqlExecutionResultClosed marked e k = true ∧ truthyStr cleared = true ∧ cleared ≠ Some e).
Proof.
  intros marked. split.
  - unfold marked, markSqlExecutionResultsClosed. clear marked. revert closed.
    induction identities as [|i ids IH]; intros closed; cbn [fold_left]; [set_solver|].
    rewrite IH, markClosed_closed, elem_of_cons. naive_solver.
  - unfold clearClosedSqlExecutionResults, isSqlExecutionResultClosed.
    destruct cleared as [[|c id]|]; cbn; rewrite ?lookup_empty; try naive_solver.
    destruct (decide (c :: id = e)) as [<-|Hne].
    + rewrite lookup_delete_eq. naive_solver.
    + rewrite lookup_delete_ne by done. naive_solver.
Qed.

(** The result tabs are sorted by execution, statement and result number,
    tabs with equal numbers by their identity in the locale's order, and
    sorting loses no tab and is idempotent. *)
Theorem sort_results_spec (localeCompare : jstr → jstr → Z) current :
  Preorder (λ a b, localeCompare a b <=? 0) → Forall numericKeys current →
  let sorted := sortExecutionResults localeCompare current in
  sorted ≡ₚ current ∧
  StronglySorted (λ a b, keyLe (orderKey a) (orderKey b)) sorted ∧
  sortExecutionResults localeCompare sorted = sorted.
Proof.
  intros Hpre Hkeys. cbn. assert (∀ xs, Forall numericKeys xs →
    sortExecutionResults localeCompare xs = stable_sort (resultLe localeCompare) xs) as Heq.
  { intros xs Hxs. rewrite Forall_forall in Hxs. apply stable_sort_ext.
    intros x y Hx Hy. by apply compareResults_le; apply Hxs. }
  rewrite Heq by done. split_and!.
  - apply stable_sort_perm.
  - eapply StronglySorted_impl; [apply resultLe_key|].
    by apply stable_sort_sorted, resultLe_preorder.
  - rewrite Heq; [|by rewrite stable_sort_perm].
    apply stable_sort_id, stable_sort_sorted; by apply resultLe_preorder.
Qed.

(** A locale order for examples: by length. *)
Definition by_length (a b : jstr) : Z := Z.of_nat (length a) - Z.of_nat (length b).

Example sort_results_spec_witness :
  sortExecutionResults by_length (sortExecutionResults by_length
    [sample_result "bb" []; sample_result "a" []])
  = sortExecutionResults by_length [sample_result "bb" []; sample_result "a" []].
Proof.
  apply (sort_results_spec by_length [sample_result "bb" []; sample_result "a" []]).
  - split; intros *; rewrite !Z.leb_le; unfold by_length; lia.
  - repeat constructor; eexists; reflexivity.
Defined.
