(* ===== verification/LatestRequest.v ===== *)
(** * LatestRequest: which request is the latest

    Models [utils/latestRequest.ts], a counter of generations, and states as an
    interface what its clients rely on: a request that was begun is the latest
    until another is begun or the generation is invalidated, and never again
    after that. *)

From S2P Require Import Prelude.
Local Open Scope Z_scope.

Definition beginLatestRequest (generationRef : Z) : Z := generationRef + 1.
Definition invalidateLatestRequest (generationRef : Z) : Z := generationRef + 1.
Definition isLatestRequest (generationRef generation : Z) : bool :=
  bool_decide (generationRef = generation).

(** ** The interface *)

(** Generations [G] that hand out tickets [R]. *)
Class LatestRequests (G R : Type) := {
  noRequests : G;
  begin : G → G * R;
  invalidateLatest : G → G;
  isLatest : G → R → bool;
  stale : G → R → Prop;
}.
#[global] Hint Mode LatestRequests ! - : typeclass_instances.

Class LatestRequestsLaws (G R : Type) `{LatestRequests G R} : Prop := {
  begin_latest (g : G) : isLatest (begin g).1 (begin g).2 = true;
  begin_stale (g : G) (r : R) : isLatest g r = true ∨ stale g r → stale (begin g).1 r;
  invalidate_stale (g : G) (r : R) : isLatest g r = true ∨ stale g r → stale (invalidateLatest g) r;
  stale_not_latest (g : G) (r : R) : stale g r → isLatest g r = false;
}.

(** The counter: a generation is stale once the counter has passed it. *)
#[export] Instance counterRequests : LatestRequests Z Z := {
  noRequests := 0;
  begin g := let n := beginLatestRequest g in (n, n);
  invalidateLatest := invalidateLatestRequest;
  isLatest := isLatestRequest;
  stale g r := r < g;
}.

#[export] Instance counterRequests_laws : LatestRequestsLaws Z Z.
Proof.
  split; simpl; unfold beginLatestRequest, invalidateLatestRequest, isLatestRequest.
  - intros g. by apply bool_decide_eq_true_2.
  - intros g r [Hr|Hr]; to_prop; lia.
  - intros g r [Hr|Hr]; to_prop; lia.
  - intros g r Hr. apply bool_decide_eq_false_2. lia.
Qed.
