(* ===== verification/SqlExecutionRequests.v ===== *)
(** * SqlExecutionRequests: execution requests and result batches

    Models [apps/community-client/src/service/sqlExecutionRequestTracker.ts]
    with the generation counter of [LatestRequest] (which request of an editor is
    the running one), and [service/sqlExecutionBatch.ts] (which result
    batches stay on screen).  The mutable tracker is passed and returned. *)

From S2P Require Import Prelude JsNumber StableSort SqlExecutionTypes SqlExecutionStream LatestRequest.
Local Open Scope Z_scope.

(* ------------------------------------------------------------------ *)
(** ** The request tracker *)

Record SqlExecutionRequestTracker := mkTracker {
  generationRef : Z;
  activeRequestSequence : option Z;
  trackedExecutionId : option jstr;
  cancelRequested : bool;
}.

Definition createSqlExecutionRequestTracker : SqlExecutionRequestTracker :=
  mkTracker 0 None None false.

Definition canBeginSqlExecutionRequest (tracker : SqlExecutionRequestTracker) : bool :=
  match activeRequestSequence tracker with None => true | Some _ => false end.

Definition beginSqlExecutionRequest (tracker : SqlExecutionRequestTracker)
    : SqlExecutionRequestTracker * option Z :=
  if negb (canBeginSqlExecutionRequest tracker) then (tracker, None) else
  let requestSequence := beginLatestRequest (generationRef tracker) in
  (mkTracker requestSequence (Some requestSequence) None false, Some requestSequence).

(** The guard of [setSqlExecutionRequestId] and [finishSqlExecutionRequest]. *)
Definition isCurrentRequest (tracker : SqlExecutionRequestTracker) (requestSequence : Z) : bool :=
  isLatestRequest (generationRef tracker) requestSequence
  && bool_decide (activeRequestSequence tracker = Some requestSequence).

Definition setSqlExecutionRequestId (tracker : SqlExecutionRequestTracker) (requestSequence : Z)
    (executionId : jstr) : SqlExecutionRequestTracker * bool :=
  if negb (isCurrentRequest tracker requestSequence) then (tracker, false)
  else (mkTracker (generationRef tracker) (activeRequestSequence tracker) (Some executionId)
          (cancelRequested tracker), true).

Definition finishSqlExecutionRequest (tracker : SqlExecutionRequestTracker) (requestSequence : Z)
    : SqlExecutionRequestTracker * bool :=
  if negb (isCurrentRequest tracker requestSequence) then (tracker, false)
  else (mkTracker (generationRef tracker) None None false, true).

Definition getActiveSqlExecutionId (tracker : SqlExecutionRequestTracker) : option jstr :=
  trackedExecutionId tracker.

Definition requestSqlExecutionCancellation (tracker : SqlExecutionRequestTracker)
    : SqlExecutionRequestTracker * option jstr :=
  match activeRequestSequence tracker with
  | None => (tracker, None)
  | Some _ =>
      (mkTracker (generationRef tracker) (activeRequestSequence tracker) (trackedExecutionId tracker)
         true, trackedExecutionId tracker)
  end.

Definition isSqlExecutionCancellationRequested (tracker : SqlExecutionRequestTracker)
    (requestSequence : Z) : bool :=
  bool_decide (activeRequestSequence tracker = Some requestSequence) && cancelRequested tracker.

(* ------------------------------------------------------------------ *)
(** ** Result batches *)

Record SqlResultHistoryMode := mkHistoryMode {
  keepHistory : bool;
  showResultCoordinates : bool;
  resetResultSessionOnNextExecution : bool;
}.

Inductive SqlResultHistoryModeAction :=
  | setPreference (keepHistory : bool)
  | beginExecution (keepHistory : bool).

Definition createSqlResultHistoryMode (keep : bool) : SqlResultHistoryMode :=
  mkHistoryMode keep keep false.

Definition reduceSqlResultHistoryMode (state : SqlResultHistoryMode)
    (action : SqlResultHistoryModeAction) : SqlResultHistoryMode :=
  match action with
  | setPreference keep =>
      if Bool.eqb (keepHistory state) keep then state
      else mkHistoryMode keep (showResultCoordinates state) true
  | beginExecution keep => mkHistoryMode (keepHistory state) keep false
  end.

Definition getNextResultDisplayBatchSequence (currentSequence : Z) (resetHistorySession : bool) : Z :=
  if resetHistorySession then 1 else currentSequence + 1.

Definition shouldKeepExistingExecutionResults (keep resetResultSession : bool) : bool :=
  keep && negb resetResultSession.

(** An empty line is dropped by [filter(Boolean)]. *)
Definition getSqlResultPreview (sql : option jstr) : jstr :=
  let lines := filter (λ line, line ≠ []) (trim <$> split_char 10 (replaceCRLF (default [] sql))) in
  let executableLines := filter (λ line, startsWith (js "--") line = false) lines in
  trim (collapseSpaces false
    (join [32%N] (match executableLines with [] => lines | _ => executableLines end))).

(** [Number(value)]; [Number(undefined)] is [NaN]. *)
Definition positiveInteger (value : option scalar) : option Z :=
  match value ≫= toNumber with
  | Some number => if decide (0 < number) then Some number else None
  | None => None
  end.

Definition getResultExecutionSequence (result : IManageResultData) : option Z :=
  positiveInteger (extraGet (js "executionSequence") result).

Definition retainLatestResultBatches (resultDataList : list IManageResultData) (limit : Z)
    : list IManageResultData :=
  if decide (limit <= 0) then [] else
  let existingSequences := uniq (omap getResultExecutionSequence resultDataList) in
  if decide (Z.of_nat (length existingSequences) <= limit) then resultDataList else
  let retainedSequences :=
    take (Z.to_nat limit) (stable_sort (λ left right, right - left <=? 0) existingSequences) in
  filter
    (λ result, match getResultExecutionSequence result with
               | None => true
               | Some sequence => includes sequence retainedSequences
               end = true)
    resultDataList.

Definition shouldAcceptExecutionResult (executionSequence latestReplacementExecutionSequence : Z)
    : bool := latestReplacementExecutionSequence <=? executionSequence.

(* ------------------------------------------------------------------ *)
(** ** The tracker as a state machine *)

Inductive tracker_op :=
  | TBegin
  | TSetId (requestSequence : Z) (executionId : jstr)
  | TFinish (requestSequence : Z)
  | TCancel.

#[export] Instance tracker_op_eq_dec : EqDecision tracker_op.
Proof. solve_decision. Defined.

Definition tracker_run (t : SqlExecutionRequestTracker) (op : tracker_op) : SqlExecutionRequestTracker :=
  match op with
  | TBegin => (beginSqlExecutionRequest t).1
  | TSetId n id => (setSqlExecutionRequestId t n id).1
  | TFinish n => (finishSqlExecutionRequest t n).1
  | TCancel => (requestSqlExecutionCancellation t).1
  end.

(** The active request is the latest one; an idle tracker holds no execution
    and no cancellation. *)
Definition tracker_ok (t : SqlExecutionRequestTracker) : Prop :=
  match activeRequestSequence t with
  | Some n => n = generationRef t
  | None => trackedExecutionId t = None ∧ cancelRequested t = false
  end.

Lemma isCurrentRequest_true t n :
  tracker_ok t → isCurrentRequest t n = true ↔ activeRequestSequence t = Some n.
Proof.
  unfold tracker_ok, isCurrentRequest, isLatestRequest. intros H.
  rewrite andb_true_iff, !bool_decide_eq_true. split; [naive_solver|].
  intros Ha. rewrite Ha in H. by subst.
Qed.

Lemma tracker_run_ok t op : tracker_ok t → tracker_ok (tracker_run t op).
Proof.
  intros H. destruct op; cbn.
  - unfold beginSqlExecutionRequest. by destruct (canBeginSqlExecutionRequest t).
  - unfold setSqlExecutionRequestId. destruct (isCurrentRequest t _) eqn:E; [|done].
    apply isCurrentRequest_true in E; [|done]. unfold tracker_ok in *; cbn in *. by rewrite E in *.
  - unfold finishSqlExecutionRequest. by destruct (isCurrentRequest t _).
  - unfold requestSqlExecutionCancellation, tracker_ok in *.
    destruct (activeRequestSequence t) eqn:E; cbn; by rewrite ?E.
Qed.

Lemma tracker_runs_ok t ops : tracker_ok t → tracker_ok (fold_left tracker_run ops t).
Proof. revert t. induction ops; cbn; auto using tracker_run_ok. Qed.

(** One step that does not finish the active request leaves it active. *)
Lemma tracker_step_active t op n :
  tracker_ok t → activeRequestSequence t = Some n → op ≠ TFinish n →
  activeRequestSequence (tracker_run t op) = Some n ∧ generationRef (tracker_run t op) = generationRef t.
Proof.
  intros H Hn Hop. destruct op as [|m id|m|]; cbn.
  - unfold beginSqlExecutionRequest, canBeginSqlExecutionRequest. by rewrite Hn.
  - unfold setSqlExecutionRequestId. by destruct (isCurrentRequest t m).
  - unfold finishSqlExecutionRequest. destruct (isCurrentRequest t m) eqn:E; [|done].
    apply isCurrentRequest_true in E; [|done]. congruence.
  - unfold requestSqlExecutionCancellation. by rewrite Hn.
Qed.

Lemma tracker_generation_mono t op : generationRef t <= generationRef (tracker_run t op).
Proof.
  destruct op; cbn; unfold beginSqlExecutionRequest, setSqlExecutionRequestId,
    finishSqlExecutionRequest, requestSqlExecutionCancellation, beginLatestRequest;
    repeat case_match; cbn; lia.
Qed.

(** The [n] first of a strictly decreasing list are those with fewer than [n]
    greater elements. *)
Lemma take_decreasing (n : nat) (xs : list Z) (x : Z) :
  StronglySorted (λ a b, b < a) xs → x ∈ xs →
  x ∈ take n xs ↔ (length (filter (λ y, (x < y)%Z) xs) < n)%nat.
Proof.
  intros Hs. revert n. induction Hs as [|y xs Hxs IH Hy]; intros n Hx; [set_solver|].
  rewrite Forall_forall in Hy. destruct n as [|n]; cbn [take]; [split; [set_solver|lia]|].
  rewrite filter_cons, elem_of_cons. apply elem_of_cons in Hx as [->|Hx].
  - rewrite decide_False by lia. split; [intros _|by left].
    assert (filter (λ z, y < z) xs = []) as ->; [|cbn; lia].
    destruct (filter _ xs) as [|z zs] eqn:E; [done|].
    assert (z ∈ filter (λ z, y < z) xs) as Hz by (rewrite E; set_solver).
    apply list_elem_of_filter in Hz as [? Hz]. specialize (Hy z Hz). lia.
  - specialize (Hy x Hx). rewrite decide_True by done. cbn [length]. rewrite <-Nat.succ_lt_mono.
    rewrite <-IH by done. split; [intros [->|?]; [lia|done]|by right].
Qed.

#[export] Instance Z_ge_preorder : Preorder (λ left right, right - left <=? 0).
Proof. split; intros *; rewrite !Z.leb_le; lia. Qed.

Lemma sort_decreasing xs :
  NoDup xs → StronglySorted (λ a b, b < a) (stable_sort (λ left right, right - left <=? 0) xs).
Proof.
  intros Hnd. rewrite <-(stable_sort_perm (λ left right, right - left <=? 0) xs) in Hnd.
  pose proof (stable_sort_sorted (λ left right, right - left <=? 0) xs) as Hs. unfold le_sorted in Hs.
  revert Hnd Hs. generalize (stable_sort (λ left right, right - left <=? 0) xs) as ys. intros ys.
  induction ys as [|y ys IH]; [constructor|]. rewrite NoDup_cons. intros [Hy Hnd] [Hs Hle]%StronglySorted_inv.
  constructor; [auto|]. rewrite Forall_forall in *. intros z Hz. specialize (Hle z Hz). cbn in Hle.
  rewrite Z.leb_le in Hle. assert (z ≠ y) by (intros ->; done). lia.
Qed.

(* ------------------------------------------------------------------ *)
(** ** Properties *)

(** An editor runs one request at a time: from the moment a request begins
    until it is finished under its own sequence number, whatever the other
    operations do (stale identifiers and completions included), it stays the
    active one, no other can begin, and its completion is accepted exactly
    once.  Sequence numbers are never reused. *)
Theorem request_exclusive ops t n ops' :
  let t0 := fold_left tracker_run ops createSqlExecutionRequestTracker in
  beginSqlExecutionRequest t0 = (t, Some n) → TFinish n ∉ ops' →
  let t' := fold_left tracker_run ops' t in
  generationRef t0 < n ∧
  activeRequestSequence t' = Some n ∧ canBeginSqlExecutionRequest t' = false ∧
  (∀ m, (finishSqlExecutionRequest t' m).2 = bool_decide (m = n)) ∧
  (finishSqlExecutionRequest (finishSqlExecutionRequest t' n).1 n).2 = false.
Proof.
  intros t0 Hbegin Hops t'.
  assert (tracker_ok t0) as Hok by (by apply tracker_runs_ok).
  unfold beginSqlExecutionRequest, beginLatestRequest in Hbegin.
  destruct (canBeginSqlExecutionRequest t0); [|done]. cbn in Hbegin. simplify_eq.
  set (n := generationRef t0 + 1) in *. set (t := mkTracker n (Some n) None false) in *.
  assert (tracker_ok t' ∧ activeRequestSequence t' = Some n) as [Hok' Ha].
  { unfold t'. assert (tracker_ok t ∧ activeRequestSequence t = Some n) as H by done.
    clearbody t n. clear t'. revert t H. induction ops' as [|op ops' IH]; intros t [H1 H2]; [done|].
    apply IH; [set_solver|]. split; [by apply tracker_run_ok|].
    apply tracker_step_active; [done..|]. set_solver. }
  unfold canBeginSqlExecutionRequest. rewrite Ha. split_and!; [lia|done|done| |].
  - intros m. unfold finishSqlExecutionRequest. pose proof (isCurrentRequest_true t' m Hok') as H.
    rewrite Ha in H. destruct (isCurrentRequest t' m); cbn.
    + symmetry. apply bool_decide_eq_true_2. assert (Some n = Some m) by (by apply H). congruence.
    + symmetry. apply bool_decide_eq_false_2. intros ->. by destruct H as [_ H]; specialize (H eq_refl).
  - unfold finishSqlExecutionRequest at 2. rewrite (proj2 (isCurrentRequest_true t' n Hok') Ha). cbn.
    unfold finishSqlExecutionRequest, isCurrentRequest. cbn. by rewrite andb_false_r.
Qed.

Example request_exclusive_witness :
  canBeginSqlExecutionRequest
    (fold_left tracker_run [TFinish 7; TCancel; TBegin] (mkTracker 1 (Some 1) None false)) = false.
Proof.
  apply (request_exclusive [] (mkTracker 1 (Some 1) None false) 1 [TFinish 7; TCancel; TBegin]);
    [reflexivity|compute_done].
Defined.

(** Retention keeps the results of the latest [limit] executions and those
    without an execution number, in their order: a numbered result stays exactly
    when fewer than [limit] distinct greater numbers are on screen. *)
Theorem retain_batches_spec results limit :
  0 < limit →
  let numbers := uniq (omap getResultExecutionSequence results) in
  let kept := retainLatestResultBatches results limit in
  kept `sublist_of` results ∧
  ∀ r, r ∈ results →
    (r ∈ kept ↔ match getResultExecutionSequence r with
                | None => True
                | Some n => Z.of_nat (length (filter (λ m, n < m) numbers)) < limit
                end).
Proof.
  intros Hl numbers. cbn zeta. unfold retainLatestResultBatches. fold numbers.
  rewrite decide_False by lia.
  assert (∀ r n, r ∈ results → getResultExecutionSequence r = Some n → n ∈ numbers) as Hin.
  { intros r n Hr Hn. apply elem_of_uniq, list_elem_of_omap. eauto. }
  case_decide as Hlen.
  - split; [done|]. intros r Hr. split; [intros _|done].
    destruct (getResultExecutionSequence r) as [n|] eqn:E; [|done].
    eapply Z.lt_le_trans; [|exact Hlen]. apply Nat2Z.inj_lt.
    specialize (Hin r n Hr E). apply elem_of_Permutation in Hin as [rest Hrest].
    rewrite Hrest, filter_cons. rewrite decide_False by lia.
    cbn [length]. apply Nat.lt_succ_r, length_filter.
  - split; [apply sublist_filter|]. intros r Hr. rewrite list_elem_of_filter.
    destruct (getResultExecutionSequence r) as [n|] eqn:E; [|naive_solver].
    autorewrite with js. specialize (Hin r n Hr E).
    rewrite <-(stable_sort_perm (λ left right, right - left <=? 0) numbers) in Hin.
    rewrite take_decreasing by (done || apply sort_decreasing, NoDup_uniq).
    rewrite stable_sort_perm. split; [intros [? _]; lia|intros; split; [lia|done]].
Qed.

Example retain_batches_spec_witness :
  retainLatestResultBatches [rowsOnly []] 1 `sublist_of` [rowsOnly []].
Proof. apply (retain_batches_spec [rowsOnly []] 1). reflexivity. Defined.
