(* ===== verification/SseStream.v ===== *)
(** * SseStream: splitting a server-sent event stream

    Models the transform streams of
    [apps/community-client/src/components/SSERequest/sseStream.ts]:
    [splitStream] cuts the decoded text into event parts at blank lines, across
    chunk boundaries, and [splitPart] reads the fields of a part.  The state of
    [splitStream] is its buffer; a run over the chunks of a response, with the
    final flush, is [sseEvents].

    Not modelled: the byte decoding ([TextDecoderStream]) and the piping of the
    platform streams ([SSEStream]). *)

From S2P Require Import Prelude.
Local Open Scope nat_scope.

Definition NL : N := 10%N.
Definition CR : N := 13%N.

Definition DEFAULT_STREAM_SEPARATOR : jstr := [NL; NL].
Definition DEFAULT_PART_SEPARATOR : N := NL.
Definition DEFAULT_KV_SEPARATOR : N := ch ":".

Definition isValidString (str : jstr) : bool := negb (bool_decide (trim str = [])).

(** Adds a character to the first piece. *)
Definition consHead (c : N) (pieces : list jstr) : list jstr :=
  match pieces with
  | [] => [[c]]
  | p :: ps => (c :: p) :: ps
  end.

(** [text.split('\n\n')]: leftmost, without overlap. *)
Fixpoint splitBlank (text : jstr) : list jstr :=
  match text with
  | [] => [[]]
  | c :: text' =>
      match text' with
      | d :: text'' =>
          if bool_decide (c = NL ∧ d = NL) then [] :: splitBlank text''
          else consHead c (splitBlank text')
      | [] => [[c]]
      end
  end.

(** All pieces but the last, and the last ([parts.at(-1) ?? '']). *)
Definition initPieces (parts : list jstr) : list jstr := take (length parts - 1) parts.
Definition lastPiece (parts : list jstr) : jstr := default [] (last parts).

(** [transform] of [splitStream]: the enqueued parts and the new buffer. *)
Definition splitStreamTransform (buffer streamChunk : jstr) : list jstr * jstr :=
  let buffer := buffer ++ replaceCRLF streamChunk in
  let parts := splitBlank buffer in
  (filter (λ part, isValidString part = true) (initPieces parts), lastPiece parts).

(** [flush] of [splitStream]. *)
Definition splitStreamFlush (buffer : jstr) : list jstr :=
  if isValidString buffer then [buffer] else [].

Fixpoint splitStream (buffer : jstr) (chunks : list jstr) : list jstr :=
  match chunks with
  | [] => splitStreamFlush buffer
  | chunk :: chunks =>
      let '(parts, buffer') := splitStreamTransform buffer chunk in
      parts ++ splitStream buffer' chunks
  end.

(** One line of a part. *)
Definition addLine (acc : dict jstr) (line : jstr) : dict jstr :=
  match indexOf DEFAULT_KV_SEPARATOR line with
  | None => acc
  | Some separatorIndex =>
      let key := take separatorIndex line in
      if negb (isValidString key) then acc
      else dset key (drop (separatorIndex + 1) line) acc
  end.

(** [transform] of [splitPart]; [None] when nothing is enqueued. *)
Definition splitPart (partChunk : jstr) : option (dict jstr) :=
  match fold_left addLine (split_char DEFAULT_PART_SEPARATOR partChunk) [] with
  | [] => None
  | sseEvent => Some sseEvent
  end.

(** The events of a response received in these chunks. *)
Definition sseEvents (chunks : list jstr) : list (dict jstr) := omap splitPart (splitStream [] chunks).

(* ------------------------------------------------------------------ *)
(** ** Splitting at blank lines *)

Lemma splitBlank_cons2 c d t :
  splitBlank (c :: d :: t)
  = if bool_decide (c = NL ∧ d = NL) then [] :: splitBlank t else consHead c (splitBlank (d :: t)).
Proof. done. Qed.

Lemma splitBlank_not_nil t : splitBlank t ≠ [].
Proof.
  destruct t as [|c [|d t]]; [done..|]. rewrite splitBlank_cons2.
  case_bool_decide; [done|]. by destruct (splitBlank (d :: t)).
Qed.

(** Induction on a text, two characters at a time. *)
Lemma text_ind2 (P : jstr → Prop) :
  P [] → (∀ c, P [c]) → (∀ c d t, P t → P (d :: t) → P (c :: d :: t)) → ∀ t, P t.
Proof.
  intros H0 H1 H2 t. assert (P t ∧ ∀ c, P (c :: t)) as [? _]; [|done].
  induction t as [|d t [IH1 IH2]]; [done|]. split; [apply IH2|]. intros c. apply H2; auto.
Qed.

Lemma consHead_app c ps qs : ps ≠ [] → consHead c (ps ++ qs) = consHead c ps ++ qs.
Proof. by destruct ps. Qed.

Lemma initPieces_cons p ps : ps ≠ [] → initPieces (p :: ps) = p :: initPieces ps.
Proof. intros H. unfold initPieces. destruct ps; [done|]. cbn. by rewrite Nat.sub_0_r. Qed.

Lemma lastPiece_cons p ps : ps ≠ [] → lastPiece (p :: ps) = lastPiece ps.
Proof. by destruct ps. Qed.

Lemma init_last ps : ps ≠ [] → initPieces ps ++ [lastPiece ps] = ps.
Proof.
  intros H. destruct ps as [|p ps] using rev_ind; [done|].
  unfold initPieces, lastPiece. rewrite length_app, last_snoc. cbn.
  by rewrite Nat.add_sub, take_app_length.
Qed.

Lemma initPieces_consHead c ps :
  ps ≠ [] → initPieces (consHead c ps) ++ [lastPiece (consHead c ps)] = consHead c ps.
Proof. intros. apply init_last. by destruct ps. Qed.

(** A text in one piece is that piece's start. *)
Lemma splitBlank_single d t p : splitBlank (d :: t) = [p] → ∃ p', p = d :: p'.
Proof.
  destruct t as [|d' t]; [intros [= <-]; by exists []|].
  rewrite splitBlank_cons2. case_bool_decide.
  - intros [=]. by destruct (splitBlank_not_nil t).
  - destruct (splitBlank (d' :: t)); intros [=]; subst; eauto.
Qed.

(** The buffer that is kept is enough: splitting can go on from it. *)
Lemma splitBlank_app a b :
  splitBlank (a ++ b) = initPieces (splitBlank a) ++ splitBlank (lastPiece (splitBlank a) ++ b).
Proof.
  induction a as [|c|c d t IH1 IH2] using text_ind2; [done..|].
  cbn [app]. rewrite !splitBlank_cons2. case_bool_decide as E.
  - rewrite initPieces_cons, lastPiece_cons, IH1 by apply splitBlank_not_nil. done.
  - change (d :: t ++ b) with ((d :: t) ++ b). rewrite IH2.
    pose proof (splitBlank_not_nil (d :: t)) as Hne.
    destruct (splitBlank (d :: t)) as [|p ps] eqn:Es; [done|]. cbn [consHead].
    destruct ps as [|q qs].
    + apply splitBlank_single in Es as [p' ->].
      change (consHead c (splitBlank (d :: p' ++ b)) = splitBlank (c :: d :: p' ++ b)).
      by rewrite splitBlank_cons2, bool_decide_eq_false_2.
    + rewrite (initPieces_cons p), (initPieces_cons (c :: p)) by done.
      by rewrite (lastPiece_cons p), (lastPiece_cons (c :: p)).
Qed.

(* ------------------------------------------------------------------ *)
(** ** Runs over chunks *)

(** A run only depends on the text the chunks make up after normalization. *)
Lemma splitStream_text buffer chunks :
  splitBlank buffer = [buffer] →
  splitStream buffer chunks
  = filter (λ part, isValidString part = true)
      (splitBlank (buffer ++ concat (replaceCRLF <$> chunks))).
Proof.
  revert buffer. induction chunks as [|chunk chunks IH]; intros buffer Hb.
  - cbn. rewrite app_nil_r, Hb. unfold splitStreamFlush. rewrite filter_cons.
    destruct (isValidString buffer) eqn:E; cbn; [by rewrite decide_True|by rewrite decide_False].
  - cbn [splitStream splitStreamTransform fmap list_fmap concat].
    rewrite IH.
    + rewrite (assoc_L (++)), (splitBlank_app (buffer ++ replaceCRLF chunk)), filter_app. done.
    + set (parts := splitBlank (buffer ++ replaceCRLF chunk)).
      pose proof (splitBlank_app (buffer ++ replaceCRLF chunk) []) as H.
      rewrite !app_nil_r in H. fold parts in H.
      rewrite <-(init_last parts) in H at 1 by apply splitBlank_not_nil.
      by apply app_inv_head in H.
Qed.

Lemma sseEvents_text chunks :
  sseEvents chunks
  = omap splitPart (filter (λ part, isValidString part = true)
      (splitBlank (concat (replaceCRLF <$> chunks)))).
Proof. unfold sseEvents. by rewrite splitStream_text. Qed.

(** No chunk ends between the two characters of a line break. *)
Fixpoint wholeBreaks (chunks : list jstr) : Prop :=
  match chunks with
  | [] => True
  | chunk :: chunks => (last chunk = Some CR → head (concat chunks) ≠ Some NL) ∧ wholeBreaks chunks
  end.

Lemma replaceCRLF_app a b :
  (last a = Some CR → head b ≠ Some NL) → replaceCRLF (a ++ b) = replaceCRLF a ++ replaceCRLF b.
Proof.
  induction a as [|c|c d t IH1 IH2] using text_ind2; intros H; [done| |].
  - cbn [app]. destruct b as [|x b]; [done|]. cbn [replaceCRLF].
    destruct ((c =? 13)%N && (x =? 10)%N) eqn:E; [|done]. exfalso.
    apply andb_true_iff in E as [->%N.eqb_eq ->%N.eqb_eq]. by apply H.
  - cbn [app replaceCRLF] in *. rewrite IH2 by done. by destruct (_ && _).
Qed.

Lemma replaceCRLF_concat chunks :
  wholeBreaks chunks → concat (replaceCRLF <$> chunks) = replaceCRLF (concat chunks).
Proof.
  induction chunks as [|chunk chunks IH]; [done|]. intros [H1 H2]. cbn.
  rewrite replaceCRLF_app by done. by rewrite <-IH.
Qed.

Lemma replaceCRLF_id t : CR ∉ t → replaceCRLF t = t.
Proof.
  induction t as [|c t IH]; intros H; [done|]. cbn [replaceCRLF]. rewrite IH by set_solver.
  destruct t as [|d t]; [done|]. destruct (c =? 13)%N eqn:E; [|done].
  apply N.eqb_eq in E. subst. destruct H. left.
Qed.

(* ------------------------------------------------------------------ *)
(** ** Printed events *)

Definition printField (field : jstr * jstr) : jstr := field.1 ++ ch ":" :: field.2.
Definition printEvent (event : dict jstr) : jstr := join [NL] (printField <$> event).
(** The text of a response that sends these events. *)
Definition printEvents (events : list (dict jstr)) : jstr :=
  concat ((λ e, printEvent e ++ [NL; NL]) <$> events).

(** Fields as a server writes them: a name that is not blank and holds no
    colon, and neither a line feed nor a carriage return. *)
Definition field_ok (field : jstr * jstr) : Prop :=
  isValidString field.1 = true ∧ ch ":" ∉ field.1 ∧
  NL ∉ field.1 ∧ NL ∉ field.2 ∧ CR ∉ field.1 ∧ CR ∉ field.2.

Definition event_ok (event : dict jstr) : Prop :=
  event ≠ [] ∧ NoDup (dkeys event) ∧ Forall field_ok event.

Lemma addLine_field acc field :
  field_ok field → addLine acc (printField field) = dset field.1 field.2 acc.
Proof.
  intros (Hv & Hc & _). unfold addLine, printField, DEFAULT_KV_SEPARATOR.
  rewrite indexOf_app by done. rewrite take_app_length, Hv. cbn [negb].
  rewrite drop_app_ge by lia. by replace (length field.1 + 1 - length field.1) with 1 by lia.
Qed.

Lemma addLines_fields acc event :
  Forall field_ok event → NoDup (dkeys acc ++ dkeys event) →
  fold_left addLine (printField <$> event) acc = acc ++ event.
Proof.
  intros H. revert acc. induction H as [|[k v] event Hf _ IH]; intros acc Hnd.
  { cbn. by rewrite app_nil_r. }
  cbn [fmap list_fmap fold_left]. rewrite addLine_field by done. cbn [fst snd].
  rewrite dset_fresh.
  - rewrite IH; [by rewrite <-(assoc_L (++))|].
    unfold dkeys in *. rewrite fmap_app, <-(assoc_L (++)). exact Hnd.
  - apply NoDup_app in Hnd as (_ & Hd & _). intros Hin. apply (Hd k Hin). cbn. left.
Qed.

(** Reading back a printed event. *)
Lemma splitPart_print event : event_ok event → splitPart (printEvent event) = Some event.
Proof.
  intros (Hne & Hnd & Hf). unfold splitPart, printEvent, DEFAULT_PART_SEPARATOR.
  rewrite split_char_join.
  - rewrite addLines_fields by done. cbn. by destruct event.
  - by destruct event.
  - apply Forall_fmap. eapply Forall_impl; [exact Hf|]. intros [k v] (_ & _ & H1 & H2 & _).
    unfold printField; cbn in *. rewrite elem_of_app, elem_of_cons. intros [?|[?|?]]; done.
Qed.

(** A printed event is one part: no blank line inside it, none at its ends. *)
Definition onePart (p : jstr) : Prop := ∀ rest, splitBlank (p ++ NL :: NL :: rest) = p :: splitBlank rest.

Lemma onePart_line l : NL ∉ l → l ≠ [] → onePart l.
Proof.
  intros Hl Hne rest. induction l as [|c l IH]; [done|]. cbn [app].
  destruct l as [|d l].
  - cbn [app]. rewrite splitBlank_cons2, bool_decide_eq_false_2 by set_solver.
    rewrite splitBlank_cons2, bool_decide_eq_true_2 by done. done.
  - cbn [app] in *. rewrite splitBlank_cons2, bool_decide_eq_false_2 by set_solver.
    by rewrite IH by set_solver.
Qed.

Lemma onePart_cons_line l p :
  NL ∉ l → l ≠ [] → onePart p → head p ≠ Some NL → p ≠ [] → onePart (l ++ NL :: p).
Proof.
  intros Hl Hne Hp Hhd Hpne rest. induction l as [|c l IH]; [done|].
  destruct p as [|x p]; [done|]. destruct l as [|d l].
  - cbn [app]. rewrite splitBlank_cons2, bool_decide_eq_false_2 by set_solver.
    rewrite splitBlank_cons2, bool_decide_eq_false_2 by naive_solver.
    change (x :: p ++ NL :: NL :: rest) with ((x :: p) ++ NL :: NL :: rest). by rewrite Hp.
  - cbn [app] in *. rewrite splitBlank_cons2, bool_decide_eq_false_2 by set_solver.
    by rewrite IH by set_solver.
Qed.

Lemma printField_ok field :
  field_ok field → NL ∉ printField field ∧ CR ∉ printField field ∧ printField field ≠ [] ∧
  head (printField field) ≠ Some NL.
Proof.
  destruct field as [k v]. intros (Hv & _ & H1 & H2 & H3 & H4). unfold printField; cbn in *.
  assert (ch ":" ≠ NL ∧ ch ":" ≠ CR) as [??] by done.
  split_and!; [set_solver|set_solver|by destruct k|].
  destruct k as [|c k]; cbn; [done|]. intros [= ->]. set_solver.
Qed.

Lemma printEvent_part event :
  event_ok event → onePart (printEvent event) ∧ head (printEvent event) ≠ Some NL ∧
    printEvent event ≠ [] ∧ CR ∉ printEvent event.
Proof.
  intros (Hne & _ & Hf). unfold printEvent. clear -Hne Hf.
  induction Hf as [|field event Hfield Hf IH]; [done|].
  destruct (printField_ok field Hfield) as (H1 & H2 & H3 & H4).
  destruct event as [|field' event].
  - cbn. split_and!; [by apply onePart_line|done..].
  - destruct IH as (P1 & P2 & P3 & P4); [done|].
    change (join [NL] (printField <$> field :: field' :: event))
      with (printField field ++ NL :: join [NL] (printField <$> field' :: event)).
    assert (NL ≠ CR) by done.
    split_and!; [by apply onePart_cons_line|by destruct (printField field)|by destruct (printField field)|].
    set_solver.
Qed.

Lemma trimStart_nil t : trimStart t = [] ↔ Forall (λ c, is_space c = true) t.
Proof.
  induction t as [|c t IH]; cbn; [by split|]. destruct (is_space c) eqn:E.
  - rewrite IH. split; [by constructor|by inversion 1].
  - split; [done|]. inversion 1; congruence.
Qed.

Lemma trim_nil t : trim t = [] ↔ Forall (λ c, is_space c = true) t.
Proof.
  unfold trim, trimEnd. split.
  - intros H. apply (f_equal reverse) in H. rewrite reverse_involutive in H.
    change (reverse []) with (@nil N) in H. rewrite trimStart_nil, Forall_reverse in H.
    induction t as [|c t IH]; [done|]. cbn in H. revert H.
    destruct (is_space c) eqn:E; intros H; [constructor; auto|].
    apply Forall_cons in H as [H _]. by rewrite E in H.
  - intros H. by rewrite (proj2 (trimStart_nil t) H).
Qed.

Lemma isValid_mono s t : (∀ c, c ∈ s → c ∈ t) → isValidString s = true → isValidString t = true.
Proof.
  unfold isValidString. rewrite !negb_true_iff, !bool_decide_eq_false, !trim_nil, !Forall_forall.
  naive_solver.
Qed.

Lemma printEvent_valid event : event_ok event → isValidString (printEvent event) = true.
Proof.
  intros (Hne & _ & Hf). destruct Hf as [|[k v] event [Hv _] Hf]; [done|].
  eapply isValid_mono, Hv. intros c Hc. unfold printEvent. cbn [fmap list_fmap].
  assert (c ∈ printField (k, v)) by (unfold printField; cbn; set_solver).
  destruct event; cbn -[printField]; set_solver.
Qed.

Lemma printEvents_split events :
  Forall event_ok events →
  splitBlank (printEvents events) = (printEvent <$> events) ++ [[]] ∧ CR ∉ printEvents events.
Proof.
  unfold printEvents. induction 1 as [|e events He _ [IH1 IH2]]; [by split; [|set_solver]|].
  destruct (printEvent_part e He) as (Hp & _ & _ & Hcr). cbn. rewrite <-(assoc_L (++)).
  cbn [app]. rewrite Hp, IH1. assert (CR ≠ NL) by done. split; [done|set_solver].
Qed.

Lemma wholeBreaks_noCR chunks : CR ∉ concat chunks → wholeBreaks chunks.
Proof.
  induction chunks as [|chunk chunks IH]; cbn; [done|]. intros H. split.
  - intros [pre ->]%last_Some. set_solver.
  - apply IH. set_solver.
Qed.

(* ------------------------------------------------------------------ *)
(** ** Properties *)

(** C25: how the response is cut into chunks does not matter: the events are
    those of the whole text, as long as no chunk ends between a carriage return
    and its line feed. *)
Theorem sse_chunking_irrelevant chunks :
  wholeBreaks chunks → sseEvents chunks = sseEvents [concat chunks].
Proof.
  intros H. rewrite !sseEvents_text, replaceCRLF_concat by done.
  by change (concat (replaceCRLF <$> [concat chunks])) with (replaceCRLF (concat chunks) ++ []);
    rewrite app_nil_r.
Qed.

Example sse_chunking_irrelevant_witness :
  sseEvents [js "data:a" ++ [CR; NL]; [CR; NL] ++ js "data:b"]
  = sseEvents [js "data:a" ++ [CR; NL; CR; NL] ++ js "data:b"].
Proof.
  apply (sse_chunking_irrelevant [js "data:a" ++ [CR; NL]; [CR; NL] ++ js "data:b"]).
  by vm_compute.
Defined.

(** A chunk boundary inside a line break changes the events, because the
    carriage return is normalized away only together with its line feed in the
    same chunk: a boundary in the first line break leaves the carriage return in
    the value of the field, one in the blank line merges the two events, and the
    first event is lost. *)
Theorem sse_split_break :
  let text := js "data:a" ++ [CR; NL; CR; NL] ++ js "data:b" in
  let chunks1 := [js "data:a" ++ [CR]; [NL; CR; NL] ++ js "data:b"] in
  let chunks2 := [js "data:a" ++ [CR; NL; CR]; [NL] ++ js "data:b"] in
  concat chunks1 = text ∧ concat chunks2 = text ∧
  sseEvents [text] = [[(js "data", js "a")]; [(js "data", js "b")]] ∧
  sseEvents chunks1 = [[(js "data", js "a" ++ [CR])]; [(js "data", js "b")]] ∧
  sseEvents chunks2 = [[(js "data", js "b")]].
Proof. by vm_compute. Qed.

(** A server's events are received as they were sent, however the response
    is cut into chunks: parsing inverts printing. *)
Theorem sse_roundtrip events chunks :
  Forall event_ok events → concat chunks = printEvents events → sseEvents chunks = events.
Proof.
  intros Hok Htext. destruct (printEvents_split events Hok) as [Hs Hcr].
  rewrite sseEvents_text, replaceCRLF_concat by (apply wholeBreaks_noCR; by rewrite Htext).
  rewrite Htext, replaceCRLF_id, Hs by done. clear Htext Hs Hcr chunks.
  induction Hok as [|e events He _ IH]; [done|]. cbn [fmap list_fmap app].
  rewrite filter_cons_True by by apply printEvent_valid. cbn [omap list_omap].
  by rewrite splitPart_print, IH.
Qed.

Example sse_roundtrip_witness :
  sseEvents [js "data:he"; js "llo" ++ [NL]; [NL]] = [[(js "data", js "hello")]].
Proof.
  apply (sse_roundtrip [[(js "data", js "hello")]] [js "data:he"; js "llo" ++ [NL]; [NL]]).
  - constructor; [|constructor]. split; [done|]. split; [compute_done|].
    constructor; [|constructor]. split_and!; [reflexivity|compute_done..].
  - reflexivity.
Defined.
