(* ===== verification/SseRequest.v ===== *)
(** * SseRequest: the life of a streaming request

    Models, from [apps/community-client/src/components/SSERequest/]:
    - [requestOwner.ts]: the one active request of a hook instance, as the
      record [SSERequestOwner] whose operations also give the handles they stop;
    - [clientRequestHandle.ts] and [createSSEStreamError] of
      [requestHandle.ts]: the desktop request, driven by the events of the bus,
      as a state machine over its [settled] flag, its bus registration and its
      promise.

    The callbacks of the caller are arbitrary: [behave] says, for each call and
    what was called before it, whether it calls [stop] on the handle and whether
    it throws.  [JSON.parse] is the argument [JSON_parse]. *)

From S2P Require Import Prelude SqlExecutionTypes SseStream.
Local Open Scope Z_scope.

(* ------------------------------------------------------------------ *)
(** ** The owner of the active request *)

Section owner.
(** A handle is its identity ([===]). *)
Context {Handle : Type} `{EqDecision Handle}.

Record SSERequestOwner := mkOwner {
  generation : Z;
  activeRequest : option (Z * Handle);
}.

Definition newOwner : SSERequestOwner := mkOwner 0 None.

(** The handle an operation stops, if any. *)
Definition ownerBegin (o : SSERequestOwner) : SSERequestOwner * Z * option Handle :=
  let generation := generation o + 1 in
  (mkOwner generation None, generation, snd <$> activeRequest o).

Definition isCurrentGeneration (o : SSERequestOwner) (g : Z) : bool := bool_decide (generation o = g).

Definition ownerAttach (o : SSERequestOwner) (g : Z) (handle : Handle)
    : SSERequestOwner * bool * option Handle :=
  if negb (isCurrentGeneration o g) then (o, false, Some handle)
  else (mkOwner (generation o) (Some (g, handle)), true, None).

Definition isActive (o : SSERequestOwner) (g : Z) (handle : Handle) : bool :=
  isCurrentGeneration o g && bool_decide (activeRequest o = Some (g, handle)).

Definition owns (o : SSERequestOwner) (g : Z) (handle : option Handle) : bool :=
  match handle with Some h => isActive o g h | None => isCurrentGeneration o g end.

Definition ownerRelease (o : SSERequestOwner) (g : Z) (handle : Handle) : SSERequestOwner :=
  if isActive o g handle then mkOwner (generation o) None else o.

Definition ownerStop (o : SSERequestOwner) : SSERequestOwner * bool * option Handle :=
  (mkOwner (generation o + 1) None,
   match activeRequest o with Some _ => true | None => false end, snd <$> activeRequest o).

Inductive owner_op :=
  | OBegin
  | OAttach (g : Z) (handle : Handle)
  | ORelease (g : Z) (handle : Handle)
  | OStop.

(** A run, with the handles attached, stopped and released so far. *)
Record owner_trace := mkTrace {
  owner : SSERequestOwner;
  attached : list (Z * Handle);
  stopped : list Handle;
  released : list (Z * Handle);
}.

Definition owner_run (t : owner_trace) (op : owner_op) : owner_trace :=
  let also (h : option Handle) := match h with Some h => h :: stopped t | None => stopped t end in
  match op with
  | OBegin =>
      let '(o, _, h) := ownerBegin (owner t) in mkTrace o (attached t) (also h) (released t)
  | OAttach g handle =>
      let '(o, _, h) := ownerAttach (owner t) g handle in
      mkTrace o ((g, handle) :: attached t) (also h) (released t)
  | ORelease g handle =>
      mkTrace (ownerRelease (owner t) g handle) (attached t) (stopped t)
        (if isActive (owner t) g handle then (g, handle) :: released t else released t)
  | OStop =>
      let '(o, _, h) := ownerStop (owner t) in mkTrace o (attached t) (also h) (released t)
  end.

Definition newTrace : owner_trace := mkTrace newOwner [] [] [].

(** Every attached request was stopped or released, or is the active one. *)
Definition owner_ok (t : owner_trace) : Prop :=
  (∀ g h, (g, h) ∈ attached t → h ∈ stopped t ∨ (g, h) ∈ released t ∨ activeRequest (owner t) = Some (g, h)) ∧
  (∀ g h, activeRequest (owner t) = Some (g, h) → g = generation (owner t) ∧ (g, h) ∈ attached t).

Lemma isActive_true o g h :
  isActive o g h = true ↔ generation o = g ∧ activeRequest o = Some (g, h).
Proof. unfold isActive, isCurrentGeneration. by rewrite andb_true_iff, !bool_decide_eq_true. Qed.

Lemma owner_run_ok t op :
  owner_ok t → NoDup (attached (owner_run t op)).*1 → owner_ok (owner_run t op).
Proof.
  intros [H1 H2] Hnd. destruct t as [[gen act] att st rel]. cbn in H1, H2.
  destruct op as [|g h|g h|]; cbn in *.
  - split; cbn; [|done]. intros g h Hin.
    destruct (H1 g h Hin) as [?|[?| ->]]; cbn; [left; by destruct act; [right|]|by right; left|left; left].
  - unfold ownerAttach, isCurrentGeneration in *; cbn in *.
    case_bool_decide as Hgen; cbn in *; apply NoDup_cons in Hnd as [Hg _]; subst.
    + split; cbn.
      * intros g' h' [Heq|Hin]%elem_of_cons; [by right; right; simplify_eq|].
        destruct (H1 g' h' Hin) as [?|[?|Hact]]; [by left|by right; left|].
        destruct (H2 g' h' Hact) as [-> Hin']. destruct Hg.
        apply list_elem_of_fmap. by exists (g, h').
      * intros g' h' [= <- <-]. split; [done|left].
    + split; cbn.
      * intros g' h' [Heq|Hin]%elem_of_cons; [left; simplify_eq; left|].
        destruct (H1 g' h' Hin) as [?|[?|?]]; [left; by right|by right; left|by right; right].
      * intros g' h' Hact. destruct (H2 g' h' Hact). split; [done|by right].
  - unfold ownerRelease. destruct (isActive _ g h) eqn:E; [|by split].
    apply isActive_true in E as [E1 E2]. cbn in E1, E2. subst. split; cbn; [|done].
    intros g' h' Hin. destruct (H1 g' h' Hin) as [?|[?|?]]; [by left|right; left; by right|].
    simplify_eq. right; left; left.
  - split; cbn; [|done]. intros g h Hin.
    destruct (H1 g h Hin) as [?|[?| ->]]; cbn; [left; by destruct act; [right|]|by right; left|left; left].
Qed.

Lemma owner_attached_suffix t ops :
  ∃ more, attached (fold_left owner_run ops t) = more ++ attached t.
Proof.
  revert t. induction ops as [|op ops IH]; intros t; [by exists []|]. cbn.
  destruct (IH (owner_run t op)) as [more ->].
  destruct op as [|g h|g h|]; cbn; eauto.
  unfold ownerAttach. destruct (isCurrentGeneration _ _); cbn; exists (more ++ [(g, h)]);
    by rewrite <-(assoc_L (++)).
Qed.

Lemma owner_runs_ok t ops :
  owner_ok t → NoDup (attached (fold_left owner_run ops t)).*1 → owner_ok (fold_left owner_run ops t).
Proof.
  revert t. induction ops as [|op ops IH]; intros t Ht Hnd; [done|]. cbn in *.
  apply IH; [|done]. apply owner_run_ok; [done|].
  destruct (owner_attached_suffix (owner_run t op) ops) as [more Hm]. rewrite Hm in Hnd.
  rewrite fmap_app in Hnd. by apply NoDup_app in Hnd as (_ & _ & ?).
Qed.
End owner.
Arguments SSERequestOwner : clear implicits.
Arguments owner_op : clear implicits.
Arguments owner_trace : clear implicits.

(* ------------------------------------------------------------------ *)
(** ** The desktop request *)

(** A thrown value: an [Error] with its message, or anything else. *)
Inductive Thrown :=
  | ThrownError (message : jstr)
  | ThrownOther.

Definition normalizeError (error : Thrown) : jstr :=
  match error with ThrownError m => m | ThrownOther => js "Unknown error!" end.

(** A parsed JSON object: its scalar fields ([None] for any other value). *)
Abbreviation JsonObject := (dict (option scalar)).

(** [output.data]: a string, an object (not [null]) or something else. *)
Inductive OutputData :=
  | DataText (s : jstr)
  | DataObject (o : JsonObject)
  | DataOther.

(** The output of the bus: the [event] field when it is a string, and [data]. *)
Record SseOutput := mkOutput {
  outEvent : option jstr;
  outData : OutputData;
}.

Inductive Call :=
  | CallSuccess (chunks : list SseOutput)
  | CallUpdate (chunk : SseOutput)
  | CallError (message : jstr)
  | CallStop.

(** What a callback does: whether it calls [stop], and what it throws. *)
Record CallResult := mkCallResult {
  callsStop : bool;
  throws : option Thrown;
}.

Inductive PromiseState :=
  | Pending
  | Resolved
  | Rejected (message : jstr).

Record ClientRequest := mkClient {
  settled : bool;
  registered : bool;
  promise : PromiseState;
  calls : list Call;
}.

Section client.
(** [JSON.parse]: [None] when it throws, [Some None] for a value that is no
    object. *)
Context (JSON_parse : jstr → option (option JsonObject)).
(** [handleErrorPayload(output, requestParams)], which may throw. *)
Context (handleErrorPayload : SseOutput → bool + Thrown).
Context (behave : list Call → Call → CallResult).

Definition parseJsonObject (value : OutputData) : option JsonObject :=
  match value with
  | DataObject o => Some o
  | DataText s => match JSON_parse s with Some o => o | None => None end
  | DataOther => None
  end.

(** The field of an object, when it is a string. *)
Definition stringField (key : jstr) (o : JsonObject) : option jstr :=
  match dget key o with Some (Some (SStr s)) => Some s | _ => None end.

(** The message of the error; [None] when the output is no error event. *)
Definition createSSEStreamError (output : SseOutput) : option jstr :=
  match outEvent output with
  | Some event =>
      if negb (bool_decide (trim event = js "error")) then None else
      match parseJsonObject (outData output) ≫= stringField (js "content") with
      | Some content => Some (if isValidString content then content else js "AI stream failed")
      | None => Some (js "AI stream failed")
      end
  | None => None
  end.

Definition parseDonePayload (data : OutputData) : option JsonObject :=
  match parseJsonObject data with
  | Some parsed => if bool_decide (stringField (js "type") parsed = Some (js "done"))
                   then Some parsed else None
  | None => None
  end.

(** Records a call and gives what it throws; [stop] inside it is not run. *)
Definition record_call (c : Call) (s : ClientRequest) : ClientRequest :=
  mkClient (settled s) (registered s) (promise s) (calls s ++ [c]).

Definition outcome (c : Call) (s : ClientRequest) : CallResult := behave (calls s) c.

(** [settled = true; cleanup()]. *)
Definition settle (s : ClientRequest) : ClientRequest := mkClient true false (promise s) (calls s).

(** Only the first resolution of a promise counts. *)
Definition setPromise (p : PromiseState) (s : ClientRequest) : ClientRequest :=
  mkClient (settled s) (registered s)
    (match promise s with Pending => p | done => done end) (calls s).

(** Once settled, a [stop] from inside a callback does nothing. *)
Definition notifyError (message : jstr) (s : ClientRequest) : ClientRequest :=
  let thrown := throws (outcome (CallError message) s) in
  let rejection := match thrown with Some e => normalizeError e | None => message end in
  setPromise (Rejected rejection) (record_call (CallError message) s).

Definition finish (onFinish : Call) (s : ClientRequest) : ClientRequest :=
  if settled s then s else
  let s := settle s in
  let s' := record_call onFinish s in
  match throws (outcome onFinish s) with
  | None => setPromise Resolved s'
  | Some error => notifyError (normalizeError error) s'
  end.

Definition fail (error : Thrown) (s : ClientRequest) : ClientRequest :=
  if settled s then s else notifyError (normalizeError error) (settle s).

Definition stopHandle (s : ClientRequest) : ClientRequest := finish CallStop s.

(** [callbacks.onUpdate(chunk)], which may call [stop] while the request is
    not settled. *)
Definition update (chunk : SseOutput) (s : ClientRequest) : ClientRequest * option Thrown :=
  let result := outcome (CallUpdate chunk) s in
  let s := record_call (CallUpdate chunk) s in
  (if callsStop result then stopHandle s else s, throws result).

(** [doneChunk]. *)
Definition doneChunk (output : SseOutput) (parsed : JsonObject) : SseOutput :=
  mkOutput (outEvent output) (DataObject parsed).

(** The listener; [None] is a falsy output. *)
Definition listener (sseOutput : option SseOutput) (s : ClientRequest) : ClientRequest :=
  match sseOutput with
  | None => finish (CallSuccess []) s
  | Some output =>
      match createSSEStreamError output with
      | Some message =>
          match update output s with
          | (s, Some thrown) => fail thrown s
          | (s, None) => fail (ThrownError message) s
          end
      | None =>
          if match outData output with DataText t => bool_decide (t = js "[DONE]") | _ => false end
          then finish (CallSuccess [output]) s
          else
          match parseDonePayload (outData output) with
          | Some parsed =>
              let chunk := doneChunk output parsed in
              match update chunk s with
              | (s, Some thrown) => fail thrown s
              | (s, None) => finish (CallSuccess [chunk]) s
              end
          | None =>
              match handleErrorPayload output with
              | inr thrown => fail thrown s
              | inl true => finish (CallSuccess [output]) s
              | inl false =>
                  match update output s with
                  | (s, Some thrown) => fail thrown s
                  | (s, None) => s
                  end
              end
          end
      end
  end.

(** [busError] is what [eventBus.on] throws. *)
Definition createClientRequestHandle (busError : option Thrown) : ClientRequest :=
  match busError with
  | None => mkClient false true Pending []
  | Some error => fail error (mkClient false false Pending [])
  end.

Inductive client_op :=
  | Deliver (output : option SseOutput)
  | StopHandle.

(** The bus delivers to registered listeners. *)
Definition client_run (s : ClientRequest) (op : client_op) : ClientRequest :=
  match op with
  | Deliver output => if registered s then listener output s else s
  | StopHandle => stopHandle s
  end.
End client.

(* ------------------------------------------------------------------ *)
(** ** Invariants of the desktop request *)

(** A call that ends the request: success or stop. *)
Definition isEnd (c : Call) : bool :=
  match c with CallSuccess _ | CallStop => true | _ => false end.
Definition isError (c : Call) : bool := match c with CallError _ => true | _ => false end.

Definition countCalls (f : Call → bool) (s : ClientRequest) : nat :=
  length (filter (λ c, f c = true) (calls s)).

(** What was called, by the state of the promise. *)
Definition client_ok (s : ClientRequest) : Prop :=
  match promise s with
  | Pending => settled s = false ∧ countCalls isEnd s = 0%nat ∧ countCalls isError s = 0%nat
  | Resolved => settled s = true ∧ registered s = false ∧
                countCalls isEnd s = 1%nat ∧ countCalls isError s = 0%nat
  | Rejected _ => settled s = true ∧ registered s = false ∧
                  (countCalls isEnd s ≤ 1)%nat ∧ countCalls isError s = 1%nat
  end.

Lemma countCalls_record f c s :
  countCalls f (record_call c s) = (countCalls f s + if f c then 1 else 0)%nat.
Proof.
  unfold countCalls; cbn. rewrite filter_app, length_app, filter_cons, filter_nil.
  f_equal. by destruct (f c).
Qed.

Section client_lemmas.
Context (JSON_parse : jstr → option (option JsonObject)).
Context (handleErrorPayload : SseOutput → bool + Thrown).
Context (behave : list Call → Call → CallResult).

Lemma notifyError_ok m s :
  promise s = Pending → settled s = true → registered s = false →
  (countCalls isEnd s ≤ 1)%nat → countCalls isError s = 0%nat → client_ok (notifyError behave m s).
Proof.
  intros Hp Hset Hreg He Hr. unfold client_ok, notifyError, setPromise.
  cbn [promise record_call]. rewrite Hp.
  change (calls (record_call (CallError m) s)) with (calls s ++ [CallError m]).
  pose proof (countCalls_record isEnd (CallError m) s) as H1.
  pose proof (countCalls_record isError (CallError m) s) as H2.
  cbn [isEnd isError] in H1, H2. unfold countCalls, record_call in *. cbn [calls] in *.
  split_and!; [done|done|lia|lia].
Qed.

Lemma pending_state s :
  client_ok s → settled s = false →
  promise s = Pending ∧ countCalls isEnd s = 0%nat ∧ countCalls isError s = 0%nat.
Proof. unfold client_ok. destruct (promise s); naive_solver congruence. Qed.

Lemma finish_ok c s : client_ok s → isEnd c = true → client_ok (finish behave c s).
Proof.
  intros Hs Hc. unfold finish. destruct (settled s) eqn:E; [done|].
  destruct (pending_state s Hs E) as (Hp & He & Hr).
  assert (isError c = false) as Hce by by destruct c.
  pose proof (countCalls_record isEnd c (settle s)) as H1.
  pose proof (countCalls_record isError c (settle s)) as H2. rewrite Hc in H1. rewrite Hce in H2.
  change (countCalls isEnd (settle s)) with (countCalls isEnd s) in H1.
  change (countCalls isError (settle s)) with (countCalls isError s) in H2.
  destruct (throws _) as [e|].
  - apply notifyError_ok; [done..|lia|lia].
  - unfold client_ok, setPromise; cbn [promise record_call settle]. rewrite Hp.
    change (countCalls isEnd _) with (countCalls isEnd (record_call c (settle s))).
    change (countCalls isError _) with (countCalls isError (record_call c (settle s))).
    split_and!; [done|done|lia|lia].
Qed.

Lemma fail_ok_client e s : client_ok s → client_ok (fail behave e s).
Proof.
  intros Hs. unfold fail. destruct (settled s) eqn:E; [done|].
  destruct (pending_state s Hs E) as (Hp & He & Hr).
  apply notifyError_ok; try done. change (countCalls isEnd s ≤ 1)%nat. lia.
Qed.

Lemma update_ok chunk s : client_ok s → client_ok (update behave chunk s).1.
Proof.
  intros Hs. unfold update; cbn.
  assert (client_ok (record_call (CallUpdate chunk) s)) as Hr.
  { pose proof (countCalls_record isEnd (CallUpdate chunk) s) as H1.
    pose proof (countCalls_record isError (CallUpdate chunk) s) as H2. cbn in H1, H2.
    rewrite Nat.add_0_r in H1, H2. unfold client_ok in *; cbn. by rewrite H1, H2. }
  destruct (callsStop _); [|done]. by apply finish_ok.
Qed.

Lemma listener_ok out s :
  client_ok s → client_ok (listener JSON_parse handleErrorPayload behave out s).
Proof.
  intros Hs. unfold listener. destruct out as [output|]; [|by apply finish_ok].
  destruct (createSSEStreamError _ _).
  { pose proof (update_ok output s Hs) as Hu. destruct (update behave output s) as [s' [e|]];
      by apply fail_ok_client. }
  case_test; [by apply finish_ok|]. destruct (parseDonePayload _ _) as [parsed|].
  { pose proof (update_ok (doneChunk output parsed) s Hs) as Hu.
    destruct (update behave (doneChunk output parsed) s) as [s' [e|]];
      [by apply fail_ok_client|by apply finish_ok]. }
  destruct (handleErrorPayload output) as [[]|e];
    [by apply finish_ok| |by apply fail_ok_client].
  pose proof (update_ok output s Hs) as Hu. destruct (update behave output s) as [s' [e|]];
    [by apply fail_ok_client|done].
Qed.

Lemma client_run_ok s op :
  client_ok s → client_ok (client_run JSON_parse handleErrorPayload behave s op).
Proof.
  intros Hs. destruct op as [out|]; cbn; [|by apply finish_ok].
  case_test; [by apply listener_ok|done].
Qed.

(** After the end nothing happens any more. *)
Lemma settled_stays s op :
  settled s = true → registered s = false →
  client_run JSON_parse handleErrorPayload behave s op = s.
Proof.
  intros Hset Hreg. destruct op as [out|]; cbn; [by rewrite Hreg|].
  unfold stopHandle, finish. by rewrite Hset.
Qed.
End client_lemmas.

(* ------------------------------------------------------------------ *)
(** ** Properties *)

(** A hook instance never leaks a request: when no generation attaches more
    than one handle, every handle that was attached has been stopped or
    released, or is that of the active request; callbacks guarded by
    [isActive] only run for that request, which belongs to the latest
    generation. *)
Theorem owner_no_leak {Handle} `{EqDecision Handle} (ops : list (owner_op Handle)) :
  let t := fold_left owner_run ops newTrace in
  NoDup (attached t).*1 →
  (∀ g h, (g, h) ∈ attached t → h ∈ stopped t ∨ (g, h) ∈ released t ∨ isActive (owner t) g h = true) ∧
  (∀ g h, isActive (owner t) g h = true →
     g = generation (owner t) ∧ ∀ g' h', isActive (owner t) g' h' = true → (g', h') = (g, h)).
Proof.
  intros t Hnd. assert (owner_ok t) as [H1 H2].
  { apply owner_runs_ok; [|done]. split; cbn; [set_solver|done]. }
  split.
  - intros g h Hin. destruct (H1 g h Hin) as [?|[?|Hact]]; [by left|by right; left|right; right].
    apply isActive_true. by destruct (H2 g h Hact).
  - intros g h [? Ha]%isActive_true. split; [done|].
    intros g' h' [? Ha']%isActive_true. congruence.
Qed.

Example owner_no_leak_witness :
  isActive (owner (fold_left owner_run [OBegin; OAttach 1 true; OBegin; OAttach 2 false] newTrace))
    1 true = false.
Proof.
  apply not_true_is_false. intros H.
  by pose proof (proj1 (proj2 (owner_no_leak (Handle:=bool)
    [OBegin; OAttach 1 true; OBegin; OAttach 2 false] ltac:(compute_done)) 1 true H)) as H'.
Defined.

(** A desktop request ends exactly once, whatever the bus delivers, when
    [stop] is called and what the callbacks do: the promise is settled exactly
    when the request is; it resolves after exactly one of [onSuccess] and
    [onStop] and without [onError], and rejects after exactly one [onError];
    from then on its listener is gone and neither events nor [stop] have any
    effect. *)
Theorem client_settles_once JSON_parse handleErrorPayload behave busError ops ops' :
  let run := fold_left (client_run JSON_parse handleErrorPayload behave) in
  let s := run ops (createClientRequestHandle behave busError) in
  client_ok s ∧ (settled s = true ↔ promise s ≠ Pending) ∧
  (settled s = true → registered s = false ∧ run ops' s = s).
Proof.
  intros run s. assert (client_ok s) as Hs.
  { unfold s, run. assert (client_ok (createClientRequestHandle behave busError)) as H0.
    { destruct busError as [e|]; [|done]. by eapply fail_ok_client. }
    revert H0. generalize (createClientRequestHandle behave busError).
    induction ops as [|op ops IH]; intros s0 H0; [done|]. cbn. by apply IH, client_run_ok. }
  clearbody s. split_and!; [done| |].
  - unfold client_ok in Hs. destruct (promise s); destruct Hs as [-> _]; by split.
  - intros Hset. assert (registered s = false) as Hreg.
    { unfold client_ok in Hs. destruct (promise s); destruct Hs as (? & ? & _); congruence. }
    split; [done|]. unfold run. clear Hs. induction ops' as [|op ops' IH]; [done|].
    cbn. rewrite settled_stays by done. apply IH.
Qed.

Example client_settles_once_witness :
  let behave := λ _ c, mkCallResult (match c with CallUpdate _ => true | _ => false end) None in
  let s := fold_left (client_run (λ _, None) (λ _, inl false) behave)
             [Deliver (Some (mkOutput None (DataText (js "hi"))))]
             (createClientRequestHandle behave None) in
  registered s = false.
Proof.
  apply (client_settles_once (λ _, None) (λ _, inl false)
    (λ _ c, mkCallResult (match c with CallUpdate _ => true | _ => false end) None) None
    [Deliver (Some (mkOutput None (DataText (js "hi"))))] []).
  reflexivity.
Defined.
