(* ===== verification/SqlText.v ===== *)
(** * SqlText: which characters of a SQL text are code

    Models the text scanners of
    [apps/community-client/src/components/SQLEditor/helper/sqlInsertValueDefaults.ts]:
    [sqlCodeMask], which masks quoted texts and comments; the conversion between
    offsets and editor positions; [trimOffsetRange], [scanValuesRow],
    [findValuesRows] and [normalizeSqlValue].

    The loops of the code move an index forward, now and then by several
    characters.  Here they recurse on the rest of the text with the previous
    character and the number of characters still to [skip]. *)

From S2P Require Import Prelude.
Local Open Scope nat_scope.

(* ------------------------------------------------------------------ *)
(** ** Characters *)

Definition QUOTE : N := 39%N.
Definition DQUOTE : N := 34%N.
Definition BACKTICK : N := 96%N.
Definition LBRACKET : N := 91%N.
Definition RBRACKET : N := 93%N.
Definition LPAREN : N := 40%N.
Definition RPAREN : N := 41%N.
Definition COMMA : N := 44%N.
Definition BACKSLASH : N := 92%N.
Definition DOLLAR : N := 36%N.
Definition DASH : N := 45%N.
Definition SLASH : N := 47%N.
Definition STAR : N := 42%N.
Definition HASH : N := 35%N.
Definition LF : N := 10%N.

Definition is_letter (c : N) : bool :=
  ((65 <=? c) && (c <=? 90) || (97 <=? c) && (c <=? 122))%N.
Definition is_digit (c : N) : bool := ((48 <=? c) && (c <=? 57))%N.

(** [/[A-Za-z0-9_$]/]. *)
Definition is_ident (c : N) : bool :=
  is_letter c || is_digit c || (c =? 95)%N || (c =? DOLLAR)%N.

(** [/[A-Za-z0-9_]/]. *)
Definition is_tag_char (c : N) : bool := is_letter c || is_digit c || (c =? 95)%N.

(* ------------------------------------------------------------------ *)
(** ** Dollar quotes *)

(** The rest of a delimiter after its first [$]: a tag and the closing [$]. *)
Fixpoint tagEnd (text : jstr) : option jstr :=
  match text with
  | [] => None
  | c :: text' =>
      if (c =? DOLLAR)%N then Some [c]
      else if is_tag_char c then (rest ← tagEnd text'; Some (c :: rest))
      else None
  end.

(** A delimiter at the start of [text]: a dollar, an optional tag (letters,
    digits and underscores, no digit first), a dollar. *)
Definition dollarDelimiter (text : jstr) : option jstr :=
  match text with
  | d :: c :: _ as rest =>
      if (d =? DOLLAR)%N && negb (is_digit c) then (e ← tagEnd (tail text); Some (d :: e)) else None
  | _ => None
  end.

(** [before] is the character before the offset. *)
Definition dollarQuoteDelimiterAt (before : option N) (text : jstr) : option jstr :=
  if match before with Some b => is_ident b | None => false end then None
  else dollarDelimiter text.

(* ------------------------------------------------------------------ *)
(** ** The code mask *)

(** The flags of the scanner, of which at most one is set. *)
Inductive Mode :=
  | Code
  | Quoted (quote : N)
  | LineComment
  | BlockComment
  | DollarQuote (delimiter : jstr).

(** What the loop body does at a character: whether it is code, the next mode
    and the number of following characters that are masked with it. *)
Definition maskStep (mode : Mode) (before : option N) (current : N) (rest : jstr)
    : bool * Mode * nat :=
  let next := head rest in
  let nextIs c := bool_decide (next = Some c) in
  match mode with
  | LineComment => (false, if (current =? LF)%N then Code else LineComment, 0)
  | BlockComment =>
      if (current =? STAR)%N && nextIs SLASH then (false, Code, 1) else (false, BlockComment, 0)
  | DollarQuote delimiter =>
      if startsWith delimiter (current :: rest) then (false, Code, length delimiter - 1)
      else (false, DollarQuote delimiter, 0)
  | Quoted quote =>
      if (quote =? QUOTE)%N && (current =? BACKSLASH)%N && bool_decide (next ≠ None)
      then (false, Quoted quote, 1)
      else if (current =? quote)%N && nextIs quote then (false, Quoted quote, 1)
      else if (current =? quote)%N then (false, Code, 0)
      else (false, Quoted quote, 0)
  | Code =>
      match dollarQuoteDelimiterAt before (current :: rest) with
      | Some delimiter => (false, DollarQuote delimiter, length delimiter - 1)
      | None =>
          if (current =? DASH)%N && nextIs DASH then (false, LineComment, 1)
          else if (current =? SLASH)%N && nextIs STAR then (false, BlockComment, 1)
          else if (current =? HASH)%N && match before with Some b => is_space b | None => true end
          then (false, LineComment, 0)
          else if (current =? QUOTE)%N then (false, Quoted QUOTE, 0)
          else if (current =? DQUOTE)%N then (false, Quoted DQUOTE, 0)
          else if (current =? BACKTICK)%N then (false, Quoted BACKTICK, 0)
          else if (current =? LBRACKET)%N then (false, Quoted RBRACKET, 0)
          else (true, Code, 0)
      end
  end.

Fixpoint maskFrom (mode : Mode) (skip : nat) (before : option N) (text : jstr) : list bool :=
  match text with
  | [] => []
  | current :: rest =>
      match skip with
      | S skip => false :: maskFrom mode skip (Some current) rest
      | O =>
          let '(code, mode', skip') := maskStep mode before current rest in
          code :: maskFrom mode' skip' (Some current) rest
      end
  end.

Definition sqlCodeMask (sql : jstr) : list bool := maskFrom Code 0 None sql.

(* ------------------------------------------------------------------ *)
(** ** Positions *)

Record Position := mkPosition { lineNumber : Z; column : Z }.

Record Range := mkRange {
  startLineNumber : Z;
  startColumn : Z;
  endLineNumber : Z;
  endColumn : Z;
}.

(** The loop of [positionAtOffset] over the first [n] characters. *)
Fixpoint positionFrom (line col : Z) (n : nat) (text : jstr) : Position :=
  match n, text with
  | S n, c :: text => if (c =? LF)%N then positionFrom (line + 1) 1 n text
                      else positionFrom line (col + 1) n text
  | _, _ => mkPosition line col
  end.

Definition positionAtOffset (sql : jstr) (offset : Z) : Position :=
  let safeOffset := Z.max 0 (Z.min offset (Z.of_nat (length sql))) in
  positionFrom 1 1 (Z.to_nat safeOffset) sql.

Definition rangeAtOffsets (sql : jstr) (startOffset endOffset : Z) : Range :=
  let start := positionAtOffset sql startOffset in
  let end_ := positionAtOffset sql endOffset in
  mkRange (lineNumber start) (column start) (lineNumber end_) (column end_).

(** The offset at which line [target] starts, the loop being at [current]. *)
Fixpoint lineOffset (current target : Z) (offset : nat) (text : jstr) : nat :=
  match text with
  | c :: text =>
      if (current <? target)%Z
      then lineOffset (if (c =? LF)%N then current + 1 else current)%Z target (S offset) text
      else offset
  | [] => offset
  end.

Definition offsetAtPosition (sql : jstr) (line col : Z) : Z :=
  let targetLine := Z.max 1 line in
  let targetColumn := Z.max 1 col in
  Z.min (Z.of_nat (length sql)) (Z.of_nat (lineOffset 1 targetLine 0 sql) + targetColumn - 1).

(* ------------------------------------------------------------------ *)
(** ** Rows of values *)

Record OffsetRange := mkOffsets { start : nat; end_ : nat }.

(** The loops of [trimOffsetRange], [n] being the distance of the two ends. *)
Fixpoint trimLeft (sql : jstr) (s n : nat) : nat :=
  match n with
  | S n => match sql !! s with
           | Some c => if is_space c then trimLeft sql (S s) n else s
           | None => s
           end
  | O => s
  end.

Fixpoint trimRight (sql : jstr) (e n : nat) : nat :=
  match n with
  | S n => match sql !! (e - 1) with
           | Some c => if is_space c then trimRight sql (e - 1) n else e
           | None => e
           end
  | O => e
  end.

Definition trimOffsetRange (sql : jstr) (s e : nat) : OffsetRange :=
  let trimmedStart := trimLeft sql s (e - s) in
  mkOffsets trimmedStart (trimRight sql e (e - trimmedStart)).

(** The loop of [scanValuesRow] at [index]; [rest] and [mask] are what follows. *)
Fixpoint scanValuesFrom (sql : jstr) (index valueStart depth : nat) (rest : jstr) (mask : list bool)
    : list OffsetRange :=
  match rest, mask with
  | current :: rest, code :: mask =>
      let go := scanValuesFrom sql (S index) in
      if negb code then go valueStart depth rest mask
      else if (current =? LPAREN)%N || (current =? LBRACKET)%N then go valueStart (S depth) rest mask
      else if ((current =? RPAREN)%N || (current =? RBRACKET)%N) && (0 <? depth)
      then go valueStart (depth - 1) rest mask
      else if (current =? COMMA)%N && (depth =? 0)
      then trimOffsetRange sql valueStart index :: go (S index) depth rest mask
      else if (current =? RPAREN)%N && (depth =? 0)
      then [trimOffsetRange sql valueStart index]
      else go valueStart depth rest mask
  | _, _ => [trimOffsetRange sql valueStart (length sql)]
  end.

Definition scanValuesRow (sql : jstr) (rowStart : nat) (codeMask : list bool) : list OffsetRange :=
  scanValuesFrom sql rowStart rowStart 0 (drop rowStart sql) (drop rowStart codeMask).

(** [sql.substring(range.start, range.end)]. *)
Definition substring (sql : jstr) (r : OffsetRange) : jstr := take (end_ r - start r) (drop (start r) sql).

(** A prefix of [text] in any case. *)
Definition startsWithCI (word text : jstr) : bool := startsWith word (toLowerCase (take (length word) text)).

(** [\s*\(] at the start of [text]: the length of the match. *)
Fixpoint spacesThenParen (text : jstr) : option nat :=
  match text with
  | [] => None
  | c :: text => if (c =? LPAREN)%N then Some 1
                 else if is_space c then S <$> spacesThenParen text else None
  end.

Definition is_word_char (c : N) : bool := is_tag_char c.

(** [/\bvalues?\s*\(/i] at the start of [text]: the length of the match. *)
Definition valuesMatchAt (before : option N) (text : jstr) : option nat :=
  if match before with Some b => is_word_char b | None => false end then None
  else if startsWithCI (js "values") text then Nat.add 6 <$> spacesThenParen (drop 6 text)
  else if startsWithCI (js "value") text then Nat.add 5 <$> spacesThenParen (drop 5 text)
  else None.

(** The matches of the pattern, leftmost first and without overlap: the index
    and the end of each. *)
Fixpoint valuesMatches (index skip : nat) (before : option N) (text : jstr) : list (nat * nat) :=
  match text with
  | [] => []
  | c :: rest =>
      match skip with
      | S skip => valuesMatches (S index) skip (Some c) rest
      | O =>
          match valuesMatchAt before text with
          | Some len => (index, index + len) :: valuesMatches (S index) (len - 1) (Some c) rest
          | None => valuesMatches (S index) 0 (Some c) rest
          end
      end
  end.

Definition isCode (mask : list bool) (index : nat) : bool := default false (mask !! index).

Definition findValuesRows (sql : jstr) : list (list OffsetRange) :=
  let codeMask := sqlCodeMask sql in
  omap
    (λ m, let '(index, lastIndex) := m in
      if isCode codeMask index && isCode codeMask (lastIndex - 1)
      then match scanValuesRow sql lastIndex codeMask with [] => None | ranges => Some ranges end
      else None)
    (valuesMatches 0 0 None sql).

(** [|a - b|]. *)
Definition distance (a b : Z) : Z := Z.abs (a - b).

(** The [reduce] of [nearestRowIndex] from [index] on; the start of a row is
    that of its first range. *)
Definition rowStart (row : list OffsetRange) : Z :=
  match row with r :: _ => Z.of_nat (start r) | [] => 0 end.

Fixpoint nearestFrom (preferredOffset : Z) (index closestIndex : nat) (closest : Z)
    (rows : list (list OffsetRange)) : nat :=
  match rows with
  | [] => closestIndex
  | candidate :: rows =>
      if (distance (rowStart candidate) preferredOffset <? distance closest preferredOffset)%Z
      then nearestFrom preferredOffset (S index) index (rowStart candidate) rows
      else nearestFrom preferredOffset (S index) closestIndex closest rows
  end.

(** [None] is -1. *)
Definition nearestRowIndex (rows : list (list OffsetRange)) (preferredOffset : Z) : option nat :=
  match rows with
  | [] => None
  | row :: _ => Some (nearestFrom preferredOffset 0 0 (rowStart row) rows)
  end.

(* ------------------------------------------------------------------ *)
(** ** Comparing values *)

Inductive ValueMode :=
  | VPlain
  | VSingle
  | VDouble
  | VDollar (delimiter : jstr).

(** The text a character adds, the next mode and the characters that are copied
    with it. *)
Definition normalizeStep (mode : ValueMode) (before : option N) (current : N) (rest : jstr)
    : jstr * ValueMode * nat :=
  let next := head rest in
  let nextIs c := bool_decide (next = Some c) in
  let keep := ([current], mode, 0) in
  match mode with
  | VDollar delimiter =>
      if startsWith delimiter (current :: rest) then ([current], VPlain, length delimiter - 1)
      else keep
  | VPlain =>
      match dollarQuoteDelimiterAt before (current :: rest) with
      | Some delimiter => ([current], VDollar delimiter, length delimiter - 1)
      | None =>
          if (current =? QUOTE)%N then ([current], VSingle, 0)
          else if (current =? DQUOTE)%N then ([current], VDouble, 0)
          else if is_space current then ([], VPlain, 0)
          else ([lower_char current], VPlain, 0)
      end
  | VSingle =>
      if (current =? BACKSLASH)%N && bool_decide (next ≠ None) then ([current], VSingle, 1)
      else if (current =? QUOTE)%N then
        if nextIs QUOTE then ([current], VSingle, 1) else ([current], VPlain, 0)
      else keep
  | VDouble =>
      if (current =? DQUOTE)%N then
        if nextIs DQUOTE then ([current], VDouble, 1) else ([current], VPlain, 0)
      else keep
  end.

(** Skipped characters are copied as they are. *)
Fixpoint normalizeFrom (mode : ValueMode) (skip : nat) (before : option N) (text : jstr) : jstr :=
  match text with
  | [] => []
  | current :: rest =>
      match skip with
      | S skip => current :: normalizeFrom mode skip (Some current) rest
      | O =>
          let '(out, mode', skip') := normalizeStep mode before current rest in
          out ++ normalizeFrom mode' skip' (Some current) rest
      end
  end.

Definition normalizeSqlValue (value : jstr) : jstr := normalizeFrom VPlain 0 None value.
