(* ===== verification/SqlTextMask.v ===== *)
(** * SqlTextMask: the code mask against a grammar of SQL texts

    The reference for [sqlCodeMask]: a text written as a sequence of segments
    (code, quoted texts, comments, dollar-quoted texts), each printed with the
    escapes of SQL.  The mask of the printed text is the one the segments say. *)

From S2P Require Import Prelude SqlText.
Local Open Scope nat_scope.

(* ------------------------------------------------------------------ *)
(** ** Segments *)

Inductive Segment :=
  | SCode (t : jstr)
  | SQuoted (open close : N) (body : jstr)
  | SLine (body : jstr)
  | SHash (body : jstr)
  | SBlock (body : jstr)
  | SDollar (tag body : jstr).

(** The escapes inside a quoted text: a doubled quote, and a doubled backslash
    between single quotes. *)
Definition escapeChar (quote c : N) : jstr :=
  if decide (c = quote) then [c; c]
  else if decide (quote = QUOTE ∧ c = BACKSLASH) then [c; c] else [c].

Definition escapeText (quote : N) (body : jstr) : jstr := concat (escapeChar quote <$> body).

Definition delimiterOf (tag : jstr) : jstr := DOLLAR :: tag ++ [DOLLAR].

Definition printSegment (s : Segment) : jstr :=
  match s with
  | SCode t => t
  | SQuoted open close body => open :: escapeText close body ++ [close]
  | SLine body => DASH :: DASH :: body ++ [LF]
  | SHash body => HASH :: body ++ [LF]
  | SBlock body => SLASH :: STAR :: body ++ [STAR; SLASH]
  | SDollar tag body => delimiterOf tag ++ body ++ delimiterOf tag
  end.

Definition maskSegment (s : Segment) : list bool :=
  match s with
  | SCode t => replicate (length t) true
  | _ => replicate (length (printSegment s)) false
  end.

Definition printSegments (segs : list Segment) : jstr := concat (printSegment <$> segs).
Definition maskSegments (segs : list Segment) : list bool := concat (maskSegment <$> segs).

(** The characters with which something else than code may start. *)
Definition startsMasked (c : N) : bool :=
  bool_decide (c ∈ [QUOTE; DQUOTE; BACKTICK; LBRACKET; DASH; SLASH; HASH; DOLLAR]).

Definition quotePair (open close : N) : Prop :=
  (open, close) ∈ [(QUOTE, QUOTE); (DQUOTE, DQUOTE); (BACKTICK, BACKTICK); (LBRACKET, RBRACKET)].

(** A block comment's text holds no end of comment. *)
Fixpoint noBlockEnd (body : jstr) : bool :=
  match body with
  | c :: body' =>
      negb ((c =? STAR)%N && bool_decide (head body' = Some SLASH)) && noBlockEnd body'
  | [] => true
  end.

Definition segment_ok (before : option N) (s : Segment) (rest : jstr) : Prop :=
  match s with
  | SCode t => Forall (λ c, startsMasked c = false) t
  | SQuoted open close _ => quotePair open close ∧ head rest ≠ Some close
  | SLine body => LF ∉ body
  | SHash body => LF ∉ body ∧ (∀ b, before = Some b → is_space b = true)
  | SBlock body => noBlockEnd body = true
  | SDollar tag body =>
      Forall (λ c, is_tag_char c = true) tag ∧ (∀ c, head tag = Some c → is_digit c = false) ∧
      (∀ b, before = Some b → is_ident b = false) ∧
      (∀ pre suf, body = pre ++ suf → suf ≠ [] →
         startsWith (delimiterOf tag) (suf ++ delimiterOf tag) = false)
  end.

Definition lastOr (before : option N) (t : jstr) : option N :=
  match last t with Some c => Some c | None => before end.

Fixpoint segments_ok (before : option N) (segs : list Segment) : Prop :=
  match segs with
  | [] => True
  | s :: segs =>
      segment_ok before s (printSegments segs) ∧ segments_ok (lastOr before (printSegment s)) segs
  end.

(* ------------------------------------------------------------------ *)
(** ** Scanning one segment *)

Lemma lastOr_cons before c t : lastOr before (c :: t) = lastOr (Some c) t.
Proof. unfold lastOr. rewrite last_cons. by destruct (last t). Qed.

Lemma lastOr_snoc before t c : lastOr before (t ++ [c]) = Some c.
Proof. unfold lastOr. by rewrite last_snoc. Qed.

Lemma maskFrom_skip mode before t rest :
  maskFrom mode (length t) before (t ++ rest)
  = replicate (length t) false ++ maskFrom mode 0 (lastOr before t) rest.
Proof.
  revert before. induction t as [|c t IH]; intros before; cbn; [done|].
  by rewrite IH, lastOr_cons.
Qed.

Lemma maskFrom_step mode before c rest :
  maskFrom mode 0 before (c :: rest)
  = let '(code, mode', skip') := maskStep mode before c rest in
    code :: maskFrom mode' skip' (Some c) rest.
Proof. done. Qed.

Lemma maskFrom_length mode skip before t : length (maskFrom mode skip before t) = length t.
Proof.
  revert mode skip before. induction t as [|c t IH]; intros mode skip before; [done|].
  destruct skip; cbn; [|by rewrite IH].
  destruct (maskStep mode before c t) as [[code mode'] skip']. cbn. by rewrite IH.
Qed.

Lemma dollarDelimiter_other c t : c ≠ DOLLAR → dollarDelimiter (c :: t) = None.
Proof.
  intros H. unfold dollarDelimiter. destruct t; [done|].
  by rewrite (proj2 (N.eqb_neq c DOLLAR) H).
Qed.

Lemma dollarAt_other before c t : c ≠ DOLLAR → dollarQuoteDelimiterAt before (c :: t) = None.
Proof.
  intros H. unfold dollarQuoteDelimiterAt. rewrite dollarDelimiter_other by done.
  by destruct (match before with Some _ => _ | None => _ end).
Qed.

Lemma startsMasked_false c :
  startsMasked c = false →
  c ≠ DOLLAR ∧ (c =? DASH)%N = false ∧ (c =? SLASH)%N = false ∧ (c =? HASH)%N = false ∧
  (c =? QUOTE)%N = false ∧ (c =? DQUOTE)%N = false ∧ (c =? BACKTICK)%N = false ∧
  (c =? LBRACKET)%N = false.
Proof.
  unfold startsMasked. rewrite bool_decide_eq_false, !N.eqb_neq. intros H.
  split_and!; intros ->; apply H; set_solver.
Qed.

Lemma mask_code before t rest :
  Forall (λ c, startsMasked c = false) t →
  maskFrom Code 0 before (t ++ rest)
  = replicate (length t) true ++ maskFrom Code 0 (lastOr before t) rest.
Proof.
  intros H. revert before. induction H as [|c t Hc _ IH]; intros before; [done|].
  cbn [app]. rewrite maskFrom_step. unfold maskStep.
  apply startsMasked_false in Hc as (Hd & -> & -> & -> & -> & -> & -> & ->).
  rewrite dollarAt_other by done. cbn. by rewrite IH, lastOr_cons.
Qed.

Lemma mask_line before body rest :
  LF ∉ body →
  maskFrom LineComment 0 before (body ++ LF :: rest)
  = replicate (S (length body)) false ++ maskFrom Code 0 (Some LF) rest.
Proof.
  revert before. induction body as [|c body IH]; intros before H; [done|].
  cbn [app]. rewrite maskFrom_step. cbn [maskStep].
  rewrite (proj2 (N.eqb_neq c LF)) by set_solver. cbn. f_equal. apply IH. set_solver.
Qed.

Lemma mask_block before body rest :
  noBlockEnd body = true →
  maskFrom BlockComment 0 before (body ++ STAR :: SLASH :: rest)
  = replicate (length body + 2) false ++ maskFrom Code 0 (Some SLASH) rest.
Proof.
  revert before. induction body as [|c body IH]; intros before H; [done|].
  cbn [noBlockEnd] in H. apply andb_true_iff in H as [Hc H].
  cbn [app]. rewrite maskFrom_step. cbn [maskStep].
  assert ((c =? STAR)%N && bool_decide (head (body ++ STAR :: SLASH :: rest) = Some SLASH) = false)
    as ->.
  { destruct body as [|d body]; cbn in *; [by rewrite andb_false_r|]. by apply negb_true_iff. }
  cbn. f_equal. by apply IH.
Qed.

Lemma mask_quoted close before body rest :
  close ≠ BACKSLASH → head rest ≠ Some close →
  maskFrom (Quoted close) 0 before (escapeText close body ++ close :: rest)
  = replicate (length (escapeText close body) + 1) false ++ maskFrom Code 0 (Some close) rest.
Proof.
  intros Hb Hr. revert before. induction body as [|c body IH]; intros before.
  - change (escapeText close [] ++ close :: rest) with (close :: rest). rewrite maskFrom_step. cbn [maskStep].
    rewrite (proj2 (N.eqb_neq close BACKSLASH)) by done. rewrite andb_false_r, N.eqb_refl.
    rewrite (bool_decide_eq_false_2 (head rest = Some close)) by done. done.
  - unfold escapeText. cbn [fmap list_fmap concat]. fold (escapeText close body).
    rewrite <-(assoc_L (++)). unfold escapeChar.
    destruct (decide (c = close)) as [->|Hc]; [|destruct (decide _) as [[Hq ->]|Hq]].
    + cbn [app]. rewrite maskFrom_step. cbn [maskStep].
      rewrite (proj2 (N.eqb_neq close BACKSLASH)) by done. rewrite andb_false_r, N.eqb_refl.
      rewrite (bool_decide_eq_true_2 (head _ = Some close)) by done.
      cbn [andb maskFrom length Nat.add replicate app]. by rewrite IH.
    + subst close. cbn [app]. rewrite maskFrom_step. cbn [maskStep].
      rewrite (bool_decide_eq_true_2 (head _ ≠ None)) by done.
      cbn [andb N.eqb Pos.eqb QUOTE BACKSLASH maskFrom length Nat.add replicate app]. by rewrite IH.
    + cbn [app]. rewrite maskFrom_step. cbn [maskStep].
      assert ((close =? QUOTE)%N && (c =? BACKSLASH)%N = false) as ->.
      { apply andb_false_iff. rewrite !N.eqb_neq. destruct (decide (close = QUOTE)); naive_solver. }
      rewrite (proj2 (N.eqb_neq c close)) by done.
      cbn [andb length Nat.add replicate app]. by rewrite IH.
Qed.

Lemma startsWith_app_long d t rest :
  length d ≤ length t → startsWith d (t ++ rest) = startsWith d t.
Proof. intros H. unfold startsWith. by rewrite take_app_le. Qed.

Lemma mask_dollar d before body rest :
  d ≠ [] → (∀ pre suf, body = pre ++ suf → suf ≠ [] → startsWith d (suf ++ d) = false) →
  maskFrom (DollarQuote d) 0 before (body ++ d ++ rest)
  = replicate (length body + length d) false ++ maskFrom Code 0 (lastOr before d) rest.
Proof.
  intros Hd. revert before. induction body as [|c body IH]; intros before H.
  - destruct d as [|x d]; [done|]. cbn [app]. rewrite maskFrom_step. cbn [maskStep].
    change (x :: d ++ rest) with ((x :: d) ++ rest). rewrite startsWith_app. cbn [length].
    rewrite Nat.sub_succ, Nat.sub_0_r, maskFrom_skip, lastOr_cons. done.
  - cbn [app]. rewrite maskFrom_step. cbn [maskStep].
    assert (startsWith d (c :: body ++ d ++ rest) = false) as ->.
    { change (c :: body ++ d ++ rest) with ((c :: body) ++ d ++ rest).
      rewrite (assoc_L (++)), startsWith_app_long by (rewrite length_app; lia).
      by apply (H []). }
    cbn. rewrite IH.
    + f_equal. f_equal. unfold lastOr. destruct d as [|x d] using rev_ind; [done|]. by rewrite last_snoc.
    + intros pre suf -> Hs. by apply (H (c :: pre)).
Qed.

Lemma tagEnd_tag tag rest :
  Forall (λ c, is_tag_char c = true) tag → tagEnd (tag ++ DOLLAR :: rest) = Some (tag ++ [DOLLAR]).
Proof.
  induction 1 as [|c tag Hc _ IH]; [done|]. cbn. destruct (c =? DOLLAR)%N eqn:E.
  - apply N.eqb_eq in E. by subst.
  - by rewrite Hc, IH.
Qed.

Lemma dollar_found before tag rest :
  Forall (λ c, is_tag_char c = true) tag → (∀ c, head tag = Some c → is_digit c = false) →
  (∀ b, before = Some b → is_ident b = false) →
  dollarQuoteDelimiterAt before (delimiterOf tag ++ rest) = Some (delimiterOf tag).
Proof.
  intros Ht Hh Hb. unfold dollarQuoteDelimiterAt.
  assert (match before with Some b => is_ident b | None => false end = false) as ->
    by (destruct before; auto).
  unfold delimiterOf. cbn [app]. rewrite <-(assoc_L (++)). cbn [app].
  assert (∃ c t, tag ++ DOLLAR :: rest = c :: t ∧ is_digit c = false) as (c & t & E & Hc).
  { destruct tag as [|c tag]; cbn; [by exists DOLLAR, rest|]. exists c. eauto. }
  unfold dollarDelimiter. rewrite E, Hc. rewrite N.eqb_refl. cbn [negb andb tail].
  by rewrite <-E, tagEnd_tag.
Qed.

(** How the scanner leaves code. *)
Lemma maskStep_line before t : maskStep Code before DASH (DASH :: t) = (false, LineComment, 1).
Proof. unfold maskStep. by rewrite dollarAt_other. Qed.

Lemma maskStep_block before t : maskStep Code before SLASH (STAR :: t) = (false, BlockComment, 1).
Proof. unfold maskStep. by rewrite dollarAt_other. Qed.

Lemma maskStep_hash before t :
  (∀ b, before = Some b → is_space b = true) →
  maskStep Code before HASH t = (false, LineComment, 0).
Proof.
  intros H. unfold maskStep. rewrite dollarAt_other by done.
  assert (match before with Some b => is_space b | None => true end = true) as ->
    by (destruct before; auto).
  done.
Qed.

Lemma maskStep_quoted before open close t :
  quotePair open close → close ≠ BACKSLASH ∧ maskStep Code before open t = (false, Quoted close, 0).
Proof.
  unfold quotePair. rewrite !elem_of_cons.
  intros [[= -> ->]|[[= -> ->]|[[= -> ->]|[[= -> ->]|Hp]]]]; [..|by apply elem_of_nil in Hp];
    (split; [done|]; unfold maskStep; by rewrite dollarAt_other).
Qed.

(** One printed segment. *)
Lemma mask_segment before s rest :
  segment_ok before s rest →
  maskFrom Code 0 before (printSegment s ++ rest)
  = maskSegment s ++ maskFrom Code 0 (lastOr before (printSegment s)) rest.
Proof.
  destruct s as [t|open close body|body|body|body|tag body]; cbn [segment_ok printSegment maskSegment].
  - apply mask_code.
  - intros [Hp Hr]. cbn [app]. rewrite <-(assoc_L (++)), maskFrom_step.
    destruct (maskStep_quoted before open close (escapeText close body ++ [close] ++ rest) Hp)
      as [Hb ->].
    cbn [app]. rewrite mask_quoted by done. cbn [length]. rewrite length_app. cbn [length replicate app].
    by rewrite lastOr_cons, lastOr_snoc.
  - intros H. cbn [app]. rewrite <-(assoc_L (++)), maskFrom_step, maskStep_line. cbn [maskFrom app].
    rewrite mask_line by done. cbn [length replicate app].
    by rewrite !lastOr_cons, lastOr_snoc, length_app, Nat.add_1_r.
  - intros [H Hsp]. cbn [app]. rewrite <-(assoc_L (++)), maskFrom_step, maskStep_hash by done.
    cbn [app]. rewrite mask_line by done. cbn [length replicate app].
    by rewrite !lastOr_cons, lastOr_snoc, length_app, Nat.add_1_r.
  - intros H. cbn [app]. rewrite <-(assoc_L (++)), maskFrom_step, maskStep_block. cbn [maskFrom app].
    rewrite mask_block by done. cbn [length replicate app]. rewrite !lastOr_cons, length_app.
    cbn [length]. change [STAR; SLASH] with ([STAR] ++ [SLASH]).
    by rewrite (assoc_L (++)), lastOr_snoc.
  - intros (Ht & Hh & Hb & Hbody). rewrite <-!(assoc_L (++)).
    assert (delimiterOf tag = DOLLAR :: tag ++ [DOLLAR]) as Hd by done.
    pose proof (dollar_found before tag (body ++ delimiterOf tag ++ rest) Ht Hh Hb) as Hfound.
    rewrite Hd in Hfound at 1 3. cbn [app] in Hfound. rewrite Hd at 1 4. cbn [app].
    rewrite maskFrom_step. unfold maskStep. rewrite Hfound.
    cbn [length]. rewrite Nat.sub_succ, Nat.sub_0_r, maskFrom_skip, mask_dollar by done.
    rewrite (assoc_L (++)), <-replicate_add. cbn [length]. rewrite !length_app.
    assert (∀ b t, lastOr b (t ++ delimiterOf tag) = Some DOLLAR) as Hlast.
    { intros b t. rewrite Hd, app_comm_cons, (assoc_L (++)). apply lastOr_snoc. }
    rewrite (assoc_L (++) _ body), Hlast, (Hlast _ []). rewrite Hd. cbn [length app replicate Nat.add].
    by rewrite !length_app.
Qed.

(* ------------------------------------------------------------------ *)
(** ** Properties *)

(** C24: quoted texts, comments and dollar-quoted texts are never taken for
    code and code always is: the mask of a text printed from segments, with
    doubled quotes and backslashes inside the quoted ones, is that of the
    segments, and it has one entry per character. *)
Theorem sqlCodeMask_segments segs :
  segments_ok None segs →
  sqlCodeMask (printSegments segs) = maskSegments segs ∧
  length (maskSegments segs) = length (printSegments segs).
Proof.
  intros H. assert (sqlCodeMask (printSegments segs) = maskSegments segs) as Heq.
  { unfold sqlCodeMask. revert H. generalize (@None N) as before.
    induction segs as [|s segs IH]; intros before; [done|]. intros [Hs H].
    unfold printSegments, maskSegments. cbn [fmap list_fmap concat].
    rewrite mask_segment by done. f_equal. by apply IH. }
  split; [done|]. rewrite <-Heq. apply maskFrom_length.
Qed.

Example sqlCodeMask_segments_witness :
  sqlCodeMask (js "a = 'it''s' /* c */")
  = replicate 4 true ++ replicate 7 false ++ [true] ++ replicate 7 false.
Proof.
  apply (sqlCodeMask_segments
    [SCode (js "a = "); SQuoted QUOTE QUOTE (js "it's"); SCode (js " "); SBlock (js " c ")]).
  cbn [segments_ok segment_ok]. split_and!; [by repeat constructor|left|done|by repeat constructor|reflexivity|done].
Defined.
