(* ===== verification/SqlInsertValues.v ===== *)
(** * SqlInsertValues: default values of an insert statement

    Models the exported functions of
    [apps/community-client/src/components/SQLEditor/helper/sqlInsertValueDefaults.ts]
    on the scanners of [SqlText]: the text completed after [values (], the
    editor ranges of the completed values and their upkeep while the text
    changes.

    [hint === targetHint] compares references: the hints of a list are distinct
    objects, so the target is the element at the index [find] stopped at. *)

From stdpp Require Import gmap.
From S2P Require Import Prelude StableSort SqlText.
Local Open Scope Z_scope.

(* ------------------------------------------------------------------ *)
(** ** Hints *)

Record ISqlEditorHintItemVO := mkItem {
  rowIndex : Z;
  columnIndex : Z;
  fieldName : option jstr;
  fieldType : option jstr;
  defaultValue : option jstr;
  label : option jstr;
  range : option Range;
  active : option bool;
}.

Record ISqlEditorHintVO := mkHint {
  type : jstr;
  statementRange : option Range;
  rowRange : option Range;
  valueRange : option Range;
  items : option (list ISqlEditorHintItemVO);
}.

Record InsertValueAutoFill := mkAutoFill {
  fillText : jstr;
  firstValueLength : nat;
  valuesTextLength : nat;
}.

#[export] Instance Range_eq_dec : EqDecision Range.
Proof. solve_decision. Defined.

Definition isEmptyRange (range : option Range) : bool :=
  match range with
  | Some r => (startLineNumber r =? endLineNumber r) && (startColumn r =? endColumn r)
  | None => false
  end.

Definition isInsertValue (hint : ISqlEditorHintVO) : bool :=
  bool_decide (type hint = js "INSERT_VALUE").

(** [hint.items?.some((item) => item.active)]. *)
Definition hasActiveItem (hint : ISqlEditorHintVO) : bool :=
  existsb (λ item, default false (active item)) (default [] (items hint)).

(** [hint.items?.length]. *)
Definition hasItems (hint : ISqlEditorHintVO) : bool :=
  match items hint with Some (_ :: _) => true | _ => false end.

(** [item.defaultValue] is missing or empty. *)
Definition noDefault (item : ISqlEditorHintItemVO) : bool :=
  bool_decide (default [] (defaultValue item) = []).

Definition value (item : ISqlEditorHintItemVO) : jstr := default [] (defaultValue item).

Definition columnLe (left right : ISqlEditorHintItemVO) : bool :=
  columnIndex left - columnIndex right <=? 0.

Definition orderItems (hint : option ISqlEditorHintVO) : list ISqlEditorHintItemVO :=
  stable_sort columnLe (default [] (hint ≫= items)).

(** [{ ...item, range }]. *)
Definition withRange (item : ISqlEditorHintItemVO) (range : option Range) : ISqlEditorHintItemVO :=
  mkItem (rowIndex item) (columnIndex item) (fieldName item) (fieldType item) (defaultValue item)
    (label item) range (active item).

(** [{ ...hint, rowRange, valueRange, items }]. *)
Definition withRanges (hint : ISqlEditorHintVO) (rowRange valueRange : option Range)
    (items : list ISqlEditorHintItemVO) : ISqlEditorHintVO :=
  mkHint (type hint) (statementRange hint) rowRange valueRange (Some items).

(* ------------------------------------------------------------------ *)
(** ** Completing the values *)

(** [/\bvalues?\s*\(\s*$/i]: the index of the match and that of its parenthesis. *)
Fixpoint valuesOpenAtEnd (index : nat) (before : option N) (text : jstr) : option (nat * nat) :=
  match text with
  | [] => None
  | c :: rest =>
      match valuesMatchAt before text with
      | Some len =>
          if forallb is_space (drop len text) then Some (index, (index + len - 1)%nat)
          else valuesOpenAtEnd (S index) (Some c) rest
      | None => valuesOpenAtEnd (S index) (Some c) rest
      end
  end.

(** [/^\s*\)/]. *)
Definition closesFirst (text : jstr) : bool := startsWithChar RPAREN (trimStart text).

Definition getInsertValueAutoFill (sql : jstr) (cursor : Z)
    (editorHints : option (list ISqlEditorHintVO)) : option InsertValueAutoFill :=
  let safeCursor := Z.to_nat (Z.max 0 (Z.min cursor (Z.of_nat (length sql)))) in
  '(index, openingParenthesis) ← valuesOpenAtEnd 0 None (take safeCursor sql);
  let codeMask := sqlCodeMask sql in
  if negb (isCode codeMask index) || negb (isCode codeMask openingParenthesis) then None
  else
    let hint := js_find
      (λ candidate, isInsertValue candidate && hasActiveItem candidate
                    && isEmptyRange (valueRange candidate)) (default [] editorHints) in
    let items := orderItems hint in
    if bool_decide (items = []) || existsb noDefault items then None
    else
      let values := value <$> items in
      let valuesText := join (js ", ") values in
      let hasClosingParenthesis := closesFirst (drop safeCursor sql) in
      Some (mkAutoFill (valuesText ++ if hasClosingParenthesis then [] else [RPAREN])
              (length (default [] (head values))) (length valuesText)).

(* ------------------------------------------------------------------ *)
(** ** Ranges of completed values *)

(** The loop over the ordered items: the map of ranges and the final offset. *)
Fixpoint assignRanges (sql : jstr) (valueOffset : Z) (ranges : gmap Z Range)
    (orderedItems : list ISqlEditorHintItemVO) : gmap Z Range * Z :=
  match orderedItems with
  | [] => (ranges, valueOffset)
  | item :: rest =>
      let valueLength := Z.of_nat (length (value item)) in
      assignRanges sql (valueOffset + valueLength + (if bool_decide (rest = []) then 0 else 2))
        (<[columnIndex item := rangeAtOffsets sql valueOffset (valueOffset + valueLength)]> ranges)
        rest
  end.

(** The first column's range. *)
Definition firstRange (ranges : gmap Z Range) (orderedItems : list ISqlEditorHintItemVO)
    : option Range :=
  item ← head orderedItems; ranges !! columnIndex item.

Definition materializeInsertValueAutoFillHints (sql : jstr) (insertionOffset : Z)
    (editorHints : option (list ISqlEditorHintVO)) : list ISqlEditorHintVO :=
  let hints := default [] editorHints in
  match list_find (λ hint, isInsertValue hint && hasActiveItem hint = true) hints with
  | None => hints
  | Some (target, targetHint) =>
      let orderedItems := orderItems (Some targetHint) in
      if bool_decide (orderedItems = []) || existsb noDefault orderedItems then hints
      else
        let valueOffset := Z.max 0 (Z.min insertionOffset (Z.of_nat (length sql))) in
        let '(ranges, finalOffset) := assignRanges sql valueOffset ∅ orderedItems in
        let newItems := (λ item, withRange item (match ranges !! columnIndex item with
                                                 | Some r => Some r
                                                 | None => range item
                                                 end)) <$> default [] (items targetHint) in
        <[target := withRanges targetHint
                      (Some (rangeAtOffsets sql insertionOffset finalOffset))
                      (firstRange ranges orderedItems) newItems]> hints
  end.

(* ------------------------------------------------------------------ *)
(** ** Following the text *)

Definition sameValue (sql : jstr) (r : OffsetRange) (expected : jstr) : bool :=
  bool_decide (normalizeSqlValue (substring sql r) = normalizeSqlValue expected).

Definition matchesValues (sql : jstr) (expectedValues : list jstr) (ranges : list OffsetRange) : bool :=
  (length ranges =? length expectedValues)%nat
  && forallb (λ p, sameValue sql p.1 p.2) (zip ranges expectedValues).

Definition findValuesRow (sql : jstr) (expectedValues : list jstr) (preferredOffset : option Z)
    : option (list OffsetRange) :=
  let rows := findValuesRows sql in
  let matchingRows := filter (λ ranges, matchesValues sql expectedValues ranges = true) rows in
  match preferredOffset with
  | None => head (match matchingRows with [] => rows | _ => matchingRows end)
  | Some offset => i ← nearestRowIndex rows offset; rows !! i
  end.

(** The map of the ranges that are not empty. *)
Fixpoint matchedRanges (sql : jstr) (ranges : gmap Z Range)
    (orderedItems : list ISqlEditorHintItemVO) (matchingRanges : list OffsetRange) : gmap Z Range :=
  match orderedItems, matchingRanges with
  | item :: orderedItems, r :: matchingRanges =>
      matchedRanges sql
        (if (start r <? end_ r)%nat
         then <[columnIndex item := rangeAtOffsets sql (Z.of_nat (start r)) (Z.of_nat (end_ r))]> ranges
         else ranges) orderedItems matchingRanges
  | _, _ => ranges
  end.

Definition preferredRowOffset (sql : jstr) (hint : ISqlEditorHintVO) : option Z :=
  (λ r, offsetAtPosition sql (startLineNumber r) (startColumn r)) <$> rowRange hint.

Definition rematerializeInsertValueHint (sql : jstr) (targetHint : ISqlEditorHintVO)
    (assignedRanges : option (list OffsetRange)) : list ISqlEditorHintVO :=
  let orderedItems := orderItems (Some targetHint) in
  if bool_decide (orderedItems = []) || existsb noDefault orderedItems then []
  else
    let matchingRanges :=
      match assignedRanges with
      | Some ranges => Some ranges
      | None => findValuesRow sql (value <$> orderedItems) (preferredRowOffset sql targetHint)
      end in
    match matchingRanges with
    | None => []
    | Some matchingRanges =>
        let ranges := matchedRanges sql ∅ orderedItems matchingRanges in
        let newItems := (λ item, withRange item (ranges !! columnIndex item))
                          <$> default [] (items targetHint) in
        [withRanges targetHint
           (first ← head matchingRanges; final ← last matchingRanges;
            Some (rangeAtOffsets sql (Z.of_nat (start first)) (Z.of_nat (end_ final))))
           (firstRange ranges orderedItems) newItems]
    end.

Definition MAX_SAFE_INTEGER : Z := 9007199254740991.

Definition hintRowStartOffset (sql : jstr) (hint : ISqlEditorHintVO) : Z :=
  default MAX_SAFE_INTEGER (preferredRowOffset sql hint).

Definition targetHints (editorHints : option (list ISqlEditorHintVO)) : list ISqlEditorHintVO :=
  filter (λ hint, isInsertValue hint && hasItems hint = true) (default [] editorHints).

Definition rematerializeInsertValueHints (sql : jstr) (editorHints : option (list ISqlEditorHintVO))
    (previousSql : option jstr) : list ISqlEditorHintVO :=
  let previous := default [] previousSql in
  if bool_decide (previous = []) || bool_decide (previous = sql)
  then targetHints editorHints ≫= (λ hint, rematerializeInsertValueHint sql hint None)
  else
    let previousRows := findValuesRows previous in
    let currentRows := findValuesRows sql in
    targetHints editorHints ≫= (λ hint,
      let preferredOffset := hintRowStartOffset previous hint in
      rematerializeInsertValueHint sql hint
        (i ← nearestRowIndex previousRows preferredOffset; currentRows !! i)).

(** The body of the loop over the incoming hints. *)
Definition mergeHint (sql : jstr) (merged : list ISqlEditorHintVO) (incomingHint : ISqlEditorHintVO)
    : list ISqlEditorHintVO :=
  let incomingOffset := hintRowStartOffset sql incomingHint in
  match list_find (λ hint, hintRowStartOffset sql hint = incomingOffset) merged with
  | Some (existingIndex, _) => <[existingIndex := incomingHint]> merged
  | None => merged ++ [incomingHint]
  end.

Definition rowLe (sql : jstr) (left right : ISqlEditorHintVO) : bool :=
  hintRowStartOffset sql left - hintRowStartOffset sql right <=? 0.

Definition mergeInsertValueHints (sql : jstr)
    (existingHints incomingHints : option (list ISqlEditorHintVO)) : list ISqlEditorHintVO :=
  stable_sort (rowLe sql)
    (fold_left (mergeHint sql) (targetHints incomingHints)
       (rematerializeInsertValueHints sql existingHints None)).

(* ------------------------------------------------------------------ *)
(** ** Offsets and positions *)

(** The text an editor range selects. *)
Definition textOfRange (sql : jstr) (r : Range) : jstr :=
  let s := Z.to_nat (offsetAtPosition sql (startLineNumber r) (startColumn r)) in
  let e := Z.to_nat (offsetAtPosition sql (endLineNumber r) (endColumn r)) in
  take (e - s) (drop s sql).

Lemma lineOffset_here l off t : lineOffset l l off t = off.
Proof. destruct t; [done|]. cbn. by rewrite Z.ltb_irrefl. Qed.

Lemma positionFrom_spec n : ∀ l c off t,
  (n ≤ length t)%nat → let p := positionFrom l c n t in
  lineNumber p = l ∧ column p = c + Z.of_nat n ∨
  l < lineNumber p ∧ 1 ≤ column p ∧
  Z.of_nat (lineOffset l (lineNumber p) off t) + column p - 1 = Z.of_nat off + Z.of_nat n.
Proof.
  induction n as [|n IH]; intros l c off t Hn; cbn; [left; cbn; lia|].
  destruct t as [|x t]; [cbn in Hn; lia|]. cbn in Hn.
  destruct (x =? LF)%N eqn:E.
  - destruct (IH (l + 1) 1 (S off) t) as [[Hl Hc]|(Hl & Hc & H)]; [lia| |].
    + right. rewrite Hl, Hc. split_and!; [lia..|]. cbn [lineOffset].
      rewrite (proj2 (Z.ltb_lt l (l + 1))), E, lineOffset_here by lia. lia.
    + right. split_and!; [lia..|]. cbn [lineOffset].
      rewrite (proj2 (Z.ltb_lt _ _)), E by lia. lia.
  - destruct (IH l (c + 1) (S off) t) as [[Hl Hc]|(Hl & Hc & H)]; [lia| |].
    + left. rewrite Hl, Hc. lia.
    + right. split_and!; [done..|]. cbn [lineOffset]. rewrite (proj2 (Z.ltb_lt _ _)), E by lia. lia.
Qed.

Lemma position_roundtrip sql o :
  0 ≤ o ≤ Z.of_nat (length sql) →
  offsetAtPosition sql (lineNumber (positionAtOffset sql o)) (column (positionAtOffset sql o)) = o.
Proof.
  intros Ho. unfold positionAtOffset. rewrite Z.min_l, Z.max_r by lia.
  unfold offsetAtPosition.
  destruct (positionFrom_spec (Z.to_nat o) 1 1 0 sql) as [[Hl Hc]|(Hl & Hc & H)]; [lia| |].
  - rewrite Hl, Hc. change (Z.max 1 1) with 1. rewrite lineOffset_here. lia.
  - rewrite !Z.max_r by lia. lia.
Qed.

Lemma textOfRange_offsets sql s e :
  (s ≤ length sql)%nat → (e ≤ length sql)%nat →
  textOfRange sql (rangeAtOffsets sql (Z.of_nat s) (Z.of_nat e)) = take (e - s) (drop s sql).
Proof.
  intros Hs He. unfold textOfRange, rangeAtOffsets. cbn [startLineNumber startColumn endLineNumber endColumn].
  rewrite !position_roundtrip by lia. by rewrite !Nat2Z.id.
Qed.

(** A position of the editor and an offset of the text are two names for
    the same place: the offset of the position of an offset is that offset. *)
Theorem offset_position_roundtrip sql o :
  0 ≤ o ≤ Z.of_nat (length sql) →
  let p := positionAtOffset sql o in
  offsetAtPosition sql (lineNumber p) (column p) = o ∧ 1 ≤ lineNumber p ∧ 1 ≤ column p.
Proof.
  intros Ho p. split; [by apply position_roundtrip|]. unfold p, positionAtOffset.
  destruct (positionFrom_spec (Z.to_nat (Z.max 0 (Z.min o (Z.of_nat (length sql))))) 1 1 0 sql)
    as [[Hl Hc]|(Hl & Hc & _)]; lia.
Qed.

Example offset_position_roundtrip_witness :
  offsetAtPosition (js "ab" ++ LF :: js "cd") 2 2 = 4.
Proof. apply (offset_position_roundtrip (js "ab" ++ LF :: js "cd") 4). by vm_compute. Defined.

(* ------------------------------------------------------------------ *)
(** ** Completed values *)

Lemma take_drop_middle_app (pre v post : jstr) n m :
  n = length pre → m = length v → take m (drop n (pre ++ v ++ post)) = v.
Proof. intros -> ->. by rewrite drop_app_length, take_app_length. Qed.

Lemma join_cons_cons sep v w vs : join sep (v :: w :: vs) = v ++ sep ++ join sep (w :: vs).
Proof. done. Qed.

Lemma assignRanges_spec sql its : ∀ pre post ranges,
  sql = pre ++ join (js ", ") (value <$> its) ++ post → NoDup (columnIndex <$> its) →
  let res := assignRanges sql (Z.of_nat (length pre)) ranges its in
  res.2 = Z.of_nat (length pre + length (join (js ", ") (value <$> its))) ∧
  (∀ k, k ∉ columnIndex <$> its → res.1 !! k = ranges !! k) ∧
  (∀ item, item ∈ its → ∃ r, res.1 !! columnIndex item = Some r ∧ textOfRange sql r = value item).
Proof.
  induction its as [|item its IH]; intros pre post ranges Hsql Hnd.
  { cbn. split_and!; [lia|done|]. intros item Hi. by apply elem_of_nil in Hi. }
  cbn [fmap list_fmap] in Hnd. apply NoDup_cons in Hnd as [Hk Hnd]. cbn [assignRanges].
  set (here := rangeAtOffsets sql _ _).
  assert (textOfRange sql here = value item ∧ (length pre + length (value item) ≤ length sql)%nat) as [Hhere _].
  { assert (∃ post', sql = pre ++ value item ++ post') as [post' Hs].
    { rewrite Hsql. destruct its as [|i2 its]; cbn [fmap list_fmap].
      - by exists post.
      - rewrite join_cons_cons, <-!(assoc_L (++)). eauto. }
    assert (length pre + length (value item) ≤ length sql)%nat
      by (rewrite Hs, !length_app; lia).
    split; [|done]. unfold here. rewrite <-Nat2Z.inj_add, textOfRange_offsets by lia.
    rewrite Hs. apply take_drop_middle_app; lia. }
  clearbody here. destruct its as [|i2 its].
  - cbn [assignRanges fmap list_fmap join fst snd]. rewrite bool_decide_eq_true_2 by done.
    split_and!; [lia| |].
    + intros k Hk'. rewrite lookup_insert_ne; [done|]. set_solver.
    + intros i Hi. apply list_elem_of_singleton in Hi as ->. exists here. by rewrite lookup_insert_eq.
  - rewrite bool_decide_eq_false_2 by done.
    specialize (IH (pre ++ value item ++ js ", ") post (<[columnIndex item := here]> ranges)).
    destruct IH as (H1 & H2 & H3).
    { rewrite Hsql. cbn [fmap list_fmap]. by rewrite join_cons_cons, <-!(assoc_L (++)). }
    { done. }
    replace (Z.of_nat (length pre) + Z.of_nat (length (value item)) + 2)
      with (Z.of_nat (length (pre ++ value item ++ js ", "))) by (rewrite !length_app; change (length (js ", ")) with 2%nat; lia).
    split_and!.
    + rewrite H1. cbn [fmap list_fmap]. rewrite join_cons_cons, !length_app. lia.
    + intros k Hk'. rewrite H2 by set_solver. rewrite lookup_insert_ne; [done|]. set_solver.
    + intros i Hi. apply elem_of_cons in Hi as [->|Hi]; [|by apply H3].
      exists here. rewrite H2 by done. by rewrite lookup_insert_eq.
Qed.

#[export] Instance columnLe_preorder : Preorder columnLe.
Proof.
  split; unfold columnLe; intros *; rewrite !Z.leb_le; lia.
Qed.

Lemma orderItems_perm its hint : items hint = Some its → orderItems (Some hint) ≡ₚ its.
Proof. intros H. unfold orderItems. cbn. rewrite H. apply stable_sort_perm. Qed.

Lemma existsb_noDefault its : Forall (λ i, noDefault i = false) its → existsb noDefault its = false.
Proof. induction 1 as [|i its Hi _ IH]; [done|]. cbn. by rewrite Hi. Qed.

Lemma existsb_perm {A} (f : A → bool) xs ys : xs ≡ₚ ys → existsb f xs = existsb f ys.
Proof.
  intros H. apply eq_iff_eq_true. rewrite !existsb_exists.
  setoid_rewrite <-list_elem_of_In. by setoid_rewrite H.
Qed.

Lemma insert_middle {A} (xs ys : list A) x y : <[length xs := y]> (xs ++ x :: ys) = xs ++ y :: ys.
Proof.
  rewrite insert_app_r_alt by lia. by rewrite Nat.sub_diag.
Qed.

(** After the default values of a row are inserted into the text, the
    ranges of the first active hint select them: each item's range selects
    exactly its default value, the row's range the whole list and the value
    range the first column; nothing else of the hints changes. *)
Theorem materialized_ranges sql pre post before target after its :
  Forall (λ h, isInsertValue h && hasActiveItem h = false) before →
  isInsertValue target && hasActiveItem target = true →
  items target = Some its → Forall (λ i, noDefault i = false) its → NoDup (columnIndex <$> its) →
  let ordered := orderItems (Some target) in
  let valuesText := join (js ", ") (value <$> ordered) in
  sql = pre ++ valuesText ++ post →
  ∃ row first newItems,
    materializeInsertValueAutoFillHints sql (Z.of_nat (length pre)) (Some (before ++ target :: after))
    = before ++ withRanges target (Some row) (Some first) newItems :: after ∧
    textOfRange sql row = valuesText ∧
    (∃ item, head ordered = Some item ∧ textOfRange sql first = value item) ∧
    Forall2 (λ item item', ∃ r, item' = withRange item (Some r) ∧ textOfRange sql r = value item)
      its newItems.
Proof.
  intros Hbefore Htarget Hits Hdef Hnd ordered valuesText Hsql.
  assert (ordered ≡ₚ its) as Hperm by by apply orderItems_perm.
  assert (its ≠ []) as Hne.
  { intros ->. unfold hasActiveItem in Htarget. rewrite Hits, andb_false_r in Htarget. done. }
  assert (∃ o1 orest, ordered = o1 :: orest) as (o1 & orest & Ho).
  { destruct ordered as [|o1 orest]; [|eauto]. by apply Permutation_nil_l in Hperm. }
  unfold materializeInsertValueAutoFillHints. cbn [default from_option id].
  assert (list_find (λ hint, isInsertValue hint && hasActiveItem hint = true)
    (before ++ target :: after) = Some (length before, target)) as ->.
  { apply list_find_app_Some. right. split; [done|]. rewrite Nat.sub_diag, list_find_None. split.
    - eapply Forall_impl; [exact Hbefore|]. cbn. congruence.
    - cbn. by rewrite decide_True. }
  fold ordered. rewrite bool_decide_eq_false_2 by (by rewrite Ho).
  rewrite (existsb_perm _ _ _ Hperm), existsb_noDefault by done. cbn [orb].
  assert (length pre + length valuesText ≤ length sql)%nat as Hlen by (rewrite Hsql, !length_app; lia).
  rewrite Z.min_l, Z.max_r by lia.
  pose proof (assignRanges_spec sql ordered pre post ∅ Hsql) as Hspec.
  destruct Hspec as (Hoff & _ & Hranges); [by rewrite Hperm|].
  destruct (assignRanges _ _ _ ordered) as [ranges off]. cbn [fst snd] in *. subst off.
  destruct (Hranges o1) as (first & Hfirst & Htext); [rewrite Ho; left|].
  assert (firstRange ranges ordered = Some first) as -> by (unfold firstRange; by rewrite Ho).
  eexists _, first, _. split_and!.
  - by rewrite insert_middle.
  - fold valuesText. rewrite textOfRange_offsets by lia. rewrite Hsql.
    apply take_drop_middle_app; lia.
  - exists o1. by rewrite Ho.
  - rewrite Hits. cbn [default from_option id]. apply Forall2_fmap_r, Forall_Forall2_diag.
    apply Forall_forall. intros item Hi. destruct (Hranges item) as (r & Hr & Ht).
    { by rewrite Hperm. }
    exists r. by rewrite Hr.
Qed.

Definition sample_item (column : Z) (v : string) (isActive : bool) : ISqlEditorHintItemVO :=
  mkItem 0 column None None (Some (js v)) None None (Some isActive).

Definition sample_hint : ISqlEditorHintVO :=
  mkHint (js "INSERT_VALUE") None None (Some (mkRange 1 9 1 9))
    (Some [sample_item 1 "'x'" false; sample_item 0 "42" true]).

Example materialized_ranges_witness :
  ∃ row first newItems,
    materializeInsertValueAutoFillHints (js "values (42, 'x')") 8 (Some [sample_hint])
    = [withRanges sample_hint (Some row) (Some first) newItems] ∧
    textOfRange (js "values (42, 'x')") row = js "42, 'x'".
Proof.
  destruct (materialized_ranges (js "values (42, 'x')") (js "values (") (js ")") [] sample_hint []
    [sample_item 1 "'x'" false; sample_item 0 "42" true])
    as (row & first & newItems & H & Ht & _).
  - constructor.
  - by vm_compute.
  - done.
  - by repeat constructor.
  - compute_done.
  - by vm_compute.
  - exists row, first, newItems. split; [exact H|]. rewrite Ht. by vm_compute.
Defined.

(* ------------------------------------------------------------------ *)
(** ** Merging *)

#[export] Instance rowLe_preorder sql : Preorder (rowLe sql).
Proof.
  split; unfold rowLe; intros *; rewrite !Z.leb_le; lia.
Qed.

Section merge.
Context (sql : jstr).
Notation row := (hintRowStartOffset sql).

Lemma mergeHint_cases merged h :
  (∃ xs y ys, merged = xs ++ y :: ys ∧ row y = row h ∧ (∀ x, x ∈ xs → row x ≠ row h) ∧
     mergeHint sql merged h = xs ++ h :: ys) ∨
  ((∀ x, x ∈ merged → row x ≠ row h) ∧ mergeHint sql merged h = merged ++ [h]).
Proof.
  unfold mergeHint. destruct (list_find _ merged) as [[i y]|] eqn:E.
  - left. apply list_find_Some in E as (Hy & Hrow & Hbefore).
    pose proof (take_drop_middle _ _ _ Hy) as Hm.
    assert (i = length (take i merged)) as Hi.
    { rewrite length_take_le; [done|]. apply lookup_lt_Some in Hy. lia. }
    exists (take i merged), y, (drop (S i) merged). split_and!; [done..| |].
    + intros x Hx. apply list_elem_of_lookup in Hx as [j Hj]. apply lookup_take_Some in Hj as [Hj Hlt].
      by apply (Hbefore j).
    + rewrite <-Hm at 1. rewrite Hi at 1. apply insert_middle.
  - right. split; [|done]. apply list_find_None in E. by rewrite Forall_forall in E.
Qed.

Lemma mergeHint_self merged h : h ∈ mergeHint sql merged h.
Proof. destruct (mergeHint_cases merged h) as [(?&?&?&_&_&_& ->)|[_ ->]]; set_solver. Qed.

Lemma mergeHint_elem merged h x : x ∈ mergeHint sql merged h → x ∈ merged ∨ x = h.
Proof. destruct (mergeHint_cases merged h) as [(?&?&?&->&_&_& ->)|[_ ->]]; set_solver. Qed.

Lemma mergeHint_other merged h x : x ∈ merged → row x ≠ row h → x ∈ mergeHint sql merged h.
Proof.
  destruct (mergeHint_cases merged h) as [(xs & y & ys & -> & Hy & _ & ->)|[_ ->]]; [|set_solver].
  rewrite !elem_of_app, !elem_of_cons. intros [?|[->|?]] Hx; auto. congruence.
Qed.

Lemma mergeHint_NoDup merged h : NoDup (row <$> merged) → NoDup (row <$> mergeHint sql merged h).
Proof.
  destruct (mergeHint_cases merged h) as [(xs & y & ys & -> & Hy & _ & ->)|[Hno ->]].
  - by rewrite !fmap_app, !fmap_cons, Hy.
  - rewrite fmap_app. intros Hnd. apply NoDup_app. split_and!; [done| |apply NoDup_singleton].
    intros o (x & -> & Hx)%list_elem_of_fmap. cbn. rewrite list_elem_of_singleton. by apply Hno.
Qed.

Lemma mergeAll_elem incoming : ∀ merged x,
  x ∈ fold_left (mergeHint sql) incoming merged → x ∈ merged ∨ x ∈ incoming.
Proof.
  induction incoming as [|h incoming IH]; intros merged x; cbn; [auto|].
  intros [[?| ->]%mergeHint_elem|?]%IH; set_solver.
Qed.

Lemma mergeAll_other incoming : ∀ merged x,
  x ∈ merged → (∀ h, h ∈ incoming → row x ≠ row h) → x ∈ fold_left (mergeHint sql) incoming merged.
Proof.
  induction incoming as [|h incoming IH]; intros merged x Hx Hno; cbn; [done|].
  apply IH; [|set_solver]. apply mergeHint_other; [done|]. apply Hno. left.
Qed.

Lemma mergeAll_NoDup incoming : ∀ merged,
  NoDup (row <$> merged) → NoDup (row <$> fold_left (mergeHint sql) incoming merged).
Proof.
  induction incoming as [|h incoming IH]; intros merged H; cbn; [done|].
  by apply IH, mergeHint_NoDup.
Qed.
End merge.

(** Merging keeps the hints in the order of their rows; they come from
    either side; the latest incoming hint of a row wins, the existing hints of
    other rows stay, and rows that were distinct remain so. *)
Theorem merge_hints_spec sql existing incoming :
  let row := hintRowStartOffset sql in
  let old := rematerializeInsertValueHints sql existing None in
  let merged := mergeInsertValueHints sql existing incoming in
  StronglySorted (λ a b, row a ≤ row b) merged ∧
  (∀ h, h ∈ merged → h ∈ old ∨ h ∈ targetHints incoming) ∧
  (∀ pre h post, targetHints incoming = pre ++ h :: post → (∀ x, x ∈ post → row h ≠ row x) →
     h ∈ merged) ∧
  (∀ h, h ∈ old → (∀ x, x ∈ targetHints incoming → row h ≠ row x) → h ∈ merged) ∧
  (NoDup (row <$> old) → NoDup (row <$> merged)).
Proof.
  intros row old merged. unfold merged, mergeInsertValueHints. fold old.
  split; [|split_and!; setoid_rewrite stable_sort_perm].
  - eapply StronglySorted_impl; [|apply stable_sort_sorted, _].
    intros a b. unfold rowLe, row. cbn beta. rewrite Z.leb_le. lia.
  - intros h Hh. by apply mergeAll_elem in Hh.
  - intros pre h post -> Hpost. rewrite fold_left_app. cbn. apply mergeAll_other; [|done].
    apply mergeHint_self.
  - intros h Hh Hno. by apply mergeAll_other.
  - by apply mergeAll_NoDup.
Qed.
