(* ===== verification/SqlValuesRow.v ===== *)
(** * SqlValuesRow: the values of a row against a grammar

    The reference for [scanValuesRow]: a row written as cells separated by
    commas and closed by a parenthesis, where the brackets of a cell are
    balanced and its commas stay inside them.  Characters carry the mask of
    [sqlCodeMask]; masked ones are free. *)

From S2P Require Import Prelude SqlText.
Local Open Scope nat_scope.

(* ------------------------------------------------------------------ *)
(** ** Cells *)

(** A character and whether it is code. *)
Notation mchar := (N * bool)%type.

Definition opening (c : N) : Prop := c = LPAREN ∨ c = LBRACKET.
Definition closing (c : N) : Prop := c = RPAREN ∨ c = RBRACKET.

(** [nested true] is the text inside brackets, [nested false] a cell. *)
Inductive nested (inside : bool) : list mchar → Prop :=
  | nested_nil : nested inside []
  | nested_char c code t :
      (code = true → ¬ opening c ∧ ¬ closing c ∧ (inside = false → c ≠ COMMA)) →
      nested inside t → nested inside ((c, code) :: t)
  | nested_group o inner c t :
      opening o → closing c → nested true inner → nested inside t →
      nested inside ((o, true) :: inner ++ (c, true) :: t).

Fixpoint cellsText (cells : list (list mchar)) : list mchar :=
  match cells with
  | [] => []
  | [cell] => cell
  | cell :: cells => cell ++ (COMMA, true) :: cellsText cells
  end.

(* ------------------------------------------------------------------ *)
(** ** Trimming *)

Lemma trimStart_split t :
  ∃ s, t = s ++ trimStart t ∧ Forall (λ c, is_space c = true) s ∧
    (∀ c, head (trimStart t) = Some c → is_space c = false).
Proof.
  induction t as [|c t (s & Ht & Hs & Hh)]; cbn; [by exists []|].
  destruct (is_space c) eqn:E.
  - exists (c :: s). split_and!; [cbn; by rewrite <-Ht|by constructor|done].
  - exists []. split_and!; [done..|]. cbn. by intros ? [= <-].
Qed.

Lemma trimEnd_split t :
  ∃ s, t = trimEnd t ++ s ∧ Forall (λ c, is_space c = true) s ∧
    (∀ c, last (trimEnd t) = Some c → is_space c = false).
Proof.
  destruct (trimStart_split (reverse t)) as (s & Ht & Hs & Hh). exists (reverse s). unfold trimEnd.
  split_and!.
  - by rewrite <-reverse_app, <-Ht, reverse_involutive.
  - by apply Forall_reverse.
  - intros c. rewrite last_reverse. apply Hh.
Qed.

Lemma lookup_middle_app (pre : jstr) c post n : n = length pre → (pre ++ c :: post) !! n = Some c.
Proof. intros ->. by apply list_lookup_middle. Qed.

Lemma trimLeft_spec s : ∀ pre t post,
  Forall (λ c, is_space c = true) s → (∀ c, head t = Some c → is_space c = false) →
  trimLeft (pre ++ (s ++ t) ++ post) (length pre) (length (s ++ t)) = length (pre ++ s).
Proof.
  induction s as [|c s IH]; intros pre t post Hs Ht.
  - rewrite app_nil_r. destruct t as [|c t]; [done|]. cbn [app length trimLeft].
    rewrite lookup_middle_app by done. by rewrite Ht.
  - apply Forall_cons in Hs as [Hc Hs]. cbn [app length trimLeft].
    rewrite lookup_middle_app, Hc by done.
    rewrite cons_middle, (assoc_L (++) pre).
    replace (S (length pre)) with (length (pre ++ [c])) by (rewrite length_app; cbn; lia).
    rewrite IH by done. by rewrite <-(assoc_L (++)).
Qed.

Lemma trimRight_step a c b n :
  trimRight (a ++ c :: b) (S (length a)) (S n)
  = if is_space c then trimRight (a ++ c :: b) (length a) n else S (length a).
Proof. cbn [trimRight]. by rewrite Nat.sub_succ, Nat.sub_0_r, lookup_middle_app. Qed.

Lemma length_snoc {A} (xs : list A) x : length (xs ++ [x]) = S (length xs).
Proof. rewrite length_app. cbn. lia. Qed.

Lemma trimRight_spec s : ∀ pre t post,
  Forall (λ c, is_space c = true) s → (∀ c, last t = Some c → is_space c = false) →
  trimRight (pre ++ (t ++ s) ++ post) (length (pre ++ t ++ s)) (length (t ++ s)) = length (pre ++ t).
Proof.
  induction s as [|c s IH] using rev_ind; intros pre t post Hs Ht.
  - rewrite !app_nil_r. destruct t as [|c t _] using rev_ind; [by rewrite app_nil_r|].
    replace (length (pre ++ t ++ [c])) with (S (length (pre ++ t)))
      by (rewrite !length_app; cbn; lia).
    rewrite length_snoc, <-(assoc_L (++) t), (assoc_L (++) pre). cbn [app].
    rewrite trimRight_step, Ht by apply last_snoc. done.
  - apply Forall_app in Hs as [Hs Hc]. rewrite Forall_singleton in Hc.
    assert (pre ++ (t ++ s ++ [c]) ++ post = (pre ++ t ++ s) ++ c :: post) as Heq
      by (by rewrite <-!(assoc_L (++))).
    replace (length (pre ++ t ++ s ++ [c])) with (S (length (pre ++ t ++ s)))
      by (rewrite !length_app; cbn; lia).
    replace (length (t ++ s ++ [c])) with (S (length (t ++ s))) by (rewrite !length_app; cbn; lia).
    rewrite Heq, trimRight_step, Hc. specialize (IH pre t (c :: post) Hs Ht).
    rewrite <-!(assoc_L (++)) in IH. by rewrite <-!(assoc_L (++)).
Qed.

(** Trimming the offsets is trimming the text. *)
Lemma trimOffsetRange_spec pre cell post :
  let r := trimOffsetRange (pre ++ cell ++ post) (length pre) (length pre + length cell) in
  substring (pre ++ cell ++ post) r = trim cell ∧
  length pre ≤ start r ∧ start r ≤ end_ r ∧ end_ r ≤ length pre + length cell.
Proof.
  destruct (trimStart_split cell) as (s & Hcell & Hs & Hhead).
  destruct (trimEnd_split (trimStart cell)) as (s' & Ht & Hs' & Hlast).
  set (t := trimStart cell) in *. unfold trim. fold t. set (u := trimEnd t) in *. clearbody t u.
  unfold trimOffsetRange. rewrite Nat.add_comm, Nat.add_sub. subst cell.
  rewrite trimLeft_spec by done. subst t.
  replace (length (s ++ u ++ s') + length pre - length (pre ++ s)) with (length (u ++ s'))
    by (rewrite !length_app; lia).
  replace (length (s ++ u ++ s') + length pre) with (length ((pre ++ s) ++ u ++ s'))
    by (rewrite !length_app; lia).
  replace (pre ++ (s ++ u ++ s') ++ post) with ((pre ++ s) ++ (u ++ s') ++ post)
    by (by rewrite <-!(assoc_L (++))).
  rewrite trimRight_spec by done. cbn [start end_]. split_and!.
  - unfold substring. cbn [start end_]. rewrite drop_app_length, (length_app _ u), Nat.add_comm, Nat.add_sub.
    by rewrite <-(assoc_L (++)), take_app_length.
  - rewrite length_app. lia.
  - rewrite (length_app _ u). lia.
  - rewrite !length_app. lia.
Qed.

(* ------------------------------------------------------------------ *)
(** ** Scanning *)

#[export] Instance opening_dec c : Decision (opening c).
Proof. unfold opening. apply _. Defined.
#[export] Instance closing_dec c : Decision (closing c).
Proof. unfold closing. apply _. Defined.

Lemma opening_test c : (c =? LPAREN)%N || (c =? LBRACKET)%N = bool_decide (opening c).
Proof. apply eq_iff_eq_true. rewrite orb_true_iff, !N.eqb_eq, bool_decide_eq_true. done. Qed.

Lemma closing_test c : (c =? RPAREN)%N || (c =? RBRACKET)%N = bool_decide (closing c).
Proof. apply eq_iff_eq_true. rewrite orb_true_iff, !N.eqb_eq, bool_decide_eq_true. done. Qed.

Lemma closing_not_opening c : closing c → ¬ opening c.
Proof. by intros [-> | ->] [?|?]. Qed.

Section scanning.
Context (sql : jstr).
Notation scan := (scanValuesFrom sql).

Lemma scan_open i vs d o rest mask :
  opening o → scan i vs d (o :: rest) (true :: mask) = scan (S i) vs (S d) rest mask.
Proof. intros H. cbn. by rewrite opening_test, bool_decide_eq_true_2. Qed.

Lemma scan_close i vs d c rest mask :
  closing c → scan i vs (S d) (c :: rest) (true :: mask) = scan (S i) vs d rest mask.
Proof.
  intros H. cbn. rewrite opening_test, closing_test, bool_decide_eq_false_2, bool_decide_eq_true_2;
    auto using closing_not_opening. cbn. by rewrite Nat.sub_0_r.
Qed.

Lemma scan_masked i vs d c rest mask :
  scan i vs d (c :: rest) (false :: mask) = scan (S i) vs d rest mask.
Proof. done. Qed.

Lemma scan_plain i vs d c rest mask :
  ¬ opening c → ¬ closing c → (c ≠ COMMA ∨ 0 < d) →
  scan i vs d (c :: rest) (true :: mask) = scan (S i) vs d rest mask.
Proof.
  intros Ho Hc Hcomma. cbn. rewrite opening_test, closing_test, !bool_decide_eq_false_2 by done.
  cbn [andb]. assert ((c =? COMMA)%N && (d =? 0) = false) as ->.
  { apply andb_false_iff. rewrite N.eqb_neq, Nat.eqb_neq. destruct Hcomma; [auto|lia]. }
  assert ((c =? RPAREN)%N = false) as ->; [|done].
  apply N.eqb_neq. intros ->. by apply Hc; left.
Qed.

Lemma scan_nested inside t rest mask :
  nested inside t → ∀ i vs d, (inside = true → 0 < d) →
  scan i vs d (t.*1 ++ rest) (t.*2 ++ mask) = scan (i + length t) vs d rest mask.
Proof.
  intros Ht. revert rest mask.
  induction Ht as [inside|inside c code t Hc Ht IH|inside o inner c t Ho Hc Hi IHi Ht IHt];
    intros rest mask i vs d Hd.
  - by rewrite Nat.add_0_r.
  - cbn [fmap list_fmap fst snd app length]. rewrite Nat.add_succ_r, <-Nat.add_succ_l, <-IH by done.
    destruct code; [|apply scan_masked]. destruct (Hc eq_refl) as (? & ? & Hcomma).
    apply scan_plain; [done..|]. destruct inside; auto.
  - cbn [fmap list_fmap fst snd app length]. rewrite scan_open, !fmap_app, <-!(assoc_L (++)), IHi by (done || lia).
    cbn [fmap list_fmap fst snd app]. rewrite scan_close, IHt by done. f_equal.
    rewrite length_app. cbn. lia.
Qed.

Lemma scan_comma i vs rest mask :
  scan i vs 0 (COMMA :: rest) (true :: mask)
  = trimOffsetRange sql vs i :: scan (S i) (S i) 0 rest mask.
Proof. done. Qed.

Lemma scan_end i vs tail :
  tail = [] ∧ i = length sql ∨ (∃ post, tail = (RPAREN, true) :: post) →
  scan i vs 0 tail.*1 tail.*2 = [trimOffsetRange sql vs i].
Proof. by intros [[-> ->]|[post ->]]. Qed.
End scanning.

Definition row_tail (tail : list mchar) : Prop := tail = [] ∨ ∃ post, tail = (RPAREN, true) :: post.

(** The scan at a cell, its comma or the end of the row following. *)
Lemma scan_cells cells tail : ∀ sql pre,
  cells ≠ [] → Forall (nested false) cells → row_tail tail →
  sql = pre ++ (cellsText cells ++ tail).*1 →
  let ranges := scanValuesFrom sql (length pre) (length pre) 0 (cellsText cells ++ tail).*1
                  (cellsText cells ++ tail).*2 in
  substring sql <$> ranges = (λ cell, trim cell.*1) <$> cells ∧
  Forall (λ r, length pre ≤ start r ≤ end_ r ∧ end_ r ≤ length pre + length (cellsText cells)) ranges.
Proof.
  induction cells as [|cell cells IH]; intros sql pre Hne Hcells Htail Hsql; [done|].
  apply Forall_cons in Hcells as [Hcell Hcells].
  destruct cells as [|cell2 cells].
  - cbn [cellsText] in *. rewrite !fmap_app, (scan_nested sql false) by done. rewrite scan_end.
    + pose proof (trimOffsetRange_spec pre cell.*1 tail.*1) as Hr.
      rewrite fmap_app in Hsql. rewrite <-Hsql, length_fmap in Hr. destruct Hr as (H1 & H2).
      cbn [fmap list_fmap]. rewrite H1. split; [done|]. apply Forall_singleton. lia.
    + destruct Htail as [-> | ?]; [left|by right]. split; [done|].
      by rewrite Hsql, !length_app, length_fmap, length_app, Nat.add_0_r.
  - set (others := cell2 :: cells) in *.
    change (cellsText (cell :: others)) with (cell ++ (COMMA, true) :: cellsText others) in *.
    assert (∀ A (f : mchar → A), f <$> (cell ++ (COMMA, true) :: cellsText others) ++ tail
      = (f <$> cell) ++ f (COMMA, true) :: (f <$> cellsText others ++ tail)) as Hf.
    { intros A f. by rewrite <-(assoc_L (++)), fmap_app. }
    rewrite !Hf in *. cbn [fst snd] in *. rewrite (scan_nested sql false), scan_comma by done.
    destruct (IH sql (pre ++ cell.*1 ++ [COMMA])) as (H1 & H2); [done..| |].
    { by rewrite Hsql, <-!(assoc_L (++)). }
    replace (S (length pre + length cell)) with (length (pre ++ cell.*1 ++ [COMMA]))
      by (rewrite !length_app, length_fmap; cbn; lia).
    pose proof (trimOffsetRange_spec pre cell.*1 (COMMA :: (cellsText others ++ tail).*1)) as Hr.
    rewrite <-Hsql, length_fmap in Hr. destruct Hr as (H3 & H4).
    cbn [fmap list_fmap]. rewrite H3. split; [f_equal; exact H1|].
    constructor; [rewrite !length_app; lia|]. eapply Forall_impl; [exact H2|]. cbn beta.
    intros r. rewrite !length_app, length_fmap. cbn [length]. lia.
Qed.

(** The values of a row are found exactly: in a row of cells with balanced
    brackets the scanner returns one range per cell, in order, and each selects
    the cell's text without the white space around it; masked characters never
    end a cell, and a row without its closing parenthesis ends with the text. *)
Theorem values_row_cells pre cells tail :
  cells ≠ [] → Forall (nested false) cells → row_tail tail →
  let chars := pre ++ cellsText cells ++ tail in
  let sql := chars.*1 in
  let ranges := scanValuesRow sql (length pre) chars.*2 in
  substring sql <$> ranges = (λ cell, trim cell.*1) <$> cells ∧
  Forall (λ r, length pre ≤ start r ≤ end_ r ∧ end_ r ≤ length pre + length (cellsText cells)) ranges.
Proof.
  intros Hne Hcells Htail chars sql. unfold scanValuesRow, sql, chars.
  rewrite !(fmap_app _ pre), !drop_app_length' by by rewrite length_fmap.
  pose proof (scan_cells cells tail (pre.*1 ++ (cellsText cells ++ tail).*1) pre.*1 Hne Hcells Htail eq_refl) as H.
  by rewrite length_fmap in H.
Qed.

(** A text with its mask. *)
Definition withMask (sql : jstr) : list mchar := zip sql (sqlCodeMask sql).

Example values_row_cells_witness :
  let sql := js "values (1, f(2, 3) , 'a)')" in
  substring sql <$> scanValuesRow sql 8 (sqlCodeMask sql) = [js "1"; js "f(2, 3)"; js "'a)'"].
Proof.
  refine (proj1 (values_row_cells (withMask (js "values ("))
    [withMask (js "1"); withMask (js " f(2, 3) "); withMask (js " 'a)'")] [(RPAREN, true)] _ _ _)).
  - done.
  - assert (∀ c, bool_decide (opening c ∨ closing c ∨ c = COMMA) = false →
      true = true → ¬ opening c ∧ ¬ closing c ∧ (false = false → c ≠ COMMA)) as Hplain.
    { intros c. rewrite bool_decide_eq_false. tauto. }
    repeat (apply Forall_cons; split); [| | |by constructor].
    + by repeat (apply nested_char; [by apply Hplain|]); constructor.
    + do 2 (apply nested_char; [by apply Hplain|]).
      apply (nested_group _ LPAREN [(50%N, true); (COMMA, true); (32%N, true); (51%N, true)] RPAREN
        [(32%N, true)]); [by left|by left| |].
      * repeat (apply nested_char; [intros _; split_and!; [by intros [?|?]..|done]|]). constructor.
      * apply nested_char; [by apply Hplain|constructor].
    + apply nested_char; [by apply Hplain|]. repeat (apply nested_char; [done|]). constructor.
  - right. by exists [].
Defined.
