(* ===== verification/LocalFileSave.v ===== *)
(** * LocalFileSave: one write at a time per file

    Models [apps/community-client/src/utils/localFileSaveCoordinator.ts]: the
    key of a file ([getLocalFileSaveKey]) and the class
    [LocalFileSaveCoordinator], which runs the writes of a file one after the
    other and merges the saves that wait.

    The steps are the pieces of code that run without interruption: a call of
    [save], which includes the drain up to its first [await], and the
    settlement of the write in progress, which includes the drain up to the next
    one.  A mutation that throws at once is a [save] followed by its failure. *)

From stdpp Require Import gmap.
From S2P Require Import Prelude SqlText.
Local Open Scope nat_scope.

(* ------------------------------------------------------------------ *)
(** ** Keys *)

Definition COLON : N := 58%N.

(** [/\/g] and a slash. *)
Definition slashes (path : jstr) : jstr := (λ c, if (c =? BACKSLASH)%N then SLASH else c) <$> path.

(** The characters [.] does not match. *)
Definition is_line_end (c : N) : bool :=
  ((c =? 10) || (c =? 13) || (c =? 8232) || (c =? 8233))%N.

Record Drive := mkDrive { drive1 : jstr; drive2 : bool; drive3 : jstr }.

(** The match of a drive letter, a colon, an optional slash and the rest. *)
Definition driveOf (path : jstr) : option Drive :=
  match path with
  | letter :: colon :: rest =>
      if is_letter letter && (colon =? COLON)%N && negb (existsb is_line_end rest) then
        Some (match rest with
              | c :: rest' => if (c =? SLASH)%N then mkDrive [letter; colon] true rest'
                              else mkDrive [letter; colon] false rest
              | [] => mkDrive [letter; colon] false []
              end)
      else None
  | _ => None
  end.

(** [path.replace(/^\/+/, '')]. *)
Fixpoint stripSlashes (path : jstr) : jstr :=
  match path with
  | c :: rest => if (c =? SLASH)%N then stripSlashes rest else path
  | [] => []
  end.

Definition DOT : jstr := js ".".
Definition DOTDOT : jstr := js "..".

(** One segment of the loop. *)
Definition pushSegment (absolute : bool) (minimumDepth : nat) (segments : list jstr) (segment : jstr)
    : list jstr :=
  if bool_decide (segment = []) || bool_decide (segment = DOT) then segments
  else if bool_decide (segment = DOTDOT) then
    if (minimumDepth <? length segments) && bool_decide (last segments ≠ Some DOTDOT)
    then take (length segments - 1) segments
    else if negb absolute then segments ++ [segment] else segments
  else segments ++ [segment].

Section key.
(** [String.prototype.toLowerCase], on all letters. *)
Context (stringToLowerCase : jstr → jstr).

Definition getLocalFileSaveKey (isWindows : bool) (filePath : jstr) : jstr :=
  let path := if isWindows then slashes filePath else filePath in
  let drive := if isWindows then driveOf path else None in
  let unc := isWindows && startsWith [SLASH; SLASH] path in
  let absolute :=
    unc || match drive with Some d => drive2 d | None => startsWithChar SLASH path end in
  let prefix :=
    if unc then [SLASH; SLASH]
    else match drive with
         | Some d => drive1 d
         | None => if absolute then [SLASH] else []
         end in
  let remainder :=
    if unc then stripSlashes path
    else match drive with Some d => drive3 d | None => stripSlashes path end in
  let minimumDepth := if unc then 2 else 0 in
  let segments := fold_left (pushSegment absolute minimumDepth) (split_char SLASH remainder) [] in
  let separator := if bool_decide (drive ≠ None) && absolute then [SLASH] else [] in
  let normalizedPath := prefix ++ separator ++ join [SLASH] segments in
  if isWindows then stringToLowerCase normalizedPath else normalizedPath.
End key.

(* ------------------------------------------------------------------ *)
(** ** The coordinator *)

Record LocalFileSaveRequest := mkRequest {
  filePath : jstr;
  fileContent : jstr;
  charset : option jstr;
  bom : option bool;
}.

Record LocalFileSaveResult := mkResult { resultPath : jstr; resultContent : jstr }.

Definition resultOf (request : LocalFileSaveRequest) : LocalFileSaveResult :=
  mkResult (filePath request) (fileContent request).

Section coordinator.
Context {Mutation Waiter Error : Type}.
(** The key of a file, with the platform of the coordinator. *)
Context (keyOf : jstr → jstr).

Record PendingSave := mkPending {
  request : LocalFileSaveRequest;
  mutation : Mutation;
  waiters : list Waiter;
}.

(** [running] is the save the drain awaits. *)
Record FileSaveState := mkState {
  pending : option PendingSave;
  draining : bool;
  running : option PendingSave;
}.

(** What happens outside: a mutation is called or settles, well or with an error, a waiter is resolved
    or rejected, the file is idle. *)
Inductive Effect :=
  | Write (key : jstr) (m : Mutation) (r : LocalFileSaveRequest)
  | Written (key : jstr) (outcome : option Error)
  | Resolved (key : jstr) (w : Waiter) (r : LocalFileSaveResult)
  | Rejected (key : jstr) (w : Waiter) (e : Error)
  | Idle (key : jstr).

Record Coordinator := mkCoordinator {
  states : gmap jstr FileSaveState;
  effects : list Effect;
}.

Definition newCoordinator : Coordinator := mkCoordinator ∅ [].

(** The head of the loop of [drain], and what follows the loop. *)
Definition drain (key : jstr) (state : FileSaveState) (c : Coordinator) : Coordinator :=
  match pending state with
  | Some p => mkCoordinator (<[key := mkState None (draining state) (Some p)]> (states c))
                (effects c ++ [Write key (mutation p) (request p)])
  | None => mkCoordinator (delete key (states c)) (effects c ++ [Idle key])
  end.

Definition save (r : LocalFileSaveRequest) (m : Mutation) (w : Waiter) (c : Coordinator) : Coordinator :=
  let key := keyOf (filePath r) in
  let state := default (mkState None false None) (states c !! key) in
  let state' :=
    match pending state with
    | Some p => mkState (Some (mkPending r m (waiters p ++ [w]))) (draining state) (running state)
    | None => mkState (Some (mkPending r m [w])) (draining state) (running state)
    end in
  if negb (draining state)
  then drain key (mkState (pending state') true (running state'))
         (mkCoordinator (<[key := state']> (states c)) (effects c))
  else mkCoordinator (<[key := state']> (states c)) (effects c).

Definition settleWaiter (key : jstr) (outcome : option Error) (r : LocalFileSaveRequest) (w : Waiter)
    : Effect :=
  match outcome with
  | None => Resolved key w (resultOf r)
  | Some e => Rejected key w e
  end.

(** The write in progress settles, with an error or not. *)
Definition settleWrite (key : jstr) (outcome : option Error) (c : Coordinator) : Coordinator :=
  match states c !! key with
  | Some (mkState next dr (Some p)) =>
      let c' := mkCoordinator (states c) (effects c ++ [Written key outcome]) in
      match next with
      | Some q =>
          drain key (mkState (Some (mkPending (request q) (mutation q) (waiters q ++ waiters p))) dr None) c'
      | None =>
          drain key (mkState None dr None)
            (mkCoordinator (states c)
               (effects c ++ Written key outcome :: (settleWaiter key outcome (request p) <$> waiters p)))
      end
  | _ => c
  end.

(** [waitForIdle] answers at once when the file has no state. *)
Definition waitForIdle (path : jstr) (c : Coordinator) : bool :=
  bool_decide (states c !! keyOf path = None).

Inductive op :=
  | OpSave (r : LocalFileSaveRequest) (m : Mutation) (w : Waiter)
  | OpSettle (key : jstr) (outcome : option Error).

Definition run (c : Coordinator) (o : op) : Coordinator :=
  match o with
  | OpSave r m w => save r m w c
  | OpSettle key outcome => settleWrite key outcome c
  end.
End coordinator.

(* ------------------------------------------------------------------ *)
(** ** Which file a path names *)

(** Reference: the directories a path walks through from [dir]; [..] in the
    root stays there. *)
Definition walk (dir : list jstr) (segment : jstr) : list jstr :=
  if decide (segment = [] ∨ segment = DOT) then dir
  else if decide (segment = DOTDOT) then take (length dir - 1) dir
  else dir ++ [segment].

Definition isAbsolute (path : jstr) : bool := startsWithChar SLASH path.

(** The file a POSIX path names for a process in [cwd]. *)
Definition resolvePath (cwd : list jstr) (path : jstr) : list jstr :=
  fold_left walk (split_char SLASH path) (if isAbsolute path then [] else cwd).

Definition is_name (s : jstr) : Prop := s ≠ [] ∧ s ≠ DOT ∧ s ≠ DOTDOT ∧ SLASH ∉ s.

Lemma walk_empty dir : walk dir [] = dir.
Proof. unfold walk. by rewrite decide_True by auto. Qed.

Lemma walk_skip dir s : s = [] ∨ s = DOT → walk dir s = dir.
Proof. intros. unfold walk. by rewrite decide_True. Qed.

Lemma walk_up dir : walk dir DOTDOT = take (length dir - 1) dir.
Proof. done. Qed.

Lemma walk_other dir s : s ≠ [] → s ≠ DOT → s ≠ DOTDOT → walk dir s = dir ++ [s].
Proof. intros. unfold walk. rewrite decide_False by naive_solver. by rewrite decide_False. Qed.

Lemma walk_name dir s : is_name s → walk dir s = dir ++ [s].
Proof. intros (? & ? & ? & _). by apply walk_other. Qed.

Lemma walk_strip path : ∀ dir,
  fold_left walk (split_char SLASH (stripSlashes path)) dir = fold_left walk (split_char SLASH path) dir.
Proof.
  induction path as [|c path IH]; intros dir; [done|]. cbn [stripSlashes].
  destruct (c =? SLASH)%N eqn:E; [|done]. apply N.eqb_eq in E as ->.
  rewrite IH. cbn [split_char]. rewrite decide_True by done. cbn [fold_left]. by rewrite walk_empty.
Qed.

(** The segments kept by the loop: names, after leading [..] in a relative
    path. *)
Definition kept (absolute : bool) (segments : list jstr) : Prop :=
  Forall (λ s, is_name s ∨ absolute = false ∧ s = DOTDOT) segments.

Lemma pushSegment_kept absolute segments s :
  SLASH ∉ s → kept absolute segments → kept absolute (pushSegment absolute 0 segments s).
Proof.
  intros Hs H. unfold pushSegment.
  destruct (bool_decide (s = []) || bool_decide (s = DOT)) eqn:E1; [done|].
  apply orb_false_iff in E1 as [E1 E2]. rewrite bool_decide_eq_false in E1, E2.
  destruct (bool_decide (s = DOTDOT)) eqn:E3.
  - apply bool_decide_eq_true in E3. destruct (_ && _); [by apply Forall_take|].
    destruct absolute; [done|]. apply Forall_app. split; [done|]. rewrite Forall_singleton. by right.
  - apply bool_decide_eq_false in E3. apply Forall_app. split; [done|]. rewrite Forall_singleton.
    by left.
Qed.

Lemma pushSegment_walk absolute segments s dir :
  kept absolute segments → (absolute = true → dir = []) →
  fold_left walk (pushSegment absolute 0 segments s) dir = walk (fold_left walk segments dir) s.
Proof.
  intros H Habs. unfold pushSegment.
  destruct (bool_decide (s = []) || bool_decide (s = DOT)) eqn:E1.
  { rewrite orb_true_iff, !bool_decide_eq_true in E1. by rewrite walk_skip. }
  rewrite orb_false_iff, !bool_decide_eq_false in E1.
  case_bool_decide as E3; subst.
  2: { by rewrite fold_left_app. }
  rewrite walk_up. destruct segments as [|x segments _] using rev_ind.
  { cbn. destruct absolute; cbn; [by rewrite Habs|done]. }
  apply Forall_app in H as [H Hx]. rewrite Forall_singleton in Hx.
  rewrite last_snoc, length_app. cbn [length].
  destruct (decide (x = DOTDOT)) as [->|Hne].
  - destruct Hx as [Hx|[-> _]]; [by destruct Hx as (_ & _ & ? & _)|].
    rewrite bool_decide_eq_false_2, andb_false_r by naive_solver. cbn [negb].
    by rewrite (fold_left_app walk (segments ++ [DOTDOT])).
  - destruct Hx as [Hx|[_ ?]]; [|done].
    rewrite bool_decide_eq_true_2 by naive_solver.
    assert (0 <? length segments + 1 = true) as -> by (apply Nat.ltb_lt; lia).
    cbn [andb]. rewrite Nat.add_sub, take_app_length, fold_left_app. cbn [fold_left].
    rewrite walk_name by done. by rewrite length_app, Nat.add_sub, take_app_length.
Qed.

Lemma pushAll_kept absolute segs : ∀ acc,
  Forall (λ s, SLASH ∉ s) segs → kept absolute acc →
  kept absolute (fold_left (pushSegment absolute 0) segs acc).
Proof.
  induction segs as [|s segs IH]; intros acc Hs H; [done|]. apply Forall_cons in Hs as [? Hs].
  cbn. apply IH; [done|]. by apply pushSegment_kept.
Qed.

Lemma pushAll_walk absolute dir segs : ∀ acc,
  Forall (λ s, SLASH ∉ s) segs → kept absolute acc → (absolute = true → dir = []) →
  fold_left walk (fold_left (pushSegment absolute 0) segs acc) dir
  = fold_left walk segs (fold_left walk acc dir).
Proof.
  induction segs as [|s segs IH]; intros acc Hs H Hdir; [done|]. apply Forall_cons in Hs as [? Hs].
  cbn. rewrite IH; [|done|by apply pushSegment_kept|done]. by rewrite pushSegment_walk.
Qed.

(** The segments of a POSIX key. *)
Definition keySegments (path : jstr) : list jstr :=
  fold_left (pushSegment (isAbsolute path) 0) (split_char SLASH (stripSlashes path)) [].

Lemma posix_key lower path :
  getLocalFileSaveKey lower false path
  = (if isAbsolute path then [SLASH] else []) ++ join [SLASH] (keySegments path).
Proof. done. Qed.

Lemma keySegments_kept path : kept (isAbsolute path) (keySegments path).
Proof. apply pushAll_kept; [apply split_char_no_sep|constructor]. Qed.

Lemma keySegments_walk path cwd :
  fold_left walk (keySegments path) (if isAbsolute path then [] else cwd) = resolvePath cwd path.
Proof.
  unfold keySegments, resolvePath. rewrite pushAll_walk.
  - apply walk_strip.
  - apply split_char_no_sep.
  - constructor.
  - by destruct (isAbsolute path).
Qed.

Lemma kept_no_slash absolute segs : kept absolute segs → Forall (λ s, s ≠ [] ∧ SLASH ∉ s) segs.
Proof.
  intros H. eapply Forall_impl; [exact H|]. intros s [(?&_&_&?)|[_ ->]]; [done|].
  split; [done|]. compute_done.
Qed.

Lemma walk_join segs dir :
  Forall (λ s, s ≠ [] ∧ SLASH ∉ s) segs →
  fold_left walk (split_char SLASH (join [SLASH] segs)) dir = fold_left walk segs dir.
Proof.
  intros H. destruct segs as [|s segs]; [apply walk_empty|]. rewrite split_char_join; [done..|].
  eapply Forall_impl; [exact H|]. naive_solver.
Qed.

Lemma join_relative segs :
  Forall (λ s, s ≠ [] ∧ SLASH ∉ s) segs → isAbsolute (join [SLASH] segs) = false.
Proof.
  destruct 1 as [|s segs [Hne Hs] _]; [done|]. apply bool_decide_eq_false.
  destruct s as [|c s]; [done|]. destruct segs; cbn; intros [= ->]; set_solver.
Qed.

Lemma walk_names segs : ∀ dir, Forall is_name segs → fold_left walk segs dir = dir ++ segs.
Proof.
  induction segs as [|s segs IH]; intros dir H; [by rewrite app_nil_r|].
  apply Forall_cons in H as [Hs H]. cbn. by rewrite walk_name, IH, <-(assoc_L (++)).
Qed.

Lemma absolute_key lower path :
  isAbsolute path = true →
  getLocalFileSaveKey lower false path = SLASH :: join [SLASH] (resolvePath [] path).
Proof.
  intros Habs. rewrite posix_key, Habs, <-keySegments_walk, Habs. rewrite walk_names; [done|].
  eapply Forall_impl; [apply keySegments_kept|]. rewrite Habs. naive_solver.
Qed.

(** The key of a POSIX path names the file of the path in every working
    directory, so that files with one key are one file; and the absolute paths
    of one file have one key, however they are written. *)
Theorem save_key_names_file lower cwd p q :
  let key := getLocalFileSaveKey lower false in
  resolvePath cwd (key p) = resolvePath cwd p ∧
  (isAbsolute p = true → isAbsolute q = true →
     (key p = key q ↔ resolvePath cwd p = resolvePath cwd q)).
Proof.
  intros key. assert (∀ p, resolvePath cwd (key p) = resolvePath cwd p) as Hkey.
  { intros r. unfold key. rewrite posix_key, <-(keySegments_walk r cwd).
    pose proof (kept_no_slash _ _ (keySegments_kept r)) as Hk.
    destruct (isAbsolute r).
    - unfold resolvePath. cbn [app isAbsolute]. change (isAbsolute (SLASH :: _)) with true.
      cbn [split_char]. rewrite decide_True by done. cbn [fold_left]. rewrite walk_empty.
      by apply walk_join.
    - unfold resolvePath. cbn [app]. rewrite join_relative by done. by apply walk_join. }
  split; [apply Hkey|]. intros Hp Hq. split; intros H.
  - by rewrite <-Hkey, H, Hkey.
  - unfold key. rewrite !absolute_key by done. unfold resolvePath in *. rewrite Hp, Hq in H.
    rewrite Hp, Hq. by rewrite H.
Qed.

(* ------------------------------------------------------------------ *)
(** ** What the coordinator promises *)

Section coordinator_spec.
Context {Mutation Waiter Error : Type} (keyOf : jstr → jstr).
Notation Coordinator := (@Coordinator Mutation Waiter Error).
Notation Effect := (@Effect Mutation Waiter Error).
Notation op := (@op Mutation Waiter Error).
Implicit Types (c : Coordinator) (effs : list Effect) (ops : list op).

(** The saves of a file so far and who asked for them. *)
Definition savesOf (key : jstr) ops : list (Mutation * LocalFileSaveRequest) :=
  omap (λ o, match o with
             | OpSave r m _ => if decide (keyOf (filePath r) = key) then Some (m, r) else None
             | OpSettle _ _ => None
             end) ops.

Definition askersOf (key : jstr) ops : list Waiter :=
  omap (λ o, match o with
             | OpSave r _ w => if decide (keyOf (filePath r) = key) then Some w else None
             | OpSettle _ _ => None
             end) ops.

(** The writes of a file, those that ended, and the waiters that were told. *)
Definition writesOf (key : jstr) effs : list (Mutation * LocalFileSaveRequest) :=
  omap (λ e, match e with
             | Write k m r => if decide (k = key) then Some (m, r) else None
             | _ => None
             end) effs.

Definition endedOf (key : jstr) effs : list unit :=
  omap (λ e, match e with Written k _ => if decide (k = key) then Some tt else None | _ => None end) effs.

Definition toldOf (key : jstr) effs : list Waiter :=
  omap (λ e, match e with
             | Resolved k w _ | Rejected k w _ => if decide (k = key) then Some w else None
             | _ => None
             end) effs.

(** The last write of a file: what was written, and how it ended, if it did. *)
Definition heardNext (key : jstr) (current : option (LocalFileSaveRequest * option (option Error))) (e : Effect) :=
  match e with
  | Write k _ r => if decide (k = key) then Some (r, None) else current
  | Written k outcome => if decide (k = key) then (λ x, (x.1, Some outcome)) <$> current else current
  | _ => current
  end.

Definition heard (key : jstr) current effs := fold_left (heardNext key) effs current.

(** A waiter is told how the last write ended: it is resolved, with what was written, only when it ended well, and
    rejected only with the error it ended with. *)
Fixpoint answers (key : jstr) (current : option (LocalFileSaveRequest * option (option Error))) effs : Prop :=
  match effs with
  | [] => True
  | e :: effs =>
      match e with
      | Resolved k _ result => k = key → ∃ r, current = Some (r, Some None) ∧ result = resultOf r
      | Rejected k _ error => k = key → ∃ r, current = Some (r, Some (Some error))
      | _ => True
      end ∧ answers key (heardNext key current e) effs
  end.

Lemma answers_app key a b : ∀ current,
  answers key current (a ++ b) ↔ answers key current a ∧ answers key (heard key current a) b.
Proof. induction a as [|e a IH]; intros current; cbn [app answers]; [cbn; tauto|]. rewrite IH. cbn [heard fold_left]. unfold heard. tauto. Qed.

Lemma heard_app key a b current : heard key current (a ++ b) = heard key (heard key current a) b.
Proof. apply fold_left_app. Qed.

(** The state of a file against its history. *)
Definition file_ok (key : jstr) ops c : Prop :=
  answers key None (effects c) ∧
  match states c !! key with
  | None =>
      askersOf key ops ≡ₚ toldOf key (effects c) ∧
      last (writesOf key (effects c)) = last (savesOf key ops) ∧
      length (writesOf key (effects c)) = length (endedOf key (effects c))
  | Some st =>
      draining st = true ∧
      ∃ p, running st = Some p ∧
        heard key None (effects c) = Some (request p, None) ∧
        last (writesOf key (effects c)) = Some (mutation p, request p) ∧
        length (writesOf key (effects c)) = S (length (endedOf key (effects c))) ∧
        match pending st with
        | None => last (savesOf key ops) = Some (mutation p, request p) ∧
                  askersOf key ops ≡ₚ toldOf key (effects c) ++ waiters p
        | Some q => last (savesOf key ops) = Some (mutation q, request q) ∧
                    askersOf key ops ≡ₚ toldOf key (effects c) ++ waiters p ++ waiters q
        end
  end.

Lemma answers_told key k outcome r (ws : list Waiter) current :
  (k = key → current = Some (r, Some outcome)) →
  answers key current (settleWaiter k outcome r <$> ws).
Proof.
  intros H. induction ws as [|w ws IH]; [done|]. destruct outcome; cbn; (split; [|done]); intros Hk; exists r; by rewrite H.
Qed.

Lemma told_settle key (outcome : option Error) r (ws : list Waiter) :
  toldOf key (settleWaiter key outcome r <$> ws) = ws ∧
  (∀ k, k ≠ key → toldOf k (settleWaiter key outcome r <$> ws) = []) ∧
  (∀ k, writesOf k (settleWaiter key outcome r <$> ws) = [] ∧
        endedOf k (settleWaiter key outcome r <$> ws) = []).
Proof.
  induction ws as [|w ws (H1 & H2 & H3)]; [done|].
  split_and!.
  - destruct outcome; cbn; rewrite decide_True by done; by rewrite <-H1 at 2.
  - intros k Hk. destruct outcome; cbn; rewrite decide_False by done; by apply H2.
  - intros k. destruct (H3 k). by destruct outcome.
Qed.

Ltac history :=
  unfold savesOf, askersOf, writesOf, endedOf, toldOf in *;
  rewrite ?omap_app, ?answers_app; cbn [omap list_omap];
  repeat first [rewrite decide_True by done | rewrite decide_False by done];
  rewrite ?app_nil_r, ?last_snoc, ?length_app; cbn [length].

Lemma heard_write_other key k m r effs : k ≠ key → heard key None (effs ++ [Write k m r]) = heard key None effs.
Proof. intros. rewrite heard_app. cbn. by rewrite decide_False. Qed.

Lemma heard_told key outcome r k (ws : list Waiter) current : heard key current (settleWaiter k outcome r <$> ws) = current.
Proof. induction ws as [|w ws IH]; [done|]. by destruct outcome. Qed.

Lemma save_other key r m w ops c :
  keyOf (filePath r) ≠ key → file_ok key ops c →
  file_ok key (ops ++ [OpSave r m w]) (save keyOf r m w c).
Proof.
  intros Hk [Ha H].
  assert (∀ c' : Coordinator, states c' !! key = states c !! key →
    answers key None (effects c') ∧ heard key None (effects c') = heard key None (effects c) ∧ writesOf key (effects c') = writesOf key (effects c) ∧
    endedOf key (effects c') = endedOf key (effects c) ∧ toldOf key (effects c') = toldOf key (effects c) →
    file_ok key (ops ++ [OpSave r m w]) c') as Hsame.
  { intros c' Hs (Ha' & Hh & Hw & He & Ht). split; [done|]. rewrite Hs, Hh, Hw, He, Ht. by history. }
  unfold save. destruct (default _ _) as [pend dr rn]. cbn [draining pending running].
  destruct dr, pend as [p|]; cbn [negb]; apply Hsame; unfold drain; cbn [pending draining running states effects];
    rewrite ?lookup_insert_ne by done; try done; (split; [rewrite answers_app; by split|split; [by apply heard_write_other|by history]]).
Qed.

Lemma save_same r m w ops c :
  let key := keyOf (filePath r) in
  file_ok key ops c → file_ok key (ops ++ [OpSave r m w]) (save keyOf r m w c).
Proof.
  intros key [Ha H]. unfold save. fold key.
  destruct (states c !! key) as [[pend dr rn]|] eqn:E; cbn [default from_option id draining pending running] in *.
  - destruct H as [-> (p & -> & Hh & Hw & Hn & Hp)]. cbn [negb].
    destruct pend as [q|]; destruct Hp as [Hl Hperm]; (split; [done|]);
      cbn [states effects]; rewrite lookup_insert_eq; cbn [draining pending running]; (split; [done|]);
      exists p; (split_and!; [done..|history; done|]); cbn [waiters]; history; fold (toldOf key (effects c));
      unfold askersOf, toldOf in *; rewrite Hperm; solve_Permutation.
  - destruct H as (Hperm & Hl & Hn). cbn [negb drain pending draining running].
    split; cbn [states effects]; [rewrite answers_app; by split|]. rewrite lookup_insert_eq.
    cbn [draining pending running]. split; [done|]. eexists. split; [done|]. cbn [request mutation waiters].
    split_and!; [rewrite heard_app; cbn; by rewrite decide_True|by history| |by history|].
    + history. unfold writesOf, endedOf in *. lia.
    + history. unfold askersOf, toldOf in *. by rewrite Hperm.
Qed.

Lemma settle_other key k outcome ops c :
  k ≠ key → file_ok key ops c → file_ok key (ops ++ [OpSettle k outcome]) (settleWrite k outcome c).
Proof.
  intros Hk [Ha H].
  assert (∀ c' : Coordinator, states c' !! key = states c !! key →
    answers key None (effects c') ∧ heard key None (effects c') = heard key None (effects c) ∧ writesOf key (effects c') = writesOf key (effects c) ∧
    endedOf key (effects c') = endedOf key (effects c) ∧ toldOf key (effects c') = toldOf key (effects c) →
    file_ok key (ops ++ [OpSettle k outcome]) c') as Hsame.
  { intros c' Hs (Ha' & Hh & Hw & He & Ht). split; [done|]. rewrite Hs, Hh, Hw, He, Ht. by history. }
  unfold settleWrite. destruct (states c !! k) as [[pend dr [p|]]|]; [|by apply Hsame..].
  destruct pend as [q|]; apply Hsame; unfold drain; cbn [pending draining running states effects].
  - by rewrite lookup_insert_ne.
  - rewrite !answers_app, !heard_app. cbn. rewrite !decide_False by done. split_and!; [done..|by history|by history|by history].
  - by rewrite lookup_delete_ne.
  - destruct (told_settle k outcome (request p) (waiters p)) as (_ & Ht & Hwe).
    destruct (Hwe key) as [Hw He]. specialize (Ht key (not_eq_sym Hk)). split; [|split].
    + rewrite !answers_app. split_and!; [done| |done]. split; [done|]. by apply answers_told.
    + rewrite !heard_app. cbn [heard fold_left heardNext]. rewrite decide_False by done. exact (heard_told _ _ _ _ _ _).
    + history. by rewrite Hw, He, Ht, !app_nil_r.
Qed.

Lemma settle_same key outcome ops c :
  file_ok key ops c → file_ok key (ops ++ [OpSettle key outcome]) (settleWrite key outcome c).
Proof.
  intros [Ha H]. unfold settleWrite. destruct (states c !! key) as [[pend dr rn]|] eqn:E.
  - destruct H as [Hdr (p & Hrn & Hh & Hw & Hn & Hp)]. cbn [draining running pending] in *. subst dr rn.
    destruct pend as [q|]; destruct Hp as [Hl Hperm]; unfold drain; cbn [pending draining running states effects].
    + split; cbn [states effects]; [rewrite !answers_app; by split|]. rewrite lookup_insert_eq.
      cbn [draining pending running]. split; [done|]. eexists. split; [done|].
      cbn [request mutation waiters]. split_and!.
      * rewrite !heard_app. cbn. by rewrite decide_True.
      * by history.
      * history. unfold writesOf, endedOf in *. lia.
      * by history.
      * history. unfold askersOf, toldOf in *. rewrite Hperm. solve_Permutation.
    + destruct (told_settle key outcome (request p) (waiters p)) as (Ht & _ & Hwe).
      destruct (Hwe key) as [Hwn He]. split; cbn [states effects].
      * rewrite !answers_app. split_and!; [done| |done]. split; [done|]. apply answers_told.
        intros _. cbn. by rewrite Hh, decide_True.
      * rewrite lookup_delete_eq. history. rewrite Hwn, He, Ht, !app_nil_r. cbn [length].
        unfold askersOf, toldOf, savesOf, writesOf, endedOf in *. split_and!; [done|congruence|lia].
  - split; [done|]. rewrite E. by history.
Qed.

Lemma runs_file_ok key ops : file_ok key ops (fold_left (run keyOf) ops newCoordinator).
Proof.
  induction ops as [|o ops IH] using rev_ind; [done|].
  rewrite fold_left_app. cbn [fold_left]. destruct o as [r m w|k outcome]; cbn [run].
  - destruct (decide (keyOf (filePath r) = key)) as [<-|]; [by apply save_same|by apply save_other].
  - destruct (decide (k = key)) as [->|]; [by apply settle_same|by apply settle_other].
Qed.
End coordinator_spec.

(** C8: whatever the saves and whenever their writes end, a file has at most
    one write in progress and none while it is idle; once idle, what was written
    last is what was saved last; every caller is told the outcome exactly once,
    or waits for a write.  What it is told is how the write before it ended, which is the
    last one: a success only when that write ended well, with the content that was
    written, and an error only when it failed with that error. *)
Theorem file_saves_serialized {Mutation Waiter Error : Type} (keyOf : jstr → jstr) key
    (ops : list (@op Mutation Waiter Error)) :
  let c := fold_left (run keyOf) ops newCoordinator in
  let waiting := match states c !! key with
                 | Some st => default [] (waiters <$> running st) ++ default [] (waiters <$> pending st)
                 | None => []
                 end in
  (length (writesOf key (effects c)) - length (endedOf key (effects c))
   = if decide (states c !! key = None) then 0 else 1) ∧
  (states c !! key = None → last (writesOf key (effects c)) = last (savesOf keyOf key ops)) ∧
  (∀ st, states c !! key = Some st →
     (λ p, (mutation p, request p)) <$> union (pending st) (running st) = last (savesOf keyOf key ops)) ∧
  askersOf keyOf key ops ≡ₚ toldOf key (effects c) ++ waiting ∧
  answers key None (effects c).
Proof.
  intros c. destruct (runs_file_ok keyOf key ops) as [Ha H]. fold c in Ha, H.
  destruct (states c !! key) as [[pend dr rn]|].
  - destruct H as [_ (p & Hrn & _ & Hw & Hn & Hp)]. cbn [running pending] in *. subst rn.
    rewrite decide_False by done. split_and!; [lia|done| | |done].
    + intros st [= <-]. destruct pend as [q|]; by destruct Hp as [-> _].
    + destruct pend as [q|]; destruct Hp as [_ Hp]; cbn; by rewrite ?app_nil_r.
  - destruct H as (Hp & Hl & Hn). rewrite decide_True by done.
    split_and!; [lia|done|done|by rewrite app_nil_r|done].
Qed.

(** Three saves while the first is written: one more write, of the third. *)
Example coalesced :
  let r c := mkRequest (js "/a.sql") (js c) None None in
  effects (fold_left (run (Error:=unit) (getLocalFileSaveKey toLowerCase false))
    [OpSave (r "1") tt 1; OpSave (r "2") tt 2; OpSave (r "3") tt 3;
     OpSettle (js "/a.sql") None; OpSettle (js "/a.sql") None] newCoordinator)
  = [Write (js "/a.sql") tt (r "1"); Written (js "/a.sql") None; Write (js "/a.sql") tt (r "3");
     Written (js "/a.sql") None; Resolved (js "/a.sql") 2 (resultOf (r "3"));
     Resolved (js "/a.sql") 3 (resultOf (r "3")); Resolved (js "/a.sql") 1 (resultOf (r "3"));
     Idle (js "/a.sql")].
Proof. by vm_compute. Qed.
