(* ===== verification/SavedConsoleMutation.v ===== *)
(** * SavedConsoleMutation: saving and removing a saved console

    Models the class [SavedConsoleMutationCoordinator] of
    [apps/community-client/src/store/workspace/utils/savedConsoleMutationCoordinator.ts].

    The mutations of a console are chained on [tail], so that they run in the
    order of the calls, the head of [queue] being the one in progress.  A step
    is a call of [save] or [remove], or the settlement of the mutation in
    progress with the handlers [enqueue] attached to it, which run before the
    next mutation starts. *)

From stdpp Require Import gmap.
From S2P Require Import Prelude.
Local Open Scope Z_scope.

Inductive SavedConsoleSaveMode := manual | automatic.

Inductive Kind :=
  | KSave (mode : SavedConsoleSaveMode)
  | KRemove.

#[export] Instance mode_eq_dec : EqDecision SavedConsoleSaveMode.
Proof. solve_decision. Defined.
#[export] Instance kind_eq_dec : EqDecision Kind.
Proof. solve_decision. Defined.

Section coordinator.
Context {Call : Type}.

(** A mutation of the queue with the variables its handlers capture. *)
Record Execution := mkExecution {
  call : Call;
  kind : Kind;
  capturedGeneration : Z;
  previousPublishDesired : bool;
  previousRetainDraftBlock : bool;
}.

Record SavedConsoleMutationState := mkState {
  queue : list Execution;
  generation : Z;
  publishDesired : bool;
  retainDraftBlock : bool;
  pending : Z;
}.

(** How a call ends: without a mutation, with one and whether it is current,
    or with its error. *)
Inductive Outcome :=
  | NotExecuted (consoleId : Z) (c : Call)
  | Executed (consoleId : Z) (c : Call) (current : bool)
  | Failed (consoleId : Z) (c : Call).

Record Coordinator := mkCoordinator {
  states : gmap Z SavedConsoleMutationState;
  outcomes : list Outcome;
}.

Definition newCoordinator : Coordinator := mkCoordinator ∅ [].

Definition newState : SavedConsoleMutationState := mkState [] 0 true false 0.

Definition getState (consoleId : Z) (c : Coordinator) : SavedConsoleMutationState :=
  default newState (states c !! consoleId).

Definition enqueue (consoleId : Z) (state : SavedConsoleMutationState) (e : Execution)
    (c : Coordinator) : Coordinator :=
  mkCoordinator
    (<[consoleId := mkState (queue state ++ [e]) (generation state) (publishDesired state)
                      (retainDraftBlock state) (pending state + 1)]> (states c))
    (outcomes c).

Definition save (consoleId : Z) (mode : SavedConsoleSaveMode) (m : Call) (c : Coordinator) : Coordinator :=
  let state := getState consoleId c in
  let c := mkCoordinator (<[consoleId := state]> (states c)) (outcomes c) in
  match mode with
  | automatic =>
      if negb (publishDesired state)
      then mkCoordinator (states c) (outcomes c ++ [NotExecuted consoleId m])
      else enqueue consoleId state (mkExecution m (KSave automatic) (generation state) false false) c
  | manual =>
      let next := mkState (queue state) (generation state + 1) true false (pending state) in
      enqueue consoleId next
        (mkExecution m (KSave manual) (generation next) (publishDesired state) (retainDraftBlock state)) c
  end.

Definition remove (consoleId : Z) (retain : bool) (m : Call) (c : Coordinator) : Coordinator :=
  let state := getState consoleId c in
  let next := mkState (queue state) (generation state + 1) false retain (pending state) in
  enqueue consoleId next
    (mkExecution m KRemove (generation next) (publishDesired state) (retainDraftBlock state)) c.

Definition isCurrent (e : Execution) (state : SavedConsoleMutationState) : bool :=
  (generation state =? capturedGeneration e)
  && match kind e with KSave _ => publishDesired state | KRemove => negb (publishDesired state) end.

(** An automatic save has no handler of errors. *)
Definition onError (e : Execution) (state : SavedConsoleMutationState) : SavedConsoleMutationState :=
  if bool_decide (kind e ≠ KSave automatic) && isCurrent e state
  then mkState (queue state) (generation state) (previousPublishDesired e)
         (previousRetainDraftBlock e) (pending state)
  else state.

Definition finish (consoleId : Z) (state : SavedConsoleMutationState) (c : Coordinator) : Coordinator :=
  let next := mkState (queue state) (generation state) (publishDesired state)
                (retainDraftBlock state) (pending state - 1) in
  mkCoordinator
    (if (pending next =? 0) && (publishDesired next || negb (retainDraftBlock next))
     then delete consoleId (states c) else <[consoleId := next]> (states c))
    (outcomes c).

(** The mutation in progress settles. *)
Definition settle (consoleId : Z) (ok : bool) (c : Coordinator) : Coordinator :=
  match states c !! consoleId with
  | Some (mkState (e :: rest) g publish retain n) =>
      let state := mkState rest g publish retain n in
      if ok
      then finish consoleId state
             (mkCoordinator (states c) (outcomes c ++ [Executed consoleId (call e) (isCurrent e state)]))
      else finish consoleId (onError e state)
             (mkCoordinator (states c) (outcomes c ++ [Failed consoleId (call e)]))
  | _ => c
  end.

Inductive op :=
  | OpSave (consoleId : Z) (mode : SavedConsoleSaveMode) (m : Call)
  | OpRemove (consoleId : Z) (retain : bool) (m : Call)
  | OpSettle (consoleId : Z) (ok : bool).

Definition run (c : Coordinator) (o : op) : Coordinator :=
  match o with
  | OpSave k mode m => save k mode m c
  | OpRemove k retain m => remove k retain m c
  | OpSettle k ok => settle k ok c
  end.
End coordinator.

(* ------------------------------------------------------------------ *)
(** ** The queue *)

Section spec.
Context {Call : Type}.
Notation Coordinator := (@Coordinator Call).
Notation State := (@SavedConsoleMutationState Call).
Notation Execution := (@Execution Call).
Notation Outcome := (@Outcome Call).
Notation op := (@op Call).
Implicit Types (c : Coordinator) (e : Execution) (st : State) (ops : list op).

Definition isAutomatic e : Prop := kind e = KSave automatic.

(** What the last call that was not an automatic save left in the queue: itself
    or nothing, with the automatic saves that followed. *)
Definition queue_ok st : Prop :=
  let latest := Forall (λ e, isAutomatic e ∧ capturedGeneration e = generation st) in
  latest (queue st) ∨
  ∃ old e new, queue st = old ++ e :: new ∧
    Forall (λ x, capturedGeneration x < generation st) old ∧
    capturedGeneration e = generation st ∧ ¬ isAutomatic e ∧ isCurrent e st = true ∧ latest new.

Definition state_ok st : Prop :=
  pending st = Z.of_nat (length (queue st)) ∧ queue_ok st ∧
  (queue st = [] → publishDesired st = false ∧ retainDraftBlock st = true).

Definition console_ok k c : Prop := ∀ st, states c !! k = Some st → state_ok st.

Lemma queue_ok_old st : queue_ok st → Forall (λ e, capturedGeneration e ≤ generation st) (queue st).
Proof.
  intros [H|(old & e & new & -> & Ho & He & _ & _ & Hn)].
  - eapply Forall_impl; [exact H|]. cbn. naive_solver lia.
  - apply Forall_app. split; [eapply Forall_impl; [exact Ho|]; cbn; lia|].
    constructor; [lia|]. eapply Forall_impl; [exact Hn|]. cbn. naive_solver lia.
Qed.

(** A call of [save] by the user or of [remove]. *)
Lemma queue_ok_intent st e publish retain n :
  queue_ok st → capturedGeneration e = generation st + 1 → ¬ isAutomatic e →
  publish = bool_decide (kind e ≠ KRemove) →
  queue_ok (mkState (queue st ++ [e]) (generation st + 1) publish retain n).
Proof.
  intros H He Hk ->. right. exists (queue st), e, []. cbn [queue generation].
  split_and!; [done| |done|done| |constructor].
  - eapply Forall_impl; [by apply queue_ok_old|]. cbn. lia.
  - unfold isCurrent. cbn [generation publishDesired]. rewrite He, Z.eqb_refl.
    by destruct (kind e) as [[]|].
Qed.

Lemma isCurrent_publish e st st' :
  generation st = generation st' → publishDesired st = publishDesired st' →
  isCurrent e st = isCurrent e st'.
Proof. unfold isCurrent. by intros -> ->. Qed.

Lemma queue_ok_automatic st e n :
  queue_ok st → capturedGeneration e = generation st → isAutomatic e →
  queue_ok (mkState (queue st ++ [e]) (generation st) (publishDesired st) (retainDraftBlock st) n).
Proof.
  intros [H|(old & x & new & Hq & Ho & Hx & Hk & Hc & Hn)] He Ha.
  - left. cbn. apply Forall_app. split; [done|]. by rewrite Forall_singleton.
  - right. exists old, x, (new ++ [e]). cbn. rewrite Hq, <-(assoc_L (++)). split_and!; try done.
    apply Forall_app. split; [done|]. by rewrite Forall_singleton.
Qed.

(** The end of the head: of an older call, of the latest one or of a save. *)
Lemma queue_ok_pop e rest g p r n p' r' n' :
  queue_ok (mkState (e :: rest) g p r n) →
  p' = p ∨ (¬ isAutomatic e ∧ isCurrent e (mkState rest g p r n) = true) →
  queue_ok (mkState rest g p' r' n').
Proof.
  intros [H|(old & x & new & Hq & Ho & Hx & Hk & Hc & Hn)] Hp; cbn [queue generation] in *.
  - apply Forall_cons in H as [_ H]. by left.
  - destruct old as [|e' old]; injection Hq as -> ->; [by left|].
    apply Forall_cons in Ho as [Hlt Ho]. right. exists old, x, new.
    split_and!; try done. destruct Hp as [->|[_ Hcur]]; [by rewrite <-Hc; apply isCurrent_publish|].
    unfold isCurrent in Hcur. cbn [generation] in Hcur. apply andb_true_iff in Hcur as [Hcur _].
    apply Z.eqb_eq in Hcur. lia.
Qed.

Lemma newState_ok : pending (@newState Call) = 0 ∧ queue_ok (@newState Call).
Proof. split; [done|]. left. constructor. Qed.

Lemma getState_ok k c :
  console_ok k c → pending (getState k c) = Z.of_nat (length (queue (getState k c))) ∧ queue_ok (getState k c).
Proof.
  intros H. unfold getState. destruct (states c !! k) as [st|] eqn:E; [|apply newState_ok].
  by destruct (H st E) as (? & ? & _).
Qed.

Lemma enqueue_ok k st e c :
  pending st = Z.of_nat (length (queue st)) →
  queue_ok (mkState (queue st ++ [e]) (generation st) (publishDesired st) (retainDraftBlock st) (pending st + 1)) →
  console_ok k (enqueue k st e c).
Proof.
  intros Hp Hq st' Hst. unfold enqueue in Hst. cbn [states] in Hst. rewrite lookup_insert_eq in Hst.
  injection Hst as <-. split_and!; [|done|].
  - cbn. rewrite length_app. cbn. lia.
  - cbn. by intros [_ ?]%app_eq_nil.
Qed.

Lemma refused_existing k c : publishDesired (getState k c) = false → states c !! k = Some (getState k c).
Proof. unfold getState. by destruct (states c !! k). Qed.

Lemma save_ok k mode m c : console_ok k c → console_ok k (save k mode m c).
Proof.
  intros H. destruct (getState_ok k c H) as [Hp Hq]. unfold save. destruct mode.
  - apply enqueue_ok; [done|]. by apply (queue_ok_intent (getState k c)).
  - destruct (publishDesired (getState k c)) eqn:E; cbn [negb].
    + apply enqueue_ok; [done|]. by apply (queue_ok_automatic (getState k c)).
    + intros st. cbn [states]. rewrite lookup_insert_eq. intros [= <-].
      by apply H, refused_existing.
Qed.

Lemma remove_ok k retain m c : console_ok k c → console_ok k (remove k retain m c).
Proof.
  intros H. destruct (getState_ok k c H) as [Hp Hq]. unfold remove.
  apply enqueue_ok; [done|]. by apply (queue_ok_intent (getState k c)).
Qed.

Lemma finish_console_ok k e rest g p r n p' r' c :
  state_ok (mkState (e :: rest) g p r n) →
  p' = p ∨ (¬ isAutomatic e ∧ isCurrent e (mkState rest g p r n) = true) →
  console_ok k (finish k (mkState rest g p' r' n) c).
Proof.
  intros (Hn & Hq & _) Hp st. unfold finish. cbn [queue generation publishDesired retainDraftBlock pending] in *.
  destruct ((n - 1 =? 0) && (p' || negb r')) eqn:E; cbn [states].
  - rewrite lookup_delete_eq. done.
  - rewrite lookup_insert_eq. intros [= <-]. cbn [length] in Hn.
    split_and!; [cbn; lia|by eapply queue_ok_pop|]. cbn. intros ->. cbn in Hn.
    rewrite Hn in E. by destruct p', r'.
Qed.

Lemma onError_state e rest g p r n :
  ∃ p' r', onError e (mkState rest g p r n) = mkState rest g p' r' n ∧
    (p' = p ∨ (¬ isAutomatic e ∧ isCurrent e (mkState rest g p r n) = true)).
Proof.
  unfold onError. destruct (bool_decide (kind e ≠ KSave automatic) && _) eqn:E; [|by eauto].
  apply andb_true_iff in E as [?%bool_decide_eq_true Hc]. eauto 6.
Qed.

Lemma settle_ok k ok c : console_ok k c → console_ok k (settle k ok c).
Proof.
  intros H. unfold settle. destruct (states c !! k) as [[[|e rest] g p r n]|] eqn:E; [done| |done].
  specialize (H _ E). destruct ok; [by eapply finish_console_ok; [|left]|].
  destruct (onError_state e rest g p r n) as (p' & r' & -> & Hp). by eapply finish_console_ok.
Qed.

Lemma run_states_other k o c :
  (match o with OpSave k' _ _ | OpRemove k' _ _ | OpSettle k' _ => k' end) ≠ k →
  states (run c o) !! k = states c !! k.
Proof.
  destruct o as [k' [] m|k' retain m|k' ok]; intros Hk; cbn [run].
  - unfold save, enqueue. cbn [states]. by rewrite !lookup_insert_ne.
  - unfold save, enqueue. destruct (negb _); cbn [states]; by rewrite !lookup_insert_ne.
  - unfold remove, enqueue. cbn [states]. by rewrite !lookup_insert_ne.
  - unfold settle. destruct (states c !! k') as [[[|e rest] g p r n]|]; [done| |done].
    destruct ok; unfold finish; cbn [states]; case_match;
      by rewrite ?lookup_delete_ne, ?lookup_insert_ne.
Qed.

Lemma run_ok k o c : console_ok k c → console_ok k (run c o).
Proof.
  intros H.
  destruct (decide ((match o with OpSave k' _ _ | OpRemove k' _ _ | OpSettle k' _ => k' end) = k)) as [<-|Hk].
  - destruct o; cbn; auto using save_ok, remove_ok, settle_ok.
  - intros st. rewrite run_states_other by done. apply H.
Qed.

Lemma runs_console_ok k ops : ∀ c, console_ok k c → console_ok k (fold_left run ops c).
Proof. induction ops as [|o ops IH]; intros c H; [done|]. cbn. by apply IH, run_ok. Qed.

(* ------------------------------------------------------------------ *)
(** ** The calls and their ends *)

Definition callsOf k ops : list Call :=
  omap (λ o, match o with
             | OpSave k' _ m | OpRemove k' _ m => if decide (k' = k) then Some m else None
             | OpSettle _ _ => None
             end) ops.

Definition refusedOf k (outs : list Outcome) : list Call :=
  omap (λ o, match o with NotExecuted k' m => if decide (k' = k) then Some m else None | _ => None end) outs.

Definition executedOf k (outs : list Outcome) : list Call :=
  omap (λ o, match o with
             | Executed k' m _ | Failed k' m => if decide (k' = k) then Some m else None
             | _ => None
             end) outs.

Definition waitingOf k c : list Call := call <$> queue (getState k c).

Definition calls_ok k ops c : Prop :=
  callsOf k ops ≡ₚ refusedOf k (outcomes c) ++ executedOf k (outcomes c) ++ waitingOf k c ∧
  executedOf k (outcomes c) ++ waitingOf k c `sublist_of` callsOf k ops.

Lemma calls_ok_snoc k ops c o c' :
  calls_ok k ops c →
  (∃ m, callsOf k [o] = [m] ∧
     (refusedOf k (outcomes c') = refusedOf k (outcomes c) ++ [m] ∧
        executedOf k (outcomes c') ++ waitingOf k c' = executedOf k (outcomes c) ++ waitingOf k c ∨
      refusedOf k (outcomes c') = refusedOf k (outcomes c) ∧
        executedOf k (outcomes c') ++ waitingOf k c' = executedOf k (outcomes c) ++ waitingOf k c ++ [m])) ∨
  (callsOf k [o] = [] ∧ refusedOf k (outcomes c') = refusedOf k (outcomes c) ∧
     executedOf k (outcomes c') ++ waitingOf k c' = executedOf k (outcomes c) ++ waitingOf k c) →
  calls_ok k (ops ++ [o]) c'.
Proof.
  intros [Hp Hs] Hcase. unfold calls_ok. assert (callsOf k (ops ++ [o]) = callsOf k ops ++ callsOf k [o]) as ->
    by apply omap_app.
  destruct Hcase as [(m & -> & [[-> ->]|[-> ->]])|(-> & -> & ->)].
  - split; [rewrite Hp; solve_Permutation|]. by apply sublist_inserts_r.
  - rewrite (assoc_L (++) (executedOf _ _)). split; [rewrite Hp; solve_Permutation|].
    by apply sublist_app.
  - by rewrite app_nil_r.
Qed.

Lemma waitingOf_insert k st m outs : waitingOf k (mkCoordinator (<[k := st]> m) outs) = call <$> queue st.
Proof. unfold waitingOf, getState. cbn [states]. by rewrite lookup_insert_eq. Qed.

Lemma waitingOf_same k c c' : states c' !! k = states c !! k → waitingOf k c' = waitingOf k c.
Proof. unfold waitingOf, getState. by intros ->. Qed.

Lemma enqueue_calls k st e c c0 :
  queue st = queue (getState k c0) → outcomes c = outcomes c0 →
  refusedOf k (outcomes (enqueue k st e c)) = refusedOf k (outcomes c0) ∧
  executedOf k (outcomes (enqueue k st e c)) ++ waitingOf k (enqueue k st e c)
  = executedOf k (outcomes c0) ++ waitingOf k c0 ++ [call e].
Proof.
  intros Hq Ho. unfold enqueue. cbn [outcomes]. rewrite waitingOf_insert. cbn [queue].
  rewrite fmap_app, Hq, Ho. done.
Qed.

Ltac own := cbn [callsOf refusedOf executedOf omap list_omap];
  unfold callsOf, refusedOf, executedOf; rewrite ?omap_app; cbn [omap list_omap];
  repeat first [rewrite decide_True by done | rewrite decide_False by done];
  rewrite ?app_nil_r.

Lemma run_other_outcomes k o c :
  (match o with OpSave k' _ _ | OpRemove k' _ _ | OpSettle k' _ => k' end) ≠ k →
  refusedOf k (outcomes (run c o)) = refusedOf k (outcomes c) ∧
  executedOf k (outcomes (run c o)) = executedOf k (outcomes c) ∧ callsOf k [o] = [].
Proof.
  destruct o as [k' [] m|k' retain m|k' ok]; intros Hk; cbn [run].
  - split_and!; by own.
  - unfold save. destruct (negb _); split_and!; cbn [outcomes enqueue]; by own.
  - split_and!; by own.
  - unfold settle. destruct (states c !! k') as [[[|e rest] g p r n]|]; [done| |done].
    destruct ok; split_and!; cbn [outcomes finish]; by own.
Qed.

Lemma settle_calls k ok c :
  console_ok k c →
  refusedOf k (outcomes (settle k ok c)) = refusedOf k (outcomes c) ∧
  executedOf k (outcomes (settle k ok c)) ++ waitingOf k (settle k ok c)
  = executedOf k (outcomes c) ++ waitingOf k c.
Proof.
  intros H. unfold settle. destruct (states c !! k) as [[[|e rest] g p r n]|] eqn:E; [done| |done].
  destruct (H _ E) as (Hn & _). cbn in Hn.
  assert (waitingOf k c = call e :: (call <$> rest)) as ->
    by (unfold waitingOf, getState; by rewrite E).
  assert (∀ p' r' c', waitingOf k (finish k (mkState rest g p' r' n) c') = call <$> rest) as Hw.
  { intros p' r' c'. unfold finish. cbn [pending queue publishDesired retainDraftBlock generation].
    destruct ((n - 1 =? 0) && _) eqn:Hd; [|by rewrite waitingOf_insert].
    apply andb_true_iff in Hd as [Hd%Z.eqb_eq _].
    assert (rest = []) as -> by (destruct rest; [done|cbn in Hn; lia]).
    unfold waitingOf, getState. cbn [states]. by rewrite lookup_delete_eq. }
  destruct ok.
  - rewrite Hw. cbn [outcomes finish]. split; own; [done|]. by rewrite <-(assoc_L (++)).
  - destruct (onError_state e rest g p r n) as (p' & r' & -> & _). rewrite Hw.
    cbn [outcomes finish]. split; own; [done|]. by rewrite <-(assoc_L (++)).
Qed.

Lemma run_calls_ok k ops o c : console_ok k c → calls_ok k ops c → calls_ok k (ops ++ [o]) (run c o).
Proof.
  intros Hok H. eapply calls_ok_snoc; [exact H|].
  destruct (decide ((match o with OpSave k' _ _ | OpRemove k' _ _ | OpSettle k' _ => k' end) = k)) as [<-|Hk].
  - destruct o as [k [] m|k retain m|k ok]; cbn [run].
    + left. exists m. split; [by own|]. right. by apply enqueue_calls.
    + left. exists m. split; [by own|]. unfold save.
      destruct (publishDesired (getState k c)) eqn:E; cbn [negb].
      * right. by apply enqueue_calls.
      * left. cbn [outcomes states]. rewrite waitingOf_insert. split; own; done.
    + left. exists m. split; [by own|]. right. by apply enqueue_calls.
    + right. split; [done|]. by apply settle_calls.
  - right. destruct (run_other_outcomes k o c Hk) as (-> & -> & Hc). split_and!; [done..|].
    f_equal. apply waitingOf_same. by apply run_states_other.
Qed.

Lemma runs_calls_ok k ops : calls_ok k ops (fold_left run ops newCoordinator).
Proof.
  induction ops as [|o ops IH] using rev_ind; [done|]. rewrite fold_left_app. cbn [fold_left].
  apply run_calls_ok; [|done]. by apply runs_console_ok.
Qed.
End spec.

(** The mutations of a console run one after the other in the order of the
    calls, and every call ends exactly once, or waits; a call the user made is
    reported current exactly when none of his saves or removals followed it,
    and an automatic save never when one did; a console without mutations is
    remembered only while automatic saves must not bring a removed one back. *)
Theorem console_mutations_spec {Call : Type} k (ops : list (@op Call)) :
  let c := fold_left run ops newCoordinator in
  let ended := executedOf k (outcomes c) in
  callsOf k ops ≡ₚ refusedOf k (outcomes c) ++ ended ++ waitingOf k c ∧
  ended ++ waitingOf k c `sublist_of` callsOf k ops ∧
  ∀ st, states c !! k = Some st →
    match queue st with
    | [] => publishDesired st = false ∧ retainDraftBlock st = true
    | e :: rest => (isCurrent e st = true → Forall isAutomatic rest) ∧
                   (¬ isAutomatic e → Forall isAutomatic rest → isCurrent e st = true)
    end.
Proof.
  intros c ended. destruct (runs_calls_ok k ops) as [Hp Hs]. split_and!; [done..|].
  intros st Hst. destruct (runs_console_ok k ops newCoordinator (λ _ _, ltac:(done)) st Hst) as (_ & Hq & He).
  destruct (queue st) as [|e rest] eqn:E; [by apply He|]. unfold queue_ok in Hq. rewrite E in Hq.
  destruct Hq as [H|(old & x & new & Hqueue & Ho & Hx & Hk & Hc & Hn)].
  - apply Forall_cons in H as [[Ha _] H]. split; [|done]. intros _.
    eapply Forall_impl; [exact H|]. naive_solver.
  - destruct old as [|e' old]; injection Hqueue as -> ->.
    + split; [|done]. intros _. eapply Forall_impl; [exact Hn|]. naive_solver.
    + apply Forall_cons in Ho as [Hlt Ho]. split.
      * unfold isCurrent. rewrite (proj2 (Z.eqb_neq _ _)) by lia. done.
      * intros _ Hall. apply Forall_app in Hall as [_ Hall]. by apply Forall_cons in Hall as [? _].
Qed.

(* ------------------------------------------------------------------ *)
(** ** Removed consoles *)

Section removed.
Context {Call : Type} (k : Z) (m : Call).
Notation Coordinator := (@Coordinator Call).
Implicit Types (c : Coordinator).

(** Neither the user's save nor another removal of the console. *)
Definition keepsRemoved (o : @op Call) : Prop :=
  match o with
  | OpSave k' manual _ | OpRemove k' _ _ => k' ≠ k
  | OpSave _ automatic _ | OpSettle _ _ => True
  end.

Definition removal_stands c : Prop :=
  Failed k m ∈ outcomes c ∨
  ∃ st, states c !! k = Some st ∧ publishDesired st = false ∧ retainDraftBlock st = true ∧
    (queue st = [] ∨
     ∃ old e, queue st = old ++ [e] ∧ call e = m ∧
       Forall (λ x, capturedGeneration x < generation st) old).

Lemma outcomes_grow o c x : x ∈ outcomes c → x ∈ outcomes (run c o).
Proof.
  intros Hx. destruct o as [k' [] m'|k' r m'|k' ok]; cbn [run]; [done| |done|].
  - unfold save. destruct (negb _); cbn [outcomes enqueue]; [set_solver|done].
  - unfold settle. destruct (states c !! k') as [[[|e rest] g p r n]|]; [done| |done].
    destruct ok; cbn [outcomes finish]; set_solver.
Qed.

Lemma onError_old (e : @Execution Call) rest g p r n :
  capturedGeneration e < g → onError e (mkState rest g p r n) = mkState rest g p r n.
Proof.
  intros H. unfold onError, isCurrent. cbn [generation].
  rewrite (proj2 (Z.eqb_neq _ _)) by lia. by rewrite andb_false_r.
Qed.

(** The removal stays wanted while its state does. *)
Lemma finish_stands rest g n c :
  rest = [] ∨ (∃ old e, rest = old ++ [e] ∧ call e = m ∧ Forall (λ x, capturedGeneration x < g) old) →
  removal_stands (finish k (mkState rest g false true n) c).
Proof.
  intros H. right. unfold finish. cbn [pending publishDesired retainDraftBlock orb negb].
  rewrite andb_false_r. eexists. cbn [states]. rewrite lookup_insert_eq. split_and!; done.
Qed.

Lemma run_stands o c : keepsRemoved o → removal_stands c → removal_stands (run c o).
Proof.
  intros Ho [H|H]; [left; by apply outcomes_grow|]. destruct H as (st & Hst & Hp & Hr & Hq).
  destruct (decide ((match o with OpSave k' _ _ | OpRemove k' _ _ | OpSettle k' _ => k' end) = k)) as [Hk|Hk].
  2: { right. exists st. by rewrite run_states_other. }
  destruct o as [k' [] m'|k' retain m'|k' ok]; cbn in Ho; [done| |done|]; subst k'; cbn [run].
  - right. exists st. unfold save, getState. rewrite Hst. cbn [default from_option id]. rewrite Hp.
    cbn [negb states]. by rewrite lookup_insert_eq.
  - unfold settle. rewrite Hst. destruct st as [[|e rest] g p r n]; cbn in Hp, Hr, Hq; subst p r.
    { right. eexists. rewrite Hst. naive_solver. }
    destruct Hq as [?|(old & e' & Hqueue & He & Hold)]; [done|].
    destruct old as [|e1 old]; injection Hqueue as -> ->.
    + destruct ok; [by apply finish_stands; left|]. left.
      unfold finish. cbn [outcomes]. rewrite He. set_solver.
    + apply Forall_cons in Hold as [Hlt Hold].
      destruct ok; [|rewrite onError_old by done]; apply finish_stands; right; eauto.
Qed.

Lemma remove_stands c : console_ok k c → removal_stands (remove k true m c).
Proof.
  intros H. destruct (getState_ok k c H) as [_ Hq]. right. unfold remove, enqueue. cbn [states].
  rewrite lookup_insert_eq. eexists. cbn [queue generation publishDesired retainDraftBlock].
  split_and!; [done..|]. right. eexists _, _. split_and!; [done..|].
  eapply Forall_impl; [by apply queue_ok_old|]. cbn. lia.
Qed.
End removed.

(** C15: once the user removes a console whose tab stays open, no automatic save
    brings it back: until he saves or removes it again, or the removal fails,
    automatic saves are refused without running, while the removal waits or
    runs and ever after. *)
Theorem removed_blocks_drafts {Call : Type} k (m m' : Call) ops ops' :
  Forall (keepsRemoved k) ops' →
  let c := fold_left run ops' (remove k true m (fold_left run ops newCoordinator)) in
  Failed k m ∉ outcomes c →
  outcomes (save k automatic m' c) = outcomes c ++ [NotExecuted k m'] ∧
  states (save k automatic m' c) = states c.
Proof.
  intros Hops c Hfail. assert (removal_stands k m c) as H.
  { unfold c. clear Hfail c. assert (removal_stands k m (remove k true m (fold_left run ops newCoordinator))) as H.
    { by apply remove_stands, runs_console_ok. }
    revert H. generalize (remove k true m (fold_left run ops newCoordinator)).
    induction Hops as [|o ops' Ho _ IH]; intros c H; [done|]. cbn. by apply IH, run_stands. }
  destruct H as [?|(st & Hst & Hp & _)]; [done|].
  unfold save, getState. rewrite Hst. cbn [default from_option id]. rewrite Hp. cbn [negb states outcomes].
  split; [done|]. by apply insert_id.
Qed.

Example removed_blocks_drafts_witness :
  let c := fold_left run [OpSettle 7 true; OpSave 7 automatic 3; OpSettle 7 true]
    (remove 7 true 2 (fold_left run [OpSave 7 manual 1] newCoordinator)) in
  outcomes (save 7 automatic 4 c)
  = [Executed 7 1 false; NotExecuted 7 3; Executed 7 2 true; NotExecuted 7 4].
Proof.
  refine (proj1 (removed_blocks_drafts 7 2 4 [OpSave 7 manual 1]
    [OpSettle 7 true; OpSave 7 automatic 3; OpSettle 7 true] _ _)).
  - by repeat constructor.
  - intros H. vm_compute in H. repeat (apply elem_of_cons in H as [H|H]; [done|]). by apply elem_of_nil in H.
Defined.

(** A removal and a later save by the user that both fail leave the console
    blocked: the save restores what was wanted before it, which is the removal,
    whose own failure restored nothing because it was no longer the latest. *)
Lemma failed_removal_blocks_drafts :
  let c := fold_left run
    [OpRemove 7 true 1; OpSave 7 manual 2; OpSettle 7 false; OpSettle 7 false] newCoordinator in
  outcomes c = [Failed 7 1; Failed 7 2] ∧ waitingOf 7 c = [] ∧
  outcomes (save 7 automatic 3 c) = outcomes c ++ [NotExecuted 7 3].
Proof. by vm_compute. Qed.
