(* ===== verification/ResultColumns.v ===== *)
(** * ResultColumns: hidden, frozen and ordered columns of a result

    Models [apps/community-client/src/blocks/SearchResult/components/ResultSetTable/columnState.ts].
    The sets of hidden fields are used through membership and size only, so a
    [Set<string>] is a [gset].  The header of a column is data the functions
    pass on, of which they read the name. *)

From stdpp Require Import gmap.
From S2P Require Import Prelude JsNumber StableSort.
Local Open Scope nat_scope.

(** [field] is unknown to the code: a string, a number or something else. *)
Inductive FieldValue :=
  | FString (s : jstr)
  | FNumber (n : Z)
  | FOther.

Section columns.
Context {Header : Type} (headerName : Header → jstr).

Record ResultColumnLike := mkColumn {
  field : FieldValue;
  hide : option bool;
  originalData : option Header;
}.

Definition normalizeField (f : FieldValue) : option jstr :=
  match f with
  | FString [] => None
  | FString s => Some s
  | FNumber n => Some (znum n)
  | FOther => None
  end.

Definition getResultColumnFields (columns : list ResultColumnLike) : list jstr :=
  omap (λ column, normalizeField (field column)) columns.

Definition getVisibleResultColumnFields (columns : list ResultColumnLike) : list jstr :=
  omap (λ column, normalizeField (field column))
    (filter (λ column, hide column ≠ Some true) columns).

(* ------------------------------------------------------------------ *)
(** ** Hidden columns *)

Definition reconcileHiddenResultColumnFields (fields : list jstr) (hiddenFields : gset jstr) : gset jstr :=
  let next := filter (λ f, f ∈ fields) hiddenFields in
  if (0 <? length fields) && (length fields <=? size next)
  then match last fields with Some f => next ∖ {[f]} | None => next end
  else next.

Definition canHideResultColumns (fields : list jstr) (hiddenFields : gset jstr)
    (targetFields : list jstr) : bool :=
  let reconciledHiddenFields := reconcileHiddenResultColumnFields fields hiddenFields in
  let visibleFields := filter (λ f, f ∉ reconciledHiddenFields) fields in
  let visibleTargetCount := length (filter (λ f, f ∈ targetFields) visibleFields) in
  (0 <? visibleTargetCount) && (visibleTargetCount <? length visibleFields).

Definition canHideResultColumn (fields : list jstr) (hiddenFields : gset jstr) (f : jstr) : bool :=
  canHideResultColumns fields hiddenFields [f].

Definition hideResultColumnFields (fields : list jstr) (hiddenFields : gset jstr)
    (targetFields : list jstr) : gset jstr :=
  let next := reconcileHiddenResultColumnFields fields hiddenFields in
  if negb (canHideResultColumns fields next targetFields) then next
  else fold_left (λ next f, if decide (f ∈ targetFields) then {[f]} ∪ next else next) fields next.

Definition updateHiddenResultColumnFields (fields : list jstr) (hiddenFields : gset jstr)
    (f : jstr) (visible : bool) : gset jstr :=
  let next := reconcileHiddenResultColumnFields fields hiddenFields in
  if negb (includes f fields) then next
  else if visible then next ∖ {[f]}
  else hideResultColumnFields fields next [f].

(* ------------------------------------------------------------------ *)
(** ** Frozen columns *)

Definition getNextFrozenResultColumnFields (columns : list ResultColumnLike)
    (frozenFields targetFields : list jstr) : list jstr :=
  let visibleFields := getVisibleResultColumnFields columns in
  filter (λ f, f ∈ targetFields) visibleFields
  ++ filter (λ f, f ∉ targetFields ∧ f ∈ visibleFields) frozenFields.

(** [next.some((field, index) => field !== current[index])]. *)
Definition differsAt (next current : list jstr) : bool :=
  existsb (λ i, bool_decide (next !! i ≠ current !! i)) (seq 0 (length next)).

Definition canFreezeResultColumns (columns : list ResultColumnLike)
    (frozenFields targetFields : list jstr) : bool :=
  let visibleFields := getVisibleResultColumnFields columns in
  let next := getNextFrozenResultColumnFields columns frozenFields targetFields in
  if (length next =? 0) || (length visibleFields <=? length next) then false
  else
    let current := filter (λ f, f ∈ visibleFields) frozenFields in
    negb (length next =? length current) || differsAt next current.

Definition canFreezeResultColumn (columns : list ResultColumnLike) (f : jstr) : bool :=
  canFreezeResultColumns columns [] [f].

Definition getResultFrozenColumnCount (columns : list ResultColumnLike) (frozenFields : list jstr) : nat :=
  let visibleFields := getVisibleResultColumnFields columns in
  let visibleFrozenCount := length (filter (λ f, f ∈ visibleFields) frozenFields) in
  1 + min visibleFrozenCount (max 0 (length visibleFields - 1)).

(* ------------------------------------------------------------------ *)
(** ** Order *)

Definition MAX_SAFE_INTEGER : Z := 9007199254740991.

(** [new Map(orderedFields.map((field, index) => [field, index]))]: the last
    index of a field counts. *)
Fixpoint lastIndexIn (f : jstr) (index : nat) (orderedFields : list jstr) : option nat :=
  match orderedFields with
  | [] => None
  | g :: rest =>
      match lastIndexIn f (S index) rest with
      | Some i => Some i
      | None => if decide (f = g) then Some index else None
      end
  end.

Definition orderOf (orderedFields : list jstr) (column : ResultColumnLike) : Z :=
  match lastIndexIn (default [] (normalizeField (field column))) 0 orderedFields with
  | Some i => Z.of_nat i
  | None => MAX_SAFE_INTEGER
  end.

Definition orderLe (orderedFields : list jstr) (left right : nat * ResultColumnLike) : bool :=
  let difference := (orderOf orderedFields left.2 - orderOf orderedFields right.2)%Z in
  ((if difference =? 0 then Z.of_nat left.1 - Z.of_nat right.1 else difference) <=? 0)%Z.

Definition orderResultColumns (columns : list ResultColumnLike) (orderedFields : list jstr)
    : list ResultColumnLike :=
  (stable_sort (orderLe orderedFields) (imap (λ i column, (i, column)) columns)).*2.

Definition getResultColumnDisplayOrder (baseOrder frozenFields : list jstr) : list jstr :=
  filter (λ f, f ∈ baseOrder) frozenFields ++ filter (λ f, f ∉ frozenFields) baseOrder.

(** The first loop: the movable fields in display order, once each. *)
Definition movableDisplay (baseOrder displayOrder frozenFields : list jstr) : list jstr :=
  uniq (filter (λ f, f ∈ baseOrder ∧ f ∉ frozenFields) displayOrder).

(** [base.map(...)] with the counter [movableIndex]. *)
Fixpoint placeMovable (frozenFields movable : list jstr) (movableIndex : nat) (baseOrder : list jstr)
    : list jstr :=
  match baseOrder with
  | [] => []
  | f :: rest =>
      if bool_decide (f ∈ frozenFields) || bool_decide (f ∉ movable)
      then f :: placeMovable frozenFields movable movableIndex rest
      else or_else (default [] (movable !! movableIndex)) f
           :: placeMovable frozenFields movable (S movableIndex) rest
  end.

Definition mergeResultColumnOrderFromDisplay (baseOrder displayOrder frozenFields : list jstr)
    : list jstr :=
  placeMovable frozenFields (movableDisplay baseOrder displayOrder frozenFields) 0 baseOrder.

(* ------------------------------------------------------------------ *)
(** ** Columns of the table *)

(** [tableInstance.getHeaderField], of the table library. *)
Context (getHeaderField : Z → Z → FieldValue).

Definition getResultFieldAtTableColumn (col row : Z) : option jstr :=
  normalizeField (getHeaderField col row).

Definition getResultColumnAtTableColumn (columns : option (list ResultColumnLike)) (col row : Z)
    : option ResultColumnLike :=
  f ← getResultFieldAtTableColumn col row; columns ← columns;
  js_find (λ column, bool_decide (normalizeField (field column) = Some f)) columns.

Definition getResultColumnNameAtTableColumn (columns : option (list ResultColumnLike)) (col row : Z)
    : option jstr :=
  column ← getResultColumnAtTableColumn columns col row; headerName <$> originalData column.

(** The metadata of the cells of a record, by source index. *)
Definition getResultCellMetaAtTableColumn {Cell} (record : option (list Cell)) (col row : Z) : option Cell :=
  f ← getResultFieldAtTableColumn col row; sourceIndex ← js_Number f; cells ← record;
  if (0 <=? sourceIndex)%Z then cells !! Z.to_nat sourceIndex else None.
End columns.

(* ------------------------------------------------------------------ *)
(** ** What hiding keeps *)

Section hiding.
Implicit Types (fields : list jstr) (hidden : gset jstr).

(** Hidden fields are fields of the result, and one field stays visible. *)
Definition shows_some fields hidden : Prop :=
  (∀ f, f ∈ hidden → f ∈ fields) ∧ ∃ f, f ∈ fields ∧ f ∉ hidden.

Lemma small_shows fields hidden : size hidden < length fields → NoDup fields → ∃ f, f ∈ fields ∧ f ∉ hidden.
Proof.
  intros Hsize Hnd. destruct (decide (Exists (λ f, f ∉ hidden) fields)) as [H|H].
  - by apply Exists_exists in H.
  - exfalso. rewrite <-Forall_Exists_neg in H.
    assert (list_to_set fields ⊆ hidden) as Hsub.
    { intros f Hf. apply elem_of_list_to_set in Hf. rewrite Forall_forall in H.
      destruct (decide (f ∈ hidden)); [done|]. by destruct (H f Hf). }
    apply subseteq_size in Hsub. rewrite size_list_to_set in Hsub by done. lia.
Qed.

Lemma reconcile_shows fields hidden :
  NoDup fields → fields ≠ [] → shows_some fields (reconcileHiddenResultColumnFields fields hidden).
Proof.
  intros Hnd Hne. unfold reconcileHiddenResultColumnFields.
  set (next := filter _ hidden).
  assert (∀ f, f ∈ next → f ∈ fields) as Hsub by (intros f; unfold next; rewrite elem_of_filter; tauto).
  assert (0 <? length fields = true) as -> by (apply Nat.ltb_lt; destruct fields; [done|cbn; lia]).
  destruct (length fields <=? size next) eqn:E; cbn [andb].
  - destruct (last fields) as [f|] eqn:Hl; [|by apply last_None in Hl].
    split; [set_solver|]. exists f. split; [by apply last_Some_elem_of|set_solver].
  - apply Nat.leb_gt in E. split; [done|]. by apply small_shows.
Qed.

Lemma reconcile_id fields hidden :
  NoDup fields → shows_some fields hidden → reconcileHiddenResultColumnFields fields hidden = hidden.
Proof.
  intros Hnd [Hsub (f & Hf & Hh)]. unfold reconcileHiddenResultColumnFields.
  assert (filter (λ f, f ∈ fields) hidden = hidden) as -> by (apply leibniz_equiv; set_solver).
  assert (size hidden < length fields) as Hlt.
  { rewrite <-(size_list_to_set (C:=gset jstr)) by done. apply subset_size. split; [set_solver|].
    intros Hsub'. apply Hh, Hsub'. by apply elem_of_list_to_set. }
  rewrite (proj2 (Nat.leb_gt _ _)) by lia. by rewrite andb_false_r.
Qed.

Lemma hideAll_elem (targets : list jstr) fields : ∀ (next : gset jstr) f,
  f ∈ fold_left (λ next f, if decide (f ∈ targets) then {[f]} ∪ next else next) fields next
  ↔ f ∈ next ∨ f ∈ fields ∧ f ∈ targets.
Proof.
  induction fields as [|g fields IH]; intros next f; cbn; [set_solver|].
  rewrite IH. case_decide; set_solver.
Qed.

Lemma hide_shows fields hidden targets :
  NoDup fields → fields ≠ [] → shows_some fields (hideResultColumnFields fields hidden targets).
Proof.
  intros Hnd Hne. unfold hideResultColumnFields.
  set (next := reconcileHiddenResultColumnFields fields hidden).
  assert (shows_some fields next) as H by by apply reconcile_shows.
  destruct (canHideResultColumns fields next targets) eqn:E; cbn [negb]; [|done].
  unfold canHideResultColumns in E. rewrite reconcile_id in E by done.
  apply andb_true_iff in E as [_ Hlt%Nat.ltb_lt]. destruct H as [Hsub _]. split.
  - intros f. rewrite hideAll_elem. naive_solver.
  - destruct (decide (Exists (λ f, f ∉ targets) (filter (λ f, f ∉ next) fields))) as [He|He].
    + apply Exists_exists in He as (f & Hf & Ht). apply list_elem_of_filter in Hf as [Hn Hf].
      exists f. rewrite hideAll_elem. naive_solver.
    + rewrite <-Forall_Exists_neg in He. rewrite filter_all in Hlt; [lia|].
      eapply Forall_impl; [exact He|]. cbn. intros f Hf. destruct (decide (f ∈ targets)); naive_solver.
Qed.
End hiding.

(** Hiding, showing and reconciling columns never hide the last visible one,
    and the hidden fields are fields of the result. *)
Theorem columns_stay_visible fields hidden targets f visible :
  NoDup fields → fields ≠ [] →
  shows_some fields (reconcileHiddenResultColumnFields fields hidden) ∧
  shows_some fields (hideResultColumnFields fields hidden targets) ∧
  shows_some fields (updateHiddenResultColumnFields fields hidden f visible).
Proof.
  intros Hnd Hne. split_and!; [by apply reconcile_shows|by apply hide_shows|].
  unfold updateHiddenResultColumnFields.
  destruct (reconcile_shows fields hidden Hnd Hne) as [Hsub (g & Hg & Hh)].
  destruct (negb _); [by split; [|exists g]|]. destruct visible; [|by apply hide_shows].
  split; [set_solver|]. exists g. set_solver.
Qed.

Example columns_stay_visible_witness :
  shows_some [js "0"; js "1"] (hideResultColumnFields [js "0"; js "1"] {[js "0"]} [js "1"]).
Proof. apply (columns_stay_visible _ _ _ [] true); [compute_done|done]. Defined.

(* ------------------------------------------------------------------ *)
(** ** What reordering keeps *)

Section reordering.
Context (frozen movable : list jstr).
Implicit Types base : list jstr.

Definition slot (f : jstr) : Prop := f ∉ frozen ∧ f ∈ movable.

#[local] Instance slot_dec f : Decision (slot f).
Proof. unfold slot. apply _. Defined.

Lemma slot_test f :
  bool_decide (f ∈ frozen) || bool_decide (f ∉ movable) = bool_decide (¬ slot f).
Proof.
  apply eq_iff_eq_true. rewrite orb_true_iff, !bool_decide_eq_true. unfold slot.
  destruct (decide (f ∈ frozen)), (decide (f ∈ movable)); naive_solver.
Qed.

Lemma placeMovable_spec base : ∀ index,
  [] ∉ movable → length (filter slot base) = length (drop index movable) →
  let placed := placeMovable frozen movable index base in
  length placed = length base ∧
  (∀ i f, base !! i = Some f → ¬ slot f → placed !! i = Some f) ∧
  placed ≡ₚ filter (λ f, ¬ slot f) base ++ drop index movable ∧
  (Forall slot movable → filter slot placed = drop index movable).
Proof.
  intros index Hempty. revert index. induction base as [|f base IH]; intros index Hlen.
  { cbn in Hlen. symmetry in Hlen. apply length_zero_iff_nil in Hlen. rewrite Hlen. cbn.
    split_and!; [done|by intros []|done|done]. }
  cbn [placeMovable]. rewrite slot_test. destruct (decide (slot f)) as [Hs|Hs].
  - rewrite bool_decide_eq_false_2 by tauto. rewrite filter_cons_True in Hlen by done. cbn [length] in Hlen.
    destruct (movable !! index) as [g|] eqn:Hg.
    2: { apply lookup_ge_None in Hg. rewrite drop_ge in Hlen by done. done. }
    pose proof (drop_S _ _ _ Hg) as Hd. rewrite Hd in Hlen. cbn in Hlen.
    destruct (IH (S index)) as (H1 & H2 & H3 & H4); [lia|].
    assert (or_else (default [] (Some g)) f = g) as ->.
    { destruct g; [|done]. apply list_elem_of_lookup_2 in Hg. done. }
    split_and!.
    + cbn. lia.
    + intros [|i] h; cbn; [|by apply H2]. by intros [= ->].
    + rewrite filter_cons_False by tauto. rewrite H3, Hd. solve_Permutation.
    + intros Hall. rewrite filter_cons_True.
      * by rewrite H4, Hd.
      * rewrite Forall_forall in Hall. apply Hall. by eapply list_elem_of_lookup_2.
  - rewrite bool_decide_eq_true_2 by done. rewrite filter_cons_False in Hlen by done.
    destruct (IH index Hlen) as (H1 & H2 & H3 & H4). split_and!.
    + cbn. lia.
    + intros [|i] h; cbn; [done|by apply H2].
    + rewrite filter_cons_True by done. by rewrite H3.
    + intros Hall. rewrite filter_cons_False by done. by apply H4.
Qed.
End reordering.

Lemma movable_elem base display frozen f :
  f ∈ movableDisplay base display frozen ↔ f ∈ base ∧ f ∉ frozen ∧ f ∈ display.
Proof. unfold movableDisplay. rewrite elem_of_uniq, list_elem_of_filter. tauto. Qed.

Lemma movable_slots base display frozen :
  NoDup base →
  filter (slot frozen (movableDisplay base display frozen)) base ≡ₚ movableDisplay base display frozen.
Proof.
  intros Hnd. apply NoDup_Permutation; [by apply NoDup_filter|apply NoDup_uniq|].
  intros f. rewrite list_elem_of_filter. unfold slot. rewrite movable_elem. tauto.
Qed.

Lemma filter_ext_in {A} (P Q : A → Prop) `{∀ x, Decision (P x)} `{∀ x, Decision (Q x)} (xs : list A) :
  (∀ x, x ∈ xs → (P x ↔ Q x)) → filter P xs = filter Q xs.
Proof.
  induction xs as [|x xs IH]; intros H'; [done|]. rewrite !filter_cons, IH by set_solver.
  destruct (H' x ltac:(left)). repeat case_decide; tauto.
Qed.

(** The merged order is the base order with the movable fields the table shows
    in the order it shows them; frozen fields and those it does not show keep
    their places; when it shows all movable fields, the order displayed from
    the merged one is the frozen prefix and then the order it showed. *)
Theorem merge_display_order base display frozen :
  NoDup base → [] ∉ base →
  let movable := movableDisplay base display frozen in
  let merged := mergeResultColumnOrderFromDisplay base display frozen in
  merged ≡ₚ base ∧
  (∀ i f, base !! i = Some f → f ∈ frozen ∨ f ∉ display → merged !! i = Some f) ∧
  filter (λ f, f ∉ frozen ∧ f ∈ movable) merged = movable ∧
  ((∀ f, f ∈ base → f ∉ frozen → f ∈ display) →
     getResultColumnDisplayOrder merged frozen = filter (λ f, f ∈ base) frozen ++ movable).
Proof.
  intros Hnd Hempty movable merged. unfold merged, mergeResultColumnOrderFromDisplay.
  fold movable. pose proof (movable_slots base display frozen Hnd) as Hslots. fold movable in Hslots.
  destruct (placeMovable_spec frozen movable base 0) as (_ & Hplace & Hperm & Hfilter).
  { intros H. apply movable_elem in H as [? _]. done. }
  { by rewrite Hslots. }
  rewrite drop_0 in *. set (placed := placeMovable frozen movable 0 base) in *.
  assert (placed ≡ₚ base) as Hp.
  { rewrite Hperm, <-Hslots at 1. rewrite (comm (++)). apply filter_app_complement. }
  assert (filter (slot frozen movable) placed = movable) as Hf.
  { apply Hfilter, Forall_forall. intros f Hf. split; [|done]. by apply movable_elem in Hf as (_ & ? & _). }
  split_and!; [done| |exact Hf|].
  - intros i f Hi Hfd. apply Hplace; [done|]. intros [H1 H2]. apply movable_elem in H2. tauto.
  - intros Hall. unfold getResultColumnDisplayOrder. f_equal.
    + apply list_filter_iff. intros f. by rewrite Hp.
    + transitivity (filter (slot frozen movable) placed); [|done]. apply filter_ext_in. intros f Hin. rewrite Hp in Hin. unfold slot.
      unfold movable. rewrite movable_elem. naive_solver.
Qed.

Example merge_display_order_witness :
  mergeResultColumnOrderFromDisplay [js "0"; js "1"; js "2"; js "3"] [js "3"; js "0"; js "2"] [js "1"]
  ≡ₚ [js "0"; js "1"; js "2"; js "3"].
Proof.
  apply (merge_display_order [js "0"; js "1"; js "2"; js "3"] [js "3"; js "0"; js "2"] [js "1"]);
    compute_done.
Defined.
