(* ===== verification/RedisKeyTree.v ===== *)
(** * RedisKeyTree: Redis keys grouped by their colons

    Models [apps/community-client/src/blocks/RedisAllData/redisKeyTree.ts] and
    [redisRowIdentity.ts]: the tree of keys, whose groups are the prefixes
    before the colons of a key.

    [encodeURIComponent] throws on text that is no well-formed UTF-16, and with
    it the whole construction: [None].  The comparison of names is that of an
    [Intl.Collator] and a parameter here.  A mutable group of the code is a
    value that is rebuilt along the path of a key. *)

From S2P Require Import Prelude UriComponent StableSort.
Local Open Scope nat_scope.

Definition REDIS_KEY_SEPARATOR : N := ch ":".

(* ------------------------------------------------------------------ *)
(** ** Rows *)

Record RedisDataItem := mkItem {
  name : option jstr;
  type : jstr;
  ttl : Z;
  isDraftFE : option bool;
}.

Definition REDIS_DRAFT_ROW_IDENTITY : jstr := js "redis-draft:active".

Definition redisKeyRowIdentity (redisKey : jstr) : option jstr :=
  e ← encodeURIComponent redisKey; Some (js "redis-key:" ++ e).

(** The outer option is the exception, the inner one [undefined]. *)
Definition getRedisDataItemIdentity (item : RedisDataItem) : option (option jstr) :=
  match name item with
  | Some n => Some <$> redisKeyRowIdentity n
  | None => Some (if default false (isDraftFE item) then Some REDIS_DRAFT_ROW_IDENTITY else None)
  end.

Fixpoint findIdentity (index : nat) (items : list RedisDataItem) (identity : jstr)
    : option (option (RedisDataItem * nat)) :=
  match items with
  | [] => Some None
  | item :: rest =>
      i ← getRedisDataItemIdentity item;
      if bool_decide (i = Some identity) then Some (Some (item, index))
      else findIdentity (S index) rest identity
  end.

Definition resolveRedisDataItem (items : option (list RedisDataItem)) (identity : option jstr)
    : option (option (RedisDataItem * nat)) :=
  match items, identity with
  | Some items, Some (c :: identity) => findIdentity 0 items (c :: identity)
  | _, _ => Some None
  end.

(* ------------------------------------------------------------------ *)
(** ** Nodes *)

(** A node of kind [group] or [key]. *)
Inductive RedisKeyTreeNode :=
  | GroupNode (key title : jstr) (count : nat) (children : list RedisKeyTreeNode)
  | KeyNode (key nodeName : jstr) (rowIndex : nat) (nodeType : jstr) (nodeTtl : Z).

Definition isGroup (node : RedisKeyTreeNode) : bool :=
  match node with GroupNode _ _ _ _ => true | KeyNode _ _ _ _ _ => false end.

Definition nodeName (node : RedisKeyTreeNode) : jstr :=
  match node with GroupNode _ title _ _ => title | KeyNode _ n _ _ _ => n end.

Definition getRedisTreeRowIndex (node : RedisKeyTreeNode) : option nat :=
  match node with GroupNode _ _ _ _ => None | KeyNode _ _ i _ _ => Some i end.

Inductive MutableRedisKeyGroup :=
  mkGroup (key title : jstr) (count : nat) (groups : dict MutableRedisKeyGroup)
    (leaves : list RedisKeyTreeNode).

Definition createMutableGroup (key title : jstr) : MutableRedisKeyGroup := mkGroup key title 0 [] [].

Definition groupNodeKey (path : list jstr) : option jstr :=
  parts ← mapM encodeURIComponent path; Some (js "redis-group:" ++ join (js "/") parts).

(* ------------------------------------------------------------------ *)
(** ** Building *)

Section build.
(** [nameCollator.compare]. *)
Context (compare : jstr → jstr → Z).

Definition compareTreeNodes (left right : RedisKeyTreeNode) : Z :=
  if bool_decide (isGroup left ≠ isGroup right) then (if isGroup left then -1 else 1)%Z
  else compare (nodeName left) (nodeName right).

Definition nodeLe (left right : RedisKeyTreeNode) : bool := (compareTreeNodes left right <=? 0)%Z.

Fixpoint finalizeGroup (group : MutableRedisKeyGroup) : RedisKeyTreeNode :=
  let 'mkGroup key title count groups leaves := group in
  GroupNode key title count
    (stable_sort nodeLe (map (λ g, finalizeGroup g.2) groups ++ leaves)).

(** [group.count += 1]. *)
Definition countOne (group : MutableRedisKeyGroup) : MutableRedisKeyGroup :=
  let 'mkGroup key title count groups leaves := group in mkGroup key title (count + 1) groups leaves.

(** The walk from [group], which lies at [path], through the remaining segments
    to the group that gets the leaf. *)
Fixpoint addLeaf (path groupSegments : list jstr) (leaf : RedisKeyTreeNode)
    (group : MutableRedisKeyGroup) : option MutableRedisKeyGroup :=
  let 'mkGroup key title count groups leaves := group in
  match groupSegments with
  | [] => Some (mkGroup key title count groups (leaves ++ [leaf]))
  | segment :: groupSegments =>
      let path := path ++ [segment] in
      child ← match dget segment groups with
              | Some child => Some child
              | None => childKey ← groupNodeKey path; Some (createMutableGroup childKey segment)
              end;
      child' ← addLeaf path groupSegments leaf (countOne child);
      Some (mkGroup key title count (dset segment child' groups) leaves)
  end.

Definition initSegments (segments : list jstr) : list jstr := take (length segments - 1) segments.

(** The segments of the group of a name; [canGroup] fails on an empty one. *)
Definition homeOf (n : jstr) : list jstr :=
  let groupSegments := initSegments (split_char REDIS_KEY_SEPARATOR n) in
  if (0 <? length groupSegments) && forallb (λ s, bool_decide (s ≠ [])) groupSegments
  then groupSegments else [].

Definition addItem (root : MutableRedisKeyGroup) (rowIndex : nat) (item : RedisDataItem)
    : option MutableRedisKeyGroup :=
  match name item with
  | None => Some root
  | Some n =>
      key ← redisKeyRowIdentity n;
      addLeaf [] (homeOf n) (KeyNode key n rowIndex (type item) (ttl item)) root
  end.

Fixpoint addItems (root : MutableRedisKeyGroup) (rowIndex : nat) (items : list RedisDataItem)
    : option MutableRedisKeyGroup :=
  match items with
  | [] => Some root
  | item :: items => root ← addItem root rowIndex item; addItems root (S rowIndex) items
  end.

Definition buildRedisKeyTree (items : list RedisDataItem) : option (list RedisKeyTreeNode) :=
  '(mkGroup _ _ _ groups leaves) ← addItems (createMutableGroup (js "redis-root") []) 0 items;
  Some (stable_sort nodeLe (map (λ g, finalizeGroup g.2) groups ++ leaves)).
End build.

(* ------------------------------------------------------------------ *)
(** ** Keys of groups *)

Fixpoint collectNode (node : RedisKeyTreeNode) : list jstr :=
  match node with
  | GroupNode key _ _ children => key :: flat_map collectNode children
  | KeyNode _ _ _ _ _ => []
  end.

Definition collectRedisGroupKeys (nodes : list RedisKeyTreeNode) : list jstr := flat_map collectNode nodes.

(** Groups without child groups are left out; only child groups are visited,
    and visiting a key does nothing. *)
Fixpoint collectBranch (node : RedisKeyTreeNode) : list jstr :=
  match node with
  | GroupNode key _ _ children =>
      if existsb isGroup children then key :: flat_map collectBranch children else []
  | KeyNode _ _ _ _ _ => []
  end.

Definition collectRedisBranchGroupKeys (nodes : list RedisKeyTreeNode) : list jstr :=
  flat_map collectBranch nodes.

(* ------------------------------------------------------------------ *)
(** ** Encoded names *)

Lemma encode_bounded_no_slash n s e :
  length s ≤ n → encodeURIComponent s = Some e → 47%N ∉ e.
Proof.
  assert (∀ b, 47%N ∉ percent b) as Hpercent.
  { assert (∀ x, hexdigit x ≠ 47%N) as Hhex.
    { intros x. unfold hexdigit. destruct (x <? 10)%N eqn:E; [lia|]. apply N.ltb_ge in E. lia. }
    intros b. unfold percent. rewrite !not_elem_of_cons. split_and!; auto using not_elem_of_nil. }
  assert (∀ bs, 47%N ∉ (bs ≫= percent)) as Hbytes.
  { intros bs (b & Hb & _)%list_elem_of_bind. by apply Hpercent in Hb. }
  revert s e. induction n as [|n IH]; intros [|c s] e Hn; cbn; intros He; cbn in Hn; try lia;
    [simplify_eq; set_solver..|].
  destruct (uri_unreserved c) eqn:Eu.
  - apply fmap_Some in He as (e' & He' & ->). apply not_elem_of_cons. split.
    + intros <-. by vm_compute in Eu.
    + eapply (IH s); [lia|done].
  - destruct (is_high c).
    + destruct s as [|d s]; [done|]. destruct (is_low d); [|done].
      apply fmap_Some in He as (e' & He' & ->). apply not_elem_of_app. split; [apply Hbytes|].
      eapply (IH s); [cbn in Hn; lia|done].
    + destruct (is_low c); [done|]. apply fmap_Some in He as (e' & He' & ->).
      apply not_elem_of_app. split; [apply Hbytes|]. eapply (IH s); [lia|done].
Qed.

Lemma encode_no_slash s e : encodeURIComponent s = Some e → 47%N ∉ e.
Proof. by apply (encode_bounded_no_slash (length s)). Qed.

Definition wf_path (path : list jstr) : Prop := Forall (λ s, wf_utf16 s = true) path.

Lemma groupNodeKey_some path : wf_path path → is_Some (groupNodeKey path).
Proof.
  intros H. unfold groupNodeKey.
  assert (is_Some (mapM encodeURIComponent path)) as [parts ->]; [|by eexists].
  apply mapM_is_Some. eapply Forall_impl; [exact H|]. cbn. intros s (e & He & _)%decode_encode. eauto.
Qed.

(** Different groups have different keys. *)
Lemma groupNodeKey_inj p q key :
  wf_path p → wf_path q → p ≠ [] → q ≠ [] →
  groupNodeKey p = Some key → groupNodeKey q = Some key → p = q.
Proof.
  intros Hp Hq Hnp Hnq. unfold groupNodeKey.
  destruct (mapM encodeURIComponent p) as [es|] eqn:Ep; [|done].
  destruct (mapM encodeURIComponent q) as [fs|] eqn:Eq; [|done].
  intros [= <-] [= Hj]. apply mapM_Some in Ep, Eq.
  assert (∀ path parts, path ≠ [] → Forall2 (λ s e, encodeURIComponent s = Some e) path parts →
    split_char 47%N (join (js "/") parts) = parts) as Hsplit.
  { intros path parts Hne H. change (js "/") with [47%N]. apply split_char_join.
    - intros ->. by apply Forall2_nil_inv_r in H.
    - eapply Forall2_Forall_r; [exact H|]. apply Forall_forall. intros s _ e. apply encode_no_slash. }
  assert (fs = es) as -> by (rewrite <-(Hsplit p es), <-(Hsplit q fs) by done; by rewrite Hj).
  clear Hsplit Hj Hnp Hnq. revert q Hq Eq. induction Ep as [|s e p es He _ IH]; intros q Hq Eq.
  - by apply Forall2_nil_inv_r in Eq.
  - apply Forall2_cons_inv_r in Eq as (t & q' & Ht & Hq' & ->).
    apply Forall_cons in Hp as [Hs Hp]. apply Forall_cons in Hq as [Hwt Hq].
    f_equal; [by eapply encode_Some_inj|]. by eapply IH.
Qed.

Lemma wf_utf16_app s t : wf_utf16 (s ++ ch ":" :: t) = true → wf_utf16 s = true ∧ wf_utf16 t = true.
Proof.
  remember (length s) as n eqn:Hn. assert (length s ≤ n) as Hle by lia. clear Hn.
  revert s Hle. induction n as [|n IH]; intros [|c s] Hle; cbn in Hle; try lia.
  1,2: intros H; split; [done|]; by vm_compute in H |- *.
  cbn [app wf_utf16]. rewrite andb_true_iff. intros [Hc H]. rewrite Hc. cbn [andb].
  destruct (is_high c).
  - destruct s as [|d s]; cbn [app] in H; [by vm_compute in H|].
    apply andb_true_iff in H as [Hd H]. rewrite Hd. cbn [andb]. apply IH; [cbn in Hle; lia|done].
  - apply andb_true_iff in H as [Hl H]. rewrite Hl. cbn [andb]. apply IH; [lia|done].
Qed.

Lemma wf_segments n : wf_utf16 n = true → wf_path (split_char REDIS_KEY_SEPARATOR n).
Proof.
  intros H. rewrite <-(join_split_char REDIS_KEY_SEPARATOR n) in H.
  pose proof (split_char_not_nil REDIS_KEY_SEPARATOR n) as Hne.
  unfold wf_path. revert H Hne. generalize (split_char REDIS_KEY_SEPARATOR n). clear n. intros segs.
  induction segs as [|s segs IH]; intros H Hne; [constructor|]. destruct segs as [|t segs].
  - by repeat constructor.
  - change (join [REDIS_KEY_SEPARATOR] (s :: t :: segs))
      with (s ++ ch ":" :: join [REDIS_KEY_SEPARATOR] (t :: segs)) in H.
    apply wf_utf16_app in H as [Hs H]. constructor; [done|]. by apply IH.
Qed.

Lemma homeOf_wf n : wf_utf16 n = true → wf_path (homeOf n).
Proof.
  intros H. unfold homeOf. destruct (_ && _); [|constructor]. by apply Forall_take, wf_segments.
Qed.

(* ------------------------------------------------------------------ *)
(** ** Groups under construction *)

Definition gkey (g : MutableRedisKeyGroup) : jstr := let 'mkGroup k _ _ _ _ := g in k.
Definition gtitle (g : MutableRedisKeyGroup) : jstr := let 'mkGroup _ t _ _ _ := g in t.
Definition gcount (g : MutableRedisKeyGroup) : nat := let 'mkGroup _ _ c _ _ := g in c.

Fixpoint allLeaves (g : MutableRedisKeyGroup) : list RedisKeyTreeNode :=
  let 'mkGroup _ _ _ groups leaves := g in flat_map (λ p, allLeaves p.2) groups ++ leaves.

(** A key lies in the group of its prefixes, under its own identity. *)
Definition leaf_ok (path : list jstr) (node : RedisKeyTreeNode) : Prop :=
  match node with
  | KeyNode key n _ _ _ => redisKeyRowIdentity n = Some key ∧ homeOf n = path
  | GroupNode _ _ _ _ => False
  end.

Inductive group_ok : list jstr → MutableRedisKeyGroup → Prop :=
  group_ok_intro path key title count groups leaves :
    Forall (leaf_ok path) leaves → NoDup (dkeys groups) →
    Forall (λ p, (gtitle p.2 = p.1 ∧ wf_path (path ++ [p.1])) ∧
                 groupNodeKey (path ++ [p.1]) = Some (gkey p.2) ∧
                 gcount p.2 = length (allLeaves p.2) ∧ allLeaves p.2 ≠ [] ∧
                 group_ok (path ++ [p.1]) p.2) groups →
    group_ok path (mkGroup key title count groups leaves).

Lemma countOne_fields g :
  gkey (countOne g) = gkey g ∧ gtitle (countOne g) = gtitle g ∧ gcount (countOne g) = gcount g + 1 ∧
  allLeaves (countOne g) = allLeaves g ∧ ∀ path, group_ok path g → group_ok path (countOne g).
Proof. destruct g. split_and!; try done. intros path. inversion 1; subst. by constructor. Qed.

Lemma addLeaf_ok segments leaf : ∀ path g,
  group_ok path g → leaf_ok (path ++ segments) leaf → wf_path (path ++ segments) →
  ∃ g', addLeaf path segments leaf g = Some g' ∧ group_ok path g' ∧
    allLeaves g' ≡ₚ leaf :: allLeaves g ∧ gkey g' = gkey g ∧ gtitle g' = gtitle g ∧ gcount g' = gcount g.
Proof.
  induction segments as [|s segments IH]; intros path [key title count groups leaves] Hg Hleaf Hwf;
    inversion Hg as [? ? ? ? ? ? Hleaves Hnd Hgroups]; subst.
  - rewrite app_nil_r in Hleaf. eexists. split; [done|]. split_and!; [|cbn|done..].
    + constructor; [|done..]. apply Forall_app. by rewrite Forall_singleton.
    + rewrite (assoc_L (++)). solve_Permutation.
  - rewrite cons_middle, (assoc_L (++)) in Hleaf, Hwf. cbn [addLeaf].
    assert (∃ child, (match dget s groups with
                      | Some child => Some child
                      | None => childKey ← groupNodeKey (path ++ [s]); Some (createMutableGroup childKey s)
                      end) = Some child ∧ gtitle child = s ∧
              groupNodeKey (path ++ [s]) = Some (gkey child) ∧ gcount child = length (allLeaves child) ∧
              group_ok (path ++ [s]) child ∧ (dget s groups = None → allLeaves child = []) ∧
              (∀ old, dget s groups = Some old → old = child)) as (child & -> & Ht & Hk & Hc & Hok & Hnone & Hsome).
    { destruct (dget s groups) as [child|] eqn:Hget.
      - apply dget_Some_elem in Hget. rewrite Forall_forall in Hgroups.
        destruct (Hgroups _ Hget) as (? & ? & ? & _ & ?). exists child. naive_solver.
      - apply Forall_app in Hwf as [Hwf _]. destruct (groupNodeKey_some _ Hwf) as [k Hk].
        exists (createMutableGroup k s). rewrite Hk. cbn. split_and!; try done.
        constructor; constructor. }
    destruct (countOne_fields child) as (Hk1 & Ht1 & Hc1 & Hl1 & Hok1). cbn [mbind option_bind].
    destruct (IH (path ++ [s]) (countOne child)) as (child' & -> & Hok' & Hp & Hk' & Ht' & Hc'); [by auto|done..|].
    rewrite Hl1 in Hp. eexists. split; [done|]. cbn [gkey gtitle gcount]. split_and!; [|cbn [allLeaves]|done..].
    + constructor; [done|by apply NoDup_dkeys_dset|].
      assert ((gtitle (s, child').2 = (s, child').1 ∧ wf_path (path ++ [(s, child').1])) ∧ groupNodeKey (path ++ [(s, child').1]) = Some (gkey (s, child').2) ∧
        gcount (s, child').2 = length (allLeaves (s, child').2) ∧ allLeaves (s, child').2 ≠ [] ∧
        group_ok (path ++ [(s, child').1]) (s, child').2) as Hnew.
      { assert (length (allLeaves child') = S (length (allLeaves child))) as Hlen by by rewrite Hp.
        cbn. apply Forall_app in Hwf as [Hwf _].
        rewrite Ht', Ht1, Hk', Hk1, Hc', Hc1, Hc. split_and!; [done|done|done|lia| |done].
        intros Hnil. by rewrite Hnil in Hlen. }
      destruct (dset_split s child' groups) as [(pre & old & post & -> & _ & ->)|[_ ->]].
      * apply Forall_app in Hgroups as [? H']. apply Forall_cons in H' as [_ ?].
        apply Forall_app. split; [done|]. by constructor.
      * apply Forall_app. split; [done|]. by rewrite Forall_singleton.
    + destruct (dset_split s child' groups) as [(pre & old & post & -> & Hget & ->)|[Hget ->]].
      * rewrite (Hsome _ Hget), !flat_map_app. cbn [flat_map snd]. rewrite Hp. solve_Permutation.
      * rewrite flat_map_app. cbn [flat_map snd]. rewrite Hp, Hnone by done. cbn. solve_Permutation.
Qed.

(* ------------------------------------------------------------------ *)
(** ** The finished tree *)

Fixpoint leavesOf (node : RedisKeyTreeNode) : list RedisKeyTreeNode :=
  match node with
  | KeyNode _ _ _ _ _ => [node]
  | GroupNode _ _ _ children => flat_map leavesOf children
  end.

Definition titles (nodes : list RedisKeyTreeNode) : list jstr :=
  omap (λ n, match n with GroupNode _ title _ _ => Some title | KeyNode _ _ _ _ _ => None end) nodes.

Section tree.
Context (compare : jstr → jstr → Z).
Notation nodeLe := (nodeLe compare).
Notation finalize := (finalizeGroup compare).

(** A node that lies in the group of [path]: a key whose prefixes are [path], or
    a group under [path] that counts the keys below it, whose groups have
    different titles and whose children are in order. *)
Inductive placed : list jstr → RedisKeyTreeNode → Prop :=
  | placed_key path key n i t l :
      redisKeyRowIdentity n = Some key → homeOf n = path → placed path (KeyNode key n i t l)
  | placed_group path key title count children :
      wf_path (path ++ [title]) → groupNodeKey (path ++ [title]) = Some key →
      count = length (flat_map leavesOf children) →
      0 < count → NoDup (titles children) → le_sorted nodeLe children →
      Forall (placed (path ++ [title])) children →
      placed path (GroupNode key title count children).

Lemma group_ind' (P : MutableRedisKeyGroup → Prop) :
  (∀ key title count groups leaves, Forall (λ p, P p.2) groups → P (mkGroup key title count groups leaves)) →
  ∀ g, P g.
Proof.
  intros H. fix IH 1. intros [key title count groups leaves]. apply H.
  induction groups as [|[k g] groups IHg]; constructor; [apply IH|exact IHg].
Qed.

Lemma flat_map_perm {A B} (f : A → list B) xs ys : xs ≡ₚ ys → flat_map f xs ≡ₚ flat_map f ys.
Proof. induction 1; cbn; [done|by f_equiv|solve_Permutation|by etrans]. Qed.

Lemma leaves_flat path leaves : Forall (leaf_ok path) leaves → flat_map leavesOf leaves = leaves.
Proof.
  induction 1 as [|n ns Hn _ IH]; [done|]. destruct n; [done|]. cbn. by rewrite IH.
Qed.

Lemma children_leaves groups leaves path :
  Forall (leaf_ok path) leaves →
  Forall (λ p, leavesOf (finalize p.2) ≡ₚ allLeaves p.2) groups →
  flat_map leavesOf (stable_sort nodeLe (map (λ g, finalize g.2) groups ++ leaves))
  ≡ₚ flat_map (λ p : jstr * MutableRedisKeyGroup, allLeaves p.2) groups ++ leaves.
Proof.
  intros Hl H. rewrite (flat_map_perm _ _ _ (stable_sort_perm nodeLe _)), flat_map_app.
  erewrite (leaves_flat _ leaves) by done. f_equiv.
  induction H as [|p groups Hp _ IH]; [done|]. cbn. by rewrite Hp, IH.
Qed.

Lemma finalize_leaves g : ∀ path, group_ok path g → leavesOf (finalize g) ≡ₚ allLeaves g.
Proof.
  induction g as [key title count groups leaves IH] using group_ind'. intros path Hg.
  inversion Hg as [? ? ? ? ? ? Hleaves Hnd Hgroups]; subst. cbn [finalizeGroup leavesOf allLeaves].
  apply (children_leaves _ _ path); [done|].
  rewrite Forall_forall in *. intros p Hp. destruct (Hgroups p Hp) as (_ & _ & _ & _ & Hok).
  by apply (IH p Hp (path ++ [p.1])).
Qed.

Lemma titles_children groups leaves path :
  Forall (leaf_ok path) leaves → Forall (λ p, gtitle p.2 = p.1) groups →
  titles (map (λ g, finalize g.2) groups ++ leaves) = dkeys groups.
Proof.
  intros Hl Hg. unfold titles. rewrite omap_app.
  assert (omap (λ n, match n with GroupNode _ title _ _ => Some title | KeyNode _ _ _ _ _ => None end) leaves = [])
    as ->. { induction Hl as [|n ns Hn _ IH]; [done|]. by destruct n. }
  rewrite app_nil_r. induction Hg as [|[k [key title count gs ls]] groups Hp _ IH]; [done|].
  cbn in *. by rewrite Hp, IH.
Qed.

Lemma titles_perm xs ys : xs ≡ₚ ys → titles xs ≡ₚ titles ys.
Proof. unfold titles. by intros ->. Qed.

Context `{!Preorder (λ a b, compare a b <=? 0)%Z}.

#[export] Instance nodeLe_preorder : Preorder nodeLe.
Proof.
  pose proof (le_total (le := λ a b, (compare a b <=? 0)%Z)) as Htotal.
  pose proof (le_trans (le := λ a b, (compare a b <=? 0)%Z)) as Htrans. cbn beta in *.
  split; unfold RedisKeyTree.nodeLe, compareTreeNodes.
  - intros x y. destruct (isGroup x), (isGroup y); cbn; rewrite ?bool_decide_eq_false_2 by auto; auto.
  - intros x y z. destruct (isGroup x), (isGroup y), (isGroup z); cbn; try done;
      rewrite ?bool_decide_eq_false_2 by auto; eauto.
Qed.

(** The children of a group: sorted, with different titles and in place. *)
Lemma children_placed path key title count groups leaves :
  group_ok path (mkGroup key title count groups leaves) →
  Forall (λ p, placed path (finalize p.2)) groups →
  let children := stable_sort nodeLe (map (λ g, finalize g.2) groups ++ leaves) in
  Forall (placed path) children ∧ NoDup (titles children) ∧ le_sorted nodeLe children ∧
  flat_map leavesOf children ≡ₚ allLeaves (mkGroup key title count groups leaves).
Proof.
  intros Hg Hp children. inversion Hg as [? ? ? ? ? ? Hleaves Hnd Hgroups]; subst.
  unfold children. split_and!.
  - rewrite stable_sort_perm. apply Forall_app. split.
    + by apply Forall_map.
    + eapply Forall_impl; [exact Hleaves|]. intros [|k n i t l]; [done|]. intros [? ?]. by constructor.
  - rewrite (titles_perm _ _ (stable_sort_perm nodeLe _)).
    rewrite (titles_children _ _ path); [done..|]. eapply Forall_impl; [exact Hgroups|]. naive_solver.
  - apply stable_sort_sorted, _.
  - apply (children_leaves _ _ path); [done|]. eapply Forall_impl; [exact Hgroups|].
    intros p (_ & _ & _ & _ & Hok). by eapply finalize_leaves.
Qed.

Lemma finalize_placed g : ∀ path,
  wf_path (path ++ [gtitle g]) →
  group_ok (path ++ [gtitle g]) g → groupNodeKey (path ++ [gtitle g]) = Some (gkey g) →
  gcount g = length (allLeaves g) → allLeaves g ≠ [] → placed path (finalize g).
Proof.
  induction g as [key title count groups leaves IH] using group_ind'. cbn [gtitle gkey gcount].
  intros path Hwf Hg Hk Hc Hne. destruct (children_placed _ _ _ _ _ _ Hg) as (H1 & H2 & H3 & H4).
  { inversion Hg as [? ? ? ? ? ? Hleaves Hnd Hgroups]; subst. rewrite Forall_forall in *.
    intros p Hp. destruct (Hgroups p Hp) as ((Ht & Hwfp) & Hkp & Hcp & Hnep & Hokp).
    apply (IH p Hp); by rewrite ?Ht. }
  cbn [finalizeGroup]. constructor; [done|done| | |done..].
  - by rewrite H4.
  - rewrite Hc. destruct (allLeaves _); [done|cbn; lia].
Qed.
End tree.

(* ------------------------------------------------------------------ *)
(** ** All rows *)

(** The keys of the rows with their row numbers. *)
Fixpoint rowsFrom (index : nat) (items : list RedisDataItem) : list (jstr * option nat) :=
  match items with
  | [] => []
  | item :: items =>
      match name item with
      | Some n => (n, Some index) :: rowsFrom (S index) items
      | None => rowsFrom (S index) items
      end
  end.

Definition rowOf (node : RedisKeyTreeNode) : jstr * option nat := (nodeName node, getRedisTreeRowIndex node).

Definition names_ok (items : list RedisDataItem) : Prop :=
  Forall (λ item, ∀ n, name item = Some n → wf_utf16 n = true) items.

Lemma addItems_ok items : ∀ root index,
  names_ok items → group_ok [] root →
  ∃ root', addItems root index items = Some root' ∧ group_ok [] root' ∧
    rowOf <$> allLeaves root' ≡ₚ (rowOf <$> allLeaves root) ++ rowsFrom index items.
Proof.
  induction items as [|item items IH]; intros root index Hn Hroot.
  { exists root. cbn. by rewrite app_nil_r. }
  apply Forall_cons in Hn as [Hitem Hn]. cbn [addItems rowsFrom]. unfold addItem.
  destruct (name item) as [n|] eqn:Hname; [|by apply IH].
  specialize (Hitem n eq_refl). destruct (decode_encode n Hitem) as (e & He & _).
  assert (redisKeyRowIdentity n = Some (js "redis-key:" ++ e)) as Hid
    by (unfold redisKeyRowIdentity; by rewrite He).
  rewrite Hid. cbn [mbind option_bind].
  destruct (addLeaf_ok (homeOf n) (KeyNode (js "redis-key:" ++ e) n index (type item) (ttl item)) [] root)
    as (root1 & -> & Hok1 & Hp1 & _); [done|by split|by apply homeOf_wf|].
  cbn [mbind option_bind]. destruct (IH root1 (S index) Hn Hok1) as (root' & -> & Hok' & Hp').
  exists root'. split_and!; [done..|]. rewrite Hp', Hp1. cbn. solve_Permutation.
Qed.

Section keys.
Context (compare : jstr → jstr → Z).

Lemma titles_elem title nodes :
  title ∈ titles nodes ↔ ∃ key count children, GroupNode key title count children ∈ nodes.
Proof.
  unfold titles. rewrite list_elem_of_omap. split.
  - intros ([k t c ch|] & Hin & Heq); [|done]. simplify_eq. eauto.
  - intros (k & c & ch & Hin). by exists (GroupNode k title c ch).
Qed.

(** The key of a group below [path] says where it is. *)
Lemma collect_path node : ∀ path k,
  placed compare path node → k ∈ collectNode node →
  ∃ title rest, titles [node] = [title] ∧ wf_path (path ++ title :: rest) ∧
    groupNodeKey (path ++ title :: rest) = Some k.
Proof.
  revert node. fix IH 1. intros [gk title count children|] path k Hp; [|by intros ?%elem_of_nil].
  inversion Hp as [|? ? ? ? ? Hwf Hk _ _ _ _ Hch]; subst. cbn [collectNode].
  intros [->|Hkey]%elem_of_cons; [by exists title, []|].
  exists title. clear Hk Hp Hwf.
  assert (∃ rest, wf_path (path ++ title :: rest) ∧ groupNodeKey (path ++ title :: rest) = Some k) as [rest ?]; [|by exists rest].
  induction children as [|child children IHch]; [by apply elem_of_nil in Hkey|].
  apply Forall_cons in Hch as [Hc Hch]. cbn [flat_map] in Hkey.
  apply elem_of_app in Hkey as [Hkey|Hkey]; [|by apply IHch].
  destruct (IH child (path ++ [title]) k Hc Hkey) as (t & rest & _ & Hw & Hrest).
  exists (t :: rest). by rewrite <-(assoc_L (++)) in Hw, Hrest.
Qed.

Lemma titles_cons node nodes : titles (node :: nodes) = titles [node] ++ titles nodes.
Proof. by destruct node. Qed.

Lemma collect_list_path nodes path k :
  Forall (placed compare path) nodes → k ∈ collectRedisGroupKeys nodes →
  ∃ title rest, title ∈ titles nodes ∧ wf_path (path ++ title :: rest) ∧
    groupNodeKey (path ++ title :: rest) = Some k.
Proof.
  induction 1 as [|node nodes Hn _ IH]; [by intros ?%elem_of_nil|]. rewrite titles_cons.
  unfold collectRedisGroupKeys. cbn [flat_map]. intros [Hk|Hk]%elem_of_app.
  - destruct (collect_path node path k Hn Hk) as (t & rest & Ht & ?). exists t, rest. rewrite Ht. set_solver.
  - destruct (IH Hk) as (t & rest & ? & ?). exists t, rest. set_solver.
Qed.

Lemma not_nil_app {A} (p : list A) x r : p ++ x :: r ≠ [].
Proof. by destruct p. Qed.

(** Groups of different places have different keys. *)
Lemma collect_cons path node nodes :
  placed compare path node → Forall (placed compare path) nodes → NoDup (titles (node :: nodes)) →
  NoDup (collectNode node) → NoDup (collectRedisGroupKeys nodes) →
  NoDup (collectRedisGroupKeys (node :: nodes)).
Proof.
  intros Hn Hns Ht H1 H2. unfold collectRedisGroupKeys. cbn [flat_map]. apply NoDup_app.
  split_and!; [done| |done]. intros k Hk1 Hk2.
  destruct (collect_path node path k Hn Hk1) as (t & rest & Hti & Hw & Hg).
  destruct (collect_list_path nodes path k Hns Hk2) as (t' & rest' & Hti' & Hw' & Hg').
  assert (path ++ t :: rest = path ++ t' :: rest') as Heq
    by (eapply groupNodeKey_inj; eauto using not_nil_app).
  apply app_inv_head in Heq. injection Heq as <- _.
  rewrite titles_cons, Hti in Ht. by apply NoDup_cons in Ht as [? _].
Qed.

Lemma collectNode_NoDup node : ∀ path, placed compare path node → NoDup (collectNode node).
Proof.
  revert node. fix IH 1. intros [gk title count children|] path Hp; [|constructor].
  inversion Hp as [|? ? ? ? ? Hwf Hk _ _ Ht _ Hch]; subst. cbn [collectNode].
  apply NoDup_cons. split.
  - intros Hin. destruct (collect_list_path children _ _ Hch Hin) as (t & rest & _ & Hw & Hg).
    assert (path ++ [title] = (path ++ [title]) ++ t :: rest) as Heq
      by (eapply groupNodeKey_inj; eauto using not_nil_app).
    apply (f_equal length) in Heq. rewrite !length_app in Heq. cbn in Heq. lia.
  - clear Hk Hp Hwf. induction children as [|child children IHch]; [constructor|].
    apply Forall_cons in Hch as [Hc Hch].
    apply (collect_cons (path ++ [title]) child children Hc Hch Ht); [by eapply IH|].
    apply IHch; [|done]. rewrite titles_cons in Ht. by apply NoDup_app in Ht as (_ & _ & ?).
Qed.

Lemma collect_NoDup path nodes :
  Forall (placed compare path) nodes → NoDup (titles nodes) → NoDup (collectRedisGroupKeys nodes).
Proof.
  induction 1 as [|node nodes Hn Hns IH]; intros Ht; [constructor|].
  apply (collect_cons path); [done..|by eapply collectNode_NoDup|]. apply IH.
  rewrite titles_cons in Ht. by apply NoDup_app in Ht as (_ & _ & ?).
Qed.
End keys.

(** On rows with well-formed names the tree is built; every key is in it
    once with its row, in the group of its prefixes; every group counts the keys
    below it, and groups come before keys in the order of their names; and no
    two groups of the tree have the same identifier. *)
Theorem redis_tree_spec compare items :
  Preorder (λ a b, compare a b <=? 0)%Z → names_ok items →
  ∃ tree, buildRedisKeyTree compare items = Some tree ∧
    Forall (placed compare []) tree ∧ le_sorted (nodeLe compare) tree ∧
    rowOf <$> flat_map leavesOf tree ≡ₚ rowsFrom 0 items ∧
    NoDup (collectRedisGroupKeys tree).
Proof.
  intros Hpre Hn. unfold buildRedisKeyTree.
  destruct (addItems_ok items (createMutableGroup (js "redis-root") []) 0 Hn) as (root & -> & Hok & Hp).
  { constructor; constructor. }
  destruct root as [key title count groups leaves]. cbn [mbind option_bind].
  destruct (children_placed compare _ _ _ _ _ _ Hok) as (H1 & H2 & H3 & H4).
  { inversion Hok as [? ? ? ? ? ? Hleaves Hnd Hgroups]; subst. eapply Forall_impl; [exact Hgroups|].
    intros p ((Ht & Hw) & Hk & Hc & Hne & Hg). apply finalize_placed; by rewrite ?Ht. }
  eexists. split; [done|]. split_and!; [done..| |by eapply collect_NoDup].
  by rewrite H4.
Qed.

Definition byLength (a b : jstr) : Z := (Z.of_nat (length a) - Z.of_nat (length b))%Z.

Lemma byLength_preorder : Preorder (λ a b, byLength a b <=? 0)%Z.
Proof. split; unfold byLength; intros *; rewrite !Z.leb_le; lia. Qed.

Definition sample_row (n : string) : RedisDataItem := mkItem (Some (js n)) (js "string") (-1) None.

Example redis_tree_spec_witness :
  ∃ tree, buildRedisKeyTree byLength [sample_row "a:b:1"; sample_row "z"; sample_row "a:c"] = Some tree ∧
    NoDup (collectRedisGroupKeys tree).
Proof.
  destruct (redis_tree_spec byLength [sample_row "a:b:1"; sample_row "z"; sample_row "a:c"])
    as (tree & Htree & _ & _ & _ & Hkeys).
  - apply byLength_preorder.
  - repeat (constructor; [by intros n [= <-]|]). constructor.
  - by exists tree.
Defined.

Example redis_tree_sample :
  buildRedisKeyTree byLength [sample_row "a:b:1"; sample_row "z"; sample_row "a:c"]
  = Some [GroupNode (js "redis-group:a") (js "a") 2
            [GroupNode (js "redis-group:a/b") (js "b") 1
               [KeyNode (js "redis-key:a%3Ab%3A1") (js "a:b:1") 0 (js "string") (-1)];
             KeyNode (js "redis-key:a%3Ac") (js "a:c") 2 (js "string") (-1)];
          KeyNode (js "redis-key:z") (js "z") 1 (js "string") (-1)].
Proof. by vm_compute. Qed.
