(* ===== verification/RedisExpansion.v ===== *)
(** * RedisExpansion: which groups of Redis keys are expanded

    Models [apps/community-client/src/blocks/RedisAllData/redisExpansion.ts]:
    the reducer that reconciles the groups expanded automatically, those the
    user expanded or collapsed and those he collapsed during a search. *)

From S2P Require Import Prelude.
Local Open Scope nat_scope.

Record RedisExpansionState := mkState {
  expandedKeys : list jstr;
  userExpandedKeys : list jstr;
  userCollapsedKeys : list jstr;
  searchCollapsedKeys : list jstr;
  searchKey : jstr;
  initialized : bool;
}.

Inductive RedisExpansionAction :=
  | reconcile (active : bool) (validGroupKeys automaticExpandedKeys : list jstr) (key : jstr)
  | userChange (keys : list jstr).

Definition INITIAL_REDIS_EXPANSION_STATE : RedisExpansionState := mkState [] [] [] [] [] false.

Definition uniqueKeys (keys : list jstr) : list jstr := uniq keys.

Definition equalKeys (left right : list jstr) : bool := bool_decide (left = right).

Definition updateIntentKeys (current added removed : list jstr) : list jstr :=
  uniqueKeys (filter (λ key, key ∉ removed) current ++ added).

Definition reconcileExpandedKeys (automaticExpandedKeys userExpandedKeys userCollapsedKeys
    validGroupKeys : list jstr) : list jstr :=
  filter (λ key, key ∈ validGroupKeys ∧ key ∉ userCollapsedKeys)
    (uniqueKeys (automaticExpandedKeys ++ userExpandedKeys)).

Definition reduceUserChange (state : RedisExpansionState) (keys : list jstr) : RedisExpansionState :=
  let expanded := uniqueKeys keys in
  if equalKeys (expandedKeys state) expanded then state
  else
    let openedKeys := filter (λ key, key ∉ expandedKeys state) expanded in
    let collapsedKeys := filter (λ key, key ∉ expanded) (expandedKeys state) in
    if bool_decide (searchKey state ≠ []) then
      mkState expanded (userExpandedKeys state) (userCollapsedKeys state)
        (updateIntentKeys (searchCollapsedKeys state) collapsedKeys openedKeys)
        (searchKey state) (initialized state)
    else
      mkState expanded
        (updateIntentKeys (userExpandedKeys state) openedKeys collapsedKeys)
        (updateIntentKeys (userCollapsedKeys state) collapsedKeys openedKeys)
        (searchCollapsedKeys state) (searchKey state) (initialized state).

Definition reduceReconcile (state : RedisExpansionState) (active : bool)
    (validGroupKeys automatic : list jstr) (key : jstr) : RedisExpansionState :=
  if negb active then
    if initialized state || (0 <? length (expandedKeys state))
    then INITIAL_REDIS_EXPANSION_STATE else state
  else
    let automaticExpandedKeys := uniqueKeys (filter (λ k, k ∈ validGroupKeys) automatic) in
    let searchChanged := bool_decide (searchKey state ≠ key) in
    let searchCollapsed :=
      if bool_decide (key ≠ []) && negb searchChanged then searchCollapsedKeys state else [] in
    let expanded :=
      if bool_decide (key ≠ [])
      then reconcileExpandedKeys automaticExpandedKeys [] searchCollapsed validGroupKeys
      else reconcileExpandedKeys automaticExpandedKeys (userExpandedKeys state)
             (userCollapsedKeys state) validGroupKeys in
    if equalKeys (expandedKeys state) expanded
       && equalKeys (searchCollapsedKeys state) searchCollapsed
       && bool_decide (searchKey state = key) && initialized state
    then state
    else mkState expanded (userExpandedKeys state) (userCollapsedKeys state) searchCollapsed key true.

Definition redisExpansionReducer (state : RedisExpansionState) (action : RedisExpansionAction)
    : RedisExpansionState :=
  match action with
  | userChange keys => reduceUserChange state keys
  | reconcile active valid automatic key => reduceReconcile state active valid automatic key
  end.

(* ------------------------------------------------------------------ *)
(** ** Lemmas *)

Lemma updateIntentKeys_elem k current added removed :
  k ∈ updateIntentKeys current added removed ↔ k ∈ current ∧ k ∉ removed ∨ k ∈ added.
Proof.
  unfold updateIntentKeys, uniqueKeys. rewrite elem_of_uniq, elem_of_app, list_elem_of_filter. tauto.
Qed.

Lemma reconcileExpandedKeys_elem k automatic expanded collapsed valid :
  k ∈ reconcileExpandedKeys automatic expanded collapsed valid ↔
  (k ∈ automatic ∨ k ∈ expanded) ∧ k ∈ valid ∧ k ∉ collapsed.
Proof.
  unfold reconcileExpandedKeys, uniqueKeys. rewrite list_elem_of_filter, elem_of_uniq, elem_of_app. tauto.
Qed.

Lemma unchanged_state state ex sc key :
  (if equalKeys (expandedKeys state) ex && equalKeys (searchCollapsedKeys state) sc
      && bool_decide (searchKey state = key) && initialized state
   then state
   else mkState ex (userExpandedKeys state) (userCollapsedKeys state) sc key true)
  = mkState ex (userExpandedKeys state) (userCollapsedKeys state) sc key true.
Proof.
  destruct (_ && initialized state) eqn:E; [|done]. unfold equalKeys in E.
  rewrite !andb_true_iff, !bool_decide_eq_true in E. destruct E as [[[<- <-] <-] E], state.
  cbn in *. by subst.
Qed.

(** Reconciling gives the fields of the new state, whether it is new or not. *)
Lemma reconcile_fields state valid automatic key :
  let state' := reduceReconcile state true valid automatic key in
  let auto := uniqueKeys (filter (λ k, k ∈ valid) automatic) in
  let searchCollapsed :=
    if bool_decide (key ≠ []) && bool_decide (searchKey state = key) then searchCollapsedKeys state else [] in
  state' = mkState
    (if bool_decide (key ≠ []) then reconcileExpandedKeys auto [] searchCollapsed valid
     else reconcileExpandedKeys auto (userExpandedKeys state) (userCollapsedKeys state) valid)
    (userExpandedKeys state) (userCollapsedKeys state) searchCollapsed key true.
Proof.
  unfold reduceReconcile. cbn [negb].
  replace (negb (bool_decide (searchKey state ≠ key))) with (bool_decide (searchKey state = key)).
  2: { repeat case_bool_decide; by try tauto. }
  apply unchanged_state.
Qed.

(** What the user chose outside a search: groups expanded and collapsed on
    purpose are disjoint, and the expanded groups are those of the last
    reconciliation. *)
Definition in_step (state : RedisExpansionState) (valid automatic : list jstr) : Prop :=
  searchKey state = [] ∧
  ∀ k, k ∈ expandedKeys state ↔
    (k ∈ automatic ∨ k ∈ userExpandedKeys state) ∧ k ∈ valid ∧ k ∉ userCollapsedKeys state.

Lemma reconcile_in_step state valid automatic :
  in_step (reduceReconcile state true valid automatic []) valid automatic.
Proof.
  rewrite reconcile_fields. split; [done|]. intros k. cbn. rewrite reconcileExpandedKeys_elem.
  unfold uniqueKeys. rewrite elem_of_uniq, list_elem_of_filter. tauto.
Qed.

Lemma userChange_in_step state valid automatic keys :
  in_step state valid automatic → (∀ k, k ∈ keys → k ∈ valid) →
  in_step (reduceUserChange state keys) valid automatic ∧
  (∀ k, k ∈ expandedKeys (reduceUserChange state keys) ↔ k ∈ keys).
Proof.
  intros [Hs Hk] Hv. unfold reduceUserChange, equalKeys. case_bool_decide as Heq.
  - split; [done|]. intros k. rewrite Heq. unfold uniqueKeys. by rewrite elem_of_uniq.
  - rewrite Hs. rewrite bool_decide_eq_false_2 by (by intros ?).
    split; [|intros k; cbn; unfold uniqueKeys; by rewrite elem_of_uniq]. split; [done|].
    intros k. cbn. rewrite !updateIntentKeys_elem, !list_elem_of_filter. unfold uniqueKeys.
    rewrite !elem_of_uniq. specialize (Hk k). specialize (Hv k).
    destruct (decide (k ∈ keys)), (decide (k ∈ expandedKeys state)); tauto.
Qed.

(* ------------------------------------------------------------------ *)
(** ** Properties *)

(** What happens during a search. *)
Definition search_action (a : RedisExpansionAction) : Prop :=
  match a with
  | reconcile active _ _ key => active = true ∧ key ≠ []
  | userChange _ => True
  end.

(** A search leaves what the user chose outside of it alone. *)
Lemma search_action_keeps a state :
  search_action a → searchKey state ≠ [] →
  let state' := redisExpansionReducer state a in
  userExpandedKeys state' = userExpandedKeys state ∧
  userCollapsedKeys state' = userCollapsedKeys state ∧ searchKey state' ≠ [].
Proof.
  intros Ha Hs. destruct a as [active v m q|ks]; cbn [redisExpansionReducer search_action] in *.
  - destruct Ha as [-> Hq']. rewrite reconcile_fields. done.
  - unfold reduceUserChange. destruct (equalKeys _ _); [done|].
    by rewrite (bool_decide_eq_true_2 (searchKey state ≠ [])).
Qed.

Lemma search_keeps_intent actions : ∀ state,
  Forall search_action actions → searchKey state ≠ [] →
  let state' := fold_left redisExpansionReducer actions state in
  userExpandedKeys state' = userExpandedKeys state ∧
  userCollapsedKeys state' = userCollapsedKeys state ∧ searchKey state' ≠ [].
Proof.
  induction actions as [|a actions IH]; intros state H Hs; [done|].
  apply Forall_cons in H as [Ha H]. cbn [fold_left].
  destruct (search_action_keeps a state Ha Hs) as (<- & <- & Hs'). by apply IH.
Qed.

(** What the user expands and collapses survives: reconciling again with the
    same groups shows exactly the groups he left expanded, also after a search
    in which groups were expanded and collapsed. *)
Theorem user_choice_survives state valid automatic keys query queryActions valid' automatic' :
  (∀ k, k ∈ keys → k ∈ valid) → query ≠ [] → Forall search_action queryActions →
  let chosen := redisExpansionReducer
    (redisExpansionReducer state (reconcile true valid automatic [])) (userChange keys) in
  let again := reconcile true valid automatic [] in
  (∀ k, k ∈ expandedKeys chosen ↔ k ∈ keys) ∧
  (∀ k, k ∈ expandedKeys (redisExpansionReducer chosen again) ↔ k ∈ keys) ∧
  (let searching := fold_left redisExpansionReducer queryActions
     (redisExpansionReducer chosen (reconcile true valid' automatic' query)) in
   ∀ k, k ∈ expandedKeys (redisExpansionReducer searching again) ↔ k ∈ keys).
Proof.
  intros Hv Hq Hactions chosen again.
  destruct (userChange_in_step _ valid automatic keys (reconcile_in_step state valid automatic) Hv) as [Hin Hkeys].
  fold chosen in Hin, Hkeys. change (reduceUserChange _ keys) with chosen in Hin, Hkeys.
  assert (∀ s, userExpandedKeys s = userExpandedKeys chosen → userCollapsedKeys s = userCollapsedKeys chosen →
    ∀ k, k ∈ expandedKeys (redisExpansionReducer s again) ↔ k ∈ keys) as Hagain.
  { intros s He Hc k. cbn. destruct (reconcile_in_step s valid automatic) as [_ Hs]. rewrite Hs.
    rewrite reconcile_fields. cbn. rewrite He, Hc. destruct Hin as [_ Hin]. rewrite <-Hin. apply Hkeys. }
  split_and!; [done|by apply Hagain|]. intros searching.
  destruct (search_keeps_intent queryActions
    (redisExpansionReducer chosen (reconcile true valid' automatic' query)) Hactions) as (He & Hc & _).
  { unfold redisExpansionReducer. by rewrite reconcile_fields. }
  apply Hagain; unfold searching; rewrite ?He, ?Hc; unfold redisExpansionReducer; by rewrite reconcile_fields.
Qed.

Example user_choice_survives_witness :
  let again := reconcile true [js "a"; js "b"] [js "a"] [] in
  let chosen := redisExpansionReducer
    (redisExpansionReducer INITIAL_REDIS_EXPANSION_STATE again) (userChange [js "b"]) in
  js "b" ∈ expandedKeys (redisExpansionReducer (redisExpansionReducer
    (redisExpansionReducer chosen (reconcile true [js "a"] [js "a"] (js "q"))) (userChange [])) again).
Proof.
  apply (user_choice_survives INITIAL_REDIS_EXPANSION_STATE [js "a"; js "b"] [js "a"] [js "b"] (js "q")
    [userChange []] [js "a"] [js "a"]).
  - set_solver.
  - done.
  - by repeat constructor.
  - left.
Defined.
