(* ===== verification/TextDecoding.v ===== *)
(** * TextDecoding: the decoders of the web platform

    [TextDecoder] for UTF-8 and [atob], which the sources use to read large cell
    values.  The UTF-8 decoder is the byte automaton of the Encoding Standard:
    its state survives between the calls of [decode] with [stream: true].  The
    results: decoding does not depend on how the bytes are cut, a text is read
    back from its UTF-8 form (less a leading byte order mark), bytes are read
    back from their base64 form. *)

From Stdlib Require Import ZifyN ZifyNat.
From S2P Require Import Prelude UriComponent.
Local Open Scope N_scope.

(** ** UTF-8 *)

(** [needed] is the number of continuation bytes still to come, the next of
    which has to be in [lowerBoundary, upperBoundary]. *)
Record Decoder := mkDecoder {
  codePoint : N;
  needed : nat;
  lowerBoundary : N;
  upperBoundary : N;
  bomSeen : bool;
}.

Definition newDecoder : Decoder := mkDecoder 0 0 128 191 false.

(** A code point is done; a byte order mark at the start is not passed on. *)
Definition emit (d : Decoder) (cp : N) : Decoder * jstr :=
  (mkDecoder 0 0 128 191 true, if negb (bomSeen d) && (cp =? 65279) then [] else utf16 cp).

(** One byte; [None] is an error. *)
Definition decodeByte (d : Decoder) (b : N) : option (Decoder * jstr) :=
  match needed d with
  | O =>
      if b <? 128 then Some (emit d b)
      else if (194 <=? b) && (b <=? 223) then Some (mkDecoder (b - 192) 1 128 191 (bomSeen d), [])
      else if (224 <=? b) && (b <=? 239) then
        Some (mkDecoder (b - 224) 2 (if b =? 224 then 160 else 128) (if b =? 237 then 159 else 191) (bomSeen d), [])
      else if (240 <=? b) && (b <=? 244) then
        Some (mkDecoder (b - 240) 3 (if b =? 240 then 144 else 128) (if b =? 244 then 143 else 191) (bomSeen d), [])
      else None
  | S n =>
      if (b <? lowerBoundary d) || (upperBoundary d <? b) then None
      else
        let cp := codePoint d * 64 + (b - 128) in
        match n with
        | O => Some (emit d cp)
        | S _ => Some (mkDecoder cp n 128 191 (bomSeen d), [])
        end
  end.

Fixpoint decodeBytes (d : Decoder) (bytes : list N) : option (Decoder * jstr) :=
  match bytes with
  | [] => Some (d, [])
  | b :: bytes' =>
      match decodeByte d b with
      | Some (d', out) =>
          match decodeBytes d' bytes' with
          | Some (d'', out') => Some (d'', out ++ out')
          | None => None
          end
      | None => None
      end
  end.

(** [decode(bytes, { stream })] of a fatal decoder; [None] is the [TypeError]. *)
Definition decodeFatal (d : Decoder) (bytes : list N) (stream : bool) : option (Decoder * jstr) :=
  match decodeBytes d bytes with
  | Some (d', out) =>
      if stream then Some (d', out)
      else if decide (needed d' = O) then Some (newDecoder, out) else None
  | None => None
  end.

(** A decoder that is not fatal puts U+FFFD for an error; a byte that ends a
    sequence too early is read again. *)
Definition replacement : N := 65533.

Definition decodeByteLossy (d : Decoder) (b : N) : Decoder * jstr :=
  match decodeByte d b with
  | Some r => r
  | None =>
      let (d', out) := emit d replacement in
      match needed d with
      | O => (d', out)
      | S _ => match decodeByte d' b with
               | Some (d'', out') => (d'', out ++ out')
               | None => let (d'', out') := emit d' replacement in (d'', out ++ out')
               end
      end
  end.

Fixpoint decodeBytesLossy (d : Decoder) (bytes : list N) : Decoder * jstr :=
  match bytes with
  | [] => (d, [])
  | b :: bytes' =>
      let (d', out) := decodeByteLossy d b in
      let (d'', out') := decodeBytesLossy d' bytes' in
      (d'', out ++ out')
  end.

Definition decodeLossy (d : Decoder) (bytes : list N) (stream : bool) : Decoder * jstr :=
  let (d', out) := decodeBytesLossy d bytes in
  if stream then (d', out)
  else (newDecoder, out ++ (if decide (needed d' = O) then [] else (emit d' replacement).2)).

(** ** Base64 *)

Definition sixBits (c : N) : option N :=
  if (65 <=? c) && (c <=? 90) then Some (c - 65)
  else if (97 <=? c) && (c <=? 122) then Some (c - 71)
  else if (48 <=? c) && (c <=? 57) then Some (c + 4)
  else if c =? ch "+" then Some 62
  else if c =? ch "/" then Some 63
  else None.

(** Four groups of six bits are three bytes; the bits left over are dropped. *)
Fixpoint sixBitsToBytes (xs : list N) : list N :=
  match xs with
  | a :: b :: c :: d :: xs' =>
      (a * 4 + b / 16) :: (b mod 16 * 16 + c / 4) :: (c mod 4 * 64 + d) :: sixBitsToBytes xs'
  | [a; b; c] => [a * 4 + b / 16; b mod 16 * 16 + c / 4]
  | [a; b] => [a * 4 + b / 16]
  | _ => []
  end.

Definition isAsciiSpace (c : N) : bool := includes c [9; 10; 12; 13; 32].

(** One padding character at the end, if there is one. *)
Definition dropPadding (text : jstr) : jstr :=
  if decide (last text = Some 61) then take (length text - 1)%nat text else text.

Definition stripPadding (text : jstr) : jstr :=
  if decide (length text mod 4 = 0)%nat then dropPadding (dropPadding text) else text.

(** [atob(text)], as the list of character codes; [None] is the exception. *)
Definition atob (text : jstr) : option (list N) :=
  let text := stripPadding (filter (λ c, isAsciiSpace c = false) text) in
  if decide (length text mod 4 = 1)%nat then None
  else sixBitsToBytes <$> mapM sixBits text.

(** ** Decoding UTF-8 does not depend on the chunks *)

Lemma decodeBytes_app d bs bs' :
  decodeBytes d (bs ++ bs') =
  match decodeBytes d bs with
  | Some (d', out) =>
      match decodeBytes d' bs' with Some (d'', out') => Some (d'', out ++ out') | None => None end
  | None => None
  end.
Proof.
  revert d. induction bs as [|b bs IH]; intros d; cbn [decodeBytes app].
  - by destruct (decodeBytes d bs') as [[]|].
  - destruct (decodeByte d b) as [[d' out]|]; [|done]. rewrite IH.
    destruct (decodeBytes d' bs) as [[d2 out2]|]; [|done].
    destruct (decodeBytes d2 bs') as [[d3 out3]|]; [|done]. by rewrite (assoc_L (++)).
Qed.

Lemma decodeBytesLossy_app d bs bs' :
  decodeBytesLossy d (bs ++ bs') =
  ((decodeBytesLossy (decodeBytesLossy d bs).1 bs').1,
   (decodeBytesLossy d bs).2 ++ (decodeBytesLossy (decodeBytesLossy d bs).1 bs').2).
Proof.
  revert d. induction bs as [|b bs IH]; intros d; cbn [decodeBytesLossy app fst snd].
  - by destruct (decodeBytesLossy d bs').
  - destruct (decodeByteLossy d b) as [d' out]. rewrite IH.
    destruct (decodeBytesLossy d' bs) as [d2 out2]. cbn [fst snd].
    destruct (decodeBytesLossy d2 bs') as [d3 out3]. cbn [fst snd]. by rewrite (assoc_L (++)).
Qed.

(** ** Texts are read back *)

(** A Unicode scalar value. *)
Definition scalar (cp : N) : Prop := cp < 1114112 ∧ is_high cp = false ∧ is_low cp = false.

Definition utf8Text (cps : list N) : list N := cps ≫= utf8.
Definition utf16Text (cps : list N) : jstr := cps ≫= utf16.

Lemma decodeBytes_step d b bs d' : decodeByte d b = Some (d', []) → decodeBytes d (b :: bs) = decodeBytes d' bs.
Proof. intros H. cbn [decodeBytes]. rewrite H. by destruct (decodeBytes d' bs) as [[]|]. Qed.

Lemma decodeBytes_last d b r : decodeByte d b = Some r → decodeBytes d [b] = Some r.
Proof. intros H. cbn [decodeBytes]. rewrite H. destruct r. by rewrite app_nil_r. Qed.

Lemma emit_eq d d' cp cp' : bomSeen d' = bomSeen d → cp' = cp → emit d' cp' = emit d cp.
Proof. unfold emit. by intros -> ->. Qed.

(** One byte of the form of a code point. *)
Ltac next_byte :=
  unfold decodeByte; cbn [needed lowerBoundary upperBoundary codePoint bomSeen];
  repeat decide_test; cbn [andb orb]; reflexivity.

Lemma decode_scalar d cp :
  needed d = O → scalar cp → decodeBytes d (utf8 cp) = Some (emit d cp).
Proof.
  intros Hd (Hcp&Hh&Hl). unfold utf8.
  assert (∀ y, y mod 64 < 64) as Hm by (intros; by apply N.mod_lt).
  pose proof (N.Div0.div_mod cp 64) as D1. pose proof (N.Div0.div_mod (cp / 64) 64) as D2.
  rewrite N.Div0.div_div in D2. change (64 * 64) with 4096 in D2.
  pose proof (N.Div0.div_mod (cp / 4096) 64) as D3.
  rewrite N.Div0.div_div in D3. change (4096 * 64) with 262144 in D3.
  pose proof (Hm cp). pose proof (Hm (cp / 64)). pose proof (Hm (cp / 4096)). clear Hm.
  generalize dependent (cp mod 64). intros r0.
  generalize dependent ((cp / 64) mod 64). intros r1.
  generalize dependent ((cp / 4096) mod 64). intros r2.
  generalize dependent (cp / 262144). intros q3.
  generalize dependent (cp / 4096). intros q2.
  generalize dependent (cp / 64). intros q1 D1 D2 D3 **.
  assert (cp < 55296 ∨ 57343 < cp) as Hsur.
  { unfold is_high in Hh. unfold is_low in Hl. apply andb_false_iff in Hh, Hl. rewrite !N.leb_gt in Hh, Hl. lia. }
  destruct (cp <? 128) eqn:E1; [|destruct (cp <? 2048) eqn:E2; [|destruct (cp <? 65536) eqn:E3]];
    Ztests.
  - erewrite decodeBytes_last; [done|]. unfold decodeByte. rewrite Hd. by decide_test.
  - erewrite decodeBytes_step by (unfold decodeByte; rewrite Hd; repeat decide_test; reflexivity).
    erewrite decodeBytes_last by next_byte. f_equal. apply emit_eq; [done|lia].
  - erewrite decodeBytes_step by (unfold decodeByte; rewrite Hd; repeat decide_test; reflexivity).
    destruct (N.eqb_spec (224 + q2) 224), (N.eqb_spec (224 + q2) 237); try lia;
      erewrite decodeBytes_step by next_byte; erewrite decodeBytes_last by next_byte;
      f_equal; (apply emit_eq; [done|lia]).
  - erewrite decodeBytes_step by (unfold decodeByte; rewrite Hd; repeat decide_test; reflexivity).
    destruct (N.eqb_spec (240 + q3) 240), (N.eqb_spec (240 + q3) 244); try lia;
      do 2 erewrite decodeBytes_step by next_byte; erewrite decodeBytes_last by next_byte;
      f_equal; (apply emit_eq; [done|lia]).
Qed.

Definition dropBom (cps : list N) : list N :=
  match cps with cp :: cps' => if cp =? 65279 then cps' else cps | [] => [] end.

Lemma decodeBytes_rest d cps :
  needed d = O → bomSeen d = true → Forall scalar cps →
  ∃ d', decodeBytes d (utf8Text cps) = Some (d', utf16Text cps) ∧ needed d' = O.
Proof.
  intros Hn Hb Hcps. revert d Hn Hb. induction Hcps as [|cp cps Hcp _ IH]; intros d Hn Hb; [by exists d|].
  unfold utf8Text, utf16Text. cbn [mbind list_bind]. rewrite decodeBytes_app, decode_scalar by done.
  unfold emit. rewrite Hb. cbn [negb andb].
  destruct (IH (mkDecoder 0 0 128 191 true)) as (d'&Hd'&Hn'); [done..|].
  unfold utf8Text in Hd'. rewrite Hd'. by exists d'.
Qed.

(** A text is read back from its UTF-8 form. *)
Lemma decode_text cps :
  Forall scalar cps → decodeFatal newDecoder (utf8Text cps) false = Some (newDecoder, utf16Text (dropBom cps)).
Proof.
  intros Hcps. unfold decodeFatal. destruct Hcps as [|cp cps Hcp Hcps]; [done|].
  unfold utf8Text. cbn [mbind list_bind]. rewrite decodeBytes_app, decode_scalar by done. unfold emit.
  destruct (decodeBytes_rest (mkDecoder 0 0 128 191 true) cps) as (d'&Hd'&Hn'); [done..|].
  unfold utf8Text in Hd'. rewrite Hd'. rewrite decide_True by done. do 2 f_equal. cbn [dropBom].
  by destruct (cp =? 65279).
Qed.

(** ** Bytes are read back from base64 *)

Definition base64Char (n : N) : N :=
  if n <? 26 then 65 + n else if n <? 52 then 71 + n else if n <? 62 then n - 4
  else if n =? 62 then ch "+" else ch "/".

Fixpoint sextets (bytes : list N) : list N :=
  match bytes with
  | a :: b :: c :: r => a / 4 :: (a mod 4 * 16 + b / 16) :: (b mod 16 * 4 + c / 64) :: c mod 64 :: sextets r
  | [a; b] => [a / 4; a mod 4 * 16 + b / 16; b mod 16 * 4]
  | [a] => [a / 4; a mod 4 * 16]
  | [] => []
  end.

(** The base64 form, padded to a multiple of four characters. *)
Definition base64 (bytes : list N) : jstr :=
  map base64Char (sextets bytes) ++ replicate ((3 - length bytes mod 3) mod 3)%nat 61.

Definition is_byte (b : N) : Prop := b < 256.

Local Ltac Zify.zify_post_hook ::= Z.to_euclidean_division_equations.

(** Induction by threes. *)
Lemma list_ind3 {A} (P : list A → Prop) :
  P [] → (∀ a, P [a]) → (∀ a b, P [a; b]) → (∀ a b c r, P r → P (a :: b :: c :: r)) → ∀ l, P l.
Proof.
  intros H0 H1 H2 H3. fix IH 1. intros [|a [|b [|c r]]]; [done|done|done|]. apply H3, IH.
Qed.

Lemma three_more n : ((3 + n) mod 3 = n mod 3)%nat ∧ ((3 + n + 2) / 3 = S ((n + 2) / 3))%nat.
Proof.
  split.
  - rewrite Nat.add_comm. change 3%nat with (1 * 3)%nat at 1. apply Nat.Div0.mod_add.
  - replace (3 + n + 2)%nat with (n + 2 + 1 * 3)%nat by lia. rewrite Nat.div_add by done. lia.
Qed.

Lemma sextets_spec bytes :
  Forall is_byte bytes →
  Forall (λ n, n < 64) (sextets bytes) ∧ sixBitsToBytes (sextets bytes) = bytes ∧
  (length (sextets bytes) + (3 - length bytes mod 3) mod 3)%nat = (4 * ((length bytes + 2) / 3))%nat.
Proof.
  induction bytes as [|a|a b|a b c r IH] using list_ind3; unfold is_byte; intros Hb;
    repeat (apply Forall_cons in Hb as [? Hb]); cbn [sextets sixBitsToBytes].
  - done.
  - split_and!; [repeat constructor; lia|f_equal; lia|done].
  - split_and!; [repeat constructor; lia|repeat f_equal; lia|done].
  - destruct (IH Hb) as (Hsix&Hbytes&Hlen). split_and!.
    + repeat (constructor; [lia|]). done.
    + rewrite Hbytes. repeat f_equal; lia.
    + cbn [length]. change (S (S (S (length r)))) with (3 + length r)%nat.
      destruct (three_more (length r)) as [-> ->]. lia.
Qed.

Lemma base64Char_sixBits n : n < 64 → sixBits (base64Char n) = Some n.
Proof.
  intros Hn. unfold base64Char, sixBits. change (ch "+") with 43. change (ch "/") with 47.
  destruct (n <? 26) eqn:E1; [|destruct (n <? 52) eqn:E2; [|destruct (n <? 62) eqn:E3; [|destruct (N.eqb_spec n 62)]]];
    Ztests; repeat decide_test; cbn [andb]; try (f_equal; lia); subst; try done.
Qed.

Lemma base64Char_plain n : n < 64 → isAsciiSpace (base64Char n) = false ∧ base64Char n ≠ 61.
Proof.
  intros Hn. assert (32 < base64Char n ∧ base64Char n ≠ 61) as [Hlt ?].
  { unfold base64Char. change (ch "+") with 43. change (ch "/") with 47.
    destruct (n <? 26) eqn:E1; [|destruct (n <? 52) eqn:E2; [|destruct (n <? 62) eqn:E3; [|destruct (n =? 62)]]];
      Ztests; lia. }
  split; [|done]. unfold isAsciiSpace. apply includes_false. rewrite !elem_of_cons, elem_of_nil. lia.
Qed.

Lemma dropPadding_pad t : dropPadding (t ++ [61]) = t.
Proof.
  unfold dropPadding. rewrite last_snoc, decide_True by done. rewrite length_app. cbn [length].
  rewrite take_app_le by lia. apply take_ge. lia.
Qed.

Lemma dropPadding_plain t : Forall (λ c, c ≠ 61) t → dropPadding t = t.
Proof.
  intros Ht. unfold dropPadding. rewrite decide_False; [done|]. intros Hl.
  apply last_Some_elem_of in Hl. rewrite Forall_forall in Ht. by eapply Ht.
Qed.

Lemma stripPadding_pad t n :
  Forall (λ c, c ≠ 61) t → (n ≤ 2)%nat → ((length t + n) mod 4 = 0)%nat →
  stripPadding (t ++ replicate n 61) = t.
Proof.
  intros Ht Hn Hlen. unfold stripPadding. rewrite length_app, length_replicate, decide_True by done.
  destruct n as [|[|[|n]]]; [| | |lia]; cbn [replicate].
  - rewrite app_nil_r. by rewrite (dropPadding_plain t), (dropPadding_plain t).
  - by rewrite dropPadding_pad, dropPadding_plain.
  - change [61; 61] with ([61] ++ [61]). by rewrite (assoc_L (++)), !dropPadding_pad.
Qed.

(** [atob] gives the bytes of a base64 text. *)
Lemma atob_base64 bytes : Forall is_byte bytes → atob (base64 bytes) = Some bytes.
Proof.
  intros Hb. destruct (sextets_spec bytes Hb) as (Hs&Hback&Hlen). unfold atob, base64.
  pose proof (Nat.mod_upper_bound (3 - length bytes mod 3) 3 ltac:(done)) as Hpad.
  generalize dependent ((3 - length bytes mod 3) mod 3)%nat. intros pad Hlen Hpad.
  generalize dependent ((length bytes + 2) / 3)%nat. intros q Hlen.
  rewrite filter_all.
  2: { apply Forall_app. split; [|apply Forall_replicate; by vm_compute].
       apply Forall_map. eapply Forall_impl; [done|]. intros n Hn. by apply base64Char_plain. }
  rewrite stripPadding_pad.
  - rewrite decide_False by (rewrite length_map; lia).
    assert (mapM sixBits (map base64Char (sextets bytes)) = Some (sextets bytes)) as ->; [|cbn; by f_equal].
    apply mapM_Some_2. rewrite Forall2_fmap_l. apply Forall_Forall2_diag.
    eapply Forall_impl; [done|]. intros n Hn. by apply base64Char_sixBits.
  - apply Forall_map. eapply Forall_impl; [done|]. intros n Hn. by apply base64Char_plain.
  - lia.
  - rewrite length_map. lia.
Qed.
