(* ===== verification/LargeCellValue.v ===== *)
(** * LargeCellValue: values too large for the result table

    Models [blocks/SearchResult/components/ViewData/largeCellValue.ts] (limits,
    decoding and showing the chunks of a large value) and
    [readCompleteCopyValue] of [ResultSetTable/copyValues.ts], which reads all
    chunks of a value when it is copied.  The engine that serves the chunks is a
    function of the number of the read and the offset asked for; it may answer
    anything, fail, or the copy may be aborted while it is awaited. *)

From S2P Require Import Prelude UriComponent TextDecoding.
Local Open Scope nat_scope.

(** ** Data *)

Inductive LargeValueType := TEXT | BINARY | IMAGE | JSON | UNKNOWN.

#[export] Instance LargeValueType_eq_dec : EqDecision LargeValueType.
Proof. solve_decision. Defined.

Record ILargeCellChunk := mkChunk {
  chunkValue : jstr;
  offset : Z;
  nextOffset : Z;
  eof : bool;
  displayMode : option LargeValueType;
}.

(** [bytes] replaces [value]. *)
Record LoadedLargeCellChunk := mkLoaded {
  loadedOffset : Z;
  loadedNextOffset : Z;
  loadedEof : bool;
  loadedDisplayMode : option LargeValueType;
  bytes : list N;
}.

Inductive LargeCellViewerMode := TextMode | HexMode | ImageMode.

#[export] Instance LargeCellViewerMode_eq_dec : EqDecision LargeCellViewerMode.
Proof. solve_decision. Defined.

Inductive LargeCellDownloadFormat := RawFormat | TextFormat | HexFormat.

(** ** Limits *)

Definition LARGE_CELL_TEXT_EDITOR_LIMIT : Z := 10 * 1024 * 1024.
Definition LARGE_CELL_BINARY_EDITOR_LIMIT : Z := 50 * 1024 * 1024.
Definition LARGE_CELL_MAX_CHUNK_SIZE : Z := 1024 * 1024.

Definition isBinaryDisplayMode (mode : option LargeValueType) : bool :=
  match mode with Some BINARY | Some IMAGE => true | _ => false end.

Definition isTextDownloadMode (mode : option LargeValueType) : bool :=
  match mode with Some TEXT | Some JSON => true | _ => false end.

Definition getLargeCellEditorLimit (mode : option LargeValueType) : Z :=
  if isBinaryDisplayMode mode then LARGE_CELL_BINARY_EDITOR_LIMIT else LARGE_CELL_TEXT_EDITOR_LIMIT.

Definition getLargeCellViewerLimit (viewerMode : LargeCellViewerMode) (valueType : option LargeValueType) : Z :=
  match viewerMode with
  | TextMode => getLargeCellEditorLimit valueType
  | _ => LARGE_CELL_BINARY_EDITOR_LIMIT
  end.

Definition getLargeCellDownloadFormat (mode : option LargeValueType) : LargeCellDownloadFormat :=
  if isTextDownloadMode mode then TextFormat else RawFormat.

Definition getLargeCellLoadedBytes (chunks : list LoadedLargeCellChunk) : Z :=
  fold_left (λ sum chunk, sum + Z.max 0 (loadedNextOffset chunk - loadedOffset chunk))%Z chunks 0%Z.

(** Base64 without padding needs limits that are multiples of three. *)
Definition getNextLargeCellChunkLimit (loadedSize editorLimit : Z) : Z :=
  let remaining := (editorLimit - loadedSize)%Z in
  if (remaining <? 3)%Z then 0%Z
  else
    let nextLimit := Z.min LARGE_CELL_MAX_CHUNK_SIZE remaining in
    (nextLimit - Z.rem nextLimit 3)%Z.

Definition canSubmitLargeCellEdit (isLargeValue : bool) (viewerMode : LargeCellViewerMode)
    (mode : option LargeValueType) (atEnd : bool) (loadedSize editorLimit : Z) : bool :=
  if negb isLargeValue then true
  else bool_decide (viewerMode = TextMode) && negb (isBinaryDisplayMode mode) && atEnd && (loadedSize <=? editorLimit)%Z.

(** ** Chunks *)

(** [None]: [atob] throws. *)
Definition decodeLargeCellChunk (chunk : ILargeCellChunk) : option LoadedLargeCellChunk :=
  (λ bytes, mkLoaded (offset chunk) (nextOffset chunk) (eof chunk) (displayMode chunk) bytes)
    <$> atob (chunkValue chunk).

(** [byte.toString(16).padStart(2, '0')]. *)
Definition hexLower (n : N) : N := if (n <? 10)%N then (48 + n)%N else (87 + n)%N.
Definition hexPair (byte : N) : jstr := [hexLower (byte / 16); hexLower (byte mod 16)].

Definition blockSize : nat := Z.to_nat 32768.

(** The loop over the blocks; every block takes a byte away. *)
Fixpoint hexBlocks (fuel : nat) (bytes : list N) : jstr :=
  match fuel, bytes with
  | S fuel, _ :: _ => (take blockSize bytes ≫= hexPair) ++ hexBlocks fuel (drop blockSize bytes)
  | _, _ => []
  end.

Definition bytesToHex (bytes : list N) : jstr := toUpperCase (hexBlocks (length bytes) bytes).

(** The text decoder of the viewer goes over the chunks. *)
Fixpoint decodeChunks (d : Decoder) (chunks : list LoadedLargeCellChunk) : jstr :=
  match chunks with
  | [] => []
  | chunk :: chunks' =>
      let (d', out) := decodeLossy d (bytes chunk) (bool_decide (chunks' ≠ [])) in
      out ++ decodeChunks d' chunks'
  end.

Definition getLargeCellViewerValue (viewerMode : LargeCellViewerMode) (chunks : list LoadedLargeCellChunk)
    (preview : option jstr) : jstr :=
  match chunks with
  | [] => default [] preview
  | _ => match viewerMode with
         | ImageMode => []
         | HexMode => chunks ≫= (λ chunk, bytesToHex (bytes chunk))
         | TextMode => decodeChunks newDecoder chunks
         end
  end.

(** ** Reading a complete value *)

Record IResultCell := mkCell {
  cellValue : option jstr;
  largeValue : bool;
  largeValueId : option jstr;
  valueType : option LargeValueType;
  truncated : bool;
  unsupportedReason : option jstr;
  loadedBytes : option Z;
  loadedChars : option Z;
}.

(** [!meta.largeValueId] is the negation. *)
Definition hasLargeValueId (meta : IResultCell) : bool :=
  match largeValueId meta with Some (_ :: _) => true | _ => false end.

Inductive CopyError := FullValueUnsupported | ReadFailed | Undecodable | Aborted | ServerError (message : jstr).

(** What is known when an awaited chunk is answered. *)
Inductive ReadOutcome := ChunkRead (chunk : ILargeCellChunk) | ReadRejected (message : jstr) | ReadAborted.

Record FullValue := mkFull { fullValue : jstr; sizeBytes : Z }.

(** [chunk.displayMode || meta.valueType]. *)
Definition chunkMode (chunk : ILargeCellChunk) (meta : IResultCell) : option LargeValueType :=
  match displayMode chunk with Some m => Some m | None => valueType meta end.

(** The text of a chunk, and the decoder behind it. *)
Definition chunkText (d : Decoder) (binary : bool) (loaded : LoadedLargeCellChunk) : option (Decoder * jstr) :=
  if binary then Some (d, getLargeCellViewerValue HexMode [loaded] None)
  else decodeFatal d (bytes loaded) (negb (loadedEof loaded)).

(** The loop; [k] is the number of the next read and [fuel] bounds the reads. *)
Fixpoint readLoop (server : nat → Z → ReadOutcome) (meta : IResultCell) (fuel k : nat) (at_ : Z) (d : Decoder)
    (parts : list jstr) : option (FullValue + CopyError) :=
  match fuel with
  | O => None
  | S fuel =>
      match server k at_ with
      | ReadAborted => Some (inr Aborted)
      | ReadRejected message => Some (inr (ServerError message))
      | ChunkRead chunk =>
          match decodeLargeCellChunk chunk with
          | None => Some (inr Undecodable)
          | Some loaded =>
              if negb (offset chunk =? at_)%Z || negb (nextOffset chunk =? at_ + Z.of_nat (length (bytes loaded)))%Z
                 || (negb (eof chunk) && bool_decide (bytes loaded = []))
              then Some (inr ReadFailed)
              else
                let binary := isBinaryDisplayMode (chunkMode chunk meta) in
                match chunkText d binary loaded with
                | None => Some (inr Undecodable)
                | Some (d', part) =>
                    let parts := parts ++ [part] in
                    if eof chunk
                    then Some (inl (mkFull ((if binary then js "0x" else []) ++ concat parts) (nextOffset chunk)))
                    else readLoop server meta fuel (S k) (nextOffset chunk) d' parts
                end
          end
      end
  end.

(** [aborted]: the copy was aborted before the first read. *)
Definition readCompleteCopyValue (server : nat → Z → ReadOutcome) (aborted : bool) (fuel : nat) (meta : IResultCell)
    : option (FullValue + CopyError) :=
  if negb (hasLargeValueId meta) then Some (inr FullValueUnsupported)
  else if aborted then Some (inr Aborted)
  else readLoop server meta fuel 0 0 newDecoder [].

(** ** Hexadecimal texts *)

Lemma hexBlocks_spec fuel bs : length bs ≤ fuel → hexBlocks fuel bs = bs ≫= hexPair.
Proof.
  revert bs. induction fuel as [|fuel IH]; intros [|b bs] Hlen; try done; [simpl in Hlen; lia|].
  cbn [hexBlocks]. rewrite IH.
  - by rewrite <-bind_app, take_drop.
  - rewrite length_drop. assert (0 < blockSize) by (unfold blockSize; lia). cbn [length] in *. lia.
Qed.

Lemma bytesToHex_spec bs : bytesToHex bs = bs ≫= (λ b, toUpperCase (hexPair b)).
Proof.
  unfold bytesToHex. rewrite hexBlocks_spec by done. induction bs as [|b bs IH]; [done|].
  cbn [mbind list_bind]. rewrite <-IH. unfold toUpperCase. by rewrite fmap_app.
Qed.

Lemma bytesToHex_app bs bs' : bytesToHex (bs ++ bs') = bytesToHex bs ++ bytesToHex bs'.
Proof. by rewrite !bytesToHex_spec, bind_app. Qed.

(** ** Chunks that are served *)

Definition allBytes (chunks : list LoadedLargeCellChunk) : list N := chunks ≫= bytes.

Definition follows (loaded : LoadedLargeCellChunk) (at_ : Z) : Prop :=
  loadedOffset loaded = at_ ∧ loadedNextOffset loaded = (at_ + Z.of_nat (length (bytes loaded)))%Z.

(** From read [k] on the server answers with these chunks, each starting where
    the one before ended, the last one and only that at the end. *)
Inductive served (server : nat → Z → ReadOutcome) : nat → Z → list LoadedLargeCellChunk → Prop :=
  | served_last k at_ chunk loaded :
      server k at_ = ChunkRead chunk → decodeLargeCellChunk chunk = Some loaded → follows loaded at_ →
      loadedEof loaded = true → served server k at_ [loaded]
  | served_more k at_ chunk loaded chunks :
      server k at_ = ChunkRead chunk → decodeLargeCellChunk chunk = Some loaded → follows loaded at_ →
      loadedEof loaded = false → bytes loaded ≠ [] →
      served server (S k) (loadedNextOffset loaded) chunks → served server k at_ (loaded :: chunks).

(** A chunk is shown as bytes or not. *)
Definition shownAsBytes (meta : IResultCell) (loaded : LoadedLargeCellChunk) : bool :=
  isBinaryDisplayMode (match loadedDisplayMode loaded with Some m => Some m | None => valueType meta end).

(** The text of the bytes of a value. *)
Definition rendered (binary : bool) (bs : list N) : option jstr :=
  if binary then Some (js "0x" ++ bytesToHex bs) else snd <$> decodeFatal newDecoder bs false.

Lemma decode_chunk chunk loaded :
  decodeLargeCellChunk chunk = Some loaded →
  loadedOffset loaded = offset chunk ∧ loadedNextOffset loaded = nextOffset chunk ∧ loadedEof loaded = eof chunk ∧
  loadedDisplayMode loaded = displayMode chunk.
Proof.
  unfold decodeLargeCellChunk. destruct (atob (chunkValue chunk)); [|done]. simpl. by intros [= <-].
Qed.

(** One round of the loop on a chunk that follows. *)
Lemma readLoop_chunk server meta fuel k at_ d parts chunk loaded :
  server k at_ = ChunkRead chunk → decodeLargeCellChunk chunk = Some loaded → follows loaded at_ →
  (loadedEof loaded = false → bytes loaded ≠ []) →
  readLoop server meta (S fuel) k at_ d parts =
  match chunkText d (shownAsBytes meta loaded) loaded with
  | None => Some (inr Undecodable)
  | Some (d', part) =>
      if loadedEof loaded
      then Some (inl (mkFull ((if shownAsBytes meta loaded then js "0x" else []) ++ concat (parts ++ [part]))
                        (loadedNextOffset loaded)))
      else readLoop server meta fuel (S k) (loadedNextOffset loaded) d' (parts ++ [part])
  end.
Proof.
  intros Hserver Hdec [Ho Hn] He. destruct (decode_chunk _ _ Hdec) as (Ho'&Hn'&He'&Hm').
  cbn [readLoop]. rewrite Hserver, Hdec, <-Ho', <-Hn', <-He', Ho, Hn, !Z.eqb_refl. cbn [negb orb].
  replace (negb (loadedEof loaded) && bool_decide (bytes loaded = [])) with false.
  2: { destruct (loadedEof loaded); [done|]. by rewrite bool_decide_eq_false_2 by auto. }
  unfold chunkMode, shownAsBytes. by rewrite Hm'.
Qed.

Lemma read_served server meta binary k at_ chunks fuel d parts :
  served server k at_ chunks → Forall (λ c, shownAsBytes meta c = binary) chunks → length chunks ≤ fuel →
  readLoop server meta fuel k at_ d parts =
  Some (match (if binary then Some (js "0x" ++ concat parts ++ bytesToHex (allBytes chunks))
               else '(_, out) ← decodeFatal d (allBytes chunks) false; Some (concat parts ++ out)) with
        | Some text => inl (mkFull text (at_ + Z.of_nat (length (allBytes chunks))))
        | None => inr Undecodable
        end).
Proof.
  intros Hs. revert fuel d parts.
  induction Hs as [k at_ chunk loaded Hserver Hdec Hf He|k at_ chunk loaded chunks Hserver Hdec Hf He Hne _ IH];
    intros fuel d parts Hmode Hlen; apply Forall_cons in Hmode as [Hm Hmode]; simpl in Hlen;
    (destruct fuel as [|fuel]; [lia|]);
    (rewrite (readLoop_chunk _ _ _ _ _ _ _ chunk loaded) by (done || congruence)); rewrite Hm, He;
    unfold chunkText, allBytes; cbn [mbind list_bind option_bind].
  - rewrite He, !app_nil_r, (proj2 Hf). cbn [negb]. destruct binary.
    + cbn [getLargeCellViewerValue mbind list_bind]. rewrite concat_app. cbn [concat]. by rewrite !app_nil_r.
    + destruct (decodeFatal d (bytes loaded) false) as [[d' out]|]; [|done].
      rewrite concat_app. cbn [concat mbind option_bind]. by rewrite app_nil_r.
  - rewrite He. cbn [negb]. rewrite length_app. destruct binary.
    + rewrite IH by (done || lia). rewrite (proj2 Hf), concat_app, bytesToHex_app.
      cbn [getLargeCellViewerValue mbind list_bind concat]. unfold allBytes.
      rewrite !app_nil_r, <-!(assoc_L (++)). do 3 f_equal. lia.
    + unfold decodeFatal at 1. unfold decodeFatal at 1. rewrite decodeBytes_app.
      destruct (decodeBytes d (bytes loaded)) as [[d' out]|]; [|done].
      rewrite IH by (done || lia). rewrite (proj2 Hf), concat_app. unfold decodeFatal, allBytes. cbn [concat].
      destruct (decodeBytes d' (chunks ≫= bytes)) as [[d2 out2]|]; [|done].
      case_decide; [|done]. cbn [mbind option_bind]. rewrite app_nil_r, <-!(assoc_L (++)). do 3 f_equal. lia.
Qed.

Lemma served_length server k at_ chunks : served server k at_ chunks → length chunks ≤ length (allBytes chunks) + 1.
Proof.
  intros Hs. induction Hs as [|k at_ chunk loaded chunks _ _ _ _ Hne _ IH]; [simpl; lia|].
  unfold allBytes in *. cbn [mbind list_bind length]. rewrite length_app. destruct (bytes loaded); [done|simpl; lia].
Qed.

(** A value that the engine serves in chunks is copied whole.  However the
    bytes are cut, the reads end, after at most one more than there are bytes;
    the text is the hexadecimal form of all bytes, or what they decode to
    together, even where a character is cut between two chunks. *)
Theorem complete_value_read server meta chunks binary fuel :
  hasLargeValueId meta = true → served server 0 0 chunks → Forall (λ c, shownAsBytes meta c = binary) chunks →
  length (allBytes chunks) < fuel →
  readCompleteCopyValue server false fuel meta =
  Some (match rendered binary (allBytes chunks) with
        | Some text => inl (mkFull text (Z.of_nat (length (allBytes chunks))))
        | None => inr Undecodable
        end).
Proof.
  intros Hid Hs Hmode Hfuel. pose proof (served_length _ _ _ _ Hs) as Hlen.
  unfold readCompleteCopyValue. rewrite Hid. cbn [negb].
  rewrite (read_served server meta binary 0 0 chunks fuel newDecoder []) by (done || lia). unfold rendered.
  destruct binary; [done|]. by destruct (decodeFatal newDecoder (allBytes chunks) false) as [[d out]|].
Qed.

(** ** Any engine *)

(** What one round does, whatever is answered. *)
Lemma readLoop_cases server meta k (at_ : Z) d parts :
  (∃ e, ∀ fuel', readLoop server meta (S fuel') k at_ d parts = Some (inr e)) ∨
  ∃ chunk loaded, server k at_ = ChunkRead chunk ∧ decodeLargeCellChunk chunk = Some loaded ∧ follows loaded at_ ∧
    (loadedEof loaded = false → bytes loaded ≠ []) ∧
    (loadedEof loaded = true →
       ∃ text, ∀ fuel', readLoop server meta (S fuel') k at_ d parts = Some (inl (mkFull text (loadedNextOffset loaded)))) ∧
    (loadedEof loaded = false →
       ∃ d' parts', ∀ fuel', readLoop server meta (S fuel') k at_ d parts =
         readLoop server meta fuel' (S k) (loadedNextOffset loaded) d' parts').
Proof.
  destruct (server k at_) as [chunk|message|] eqn:Hserver;
    [|left; eexists; intros fuel'; cbn [readLoop]; by rewrite Hserver..].
  destruct (decodeLargeCellChunk chunk) as [loaded|] eqn:Hdec;
    [|left; eexists; intros fuel'; cbn [readLoop]; by rewrite Hserver, Hdec].
  destruct (decode_chunk _ _ Hdec) as (Ho&Hn&He&_).
  destruct (negb (offset chunk =? at_)%Z || negb (nextOffset chunk =? at_ + Z.of_nat (length (bytes loaded)))%Z
            || (negb (eof chunk) && bool_decide (bytes loaded = []))) eqn:Hbad.
  { left. eexists. intros fuel'. cbn [readLoop]. by rewrite Hserver, Hdec, Hbad. }
  apply orb_false_iff in Hbad as [[H1 H2]%orb_false_iff H3]. apply negb_false_iff, Z.eqb_eq in H1, H2.
  assert (follows loaded at_) as Hf by (split; congruence).
  assert (loadedEof loaded = false → bytes loaded ≠ []) as Hne.
  { intros E. rewrite <-He, E in H3. by apply bool_decide_eq_false in H3. }
  pose proof (λ fuel', readLoop_chunk server meta fuel' k at_ d parts chunk loaded Hserver Hdec Hf Hne) as Hround.
  destruct (chunkText d (shownAsBytes meta loaded) loaded) as [[d' part]|]; [|left; by eexists].
  right. exists chunk, loaded. split_and!; try done.
  - intros E. rewrite E in Hround. by eexists.
  - intros E. rewrite E in Hround. by exists d', (parts ++ [part]).
Qed.

Lemma readLoop_ends server meta n fuel k at_ d parts :
  (∀ k at_ chunk, server k at_ = ChunkRead chunk → (nextOffset chunk ≤ n)%Z) →
  Z.to_nat (n - at_) < fuel →
  ∃ r, readLoop server meta fuel k at_ d parts = Some r ∧
    (∀ fuel' r', readLoop server meta fuel' k at_ d parts = Some r' → r' = r) ∧
    ∀ full, r = inl full → ∃ chunks, served server k at_ chunks ∧
      sizeBytes full = (at_ + Z.of_nat (length (allBytes chunks)))%Z.
Proof.
  intros Hn. revert k at_ d parts. induction fuel as [|fuel IH]; intros k at_ d parts Hfuel; [lia|].
  destruct (readLoop_cases server meta k at_ d parts) as
    [[e He]|(chunk&loaded&Hserver&Hdec&Hf&Hne&Hend&Hmore)].
  - exists (inr e). split_and!; [done| |done]. intros [|fuel'] r'; [done|]. rewrite He. congruence.
  - destruct (loadedEof loaded) eqn:E.
    + destruct (Hend eq_refl) as [text Htext]. eexists. split_and!; [done| |].
      * intros [|fuel'] r'; [done|]. rewrite Htext. congruence.
      * intros full [= <-]. exists [loaded]. split; [by eapply served_last|].
        unfold allBytes. cbn [mbind list_bind]. rewrite app_nil_r. by destruct Hf.
    + destruct (Hmore eq_refl) as (d'&parts'&Hloop). specialize (Hne eq_refl).
      assert (0 < length (bytes loaded)) as Hpos by (destruct (bytes loaded); [done|simpl; lia]).
      pose proof (Hn k at_ chunk Hserver) as Hbound. destruct (decode_chunk _ _ Hdec) as (_&Hnext&_).
      destruct Hf as [Ho Hlen].
      destruct (IH (S k) (loadedNextOffset loaded) d' parts') as (r&Hr&Huniq&Hserved); [lia|].
      exists r. split_and!; [by rewrite Hloop| |].
      * intros [|fuel'] r'; [done|]. rewrite Hloop. apply Huniq.
      * intros full Hfull. destruct (Hserved full Hfull) as (chunks&Hchunks&Hsize).
        exists (loaded :: chunks). split; [by eapply served_more|].
        rewrite Hsize, Hlen. unfold allBytes. cbn [mbind list_bind]. rewrite length_app. lia.
Qed.


(** ** The viewer *)

(** The text shown does not depend on how the bytes are cut, apart from the
    decoding errors being replaced. *)
Lemma decodeChunks_spec d chunks :
  chunks ≠ [] → decodeChunks d chunks = (decodeLossy d (allBytes chunks) false).2.
Proof.
  revert d. induction chunks as [|chunk chunks IH]; intros d Hne; [done|].
  cbn [decodeChunks]. unfold allBytes in *. cbn [mbind list_bind]. destruct chunks as [|chunk' chunks'].
  - rewrite bool_decide_eq_false_2 by (intros E; by apply E). cbn [mbind list_bind]. rewrite app_nil_r.
    destruct (decodeLossy d (bytes chunk) false) as [d' out]. cbn [decodeChunks]. by rewrite app_nil_r.
  - rewrite bool_decide_eq_true_2 by done. unfold decodeLossy at 1.
    destruct (decodeBytesLossy d (bytes chunk)) as [d' out] eqn:E.
    rewrite IH by done. unfold decodeLossy.
    rewrite decodeBytesLossy_app, E. cbn [fst snd].
    destruct (decodeBytesLossy d' ((chunk' :: chunks') ≫= bytes)) as [d2 out2]. cbn [fst snd].
    by rewrite (assoc_L (++)).
Qed.

(** The next request stays within the limit of the editor, asks for whole base64
    groups, and asks for nothing only when fewer than three bytes are left. *)
Lemma chunk_limit_spec loadedSize editorLimit :
  (0 ≤ loadedSize ≤ editorLimit)%Z →
  let limit := getNextLargeCellChunkLimit loadedSize editorLimit in
  (0 ≤ limit ≤ LARGE_CELL_MAX_CHUNK_SIZE)%Z ∧ (loadedSize + limit ≤ editorLimit)%Z ∧ (limit mod 3 = 0)%Z ∧
  (limit = 0 ↔ editorLimit - loadedSize < 3)%Z.
Proof.
  intros H. unfold getNextLargeCellChunkLimit, LARGE_CELL_MAX_CHUNK_SIZE. cbv zeta.
  destruct (Z.ltb_spec (editorLimit - loadedSize) 3); [split_and!; try lia; done|].
  rewrite Z.rem_mod_nonneg by lia. pose proof (Z.mod_pos_bound (Z.min (1024 * 1024) (editorLimit - loadedSize)) 3 eq_refl).
  pose proof (Z.div_mod (Z.min (1024 * 1024) (editorLimit - loadedSize)) 3 ltac:(done)).
  set (m := Z.min _ _) in *. set (q := (m / 3)%Z) in *. set (r := (m mod 3)%Z) in *.
  split_and!; lia.
Qed.

(** ** A concrete value *)

(** An engine that cuts a value into pieces of [size] bytes. *)
Definition servePieces (size : nat) (bs : list N) (k : nat) (at_ : Z) : ReadOutcome :=
  let piece := take size (drop (Z.to_nat at_) bs) in
  ChunkRead (mkChunk (base64 piece) at_ (at_ + Z.of_nat (length piece))
    (bool_decide (length bs ≤ Z.to_nat at_ + size)) (Some TEXT)).

Definition sampleMeta : IResultCell :=
  mkCell (Some (js "preview")) true (Some (js "id")) (Some TEXT) true None None None.

(** U+4E2D and U+1F600 are cut inside. *)
Definition sampleBytes : list N := utf8Text [104; 20013; 105; 128512; 33]%N.

Definition sampleChunk (from size : Z) (last : bool) : LoadedLargeCellChunk :=
  mkLoaded from (from + size) last (Some TEXT) (take (Z.to_nat size) (drop (Z.to_nat from) sampleBytes)).

Lemma complete_value_read_witness :
  readCompleteCopyValue (servePieces 3 sampleBytes) false 11 sampleMeta =
  Some (inl (mkFull (js "h" ++ [20013%N] ++ js "i" ++ utf16 128512 ++ js "!") 10)).
Proof.
  apply (complete_value_read (servePieces 3 sampleBytes) sampleMeta
           [sampleChunk 0 3 false; sampleChunk 3 3 false; sampleChunk 6 3 false; sampleChunk 9 1 true] false 11).
  - reflexivity.
  - do 3 (eapply served_more; [by vm_compute|by vm_compute|by vm_compute|done|done|]).
    eapply served_last; by vm_compute.
  - repeat constructor.
  - vm_compute. lia.
Defined.

(** A text of the engine that starts with a byte order mark is copied without. *)
Lemma byte_order_mark_dropped :
  readCompleteCopyValue (servePieces 3 (utf8Text [65279; 104]%N)) false 5 sampleMeta = Some (inl (mkFull (js "h") 4)).
Proof. by vm_compute. Qed.

(** An engine that serves the value, and nothing outside of it. *)
Definition sampleServer (k : nat) (at_ : Z) : ReadOutcome :=
  if bool_decide (0 <= at_ <= 10)%Z then servePieces 3 sampleBytes k at_ else ReadAborted.

