(* ===== verification/ResultCopy.v ===== *)
(** * ResultCopy: copying cells of a result table

    Models [ResultSetTable/copyValues.ts] (the snapshot of a selection, the
    fields a copy needs, completing large values, the operations for generated
    SQL, the grid of texts) and [onContextmenuCell/markdownTable.ts].

    The rows of the table are objects that the table, the selection and the
    snapshot share: a record lives in a store, a list of records, and a cell
    refers to it by its number.  What the engine answers for the n-th large value
    is a function of n. *)

From S2P Require Import Prelude JsNumber StableSort TextDecoding LargeCellValue.
Local Open Scope nat_scope.

(** ** Data *)

(** A value of type [unknown]: a string, or anything else with the text [String]
    gives it. *)
Inductive CopyValue := Undefined | Null | TextValue (text : jstr) | OtherValue (text : jstr).

#[export] Instance CopyValue_eq_dec : EqDecision CopyValue.
Proof. solve_decision. Defined.

Record ResultCopyRecord := mkRecord {
  fieldValues : dict CopyValue;
  rowNumber : option jstr;
  cellMeta : option (list IResultCell);
}.

Abbreviation Store := (list ResultCopyRecord).

Record ResultCopyCell := mkCopyCell {
  row : nat;
  col : nat;
  field : option jstr;
  value : CopyValue;
  dataValue : CopyValue;
  originData : option nat;
}.

Abbreviation ResultCopySelection := (list (list ResultCopyCell)).

Inductive ResultCopyFormat :=
  | CopyCells | CopyCreate | CopyUpdate | CopyWhere | CopyInValues | CopyTsv | CopyHeaders | CopyTsvWithHeaders
  | CopyMarkdown.

#[export] Instance ResultCopyFormat_eq_dec : EqDecision ResultCopyFormat.
Proof. solve_decision. Defined.

(** [String(field)]; an absent field is ["undefined"]. *)
Definition fieldText (f : option jstr) : jstr := default (js "undefined") f.

(** [record[f]]. *)
Definition fieldOf (record : ResultCopyRecord) (f : jstr) : CopyValue := default Undefined (dget f (fieldValues record)).

(** [Number(f)] as an index; [None] when it is none. *)
Definition fieldIndex (f : jstr) : option nat :=
  match js_Number f with Some n => if (0 <=? n)%Z then Some (Z.to_nat n) else None | None => None end.

(** [record.__CHAT2DB_CELL_META__?.[Number(f)]]. *)
Definition metaOf (record : ResultCopyRecord) (f : jstr) : option IResultCell :=
  metas ← cellMeta record; i ← fieldIndex f; metas !! i.

(** ** The snapshot *)

(** [xs.map(f)] with a function that changes a state. *)
Fixpoint mapState {S A B} (f : A → S → B * S) (xs : list A) (s : S) : list B * S :=
  match xs with
  | [] => ([], s)
  | x :: xs' => let (y, s) := f x s in let (ys, s) := mapState f xs' s in (y :: ys, s)
  end.

Definition withOrigin (n : nat) (cell : ResultCopyCell) : ResultCopyCell :=
  mkCopyCell (row cell) (col cell) (field cell) (value cell) (dataValue cell) (Some n).

(** The store and the map [records]. *)
Abbreviation SnapshotState := (Store * gmap nat nat)%type.

Definition snapshotCell (cell : ResultCopyCell) (s : SnapshotState) : ResultCopyCell * SnapshotState :=
  match originData cell with
  | None => (cell, s)
  | Some original =>
      match s.2 !! original with
      | Some n => (withOrigin n cell, s)
      | None =>
          match s.1 !! original with
          | Some record =>
              (withOrigin (length s.1) cell, (s.1 ++ [record], <[original := length s.1]> s.2))
          | None => (cell, s)
          end
      end
  end.

Definition snapshotResultCopySelection (selection : ResultCopySelection) (store : Store)
    : ResultCopySelection * SnapshotState :=
  mapState (mapState snapshotCell) selection (store, ∅).

(** ** Which fields a copy needs *)

(** [isKey]: the header of a column is marked as a primary key; the first header
    is that of the row numbers. *)
Definition getResultCopyFields (cells : list ResultCopyCell) (format : ResultCopyFormat) (visibleFields : list jstr)
    (isKey : list bool) : list jstr :=
  match format with
  | CopyHeaders => []
  | CopyTsv | CopyTsvWithHeaders => visibleFields
  | _ =>
      let selected := map (λ cell, fieldText (field cell)) (filter (λ cell, 0 < row cell ∧ 0 < col cell) cells) in
      if bool_decide (format ≠ CopyUpdate) then selected
      else
        let index (i : nat) := znum (Z.of_nat i) in
        let keyFields := omap (λ ik, if bool_decide (0 < ik.1) && (ik.2 : bool) then Some (index ik.1) else None)
                           (imap pair isKey) in
        let locatorFields := match keyFields with [] => map index (seq 1 (length isKey - 1)) | _ => keyFields end in
        uniq (selected ++ locatorFields)
  end.

(** ** Completing large values *)

(** [loads] are the identifiers of the values that were read, in order. *)
Record CopyRun := mkRun { store : Store; fullValues : gmap jstr FullValue; loads : list jstr }.

Definition completedMeta (full : FullValue) (meta : IResultCell) : IResultCell :=
  mkCell (Some (fullValue full)) false None (valueType meta) false None (Some (sizeBytes full))
    (Some (Z.of_nat (length (fullValue full)))).

(** A cell whose value is only a part. *)
Definition isPartial (meta : IResultCell) : bool := largeValue meta || truncated meta || hasLargeValueId meta.

Definition writeFull (full : FullValue) (f : jstr) (record : ResultCopyRecord) : ResultCopyRecord :=
  mkRecord (dset f (TextValue (fullValue full)) (fieldValues record)) (rowNumber record)
    (match fieldIndex f with
     | Some i => alter (completedMeta full) i <$> cellMeta record
     | None => cellMeta record
     end).

(** One field of a record; the second component is the error thrown. *)
Definition completeField (read : nat → IResultCell → FullValue + CopyError) (n : nat) (f : jstr) (s : CopyRun)
    : CopyRun * option CopyError :=
  match store s !! n with
  | None => (s, None)
  | Some record =>
      match metaOf record f with
      | None => (s, None)
      | Some meta =>
          if negb (isPartial meta) then (s, None)
          else
            match largeValueId meta with
            | None | Some [] => (s, Some FullValueUnsupported)
            | Some id =>
                match fullValues s !! id with
                | Some full => (mkRun (alter (writeFull full f) n (store s)) (fullValues s) (loads s), None)
                | None =>
                    match read (length (loads s)) meta with
                    | inr e => (mkRun (store s) (fullValues s) (loads s ++ [id]), Some e)
                    | inl full =>
                        (mkRun (alter (writeFull full f) n (store s)) (<[id := full]> (fullValues s)) (loads s ++ [id]),
                         None)
                    end
                end
            end
      end
  end.

(** The loops: what is to be completed, in order. *)
Fixpoint completeAll (read : nat → IResultCell → FullValue + CopyError) (todo : list (nat * jstr)) (s : CopyRun)
    : CopyRun * option CopyError :=
  match todo with
  | [] => (s, None)
  | (n, f) :: todo' =>
      let (s, e) := completeField read n f s in
      match e with Some _ => (s, e) | None => completeAll read todo' s end
  end.

Definition rowRecord (cells : list ResultCopyCell) : option nat :=
  head (omap (λ cell, if decide (0 < row cell) then originData cell else None) cells).

Definition fieldsToComplete (selection : ResultCopySelection) (fields : list (list jstr)) : list (nat * jstr) :=
  zip selection fields ≫= (λ rf, match rowRecord rf.1 with Some n => map (pair n) rf.2 | None => [] end).

Definition refreshCell (store : Store) (cell : ResultCopyCell) : ResultCopyCell :=
  match originData cell ≫= (store !!.), field cell with
  | Some record, Some f =>
      if decide (0 < row cell ∧ 0 < col cell) then
        let v := fieldOf record f in
        mkCopyCell (row cell) (col cell) (field cell) v v (originData cell)
      else cell
  | _, _ => cell
  end.

Definition completeResultCopyValues (read : nat → IResultCell → FullValue + CopyError) (selection : ResultCopySelection)
    (fields : list (list jstr)) (store0 : Store) : (ResultCopySelection + CopyError) * CopyRun :=
  let (s, e) := completeAll read (fieldsToComplete selection fields) (mkRun store0 ∅ []) in
  match e with
  | Some e => (inr e, s)
  | None => (inl (map (map (refreshCell (store s))) selection), s)
  end.

(** ** Operations for generated SQL *)

Inductive OperationError := EmptySelection | SingleColumnRequired.

Record ResultCopyOperation := mkOperation {
  operationType : ResultCopyFormat;
  rowId : option jstr;
  dataList : nat;
  selectCols : list jstr;
  selectedCell : option IResultCell;
}.

(** The callback of [map] and the rows behind; [inField] is the column of the
    rows before. *)
Fixpoint buildOperations (store : Store) (type : ResultCopyFormat) (inField : option jstr)
    (rows : ResultCopySelection) : list ResultCopyOperation + OperationError :=
  match rows with
  | [] => inl []
  | cells :: rows' =>
      let cells := filter (λ cell, 0 < row cell ∧ 0 < col cell) cells in
      match n ← head cells ≫= originData; record ← store !! n; Some (n, record) with
      | None => inr EmptySelection
      | Some (n, record) =>
          let selectCols := map (λ cell, fieldText (field cell)) cells in
          let inValues := bool_decide (type = CopyInValues) in
          if inValues && (negb (length selectCols =? 1)
                          || bool_decide (inField ≠ None) && negb (bool_decide (inField = head selectCols)))
          then inr SingleColumnRequired
          else
            let inField := if inValues then head selectCols else inField in
            let operation :=
              mkOperation type (rowNumber record) n selectCols
                (if inValues then inField ≫= metaOf record else None) in
            match buildOperations store type inField rows' with
            | inl operations => inl (operation :: operations)
            | inr e => inr e
            end
      end
  end.

Definition buildResultCopyOperations (selection : ResultCopySelection) (type : ResultCopyFormat) (store : Store)
    : list ResultCopyOperation + OperationError :=
  buildOperations store type None (filter (λ cells, existsb (λ cell, 0 <? row cell) cells = true) selection).

(** ** The grid of texts *)

Definition copyText (v : CopyValue) : jstr :=
  match v with
  | Undefined | Null => []
  | TextValue [] => js "''"
  | TextValue text | OtherValue text => text
  end.

(** [rows[i][j] = text]; both indexes are in range. *)
Definition setGrid (i j : nat) (text : jstr) (rows : list (list jstr)) : list (list jstr) :=
  alter (λ r, <[j := text]> r) i rows.

Definition minOf (f : ResultCopyCell → nat) (cells : list ResultCopyCell) : nat :=
  match cells with [] => 0 | cell :: cells' => fold_left (λ m c, Nat.min m (f c)) cells' (f cell) end.

Definition maxOf (f : ResultCopyCell → nat) (cells : list ResultCopyCell) : nat :=
  fold_left (λ m c, Nat.max m (f c)) cells 0.

Definition resultCopySelectionToRows (selection : ResultCopySelection) : list (list jstr) :=
  let cells := concat selection in
  match cells with
  | [] => []
  | _ =>
      let minRow := minOf row cells in
      let minCol := minOf col cells in
      let rows := replicate (maxOf row cells - minRow + 1) (replicate (maxOf col cells - minCol + 1) []) in
      fold_left (λ rows cell, setGrid (row cell - minRow) (col cell - minCol) (copyText (value cell)) rows) cells rows
  end.

(** ** Markdown *)

(** [text.replace(/\r\n|\r|\n/g, by)]. *)
Fixpoint replaceLineBreaks (by_ : jstr) (text : jstr) : jstr :=
  match text with
  | [] => []
  | c :: text' =>
      if (c =? 13)%N
      then by_ ++ match text' with
                  | d :: text'' => if (d =? 10)%N then replaceLineBreaks by_ text'' else replaceLineBreaks by_ text'
                  | [] => []
                  end
      else if (c =? 10)%N then by_ ++ replaceLineBreaks by_ text'
      else c :: replaceLineBreaks by_ text'
  end.

(** [text.replace(/c/g, by)]. *)
Definition replaceChar (c : N) (by_ text : jstr) : jstr := text ≫= (λ x, if (x =? c)%N then by_ else [x]).

Definition escapeMarkdownCell (v : CopyValue) : jstr :=
  match v with
  | Undefined | Null => js "NULL"
  | TextValue text | OtherValue text =>
      replaceChar (ch "|") (js "\|") (replaceChar (ch "\") (js "\\") (replaceLineBreaks (js "<br>")
        (replaceChar (ch ">") (js "&gt;") (replaceChar (ch "<") (js "&lt;") (replaceChar (ch "&") (js "&amp;") text)))))
  end.

(** [[...new Set(xs)].sort((a, b) => a - b)]. *)
Definition sortedSet (xs : list nat) : list nat := merge_sort (≤) (uniq xs).

(** The last cell at a position, as the map has it. *)
Definition cellAt (cells : list ResultCopyCell) (r c : nat) : option ResultCopyCell :=
  js_find (λ cell, (row cell =? r) && (col cell =? c)) (reverse cells).

Definition markdownLine (texts : list jstr) : jstr := js "| " ++ join (js " | ") texts ++ js " |".

Definition markdownCell (cells : list ResultCopyCell) (r c : nat) : jstr :=
  match cellAt cells r c with
  | None => []
  | Some cell => escapeMarkdownCell (match dataValue cell with Undefined => value cell | v => v end)
  end.

Definition formatSelectionAsMarkdown (getColumnTitle : ResultCopyCell → CopyValue) (selection : ResultCopySelection)
    : option jstr :=
  let cells := filter (λ cell, 0 < row cell ∧ 0 < col cell) (concat selection) in
  match cells with
  | [] => None
  | _ =>
      let columns := sortedSet (map col cells) in
      let rows := sortedSet (map row cells) in
      let header := map (λ c, match js_find (λ cell, col cell =? c) cells with
                              | Some cell => escapeMarkdownCell (getColumnTitle cell)
                              | None => escapeMarkdownCell (TextValue [])
                              end) columns in
      let body := map (λ r, map (markdownCell cells r) columns) rows in
      Some (join [10%N] (map markdownLine (header :: map (λ _, js "---") columns :: body)))
  end.

(** ** The snapshot keeps the sharing *)

Definition inStore (store : Store) (cell : ResultCopyCell) : Prop :=
  match originData cell with Some o => o < length store | None => True end.

(** A state of the snapshot of a selection of cells of [store0]. *)
Record snapshot_ok (store0 : Store) (s : SnapshotState) : Prop := {
  ok_prefix : ∃ copies, s.1 = store0 ++ copies;
  ok_copied o n : s.2 !! o = Some n → length store0 ≤ n ∧ is_Some (store0 !! o) ∧ s.1 !! n = store0 !! o;
  ok_inj o o' n : s.2 !! o = Some n → s.2 !! o' = Some n → o = o';
}.

Definition sameCell (cell cell' : ResultCopyCell) : Prop :=
  row cell' = row cell ∧ col cell' = col cell ∧ field cell' = field cell ∧ value cell' = value cell ∧
  dataValue cell' = dataValue cell.

(** [cell'] is [cell] with the copy of its record. *)
Definition copiedCell (records : gmap nat nat) (cell cell' : ResultCopyCell) : Prop :=
  sameCell cell cell' ∧
  match originData cell with
  | Some o => ∃ n, records !! o = Some n ∧ originData cell' = Some n
  | None => originData cell' = None
  end.

Lemma copiedCell_mono records records' cell cell' :
  records ⊆ records' → copiedCell records cell cell' → copiedCell records' cell cell'.
Proof.
  intros Hsub [Hsame Ho]. split; [done|]. destruct (originData cell) as [o|]; [|done].
  destruct Ho as (n&Hn&?). exists n. split; [by eapply lookup_weaken|done].
Qed.

Lemma new_snapshot_ok store0 : snapshot_ok store0 (store0, ∅).
Proof. split; simpl; [exists []; by rewrite app_nil_r|by intros|by intros]. Qed.

Lemma snapshotCell_ok store0 cell s :
  snapshot_ok store0 s → inStore store0 cell →
  let (cell', s') := snapshotCell cell s in
  snapshot_ok store0 s' ∧ s.2 ⊆ s'.2 ∧ copiedCell s'.2 cell cell'.
Proof.
  intros Hs Hin. unfold snapshotCell, inStore in *. destruct (originData cell) as [o|] eqn:Ho.
  2: { split_and!; [done|done|]. split; [done|]. by rewrite Ho. }
  destruct (s.2 !! o) as [n|] eqn:Hn.
  { split_and!; [done|done|]. split; [done|]. rewrite Ho. by exists n. }
  destruct (ok_prefix _ _ Hs) as [copies Hpre].
  destruct (lookup_lt_is_Some_2 store0 o Hin) as [record Hrec].
  rewrite Hpre, lookup_app_l, Hrec by done. rewrite <-Hpre. cbn [fst snd]. split_and!.
  - split; cbn [fst snd].
    + exists (copies ++ [record]). by rewrite Hpre, <-(assoc_L (++)).
    + intros o' n'. rewrite lookup_insert. case_decide as E.
      * intros [= <-]. subst o'. rewrite Hrec, lookup_app_r, Nat.sub_diag by done. rewrite Hpre, length_app.
        split_and!; [lia|done|done].
      * intros Hn'. destruct (ok_copied _ _ Hs _ _ Hn') as (?&Hsome&Hcopy). split_and!; [done|done|].
        rewrite lookup_app_l; [done|]. rewrite <-Hcopy in Hsome. by apply lookup_lt_is_Some.
    + assert (∀ o' n', s.2 !! o' = Some n' → n' < length s.1) as Hlt.
      { intros o' n' Hn'. destruct (ok_copied _ _ Hs _ _ Hn') as (_&Hsome&Hcopy).
        rewrite <-Hcopy in Hsome. by apply lookup_lt_is_Some. }
      intros o1 o2 n'. rewrite !lookup_insert. case_decide; case_decide; subst; [done|..]; intros H1 H2.
      * injection H1 as <-. apply Hlt in H2. lia.
      * injection H2 as <-. apply Hlt in H1. lia.
      * by eapply (ok_inj _ _ Hs).
  - by apply insert_subseteq.
  - split; [done|]. rewrite Ho. exists (length s.1). by rewrite lookup_insert_eq.
Qed.

Section map_state.
Context {S A B : Type} (f : A → S → B * S) (I : S → Prop) (le : relation S) (P : A → Prop) (Q : S → A → B → Prop).
Context `{!PreOrder le}.
Hypothesis Q_mono : ∀ s s' x y, le s s' → Q s x y → Q s' x y.
Hypothesis f_ok : ∀ x s, I s → P x → let (y, s') := f x s in I s' ∧ le s s' ∧ Q s' x y.

Lemma mapState_ok xs s :
  I s → Forall P xs → let (ys, s') := mapState f xs s in I s' ∧ le s s' ∧ Forall2 (Q s') xs ys.
Proof.
  intros Hs Hxs. revert s Hs. induction Hxs as [|x xs Hx _ IH]; intros s Hs; cbn [mapState]; [done|].
  pose proof (f_ok x s Hs Hx) as Hf. destruct (f x s) as [y s1]. destruct Hf as (Hs1&Hle1&Hq).
  specialize (IH s1 Hs1). destruct (mapState f xs s1) as [ys s2]. destruct IH as (Hs2&Hle2&Hqs).
  split_and!; [done|by etrans|]. constructor; [by eapply Q_mono|done].
Qed.
End map_state.

Definition grows (s s' : SnapshotState) : Prop := s.2 ⊆ s'.2.

#[local] Instance grows_preorder : PreOrder grows.
Proof. split; [intros s; unfold grows; reflexivity|intros s1 s2 s3; unfold grows; apply transitivity]. Qed.

Lemma copiedCells_mono s s' cells cells' :
  grows s s' → Forall2 (copiedCell s.2) cells cells' → Forall2 (copiedCell s'.2) cells cells'.
Proof. intros Hle H. eapply Forall2_impl; [exact H|]. intros x y. by apply copiedCell_mono. Qed.

Lemma snapshotRow_ok store0 cells s :
  snapshot_ok store0 s → Forall (inStore store0) cells →
  let (cells', s') := mapState snapshotCell cells s in
  snapshot_ok store0 s' ∧ grows s s' ∧ Forall2 (copiedCell s'.2) cells cells'.
Proof.
  apply (mapState_ok snapshotCell (snapshot_ok store0) grows (inStore store0) (λ s, copiedCell s.2)).
  - intros s1 s2 x y. by apply copiedCell_mono.
  - intros cell s1. by apply snapshotCell_ok.
Qed.

Lemma snapshot_spec selection store0 :
  Forall (Forall (inStore store0)) selection →
  let (copy, s) := snapshotResultCopySelection selection store0 in
  snapshot_ok store0 s ∧ Forall2 (Forall2 (copiedCell s.2)) selection copy.
Proof.
  intros Hsel. unfold snapshotResultCopySelection.
  pose proof (mapState_ok (mapState snapshotCell) (snapshot_ok store0) grows (Forall (inStore store0))
    (λ s, Forall2 (copiedCell s.2)) copiedCells_mono (snapshotRow_ok store0) selection (store0, ∅)
    (new_snapshot_ok store0) Hsel) as H.
  destruct (mapState (mapState snapshotCell) selection (store0, ∅)) as [copy s]. by destruct H as (?&_&?).
Qed.

(** ** Completing the copies *)

Definition canonical (f : jstr) : Prop := ∃ i : nat, f = znum (Z.of_nat i).

Lemma fieldIndex_znum (i : nat) : fieldIndex (znum (Z.of_nat i)) = Some i.
Proof. unfold fieldIndex. rewrite js_Number_znum, (proj2 (Z.leb_le 0 _)) by lia. by rewrite Nat2Z.id. Qed.

Lemma fieldOf_writeFull full f f' record :
  fieldOf (writeFull full f record) f' = if decide (f = f') then TextValue (fullValue full) else fieldOf record f'.
Proof. unfold fieldOf. cbn [fieldValues writeFull]. rewrite dget_dset. by case_decide. Qed.

Lemma metaOf_writeFull full f f' record :
  canonical f → canonical f' →
  metaOf (writeFull full f record) f' =
  if decide (f = f') then completedMeta full <$> metaOf record f' else metaOf record f'.
Proof.
  intros [i ->] [i' ->]. unfold metaOf, writeFull. cbn [cellMeta]. rewrite !fieldIndex_znum.
  destruct (cellMeta record) as [metas|]; [|by case_decide]. cbn [fmap option_fmap option_map mbind option_bind].
  case_decide as E.
  - assert (i = i') as <-. { apply (f_equal fieldIndex) in E. rewrite !fieldIndex_znum in E. congruence. }
    by rewrite list_lookup_alter_eq.
  - apply list_lookup_alter_ne. congruence.
Qed.

(** The complete value of a partial cell, among the values that were read. *)
Definition fullOf (values : gmap jstr FullValue) (meta : IResultCell) : option FullValue :=
  id ← largeValueId meta; values !! id.

(** The record is the original one with the done fields completed. *)
Definition recordDone (values : gmap jstr FullValue) (done : jstr → Prop) (original record : ResultCopyRecord) : Prop :=
  ∀ f, canonical f →
    (metaOf record f = metaOf original f ∧ fieldOf record f = fieldOf original f ∧
       (done f → ∀ meta, metaOf original f = Some meta → isPartial meta = false)) ∨
    ∃ meta full, done f ∧ metaOf original f = Some meta ∧ isPartial meta = true ∧ fullOf values meta = Some full ∧
      metaOf record f = Some (completedMeta full meta) ∧ fieldOf record f = TextValue (fullValue full).

(** The values are those of the reads, one for each identifier. *)
Definition loads_ok (read : nat → IResultCell → FullValue + CopyError) (s : CopyRun) : Prop :=
  NoDup (loads s) ∧
  ∀ id, match fullValues s !! id with
        | Some full => ∃ k meta, loads s !! k = Some id ∧ largeValueId meta = Some id ∧ read k meta = inl full
        | None => id ∉ loads s
        end.

Lemma completed_not_partial full meta : isPartial (completedMeta full meta) = false.
Proof. done. Qed.

Lemma recordDone_mono values values' done original record :
  values ⊆ values' → recordDone values done original record → recordDone values' done original record.
Proof.
  intros Hsub Hdone f Hf. destruct (Hdone f Hf) as [?|(meta&full&?&?&?&Hfull&?&?)]; [by left|right].
  exists meta, full. split_and!; try done. unfold fullOf in *. destruct (largeValueId meta); [|done].
  by eapply lookup_weaken.
Qed.

(** Nothing is to be done for a field. *)
Lemma recordDone_skip values done f original record :
  canonical f → (∀ meta, metaOf record f = Some meta → isPartial meta = false) →
  recordDone values done original record → recordDone values (λ f', f' = f ∨ done f') original record.
Proof.
  intros Hf Hskip Hdone f' Hf'. destruct (Hdone f' Hf') as [(Hm&Hv&Hd)|(meta&full&?&?&?&?&?&?)].
  - left. split_and!; [done|done|]. intros [->|?] meta Hmeta; [|by eapply Hd]. apply Hskip. congruence.
  - right. exists meta, full. split_and!; try done. by right.
Qed.

Lemma recordDone_write values done f original record meta full :
  canonical f → metaOf record f = Some meta → isPartial meta = true → fullOf values meta = Some full →
  recordDone values done original record →
  recordDone values (λ f', f' = f ∨ done f') original (writeFull full f record).
Proof.
  intros Hf Hmeta Hpart Hfull Hdone f' Hf'.
  rewrite metaOf_writeFull, fieldOf_writeFull by done. destruct (decide (f = f')) as [<-|Hne].
  - right. destruct (Hdone f Hf) as [(Hm&_&_)|(meta'&full'&_&_&_&_&Hm&_)].
    + exists meta, full. rewrite Hmeta. split_and!; [by left|congruence|done|done|done|done].
    + rewrite Hmeta in Hm. injection Hm as ->. done.
  - destruct (Hdone f' Hf') as [(Hm&Hv&Hd)|(meta'&full'&?&?&?&?&?&?)].
    + left. split_and!; [done|done|]. intros [->|?]; [done|by apply Hd].
    + right. exists meta', full'. split_and!; try done. by right.
Qed.

Section run.
Context (read : nat → IResultCell → FullValue + CopyError) (store0 : Store) (records : gmap nat nat).
Hypothesis records_inj : ∀ o o' n, records !! o = Some n → records !! o' = Some n → o = o'.
Hypothesis records_new : ∀ o n, records !! o = Some n → length store0 ≤ n.

(** A state of the completion: [done o f] are the fields gone through. *)
Record run_ok (done : nat → jstr → Prop) (s : CopyRun) : Prop := {
  run_originals i : i < length store0 → store s !! i = store0 !! i;
  run_copies o n : records !! o = Some n → ∃ original record,
    store0 !! o = Some original ∧ store s !! n = Some record ∧ recordDone (fullValues s) (done o) original record;
  run_loads : loads_ok read s;
}.

Lemma recordDone_ext values (done done' : jstr → Prop) original record :
  (∀ f, done f ↔ done' f) → recordDone values done original record → recordDone values done' original record.
Proof.
  intros Hext Hdone f Hf. destruct (Hdone f Hf) as [(Hm&Hv&Hd)|(meta&full&?&?)].
  - left. split_and!; [done|done|]. intros ?%Hext. by apply Hd.
  - right. exists meta, full. by rewrite <-Hext.
Qed.

(** Writing a complete value. *)
Lemma write_run_ok done s o n f record meta full values loads' :
  run_ok done s → records !! o = Some n → canonical f → store s !! n = Some record → metaOf record f = Some meta →
  isPartial meta = true → fullOf values meta = Some full → fullValues s ⊆ values →
  loads_ok read (mkRun (alter (writeFull full f) n (store s)) values loads') →
  run_ok (λ o' f', (o' = o ∧ f' = f) ∨ done o' f') (mkRun (alter (writeFull full f) n (store s)) values loads').
Proof.
  intros Hs Hn Hf Hrec Hmeta Hpart Hfull Hsub Hloads. split; cbn [store fullValues]; [| |done].
  - intros i Hi. rewrite list_lookup_alter_ne; [by apply (run_originals _ _ Hs)|].
    pose proof (records_new _ _ Hn). lia.
  - intros o' n' Hn'. destruct (run_copies _ _ Hs o' n' Hn') as (original&record'&Ho&Hrec'&Hdone).
    apply (recordDone_mono _ _ _ _ _ Hsub) in Hdone. exists original.
    destruct (decide (n' = n)) as [->|Hne].
    + assert (o' = o) as -> by by eapply records_inj.
      rewrite Hrec in Hrec'. injection Hrec' as <-.
      exists (writeFull full f record). split_and!; [done|by rewrite list_lookup_alter_eq, Hrec|].
      apply (recordDone_ext _ (λ f', f' = f ∨ done o f')); [naive_solver|]. by eapply recordDone_write.
    + exists record'. split_and!; [done|by rewrite list_lookup_alter_ne|].
      eapply recordDone_ext; [|exact Hdone]. intros f'. split; [by right|]. intros [[-> ->]|?]; [congruence|done].
Qed.

Lemma skip_run_ok done s o n f record :
  run_ok done s → records !! o = Some n → canonical f → store s !! n = Some record →
  (∀ meta, metaOf record f = Some meta → isPartial meta = false) →
  run_ok (λ o' f', (o' = o ∧ f' = f) ∨ done o' f') s.
Proof.
  intros Hs Hn Hf Hrec Hskip. split; [apply Hs| |apply Hs].
  intros o' n' Hn'. destruct (run_copies _ _ Hs o' n' Hn') as (original&record'&Ho&Hrec'&Hdone).
  exists original, record'. split_and!; [done|done|]. destruct (decide (o' = o)) as [->|Hne].
  - assert (n' = n) as -> by congruence. rewrite Hrec in Hrec'. injection Hrec' as <-.
    apply (recordDone_ext _ (λ f', f' = f ∨ done o f')); [naive_solver|]. by apply recordDone_skip.
  - eapply recordDone_ext; [|exact Hdone]. naive_solver.
Qed.

(** What a failing step leaves of the originals. *)
Definition originals_kept (s : CopyRun) : Prop := ∀ i, i < length store0 → store s !! i = store0 !! i.

Lemma completeField_ok done s o n f :
  run_ok done s → records !! o = Some n → canonical f →
  let (s', e) := completeField read n f s in
  match e with
  | Some _ => originals_kept s'
  | None => run_ok (λ o' f', (o' = o ∧ f' = f) ∨ done o' f') s'
  end.
Proof.
  intros Hs Hn Hf. unfold completeField.
  destruct (run_copies _ _ Hs o n Hn) as (original&record&_&Hrec&_). rewrite Hrec.
  destruct (metaOf record f) as [meta|] eqn:Hmeta; [|eapply skip_run_ok; [done..|congruence]].
  destruct (isPartial meta) eqn:Hpart; cbn [negb]; [|eapply skip_run_ok; [done..|congruence]].
  destruct (largeValueId meta) as [[|c id]|] eqn:Hid; [exact (run_originals _ _ Hs)| |exact (run_originals _ _ Hs)].
  destruct (run_loads _ _ Hs) as [Hnd Hreads].
  destruct (fullValues s !! (c :: id)) as [full|] eqn:Hfull.
  - eapply write_run_ok; try done. unfold fullOf. by rewrite Hid.
  - pose proof (Hreads (c :: id)) as Hnew. rewrite Hfull in Hnew.
    destruct (read (length (loads s)) meta) as [full|e] eqn:Hread; [|exact (run_originals _ _ Hs)].
    eapply write_run_ok; try done.
    + unfold fullOf. rewrite Hid. cbn [mbind option_bind]. by rewrite lookup_insert_eq.
    + by apply insert_subseteq.
    + split; cbn [loads fullValues].
      * apply NoDup_app. split_and!; [done| |apply NoDup_singleton]. intros x Hx. by intros ->%list_elem_of_singleton.
      * intros id'. rewrite lookup_insert. case_decide as E.
        -- subst id'. exists (length (loads s)), meta. by rewrite lookup_app_r, Nat.sub_diag.
        -- specialize (Hreads id'). destruct (fullValues s !! id') as [full'|].
           ++ destruct Hreads as (k&meta'&Hk&?&?). exists k, meta'. split_and!; [|done|done].
              by apply lookup_app_l_Some.
           ++ rewrite elem_of_app, list_elem_of_singleton. naive_solver.
Qed.

Lemma completeAll_ok todo todo' done s :
  Forall2 (λ p q, records !! p.1 = Some q.1 ∧ q.2 = p.2 ∧ canonical p.2) todo todo' →
  run_ok done s →
  let (s', e) := completeAll read todo' s in
  match e with
  | Some _ => originals_kept s'
  | None => run_ok (λ o f, (o, f) ∈ todo ∨ done o f) s'
  end.
Proof.
  intros Htodo. revert done s. induction Htodo as [|[o f] [n f'] todo todo' (Hn&Heq&Hf) _ IH]; intros done s Hs.
  - cbn [completeAll]. split; [apply Hs| |apply Hs]. intros o n Hn.
    destruct (run_copies _ _ Hs o n Hn) as (original&record&?&?&?). exists original, record. split_and!; [done|done|].
    eapply recordDone_ext; [|done]. intros f. pose proof (not_elem_of_nil (o, f)). naive_solver.
  - cbn [completeAll fst snd] in *. subst f'. pose proof (completeField_ok done s o n f Hs Hn Hf) as Hstep.
    destruct (completeField read n f s) as [s' [e|]]; [done|]. specialize (IH _ _ Hstep).
    destruct (completeAll read todo' s') as [s'' [e|]]; [done|].
    split; [apply IH| |apply IH]. intros o' n' Hn'.
    destruct (run_copies _ _ IH o' n' Hn') as (original&record&?&?&?). exists original, record. split_and!; [done|done|].
    eapply recordDone_ext; [|done]. intros f'. rewrite elem_of_cons. naive_solver.
Qed.
End run.

(** ** The copied values *)

Lemma rowRecord_copied records cells cells' :
  Forall2 (copiedCell records) cells cells' →
  match rowRecord cells with
  | Some o => ∃ n, records !! o = Some n ∧ rowRecord cells' = Some n
  | None => rowRecord cells' = None
  end.
Proof.
  unfold rowRecord. induction 1 as [|cell cell' cells cells' [(Hrow&_) Ho] _ IH]; [done|]. cbn [omap list_omap].
  rewrite Hrow. case_decide; [|done]. destruct (originData cell) as [o|].
  - destruct Ho as (n&Hn&->). by exists n.
  - by rewrite Ho.
Qed.

Lemma fieldsToComplete_copied records selection copy fields :
  Forall2 (Forall2 (copiedCell records)) selection copy → Forall (Forall canonical) fields →
  Forall2 (λ p q, records !! p.1 = Some q.1 ∧ q.2 = p.2 ∧ canonical p.2)
    (fieldsToComplete selection fields) (fieldsToComplete copy fields).
Proof.
  unfold fieldsToComplete. intros Hcopy. revert fields.
  induction Hcopy as [|cells cells' selection copy Hcells _ IH]; intros [|fs fields] Hf; try constructor.
  apply Forall_cons in Hf as [Hfs Hf]. cbn [zip zip_with mbind list_bind fst snd].
  apply Forall2_app; [|by apply IH]. pose proof (rowRecord_copied _ _ _ Hcells) as Hrow.
  destruct (rowRecord cells) as [o|]; [|rewrite Hrow; constructor]. destruct Hrow as (n&Hn&->).
  induction Hfs; constructor; done.
Qed.

Lemma snapshot_run_ok read store0 s :
  snapshot_ok store0 s → run_ok read store0 s.2 (λ _ _, False) (mkRun s.1 ∅ []).
Proof.
  intros Hs. split; cbn [store fullValues loads].
  - intros i Hi. destruct (ok_prefix _ _ Hs) as [copies ->]. by apply lookup_app_l.
  - intros o n Hn. destruct (ok_copied _ _ Hs o n Hn) as (_&[record Hrec]&Hcopy). exists record, record.
    rewrite Hcopy, Hrec. split_and!; [done|done|]. intros f _. left. by split_and!.
  - split; [constructor|]. intros id. cbn [fullValues loads]. rewrite lookup_empty. apply not_elem_of_nil.
Qed.

(** The value that a copy of the field [f] of [original] is to have. *)
Definition copiedValue (values : gmap jstr FullValue) (wanted : bool) (original : ResultCopyRecord) (f : jstr)
    : CopyValue :=
  match meta ← metaOf original f; if wanted && isPartial meta then fullOf values meta else None with
  | Some full => TextValue (fullValue full)
  | None => fieldOf original f
  end.

Lemma recordDone_value values (done : jstr → Prop) wanted original record f :
  canonical f → (wanted = true ↔ done f) → recordDone values done original record →
  fieldOf record f = copiedValue values wanted original f.
Proof.
  intros Hf Hwanted Hdone. unfold copiedValue. destruct (Hdone f Hf) as [(_&Hv&Hd)|(meta&full&Hdf&Hm&Hp&Hfull&_&Hv)].
  - destruct (metaOf original f) as [meta|]; [|done]. cbn [mbind option_bind]. destruct wanted; [|done].
    by rewrite (Hd (proj1 Hwanted eq_refl) meta eq_refl).
  - rewrite Hm. cbn [mbind option_bind]. by rewrite (proj2 Hwanted Hdf), Hp, Hfull.
Qed.

Lemma Forall2_map_r {A B C} (P : A → Prop) (R : A → B → Prop) (S : A → C → Prop) (g : B → C) xs ys :
  Forall P xs → Forall2 R xs ys → (∀ x y, P x → R x y → S x (g y)) → Forall2 S xs (map g ys).
Proof.
  intros Hxs Hys Hg. induction Hys as [|x y xs ys Hxy _ IH]; constructor; apply Forall_cons in Hxs as [? ?]; auto.
Qed.

(** A cell of the copy against the selected one. *)
Definition copiedAs (store0 : Store) (values : gmap jstr FullValue) (wanted : list (nat * jstr))
    (cell cell' : ResultCopyCell) : Prop :=
  row cell' = row cell ∧ col cell' = col cell ∧ field cell' = field cell ∧
  match originData cell ≫= (store0 !!.), field cell with
  | Some original, Some f =>
      0 < row cell → 0 < col cell → canonical f →
      value cell' = copiedValue values (includes (default 0 (originData cell), f) wanted) original f
  | _, _ => value cell' = value cell
  end.

Lemma refresh_copied store0 read records wanted s cell cell' :
  inStore store0 cell → copiedCell records cell cell' →
  run_ok read store0 records (λ o f, (o, f) ∈ wanted ∨ False) s →
  copiedAs store0 (fullValues s) wanted cell (refreshCell (store s) cell').
Proof.
  intros Hin [(Hr&Hc&Hf&Hv&_) Ho] Hs. unfold copiedAs, refreshCell, inStore in *. rewrite Hr, Hc, Hf.
  destruct (originData cell) as [o|]; cbn [mbind option_bind]; [|by rewrite Ho].
  destruct Ho as (n&Hn&->). cbn [mbind option_bind].
  destruct (run_copies _ _ _ _ _ Hs o n Hn) as (original&record&Horig&Hrec&Hdone).
  rewrite Horig, Hrec. destruct (field cell) as [f|]; [|done]. case_decide as Hpos.
  - cbn [row col field value]. split_and!; [done..|]. intros _ _ Hcan. cbn [default].
    eapply recordDone_value; [done| |done]. rewrite includes_true. naive_solver.
  - split_and!; [done..|]. intros ??. exfalso. by apply Hpos.
Qed.

(** Copying never changes the table, and the copy is complete.  Whatever the
    engine answers, the records of the table stay as they are, and every large
    value is read at most once.  When the copy succeeds, it has the cells of the
    selection; every cell of a field that is wanted and was only loaded in part
    has the value that was read for it, every other one the value of the table. *)
Theorem copied_values read selection fields store0 :
  Forall (Forall (inStore store0)) selection → Forall (Forall canonical) fields →
  let (copy, s) := snapshotResultCopySelection selection store0 in
  let (result, run) := completeResultCopyValues read copy fields s.1 in
  (∀ i, i < length store0 → store run !! i = store0 !! i) ∧
  ∀ cells, result = inl cells →
    NoDup (loads run) ∧
    (∀ id full, fullValues run !! id = Some full →
       ∃ k meta, loads run !! k = Some id ∧ largeValueId meta = Some id ∧ read k meta = inl full) ∧
    Forall2 (Forall2 (copiedAs store0 (fullValues run) (fieldsToComplete selection fields))) selection cells.
Proof.
  intros Hsel Hfields. pose proof (snapshot_spec selection store0 Hsel) as Hsnap.
  destruct (snapshotResultCopySelection selection store0) as [copy s]. destruct Hsnap as [Hs Hcopy].
  unfold completeResultCopyValues.
  pose proof (completeAll_ok read store0 s.2 (ok_inj _ _ Hs) (λ o n H, proj1 (ok_copied _ _ Hs o n H))
    _ _ _ (mkRun s.1 ∅ []) (fieldsToComplete_copied _ _ _ _ Hcopy Hfields) (snapshot_run_ok read store0 s Hs)) as Hrun.
  destruct (completeAll read (fieldsToComplete copy fields) (mkRun s.1 ∅ [])) as [run [e|]]; [by split|].
  split; [exact (run_originals _ _ _ _ _ Hrun)|]. intros cells [= <-].
  destruct (run_loads _ _ _ _ _ Hrun) as [Hnd Hreads]. split_and!; [done| |].
  - intros id full Hfull. specialize (Hreads id). by rewrite Hfull in Hreads.
  - eapply Forall2_map_r; [exact Hsel|exact Hcopy|]. intros row row' Hin Hrow.
    eapply Forall2_map_r; [exact Hin|exact Hrow|]. intros cell cell' Hc Hcc. by eapply refresh_copied.
Qed.

(** Two rows share a record whose second field is only loaded in part. *)
Definition sampleRecord : ResultCopyRecord :=
  mkRecord [(js "1", TextValue (js "7")); (js "2", TextValue (js "pre"))] (Some (js "1"))
    (Some [mkCell None false None None false None None None; mkCell (Some (js "7")) false None None false None None None;
           mkCell (Some (js "pre")) true (Some (js "id")) (Some TEXT) true None None None]).

Definition sampleCell (r c : nat) (f v : string) : ResultCopyCell :=
  mkCopyCell r c (Some (js f)) (TextValue (js v)) Undefined (Some 0).

Definition sampleSelection : ResultCopySelection :=
  [[sampleCell 1 1 "1" "7"; sampleCell 1 2 "2" "pre"]; [sampleCell 2 2 "2" "pre"]].

Definition sampleRead (k : nat) (meta : IResultCell) : FullValue + CopyError := inl (mkFull (js "prefix") 6).

Lemma copied_values_witness :
  let (copy, s) := snapshotResultCopySelection sampleSelection [sampleRecord] in
  let (result, run) := completeResultCopyValues sampleRead copy [[js "2"]; [js "2"]] s.1 in
  store run !! 0 = Some sampleRecord ∧
  match result with
  | inl cells => map (map (λ c, copyText (value c))) cells = [[js "7"; js "prefix"]; [js "prefix"]] ∧ length (loads run) = 1
  | inr _ => False
  end.
Proof.
  pose proof (copied_values sampleRead sampleSelection [[js "2"]; [js "2"]] [sampleRecord]) as H.
  split; [|by vm_compute].
  refine (proj1 (H _ _) 0 _).
  - repeat constructor; simpl; lia.
  - repeat constructor; by exists 2.
  - simpl. lia.
Defined.
