(* ===== verification/ResultPaste.v ===== *)
(** * ResultPaste: pasting into a result table

    Models [ResultSetTable/event/onPasteData/pasteData.ts] with what it uses of
    [blocks/SearchResult/utils.tsx], and the way between copying and pasting:
    [utils/internalClipboard.ts], [utils/clipboardText.ts] and the text of a grid
    in [utils/index.ts].  The calls of [changeCellValue] are the result of
    [applyPasteData], in order. *)

From S2P Require Import Prelude ResultCopy.
Local Open Scope nat_scope.

(** ** The clipboard *)

Record InternalResultGridClipboard := mkInternal { clipboardText : jstr; clipboardRows : list (list jstr) }.

(** [text.replace(/\r\n?/g, '\n')]; a line feed stays one. *)
Definition unixLines (text : jstr) : jstr := replaceLineBreaks [10%N] text.

Definition serializeGrid (rows : list (list jstr)) : jstr := join [10%N] (map (join [9%N]) rows).

Definition setInternalResultGridClipboard (rows : list (list jstr)) : option InternalResultGridClipboard :=
  Some (mkInternal (unixLines (serializeGrid rows)) rows).

Definition getInternalResultGridClipboard (internal : option InternalResultGridClipboard) (text : jstr)
    : option (list (list jstr)) :=
  match internal with
  | Some clipboard => if decide (clipboardText clipboard = unixLines text) then Some (clipboardRows clipboard) else None
  | None => None
  end.

(** [windows]: the user agent names Windows. *)
Definition normalizeClipboardText (text : jstr) (windows : bool) : jstr :=
  if windows then replaceLineBreaks [13; 10]%N text else text.

(** Copying a grid: the text for the system and the internal clipboard. *)
Definition copyGrid (rows : list (list jstr)) (windows : bool) : jstr * option InternalResultGridClipboard :=
  (normalizeClipboardText (serializeGrid rows) windows, setInternalResultGridClipboard rows).

(** ** Pasting *)

(** [None] is [null]. *)
Abbreviation PasteCellValue := (option jstr).

Definition normalizePastedCellValue (cell : jstr) : PasteCellValue :=
  if decide (trim cell = []) then None
  else if decide (cell = js "''") then Some []
  else Some cell.

(** A cell is its row and its column. *)
Abbreviation PasteCellInfo := (nat * nat)%type.
Abbreviation PasteSelection := (list (list PasteCellInfo)).

(** [autoIncrement]: it is [1] in the header of the column. *)
Record CreateRowPasteColumn := mkColumn { hide : bool; originalData : option bool }.

Record PasteTable := mkTable {
  rowCount : nat;
  colCount : nat;
  columns : option (list CreateRowPasteColumn);
  getHeaderField : nat → nat → option jstr;
  getRecordByCell : nat → nat → option jstr;
}.

Record PasteOptions := mkOptions {
  isCreateRow : option jstr → bool;
  internalClipboardGrid : option (list (list jstr));
  readOnlyFields : list jstr;
}.

Inductive ParsedPasteData := PasteCell (v : PasteCellValue) | PasteGrid (rows : list (list PasteCellValue)).

Definition sizeOf {A} (rows : list (list A)) : nat := fold_left (λ count r, count + length r) rows 0.

Definition getPasteSelectionSize (selection : PasteSelection) : nat := sizeOf selection.

Definition parsePasteData (text : jstr) (selectionSize : nat) (internal : option (list (list jstr))) : ParsedPasteData :=
  match internal with
  | Some grid =>
      if decide (1 < sizeOf grid) then PasteGrid (map (map normalizePastedCellValue) grid)
      else if decide (selectionSize ≤ 1) then PasteCell (normalizePastedCellValue text)
      else PasteGrid (map (λ line, map normalizePastedCellValue (split_char 9 line)) (split_char 10 (unixLines text)))
  | None =>
      if decide (selectionSize ≤ 1) then PasteCell (normalizePastedCellValue text)
      else PasteGrid (map (λ line, map normalizePastedCellValue (split_char 9 line)) (split_char 10 (unixLines text)))
  end.

Definition GENERATED_VALUE : jstr := js "CHAT2DB_UPDATE_TABLE_DATA_USER_FILLED_GENERATED".

Definition getClonedCreateCellValue (autoIncrement : bool) (v : PasteCellValue) : PasteCellValue :=
  if autoIncrement then Some GENERATED_VALUE else v.

Definition normalizePasteTargetCell (cell : PasteCellInfo) : PasteCellInfo :=
  (if cell.1 =? 0 then 1 else cell.1, if cell.2 =? 0 then 1 else cell.2).

Definition isInsideTable (table : PasteTable) (r c : nat) : bool := (r <=? rowCount table) && (c <=? colCount table).

Definition isReadOnlyPasteTarget (table : PasteTable) (options : PasteOptions) (r c : nat) : bool :=
  match getHeaderField table c r with Some f => includes f (readOnlyFields options) | None => false end.

Definition normalizeCreateRowPasteCell (table : PasteTable) (options : PasteOptions) (r c : nat) (v : PasteCellValue)
    : PasteCellValue :=
  if negb (isCreateRow options (getRecordByCell table c r)) then v
  else
    match columns table with
    | None => v
    | Some columns =>
        match filter (λ column, hide column = false) columns !! (c - 1) ≫= originalData with
        | Some autoIncrement => getClonedCreateCellValue autoIncrement v
        | None => v
        end
    end.

(** A call of [changeCellValue]. *)
Abbreviation PasteWrite := (PasteCellInfo * PasteCellValue)%type.

Definition pasteAt (table : PasteTable) (options : PasteOptions) (target : PasteCellInfo) (v : PasteCellValue)
    : list PasteWrite :=
  let (r, c) := target in
  if negb (isInsideTable table r c) || isReadOnlyPasteTarget table options r c then []
  else [((r, c), normalizeCreateRowPasteCell table options r c v)].

(** The two nested loops over the indexes of [xss]. *)
Definition forEachCell {A B} (f : nat → nat → A → list B) (xss : list (list A)) : list B :=
  concat (imap (λ i xs, concat (imap (f i) xs)) xss).

(** [rows[i % rows.length][j % row.length]]; a grid has no empty row. *)
Definition sourceValue (rows : list (list PasteCellValue)) (i j : nat) : PasteCellValue :=
  match rows !! (i mod length rows) with
  | Some r => default None (r !! (j mod length r))
  | None => None
  end.

Definition applyPasteData (table : PasteTable) (selection : PasteSelection) (text : jstr) (options : PasteOptions)
    : list PasteWrite :=
  match text, selection with
  | [], _ | _, [] => []
  | _, first :: _ =>
      let selectionSize := getPasteSelectionSize selection in
      match parsePasteData text selectionSize (internalClipboardGrid options) with
      | PasteCell v =>
          match head first with
          | Some cell => pasteAt table options (normalizePasteTargetCell cell) v
          | None => []
          end
      | PasteGrid rows =>
          if selectionSize =? 1 then
            match head first with
            | Some cell =>
                let anchor := normalizePasteTargetCell cell in
                forEachCell (λ i j v, pasteAt table options (anchor.1 + i, anchor.2 + j) v) rows
            | None => []
            end
          else
            forEachCell (λ i j cell, pasteAt table options (normalizePasteTargetCell cell) (sourceValue rows i j)) selection
      end
  end.

(** ** The cells of the table *)

(** The values of the table as a function of row and column. *)
Abbreviation Contents := (PasteCellInfo → PasteCellValue).

Definition changeCellValue (w : PasteWrite) (contents : Contents) : Contents :=
  λ p, if decide (p = w.1) then w.2 else contents p.

Definition afterWrites (writes : list PasteWrite) (contents : Contents) : Contents :=
  fold_left (λ contents w, changeCellValue w contents) writes contents.

Lemma afterWrites_snoc writes w contents : afterWrites (writes ++ [w]) contents = changeCellValue w (afterWrites writes contents).
Proof. unfold afterWrites. by rewrite fold_left_app. Qed.

Lemma afterWrites_other writes contents p : (∀ v, (p, v) ∉ writes) → afterWrites writes contents p = contents p.
Proof.
  induction writes as [|[q w] writes IH] using rev_ind; intros Hp; [done|]. rewrite afterWrites_snoc.
  unfold changeCellValue. cbn [fst snd]. case_decide as E.
  - subst. exfalso. apply (Hp w), elem_of_app. right. by apply list_elem_of_singleton.
  - apply IH. intros v Hv. apply (Hp v), elem_of_app. by left.
Qed.

(** A cell gets the value written to it, if all writes to it agree. *)
Lemma afterWrites_written writes contents p v :
  (p, v) ∈ writes → (∀ v', (p, v') ∈ writes → v' = v) → afterWrites writes contents p = v.
Proof.
  induction writes as [|[q w] writes IH] using rev_ind; intros Hin Hall; [by apply not_elem_of_nil in Hin|].
  rewrite afterWrites_snoc. unfold changeCellValue. cbn [fst snd]. case_decide as E.
  - subst. apply Hall, elem_of_app. right. by apply list_elem_of_singleton.
  - apply elem_of_app in Hin as [Hin|Hin%list_elem_of_singleton]; [|congruence].
    apply IH; [done|]. intros v' Hv'. apply Hall, elem_of_app. by left.
Qed.

Lemma elem_of_concat_imap {A B} (f : nat → A → list B) xs y :
  y ∈ concat (imap f xs) ↔ ∃ i x, xs !! i = Some x ∧ y ∈ f i x.
Proof.
  rewrite list_elem_of_In, in_concat. setoid_rewrite <-list_elem_of_In. split.
  - intros (ys&Hys&Hy). apply elem_of_lookup_imap in Hys as (i&x&->&Hx). by exists i, x.
  - intros (i&x&Hx&Hy). exists (f i x). split; [|done]. apply elem_of_lookup_imap. by exists i, x.
Qed.

Lemma elem_of_forEachCell {A B} (f : nat → nat → A → list B) xss y :
  y ∈ forEachCell f xss ↔ ∃ i j xs x, xss !! i = Some xs ∧ xs !! j = Some x ∧ y ∈ f i j x.
Proof.
  unfold forEachCell. rewrite elem_of_concat_imap. split.
  - intros (i&xs&Hxs&(j&x&Hx&Hy)%elem_of_concat_imap). by exists i, j, xs, x.
  - intros (i&j&xs&x&Hxs&Hx&Hy). exists i, xs. split; [done|]. apply elem_of_concat_imap. by exists j, x.
Qed.

(** A cell that a paste may change. *)
Definition writable (table : PasteTable) (options : PasteOptions) (p : PasteCellInfo) : bool :=
  isInsideTable table p.1 p.2 && negb (isReadOnlyPasteTarget table options p.1 p.2).

Definition pastedValue (table : PasteTable) (options : PasteOptions) (p : PasteCellInfo) (v : PasteCellValue) :=
  normalizeCreateRowPasteCell table options p.1 p.2 v.

Lemma elem_of_pasteAt table options p v q w :
  (q, w) ∈ pasteAt table options p v ↔ q = p ∧ writable table options p = true ∧ w = pastedValue table options p v.
Proof.
  destruct p as [r c]. unfold pasteAt, writable, pastedValue. cbn [fst snd].
  destruct (isInsideTable table r c), (isReadOnlyPasteTarget table options r c); cbn [negb andb orb];
    rewrite ?elem_of_nil, ?list_elem_of_singleton; naive_solver.
Qed.

(** ** Pasting at one cell *)

(** The cell of the grid that lands on [p]. *)
Definition gridAt {A} (grid : list (list A)) (anchor p : PasteCellInfo) : option A :=
  if decide (anchor.1 ≤ p.1 ∧ anchor.2 ≤ p.2) then grid !! (p.1 - anchor.1) ≫= (.!! (p.2 - anchor.2)) else None.

Lemma gridAt_Some {A} (grid : list (list A)) anchor p x :
  gridAt grid anchor p = Some x ↔
  ∃ i j xs, grid !! i = Some xs ∧ xs !! j = Some x ∧ p = (anchor.1 + i, anchor.2 + j).
Proof.
  destruct p as [r c]. unfold gridAt. cbn [fst snd]. split.
  - case_decide as Hle; [|done]. intros (xs&Hxs&Hx)%bind_Some. exists (r - anchor.1), (c - anchor.2), xs.
    split_and!; [done|done|]. f_equal; lia.
  - intros (i&j&xs&Hxs&Hx&Hp). injection Hp as -> ->. rewrite decide_True by lia.
    replace (anchor.1 + i - anchor.1) with i by lia. replace (anchor.2 + j - anchor.2) with j by lia.
    by rewrite Hxs.
Qed.

Lemma paste_at_anchor table options contents grid anchor p :
  afterWrites (forEachCell (λ i j v, pasteAt table options (anchor.1 + i, anchor.2 + j) v) grid) contents p =
  match gridAt grid anchor p with
  | Some v => if writable table options p then pastedValue table options p v else contents p
  | None => contents p
  end.
Proof.
  assert (∀ w, (p, w) ∈ forEachCell (λ i j v, pasteAt table options (anchor.1 + i, anchor.2 + j) v) grid ↔
    ∃ v, gridAt grid anchor p = Some v ∧ writable table options p = true ∧ w = pastedValue table options p v) as Hin.
  { intros w. rewrite elem_of_forEachCell. setoid_rewrite elem_of_pasteAt. setoid_rewrite gridAt_Some. split.
    - intros (i&j&xs&x&?&?&->&?&?). exists x. split_and!; [|done|done]. by exists i, j, xs.
    - intros (v&(i&j&xs&?&?&->)&?&?). by exists i, j, xs, v. }
  destruct (gridAt grid anchor p) as [v|]; [destruct (writable table options p) eqn:Hw|].
  - apply afterWrites_written; [apply Hin; by exists v|]. intros w (v'&[= <-]&_&->)%Hin. done.
  - apply afterWrites_other. intros w (?&_&?&_)%Hin. done.
  - apply afterWrites_other. intros w (?&?&_)%Hin. done.
Qed.

(** ** The grid of a selection *)

Lemma fold_min_le (f : ResultCopyCell → nat) cells m :
  fold_left (λ m c, Nat.min m (f c)) cells m ≤ m ∧ ∀ c, c ∈ cells → fold_left (λ m c, Nat.min m (f c)) cells m ≤ f c.
Proof.
  revert m. induction cells as [|c cells IH]; intros m; cbn [fold_left].
  - split; [done|]. by intros c Hc%elem_of_nil.
  - destruct (IH (Nat.min m (f c))) as [H1 H2]. split; [lia|]. intros c' [->|Hc]%elem_of_cons; [lia|by apply H2].
Qed.

Lemma minOf_le (f : ResultCopyCell → nat) cells c : c ∈ cells → minOf f cells ≤ f c.
Proof.
  destruct cells as [|c0 cells]; [by intros ?%elem_of_nil|]. unfold minOf.
  destruct (fold_min_le f cells (f c0)) as [H1 H2]. intros [->|Hc]%elem_of_cons; [done|by apply H2].
Qed.

Lemma maxOf_ge (f : ResultCopyCell → nat) cells c : c ∈ cells → f c ≤ maxOf f cells.
Proof.
  unfold maxOf. assert (∀ m, m ≤ fold_left (λ m c, Nat.max m (f c)) cells m ∧
    ∀ c, c ∈ cells → f c ≤ fold_left (λ m c, Nat.max m (f c)) cells m) as H; [|by apply H].
  induction cells as [|c' cells IH]; intros m; cbn [fold_left].
  - split; [done|]. by intros c' Hc%elem_of_nil.
  - destruct (IH (Nat.max m (f c'))) as [H1 H2]. split; [lia|]. intros c1 [->|Hc]%elem_of_cons; [lia|by apply H2].
Qed.

(** The text of the last cell at a position. *)
Definition textAt (cells : list ResultCopyCell) (r c : nat) : jstr :=
  match cellAt cells r c with Some cell => copyText (value cell) | None => [] end.

Lemma textAt_snoc cells cell r c :
  textAt (cells ++ [cell]) r c =
  if decide (row cell = r ∧ col cell = c) then copyText (value cell) else textAt cells r c.
Proof.
  unfold textAt, cellAt. rewrite reverse_snoc. unfold js_find. cbn [List.find].
  destruct (Nat.eqb_spec (row cell) r), (Nat.eqb_spec (col cell) c); cbn [andb]; case_decide; naive_solver.
Qed.

Lemma setGrid_lookup i j text rows i' j' xs :
  rows !! i' = Some xs →
  ∃ xs', setGrid i j text rows !! i' = Some xs' ∧ length xs' = length xs ∧
    xs' !! j' = if decide (i = i' ∧ j = j' ∧ j' < length xs) then Some text else xs !! j'.
Proof.
  intros Hxs. unfold setGrid. destruct (decide (i = i')) as [<-|Hne].
  - rewrite list_lookup_alter_eq, Hxs. cbn [fmap option_fmap option_map]. eexists. split_and!; [done|by rewrite length_insert|].
    rewrite list_lookup_insert. case_decide as E1; case_decide as E2; naive_solver.
  - rewrite list_lookup_alter_ne by done. exists xs. rewrite decide_False by naive_solver. done.
Qed.

Lemma grid_fold (r0 c0 h w : nat) cells :
  (∀ cell, cell ∈ cells → r0 ≤ row cell ∧ c0 ≤ col cell) →
  let rows := fold_left (λ rows cell, setGrid (row cell - r0) (col cell - c0) (copyText (value cell)) rows) cells
                (replicate h (replicate w [])) in
  length rows = h ∧ ∀ i, i < h → ∃ xs, rows !! i = Some xs ∧ length xs = w ∧
    ∀ j, j < w → xs !! j = Some (textAt cells (r0 + i) (c0 + j)).
Proof.
  induction cells as [|cell cells IH] using rev_ind; intros Hge.
  - split; [apply length_replicate|]. intros i Hi. exists (replicate w []).
    split_and!; [by apply lookup_replicate_2|apply length_replicate|]. intros j Hj. by apply lookup_replicate_2.
  - destruct IH as [Hlen Hrows]; [intros c Hc; apply Hge, elem_of_app; by left|].
    cbn zeta. rewrite fold_left_app. cbn [fold_left]. split; [unfold setGrid; by rewrite length_alter|].
    intros i Hi. destruct (Hrows i Hi) as (xs&Hxs&Hw&Hcols).
    destruct (Hge cell) as [Hr Hc]; [apply elem_of_app; right; by apply list_elem_of_singleton|].
    destruct (setGrid_lookup (row cell - r0) (col cell - c0) (copyText (value cell)) _ i 0 xs Hxs) as (xs'&Hxs'&Hlen'&_).
    exists xs'. split_and!; [done|congruence|]. intros j Hj.
    destruct (setGrid_lookup (row cell - r0) (col cell - c0) (copyText (value cell)) _ i j xs Hxs) as (xs2&Hxs2&_&Hj2).
    rewrite Hxs' in Hxs2. injection Hxs2 as <-. rewrite Hj2, textAt_snoc, Hcols by done.
    case_decide as E1; case_decide as E2; [done| |..|done]; exfalso.
    + apply E2. lia.
    + apply E1. lia.
Qed.

(** The grid has the bounding box of the selection, with every cell's text at its
    place and nothing elsewhere. *)
Lemma selection_grid selection r c :
  concat selection ≠ [] →
  let cells := concat selection in
  gridAt (resultCopySelectionToRows selection) (minOf row cells, minOf col cells) (r, c) =
  if decide (minOf row cells ≤ r ≤ maxOf row cells ∧ minOf col cells ≤ c ≤ maxOf col cells)
  then Some (textAt cells r c) else None.
Proof.
  intros Hne cells. unfold resultCopySelectionToRows. fold cells. destruct cells as [|cell0 rest] eqn:Ecells; [done|].
  rewrite <-Ecells. assert (cell0 ∈ cells) as Hin0 by (rewrite Ecells; apply elem_of_cons; by left).
  destruct (grid_fold (minOf row cells) (minOf col cells) (maxOf row cells - minOf row cells + 1)
    (maxOf col cells - minOf col cells + 1) cells) as [Hlen Hrows].
  { intros cell Hcell. split; by apply minOf_le. }
  pose proof (minOf_le row _ _ Hin0). pose proof (maxOf_ge row _ _ Hin0).
  pose proof (minOf_le col _ _ Hin0). pose proof (maxOf_ge col _ _ Hin0).
  set (rows := fold_left _ cells _) in *. unfold gridAt. cbn [fst snd].
  case_decide as Hge; [|rewrite decide_False by lia; done].
  destruct (decide (r ≤ maxOf row cells)) as [Hr|Hr].
  - destruct (Hrows (r - minOf row cells)) as (xs&->&Hw&Hcols); [lia|]. cbn [mbind option_bind].
    case_decide as Hin.
    + rewrite Hcols by lia. do 2 f_equal; lia.
    + apply lookup_ge_None. lia.
  - rewrite decide_False by lia. rewrite (lookup_ge_None_2 rows); [done|lia].
Qed.

(** ** Copying and pasting *)

Definition valueOf (v : CopyValue) : PasteCellValue :=
  match v with Undefined | Null => None | TextValue text | OtherValue text => Some text end.

(** Blank texts are pasted as [null], and [''] stands for the empty text. *)
Definition survives (v : CopyValue) : Prop :=
  match v with
  | Undefined | Null | TextValue [] => True
  | TextValue text | OtherValue text => trim text ≠ [] ∧ text ≠ js "''"
  end.

Lemma pasted_text v : survives v → normalizePastedCellValue (copyText v) = valueOf v.
Proof.
  unfold normalizePastedCellValue. destruct v as [| |[|x text]|text]; cbn [survives copyText valueOf]; [by vm_compute..| |];
    intros [Htrim Hquotes]; by rewrite !decide_False by done.
Qed.

Lemma cellAt_unique cells cell :
  cell ∈ cells → (∀ cell', cell' ∈ cells → row cell' = row cell → col cell' = col cell → cell' = cell) →
  textAt cells (row cell) (col cell) = copyText (value cell).
Proof.
  intros Hin Huniq. unfold textAt, cellAt.
  destruct (js_find _ (reverse cells)) as [cell'|] eqn:Hfind.
  - apply js_find_Some in Hfind as [Hin' Htest]. rewrite elem_of_reverse in Hin'.
    apply andb_true_iff in Htest as [Hr%Nat.eqb_eq Hc%Nat.eqb_eq]. assert (cell' = cell) as -> by auto. done.
  - rewrite js_find_None in Hfind. specialize (Hfind cell). rewrite elem_of_reverse, !Nat.eqb_refl in Hfind.
    by specialize (Hfind Hin).
Qed.

Lemma unixLines_breaks text : unixLines (replaceLineBreaks [13; 10]%N text) = unixLines text.
Proof.
  unfold unixLines. assert (∀ n, length text ≤ n →
    replaceLineBreaks [10]%N (replaceLineBreaks [13; 10]%N text) = replaceLineBreaks [10]%N text) as H; [|by apply (H (length text))].
  intros n. revert text. induction n as [|n IH]; intros [|c text] Hlen; try done; [simpl in Hlen; lia|].
  simpl in Hlen. cbn [replaceLineBreaks]. destruct (N.eqb_spec c 13) as [->|Hc].
  - destruct text as [|d text]; [done|]. destruct (N.eqb_spec d 10) as [->|Hd].
    + cbn [app replaceLineBreaks N.eqb Pos.eqb]. rewrite IH by (simpl in Hlen; lia). done.
    + cbn [app]. cbn [replaceLineBreaks N.eqb Pos.eqb]. f_equal. apply (IH (d :: text)). simpl in *. lia.
  - destruct (N.eqb_spec c 10) as [->|Hc'].
    + cbn [app replaceLineBreaks N.eqb Pos.eqb]. rewrite IH by lia. done.
    + cbn [replaceLineBreaks]. rewrite (proj2 (N.eqb_neq c 13) Hc), (proj2 (N.eqb_neq c 10) Hc'). by rewrite IH by lia.
Qed.

(** The last line of a block that starts at [anchor] and is pasted there. *)
Definition inBlock (cells : list ResultCopyCell) (anchor p : PasteCellInfo) : Prop :=
  anchor.1 ≤ p.1 ≤ anchor.1 + (maxOf row cells - minOf row cells) ∧
  anchor.2 ≤ p.2 ≤ anchor.2 + (maxOf col cells - minOf col cells).

(** Where a copied cell lands. *)
Definition landing (cells : list ResultCopyCell) (anchor : PasteCellInfo) (cell : ResultCopyCell) : PasteCellInfo :=
  (anchor.1 + (row cell - minOf row cells), anchor.2 + (col cell - minOf col cells)).

Lemma gridAt_fmap {A B} (f : A → B) (grid : list (list A)) anchor p :
  gridAt (map (map f) grid) anchor p = f <$> gridAt grid anchor p.
Proof.
  unfold gridAt. case_decide; [|done]. rewrite list_lookup_fmap.
  destruct (grid !! (p.1 - anchor.1)) as [xs|]; [|done]. cbn [fmap option_fmap option_map mbind option_bind].
  by rewrite list_lookup_fmap.
Qed.

Lemma gridAt_shift {A} (grid : list (list A)) a b a' b' i j :
  gridAt grid (a, b) (a + i, b + j) = gridAt grid (a', b') (a' + i, b' + j).
Proof.
  unfold gridAt. cbn [fst snd]. rewrite !decide_True by lia.
  by replace (a + i - a) with (a' + i - a') by lia; replace (b + j - b) with (b' + j - b') by lia.
Qed.

(** C32: what is copied in a result table is pasted in a result table.  A block
    of cells, with values of any kind, even with tabs and line breaks in them, is
    pasted at a cell whatever the system's clipboard does to line breaks: every
    copied cell lands at its place with its value (empty texts and [NULL] stay
    apart), in every writable cell of the table; no cell outside of the block and
    no read-only cell changes. *)
Theorem copy_paste_roundtrip selection windows text table create readOnly anchor contents :
  let cells := concat selection in
  let (copied, internal) := copyGrid (resultCopySelectionToRows selection) windows in
  let options := mkOptions create (getInternalResultGridClipboard internal text) readOnly in
  let after := afterWrites (applyPasteData table [[anchor]] text options) contents in
  let start := normalizePasteTargetCell anchor in
  1 < sizeOf (resultCopySelectionToRows selection) → text ≠ [] → unixLines text = unixLines copied →
  (∀ cell, cell ∈ cells →
     (∀ cell', cell' ∈ cells → row cell' = row cell → col cell' = col cell → cell' = cell) →
     survives (value cell) → writable table options (landing cells start cell) = true →
     after (landing cells start cell) = pastedValue table options (landing cells start cell) (valueOf (value cell))) ∧
  ∀ p, ¬ inBlock cells start p ∨ writable table options p = false → after p = contents p.
Proof.
  cbv zeta. unfold copyGrid. set (rows := resultCopySelectionToRows selection). set (cells := concat selection).
  intros Hsize Htext Hlines. set (options := mkOptions _ _ _).
  assert (cells ≠ []) as Hne.
  { intros Hnil. subst rows. unfold resultCopySelectionToRows in Hsize. fold cells in Hsize. rewrite Hnil in Hsize.
    cbn in Hsize. lia. }
  assert (internalClipboardGrid options = Some rows) as Hinternal.
  { subst options. cbn [internalClipboardGrid]. unfold getInternalResultGridClipboard, setInternalResultGridClipboard.
    cbn [clipboardText clipboardRows]. rewrite Hlines, decide_True; [done|]. unfold normalizeClipboardText.
    destruct windows; [by rewrite unixLines_breaks|done]. }
  set (start := normalizePasteTargetCell anchor).
  assert (∀ p, afterWrites (applyPasteData table [[anchor]] text options) contents p =
    match gridAt rows start p with
    | Some t => if writable table options p then pastedValue table options p (normalizePastedCellValue t) else contents p
    | None => contents p
    end) as Hafter.
  { intros p. unfold applyPasteData. destruct text as [|c text]; [done|]. unfold parsePasteData.
    rewrite Hinternal, decide_True by done. cbn [head]. change (getPasteSelectionSize [[anchor]] =? 1) with true. cbv iota.
    fold start. rewrite paste_at_anchor, gridAt_fmap. by destruct (gridAt rows start p). }
  destruct start as [r0 c0] eqn:Estart. split.
  - intros cell Hcell Huniq Hsurv Hw. rewrite Hafter. unfold landing. cbn [fst snd].
    pose proof (minOf_le row _ _ Hcell). pose proof (minOf_le col _ _ Hcell).
    pose proof (maxOf_ge row _ _ Hcell). pose proof (maxOf_ge col _ _ Hcell).
    pose proof (selection_grid selection (row cell) (col cell) Hne) as Hgrid. cbv zeta in Hgrid. fold cells rows in Hgrid.
    rewrite decide_True, (cellAt_unique cells cell Hcell Huniq) in Hgrid by lia.
    replace (row cell) with (minOf row cells + (row cell - minOf row cells)) in Hgrid at 1 by lia.
    replace (col cell) with (minOf col cells + (col cell - minOf col cells)) in Hgrid at 1 by lia.
    rewrite (gridAt_shift _ r0 c0 (minOf row cells) (minOf col cells)), Hgrid.
    unfold landing in Hw. cbn [fst snd] in Hw. rewrite Hw. by rewrite pasted_text.
  - intros p Hp. rewrite Hafter. destruct (gridAt rows (r0, c0) p) as [t|] eqn:Hgrid; [|done].
    destruct Hp as [Hp|Hw]; [|by rewrite Hw]. exfalso. apply Hp. destruct p as [r c].
    assert (r0 ≤ r ∧ c0 ≤ c) as [Hr Hc].
    { unfold gridAt in Hgrid. cbn [fst snd] in Hgrid. by case_decide. }
    replace r with (r0 + (r - r0)) in Hgrid by lia. replace c with (c0 + (c - c0)) in Hgrid by lia.
    rewrite (gridAt_shift _ r0 c0 (minOf row cells) (minOf col cells)) in Hgrid. subst rows.
    rewrite (selection_grid selection _ _ Hne) in Hgrid. fold cells in Hgrid. case_decide as Hbox; [|done].
    unfold inBlock. cbn [fst snd]. lia.
Qed.

(** ** Pasting over a selection *)

Lemma not_in_join c sep texts : c ∉ sep → Forall (λ t, c ∉ t) texts → c ∉ join sep texts.
Proof.
  intros Hsep Htexts. induction Htexts as [|t [|t' texts] Ht _ IH]; [apply not_elem_of_nil|done|].
  change (join sep (t :: t' :: texts)) with (t ++ sep ++ join sep (t' :: texts)). rewrite !elem_of_app. naive_solver.
Qed.

(** The text of a grid is split where it was joined. *)
Lemma split_grid (grid : list (list jstr)) :
  grid ≠ [] → Forall (λ r, r ≠ [] ∧ Forall (λ t, 9%N ∉ t ∧ 10%N ∉ t) r) grid →
  map (split_char 9) (split_char 10 (serializeGrid grid)) = grid.
Proof.
  intros Hne Hgrid. unfold serializeGrid. rewrite split_char_join.
  - rewrite map_map. rewrite <-(map_id grid) at 2. apply map_ext_Forall.
    eapply Forall_impl; [exact Hgrid|]. intros r [Hr Htexts]. apply split_char_join; [done|].
    eapply Forall_impl; [exact Htexts|]. by intros t [? _].
  - by destruct grid.
  - apply Forall_map. eapply Forall_impl; [exact Hgrid|]. intros r [_ Htexts].
    apply not_in_join; [by intros ?%list_elem_of_singleton|]. eapply Forall_impl; [exact Htexts|]. by intros t [_ ?].
Qed.

(** A text of lines and tabs fills a selection.  The grid of the text is
    repeated over the rows and columns of the selection; every writable selected
    cell gets its value, and no other cell of the table changes. *)
Theorem paste_fills_selection table options grid selection text contents :
  internalClipboardGrid options = None → 1 < getPasteSelectionSize selection → text ≠ [] → grid ≠ [] →
  Forall (λ r, r ≠ [] ∧ Forall (λ t, 9%N ∉ t ∧ 10%N ∉ t) r) grid → unixLines text = serializeGrid grid →
  let after := afterWrites (applyPasteData table selection text options) contents in
  let target cell := normalizePasteTargetCell cell in
  (∀ i j r cell, selection !! i = Some r → r !! j = Some cell →
     (∀ i' j' r' cell', selection !! i' = Some r' → r' !! j' = Some cell' → target cell' = target cell → i' = i ∧ j' = j) →
     writable table options (target cell) = true →
     ∃ source text, grid !! (i mod length grid) = Some source ∧ source !! (j mod length source) = Some text ∧
       after (target cell) = pastedValue table options (target cell) (normalizePastedCellValue text)) ∧
  ∀ p, p ∉ (target <$> concat selection) ∨ writable table options p = false → after p = contents p.
Proof.
  intros Hinternal Hsize Htext Hne Hgrid Hlines. cbv zeta.
  set (rows := map (map normalizePastedCellValue) grid).
  assert (applyPasteData table selection text options =
    forEachCell (λ i j cell, pasteAt table options (normalizePasteTargetCell cell) (sourceValue rows i j)) selection) as ->.
  { unfold applyPasteData. destruct text as [|c text]; [done|]. destruct selection as [|first selection]; [done|].
    unfold parsePasteData. rewrite Hinternal, decide_False by lia. rewrite Hlines.
    rewrite (proj2 (Nat.eqb_neq _ 1)) by lia.
    assert (map (λ line, map normalizePastedCellValue (split_char 9 line)) (split_char 10 (serializeGrid grid)) = rows)
      as ->; [|done]. subst rows. rewrite <-(map_map (split_char 9) (map normalizePastedCellValue)). by rewrite split_grid. }
  split.
  - intros i j r cell Hr Hcell Huniq Hw.
    assert (length grid ≠ 0) as Hlen by (by destruct grid).
    destruct (lookup_lt_is_Some_2 grid (i mod length grid)) as [source Hsource]; [by apply Nat.mod_upper_bound|].
    assert (source ≠ []) as Hsne by (rewrite Forall_lookup in Hgrid; by apply (Hgrid _ _ Hsource)).
    destruct (lookup_lt_is_Some_2 source (j mod length source)) as [t Ht]; [apply Nat.mod_upper_bound; by destruct source|].
    assert (sourceValue rows i j = normalizePastedCellValue t) as Hvalue.
    { unfold sourceValue. subst rows. rewrite length_map, list_lookup_fmap, Hsource.
      cbn [fmap option_fmap option_map]. by rewrite length_map, list_lookup_fmap, Ht. }
    exists source, t. split_and!; [done|done|]. apply afterWrites_written.
    + apply elem_of_forEachCell. exists i, j, r, cell. split_and!; [done|done|]. apply elem_of_pasteAt. by rewrite Hvalue.
    + intros v (i'&j'&r'&cell'&Hr'&Hcell'&(Heq&_&->)%elem_of_pasteAt)%elem_of_forEachCell.
      destruct (Huniq i' j' r' cell') as [-> ->]; [done..|]. by rewrite Heq, <-Hvalue.
  - intros p Hp. apply afterWrites_other.
    intros v (i&j&r&cell&Hr&Hcell&(->&Hw&_)%elem_of_pasteAt)%elem_of_forEachCell.
    destruct Hp as [Hp|Hp]; [|congruence]. apply Hp, list_elem_of_fmap_2. rewrite list_elem_of_In, in_concat.
    exists r. rewrite <-!list_elem_of_In. split; by eapply list_elem_of_lookup_2.
Qed.

(** ** Concrete pastes *)

Definition plainTable : PasteTable := mkTable 10 10 None (λ c r, Some (znum (Z.of_nat c))) (λ c r, None).

(** Two rows and two columns, with a line break, [NULL] and the empty text. *)
Definition copiedCells : ResultCopySelection :=
  [[mkCopyCell 1 1 None (TextValue [97; 13; 98]%N) Undefined None; mkCopyCell 1 2 None Null Undefined None];
   [mkCopyCell 2 1 None (TextValue []) Undefined None; mkCopyCell 2 2 None (OtherValue (js "7")) Undefined None]].

Lemma copy_paste_roundtrip_witness :
  let (copied, internal) := copyGrid (resultCopySelectionToRows copiedCells) true in
  let options := mkOptions (λ _, false) (getInternalResultGridClipboard internal copied) [js "6"] in
  let after := afterWrites (applyPasteData plainTable [[(3, 5)]] copied options) (λ _, Some (js "old")) in
  after (3, 5) = Some [97; 13; 98]%N ∧ after (4, 5) = Some [] ∧ after (3, 6) = Some (js "old") ∧
  after (5, 5) = Some (js "old").
Proof.
  pose proof (copy_paste_roundtrip copiedCells true (copyGrid (resultCopySelectionToRows copiedCells) true).1
    plainTable (λ _, false) [js "6"] (3, 5) (λ _, Some (js "old"))) as H.
  cbv zeta in H. destruct H as [Hcells Hother]; [by vm_compute; lia|by vm_compute|by vm_compute|].
  split_and!.
  - apply (Hcells (mkCopyCell 1 1 None (TextValue [97; 13; 98]%N) Undefined None)); [apply elem_of_cons; by left| |by vm_compute|by vm_compute].
    intros cell' Hin. repeat (apply elem_of_cons in Hin as [->|Hin]; [by vm_compute|]). by apply not_elem_of_nil in Hin.
  - by vm_compute.
  - apply (Hother (3, 6)). right. by vm_compute.
  - apply (Hother (5, 5)). left. unfold inBlock. vm_compute. lia.
Defined.

Lemma paste_fills_selection_witness :
  let selection := [[(1, 1); (1, 2)]; [(2, 1); (2, 2)]] in
  let after := afterWrites (applyPasteData plainTable selection (js "x") (mkOptions (λ _, false) None [])) (λ _, None) in
  after (2, 2) = Some (js "x") ∧ after (3, 1) = None.
Proof.
  destruct (paste_fills_selection plainTable (mkOptions (λ _, false) None []) [[js "x"]]
    [[(1, 1); (1, 2)]; [(2, 1); (2, 2)]] (js "x") (λ _, None)) as [Hin Hother];
    [done|by vm_compute; lia|done|done| |done|].
  - apply Forall_singleton. split; [done|]. apply Forall_singleton. by split; apply (bool_decide_unpack _); vm_compute.
  - split; [|apply Hother; left; by apply (bool_decide_unpack _); vm_compute].
    destruct (Hin 1 1 [(2, 1); (2, 2)] (2, 2)) as (source&t&Hs&Ht&Hafter); [done|done| |by vm_compute|].
    + intros [|[|i]] [|[|j]] r' cell' Hr Hc; simplify_eq/=; try done; intros Heq; vm_compute in Heq; congruence.
    + etransitivity; [exact Hafter|]. vm_compute in Hs. injection Hs as <-. vm_compute in Ht. by injection Ht as <-.
Defined.
