(* ===== verification/QueryComposer.v ===== *)
(** * QueryComposer: filtering and ordering a result

    Models [blocks/SearchResult/components/ScreeningResult/queryComposer.ts]: the
    query that is run when the user filters or orders a result.  SQL gets clauses
    appended; in a MongoDB command the filter document and the sort document are
    found and replaced.  The regular expressions [/\.find\s*\(/i], [/;\s*$/] and
    [/^(.+?)\s+(asc|desc)$/i] are the scanners they stand for. *)

From S2P Require Import Prelude UriComponent.
Local Open Scope nat_scope.

(** ** Documents *)

(** [text.slice(1, -1)]. *)
Definition sliceInner (text : jstr) : jstr := drop 1 (take (length text - 1) text).

Definition isDocument (text : jstr) : bool := startsWithChar (ch "{") text && endsWithChar (ch "}") text.

Definition normalizeMongoDocument (value : jstr) : jstr :=
  let trimmedValue := trim value in
  if isDocument trimmedValue then trimmedValue else js "{ " ++ trimmedValue ++ js " }".

Definition stripIdentifierQuotes (identifier : jstr) : jstr :=
  let trimmedIdentifier := trim identifier in
  let between o c := bool_decide (head trimmedIdentifier = Some o) && bool_decide (last trimmedIdentifier = Some c) in
  if between (ch "`") (ch "`") || between 34%N 34%N || between (ch "[") (ch "]")
  then sliceInner trimmedIdentifier
  else trimmedIdentifier.

Definition hexLowerDigit (n : N) : N := if (n <? 10)%N then (48 + n)%N else (87 + n)%N.

Definition unicodeEscape (c : N) : jstr :=
  js "\u" ++ map hexLowerDigit [c / 4096; c / 256 mod 16; c / 16 mod 16; c mod 16]%N.

(** [JSON.stringify] of a string. *)
Fixpoint jsonChars (text : jstr) : jstr :=
  match text with
  | [] => []
  | c :: text' =>
      if (c =? 34)%N then [92; 34]%N ++ jsonChars text'
      else if (c =? 92)%N then [92; 92]%N ++ jsonChars text'
      else if (c =? 8)%N then js "\b" ++ jsonChars text'
      else if (c =? 9)%N then js "\t" ++ jsonChars text'
      else if (c =? 10)%N then js "\n" ++ jsonChars text'
      else if (c =? 12)%N then js "\f" ++ jsonChars text'
      else if (c =? 13)%N then js "\r" ++ jsonChars text'
      else if (c <? 32)%N then unicodeEscape c ++ jsonChars text'
      else if is_high c then
        match text' with
        | d :: text'' => if is_low d then c :: d :: jsonChars text'' else unicodeEscape c ++ jsonChars text'
        | [] => unicodeEscape c
        end
      else if is_low c then unicodeEscape c ++ jsonChars text'
      else c :: jsonChars text'
  end.

Definition jsonString (text : jstr) : jstr := [34%N] ++ jsonChars text ++ [34%N].

(** ** Sort documents *)

Definition isLineTerminator (c : N) : bool := includes c [10; 13; 8232; 8233]%N.

(** The item without [word] and the white space before it; [word] has to be
    behind white space, and a name before that. *)
Definition stripDirection (word item : jstr) : option jstr :=
  let rest := take (length item - length word) item in
  if bool_decide (toLowerCase (drop (length item - length word) item) = word) then
    let name := trimEnd rest in
    if bool_decide (length name < length rest) && bool_decide (name ≠ [])
       && negb (existsb isLineTerminator name)
    then Some name else None
  else None.

(** The match of an item: the name, and whether the order is ascending. *)
Definition parseOrderItem (item : jstr) : option (jstr * bool) :=
  match stripDirection (js "asc") item with
  | Some name => Some (name, true)
  | None => (λ name, (name, false)) <$> stripDirection (js "desc") item
  end.

Definition sortEntry (item : jstr * bool) : jstr :=
  jsonString (stripIdentifierQuotes item.1) ++ js ": " ++ js (if item.2 then "1" else "-1").

Definition normalizeMongoSort (value : jstr) : jstr :=
  let trimmedValue := trim value in
  if isDocument trimmedValue then trimmedValue
  else
    match mapM parseOrderItem (map trim (split_char (ch ",") trimmedValue)) with
    | Some parsedItems => js "{ " ++ join (js ", ") (map sortEntry parsedItems) ++ js " }"
    | None => normalizeMongoDocument trimmedValue
    end.

(** ** Calls in a command *)

Definition isQuote (c : N) : bool := includes c [34; 39; 96]%N.

(** Inside a quoted text: the quote, and whether the next character is escaped. *)
Abbreviation QuoteState := (option (N * bool)).

Definition inQuote (quote c : N) (escaped : bool) : QuoteState :=
  if escaped then Some (quote, false)
  else if (c =? 92)%N then Some (quote, true)
  else if (c =? quote)%N then None
  else Some (quote, false).

(** The parenthesis that closes the call, counted from the start of [rest]. *)
Fixpoint closeParenthesis (rest : jstr) (index : nat) (depth : Z) (quote : QuoteState) : option nat :=
  match rest with
  | [] => None
  | character :: rest' =>
      match quote with
      | Some (q, escaped) => closeParenthesis rest' (S index) depth (inQuote q character escaped)
      | None =>
          if isQuote character then closeParenthesis rest' (S index) depth (Some (character, false))
          else if (character =? ch "(")%N then closeParenthesis rest' (S index) (depth + 1) None
          else if (character =? ch ")")%N then
            if (depth - 1 =? 0)%Z then Some index else closeParenthesis rest' (S index) (depth - 1) None
          else closeParenthesis rest' (S index) depth None
      end
  end.

(** [/\.name\s*\(/i] matches at the start of [text]. *)
Definition callAt (name text : jstr) : bool :=
  match text with
  | c :: text' =>
      (c =? ch ".")%N && bool_decide (toLowerCase (take (length name) text') = name)
      && startsWithChar (ch "(") (trimStart (drop (length name) text'))
  | [] => false
  end.

(** [match.index]: the first place where the pattern matches. *)
Fixpoint findCall (name command : jstr) : option nat :=
  match command with
  | [] => None
  | _ :: command' => if callAt name command then Some 0 else S <$> findCall name command'
  end.

Record IFunctionCallRange := mkCallRange { closeParenthesisIndex : nat; openParenthesisIndex : nat }.

Definition findFunctionCallRange (command name : jstr) : option IFunctionCallRange :=
  i ← findCall name command;
  j ← indexOf (ch "(") (drop i command);
  let open := i + j in
  close ← closeParenthesis (drop open command) open 0 None;
  Some (mkCallRange close open).

Definition isOpening (c : N) : bool := includes c (js "{[(").
Definition isClosing (c : N) : bool := includes c (js "}])").

(** The first comma outside of brackets and quoted texts; [None] is -1. *)
Fixpoint topLevelComma (rest : jstr) (index : nat) (depth : Z) (quote : QuoteState) : option nat :=
  match rest with
  | [] => None
  | character :: rest' =>
      match quote with
      | Some (q, escaped) => topLevelComma rest' (S index) depth (inQuote q character escaped)
      | None =>
          if isQuote character then topLevelComma rest' (S index) depth (Some (character, false))
          else if isOpening character then topLevelComma rest' (S index) (depth + 1) None
          else if isClosing character then topLevelComma rest' (S index) (depth - 1) None
          else if (character =? ch ",")%N && (depth =? 0)%Z then Some index
          else topLevelComma rest' (S index) depth None
      end
  end.

Definition findTopLevelComma (value : jstr) : option nat := topLevelComma value 0 0 None.

Definition replaceMongoFindFilter (command filterValue : jstr) : jstr :=
  match findFunctionCallRange command (js "find") with
  | None => command
  | Some range =>
      let currentArguments :=
        drop (openParenthesisIndex range + 1) (take (closeParenthesisIndex range) command) in
      let projection := match findTopLevelComma currentArguments with Some i => drop i currentArguments | None => [] end in
      take (openParenthesisIndex range + 1) command ++ normalizeMongoDocument filterValue ++ projection
        ++ drop (closeParenthesisIndex range) command
  end.

(** [command.match(/;\s*$/)]: the place of a semicolon with only white space
    behind it. *)
Definition trailingSemicolon (command : jstr) : option nat :=
  let trimmed := trimEnd command in
  if bool_decide (last trimmed = Some (ch ";")) then Some (length trimmed - 1) else None.

Definition replaceOrAppendMongoSort (command orderByValue : jstr) : jstr :=
  let sortDocument := normalizeMongoSort orderByValue in
  match findFunctionCallRange command (js "sort") with
  | Some range =>
      take (openParenthesisIndex range + 1) command ++ sortDocument ++ drop (closeParenthesisIndex range) command
  | None =>
      match trailingSemicolon command with
      | None => command ++ js ".sort(" ++ sortDocument ++ js ")"
      | Some semicolonIndex =>
          trimEnd (take semicolonIndex command) ++ js ".sort(" ++ sortDocument ++ js ")" ++ drop semicolonIndex command
      end
  end.

Definition composeMongoQuery (originalSql filterValue orderByValue : jstr) : jstr :=
  let command := originalSql in
  let command := match filterValue with [] => command | _ => replaceMongoFindFilter command filterValue end in
  match orderByValue with [] => command | _ => replaceOrAppendMongoSort command orderByValue end.

Definition composeResultQuery (mongodb : bool) (filterValue orderByValue originalSql : jstr) : jstr :=
  let normalizedFilterValue := trim filterValue in
  let normalizedOrderByValue := trim orderByValue in
  if mongodb then composeMongoQuery originalSql normalizedFilterValue normalizedOrderByValue
  else
    let sql := match normalizedFilterValue with
               | [] => originalSql
               | _ => originalSql ++ js " WHERE " ++ normalizedFilterValue
               end in
    match normalizedOrderByValue with [] => sql | _ => sql ++ js " ORDER BY " ++ normalizedOrderByValue end.

(** ** Texts with closed brackets and quotes *)

(** What stands between two quotes [q]. *)
Inductive quotedBody (q : N) : jstr → Prop :=
  | quoted_nil : quotedBody q []
  | quoted_char c t : c ≠ q → c ≠ 92%N → quotedBody q t → quotedBody q (c :: t)
  | quoted_escape c t : quotedBody q t → quotedBody q (92%N :: c :: t).

Definition matching (o c : N) : Prop :=
  (o = ch "(" ∧ c = ch ")") ∨ (o = ch "[" ∧ c = ch "]") ∨ (o = ch "{" ∧ c = ch "}").

(** Brackets and quotes are closed; a comma outside of them only if [comma]. *)
Inductive balanced : bool → jstr → Prop :=
  | balanced_nil comma : balanced comma []
  | balanced_char comma c t :
      isQuote c = false → isOpening c = false → isClosing c = false → (c = ch "," → comma = true) →
      balanced comma t → balanced comma (c :: t)
  | balanced_quoted comma q body t :
      isQuote q = true → quotedBody q body → balanced comma t → balanced comma (q :: body ++ q :: t)
  | balanced_group comma o c inner t :
      matching o c → balanced true inner → balanced comma t → balanced comma (o :: inner ++ c :: t).

Lemma quote_not_backslash q : isQuote q = true → q ≠ 92%N.
Proof. intros Hq ->. done. Qed.

(** The state behind a quoted text. *)
Lemma close_quoted q body t i d :
  isQuote q = true → quotedBody q body →
  closeParenthesis (body ++ q :: t) i d (Some (q, false)) = closeParenthesis t (i + length body + 1) d None.
Proof.
  intros Hq Hbody. pose proof (quote_not_backslash q Hq) as Hne. revert i.
  induction Hbody as [|c body Hc Hb _ IH|c body _ IH]; intros i; cbn [app closeParenthesis length].
  - unfold inQuote. rewrite (proj2 (N.eqb_neq q 92) Hne), N.eqb_refl. f_equal. lia.
  - unfold inQuote. rewrite (proj2 (N.eqb_neq c 92) Hb), (proj2 (N.eqb_neq c q) Hc). rewrite IH. f_equal. lia.
  - cbn [inQuote N.eqb Pos.eqb]. rewrite IH. f_equal. lia.
Qed.

Lemma comma_quoted q body t i d :
  isQuote q = true → quotedBody q body →
  topLevelComma (body ++ q :: t) i d (Some (q, false)) = topLevelComma t (i + length body + 1) d None.
Proof.
  intros Hq Hbody. pose proof (quote_not_backslash q Hq) as Hne. revert i.
  induction Hbody as [|c body Hc Hb _ IH|c body _ IH]; intros i; cbn [app topLevelComma length].
  - unfold inQuote. rewrite (proj2 (N.eqb_neq q 92) Hne), N.eqb_refl. f_equal. lia.
  - unfold inQuote. rewrite (proj2 (N.eqb_neq c 92) Hb), (proj2 (N.eqb_neq c q) Hc). rewrite IH. f_equal. lia.
  - cbn [inQuote N.eqb Pos.eqb]. rewrite IH. f_equal. lia.
Qed.

Lemma paren_opening c : isOpening c = false → isClosing c = false → c ≠ ch "(" ∧ c ≠ ch ")".
Proof. intros Ho Hc. by split; intros ->. Qed.

(** Evaluates the tests of literal characters. *)
Ltac known_char :=
  repeat match goal with
  | |- context [isQuote (ch ?c)] =>
      let b := eval vm_compute in (isQuote (ch c)) in change (isQuote (ch c)) with b
  | |- context [isOpening (ch ?c)] =>
      let b := eval vm_compute in (isOpening (ch c)) in change (isOpening (ch c)) with b
  | |- context [isClosing (ch ?c)] =>
      let b := eval vm_compute in (isClosing (ch c)) in change (isClosing (ch c)) with b
  | |- context [(ch ?a =? ch ?c)%N] =>
      let b := eval vm_compute in (ch a =? ch c)%N in change (ch a =? ch c)%N with b
  end; cbv iota.

(** The scan for the closing parenthesis passes over a balanced text. *)
Lemma close_balanced comma t rest i d :
  balanced comma t → (0 < d)%Z →
  closeParenthesis (t ++ rest) i d None = closeParenthesis rest (i + length t) d None.
Proof.
  intros Ht. revert rest i d. induction Ht as
    [comma|comma c t Hq Ho Hc _ _ IH|comma q body t Hq Hbody _ IH|comma o c inner t Hm _ IHin _ IH]; intros rest i d Hd.
  - f_equal. simpl. lia.
  - destruct (paren_opening c Ho Hc) as [H1 H2]. cbn [app closeParenthesis length]. rewrite Hq.
    rewrite (proj2 (N.eqb_neq _ _) H1), (proj2 (N.eqb_neq _ _) H2), IH by done. f_equal. lia.
  - cbn [app closeParenthesis length]. rewrite Hq, <-(assoc_L (++)). cbn [app].
    rewrite close_quoted, IH by done. f_equal. rewrite length_app. cbn [length]. lia.
  - cbn [app length]. rewrite <-(assoc_L (++)), length_app. cbn [app length].
    destruct Hm as [[-> ->]|[[-> ->]|[-> ->]]];
      cbn [closeParenthesis].
    + known_char. rewrite IHin by lia. cbn [closeParenthesis]. known_char.
      rewrite (proj2 (Z.eqb_neq _ 0)) by lia. rewrite IH by lia. f_equal; lia.
    + known_char. rewrite IHin by done. cbn [closeParenthesis]. known_char. rewrite IH by done. f_equal. lia.
    + known_char. rewrite IHin by done. cbn [closeParenthesis]. known_char. rewrite IH by done. f_equal. lia.
Qed.

(** The scan for a comma passes over a balanced text, unless it is outside. *)
Lemma comma_balanced comma t rest i d :
  balanced comma t → (0 ≤ d)%Z → (comma = true → d ≠ 0%Z) →
  topLevelComma (t ++ rest) i d None = topLevelComma rest (i + length t) d None.
Proof.
  intros Ht. revert rest i d. induction Ht as
    [comma|comma c t Hq Ho Hc Hcomma _ IH|comma q body t Hq Hbody _ IH|comma o c inner t Hm _ IHin _ IH];
    intros rest i d Hd Hz.
  - f_equal. simpl. lia.
  - cbn [app topLevelComma length]. rewrite Hq, Ho, Hc.
    replace ((c =? ch ",")%N && (d =? 0)%Z) with false; [rewrite IH by done; f_equal; lia|].
    destruct (N.eqb_spec c (ch ",")) as [E|]; [|done]. symmetry. apply Z.eqb_neq, Hz, Hcomma, E.
  - cbn [app topLevelComma length]. rewrite Hq, <-(assoc_L (++)). cbn [app].
    rewrite comma_quoted, IH by done. f_equal. rewrite length_app. cbn [length]. lia.
  - cbn [app length]. rewrite <-(assoc_L (++)), length_app. cbn [app length].
    destruct Hm as [[-> ->]|[[-> ->]|[-> ->]]]; cbn [topLevelComma]; known_char; rewrite IHin by lia;
      cbn [topLevelComma]; known_char; replace (d + 1 - 1)%Z with d by lia; rewrite IH by done; f_equal; lia.
Qed.

(** ** Finding a call *)

Lemma trimStart_dot u rest :
  startsWithChar (ch "(") (trimStart (u ++ ch "." :: rest)) = startsWithChar (ch "(") (trimStart (u ++ [ch "."])).
Proof. induction u as [|x u IH]; [done|]. cbn [app trimStart]. destruct (is_space x); [done|by destruct u]. Qed.

Lemma take_dot_not_name name t rest :
  ch "." ∉ name → length t < length name → toLowerCase (take (length name) (t ++ ch "." :: rest)) ≠ name.
Proof.
  intros Hdot Hlen Heq. apply Hdot. rewrite <-Heq. unfold toLowerCase. apply list_elem_of_fmap. exists (ch "."). split; [done|].
  apply (list_elem_of_lookup_2 _ (length t)). rewrite lookup_take_lt, lookup_app_r, Nat.sub_diag by lia. done.
Qed.

(** No call of [name] goes over a dot. *)
Lemma callAt_dot name c t rest :
  ch "." ∉ name → callAt name (c :: t ++ ch "." :: rest) = callAt name (c :: t ++ [ch "."]).
Proof.
  intros Hdot. cbn [callAt]. destruct (c =? ch ".")%N; [|done]. cbn [andb].
  destruct (decide (length name ≤ length t)) as [Hle|Hlt].
  - rewrite !take_app_le, !drop_app_le by done. by rewrite trimStart_dot.
  - rewrite !bool_decide_eq_false_2 by (apply take_dot_not_name; [done|lia]). done.
Qed.

(** A call that ends before a dot is there whatever follows. *)
Lemma callAt_prefix name c t u :
  ch "." ∉ name → callAt name (c :: t ++ [ch "."]) = true → callAt name (c :: t ++ u) = true.
Proof.
  intros Hdot. cbn [callAt]. intros [[-> Hname]%andb_true_iff Hopen]%andb_true_iff. cbn [andb].
  destruct (decide (length name ≤ length t)) as [Hle|Hlt].
  - rewrite take_app_le in Hname |- * by done. rewrite drop_app_le in Hopen |- * by done. rewrite Hname. cbn [andb].
    clear Hle Hname. generalize dependent (drop (length name) t). intros s.
    induction s as [|x s IH]; [done|]. cbn [app trimStart]. destruct (is_space x); [done|by destruct s].
  - apply bool_decide_eq_true_1 in Hname. exfalso. apply (take_dot_not_name name t []); [done|lia|done].
Qed.

Lemma findCall_app name pre rest :
  ch "." ∉ name → findCall name (pre ++ [ch "."]) = None → callAt name (ch "." :: rest) = true →
  findCall name (pre ++ ch "." :: rest) = Some (length pre).
Proof.
  intros Hdot. induction pre as [|c pre IH]; intros Hnone Hcall.
  - cbn [app findCall length]. by rewrite Hcall.
  - cbn [app findCall length] in *. rewrite callAt_dot by done.
    destruct (callAt name (c :: pre ++ [ch "."])); [done|]. rewrite IH; [done| |done].
    by destruct (findCall name (pre ++ [ch "."])).
Qed.

Lemma findCall_prefix name pre u :
  ch "." ∉ name → findCall name (pre ++ u) = None → findCall name (pre ++ [ch "."]) = None.
Proof.
  intros Hdot Hnone. induction pre as [|c pre IH].
  - cbn [app findCall callAt]. rewrite drop_nil. cbn [trimStart]. by rewrite andb_false_r.
  - cbn [app findCall] in *. destruct (callAt name (c :: pre ++ u)) eqn:E; [done|].
    destruct (callAt name (c :: pre ++ [ch "."])) eqn:E'.
    { apply (callAt_prefix _ _ _ u) in E'; [congruence|done]. }
    rewrite IH; [done|]. by destruct (findCall name (pre ++ u)).
Qed.

(** [.name (]: the name as written, and white space. *)
Record callText (name written space : jstr) : Prop := {
  call_name : toLowerCase written = name;
  call_plain : ch "(" ∉ written;
  call_space : Forall (λ c, is_space c = true) space;
}.

Lemma trimStart_spaces sp c rest :
  Forall (λ c, is_space c = true) sp → is_space c = false → trimStart (sp ++ c :: rest) = c :: rest.
Proof.
  intros Hsp Hc. induction Hsp as [|x sp Hx _ IH]; cbn [app trimStart]; [by rewrite Hc|by rewrite Hx].
Qed.

Lemma callText_callAt name written space rest :
  callText name written space → callAt name (ch "." :: written ++ space ++ ch "(" :: rest) = true.
Proof.
  intros [Hname _ Hsp]. assert (length name = length written) as Hlen by (rewrite <-Hname; unfold toLowerCase; by rewrite length_fmap).
  cbn [callAt]. rewrite Hlen, take_app_length, drop_app_length, bool_decide_eq_true_2 by done.
  by rewrite trimStart_spaces.
Qed.

(** The call before [(], and with its arguments. *)
Definition callHead (pre written space : jstr) : jstr := pre ++ ch "." :: written ++ space ++ [ch "("].

Lemma call_range name pre written space args post :
  ch "." ∉ name → callText name written space → findCall name (pre ++ [ch "."]) = None → balanced true args →
  findFunctionCallRange (callHead pre written space ++ args ++ ch ")" :: post) name =
  Some (mkCallRange (length (callHead pre written space ++ args)) (length (callHead pre written space) - 1)).
Proof.
  intros Hdot Hcall Hnone Hargs. unfold findFunctionCallRange, callHead.
  set (rest := args ++ ch ")" :: post).
  assert ((pre ++ ch "." :: written ++ space ++ [ch "("]) ++ rest = pre ++ ch "." :: written ++ space ++ ch "(" :: rest) as ->.
  { rewrite <-(assoc_L (++)). cbn [app]. rewrite <-!(assoc_L (++)). done. }
  rewrite (findCall_app name pre) by (done || by apply callText_callAt). cbn [mbind option_bind].
  rewrite drop_app_length.
  assert (indexOf (ch "(") (ch "." :: written ++ space ++ ch "(" :: rest) = Some (S (length written + length space))) as ->.
  { cbn [indexOf]. rewrite decide_False by done.
    rewrite (assoc_L (++)), indexOf_app; [by rewrite length_app|]. rewrite elem_of_app. intros [Hin|Hin].
    - by apply (call_plain _ _ _ Hcall).
    - pose proof (call_space _ _ _ Hcall) as Hsp. rewrite Forall_forall in Hsp. by specialize (Hsp _ Hin). }
  cbn [mbind option_bind]. set (open := length pre + S (length written + length space)).
  assert (drop open (pre ++ ch "." :: written ++ space ++ ch "(" :: rest) = ch "(" :: rest) as ->.
  { replace (pre ++ ch "." :: written ++ space ++ ch "(" :: rest)
      with ((pre ++ ch "." :: written ++ space) ++ ch "(" :: rest) by (rewrite <-(assoc_L (++)); cbn [app]; by rewrite <-(assoc_L (++))).
    replace open with (length (pre ++ ch "." :: written ++ space)) by (rewrite length_app; cbn [length]; rewrite length_app; lia).
    apply drop_app_length. }
  subst rest. cbn [closeParenthesis]. known_char. rewrite (close_balanced true) by done. cbn [closeParenthesis]. known_char.
  change (0 + 1 - 1 =? 0)%Z with true. cbv iota. cbn [mbind option_bind]. do 2 f_equal.
  - rewrite !length_app. cbn [length]. rewrite !length_app. cbn [length]. lia.
  - rewrite !length_app. cbn [length]. rewrite !length_app. cbn [length]. lia.
Qed.

Lemma balanced_weaken comma t : balanced comma t → balanced true t.
Proof. induction 1; by constructor. Qed.

Lemma balanced_app comma t t' : balanced comma t → balanced comma t' → balanced comma (t ++ t').
Proof.
  intros Ht Ht'. induction Ht as [|comma c t ????? IH|comma q body t ??? IH|comma o c inner t ????? IH];
    cbn [app]; rewrite <-?(assoc_L (++)); cbn [app];
    [done|apply balanced_char; auto|apply balanced_quoted; auto|apply balanced_group; auto].
Qed.

(** What follows the filter in the arguments of [find]. *)
Definition projectionText (projection : jstr) : Prop :=
  projection = [] ∨ ∃ args, projection = ch "," :: args ∧ balanced true args.

Lemma balanced_arguments doc projection :
  balanced false doc → projectionText projection → balanced true (doc ++ projection).
Proof.
  intros Hdoc Hproj. apply balanced_app; [by eapply balanced_weaken|].
  destruct Hproj as [->|(args&->&Hargs)]; [constructor|]. by constructor.
Qed.

Lemma comma_arguments doc projection :
  balanced false doc → projectionText projection →
  match findTopLevelComma (doc ++ projection) with Some i => drop i (doc ++ projection) | None => [] end = projection.
Proof.
  intros Hdoc Hproj. unfold findTopLevelComma. rewrite (comma_balanced false) by (done || lia).
  destruct Hproj as [->|(args&->&_)]; [done|]. cbn [topLevelComma]. known_char. apply drop_app_length'. done.
Qed.

(** A command with a call of [find]. *)
Definition findCommand (pre written space projection post doc : jstr) : jstr :=
  callHead pre written space ++ doc ++ projection ++ ch ")" :: post.

Lemma filter_replaced pre written space projection post doc filter :
  callText (js "find") written space → findCall (js "find") (pre ++ [ch "."]) = None →
  balanced false doc → projectionText projection → trim filter ≠ [] →
  composeResultQuery true filter [] (findCommand pre written space projection post doc) =
  findCommand pre written space projection post (normalizeMongoDocument (trim filter)).
Proof.
  intros Hcall Hnone Hdoc Hproj Hfilter. unfold composeResultQuery, composeMongoQuery.
  destruct (trim filter) as [|c f] eqn:Ef; [done|]. rewrite <-Ef. change (trim []) with (@nil N). cbv iota.
  unfold replaceMongoFindFilter, findCommand. rewrite (assoc_L (++) doc projection).
  rewrite (call_range (js "find")); [|by apply (bool_decide_unpack _); vm_compute|done|done|by apply balanced_arguments].
  cbn [openParenthesisIndex closeParenthesisIndex].
  assert (length (callHead pre written space) ≠ 0) as Hlen.
  { unfold callHead. rewrite length_app. cbn [length]. lia. }
  replace (length (callHead pre written space) - 1 + 1) with (length (callHead pre written space)) by lia.
  rewrite take_app_length, (assoc_L (++) (callHead pre written space) (doc ++ projection)).
  rewrite take_app_length, !drop_app_length, comma_arguments by done. by rewrite <-?(assoc_L (++)).
Qed.

(** Filtering a MongoDB result replaces the filter and nothing else.  In a
    command with a call of [find], however it is written, the filter document is
    exchanged and the projection and what follows the call stay, even where they
    have brackets, commas or quoted parentheses; so filtering again only keeps
    the last filter. *)
Theorem mongo_filter_replaced pre written space projection post doc filter :
  callText (js "find") written space → findCall (js "find") (pre ++ [ch "."]) = None →
  balanced false doc → projectionText projection → trim filter ≠ [] →
  let command := findCommand pre written space projection post in
  composeResultQuery true filter [] (command doc) = command (normalizeMongoDocument (trim filter)) ∧
  ∀ other, trim other ≠ [] → balanced false (normalizeMongoDocument (trim other)) →
    composeResultQuery true filter [] (composeResultQuery true other [] (command doc)) =
    composeResultQuery true filter [] (command doc).
Proof.
  intros Hcall Hnone Hdoc Hproj Hfilter. cbv zeta. split; [by apply filter_replaced|].
  intros other Hother Hbal. rewrite (filter_replaced pre written space projection post doc other) by done.
  by rewrite !filter_replaced.
Qed.

(** ** Ordering *)

Lemma trimEnd_spec t : ∃ sp, t = trimEnd t ++ sp ∧ Forall (λ c, is_space c = true) sp ∧
  (∀ c, last (trimEnd t) = Some c → is_space c = false).
Proof.
  unfold trimEnd. assert (∀ r, ∃ sp, reverse r = reverse (trimStart r) ++ sp ∧ Forall (λ c, is_space c = true) sp ∧
    (∀ c, last (reverse (trimStart r)) = Some c → is_space c = false)) as H.
  2: { specialize (H (reverse t)). by rewrite reverse_involutive in H. }
  clear t. intros t.
  induction t as [|c t IH]; [exists []; split_and!; [done|constructor|done]|]. cbn [trimStart].
  destruct (is_space c) eqn:Hc.
  - destruct IH as (sp&Heq&Hsp&Hlast). exists (sp ++ [c]). rewrite reverse_cons, Heq, <-(assoc_L (++)).
    split_and!; [done|apply Forall_app; by split; [|constructor]|done].
  - exists []. rewrite app_nil_r. split_and!; [done|constructor|]. intros c'. rewrite reverse_cons, last_snoc. by intros [= <-].
Qed.

(** The command without a sort call: the part to sort, and the semicolon. *)
Definition sortBase (command : jstr) : jstr :=
  match trailingSemicolon command with Some i => trimEnd (take i command) | None => command end.

Definition sortTail (command : jstr) : jstr :=
  match trailingSemicolon command with Some i => drop i command | None => [] end.

Lemma sortBase_prefix command : ∃ u, command = sortBase command ++ u.
Proof.
  unfold sortBase. destruct (trailingSemicolon command) as [i|]; [|exists []; by rewrite app_nil_r].
  destruct (trimEnd_spec (take i command)) as (sp&Heq&_). exists (sp ++ drop i command).
  by rewrite (assoc_L (++)), <-Heq, take_drop.
Qed.

Definition sortCommand (base tail document : jstr) : jstr := base ++ js ".sort(" ++ document ++ ch ")" :: tail.

Lemma sort_appended command order :
  findCall (js "sort") command = None → trim order ≠ [] →
  composeResultQuery true [] order command =
  sortCommand (sortBase command) (sortTail command) (normalizeMongoSort (trim order)).
Proof.
  intros Hnone Horder. unfold composeResultQuery, composeMongoQuery. change (trim []) with (@nil N). cbv iota.
  destruct (trim order) as [|c o] eqn:Eo; [done|]. rewrite <-Eo. unfold replaceOrAppendMongoSort, findFunctionCallRange.
  rewrite Hnone. cbn [mbind option_bind]. unfold sortCommand, sortBase, sortTail.
  destruct (trailingSemicolon command); [done|]. by change (js ")") with [ch ")"].
Qed.

Lemma sort_replaced base tail document order :
  findCall (js "sort") (base ++ [ch "."]) = None → balanced true document → trim order ≠ [] →
  composeResultQuery true [] order (sortCommand base tail document) =
  sortCommand base tail (normalizeMongoSort (trim order)).
Proof.
  intros Hnone Hdoc Horder. unfold composeResultQuery, composeMongoQuery. change (trim []) with (@nil N). cbv iota.
  destruct (trim order) as [|c o] eqn:Eo; [done|]. rewrite <-Eo. unfold replaceOrAppendMongoSort.
  assert (∀ d, sortCommand base tail d = callHead base (js "sort") [] ++ d ++ ch ")" :: tail) as Hcommand.
  { intros d. unfold sortCommand, callHead. by rewrite <-(assoc_L (++)). }
  rewrite !Hcommand, (call_range (js "sort"));
    [|by apply (bool_decide_unpack _); vm_compute|split; [done|by apply (bool_decide_unpack _); vm_compute|constructor]|done|done].
  cbn [openParenthesisIndex closeParenthesisIndex].
  assert (length (callHead base (js "sort") []) ≠ 0) as Hlen.
  { unfold callHead. rewrite length_app. cbn [length]. lia. }
  replace (length (callHead base (js "sort") []) - 1 + 1) with (length (callHead base (js "sort") [])) by lia.
  rewrite take_app_length, (assoc_L (++) (callHead base (js "sort") []) document), drop_app_length. done.
Qed.

(** Ordering a MongoDB result.  A command without a call of [sort] gets one,
    before a semicolon at its end; ordering again replaces the sort document, so
    that only the last order counts. *)
Theorem mongo_sort_last command order :
  findCall (js "sort") command = None → trim order ≠ [] →
  let sorted document := sortCommand (sortBase command) (sortTail command) document in
  composeResultQuery true [] order command = sorted (normalizeMongoSort (trim order)) ∧
  (∃ space, command = sortBase command ++ space ++ sortTail command ∧ Forall (λ c, is_space c = true) space) ∧
  (balanced true (normalizeMongoSort (trim order)) →
   ∀ other, trim other ≠ [] →
     composeResultQuery true [] other (composeResultQuery true [] order command) =
     composeResultQuery true [] other command).
Proof.
  intros Hnone Horder. cbv zeta. split_and!.
  - by apply sort_appended.
  - unfold sortBase, sortTail. destruct (trailingSemicolon command) as [i|].
    + destruct (trimEnd_spec (take i command)) as (sp&Heq&Hsp&_). exists sp. split; [|done].
      by rewrite (assoc_L (++)), <-Heq, take_drop.
    + exists []. rewrite app_nil_r. by split; [|constructor].
  - intros Hbal other Hother. rewrite (sort_appended command order), (sort_appended command other) by done.
    apply sort_replaced; [|done|done]. destruct (sortBase_prefix command) as [u Hu].
    apply (findCall_prefix _ _ u); [by apply (bool_decide_unpack _); vm_compute|by rewrite <-Hu].
Qed.

(** A projection with a quoted parenthesis and a comma inside brackets. *)
Lemma mongo_filter_replaced_witness :
  composeResultQuery true (js " age: 3 ") [] (js "db.users.find({}, { a: [1, 2], b: ')' }).limit(5)") =
  js "db.users.find({ age: 3 }, { a: [1, 2], b: ')' }).limit(5)".
Proof.
  destruct (mongo_filter_replaced (js "db.users") (js "find") [] (js ", { a: [1, 2], b: ')' }") (js ".limit(5)")
              (js "{}") (js " age: 3 ")) as [H _].
  - split; [done|by apply (bool_decide_unpack _); vm_compute|constructor].
  - by vm_compute.
  - apply (balanced_group false (ch "{") (ch "}") [] []); [right; by right|constructor..].
  - right. exists (js " { a: [1, 2], b: ')' }"). split; [done|].
    apply balanced_char; [done..|]. apply (balanced_group true (ch "{") (ch "}") (js " a: [1, 2], b: ')' ") []); [right; by right| |constructor].
    do 4 (apply balanced_char; [done..|]).
    apply (balanced_group true (ch "[") (ch "]") (js "1, 2") (js ", b: ')' ")); [right; by left| |].
    + do 4 (apply balanced_char; [done..|]). constructor.
    + do 5 (apply balanced_char; [done..|]). apply (balanced_quoted true 39%N (js ")") (js " ")); [done| |].
      * apply quoted_char; [done|done|constructor].
      * apply balanced_char; [done..|]. constructor.
  - by vm_compute.
  - vm_compute in H |- *. exact H.
Defined.

Lemma mongo_sort_last_witness :
  composeResultQuery true [] (js "name desc") (composeResultQuery true [] (js "{age: 1}") (js "db.users.find({}) ; ")) =
  js "db.users.find({}).sort({ " ++ [34%N] ++ js "name" ++ [34%N] ++ js ": -1 }); ".
Proof.
  destruct (mongo_sort_last (js "db.users.find({}) ; ") (js "{age: 1}")) as (_&_&Hlast); [by vm_compute|by vm_compute|].
  rewrite Hlast; [by vm_compute| |by vm_compute].
  apply (balanced_group true (ch "{") (ch "}") (js "age: 1") []); [right; by right| |constructor].
  do 6 (apply balanced_char; [done..|]). constructor.
Defined.
