(* ===== verification/ResultTabSelection.v ===== *)
(** * ResultTabSelection: the active tab of the results

    Models [blocks/SearchResult/tabSelection.ts]: which tab a result asks for,
    and the reducer that chooses the active tab while results come and go. *)

From S2P Require Import Prelude SqlExecutionTypes.
Local Open Scope nat_scope.

Definition CONSOLE_TAB_ID : jstr := js "execution-console".
Definition ABSTRACT_TAB_ID : jstr := js "abstract".
Definition MESSAGES_TAB_ID : jstr := js "messages".

Record ActiveTabSelectionState := mkSelection {
  activeTabId : jstr;
  pendingPreferredTabId : option jstr;
  followPreferredTabs : bool;
}.

Inductive ActiveTabSelectionAction :=
  | Prefer (tabId : jstr)
  | Activate (tabId : jstr)
  | ActivateAutomatically (tabId : jstr)
  | ActivateByUser (tabId : jstr)
  | StartAutoFollow (tabId : jstr)
  | ResetPreference
  | TabsChanged (availableTabIds : list jstr).

(** ** What a result asks for *)

Definition getResultIdentity (item : IManageResultData) : jstr :=
  or_else (default [] (uuid item)) (or_else (text (extraGet (js "resultKey") item)) (text (extraGet (js "historyKey") item))).

Definition hasTabularResult (item : IManageResultData) : bool := 1 <? length (default [] (headerList item)).

Definition hasLegacyResultTab (item : IManageResultData) : bool :=
  hasTabularResult item || negb (default false (success item)).

Definition is_digit (c : N) : bool := (48 <=? c)%N && (c <=? 57)%N.

Fixpoint dropDigits (label : jstr) : jstr :=
  match label with c :: label' => if is_digit c then dropDigits label' else label | [] => [] end.

(** [/\d+/] at the start: what is behind it. *)
Definition afterDigits (label : jstr) : option jstr :=
  match label with c :: _ => if is_digit c then Some (dropDigits label) else None | [] => None end.

Definition afterChar (c : N) (label : jstr) : option jstr :=
  match label with x :: label' => if (x =? c)%N then Some label' else None | [] => None end.

(** [displayName.replace(/^#\d+-\d+\s*/, '')]. *)
Definition getConsoleResultTabLabel (displayName : jstr) (showCoordinates : bool) : jstr :=
  if showCoordinates then displayName
  else
    match (r ← afterChar (ch "#") displayName; r ← afterDigits r; r ← afterChar (ch "-") r; afterDigits r) with
    | Some rest => trimStart rest
    | None => displayName
    end.

Definition truthyField (v : option scalar) : bool :=
  match v with
  | Some (SBool b) => b
  | Some (SNum n) => negb (n =? 0)%Z
  | Some (SStr (_ :: _)) => true
  | _ => false
  end.

Definition shouldOpenLegacyMessagesTab (item : IManageResultData) : bool :=
  truthyField (extraGet (js "messageOnly") item)
  || (negb (bool_decide (default [] (extraMessages item) = [])) && negb (hasLegacyResultTab item)).

Definition getPreferredActiveTabId (item : option IManageResultData) (consoleMode forceOutputTab : bool) : jstr :=
  if consoleMode && forceOutputTab then CONSOLE_TAB_ID
  else
    match item with
    | None => if consoleMode then CONSOLE_TAB_ID else []
    | Some item =>
        if negb consoleMode && shouldOpenLegacyMessagesTab item then MESSAGES_TAB_ID
        else if consoleMode && negb (default false (success item)) then CONSOLE_TAB_ID
        else if (if consoleMode then hasTabularResult item else hasLegacyResultTab item)
        then or_else (default [] (uuid item)) (if consoleMode then CONSOLE_TAB_ID else ABSTRACT_TAB_ID)
        else if consoleMode then CONSOLE_TAB_ID else ABSTRACT_TAB_ID
    end.

(** ** The reducer *)

Definition resolveAvailableActiveTabId (currentActiveTabId : jstr) (availableTabIds : list jstr)
    (preferredActiveTabId : option jstr) : jstr :=
  match availableTabIds with
  | [] => []
  | first :: _ =>
      let available id := negb (bool_decide (id = [])) && includes id availableTabIds in
      if available (default [] preferredActiveTabId) then default [] preferredActiveTabId
      else if available currentActiveTabId then currentActiveTabId
      else first
  end.

Definition reduceActiveTabSelection (state : ActiveTabSelectionState) (action : ActiveTabSelectionAction)
    : ActiveTabSelectionState :=
  match action with
  | Prefer tabId =>
      if negb (followPreferredTabs state) then state
      else mkSelection (activeTabId state) (Some tabId) (followPreferredTabs state)
  | Activate tabId => mkSelection tabId None (followPreferredTabs state)
  | ActivateAutomatically tabId =>
      if followPreferredTabs state then mkSelection tabId None (followPreferredTabs state) else state
  | ActivateByUser tabId => mkSelection tabId None false
  | StartAutoFollow tabId => mkSelection tabId None true
  | ResetPreference => mkSelection (activeTabId state) None (followPreferredTabs state)
  | TabsChanged availableTabIds =>
      let next := resolveAvailableActiveTabId (activeTabId state) availableTabIds (pendingPreferredTabId state) in
      let pending := if decide (Some next = pendingPreferredTabId state) then None else pendingPreferredTabId state in
      mkSelection next pending (followPreferredTabs state)
  end.

Definition reduceAll (state : ActiveTabSelectionState) (actions : list ActiveTabSelectionAction) : ActiveTabSelectionState :=
  fold_left reduceActiveTabSelection actions state.

(** ** Lemmas *)

(** The resolved tab is available whenever there is one. *)
Lemma resolve_available current ids preferred :
  ids ≠ [] → resolveAvailableActiveTabId current ids preferred ∈ ids.
Proof.
  destruct ids as [|first ids]; [done|]. intros _. unfold resolveAvailableActiveTabId.
  case_test; [by to_prop; apply includes_true|]. case_test; [by to_prop; apply includes_true|].
  apply elem_of_cons. by left.
Qed.

Lemma resolve_current current ids :
  current ≠ [] → current ∈ ids → resolveAvailableActiveTabId current ids None = current.
Proof.
  intros Hne Hin. destruct ids as [|first ids]; [by apply not_elem_of_nil in Hin|].
  unfold resolveAvailableActiveTabId. cbn [default]. change (bool_decide ([] = [])) with true. cbn [negb andb].
  by rewrite bool_decide_eq_false_2, (proj2 (includes_true _ _) Hin) by done.
Qed.

Lemma resolve_preferred current ids t :
  t ≠ [] → t ∈ ids → resolveAvailableActiveTabId current ids (Some t) = t.
Proof.
  intros Hne Hin. destruct ids as [|first ids]; [by apply not_elem_of_nil in Hin|].
  unfold resolveAvailableActiveTabId. cbn [default]. by rewrite bool_decide_eq_false_2, (proj2 (includes_true _ _) Hin) by done.
Qed.

(** What is not a choice of a tab by the user or by the code for all cases, and
    keeps the tab [t]. *)
Definition automatic (t : jstr) (action : ActiveTabSelectionAction) : Prop :=
  match action with
  | Activate _ | ActivateByUser _ | StartAutoFollow _ => False
  | TabsChanged ids => t ∈ ids
  | Prefer _ | ActivateAutomatically _ | ResetPreference => True
  end.

(** While results are followed, a preferred tab that is not there yet. *)
Definition waiting (t : jstr) (action : ActiveTabSelectionAction) : Prop :=
  match action with TabsChanged ids => t ∉ ids | _ => False end.

Lemma waiting_keeps_preference t state actions :
  t ≠ [] → followPreferredTabs state = true → pendingPreferredTabId state = Some t → Forall (waiting t) actions →
  followPreferredTabs (reduceAll state actions) = true ∧ pendingPreferredTabId (reduceAll state actions) = Some t.
Proof.
  intros Hne Hf Hp Hw. revert state Hf Hp. induction Hw as [|a actions Ha _ IH]; intros state Hf Hp; [done|].
  destruct a as [| | | | | |ids]; try done. apply IH; [done|]. cbn [reduceActiveTabSelection pendingPreferredTabId].
  rewrite Hp, decide_False; [done|]. intros [= Heq]. destruct ids as [|first ids]; [cbn in Heq; congruence|].
  apply Ha. rewrite <-Heq. by apply resolve_available.
Qed.

(** The tab that the user chose stays.  After he activated a tab, results
    that prefer or automatically activate other tabs do not take it away as long
    as it is there; when the results are followed instead, a preferred tab becomes
    active as soon as it is there; and the active tab is always one that is
    there. *)
Theorem user_tab_kept state t actions ids :
  t ≠ [] →
  (Forall (automatic t) actions → activeTabId (reduceAll (reduceActiveTabSelection state (ActivateByUser t)) actions) = t) ∧
  (followPreferredTabs state = true → Forall (waiting t) actions → t ∈ ids →
   reduceActiveTabSelection (reduceAll (reduceActiveTabSelection state (Prefer t)) actions) (TabsChanged ids) =
   mkSelection t None true) ∧
  (ids ≠ [] → activeTabId (reduceActiveTabSelection state (TabsChanged ids)) ∈ ids).
Proof.
  intros Hne. split_and!.
  - intros Hauto. cbn [reduceActiveTabSelection]. induction Hauto as [|a actions Ha _ IH]; [done|].
    destruct a as [| | | | | |ids']; try done. cbn [reduceAll fold_left reduceActiveTabSelection activeTabId pendingPreferredTabId].
    rewrite resolve_current by done. by rewrite decide_False.
  - intros Hf Hw Hin. cbn [reduceActiveTabSelection]. rewrite Hf. cbn [negb].
    destruct (waiting_keeps_preference t (mkSelection (activeTabId state) (Some t) true) actions) as [Hf' Hp']; [done..|].
    rewrite Hf', Hp', resolve_preferred by done. by rewrite decide_True.
  - intros Hids. cbn [reduceActiveTabSelection activeTabId]. by apply resolve_available.
Qed.

Lemma user_tab_kept_witness :
  activeTabId (reduceAll (reduceActiveTabSelection (mkSelection [] None true) (ActivateByUser (js "a")))
    [Prefer (js "b"); TabsChanged [js "b"; js "a"]; ActivateAutomatically (js "b")]) = js "a".
Proof.
  apply (user_tab_kept (mkSelection [] None true) (js "a")
    [Prefer (js "b"); TabsChanged [js "b"; js "a"]; ActivateAutomatically (js "b")] []); [done|].
  repeat constructor.
Defined.
