(* ===== verification/SqlTableIdentifier.v ===== *)
(** * SqlTableIdentifier: the database objects named in a statement

    Models [components/SQLEditor/helper/tableIdentifier.ts]: which table, view,
    function or procedure the name under the cursor is, with its schema and
    database, and what the editor underlines.  The parser of the engine says
    which identifiers a statement has and where; the qualified name is found in
    the text around that place with a regular expression, here the scanner
    [identifierMatches]. *)

From S2P Require Import Prelude.
Local Open Scope nat_scope.

(** ** Data *)

Inductive SqlTypeEnum := CREATE_TABLE | CREATE_VIEW | CREATE_FUNCTION | CREATE_PROCEDURE | OtherSql.
Inductive EditorDatabaseObjectType := TABLE | VIEW | FUNCTION | PROCEDURE.

#[export] Instance EditorDatabaseObjectType_eq_dec : EqDecision EditorDatabaseObjectType.
Proof. solve_decision. Defined.

Record PositionRange := mkRange { startRow : Z; startCol : Z; endRow : Z; endCol : Z }.

#[export] Instance PositionRange_eq_dec : EqDecision PositionRange.
Proof. solve_decision. Defined.

(** [parserRange] and [aliasRange] are the fields [identifierStartRowNum], ...
    and [aliasStartRowNum], ...; a missing text is empty. *)
Record SimpleIdentifier := mkIdentifier {
  name : jstr;
  alias : jstr;
  type : jstr;
  identifierDatabase : jstr;
  identifierSchema : jstr;
  identifierTable : jstr;
  parserRange : PositionRange;
  aliasRange : PositionRange;
}.

(** [valid]: the statement type is [VALID]. *)
Record SqlStatement := mkSqlStatement {
  sql : jstr;
  sqlRange : PositionRange;
  sqlType : SqlTypeEnum;
  valid : bool;
  identifiers : list SimpleIdentifier;
}.

(** What the console is bound to; [oracleLike]: the database is Oracle or
    OceanBase in its Oracle mode.  The database type, which is handed on, has no
    other use here. *)
Record IBoundInfo := mkBoundInfo {
  dataSourceId : option Z;
  dataSourceName : option jstr;
  oracleLike : bool;
  boundDatabaseName : option jstr;
  boundSchemaName : option jstr;
}.

Record EditorTableIdentifier := mkTableIdentifier {
  foundDataSourceId : Z;
  foundDataSourceName : option jstr;
  databaseName : option jstr;
  schemaName : option jstr;
  objectType : EditorDatabaseObjectType;
  tableName : jstr;
  identifier : SimpleIdentifier;
  identifierQuoted : bool;
}.

(** ** Names *)

Definition enclosed (o c : N) (text : jstr) : bool := startsWithChar o text && endsWithChar c text.

Definition isQuotedIdentifier (value : jstr) : bool :=
  let name := trim value in
  enclosed (ch "`") (ch "`") name || enclosed 34 34 name || enclosed (ch "[") (ch "]") name.

Definition normalizeIdentifierName (value : jstr) : jstr :=
  let name := trim value in
  if enclosed (ch "`") (ch "`") name || enclosed 34 34 name || enclosed (ch "[") (ch "]") name
  then drop 1 (take (length name - 1) name)
  else name.

Definition normalizeIdentifierNameByDatabaseType (value : jstr) (oracleLike quoted : bool) : jstr :=
  let name := normalizeIdentifierName value in
  if negb (bool_decide (name = [])) && oracleLike && negb quoted then toUpperCase name else name.

Definition isIdentifierNameMatch (candidateName identifierName : jstr) : bool :=
  bool_decide (candidateName = identifierName)
  || (negb (bool_decide (candidateName = [])) && negb (bool_decide (identifierName = []))
      && bool_decide (toLowerCase candidateName = toLowerCase identifierName)).

(** Where [splitQualifiedIdentifier] is: inside quotes, inside brackets. *)
Inductive SplitMode := Outside | InQuote (quote : N) | InBracket.

(** [current] is the part collected so far. *)
Fixpoint splitFrom (mode : SplitMode) (current value : jstr) : list jstr :=
  match value with
  | [] => [trim current]
  | char :: rest =>
      match mode with
      | InQuote quote => splitFrom (if (char =? quote)%N then Outside else mode) (current ++ [char]) rest
      | InBracket => splitFrom (if (char =? ch "]")%N then Outside else mode) (current ++ [char]) rest
      | Outside =>
          if (char =? 34)%N || (char =? ch "`")%N then splitFrom (InQuote char) (current ++ [char]) rest
          else if (char =? ch "[")%N then splitFrom InBracket (current ++ [char]) rest
          else if (char =? ch ".")%N then trim current :: splitFrom Outside [] rest
          else splitFrom Outside (current ++ [char]) rest
      end
  end.

Definition splitQualifiedIdentifier (value : jstr) : list jstr := filter (λ part, part ≠ []) (splitFrom Outside [] value).

Record QualifiedIdentifierPart := mkPart { rawValue : jstr; partName : jstr; quoted : bool }.

Definition createQualifiedIdentifierPart (raw : jstr) : QualifiedIdentifierPart :=
  mkPart raw (normalizeIdentifierName raw) (isQuotedIdentifier raw).

(** [parts[parts.length - k]]. *)
Definition fromEnd (k : nat) (parts : list jstr) : option jstr :=
  if k <=? length parts then parts !! (length parts - k) else None.

Definition getDatabaseName (qualifiedParts : list jstr) : jstr :=
  if 3 <=? length qualifiedParts then default [] (fromEnd 3 qualifiedParts) else [].

Definition getSchemaName (qualifiedParts : list jstr) (identifierDatabase : jstr) : jstr :=
  if 3 <=? length qualifiedParts then default [] (fromEnd 2 qualifiedParts)
  else if (length qualifiedParts =? 2) && bool_decide (identifierDatabase = []) then default [] (head qualifiedParts)
  else [].

(** ** The scanner *)

Definition isNameStart (c : N) : bool :=
  (65 <=? c)%N && (c <=? 90)%N || (97 <=? c)%N && (c <=? 122)%N || (c =? ch "_")%N.
Definition isNameChar (c : N) : bool := isNameStart c || (48 <=? c)%N && (c <=? 57)%N || (c =? ch "$")%N.

Fixpoint nameLength (text : jstr) : nat :=
  match text with c :: text' => if isNameChar c then S (nameLength text') else 0 | [] => 0 end.

(** [(?:qq|[^q])*q] behind an opening quote: the number of characters.  A pair
    of quotes is tried before the end. *)
Fixpoint quotedLength (q : N) (text : jstr) : option nat :=
  match text with
  | [] => None
  | c :: text' =>
      if (c =? q)%N then
        match text' with
        | d :: text'' =>
            if (d =? q)%N then
              match quotedLength q text'' with Some n => Some (S (S n)) | None => Some 1 end
            else Some 1
        | [] => Some 1
        end
      else S <$> quotedLength q text'
  end.

(** [[^\]]+\]] behind an opening bracket. *)
Fixpoint bracketLength (some : bool) (text : jstr) : option nat :=
  match text with
  | [] => None
  | c :: text' => if (c =? ch "]")%N then (if some then Some 1 else None) else S <$> bracketLength true text'
  end.

(** The length of a part at the start of the text. *)
Definition partLength (text : jstr) : option nat :=
  match text with
  | [] => None
  | c :: text' =>
      if (c =? 34)%N || (c =? ch "`")%N then S <$> quotedLength c text'
      else if (c =? ch "[")%N then S <$> bracketLength false text'
      else if isNameStart c then Some (nameLength text) else None
  end.

Fixpoint spacesLength (text : jstr) : nat :=
  match text with c :: text' => if is_space c then S (spacesLength text') else 0 | [] => 0 end.

(** [\s*\.\s*] at the start: its length. *)
Definition dotLength (text : jstr) : option nat :=
  let n := spacesLength text in
  match drop n text with
  | c :: rest => if (c =? ch ".")%N then Some (n + 1 + spacesLength rest) else None
  | [] => None
  end.

(** The parts behind the first one; every round takes a character at least. *)
Fixpoint moreParts (fuel : nat) (text : jstr) : nat :=
  match fuel with
  | O => 0
  | S fuel =>
      match dotLength text with
      | Some n =>
          match partLength (drop n text) with
          | Some m => n + m + moreParts fuel (drop (n + m) text)
          | None => 0
          end
      | None => 0
      end
  end.

Definition qualifiedLength (text : jstr) : option nat :=
  (λ n, n + moreParts (length text) (drop n text)) <$> partLength text.

(** The matches of the regular expression with [exec], as index and text; [skip]
    counts the characters of the last match that are left. *)
Fixpoint identifierMatches (text : jstr) (index skip : nat) : list (nat * jstr) :=
  match text with
  | [] => []
  | _ :: text' =>
      match skip with
      | S skip => identifierMatches text' (S index) skip
      | O =>
          match qualifiedLength text with
          | Some n => (index, take n text) :: identifierMatches text' (S index) (n - 1)
          | None => identifierMatches text' (S index) 0
          end
      end
  end.

(** ** Positions *)

(** A position: line and column. *)
Abbreviation IPosition := (Z * Z)%type.

Definition isPositionInStatement (position : IPosition) (statement : SqlStatement) : bool :=
  let (line, column) := position in
  let r := sqlRange statement in
  ((startRow r <? line) || (line =? startRow r) && (startCol r <=? column))%Z
  && ((line <? endRow r) || (line =? endRow r) && (column <=? endCol r))%Z.

(** A range whose row is [0] is none. *)
Definition isPositionInRange (position : IPosition) (range : PositionRange) : bool :=
  let (line, column) := position in
  if (startRow range =? 0)%Z || (endRow range =? 0)%Z then false
  else
    ((startRow range <? line) || (line =? startRow range) && (startCol range <=? column))%Z
    && ((line <? endRow range) || (line =? endRow range) && (column <=? endCol range))%Z.

Definition isRangeIntersect (left right : PositionRange) : bool :=
  isPositionInRange (startRow left, startCol left) right || isPositionInRange (endRow left, endCol left) right
  || isPositionInRange (startRow right, startCol right) left || isPositionInRange (endRow right, endCol right) left.

(** [text.split(/\r?\n/)]. *)
Fixpoint splitRows (text : jstr) : list jstr :=
  match text with
  | [] => [[]]
  | c :: text' =>
      if (c =? 10)%N then [] :: splitRows text'
      else
        match splitRows text' with
        | l :: ls => if (c =? 13)%N && bool_decide (head text' = Some 10%N) then l :: ls else (c :: l) :: ls
        | [] => [[c]]
        end
  end.

(** An index out of range gives the empty line. *)
Definition getStatementLine (statement : SqlStatement) (r : Z) : jstr :=
  let index := (r - startRow (sqlRange statement))%Z in
  if (0 <=? index)%Z then default [] (splitRows (sql statement) !! Z.to_nat index) else [].

(** ** Identifiers *)

Definition upperType (identifier : SimpleIdentifier) : jstr := toUpperCase (type identifier).

Definition isSupportedDatabaseObjectIdentifier (identifier : SimpleIdentifier) : bool :=
  includes (upperType identifier) [js "TABLE"; js "VIEW"; js "FUNCTION"; js "UDF_FUNCTION"; js "PROCEDURE"].

Definition isRelationIdentifier (identifier : SimpleIdentifier) : bool :=
  includes (upperType identifier) [js "TABLE"; js "VIEW"].

Definition getEditorDatabaseObjectType (type : jstr) : EditorDatabaseObjectType :=
  let normalizedType := toUpperCase type in
  if decide (normalizedType = js "VIEW") then VIEW
  else if decide (normalizedType = js "FUNCTION" ∨ normalizedType = js "UDF_FUNCTION") then FUNCTION
  else if decide (normalizedType = js "PROCEDURE") then PROCEDURE
  else TABLE.

Definition getCreateStatementTargetObjectType (t : SqlTypeEnum) : option EditorDatabaseObjectType :=
  match t with
  | CREATE_TABLE => Some TABLE
  | CREATE_VIEW => Some VIEW
  | CREATE_FUNCTION => Some FUNCTION
  | CREATE_PROCEDURE => Some PROCEDURE
  | OtherSql => None
  end.

(** The object that the statement creates. *)
Definition isStatementDefinitionIdentifier (statement : SqlStatement) (identifier : SimpleIdentifier) : bool :=
  match getCreateStatementTargetObjectType (sqlType statement) with
  | None => false
  | Some target =>
      match js_find (λ item, bool_decide (getEditorDatabaseObjectType (type item) = target)) (identifiers statement) with
      | Some item => bool_decide (parserRange item = parserRange identifier)
      | None => false
      end
  end.

Definition getRelationAliasNames (statement : SqlStatement) : list jstr :=
  filter (λ a, a ≠ []) (map (λ i, normalizeIdentifierName (alias i)) (List.filter isRelationIdentifier (identifiers statement))).

Definition getRelationAliasRanges (statement : SqlStatement) : list PositionRange :=
  filter (λ r, startRow r ≠ 0%Z ∧ endRow r ≠ 0%Z)
    (map aliasRange (List.filter (λ i, isRelationIdentifier i && negb (bool_decide (alias i = []))) (identifiers statement))).

(** A column below [1] is no index of the line, and [line[index]] not a dot. *)
Definition isIdentifierFollowedByDot (statement : SqlStatement) (range : PositionRange) : bool :=
  if (endRow range =? 0)%Z || negb (startRow range =? endRow range)%Z || (endCol range <? 1)%Z then false
  else
    let line := getStatementLine statement (endRow range) in
    bool_decide (head (trimStart (drop (Z.to_nat (endCol range - 1)) line)) = Some (ch ".")).

(** The name is an alias, where it is declared or before a column. *)
Definition isAliasQualifierIdentifier (statement : SqlStatement) (identifier : SimpleIdentifier) : bool :=
  if negb (isRelationIdentifier identifier) then false
  else
    let identifierName := normalizeIdentifierName (name identifier) in
    if negb (existsb (λ aliasName, isIdentifierNameMatch aliasName identifierName) (getRelationAliasNames statement)) then false
    else if existsb (λ aliasRange, isRangeIntersect aliasRange (parserRange identifier)) (getRelationAliasRanges statement)
    then true
    else isIdentifierFollowedByDot statement (parserRange identifier).

Definition isNavigableDatabaseObjectIdentifier (statement : SqlStatement) (identifier : SimpleIdentifier) : bool :=
  if bool_decide (name identifier = []) || negb (isSupportedDatabaseObjectIdentifier identifier) then false
  else negb (isAliasQualifierIdentifier statement identifier) && negb (isStatementDefinitionIdentifier statement identifier).

(** The match of the scanner that ends with the name and meets the place the
    parser names. *)
Definition getSqlQualifiedIdentifierRange (statement : SqlStatement) (identifier : SimpleIdentifier) : option PositionRange :=
  let r := parserRange identifier in
  if bool_decide (sql statement = []) || (startRow r =? 0)%Z || (endRow r =? 0)%Z || negb (startRow r =? endRow r)%Z then None
  else
    let line := getStatementLine statement (startRow r) in
    let tableName := normalizeIdentifierName (or_else (identifierTable identifier) (name identifier)) in
    let candidateRange (m : nat * jstr) :=
      mkRange (startRow r) (Z.of_nat m.1 + 1) (startRow r) (Z.of_nat m.1 + Z.of_nat (length m.2) + 1) in
    candidateRange <$>
      js_find (λ m, isIdentifierNameMatch (default [] (last (map normalizeIdentifierName (splitQualifiedIdentifier m.2)))) tableName
                    && isRangeIntersect r (candidateRange m))
        (identifierMatches line 0 0).

Definition getTableIdentifierRange (statement : SqlStatement) (identifier : SimpleIdentifier) : PositionRange :=
  default (parserRange identifier) (getSqlQualifiedIdentifierRange statement identifier).

Definition getQualifiedIdentifierParts (statement : SqlStatement) (identifier : SimpleIdentifier)
    : list QualifiedIdentifierPart :=
  match getSqlQualifiedIdentifierRange statement identifier with
  | Some r =>
      if negb (startRow r =? endRow r)%Z then []
      else
        let line := getStatementLine statement (startRow r) in
        map createQualifiedIdentifierPart
          (splitQualifiedIdentifier (drop (Z.to_nat (startCol r - 1)) (take (Z.to_nat (endCol r - 1)) line)))
  | None => []
  end.

(** [a || b] for names that may be missing. *)
Definition orName (a : jstr) (b : option jstr) : option jstr := match a with [] => b | _ => Some a end.

Definition findTableIdentifierAtPosition (position : IPosition) (sqlStatementList : list SqlStatement) (dbInfo : IBoundInfo)
    : option EditorTableIdentifier :=
  sourceId ← dataSourceId dbInfo;
  if (sourceId =? 0)%Z then None
  else
    statement ← js_find (λ item, valid item && isPositionInStatement position item) sqlStatementList;
    item ← js_find (λ item, isNavigableDatabaseObjectIdentifier statement item
                            && isPositionInRange position (getTableIdentifierRange statement item)) (identifiers statement);
    let normalized value quoted := normalizeIdentifierNameByDatabaseType value (oracleLike dbInfo) quoted in
    let qualifiedParts := getQualifiedIdentifierParts statement item in
    let names := map (λ part, normalized (partName part) (quoted part)) qualifiedParts in
    let tablePart := last qualifiedParts in
    let partTable := match tablePart with Some part => normalized (partName part) (quoted part) | None => [] end in
    Some (mkTableIdentifier sourceId (dataSourceName dbInfo)
      (orName (getDatabaseName names)
         (orName (normalized (identifierDatabase item) (isQuotedIdentifier (identifierDatabase item))) (boundDatabaseName dbInfo)))
      (orName (getSchemaName names (identifierDatabase item))
         (orName (normalized (identifierSchema item) (isQuotedIdentifier (identifierSchema item))) (boundSchemaName dbInfo)))
      (getEditorDatabaseObjectType (type item))
      (or_else partTable (normalized (name item) (isQuotedIdentifier (name item))))
      item
      (match tablePart with Some part => quoted part | None => false end || isQuotedIdentifier (name item))).

(** An underlined range, with the line and column of its ends. *)
Definition getTableIdentifierUnderlineRanges (sqlStatementList : list SqlStatement) : list PositionRange :=
  List.filter valid sqlStatementList ≫= (λ statement,
    filter (λ range, startRow range ≠ 0%Z ∧ endRow range ≠ 0%Z)
      (map (getTableIdentifierRange statement)
         (List.filter (isNavigableDatabaseObjectIdentifier statement) (identifiers statement)))).

(** ** Written names *)

(** A part of a qualified name as the user writes it, and with it the white
    space before and behind the dot in front of it. *)
Inductive WrittenPart := Bare (text : jstr) | Quoted (q : N) (text : jstr) | Bracketed (text : jstr).

(** Quotes inside quotes are doubled. *)
Definition doubled (q : N) (text : jstr) : jstr := text ≫= λ c, if (c =? q)%N then [c; c] else [c].

Definition writtenName (p : WrittenPart) : jstr :=
  match p with Bare s => s | Quoted q s => doubled q s | Bracketed s => s end.

Definition writtenText (p : WrittenPart) : jstr :=
  match p with
  | Bare s => s
  | Quoted q s => q :: doubled q s ++ [q]
  | Bracketed s => ch "[" :: s ++ [ch "]"]
  end.

Definition writtenPart (p : WrittenPart) : QualifiedIdentifierPart :=
  mkPart (writtenText p) (writtenName p) (match p with Bare _ => false | _ => true end).

Definition wellWritten (p : WrittenPart) : Prop :=
  match p with
  | Bare s => ∃ c s', s = c :: s' ∧ isNameStart c = true ∧ Forall (λ d, isNameChar d = true) s'
  | Quoted q s => q = 34%N ∨ q = ch "`"
  | Bracketed s => s ≠ [] ∧ ch "]" ∉ s
  end.

(** The text behind does not go on with the part. *)
Definition partEnds (p : WrittenPart) (post : jstr) : Prop :=
  match p with
  | Bare _ => ∀ c, head post = Some c → isNameChar c = false
  | Quoted q _ => head post ≠ Some q
  | Bracketed _ => True
  end.

Definition writeRest (rest : list (jstr * jstr * WrittenPart)) : jstr :=
  rest ≫= λ '(a, b, p), a ++ ch "." :: b ++ writtenText p.

Definition wellSpaced (x : jstr * jstr * WrittenPart) : Prop := blank x.1.1 ∧ blank x.1.2 ∧ wellWritten x.2.

Definition lastPart (p : WrittenPart) (rest : list (jstr * jstr * WrittenPart)) : WrittenPart :=
  default p (last (map snd rest)).

(** ** Lemmas *)

Lemma name_char_not_space c : isNameChar c = true → is_space c = false.
Proof.
  intros H. apply not_true_is_false. revert H. unfold isNameChar, isNameStart, is_space.
  change (ch "_") with 95%N. change (ch "$") with 36%N.
  rewrite !orb_true_iff, !andb_true_iff, !N.leb_le, !N.eqb_eq. lia.
Qed.

Lemma name_char_ordinary c :
  isNameChar c = true → (c =? 34)%N = false ∧ (c =? ch "`")%N = false ∧ (c =? ch "[")%N = false ∧ (c =? ch ".")%N = false.
Proof.
  unfold isNameChar, isNameStart. change (ch "_") with 95%N. change (ch "$") with 36%N.
  change (ch "`") with 96%N. change (ch "[") with 91%N. change (ch ".") with 46%N.
  rewrite !orb_true_iff, !andb_true_iff, !N.leb_le, !N.eqb_eq, !N.eqb_neq. lia.
Qed.

Lemma name_start_char c : isNameStart c = true → isNameChar c = true.
Proof. unfold isNameChar. by intros ->. Qed.

Lemma solid_written p : wellWritten p → solid (writtenText p).
Proof.
  assert (Henc : ∀ o c m, is_space o = false → is_space c = false → solid (o :: m ++ [c])).
  { intros o c m Ho Hc. split; [by eauto|]. by exists (o :: m), c. }
  destruct p as [s|q s|s]; cbn.
  - intros (c & s' & -> & Hc & Hs). apply name_start_char in Hc. split.
    + eexists _, _. split; [done|]. by apply name_char_not_space.
    + destruct s' as [|d s' _] using rev_ind; [exists [], c; by auto using name_char_not_space|].
      exists (c :: s'), d. split; [done|]. apply Forall_app in Hs as [_ Hd]. inversion Hd. by apply name_char_not_space.
  - intros [-> | ->]; by apply Henc.
  - intros _. by apply Henc.
Qed.

Lemma nameLength_spec s post :
  Forall (λ d, isNameChar d = true) s → (∀ c, head post = Some c → isNameChar c = false) →
  nameLength (s ++ post) = length s.
Proof.
  intros Hs Hpost. induction Hs as [|c s Hc _ IH]; cbn; [|by rewrite Hc, IH].
  destruct post as [|c post]; cbn; [done|]. by rewrite (Hpost c).
Qed.

Lemma quotedLength_spec q s post :
  head post ≠ Some q → quotedLength q (doubled q s ++ q :: post) = Some (S (length (doubled q s))).
Proof.
  intros Hpost. induction s as [|c s IH].
  - cbn. rewrite N.eqb_refl. destruct post as [|d post]; [done|]. cbn in Hpost.
    rewrite (proj2 (N.eqb_neq d q)) by congruence. done.
  - unfold doubled in *. cbn. destruct (c =? q)%N eqn:E; cbn; rewrite E.
    + by rewrite IH.
    + by rewrite IH.
Qed.

Lemma bracketLength_spec s b post :
  ch "]" ∉ s → (b = true ∨ s ≠ []) → bracketLength b (s ++ ch "]" :: post) = Some (S (length s)).
Proof.
  intros Hs. revert b. induction s as [|c s IH]; intros b Hb; cbn [app bracketLength length].
  - rewrite N.eqb_refl. by destruct Hb as [-> | ].
  - apply not_elem_of_cons in Hs as [Hc Hs]. rewrite (proj2 (N.eqb_neq c _)) by congruence.
    rewrite IH by auto. done.
Qed.

Lemma partLength_written p post :
  wellWritten p → partEnds p post → partLength (writtenText p ++ post) = Some (length (writtenText p)).
Proof.
  destruct p as [s|q s|s]; intros Hw Hends; cbn [wellWritten partEnds writtenText] in *.
  - destruct Hw as (c & s' & -> & Hc & Hs). cbn [app partLength].
    destruct (name_char_ordinary c (name_start_char _ Hc)) as (-> & -> & -> & _). cbn [orb]. rewrite Hc.
    change (c :: s' ++ post) with ((c :: s') ++ post). rewrite nameLength_spec; [done| |done].
    constructor; [by apply name_start_char|done].
  - cbn [app partLength length]. rewrite <-app_assoc. cbn [app].
    rewrite quotedLength_spec by done. rewrite length_app, Nat.add_1_r. by destruct Hw as [-> | ->].
  - destruct Hw as [Hne Hw]. cbn [app partLength length]. rewrite <-app_assoc. cbn [app].
    rewrite bracketLength_spec by auto. by rewrite length_app, Nat.add_1_r.
Qed.

Lemma spacesLength_spec a t :
  blank a → (∀ c, head t = Some c → is_space c = false) → spacesLength (a ++ t) = length a.
Proof.
  intros Ha Ht. induction Ha as [|c a Hc _ IH]; cbn; [|by rewrite Hc, IH].
  destruct t as [|c t]; cbn; [done|]. by rewrite (Ht c).
Qed.

Lemma dotLength_spec a b t :
  blank a → blank b → (∀ c, head t = Some c → is_space c = false) →
  dotLength (a ++ ch "." :: b ++ t) = Some (length a + 1 + length b).
Proof.
  intros Ha Hb Ht. unfold dotLength. rewrite spacesLength_spec by (done || by intros c [= <-]).
  rewrite drop_app_length. by rewrite N.eqb_refl, spacesLength_spec.
Qed.

(** A part ends where the next one, with its dot, starts. *)
Lemma partEnds_rest p x rest post :
  wellSpaced x → wellWritten p → partEnds p (writeRest (x :: rest) ++ post).
Proof.
  destruct x as [[a b] p2]. intros (Ha & _ & _) Hp. cbn [fst snd] in *.
  assert (Hhead : ∀ c, head (writeRest ((a, b, p2) :: rest) ++ post) = Some c → is_space c = true ∨ c = ch ".").
  { intros c. unfold writeRest. cbn. destruct Ha as [|d a Hd]; cbn; intros [= <-]; auto. }
  destruct p as [s|q s|s]; cbn [partEnds]; [| |done].
  - intros c [Hc | ->]%Hhead; [|done]. apply not_true_is_false. intros E%name_char_not_space. congruence.
  - intros [Hc | ->]%Hhead; cbn in Hp; [|by destruct Hp].
    by destruct Hp as [-> | ->].
Qed.

(** No further dot and part stand behind. *)
Definition nameStops (post : jstr) : Prop := ∀ n, dotLength post = Some n → partLength (drop n post) = None.

Lemma lastPart_cons p x rest : lastPart p (x :: rest) = lastPart x.2 rest.
Proof.
  unfold lastPart. cbn [map]. induction (map snd rest) as [|y l _] using rev_ind; [done|].
  by rewrite app_comm_cons, !last_snoc.
Qed.

Lemma moreParts_written p rest post fuel :
  wellWritten p → Forall wellSpaced rest → partEnds (lastPart p rest) post → nameStops post →
  length rest ≤ fuel → moreParts fuel (writeRest rest ++ post) = length (writeRest rest).
Proof.
  intros Hp Hrest Hends Hstop. revert p fuel Hp Hends.
  induction Hrest as [|x rest Hx Hrest IH]; intros p fuel Hp Hends Hf.
  - destruct fuel as [|fuel]; cbn [moreParts writeRest mbind list_bind app length]; [done|].
    destruct (dotLength post) as [n|] eqn:E; [|done]. by rewrite (Hstop n).
  - destruct fuel as [|fuel]; cbn [length] in Hf; [lia|].
    assert (Hends' : partEnds x.2 (writeRest rest ++ post)).
    { destruct Hrest as [|y rest Hy _]; [done|]. apply partEnds_rest; [done|]. by apply Hx. }
    destruct x as [[a b] p2]. destruct Hx as (Ha & Hb & Hw). cbn [fst snd] in *.
    assert (Heq : writeRest ((a, b, p2) :: rest) ++ post = a ++ ch "." :: b ++ writtenText p2 ++ writeRest rest ++ post).
    { unfold writeRest. cbn [mbind list_bind]. by rewrite <-!app_assoc, <-app_comm_cons, <-!app_assoc. }
    cbn [moreParts]. rewrite Heq, dotLength_spec; [|done..|].
    2: { destruct (solid_written p2 Hw) as [(c & t & -> & Hc) _]. by intros d [= <-]. }
    assert (Hdrop : ∀ k, drop (length a + 1 + length b + k) (a ++ ch "." :: b ++ writtenText p2 ++ writeRest rest ++ post)
                    = drop k (writtenText p2 ++ writeRest rest ++ post)).
    { intros k.
      replace (length a + 1 + length b + k) with (length a + S (length b + k)) by lia.
      rewrite drop_app_add. cbn [drop]. by rewrite drop_app_add. }
    replace (length a + 1 + length b) with (length a + 1 + length b + 0) at 1 by lia.
    rewrite (Hdrop 0), drop_0, partLength_written by done. rewrite Hdrop, drop_app_length, (IH p2); [|done| |lia].
    2: by rewrite <-(lastPart_cons p (a, b, p2)).
    unfold writeRest. cbn [mbind list_bind]. rewrite !length_app. cbn [length]. rewrite !length_app. lia.
Qed.

(** A written name is taken as one match, and the scan goes on behind it. *)
Lemma matches_skip a post i : identifierMatches (a ++ post) i (length a) = identifierMatches post (i + length a) 0.
Proof.
  revert i. induction a as [|c a IH]; intros i; cbn; [by rewrite Nat.add_0_r|].
  rewrite IH. f_equal. lia.
Qed.

Lemma matches_match m post i :
  m ≠ [] → qualifiedLength (m ++ post) = Some (length m) →
  identifierMatches (m ++ post) i 0 = (i, m) :: identifierMatches post (i + length m) 0.
Proof.
  intros Hne Hq. destruct m as [|c m]; [done|]. cbn [app identifierMatches] in *. rewrite Hq.
  change (c :: m ++ post) with ((c :: m) ++ post). rewrite take_app_length. f_equal.
  cbn [length]. rewrite Nat.sub_1_r. cbn [Nat.pred]. rewrite matches_skip. f_equal. lia.
Qed.

Lemma qualified_written p rest post :
  wellWritten p → Forall wellSpaced rest → partEnds (lastPart p rest) post → nameStops post →
  qualifiedLength ((writtenText p ++ writeRest rest) ++ post) = Some (length (writtenText p ++ writeRest rest)).
Proof.
  intros Hp Hrest Hends Hstop. unfold qualifiedLength. rewrite <-app_assoc, partLength_written; [|done|].
  - cbn. rewrite drop_app_length, (moreParts_written p); [by rewrite length_app|done..|].
    rewrite !length_app. enough (length rest ≤ length (writeRest rest)) by lia.
    clear. induction rest as [|[[a b] q] rest IH]; cbn; [lia|].
    unfold writeRest in IH. rewrite !length_app. cbn. rewrite !length_app. lia.
  - destruct Hrest as [|x rest Hx _]; [done|]. by apply partEnds_rest.
Qed.

(** ** Splitting *)

Lemma split_plain cur s t :
  Forall (λ c, (c =? 34)%N = false ∧ (c =? ch "`")%N = false ∧ (c =? ch "[")%N = false ∧ (c =? ch ".")%N = false) s →
  splitFrom Outside cur (s ++ t) = splitFrom Outside (cur ++ s) t.
Proof.
  intros Hs. revert cur. induction Hs as [|c s (H1 & H2 & H3 & H4) _ IH]; intros cur; cbn [app splitFrom].
  - by rewrite app_nil_r.
  - rewrite H1, H2, H3, H4. cbn [orb]. rewrite IH. by rewrite <-app_assoc.
Qed.

Lemma split_blank cur s t : blank s → splitFrom Outside cur (s ++ t) = splitFrom Outside (cur ++ s) t.
Proof.
  intros Hs. apply split_plain. eapply Forall_impl; [exact Hs|]. intros c Hc. cbn in Hc.
  revert Hc. unfold is_space. rewrite !orb_true_iff, !andb_true_iff, !N.leb_le, !N.eqb_eq, !N.eqb_neq.
  change (ch "`") with 96%N. change (ch "[") with 91%N. change (ch ".") with 46%N. lia.
Qed.

Lemma split_quoted q s cur t :
  q = 34%N ∨ q = ch "`" →
  splitFrom (InQuote q) cur (doubled q s ++ q :: t) = splitFrom Outside (cur ++ doubled q s ++ [q]) t.
Proof.
  intros Hq. revert cur. induction s as [|c s IH]; intros cur.
  - cbn. by rewrite N.eqb_refl.
  - unfold doubled in *. cbn [mbind list_bind]. destruct (c =? q)%N eqn:E; cbn [app splitFrom]; rewrite E.
    + apply N.eqb_eq in E as ->. assert ((q =? 34)%N || (q =? ch "`")%N = true) as -> by (by destruct Hq as [-> | ->]).
      rewrite IH. by rewrite <-!app_assoc.
    + rewrite IH. by rewrite <-!app_assoc.
Qed.

Lemma split_bracketed s cur t :
  ch "]" ∉ s → splitFrom InBracket cur (s ++ ch "]" :: t) = splitFrom Outside (cur ++ s ++ [ch "]"]) t.
Proof.
  revert cur. induction s as [|c s IH]; intros cur Hs; cbn [app splitFrom]; [by rewrite N.eqb_refl|].
  apply not_elem_of_cons in Hs as [Hc Hs]. rewrite (proj2 (N.eqb_neq c _)) by congruence.
  rewrite IH by done. by rewrite <-!app_assoc.
Qed.

Lemma split_written p cur t :
  wellWritten p → splitFrom Outside cur (writtenText p ++ t) = splitFrom Outside (cur ++ writtenText p) t.
Proof.
  destruct p as [s|q s|s]; cbn [wellWritten writtenText].
  - intros (c & s' & -> & Hc & Hs). apply split_plain.
    constructor; [by apply name_char_ordinary, name_start_char|]. eapply Forall_impl; [exact Hs|].
    intros d Hd. by apply name_char_ordinary.
  - intros Hq. cbn [app splitFrom]. assert ((q =? 34)%N || (q =? ch "`")%N = true) as -> by (by destruct Hq as [-> | ->]).
    rewrite <-app_assoc. cbn [app]. rewrite split_quoted by done. by rewrite <-app_assoc.
  - intros [_ Hs]. cbn [app]. rewrite <-app_assoc. cbn [app splitFrom].
    change ((ch "[" =? 34)%N || (ch "[" =? ch "`")%N) with false. rewrite N.eqb_refl.
    rewrite split_bracketed by done. by rewrite <-app_assoc.
Qed.

Lemma split_rest b p rest :
  blank b → wellWritten p → Forall wellSpaced rest →
  splitFrom Outside (b ++ writtenText p) (writeRest rest) = writtenText p :: map (λ x, writtenText x.2) rest.
Proof.
  intros Hb Hp Hrest. revert b p Hb Hp. induction Hrest as [|[[a b'] p'] rest (Ha & Hb' & Hp') _ IH]; intros b p Hb Hp.
  - cbn. pose proof (trim_solid b (writtenText p) [] Hb (solid_written _ Hp)) as Ht. rewrite app_nil_r in Ht.
    rewrite Ht; [done|]. constructor.
  - unfold writeRest in *. cbn [mbind list_bind map fst snd] in *. rewrite <-app_assoc, split_blank by done.
    cbn [app splitFrom]. change ((ch "." =? 34)%N || (ch "." =? ch "`")%N) with false.
    change (ch "." =? ch "[")%N with false. rewrite N.eqb_refl. f_equal.
    + rewrite <-app_assoc. apply trim_solid; [done| |done]. by apply solid_written.
    + rewrite <-app_assoc, split_blank, split_written by done. by apply IH.
Qed.

Lemma written_not_empty p : wellWritten p → writtenText p ≠ [].
Proof. intros [(c & t & -> & _) _]%solid_written. done. Qed.

Lemma split_qualified p rest :
  wellWritten p → Forall wellSpaced rest →
  splitQualifiedIdentifier (writtenText p ++ writeRest rest) = writtenText p :: map (λ x, writtenText x.2) rest.
Proof.
  intros Hp Hrest. unfold splitQualifiedIdentifier. rewrite split_written by done.
  rewrite (split_rest []) by (done || constructor).
  assert (Hall : Forall (λ t, t ≠ []) (writtenText p :: map (λ x, writtenText x.2) rest)).
  { constructor; [by apply written_not_empty|]. apply Forall_map. eapply Forall_impl; [exact Hrest|].
    intros x (_ & _ & Hx). by apply written_not_empty. }
  clear -Hall. induction Hall as [|t l Ht _ IH]; [done|]. rewrite filter_cons_True by done. by rewrite IH.
Qed.

Lemma enclosed_middle o c m : enclosed o c (o :: m ++ [c]) = true.
Proof.
  unfold enclosed, startsWithChar, endsWithChar. cbn [head]. rewrite app_comm_cons, last_snoc.
  by rewrite !bool_decide_eq_true_2.
Qed.

Lemma enclosed_head o c d t : d ≠ o → enclosed o c (d :: t) = false.
Proof. intros H. unfold enclosed, startsWithChar. cbn [head]. by rewrite bool_decide_eq_false_2 by congruence. Qed.

Lemma slice_middle (o c : N) m : drop 1 (take (length (o :: m ++ [c]) - 1) (o :: m ++ [c])) = m.
Proof.
  cbn [length]. rewrite length_app, Nat.sub_1_r. cbn [Nat.pred length]. rewrite Nat.add_1_r. cbn [take drop].
  by rewrite drop_0, take_app_length.
Qed.

Lemma create_written p : wellWritten p → createQualifiedIdentifierPart (writtenText p) = writtenPart p.
Proof.
  intros Hp. unfold createQualifiedIdentifierPart, writtenPart, normalizeIdentifierName, isQuotedIdentifier.
  pose proof (trim_solid [] (writtenText p) [] (Forall_nil_2 _) (solid_written p Hp) (Forall_nil_2 _)) as Ht.
  rewrite app_nil_r in Ht. cbn [app] in Ht. rewrite Ht.
  destruct p as [s|q s|s]; cbn [wellWritten writtenText writtenName] in *.
  - destruct Hp as (c & s' & -> & Hc & _). destruct (name_char_ordinary c (name_start_char _ Hc)) as (H1 & H2 & H3 & _).
    by rewrite !enclosed_head by (by apply N.eqb_neq).
  - destruct Hp as [-> | ->]; by rewrite slice_middle, enclosed_middle, ?orb_true_r.
  - by rewrite slice_middle, enclosed_middle, !orb_true_r.
Qed.

(** A qualified name is read back as it was written.  Parts that are bare,
    quoted (quotes inside doubled) or bracketed, joined by dots with any white
    space around them, are one match of the scanner, which goes on behind the
    name, and splitting the match gives the parts: their text, the name inside
    the quotes (as written, a quote inside still doubled) and whether they are
    quoted. *)
Theorem qualified_name_roundtrip p rest post i :
  wellWritten p → Forall wellSpaced rest → partEnds (lastPart p rest) post → nameStops post →
  let written := writtenText p ++ writeRest rest in
  identifierMatches (written ++ post) i 0 = (i, written) :: identifierMatches post (i + length written) 0 ∧
  map createQualifiedIdentifierPart (splitQualifiedIdentifier written) = writtenPart p :: map (λ x, writtenPart x.2) rest.
Proof.
  intros Hp Hrest Hends Hstop. cbn zeta. split.
  - apply matches_match; [|by apply qualified_written].
    by intros [?%(written_not_empty _ Hp) _]%app_eq_nil.
  - rewrite split_qualified by done. cbn [map]. rewrite create_written by done. f_equal. rewrite map_map.
    apply map_ext_Forall. eapply Forall_impl; [exact Hrest|]. intros x (_ & _ & Hx). by apply create_written.
Qed.

Lemma qualified_name_roundtrip_witness :
  map createQualifiedIdentifierPart (splitQualifiedIdentifier (js "db . `my``schema`.[a b]"))
  = [mkPart (js "db") (js "db") false; mkPart (js "`my``schema`") (js "my``schema") true; mkPart (js "[a b]") (js "a b") true].
Proof.
  apply (qualified_name_roundtrip (Bare (js "db"))
    [(js " ", js " ", Quoted (ch "`") (js "my`schema")); ([], [], Bracketed (js "a b"))] (js " where") 7).
  - exists (ch "d"), (js "b"). split; [reflexivity|]. split; [reflexivity|]. repeat constructor.
  - constructor; [split_and!; [repeat constructor|repeat constructor|by right]|].
    constructor; [|constructor]. split_and!; [constructor|constructor|]. split; [done|].
    by apply (bool_decide_unpack _); vm_compute.
  - exact I.
  - intros n. by vm_compute.
Defined.

(** ** Navigation *)

Lemma underline_ranges_elem statement r :
  r ∈ getTableIdentifierUnderlineRanges [statement] ↔
  valid statement = true ∧ startRow r ≠ 0%Z ∧ endRow r ≠ 0%Z ∧
  ∃ item, item ∈ identifiers statement ∧ isNavigableDatabaseObjectIdentifier statement item = true ∧
    r = getTableIdentifierRange statement item.
Proof.
  unfold getTableIdentifierUnderlineRanges. cbn [List.filter]. destruct (valid statement).
  - cbn [mbind list_bind]. rewrite app_nil_r, list_elem_of_filter, list_elem_of_In, in_map_iff.
    setoid_rewrite filter_In. setoid_rewrite <-list_elem_of_In. naive_solver.
  - cbn. rewrite elem_of_nil. naive_solver.
Qed.

Lemma in_range_rows position r : isPositionInRange position r = true → startRow r ≠ 0%Z ∧ endRow r ≠ 0%Z.
Proof.
  destruct position as [line column]. unfold isPositionInRange.
  destruct (startRow r =? 0)%Z eqn:E1; [done|]. destruct (endRow r =? 0)%Z eqn:E2; [done|]. cbn. lia.
Qed.

Lemma navigable_parts statement item :
  isNavigableDatabaseObjectIdentifier statement item = true →
  isAliasQualifierIdentifier statement item = false ∧ isStatementDefinitionIdentifier statement item = false.
Proof. unfold isNavigableDatabaseObjectIdentifier. case_test; [done|]. intros H. by to_prop. Qed.

Lemma find_spec position stmts db found :
  findTableIdentifierAtPosition position stmts db = Some found →
  ∃ statement, js_find (λ item, valid item && isPositionInStatement position item) stmts = Some statement ∧
    js_find (λ item, isNavigableDatabaseObjectIdentifier statement item
                     && isPositionInRange position (getTableIdentifierRange statement item)) (identifiers statement)
    = Some (identifier found) ∧ Some (foundDataSourceId found) = dataSourceId db.
Proof.
  unfold findTableIdentifierAtPosition. destruct (dataSourceId db) as [n|]; [|done]. cbn [mbind option_bind].
  destruct (n =? 0)%Z; [done|]. destruct (js_find _ stmts) as [statement|]; [|done]. cbn [mbind option_bind].
  destruct (js_find _ (identifiers statement)) as [item|] eqn:E; [|done]. cbn [mbind option_bind].
  intros [= <-]. eauto.
Qed.

(** What is underlined is what a click opens.  For a console with a data
    source, the click finds an object exactly when its position is in one of the
    ranges underlined in the first valid statement around it, and the object it
    finds is the first identifier of that statement, navigable (no alias, not the
    object the statement creates), whose underlined range has the position. *)
Theorem click_opens_underlined position stmts db :
  default 0%Z (dataSourceId db) ≠ 0%Z →
  (is_Some (findTableIdentifierAtPosition position stmts db) ↔
   ∃ statement, js_find (λ item, valid item && isPositionInStatement position item) stmts = Some statement ∧
     ∃ r, r ∈ getTableIdentifierUnderlineRanges [statement] ∧ isPositionInRange position r = true) ∧
  (∀ found, findTableIdentifierAtPosition position stmts db = Some found →
   ∃ statement, statement ∈ stmts ∧ identifier found ∈ identifiers statement ∧
     getTableIdentifierRange statement (identifier found) ∈ getTableIdentifierUnderlineRanges stmts ∧
     isAliasQualifierIdentifier statement (identifier found) = false ∧
     isStatementDefinitionIdentifier statement (identifier found) = false).
Proof.
  intros Hsource. split; [split|].
  - intros [found (statement & Hs & Hi & _)%find_spec]. exists statement. split; [done|].
    apply js_find_Some in Hi as [Hin H]. to_prop. apply js_find_Some in Hs as [_ Hv]. to_prop.
    eexists. split; [|eassumption]. apply underline_ranges_elem. pose proof (in_range_rows _ _ H0). naive_solver.
  - intros (statement & Hs & r & Hr & Hpos). apply underline_ranges_elem in Hr as (_ & _ & _ & item & Hin & Hnav & ->).
    unfold findTableIdentifierAtPosition. destruct (dataSourceId db) as [n|]; [|done]. cbn [mbind option_bind].
    rewrite (proj2 (Z.eqb_neq n 0)) by done. rewrite Hs. cbn [mbind option_bind].
    destruct (js_find_is_Some (λ item, isNavigableDatabaseObjectIdentifier statement item
                && isPositionInRange position (getTableIdentifierRange statement item)) _ _ Hin) as [item' ->];
      [by rewrite Hnav, Hpos|]. cbn [mbind option_bind]. by eexists.
  - intros found (statement & Hs & Hi & _)%find_spec. apply js_find_Some in Hi as [Hin H]. to_prop.
    apply js_find_Some in Hs as [Hst Hv]. to_prop. exists statement. split_and!; [done|done| |..].
    + pose proof (proj2 (underline_ranges_elem statement (getTableIdentifierRange statement (identifier found)))) as Hu.
      pose proof (in_range_rows _ _ H0) as [? ?]. unfold getTableIdentifierUnderlineRanges in *.
      apply list_elem_of_bind. exists statement. split.
      * cbn [List.filter] in Hu. rewrite H1 in Hu. cbn [mbind list_bind] in Hu. rewrite app_nil_r in Hu. apply Hu.
        naive_solver.
      * apply list_elem_of_In, filter_In. by rewrite <-list_elem_of_In.
    + by apply navigable_parts in H as [? _].
    + by apply navigable_parts in H as [_ ?].
Qed.

(** [select * from dbo . [Order Details] o], with the table at the columns 21
    to 36. *)
Definition sampleStatement : SqlStatement :=
  let none := mkRange 0 0 0 0 in
  mkSqlStatement (js "select * from dbo . [Order Details] o") (mkRange 3 1 3 38) OtherSql true
    [mkIdentifier (js "[Order Details]") (js "o") (js "table") [] [] [] (mkRange 3 21 3 36) (mkRange 3 37 3 38)].

Definition sampleBound : IBoundInfo := mkBoundInfo (Some 7%Z) None true (Some (js "sales")) None.

Example sample_found :
  (λ f, (databaseName f, schemaName f, tableName f, identifierQuoted f)) <$>
    findTableIdentifierAtPosition (3%Z, 16%Z) [sampleStatement] sampleBound =
  Some (Some (js "sales"), Some (js "DBO"), js "Order Details", true).
Proof. by vm_compute. Qed.

(** The name of a part is normalized twice: brackets that belong to the name of
    a quoted table go too. *)
Lemma name_normalized_twice :
  let part := createQualifiedIdentifierPart (34%N :: js "[Order]" ++ [34%N]) in
  partName part = js "[Order]" ∧ normalizeIdentifierNameByDatabaseType (partName part) false (quoted part) = js "Order".
Proof. by vm_compute. Qed.

Lemma click_opens_underlined_witness :
  is_Some (findTableIdentifierAtPosition (3%Z, 16%Z) [sampleStatement] sampleBound).
Proof.
  apply (click_opens_underlined (3%Z, 16%Z) [sampleStatement] sampleBound); [done|].
  exists sampleStatement. split; [by vm_compute|]. exists (mkRange 3 15 3 36). split; [|by vm_compute].
  apply (bool_decide_unpack _). by vm_compute.
Defined.
