(* ===== verification/TreeNodes.v ===== *)
(** * TreeNodes: the nodes of the object tree

    Models [TreeNodeData] and [IExtraParams] of [typings/tree.ts] with the node
    types of [constants/tree.ts]; fields that are only displayed (the colour and
    the watermark of a data source) are left out.  [preorders] lists the nodes
    of a forest in the order of a depth-first walk. *)

From S2P Require Import Prelude.
Local Open Scope nat_scope.

Inductive TreeNodeType :=
  | GROUPS | GROUP | SCHEMAS | ALL_DATA | DATA_SOURCES | DATA_SOURCE | MONITOR | ACTIVE_TRANSACTIONS | DATABASE_ACCOUNTS
  | DATABASE_ACCOUNT | DATABASE | SCHEMA | TABLES | TABLE | COLUMNS | COLUMN | KEYS | KEY | INDEXES | INDEX | VIEWS | VIEW
  | VIEWCOLUMN | VIEWCOLUMNS | FUNCTIONS | FUNCTION | PROCEDURES | PROCEDURE | TRIGGERS | TRIGGER | SAVE_CONSOLES | SAVE_CONSOLE.

#[export] Instance TreeNodeType_eq_dec : EqDecision TreeNodeType.
Proof. solve_decision. Defined.

Record IExtraParams := mkExtraParams {
  dataSourceId : option Z;
  databaseType : option jstr;
  databaseName : option jstr;
  schemaName : option jstr;
  hasPermission : bool;
  tableName : option jstr;
  viewName : option jstr;
  functionName : option jstr;
  procedureName : option jstr;
  triggerName : option jstr;
  user : option jstr;
  host : option jstr;
  popoverContent : option jstr;
  savedConsole : option (jstr * option jstr * bool);  (* status, ddl, connectable *)
  refreshParam : option bool;  (* [refresh], that a load adds *)
}.

Record DecorativeParams := mkDecorative { pinned : option bool; comment : option jstr }.

Record NodeData := mkNodeData {
  key : jstr;
  originalTitle : jstr;
  describe : option jstr;
  treeNodeType : TreeNodeType;
  extraParams : IExtraParams;
  isLeaf : bool;
  childCount : option Z;
  nodeId : option Z;
  decorativeParams : option DecorativeParams;
  columnType : option jstr;
  columnComment : option jstr;
}.

(** A node: its own fields and [children], which can be missing. *)
Inductive TreeNodeData := TreeNode (data : NodeData) (children : option (list TreeNodeData)).

Definition nodeData (n : TreeNodeData) : NodeData := let (d, _) := n in d.
Definition nodeChildren (n : TreeNodeData) : option (list TreeNodeData) := let (_, cs) := n in cs.
Definition childList (n : TreeNodeData) : list TreeNodeData := default [] (nodeChildren n).
Definition nodeKey (n : TreeNodeData) : jstr := key (nodeData n).

(** Induction with the hypothesis for the children. *)
Lemma tree_ind' (P : TreeNodeData → Prop) :
  (∀ d, P (TreeNode d None)) →
  (∀ d cs, Forall P cs → P (TreeNode d (Some cs))) →
  ∀ n, P n.
Proof.
  intros Hnone Hsome. fix IH 1. intros [d [cs|]]; [|apply Hnone].
  apply Hsome. induction cs as [|c cs IHcs]; constructor; [apply IH|exact IHcs].
Qed.

(** The nodes of a tree, each after the node above it. *)
Fixpoint preorder (n : TreeNodeData) : list TreeNodeData :=
  n :: match n with
       | TreeNode _ (Some cs) => (fix forest cs := match cs with [] => [] | c :: cs' => preorder c ++ forest cs' end) cs
       | TreeNode _ None => []
       end.

Definition preorders (ns : list TreeNodeData) : list TreeNodeData := flat_map preorder ns.

Lemma preorder_unfold n : preorder n = n :: preorders (childList n).
Proof. by destruct n as [d [cs|]]. Qed.

(** The for loop over an array that returns the first result. *)
Section first_some.
Context {A B : Type} (f : A → option B).

Fixpoint firstSome (l : list A) : option B :=
  match l with
  | [] => None
  | x :: l' => match f x with Some y => Some y | None => firstSome l' end
  end.
End first_some.

Lemma preorders_cons n ns : preorders (n :: ns) = preorder n ++ preorders ns.
Proof. done. Qed.

Lemma preorders_app ns ns' : preorders (ns ++ ns') = preorders ns ++ preorders ns'.
Proof. apply flat_map_app. Qed.

Lemma elem_of_preorders n ns : n ∈ preorders ns ↔ ∃ r, r ∈ ns ∧ n ∈ preorder r.
Proof.
  induction ns as [|r ns IH]; [split; [by intros ?%not_elem_of_nil|intros (?&?%not_elem_of_nil&_); done]|].
  rewrite preorders_cons, elem_of_app, IH. split.
  - intros [Hn|(r'&Hr&Hn)]; [exists r|exists r']; rewrite elem_of_cons; auto.
  - intros (r'&[->|Hr]%elem_of_cons&Hn); [by left|right; by exists r'].
Qed.

Lemma find_app {A} (f : A → bool) (l l' : list A) :
  List.find f (l ++ l') = match List.find f l with Some x => Some x | None => List.find f l' end.
Proof. induction l as [|x l IH]; simpl; [done|]. destruct (f x); [done|exact IH]. Qed.

(** A search of a forest by recursion is the search of its nodes in order. *)
Lemma firstSome_find (f : TreeNodeData → option TreeNodeData) test ns :
  Forall (λ n, f n = List.find test (preorder n)) ns → firstSome f ns = List.find test (preorders ns).
Proof.
  induction 1 as [|n ns Hn _ IH]; [done|]. rewrite preorders_cons, find_app. cbn [firstSome]. by rewrite Hn, IH.
Qed.
