(* ===== verification/SelectDatabaseRequests.v ===== *)
(** * SelectDatabaseRequests: the options of the database selector

    Models [hooks/selectDatabaseRequestLifecycle.ts]: the requests for the
    database and the schema options, of which only the latest may answer, and the
    options made from tree nodes.  The lifecycle is proved against the interface
    of [LatestRequest], not against its counter.

    [runLatestOptionRequest] is cut at its [await]: [startRequest] is the code
    before it, [settleRequest] the code behind.  [onSuccess] runs inside the
    [try]: when it throws, the [catch] handler runs as well. *)

From S2P Require Import Prelude LatestRequest TreeNodes.
Local Open Scope nat_scope.

Section lifecycle.
Context {G R : Type} `{LatestRequests G R}.

Record LatestOptionRequest := mkOptionRequest { active : bool; generationRef : G }.

Record SelectDatabaseRequestLifecycle := mkLifecycle {
  database : LatestOptionRequest;
  schema : LatestOptionRequest;
}.

Definition hasApplicableDatabaseNameChange (databaseNameChanged : bool) (supportDatabase : option bool) : bool :=
  bool_decide (supportDatabase ≠ Some false) && databaseNameChanged.

Definition createLatestOptionRequest : LatestOptionRequest := mkOptionRequest true noRequests.
Definition createSelectDatabaseRequestLifecycle : SelectDatabaseRequestLifecycle :=
  mkLifecycle createLatestOptionRequest createLatestOptionRequest.

Definition activateLatestOptionRequest (r : LatestOptionRequest) : LatestOptionRequest :=
  mkOptionRequest true (generationRef r).
Definition invalidateLatestOptionRequest (r : LatestOptionRequest) : LatestOptionRequest :=
  mkOptionRequest (active r) (invalidateLatest (generationRef r)).
Definition disposeLatestOptionRequest (r : LatestOptionRequest) : LatestOptionRequest :=
  invalidateLatestOptionRequest (mkOptionRequest false (generationRef r)).

Definition activateSelectDatabaseRequests (l : SelectDatabaseRequestLifecycle) :=
  mkLifecycle (activateLatestOptionRequest (database l)) (activateLatestOptionRequest (schema l)).
Definition invalidateDataSourceOptionRequests (l : SelectDatabaseRequestLifecycle) :=
  mkLifecycle (invalidateLatestOptionRequest (database l)) (invalidateLatestOptionRequest (schema l)).
Definition invalidateDatabaseOptionRequests (l : SelectDatabaseRequestLifecycle) :=
  mkLifecycle (database l) (invalidateLatestOptionRequest (schema l)).
Definition disposeSelectDatabaseRequests (l : SelectDatabaseRequestLifecycle) :=
  mkLifecycle (disposeLatestOptionRequest (database l)) (disposeLatestOptionRequest (schema l)).

(** [runLatestOptionRequest] up to the [await]; [None]: not active. *)
Definition startRequest (r : LatestOptionRequest) : LatestOptionRequest * option R :=
  if active r
  then let (g, ticket) := begin (generationRef r) in (mkOptionRequest (active r) g, Some ticket)
  else (r, None).

(** The request may answer. *)
Definition mayAnswer (r : LatestOptionRequest) (ticket : R) : bool :=
  active r && isLatest (generationRef r) ticket.

(** What [load] gives; [Loaded] says whether [onSuccess] throws on its value. *)
Inductive LoadOutcome (T : Type) := Loaded (value : T) (throws : bool) | LoadFailed.
#[global] Arguments Loaded {T}.
#[global] Arguments LoadFailed {T}.

(** The calls of the callbacks. *)
Inductive Callback (T : Type) := OnSuccess (value : T) | OnError.
#[global] Arguments OnSuccess {T}.
#[global] Arguments OnError {T}.

(** The code behind the [await]: the callbacks it calls and its result. *)
Definition settleRequest {T} (r : LatestOptionRequest) (ticket : R) (outcome : LoadOutcome T)
    : list (Callback T) * bool :=
  match outcome with
  | Loaded value throws =>
      if negb (mayAnswer r ticket) then ([], false)
      else if throws then ([OnSuccess value; OnError], true)
      else ([OnSuccess value], true)
  | LoadFailed =>
      if negb (mayAnswer r ticket) then ([], false) else ([OnError], true)
  end.

Inductive Side := DatabaseSide | SchemaSide.

#[export] Instance Side_eq_dec : EqDecision Side.
Proof. solve_decision. Defined.

Definition requestOf (side : Side) (l : SelectDatabaseRequestLifecycle) : LatestOptionRequest :=
  match side with DatabaseSide => database l | SchemaSide => schema l end.

(** [runDatabaseOptionRequest] and [runSchemaOptionRequest], up to the [await]. *)
Definition startOptionRequest (side : Side) (l : SelectDatabaseRequestLifecycle)
    : SelectDatabaseRequestLifecycle * option R :=
  let (r, ticket) := startRequest (requestOf side l) in
  (match side with
   | DatabaseSide => mkLifecycle r (schema l)
   | SchemaSide => mkLifecycle (database l) r
   end, ticket).

Inductive lifecycle_op :=
  | Activate
  | InvalidateDataSource
  | InvalidateDatabase
  | Dispose
  | Start (side : Side).

Definition lifecycle_step (l : SelectDatabaseRequestLifecycle) (o : lifecycle_op)
    : SelectDatabaseRequestLifecycle :=
  match o with
  | Activate => activateSelectDatabaseRequests l
  | InvalidateDataSource => invalidateDataSourceOptionRequests l
  | InvalidateDatabase => invalidateDatabaseOptionRequests l
  | Dispose => disposeSelectDatabaseRequests l
  | Start side => (startOptionRequest side l).1
  end.

Definition lifecycle_runs (l : SelectDatabaseRequestLifecycle) (ops : list lifecycle_op) :=
  fold_left lifecycle_step ops l.

(** The operations that make a running request of a side stale: a data source
    change and the end do so for both, a database change for the schemas. *)
Definition supersedes (side : Side) (o : lifecycle_op) : bool :=
  match o with
  | Activate => false
  | InvalidateDataSource | Dispose => true
  | InvalidateDatabase => bool_decide (side = SchemaSide)
  | Start side' => bool_decide (side = side')
  end.
End lifecycle.

(** ** Options *)

Record SelectDatabaseOption := mkOption { value : jstr; label : jstr }.
Record SelectDataSourceOption := mkSourceOption { sourceValue : Z; sourceLabel : jstr; sourceType : jstr }.

Definition normalizeDataSourceOptions (nodes : list TreeNodeData) : list SelectDataSourceOption :=
  fold_left (λ options node,
    let d := nodeData node in
    match dataSourceId (extraParams d), databaseType (extraParams d) with
    | Some id, Some ((_ :: _) as t) =>
        if bool_decide (treeNodeType d = DATA_SOURCE)
        then options ++ [mkSourceOption id (originalTitle d) (default [] (databaseType (extraParams d)))]
        else options
    | _, _ => options
    end) nodes [].

(** The loop keeps the options and the values seen. *)
Definition namedOptionStep (expected : TreeNodeType) (field : IExtraParams → option jstr)
    (acc : list SelectDatabaseOption * gset jstr) (node : TreeNodeData)
    : list SelectDatabaseOption * gset jstr :=
  let '(options, seen) := acc in
  let d := nodeData node in
  match field (extraParams d) with
  | Some v =>
      if bool_decide (treeNodeType d ≠ expected) || bool_decide (trim v = []) || bool_decide (v ∈ seen)
      then (options, seen)
      else (options ++ [mkOption v (or_else (trim (originalTitle d)) v)], {[v]} ∪ seen)
  | None => (options, seen)
  end.

Definition normalizeNamedOptions (nodes : list TreeNodeData) (expected : TreeNodeType)
    (field : IExtraParams → option jstr) : list SelectDatabaseOption :=
  (fold_left (namedOptionStep expected field) nodes ([], ∅)).1.

Definition normalizeDatabaseOptions (nodes : list TreeNodeData) := normalizeNamedOptions nodes DATABASE databaseName.
Definition normalizeSchemaOptions (nodes : list TreeNodeData) := normalizeNamedOptions nodes SCHEMA schemaName.

(** ** Only the latest request answers *)

Section latest.
Context {G R : Type} `{LatestRequestsLaws G R}.

(** A running request: its ticket is the latest, or stale. *)
Definition running (r : LatestOptionRequest (G:=G)) (ticket : R) (current : bool) : Prop :=
  if current then active r = true ∧ isLatest (generationRef r) ticket = true
  else stale (generationRef r) ticket.

Lemma running_answer (r : LatestOptionRequest (G:=G)) ticket current :
  running r ticket current → mayAnswer r ticket = current.
Proof.
  unfold running, mayAnswer. destruct current; [by intros [-> ->]|].
  intros Hs. rewrite (stale_not_latest _ _ Hs). by rewrite andb_false_r.
Qed.

Lemma running_known (r : LatestOptionRequest (G:=G)) ticket current :
  running r ticket current → isLatest (generationRef r) ticket = true ∨ stale (generationRef r) ticket.
Proof. destruct current; [intros [_ ?]; by left|by right]. Qed.

Lemma start_stale (r : LatestOptionRequest (G:=G)) ticket current :
  running r ticket current → active r = true → running (startRequest r).1 ticket false.
Proof.
  intros Hr%running_known Ha. unfold startRequest, running. rewrite Ha.
  pose proof (begin_stale (generationRef r) ticket Hr). by destruct (begin (generationRef r)).
Qed.

Lemma running_step side (l : SelectDatabaseRequestLifecycle (G:=G)) (ticket : R) current o :
  running (requestOf side l) ticket current →
  running (requestOf side (lifecycle_step l o)) ticket (current && negb (supersedes side o)).
Proof.
  intros Hr. pose proof (running_known _ _ _ Hr) as Hk.
  pose proof (invalidate_stale _ _ Hk) as Hinv.
  destruct o as [| | | |side']; simpl; rewrite ?andb_true_r, ?andb_false_r.
  - destruct side, current; simpl in *; naive_solver.
  - by destruct side.
  - destruct side; simpl; rewrite ?andb_true_r, ?andb_false_r; [done|apply Hinv].
  - by destruct side.
  - unfold startOptionRequest. destruct (startRequest (requestOf side' l)) as [r' t] eqn:Es.
    case_bool_decide as Hs; subst; simpl; rewrite ?andb_true_r, ?andb_false_r.
    + destruct (active (requestOf side' l)) eqn:Ha.
      * pose proof (start_stale _ _ _ Hr Ha) as Hst. rewrite Es in Hst. by destruct side'.
      * unfold startRequest in Es. rewrite Ha in Es. simplify_eq.
        destruct current; [by destruct Hr as [? _]; congruence|]. by destruct side'.
    + by destruct side, side'.
Qed.

Lemma running_steps side (l : SelectDatabaseRequestLifecycle (G:=G)) (ticket : R) current ops :
  running (requestOf side l) ticket current →
  running (requestOf side (lifecycle_runs l ops)) ticket (current && negb (existsb (supersedes side) ops)).
Proof.
  revert l current. induction ops as [|o ops IH]; intros l current Hr; simpl.
  - by rewrite andb_true_r.
  - rewrite negb_orb, andb_assoc. apply IH. by apply running_step.
Qed.

Lemma start_running side (l : SelectDatabaseRequestLifecycle (G:=G)) (ticket : R) :
  (startOptionRequest side l).2 = Some ticket →
  running (requestOf side (startOptionRequest side l).1) ticket true.
Proof.
  unfold startOptionRequest, startRequest. destruct (active (requestOf side l)) eqn:Ha; [|done].
  pose proof (begin_latest (generationRef (requestOf side l))) as Hb.
  destruct (begin (generationRef (requestOf side l))) as [g t]. simpl in *. intros [= <-].
  by destruct side.
Qed.

(** The selector is mounted: it was activated after its last disposal. *)
Definition mounted (ops : list lifecycle_op) : bool :=
  fold_left (λ m o, match o with Activate => true | Dispose => false | _ => m end) ops true.

Lemma active_runs side ops (l : SelectDatabaseRequestLifecycle (G:=G)) m :
  (∀ side, active (requestOf side l) = m) →
  active (requestOf side (lifecycle_runs l ops)) =
  fold_left (λ m o, match o with Activate => true | Dispose => false | _ => m end) ops m.
Proof.
  revert l m. induction ops as [|o ops IH]; intros l m Hl; simpl; [apply Hl|].
  apply IH. intros side'. pose proof (Hl DatabaseSide) as Hd. pose proof (Hl SchemaSide) as Hs. simpl in *.
  destruct o as [| | | |side'']; simpl; [by destruct side'..|].
  unfold startOptionRequest, startRequest.
  destruct (active (requestOf side'' l)) eqn:Ha; [destruct (begin _)|];
    destruct side', side''; simpl in *; congruence.
Qed.

(** Only the latest request of the database selector answers.  A request
    starts exactly when the selector is mounted; it calls back, with its value or
    its error, exactly when since its start no other request of its side was
    started, the data source (for schemas also the database) did not change and
    the selector was not disposed.  Proved for every implementation of the
    interface of generations. *)
Theorem option_requests_latest {T} side ops ops' (outcome : LoadOutcome T) :
  let l := lifecycle_runs (G:=G) createSelectDatabaseRequestLifecycle ops in
  ((startOptionRequest side l).2 = None ↔ mounted ops = false) ∧
  ∀ ticket, (startOptionRequest side l).2 = Some ticket →
    settleRequest (requestOf side (lifecycle_runs (startOptionRequest side l).1 ops')) ticket outcome =
    if existsb (supersedes side) ops' then ([], false)
    else match outcome with
         | Loaded v throws => (OnSuccess v :: (if throws then [OnError] else []), true)
         | LoadFailed => ([OnError], true)
         end.
Proof.
  intros l. split.
  - unfold mounted. rewrite <-(active_runs side ops createSelectDatabaseRequestLifecycle) by by intros [].
    fold l. unfold startOptionRequest, startRequest.
    destruct (active (requestOf side l)); [|done]. by destruct (begin _).
  - intros ticket Ht. pose proof (start_running side l ticket Ht) as Hr.
    apply (running_steps _ _ _ _ ops'), running_answer in Hr. unfold settleRequest. rewrite Hr. simpl.
    destruct (existsb _ _), outcome as [v []|]; done.
Qed.
End latest.

(** With the counter: a late answer of a superseded request is dropped. *)
Lemma option_requests_latest_witness :
  let l := lifecycle_runs (G:=Z) createSelectDatabaseRequestLifecycle [] in
  settleRequest (requestOf SchemaSide (lifecycle_runs (startOptionRequest SchemaSide l).1 [InvalidateDatabase]))
    1%Z (Loaded 5 false) = ([], false).
Proof. exact (proj2 (option_requests_latest SchemaSide [] [InvalidateDatabase] (Loaded 5 false)) 1%Z eq_refl). Defined.

(** ** The options *)

(** The value an option is made from. *)
Definition optionValue (expected : TreeNodeType) (field : IExtraParams → option jstr) (node : TreeNodeData)
    : option jstr :=
  match field (extraParams (nodeData node)) with
  | Some v => if bool_decide (treeNodeType (nodeData node) = expected ∧ trim v ≠ []) then Some v else None
  | None => None
  end.

Lemma named_step expected field options seen node :
  list_to_set (value <$> options) = seen →
  namedOptionStep expected field (options, seen) node =
  match optionValue expected field node with
  | Some v => if decide (v ∈ value <$> options) then (options, seen)
              else (options ++ [mkOption v (or_else (trim (originalTitle (nodeData node))) v)], {[v]} ∪ seen)
  | None => (options, seen)
  end.
Proof.
  intros <-. unfold namedOptionStep, optionValue.
  destruct (field (extraParams (nodeData node))) as [v|]; [|done].
  destruct (decide (treeNodeType (nodeData node) = expected ∧ trim v ≠ [])) as [[Ht Hv]|Hn].
  - rewrite (bool_decide_eq_true_2 _ (conj Ht Hv)), bool_decide_eq_false_2 by auto.
    rewrite bool_decide_eq_false_2 by done. simpl.
    case_decide as Hin; [rewrite bool_decide_eq_true_2|rewrite bool_decide_eq_false_2]; set_solver.
  - rewrite (bool_decide_eq_false_2 _ Hn). case_bool_decide as Ht; [done|].
    case_bool_decide; [done|]. destruct Hn. split; [|done].
    by destruct (decide (treeNodeType (nodeData node) = expected)).
Qed.

Lemma named_fold expected field nodes options seen :
  list_to_set (value <$> options) = seen →
  ∃ more, (fold_left (namedOptionStep expected field) nodes (options, seen)).1 = options ++ more ∧
    value <$> more = filter (λ v, v ∉ value <$> options) (uniq (omap (optionValue expected field) nodes)) ∧
    ∀ o, o ∈ more → ∃ node, node ∈ nodes ∧ optionValue expected field node = Some (value o) ∧
      label o = or_else (trim (originalTitle (nodeData node))) (value o).
Proof.
  revert options seen. induction nodes as [|node nodes IH]; intros options seen Hseen.
  { exists []. rewrite (right_id_L [] (++)). split_and!; [done|done|]. by intros o ?%not_elem_of_nil. }
  cbn [fold_left omap]. rewrite (named_step _ _ _ _ _ Hseen). csimpl.
  destruct (optionValue expected field node) as [v|] eqn:Ev; [case_decide as Hv|].
  - destruct (IH options seen Hseen) as (more&->&Hval&Hlab). exists more. split_and!; [done|..].
    + rewrite Hval. simpl. rewrite filter_cons, decide_False by auto.
      rewrite list_filter_filter. apply list_filter_iff. intros w. naive_solver.
    + intros o Ho. destruct (Hlab o Ho) as (n&?&?). exists n. by rewrite elem_of_cons; auto.
  - set (o := mkOption v (or_else (trim (originalTitle (nodeData node))) v)).
    destruct (IH (options ++ [o]) ({[v]} ∪ seen)) as (more&->&Hval&Hlab).
    { rewrite fmap_app, list_to_set_app_L, Hseen. simpl. set_solver. }
    exists (o :: more). rewrite <-(assoc_L (++)). split_and!; [done|..].
    + rewrite fmap_cons, Hval. simpl. rewrite filter_cons, decide_True by done. f_equal.
      rewrite list_filter_filter. apply list_filter_iff. intros w.
      rewrite fmap_app, elem_of_app. simpl. rewrite elem_of_cons. pose proof (not_elem_of_nil w). naive_solver.
    + intros o' [->|Ho]%elem_of_cons.
      * exists node. rewrite elem_of_cons. split_and!; auto.
      * destruct (Hlab o' Ho) as (n&?&?). exists n. by rewrite elem_of_cons; auto.
  - destruct (IH options seen Hseen) as (more&->&Hval&Hlab). exists more. split_and!; [done|done|].
    intros o Ho. destruct (Hlab o Ho) as (n&?&?). exists n. by rewrite elem_of_cons; auto.
Qed.

(** The options of databases (and, with their field, of schemas) are the distinct
    values of the nodes of that type, blank ones left out, in the order of their
    first appearance; a label is the title of a node with that value, or the value
    when the title is blank. *)
Lemma named_options_spec nodes expected field :
  let options := normalizeNamedOptions nodes expected field in
  value <$> options = uniq (omap (optionValue expected field) nodes) ∧
  NoDup (value <$> options) ∧
  ∀ o, o ∈ options → ∃ node, node ∈ nodes ∧ optionValue expected field node = Some (value o) ∧
    label o = or_else (trim (originalTitle (nodeData node))) (value o).
Proof.
  destruct (named_fold expected field nodes [] ∅) as (more&Heq&Hval&Hlab); [done|].
  unfold normalizeNamedOptions. rewrite Heq. simpl in *.
  assert (value <$> more = uniq (omap (optionValue expected field) nodes)) as Hv.
  { rewrite Hval. apply filter_all, Forall_forall. intros v _. apply not_elem_of_nil. }
  split_and!; [done|rewrite Hv; apply NoDup_uniq|done].
Qed.
