(* ===== verification/TreeData.v ===== *)
(** * TreeData: looking up and changing the object tree

    Models [utils/treeNodeLookup.ts], [store/tree/treeDataUpdate.ts],
    [store/tree/backgroundRefresh.ts], [store/tree/treeNodeLoadState.ts] and
    [store/tree/dataSourceList.ts].  Where the code keeps the old array because
    no element changed, the model has an equal value. *)

From S2P Require Import Prelude TreeNodes.
Local Open Scope nat_scope.

(** ** [treeNodeLookup.ts] *)

Fixpoint findNodeFrom (k : jstr) (n : TreeNodeData) : option TreeNodeData :=
  if decide (nodeKey n = k) then Some n
  else match n with
       | TreeNode _ (Some cs) => firstSome (findNodeFrom k) cs
       | TreeNode _ None => None
       end.

Definition findNode (k : jstr) (tree : option (list TreeNodeData)) : option TreeNodeData :=
  firstSome (findNodeFrom k) (default [] tree).

Definition hasChild (k : jstr) (n : TreeNodeData) : bool :=
  existsb (λ c, bool_decide (nodeKey c = k)) (childList n).

Fixpoint getParentFrom (k : jstr) (n : TreeNodeData) : option TreeNodeData :=
  if hasChild k n then Some n
  else match n with
       | TreeNode _ (Some cs) => firstSome (getParentFrom k) cs
       | TreeNode _ None => None
       end.

Definition getParentNode (k : jstr) (tree : option (list TreeNodeData)) : option TreeNodeData :=
  firstSome (getParentFrom k) (default [] tree).

(** ** [treeDataUpdate.ts] *)

Definition appendExpandedTreeKey (expandedKeys : list jstr) (k : jstr) : list jstr :=
  if includes k expandedKeys then expandedKeys else expandedKeys ++ [k].

Definition dataSourceKey (dataSourceId : Z) : jstr := js "dataSource_" ++ znum dataSourceId.

Definition isDataSourceTreeNodeKey (k : jstr) (dataSourceId : Z) : bool :=
  bool_decide (k = dataSourceKey dataSourceId) || startsWith (dataSourceKey dataSourceId ++ js "-") k.

Fixpoint removeFrom (k : jstr) (n : TreeNodeData) : list TreeNodeData :=
  if decide (nodeKey n = k) then []
  else match n with
       | TreeNode d (Some cs) => [TreeNode d (Some (flat_map (removeFrom k) cs))]
       | TreeNode d None => [n]
       end.

Definition removeTreeNodeByKey (treeData : list TreeNodeData) (k : jstr) : list TreeNodeData :=
  flat_map (removeFrom k) treeData.

(** The map from keys to nodes: the last node of a key stays. *)
Definition indexNodes (nodes : list TreeNodeData) : gmap jstr TreeNodeData :=
  fold_left (λ m n, <[nodeKey n := n]> m) (preorders nodes) ∅.

Fixpoint mergeNode (current : gmap jstr TreeNodeData) (fresh : TreeNodeData) : TreeNodeData :=
  match fresh with
  | TreeNode d (Some cs) => TreeNode d (Some (map (mergeNode current) cs))
  | TreeNode d None =>
      match current !! key d with
      | Some (TreeNode _ (Some cs)) => TreeNode d (Some cs)
      | _ => fresh
      end
  end.

Definition mergeLoadedTreeData (freshTreeData : list TreeNodeData) (currentTreeData : option (list TreeNodeData))
    : list TreeNodeData :=
  match currentTreeData with
  | None | Some [] => freshTreeData
  | Some current => map (mergeNode (indexNodes current)) freshTreeData
  end.

Definition resolveLoadedTreeData (freshTreeData : list TreeNodeData)
    (currentTreeData : option (list TreeNodeData)) (authoritative : bool) : list TreeNodeData :=
  if authoritative then freshTreeData else mergeLoadedTreeData freshTreeData currentTreeData.

(** ** [backgroundRefresh.ts] *)

Fixpoint findTreeNodeFrom (k : jstr) (n : TreeNodeData) : option TreeNodeData :=
  if decide (nodeKey n = k) then Some n
  else match n with
       | TreeNode _ (Some cs) => firstSome (findTreeNodeFrom k) cs
       | TreeNode _ None => None
       end.

Definition findTreeNode (k : jstr) (treeData : list TreeNodeData) : option TreeNodeData :=
  firstSome (findTreeNodeFrom k) treeData.

Definition inTree (treeData : list TreeNodeData) (k : jstr) : bool :=
  match findTreeNode k treeData with Some _ => true | None => false end.

Definition reconcileTreeInteractionAfterRefresh (treeData : list TreeNodeData) (selectedKeys : list jstr)
    (currentTreeNode : option TreeNodeData) : list jstr * option TreeNodeData :=
  (List.filter (inTree treeData) selectedKeys, currentTreeNode ≫= λ n, findTreeNode (nodeKey n) treeData).

Record TreeInteraction := mkInteraction {
  selectedKeys : list jstr;
  currentTreeNode : option TreeNodeData;
  expandedKeys : list jstr;
  scrollTargetKey : option jstr;
}.

Definition hasLoadedChildren (treeData : list TreeNodeData) (k : jstr) : bool :=
  match findTreeNode k treeData ≫= nodeChildren with Some _ => true | None => false end.

(** The empty string is falsy as a scroll target. *)
Definition reconcileTreeStateAfterRefresh (treeData : list TreeNodeData) (s : TreeInteraction) : TreeInteraction :=
  let '(selected, current) :=
    reconcileTreeInteractionAfterRefresh treeData (selectedKeys s) (currentTreeNode s) in
  mkInteraction selected current
    (List.filter (hasLoadedChildren treeData) (expandedKeys s))
    (match scrollTargetKey s with
     | Some ((_ :: _) as k) => if inTree treeData (default [] (scrollTargetKey s)) then scrollTargetKey s else None
     | _ => None
     end).

Record TreeNodeRefreshResult := mkRefresh { children : list TreeNodeData; total : option Z }.

Definition refreshData (d : NodeData) (result : TreeNodeRefreshResult) : NodeData :=
  mkNodeData (key d) (originalTitle d) (describe d) (treeNodeType d) (extraParams d) false
    (match total result with Some n => Some n | None => childCount d end) (nodeId d) (decorativeParams d) (columnType d) (columnComment d).

Fixpoint refreshFrom (k : jstr) (result : TreeNodeRefreshResult) (n : TreeNodeData) : TreeNodeData :=
  match n with
  | TreeNode d cs =>
      if decide (key d = k) then TreeNode (refreshData d result) (Some (children result))
      else match cs with
           | Some cs => TreeNode d (Some (map (refreshFrom k result) cs))
           | None => n
           end
  end.

Definition applyExistingTreeNodeRefresh (treeData : list TreeNodeData) (k : jstr)
    (result : TreeNodeRefreshResult) : list TreeNodeData :=
  map (refreshFrom k result) treeData.

(** ** [treeNodeLoadState.ts], [dataSourceList.ts] *)

Definition shouldReuseTreeNodeChildren (hasChildren refresh isDataSourceRoot available : bool) : bool :=
  if refresh || negb hasChildren then false
  else if negb isDataSourceRoot then true
  else available.

Fixpoint collectFrom (n : TreeNodeData) : list TreeNodeData :=
  (if decide (treeNodeType (nodeData n) = DATA_SOURCE) then [n] else []) ++
  match n with
  | TreeNode _ (Some cs) => flat_map collectFrom cs
  | TreeNode _ None => []
  end.

Definition collectDataSourceNodes (treeData : list TreeNodeData) : list TreeNodeData :=
  flat_map collectFrom treeData.

Definition pruneDataSourceRuntimeAvailability {A} (dataSourceList : list TreeNodeData) (byId : list (Z * A))
    : list (Z * A) :=
  filter (λ p, Some p.1 ∈ ((λ n, dataSourceId (extraParams (nodeData n))) <$> dataSourceList)) byId.

(** ** Lookup is a search of the nodes in order *)

Definition hasKey (k : jstr) (n : TreeNodeData) : bool := bool_decide (nodeKey n = k).

Lemma preorder_find_children (f : TreeNodeData → option TreeNodeData) test d cs :
  Forall (λ n, f n = List.find test (preorder n)) cs →
  List.find test (preorder (TreeNode d (Some cs))) =
  if test (TreeNode d (Some cs)) then Some (TreeNode d (Some cs)) else firstSome f cs.
Proof. intros Hcs. rewrite preorder_unfold, (firstSome_find f test) by done. done. Qed.

Lemma findNodeFrom_spec k n : findNodeFrom k n = List.find (hasKey k) (preorder n).
Proof.
  induction n as [d|d cs IH] using tree_ind'.
  - simpl. unfold hasKey. by case_decide; [rewrite bool_decide_eq_true_2|rewrite bool_decide_eq_false_2].
  - rewrite (preorder_find_children (findNodeFrom k)) by done. unfold hasKey. cbn [findNodeFrom].
    by case_decide; [rewrite bool_decide_eq_true_2|rewrite bool_decide_eq_false_2].
Qed.

Lemma findNode_spec k tree : findNode k tree = List.find (hasKey k) (preorders (default [] tree)).
Proof. apply firstSome_find, Forall_forall. intros n _. apply findNodeFrom_spec. Qed.

Lemma findTreeNode_spec k tree : findTreeNode k tree = List.find (hasKey k) (preorders tree).
Proof.
  apply firstSome_find, Forall_forall. intros n _.
  induction n as [d|d cs IH] using tree_ind'.
  - simpl. unfold hasKey. by case_decide; [rewrite bool_decide_eq_true_2|rewrite bool_decide_eq_false_2].
  - rewrite (preorder_find_children (findTreeNodeFrom k)) by done. unfold hasKey. cbn [findTreeNodeFrom].
    by case_decide; [rewrite bool_decide_eq_true_2|rewrite bool_decide_eq_false_2].
Qed.

Lemma getParentFrom_spec k n : getParentFrom k n = List.find (hasChild k) (preorder n).
Proof.
  induction n as [d|d cs IH] using tree_ind'; [done|].
  by rewrite (preorder_find_children (getParentFrom k)).
Qed.

Lemma hasChild_true k n : hasChild k n = true ↔ ∃ c, c ∈ childList n ∧ nodeKey c = k.
Proof.
  unfold hasChild. rewrite existsb_exists. split.
  - intros (c&Hin&Hk). exists c. apply list_elem_of_In in Hin. by to_prop.
  - intros (c&Hin&Hk). exists c. split; [by apply list_elem_of_In|by apply bool_decide_eq_true_2].
Qed.

Lemma find_elem {A} (f : A → bool) l x : List.find f l = Some x → x ∈ l ∧ f x = true.
Proof. intros [Hin Hf]%find_some. split; [by apply list_elem_of_In|done]. Qed.

Lemma find_is_Some {A} (f : A → bool) l x : x ∈ l → f x = true → ∃ y, List.find f l = Some y.
Proof.
  intros Hin Hf. destruct (List.find f l) as [y|] eqn:E; [by exists y|].
  apply list_elem_of_In in Hin. by rewrite (find_none f l E x Hin) in Hf.
Qed.

(** A node is a root or the child of a node. *)
Lemma preorder_parent n m : m ∈ preorder n → m = n ∨ ∃ p, p ∈ preorder n ∧ m ∈ childList p.
Proof.
  revert m. induction n as [d|d cs IH] using tree_ind'; intros m; rewrite preorder_unfold, elem_of_cons.
  - intros [->|Hm]; [by left|]. by apply not_elem_of_nil in Hm.
  - intros [->|Hm]; [by left|]. right. apply elem_of_preorders in Hm as (r&Hr&Hm). simpl in Hr.
    rewrite Forall_forall in IH. destruct (IH r Hr m Hm) as [->|(p&Hp&Hc)].
    + exists (TreeNode d (Some cs)). rewrite elem_of_cons. split; [by left|done].
    + exists p. rewrite elem_of_cons. split; [|done]. right. apply elem_of_preorders. by exists r.
Qed.

(** Looking a key up in the object tree finds the first node with it in the
    order of the display, and the parent lookup the first node with such a child;
    a node that is found and is no root has a parent that is found. *)
Theorem tree_lookup_spec k tree :
  findNode k (Some tree) = List.find (hasKey k) (preorders tree) ∧
  findTreeNode k tree = findNode k (Some tree) ∧
  getParentNode k (Some tree) = List.find (hasChild k) (preorders tree) ∧
  (∀ n, findNode k (Some tree) = Some n →
     n ∈ tree ∨ ∃ p, getParentNode k (Some tree) = Some p ∧ ∃ c, c ∈ childList p ∧ nodeKey c = k) ∧
  (findNode k (Some tree) = None ↔ ∀ n, n ∈ preorders tree → nodeKey n ≠ k).
Proof.
  assert (getParentNode k (Some tree) = List.find (hasChild k) (preorders tree)) as Hp.
  { apply firstSome_find, Forall_forall. intros n _. apply getParentFrom_spec. }
  rewrite findTreeNode_spec, findNode_spec. simpl. split_and!; [done|done|done|..].
  - intros n Hn. apply find_elem in Hn as [Hin Hk]. unfold hasKey in Hk. to_prop.
    apply elem_of_preorders in Hin as (r&Hr&Hin). destruct (preorder_parent r n Hin) as [->|(p&Hpin&Hc)]; [by left|].
    right. destruct (find_is_Some (hasChild k) (preorders tree) p) as [q Hq].
    + apply elem_of_preorders. by exists r.
    + apply hasChild_true. by exists n.
    + exists q. split; [congruence|]. apply find_elem in Hq as [_ Hq]. by apply hasChild_true.
  - split.
    + intros Hnone n Hin Hk. apply list_elem_of_In in Hin. pose proof (find_none _ _ Hnone n Hin) as Hf.
      unfold hasKey in Hf. by to_prop.
    + intros Hall. destruct (List.find (hasKey k) (preorders tree)) as [n|] eqn:E; [|done].
      apply find_elem in E as [Hin Hk]. unfold hasKey in Hk. to_prop. by destruct (Hall n Hin).
Qed.

(** ** Replacing the nodes of a key *)

(** Both changes of the tree replace the nodes of a key, not looking below them. *)
Section replace.
Context (k : jstr) (f : TreeNodeData → list TreeNodeData).

Fixpoint replaceFrom (n : TreeNodeData) : list TreeNodeData :=
  if decide (nodeKey n = k) then f n
  else match n with
       | TreeNode d (Some cs) => [TreeNode d (Some (flat_map replaceFrom cs))]
       | TreeNode d None => [n]
       end.
End replace.

Definition keysOf (ns : list TreeNodeData) : list jstr := nodeKey <$> preorders ns.

Lemma keysOf_app ns ns' : keysOf (ns ++ ns') = keysOf ns ++ keysOf ns'.
Proof. unfold keysOf. by rewrite preorders_app, fmap_app. Qed.

Lemma keysOf_cons n ns : keysOf (n :: ns) = keysOf [n] ++ keysOf ns.
Proof. apply (keysOf_app [n]). Qed.

Lemma keysOf_node d cs : keysOf [TreeNode d cs] = key d :: keysOf (default [] cs).
Proof.
  unfold keysOf. rewrite preorders_cons, preorder_unfold. simpl. by rewrite (right_id_L [] (++)).
Qed.

Lemma flat_map_id {A} (g : A → list A) l : Forall (λ x, g x = [x]) l → flat_map g l = l.
Proof. induction 1 as [|x l Hx _ IH]; [done|]. simpl. by rewrite Hx, IH. Qed.

Lemma replaceFrom_absent k f n : k ∉ keysOf [n] → replaceFrom k f n = [n].
Proof.
  induction n as [d|d cs IH] using tree_ind'; rewrite keysOf_node, not_elem_of_cons; simpl; intros [Hd Hcs].
  - by rewrite decide_False.
  - rewrite decide_False by done. f_equal. f_equal. f_equal. apply flat_map_id.
    induction IH as [|c cs Hc _ IH]; [done|].
    rewrite keysOf_cons, not_elem_of_app in Hcs. destruct Hcs as [H1 H2]. constructor; auto.
Qed.

Lemma replace_absent k f ns : k ∉ keysOf ns → flat_map (replaceFrom k f) ns = ns.
Proof.
  intros Hk. apply flat_map_id. induction ns as [|n ns IH]; [done|].
  rewrite keysOf_cons, not_elem_of_app in Hk. destruct Hk as [H1 H2].
  constructor; [by apply replaceFrom_absent|by apply IH].
Qed.

(** The keys of a forest around the node that is found, before and after. *)
Definition replaced (k : jstr) (f : TreeNodeData → list TreeNodeData) (ns : list TreeNodeData) : Prop :=
  ∃ n l1 l2, List.find (hasKey k) (preorders ns) = Some n ∧ nodeKey n = k ∧
    keysOf ns = l1 ++ keysOf [n] ++ l2 ∧ keysOf (flat_map (replaceFrom k f) ns) = l1 ++ keysOf (f n) ++ l2 ∧
    ∀ m, f n = [m] → nodeKey m = k →
      List.find (hasKey k) (preorders (flat_map (replaceFrom k f) ns)) = Some m.

Lemma find_one k n : List.find (hasKey k) (preorders [n]) = List.find (hasKey k) (preorder n).
Proof. rewrite preorders_cons. simpl. by rewrite (right_id_L [] (++)). Qed.

Lemma find_self k n : nodeKey n = k → List.find (hasKey k) (preorder n) = Some n.
Proof. intros Hk. rewrite preorder_unfold. simpl. unfold hasKey. by rewrite bool_decide_eq_true_2. Qed.

Lemma find_below k d cs :
  key d ≠ k → List.find (hasKey k) (preorder (TreeNode d (Some cs))) = List.find (hasKey k) (preorders cs).
Proof. intros Hk. rewrite preorder_unfold. simpl. unfold hasKey at 1. by rewrite bool_decide_eq_false_2. Qed.

Lemma hasKey_absent k ns : k ∉ keysOf ns → List.find (hasKey k) (preorders ns) = None.
Proof.
  intros Hk. destruct (List.find (hasKey k) (preorders ns)) as [n|] eqn:E; [|done].
  apply find_elem in E as [Hin Hn]. unfold hasKey in Hn. to_prop. destruct Hk. subst k.
  by apply list_elem_of_fmap_2.
Qed.

Lemma replaced_forest k f ns :
  Forall (λ n, NoDup (keysOf [n]) → k ∈ keysOf [n] → replaced k f [n]) ns →
  NoDup (keysOf ns) → k ∈ keysOf ns → replaced k f ns.
Proof.
  induction 1 as [|n ns Hn _ IH]; [by intros _ ?%not_elem_of_nil|].
  rewrite keysOf_cons, NoDup_app, elem_of_app. intros (Hnd1&Hdisj&Hnd2) [Hk|Hk].
  - destruct (Hn Hnd1 Hk) as (m&l1&l2&Hm&Hmk&Hb&Ha&Hf). exists m, l1, (l2 ++ keysOf ns).
    cbn [flat_map] in Ha, Hf |- *. rewrite (right_id_L [] (++)) in Ha, Hf.
    rewrite (replace_absent k f ns) by (intros ?; by eapply Hdisj). split_and!.
    + rewrite preorders_cons, find_app, <-find_one. by rewrite Hm.
    + done.
    + rewrite keysOf_cons, Hb. by rewrite <-!(assoc_L (++)).
    + rewrite keysOf_app, Ha. by rewrite <-!(assoc_L (++)).
    + intros m' Hm' Hk'. rewrite preorders_app, find_app. by rewrite (Hf m' Hm' Hk').
  - assert (k ∉ keysOf [n]) as Hkn by (intros ?; by eapply Hdisj).
    destruct (IH Hnd2 Hk) as (m&l1&l2&Hm&Hmk&Hb&Ha&Hf). exists m, (keysOf [n] ++ l1), l2.
    cbn [flat_map]. rewrite (replaceFrom_absent k f n Hkn). cbn [app].
    pose proof (hasKey_absent k [n] Hkn) as Habs. rewrite find_one in Habs. split_and!.
    + rewrite preorders_cons, find_app. by rewrite Habs.
    + done.
    + rewrite keysOf_cons, Hb. by rewrite <-!(assoc_L (++)).
    + rewrite keysOf_cons, Ha. by rewrite <-!(assoc_L (++)).
    + intros m' Hm' Hk'. rewrite preorders_cons, find_app, Habs. by apply Hf.
Qed.

Lemma replaced_node k f n : NoDup (keysOf [n]) → k ∈ keysOf [n] → replaced k f [n].
Proof.
  assert (∀ n, nodeKey n = k → replaced k f [n]) as Hself.
  { clear n. intros n Hk. exists n, [], []. cbn [flat_map].
    assert (replaceFrom k f n = f n) as -> by (destruct n; simpl in *; by rewrite decide_True).
    rewrite !(right_id_L [] (++)). cbn [app]. split_and!; [|done..|].
    - rewrite find_one. by apply find_self.
    - intros m -> Hm. rewrite find_one. by apply find_self. }
  induction n as [d|d cs IH] using tree_ind'; intros Hnd Hk.
  - apply Hself. rewrite keysOf_node in Hk. by apply list_elem_of_singleton in Hk.
  - destruct (decide (key d = k)) as [Hd|Hd]; [by apply Hself|].
    rewrite keysOf_node, NoDup_cons in Hnd. rewrite keysOf_node, elem_of_cons in Hk. simpl in Hnd, Hk.
    destruct Hnd as [_ Hnd]. destruct Hk as [->|Hk]; [done|].
    destruct (replaced_forest k f cs IH Hnd Hk) as (m&l1&l2&Hm&Hmk&Hb&Ha&Hf).
    exists m, (key d :: l1), l2. cbn [flat_map replaceFrom]. rewrite decide_False by done.
    rewrite (right_id_L [] (++)), !find_one, !find_below, !keysOf_node by done. simpl.
    rewrite Hb, Ha. split_and!; done.
Qed.

Lemma replace_spec k f ns : NoDup (keysOf ns) → k ∈ keysOf ns → replaced k f ns.
Proof. apply replaced_forest, Forall_forall. intros n _. apply replaced_node. Qed.

Lemma removeFrom_replace k n : removeFrom k n = replaceFrom k (λ _, []) n.
Proof.
  induction n as [d|d cs IH] using tree_ind'; [done|]. cbn [removeFrom replaceFrom].
  case_decide; [done|]. do 3 f_equal. induction IH as [|c cs Hc _ IH]; [done|]. simpl. by rewrite Hc, IH.
Qed.

(** The node that a refresh makes of one. *)
Definition refreshedNode (result : TreeNodeRefreshResult) (n : TreeNodeData) : TreeNodeData :=
  TreeNode (refreshData (nodeData n) result) (Some (children result)).

Lemma refreshFrom_replace k result n : [refreshFrom k result n] = replaceFrom k (λ n, [refreshedNode result n]) n.
Proof.
  induction n as [d|d cs IH] using tree_ind'; cbn [refreshFrom replaceFrom];
    change (nodeKey (TreeNode d ?cs)) with (key d); (case_decide; [done|]); [done|]. do 3 f_equal.
  induction IH as [|c cs Hc _ IH]; [done|]. cbn [map flat_map]. by rewrite <-Hc, IH.
Qed.

Lemma remove_replace k tree : removeTreeNodeByKey tree k = flat_map (replaceFrom k (λ _, [])) tree.
Proof.
  unfold removeTreeNodeByKey. induction tree as [|n tree IH]; [done|]. simpl. by rewrite removeFrom_replace, IH.
Qed.

Lemma refresh_replace k result tree :
  applyExistingTreeNodeRefresh tree k result = flat_map (replaceFrom k (λ n, [refreshedNode result n])) tree.
Proof.
  unfold applyExistingTreeNodeRefresh. induction tree as [|n tree IH]; [done|].
  cbn [map flat_map]. by rewrite <-refreshFrom_replace, IH.
Qed.

(** Removing a node and refreshing one change that node and nothing else.  In
    a tree with distinct keys, the keys in display order are those before the
    node, its own and those below it, and those after it; removal leaves the
    first and the last, a refresh puts the new children below the node, which
    is then found with them.  Without such a node the tree is the same. *)
Theorem tree_updates_local k tree (result : TreeNodeRefreshResult) :
  NoDup (keysOf tree) →
  match findNode k (Some tree) with
  | None => removeTreeNodeByKey tree k = tree ∧ applyExistingTreeNodeRefresh tree k result = tree
  | Some n => ∃ before after,
      keysOf tree = before ++ k :: keysOf (childList n) ++ after ∧
      keysOf (removeTreeNodeByKey tree k) = before ++ after ∧
      findNode k (Some (removeTreeNodeByKey tree k)) = None ∧
      keysOf (applyExistingTreeNodeRefresh tree k result) = before ++ k :: keysOf (children result) ++ after ∧
      findNode k (Some (applyExistingTreeNodeRefresh tree k result)) = Some (refreshedNode result n)
  end.
Proof.
  intros Hnd. rewrite remove_replace, refresh_replace, !findNode_spec. simpl.
  destruct (decide (k ∈ keysOf tree)) as [Hk|Hk].
  - destruct (replace_spec k (λ _, []) tree Hnd Hk) as (n&l1&l2&Hn&Hnk&Hb&Ha&_).
    destruct (replace_spec k (λ n, [refreshedNode result n]) tree Hnd Hk) as (n'&l1'&l2'&Hn'&_&Hb'&Ha'&Hf).
    rewrite Hn in Hn'. injection Hn' as <-. rewrite Hn.
    assert (keysOf [n] = k :: keysOf (childList n)) as Hkeys by (destruct n as [d cs]; rewrite keysOf_node, <-Hnk; done).
    rewrite Hkeys in Hb, Hb'. cbn [app] in Hb, Hb'.
    assert (∀ l l', keysOf tree = l ++ k :: l' → k ∉ l') as Htail.
    { intros l l' Hl. rewrite Hl in Hnd. apply NoDup_app in Hnd as (_&_&Hnd). by apply NoDup_cons in Hnd as [? _]. }
    pose proof (Htail _ _ Hb) as Ht. pose proof (Htail _ _ Hb') as Ht'.
    rewrite Hb in Hb'. apply app_sep_inj_r in Hb' as [<- Htl]; [|done..].
    apply app_inv_head in Htl as <-. exists l1, l2. split_and!; [done|done|..].
    + apply hasKey_absent. rewrite Ha. rewrite Hb in Hnd. apply NoDup_app in Hnd as (_&Hd&_).
      rewrite elem_of_app. intros [Hin|Hin].
      * apply (Hd k Hin). rewrite elem_of_cons. by left.
      * apply Ht. rewrite elem_of_app. by right.
    + rewrite Ha'. unfold refreshedNode. rewrite keysOf_node. simpl. by rewrite <-Hnk.
    + by apply Hf.
  - rewrite (hasKey_absent k tree Hk). by rewrite !replace_absent.
Qed.

(** ** Merging loaded data *)

Lemma indexNodes_lookup nodes k :
  indexNodes nodes !! k = List.find (hasKey k) (reverse (preorders nodes)).
Proof.
  unfold indexNodes. induction (preorders nodes) as [|n ns IH] using rev_ind; [done|].
  rewrite fold_left_app, reverse_snoc. simpl. unfold hasKey at 1.
  destruct (decide (nodeKey n = k)) as [Hn|Hn].
  - rewrite bool_decide_eq_true_2, <-Hn by done. by rewrite lookup_insert_eq.
  - rewrite bool_decide_eq_false_2, lookup_insert_ne by done. exact IH.
Qed.

(** What a fresh node becomes: its own data; its own children merged in turn, or
    those the current tree has loaded for its key. *)
Definition mergedNode (current : list TreeNodeData) (fresh r : TreeNodeData) : Prop :=
  nodeData r = nodeData fresh ∧
  match nodeChildren fresh with
  | Some cs => ∃ cs', nodeChildren r = Some cs' ∧ nodeKey <$> cs' = nodeKey <$> cs
  | None => nodeChildren r =
      List.find (hasKey (nodeKey fresh)) (reverse (preorders current)) ≫= nodeChildren
  end.

Lemma mergeNode_data current fresh : nodeData (mergeNode current fresh) = nodeData fresh.
Proof. destruct fresh as [d [cs|]]; simpl; [done|]. by repeat case_match. Qed.

Lemma mergeNode_spec current fresh n :
  n ∈ preorder fresh →
  ∃ r, r ∈ preorder (mergeNode (indexNodes current) fresh) ∧ mergedNode current n r.
Proof.
  revert n. induction fresh as [d|d cs IH] using tree_ind'; intros n; rewrite preorder_unfold, elem_of_cons; intros [->|Hn].
  - exists (mergeNode (indexNodes current) (TreeNode d None)). rewrite preorder_unfold at 1.
    rewrite elem_of_cons. split; [by left|]. split; [apply mergeNode_data|]. cbn [nodeChildren].
    rewrite <-indexNodes_lookup. cbn [mergeNode]. change (nodeKey (TreeNode d None)) with (key d).
    by destruct (indexNodes current !! key d) as [[d' [cs|]]|].
  - by apply not_elem_of_nil in Hn.
  - exists (mergeNode (indexNodes current) (TreeNode d (Some cs))). rewrite preorder_unfold at 1.
    rewrite elem_of_cons. split; [by left|]. split; [done|]. cbn [nodeChildren mergeNode].
    eexists. split; [done|]. clear. induction cs as [|c cs IH]; [done|].
    cbn [map]. rewrite !fmap_cons, IH. f_equal. unfold nodeKey. by rewrite mergeNode_data.
  - simpl in Hn. apply elem_of_preorders in Hn as (c&Hc&Hn). rewrite Forall_forall in IH.
    destruct (IH c Hc n Hn) as (r&Hr&Hm). exists r. split; [|done].
    cbn [mergeNode]. rewrite preorder_unfold, elem_of_cons. right. simpl.
    apply elem_of_preorders. exists (mergeNode (indexNodes current) c). split; [|done].
    apply list_elem_of_In, in_map. by apply list_elem_of_In.
Qed.

(** A reload that is not authoritative keeps what is loaded.  The top level
    is that of the fresh data; every fresh node is in the result with its fresh
    data; where the fresh data does not say what is below a node, the children
    already loaded for it stay, and where it does, they are those of the fresh
    data.  An authoritative reload is the fresh data. *)
Theorem merge_keeps_loaded freshTreeData currentTreeData :
  resolveLoadedTreeData freshTreeData currentTreeData true = freshTreeData ∧
  let result := resolveLoadedTreeData freshTreeData currentTreeData false in
  nodeData <$> result = nodeData <$> freshTreeData ∧
  ∀ n, n ∈ preorders freshTreeData →
    ∃ r, r ∈ preorders result ∧ mergedNode (default [] currentTreeData) n r.
Proof.
  split; [done|]. unfold resolveLoadedTreeData, mergeLoadedTreeData.
  assert (∀ ns n, n ∈ preorders ns → ∃ r, r ∈ preorders ns ∧ mergedNode [] n r) as Hempty.
  { intros ns n Hn. exists n. split; [done|]. split; [done|].
    destruct (nodeChildren n) as [cs|]; [by exists cs|done]. }
  destruct currentTreeData as [[|c current]|]; [split; [done|apply Hempty]| |split; [done|apply Hempty]].
  set (cur := c :: current). split.
  - induction freshTreeData as [|n ns IH]; [done|]. cbn [map]. by rewrite !fmap_cons, mergeNode_data, IH.
  - intros n Hn. apply elem_of_preorders in Hn as (f&Hf&Hn).
    destruct (mergeNode_spec cur f n Hn) as (r&Hr&Hm). exists r. split; [|done].
    apply elem_of_preorders. exists (mergeNode (indexNodes cur) f). split; [|done].
    apply list_elem_of_In, in_map. by apply list_elem_of_In.
Qed.

(** ** What the user sees of the tree *)

Lemma inTree_true tree k : inTree tree k = true ↔ k ∈ keysOf tree.
Proof.
  unfold inTree. rewrite findTreeNode_spec. split.
  - destruct (List.find _ _) as [n|] eqn:E; [|done]. intros _. apply find_elem in E as [Hin Hk].
    unfold hasKey in Hk. to_prop. subst k. by apply list_elem_of_fmap_2.
  - intros (n&->&Hin)%list_elem_of_fmap. destruct (find_is_Some (hasKey (nodeKey n)) (preorders tree) n Hin) as [m ->];
      [by apply bool_decide_eq_true_2|done].
Qed.

(** The interaction state is about nodes of the tree: what is selected and the
    scroll target name nodes, what is expanded names nodes with loaded children,
    and the current node is a node of the tree. *)
Record interaction_ok (tree : list TreeNodeData) (s : TreeInteraction) : Prop := {
  ok_selected k : k ∈ selectedKeys s → k ∈ keysOf tree;
  ok_current n : currentTreeNode s = Some n → n ∈ preorders tree;
  ok_expanded k : k ∈ expandedKeys s → ∃ n cs, findNode k (Some tree) = Some n ∧ nodeChildren n = Some cs;
  ok_scroll k : scrollTargetKey s = Some k → k ∈ keysOf tree;
}.

Lemma elem_of_list_filter {A} (f : A → bool) (l : list A) x : x ∈ List.filter f l ↔ x ∈ l ∧ f x = true.
Proof. rewrite !list_elem_of_In. apply filter_In. Qed.

Lemma list_filter_sublist {A} (f : A → bool) (l : list A) : sublist (List.filter f l) l.
Proof. induction l as [|x l IH]; simpl; [constructor|]. destruct (f x); by constructor. Qed.

Lemma findTreeNode_same k tree : findTreeNode k tree = findNode k (Some tree).
Proof. by rewrite findTreeNode_spec, findNode_spec. Qed.

(** After a refresh the interaction state is about nodes of the new tree, and
    nothing that still is in the tree is lost: a key stays selected, a loaded
    node stays expanded and the current node stays, with its new data. *)
Theorem reconcile_interaction tree s :
  let s' := reconcileTreeStateAfterRefresh tree s in
  interaction_ok tree s' ∧
  (∀ k, k ∈ selectedKeys s → k ∈ keysOf tree → k ∈ selectedKeys s') ∧
  (∀ k n cs, k ∈ expandedKeys s → findNode k (Some tree) = Some n → nodeChildren n = Some cs → k ∈ expandedKeys s') ∧
  (∀ n, currentTreeNode s = Some n → currentTreeNode s' = findNode (nodeKey n) (Some tree)) ∧
  sublist (selectedKeys s') (selectedKeys s) ∧ sublist (expandedKeys s') (expandedKeys s).
Proof.
  intros s'. subst s'. unfold reconcileTreeStateAfterRefresh, reconcileTreeInteractionAfterRefresh.
  split; [split|]; simpl.
  - intros k [_ Hk]%elem_of_list_filter. by apply inTree_true.
  - intros n. destruct (currentTreeNode s) as [m|]; [|done]. simpl. rewrite findTreeNode_spec.
    by intros [Hin _]%find_elem.
  - intros k [_ Hk]%elem_of_list_filter. unfold hasLoadedChildren in Hk. rewrite findTreeNode_same in Hk.
    destruct (findNode k (Some tree)) as [n|] eqn:En; [|done]. simpl in Hk.
    destruct (nodeChildren n) as [cs|] eqn:Ec; [by exists n, cs|done].
  - intros k. destruct (scrollTargetKey s) as [[|c t]|]; [done| |done]. simpl.
    destruct (inTree tree (c :: t)) eqn:Ek; [|done]. intros [= <-]. by apply inTree_true.
  - split_and!.
    + intros k Hk Hin. apply elem_of_list_filter. split; [done|]. by apply inTree_true.
    + intros k n cs Hk Hn Hc. apply elem_of_list_filter. split; [done|].
      unfold hasLoadedChildren. rewrite findTreeNode_same, Hn. simpl. by rewrite Hc.
    + intros n ->. simpl. apply findTreeNode_same.
    + apply list_filter_sublist.
    + apply list_filter_sublist.
Qed.

(** The data sources of a tree, in the order of the display. *)
Lemma collect_spec tree :
  collectDataSourceNodes tree = filter (λ n, treeNodeType (nodeData n) = DATA_SOURCE) (preorders tree).
Proof.
  assert (∀ n, collectFrom n = filter (λ n, treeNodeType (nodeData n) = DATA_SOURCE) (preorder n)) as Hn.
  { induction n as [d|d cs IH] using tree_ind'; rewrite preorder_unfold, filter_cons; cbn [collectFrom childList nodeChildren];
      [by case_decide|].
    assert (flat_map collectFrom cs = filter (λ n, treeNodeType (nodeData n) = DATA_SOURCE) (preorders cs)) as ->.
    { induction IH as [|c cs Hc _ IH]; [done|]. rewrite preorders_cons, filter_app. simpl. by rewrite Hc, IH. }
    by case_decide. }
  unfold collectDataSourceNodes. induction tree as [|n tree IH]; [done|].
  rewrite preorders_cons, filter_app. simpl. by rewrite Hn, IH.
Qed.

(** The keys of different data sources do not overlap, so that closing one
    invalidates the requests of no other. *)
Lemma data_source_keys_disjoint k id id' :
  (0 ≤ id)%Z → (0 ≤ id')%Z →
  isDataSourceTreeNodeKey k id = true → isDataSourceTreeNodeKey k id' = true → id = id'.
Proof.
  assert (∀ i k, (0 ≤ i)%Z → isDataSourceTreeNodeKey k i = true →
    ∃ rest, k = js "dataSource_" ++ znum i ++ rest ∧ (rest = [] ∨ head rest = Some (ch "-"))) as Hkey.
  { clear. intros i k Hi Hk. unfold isDataSourceTreeNodeKey in Hk. apply orb_true_iff in Hk as [Hk|Hk].
    - to_prop. exists []. rewrite (right_id_L [] (++)). auto.
    - apply startsWith_inv in Hk. exists (ch "-" :: drop (length (dataSourceKey i ++ js "-")) k).
      split; [|by right]. rewrite Hk at 1. unfold dataSourceKey. by rewrite <-!(assoc_L (++)). }
  intros Hid Hid' (r&->&Hr)%Hkey (r'&Heq&Hr')%Hkey; [|done..]. apply app_inv_head in Heq.
  assert (∀ i, (0 ≤ i)%Z → ch "-" ∉ znum i) as Hdash.
  { intros i Hi Hin. pose proof (znum_digits i Hi) as Hd. rewrite Forall_forall in Hd.
    destruct (Hd _ Hin) as [H _]. by vm_compute in H. }
  assert (∀ rest, rest = [] ∨ head rest = Some (ch "-") → ∃ t, rest ++ [ch "-"] = ch "-" :: t) as Hsplit.
  { intros rest [->|Hh]; [by exists []|]. destruct rest as [|c rest]; [done|]. simpl in Hh. simplify_eq. by eexists. }
  destruct (Hsplit r Hr) as [t Ht], (Hsplit r' Hr') as [t' Ht'].
  apply (f_equal (.++ [ch "-"])) in Heq. rewrite <-!(assoc_L (++)), Ht, Ht' in Heq.
  apply app_sep_inj_l in Heq as [Heq _]; [|by apply Hdash..]. by apply (inj znum) in Heq.
Qed.

(** ** Witnesses *)

Definition sampleData (k : string) : NodeData :=
  mkNodeData (js k) (js k) None TABLE (mkExtraParams None None None None true None None None None None None None None None None) false
    None None None None None.

Definition sampleTree : list TreeNodeData :=
  [TreeNode (sampleData "a") (Some [TreeNode (sampleData "b") None; TreeNode (sampleData "c") None]);
   TreeNode (sampleData "d") None].

Lemma sampleTree_keys : NoDup (keysOf sampleTree).
Proof. compute_done. Qed.

Lemma tree_updates_local_witness :
  ∃ before after, keysOf sampleTree = before ++ js "b" :: after ∧
    keysOf (removeTreeNodeByKey sampleTree (js "b")) = before ++ after.
Proof.
  destruct (tree_updates_local (js "b") sampleTree (mkRefresh [] None) sampleTree_keys)
    as (before&after&H1&H2&_). exists before, after. by split.
Defined.
