(* ===== verification/TreeSearch.v ===== *)
(** * TreeSearch: filtering and searching the object tree

    Models [utils/filterTreeNodes.ts], [utils/searchTreeNodes.ts],
    [utils/hydrateTreeForSearch.ts], the escaping of the search text in
    [store/tree/index.tsx] and the search of [WorkspaceTreeSearch/index.tsx].

    A search text becomes a regular expression.  The model has the patterns that
    escaping makes, that is literal texts; a pattern with operators is [None].
    Case is that of ASCII letters. *)

From S2P Require Import Prelude TreeNodes TreeData.
Local Open Scope nat_scope.

(** ** Filtering *)

Record FilterTreeNodesOptions := mkFilter {
  hiddenTreeNodeIds : option (dict (list jstr));
  hiddenNoPermission : bool;
  excludeNodes : list TreeNodeType;
  leafNodes : list TreeNodeType;
}.

(** The hidden identifiers that hold at a node and below. *)
Definition hiddenIdsAt (options : FilterTreeNodesOptions) (inherited : option (list jstr)) (d : NodeData)
    : option (list jstr) :=
  match inherited with
  | Some ids => Some ids
  | None => match dataSourceId (extraParams d) with
            | Some id => hiddenTreeNodeIds options ≫= dget (znum id)
            | None => None
            end
  end.

Definition isHidden (options : FilterTreeNodesOptions) (hiddenIds : option (list jstr)) (d : NodeData) : bool :=
  includes (treeNodeType d) (excludeNodes options)
  || (hiddenNoPermission options && bool_decide (treeNodeType d = DATA_SOURCE)
      && negb (hasPermission (extraParams d)))
  || ((bool_decide (treeNodeType d = DATABASE) || bool_decide (treeNodeType d = SCHEMA))
      && match hiddenIds with Some ids => includes (key d) ids | None => false end).

Definition asLeaf (d : NodeData) : NodeData :=
  mkNodeData (key d) (originalTitle d) (describe d) (treeNodeType d) (extraParams d) true (childCount d)
    (nodeId d) (decorativeParams d) (columnType d) (columnComment d).

(** The callback of [map] and the filter behind it. *)
Fixpoint filterNode (options : FilterTreeNodesOptions) (inherited : option (list jstr)) (n : TreeNodeData)
    : list TreeNodeData :=
  match n with
  | TreeNode d cs =>
      let hiddenIds := hiddenIdsAt options inherited d in
      if isHidden options hiddenIds d then []
      else if includes (treeNodeType d) (leafNodes options) then [TreeNode (asLeaf d) None]
      else match cs with
           | Some cs => [TreeNode d (Some (flat_map (filterNode options hiddenIds) cs))]
           | None => [n]
           end
  end.

Definition filterTreeNodesForDisplay (treeData : list TreeNodeData) (options : FilterTreeNodesOptions)
    (inheritedHiddenIds : option (list jstr)) : list TreeNodeData :=
  flat_map (filterNode options inheritedHiddenIds) treeData.

(** ** Patterns *)

(** The characters of [/[.*+?^${}()|[\]\\]/]. *)
Definition isSyntaxChar (c : N) : bool := includes c (js ".*+?^${}()|[]\").

(** [escapeRegExp] of [setSearchBarValue]. *)
Definition escapeRegExp (text : jstr) : jstr :=
  flat_map (λ c, if isSyntaxChar c then [ch "\"; c] else [c]) text.

(** The text a literal pattern matches. *)
Fixpoint regExpLiteral (pattern : jstr) : option jstr :=
  match pattern with
  | [] => Some []
  | c :: pattern' =>
      if decide (c = ch "\") then
        match pattern' with
        | d :: rest => if isSyntaxChar d then cons d <$> regExpLiteral rest else None
        | [] => None
        end
      else if isSyntaxChar c then None
      else cons c <$> regExpLiteral pattern'
  end.

(** [s.replace(/_/g, '')]. *)
Definition removeUnderscores (s : jstr) : jstr := filter (λ c, c ≠ ch "_") s.

Fixpoint containsText (sub text : jstr) : bool :=
  startsWith sub text || match text with [] => false | _ :: text' => containsText sub text' end.

(** [new RegExp(pattern, 'gi').test(text)] for a literal pattern. *)
Definition testLiteral (literal text : jstr) : bool := containsText (toLowerCase literal) (toLowerCase text).

Definition isMatchedLiteral (literal : jstr) (titles : list jstr) : bool :=
  existsb (λ title, testLiteral literal (removeUnderscores title)) titles.

Definition isMatched (searchValue : jstr) (titles : list jstr) : option bool :=
  (λ literal, isMatchedLiteral literal titles) <$> regExpLiteral (removeUnderscores searchValue).

(** ** Searching *)

Definition nodeMatches (literal : jstr) (n : TreeNodeData) : bool :=
  isMatchedLiteral literal [originalTitle (nodeData n); default [] (describe (nodeData n))].

Section search.
Context (test : TreeNodeData → bool).

Fixpoint collectMatchedFrom (n : TreeNodeData) : list jstr :=
  (if test n then [nodeKey n] else []) ++
  match n with
  | TreeNode _ (Some cs) => flat_map collectMatchedFrom cs
  | TreeNode _ None => []
  end.

(** [traverse]: the node that is kept and the keys pushed on
    [parentIdsWithMatches]. *)
Fixpoint traverse (n : TreeNodeData) : option TreeNodeData * list jstr :=
  if test n then (Some n, [])
  else match n with
       | TreeNode d (Some cs) =>
           let results := map traverse cs in
           let matching := omap fst results in
           let pushed := flat_map snd results in
           match matching with
           | [] => (None, pushed)
           | _ => (Some (TreeNode d (Some matching)), pushed ++ [key d])
           end
       | TreeNode _ None => (None, [])
       end.
End search.

Record SearchResult := mkSearchResult {
  matchedNodes : list TreeNodeData;
  matchedKeys : list jstr;
  parentIdsWithMatches : list jstr;
}.

Definition searchBy (test : TreeNodeData → bool) (treeNodes : list TreeNodeData) : SearchResult :=
  let results := map (traverse test) treeNodes in
  mkSearchResult (omap fst results) (flat_map (collectMatchedFrom test) treeNodes) (flat_map snd results).

Definition searchTreeNodes (treeNodes : list TreeNodeData) (searchValue : jstr) : option SearchResult :=
  (λ literal, searchBy (nodeMatches literal) treeNodes) <$> regExpLiteral (removeUnderscores searchValue).

(** [debouncedSearch] of the workspace: the visible nodes are searched for the
    escaped text; [None] clears the search. *)
Definition workspaceSearch (treeData : list TreeNodeData) (hidden : option (dict (list jstr)))
    (searchBarValue : jstr) : option SearchResult :=
  match escapeRegExp searchBarValue with
  | [] => None
  | value => searchTreeNodes (filterTreeNodesForDisplay treeData (mkFilter hidden false [] []) None) value
  end.

(** ** Hydration *)

(** [load] is what the loader of a data source gives; [None] is a failure. *)
Fixpoint hydrateNode (load : TreeNodeData → option (list TreeNodeData)) (n : TreeNodeData) : TreeNodeData :=
  match n with
  | TreeNode d cs =>
      if decide (treeNodeType d = DATA_SOURCE)
      then match load n with Some loaded => TreeNode d (Some loaded) | None => n end
      else match cs with
           | None | Some [] => n
           | Some cs => TreeNode d (Some (map (hydrateNode load) cs))
           end
  end.

Definition hydrateTreeForSearch (load : TreeNodeData → option (list TreeNodeData)) (treeNodes : list TreeNodeData)
    : list TreeNodeData := map (hydrateNode load) treeNodes.

(** ** The pattern of a search text *)

Lemma removeUnderscores_app s t : removeUnderscores (s ++ t) = removeUnderscores s ++ removeUnderscores t.
Proof. apply filter_app. Qed.

Lemma escaped_literal v : regExpLiteral (removeUnderscores (escapeRegExp v)) = Some (removeUnderscores v).
Proof.
  induction v as [|c v IH]; [done|]. unfold escapeRegExp in *. cbn [flat_map].
  rewrite removeUnderscores_app. destruct (isSyntaxChar c) eqn:Es.
  - assert (c ≠ ch "_") as Hc by (intros ->; by vm_compute in Es).
    assert (removeUnderscores [ch "\"; c] = [ch "\"; c]) as ->.
    { unfold removeUnderscores. by rewrite !filter_cons, (decide_True (P := ch "\" ≠ ch "_")), decide_True. }
    cbn [app regExpLiteral]. rewrite decide_True, Es, IH by done. simpl. unfold removeUnderscores at 2.
    by rewrite filter_cons, decide_True.
  - unfold removeUnderscores at 1 3. rewrite !filter_cons, !filter_nil. case_decide as Hc; [|exact IH].
    cbn [app regExpLiteral]. rewrite decide_False, Es by (intros ->; by vm_compute in Es).
    by rewrite IH.
Qed.

(** ** What a search keeps *)

Section search_lemmas.
Context (test : TreeNodeData → bool).
Context (test_data : ∀ n m, nodeData n = nodeData m → test n = test m).

Lemma collect_matched n : collectMatchedFrom test n = nodeKey <$> List.filter test (preorder n).
Proof.
  induction n as [d|d cs IH] using tree_ind'; rewrite preorder_unfold; cbn [collectMatchedFrom childList nodeChildren default List.filter].
  - rewrite (right_id_L [] (++)). by case_test.
  - assert (flat_map (collectMatchedFrom test) cs = nodeKey <$> List.filter test (preorders cs)) as ->.
    { induction IH as [|c cs Hc _ IH]; [done|]. rewrite preorders_cons, List.filter_app, fmap_app.
      cbn [flat_map]. by rewrite Hc, IH. }
    simpl. by destruct (test (TreeNode d (Some cs))).
Qed.

Lemma matched_keys ns : matchedKeys (searchBy test ns) = nodeKey <$> List.filter test (preorders ns).
Proof.
  simpl. induction ns as [|n ns IH]; [done|].
  rewrite preorders_cons, List.filter_app, fmap_app. cbn [flat_map]. by rewrite collect_matched, IH.
Qed.

Definition kept (n : TreeNodeData) : bool := existsb test (preorder n).

Lemma kept_node d cs : kept (TreeNode d cs) = test (TreeNode d cs) || existsb kept (default [] cs).
Proof.
  unfold kept. rewrite preorder_unfold. simpl. f_equal.
  change (childList (TreeNode d cs)) with (default [] cs). induction (default [] cs) as [|c cs' IH]; [done|]. rewrite preorders_cons, existsb_app. simpl. by rewrite IH.
Qed.

(** A node that is kept: itself when it matches, otherwise its kept children. *)
Definition pruned (n n' : TreeNodeData) : Prop :=
  if test n then n' = n
  else ∃ cs, nodeChildren n = Some cs ∧ n' = TreeNode (nodeData n) (Some (omap fst (map (traverse test) cs))).

Lemma traverse_spec n :
  if kept n then ∃ n', (traverse test n).1 = Some n' ∧ pruned n n'
  else traverse test n = (None, []).
Proof.
  induction n as [d|d cs IH] using tree_ind'; rewrite kept_node; cbn [traverse default].
  - destruct (test (TreeNode d None)) eqn:Et; simpl; [|done]. exists (TreeNode d None). by unfold pruned; rewrite Et.
  - destruct (test (TreeNode d (Some cs))) eqn:Et; simpl.
    { exists (TreeNode d (Some cs)). by unfold pruned; rewrite Et. }
    assert (if existsb kept cs then omap fst (map (traverse test) cs) ≠ []
            else omap fst (map (traverse test) cs) = [] ∧ flat_map snd (map (traverse test) cs) = []) as Hcs.
    { clear Et. induction IH as [|c cs Hc _ IH]; [done|]. csimpl. destruct (kept c); simpl.
      - destruct Hc as (n'&->&_). done.
      - rewrite Hc. simpl. exact IH. }
    destruct (existsb kept cs).
    + destruct (omap fst (map (traverse test) cs)) as [|m ms] eqn:Em; [done|].
      eexists. split; [done|]. unfold pruned. rewrite Et. exists cs. by rewrite Em.
    + destruct Hcs as [-> ->]. done.
Qed.

Lemma traverse_none n : kept n = false → traverse test n = (None, []).
Proof. intros Hk. pose proof (traverse_spec n) as H. by rewrite Hk in H. Qed.

Lemma traverse_some n : kept n = true → ∃ n', (traverse test n).1 = Some n' ∧ pruned n n'.
Proof. intros Hk. pose proof (traverse_spec n) as H. by rewrite Hk in H. Qed.

(** The children that are kept, after [traverse]. *)
Definition keptNodes (ns : list TreeNodeData) : list TreeNodeData := omap fst (map (traverse test) ns).

Lemma keptNodes_cons n ns :
  keptNodes (n :: ns) = match (traverse test n).1 with Some n' => n' :: keptNodes ns | None => keptNodes ns end.
Proof. unfold keptNodes. cbn [map]. csimpl. by destruct (traverse test n).1. Qed.

(** No match is lost. *)
Lemma keptNodes_matches ns :
  Forall (λ n, List.filter test (preorders (keptNodes [n])) = List.filter test (preorder n)) ns →
  List.filter test (preorders (keptNodes ns)) = List.filter test (preorders ns).
Proof.
  induction 1 as [|n ns Hn _ IH]; [done|].
  rewrite preorders_cons, List.filter_app, <-Hn, <-IH, !keptNodes_cons. change (keptNodes []) with (@nil TreeNodeData).
  destruct (traverse test n).1 as [n'|]; [|done]. rewrite !preorders_cons, !List.filter_app. simpl.
  by rewrite (right_id_L [] (++)).
Qed.

Lemma kept_false_filter n : kept n = false → List.filter test (preorder n) = [].
Proof.
  unfold kept. generalize (preorder n). intros l. induction l as [|x l IH]; [done|]. simpl.
  intros [-> Hl]%orb_false_iff. by apply IH.
Qed.

Lemma traverse_matches n : List.filter test (preorders (keptNodes [n])) = List.filter test (preorder n).
Proof.
  induction n as [d|d cs IH] using tree_ind'.
  - unfold keptNodes. simpl. destruct (test (TreeNode d None)) eqn:Et; [|done]. simpl. by rewrite Et.
  - destruct (kept (TreeNode d (Some cs))) eqn:Ek.
    + destruct (traverse_some _ Ek) as (n'&Hn'&Hp). rewrite keptNodes_cons, Hn'. unfold pruned in Hp.
      change (keptNodes []) with (@nil TreeNodeData). rewrite preorders_cons. cbn [preorders flat_map].
      rewrite (right_id_L [] (++)). destruct (test (TreeNode d (Some cs))) eqn:Et; [by subst|]. destruct Hp as (cs'&[= <-]&->).
      fold (keptNodes cs). rewrite !preorder_unfold. cbn [List.filter nodeData].
      rewrite (test_data (TreeNode d (Some (keptNodes cs))) (TreeNode d (Some cs)) eq_refl), Et.
      by apply keptNodes_matches.
    + rewrite keptNodes_cons, (traverse_none _ Ek), (kept_false_filter _ Ek). done.
Qed.

Lemma search_matches ns : List.filter test (preorders (keptNodes ns)) = List.filter test (preorders ns).
Proof. apply keptNodes_matches, Forall_forall. intros n _. apply traverse_matches. Qed.

(** Searching the result again changes nothing. *)
Lemma keptNodes_again ns :
  Forall (λ n, keptNodes (keptNodes [n]) = keptNodes [n]) ns → keptNodes (keptNodes ns) = keptNodes ns.
Proof.
  induction 1 as [|n ns Hn _ IH]; [done|]. rewrite keptNodes_cons in Hn |- *.
  change (keptNodes []) with (@nil TreeNodeData) in Hn.
  destruct (traverse test n).1 as [n'|]; [|done]. rewrite keptNodes_cons in Hn |- *.
  change (keptNodes []) with (@nil TreeNodeData) in Hn.
  destruct (traverse test n').1 as [n''|]; [|done]. simplify_eq. by rewrite IH.
Qed.

Lemma traverse_again n : keptNodes (keptNodes [n]) = keptNodes [n].
Proof.
  induction n as [d|d cs IH] using tree_ind'.
  - unfold keptNodes. simpl. destruct (test (TreeNode d None)) eqn:Et; [|done]. simpl. by rewrite Et.
  - destruct (kept (TreeNode d (Some cs))) eqn:Ek.
    + destruct (traverse_some _ Ek) as (n'&Hn'&Hp). rewrite keptNodes_cons, Hn'. unfold pruned in Hp.
      destruct (test (TreeNode d (Some cs))) eqn:Et.
      { subst. rewrite keptNodes_cons. by rewrite Hn'. }
      destruct Hp as (cs'&[= <-]&->). fold (keptNodes cs). cbn [nodeData].
      rewrite keptNodes_cons. cbn [traverse].
      rewrite (test_data (TreeNode d (Some (keptNodes cs))) (TreeNode d (Some cs)) eq_refl), Et.
      fold (keptNodes (keptNodes cs)). rewrite keptNodes_again by done.
      cbn [traverse] in Hn'. rewrite Et in Hn'. fold (keptNodes cs) in Hn'.
      by destruct (keptNodes cs).
    + by rewrite keptNodes_cons, (traverse_none _ Ek).
Qed.

Lemma search_again ns : keptNodes (keptNodes ns) = keptNodes ns.
Proof. apply keptNodes_again, Forall_forall. intros n _. apply traverse_again. Qed.

(** The matches that are not below another match, and the nodes that a forest
    shows when the nodes of some keys are expanded. *)
Fixpoint topMatches (n : TreeNodeData) : list TreeNodeData :=
  if test n then [n]
  else match n with
       | TreeNode _ (Some cs) => flat_map topMatches cs
       | TreeNode _ None => []
       end.

Fixpoint shown (expanded : list jstr) (n : TreeNodeData) : list TreeNodeData :=
  n :: match n with
       | TreeNode d (Some cs) => if includes (key d) expanded then flat_map (shown expanded) cs else []
       | TreeNode _ None => []
       end.

Lemma elem_of_flat_map {A B} (f : A → list B) l y : y ∈ flat_map f l ↔ ∃ x, x ∈ l ∧ y ∈ f x.
Proof.
  rewrite list_elem_of_In, in_flat_map.
  split; intros (x&H1&H2); exists x; by rewrite !list_elem_of_In in *.
Qed.

Lemma kept_shown n expanded m :
  m ∈ topMatches n → (∀ k, k ∈ (traverse test n).2 → k ∈ expanded) →
  ∃ n', (traverse test n).1 = Some n' ∧ m ∈ shown expanded n'.
Proof.
  induction n as [d|d cs IH] using tree_ind'; cbn [topMatches traverse].
  - destruct (test (TreeNode d None)); [|by intros ?%not_elem_of_nil].
    intros ->%list_elem_of_singleton _. eexists. split; [done|]. by left.
  - destruct (test (TreeNode d (Some cs))).
    { intros ->%list_elem_of_singleton _. eexists. split; [done|]. by left. }
    fold (keptNodes cs). intros (c&Hc&Hm)%elem_of_flat_map Hexp. rewrite Forall_forall in IH.
    destruct (IH c Hc Hm) as (c'&Hc'&Hs).
    { intros k Hk. apply Hexp.
      assert (k ∈ flat_map snd (map (traverse test) cs)).
      { apply elem_of_flat_map. exists (traverse test c). split; [|done].
        apply list_elem_of_In, in_map. by apply list_elem_of_In. }
      destruct (keptNodes cs); [done|]. simpl. rewrite elem_of_app. by left. }
    assert (c' ∈ keptNodes cs) as Hin.
    { unfold keptNodes. apply list_elem_of_omap. exists (traverse test c). split; [|done].
      apply list_elem_of_In, in_map. by apply list_elem_of_In. }
    destruct (keptNodes cs) as [|k ks] eqn:Ek; [by apply not_elem_of_nil in Hin|].
    eexists. split; [done|]. cbn [shown]. right.
    assert (includes (key d) expanded = true) as ->.
    { apply includes_true, Hexp. simpl. rewrite elem_of_app, list_elem_of_singleton. by right. }
    apply elem_of_flat_map. by exists c'.
Qed.
End search_lemmas.

Lemma nodeMatches_data literal n m : nodeData n = nodeData m → nodeMatches literal n = nodeMatches literal m.
Proof. unfold nodeMatches. by intros ->. Qed.

(** The search of the object tree finds every match and shows it.  The escaped
    search text always is a valid pattern, which stands for the text without
    underscores.  The matched keys are those of the matching nodes, in display
    order; the nodes of the result hold all of them and, searched again, are the
    same; and after expanding the reported parents every match that is not below
    another one is displayed. *)
Theorem tree_search_spec treeNodes searchBarValue :
  let literal := removeUnderscores searchBarValue in
  ∃ result, searchTreeNodes treeNodes (escapeRegExp searchBarValue) = Some result ∧
    matchedKeys result = nodeKey <$> List.filter (nodeMatches literal) (preorders treeNodes) ∧
    List.filter (nodeMatches literal) (preorders (matchedNodes result)) =
      List.filter (nodeMatches literal) (preorders treeNodes) ∧
    (matchedNodes <$> searchTreeNodes (matchedNodes result) (escapeRegExp searchBarValue)) =
      Some (matchedNodes result) ∧
    ∀ m, m ∈ flat_map (topMatches (nodeMatches literal)) treeNodes →
      m ∈ flat_map (shown (parentIdsWithMatches result)) (matchedNodes result).
Proof.
  intros literal. unfold searchTreeNodes. rewrite escaped_literal. fold literal. simpl.
  pose proof (nodeMatches_data literal) as Hd.
  eexists. split; [done|]. split_and!.
  - apply matched_keys.
  - by apply search_matches.
  - f_equal. by apply search_again.
  - simpl. intros m (n&Hn&Hm)%elem_of_flat_map.
    destruct (kept_shown (nodeMatches literal) n (flat_map snd (map (traverse (nodeMatches literal)) treeNodes)) m Hm)
      as (n'&Hn'&Hs).
    + intros k Hk. apply elem_of_flat_map. exists (traverse (nodeMatches literal) n). split; [|done].
      apply list_elem_of_In, in_map. by apply list_elem_of_In.
    + apply elem_of_flat_map. exists n'. split; [|done]. apply list_elem_of_omap.
      exists (traverse (nodeMatches literal) n). split; [|done].
      apply list_elem_of_In, in_map. by apply list_elem_of_In.
Qed.

(** ** What a filter hides *)

(** A node may be displayed where the hidden identifiers [hiddenIds] hold. *)
Definition allowed (options : FilterTreeNodesOptions) (hiddenIds : option (list jstr)) (n : TreeNodeData) : Prop :=
  let d := nodeData n in
  treeNodeType d ∉ excludeNodes options ∧
  (hiddenNoPermission options = true → treeNodeType d = DATA_SOURCE → hasPermission (extraParams d) = true) ∧
  (treeNodeType d = DATABASE ∨ treeNodeType d = SCHEMA → ∀ ids, hiddenIds = Some ids → key d ∉ ids) ∧
  (treeNodeType d ∈ leafNodes options → nodeChildren n = None).

(** Every node of a tree may be displayed: below a data source, its hidden
    identifiers hold. *)
Inductive displayable (options : FilterTreeNodesOptions) : option (list jstr) → TreeNodeData → Prop :=
  | displayable_node inherited d cs :
      let hiddenIds := hiddenIdsAt options inherited d in
      allowed options hiddenIds (TreeNode d cs) →
      Forall (displayable options hiddenIds) (default [] cs) →
      displayable options inherited (TreeNode d cs).

Lemma isHidden_allowed options hiddenIds d cs :
  isHidden options hiddenIds d = false →
  (treeNodeType d ∈ leafNodes options → cs = None) →
  allowed options hiddenIds (TreeNode d cs).
Proof.
  unfold isHidden, allowed. intros Hh Hleaf. cbn [nodeData nodeChildren].
  apply orb_false_iff in Hh as [[Hex Hperm]%orb_false_iff Hid]. split_and!.
  - by apply includes_false.
  - intros Hp Hds. rewrite Hp, bool_decide_eq_true_2 in Hperm by done. simpl in Hperm.
    by apply negb_false_iff in Hperm.
  - intros Ht ids ->. apply andb_false_iff in Hid as [Hid|Hid]; [|by apply includes_false].
    apply orb_false_iff in Hid as [H1 H2]. to_prop. by destruct Ht.
  - done.
Qed.

Lemma asLeaf_hidden options inherited d :
  hiddenIdsAt options inherited (asLeaf d) = hiddenIdsAt options inherited d ∧
  ∀ ids, isHidden options ids (asLeaf d) = isHidden options ids d.
Proof. done. Qed.

Lemma filterNode_displayable options n inherited :
  Forall (displayable options inherited) (filterNode options inherited n).
Proof.
  revert inherited. induction n as [d|d cs IH] using tree_ind'; intros inherited; cbn [filterNode];
    destruct (isHidden options (hiddenIdsAt options inherited d) d) eqn:Eh; try constructor;
    destruct (includes (treeNodeType d) (leafNodes options)) eqn:El; try (constructor; [|constructor]).
  - constructor; [|constructor]. by apply isHidden_allowed.
  - constructor; [|constructor]. by apply isHidden_allowed.
  - constructor; [|constructor]. by apply isHidden_allowed.
  - constructor; [apply isHidden_allowed; [done|]|].
    + intros Hin. by apply includes_false in El.
    + simpl. clear El. induction IH as [|c cs Hc _ IHcs]; [constructor|]. cbn [flat_map].
      apply Forall_app. by split.
Qed.

Lemma allowed_not_hidden options hiddenIds n :
  allowed options hiddenIds n → isHidden options hiddenIds (nodeData n) = false.
Proof.
  intros (Hex&Hperm&Hids&_). unfold isHidden. rewrite (proj2 (includes_false _ _) Hex). simpl.
  apply orb_false_iff. split.
  - destruct (hiddenNoPermission options); [|done]. case_bool_decide; [|done]. simpl. by rewrite Hperm.
  - destruct hiddenIds as [l|]; [|by rewrite andb_false_r].
    destruct (decide (treeNodeType (nodeData n) = DATABASE ∨ treeNodeType (nodeData n) = SCHEMA)) as [Ht|Ht].
    + rewrite (proj2 (includes_false _ _) (Hids Ht l eq_refl)). by rewrite andb_false_r.
    + rewrite !bool_decide_eq_false_2 by (intros ?; apply Ht; auto). done.
Qed.

(** A tree that may be displayed stays, apart from the mark of leaves. *)
Definition sameNodes (options : FilterTreeNodesOptions) (ns ns' : list TreeNodeData) : Prop :=
  keysOf ns = keysOf ns' ∧ (leafNodes options = [] → ns = ns').

Lemma displayable_filter options n inherited :
  displayable options inherited n → sameNodes options (filterNode options inherited n) [n].
Proof.
  revert inherited. induction n as [d|d cs IH] using tree_ind'; intros inherited Hd;
    inversion Hd as [? ? ? ids Ha Hcs]; subst; cbn [filterNode]; fold ids;
    pose proof (allowed_not_hidden _ _ _ Ha) as Hh; cbn [nodeData] in Hh; rewrite Hh.
  - case_test; [|done]. split; [by rewrite !keysOf_node|]. intros Hl. rewrite Hl in Etest. done.
  - destruct (includes (treeNodeType d) (leafNodes options)) eqn:El.
    { destruct Ha as (_&_&_&Hleaf). apply includes_true in El. by specialize (Hleaf El). }
    assert (sameNodes options (flat_map (filterNode options ids) cs) cs) as [H1 H2].
    { clear -IH Hcs. simpl in Hcs. induction IH as [|c cs Hc _ IHcs]; [done|].
      apply Forall_cons in Hcs as [Hd Hcs]. destruct (Hc ids Hd) as [H1 H2], (IHcs Hcs) as [H3 H4].
      cbn [flat_map]. split.
      - by rewrite keysOf_app, H1, H3, <-keysOf_cons.
      - intros Hl. by rewrite H2, H4. }
    split; [by rewrite !keysOf_node; simpl; rewrite H1|]. intros Hl. by rewrite H2.
Qed.

Lemma filterNode_keys options n inherited : sublist (keysOf (filterNode options inherited n)) (keysOf [n]).
Proof.
  revert inherited. induction n as [d|d cs IH] using tree_ind'; intros inherited; cbn [filterNode].
  - repeat case_test; try done; apply sublist_nil_l.
  - case_test; [apply sublist_nil_l|]. case_test.
    { rewrite !keysOf_node. simpl. apply sublist_skip, sublist_nil_l. }
    rewrite !keysOf_node. simpl. apply sublist_skip.
    clear Etest Etest0. generalize (hiddenIdsAt options inherited d). intros ids.
    induction IH as [|c cs Hc _ IHcs]; [done|]. cbn [flat_map]. rewrite keysOf_app, keysOf_cons. by apply sublist_app.
Qed.

(** Nothing that is hidden is displayed, and only that is taken away.  All
    nodes of the filtered tree may be displayed: none of an excluded type, no
    data source without permission, no database or schema that is hidden in its
    data source, no children below a leaf type.  The keys are a part of those of
    the tree, in order; and a tree that may be displayed keeps all its nodes, so
    that filtering twice shows the same. *)
Theorem filter_displays tree options inherited :
  let shown := filterTreeNodesForDisplay tree options inherited in
  Forall (displayable options inherited) shown ∧
  sublist (keysOf shown) (keysOf tree) ∧
  (Forall (displayable options inherited) tree → keysOf shown = keysOf tree) ∧
  keysOf (filterTreeNodesForDisplay shown options inherited) = keysOf shown ∧
  (leafNodes options = [] → filterTreeNodesForDisplay shown options inherited = shown).
Proof.
  assert (∀ tree, Forall (displayable options inherited) tree →
    sameNodes options (filterTreeNodesForDisplay tree options inherited) tree) as Hsame.
  { intros ns. induction 1 as [|n ns Hn _ [IH1 IH2]]; [done|]. destruct (displayable_filter _ _ _ Hn) as [H1 H2].
    unfold filterTreeNodesForDisplay in *. cbn [flat_map]. split.
    - by rewrite keysOf_app, H1, IH1, <-keysOf_cons.
    - intros Hl. by rewrite H2, IH2. }
  intros shown. assert (Forall (displayable options inherited) shown) as Hshown.
  { unfold shown, filterTreeNodesForDisplay. induction tree as [|n ns IH]; [constructor|]. cbn [flat_map].
    apply Forall_app. split; [apply filterNode_displayable|exact IH]. }
  split_and!; [done| |by intros [? _]%Hsame|by apply Hsame|by apply Hsame].
  unfold shown, filterTreeNodesForDisplay. clear Hshown shown Hsame. induction tree as [|n ns IH]; [done|]. cbn [flat_map].
  rewrite keysOf_app, keysOf_cons. apply sublist_app; [apply filterNode_keys|exact IH].
Qed.

(** The search of the workspace shows visible nodes only. *)
Lemma workspace_search_visible treeData hidden v result :
  workspaceSearch treeData hidden v = Some result →
  ∀ k, k ∈ matchedKeys result →
    k ∈ keysOf (filterTreeNodesForDisplay treeData (mkFilter hidden false [] []) None).
Proof.
  unfold workspaceSearch. pose proof (escaped_literal v) as Hl. destruct (escapeRegExp v) as [|c t]; [done|].
  unfold searchTreeNodes. rewrite Hl. simpl. intros [= <-] k. rewrite matched_keys.
  intros (n&->&Hn)%list_elem_of_fmap. apply elem_of_list_filter in Hn as [Hn _]. by apply list_elem_of_fmap_2.
Qed.

(** Hydration keeps the keys above the data sources; a data source holds what was
    loaded, or what it had when its load failed. *)
Lemma hydrate_data load treeNodes :
  nodeData <$> hydrateTreeForSearch load treeNodes = nodeData <$> treeNodes.
Proof.
  induction treeNodes as [|[d cs] ns IH]; [done|]. unfold hydrateTreeForSearch in *. cbn [map].
  rewrite !fmap_cons, IH. f_equal. cbn [hydrateNode]. case_decide; [by case_match|]. by destruct cs as [[]|].
Qed.

Lemma hydrate_source load d cs :
  treeNodeType d = DATA_SOURCE →
  nodeChildren (hydrateNode load (TreeNode d cs)) = match load (TreeNode d cs) with Some l => Some l | None => cs end.
Proof. intros Ht. cbn [hydrateNode]. rewrite decide_True by done. by case_match. Qed.

(** Searching for a text that is no word of the tree's nodes below [sampleTree]. *)
Example search_sample :
  matchedKeys <$> workspaceSearch sampleTree None (js "B") = Some [js "b"].
Proof. vm_compute. reflexivity. Qed.

Example search_operators : workspaceSearch sampleTree None (js "a.c(") = Some (mkSearchResult [] [] []).
Proof. vm_compute. reflexivity. Qed.
