(* ===== verification/HiddenTreeNodes.v ===== *)
(** * HiddenTreeNodes: reading and writing the hidden nodes

    Models [store/tree/hiddenTreeNodeState.ts].  Initializations and writes are
    promises that wait for earlier ones.  A job is one of them; it is named by
    the number of its creation and waits for the jobs [waitsFor].  An
    initialization is cut where it awaits: [startJob] is the callback of [then]
    up to the read, [endJob] the code behind it, [finallyJob] the handler that
    forgets it.  A write runs its operation from [startJob] to [endJob]; the
    queue of writes goes on whether it succeeds or not. *)

From S2P Require Import Prelude.
Local Open Scope nat_scope.

(** ** Operations *)

Inductive JobKind := Initialization (atRevision : nat) | Write.
Inductive JobStatus := Queued | Running | Ended | Forgotten.

#[export] Instance JobKind_eq_dec : EqDecision JobKind.
Proof. solve_decision. Defined.
#[export] Instance JobStatus_eq_dec : EqDecision JobStatus.
Proof. solve_decision. Defined.

(** [failed]: the read of an initialization was rejected. *)
Record Job := mkJob { jobKind : JobKind; waitsFor : list nat; status : JobStatus; failed : bool }.

(** [writeQueue] is [None] before the first write, then the last write;
    [committed] lists the initializations that called [commit]. *)
Record HiddenState := mkHidden {
  revision : nat;
  initialized : bool;
  pendingInitialization : option nat;
  writeQueue : option nat;
  jobs : list Job;
  committed : list nat;
}.

Definition newHiddenState : HiddenState := mkHidden 0 false None None [] [].

(** A promise is settled: an initialization when its [finally] has run. *)
Definition settled (c : HiddenState) (n : nat) : bool :=
  match jobs c !! n with
  | Some j => match jobKind j with
              | Initialization _ => bool_decide (status j = Forgotten)
              | Write => bool_decide (status j = Ended)
              end
  | None => false
  end.

(** The job [n], known to be [j], gets another status. *)
Definition withStatus (n : nat) (j : Job) (s : JobStatus) (c : HiddenState) : HiddenState :=
  mkHidden (revision c) (initialized c) (pendingInitialization c) (writeQueue c)
    (<[n := mkJob (jobKind j) (waitsFor j) s (failed j)]> (jobs c)) (committed c).

(** The result: the promise that the caller gets; [None] is the settled [false]. *)
Definition initialize (force : bool) (c : HiddenState) : HiddenState * option nat :=
  let initialized' := if force then false else initialized c in
  let c' := mkHidden (revision c) initialized' (pendingInitialization c) (writeQueue c) (jobs c) (committed c) in
  match pendingInitialization c with
  | Some n => (c', Some n)
  | None =>
      if initialized' then (c', None)
      else
        let n := length (jobs c) in
        (mkHidden (revision c) initialized' (Some n) (writeQueue c)
           (jobs c ++ [mkJob (Initialization (revision c)) (option_list (writeQueue c)) Queued false]) (committed c),
         Some n)
  end.

Definition write (c : HiddenState) : HiddenState :=
  mkHidden (revision c) (initialized c) (pendingInitialization c) (Some (length (jobs c)))
    (jobs c ++ [mkJob Write (option_list (writeQueue c) ++ option_list (pendingInitialization c)) Queued false])
    (committed c).

Definition invalidatePendingInitialization (c : HiddenState) : HiddenState :=
  mkHidden (S (revision c)) (initialized c) None (writeQueue c) (jobs c) (committed c).

Definition reset (c : HiddenState) : HiddenState :=
  let c := invalidatePendingInitialization c in
  mkHidden (revision c) false (pendingInitialization c) (writeQueue c) (jobs c) (committed c).

(** The job can go on: all it waits for is settled. *)
Definition ready (c : HiddenState) (j : Job) : bool := forallb (settled c) (waitsFor j).

(** An initialization that the job waits for was rejected. *)
Definition prerequisiteFailed (c : HiddenState) (j : Job) : bool :=
  existsb (λ d, match jobs c !! d with
                | Some j' => bool_decide (jobKind j' ≠ Write) && failed j'
                | None => false
                end) (waitsFor j).

(** The callback of [then]: a stale initialization ends at once, another one
    reads; a write calls its operation, unless the initialization it waits for
    was rejected. *)
Definition startJob (n : nat) (c : HiddenState) : HiddenState :=
  match jobs c !! n with
  | Some j =>
      if bool_decide (status j = Queued) && ready c j then
        match jobKind j with
        | Initialization r => withStatus n j (if decide (r = revision c) then Running else Ended) c
        | Write => withStatus n j (if prerequisiteFailed c j then Ended else Running) c
        end
      else c
  | None => c
  end.

(** The read or the operation ends; [ok] is false when it fails. *)
Definition endJob (n : nat) (ok : bool) (c : HiddenState) : HiddenState :=
  match jobs c !! n with
  | Some j =>
      if bool_decide (status j = Running) then
        let c' := mkHidden (revision c) (initialized c) (pendingInitialization c) (writeQueue c)
                    (<[n := mkJob (jobKind j) (waitsFor j) Ended (negb ok)]> (jobs c)) (committed c) in
        match jobKind j with
        | Initialization r =>
            if ok && bool_decide (r = revision c)
            then mkHidden (revision c') true (pendingInitialization c') (writeQueue c') (jobs c') (committed c' ++ [n])
            else c'
        | Write => c'
        end
      else c
  | None => c
  end.

(** The handler of [finally]. *)
Definition finallyJob (n : nat) (c : HiddenState) : HiddenState :=
  match jobs c !! n with
  | Some j =>
      match jobKind j with
      | Initialization _ =>
          if bool_decide (status j = Ended) then
            let c' := withStatus n j Forgotten c in
            mkHidden (revision c') (initialized c')
              (if decide (pendingInitialization c = Some n) then None else pendingInitialization c)
              (writeQueue c') (jobs c') (committed c')
          else c
      | Write => c
      end
  | None => c
  end.

Inductive hidden_op :=
  | OpInitialize (force : bool)
  | OpWrite
  | OpReset
  | OpStart (n : nat)
  | OpEnd (n : nat) (ok : bool)
  | OpFinally (n : nat).

Definition hidden_step (c : HiddenState) (o : hidden_op) : HiddenState :=
  match o with
  | OpInitialize force => (initialize force c).1
  | OpWrite => write c
  | OpReset => reset c
  | OpStart n => startJob n c
  | OpEnd n ok => endJob n ok c
  | OpFinally n => finallyJob n c
  end.

Definition hidden_runs (c : HiddenState) (ops : list hidden_op) : HiddenState := fold_left hidden_step ops c.

(** [applyHiddenTreeNodeChanges]; [None] among the keys stands for [null] and
    [undefined].  A set is the list of its elements in insertion order. *)
Record HiddenTreeNodeChanges := mkChanges { add : list (option jstr); delete : list (option jstr) }.

Definition setAdd (k : jstr) (ids : list jstr) : list jstr := if includes k ids then ids else ids ++ [k].
Definition setDelete (k : jstr) (ids : list jstr) : list jstr := filter (λ x, x ≠ k) ids.

Definition applyHiddenTreeNodeChanges (currentIds : list jstr) (changedKeys : option HiddenTreeNodeChanges)
    : list jstr :=
  let nextIds := uniq currentIds in
  match changedKeys with
  | None => nextIds
  | Some changes =>
      let added := fold_left (λ ids k, match k with Some k => setAdd k ids | None => ids end) (add changes) nextIds in
      fold_left (λ ids k, match k with Some k => setDelete k ids | None => ids end) (delete changes) added
  end.

(** ** The invariant *)

Definition isWrite (c : HiddenState) (n : nat) : Prop := ∃ j, jobs c !! n = Some j ∧ jobKind j = Write.

(** An initialization of the current revision that is not forgotten. *)
Definition live (c : HiddenState) (n : nat) : Prop :=
  ∃ j, jobs c !! n = Some j ∧ jobKind j = Initialization (revision c) ∧ status j ≠ Forgotten.

(** [n] is the last write before [bound]. *)
Definition lastWrite (c : HiddenState) (bound : nat) (n : option nat) : Prop :=
  match n with
  | Some w => w < bound ∧ isWrite c w ∧ ∀ i, isWrite c i → i < bound → i ≤ w
  | None => ∀ i, isWrite c i → ¬ i < bound
  end.

Record hidden_ok (c : HiddenState) : Prop := {
  ok_queue : lastWrite c (length (jobs c)) (writeQueue c);
  ok_pending n : pendingInitialization c = Some n → n < length (jobs c) ∧ ¬ isWrite c n;
  ok_live n : live c n → pendingInitialization c = Some n;
  ok_revision n j r : jobs c !! n = Some j → jobKind j = Initialization r → r ≤ revision c;
  ok_deps n j d : jobs c !! n = Some j → d ∈ waitsFor j → d < n;
  ok_order n j : jobs c !! n = Some j → ∃ w, lastWrite c n w ∧ option_list w ⊆ waitsFor j;
  ok_after_init n j i : jobs c !! n = Some j → jobKind j = Write → i < n → live c i → i ∈ waitsFor j;
  ok_started n j : jobs c !! n = Some j → status j ≠ Queued → Forall (λ d, settled c d = true) (waitsFor j);
  ok_write_status n j : jobs c !! n = Some j → jobKind j = Write → status j ≠ Forgotten;
}.

Lemma new_hidden_ok : hidden_ok newHiddenState.
Proof.
  assert (∀ n j, jobs newHiddenState !! n = Some j → False) as Hno by by intros [].
  split.
  - intros i (j&Hj&_). by destruct (Hno _ _ Hj).
  - done.
  - intros n (j&Hj&_). by destruct (Hno _ _ Hj).
  - intros n j r Hj. by destruct (Hno _ _ Hj).
  - intros n j d Hj. by destruct (Hno _ _ Hj).
  - intros n j Hj. by destruct (Hno _ _ Hj).
  - intros n j i Hj. by destruct (Hno _ _ Hj).
  - intros n j Hj. by destruct (Hno _ _ Hj).
  - intros n j Hj. by destruct (Hno _ _ Hj).
Qed.

(** A job moves on. *)
Lemma update_job_ok c n j j' pend ini com :
  hidden_ok c → jobs c !! n = Some j → jobKind j' = jobKind j → waitsFor j' = waitsFor j →
  settled c n = false → (status j' ≠ Queued → Forall (λ d, settled c d = true) (waitsFor j)) →
  (jobKind j = Write → status j' ≠ Forgotten) →
  (pend = pendingInitialization c ∨
   status j' = Forgotten ∧ pend = if decide (pendingInitialization c = Some n) then None else pendingInitialization c) →
  hidden_ok (mkHidden (revision c) ini pend (writeQueue c) (<[n := j']> (jobs c)) com).
Proof.
  intros Hc Hj Hkind Hwaits Hset Hdeps Hforgot Hpend.
  set (c' := mkHidden (revision c) ini pend (writeQueue c) (<[n := j']> (jobs c)) com).
  assert (n < length (jobs c)) as Hn by by eapply lookup_lt_Some.
  assert (∀ i, jobs c' !! i = if decide (n = i) then Some j' else jobs c !! i) as Hlook.
  { intros i. simpl. destruct (decide (n = i)) as [<-|]; [by rewrite list_lookup_insert_eq|by rewrite list_lookup_insert_ne]. }
  assert (∀ i ji, jobs c' !! i = Some ji → ∃ ji0, jobs c !! i = Some ji0 ∧ jobKind ji = jobKind ji0 ∧
    waitsFor ji = waitsFor ji0) as Hold.
  { intros i ji. rewrite Hlook. destruct (decide (n = i)); [intros [= <-]; subst; by exists j|intros Hi; by exists ji]. }
  assert (∀ i, isWrite c' i ↔ isWrite c i) as Hwr.
  { intros i. unfold isWrite. rewrite Hlook. destruct (decide (n = i)); [subst|done]. rewrite Hj. split.
    - intros (?&[= <-]&?). exists j. split; [done|congruence].
    - intros (?&[= <-]&?). exists j'. split; [done|congruence]. }
  assert (∀ b w, lastWrite c b w → lastWrite c' b w) as Hlast.
  { intros b [w|]; simpl.
    - intros (?&?&Hmax). split_and!; [done|by apply Hwr|]. intros i Hi. apply Hmax. by apply Hwr.
    - intros Hmax i Hi. apply Hmax. by apply Hwr. }
  assert (∀ i, live c' i → live c i) as Hlive.
  { intros i (ji&Hi&Hk&Hs). rewrite Hlook in Hi. destruct (decide (n = i)); [|by exists ji]. subst i. simplify_eq.
    exists j. split_and!; [done|simpl in Hk; congruence|]. intros Hf. unfold settled in Hset. rewrite Hj in Hset.
    simpl in Hk. rewrite <-Hkind, Hk, bool_decide_eq_true_2 in Hset by done. done. }
  assert (∀ d, settled c d = true → settled c' d = true) as Hmono.
  { intros d Hd. unfold settled. rewrite Hlook. destruct (decide (n = d)); [subst; congruence|exact Hd]. }
  split.
  - change (jobs c') with (<[n := j']> (jobs c)). rewrite length_insert. apply Hlast, Hc.
  - intros m Hm. change (jobs c') with (<[n := j']> (jobs c)). rewrite length_insert, Hwr.
    apply (ok_pending c Hc). simpl in Hm. destruct Hpend as [->|[_ ->]]; [done|]. by case_decide.
  - intros m Hm. pose proof (ok_live c Hc m (Hlive m Hm)) as Hp. simpl.
    destruct Hpend as [->|[Hf ->]]; [done|]. rewrite decide_False; [done|].
    intros Hpn. assert (m = n) as -> by congruence. destruct Hm as (jm&Hjm&_&Hs).
    rewrite Hlook, decide_True in Hjm by done. congruence.
  - intros m jm r Hjm Hr. destruct (Hold m jm Hjm) as (j0&Hj0&Hk&_). apply (ok_revision c Hc m j0); congruence.
  - intros m jm d Hjm Hd. destruct (Hold m jm Hjm) as (j0&Hj0&_&Hw). rewrite Hw in Hd. by eapply ok_deps.
  - intros m jm Hjm. destruct (Hold m jm Hjm) as (j0&Hj0&_&Hw). destruct (ok_order c Hc m j0 Hj0) as (w&Hl&Hin).
    exists w. rewrite Hw. split; [by apply Hlast|done].
  - intros m jm i Hjm Hk Hi Hl. destruct (Hold m jm Hjm) as (j0&Hj0&Hk0&Hw). rewrite Hw.
    eapply (ok_after_init c Hc m j0 i); [done|congruence|done|by apply Hlive].
  - intros m jm Hjm Hs. eapply Forall_impl; [|apply Hmono]. rewrite Hlook in Hjm. destruct (decide (n = m)); [simplify_eq|].
    + rewrite Hwaits. by apply Hdeps.
    + by eapply ok_started.
  - intros m jm Hjm Hk. rewrite Hlook in Hjm. destruct (decide (n = m)); [simplify_eq|by eapply ok_write_status].
    apply Hforgot. congruence.
Qed.

(** A job is added: a write goes to the end of the queue, an initialization
    becomes the pending one. *)
Lemma append_job_ok c k deps ini :
  hidden_ok c →
  (k = Write ∧ deps = option_list (writeQueue c) ++ option_list (pendingInitialization c)) ∨
  (k = Initialization (revision c) ∧ pendingInitialization c = None ∧ deps = option_list (writeQueue c)) →
  hidden_ok (mkHidden (revision c) ini
    (if decide (k = Write) then pendingInitialization c else Some (length (jobs c)))
    (if decide (k = Write) then Some (length (jobs c)) else writeQueue c)
    (jobs c ++ [mkJob k deps Queued false]) (committed c)).
Proof.
  intros Hc Hk. set (n := length (jobs c)). set (j := mkJob k deps Queued false).
  match goal with |- hidden_ok ?x => set (c' := x) end.
  assert (∀ i ji, jobs c' !! i = Some ji ↔ i < n ∧ jobs c !! i = Some ji ∨ i = n ∧ ji = j) as Hlook.
  { intros i ji. simpl. rewrite lookup_app_Some. fold n. split.
    - intros [Hi|[Hi Hj]]; [left; split; [by eapply lookup_lt_Some|done]|right].
      apply list_lookup_singleton_Some in Hj as [??]. split; [lia|done].
    - intros [[_ Hi]|[-> ->]]; [by left|]. right. by rewrite Nat.sub_diag. }
  assert (∀ i, isWrite c' i ↔ isWrite c i ∨ i = n ∧ k = Write) as Hwr.
  { intros i. unfold isWrite. split.
    - intros (ji&[[_ Hi]|[-> ->]]%Hlook&Hkind); [left; by exists ji|by right].
    - intros [(ji&Hi&Hkind)|[-> Hkind]].
      + exists ji. rewrite Hlook. split; [|done]. left. split; [by eapply lookup_lt_Some|done].
      + exists j. rewrite Hlook. split; [by right|done]. }
  assert (∀ i, isWrite c i → i < n) as Hwlt by (intros i (ji&Hi&_); by eapply lookup_lt_Some).
  assert (∀ b w, b ≤ n → lastWrite c b w → lastWrite c' b w) as Hlast.
  { intros b [w|] Hb; simpl.
    - intros (?&?&Hmax). split_and!; [done|apply Hwr; by left|]. intros i [Hi|[-> _]]%Hwr ?; [by apply Hmax|lia].
    - intros Hmax i [Hi|[-> _]]%Hwr ?; [by eapply Hmax|lia]. }
  assert (∀ i, live c' i → live c i ∨ i = n ∧ k ≠ Write) as Hlive.
  { intros i (ji&[[_ Hi]|[-> ->]]%Hlook&Hkind&Hs); [left; by exists ji|].
    right. split; [done|]. simpl in Hkind. by rewrite Hkind. }
  assert (∀ d, settled c d = true → settled c' d = true) as Hmono.
  { intros d. unfold settled. destruct (jobs c !! d) as [jd|] eqn:Ed; [|done].
    assert (jobs c' !! d = Some jd) as ->; [|done]. apply Hlook. left. split; [by eapply lookup_lt_Some|done]. }
  assert (Forall (λ d, d < n) deps ∧ option_list (writeQueue c) ⊆ deps) as [Hdeps Hqueue].
  { pose proof (ok_queue c Hc) as Hq. pose proof (ok_pending c Hc) as Hp.
    assert (Forall (λ d, d < n) (option_list (writeQueue c))) as Hqd.
    { destruct (writeQueue c); [constructor; [apply Hq|constructor]|constructor]. }
    destruct Hk as [[_ ->]|(_&_&->)]; [|done]. split; [|set_solver]. apply Forall_app. split; [done|].
    destruct (pendingInitialization c) as [p|]; [constructor; [by apply (Hp p)|constructor]|constructor]. }
  assert (length (jobs c') = S n) as Hlen by (simpl; rewrite length_app; simpl; lia).
  split.
  - rewrite Hlen. simpl. destruct (decide (k = Write)) as [Hw|Hw]; simpl.
    + split_and!; [lia|apply Hwr; by right|lia].
    + pose proof (ok_queue c Hc) as Hq. fold n in Hq. destruct (writeQueue c) as [w|]; simpl in *.
      * destruct Hq as (?&?&Hmax). split_and!; [lia|apply Hwr; by left|].
        intros i [Hi|[-> ?]]%Hwr _; [|done]. apply Hmax; auto.
      * intros i [Hi|[-> ?]]%Hwr _; [|done]. apply (Hq i Hi); auto.
  - intros m Hm. rewrite Hlen, Hwr. simpl in Hm. destruct (decide (k = Write)) as [Hw|Hw].
    + destruct (ok_pending c Hc m Hm) as [Hpl ?]. fold n in Hpl. split; [lia|]. intros [?|[Hmn _]]; [done|lia].
    + injection Hm as <-. split; [fold n; lia|]. intros [Hi%Hwlt|[_ ?]]; [fold n in Hi; lia|done].
  - intros m Hm%Hlive. simpl. destruct (decide (k = Write)) as [Hw|Hw].
    + destruct Hm as [Hm|[_ ?]]; [by apply (ok_live c Hc)|done].
    + destruct Hm as [Hm|[-> _]]; [|done]. destruct Hk as [[? _]|(_&Hp&_)]; [done|].
      pose proof (ok_live c Hc m Hm). congruence.
  - intros m jm r [[_ Hm]|[-> ->]]%Hlook Hr; [by eapply (ok_revision c Hc m jm)|]. simpl in *.
    destruct Hk as [[-> _]|(->&_)]; [done|]. by simplify_eq.
  - intros m jm d [[_ Hm]|[-> ->]]%Hlook Hd; [by eapply (ok_deps c Hc m jm)|].
    rewrite Forall_forall in Hdeps. by apply Hdeps.
  - intros m jm [[Hlt Hm]|[-> ->]]%Hlook.
    + destruct (ok_order c Hc m jm Hm) as (w&Hl&Hin). exists w. split; [apply Hlast; [lia|done]|done].
    + exists (writeQueue c). split; [apply Hlast; [lia|apply (ok_queue c Hc)]|done].
  - intros m jm i [[Hlt Hm]|[-> ->]]%Hlook Hkm Hi Hl%Hlive.
    + destruct Hl as [Hl|[-> _]]; [by eapply (ok_after_init c Hc m jm)|lia].
    + destruct Hl as [Hl|[-> _]]; [|lia]. simpl in Hkm. simpl.
      destruct Hk as [[_ ->]|(->&_)]; [|done]. apply (ok_live c Hc) in Hl. rewrite Hl. set_solver.
  - intros m jm [[_ Hm]|[-> ->]]%Hlook Hs; [|done].
    eapply Forall_impl; [by eapply (ok_started c Hc m jm)|]. apply Hmono.
  - intros m jm [[_ Hm]|[-> ->]]%Hlook Hkm; [by eapply (ok_write_status c Hc m jm)|done].
Qed.

(** Only the flags change, or the revision goes on. *)
Lemma flags_ok c ini com :
  hidden_ok c → hidden_ok (mkHidden (revision c) ini (pendingInitialization c) (writeQueue c) (jobs c) com).
Proof. intros []. by split. Qed.

Lemma reset_ok c : hidden_ok c → hidden_ok (reset c).
Proof.
  intros Hc. assert (∀ n, ¬ live (reset c) n) as Hno.
  { intros n (j&Hj&Hk&_). simpl in *. pose proof (ok_revision c Hc n j _ Hj Hk). lia. }
  pose proof Hc as []. split; try done.
  - intros n Hn. by destruct (Hno n).
  - intros n j r Hj Hk. simpl. specialize (ok_revision0 n j r Hj Hk). lia.
  - intros n j i _ _ _ Hl. by destruct (Hno i).
Qed.

Lemma ready_deps c j : ready c j = true → Forall (λ d, settled c d = true) (waitsFor j).
Proof. unfold ready. intros Hr. rewrite forallb_forall in Hr. apply Forall_forall. intros d Hd. by apply Hr, list_elem_of_In. Qed.

Lemma not_settled c n j : jobs c !! n = Some j → status j = Queued ∨ status j = Running → settled c n = false.
Proof. intros Hj Hs. unfold settled. rewrite Hj. destruct Hs as [-> | ->]; by destruct (jobKind j). Qed.

Lemma hidden_step_ok c o : hidden_ok c → hidden_ok (hidden_step c o).
Proof.
  intros Hc. destruct o as [force| | |n|n ok|n]; simpl.
  - unfold initialize. destruct (pendingInitialization c) as [p|] eqn:Ep; [by rewrite <-Ep; apply flags_ok|].
    case_test; [by rewrite <-Ep; apply flags_ok|].
    pose proof (append_job_ok c (Initialization (revision c)) (option_list (writeQueue c)) false Hc) as Ha.
    rewrite !decide_False in Ha by done. apply Ha. by right.
  - pose proof (append_job_ok c Write (option_list (writeQueue c) ++ option_list (pendingInitialization c))
      (initialized c) Hc) as Ha. rewrite !decide_True in Ha by done. apply Ha. by left.
  - by apply reset_ok.
  - unfold startJob. destruct (jobs c !! n) as [j|] eqn:Hj; [|done]. case_test; [|done]. to_prop.
    assert (settled c n = false) as Hset by (apply (not_settled c n j Hj); auto).
    destruct (jobKind j) eqn:Hkind; apply (update_job_ok c n j); auto; simpl; try congruence;
      try (intros _; by apply ready_deps); try done. by destruct (prerequisiteFailed c j).
  - unfold endJob. destruct (jobs c !! n) as [j|] eqn:Hj; [|done]. case_test; [|done]. to_prop.
    assert (settled c n = false) as Hset by (apply (not_settled c n j Hj); auto).
    assert (∀ ini com, hidden_ok (mkHidden (revision c) ini (pendingInitialization c) (writeQueue c)
      (<[n := mkJob (jobKind j) (waitsFor j) Ended (negb ok)]> (jobs c)) com)) as Hend.
    { intros ini com. apply (update_job_ok c n j); auto; simpl; try done.
      intros _. eapply (ok_started c Hc n j Hj). congruence. }
    destruct (jobKind j); [|apply Hend]. case_test; apply Hend.
  - unfold finallyJob. destruct (jobs c !! n) as [j|] eqn:Hj; [|done].
    destruct (jobKind j) eqn:Hkind; [|done]. case_test; [|done]. to_prop.
    apply (update_job_ok c n j); auto; simpl; try congruence.
    + unfold settled. rewrite Hj, Hkind. apply bool_decide_eq_false_2. congruence.
    + intros _. eapply (ok_started c Hc n j Hj). congruence.
Qed.

Lemma hidden_runs_ok c ops : hidden_ok c → hidden_ok (hidden_runs c ops).
Proof. revert c. induction ops as [|o ops IH]; intros c Hc; [done|]. by apply IH, hidden_step_ok. Qed.

Lemma hidden_reachable ops : hidden_ok (hidden_runs newHiddenState ops).
Proof. apply hidden_runs_ok, new_hidden_ok. Qed.

(** ** One at a time *)

(** The write runs, or the initialization reads what it can still commit. *)
Definition activeJob (c : HiddenState) (n : nat) : Prop :=
  ∃ j, jobs c !! n = Some j ∧ status j = Running ∧
    (jobKind j = Write ∨ jobKind j = Initialization (revision c)).

Lemma settled_write c w : isWrite c w → settled c w = true → ∃ j, jobs c !! w = Some j ∧ jobKind j = Write ∧ status j = Ended.
Proof.
  intros (j&Hj&Hk). unfold settled. rewrite Hj, Hk. intros Hs. to_prop. by exists j.
Qed.

(** A job that has started comes after all earlier writes. *)
Lemma started_after_writes c i j w :
  hidden_ok c → jobs c !! i = Some j → status j ≠ Queued → isWrite c w → w < i →
  ∃ jw, jobs c !! w = Some jw ∧ jobKind jw = Write ∧ status jw = Ended.
Proof.
  intros Hc. revert j. induction (lt_wf i) as [i _ IH]. intros j Hj Hs Hw Hlt.
  destruct (ok_order c Hc i j Hj) as ([l|]&Hl&Hin); simpl in Hl; [|by destruct (Hl w Hw)].
  destruct Hl as (Hli&Hlw&Hmax). pose proof (ok_started c Hc i j Hj Hs) as Hset. rewrite Forall_forall in Hset.
  destruct (settled_write c l Hlw) as (jl&Hjl&Hkl&Hsl); [apply Hset, Hin; simpl; set_solver|].
  destruct (decide (w = l)) as [->|Hne]; [by exists jl|]. specialize (Hmax w Hw Hlt).
  apply (IH l Hli jl); [done|congruence|done|lia].
Qed.

Lemma active_order c n i : hidden_ok c → activeJob c n → activeJob c i → n < i → False.
Proof.
  intros Hc (jn&Hn&Hsn&Hkn) (ji&Hi&Hsi&Hki) Hlt. destruct Hkn as [Hkn|Hkn].
  - destruct (started_after_writes c i ji n Hc Hi) as (jw&Hjw&_&Hsw); [congruence|by exists jn|done|]. congruence.
  - assert (live c n) as Hl by (exists jn; split_and!; [done|done|congruence]). destruct Hki as [Hki|Hki].
    + pose proof (ok_after_init c Hc i ji n Hi Hki Hlt Hl) as Hin.
      assert (status ji ≠ Queued) as Hnq by congruence.
      pose proof (ok_started c Hc i ji Hi Hnq) as Hset. rewrite Forall_forall in Hset. specialize (Hset n Hin).
      unfold settled in Hset. rewrite Hn, Hkn in Hset. to_prop. congruence.
    + assert (live c i) as Hl' by (exists ji; split_and!; [done|done|congruence]).
      apply (ok_live c Hc) in Hl, Hl'. simplify_eq. lia.
Qed.

(** A job keeps its kind; the revision never goes back. *)
Lemma hidden_step_kind c o i j :
  jobs c !! i = Some j →
  (∃ j', jobs (hidden_step c o) !! i = Some j' ∧ jobKind j' = jobKind j) ∧ revision c ≤ revision (hidden_step c o).
Proof.
  intros Hi.
  assert (∀ n jn s f, jobs c !! n = Some jn →
    ∃ j', <[n := mkJob (jobKind jn) (waitsFor jn) s f]> (jobs c) !! i = Some j' ∧ jobKind j' = jobKind j) as Hins.
  { intros n jn s f Hn. destruct (decide (n = i)) as [->|Hne].
    - rewrite list_lookup_insert_eq by (by eapply lookup_lt_Some). eexists. split; [done|]. simpl. congruence.
    - rewrite list_lookup_insert_ne by done. by exists j. }
  destruct o as [force| | |n|n ok|n]; simpl.
  - unfold initialize. destruct (pendingInitialization c); simpl; [by split; [exists j|]|].
    case_test; simpl; (split; [exists j|done]); [done|]. split; [by apply lookup_app_l_Some|done].
  - split; [exists j|done]. split; [by apply lookup_app_l_Some|done].
  - split; [by exists j|lia].
  - unfold startJob. destruct (jobs c !! n) as [jn|] eqn:Hn; [|by split; [exists j|]].
    case_test; [|by split; [exists j|]]. destruct (jobKind jn) eqn:Hk; simpl; rewrite <-?Hk; split; eauto.
  - unfold endJob. destruct (jobs c !! n) as [jn|] eqn:Hn; [|by split; [exists j|]].
    case_test; [|by split; [exists j|]]. destruct (jobKind jn) eqn:Hk; [case_test|]; simpl; rewrite <-?Hk; split; eauto.
  - unfold finallyJob. destruct (jobs c !! n) as [jn|] eqn:Hn; [|by split; [exists j|]].
    destruct (jobKind jn) eqn:Hk; [|by split; [exists j|]]. case_test; [|by split; [exists j|]].
    simpl. rewrite <-?Hk. split; eauto.
Qed.

(** Only a running initialization of the current revision commits. *)
Lemma hidden_step_committed c o :
  committed (hidden_step c o) = committed c ∨
  ∃ n, o = OpEnd n true ∧ committed (hidden_step c o) = committed c ++ [n] ∧ activeJob c n ∧ ¬ isWrite c n.
Proof.
  destruct o as [force| | |n|n ok|n]; simpl; try by left.
  - left. unfold initialize. destruct (pendingInitialization c); [done|]. by case_test.
  - left. unfold startJob. destruct (jobs c !! n) as [j|]; [|done]. case_test; [|done]. by destruct (jobKind j).
  - unfold endJob. destruct (jobs c !! n) as [j|] eqn:Hj; [|by left]. case_test; [|by left]. to_prop.
    destruct (jobKind j) as [r|] eqn:Hk; [|by left]. case_test; [|by left]. to_prop. subst r.
    destruct ok; [|done]. right. exists n. split_and!; [done|done| |].
    + exists j. split_and!; [done|done|by right].
    + intros (j'&Hj'&Hk'). congruence.
  - left. unfold finallyJob. destruct (jobs c !! n) as [j|]; [|done]. destruct (jobKind j); [|done]. by case_test.
Qed.

(** A job that may not commit any more. *)
Definition staleJob (c : HiddenState) (i : nat) : Prop :=
  ∃ j, jobs c !! i = Some j ∧ ∀ r, jobKind j = Initialization r → r < revision c.

Lemma stale_step c o i :
  staleJob c i → i ∉ committed c → i ∉ committed (hidden_step c o) ∧ staleJob (hidden_step c o) i.
Proof.
  intros (j&Hj&Hr) Hin. destruct (hidden_step_kind c o i j Hj) as [(j'&Hj'&Hk') Hrev]. split.
  - destruct (hidden_step_committed c o) as [->|(n&->&->&(jn&Hjn&_&Hact)&Hnw)]; [done|].
    rewrite elem_of_app, list_elem_of_singleton. intros [?|<-]; [done|]. assert (jn = j) as -> by congruence.
    destruct Hact as [Hact|Hact]; [by apply Hnw; exists j|]. specialize (Hr _ Hact). lia.
  - exists j'. rewrite Hk'. split; [done|]. intros r Hkr. specialize (Hr r Hkr). lia.
Qed.

Lemma stale_runs c ops i : staleJob c i → i ∉ committed c → i ∉ committed (hidden_runs c ops).
Proof.
  revert c. induction ops as [|o ops IH]; intros c Hs Hin; [done|].
  destruct (stale_step c o i Hs Hin). by apply IH.
Qed.

(** A read or a write that has begun and not ended. *)
Definition inProgress (c : HiddenState) (n : nat) : Prop := ∃ j, jobs c !! n = Some j ∧ status j = Running.

(** An initialization that was called before a reset. *)
Definition outdated (c : HiddenState) (n : nat) : Prop :=
  ∃ j r, jobs c !! n = Some j ∧ jobKind j = Initialization r ∧ r < revision c.

Lemma progress_active c n : hidden_ok c → inProgress c n → activeJob c n ∨ outdated c n.
Proof.
  intros Hc (j & Hj & Hs). destruct (jobKind j) as [r|] eqn:Hk; [|left; exists j; tauto].
  destruct (decide (r = revision c)) as [->|Hne]; [left; exists j; tauto|right]. exists j, r. pose proof (ok_revision c Hc n j r Hj Hk).
  split_and!; [done|done|lia].
Qed.

Lemma outdated_stale c n : outdated c n → staleJob c n.
Proof. intros (j & r & Hj & Hk & Hr). exists j. split; [done|]. intros r' Hk'. congruence. Qed.

(** C17: reads and writes of the hidden nodes take turns.  In every reachable
    state, of two reads or writes in progress one is a read that was called before a reset, and such a
    read commits nothing any more, whatever follows.  So a read that commits, commits
    while no write and no other read of its time is in progress, and when all writes requested before it
    have ended. *)
Theorem hidden_reads_and_writes ops :
  let c := hidden_runs newHiddenState ops in
  (∀ n i, inProgress c n → inProgress c i → n ≠ i → outdated c n ∨ outdated c i) ∧
  (∀ o n, committed (hidden_step c o) = committed c ++ [n] →
     inProgress c n ∧ ¬ outdated c n ∧ (∀ i, inProgress c i → i ≠ n → outdated c i) ∧
     ∀ w, isWrite c w → w < n → ∃ jw, jobs c !! w = Some jw ∧ status jw = Ended) ∧
  (∀ ops' i, outdated c i → i ∈ committed (hidden_runs c ops') → i ∈ committed c) ∧
  (∀ i, i < length (jobs c) → ¬ isWrite c i → outdated (reset c) i).
Proof.
  intros c. assert (hidden_ok c) as Hc by apply hidden_reachable.
  assert (∀ n i, activeJob c n → activeJob c i → n = i) as Hone.
  { intros n i Hn Hi. destruct (lt_eq_lt_dec n i) as [[Hlt|Heq]|Hlt]; [exfalso|done|exfalso]; [by apply (active_order c n i)|by apply (active_order c i n)]. }
  split_and!.
  - intros n i Hn Hi Hne. destruct (progress_active c n Hc Hn) as [Ha|?]; [|by left].
    destruct (progress_active c i Hc Hi) as [Hb|?]; [|by right]. by destruct Hne; apply Hone.
  - intros o n Hcom. destruct (hidden_step_committed c o) as [Heq|(m&_&Heq&Hact&Hnw)]; rewrite Heq in Hcom.
    { apply (f_equal length) in Hcom. rewrite length_app in Hcom. simpl in Hcom. lia. }
    apply app_inv_head in Hcom. simplify_eq. pose proof Hact as (j & Hj & Hs & Hk). split_and!; [by exists j| | |].
    + intros (j' & r & Hj' & Hk' & Hr). assert (j' = j) as -> by congruence. destruct Hk as [Hk|Hk]; [congruence|]. rewrite Hk' in Hk. simplify_eq. lia.
    + intros i Hi Hne. destruct (progress_active c i Hc Hi) as [Hb|?]; [|done]. by destruct Hne; apply Hone.
    + intros w Hw Hlt. destruct (started_after_writes c n j w Hc Hj) as (jw&?&_&?); [congruence|done|done|]. by exists jw.
  - intros ops' i Hi%outdated_stale Hin. destruct (decide (i ∈ committed c)) as [|Hni]; [done|exfalso]. by apply (stale_runs c ops' i).
  - intros i Hi Hnw. destruct (lookup_lt_is_Some_2 (jobs c) i Hi) as [j Hj]. destruct (jobKind j) as [r|] eqn:Hk; [|by destruct Hnw; exists j].
    exists j, r. pose proof (ok_revision c Hc i j r Hj Hk). split_and!; [done|done|simpl; lia].
Qed.

(** A read from before a reset may still run beside a write. *)
Example outdated_read_beside_write :
  let c := hidden_runs newHiddenState [OpInitialize false; OpStart 0; OpReset; OpWrite; OpStart 1] in
  status <$> jobs c = [Running; Running] ∧ committed (hidden_step c (OpEnd 0 true)) = [].
Proof. vm_compute. done. Qed.

(** ** Nothing waits for ever *)

(** The steps of jobs, and the work left. *)
Definition job_step (o : hidden_op) : Prop :=
  match o with OpStart _ | OpEnd _ _ | OpFinally _ => True | _ => False end.

Definition stepsLeft (j : Job) : nat :=
  match status j with Queued => 3 | Running => 2 | Ended => 1 | Forgotten => 0 end.

Definition workLeft (c : HiddenState) : nat := sum_list (stepsLeft <$> jobs c).

Lemma sum_insert (l : list Job) n j j' :
  l !! n = Some j → sum_list (stepsLeft <$> <[n := j']> l) + stepsLeft j = sum_list (stepsLeft <$> l) + stepsLeft j'.
Proof.
  revert n. induction l as [|x l IH]; intros [|n] Hn; simplify_eq/=; [lia|]. specialize (IH n Hn). lia.
Qed.

Lemma work_decreases c j j' n :
  jobs c !! n = Some j → stepsLeft j' < stepsLeft j →
  sum_list (stepsLeft <$> <[n := j']> (jobs c)) < workLeft c.
Proof. intros Hj Hlt. unfold workLeft. pose proof (sum_insert (jobs c) n j j' Hj). lia. Qed.

Lemma job_step_work c o : job_step o → hidden_step c o = c ∨ workLeft (hidden_step c o) < workLeft c.
Proof.
  intros Ho. destruct o as [| | |n|n ok|n]; [done..| | |]; simpl.
  - unfold startJob. destruct (jobs c !! n) as [j|] eqn:Hj; [|by left]. case_test; [|by left]. to_prop. right.
    destruct (jobKind j) as [r|]; (eapply work_decreases; [done|]); unfold stepsLeft; simpl; rewrite H;
      [destruct (decide (r = revision c))|destruct (prerequisiteFailed c j)]; lia.
  - unfold endJob. destruct (jobs c !! n) as [j|] eqn:Hj; [|by left]. case_test; [|by left]. to_prop. right.
    destruct (jobKind j); [case_test|]; (eapply work_decreases; [done|]); unfold stepsLeft; simpl; rewrite Etest; lia.
  - unfold finallyJob. destruct (jobs c !! n) as [j|] eqn:Hj; [|by left]. destruct (jobKind j); [|by left].
    case_test; [|by left]. to_prop. right.
    (eapply work_decreases; [done|]); unfold stepsLeft; simpl; rewrite Etest; lia.
Qed.

(** The first job that is not settled can move. *)
Lemma first_unsettled c n :
  hidden_ok c → n < length (jobs c) → settled c n = false → (∀ i, i < n → settled c i = true) →
  ∃ o, job_step o ∧ hidden_step c o ≠ c.
Proof.
  intros Hc Hn Hset Hbefore. destruct (lookup_lt_is_Some_2 (jobs c) n Hn) as [j Hj].
  assert (∀ c' s f, jobs c' = <[n := mkJob (jobKind j) (waitsFor j) s f]> (jobs c) → s ≠ status j → c' ≠ c) as Hmove.
  { intros c' s f Hjobs Hs ->. assert (jobs c !! n = Some (mkJob (jobKind j) (waitsFor j) s f)) as Hj'.
    { rewrite Hjobs. by rewrite list_lookup_insert_eq. }
    rewrite Hj in Hj'. injection Hj' as Heq. apply Hs. by rewrite Heq. }
  unfold settled in Hset. rewrite Hj in Hset. destruct (status j) eqn:Hs.
  - exists (OpStart n). split; [done|]. simpl. unfold startJob. rewrite Hj, Hs.
    assert (ready c j = true) as Hr.
    { unfold ready. apply forallb_forall. intros d Hd%list_elem_of_In. apply Hbefore. by eapply (ok_deps c Hc). }
    rewrite bool_decide_eq_true_2, Hr by done. unfold withStatus. simpl.
    destruct (jobKind j) eqn:Hk; (eapply Hmove; [reflexivity|]).
    + by destruct (decide _).
    + by destruct (prerequisiteFailed c j).
  - exists (OpEnd n true). split; [done|]. simpl. unfold endJob. rewrite Hj, Hs, bool_decide_eq_true_2 by done.
    destruct (jobKind j) eqn:Hk; [case_test|]; (eapply Hmove; [reflexivity|done]).
  - exists (OpFinally n). split; [done|]. simpl. unfold finallyJob, withStatus. rewrite Hj.
    destruct (jobKind j) eqn:Hk; [|by rewrite bool_decide_eq_true_2 in Hset].
    rewrite Hs, bool_decide_eq_true_2 by done. eapply Hmove; [reflexivity|done].
  - destruct (jobKind j) eqn:Hk; [by rewrite bool_decide_eq_true_2 in Hset|].
    exfalso. by eapply (ok_write_status c Hc n j).
Qed.

Lemma least_unsettled c n :
  n < length (jobs c) → settled c n = false →
  ∃ m, m < length (jobs c) ∧ settled c m = false ∧ ∀ i, i < m → settled c i = true.
Proof.
  induction (lt_wf n) as [n _ IH]. intros Hn Hs.
  destruct (decide (Forall (λ i, settled c i = true) (seq 0 n))) as [Hall|Hall].
  - exists n. split_and!; [done|done|]. intros i Hi. rewrite Forall_forall in Hall.
    apply Hall, elem_of_seq. lia.
  - apply not_Forall_Exists in Hall; [|apply _]. apply Exists_exists in Hall as (i&Hi&Hsi).
    apply elem_of_seq in Hi. simpl in Hsi. apply (IH i); [lia|lia|]. by destruct (settled c i).
Qed.

Lemma job_step_length c o : job_step o → length (jobs (hidden_step c o)) = length (jobs c).
Proof.
  intros Ho. destruct o as [| | |n|n ok|n]; [done..| | |]; simpl.
  - unfold startJob. destruct (jobs c !! n) as [j|]; [|done]. case_test; [|done].
    destruct (jobKind j); simpl; by rewrite length_insert.
  - unfold endJob. destruct (jobs c !! n) as [j|]; [|done]. case_test; [|done].
    destruct (jobKind j); [case_test|]; simpl; by rewrite length_insert.
  - unfold finallyJob. destruct (jobs c !! n) as [j|]; [|done]. destruct (jobKind j); [|done]. case_test; [|done].
    simpl; by rewrite length_insert.
Qed.

Lemma settle_all c :
  hidden_ok c →
  ∃ ops', Forall job_step ops' ∧ workLeft (hidden_runs c ops') ≤ workLeft c ∧
    ∀ n, n < length (jobs c) → settled (hidden_runs c ops') n = true.
Proof.
  remember (workLeft c) as w eqn:Ew. revert c Ew. induction (lt_wf w) as [w _ IH]. intros c -> Hc.
  destruct (decide (Forall (λ i, settled c i = true) (seq 0 (length (jobs c))))) as [Hall|Hall].
  - exists []. split_and!; [constructor|done|]. intros n Hn. rewrite Forall_forall in Hall. apply Hall, elem_of_seq. lia.
  - apply not_Forall_Exists in Hall; [|apply _]. apply Exists_exists in Hall as (n&Hn&Hs).
    apply elem_of_seq in Hn. simpl in Hs. apply not_true_is_false in Hs.
    destruct (least_unsettled c n) as (m&Hm&Hsm&Hbefore); [lia|done|].
    destruct (first_unsettled c m Hc Hm Hsm Hbefore) as (o&Ho&Hne).
    destruct (job_step_work c o Ho) as [|Hlt]; [done|].
    destruct (IH _ Hlt (hidden_step c o) eq_refl (hidden_step_ok c o Hc)) as (ops'&Hops&Hw&Hall').
    exists (o :: ops'). split_and!; [by constructor|simpl; lia|].
    intros i Hi. apply Hall'. by rewrite job_step_length.
Qed.

(** No read and no write waits for ever.  In every reachable state where a
    request is not settled some step of a request changes the state (there is no
    deadlock), and every step of requests that changes it leaves less work; so
    reads and writes that end let every request settle, in any order. *)
Theorem hidden_requests_settle ops :
  let c := hidden_runs newHiddenState ops in
  (∀ o, job_step o → hidden_step c o = c ∨ workLeft (hidden_step c o) < workLeft c) ∧
  ((∀ o, job_step o → hidden_step c o = c) → ∀ n, n < length (jobs c) → settled c n = true) ∧
  ∃ ops', Forall job_step ops' ∧ workLeft (hidden_runs c ops') ≤ workLeft c ∧
    ∀ n, n < length (jobs c) → settled (hidden_runs c ops') n = true.
Proof.
  intros c. assert (hidden_ok c) as Hc by apply hidden_reachable. split_and!.
  - intros o Ho. by apply job_step_work.
  - intros Hstuck n Hn. destruct (settled c n) eqn:Hs; [done|exfalso].
    destruct (least_unsettled c n Hn Hs) as (m&Hm&Hsm&Hbefore).
    destruct (first_unsettled c m Hc Hm Hsm Hbefore) as (o&Ho&Hne). by apply Hne, Hstuck.
  - by apply settle_all.
Qed.

(** ** Changing the hidden keys *)

Lemma elem_of_setAdd k ids x : x ∈ setAdd k ids ↔ x ∈ ids ∨ x = k.
Proof.
  unfold setAdd. destruct (includes k ids) eqn:E; [apply includes_true in E; naive_solver|].
  rewrite elem_of_app, list_elem_of_singleton. done.
Qed.

Lemma NoDup_setAdd k ids : NoDup ids → NoDup (setAdd k ids).
Proof.
  intros Hnd. unfold setAdd. destruct (includes k ids) eqn:E; [done|]. apply includes_false in E.
  apply NoDup_app. split_and!; [done| |apply NoDup_singleton]. intros x Hx. by intros ->%list_elem_of_singleton.
Qed.

Lemma fold_add_spec ks ids :
  NoDup ids →
  let r := fold_left (λ ids k, match k with Some k => setAdd k ids | None => ids end) ks ids in
  NoDup r ∧ ∀ x, x ∈ r ↔ x ∈ ids ∨ Some x ∈ ks.
Proof.
  revert ids. induction ks as [|[k|] ks IH]; intros ids Hnd; cbn [fold_left].
  - split; [done|]. intros x. pose proof (not_elem_of_nil (Some x)). naive_solver.
  - destruct (IH (setAdd k ids) (NoDup_setAdd k ids Hnd)) as [H1 H2]. split; [done|]. intros x.
    rewrite H2, elem_of_setAdd, elem_of_cons. naive_solver.
  - destruct (IH ids Hnd) as [H1 H2]. split; [done|]. intros x. rewrite H2, elem_of_cons. naive_solver.
Qed.

Lemma fold_delete_spec ks ids :
  NoDup ids →
  let r := fold_left (λ ids k, match k with Some k => setDelete k ids | None => ids end) ks ids in
  NoDup r ∧ ∀ x, x ∈ r ↔ x ∈ ids ∧ Some x ∉ ks.
Proof.
  revert ids. induction ks as [|[k|] ks IH]; intros ids Hnd; cbn [fold_left].
  - split; [done|]. intros x. pose proof (not_elem_of_nil (Some x)). naive_solver.
  - destruct (IH (setDelete k ids)) as [H1 H2]; [by apply NoDup_filter|]. split; [done|]. intros x.
    rewrite H2. unfold setDelete. rewrite list_elem_of_filter, elem_of_cons. naive_solver.
  - destruct (IH ids Hnd) as [H1 H2]. split; [done|]. intros x. rewrite H2, elem_of_cons. naive_solver.
Qed.

(** The new keys are distinct: those of before and the added ones, but not the
    deleted ones. *)
Lemma hidden_changes_spec currentIds changes :
  let r := applyHiddenTreeNodeChanges currentIds (Some changes) in
  NoDup r ∧ ∀ k, k ∈ r ↔ (k ∈ currentIds ∨ Some k ∈ add changes) ∧ Some k ∉ delete changes.
Proof.
  unfold applyHiddenTreeNodeChanges.
  destruct (fold_add_spec (add changes) (uniq currentIds) (NoDup_uniq _)) as [H1 H2].
  destruct (fold_delete_spec (delete changes) _ H1) as [H3 H4]. split; [exact H3|].
  intros k. rewrite H4, H2, elem_of_uniq. done.
Qed.

(** A write requested during an initialization runs after it; after a reset the
    read commits nothing. *)
Example hidden_sample :
  let c := hidden_runs newHiddenState [OpInitialize false; OpStart 0; OpWrite; OpStart 1] in
  (jobs c !! 1) = Some (mkJob Write [0] Queued false) ∧
  committed (hidden_runs c [OpEnd 0 true]) = [0] ∧
  committed (hidden_runs c [OpReset; OpEnd 0 true]) = [].
Proof. by vm_compute. Qed.
