(* ===== verification/LatestLoad.v ===== *)
(** * LatestLoad: one load per branch of the object tree

    Models [apps/community-client/src/store/tree/loadNamespaceTree.ts]: the class
    [LatestLoadCoordinator], which lets the latest load of a key answer all
    callers, and [loadNamespaceTree].

    An entry is named by the number of its creation; its public promise has the
    same name.  The state object of a key holds nothing but its latest entry,
    and an entry belongs to one state object, so [states] maps a key to the
    latest entry, and "the map holds this state and its latest entry is this
    entry" is "the map holds this entry".  [settledOrRedirected] is set exactly
    when the public promise is resolved, rejected or redirected.

    The steps are the calls of the methods, the settlement of a load and, later,
    the handler of [finally]; the load is called at the end of [run], so what it
    does at once are further steps. *)

From stdpp Require Import gmap.
From S2P Require Import Prelude.
Local Open Scope nat_scope.

Section coordinator.
Context {K : Type} `{Countable K} {T Error : Type}.
(** [createInvalidatedResult()], the constructor's argument. *)
Context (invalidatedResult : T).

Inductive PromiseState :=
  | Waiting
  | Resolved (value : T)
  | Rejected (error : Error)
  | Redirected (latest : nat).

Inductive LoadState := Loading | Settled | Finished.

Record LatestLoadEntry := mkEntry {
  key : K;
  pending : bool;
  priority : Z;
  publicPromise : PromiseState;
  load : LoadState;
}.

Record LatestLoadOptions := mkOptions { supersede : bool; optionPriority : option Z }.

Record Coordinator := mkCoordinator {
  entries : list LatestLoadEntry;
  states : gmap K nat;
}.

Definition newCoordinator : Coordinator := mkCoordinator [] ∅.

(** [settledOrRedirected]. *)
Definition isWaiting (e : LatestLoadEntry) : bool :=
  match publicPromise e with Waiting => true | _ => false end.

Definition withPromise (e : LatestLoadEntry) (p : PromiseState) : LatestLoadEntry :=
  mkEntry (key e) (pending e) (priority e) p (load e).

Definition redirect (latest : nat) (e : LatestLoadEntry) : LatestLoadEntry :=
  if isWaiting e then withPromise e (Redirected latest) else e.

Definition invalidateEntry (e : LatestLoadEntry) : LatestLoadEntry :=
  if isWaiting e
  then mkEntry (key e) false (priority e) (Resolved invalidatedResult) (load e)
  else e.

(** [run] up to the call of [load]; the result names the promise. *)
Definition run (k : K) (options : LatestLoadOptions) (c : Coordinator) : Coordinator * nat :=
  let p := default 0%Z (optionPriority options) in
  let fresh := length (entries c) in
  let create (previous : list LatestLoadEntry) :=
    (mkCoordinator (previous ++ [mkEntry k true p Waiting Loading]) (<[k := fresh]> (states c)), fresh) in
  match states c !! k with
  | Some latest =>
      match entries c !! latest with
      | Some e =>
          if negb (supersede options) || (p <? priority e)%Z then (c, latest)
          else create (alter (redirect fresh) latest (entries c))
      | None => create (entries c)
      end
  | None => create (entries c)
  end.

Definition isCurrent (n : nat) (c : Coordinator) : bool :=
  match entries c !! n with
  | Some e => bool_decide (states c !! key e = Some n)
  | None => false
  end.

(** The load of an entry settles. *)
Definition settleEntry (result : T + Error) (e : LatestLoadEntry) : LatestLoadEntry :=
  let e' := if isWaiting e
            then withPromise e (match result with inl v => Resolved v | inr x => Rejected x end)
            else e in
  match load e with
  | Loading => mkEntry (key e') (pending e') (priority e') (publicPromise e') Settled
  | _ => e
  end.

Definition settle (n : nat) (result : T + Error) (c : Coordinator) : Coordinator :=
  mkCoordinator (alter (settleEntry result) n (entries c)) (states c).

(** The handler of [finally]. *)
Definition finishEntry (e : LatestLoadEntry) : LatestLoadEntry :=
  match load e with
  | Settled => mkEntry (key e) false (priority e) (publicPromise e) Finished
  | _ => e
  end.

Definition finishLoad (n : nat) (c : Coordinator) : Coordinator :=
  match entries c !! n with
  | Some e =>
      match load e with
      | Settled => mkCoordinator (alter finishEntry n (entries c))
                     (if isCurrent n c then delete (key e) (states c) else states c)
      | _ => c
      end
  | None => c
  end.

Definition hasPending (k : K) (c : Coordinator) : bool :=
  match states c !! k ≫= λ n, entries c !! n with Some e => pending e | None => false end.

Definition invalidate (k : K) (c : Coordinator) : Coordinator :=
  match states c !! k with
  | Some n => mkCoordinator (alter invalidateEntry n (entries c)) (delete k (states c))
  | None => c
  end.

Definition invalidateMatching (matches : K → bool) (c : Coordinator) : Coordinator :=
  fold_left (λ c k, if matches k then invalidate k c else c) (map_to_list (states c)).*1 c.

Definition invalidateAll (c : Coordinator) : Coordinator :=
  fold_left (λ c k, invalidate k c) (map_to_list (states c)).*1 c.

Inductive op :=
  | OpRun (k : K) (options : LatestLoadOptions)
  | OpSettle (n : nat) (result : T + Error)
  | OpFinish (n : nat)
  | OpInvalidate (k : K)
  | OpInvalidateMatching (matches : K → bool)
  | OpInvalidateAll.

Definition step (c : Coordinator) (o : op) : Coordinator :=
  match o with
  | OpRun k options => (run k options c).1
  | OpSettle n result => settle n result c
  | OpFinish n => finishLoad n c
  | OpInvalidate k => invalidate k c
  | OpInvalidateMatching matches => invalidateMatching matches c
  | OpInvalidateAll => invalidateAll c
  end.

(** What a caller that holds promise [n] waits for or got, along the
    redirections; [fuel] bounds their number. *)
Fixpoint outcome (fuel : nat) (c : Coordinator) (n : nat) : option (nat * PromiseState) :=
  match fuel, entries c !! n with
  | S fuel, Some e =>
      match publicPromise e with
      | Redirected m => outcome fuel c m
      | p => Some (n, p)
      end
  | _, _ => None
  end.

Lemma lookup_alter_case {A} (f : A → A) (l : list A) n i x :
  l !! i = Some x → alter f n l !! i = Some (if decide (n = i) then f x else x).
Proof. intros Hx. rewrite list_lookup_alter. case_decide; [subst; by rewrite Hx|done]. Qed.

(** ** The invariant *)

(** The entry [n] waits for its load: it is the latest of its key. *)
Record coordinator_ok (c : Coordinator) : Prop := {
  ok_current k n : states c !! k = Some n →
    ∃ e, entries c !! n = Some e ∧ key e = k ∧ pending e = true ∧ load e ≠ Finished ∧
      (∀ m, publicPromise e ≠ Redirected m) ∧ (load e = Loading → publicPromise e = Waiting);
  ok_redirected n e m : entries c !! n = Some e → publicPromise e = Redirected m →
    n < m ∧ ∃ e', entries c !! m = Some e' ∧ key e' = key e;
  ok_waiting n e : entries c !! n = Some e → publicPromise e = Waiting →
    load e = Loading ∧ states c !! key e = Some n;
}.

Definition runs (c : Coordinator) (ops : list op) : Coordinator := fold_left step ops c.

Lemma new_ok : coordinator_ok newCoordinator.
Proof. split; intros *; by rewrite ?lookup_empty, ?lookup_nil. Qed.

(** What the latest entry of a key is like until its load has finished. *)
Definition is_current (k : K) (e : LatestLoadEntry) : Prop :=
  key e = k ∧ pending e = true ∧ load e ≠ Finished ∧
  (∀ m, publicPromise e ≠ Redirected m) ∧ (load e = Loading → publicPromise e = Waiting).

(** A change of the entry [n] that redirects nothing and takes no other entry
    out of the map. *)
Lemma load_update_ok f n c st :
  coordinator_ok c →
  (∀ e, key (f e) = key e) →
  (∀ e m, publicPromise (f e) = Redirected m → publicPromise e = Redirected m) →
  (∀ e, entries c !! n = Some e → publicPromise (f e) = Waiting →
     publicPromise e = Waiting ∧ load (f e) = Loading ∧ st !! key e = Some n) →
  (∀ k i, st !! k = Some i → states c !! k = Some i ∧
     (i = n → ∀ e, entries c !! n = Some e → is_current k (f e))) →
  (∀ k i, i ≠ n → states c !! k = Some i → st !! k = Some i) →
  coordinator_ok (mkCoordinator (alter f n (entries c)) st).
Proof.
  intros Hc Hkey Hred Hwait Hcur Hother. split; simpl.
  - intros k i Hi. destruct (Hcur k i Hi) as [Hold Hnew].
    destruct (ok_current c Hc k i Hold) as (e&He&Hrest). rewrite list_lookup_alter.
    case_decide; [subst i|by exists e]. exists (f e). rewrite He. split; [done|]. by apply Hnew.
  - intros i e m. rewrite list_lookup_alter. intros He Hm.
    assert (∃ e0, entries c !! i = Some e0 ∧ key e0 = key e ∧ publicPromise e0 = Redirected m)
      as (e0&He0&Hk0&Hm0).
    { case_decide; [|by exists e]. subst. destruct (entries c !! i) as [e0|]; [|done].
      simpl in He. simplify_eq. exists e0. eauto. }
    destruct (ok_redirected c Hc i e0 m He0 Hm0) as (Hlt&e'&He'&Hk'). split; [done|].
    rewrite (lookup_alter_case _ _ _ _ _ He'). eexists. split; [done|].
    clear He. case_decide; rewrite ?Hkey; congruence.
  - intros i e. rewrite list_lookup_alter. intros He Hp. case_decide.
    + subst i. destruct (entries c !! n) as [e0|] eqn:E; [|done]. simpl in He. simplify_eq.
      rewrite Hkey. by destruct (Hwait e0 eq_refl Hp).
    + destruct (ok_waiting c Hc i e He Hp) as [??]. split; [done|]. by apply Hother.
Qed.

(** A new entry takes the place of the latest one of its key, if there is one;
    that one's promise, if it waits, is redirected to the new one. *)
Lemma create_ok k p c previous :
  coordinator_ok c → length previous = length (entries c) →
  (∀ i e', previous !! i = Some e' → ∃ e, entries c !! i = Some e ∧ key e' = key e ∧
     (e' = e ∧ (publicPromise e = Waiting → states c !! k ≠ Some i)
      ∨ key e = k ∧ states c !! k = Some i ∧
        (e' = e ∧ publicPromise e ≠ Waiting ∨ publicPromise e' = Redirected (length (entries c))))) →
  coordinator_ok (mkCoordinator (previous ++ [mkEntry k true p Waiting Loading])
                    (<[k := length (entries c)]> (states c))).
Proof.
  intros Hc Hlen Hold. set (fresh := length (entries c)) in *.
  assert (∀ i e, entries c !! i = Some e → ∃ e', previous !! i = Some e' ∧ key e' = key e ∧
    (states c !! k ≠ Some i → e' = e)) as Hkept.
  { intros i e He. destruct (lookup_lt_is_Some_2 previous i) as [e' He'].
    { rewrite Hlen. by eapply lookup_lt_Some. }
    exists e'. destruct (Hold i e' He') as (e0&He0&Hk&Hcase). simplify_eq. naive_solver. }
  split; simpl.
  - intros k' i. rewrite lookup_insert. case_decide; intros Hi; simplify_eq.
    + rewrite lookup_app_r, Hlen, Nat.sub_diag by (rewrite Hlen; done). by eexists.
    + destruct (ok_current c Hc k' i Hi) as (e&He&Hk&?). destruct (Hkept i e He) as (e'&He'&?&Heq).
      exists e'. split; [by apply lookup_app_l_Some|]. rewrite Heq; [done|].
      intros Hki. destruct (ok_current c Hc k i Hki) as (?&?&?&_). congruence.
  - intros i e m [He|[? He]]%lookup_app_Some Hm; [|apply list_lookup_singleton_Some in He as [??]; by subst].
    destruct (Hold i e He) as (e0&He0&Hk0&Hcase).
    assert (i < fresh) by by eapply lookup_lt_Some.
    assert (publicPromise e0 = Redirected m ∨ key e0 = k ∧ m = fresh) as [Hr|[Hk ->]].
    { destruct Hcase as [[-> _]|(Hk&_&[[-> _]|Hm'])]; [by left..|]. right. split; congruence. }
    + destruct (ok_redirected c Hc i e0 m He0 Hr) as (?&e1&He1&?). split; [done|].
      destruct (Hkept m e1 He1) as (e'&?&?&_). exists e'. split; [by apply lookup_app_l_Some|congruence].
    + split; [done|]. eexists.
      rewrite lookup_app_r, Hlen, Nat.sub_diag by (rewrite Hlen; done). split; [done|]. simpl; congruence.
  - intros i e [He|[? He]]%lookup_app_Some Hp.
    + destruct (Hold i e He) as (e0&He0&Hk0&[[-> Hn]|(?&?&[[-> ?]|Hr])]); [|done|congruence].
      destruct (ok_waiting c Hc i e0 He0 Hp) as [? Hs]. split; [done|].
      rewrite lookup_insert_ne; [done|]. specialize (Hn Hp). congruence.
    + apply list_lookup_singleton_Some in He as [??]. subst. split; [done|].
      simpl. rewrite lookup_insert_eq. f_equal. lia.
Qed.

Lemma load_run_ok k options c : coordinator_ok c → coordinator_ok (run k options c).1.
Proof.
  intros Hc. unfold run. destruct (states c !! k) as [latest|] eqn:Hk.
  - destruct (ok_current c Hc k latest Hk) as (e&He&Hke&_). rewrite He.
    case_test; [done|]. apply create_ok; [done|by rewrite length_alter|].
    intros i e'. rewrite list_lookup_alter. case_decide.
    + subst i. rewrite He. intros [= <-]. exists e. unfold redirect, isWaiting.
      destruct (publicPromise e) eqn:E; repeat split; auto; right; repeat split; auto; left; by rewrite E.
    + intros He'. exists e'. repeat split; auto. left. naive_solver.
  - apply create_ok; [done..|]. intros i e' He'. exists e'. rewrite Hk. naive_solver.
Qed.

Lemma load_settle_ok n result c : coordinator_ok c → coordinator_ok (settle n result c).
Proof.
  intros Hc. apply load_update_ok; [done|..]; unfold settleEntry, isWaiting.
  - intros e. by destruct (load e), (publicPromise e), result.
  - intros e m. destruct (load e), (publicPromise e) eqn:E, result; simpl; congruence.
  - intros e He. destruct (load e) eqn:El.
    { destruct (publicPromise e) eqn:E, result; simpl; congruence. }
    all: intros Hp; destruct (ok_waiting c Hc n e He Hp); congruence.
  - intros k i Hi. split; [done|]. intros -> e He.
    destruct (ok_current c Hc k n Hi) as (e0&He0&?&?&?&Hr&Hl). simplify_eq.
    unfold is_current. destruct (load e) eqn:El; [|by rewrite El|done].
    rewrite Hl by done. by destruct result.
  - done.
Qed.

Lemma finishLoad_ok n c : coordinator_ok c → coordinator_ok (finishLoad n c).
Proof.
  intros Hc. unfold finishLoad. destruct (entries c !! n) as [e0|] eqn:He0; [|done].
  destruct (load e0) eqn:Hl0; [done| |done]. unfold isCurrent. rewrite He0.
  apply load_update_ok; [done|..]; unfold finishEntry.
  - intros e. by destruct (load e).
  - intros e m. by destruct (load e).
  - intros e He. simplify_eq. rewrite Hl0. simpl. intros Hp.
    destruct (ok_waiting c Hc n e0 He0 Hp); congruence.
  - intros k i. case_bool_decide as Hcur.
    + rewrite lookup_delete_Some. intros [Hk Hi]. split; [done|]. intros -> e He. simplify_eq.
      destruct (ok_current c Hc k n Hi) as (?&?&?&_). congruence.
    + intros Hi. split; [done|]. intros ->.
      destruct (ok_current c Hc k n Hi) as (?&?&?&_). congruence.
  - intros k i Hne Hi. case_bool_decide as Hcur; [|done].
    rewrite lookup_delete_ne; [done|]. congruence.
Qed.

Lemma invalidate_ok k c : coordinator_ok c → coordinator_ok (invalidate k c).
Proof.
  intros Hc. unfold invalidate. destruct (states c !! k) as [n|] eqn:Hk; [|done].
  destruct (ok_current c Hc k n Hk) as (e0&He0&Hk0&_).
  apply load_update_ok; [done|..]; unfold invalidateEntry, isWaiting.
  - intros e. by destruct (publicPromise e).
  - intros e m. by destruct (publicPromise e) eqn:E; simpl; rewrite ?E.
  - intros e He. by destruct (publicPromise e) eqn:E; simpl; rewrite ?E.
  - intros k' i. rewrite lookup_delete_Some. intros [Hne Hi]. split; [done|]. intros ->.
    destruct (ok_current c Hc k' n Hi) as (?&?&?&_). congruence.
  - intros k' i Hne Hi. rewrite lookup_delete_ne; [done|]. congruence.
Qed.

Lemma fold_invalidate_ok (matches : K → bool) keys c :
  coordinator_ok c → coordinator_ok (fold_left (λ c k, if matches k then invalidate k c else c) keys c).
Proof.
  revert c. induction keys as [|k keys IH]; intros c Hc; [done|]. simpl. apply IH.
  case_test; [by apply invalidate_ok|done].
Qed.

Lemma step_ok o c : coordinator_ok c → coordinator_ok (step c o).
Proof.
  intros Hc. destruct o; simpl.
  - by apply load_run_ok.
  - by apply load_settle_ok.
  - by apply finishLoad_ok.
  - by apply invalidate_ok.
  - by apply fold_invalidate_ok.
  - by apply (fold_invalidate_ok (λ _, true)).
Qed.

Lemma runs_ok_from ops c : coordinator_ok c → coordinator_ok (runs c ops).
Proof. revert c. induction ops as [|o ops IH]; intros c Hc; [done|]. apply IH. by apply step_ok. Qed.

Lemma runs_coordinator_ok ops : coordinator_ok (runs newCoordinator ops).
Proof. apply runs_ok_from, new_ok. Qed.

(** ** What callers get *)

Lemma outcome_S fuel c n e :
  entries c !! n = Some e →
  outcome (S fuel) c n = match publicPromise e with
                         | Redirected m => outcome fuel c m
                         | p => Some (n, p)
                         end.
Proof. intros He. simpl. rewrite He. done. Qed.

Lemma outcome_spec c fuel n e :
  coordinator_ok c → entries c !! n = Some e → length (entries c) ≤ fuel + n →
  ∃ m e', outcome fuel c n = Some (m, publicPromise e') ∧ entries c !! m = Some e' ∧
    key e' = key e ∧ ∀ i, publicPromise e' ≠ Redirected i.
Proof.
  intros Hc. revert n e. induction fuel as [|fuel IH]; intros n e He Hf.
  { apply lookup_lt_Some in He. lia. }
  rewrite (outcome_S _ _ _ e He). destruct (publicPromise e) as [| | |m] eqn:E.
  1-3: exists n, e; rewrite E; repeat split; auto; by intros.
  destruct (ok_redirected c Hc n e m He E) as (Hlt&e1&He1&Hk).
  destruct (IH m e1 He1 ltac:(lia)) as (m'&e'&?&?&?&?). exists m', e'. repeat split; auto. congruence.
Qed.

Lemma outcome_S_mono fuel c n o : outcome fuel c n = Some o → outcome (S fuel) c n = Some o.
Proof.
  revert n. induction fuel as [|fuel IH]; intros n; [done|]. intros H1.
  destruct (entries c !! n) as [e|] eqn:He; [|simpl in H1; by rewrite He in H1].
  rewrite (outcome_S _ _ _ e He) in H1. rewrite (outcome_S _ _ _ e He).
  destruct (publicPromise e); auto.
Qed.

(** What the caller who holds promise [n] has: [None] of an unknown promise. *)
Definition callerOutcome (c : Coordinator) (n : nat) : option (nat * PromiseState) :=
  outcome (length (entries c)) c n.

Lemma callerOutcome_spec c n e :
  coordinator_ok c → entries c !! n = Some e →
  ∃ m e', callerOutcome c n = Some (m, publicPromise e') ∧ entries c !! m = Some e' ∧
    key e' = key e ∧ ∀ i, publicPromise e' ≠ Redirected i.
Proof. intros Hc He. apply outcome_spec; [done..|lia]. Qed.

Definition delivered (result : T + Error) : PromiseState :=
  match result with inl v => Resolved v | inr x => Rejected x end.

Lemma settle_outcome n result c fuel n0 :
  coordinator_ok c →
  outcome fuel (settle n result c) n0 =
  match outcome fuel c n0 with
  | Some (m, Waiting) => Some (m, if decide (n = m) then delivered result else Waiting)
  | o => o
  end.
Proof.
  intros Hc. revert n0. induction fuel as [|fuel IH]; intros n0; [done|].
  destruct (entries c !! n0) as [e|] eqn:He.
  - rewrite (outcome_S _ c n0 e He).
    assert (entries (settle n result c) !! n0 =
            Some (if decide (n = n0) then settleEntry result e else e)) as He'.
    { by apply lookup_alter_case. }
    rewrite (outcome_S _ _ _ _ He').
    destruct (publicPromise e) eqn:E.
    + destruct (ok_waiting c Hc n0 e He E) as [Hl _]. case_decide; [|by rewrite E].
      unfold settleEntry, isWaiting. rewrite E, Hl. by destruct result.
    + case_decide; unfold settleEntry, isWaiting; rewrite ?E; destruct (load e); by rewrite ?E.
    + case_decide; unfold settleEntry, isWaiting; rewrite ?E; destruct (load e); by rewrite ?E.
    + rewrite <-IH. case_decide; unfold settleEntry, isWaiting; rewrite ?E; destruct (load e); by rewrite ?E.
  - cbn [outcome]. rewrite He. simpl. rewrite list_lookup_alter. case_decide; [subst|]; by rewrite He.
Qed.

(** [run] answers with the latest promise, or makes a new entry. *)
Lemma run_cases k options c :
  coordinator_ok c →
  (∃ latest, states c !! k = Some latest ∧ run k options c = (c, latest)) ∨
  (∃ new, entries (run k options c).1 !! length (entries c) = Some new ∧ publicPromise new = Waiting ∧
    (run k options c).2 = length (entries c) ∧
    ∀ n e, entries c !! n = Some e → entries (run k options c).1 !! n =
      Some (if decide (states c !! k = Some n) then redirect (length (entries c)) e else e)).
Proof.
  intros Hc. unfold run. destruct (states c !! k) as [latest|] eqn:Hk.
  - destruct (ok_current c Hc k latest Hk) as (e&He&_). rewrite He.
    case_test; [left; by eexists|right]. eexists. simpl.
    rewrite lookup_app_r, length_alter, Nat.sub_diag by (by rewrite length_alter).
    split_and!; [done..|]. intros n e' He'. rewrite lookup_app_l.
    + rewrite (lookup_alter_case _ _ _ _ _ He'). f_equal.
      apply decide_ext. split; congruence.
    + rewrite length_alter. by eapply lookup_lt_Some.
  - right. eexists. simpl. rewrite lookup_app_r, Nat.sub_diag by done.
    split_and!; [done..|]. intros n e' He'. by apply lookup_app_l_Some.
Qed.

Lemma run_outcome k options c fuel n0 m p :
  coordinator_ok c → outcome fuel c n0 = Some (m, p) →
  outcome (S fuel) (run k options c).1 n0 =
  Some match p with
       | Waiting => (if decide (states c !! k = Some m) then (run k options c).2 else m, Waiting)
       | _ => (m, p)
       end.
Proof.
  intros Hc. destruct (run_cases k options c Hc) as [(latest&Hk&Hrun)|(new&Hnew&Hw&Hn&Hold)].
  { intros Ho. rewrite Hrun. simpl fst. simpl snd. rewrite (outcome_S_mono _ _ _ _ Ho).
    destruct p; [|done..]. case_decide; congruence. }
  rewrite Hn. revert n0. induction fuel as [|fuel IH]; intros n0 Ho; [done|].
  destruct (entries c !! n0) as [e|] eqn:He; [|simpl in Ho; by rewrite He in Ho].
  rewrite (outcome_S _ _ _ e He) in Ho. rewrite (outcome_S _ _ _ _ (Hold n0 e He)).
  destruct (publicPromise e) as [| | |i] eqn:E.
  - simplify_eq. case_decide; [|by rewrite E].
    unfold redirect, isWaiting. rewrite E. simpl. by rewrite Hnew, Hw.
  - simplify_eq. case_decide; unfold redirect, isWaiting; by rewrite ?E, ?E.
  - simplify_eq. case_decide; unfold redirect, isWaiting; by rewrite ?E, ?E.
  - rewrite <-(IH i Ho). generalize (decide (states c !! k = Some n0)). intros d.
    destruct d; unfold redirect, isWaiting; by rewrite ?E, ?E.
Qed.

(** ** Loads run to their end *)

Definition progress (s : LoadState) : nat := match s with Loading => 0 | Settled => 1 | Finished => 2 end.

(** How far the load of an entry has come. *)
Definition progressOf (c : Coordinator) (n : nat) : nat :=
  from_option (λ e, progress (load e)) 0 (entries c !! n).

Lemma alter_progress f n c st i :
  (∀ e, progress (load e) ≤ progress (load (f e))) →
  progressOf c i ≤ progressOf (mkCoordinator (alter f n (entries c)) st) i.
Proof.
  intros Hf. unfold progressOf. simpl. rewrite list_lookup_alter. case_decide; [|done]. subst.
  destruct (entries c !! i); simpl; auto.
Qed.

Lemma invalidate_progress k c i : progressOf c i ≤ progressOf (invalidate k c) i.
Proof.
  unfold invalidate. destruct (states c !! k); [|done]. apply alter_progress.
  intros e. unfold invalidateEntry. by destruct (isWaiting e).
Qed.

Lemma fold_invalidate_progress (matches : K → bool) keys c i :
  progressOf c i ≤ progressOf (fold_left (λ c k, if matches k then invalidate k c else c) keys c) i.
Proof.
  revert c. induction keys as [|k keys IH]; intros c; [done|]. simpl. etrans; [|apply IH].
  case_test; [apply invalidate_progress|done].
Qed.

Lemma settleEntry_progress result e :
  progress (load (settleEntry result e)) = Nat.max 1 (progress (load e)).
Proof. unfold settleEntry. by destruct (load e) eqn:E; rewrite ?E. Qed.

Lemma step_progress o c i : coordinator_ok c → progressOf c i ≤ progressOf (step c o) i.
Proof.
  intros Hc. destruct o as [k options|n r|n|k|matches|]; simpl.
  - destruct (run_cases k options c Hc) as [(latest&Hk&->)|(new&_&_&_&Hold)]; [done|].
    unfold progressOf at 1. destruct (entries c !! i) as [e|] eqn:He; [|simpl; lia].
    unfold progressOf. rewrite (Hold i e He). simpl. case_decide; [|done].
    unfold redirect. by case_test.
  - apply alter_progress. intros e. rewrite settleEntry_progress. lia.
  - unfold finishLoad. destruct (entries c !! n) as [e|]; [|done].
    destruct (load e); [done| |done]. apply alter_progress.
    intros e'. unfold finishEntry. destruct (load e') eqn:El; rewrite ?El; simpl; lia.
  - apply invalidate_progress.
  - apply fold_invalidate_progress.
  - apply (fold_invalidate_progress (λ _, true)).
Qed.

Lemma runs_progress ops c i : coordinator_ok c → progressOf c i ≤ progressOf (runs c ops) i.
Proof.
  revert c. induction ops as [|o ops IH]; intros c Hc; [done|]. etrans; [by apply (step_progress o)|].
  by apply IH, step_ok.
Qed.

Lemma runs_app c ops ops' : runs c (ops ++ ops') = runs (runs c ops) ops'.
Proof. apply fold_left_app. Qed.

Lemma run_entries k options c :
  coordinator_ok c →
  length (entries c) ≤ length (entries (run k options c).1) ≤ S (length (entries c)).
Proof.
  intros Hc. unfold run. destruct (states c !! k) as [latest|] eqn:Hk.
  - destruct (ok_current c Hc k latest Hk) as (e&He&_). rewrite He.
    case_test; simpl; rewrite ?length_app, ?length_alter; simpl; lia.
  - simpl. rewrite length_app. simpl. lia.
Qed.

(** Only [run] makes entries. *)
Lemma step_entries o c :
  coordinator_ok c →
  length (entries c) ≤ length (entries (step c o)) ∧
  (match o with OpRun _ _ => True | _ => length (entries (step c o)) = length (entries c) end).
Proof.
  assert (∀ k c, length (entries (invalidate k c)) = length (entries c)) as Hinv.
  { intros k c0. unfold invalidate. destruct (states c0 !! k); simpl; by rewrite ?length_alter. }
  assert (∀ (matches : K → bool) keys c, length (entries (fold_left
      (λ c k, if matches k then invalidate k c else c) keys c)) = length (entries c)) as Hfold.
  { intros matches keys. induction keys as [|k keys IH]; intros c0; [done|]. simpl.
    rewrite IH. case_test; auto. }
  intros Hc. destruct o as [k options|n r|n|k|matches|]; simpl.
  - split; [by apply run_entries|done].
  - by rewrite length_alter.
  - unfold finishLoad. destruct (entries c !! n) as [e|]; [|done].
    destruct (load e); simpl; by rewrite ?length_alter.
  - by rewrite Hinv.
  - unfold invalidateMatching. by rewrite Hfold.
  - pose proof (Hfold (λ _, true)) as Hf. unfold invalidateAll. simpl in Hf. by rewrite Hf.
Qed.

Lemma settle_progress n result c :
  n < length (entries c) → 1 ≤ progressOf (settle n result c) n.
Proof.
  intros [e He]%lookup_lt_is_Some_2. unfold progressOf, settle. simpl.
  rewrite (lookup_alter_case _ _ _ _ _ He), decide_True by done. simpl.
  rewrite settleEntry_progress. lia.
Qed.

Lemma finishLoad_progress n c : 1 ≤ progressOf c n → progressOf (finishLoad n c) n = 2.
Proof.
  unfold progressOf, finishLoad. destruct (entries c !! n) as [e|] eqn:He; simpl; [|lia].
  destruct (load e) eqn:El; simpl; intros Hp; [lia| |by rewrite He; simpl; rewrite El].
  rewrite (lookup_alter_case _ _ _ _ _ He), decide_True by done. simpl.
  unfold finishEntry. by rewrite El.
Qed.

Lemma progress_finished c n e : entries c !! n = Some e → progressOf c n = 2 → load e = Finished.
Proof. unfold progressOf. intros ->. simpl. by destruct (load e). Qed.

Lemma invalidate_outcome k c fuel n0 :
  coordinator_ok c →
  outcome fuel (invalidate k c) n0 =
  match outcome fuel c n0 with
  | Some (m, Waiting) =>
      Some (m, if decide (states c !! k = Some m) then Resolved invalidatedResult else Waiting)
  | o => o
  end.
Proof.
  intros Hc. unfold invalidate. destruct (states c !! k) as [n|] eqn:Hk.
  2: { destruct (outcome fuel c n0) as [[m []]|]; done. }
  revert n0. induction fuel as [|fuel IH]; intros n0; [done|].
  destruct (entries c !! n0) as [e|] eqn:He.
  - rewrite (outcome_S _ c n0 e He).
    rewrite (outcome_S _ (mkCoordinator _ _) _ _ (lookup_alter_case invalidateEntry _ n _ _ He)).
    destruct (publicPromise e) eqn:E.
    + case_decide; [subst; rewrite decide_True by done|rewrite decide_False by congruence];
        unfold invalidateEntry, isWaiting; by rewrite ?E.
    + case_decide; unfold invalidateEntry, isWaiting; by rewrite ?E, ?E.
    + case_decide; unfold invalidateEntry, isWaiting; by rewrite ?E, ?E.
    + rewrite <-IH. case_decide; unfold invalidateEntry, isWaiting; by rewrite ?E, ?E.
  - cbn [outcome]. rewrite He. simpl. rewrite list_lookup_alter. case_decide; [subst|]; by rewrite He.
Qed.

Lemma callerOutcome_fuel c n e fuel :
  coordinator_ok c → entries c !! n = Some e → length (entries c) ≤ fuel →
  outcome fuel c n = callerOutcome c n.
Proof.
  intros Hc He Hf. destruct (callerOutcome_spec c n e Hc He) as (m&e'&Ho&_). rewrite Ho.
  induction Hf as [|fuel Hf IH]; [done|]. by apply outcome_S_mono.
Qed.

Lemma finishLoad_outcome n c fuel n0 : outcome fuel (finishLoad n c) n0 = outcome fuel c n0.
Proof.
  unfold finishLoad. destruct (entries c !! n) as [e0|] eqn:He0; [|done].
  destruct (load e0); [done| |done].
  revert n0. induction fuel as [|fuel IH]; intros n0; [done|]. cbn [outcome entries] in *.
  rewrite list_lookup_alter. case_decide; [subst n0; rewrite He0|]; simpl.
  - unfold finishEntry. destruct (load e0); simpl; destruct (publicPromise e0); auto.
  - destruct (entries c !! n0) as [e|]; [|done]. destruct (publicPromise e); auto.
Qed.

Lemma callerOutcome_entry c n o : callerOutcome c n = Some o → ∃ e, entries c !! n = Some e.
Proof.
  unfold callerOutcome. destruct (length (entries c)); [done|]. simpl.
  destruct (entries c !! n) as [e|]; [by exists e|done].
Qed.

Lemma progress_bound c n : progressOf c n ≤ 2.
Proof. unfold progressOf. destruct (entries c !! n) as [e|]; simpl; [destruct (load e); simpl|]; lia. Qed.

Definition no_run (o : op) : Prop := match o with OpRun _ _ => False | _ => True end.

Lemma runs_entries c ops :
  coordinator_ok c →
  length (entries c) ≤ length (entries (runs c ops)) ∧
  (Forall no_run ops → length (entries (runs c ops)) = length (entries c)).
Proof.
  revert c. induction ops as [|o ops IH]; intros c Hc; [done|].
  destruct (step_entries o c Hc) as [Hle Heq]. destruct (IH (step c o)) as [Hle' Heq']; [by apply step_ok|].
  split; [by etrans|]. intros [Ho Hops]%Forall_cons. etrans; [by apply Heq'|]. by destruct o.
Qed.

(** A load that settles and whose [finally] handler runs has finished. *)
Lemma settled_finished c n result l1 l2 l3 :
  coordinator_ok c → n < length (entries c) →
  progressOf (runs c (l1 ++ OpSettle n result :: l2 ++ OpFinish n :: l3)) n = 2.
Proof.
  intros Hc Hn. rewrite runs_app. set (c1 := runs c l1).
  assert (coordinator_ok c1) as Hc1 by by apply runs_ok_from.
  assert (n < length (entries c1)) as Hn1 by (destruct (runs_entries c l1 Hc) as [? _]; unfold c1; lia).
  change (runs c1 (OpSettle n result :: l2 ++ OpFinish n :: l3))
    with (runs (settle n result c1) (l2 ++ OpFinish n :: l3)).
  assert (coordinator_ok (settle n result c1)) as Hc2 by by apply load_settle_ok.
  pose proof (settle_progress n result c1 Hn1) as Hp1.
  rewrite runs_app. set (c2 := runs (settle n result c1) l2).
  assert (coordinator_ok c2) as Hc3 by by apply runs_ok_from.
  assert (1 ≤ progressOf c2 n) as Hp2 by (etrans; [apply Hp1|by apply runs_progress]).
  change (runs c2 (OpFinish n :: l3)) with (runs (finishLoad n c2) l3).
  pose proof (runs_progress l3 (finishLoad n c2) n ltac:(by apply finishLoad_ok)) as Hp3.
  rewrite (finishLoad_progress n c2 Hp2) in Hp3.
  pose proof (progress_bound (runs (finishLoad n c2) l3) n). lia.
Qed.

(** Whoever asked for a load of a key gets an answer that the coordinator
    decides: in every reachable state, following the redirections of a promise
    ends, after no more of them than there are promises, at a promise of the same
    key that is resolved, rejected or still waiting; and it waits only for the
    latest load of that key, which runs, and [hasPending] says so. *)
Theorem latest_load_callers ops n e :
  let c := runs newCoordinator ops in
  entries c !! n = Some e →
  ∃ m e', callerOutcome c n = Some (m, publicPromise e') ∧ entries c !! m = Some e' ∧
    key e' = key e ∧ (∀ i, publicPromise e' ≠ Redirected i) ∧
    (publicPromise e' = Waiting →
      states c !! key e = Some m ∧ load e' = Loading ∧ hasPending (key e) c = true).
Proof.
  intros c He. assert (coordinator_ok c) as Hc by apply runs_coordinator_ok.
  destruct (callerOutcome_spec c n e Hc He) as (m&e'&Ho&He'&Hk&Hr).
  exists m, e'. split_and!; try done. intros Hw.
  destruct (ok_waiting c Hc m e' He' Hw) as [Hl Hs]. rewrite Hk in Hs.
  destruct (ok_current c Hc _ _ Hs) as (?&?&?&?&_). simplify_eq.
  split_and!; [done..|]. unfold hasPending. rewrite Hs. simpl. by rewrite He'.
Qed.

(** C9: how a step answers a caller, in every reachable state.  A load that
    settles answers exactly the callers that wait for it, and so nobody when it
    was superseded or invalidated; a new run takes over all callers that wait
    for its key; [invalidate] answers them with the invalidated result; nobody's
    answer changes once it is given. *)
Theorem callers_answered_once ops n0 m p :
  let c := runs newCoordinator ops in
  callerOutcome c n0 = Some (m, p) →
  (∀ n result, callerOutcome (settle n result c) n0 =
     Some (m, match p with
              | Waiting => if decide (n = m) then delivered result else Waiting
              | _ => p
              end)) ∧
  (∀ k options, callerOutcome (run k options c).1 n0 =
     Some match p with
          | Waiting => (if decide (states c !! k = Some m) then (run k options c).2 else m, Waiting)
          | _ => (m, p)
          end) ∧
  (∀ k, callerOutcome (invalidate k c) n0 =
     Some (m, match p with
              | Waiting => if decide (states c !! k = Some m) then Resolved invalidatedResult else Waiting
              | _ => p
              end)) ∧
  ∀ n, callerOutcome (finishLoad n c) n0 = Some (m, p).
Proof.
  intros c Ho. assert (coordinator_ok c) as Hc by apply runs_coordinator_ok.
  split_and!.
  - intros n result. unfold callerOutcome at 1. simpl. rewrite length_alter, settle_outcome by done.
    unfold callerOutcome in Ho. rewrite Ho. by destruct p.
  - intros k options.
    destruct (callerOutcome_entry c n0 _ Ho) as [e0 He0].
    assert (∃ e, entries (run k options c).1 !! n0 = Some e) as [e He].
    { apply lookup_lt_is_Some_2. apply lookup_lt_Some in He0.
      pose proof (run_entries k options c Hc). lia. }
    rewrite <-(callerOutcome_fuel _ n0 e (S (length (entries c)))); [|by apply load_run_ok|done|].
    + by apply run_outcome.
    + by apply run_entries.
  - intros k.
    destruct (step_entries (OpInvalidate k) c Hc) as [_ Hlen]. simpl in Hlen.
    unfold callerOutcome at 1. rewrite Hlen, invalidate_outcome by done.
    unfold callerOutcome in Ho. rewrite Ho. by destruct p.
  - intros n. destruct (step_entries (OpFinish n) c Hc) as [_ Hlen]. simpl in Hlen.
    unfold callerOutcome. by rewrite Hlen, finishLoad_outcome.
Qed.

(** Nobody waits for ever.  From any reachable state, let every load settle
    and then run its [finally] handler, in any order and with any other calls in
    between except new runs: the map of states is then empty, nothing is pending
    and every caller has an answer, a value or an error. *)
Theorem loads_settle ops ops' :
  let c := runs newCoordinator ops in
  let c' := runs c ops' in
  Forall no_run ops' →
  (∀ n, n < length (entries c) → ∃ result l1 l2 l3,
     ops' = l1 ++ OpSettle n result :: l2 ++ OpFinish n :: l3) →
  states c' = ∅ ∧ (∀ k, hasPending k c' = false) ∧
  ∀ n, n < length (entries c) → ∃ m p, callerOutcome c' n = Some (m, p) ∧
    ((∃ v, p = Resolved v) ∨ (∃ x, p = Rejected x)).
Proof.
  intros c c' Hno Hall. assert (coordinator_ok c) as Hc by apply runs_coordinator_ok.
  assert (coordinator_ok c') as Hc' by by apply runs_ok_from.
  destruct (runs_entries c ops' Hc) as [_ Hlen]. specialize (Hlen Hno).
  assert (∀ n e, entries c' !! n = Some e → load e = Finished) as Hfin.
  { intros n e He. apply (progress_finished c' n e He).
    assert (n < length (entries c)) as Hn by (rewrite <-Hlen; by eapply lookup_lt_Some).
    destruct (Hall n Hn) as (result&l1&l2&l3&Hops). unfold c'. rewrite Hops.
    by apply settled_finished. }
  assert (states c' = ∅) as Hempty.
  { apply map_empty. intros k. destruct (states c' !! k) as [n|] eqn:Hk; [|done].
    destruct (ok_current c' Hc' k n Hk) as (e&He&_&_&Hf&_). destruct Hf. by eapply Hfin. }
  split; [done|]. split; [intros k; unfold hasPending; by rewrite Hempty, lookup_empty|].
  intros n Hn. rewrite <-Hlen in Hn. apply lookup_lt_is_Some_2 in Hn as [e He].
  destruct (callerOutcome_spec c' n e Hc' He) as (m&e'&Ho&He'&_&Hr).
  exists m, (publicPromise e'). split; [done|]. destruct (publicPromise e') eqn:E.
  - destruct (ok_waiting c' Hc' m e' He' E) as [Hl _]. by rewrite (Hfin m e' He') in Hl.
  - left. by eexists.
  - right. by eexists.
  - by destruct (Hr latest).
Qed.
End coordinator.

(** [loadNamespaceTree]: the outcome of the request as a value. *)
Inductive NamespaceTreeLoadResult (T Error : Type) :=
  | LoadOk (items : list T)
  | LoadFailed (error : Error).
#[global] Arguments LoadOk {T Error}.
#[global] Arguments LoadFailed {T Error}.

Definition loadNamespaceTree {T Error} (request : list T + Error) : NamespaceTreeLoadResult T Error :=
  match request with inl items => LoadOk items | inr error => LoadFailed error end.

(** ** Witnesses *)

(** Two callers share a load; a superseding one takes over both. *)
Definition sample_runs : list (op (K := nat) (T := nat) (Error := nat)) :=
  [OpRun 1 (mkOptions false None); OpRun 1 (mkOptions true (Some 1%Z)); OpRun 2 (mkOptions false None)].

Definition sample_end : list (op (K := nat) (T := nat) (Error := nat)) :=
  [OpSettle 1 (inl 11); OpSettle 0 (inl 10); OpSettle 2 (inr 7); OpFinish 0; OpFinish 2; OpFinish 1].

Example sample_outcome :
  callerOutcome (runs 0 (runs 0 newCoordinator sample_runs) sample_end) 0 = Some (1, Resolved 11).
Proof. reflexivity. Qed.

Lemma latest_load_callers_witness :
  ∃ m (e' : LatestLoadEntry (K:=nat) (T:=nat) (Error:=nat)),
    callerOutcome (runs 0 newCoordinator sample_runs) 0 = Some (m, publicPromise e').
Proof.
  destruct (latest_load_callers 0 sample_runs 0 (mkEntry 1 true 0 (Redirected 1) Loading)) as (m&e'&Ho&_); [by vm_compute|].
  by exists m, e'.
Defined.

Lemma callers_answered_once_witness :
  callerOutcome (settle 1 (inl 11) (runs 0 newCoordinator sample_runs)) 0 = Some (1, Resolved 11).
Proof. 
  destruct (callers_answered_once 0 sample_runs 0 1 Waiting) as [Hs _]; [by vm_compute|]. apply (Hs 1 (inl 11)). Defined.

Lemma loads_settle_witness :
  states (runs 0 (runs 0 newCoordinator sample_runs) sample_end) = ∅.
Proof.
  destruct (loads_settle 0 sample_runs sample_end) as [Hs _]; [by repeat constructor| |exact Hs].
  intros [|[|[|n]]] Hn; [| | |vm_compute in Hn; lia].
  - by exists (inl 10), [OpSettle 1 (inl 11)], [OpSettle 2 (inr 7)], [OpFinish 2; OpFinish 1].
  - by exists (inl 11), [], [OpSettle 0 (inl 10); OpSettle 2 (inr 7); OpFinish 0; OpFinish 2], [].
  - by exists (inr 7), [OpSettle 1 (inl 11); OpSettle 0 (inl 10)], [OpFinish 0], [OpFinish 1].
Defined.
