(* ===== verification/TerminalBuffer.v ===== *)
(** * TerminalBuffer: the screens of the latest terminals

    Models [utils/terminalBuffer.ts]: a [Map] in insertion order that keeps the
    screen of the 50 terminals used last.  The module's map is passed and
    returned. *)

From S2P Require Import Prelude.
Local Open Scope nat_scope.

Definition MAX_PERSISTED_TERMINALS : nat := 50.

Record PersistentTerminalState := mkTerminal {
  buffer : jstr;
  lastRenderedSequence : option Z;
}.

(** [terminalStates]: the entries of the map, oldest first. *)
Abbreviation Terminals := (dict PersistentTerminalState).

Definition mapDelete (sessionId : jstr) (m : Terminals) : Terminals :=
  filter (λ p, p.1 ≠ sessionId) m.

(** The while loop: the oldest entry goes while there are too many. *)
Fixpoint evict (m : Terminals) : Terminals :=
  match m with
  | [] => []
  | _ :: m' => if MAX_PERSISTED_TERMINALS <? length m then evict m' else m
  end.

Definition touchTerminalState (sessionId : jstr) (state : PersistentTerminalState) (m : Terminals) : Terminals :=
  evict (mapDelete sessionId m ++ [(sessionId, state)]).

Definition getPersistentTerminalBuffer (sessionId : jstr) (m : Terminals) : Terminals * option jstr :=
  match dget sessionId m with
  | Some state => (touchTerminalState sessionId state m, Some (buffer state))
  | None => (m, None)
  end.

Definition setPersistentTerminalBuffer (sessionId : jstr) (text : jstr) (m : Terminals) : Terminals :=
  touchTerminalState sessionId (mkTerminal text (dget sessionId m ≫= lastRenderedSequence)) m.

Definition getLastRenderedTerminalSequence (sessionId : jstr) (m : Terminals) : option Z :=
  dget sessionId m ≫= lastRenderedSequence.

Definition setLastRenderedTerminalSequence (sessionId : jstr) (sequence : Z) (m : Terminals) : Terminals :=
  let current := dget sessionId m in
  match current ≫= lastRenderedSequence with
  | Some last => if (sequence <=? last)%Z then m
                 else touchTerminalState sessionId
                        (mkTerminal (from_option buffer [] current) (Some sequence)) m
  | None => touchTerminalState sessionId (mkTerminal (from_option buffer [] current) (Some sequence)) m
  end.

Definition clearPersistentTerminalBuffer (sessionId : jstr) (m : Terminals) : Terminals :=
  mapDelete sessionId m.

Inductive terminal_op :=
  | GetBuffer (sessionId : jstr)
  | SetBuffer (sessionId : jstr) (text : jstr)
  | SetSequence (sessionId : jstr) (sequence : Z)
  | ClearBuffer (sessionId : jstr).

Definition terminal_step (m : Terminals) (o : terminal_op) : Terminals :=
  match o with
  | GetBuffer s => (getPersistentTerminalBuffer s m).1
  | SetBuffer s text => setPersistentTerminalBuffer s text m
  | SetSequence s n => setLastRenderedTerminalSequence s n m
  | ClearBuffer s => clearPersistentTerminalBuffer s m
  end.

Definition terminal_runs (m : Terminals) (ops : list terminal_op) : Terminals := fold_left terminal_step ops m.

Definition session (o : terminal_op) : jstr :=
  match o with GetBuffer s | SetBuffer s _ | SetSequence s _ | ClearBuffer s => s end.

(** ** Well-formed maps *)

Lemma evict_drop m : evict m = drop (length m - MAX_PERSISTED_TERMINALS) m.
Proof.
  induction m as [|p m IH]; [done|]. cbn [evict]. destruct (Nat.ltb_spec MAX_PERSISTED_TERMINALS (length (p :: m))) as [Hlt|Hge].
  - rewrite IH. cbn [length] in *.
    by replace (S (length m) - MAX_PERSISTED_TERMINALS) with (S (length m - MAX_PERSISTED_TERMINALS)) by lia.
  - by replace (length (p :: m) - MAX_PERSISTED_TERMINALS) with 0 by lia.
Qed.

Lemma evict_length m : length (evict m) = Nat.min (length m) MAX_PERSISTED_TERMINALS.
Proof. rewrite evict_drop, length_drop. lia. Qed.

Definition terminals_ok (m : Terminals) : Prop :=
  NoDup (dkeys m) ∧ length m ≤ MAX_PERSISTED_TERMINALS.

Lemma mapDelete_keys s m : dkeys (mapDelete s m) = filter (λ k, k ≠ s) (dkeys m).
Proof.
  unfold mapDelete, dkeys. induction m as [|[k v] m IH]; [done|]. rewrite fmap_cons, !filter_cons. simpl.
  case_decide; [by rewrite fmap_cons, IH|done].
Qed.

Lemma touch_keys s v m :
  dkeys (touchTerminalState s v m) =
  drop (S (length (mapDelete s m)) - MAX_PERSISTED_TERMINALS) (filter (λ k, k ≠ s) (dkeys m) ++ [s]).
Proof.
  unfold touchTerminalState. rewrite evict_drop. unfold dkeys at 1. rewrite fmap_drop, fmap_app.
  fold (dkeys (mapDelete s m)). rewrite mapDelete_keys, length_app. simpl. by rewrite Nat.add_1_r.
Qed.

Lemma touch_ok s v m : NoDup (dkeys m) → terminals_ok (touchTerminalState s v m).
Proof.
  intros Hm. split.
  - rewrite touch_keys. eapply NoDup_sublist; [apply sublist_drop|].
    apply NoDup_app. split_and!; [by apply NoDup_filter| |apply NoDup_singleton].
    intros k [? _]%list_elem_of_filter. by rewrite list_elem_of_singleton.
  - unfold touchTerminalState. rewrite evict_length. lia.
Qed.

Lemma terminal_step_ok m o : terminals_ok m → terminals_ok (terminal_step m o).
Proof.
  intros Hm. pose proof Hm as [Hnd Hlen]. destruct o as [s|s text|s n|s]; simpl.
  - unfold getPersistentTerminalBuffer. destruct (dget s m); [by apply touch_ok|done].
  - by apply touch_ok.
  - unfold setLastRenderedTerminalSequence. destruct (_ ≫= _); [case_test; [done|]|]; by apply touch_ok.
  - split; [unfold clearPersistentTerminalBuffer; rewrite mapDelete_keys; by apply NoDup_filter|].
    etrans; [apply length_filter|done].
Qed.

Lemma terminal_runs_ok m ops : terminals_ok m → terminals_ok (terminal_runs m ops).
Proof. revert m. induction ops as [|o ops IH]; intros m Hm; [done|]. by apply IH, terminal_step_ok. Qed.

Lemma empty_terminals_ok : terminals_ok [].
Proof. split; [constructor|simpl; lia]. Qed.

(** What is touched is there, with its new state. *)
Lemma dget_touch s v m : NoDup (dkeys m) → dget s (touchTerminalState s v m) = Some v.
Proof.
  intros Hm. apply elem_dget; [by apply touch_ok|]. unfold touchTerminalState.
  rewrite evict_drop, drop_app_le by (rewrite length_app; simpl; unfold MAX_PERSISTED_TERMINALS; lia).
  rewrite elem_of_app, list_elem_of_singleton. by right.
Qed.

(** ** The latest terminals stay *)

(** The session [s] is kept with the screen [text]; the sessions used after it
    are among [others]. *)
Definition held (s text : jstr) (others : gset jstr) (m : Terminals) : Prop :=
  NoDup (dkeys m) ∧
  ∃ pre st post, m = pre ++ (s, st) :: post ∧ buffer st = text ∧ list_to_set (dkeys post) ⊆ others.

Lemma held_dget s text others m : held s text others m → buffer <$> dget s m = Some text.
Proof.
  intros (Hnd&pre&st&post&->&Hb&_). rewrite (elem_dget s st); [simpl; by f_equal|done|].
  rewrite elem_of_app, elem_of_cons. by auto.
Qed.

Lemma held_touch_self (s text : jstr) others v m :
  NoDup (dkeys m) → buffer v = text → held s text others (touchTerminalState s v m).
Proof.
  intros Hm Hv. split; [by apply touch_ok|]. unfold touchTerminalState.
  rewrite evict_drop, drop_app_le by (rewrite length_app; simpl; unfold MAX_PERSISTED_TERMINALS; lia).
  eexists _, v, []. split_and!; [done|done|]. simpl. set_solver.
Qed.

Lemma mapDelete_other k s st (pre post : Terminals) :
  k ≠ s → mapDelete k (pre ++ (s, st) :: post) = mapDelete k pre ++ (s, st) :: mapDelete k post.
Proof. intros Hk. unfold mapDelete. rewrite filter_app, filter_cons, decide_True by auto. done. Qed.

Lemma held_touch_other (s text k : jstr) (others : gset jstr) v m :
  k ≠ s → held s text others m → s ∉ others → size ({[k]} ∪ others) < MAX_PERSISTED_TERMINALS →
  held s text ({[k]} ∪ others) (touchTerminalState k v m).
Proof.
  intros Hk (Hnd&pre&st&post&->&Hb&Hpost) Hs Hsize. split; [by apply touch_ok|].
  unfold touchTerminalState. rewrite mapDelete_other by done. rewrite evict_drop.
  set (pre' := mapDelete k pre). set (post' := mapDelete k post ++ [(k, v)]).
  assert (dkeys post' = filter (λ x, x ≠ k) (dkeys post) ++ [k]) as Hkeys.
  { unfold post', dkeys. rewrite fmap_app. fold (dkeys (mapDelete k post)). by rewrite mapDelete_keys. }
  assert (list_to_set (dkeys post') ⊆ {[k]} ∪ others) as Hsub.
  { rewrite Hkeys, list_to_set_app_L. simpl.
    intros x. rewrite !elem_of_union, elem_of_list_to_set, list_elem_of_filter. set_solver. }
  assert (length post' < MAX_PERSISTED_TERMINALS) as Hlen.
  { eapply Nat.le_lt_trans; [|apply Hsize]. replace (length post') with (length (dkeys post')) by (unfold dkeys; by rewrite length_fmap).
    rewrite <-(size_list_to_set (C := gset jstr) (dkeys post')); [by apply subseteq_size|].
    rewrite Hkeys. apply NoDup_app. split_and!; [| |apply NoDup_singleton].
    - apply NoDup_filter. unfold dkeys in Hnd. rewrite fmap_app in Hnd. apply NoDup_app in Hnd as (_&_&Hnd).
      by apply NoDup_cons in Hnd as [_ Hnd].
    - intros x [Hx _]%list_elem_of_filter. by rewrite list_elem_of_singleton. }
  rewrite <-(assoc_L (++)). cbn [app]. fold post'.
  rewrite length_app. cbn [length]. rewrite drop_app_le by lia.
  by eexists _, st, post'.
Qed.

(** An operation that neither sets nor clears the screen of [s]. *)
Definition keeps_screen (s : jstr) (o : terminal_op) : Prop :=
  match o with SetBuffer s' _ | ClearBuffer s' => s' ≠ s | _ => True end.

(** The other sessions that operations name. *)
Definition otherSessions (s : jstr) (ops : list terminal_op) : gset jstr :=
  list_to_set (session <$> ops) ∖ {[s]}.

Lemma other_session (s k : jstr) o : session o = k → otherSessions s [o] = if decide (k = s) then ∅ else {[k]}.
Proof. intros Hk. unfold otherSessions. simpl. rewrite Hk. case_decide; set_solver. Qed.

Lemma held_touch (s text k : jstr) (others : gset jstr) v m :
  held s text others m → s ∉ others → (k = s → buffer v = text) →
  size ((if decide (k = s) then ∅ else {[k]}) ∪ others) < MAX_PERSISTED_TERMINALS →
  held s text ((if decide (k = s) then ∅ else {[k]}) ∪ others) (touchTerminalState k v m).
Proof.
  intros Hh Hs Hv Hsize. case_decide as Hk.
  - subst k. apply held_touch_self; [apply Hh|by apply Hv].
  - by apply held_touch_other.
Qed.

Lemma held_mono (s text : jstr) (others others' : gset jstr) m :
  others ⊆ others' → held s text others m → held s text others' m.
Proof.
  intros Hsub (Hnd&pre&st&post&?&?&?). split; [done|]. exists pre, st, post. split_and!; [done|done|set_solver].
Qed.

Lemma held_step (s text : jstr) (others : gset jstr) o m :
  held s text others m → s ∉ others → keeps_screen s o →
  size (otherSessions s [o] ∪ others) < MAX_PERSISTED_TERMINALS →
  held s text (otherSessions s [o] ∪ others) (terminal_step m o).
Proof.
  intros Hh Hs Hkeep. rewrite (other_session s (session o) o eq_refl). intros Hsize.
  pose proof (held_dget _ _ _ _ Hh) as Hget.
  assert (held s text ((if decide (session o = s) then ∅ else {[session o]}) ∪ others) m) as Hh'.
  { eapply held_mono; [|apply Hh]. set_solver. }
  destruct o as [k|k t|k n|k]; simpl in *.
  - unfold getPersistentTerminalBuffer. destruct (dget k m) as [v|] eqn:Ek; [|done].
    apply held_touch; [done..| |done]. intros ->. rewrite Ek in Hget. by simplify_eq/=.
  - apply held_touch; [done..| |done]. done.
  - unfold setLastRenderedTerminalSequence.
    assert (∀ v, buffer v = from_option buffer [] (dget k m) → k = s → buffer v = text) as Hb.
    { intros v Hv ->. rewrite Hv. destruct (dget s m); by simplify_eq/=. }
    destruct (dget k m ≫= lastRenderedSequence) as [last|]; [destruct (n <=? last)%Z; [done|]|];
      (apply held_touch; [done..| |done]; by apply Hb).
  - unfold clearPersistentTerminalBuffer. destruct Hh' as (Hnd&pre&st&post&->&Hb&Hsub). split.
    + rewrite mapDelete_keys. by apply NoDup_filter.
    + rewrite mapDelete_other by done. eexists _, st, _. split_and!; [done|done|].
      rewrite mapDelete_keys. intros x Hx. apply Hsub.
      rewrite elem_of_list_to_set in Hx |- *. by apply list_elem_of_filter in Hx as [_ Hx].
Qed.

Lemma held_runs (s text : jstr) (others : gset jstr) ops m :
  held s text others m → s ∉ others → Forall (keeps_screen s) ops →
  size (otherSessions s ops ∪ others) < MAX_PERSISTED_TERMINALS →
  held s text (otherSessions s ops ∪ others) (terminal_runs m ops).
Proof.
  revert others m. induction ops as [|o ops IH]; intros others m Hh Hs Hk Hsize.
  { eapply held_mono; [|apply Hh]. set_solver. }
  apply Forall_cons in Hk as [Ho Hk].
  assert (otherSessions s (o :: ops) ∪ others = otherSessions s ops ∪ (otherSessions s [o] ∪ others)) as Heq.
  { unfold otherSessions. simpl. set_solver. }
  rewrite Heq in Hsize |- *. apply IH; [|unfold otherSessions; set_solver|done|done].
  apply held_step; [done..|]. eapply Nat.le_lt_trans; [|apply Hsize]. apply subseteq_size. set_solver.
Qed.

(** C39: at most 50 terminals are kept, each once, whatever is done; and the
    screen of a terminal that was set is what a later read gives, as long as it
    was not set again or cleared and fewer than 50 other terminals were used. *)
Theorem terminal_screens_kept (s text : jstr) ops ops' :
  let m := terminal_runs (setPersistentTerminalBuffer s text (terminal_runs [] ops)) ops' in
  terminals_ok m ∧
  (Forall (keeps_screen s) ops' → size (otherSessions s ops') < MAX_PERSISTED_TERMINALS →
   (getPersistentTerminalBuffer s m).2 = Some text).
Proof.
  intros m. pose proof (terminal_runs_ok [] ops empty_terminals_ok) as [Hnd _]. split.
  - apply terminal_runs_ok. by apply touch_ok.
  - intros Hk Hsize.
    assert (held s text (otherSessions s ops' ∪ ∅) m) as Hh.
    { apply held_runs; [|set_solver|done|by rewrite (right_id_L ∅ (∪))]. by apply held_touch_self. }
    apply held_dget in Hh. unfold getPersistentTerminalBuffer. destruct (dget s m); by simplify_eq/=.
Qed.

(** The last rendered sequence of a kept terminal never goes back. *)
Lemma sequence_monotone s n m :
  NoDup (dkeys m) →
  getLastRenderedTerminalSequence s (setLastRenderedTerminalSequence s n m) =
  Some (from_option (Z.max n) n (getLastRenderedTerminalSequence s m)).
Proof.
  intros Hm. unfold getLastRenderedTerminalSequence, setLastRenderedTerminalSequence.
  destruct (dget s m ≫= lastRenderedSequence) as [last|] eqn:E.
  - case_test; [rewrite E|rewrite dget_touch by done]; simpl; f_equal; lia.
  - by rewrite dget_touch.
Qed.

(** 51 terminals: the first one's screen is gone. *)
Definition manyTerminals (n : nat) : list terminal_op := (λ i, SetBuffer (znum (Z.of_nat i)) (js "x")) <$> seq 1 n.

Lemma terminal_screens_kept_witness :
  (getPersistentTerminalBuffer (js "a")
     (terminal_runs (setPersistentTerminalBuffer (js "a") (js "screen") (terminal_runs [] [])) (manyTerminals 49))).2 =
  Some (js "screen").
Proof.
  apply (terminal_screens_kept (js "a") (js "screen") [] (manyTerminals 49)).
  - repeat constructor; vm_compute; discriminate.
  - vm_compute. lia.
Defined.

Example terminal_evicted :
  (getPersistentTerminalBuffer (js "a")
     (terminal_runs (setPersistentTerminalBuffer (js "a") (js "screen") []) (manyTerminals 50))).2 = None.
Proof. vm_compute. reflexivity. Qed.
