(* ===== verification/ContentDiff.v ===== *)
(** * ContentDiff: the changes of a text against its saved version

    Models [components/SQLEditor/editor/MonacoEditor/contentDiff.ts], the text
    guards of [components/SQLEditor/helper/contentDiffGuard.ts] and, of
    [components/SQLEditor/editor/MonacoEditor/index.tsx], what reverting a hunk
    edits and how hunks are walked.

    The table of the longest common subsequences is a list of rows.  The while
    loop that walks it back has fuel; [None] stands for running out of it, which
    the sum of the two line counts excludes. *)

From S2P Require Import Prelude.
Local Open Scope nat_scope.

(** ** Data *)

Inductive ContentDiffKind := Added | Deleted | Modified | Equal.

#[export] Instance ContentDiffKind_eq_dec : EqDecision ContentDiffKind.
Proof. solve_decision. Defined.

Definition kindName (k : ContentDiffKind) : jstr :=
  match k with
  | Added => js "added"
  | Deleted => js "deleted"
  | Modified => js "modified"
  | Equal => js "equal"
  end.

Record ContentDiffRange := mkRange { startLineNumber : nat; endLineNumber : nat }.

Record ContentDiffHunk := mkHunk {
  id : jstr;
  kind : ContentDiffKind;
  baselineRange : ContentDiffRange;
  currentRange : ContentDiffRange;
  baselineLineCount : nat;
  currentLineCount : nat;
  displayLineCount : nat;
  baselineText : jstr;
  currentText : jstr;
  anchorLineNumber : nat;
}.

Inductive DiffOp :=
  | OpEqual (baselineLine currentLine : nat) (text : jstr)
  | OpDeleted (baselineLine : nat) (text : jstr)
  | OpAdded (currentLine : nat) (text : jstr).

Definition opText (op : DiffOp) : jstr :=
  match op with OpEqual _ _ t | OpDeleted _ t | OpAdded _ t => t end.

Definition MAX_DIFF_MATRIX_CELLS : N := 250000.

(** ** Texts and their hash *)

(** [text.split(/\r\n|\r|\n/)]. *)
Fixpoint splitAtBreaks (text : jstr) : list jstr :=
  match text with
  | [] => [[]]
  | c :: text' =>
      if (c =? 10)%N then [] :: splitAtBreaks text'
      else if (c =? 13)%N
      then match text' with
           | d :: _ => if (d =? 10)%N then splitAtBreaks text' else [] :: splitAtBreaks text'
           | [] => [] :: splitAtBreaks text'
           end
      else match splitAtBreaks text' with
           | [] => [[c]]
           | l :: ls => (c :: l) :: ls
           end
  end.

Definition splitLines (text : jstr) : list jstr :=
  match text with [] => [] | _ => splitAtBreaks text end.

Definition isBlankLine (line : jstr) : bool := bool_decide (trim line = []).

Definition clamp (value low high : nat) : nat := Nat.min (Nat.max value low) high.

(** [x | 0]: the value of the low 32 bits as a signed integer. *)
Definition toInt32 (x : Z) : Z :=
  let low := (x mod 2 ^ 32)%Z in if (low <? 2 ^ 31)%Z then low else (low - 2 ^ 32)%Z.

Definition hashStep (hash : Z) (c : N) : Z := toInt32 (hash * 31 + Z.of_N c).

Definition hashCode (value : jstr) : Z := fold_left hashStep value 0%Z.

(** A digit of [toString(36)]. *)
Definition digit36 (d : Z) : N := Z.to_N (if (d <? 10)%Z then 48 + d else 87 + d)%Z.

(** The digits of [toString(36)] of a number that is not negative; [fuel]
    bounds their number. *)
Fixpoint digits36 (fuel : nat) (x : Z) : jstr :=
  match fuel with
  | 0 => []
  | S fuel => (if (x <? 36)%Z then [] else digits36 fuel (x / 36)%Z) ++ [digit36 (x mod 36)%Z]
  end.

(** [Math.abs(hash).toString(36)]; six digits hold every hash. *)
Definition hashText (value : jstr) : jstr := digits36 6 (Z.abs (hashCode value)).

(** ** The operations *)

(** The rest of a row of the table: [left] is the cell before, [above] the row
    before from the cell above [left] on. *)
Fixpoint fillRow (baselineLine : jstr) (left : nat) (above : list nat) (currentLines : list jstr)
    : list nat :=
  match currentLines, above with
  | currentLine :: currentLines', diagonal :: up :: _ =>
      let cell := if decide (baselineLine = currentLine) then diagonal + 1 else Nat.max up left in
      cell :: fillRow baselineLine cell (tail above) currentLines'
  | _, _ => []
  end.

Fixpoint fillRows (above : list nat) (baselineLines currentLines : list jstr) : list (list nat) :=
  match baselineLines with
  | [] => [above]
  | line :: baselineLines' =>
      above :: fillRows (0 :: fillRow line 0 above currentLines) baselineLines' currentLines
  end.

Definition diffTable (baselineLines currentLines : list jstr) : list (list nat) :=
  fillRows (replicate (length currentLines + 1) 0) baselineLines currentLines.

Definition cell (table : list (list nat)) (i j : nat) : nat := default 0 (table !! i ≫= λ row, row !! j).

(** The line before index [i] is [text]. *)
Definition lineBefore (lines : list jstr) (i : nat) : jstr := default [] (lines !! (i - 1)).

(** The while loop of [buildDiffOps]: the operations in the order they are
    pushed. *)
Fixpoint walkBack (fuel : nat) (baselineLines currentLines : list jstr) (table : list (list nat))
    (baselineIndex currentIndex : nat) : option (list DiffOp) :=
  if (baselineIndex =? 0) && (currentIndex =? 0) then Some []
  else match fuel with
  | 0 => None
  | S fuel =>
      let walk := walkBack fuel baselineLines currentLines table in
      if (0 <? baselineIndex) && (0 <? currentIndex) &&
         bool_decide (lineBefore baselineLines baselineIndex = lineBefore currentLines currentIndex)
      then cons (OpEqual baselineIndex currentIndex (lineBefore baselineLines baselineIndex)) <$>
             walk (baselineIndex - 1) (currentIndex - 1)
      else if (0 <? currentIndex) &&
         ((baselineIndex =? 0) ||
          (cell table (baselineIndex - 1) currentIndex <=? cell table baselineIndex (currentIndex - 1)))
      then cons (OpAdded currentIndex (lineBefore currentLines currentIndex)) <$>
             walk baselineIndex (currentIndex - 1)
      else cons (OpDeleted baselineIndex (lineBefore baselineLines baselineIndex)) <$>
             walk (baselineIndex - 1) currentIndex
  end.

Definition buildDiffOps (baselineLines currentLines : list jstr) : option (list DiffOp) :=
  let m := length baselineLines in
  let n := length currentLines in
  reverse <$> walkBack (m + n) baselineLines currentLines (diffTable baselineLines currentLines) m n.

(** ** Hunks *)

Definition createHunk (k : ContentDiffKind) (baselineStartLine currentStartLine : nat)
    (baselineLines currentLines : list jstr) (lineCount : nat) (display : option nat)
    : ContentDiffHunk :=
  let baselineEndLine := Nat.max baselineStartLine (baselineStartLine + length baselineLines - 1) in
  let currentEndLine := Nat.max currentStartLine (currentStartLine + length currentLines - 1) in
  let anchor := clamp currentStartLine 1 (Nat.max 1 lineCount) in
  let bText := join [10%N] baselineLines in
  let cText := join [10%N] currentLines in
  let colon := js ":" in
  mkHunk
    (kindName k ++ colon ++ znum (Z.of_nat baselineStartLine) ++ colon ++ znum (Z.of_nat baselineEndLine) ++ colon ++
     znum (Z.of_nat currentStartLine) ++ colon ++ znum (Z.of_nat currentEndLine) ++ colon ++
     hashText (bText ++ [10%N] ++ js "---" ++ [10%N] ++ cText))
    k
    (mkRange baselineStartLine baselineEndLine)
    (if decide (k = Deleted) then mkRange anchor anchor else mkRange currentStartLine currentEndLine)
    (length baselineLines) (length currentLines)
    (default (Nat.max (length baselineLines) (Nat.max (length currentLines) 1)) display)
    bText cText anchor.

Definition getDisplayLineCount (k : ContentDiffKind) (deletedLines addedLines : list jstr)
    (trailingBlankContextLineCount : nat) : nat :=
  (if decide (k = Added) then length addedLines
   else Nat.max (length deletedLines) (Nat.max (length addedLines) 1)) + trailingBlankContextLineCount.

(** The variables of [compactDiffOps]. *)
Record Compact := mkCompact {
  hunks : list ContentDiffHunk;
  baselineCursor : nat;
  currentCursor : nat;
  baselineStart : nat;
  currentStart : nat;
  deletedLines : list jstr;
  addedLines : list jstr;
  trailingBlank : nat;
}.

Definition noChange (s : Compact) : bool :=
  match deletedLines s, addedLines s with [], [] => true | _, _ => false end.

Definition hunkKind (deleted added : list jstr) : ContentDiffKind :=
  match deleted, added with
  | _ :: _, _ :: _ => Modified
  | _ :: _, [] => Deleted
  | [], _ => Added
  end.

Definition flush (lineCount : nat) (s : Compact) : Compact :=
  if noChange s then s
  else
    let k := hunkKind (deletedLines s) (addedLines s) in
    mkCompact
      (hunks s ++ [createHunk k (baselineStart s) (currentStart s) (deletedLines s) (addedLines s) lineCount
                     (Some (getDisplayLineCount k (deletedLines s) (addedLines s) (trailingBlank s)))])
      (baselineCursor s) (currentCursor s) (baselineStart s) (currentStart s) [] [] 0.

Definition compactOp (lineCount : nat) (s : Compact) (op : DiffOp) : Compact :=
  match op with
  | OpEqual _ _ text =>
      if bool_decide (deletedLines s ≠ []) && isBlankLine text
      then mkCompact (hunks s) (S (baselineCursor s)) (S (currentCursor s)) (baselineStart s) (currentStart s)
             (deletedLines s) (addedLines s) (S (trailingBlank s))
      else
        let s := flush lineCount s in
        mkCompact (hunks s) (S (baselineCursor s)) (S (currentCursor s))
          (S (baselineCursor s)) (S (currentCursor s)) (deletedLines s) (addedLines s) (trailingBlank s)
  | _ =>
      let s := if noChange s
               then mkCompact (hunks s) (baselineCursor s) (currentCursor s) (baselineCursor s) (currentCursor s)
                      (deletedLines s) (addedLines s) (trailingBlank s)
               else s in
      match op with
      | OpDeleted _ text =>
          mkCompact (hunks s) (S (baselineCursor s)) (currentCursor s) (baselineStart s) (currentStart s)
            (deletedLines s ++ [text]) (addedLines s) 0
      | _ =>
          mkCompact (hunks s) (baselineCursor s) (S (currentCursor s)) (baselineStart s) (currentStart s)
            (deletedLines s) (addedLines s ++ [opText op]) 0
      end
  end.

Definition compactDiffOps (ops : list DiffOp) (lineCount : nat) : list ContentDiffHunk :=
  hunks (flush lineCount (fold_left (compactOp lineCount) ops (mkCompact [] 1 1 1 1 [] [] 0))).

Definition buildContentDiffHunks (baseline current : jstr) : option (list ContentDiffHunk) :=
  if bool_decide (baseline = current) then Some []
  else
    let baselineLines := splitLines baseline in
    let currentLines := splitLines current in
    let n := length currentLines in
    match baselineLines, currentLines with
    | [], _ :: _ => Some [createHunk Added 1 1 [] currentLines n None]
    | _ :: _, [] => Some [createHunk Deleted 1 1 baselineLines [] 0 None]
    | _, _ =>
        if (MAX_DIFF_MATRIX_CELLS <? N.of_nat (length baselineLines) * N.of_nat n)%N
        then Some [createHunk Modified 1 1 baselineLines currentLines n None]
        else (λ ops, compactDiffOps ops n) <$> buildDiffOps baselineLines currentLines
    end.

(** ** The longest common subsequence *)

(** The reference: the length of a longest common subsequence. *)
Fixpoint lcs (xs ys : list jstr) : nat :=
  match xs with
  | [] => 0
  | x :: xs' =>
      (fix row (ys : list jstr) : nat :=
         match ys with
         | [] => 0
         | y :: ys' => if decide (x = y) then S (lcs xs' ys') else Nat.max (lcs xs' (y :: ys')) (row ys')
         end) ys
  end.

Lemma lcs_nil_r xs : lcs xs [] = 0.
Proof. by destruct xs. Qed.

Lemma lcs_cons x xs y ys :
  lcs (x :: xs) (y :: ys) =
  if decide (x = y) then S (lcs xs ys) else Nat.max (lcs xs (y :: ys)) (lcs (x :: xs) ys).
Proof. done. Qed.

Lemma lcs_longest s xs ys : sublist s xs → sublist s ys → length s ≤ lcs xs ys.
Proof.
  revert s ys. induction xs as [|x xs IHx]; intros s ys Hx.
  { apply sublist_nil_r in Hx as ->. simpl. lia. }
  revert s Hx. induction ys as [|y ys IHy]; intros s Hx Hy.
  { apply sublist_nil_r in Hy as ->. simpl. lia. }
  rewrite lcs_cons. apply sublist_cons_r in Hx as [Hx|(s'&->&Hx)];
    apply sublist_cons_r in Hy as [Hy|(s''&?&Hy)]; simplify_eq/=.
  - case_decide as Hd.
    + specialize (IHx s ys Hx Hy). lia.
    + specialize (IHy s (sublist_cons _ _ _ Hx) Hy). lia.
  - case_decide as Hd.
    + specialize (IHx s'' ys (transitivity (sublist_cons y _ _ (reflexivity s'')) Hx) Hy). simpl. lia.
    + specialize (IHx (y :: s'') (y :: ys) Hx (sublist_skip _ _ _ Hy)). simpl in *. lia.
  - case_decide as Hd.
    + specialize (IHx s' ys Hx (transitivity (sublist_cons x _ _ (reflexivity s')) Hy)). lia.
    + specialize (IHy (x :: s') (sublist_skip _ _ _ Hx) Hy). simpl in *. lia.
  - case_decide as Hd; [|done]. specialize (IHx s'' ys Hx Hy). simpl. lia.
Qed.

(** A row of the table for the lines [xs], from the cell for [ys] on. *)
Fixpoint lcsRow (xs ys cs : list jstr) : list nat :=
  lcs xs ys :: match cs with [] => [] | c :: cs' => lcsRow xs (c :: ys) cs' end.

Lemma lcsRow_lookup xs ys cs j :
  j ≤ length cs → lcsRow xs ys cs !! j = Some (lcs xs (reverse (take j cs) ++ ys)).
Proof.
  revert ys j. induction cs as [|c cs IH]; intros ys [|j] Hj; simpl in *; try done; [lia|].
  rewrite IH by lia. by rewrite reverse_cons, <-(assoc_L (++)).
Qed.

Lemma fillRow_spec x xs ys cs :
  lcs (x :: xs) ys :: fillRow x (lcs (x :: xs) ys) (lcsRow xs ys cs) cs = lcsRow (x :: xs) ys cs.
Proof.
  revert ys. induction cs as [|c cs IH]; intros ys; [done|].
  cbn [lcsRow]. f_equal. rewrite <-IH. rewrite lcs_cons.
  destruct cs as [|c' cs]; cbn [lcsRow fillRow tail]; rewrite Nat.add_1_r; done.
Qed.

Lemma fillRows_lookup xs bs cs i :
  i ≤ length bs → fillRows (lcsRow xs [] cs) bs cs !! i = Some (lcsRow (reverse (take i bs) ++ xs) [] cs).
Proof.
  revert xs i. induction bs as [|b bs IH]; intros xs [|i] Hi; simpl in *; try done; [lia|].
  rewrite <-(lcs_nil_r (b :: xs)), fillRow_spec, IH by lia.
  by rewrite reverse_cons, <-(assoc_L (++)).
Qed.

Lemma first_row ys cs : replicate (length cs + 1) 0 = lcsRow [] ys cs.
Proof. revert ys. induction cs as [|c cs IH]; intros ys; simpl; [done|]. by rewrite (IH (c :: ys)). Qed.

(** The table holds the length for every pair of prefixes. *)
Lemma diffTable_spec b c i j :
  i ≤ length b → j ≤ length c →
  cell (diffTable b c) i j = lcs (reverse (take i b)) (reverse (take j c)).
Proof.
  intros Hi Hj. unfold cell, diffTable. rewrite (first_row []), fillRows_lookup by done. simpl.
  rewrite lcsRow_lookup by done. by rewrite !(right_id_L [] (++)).
Qed.

(** ** The operations rebuild both texts *)

(** The baseline and the current lines of operations, with their numbers. *)
Definition baselineSide (ops : list DiffOp) : list (nat * jstr) :=
  omap (λ op, match op with OpEqual i _ t | OpDeleted i t => Some (i, t) | OpAdded _ _ => None end) ops.
Definition currentSide (ops : list DiffOp) : list (nat * jstr) :=
  omap (λ op, match op with OpEqual _ j t | OpAdded j t => Some (j, t) | OpDeleted _ _ => None end) ops.
Definition isEqual (op : DiffOp) : bool := match op with OpEqual _ _ _ => true | _ => false end.
Definition equalLines (ops : list DiffOp) : list jstr := opText <$> filter (λ op, isEqual op = true) ops.

(** Lines with their numbers, from 1. *)
Definition numbered (lines : list jstr) : list (nat * jstr) := imap (λ i l, (S i, l)) lines.

Lemma numbered_snoc ls l : numbered (ls ++ [l]) = numbered ls ++ [(S (length ls), l)].
Proof. unfold numbered. rewrite imap_app. simpl. by rewrite Nat.add_0_r. Qed.

Lemma take_S_line (l : list jstr) i :
  S i ≤ length l → take (S i) l = take i l ++ [lineBefore l (S i)] ∧ length (take i l) = i.
Proof.
  intros Hi. unfold lineBefore. simpl. rewrite Nat.sub_0_r.
  destruct (lookup_lt_is_Some_2 l i) as [x Hx]; [lia|]. rewrite Hx. simpl. split.
  - by apply take_S_r.
  - rewrite length_take. lia.
Qed.

Lemma walkBack_S fuel b c table i j :
  (0 < i ∨ 0 < j) →
  walkBack (S fuel) b c table i j =
  let walk := walkBack fuel b c table in
  if (0 <? i) && (0 <? j) && bool_decide (lineBefore b i = lineBefore c j)
  then cons (OpEqual i j (lineBefore b i)) <$> walk (i - 1) (j - 1)
  else if (0 <? j) && ((i =? 0) || (cell table (i - 1) j <=? cell table i (j - 1)))
  then cons (OpAdded j (lineBefore c j)) <$> walk i (j - 1)
  else cons (OpDeleted i (lineBefore b i)) <$> walk (i - 1) j.
Proof. intros H. cbn [walkBack]. destruct i, j; try done. lia. Qed.

(** What the loop has pushed when it starts at [i] and [j]. *)
Definition rebuilds (b c : list jstr) (i j : nat) (ops : list DiffOp) : Prop :=
  baselineSide (reverse ops) = numbered (take i b) ∧
  currentSide (reverse ops) = numbered (take j c) ∧
  length (equalLines ops) = lcs (reverse (take i b)) (reverse (take j c)).

Lemma sides_reverse_cons op ops :
  baselineSide (reverse (op :: ops)) = baselineSide (reverse ops) ++ baselineSide [op] ∧
  currentSide (reverse (op :: ops)) = currentSide (reverse ops) ++ currentSide [op].
Proof. rewrite reverse_cons. unfold baselineSide, currentSide. by rewrite !omap_app. Qed.

Lemma rebuilds_equal b c i j ops :
  S i ≤ length b → S j ≤ length c → lineBefore b (S i) = lineBefore c (S j) →
  rebuilds b c i j ops → rebuilds b c (S i) (S j) (OpEqual (S i) (S j) (lineBefore b (S i)) :: ops).
Proof.
  intros Hi Hj He (Hb&Hc&Hn). destruct (take_S_line b i Hi) as [Eb Lb], (take_S_line c j Hj) as [Ec Lc].
  unfold rebuilds. destruct (sides_reverse_cons (OpEqual (S i) (S j) (lineBefore b (S i))) ops) as [-> ->].
  rewrite Hb, Hc, Eb, Ec, !numbered_snoc, Lb, Lc, !reverse_snoc. split_and!; [done|by rewrite He|].
  rewrite lcs_cons, decide_True by done. by rewrite <-Hn.
Qed.

Lemma rebuilds_added b c i j ops :
  i ≤ length b → S j ≤ length c →
  (i = 0 ∨ ∃ i', i = S i' ∧ lineBefore b i ≠ lineBefore c (S j) ∧
     cell (diffTable b c) i' (S j) ≤ cell (diffTable b c) i j) →
  rebuilds b c i j ops → rebuilds b c i (S j) (OpAdded (S j) (lineBefore c (S j)) :: ops).
Proof.
  intros Hi Hj Hcell (Hb&Hc&Hn). destruct (take_S_line c j Hj) as [Ec Lc].
  unfold rebuilds. destruct (sides_reverse_cons (OpAdded (S j) (lineBefore c (S j))) ops) as [-> ->].
  rewrite Hb, Hc. simpl. rewrite (right_id_L [] (++)).
  split_and!; [done|by rewrite Ec, numbered_snoc, Lc|].
  change (equalLines (OpAdded (S j) (lineBefore c (S j)) :: ops)) with (equalLines ops). rewrite Hn.
  destruct Hcell as [->|(i'&->&Hne&Hle)]; [done|].
  rewrite !diffTable_spec in Hle by lia. destruct (take_S_line b i' Hi) as [Eb Lb].
  rewrite Ec, Eb, !reverse_snoc in *. rewrite lcs_cons, decide_False by done. lia.
Qed.

Lemma rebuilds_deleted b c i j ops :
  S i ≤ length b → j ≤ length c →
  (j = 0 ∨ ∃ j', j = S j' ∧ lineBefore b (S i) ≠ lineBefore c j ∧
     cell (diffTable b c) (S i) j' ≤ cell (diffTable b c) i j) →
  rebuilds b c i j ops → rebuilds b c (S i) j (OpDeleted (S i) (lineBefore b (S i)) :: ops).
Proof.
  intros Hi Hj Hcell (Hb&Hc&Hn). destruct (take_S_line b i Hi) as [Eb Lb].
  unfold rebuilds. destruct (sides_reverse_cons (OpDeleted (S i) (lineBefore b (S i))) ops) as [-> ->].
  rewrite Hb, Hc. simpl. rewrite (right_id_L [] (++)).
  split_and!; [by rewrite Eb, numbered_snoc, Lb|done|].
  change (equalLines (OpDeleted (S i) (lineBefore b (S i)) :: ops)) with (equalLines ops). rewrite Hn.
  destruct Hcell as [->|(j'&->&Hne&Hle)]; [by rewrite take_0, !lcs_nil_r|].
  rewrite !diffTable_spec in Hle by lia. destruct (take_S_line c j' Hj) as [Ec Lc].
  rewrite Ec, Eb, !reverse_snoc in *. rewrite lcs_cons, decide_False by done. lia.
Qed.

Lemma walkBack_spec b c fuel i j :
  i ≤ length b → j ≤ length c → i + j ≤ fuel →
  ∃ ops, walkBack fuel b c (diffTable b c) i j = Some ops ∧ rebuilds b c i j ops.
Proof.
  revert i j. induction fuel as [|fuel IH]; intros i j Hi Hj Hf.
  { assert (i = 0) as -> by lia. assert (j = 0) as -> by lia. by exists []. }
  destruct i as [|i], j as [|j]; [by exists []| | |]; rewrite walkBack_S by lia; cbv zeta;
    rewrite ?Nat.sub_succ, ?Nat.sub_0_r; cbn [Nat.ltb Nat.leb Nat.eqb andb orb].
  - destruct (IH 0 j ltac:(lia) ltac:(lia) ltac:(lia)) as (ops&->&Hr).
    eexists. split; [done|]. apply rebuilds_added; auto.
  - destruct (IH i 0 ltac:(lia) ltac:(lia) ltac:(lia)) as (ops&->&Hr).
    eexists. split; [done|]. apply rebuilds_deleted; auto.
  - case_bool_decide as He; [|case_test; to_prop].
    + destruct (IH i j ltac:(lia) ltac:(lia) ltac:(lia)) as (ops&->&Hr).
      eexists. split; [done|]. by apply rebuilds_equal.
    + destruct (IH (S i) j ltac:(lia) ltac:(lia) ltac:(lia)) as (ops&->&Hr).
      eexists. split; [done|]. apply rebuilds_added; auto.
      right. exists i. split_and!; auto. by apply Nat.leb_le.
    + destruct (IH i (S j) ltac:(lia) ltac:(lia) ltac:(lia)) as (ops&->&Hr).
      eexists. split; [done|]. apply rebuilds_deleted; auto.
      right. exists j. split_and!; auto. apply Nat.leb_gt in Etest. lia.
Qed.

Lemma equalLines_sublist ops :
  sublist (equalLines ops) (baselineSide ops).*2 ∧ sublist (equalLines ops) (currentSide ops).*2.
Proof.
  unfold equalLines, baselineSide, currentSide. induction ops as [|[i j t|i t|j t] ops [IH1 IH2]].
  - split; apply sublist_nil.
  - rewrite filter_cons, decide_True by done. csimpl. split; by apply sublist_skip.
  - rewrite filter_cons, decide_False by done. csimpl. split; [by apply sublist_cons|done].
  - rewrite filter_cons, decide_False by done. csimpl. split; [done|by apply sublist_cons].
Qed.

Lemma numbered_snd ls : (numbered ls).*2 = ls.
Proof.
  induction ls as [|l ls IH] using rev_ind; [done|]. by rewrite numbered_snoc, fmap_app, IH.
Qed.

Lemma sublist_reverse_mono {A} (s l : list A) : sublist s l → sublist (reverse s) (reverse l).
Proof.
  induction 1 as [|x s l _ IH|x s l _ IH]; [done|..]; rewrite ?reverse_cons.
  - by apply sublist_app.
  - by apply sublist_inserts_r.
Qed.

Lemma lcs_reverse_longest s b c : sublist s b → sublist s c → length s ≤ lcs (reverse b) (reverse c).
Proof.
  intros Hb Hc. rewrite <-(length_reverse s). apply lcs_longest; by apply sublist_reverse_mono.
Qed.

Lemma buildDiffOps_spec b c :
  ∃ ops, buildDiffOps b c = Some ops ∧ baselineSide ops = numbered b ∧ currentSide ops = numbered c ∧
    ∀ common, sublist common b → sublist common c → length common ≤ length (equalLines ops).
Proof.
  destruct (walkBack_spec b c (length b + length c) (length b) (length c)) as (ops&Hw&Hb&Hc&Hn); [done..|].
  rewrite take_ge in Hb by done. rewrite take_ge in Hc by done. rewrite !take_ge in Hn by done.
  exists (reverse ops). unfold buildDiffOps. rewrite Hw. split_and!; try done.
  intros common H1 H2. unfold equalLines. rewrite filter_reverse, fmap_reverse, length_reverse.
  fold (equalLines ops). rewrite Hn. by apply lcs_reverse_longest.
Qed.

(** The operations of a diff rebuild both texts and are as few as possible.
    The loop that walks the table back ends within as many steps as there are
    lines (its result is not [None]); the lines of the [equal] and [deleted]
    operations are the baseline text, with their line numbers, those of the
    [equal] and [added] ones the current text; and the unchanged lines are a
    longest common subsequence of the two texts. *)
Theorem diff_ops_minimal baselineLines currentLines :
  ∃ ops, buildDiffOps baselineLines currentLines = Some ops ∧
    baselineSide ops = numbered baselineLines ∧ currentSide ops = numbered currentLines ∧
    sublist (equalLines ops) baselineLines ∧ sublist (equalLines ops) currentLines ∧
    ∀ common, sublist common baselineLines → sublist common currentLines →
      length common ≤ length (equalLines ops).
Proof.
  destruct (buildDiffOps_spec baselineLines currentLines) as (ops&Ho&Hb&Hc&Hn).
  exists ops. split_and!; try done.
  - rewrite <-(numbered_snd baselineLines), <-Hb. apply equalLines_sublist.
  - rewrite <-(numbered_snd currentLines), <-Hc. apply equalLines_sublist.
Qed.
