(* ===== verification/ContentDiffHunks.v ===== *)
(** * ContentDiffHunks: the hunks of a diff

    [ContentDiff] groups the operations of a diff in hunks; [Grouped] says,
    without cursors and pending lines, what the groups are.  The hash of texts is
    that of the exact polynomial, cut to 32 bits once.  The text guards of
    [components/SQLEditor/helper/contentDiffGuard.ts] limit what is compared. *)

From S2P Require Import Prelude ContentDiff.
Local Open Scope nat_scope.

(** ** Guards ([contentDiffGuard.ts]) *)

Definition CONTENT_DIFF_MAX_TEXT_LENGTH : N := 200000.
Definition CONTENT_DIFF_MAX_HUNK_COUNT : N := 500.
Definition CONTENT_DIFF_MAX_DECORATION_COUNT : N := 1000.

Inductive ContentDiffDenyReason :=
  | Disabled | Unchanged | UnsupportedType | MissingSource | UnsavedSQL | TextTooLarge
  | TooManyHunks | TooManyDecorations.

Record ContentDiffTextGuard := mkTextGuard {
  enabled : bool;
  baselineHash : jstr;
  currentHash : jstr;
  reason : option ContentDiffDenyReason;
}.

(** [hashContentDiffText] is the same code as [hashText]. *)
Definition hashContentDiffText (value : jstr) : jstr := digits36 6 (Z.abs (fold_left hashStep value 0%Z)).

Definition textTooLarge (baseline current : jstr) : bool :=
  (CONTENT_DIFF_MAX_TEXT_LENGTH <? N.of_nat (length baseline))%N
  || (CONTENT_DIFF_MAX_TEXT_LENGTH <? N.of_nat (length current))%N.

Definition guardContentDiffTexts (baseline current : jstr) : ContentDiffTextGuard :=
  let bHash := hashContentDiffText baseline in
  let cHash := hashContentDiffText current in
  if bool_decide (bHash = cHash) && bool_decide (baseline = current)
  then mkTextGuard false bHash cHash (Some Unchanged)
  else if textTooLarge baseline current
  then mkTextGuard false bHash cHash (Some TextTooLarge)
  else mkTextGuard true bHash cHash None.

Definition getContentDiffOpenBlockReason (baseline current : jstr) : option ContentDiffDenyReason :=
  if textTooLarge baseline current then Some TextTooLarge else None.

Definition isContentDiffHunkBudgetExceeded (hunkCount decorationCount : nat) : bool :=
  (CONTENT_DIFF_MAX_HUNK_COUNT <? N.of_nat hunkCount)%N
  || (CONTENT_DIFF_MAX_DECORATION_COUNT <? N.of_nat decorationCount)%N.

Definition getContentDiffDecorationCount (hs : list ContentDiffHunk) : nat :=
  fold_left (λ count h,
    count + Nat.max (endLineNumber (currentRange h) + 1 - startLineNumber (currentRange h)) 1) hs 0.

(** What [updateContentDiffHints] of the editor shows for two texts: the hunks
    of texts that differ and are not too large, if they are not too many. *)
Definition contentDiffHints (baseline current : jstr) : option (list ContentDiffHunk) :=
  if enabled (guardContentDiffTexts baseline current)
  then match buildContentDiffHunks baseline current with
       | Some hs => if isContentDiffHunkBudgetExceeded (length hs) (getContentDiffDecorationCount hs)
                    then None else Some hs
       | None => None
       end
  else None.

(** ** The hash *)

Definition exactHash (value : jstr) : Z := fold_left (λ h c, h * 31 + Z.of_N c)%Z value 0%Z.

Lemma toInt32_range x : (- 2 ^ 31 ≤ toInt32 x < 2 ^ 31)%Z.
Proof.
  unfold toInt32. pose proof (Z.mod_pos_bound x (2 ^ 32) ltac:(lia)).
  destruct (x mod 2 ^ 32 <? 2 ^ 31)%Z eqn:E; lia.
Qed.

Lemma toInt32_mod x : (toInt32 x mod 2 ^ 32 = x mod 2 ^ 32)%Z.
Proof.
  unfold toInt32. destruct (_ <? _)%Z; [apply Z.mod_mod; lia|].
  rewrite <-Z.add_opp_r, Z.add_mod by lia.
  rewrite Z.mod_mod by lia. change ((- 2 ^ 32) mod 2 ^ 32)%Z with 0%Z. rewrite Z.add_0_r.
  apply Z.mod_mod. lia.
Qed.

Lemma toInt32_ext x y : (x mod 2 ^ 32 = y mod 2 ^ 32)%Z → toInt32 x = toInt32 y.
Proof. unfold toInt32. by intros ->. Qed.

Lemma hashStep_mod h h' c :
  (h mod 2 ^ 32 = h' mod 2 ^ 32)%Z → hashStep h c = toInt32 (h' * 31 + Z.of_N c).
Proof.
  intros Heq. apply toInt32_ext.
  rewrite Z.add_mod, Z.mul_mod, Heq, <-Z.mul_mod, <-Z.add_mod by lia. done.
Qed.

Lemma hash_fold_spec value h h' :
  h = toInt32 h' →
  fold_left hashStep value h = toInt32 (fold_left (λ h c, h * 31 + Z.of_N c)%Z value h').
Proof.
  revert h h'. induction value as [|c value IH]; intros h h' Hh; [done|]. simpl.
  apply IH. apply hashStep_mod. rewrite Hh. apply toInt32_mod.
Qed.

(** The number a text in base 36 stands for. *)
Definition digitValue (c : N) : Z := if (c <? 58)%N then (Z.of_N c - 48)%Z else (Z.of_N c - 87)%Z.
Definition value36 (text : jstr) : Z := fold_left (λ x c, x * 36 + digitValue c)%Z text 0%Z.

Lemma value36_snoc text c : value36 (text ++ [c]) = (value36 text * 36 + digitValue c)%Z.
Proof. unfold value36. by rewrite fold_left_app. Qed.

Lemma digit36_value d : (0 ≤ d < 36)%Z → digitValue (digit36 d) = d.
Proof.
  intros Hd. unfold digitValue, digit36. destruct (Z.ltb_spec d 10);
    match goal with |- context [(?a <? ?b)%N] => destruct (N.ltb_spec a b) end; lia.
Qed.

Lemma digits36_value fuel x : (0 ≤ x < 36 ^ Z.of_nat (S fuel))%Z → value36 (digits36 (S fuel) x) = x.
Proof.
  revert x. induction fuel as [|fuel IH]; intros x Hx;
    pose proof (Z.mod_pos_bound x 36 ltac:(lia)) as Hm.
  - change (36 ^ Z.of_nat 1)%Z with 36%Z in Hx. cbn [digits36].
    replace (x <? 36)%Z with true by lia. rewrite value36_snoc, digit36_value by done.
    rewrite Z.mod_small; [done|lia].
  - remember (S fuel) as f eqn:Ef. cbn [digits36]. rewrite value36_snoc, digit36_value by done.
    destruct (Z.ltb_spec x 36).
    + rewrite Z.mod_small; [done|lia].
    + subst f. rewrite IH.
      * pose proof (Z.div_mod x 36 ltac:(lia)). lia.
      * rewrite (Nat2Z.inj_succ (S fuel)), Z.pow_succ_r in Hx by lia.
        split; [apply Z.div_pos; lia|apply Z.div_lt_upper_bound; lia].
Qed.

(** The hash of a text stays in 32 bits: it is the exact polynomial of its
    code units in base 31 cut to a signed 32-bit integer, although the code cuts
    it after every character; and its text is the absolute value in base 36. *)
Theorem hash_bounds value :
  hashCode value = toInt32 (exactHash value) ∧
  (- 2 ^ 31 ≤ hashCode value < 2 ^ 31)%Z ∧
  value36 (hashText value) = Z.abs (hashCode value).
Proof.
  assert (hashCode value = toInt32 (exactHash value)) as Heq by by apply hash_fold_spec.
  pose proof (toInt32_range (exactHash value)) as Hr. rewrite <-Heq in Hr.
  split_and!; [done|lia|lia|]. unfold hashText. apply digits36_value.
  change (36 ^ Z.of_nat 6)%Z with 2176782336%Z. lia.
Qed.

(** ** Groups of operations *)

Definition deletedOf (ops : list DiffOp) : list jstr :=
  omap (λ op, match op with OpDeleted _ t => Some t | _ => None end) ops.
Definition addedOf (ops : list DiffOp) : list jstr :=
  omap (λ op, match op with OpAdded _ t => Some t | _ => None end) ops.

(** The unchanged lines at the end of a group. *)
Definition trailingEqual (ops : list DiffOp) : nat :=
  fold_left (λ k op, if isEqual op then S k else 0) ops 0.

(** An unchanged line that a group takes in: a blank one, after a deletion. *)
Definition absorbed (group : list DiffOp) (op : DiffOp) : Prop :=
  isEqual op = true → deletedOf group ≠ [] ∧ isBlankLine (opText op) = true.

(** A group starts with a change and takes in changes and absorbed lines. *)
Inductive Group : list DiffOp → Prop :=
  | group_start op : isEqual op = false → Group [op]
  | group_more group op : Group group → absorbed group op → Group (group ++ [op]).

(** The hunk of a group that starts at the given lines. *)
Definition groupHunk (lineCount bStart cStart : nat) (group : list DiffOp) : ContentDiffHunk :=
  let deleted := deletedOf group in
  let added := addedOf group in
  let k := hunkKind deleted added in
  createHunk k bStart cStart deleted added lineCount
    (Some (getDisplayLineCount k deleted added (trailingEqual group))).

(** The operations from the lines [b] and [c] on have these hunks: unchanged
    lines belong to none, a group extends as far as it can. *)
Inductive Grouped (lineCount : nat) : nat → nat → list DiffOp → list ContentDiffHunk → Prop :=
  | grouped_end b c : Grouped lineCount b c [] []
  | grouped_equal b c op ops hs :
      isEqual op = true → Grouped lineCount (S b) (S c) ops hs → Grouped lineCount b c (op :: ops) hs
  | grouped_hunk b c group ops hs :
      Group group →
      (∀ op, head ops = Some op → ¬ absorbed group op) →
      Grouped lineCount (b + length (baselineSide group)) (c + length (currentSide group)) ops hs →
      Grouped lineCount b c (group ++ ops) (groupHunk lineCount b c group :: hs).

Lemma sides_app g g' :
  baselineSide (g ++ g') = baselineSide g ++ baselineSide g' ∧
  currentSide (g ++ g') = currentSide g ++ currentSide g' ∧
  deletedOf (g ++ g') = deletedOf g ++ deletedOf g' ∧ addedOf (g ++ g') = addedOf g ++ addedOf g'.
Proof. unfold baselineSide, currentSide, deletedOf, addedOf. by rewrite !omap_app. Qed.

Lemma trailingEqual_snoc g op : trailingEqual (g ++ [op]) = if isEqual op then S (trailingEqual g) else 0.
Proof. unfold trailingEqual. by rewrite fold_left_app. Qed.

Lemma group_changes g : Group g → deletedOf g ≠ [] ∨ addedOf g ≠ [].
Proof.
  induction 1 as [[] Hop|g op Hg IH Ha]; [done|by left|by right|].
  destruct (sides_app g [op]) as (_&_&->&->).
  destruct IH as [IH|IH]; [left|right]; by destruct (deletedOf g), (addedOf g).
Qed.

(** The state of [compactDiffOps] while the group [g] is open, and the one while
    none is. *)
Record open_group (s : Compact) (g : list DiffOp) : Prop := {
  open_ok : Group g;
  open_deleted : deletedLines s = deletedOf g;
  open_added : addedLines s = addedOf g;
  open_trailing : trailingBlank s = trailingEqual g;
  open_baseline : baselineCursor s = baselineStart s + length (baselineSide g);
  open_current : currentCursor s = currentStart s + length (currentSide g);
}.

Definition closed (s : Compact) : Prop := deletedLines s = [] ∧ addedLines s = [] ∧ trailingBlank s = 0.

Lemma noChange_open s g : open_group s g → noChange s = false.
Proof.
  intros [Hg Hd Ha _ _ _]. unfold noChange. rewrite Hd, Ha.
  destruct (group_changes g Hg), (deletedOf g), (addedOf g); done.
Qed.

Lemma flush_open n s g :
  open_group s g →
  closed (flush n s) ∧ hunks (flush n s) = hunks s ++ [groupHunk n (baselineStart s) (currentStart s) g] ∧
  baselineCursor (flush n s) = baselineCursor s ∧ currentCursor (flush n s) = currentCursor s.
Proof.
  intros Ho. unfold flush. rewrite (noChange_open s g Ho). destruct Ho as [_ Hd Ha Ht _ _].
  cbn [hunks baselineCursor currentCursor]. by rewrite Hd, Ha, Ht.
Qed.

Lemma flush_closed n s : closed s → flush n s = s.
Proof. intros (Hd&Ha&_). unfold flush, noChange. by rewrite Hd, Ha. Qed.

(** A change opens a group or joins the open one. *)
Lemma change_opens n s op :
  closed s → isEqual op = false →
  open_group (compactOp n s op) [op] ∧ hunks (compactOp n s op) = hunks s ∧
  baselineStart (compactOp n s op) = baselineCursor s ∧ currentStart (compactOp n s op) = currentCursor s.
Proof.
  intros (Hd&Ha&Ht) Hop. unfold compactOp, noChange. rewrite Hd, Ha.
  destruct op; [done|..]; (split; [split|]); simpl; try rewrite Hd; try rewrite Ha; try done; try lia;
    by apply group_start.
Qed.

Lemma change_joins n s g op :
  open_group s g → absorbed g op →
  open_group (compactOp n s op) (g ++ [op]) ∧ hunks (compactOp n s op) = hunks s ∧
  baselineStart (compactOp n s op) = baselineStart s ∧ currentStart (compactOp n s op) = currentStart s.
Proof.
  intros Ho Habs. pose proof (noChange_open s g Ho) as Hn. unfold compactOp. rewrite Hn.
  destruct Ho as [Hg Hd Ha Ht Hb Hc]. destruct (sides_app g [op]) as (Eb&Ec&Ed&Ea).
  assert (Group (g ++ [op])) by by apply group_more.
  destruct op as [i j t|i t|j t].
  - destruct (Habs eq_refl) as [Hne Hbl]. simpl in Hbl.
    rewrite Hbl, bool_decide_eq_true_2 by (by rewrite Hd). cbn [andb].
    split; [split|]; rewrite ?Eb, ?Ec, ?Ed, ?Ea, ?trailingEqual_snoc, ?length_app; simpl;
      rewrite ?(right_id_L [] (++)); try done; lia || by rewrite Ht.
  - split; [split|]; rewrite ?Eb, ?Ec, ?Ed, ?Ea, ?trailingEqual_snoc, ?length_app; simpl;
      rewrite ?(right_id_L [] (++)); try done; lia || by rewrite Hd.
  - split; [split|]; rewrite ?Eb, ?Ec, ?Ed, ?Ea, ?trailingEqual_snoc, ?length_app; simpl;
      rewrite ?(right_id_L [] (++)); try done; lia || by rewrite Ha.
Qed.

(** An unchanged line that is not absorbed closes the open group. *)
Lemma equal_closes n s g op :
  open_group s g → ¬ absorbed g op →
  isEqual op = true ∧ closed (compactOp n s op) ∧
  hunks (compactOp n s op) = hunks s ++ [groupHunk n (baselineStart s) (currentStart s) g] ∧
  baselineCursor (compactOp n s op) = S (baselineCursor s) ∧
  currentCursor (compactOp n s op) = S (currentCursor s).
Proof.
  intros Ho Hna. destruct (flush_open n s g Ho) as (Hcl&Hh&Hb&Hc).
  destruct op as [i j t|i t|j t]; [|by destruct Hna..].
  unfold compactOp.
  replace (bool_decide (deletedLines s ≠ []) && isBlankLine t) with false.
  - split_and!; [done|apply Hcl|apply Hh| |]; simpl; congruence.
  - symmetry. apply not_true_is_false. intros Ht. to_prop. destruct Hna. intros _.
    rewrite <-(open_deleted s g Ho). naive_solver.
Qed.

Lemma equal_skipped n s op :
  closed s → isEqual op = true →
  closed (compactOp n s op) ∧ hunks (compactOp n s op) = hunks s ∧
  baselineCursor (compactOp n s op) = S (baselineCursor s) ∧
  currentCursor (compactOp n s op) = S (currentCursor s).
Proof.
  intros Hcl Hop. destruct op as [i j t|i t|j t]; [|done..]. unfold compactOp.
  destruct Hcl as (Hd&Ha&Ht). rewrite bool_decide_eq_false_2 by (intros Hx; by apply Hx). cbn [andb].
  rewrite flush_closed by done. done.
Qed.

Lemma group_sides_app g op (b c : nat) :
  b + length (baselineSide (g ++ [op])) = b + length (baselineSide g) + length (baselineSide [op]) ∧
  c + length (currentSide (g ++ [op])) = c + length (currentSide g) + length (currentSide [op]).
Proof. destruct (sides_app g [op]) as (->&->&_). rewrite !length_app. lia. Qed.

Lemma absorbed_dec g op : absorbed g op ∨ ¬ absorbed g op.
Proof.
  unfold absorbed. destruct (isEqual op); [|by left].
  destruct (deletedOf g); [right; intros H; by destruct (H eq_refl)|].
  destruct (isBlankLine (opText op)); [by left|right; intros H; by destruct (H eq_refl)].
Qed.

Lemma compact_grouped n ops :
  (∀ s, closed s → ∃ hs,
     hunks (flush n (fold_left (compactOp n) ops s)) = hunks s ++ hs ∧
     Grouped n (baselineCursor s) (currentCursor s) ops hs) ∧
  (∀ s g, open_group s g → ∃ hs,
     hunks (flush n (fold_left (compactOp n) ops s)) = hunks s ++ hs ∧
     Grouped n (baselineStart s) (currentStart s) (g ++ ops) hs).
Proof.
  induction ops as [|op ops [IHc IHo]].
  - split.
    + intros s Hs. exists []. simpl. rewrite flush_closed by done.
      split; [by rewrite (right_id_L [] (++))|constructor].
    + intros s g Ho. destruct (flush_open n s g Ho) as (_&Hh&_). eexists. simpl. split; [apply Hh|].
      apply grouped_hunk; [apply Ho|done|constructor].
  - split.
    + intros s Hs. simpl. destruct (isEqual op) eqn:Hop.
      * destruct (equal_skipped n s op Hs Hop) as (Hcl&Hh&Hb&Hc).
        destruct (IHc _ Hcl) as (hs&->&Hg). exists hs. rewrite Hh. split; [done|].
        rewrite Hb, Hc in Hg. by apply grouped_equal.
      * destruct (change_opens n s op Hs Hop) as (Ho&Hh&Hb&Hc).
        destruct (IHo _ _ Ho) as (hs&->&Hg). exists hs. rewrite Hh. split; [done|].
        by rewrite Hb, Hc in Hg.
    + intros s g Ho. simpl. destruct (absorbed_dec g op) as [Habs|Hna].
      * destruct (change_joins n s g op Ho Habs) as (Ho'&Hh&Hb&Hc).
        destruct (IHo _ _ Ho') as (hs&->&Hg). exists hs. rewrite Hh. split; [done|].
        by rewrite Hb, Hc, <-(assoc_L (++)) in Hg.
      * destruct (equal_closes n s g op Ho Hna) as (Hop&Hcl&Hh&Hb&Hc).
        destruct (IHc _ Hcl) as (hs&->&Hg). rewrite Hh, <-(assoc_L (++)). eexists. split; [done|].
        rewrite Hb, Hc in Hg. apply grouped_hunk; [apply Ho|by intros ? [= <-]|].
        rewrite <-(open_baseline s g Ho), <-(open_current s g Ho). by apply grouped_equal.
Qed.

Lemma compactDiffOps_grouped n ops : Grouped n 1 1 ops (compactDiffOps ops n).
Proof.
  destruct (compact_grouped n ops) as [Hc _].
  destruct (Hc (mkCompact [] 1 1 1 1 [] [] 0)) as (hs&Hh&Hg); [done|].
  unfold compactDiffOps. by rewrite Hh.
Qed.

(** The texts whose diff goes through the table. *)
Definition diffed (baseline current : jstr) : Prop :=
  baseline ≠ current ∧ baseline ≠ [] ∧ current ≠ [] ∧
  (N.of_nat (length (splitLines baseline)) * N.of_nat (length (splitLines current))
     ≤ MAX_DIFF_MATRIX_CELLS)%N.

Lemma splitAtBreaks_not_nil t : splitAtBreaks t ≠ [].
Proof.
  induction t as [|c t IH]; [done|]. simpl. repeat case_match; try done.
Qed.

Lemma diffed_build baseline current :
  diffed baseline current →
  buildContentDiffHunks baseline current =
  (λ ops, compactDiffOps ops (length (splitLines current))) <$>
    buildDiffOps (splitLines baseline) (splitLines current).
Proof.
  intros (Hne&Hb&Hc&Hmax). unfold buildContentDiffHunks. rewrite bool_decide_eq_false_2 by done.
  assert (∀ t, t ≠ [] → splitLines t ≠ []) as Hsplit.
  { intros [|x t] Ht; [done|]. apply splitAtBreaks_not_nil. }
  destruct (splitLines baseline) as [|b bs] eqn:Eb; [by destruct (Hsplit baseline)|].
  destruct (splitLines current) as [|c cs] eqn:Ec; [by destruct (Hsplit current)|].
  by replace (MAX_DIFF_MATRIX_CELLS <? _)%N with false by (symmetry; by apply N.ltb_ge).
Qed.

(** C12: the hunks of a diff are its maximal groups of changes: scanning with
    cursors and pending lines gives, for operations that rebuild both texts, the
    hunks that the relation [Grouped] describes.  Every change is in exactly one
    hunk, the hunks come in the order of the text, and a hunk holds the deleted
    and the added lines of its group and the first lines it starts at. *)
Theorem hunks_are_groups baseline current :
  diffed baseline current →
  ∃ ops hs, buildContentDiffHunks baseline current = Some hs ∧
    buildDiffOps (splitLines baseline) (splitLines current) = Some ops ∧
    baselineSide ops = numbered (splitLines baseline) ∧
    currentSide ops = numbered (splitLines current) ∧
    Grouped (length (splitLines current)) 1 1 ops hs.
Proof.
  intros Hd. rewrite diffed_build by done.
  destruct (buildDiffOps_spec (splitLines baseline) (splitLines current)) as (ops&->&Hb&Hc&_).
  exists ops. eexists. split_and!; try done. apply compactDiffOps_grouped.
Qed.

Lemma grouped_none n b c ops : Grouped n b c ops [] → Forall (λ op, isEqual op = true) ops.
Proof. remember [] as hs eqn:Eh. induction 1; [constructor|constructor; auto|done]. Qed.

Lemma grouped_no_change n b c ops hs :
  Grouped n b c ops hs → deletedOf ops = [] → addedOf ops = [] → hs = [].
Proof.
  induction 1 as [|b c op ops hs Hop Hg IH|b c group ops hs Hgr _ _ _]; [done|..].
  - destruct op; [by apply IH|done..].
  - destruct (sides_app group ops) as (_&_&->&->). destruct (group_changes group Hgr);
      destruct (deletedOf group), (addedOf group); done.
Qed.

Lemma equal_sides ops :
  Forall (λ op, isEqual op = true) ops → (baselineSide ops).*2 = (currentSide ops).*2.
Proof.
  induction 1 as [|op ops Hop _ IH]; [done|]. destruct op; [|done..]. csimpl. by rewrite IH.
Qed.

Lemma sides_count ops :
  length (baselineSide ops) = length (equalLines ops) + length (deletedOf ops) ∧
  length (currentSide ops) = length (equalLines ops) + length (addedOf ops).
Proof.
  unfold equalLines, baselineSide, currentSide, deletedOf, addedOf.
  induction ops as [|[i j t|i t|j t] ops [IH1 IH2]]; [done|..];
    rewrite filter_cons; csimpl; rewrite ?decide_True, ?decide_False by done; csimpl; lia.
Qed.

(** No hunk means no difference, for texts whose diff goes through the
    table: the lines are the same, line breaks apart. *)
Theorem no_hunks_iff_same_lines baseline current :
  diffed baseline current →
  buildContentDiffHunks baseline current = Some [] ↔ splitLines baseline = splitLines current.
Proof.
  intros Hd. rewrite diffed_build by done.
  destruct (buildDiffOps_spec (splitLines baseline) (splitLines current)) as (ops&->&Hb&Hc&Hmin).
  simpl. pose proof (compactDiffOps_grouped (length (splitLines current)) ops) as Hg. split.
  - intros [= Hnil]. rewrite Hnil in Hg. apply grouped_none, equal_sides in Hg.
    by rewrite Hb, Hc, !numbered_snd in Hg.
  - intros Hsame. f_equal. apply (grouped_no_change _ _ _ _ _ Hg).
    + apply length_zero_iff_nil. destruct (sides_count ops) as [H1 _].
      rewrite Hb in H1. specialize (Hmin (splitLines baseline)). rewrite <-Hsame in Hmin.
      unfold numbered in H1. rewrite length_imap in H1. specialize (Hmin (reflexivity _) (reflexivity _)). lia.
    + apply length_zero_iff_nil. destruct (sides_count ops) as [_ H2].
      rewrite Hc in H2. specialize (Hmin (splitLines current)). rewrite Hsame in Hmin.
      unfold numbered in H2. rewrite length_imap in H2. specialize (Hmin (reflexivity _) (reflexivity _)). lia.
Qed.

(** ** Witnesses *)

Lemma diffed_sample : diffed (js "ab") (js "cd").
Proof. split_and!; [discriminate..|]. vm_compute. discriminate. Qed.

Lemma hunks_are_groups_witness :
  ∃ ops hs, buildContentDiffHunks (js "ab") (js "cd") = Some hs ∧ Grouped 1 1 1 ops hs.
Proof.
  destruct (hunks_are_groups (js "ab") (js "cd") diffed_sample) as (ops&hs&Hb&_&_&_&Hg).
  exists ops, hs. by split.
Defined.

Lemma no_hunks_iff_same_lines_witness : buildContentDiffHunks (js "ab") (js "cd") ≠ Some [].
Proof. intros Hb. apply (no_hunks_iff_same_lines (js "ab") (js "cd") diffed_sample) in Hb. discriminate. Defined.
