(* ===== verification/ContentDiffRevert.v ===== *)
(** * ContentDiffRevert: reverting a hunk

    What [revertContentDiffHunk] of [components/SQLEditor/editor/MonacoEditor/
    index.tsx] edits, and how [getAdjacentContentDiffHunk] walks the hunks.  The
    text model of the editor is an interface: its lines are those of its value,
    and an edit replaces the text between two positions. *)

From S2P Require Import Prelude ContentDiff ContentDiffHunks.
Local Open Scope nat_scope.

(** ** The text model of the editor *)

Record EditRange := mkEditRange {
  startLine : nat; startColumn : nat; endLine : nat; endColumn : nat;
}.

(** The operations of [ITextModel] that the code calls; lines and columns count
    from 1. *)
Class TextModel (M : Type) := {
  getValue : M → jstr;
  getLinesContent : M → list jstr;
  getLineCount : M → nat;
  getLineMaxColumn : M → nat → nat;
  executeEdit : M → EditRange → jstr → M;
}.

(** A position is on a line, at most one column behind its last character. *)
Definition validPosition (lines : list jstr) (line column : nat) (text : jstr) : Prop :=
  1 ≤ line ∧ lines !! (line - 1) = Some text ∧ 1 ≤ column ≤ S (length text).

Class TextModelLaws (M : Type) `{TextModel M} : Prop := {
  lines_of_value (m : M) : getLinesContent m = splitAtBreaks (getValue m);
  line_count (m : M) : getLineCount m = length (getLinesContent m);
  line_max_column (m : M) line text :
    1 ≤ line → getLinesContent m !! (line - 1) = Some text → getLineMaxColumn m line = S (length text);
  edit_lines (m : M) (r : EditRange) (text first final : jstr) :
    validPosition (getLinesContent m) (startLine r) (startColumn r) first →
    validPosition (getLinesContent m) (endLine r) (endColumn r) final →
    startLine r < endLine r ∨ startLine r = endLine r ∧ startColumn r ≤ endColumn r →
    getLinesContent (executeEdit m r text) =
      take (startLine r - 1) (getLinesContent m) ++
      splitAtBreaks (take (startColumn r - 1) first ++ text ++ drop (endColumn r - 1) final) ++
      drop (endLine r) (getLinesContent m);
}.

(** ** The operations *)

Section revert.
Context {M : Type} `{TextModel M}.

(** The range and the text of the edit. *)
Definition revertEdit (h : ContentDiffHunk) (m : M) : EditRange * jstr :=
  let lineCount := getLineCount m in
  if decide (kind h = Deleted) then
    let shouldAppendAtEnd := lineCount <? startLineNumber (baselineRange h) in
    if bool_decide (getValue m = []) then (mkEditRange 1 1 1 1, baselineText h)
    else if shouldAppendAtEnd then
      let lastLineNumber := Nat.max lineCount 1 in
      let lastColumn := getLineMaxColumn m lastLineNumber in
      (mkEditRange lastLineNumber lastColumn lastLineNumber lastColumn, [10%N] ++ baselineText h)
    else
      let insertLineNumber := Nat.min (Nat.max (startLineNumber (currentRange h)) 1) lineCount in
      (mkEditRange insertLineNumber 1 insertLineNumber 1, baselineText h ++ [10%N])
  else
    (mkEditRange (startLineNumber (currentRange h)) 1 (endLineNumber (currentRange h))
       (getLineMaxColumn m (endLineNumber (currentRange h))),
     baselineText h).

(** [None]: nothing is edited.  [snapshotCurrent] is [isContentDiffSnapshotCurrent(model)]. *)
Definition revertContentDiffHunk (snapshotCurrent : bool) (h : ContentDiffHunk) (m : M) : option M :=
  if decide (kind h = Added) then None
  else if negb snapshotCurrent then None
  else let (range, text) := revertEdit h m in Some (executeEdit m range text).
End revert.

(** The position of the first element a test holds of. *)
Fixpoint findIndex {A} (f : A → bool) (l : list A) : option nat :=
  match l with
  | [] => None
  | x :: l' => if f x then Some 0 else S <$> findIndex f l'
  end.

Definition getAdjacentContentDiffHunk (hs : list ContentDiffHunk) (h : ContentDiffHunk) (forward : bool)
    : option ContentDiffHunk :=
  let navigable := filter (λ h, kind h ≠ Added) hs in
  let n := length navigable in
  match findIndex (λ h', bool_decide (id h' = id h)) navigable with
  | None => None
  | Some i =>
      if n =? 1 then None
      else navigable !! Z.to_nat ((Z.of_nat i + (if forward then 1 else -1) + Z.of_nat n) mod Z.of_nat n)
  end.

(** ** Lines and breaks *)

Definition noBreak (line : jstr) : Prop := 10%N ∉ line ∧ 13%N ∉ line.

Lemma splitAtBreaks_cons c t :
  c ≠ 10%N → c ≠ 13%N →
  splitAtBreaks (c :: t) = match splitAtBreaks t with [] => [[c]] | l :: ls => (c :: l) :: ls end.
Proof.
  intros H1 H2. simpl. replace (c =? 10)%N with false by (symmetry; by apply N.eqb_neq).
  by replace (c =? 13)%N with false by (symmetry; by apply N.eqb_neq).
Qed.

Lemma splitAtBreaks_line l t :
  noBreak l → splitAtBreaks (l ++ 10%N :: t) = l :: splitAtBreaks t ∧ splitAtBreaks l = [l].
Proof.
  unfold noBreak. induction l as [|c l IH]; intros [H1 H2]; [done|].
  rewrite not_elem_of_cons in H1, H2. destruct H1 as [? H1], H2 as [? H2].
  destruct IH as [IH1 IH2]; [done|]. cbn [app]. rewrite !splitAtBreaks_cons by done. by rewrite IH1, IH2.
Qed.

Lemma splitAtBreaks_join ls :
  ls ≠ [] → Forall noBreak ls → splitAtBreaks (join [10%N] ls) = ls.
Proof.
  intros Hne Hls. induction Hls as [|l ls Hl Hls IH]; [done|].
  destruct ls as [|l' ls]; [by apply (splitAtBreaks_line l [])|].
  change (join [10%N] (l :: l' :: ls)) with (l ++ 10%N :: join [10%N] (l' :: ls)).
  destruct (splitAtBreaks_line l (join [10%N] (l' :: ls)) Hl) as [-> _]. by rewrite IH.
Qed.

Lemma splitAtBreaks_noBreak t : Forall noBreak (splitAtBreaks t).
Proof.
  unfold noBreak. induction t as [|c t IH]; [repeat constructor; apply not_elem_of_nil|].
  assert (Forall noBreak ([] :: splitAtBreaks t)) as Hnil.
  { constructor; [split; apply not_elem_of_nil|done]. }
  destruct (decide (c = 10%N)) as [->|H1]; [done|].
  destruct (decide (c = 13%N)) as [->|H2].
  { simpl. destruct t as [|d t]; [done|]. by case_match. }
  rewrite splitAtBreaks_cons by done. destruct (splitAtBreaks t) as [|l ls].
  - repeat constructor; set_solver.
  - apply Forall_cons in IH as [[??] ?]. constructor; [set_solver|done].
Qed.

(** The lines of a text model and of the diff. *)
Section model.
Context {M : Type} `{TextModelLaws M}.

Lemma lines_split (m : M) : getValue m ≠ [] → getLinesContent m = splitLines (getValue m).
Proof. intros Hne. rewrite lines_of_value. by destruct (getValue m). Qed.

Lemma lines_noBreak (m : M) : Forall noBreak (getLinesContent m).
Proof. rewrite lines_of_value. apply splitAtBreaks_noBreak. Qed.

(** Whole lines replaced by other lines. *)
Lemma replace_lines (m : M) before old after new :
  getLinesContent m = before ++ old ++ after → old ≠ [] → new ≠ [] → Forall noBreak new →
  let last := length before + length old in
  getLinesContent (executeEdit m
    (mkEditRange (S (length before)) 1 last (getLineMaxColumn m last)) (join [10%N] new)) =
  before ++ new ++ after.
Proof.
  intros Hm Hold Hnew Hnb last.
  destruct (exists_last Hold) as (old'&final&Ef). destruct old as [|first old]; [done|].
  assert (getLinesContent m !! (last - 1) = Some final) as Hfinal.
  { rewrite Hm, lookup_app_r by (unfold last; simpl; lia).
    rewrite lookup_app_l by (unfold last; simpl; lia). rewrite Ef.
    unfold last. rewrite Ef, length_app. simpl.
    rewrite lookup_app_r by lia. by replace (_ - _ - _ - _) with 0 by lia. }
  rewrite (edit_lines m _ _ first final).
  - rewrite (line_max_column m last final) by (done || unfold last; simpl; lia).
    cbn [startLine startColumn endLine endColumn].
    rewrite !Nat.sub_succ, !Nat.sub_0_r, take_0, drop_all, (right_id_L [] (++)). cbn [app].
    rewrite splitAtBreaks_join by done. rewrite Hm.
    rewrite take_app_length. f_equal. f_equal.
    rewrite (assoc_L (++)). unfold last. rewrite <-length_app. by rewrite drop_app_length.
  - split_and!; simpl; [lia| |lia|lia]. rewrite Nat.sub_0_r, Hm.
    rewrite lookup_app_r, Nat.sub_diag by done. done.
  - split_and!; cbn [endLine endColumn]; [unfold last; simpl; lia|done|..];
      rewrite (line_max_column m last final) by (done || unfold last; simpl; lia); lia.
  - cbn [startLine startColumn endLine endColumn].
    rewrite (line_max_column m last final) by (done || unfold last; simpl; lia).
    unfold last. simpl. lia.
Qed.

(** Lines inserted before a line. *)
Lemma insert_lines (m : M) before next after new :
  getLinesContent m = before ++ next :: after → new ≠ [] → Forall noBreak new → noBreak next →
  getLinesContent (executeEdit m
    (mkEditRange (S (length before)) 1 (S (length before)) 1) (join [10%N] new ++ [10%N])) =
  before ++ new ++ next :: after.
Proof.
  intros Hm Hnew Hnb Hnext.
  assert (validPosition (getLinesContent m) (S (length before)) 1 next) as Hpos.
  { split_and!; simpl; [lia| |lia|lia]. rewrite Nat.sub_0_r, Hm.
    by rewrite lookup_app_r, Nat.sub_diag. }
  rewrite (edit_lines m _ _ next next); [|done..|simpl; lia].
  cbn [startLine startColumn endLine endColumn].
  rewrite !Nat.sub_succ, !Nat.sub_0_r, take_0, drop_0. cbn [app].
  rewrite <-(assoc_L (++)).
  assert (join [10%N] new ++ [10%N] ++ next = join [10%N] (new ++ [next])) as ->.
  { clear -Hnew. induction new as [|l new IH]; [done|]. destruct new as [|l' new]; [done|].
    change (join [10%N] (l :: l' :: new)) with (l ++ 10%N :: join [10%N] (l' :: new)).
    change (join [10%N] ((l :: l' :: new) ++ [next])) with (l ++ 10%N :: join [10%N] ((l' :: new) ++ [next])).
    rewrite <-IH by done. by rewrite <-(assoc_L (++)). }
  rewrite splitAtBreaks_join; [|by destruct new|by apply Forall_app; split; [|constructor]].
  rewrite Hm, take_app_length. f_equal. rewrite <-(assoc_L (++)). f_equal. simpl. f_equal.
  change (before ++ next :: after) with (before ++ [next] ++ after). rewrite (assoc_L (++)).
  replace (S (length before)) with (length (before ++ [next])) by (rewrite length_app; simpl; lia).
  by rewrite drop_app_length.
Qed.

(** Lines appended behind the last line. *)
Lemma append_lines (m : M) new :
  new ≠ [] → Forall noBreak new →
  let n := length (getLinesContent m) in
  getLinesContent (executeEdit m
    (mkEditRange n (getLineMaxColumn m n) n (getLineMaxColumn m n)) ([10%N] ++ join [10%N] new)) =
  getLinesContent m ++ new.
Proof.
  intros Hnew Hnb n.
  assert (getLinesContent m ≠ []) as Hne by (rewrite lines_of_value; apply splitAtBreaks_not_nil).
  destruct (exists_last Hne) as (init&final&Ef).
  assert (n = S (length init)) as Hn by (unfold n; rewrite Ef, length_app; simpl; lia).
  assert (getLinesContent m !! (n - 1) = Some final) as Hfinal.
  { rewrite Ef, Hn. simpl. by rewrite Nat.sub_0_r, lookup_app_r, Nat.sub_diag. }
  rewrite (line_max_column m n final) by (done || lia).
  assert (validPosition (getLinesContent m) n (S (length final)) final) as Hpos by (split_and!; [lia|done|lia|lia]).
  rewrite (edit_lines m _ _ final final); [|done..|simpl; lia].
  cbn [startLine startColumn endLine endColumn].
  rewrite !Nat.sub_succ, !Nat.sub_0_r, firstn_all, drop_all, (right_id_L [] (++)).
  rewrite (drop_ge (getLinesContent m)) by done. rewrite (right_id_L [] (++)). cbn [app].
  assert (noBreak final) as Hnf.
  { pose proof (lines_noBreak m) as Hall. rewrite Ef in Hall. apply Forall_app in Hall as [_ Hall].
    by inversion Hall. }
  destruct (splitAtBreaks_line final (join [10%N] new) Hnf) as [-> _].
  rewrite splitAtBreaks_join by done. rewrite Hn, Ef. simpl.
  rewrite Nat.sub_0_r, take_app_length. by rewrite <-(assoc_L (++)).
Qed.
End model.

(** ** What reverting a hunk restores *)

Lemma sides_noBreak b c ops :
  baselineSide ops = numbered (splitLines b) → currentSide ops = numbered (splitLines c) →
  Forall noBreak (baselineSide ops).*2 ∧ Forall noBreak (currentSide ops).*2.
Proof.
  intros -> ->. rewrite !numbered_snd.
  assert (∀ t, Forall noBreak (splitLines t)) as Hall.
  { intros [|x t]; [constructor|]. apply splitAtBreaks_noBreak. }
  split; apply Hall.
Qed.

(** A run of changes, then unchanged lines. *)
Definition changesThenEqual (changes trail : list DiffOp) : Prop :=
  Forall (λ op, isEqual op = false) changes ∧ Forall (λ op, isEqual op = true) trail.

Lemma changes_sides g :
  Forall (λ op, isEqual op = false) g →
  (baselineSide g).*2 = deletedOf g ∧ (currentSide g).*2 = addedOf g.
Proof.
  induction 1 as [|op g Hop _ [IH1 IH2]]; [done|].
  destruct op; [done|..]; csimpl; by rewrite ?IH1, ?IH2.
Qed.

Lemma equal_no_change g :
  Forall (λ op, isEqual op = true) g → deletedOf g = [] ∧ addedOf g = [].
Proof. induction 1 as [|op g Hop _ [IH1 IH2]]; [done|]. by destruct op. Qed.

Lemma groupHunk_fields n bs cs g trail :
  changesThenEqual g trail →
  let h := groupHunk n bs cs (g ++ trail) in
  kind h = hunkKind (deletedOf g) (addedOf g) ∧ baselineText h = join [10%N] (deletedOf g) ∧
  startLineNumber (baselineRange h) = bs ∧
  (kind h = Modified → currentRange h =
     mkRange cs (Nat.max cs (cs + length (addedOf g) - 1))) ∧
  (kind h = Deleted → startLineNumber (currentRange h) = clamp cs 1 (Nat.max 1 n)).
Proof.
  intros [_ Ht] h. destruct (equal_no_change trail Ht) as [Ed Ea].
  destruct (sides_app g trail) as (_&_&E1&E2). rewrite Ed in E1. rewrite Ea in E2.
  rewrite (right_id_L [] (++)) in E1, E2.
  unfold h, groupHunk. rewrite E1, E2. unfold createHunk. simpl.
  split_and!; try done; intros Hk; by rewrite Hk.
Qed.

(** The lines of both texts around a group. *)
Lemma group_lines baseline (current : jstr) pre g trail post :
  buildDiffOps (splitLines baseline) (splitLines current) = Some (pre ++ (g ++ trail) ++ post) →
  changesThenEqual g trail →
  splitLines current = (currentSide pre).*2 ++ addedOf g ++ (currentSide (trail ++ post)).*2 ∧
  Forall noBreak (deletedOf g).
Proof.
  intros Hops [Hg _].
  destruct (buildDiffOps_spec (splitLines baseline) (splitLines current)) as (ops&Ho&Hb&Hc&_).
  rewrite Hops in Ho. injection Ho as <-.
  destruct (sides_noBreak baseline current _ Hb Hc) as [Hnb _].
  destruct (changes_sides g Hg) as [Eb Ec].
  rewrite <-(assoc_L (++)) in Hb, Hc, Hnb.
  destruct (sides_app pre (g ++ trail ++ post)) as (E1&E2&_), (sides_app g (trail ++ post)) as (E3&E4&_).
  rewrite E2, E4 in Hc. rewrite E1, E3, !fmap_app, Eb in Hnb. split.
  - apply (f_equal (fmap snd)) in Hc. by rewrite numbered_snd, !fmap_app, Ec in Hc.
  - by apply Forall_app in Hnb as [_ [Hnb _]%Forall_app].
Qed.

Section revert_edit.
Context {M : Type} `{TextModelLaws M}.

Lemma revert_step (h : ContentDiffHunk) (m : M) :
  kind h ≠ Added →
  revertContentDiffHunk true h m = Some (executeEdit m (revertEdit h m).1 (revertEdit h m).2).
Proof. intros Hk. unfold revertContentDiffHunk. rewrite decide_False by done. by destruct (revertEdit h m). Qed.

Lemma revert_modified (h : ContentDiffHunk) (m : M) before added after deleted :
  kind h = Modified → added ≠ [] → deleted ≠ [] → Forall noBreak deleted →
  baselineText h = join [10%N] deleted →
  currentRange h = mkRange (S (length before)) (length before + length added) →
  getLinesContent m = before ++ added ++ after →
  getLinesContent (executeEdit m (revertEdit h m).1 (revertEdit h m).2) = before ++ deleted ++ after.
Proof.
  intros Hk Ha Hd Hnb Ht Hr Hm. unfold revertEdit. rewrite Hk, decide_False by done.
  rewrite Hr, Ht. cbn [startLineNumber endLineNumber fst snd]. by apply replace_lines.
Qed.

Lemma revert_deleted (h : ContentDiffHunk) (m : M) before after deleted :
  kind h = Deleted → deleted ≠ [] → Forall noBreak deleted → getValue m ≠ [] →
  baselineText h = join [10%N] deleted →
  startLineNumber (currentRange h) =
    clamp (S (length before)) 1 (Nat.max 1 (length (getLinesContent m))) →
  getLinesContent m = before ++ after →
  length (getLinesContent m) < startLineNumber (baselineRange h) ↔ after = [] →
  getLinesContent (executeEdit m (revertEdit h m).1 (revertEdit h m).2) = before ++ deleted ++ after.
Proof.
  intros Hk Hd Hnb Hv Ht Hr Hm Hend. unfold revertEdit.
  rewrite Hk, decide_True, bool_decide_eq_false_2 by done. rewrite line_count, Ht, Hr.
  pose proof (lines_noBreak m) as Hnbm. destruct (Nat.ltb_spec (length (getLinesContent m)) (startLineNumber (baselineRange h))) as [Hlt|Hge].
  - assert (after = []) as -> by by apply Hend. rewrite !(right_id_L [] (++)) in *.
    assert (length (getLinesContent m) ≠ 0) as Hn.
    { rewrite lines_of_value. pose proof (splitAtBreaks_not_nil (getValue m)). by destruct (splitAtBreaks _). }
    rewrite Nat.max_l by lia. rewrite <-Hm. by apply append_lines.
  - destruct after as [|next after]; [pose proof (proj2 Hend eq_refl); lia|].
    assert (Nat.min (Nat.max (clamp (S (length before)) 1 (Nat.max 1 (length (getLinesContent m)))) 1)
              (length (getLinesContent m)) = S (length before)) as ->.
    { unfold clamp. rewrite Hm, length_app. cbn [length]. lia. }
    apply insert_lines; [done..|]. rewrite Hm in Hnbm. apply Forall_app in Hnbm as [_ Hn].
    by inversion Hn.
Qed.
End revert_edit.

Lemma revert_group {M} `{TextModelLaws M} baseline (m : M) pre g trail post :
  diffed baseline (getValue m) →
  let current := splitLines (getValue m) in
  buildDiffOps (splitLines baseline) current = Some (pre ++ (g ++ trail) ++ post) →
  changesThenEqual g trail →
  let h := groupHunk (length current) (S (length (baselineSide pre))) (S (length (currentSide pre))) (g ++ trail) in
  kind h ≠ Added →
  (kind h = Deleted →
     length current < startLineNumber (baselineRange h) ↔ currentSide (trail ++ post) = []) →
  ∃ m', revertContentDiffHunk true h m = Some m' ∧
    getLinesContent m' = (currentSide pre).*2 ++ deletedOf g ++ (currentSide (trail ++ post)).*2.
Proof.
  intros (_&_&Hv&_) current Hops Hg h Hna Hend.
  destruct (group_lines baseline (getValue m) pre g trail post Hops Hg) as [Hlines Hnb].
  rewrite <-lines_split in Hlines by done.
  destruct (groupHunk_fields (length current) (S (length (baselineSide pre)))
              (S (length (currentSide pre))) g trail Hg) as (Hk&Ht&Hb&Hmod&Hdel).
  fold h in Hk, Ht, Hb, Hmod, Hdel.
  assert (deletedOf g ≠ []) as Hd by (intros Hd; by rewrite Hk, Hd in Hna).
  rewrite revert_step by done. eexists. split; [done|].
  destruct (addedOf g) as [|a added] eqn:Ea.
  - assert (kind h = Deleted) as Hkd by (rewrite Hk; by destruct (deletedOf g)).
    apply revert_deleted; auto.
    + rewrite (Hdel Hkd), length_fmap. unfold current. by rewrite lines_split.
    + rewrite lines_split by done. fold current. rewrite (Hend Hkd).
      split; [by intros ->|apply fmap_nil_inv].
  - assert (kind h = Modified) as Hkm by (rewrite Hk; by destruct (deletedOf g)).
    apply (revert_modified h m _ (a :: added)); auto.
    rewrite (Hmod Hkm), length_fmap. simpl. f_equal. lia.
Qed.

(** The group of a hunk among the operations. *)
Lemma grouped_elem n b c ops hs h :
  Grouped n b c ops hs → h ∈ hs →
  ∃ pre group post, ops = pre ++ group ++ post ∧ Group group ∧
    h = groupHunk n (b + length (baselineSide pre)) (c + length (currentSide pre)) group.
Proof.
  induction 1 as [|b c op ops hs Hop _ IH|b c group ops hs Hg _ _ IH].
  - by intros ?%not_elem_of_nil.
  - intros Hin. destruct (IH Hin) as (pre&group&post&->&Hg&->). exists (op :: pre), group, post.
    split_and!; [done|done|]. destruct op; [|done..]. csimpl. f_equal; lia.
  - intros [->|Hin]%elem_of_cons.
    + exists [], group, ops. split_and!; [done|done|]. simpl. f_equal; lia.
    + destruct (IH Hin) as (pre&group'&post&->&Hg'&->). exists (group ++ pre), group', post.
      destruct (sides_app group pre) as (->&->&_). rewrite !length_app, !(assoc_L (++)).
      split_and!; [done|done|]. f_equal; lia.
Qed.

(** A diff with one hunk: the lines around its group are unchanged. *)
Lemma grouped_one n b c ops h :
  Grouped n b c ops [h] →
  ∃ pre group post, ops = pre ++ group ++ post ∧ Group group ∧
    Forall (λ op, isEqual op = true) pre ∧ Forall (λ op, isEqual op = true) post ∧
    h = groupHunk n (b + length (baselineSide pre)) (c + length (currentSide pre)) group.
Proof.
  remember [h] as hs eqn:Eh. induction 1 as [|b c op ops hs Hop _ IH|b c group ops hs Hg _ Hrest _]; [done|..].
  - destruct (IH Eh) as (pre&group&post&->&Hg&Hpre&Hpost&->). exists (op :: pre), group, post.
    split_and!; try done; [by constructor|]. destruct op; [|done..]. csimpl. f_equal; lia.
  - simplify_eq. exists [], group, ops. split_and!; try done; [by eapply grouped_none|].
    simpl. f_equal; lia.
Qed.

(** Without blank lines no group takes in an unchanged line. *)
Lemma group_no_blank g :
  Group g → Forall (λ l, isBlankLine l = false) (currentSide g).*2 → Forall (λ op, isEqual op = false) g.
Proof.
  induction 1 as [op Hop|g op Hg IH Ha]; [by constructor|].
  destruct (sides_app g [op]) as (_&->&_). rewrite fmap_app, Forall_app. intros [H1 H2].
  apply Forall_app. split; [by apply IH|]. constructor; [|done]. destruct op; [|done..].
  destruct (Ha eq_refl) as [_ Hbl]. csimpl in *. apply Forall_cons in H2 as [H2 _]. congruence.
Qed.

Lemma equal_numbers ops :
  Forall (λ op, isEqual op = true) ops → length (baselineSide ops) = length (currentSide ops).
Proof.
  intros Hops. destruct (sides_count ops) as [-> ->], (equal_no_change ops Hops) as [-> ->]. done.
Qed.

(** Reverting a hunk puts its deleted lines back in the place of the added
    ones and changes nothing else.  Every hunk of a diff is that of a group of
    operations; the changes of the group must be contiguous, the lines it takes
    in only follow them.  For a hunk that only deletes, the code takes the
    deletion to be at the end of the text when the number of the deleted line is
    beyond the current line count; the result is right when this test tells
    whether lines follow. *)
Theorem revert_restores_hunk {M} `{TextModelLaws M} baseline (m : M) hs h :
  diffed baseline (getValue m) →
  buildContentDiffHunks baseline (getValue m) = Some hs → h ∈ hs → kind h ≠ Added →
  ∃ pre group post,
    buildDiffOps (splitLines baseline) (splitLines (getValue m)) = Some (pre ++ group ++ post) ∧
    Group group ∧
    ∀ g trail, group = g ++ trail → changesThenEqual g trail →
      (kind h = Deleted →
         length (splitLines (getValue m)) < startLineNumber (baselineRange h) ↔ currentSide (trail ++ post) = []) →
      ∃ m', revertContentDiffHunk true h m = Some m' ∧
        getLinesContent m' = (currentSide pre).*2 ++ deletedOf g ++ (currentSide (trail ++ post)).*2.
Proof.
  intros Hd Hbuild Hin Hna. rewrite diffed_build in Hbuild by done.
  destruct (buildDiffOps_spec (splitLines baseline) (splitLines (getValue m))) as (ops&Ho&_).
  rewrite Ho in Hbuild. injection Hbuild as <-.
  destruct (grouped_elem _ _ _ _ _ _ (compactDiffOps_grouped _ ops) Hin) as (pre&group&post&->&Hg&->).
  exists pre, group, post. split_and!; [done|done|]. intros g trail -> Hgt Hend.
  by apply (revert_group baseline m pre g trail post).
Qed.

(** When a diff has a single hunk, which is not an addition, and the current
    text has no blank line, reverting that hunk gives the lines of the saved
    text back. *)
Theorem revert_single_hunk {M} `{TextModelLaws M} baseline (m : M) h :
  diffed baseline (getValue m) →
  Forall (λ l, isBlankLine l = false) (splitLines (getValue m)) →
  buildContentDiffHunks baseline (getValue m) = Some [h] → kind h ≠ Added →
  ∃ m', revertContentDiffHunk true h m = Some m' ∧ getLinesContent m' = splitLines baseline.
Proof.
  intros Hd Hblank Hbuild Hna. rewrite diffed_build in Hbuild by done.
  destruct (buildDiffOps_spec (splitLines baseline) (splitLines (getValue m))) as (ops&Ho&Hb&Hc&_).
  rewrite Ho in Hbuild. injection Hbuild as Hbuild.
  pose proof (compactDiffOps_grouped (length (splitLines (getValue m))) ops) as Hg.
  rewrite Hbuild in Hg. destruct (grouped_one _ _ _ _ _ Hg) as (pre&g&post&->&Hgr&Hpre&Hpost&->).
  apply (f_equal (fmap snd)) in Hb, Hc. rewrite numbered_snd in Hb, Hc.
  destruct (sides_app pre (g ++ post)) as (E1&E2&_), (sides_app g post) as (E3&E4&_).
  rewrite E1, E3, !fmap_app in Hb. rewrite E2, E4, !fmap_app in Hc.
  assert (Forall (λ op, isEqual op = false) g) as Hch.
  { apply group_no_blank; [done|]. rewrite <-Hc in Hblank.
    apply Forall_app in Hblank as [_ Hblank]. by apply Forall_app in Hblank as [Hblank _]. }
  destruct (changes_sides g Hch) as [Eb Ec].
  destruct (revert_group baseline m pre g [] post) as (m'&Hm'&Hl).
  - done.
  - by rewrite (right_id_L [] (++)).
  - by split.
  - by rewrite (right_id_L [] (++)).
  - rewrite (right_id_L [] (++)). intros Hdel.
    destruct (groupHunk_fields (length (splitLines (getValue m))) (S (length (baselineSide pre)))
      (S (length (currentSide pre))) g []) as (Hk&_&Hs&_); [by split|].
    rewrite (right_id_L [] (++)) in Hk, Hs. rewrite Hs.
    assert (addedOf g = []) as Ha.
    { rewrite Hdel in Hk. by destruct (deletedOf g), (addedOf g). }
    rewrite <-Hc, Ec, Ha, (equal_numbers pre Hpre), !length_app, !length_fmap. simpl.
    destruct (currentSide post); simpl; [split; [done|lia]|split; [lia|done]].
  - exists m'. rewrite (right_id_L [] (++)) in Hm'. split; [done|].
    rewrite Hl, <-Hb, Eb. simpl. by rewrite (equal_sides pre Hpre), (equal_sides post Hpost).
Qed.

(** ** Walking the hunks *)

Lemma findIndex_unique {A B} `{EqDecision B} (f : A → B) (l : list A) i x :
  NoDup (f <$> l) → l !! i = Some x → findIndex (λ y, bool_decide (f y = f x)) l = Some i.
Proof.
  revert i. induction l as [|y l IH]; intros i; [done|]. rewrite fmap_cons, NoDup_cons. intros [Hy Hnd].
  destruct i as [|i]; simpl; [intros [= ->]; by rewrite bool_decide_eq_true_2|].
  intros Hi. rewrite bool_decide_eq_false_2; [by rewrite (IH i)|].
  intros Heq. destruct Hy. rewrite Heq. apply list_elem_of_fmap_2. by eapply list_elem_of_lookup_2.
Qed.

(** Forward and back again leads to the hunk one comes from, around the end. *)
Lemma adjacent_back hs h h' :
  NoDup (id <$> hs) → h ∈ hs → kind h ≠ Added →
  getAdjacentContentDiffHunk hs h true = Some h' →
  kind h' ≠ Added ∧ getAdjacentContentDiffHunk hs h' false = Some h.
Proof.
  intros Hnd Hin Hk. unfold getAdjacentContentDiffHunk.
  set (nav := filter (λ h, kind h ≠ Added) hs). set (n := length nav).
  assert (NoDup (id <$> nav)) as Hnav.
  { eapply sublist_NoDup; [apply Hnd|]. apply fmap_sublist, sublist_filter. }
  assert (h ∈ nav) as Hh by by apply list_elem_of_filter.
  apply list_elem_of_lookup in Hh as [i Hi]. rewrite (findIndex_unique id nav i h) by done.
  assert (i < n) as Hlt by by eapply lookup_lt_Some.
  destruct (n =? 1) eqn:En; [done|]. apply Nat.eqb_neq in En. intros Hi'.
  assert (h' ∈ nav) as [Hk' _]%list_elem_of_filter by by eapply list_elem_of_lookup_2.
  split; [done|]. rewrite (findIndex_unique id nav _ h' Hnav Hi').
  rewrite <-Hi. f_equal.
  pose proof (Z.mod_pos_bound (Z.of_nat i + 1 + Z.of_nat n) (Z.of_nat n) ltac:(lia)).
  rewrite Z2Nat.id by lia. apply Nat2Z.inj. rewrite Z2Nat.id.
  - destruct (decide (S i = n)) as [He|He].
    + replace (Z.of_nat i + 1 + Z.of_nat n)%Z with (0 + 2 * Z.of_nat n)%Z by lia.
      rewrite Z.mod_add, Z.mod_0_l by lia. rewrite Z.mod_small; lia.
    + replace (Z.of_nat i + 1 + Z.of_nat n)%Z with (Z.of_nat i + 1 + 1 * Z.of_nat n)%Z by lia.
      rewrite Z.mod_add by lia. rewrite (Z.mod_small (Z.of_nat i + 1)) by lia.
      replace (Z.of_nat i + 1 + -1 + Z.of_nat n)%Z with (Z.of_nat i + 1 * Z.of_nat n)%Z by lia.
      rewrite Z.mod_add by lia. apply Z.mod_small. lia.
  - apply Z.mod_pos_bound. lia.
Qed.

(** ** A text model: the text itself *)

#[export] Instance textModel : TextModel jstr := {
  getValue t := t;
  getLinesContent := splitAtBreaks;
  getLineCount t := length (splitAtBreaks t);
  getLineMaxColumn t line := S (length (lineBefore (splitAtBreaks t) line));
  executeEdit t r text :=
    let lines := splitAtBreaks t in
    join [10%N]
      (take (startLine r - 1) lines ++
       splitAtBreaks (take (startColumn r - 1) (lineBefore lines (startLine r)) ++ text ++
                      drop (endColumn r - 1) (lineBefore lines (endLine r))) ++
       drop (endLine r) lines);
}.

#[export] Instance textModel_laws : TextModelLaws jstr.
Proof.
  split; simpl; try done.
  - intros m line text _ Hl. unfold lineBefore. by rewrite Hl.
  - intros m r text first final (_&Hf&_) (_&Hl&_) _. unfold lineBefore. rewrite Hf, Hl. simpl.
    apply splitAtBreaks_join.
    + intros E. apply app_eq_nil in E as [_ E]. apply app_eq_nil in E as [E _].
      by apply splitAtBreaks_not_nil in E.
    + rewrite !Forall_app. split_and!; [apply Forall_take|..|apply Forall_drop]; apply splitAtBreaks_noBreak.
Qed.

Definition textOf (lines : list string) : jstr := join [10%N] (js <$> lines).

Definition revertAt (i : nat) (baseline current : list string) : option jstr :=
  match buildContentDiffHunks (textOf baseline) (textOf current) with
  | Some hs => match hs !! i with
               | Some h => revertContentDiffHunk true h (textOf current)
               | None => None
               end
  | None => None
  end.

(** A modified line comes back. *)
Example revert_sample :
  revertAt 0 ["a"; "b"; "c"]%string ["a"; "x"; "y"; "c"]%string = Some (textOf ["a"; "b"; "c"]%string).
Proof. vm_compute. reflexivity. Qed.

(** Changes before and after a blank line are one hunk, whose range leaves the
    blank line out of the count: its revert drops the blank line and keeps a line
    that was added. *)
Lemma revert_across_blank_line :
  revertAt 0 ["a"; ""; "b"]%string ["x"; ""; "y"]%string = Some (textOf ["a"; "b"; "y"]%string).
Proof. vm_compute. reflexivity. Qed.

(** A deletion at the end of the text comes back before the last line when
    enough lines were added before. *)
Lemma revert_deletion_at_end :
  revertAt 1 ["a"; "z"]%string ["x"; "y"; "a"]%string = Some (textOf ["x"; "y"; "z"; "a"]%string).
Proof. vm_compute. reflexivity. Qed.

(** A deletion in the middle comes back at the end when enough lines were
    deleted before. *)
Lemma revert_deletion_in_middle :
  revertAt 1 ["p"; "q"; "r"; "a"; "s"; "b"]%string ["a"; "b"]%string = Some (textOf ["a"; "b"; "s"]%string).
Proof. vm_compute. reflexivity. Qed.

Lemma revert_single_hunk_witness :
  ∃ m', getLinesContent m' = splitLines (textOf ["a"; "b"]%string) ∧
    revertAt 0 ["a"; "b"]%string ["x"; "b"]%string = Some m'.
Proof.
  destruct (revert_single_hunk (textOf ["a"; "b"]%string) (textOf ["x"; "b"]%string)
    (groupHunk 2 1 1 [OpDeleted 1 (js "a"); OpAdded 1 (js "x")])) as (m'&Hm'&Hl).
  - split_and!; [discriminate..|]. vm_compute. discriminate.
  - repeat constructor.
  - vm_compute. reflexivity.
  - discriminate.
  - exists m'. split; [exact Hl|]. rewrite <-Hm'. vm_compute. reflexivity.
Defined.

Lemma revert_restores_hunk_witness :
  ∃ pre group post,
    buildDiffOps (splitLines (textOf ["a"; "b"; "c"]%string)) (splitLines (textOf ["x"; "b"; "d"]%string)) =
      Some (pre ++ group ++ post) ∧ Group group.
Proof.
  destruct (revert_restores_hunk (textOf ["a"; "b"; "c"]%string) (textOf ["x"; "b"; "d"]%string)
    [groupHunk 3 1 1 [OpDeleted 1 (js "a"); OpAdded 1 (js "x")];
     groupHunk 3 3 3 [OpDeleted 3 (js "c"); OpAdded 3 (js "d")]]
    (groupHunk 3 3 3 [OpDeleted 3 (js "c"); OpAdded 3 (js "d")])) as (pre&group&post&Ho&Hg&_).
  - split_and!; [discriminate..|]. vm_compute. discriminate.
  - vm_compute. reflexivity.
  - apply elem_of_cons. right. apply elem_of_cons. by left.
  - discriminate.
  - exists pre, group, post. by split.
Defined.
