(* ===== verification/ImportExportTasks.v ===== *)
(** * ImportExportTasks: lists of import and export tasks

    Models [store/importExport/taskCenterUtils.ts]: loading and merging lists of
    tasks, which completions are new, the events of a task, and when the client
    polls again.  A task has the fields that this code reads; [name], [progress]
    and the texts a view shows are handed on and left out.  [ImportExportStore]
    models the store on top. *)

From S2P Require Import Prelude StableSort.
Local Open Scope Z_scope.

(** ** Data *)

Inductive ImportExportTaskType :=
  QUERY_RESULT_EXPORT | SQL_EXPORT | TABLE_DATA_EXPORT | DATA_FILE_IMPORT | SQL_FILE_IMPORT.
Inductive ImportExportTaskStatus := PENDING | RUNNING | SUCCESS | FAILED | CANCELLED.

#[export] Instance ImportExportTaskStatus_eq_dec : EqDecision ImportExportTaskStatus.
Proof. solve_decision. Defined.

(** [new Date(text).getTime()]; [None] stands for [NaN]. *)
Class DateParser := parseDate : jstr → option Z.

(** A value of type [number | string]. *)
Inductive Timestamp := Millis (n : Z) | DateText (text : jstr).

Record TaskTarget := mkTarget {
  dataSourceId : option Z;
  databaseName : option jstr;
  schemaName : option jstr;
  tableName : option jstr;
}.

Record ImportExportTaskDetails := mkTask {
  id : Z;
  type : ImportExportTaskType;
  status : ImportExportTaskStatus;
  target : option TaskTarget;
  createdAt : Timestamp;
  startedAt : option Timestamp;
  finishedAt : option Timestamp;
  updatedAt : option Timestamp;
}.

Record TaskNotificationCursor := mkCursor { cursorCreatedAt : Z; cursorTaskId : Z }.

(** An object with the ids as keys. *)
Abbreviation TaskStatusById := (gmap Z ImportExportTaskStatus).

Definition TASK_LIST_PAGE_SIZE : Z := 100.
Definition TASK_CENTER_PAGE_SIZE : Z := 10.
Definition ACTIVE_TASK_POLL_INTERVAL : Z := 1000.
Definition FAILED_TASK_POLL_INTERVAL : Z := 1500.

(** [TERMINAL_TASK_STATUSES.has(status)]; the other statuses are
    [ACTIVE_TASK_STATUSES]. *)
Definition isTerminal (status : ImportExportTaskStatus) : bool :=
  match status with SUCCESS | FAILED | CANCELLED => true | PENDING | RUNNING => false end.

Definition isActiveStatus (status : ImportExportTaskStatus) : bool :=
  match status with PENDING | RUNNING => true | SUCCESS | FAILED | CANCELLED => false end.

(** ** The generations of "load more" *)

Record TaskListLoadMoreRequest := mkLoadMoreRequest { requestState : nat; requestNumber : nat }.
Record TaskListRequestCoordinator := mkCoordinator { stateGeneration : nat; loadMoreRequestGeneration : nat }.

Definition createTaskListRequestCoordinator : TaskListRequestCoordinator := mkCoordinator 0 0.

Definition invalidateState (c : TaskListRequestCoordinator) : TaskListRequestCoordinator :=
  mkCoordinator (S (stateGeneration c)) (loadMoreRequestGeneration c).

Definition beginLoadMoreRequest (c : TaskListRequestCoordinator) : TaskListRequestCoordinator * TaskListLoadMoreRequest :=
  let generation := S (loadMoreRequestGeneration c) in
  (mkCoordinator (stateGeneration c) generation, mkLoadMoreRequest (stateGeneration c) generation).

Definition canApplyLoadMoreResponse (c : TaskListRequestCoordinator) (request : TaskListLoadMoreRequest) : bool :=
  (requestState request =? stateGeneration c)%nat && (requestNumber request =? loadMoreRequestGeneration c)%nat.

Definition isLatestLoadMoreRequest (c : TaskListRequestCoordinator) (request : TaskListLoadMoreRequest) : bool :=
  (requestNumber request =? loadMoreRequestGeneration c)%nat.

(** ** Loading *)

Record TaskPage := mkPage { pageData : list ImportExportTaskDetails; pageHasNext : bool }.

(** A loop of loads that awaits page [pageNo], has all tasks, or failed. *)
Inductive PageLoop := NextPage (pageNo : Z) (tasks : list ImportExportTaskDetails) | AllTasks (tasks : list ImportExportTaskDetails)
  | LoadFailed.

(** What the loop does with an answer; [None] is a load that failed. *)
Definition onTaskPage (loop : PageLoop) (answer : option TaskPage) : PageLoop :=
  match loop with
  | NextPage pageNo tasks =>
      match answer with
      | Some page =>
          let tasks := tasks ++ pageData page in
          if pageHasNext page then NextPage (pageNo + 1) tasks else AllTasks tasks
      | None => LoadFailed
      end
  | _ => loop
  end.

Definition listAllTasksByStatus (answers : list (option TaskPage)) : PageLoop := fold_left onTaskPage answers (NextPage 1 []).

(** [trackedTaskIds] that are not visible. *)
Definition missingTaskIds (trackedTaskIds : list Z) (visibleTasks : list ImportExportTaskDetails) : list Z :=
  filter (λ taskId, taskId ∉ map id visibleTasks) trackedTaskIds.

(** The answers to the loads of the missing tasks, in their order; [None] is a
    load that failed.  The result is the tasks and the unresolved ids. *)
Definition loadMissingTrackedTasks (missing : list Z) (results : list (option ImportExportTaskDetails))
    : list ImportExportTaskDetails * list Z :=
  let tasks := omap (λ r, r) results in
  (tasks, filter (λ taskId, taskId ∉ map id tasks) missing).

(** ** Maps of objects by a number *)

(** A [Map] from the [key] of a value to the value is the list of its values, in
    insertion order: [get], and [set] of a value at its key. *)
Section map.
Context {A : Type} (key : A → Z).

Fixpoint mapGet (k : Z) (m : list A) : option A :=
  match m with
  | [] => None
  | x :: m' => if decide (key x = k) then Some x else mapGet k m'
  end.

Fixpoint mapSet (x : A) (m : list A) : list A :=
  match m with
  | [] => [x]
  | y :: m' => if decide (key y = key x) then x :: m' else y :: mapSet x m'
  end.
End map.

Section dates.
Context {parse : DateParser}.

(** [new Date(value).getTime() || 0]: the time is in the range of dates. *)
Definition timeOf (value : Timestamp) : Z :=
  match value with
  | Millis n => if Z.abs n <=? 8640000000000000 then n else 0
  | DateText text => default 0 (parseDate text)
  end.

(** [a ?? b]. *)
Definition orElse (a : option Timestamp) (b : Timestamp) : Timestamp := default b a.

Definition taskUpdateTime (task : ImportExportTaskDetails) : Z :=
  timeOf (orElse (updatedAt task) (orElse (finishedAt task) (orElse (startedAt task) (createdAt task)))).

(** ** Merging *)

(** The two early returns of the loop. *)
Definition keepsPrevious (previous task : ImportExportTaskDetails) : bool :=
  let previousTerminal := isTerminal (status previous) in
  let incomingTerminal := isTerminal (status task) in
  previousTerminal && negb incomingTerminal
  || eqb previousTerminal incomingTerminal && (taskUpdateTime task <? taskUpdateTime previous).

Definition mergeTask (tasksById : list ImportExportTaskDetails) (task : ImportExportTaskDetails) : list ImportExportTaskDetails :=
  match mapGet id (id task) tasksById with
  | Some previous => if keepsPrevious previous task then tasksById else mapSet id task tasksById
  | None => mapSet id task tasksById
  end.

(** The comparator of [sort] gives no positive number. *)
Definition newestFirst (left right : ImportExportTaskDetails) : bool :=
  timeOf (createdAt right) <=? timeOf (createdAt left).

Definition mergeTasks (taskGroups : list (list ImportExportTaskDetails)) : list ImportExportTaskDetails :=
  stable_sort newestFirst (fold_left mergeTask (concat taskGroups) []).

(** ** Completions *)

(** The task is behind the cursor in time. *)
Definition isNewerThan (taskCursor : TaskNotificationCursor) (cursor : option TaskNotificationCursor) : bool :=
  match cursor with
  | None => true
  | Some c =>
      (cursorCreatedAt c <? cursorCreatedAt taskCursor)
      || (cursorCreatedAt taskCursor =? cursorCreatedAt c) && (cursorTaskId c <? cursorTaskId taskCursor)
  end.

Definition taskCursor (task : ImportExportTaskDetails) : TaskNotificationCursor :=
  mkCursor (timeOf (createdAt task)) (id task).

Definition isNewlyCompleted (previousStatuses : TaskStatusById) (initialized : bool)
    (previousCursor : option TaskNotificationCursor) (task : ImportExportTaskDetails) : bool :=
  initialized && isTerminal (status task)
  && match previousStatuses !! id task with
     | None => isNewerThan (taskCursor task) previousCursor
     | Some previousStatus => negb (isTerminal previousStatus)
     end.

Record CompletionUpdate := mkUpdate {
  statuses : TaskStatusById;
  newlyCompletedTaskIds : list Z;
  cursor : option TaskNotificationCursor;
}.

Definition reconcileStep (previousStatuses : TaskStatusById) (initialized : bool)
    (previousCursor : option TaskNotificationCursor) (u : CompletionUpdate) (task : ImportExportTaskDetails) : CompletionUpdate :=
  mkUpdate (<[id task := status task]> (statuses u))
    (if isNewlyCompleted previousStatuses initialized previousCursor task
     then newlyCompletedTaskIds u ++ [id task] else newlyCompletedTaskIds u)
    (if isNewerThan (taskCursor task) (cursor u) then Some (taskCursor task) else cursor u).

(** [newlyCompletedCount] is the length of the list. *)
Definition reconcileCompletedTaskNotifications (previousStatuses : TaskStatusById) (tasks : list ImportExportTaskDetails)
    (initialized : bool) (previousCursor : option TaskNotificationCursor) : CompletionUpdate :=
  fold_left (reconcileStep previousStatuses initialized previousCursor) tasks (mkUpdate ∅ [] previousCursor).
End dates.

(** ** Events *)

Record ImportExportTaskEvent := mkTaskEvent { sequence : Z; eventMessage : jstr }.

Definition mergeTaskEvents (currentEvents incomingEvents : list ImportExportTaskEvent) : list ImportExportTaskEvent :=
  stable_sort (λ left right, sequence left <=? sequence right)
    (fold_left (λ m event, mapSet sequence event m) (currentEvents ++ incomingEvents) []).

(** ** Polling *)

Definition getTaskPollingDelay (activeTaskCount : nat) (failed : bool) : option Z :=
  if failed then Some FAILED_TASK_POLL_INTERVAL
  else if (0 <? activeTaskCount)%nat then Some ACTIVE_TASK_POLL_INTERVAL else None.

Definition shouldKeepTaskPolling (taskCenterOpen : bool) (activeTaskCount : nat) : bool :=
  taskCenterOpen || (0 <? activeTaskCount)%nat.

(** What was thrown: an object whose [errorCode] is a string, or anything else. *)
Inductive PollError := ErrorWithCode (errorCode : jstr) | OtherError.

Definition NON_RETRYABLE_POLLING_ERRORS : list jstr :=
  [js "common.needLoggedIn"; js "api.invalidTrial"; js "api.invalidDevice"; js "api.trialExpired"; js "api.licenseExpired";
   js "ai.licenseNotSupported"].

Definition shouldRetryTaskPolling (error : PollError) : bool :=
  match error with
  | ErrorWithCode errorCode => negb (includes errorCode NON_RETRYABLE_POLLING_ERRORS)
  | OtherError => true
  end.

Definition isImport (type : ImportExportTaskType) : bool :=
  match type with DATA_FILE_IMPORT | SQL_FILE_IMPORT => true | _ => false end.

(** The import filled the table of the target just now. *)
Definition shouldRefreshImportTargetTable (previousTask : option ImportExportTaskDetails)
    (currentTask : ImportExportTaskDetails) : bool :=
  let hasTarget :=
    match target currentTask with
    | Some t => negb (default 0 (dataSourceId t) =? 0) && negb (bool_decide (default [] (tableName t) = []))
    | None => false
    end in
  if negb (isImport (type currentTask)) then false
  else if negb hasTarget then false
  else if negb (bool_decide (status currentTask = SUCCESS)) then false
  else
    match previousTask with
    | Some previous => (id previous =? id currentTask) && negb (bool_decide (status previous = SUCCESS))
    | None => true
    end.

(** ** Lemmas *)

Section map_lemmas.
Context {A : Type} (key : A → Z).
Implicit Types (m : list A) (x : A).

Lemma mapGet_Some k m x : mapGet key k m = Some x → x ∈ m ∧ key x = k.
Proof.
  induction m as [|y m IH]; cbn; [done|]. case_decide as E; [intros [= ->]; set_solver|]. set_solver.
Qed.

Lemma mapGet_elem k m : k ∈ map key m → is_Some (mapGet key k m).
Proof.
  induction m as [|y m IH]; cbn; [set_solver|]. case_decide as E; [by eexists|]. set_solver.
Qed.

Lemma mapGet_NoDup m x : NoDup (map key m) → x ∈ m → mapGet key (key x) m = Some x.
Proof.
  induction m as [|y m IH]; cbn; [set_solver|]. intros [Hy Hm]%NoDup_cons Hx. case_decide as E.
  - apply elem_of_cons in Hx as [-> |Hx]; [done|]. exfalso. apply Hy. rewrite E. by apply list_elem_of_fmap_2.
  - apply elem_of_cons in Hx as [-> |Hx]; [done|by apply IH].
Qed.

Lemma mapGet_set k x m : mapGet key k (mapSet key x m) = if decide (key x = k) then Some x else mapGet key k m.
Proof.
  induction m as [|y m IH]; cbn; [done|]. repeat (case_decide; cbn; subst); try done; congruence.
Qed.

Lemma mapSet_keys x m k : k ∈ map key (mapSet key x m) ↔ k = key x ∨ k ∈ map key m.
Proof.
  induction m as [|y m IH]; cbn; [set_solver|]. case_decide as E; cbn; [rewrite E; set_solver|].
  rewrite !elem_of_cons, IH. naive_solver.
Qed.

Lemma mapSet_NoDup x m : NoDup (map key m) → NoDup (map key (mapSet key x m)).
Proof.
  induction m as [|y m IH]; cbn; [by repeat constructor; set_solver|].
  intros [Hy Hm]%NoDup_cons. case_decide as E; cbn; constructor; auto; [by rewrite <-E|].
  rewrite mapSet_keys. naive_solver.
Qed.
End map_lemmas.

Section date_lemmas.
Context {parse : DateParser}.
Implicit Types (t u : ImportExportTaskDetails) (tasks : list ImportExportTaskDetails).

(** How far a report of a task is: ended tasks are further than active ones, and
    among those the later update. *)
Definition notFurther u t : Prop :=
  match isTerminal (status u), isTerminal (status t) with
  | false, true => True
  | true, false => False
  | _, _ => taskUpdateTime u ≤ taskUpdateTime t
  end.

Lemma keepsPrevious_spec u t : keepsPrevious u t = false ↔ notFurther u t.
Proof.
  unfold keepsPrevious, notFurther.
  destruct (isTerminal (status u)), (isTerminal (status t)); cbn; rewrite ?Z.ltb_ge; naive_solver.
Qed.

Lemma notFurther_trans u t v : notFurther u t → notFurther t v → notFurther u v.
Proof.
  unfold notFurther. destruct (isTerminal (status u)), (isTerminal (status t)), (isTerminal (status v)); lia || done.
Qed.

Lemma notFurther_total u t : notFurther u t ∨ notFurther t u.
Proof. unfold notFurther. destruct (isTerminal (status u)), (isTerminal (status t)); lia || auto. Qed.

Definition mergeAll (all : list ImportExportTaskDetails) : list ImportExportTaskDetails := fold_left mergeTask all [].

Lemma mergeAll_snoc all t : mergeAll (all ++ [t]) = mergeTask (mergeAll all) t.
Proof. unfold mergeAll. by rewrite fold_left_app. Qed.

Lemma mergeAllTasks_NoDup all : NoDup (map id (mergeAll all)).
Proof.
  induction all as [|t all IH] using rev_ind; [constructor|]. rewrite mergeAll_snoc. unfold mergeTask.
  destruct (mapGet _ _ _) as [p|]; [destruct (keepsPrevious p t)|]; [done|by apply mapSet_NoDup..].
Qed.

Lemma mergeAll_ids all k : k ∈ map id (mergeAll all) ↔ k ∈ map id all.
Proof.
  induction all as [|t all IH] using rev_ind; [done|].
  rewrite mergeAll_snoc, map_app, elem_of_app, <-IH. cbn [map]. rewrite list_elem_of_singleton. unfold mergeTask.
  destruct (mapGet _ _ _) as [p|] eqn:E; [destruct (keepsPrevious p t)|]; rewrite ?mapSet_keys; [|tauto..].
  apply mapGet_Some in E as [Hp Hid]. split; [by left|]. intros [?| ->]; [done|]. rewrite <-Hid.
  by apply list_elem_of_fmap_2.
Qed.

(** The last of the furthest reports of a task. *)
Definition furthest t all : Prop :=
  ∃ pre post, all = pre ++ t :: post ∧ (∀ u, u ∈ pre → id u = id t → notFurther u t) ∧
    (∀ u, u ∈ post → id u = id t → ¬ notFurther t u).

Lemma mergeAll_furthest all k t : mapGet id k (mergeAll all) = Some t → furthest t all.
Proof.
  revert t. induction all as [|x all IH] using rev_ind; intros t; [done|]. rewrite mergeAll_snoc. unfold mergeTask.
  assert (Hkeep : ∀ t, mapGet id k (mergeAll all) = Some t → (id x = id t → ¬ notFurther t x) → furthest t (all ++ [x])).
  { intros t' (pre & post & -> & Hpre & Hpost)%IH Hx. exists pre, (post ++ [x]). split; [by rewrite <-app_assoc|].
    split; [done|]. intros u [Hu|Hu]%elem_of_app; [by apply Hpost|]. apply list_elem_of_singleton in Hu as ->. done. }
  assert (Hnew : (∀ u, u ∈ all → id u = id x → notFurther u x) → furthest x (all ++ [x])).
  { intros Hall. exists all, []. split; [done|]. split; [done|]. by intros u ?%not_elem_of_nil. }
  destruct (mapGet id (id x) (mergeAll all)) as [p|] eqn:E; [destruct (keepsPrevious p x) eqn:Ek|].
  - intros Ht. apply Hkeep; [done|]. intros Hid. pose proof (mapGet_Some _ _ _ _ Ht) as [_ Hk].
    assert (p = t) as -> by congruence.
    by rewrite <-keepsPrevious_spec, Ek.
  - rewrite mapGet_set. case_decide as Hid; [|intros Ht; apply Hkeep; [done|]; apply mapGet_Some in Ht as [_ Ht]; congruence].
    intros [= <-]. apply Hnew. intros u Hu Hux. apply keepsPrevious_spec in Ek.
    rewrite Hid in E. destruct (IH p E) as (pre & post & -> & Hpre & Hpost). apply mapGet_Some in E as [_ Hp].
    apply elem_of_app in Hu as [Hu|[-> |Hu]%elem_of_cons]; [|done|].
    + apply (notFurther_trans _ p); [apply Hpre; [done|congruence]|done].
    + apply (notFurther_trans _ p); [|done]. destruct (notFurther_total p u) as [H|H]; [|done].
      by destruct (Hpost u Hu ltac:(congruence)).
  - rewrite mapGet_set. case_decide as Hid; [|intros Ht; apply Hkeep; [done|]; apply mapGet_Some in Ht as [_ Ht]; congruence].
    intros [= <-]. apply Hnew. intros u Hu Hux. exfalso.
    destruct (mapGet_elem id (id x) (mergeAll all)) as [? ?]; [|congruence].
    rewrite mergeAll_ids, <-Hux. by apply list_elem_of_fmap_2.
Qed.

#[local] Instance newestFirst_preorder : Preorder newestFirst.
Proof. unfold newestFirst. split; intros; rewrite ?Z.leb_le in *; lia. Qed.

Lemma mergeTasks_elem groups t : t ∈ mergeTasks groups ↔ t ∈ mergeAll (concat groups).
Proof. unfold mergeTasks. by rewrite stable_sort_perm. Qed.

Lemma mergeTasks_NoDup groups : NoDup (map id (mergeTasks groups)).
Proof. unfold mergeTasks. rewrite stable_sort_perm. apply mergeAllTasks_NoDup. Qed.

Lemma mergeTasks_ids groups k : k ∈ map id (mergeTasks groups) ↔ k ∈ map id (concat groups).
Proof. unfold mergeTasks. rewrite stable_sort_perm. apply mergeAll_ids. Qed.

Lemma mergeTasks_furthest groups t : t ∈ mergeTasks groups → furthest t (concat groups).
Proof.
  rewrite mergeTasks_elem. intros Ht. apply (mergeAll_furthest _ (id t)). apply mapGet_NoDup; [apply mergeAllTasks_NoDup|done].
Qed.

Lemma furthest_elem t all u : furthest t all → u ∈ all → id u = id t → notFurther u t.
Proof.
  intros (pre & post & -> & Hpre & Hpost) [Hu|[-> |Hu]%elem_of_cons]%elem_of_app Hid; [by apply Hpre| |].
  - by destruct (notFurther_total t t).
  - destruct (notFurther_total t u) as [H|H]; [|done]. by destruct (Hpost u Hu Hid).
Qed.

(** What has ended stays ended. *)
Lemma mergeTasks_terminal groups t u :
  t ∈ mergeTasks groups → u ∈ concat groups → id u = id t → isTerminal (status u) = true → isTerminal (status t) = true.
Proof.
  intros Ht%mergeTasks_furthest Hu Hid Hterm. pose proof (furthest_elem _ _ _ Ht Hu Hid) as H. unfold notFurther in H.
  rewrite Hterm in H. by destruct (isTerminal (status t)).
Qed.

(** Two places of one list. *)
Lemma app_cons_cases (pre : list ImportExportTaskDetails) t post pre' u post' :
  pre ++ t :: post = pre' ++ u :: post' →
  (pre = pre' ∧ t = u ∧ post = post') ∨ (u ∈ post ∧ t ∈ pre') ∨ (u ∈ pre ∧ t ∈ post').
Proof.
  revert pre'. induction pre as [|x pre IH]; intros [|y pre']; cbn; intros [= -> Heq].
  - by left.
  - right. left. subst. set_solver.
  - right. right. subst. set_solver.
  - destruct (IH _ Heq) as [(-> & -> & ->)|[[? ?]|[? ?]]]; [by left|right; left; set_solver|right; right; set_solver].
Qed.

Lemma furthest_unique t u all : furthest t all → furthest u all → id t = id u → t = u.
Proof.
  intros (pre & post & Heq & Hpre & Hpost) (pre' & post' & Heq' & Hpre' & Hpost') Hid. subst all.
  destruct (app_cons_cases pre t post pre' u post' Heq') as [(-> & -> & ->)|[Hin|Hin]]; [done|..].
  - destruct Hin as [Hu Ht]. destruct (Hpost u Hu ltac:(congruence)). by apply Hpre'.
  - destruct Hin as [Hu Ht]. destruct (Hpost' t Ht ltac:(congruence)). by apply Hpre.
Qed.

(** Merged lists of tasks hold each task once, in the state of the report
    that is furthest: an ended task never becomes active again by an older or
    late answer, and of two reports of that kind the one updated later counts,
    the later one in the lists if they are equal.  The newest task comes first. *)
Theorem merge_tasks_furthest groups :
  NoDup (map id (mergeTasks groups)) ∧
  (∀ k, k ∈ map id (mergeTasks groups) ↔ k ∈ map id (concat groups)) ∧
  (∀ t, t ∈ mergeTasks groups ↔ furthest t (concat groups)) ∧
  StronglySorted (λ t u, timeOf (createdAt u) ≤ timeOf (createdAt t)) (mergeTasks groups).
Proof.
  split_and!.
  - apply mergeTasks_NoDup.
  - apply mergeTasks_ids.
  - intros t. split; [apply mergeTasks_furthest|]. intros Hf.
    assert (Hk : id t ∈ map id (mergeTasks groups)).
    { apply mergeTasks_ids. destruct Hf as (pre & post & -> & _). apply list_elem_of_fmap_2. set_solver. }
    apply list_elem_of_fmap in Hk as (t' & Hid & Ht'). assert (t = t') as ->; [|done].
    apply (furthest_unique _ _ (concat groups)); [done|by apply mergeTasks_furthest|done].
  - eapply StronglySorted_impl; [|apply stable_sort_sorted, newestFirst_preorder]. intros x y. unfold newestFirst. by rewrite Z.leb_le.
Qed.
(** ** Completions *)

(** The statuses, the new completions and the cursor after the tasks. *)
Lemma reconcile_fold previousStatuses initialized previousCursor tasks (u : CompletionUpdate) :
  NoDup (map id tasks) →
  let r := fold_left (reconcileStep previousStatuses initialized previousCursor) tasks u in
  (∀ k, statuses r !! k = match mapGet id k tasks with Some t => Some (status t) | None => statuses u !! k end) ∧
  newlyCompletedTaskIds r =
    newlyCompletedTaskIds u ++ map id (List.filter (isNewlyCompleted previousStatuses initialized previousCursor) tasks).
Proof.
  revert u. induction tasks as [|t tasks IH]; intros u; cbn [fold_left map List.filter mapGet].
  - intros _. by rewrite app_nil_r.
  - intros [Hid Hnd]%NoDup_cons.
    destruct (IH (reconcileStep previousStatuses initialized previousCursor u t) Hnd) as [Hs Hn]. split.
    + intros k. rewrite Hs. cbn [reconcileStep statuses]. case_decide as E.
      * destruct (mapGet id k tasks) as [t'|] eqn:Et; [|by rewrite E, lookup_insert_eq].
        apply mapGet_Some in Et as [Ht' Hk]. destruct Hid. rewrite E, <-Hk. by apply list_elem_of_fmap_2.
      * destruct (mapGet id k tasks); [done|]. by rewrite lookup_insert_ne.
    + rewrite Hn. cbn [reconcileStep newlyCompletedTaskIds]. destruct (isNewlyCompleted _ _ _ t); [|done].
      cbn [map]. by rewrite <-app_assoc.
Qed.

Lemma reconcile_spec previousStatuses initialized previousCursor tasks :
  NoDup (map id tasks) →
  let r := reconcileCompletedTaskNotifications previousStatuses tasks initialized previousCursor in
  (∀ k, statuses r !! k = status <$> mapGet id k tasks) ∧
  newlyCompletedTaskIds r = map id (List.filter (isNewlyCompleted previousStatuses initialized previousCursor) tasks).
Proof.
  intros Hnd. destruct (reconcile_fold previousStatuses initialized previousCursor tasks (mkUpdate ∅ [] previousCursor) Hnd)
    as [Hs Hn]. split; [|done]. intros k. etransitivity; [apply Hs|]. by destruct (mapGet id k tasks).
Qed.

(** ** Loading *)

Lemma listAll_loaded pages last_ answers :
  Forall (λ p, pageHasNext p = true) pages → pageHasNext last_ = false →
  listAllTasksByStatus (map Some (pages ++ [last_]) ++ answers) = AllTasks (concat (map pageData (pages ++ [last_]))).
Proof.
  intros Hpages Hlast. unfold listAllTasksByStatus.
  enough (∀ n acc, fold_left onTaskPage (map Some (pages ++ [last_]) ++ answers) (NextPage n acc)
                   = AllTasks (acc ++ concat (map pageData (pages ++ [last_])))) as H by apply H.
  induction Hpages as [|p pages Hp _ IH]; intros n acc; cbn.
  - rewrite Hlast, app_nil_r. clear. by induction answers.
  - rewrite Hp, IH. by rewrite app_assoc.
Qed.

Lemma loadMissing_unresolved missing results k :
  k ∈ (loadMissingTrackedTasks missing results).2 ↔
  k ∈ missing ∧ k ∉ map id (loadMissingTrackedTasks missing results).1.
Proof. cbn. rewrite list_elem_of_filter. tauto. Qed.
End date_lemmas.

(** ** Events *)

Lemma setAll_get {A} (key : A → Z) xs m k :
  mapGet key k (fold_left (λ m x, mapSet key x m) xs m) =
  match last (filter (λ x, key x = k) xs) with Some x => Some x | None => mapGet key k m end.
Proof.
  revert m. induction xs as [|x xs IH]; intros m; cbn [fold_left]; [done|]. rewrite IH, mapGet_set, filter_cons.
  case_decide as E; [|done]. destruct (filter (λ x, key x = k) xs) as [|y l]; [done|].
  rewrite last_cons_cons. destruct (last (y :: l)) eqn:El; [done|]. by apply last_None in El.
Qed.

Lemma setAll_NoDup {A} (key : A → Z) xs m :
  NoDup (map key m) → NoDup (map key (fold_left (λ m x, mapSet key x m) xs m)).
Proof. revert m. induction xs as [|x xs IH]; intros m Hm; cbn; [done|]. by apply IH, mapSet_NoDup. Qed.

(** The merged events of a task: each sequence number once, the last event with
    the number, in the order of the numbers. *)
Lemma merge_events_spec current incoming :
  let merged := mergeTaskEvents current incoming in
  NoDup (map sequence merged) ∧ StronglySorted (λ l r, sequence l ≤ sequence r) merged ∧
  ∀ e, e ∈ merged ↔ last (filter (λ x, sequence x = sequence e) (current ++ incoming)) = Some e.
Proof.
  cbv zeta. unfold mergeTaskEvents. set (all := current ++ incoming).
  pose proof (setAll_NoDup sequence all [] (NoDup_nil_2)) as Hnd. split_and!.
  - by rewrite stable_sort_perm.
  - eapply StronglySorted_impl; [|apply stable_sort_sorted]; [intros x y; by rewrite Z.leb_le|].
    split; intros; rewrite ?Z.leb_le in *; lia.
  - intros e. rewrite stable_sort_perm. pose proof (setAll_get sequence all [] (sequence e)) as Hget. split.
    + intros He. rewrite (mapGet_NoDup sequence _ e Hnd He) in Hget. destruct (last _); [by injection Hget as ->|done].
    + intros Hlast. rewrite Hlast in Hget. by apply mapGet_Some in Hget as [? _].
Qed.
