(* ===== verification/ImportExportStore.v ===== *)
(** * ImportExportStore: the store of import and export tasks

    Models [store/importExport/index.ts] on [ImportExportTasks]: polling the list
    of tasks, loading more of them, and counting the completions the user has
    not seen.  A step is the code between two awaits; the store holds, besides
    its state, the counters of the module, the timers that are armed, and the
    requests in progress by their generation.  The two setters of bound
    information, which only views read, are left out. *)

From S2P Require Import Prelude StableSort ImportExportTasks.
Local Open Scope nat_scope.

(** ** State *)

Record ImportExportState := mkState {
  taskList : list ImportExportTaskDetails;
  taskListPageSize : Z;
  taskListHasNextPage : bool;
  taskListLoadingMore : bool;
  getTaskListTimer : option nat;
  activeTaskCount : nat;
  logModalTaskId : option Z;
  unreadCompletedTaskCount : nat;
  unreadCompletedTaskIds : list Z;
  taskCenterOpen : bool;
  taskNotificationsInitialized : bool;
  taskNotificationCursor : option TaskNotificationCursor;
  taskStatusById : TaskStatusById;
  activeTaskIds : list Z;
}.

Definition initialState : ImportExportState :=
  mkState [] TASK_CENTER_PAGE_SIZE false false None 0 None 0 [] false false None ∅ [].

(** Where a poll is: its three loads, or the loads of the tasks that are tracked
    and not visible. *)
Inductive PollPhase := Loading | Recovering (recentHasNextPage : bool) (visibleTasks : list ImportExportTaskDetails).
Record Poll := mkPoll { previousActiveTaskIds : list Z; phase : PollPhase }.

(** [answered]: the [then] or [catch] has run and [finally] has not. *)
Record LoadMore := mkLoadMore { loadMoreRequest : TaskListLoadMoreRequest; nextPageSize : Z; answered : bool }.

Record Store := mkStore {
  state : ImportExportState;
  taskListRequestGeneration : nat;
  taskListRequestCoordinator : TaskListRequestCoordinator;
  timers : gmap nat Z;
  nextTimer : nat;
  polls : gmap nat Poll;
  loads : gmap nat LoadMore;
}.

Definition initialStore : Store := mkStore initialState 0 createTaskListRequestCoordinator ∅ 0 ∅ ∅.

(** *** [set] with some of the fields *)

Definition setTimer (handle : option nat) (s : ImportExportState) : ImportExportState :=
  mkState (taskList s) (taskListPageSize s) (taskListHasNextPage s) (taskListLoadingMore s) handle (activeTaskCount s)
    (logModalTaskId s) (unreadCompletedTaskCount s) (unreadCompletedTaskIds s) (taskCenterOpen s)
    (taskNotificationsInitialized s) (taskNotificationCursor s) (taskStatusById s) (activeTaskIds s).

Definition setList (tasks : list ImportExportTaskDetails) (pageSize : Z) (hasNextPage : bool) (s : ImportExportState)
    : ImportExportState :=
  mkState tasks pageSize hasNextPage (taskListLoadingMore s) (getTaskListTimer s) (activeTaskCount s)
    (logModalTaskId s) (unreadCompletedTaskCount s) (unreadCompletedTaskIds s) (taskCenterOpen s)
    (taskNotificationsInitialized s) (taskNotificationCursor s) (taskStatusById s) (activeTaskIds s).

Definition setLoadingMore (b : bool) (s : ImportExportState) : ImportExportState :=
  mkState (taskList s) (taskListPageSize s) (taskListHasNextPage s) b (getTaskListTimer s) (activeTaskCount s)
    (logModalTaskId s) (unreadCompletedTaskCount s) (unreadCompletedTaskIds s) (taskCenterOpen s)
    (taskNotificationsInitialized s) (taskNotificationCursor s) (taskStatusById s) (activeTaskIds s).

Definition setLogModal (taskId : option Z) (s : ImportExportState) : ImportExportState :=
  mkState (taskList s) (taskListPageSize s) (taskListHasNextPage s) (taskListLoadingMore s) (getTaskListTimer s)
    (activeTaskCount s) taskId (unreadCompletedTaskCount s) (unreadCompletedTaskIds s) (taskCenterOpen s)
    (taskNotificationsInitialized s) (taskNotificationCursor s) (taskStatusById s) (activeTaskIds s).

(** *** The runtime *)

Definition withState (f : ImportExportState → ImportExportState) (s : Store) : Store :=
  mkStore (f (state s)) (taskListRequestGeneration s) (taskListRequestCoordinator s) (timers s) (nextTimer s) (polls s) (loads s).

Definition withPolls (f : gmap nat Poll → gmap nat Poll) (s : Store) : Store :=
  mkStore (state s) (taskListRequestGeneration s) (taskListRequestCoordinator s) (timers s) (nextTimer s) (f (polls s)) (loads s).

Definition withLoads (f : gmap nat LoadMore → gmap nat LoadMore) (s : Store) : Store :=
  mkStore (state s) (taskListRequestGeneration s) (taskListRequestCoordinator s) (timers s) (nextTimer s) (polls s) (f (loads s)).

Definition withGeneration (s : Store) : Store :=
  mkStore (state s) (S (taskListRequestGeneration s)) (taskListRequestCoordinator s) (timers s) (nextTimer s) (polls s) (loads s).

Definition withCoordinator (c : TaskListRequestCoordinator) (s : Store) : Store :=
  mkStore (state s) (taskListRequestGeneration s) c (timers s) (nextTimer s) (polls s) (loads s).

(** [clearTimeout] of the handle in the state. *)
Definition clearTimer (s : Store) : Store :=
  match getTaskListTimer (state s) with
  | Some t =>
      mkStore (state s) (taskListRequestGeneration s) (taskListRequestCoordinator s) (delete t (timers s)) (nextTimer s) (polls s) (loads s)
  | None => s
  end.

(** [getTaskListTimer: delay === null ? null : setTimeout(..., delay)]. *)
Definition armTimer (delay : option Z) (s : Store) : Store :=
  match delay with
  | None => withState (setTimer None) s
  | Some d =>
      mkStore (setTimer (Some (nextTimer s)) (state s)) (taskListRequestGeneration s) (taskListRequestCoordinator s)
        (<[nextTimer s := d]> (timers s)) (S (nextTimer s)) (polls s) (loads s)
  end.

(** ** Polling *)

Definition getTaskList (s : Store) : Store :=
  let s := withGeneration s in
  let previousActive := activeTaskIds (state s) in
  let s := withState (setTimer None) (clearTimer s) in
  withPolls <[taskListRequestGeneration s := mkPoll previousActive Loading]> s.

Section dates.
Context {parse : DateParser}.

(** The three lists are there. *)
Definition tasksLoaded (generation : nat) (recentPage : TaskPage) (pendingAnswers runningAnswers : list (option TaskPage))
    (s : Store) : Store :=
  match polls s !! generation, listAllTasksByStatus pendingAnswers, listAllTasksByStatus runningAnswers with
  | Some (mkPoll previousActive Loading), AllTasks pendingTasks, AllTasks runningTasks =>
      if negb (generation =? taskListRequestGeneration s) then withPolls (delete generation) s
      else
        let activeTasks := mergeTasks [pendingTasks; runningTasks] in
        let visibleTasks := mergeTasks [pageData recentPage; activeTasks] in
        withPolls <[generation := mkPoll previousActive (Recovering (pageHasNext recentPage) visibleTasks)]> s
  | _, _, _ => s
  end.

(** The state that a poll sets, and the completions that are new. *)
Definition pollUpdate (current : ImportExportState) (previousActive : list Z) (recentHasNextPage : bool)
    (visibleTasks : list ImportExportTaskDetails) (results : list (option ImportExportTaskDetails))
    : ImportExportState * list Z :=
  let recovered := loadMissingTrackedTasks (missingTaskIds previousActive visibleTasks) results in
  let tasks := mergeTasks [taskList current; visibleTasks; recovered.1] in
  let activeIds :=
    map id (List.filter (λ task, isActiveStatus (status task)) tasks)
    ++ filter (λ taskId, taskId ∉ map id tasks) recovered.2 in
  let update := reconcileCompletedTaskNotifications (taskStatusById current) tasks
                  (taskNotificationsInitialized current) (taskNotificationCursor current) in
  let unread :=
    if taskCenterOpen current then [] else uniq (unreadCompletedTaskIds current ++ newlyCompletedTaskIds update) in
  (mkState tasks (taskListPageSize current)
     (if (taskListPageSize current =? TASK_CENTER_PAGE_SIZE)%Z then recentHasNextPage else taskListHasNextPage current)
     (taskListLoadingMore current) (getTaskListTimer current) (length activeIds) (logModalTaskId current)
     (length unread) unread (taskCenterOpen current) true (cursor update) (statuses update) activeIds,
   newlyCompletedTaskIds update).

(** The tracked tasks are there. *)
Definition tasksRecovered (generation : nat) (results : list (option ImportExportTaskDetails)) (s : Store) : Store * list Z :=
  match polls s !! generation with
  | Some (mkPoll previousActive (Recovering recentHasNextPage visibleTasks)) =>
      let s := withPolls (delete generation) s in
      if negb (generation =? taskListRequestGeneration s) then (s, [])
      else
        let (next, newly) := pollUpdate (state s) previousActive recentHasNextPage visibleTasks results in
        (armTimer (getTaskPollingDelay (length (activeTaskIds next)) false) (withState (λ _, next) s), newly)
  | _ => (s, [])
  end.

Definition pollFailed (generation : nat) (error : PollError) (s : Store) : Store :=
  match polls s !! generation with
  | Some (mkPoll _ Loading) =>
      let s := withPolls (delete generation) s in
      if negb (generation =? taskListRequestGeneration s) then s
      else
        armTimer (if shouldRetryTaskPolling error
                     && shouldKeepTaskPolling (taskCenterOpen (state s)) (length (activeTaskIds (state s)))
                  then getTaskPollingDelay 0 true else None) s
  | _ => s
  end.

(** ** More tasks *)

Definition loadMoreTasks (s : Store) : Store :=
  if negb (taskListHasNextPage (state s)) || taskListLoadingMore (state s) then s
  else
    let next := (taskListPageSize (state s) + TASK_CENTER_PAGE_SIZE)%Z in
    let (c, request) := beginLoadMoreRequest (taskListRequestCoordinator s) in
    withLoads <[requestNumber request := mkLoadMore request next false]>
      (withState (setLoadingMore true) (withCoordinator c s)).

(** [None] is a load that failed. *)
Definition loadMoreAnswered (number : nat) (answer : option TaskPage) (s : Store) : Store :=
  match loads s !! number with
  | Some (mkLoadMore request next false) =>
      let s' := withLoads <[number := mkLoadMore request next true]> s in
      match answer with
      | Some page =>
          if canApplyLoadMoreResponse (taskListRequestCoordinator s) request
          then withState (λ st, setList (mergeTasks [pageData page; taskList st]) next (pageHasNext page) st) s'
          else s'
      | None => s'
      end
  | _ => s
  end.

Definition loadMoreFinally (number : nat) (s : Store) : Store :=
  match loads s !! number with
  | Some (mkLoadMore request _ true) =>
      let s := withLoads (delete number) s in
      if isLatestLoadMoreRequest (taskListRequestCoordinator s) request then withState (setLoadingMore false) s else s
  | _ => s
  end.
End dates.

(** ** The other operations *)

Definition stopTaskListPolling (s : Store) : Store :=
  let s := withCoordinator (invalidateState (taskListRequestCoordinator s)) (withGeneration s) in
  withState (λ st, setTimer None (setLoadingMore false st)) (clearTimer s).

Definition removeTaskState (taskId : Z) (st : ImportExportState) : ImportExportState :=
  let unread := filter (λ k, k ≠ taskId) (unreadCompletedTaskIds st) in
  mkState (filter (λ task, id task ≠ taskId) (taskList st)) (Z.max TASK_CENTER_PAGE_SIZE (taskListPageSize st - 1))
    (taskListHasNextPage st) false (getTaskListTimer st) (activeTaskCount st) (logModalTaskId st)
    (length unread) unread (taskCenterOpen st) (taskNotificationsInitialized st) (taskNotificationCursor st)
    (delete taskId (taskStatusById st)) (filter (λ k, k ≠ taskId) (activeTaskIds st)).

Definition removeTask (taskId : Z) (s : Store) : Store :=
  withState (removeTaskState taskId)
    (withCoordinator (invalidateState (taskListRequestCoordinator s)) (withGeneration s)).

Definition openLogModal (taskId : option Z) (s : Store) : Store := withState (setLogModal taskId) s.

Definition openState (open idle : bool) (st : ImportExportState) : ImportExportState :=
  let unread := if open then [] else unreadCompletedTaskIds st in
  mkState (taskList st) (taskListPageSize st) (taskListHasNextPage st) (if open then taskListLoadingMore st else false)
    (if negb open && idle then None else getTaskListTimer st) (activeTaskCount st) (logModalTaskId st)
    (if open then 0 else unreadCompletedTaskCount st) unread open (taskNotificationsInitialized st)
    (taskNotificationCursor st) (taskStatusById st) (activeTaskIds st).

Definition setTaskCenterOpen (open : bool) (s : Store) : Store :=
  let idle := bool_decide (activeTaskIds (state s) = []) in
  let s := if open then s else withCoordinator (invalidateState (taskListRequestCoordinator s)) s in
  let s := if negb open && idle then clearTimer (withGeneration s) else s in
  withState (openState open idle) s.

(** The task center deletes a task in the engine, then removes it and polls. *)
Definition handleDeleteTask (taskId : Z) (s : Store) : Store := getTaskList (removeTask taskId s).

(** ** Runs *)

Section runs.
Context {parse : DateParser}.

Inductive StoreEvent :=
  | PollNow
  | TimerFires (timer : nat)
  | TasksLoaded (generation : nat) (recentPage : TaskPage) (pendingAnswers runningAnswers : list (option TaskPage))
  | TasksRecovered (generation : nat) (results : list (option ImportExportTaskDetails))
  | PollFailed (generation : nat) (error : PollError)
  | LoadMoreTasks
  | LoadMoreAnswered (number : nat) (answer : option TaskPage)
  | LoadMoreFinally (number : nat)
  | StopPolling
  | DeleteTask (taskId : Z)
  | OpenLogModal (taskId : option Z)
  | SetTaskCenterOpen (open : bool).

(** The callback of a timer polls; a timer that is not armed does not fire. *)
Definition fireTimer (timer : nat) (s : Store) : Store :=
  match timers s !! timer with
  | Some _ =>
      getTaskList (mkStore (state s) (taskListRequestGeneration s) (taskListRequestCoordinator s) (delete timer (timers s))
        (nextTimer s) (polls s) (loads s))
  | None => s
  end.

(** The store after a step, and the completions it reports. *)
Definition step (s : Store) (e : StoreEvent) : Store * list Z :=
  match e with
  | PollNow => (getTaskList s, [])
  | TimerFires timer => (fireTimer timer s, [])
  | TasksLoaded generation recentPage pendingAnswers runningAnswers =>
      (tasksLoaded generation recentPage pendingAnswers runningAnswers s, [])
  | TasksRecovered generation results => tasksRecovered generation results s
  | PollFailed generation error => (pollFailed generation error s, [])
  | LoadMoreTasks => (loadMoreTasks s, [])
  | LoadMoreAnswered number answer => (loadMoreAnswered number answer s, [])
  | LoadMoreFinally number => (loadMoreFinally number s, [])
  | StopPolling => (stopTaskListPolling s, [])
  | DeleteTask taskId => (handleDeleteTask taskId s, [])
  | OpenLogModal taskId => (openLogModal taskId s, [])
  | SetTaskCenterOpen open => (setTaskCenterOpen open s, [])
  end.

Fixpoint run (s : Store) (events : list StoreEvent) : Store * list Z :=
  match events with
  | [] => (s, [])
  | e :: events' =>
      let (s1, reported) := step s e in
      let (s2, reported') := run s1 events' in (s2, reported ++ reported')
  end.

(** ** The invariant *)

(** Each part of it is about its own fields. *)
Definition listsOk (st : ImportExportState) : Prop :=
  NoDup (map id (taskList st)) ∧ unreadCompletedTaskCount st = length (unreadCompletedTaskIds st) ∧
  NoDup (unreadCompletedTaskIds st) ∧ (taskCenterOpen st = true → unreadCompletedTaskIds st = []).

(** Only the timer in the state is armed, and none while the current poll runs. *)
Definition timersOk (s : Store) : Prop :=
  (∀ t d, timers s !! t = Some d → getTaskListTimer (state s) = Some t) ∧
  (is_Some (polls s !! taskListRequestGeneration s) → timers s = ∅) ∧
  (∀ g, is_Some (polls s !! g) → g ≤ taskListRequestGeneration s).

(** While more tasks are loading, the latest load is in progress, so that it
    ends the loading. *)
Definition loadsOk (s : Store) : Prop :=
  (taskListLoadingMore (state s) = true →
   is_Some (loads s !! loadMoreRequestGeneration (taskListRequestCoordinator s))) ∧
  (∀ n l, loads s !! n = Some l → requestNumber (loadMoreRequest l) = n).

Definition StoreOk (s : Store) : Prop := listsOk (state s) ∧ timersOk s ∧ loadsOk s.

(** A poll is to come: a timer is armed or the current poll is in progress. *)
Definition pollComes (s : Store) : Prop := timers s ≠ ∅ ∨ is_Some (polls s !! taskListRequestGeneration s).

(** *** Timers *)

Lemma next_generation_ok s : timersOk s → timersOk (withGeneration s).
Proof.
  intros (Ht & Hp & Hg). split_and!; cbn; [done| |].
  - intros Hlk%Hg. lia.
  - intros g Hlk%Hg. lia.
Qed.

Lemma clearTimer_timers s :
  timersOk s → timers (clearTimer s) = ∅ ∧ state (clearTimer s) = state s ∧ polls (clearTimer s) = polls s ∧
    taskListRequestGeneration (clearTimer s) = taskListRequestGeneration s ∧ loads (clearTimer s) = loads s ∧
    taskListRequestCoordinator (clearTimer s) = taskListRequestCoordinator s.
Proof.
  intros (Ht & _ & _). unfold clearTimer. destruct (getTaskListTimer (state s)) as [t|] eqn:E; cbn.
  - split_and!; [|done..]. apply map_eq. intros k. rewrite lookup_empty.
    destruct (decide (k = t)) as [-> |Hne]; [by rewrite lookup_delete_eq|].
    rewrite lookup_delete_ne by done. destruct (timers s !! k) eqn:Ek; [|done]. apply Ht in Ek. congruence.
  - split_and!; [|done..]. apply map_eq. intros k. rewrite lookup_empty.
    destruct (timers s !! k) eqn:Ek; [|done]. by apply Ht in Ek.
Qed.
Lemma getTaskList_timers s : timersOk s → timersOk (getTaskList s) ∧ timers (getTaskList s) = ∅.
Proof.
  intros Hok. destruct (clearTimer_timers (withGeneration s)) as (Hc & Hst & Hp & Hg & _); [by apply next_generation_ok|].
  unfold getTaskList. cbv zeta. set (c := clearTimer (withGeneration s)) in *. split; [|done].
  split_and!; cbn; [|done|].
  - intros t d. by rewrite Hc, lookup_empty.
  - intros g. rewrite Hg, Hp. cbn. destruct (decide (g = S (taskListRequestGeneration s))) as [-> |Hne]; [done|].
    rewrite lookup_insert_ne by done. destruct Hok as (_ & _ & Hgs). intros ?%Hgs. lia.
Qed.

(** A request that starts leaves the lists and the loads as they are. *)
Lemma getTaskList_state s :
  state (getTaskList s) = setTimer None (state s) ∧ loads (getTaskList s) = loads s ∧
  taskListRequestCoordinator (getTaskList s) = taskListRequestCoordinator s ∧
  is_Some (polls (getTaskList s) !! taskListRequestGeneration (getTaskList s)).
Proof.
  unfold getTaskList, clearTimer. cbn. destruct (getTaskListTimer (state s)); cbn; (split_and!; [done..|]);
    rewrite lookup_insert_eq; by eexists.
Qed.

Lemma getTaskList_ok s : StoreOk s → StoreOk (getTaskList s).
Proof.
  intros (Hl & Ht & Hm). destruct (getTaskList_state s) as (Hs & Hlo & Hc & _).
  split_and!; [by rewrite Hs|by apply getTaskList_timers|]. unfold loadsOk. by rewrite Hs, Hlo, Hc.
Qed.

(** The end of a poll: no timer is armed if the poll was the current one. *)
Lemma poll_ends s generation next :
  timersOk s → is_Some (polls s !! generation) → generation = taskListRequestGeneration s →
  getTaskListTimer next = getTaskListTimer (state s) →
  ∀ delay, timersOk (armTimer delay (withState (λ _, next) (withPolls (delete generation) s))).
Proof.
  intros (Ht & Hp & Hg) Hpoll Hgen Hnext delay. rewrite Hgen in Hpoll. specialize (Hp Hpoll).
  unfold armTimer. destruct delay as [d|]; split_and!; cbn.
  - intros t d'. rewrite Hp. intros [[<- _]|[_ ?]]%lookup_insert_Some; [done|by rewrite lookup_empty in *].
  - rewrite Hgen, lookup_delete_eq. by intros [??].
  - intros g [p Hlk]. apply lookup_delete_Some in Hlk as [_ ?]. by apply Hg; eexists.
  - intros t d'. by rewrite Hp, lookup_empty.
  - rewrite Hgen, lookup_delete_eq. by intros [??].
  - intros g [p Hlk]. apply lookup_delete_Some in Hlk as [_ ?]. by apply Hg; eexists.
Qed.

Lemma drop_poll s generation :
  timersOk s → timersOk (withPolls (delete generation) s).
Proof.
  intros (Ht & Hp & Hg). split_and!; cbn; [done| |].
  - intros [p [_ ?]%lookup_delete_Some]. apply Hp. by eexists.
  - intros g [p [_ ?]%lookup_delete_Some]. apply Hg. by eexists.
Qed.

(** *** Steps *)

Lemma filter_ids_NoDup (P : ImportExportTaskDetails → Prop) `{!∀ t, Decision (P t)} tasks :
  NoDup (map id tasks) → NoDup (map id (filter P tasks)).
Proof.
  induction tasks as [|t tasks IH]; [done|]. cbn [map]. intros [Ht Hnd]%NoDup_cons. rewrite filter_cons.
  case_decide; [|by apply IH]. cbn [map]. constructor; [|by apply IH].
  intros (u & Hu & [_ Hin]%list_elem_of_filter)%list_elem_of_fmap. apply Ht. rewrite Hu. by apply list_elem_of_fmap_2.
Qed.

Lemma pollUpdate_lists current previousActive recentHasNextPage visibleTasks results :
  let next := (pollUpdate current previousActive recentHasNextPage visibleTasks results).1 in
  listsOk next ∧ taskListLoadingMore next = taskListLoadingMore current ∧ getTaskListTimer next = getTaskListTimer current.
Proof.
  cbv zeta. unfold pollUpdate. cbv zeta. split; [|done]. unfold listsOk. cbn [fst taskList unreadCompletedTaskCount unreadCompletedTaskIds taskCenterOpen].
  split_and!; [apply mergeTasks_NoDup|done| |].
  - destruct (taskCenterOpen current); [constructor|apply NoDup_uniq].
  - by intros ->.
Qed.

(** Changes of the state away from the timer and from the loads. *)
Lemma with_state_ok f s :
  StoreOk s → listsOk (f (state s)) → getTaskListTimer (f (state s)) = getTaskListTimer (state s) →
  (taskListLoadingMore (f (state s)) = true → taskListLoadingMore (state s) = true) → StoreOk (withState f s).
Proof.
  intros (Hl & (Ht & Hp & Hg) & (Hm & Hn)) Hf Htimer Hmore. split_and!; [done| |split; cbn; by auto].
  split_and!; cbn; [|done|done]. intros t d. rewrite Htimer. apply Ht.
Qed.

Lemma tasksLoaded_ok generation recentPage pendingAnswers runningAnswers s :
  StoreOk s → StoreOk (tasksLoaded generation recentPage pendingAnswers runningAnswers s).
Proof.
  intros Hs. unfold tasksLoaded. destruct (polls s !! generation) as [[previousActive []]|] eqn:E; [|done..].
  destruct (listAllTasksByStatus pendingAnswers); try done. destruct (listAllTasksByStatus runningAnswers); try done.
  destruct Hs as (Hl & Ht & Hm). case_test; (split_and!; [done| |done]); [by apply drop_poll|].
  destruct Ht as (Ht & Hp & Hg). split_and!; cbn; [done| |].
  - intros Hlk. apply Hp. destruct (decide (generation = taskListRequestGeneration s)) as [-> |Hne]; [by eexists|].
    by rewrite lookup_insert_ne in Hlk.
  - intros g. destruct (decide (generation = g)) as [-> |Hne]; [|rewrite lookup_insert_ne by done; apply Hg].
    intros _. apply Hg. by eexists.
Qed.

Lemma tasksRecovered_ok generation results s : StoreOk s → StoreOk (tasksRecovered generation results s).1.
Proof.
  intros (Hl & Ht & Hm). unfold tasksRecovered.
  destruct (polls s !! generation) as [[previousActive [|recentHasNextPage visibleTasks]]|] eqn:E; [done| |done].
  case_test; cbn [fst]; [split_and!; [done|by apply drop_poll|done]|]. to_prop. apply Nat.eqb_eq in Etest.
  cbn [taskListRequestGeneration withPolls] in Etest.
  destruct (pollUpdate_lists (state s) previousActive recentHasNextPage visibleTasks results) as (Hlists & Hmore & Htimer).
  cbn [state withPolls]. destruct (pollUpdate _ _ _ _ _) as [next newly]. cbn [fst] in *.
  split_and!.
  - unfold armTimer. by destruct (getTaskPollingDelay _ _).
  - apply poll_ends; [done|by eexists|done|done].
  - unfold armTimer, loadsOk in *. destruct (getTaskPollingDelay _ _); cbn; by rewrite Hmore.
Qed.

Lemma pollFailed_ok generation error s : StoreOk s → StoreOk (pollFailed generation error s).
Proof.
  intros (Hl & Ht & Hm). unfold pollFailed.
  destruct (polls s !! generation) as [[previousActive []]|] eqn:E; [|done..].
  case_test; [split_and!; [done|by apply drop_poll|done]|]. to_prop. apply Nat.eqb_eq in Etest. cbn in Etest.
  match goal with |- StoreOk (armTimer ?d _) => set (delay := d) end. split_and!.
  - unfold armTimer. by destruct delay.
  - apply (poll_ends s generation (state s)); [done|by eexists|done|done].
  - unfold armTimer. by destruct delay.
Qed.

Lemma loadMore_ok s : StoreOk s → StoreOk (loadMoreTasks s).
Proof.
  intros (Hl & Ht & (Hm & Hn)). unfold loadMoreTasks. case_test; [done|]. split_and!; [done|done|]. split; cbn.
  - intros _. rewrite lookup_insert_eq. by eexists.
  - intros n l [[<- <-]|[_ ?]]%lookup_insert_Some; [done|by apply Hn].
Qed.

Lemma loadMoreAnswered_ok number answer s : StoreOk s → StoreOk (loadMoreAnswered number answer s).
Proof.
  intros Hs. unfold loadMoreAnswered. destruct (loads s !! number) as [[request next []]|] eqn:E; [done| |done].
  assert (Hs' : StoreOk (withLoads <[number := mkLoadMore request next true]> s)).
  { destruct Hs as (Hl & Ht & (Hm & Hn)). split_and!; [done|done|]. split; cbn.
    - intros Hlk%Hm. destruct (decide (number = loadMoreRequestGeneration (taskListRequestCoordinator s))) as [<-|Hne];
        [by rewrite lookup_insert_eq|by rewrite lookup_insert_ne].
    - intros n l [[<- <-]|[_ ?]]%lookup_insert_Some; [by apply (Hn _ _ E)|by apply Hn]. }
  destruct answer as [page|]; [|done]. case_test; [|done]. apply with_state_ok; [done| |done|done].
  destruct Hs as ((_ & Hl) & _). split; [apply mergeTasks_NoDup|done].
Qed.

Lemma loadMoreFinally_ok number s : StoreOk s → StoreOk (loadMoreFinally number s).
Proof.
  intros (Hl & Ht & (Hm & Hn)). unfold loadMoreFinally.
  destruct (loads s !! number) as [[request next []]|] eqn:E; [|done..].
  assert (Hloads : ∀ n l, loads (withLoads (delete number) s) !! n = Some l → requestNumber (loadMoreRequest l) = n).
  { cbn. intros n l [_ ?]%lookup_delete_Some. by apply Hn. }
  case_test; (split_and!; [done|done|]); split; cbn; [done|done| |done].
  intros Hlk%Hm. rewrite lookup_delete_ne; [done|]. intros Heq. apply Hn in E. cbn in E, Heq.
  unfold isLatestLoadMoreRequest in Etest. cbn in Etest. by rewrite E, Heq, Nat.eqb_refl in Etest.
Qed.

Lemma removeTask_ok taskId s : StoreOk s → StoreOk (removeTask taskId s).
Proof.
  intros Hs. apply with_state_ok; [|..|done|done].
  - destruct Hs as (Hl & Ht & Hm). split_and!; [done|by apply next_generation_ok|done].
  - destruct Hs as ((Hids & _ & Hnd & Hopen) & _). split_and!; cbn; [by apply filter_ids_NoDup|done|by apply NoDup_filter|].
    by intros ->%Hopen.
Qed.

Lemma stopPolling_ok s : StoreOk s → StoreOk (stopTaskListPolling s).
Proof.
  intros (Hl & Ht & Hm). unfold stopTaskListPolling. cbv zeta.
  set (s' := withCoordinator _ _). assert (timersOk s') as Ht' by (by apply (next_generation_ok s)).
  destruct (clearTimer_timers s' Ht') as (Hc & Hst & Hp & Hg & Hlo & Hco). destruct Ht' as (_ & Hp' & Hg').
  split_and!; [by cbn; rewrite Hst| |].
  - split_and!; cbn; rewrite ?Hp, ?Hg, ?Hc; [by intros t d; rewrite lookup_empty|done|done].
  - split; cbn; [done|]. rewrite Hlo. apply Hm.
Qed.

Lemma setOpen_ok open s : StoreOk s → StoreOk (setTaskCenterOpen open s).
Proof.
  intros (Hl & Ht & Hm). unfold setTaskCenterOpen. cbv zeta.
  assert (Hlists : ∀ idle, listsOk (openState open idle (state s))).
  { intros idle. destruct Hl as (Hids & Hcount & Hnd & _). destruct open; split_and!; cbn; try done; constructor. }
  destruct open; cbn [negb andb]; [split_and!; [apply Hlists|done|done]|].
  destruct (bool_decide _) eqn:E; [|split_and!; [apply Hlists|done|split; [done|apply Hm]]].
  set (s' := withGeneration _). assert (timersOk s') as Ht' by (by apply (next_generation_ok s)).
  destruct (clearTimer_timers s' Ht') as (Hc & Hst & Hp & Hg & Hlo & Hco). destruct Ht' as (_ & Hp' & Hg').
  split_and!; [cbn; rewrite Hst; apply Hlists| |].
  - split_and!; cbn; rewrite ?Hp, ?Hg, ?Hc; [by intros t d; rewrite lookup_empty|done|done].
  - split; cbn; [done|]. rewrite Hlo. apply Hm.
Qed.

Lemma store_step_ok e s : StoreOk s → StoreOk (step s e).1.
Proof.
  intros Hs. destruct e; cbn [step fst].
  - by apply getTaskList_ok.
  - unfold fireTimer. destruct (timers s !! timer) eqn:E; [|done]. apply getTaskList_ok.
    destruct Hs as (Hl & (Ht & Hp & Hg) & Hm). split_and!; [done| |done]. split_and!; cbn; [| |done].
    + intros t d [_ ?]%lookup_delete_Some. by eapply Ht.
    + intros Hlk%Hp. rewrite Hlk in E. by rewrite lookup_empty in E.
  - by apply tasksLoaded_ok.
  - by apply tasksRecovered_ok.
  - by apply pollFailed_ok.
  - by apply loadMore_ok.
  - by apply loadMoreAnswered_ok.
  - by apply loadMoreFinally_ok.
  - by apply stopPolling_ok.
  - by apply getTaskList_ok, removeTask_ok.
  - by apply with_state_ok; [|apply Hs|..].
  - by apply setOpen_ok.
Qed.
Lemma store_run_ok events s : StoreOk s → StoreOk (run s events).1.
Proof.
  revert s. induction events as [|e events IH]; intros s Hs; cbn [run]; [done|].
  pose proof (store_step_ok e s Hs) as H. destruct (step s e) as [s1 r1]. specialize (IH s1 H).
  by destruct (run s1 events) as [s2 r2].
Qed.

Lemma store_initial_ok : StoreOk initialStore.
Proof.
  split_and!; (split_and!; cbn; try done; try constructor); intros *; rewrite ?lookup_empty; try done; by intros [??].
Qed.

(** Whatever the order of polls, their answers and failures, timers and what
    the user does: a task is listed once; the only timer that can be armed is the
    one in the state, and while the current poll runs none is, so that polls never
    pile up; the badge counts the unread completions, and there are none while the
    task center is open; and when every load of more tasks has ended, the list is
    not shown as loading. *)
Theorem task_store_invariant events :
  let s := (run initialStore events).1 in
  NoDup (map id (taskList (state s))) ∧
  (∀ t d, timers s !! t = Some d → getTaskListTimer (state s) = Some t) ∧
  (is_Some (polls s !! taskListRequestGeneration s) → timers s = ∅) ∧
  unreadCompletedTaskCount (state s) = length (unreadCompletedTaskIds (state s)) ∧
  NoDup (unreadCompletedTaskIds (state s)) ∧
  (taskCenterOpen (state s) = true → unreadCompletedTaskIds (state s) = []) ∧
  (loads s = ∅ → taskListLoadingMore (state s) = false).
Proof.
  destruct (store_run_ok events initialStore store_initial_ok) as ((Hids & Hcount & Hnd & Hopen) & (Ht & Hp & _) & (Hm & _)).
  cbv zeta. split_and!; try done. intros Hnone. destruct (taskListLoadingMore _); [|done].
  destruct (Hm eq_refl) as [l Hl]. by rewrite Hnone, lookup_empty in Hl.
Qed.

(** ** Completions *)

(** The store knows that the task has ended. *)
Definition knowsEnded (k : Z) (s : Store) : Prop :=
  (∃ t, t ∈ taskList (state s) ∧ id t = k ∧ isTerminal (status t) = true) ∧
  ∃ st, taskStatusById (state s) !! k = Some st ∧ isTerminal st = true.

(** The steps that change what is known of the tasks. *)
Lemma step_frame e s :
  match e with TasksRecovered _ _ | LoadMoreAnswered _ _ | DeleteTask _ => True
  | _ => taskList (state (step s e).1) = taskList (state s) ∧
         taskStatusById (state (step s e).1) = taskStatusById (state s) ∧ (step s e).2 = []
  end.
Proof.
  destruct e; cbn [step fst snd]; try done.
  - by destruct (getTaskList_state s) as (-> & _).
  - unfold fireTimer. destruct (timers s !! timer); [|done]. by rewrite (proj1 (getTaskList_state _)).
  - unfold tasksLoaded. destruct (polls s !! generation) as [[? []]|]; try done.
    destruct (listAllTasksByStatus pendingAnswers), (listAllTasksByStatus runningAnswers); try done. by case_test.
  - unfold pollFailed. destruct (polls s !! generation) as [[? []]|]; try done. case_test; [done|].
    match goal with |- context [armTimer ?d _] => destruct d end; done.
  - unfold loadMoreTasks. by case_test.
  - unfold loadMoreFinally. destruct (loads s !! number) as [[? ? []]|]; try done. by case_test.
  - unfold stopTaskListPolling, clearTimer. cbn. by destruct (getTaskListTimer (state s)).
  - unfold setTaskCenterOpen, clearTimer. cbn. destruct open; cbn; [done|].
    destruct (bool_decide _); cbn; [|done]. by destruct (getTaskListTimer (state s)).
Qed.

Lemma merged_ended groups k t :
  t ∈ concat groups → id t = k → isTerminal (status t) = true →
  ∃ t', t' ∈ mergeTasks groups ∧ id t' = k ∧ isTerminal (status t') = true.
Proof.
  intros Ht Hid Hterm.
  assert (Hk : k ∈ map id (mergeTasks groups)) by (apply mergeTasks_ids; rewrite <-Hid; by apply list_elem_of_fmap_2).
  apply list_elem_of_fmap in Hk as (t' & -> & Ht'). exists t'. split_and!; [done|done|].
  by eapply mergeTasks_terminal.
Qed.

(** What a poll reports, and what it knows then. *)
Lemma pollUpdate_reports current previousActive recentHasNextPage visibleTasks results :
  let (next, newly) := pollUpdate current previousActive recentHasNextPage visibleTasks results in
  NoDup newly ∧
  (∀ k, k ∈ newly ↔ ∃ t, t ∈ taskList next ∧ id t = k ∧
     isNewlyCompleted (taskStatusById current) (taskNotificationsInitialized current) (taskNotificationCursor current) t = true) ∧
  (∀ t, t ∈ taskList next → taskStatusById next !! id t = Some (status t)) ∧
  (∀ t, t ∈ taskList current → isTerminal (status t) = true →
     ∃ t', t' ∈ taskList next ∧ id t' = id t ∧ isTerminal (status t') = true) ∧
  (taskCenterOpen current = false → ∀ k, k ∈ newly → k ∈ unreadCompletedTaskIds next).
Proof.
  unfold pollUpdate. cbv zeta. cbn [taskList taskStatusById unreadCompletedTaskIds].
  set (groups := [_; _; _]). pose proof (mergeTasks_NoDup groups) as Hnd.
  destruct (reconcile_spec (taskStatusById current) (taskNotificationsInitialized current) (taskNotificationCursor current)
    (mergeTasks groups) Hnd) as [Hs ->].
  split_and!.
  - generalize (isNewlyCompleted (taskStatusById current) (taskNotificationsInitialized current) (taskNotificationCursor current)).
    intros f. revert Hnd. generalize (mergeTasks groups). intros l Hnd. induction l as [|t l IH]; cbn; [constructor|].
    apply NoDup_cons in Hnd as [Ht Hnd]. destruct (f t); [|by apply IH]. cbn. constructor; [|by apply IH].
    intros (u & Hu & Hin)%list_elem_of_fmap. apply Ht. rewrite Hu. apply list_elem_of_fmap_2.
    apply list_elem_of_In, filter_In in Hin as [Hin _]. by apply list_elem_of_In.
  - intros k. rewrite list_elem_of_fmap. setoid_rewrite list_elem_of_In. setoid_rewrite filter_In. naive_solver.
  - intros t Ht. rewrite Hs. by rewrite (mapGet_NoDup id _ t Hnd Ht).
  - intros t Ht Hterm. apply (merged_ended groups (id t) t); [|done|done]. cbn. set_solver.
  - intros -> k Hk. apply elem_of_uniq, elem_of_app. by right.
Qed.

Lemma knowsEnded_step k e s :
  knowsEnded k s → e ≠ DeleteTask k → knowsEnded k (step s e).1 ∧ k ∉ (step s e).2.
Proof.
  intros [(t & Ht & Hid & Hterm) (st & Hst & Hend)] He. pose proof (step_frame e s) as Hframe.
  destruct e; try (destruct Hframe as (Hl & Hs & Hr); unfold knowsEnded; rewrite Hl, Hs, Hr; split; [split; [by exists t|by exists st]|apply not_elem_of_nil]).
  - cbn [step]. unfold tasksRecovered. destruct (polls s !! generation) as [[p [|h v]]|]; [split; [by split; eauto|set_solver]| |split; [by split; eauto|set_solver]].
    case_test; [split; [by split; eauto|set_solver]|]. cbn [state withPolls].
    pose proof (pollUpdate_reports (state s) p h v results) as Hp. destruct (pollUpdate _ _ _ _ _) as [next newly].
    destruct Hp as (_ & Hnew & Hstat & Hkeep & _). destruct (Hkeep t Ht Hterm) as (t' & Ht' & Hid' & Hterm'). split.
    + unfold knowsEnded, armTimer. cbn [fst]. assert (id t' = k) as <- by congruence.
      destruct (getTaskPollingDelay _ _); cbn; (split; [by eauto|]); exists (status t'); by auto.
    + cbn [snd]. intros (u & Hu & Hidu & Hnc)%Hnew. revert Hnc. unfold isNewlyCompleted. rewrite Hidu, Hst, Hend.
      by rewrite andb_false_r.
  - cbn [step fst snd]. split; [|set_solver]. unfold loadMoreAnswered.
    destruct (loads s !! number) as [[r n []]|]; [split; by eauto| |split; by eauto].
    destruct answer as [page|]; [|split; by eauto]. case_test; [|split; by eauto]. split; [|by exists st].
    apply (merged_ended [pageData page; taskList (state s)] k t); [|done|done]. cbn. set_solver.
  - cbn [step fst snd]. split; [|set_solver]. unfold handleDeleteTask, knowsEnded. rewrite (proj1 (getTaskList_state _)). cbn.
    split.
    + exists t. split; [|done]. apply list_elem_of_filter. split; [congruence|done].
    + exists st. rewrite lookup_delete_ne by congruence. done.
Qed.

Lemma step_reports k e s : k ∈ (step s e).2 → knowsEnded k (step s e).1.
Proof.
  pose proof (step_frame e s) as Hframe. destruct e; try (destruct Hframe as (_ & _ & ->); by intros ?%not_elem_of_nil);
    try (cbn [step snd]; by intros ?%not_elem_of_nil).
  cbn [step]. unfold tasksRecovered. destruct (polls s !! generation) as [[p [|h v]]|];
    [by intros ?%not_elem_of_nil| |by intros ?%not_elem_of_nil].
  case_test; [by intros ?%not_elem_of_nil|]. cbn [state withPolls].
  pose proof (pollUpdate_reports (state s) p h v results) as Hp. destruct (pollUpdate _ _ _ _ _) as [next newly].
  destruct Hp as (_ & Hnew & Hstat & _). cbn [fst snd]. intros (t & Ht & <- & Hnc)%Hnew.
  assert (isTerminal (status t) = true) by (unfold isNewlyCompleted in Hnc; by to_prop).
  unfold knowsEnded, armTimer. destruct (getTaskPollingDelay _ _); cbn; (split; [by eauto|]); exists (status t); by auto.
Qed.

Lemma step_reports_NoDup e s : NoDup (step s e).2.
Proof.
  pose proof (step_frame e s) as Hframe. destruct e; try (destruct Hframe as (_ & _ & ->); constructor); try constructor.
  cbn [step]. unfold tasksRecovered. destruct (polls s !! generation) as [[p [|h v]]|]; [constructor| |constructor].
  case_test; [constructor|]. cbn [state withPolls].
  pose proof (pollUpdate_reports (state s) p h v results) as Hp. by destruct (pollUpdate _ _ _ _ _), Hp.
Qed.
Lemma filter_nil_of (k : Z) (xs : list Z) : k ∉ xs → filter (λ x, x = k) xs = [].
Proof. induction xs as [|x xs IH]; [done|]. intros [Hx Hxs]%not_elem_of_cons. rewrite filter_cons, decide_False by congruence. by apply IH. Qed.

Lemma filter_eq_NoDup (k : Z) (xs : list Z) : NoDup xs → length (filter (λ x, x = k) xs) ≤ 1.
Proof.
  induction 1 as [|x xs Hx _ IH]; [cbn; lia|]. rewrite filter_cons. case_decide as E; [|done]. subst x.
  rewrite filter_nil_of by done. cbn. lia.
Qed.

Lemma run_reports k s events :
  DeleteTask k ∉ events →
  (knowsEnded k s → k ∉ (run s events).2) ∧ length (filter (λ x, x = k) (run s events).2) ≤ 1.
Proof.
  revert s. induction events as [|e events IH]; intros s; cbn [run]; [intros _; split; [set_solver|cbn; lia]|].
  intros [He Hes]%not_elem_of_cons.
  pose proof (knowsEnded_step k e s) as Hknow. pose proof (step_reports k e s) as Hrep.
  pose proof (step_reports_NoDup e s) as Hnd. destruct (step s e) as [s1 r1]. cbn [fst snd] in *.
  destruct (IH s1 Hes) as [Hknown Hlen]. destruct (run s1 events) as [s2 r2]. cbn [fst snd] in *. split.
  - intros Hs. destruct (Hknow Hs (not_eq_sym He)) as [Hs1 Hr1]. rewrite elem_of_app. intros [?|?]; [done|by apply Hknown].
  - rewrite filter_app, length_app. destruct (decide (k ∈ r1)) as [Hin|Hin].
    + rewrite (filter_nil_of k r2) by auto. cbn. rewrite Nat.add_0_r. by apply filter_eq_NoDup.
    + by rewrite (filter_nil_of k r1).
Qed.

(** C18: the end of a task is reported once, and not missed.  In a run in which
    the task is not deleted it is reported at most once, whatever the engine
    answers, in whatever order (an ended task that an answer shows running again
    included).  And when the current poll finds that a task the store saw active
    has ended, it is reported, and unread unless the task center is open. *)
Theorem completions_reported_once events k :
  DeleteTask k ∉ events →
  length (filter (λ x, x = k) (run initialStore events).2) ≤ 1 ∧
  ∀ s generation p h v results st t,
    polls s !! generation = Some (mkPoll p (Recovering h v)) → generation = taskListRequestGeneration s →
    taskNotificationsInitialized (state s) = true → taskStatusById (state s) !! k = Some st → isTerminal st = false →
    let r := step s (TasksRecovered generation results) in
    t ∈ taskList (state r.1) → id t = k → isTerminal (status t) = true →
    k ∈ r.2 ∧ (taskCenterOpen (state s) = false → k ∈ unreadCompletedTaskIds (state r.1)).
Proof.
  intros Hdel. split; [by apply run_reports|]. intros s generation p h v results st t Hpoll Hgen Hinit Hst Hact.
  cbv zeta. cbn [step]. unfold tasksRecovered. rewrite Hpoll. cbn [taskListRequestGeneration withPolls state].
  rewrite <-Hgen, Nat.eqb_refl. cbn [negb].
  pose proof (pollUpdate_reports (state s) p h v results) as Hp. destruct (pollUpdate _ _ _ _ _) as [next newly].
  destruct Hp as (_ & Hnew & _ & _ & Hunread).
  assert (Hview : ∀ delay s0, taskList (state (armTimer delay (withState (λ _, next) s0))) = taskList next ∧
    unreadCompletedTaskIds (state (armTimer delay (withState (λ _, next) s0))) = unreadCompletedTaskIds next)
    by (by intros [d|] s0).
  cbn [fst snd]. intros Ht Hid Hterm. rewrite (proj1 (Hview _ _)) in Ht. rewrite (proj2 (Hview _ _)).
  assert (k ∈ newly); [|by auto]. apply Hnew. exists t. split_and!; [done|done|].
  unfold isNewlyCompleted. by rewrite Hinit, Hterm, Hid, Hst, Hact.
Qed.

(** ** Polling goes on *)

(** No stop, and no failure after which the client may not try again. *)
Definition keepsPolling (e : StoreEvent) : Prop :=
  match e with
  | StopPolling => False
  | PollFailed _ error => shouldRetryTaskPolling error = true
  | _ => True
  end.

Definition watched (s : Store) : Prop := activeTaskIds (state s) ≠ [] → pollComes s.

Lemma getTaskList_watched s : watched (getTaskList s).
Proof. intros _. right. apply getTaskList_state. Qed.

Lemma armTimer_comes d s : pollComes (armTimer (Some d) s).
Proof.
  left. cbn. intros H. assert (Hl : (<[nextTimer s := d]> (timers s)) !! nextTimer s = None) by (by rewrite H, lookup_empty).
  by rewrite lookup_insert_eq in Hl.
Qed.

Lemma drop_stale_watched s generation :
  generation ≠ taskListRequestGeneration s → watched s → watched (withPolls (delete generation) s).
Proof. intros Hne H Ha. destruct (H Ha) as [?|?]; [by left|right]. cbn. by rewrite lookup_delete_ne. Qed.

Lemma step_watched e s : keepsPolling e → watched s → watched (step s e).1.
Proof.
  intros He Hs. destruct e; cbn [step fst keepsPolling] in *; try (by apply getTaskList_watched).
  - unfold fireTimer. destruct (timers s !! timer); [by apply getTaskList_watched|done].
  - unfold tasksLoaded. destruct (polls s !! generation) as [[p []]|]; try done.
    destruct (listAllTasksByStatus pendingAnswers), (listAllTasksByStatus runningAnswers); try done. case_test.
    + apply drop_stale_watched; [|done]. to_prop. by apply Nat.eqb_neq in Etest.
    + to_prop. apply Nat.eqb_eq in Etest as ->. intros _. right. cbn. rewrite lookup_insert_eq. by eexists.
  - unfold tasksRecovered. destruct (polls s !! generation) as [[p [|h v]]|]; [done| |done]. case_test; cbn [fst].
    + apply drop_stale_watched; [|done]. to_prop. by apply Nat.eqb_neq in Etest.
    + destruct (pollUpdate _ _ _ _ _) as [next newly]. cbn [fst]. unfold getTaskPollingDelay. case_test.
      * intros _. apply armTimer_comes.
      * intros Hact. cbn in Hact. apply Nat.ltb_ge in Etest0. destruct (activeTaskIds next); [done|cbn in Etest0; lia].
  - unfold pollFailed. destruct (polls s !! generation) as [[p []]|]; try done. case_test.
    + apply drop_stale_watched; [|done]. to_prop. by apply Nat.eqb_neq in Etest.
    + rewrite He. cbn [andb]. case_test; [intros _; apply armTimer_comes|]. intros Hact. cbn in Hact. exfalso.
      unfold shouldKeepTaskPolling in Etest0. to_prop. cbn [state withPolls] in *. apply Nat.ltb_ge in H0.
      destruct (activeTaskIds (state s)); [done|cbn in H0; lia].
  - unfold loadMoreTasks. by case_test.
  - unfold loadMoreAnswered. destruct (loads s !! number) as [[r n []]|]; try done.
    destruct answer; [by case_test|done].
  - unfold loadMoreFinally. destruct (loads s !! number) as [[r n []]|]; try done. by case_test.
  - done.
  - exact Hs.
  - unfold setTaskCenterOpen. destruct open; cbn [negb andb]; [done|]. case_bool_decide as Hidle; [|done].
    intros Hact. exfalso. apply Hact. unfold clearTimer. cbn. by destruct (getTaskListTimer (state s)).
Qed.

(** The store does not lose sight of an active task.  As long as polling is
    not stopped and no failure forbids to try again, a poll is in progress or a
    timer for the next one armed whenever a tracked task is active, whatever the
    order of answers, retries, deletions and openings of the task center; and a
    timer that fires starts a poll. *)
Theorem active_tasks_watched events :
  Forall keepsPolling events →
  let s := (run initialStore events).1 in
  activeTaskIds (state s) ≠ [] →
  is_Some (polls s !! taskListRequestGeneration s) ∨
  ∃ t d, timers s !! t = Some d ∧
    is_Some (polls (step s (TimerFires t)).1 !! taskListRequestGeneration (step s (TimerFires t)).1).
Proof.
  intros Hes. cbv zeta.
  assert (Hw : ∀ s, watched s → watched (run s events).1).
  { clear -Hes parse. induction Hes as [|e events He _ IH]; intros s Hs; cbn [run]; [done|].
    pose proof (step_watched e s He Hs) as H. destruct (step s e) as [s1 r1]. specialize (IH s1 H).
    by destruct (run s1 events). }
  intros Hact. destruct (Hw initialStore (λ H, False_ind _ (H eq_refl)) Hact) as [(t & d & Ht)%map_choose|?]; [right|by left].
  exists t, d. split; [done|]. cbn [step fst]. unfold fireTimer. rewrite Ht. apply getTaskList_state.
Qed.
End runs.

(** ** A run *)

(** Task 7 is running, then the poll that the timer starts finds its end. *)
Definition noDates : DateParser := λ _, None.
Definition sampleTask (s : ImportExportTaskStatus) (updated : Z) : ImportExportTaskDetails :=
  mkTask 7 DATA_FILE_IMPORT s None (Millis 100) None None (Some (Millis updated)).
Definition noTasks : list (option TaskPage) := [Some (mkPage [] false)].

Definition firstPoll : list StoreEvent :=
  [PollNow; TasksLoaded 1 (mkPage [] false) noTasks [Some (mkPage [sampleTask RUNNING 200] false)]; TasksRecovered 1 []].

Definition sampleRun : list StoreEvent :=
  firstPoll ++ [TimerFires 0; TasksLoaded 2 (mkPage [sampleTask SUCCESS 300] false) noTasks noTasks; TasksRecovered 2 []].

Example sample_reports :
  let (s, reported) := @run noDates initialStore sampleRun in
  reported = [7%Z] ∧ unreadCompletedTaskIds (state s) = [7%Z] ∧ timers s = ∅.
Proof. by vm_compute. Qed.

Lemma sample_keeps_task : DeleteTask 7 ∉ sampleRun.
Proof. intros H%list_elem_of_In. vm_compute in H. intuition discriminate. Qed.

Lemma completions_reported_once_witness :
  length (filter (λ x, x = 7%Z) (@run noDates initialStore sampleRun).2) ≤ 1 ∧
  (7%Z ∈ (@step noDates (@run noDates initialStore (take 5 sampleRun)).1 (TasksRecovered 2 [])).2).
Proof.
  split.
  - apply (@completions_reported_once noDates sampleRun 7). apply sample_keeps_task.
  - apply (proj2 (@completions_reported_once noDates sampleRun 7 sample_keeps_task)
      (@run noDates initialStore (take 5 sampleRun)).1 2 [7%Z] false [sampleTask SUCCESS 300] [] RUNNING (sampleTask SUCCESS 300));
      try by vm_compute. apply list_elem_of_In. vm_compute. by left.
Defined.

Lemma active_tasks_watched_witness :
  let s := (@run noDates initialStore firstPoll).1 in
  is_Some (polls s !! taskListRequestGeneration s) ∨
  ∃ t d, timers s !! t = Some d ∧
    is_Some (polls (@step noDates s (TimerFires t)).1 !! taskListRequestGeneration (@step noDates s (TimerFires t)).1).
Proof. apply (@active_tasks_watched noDates firstPoll); [by repeat constructor|by vm_compute]. Defined.

(** Closing the task center while no task is tracked yet discards the poll in
    progress, so that a task that this poll would have found running is not
    watched, and nothing polls again. *)
Lemma closing_loses_first_poll :
  let s := (@run noDates initialStore
              [SetTaskCenterOpen true; PollNow; SetTaskCenterOpen false;
               TasksLoaded 1 (mkPage [sampleTask RUNNING 200] false) noTasks [Some (mkPage [sampleTask RUNNING 200] false)];
               TasksRecovered 1 []]).1 in
  taskList (state s) = [] ∧ activeTaskIds (state s) = [] ∧ timers s = ∅ ∧ polls s = ∅.
Proof. by vm_compute. Qed.
