(* ===== verification/TerminalAttachment.v ===== *)
(** * TerminalAttachment: attaching the views of a terminal to its session

    Models [WorkspaceTabs/terminalAttachmentLifecycle.ts].  A view of a terminal
    takes a lease of its session; the first lease attaches a consumer, and when
    the last one is released a detach is scheduled, which a lease that comes
    before cancels.  Entries are objects that leases and callbacks share: they
    live in a store, [entries] maps a session to the place of its entry.  Names of
    consumers are made by the caller; a step is the code between two awaits. *)

From S2P Require Import Prelude.
Local Open Scope nat_scope.

(** ** State *)

(** Whether the callback has taken the entry out of the map, and whether the
    detach it awaits the attach promise for has been called. *)
Inductive DetachState := Attached | AwaitingAttach | Detached.

#[export] Instance DetachState_eq_dec : EqDecision DetachState.
Proof. solve_decision. Defined.

(** [scheduledDetach]: the object, which is the number of its callback. *)
Record TerminalAttachmentEntry := mkEntry {
  sessionId : jstr;
  consumerId : jstr;
  attachSettled : bool;
  leaseCount : Z;
  scheduledDetach : option nat;
  detachState : DetachState;
}.

(** The requests to the engine. *)
Inductive EngineCall := Attach (entry : nat) (sessionId consumerId : jstr) | Detach (entry : nat) (sessionId consumerId : jstr).

(** A lease is the place of its entry and [released]; [callbacks] has the entry
    of each scheduled callback. *)
Record Lifecycle := mkLifecycle {
  heap : list TerminalAttachmentEntry;
  entries : gmap jstr nat;
  leases : list (nat * bool);
  callbacks : list nat;
  calls : list EngineCall;
}.

Definition createTerminalAttachmentLifecycle : Lifecycle := mkLifecycle [] ∅ [] [] [].

Definition updateEntry (i : nat) (f : TerminalAttachmentEntry → TerminalAttachmentEntry) (s : Lifecycle) : Lifecycle :=
  mkLifecycle (alter f i (heap s)) (entries s) (leases s) (callbacks s) (calls s).

Definition withLease (count : Z) (scheduled : option nat) (e : TerminalAttachmentEntry) : TerminalAttachmentEntry :=
  mkEntry (sessionId e) (consumerId e) (attachSettled e) count scheduled (detachState e).

Definition withDetach (d : DetachState) (e : TerminalAttachmentEntry) : TerminalAttachmentEntry :=
  mkEntry (sessionId e) (consumerId e) (attachSettled e) (leaseCount e) None d.

Definition withSettled (e : TerminalAttachmentEntry) : TerminalAttachmentEntry :=
  mkEntry (sessionId e) (consumerId e) true (leaseCount e) (scheduledDetach e) (detachState e).

(** ** Operations *)

(** The entry of the session, made and attached when there is none. *)
Definition entryOf (session newConsumerId : jstr) (s : Lifecycle) : Lifecycle * nat :=
  match entries s !! session with
  | Some i => (s, i)
  | None =>
      let i := length (heap s) in
      (mkLifecycle (heap s ++ [mkEntry session newConsumerId false 0 None Attached]) (<[session := i]> (entries s))
         (leases s) (callbacks s) (calls s ++ [Attach i session newConsumerId]), i)
  end.

(** A scheduled detach is cancelled: its timer is cleared and it is no longer
    that of the entry.  [newConsumerId] is what [createConsumerId] gives. *)
Definition acquire (session newConsumerId : jstr) (s : Lifecycle) : Lifecycle :=
  let (s, i) := entryOf session newConsumerId s in
  let s := updateEntry i (λ e, withLease (leaseCount e + 1) None e) s in
  mkLifecycle (heap s) (entries s) (leases s ++ [(i, false)]) (callbacks s) (calls s).

(** [release] of the lease with the number. *)
Definition release (lease : nat) (s : Lifecycle) : Lifecycle :=
  match leases s !! lease with
  | Some (i, false) =>
      match heap s !! i with
      | Some e =>
          let count := (leaseCount e - 1)%Z in
          let s := mkLifecycle (heap s) (entries s) (<[lease := (i, true)]> (leases s)) (callbacks s) (calls s) in
          if (0 <? count)%Z || bool_decide (is_Some (scheduledDetach e))
          then updateEntry i (withLease count (scheduledDetach e)) s
          else
            let token := length (callbacks s) in
            let s := updateEntry i (withLease count (Some token)) s in
            mkLifecycle (heap s) (entries s) (leases s) (callbacks s ++ [i]) (calls s)
      | None => s
      end
  | _ => s
  end.

(** The callback with the number.  A cancelled one may still run: it then finds
    that it is not the one of its entry. *)
Definition runCallback (token : nat) (s : Lifecycle) : Lifecycle :=
  match callbacks s !! token with
  | Some i =>
      match heap s !! i with
      | Some e =>
          if negb (bool_decide (scheduledDetach e = Some token)) || (0 <? leaseCount e)%Z then s
          else
            let s := updateEntry i (withDetach AwaitingAttach) s in
            mkLifecycle (heap s) (delete (sessionId e) (entries s)) (leases s) (callbacks s) (calls s)
      | None => s
      end
  | None => s
  end.

(** The attach of the entry ends, in whatever way. *)
Definition settleAttach (i : nat) (s : Lifecycle) : Lifecycle := updateEntry i withSettled s.

(** The continuation behind the attach promise. *)
Definition detachEntry (i : nat) (s : Lifecycle) : Lifecycle :=
  match heap s !! i with
  | Some e =>
      if attachSettled e && bool_decide (detachState e = AwaitingAttach)
      then
        let s := updateEntry i (withDetach Detached) s in
        mkLifecycle (heap s) (entries s) (leases s) (callbacks s) (calls s ++ [Detach i (sessionId e) (consumerId e)])
      else s
  | None => s
  end.

Inductive LifecycleEvent :=
  | Acquire (session newConsumerId : jstr)
  | Release (lease : nat)
  | RunCallback (token : nat)
  | SettleAttach (entry : nat)
  | DetachEntry (entry : nat).

Definition lifecycleStep (s : Lifecycle) (e : LifecycleEvent) : Lifecycle :=
  match e with
  | Acquire session newConsumerId => acquire session newConsumerId s
  | Release lease => release lease s
  | RunCallback token => runCallback token s
  | SettleAttach i => settleAttach i s
  | DetachEntry i => detachEntry i s
  end.

Definition lifecycleRun (events : list LifecycleEvent) : Lifecycle :=
  fold_left lifecycleStep events createTerminalAttachmentLifecycle.

(** ** The invariant *)

(** The leases of the entry that are not released. *)
Definition heldLeases (i : nat) (s : Lifecycle) : list (nat * bool) := filter (λ l, l = (i, false)) (leases s).

(** What holds of the entry at place [i]. *)
Record EntryOk (s : Lifecycle) (i : nat) (e : TerminalAttachmentEntry) : Prop := {
  entry_count : leaseCount e = Z.of_nat (length (heldLeases i s));
  entry_mapped : detachState e = Attached ↔ entries s !! sessionId e = Some i;
  entry_scheduled t : scheduledDetach e = Some t → callbacks s !! t = Some i ∧ leaseCount e = 0%Z ∧ detachState e = Attached;
  entry_live : detachState e = Attached → (0 < leaseCount e)%Z ∨ is_Some (scheduledDetach e);
  entry_gone : detachState e ≠ Attached → leaseCount e = 0%Z;
  entry_attach : Attach i (sessionId e) (consumerId e) ∈ calls s;
  entry_detach : Detach i (sessionId e) (consumerId e) ∈ calls s ↔ detachState e = Detached;
}.

Record LifecycleOk (s : Lifecycle) : Prop := {
  heap_ok i e : heap s !! i = Some e → EntryOk s i e;
  entries_ok session i : entries s !! session = Some i → ∃ e, heap s !! i = Some e ∧ sessionId e = session;
  leases_ok i b : (i, b) ∈ leases s → i < length (heap s);
  callbacks_ok i : i ∈ callbacks s → i < length (heap s);
  calls_ok call : call ∈ calls s →
    match call with
    | Attach i session consumer | Detach i session consumer =>
        ∃ e, heap s !! i = Some e ∧ sessionId e = session ∧ consumerId e = consumer
    end;
  calls_once : NoDup (calls s);
}.

(** ** Lemmas *)

Lemma held_insert_eq l i (ls : list (nat * bool)) :
  ls !! l = Some (i, false) →
  length (filter (λ x, x = (i, false)) ls) = S (length (filter (λ x, x = (i, false)) (<[l := (i, true)]> ls))).
Proof.
  revert l. induction ls as [|x ls IH]; intros [|l]; cbn [lookup list_lookup]; try done.
  - intros [= ->]. rewrite filter_cons_True by done. change (<[0 := (i, true)]> ((i, false) :: ls)) with ((i, true) :: ls). by rewrite filter_cons_False.
  - intros Hl. change (<[S l := (i, true)]> (x :: ls)) with (x :: <[l := (i, true)]> ls). rewrite !filter_cons. specialize (IH l Hl). case_decide; cbn [length]; lia.
Qed.

Lemma held_insert_ne l i j (ls : list (nat * bool)) :
  ls !! l = Some (i, false) → i ≠ j →
  filter (λ x, x = (j, false)) (<[l := (i, true)]> ls) = filter (λ x, x = (j, false)) ls.
Proof.
  intros Hl Hne. revert l Hl. induction ls as [|x ls IH]; intros [|l]; cbn [lookup list_lookup]; try done.
  - intros [= ->]. change (<[0 := (i, true)]> ((i, false) :: ls)) with ((i, true) :: ls). rewrite !filter_cons_False by congruence. done.
  - intros Hl. change (<[S l := (i, true)]> (x :: ls)) with (x :: <[l := (i, true)]> ls). rewrite !filter_cons. by rewrite IH.
Qed.

(** The entry at another place. *)
Lemma entry_frame s s' j e :
  EntryOk s j e → heldLeases j s' = heldLeases j s →
  (entries s' !! sessionId e = Some j ↔ entries s !! sessionId e = Some j) →
  (∀ t, callbacks s !! t = Some j → callbacks s' !! t = Some j) →
  (∀ c, c ∈ calls s → c ∈ calls s') →
  (Detach j (sessionId e) (consumerId e) ∈ calls s' → Detach j (sessionId e) (consumerId e) ∈ calls s) →
  EntryOk s' j e.
Proof.
  intros [Hc Hm Hs Hl Hg Ha Hd] Hheld Hmap Hcb Hcalls Hdet. split; [by rewrite Hheld|by rewrite Hm|naive_solver|done|done|auto|].
  rewrite <-Hd. split; auto.
Qed.

Lemma heap_bound s i e : heap s !! i = Some e → i < length (heap s).
Proof. apply lookup_lt_Some. Qed.

(** Steps that change the entry at [i] only. *)
Lemma heap_update f i s' s :
  heap s' = alter f i (heap s) →
  (∀ e, heap s !! i = Some e → EntryOk s' i (f e)) →
  (∀ j e, j ≠ i → heap s !! j = Some e → EntryOk s' j e) →
  ∀ j e, heap s' !! j = Some e → EntryOk s' j e.
Proof.
  intros Hheap Hi Hj j e. rewrite Hheap. destruct (decide (j = i)) as [-> |Hne].
  - rewrite list_lookup_alter_eq. intros (e0 & He0 & ->)%fmap_Some. by apply Hi.
  - rewrite list_lookup_alter_ne by done. by apply Hj.
Qed.

(** The names of an entry do not change. *)
Lemma named_update f i s' s :
  heap s' = alter f i (heap s) → (∀ e, sessionId (f e) = sessionId e ∧ consumerId (f e) = consumerId e) →
  ∀ j e, heap s !! j = Some e → ∃ e', heap s' !! j = Some e' ∧ sessionId e' = sessionId e ∧ consumerId e' = consumerId e.
Proof.
  intros Hheap Hf j e He. rewrite Hheap. destruct (decide (j = i)) as [-> |Hne].
  - rewrite list_lookup_alter_eq, He. cbn. eexists. split; [done|apply Hf].
  - rewrite list_lookup_alter_ne by done. by eauto.
Qed.

Lemma length_alter_heap f i (h : list TerminalAttachmentEntry) : length (alter f i h) = length h.
Proof. apply length_alter. Qed.

(** The parts of the invariant that are about names and places. *)
Lemma places_ok f i s' s :
  LifecycleOk s → heap s' = alter f i (heap s) →
  (∀ e, sessionId (f e) = sessionId e ∧ consumerId (f e) = consumerId e) →
  (∀ session j, entries s' !! session = Some j → entries s !! session = Some j) →
  (∀ j b, (j, b) ∈ leases s' → j < length (heap s)) →
  (∀ j, j ∈ callbacks s' → j ∈ callbacks s ∨ j < length (heap s)) →
  (∀ c, c ∈ calls s' → c ∈ calls s ∨ ∃ e, heap s !! i = Some e ∧ c = Detach i (sessionId e) (consumerId e)) →
  NoDup (calls s') → (∀ e, heap s !! i = Some e → EntryOk s' i (f e)) →
  (∀ j e, j ≠ i → heap s !! j = Some e → EntryOk s' j e) → LifecycleOk s'.
Proof.
  intros [Hh He Hl Hc Hcalls _] Hheap Hf Hent Hlease Hcb Hcall Honce Hthis Hothers.
  pose proof (named_update f i s' s Hheap Hf) as Hnamed. split; [by eapply heap_update|..]; [| | | |done].
  - intros session j (e & H & <-)%Hent%He. destruct (Hnamed j e H) as (e' & ? & ? & _). eauto.
  - intros j b H%Hlease. by rewrite Hheap, length_alter.
  - intros j [H|H]%Hcb; rewrite Hheap, length_alter; [by apply Hc|done].
  - intros call [Hin|(e & H & ->)]%Hcall; [|by apply Hnamed].
    apply Hcalls in Hin. destruct call as [j session consumer|j session consumer]; destruct Hin as (e & H & <- & <-);
      by apply Hnamed.
Qed.

Lemma settleAttach_ok i s : LifecycleOk s → LifecycleOk (settleAttach i s).
Proof.
  intros Hs. pose proof Hs as [Hh He Hl Hc Hcalls Honce].
  apply (places_ok withSettled i _ s); cbn; try done; try by eauto.
  - intros e H. by destruct (Hh i e H).
  - intros j e _ H. by apply (entry_frame s); [apply Hh|..].
Qed.

Lemma detachEntry_ok i s : LifecycleOk s → LifecycleOk (detachEntry i s).
Proof.
  intros Hs. pose proof Hs as [Hh He Hl Hc Hcalls Honce]. unfold detachEntry.
  destruct (heap s !! i) as [e|] eqn:E; [|done]. case_test; [|done]. to_prop.
  pose proof (Hh i e E) as [Hcount Hmap Hsched Hlive Hgone Hatt Hdet].
  assert (Hnew : Detach i (sessionId e) (consumerId e) ∉ calls s) by (rewrite Hdet; congruence).
  apply (places_ok (withDetach Detached) i _ s); cbn; try done; try by eauto.
  - intros c [?|Hin]%elem_of_app; [by left|right]. apply list_elem_of_singleton in Hin as ->. eauto.
  - apply NoDup_app. split_and!; [done|set_solver|by repeat constructor; set_solver].
  - intros e0 He0. assert (e0 = e) as -> by congruence. split; cbn; try done.
    + rewrite <-Hmap, H0. done.
    + intros _. apply Hgone. congruence.
    + set_solver.
    + split; [done|]. set_solver.
  - intros j e0 Hne Hj. apply (entry_frame s); [by apply Hh|done..| |].
    + cbn. set_solver.
    + cbn. intros [?|Hin]%elem_of_app; [done|]. apply list_elem_of_singleton in Hin. congruence.
Qed.

Lemma runCallback_ok token s : LifecycleOk s → LifecycleOk (runCallback token s).
Proof.
  intros Hs. pose proof Hs as [Hh He Hl Hc Hcalls Honce]. unfold runCallback.
  destruct (callbacks s !! token) as [i|] eqn:Et; [|done]. destruct (heap s !! i) as [e|] eqn:E; [|done].
  case_test; [done|]. to_prop.
  pose proof (Hh i e E) as [Hcount Hmap Hsched Hlive Hgone Hatt Hdet].
  destruct (Hsched token H) as (_ & Hzero & Hattached). pose proof (proj1 Hmap Hattached) as Hi.
  apply (places_ok (withDetach AwaitingAttach) i _ s); cbn; try done; try by eauto.
  - intros session j [_ ?]%lookup_delete_Some. done.
  - intros e0 He0. assert (e0 = e) as -> by congruence. split; cbn; try done.
    + rewrite lookup_delete_eq. done.
    + rewrite Hdet, Hattached. done.
  - intros j e0 Hne Hj. apply (entry_frame s); [by apply Hh|done| |done..]. cbn.
    destruct (decide (sessionId e0 = sessionId e)) as [Heq|Hneq].
    + rewrite Heq, lookup_delete_eq, Hi. split; congruence.
    + by rewrite lookup_delete_ne.
Qed.

Lemma release_ok lease s : LifecycleOk s → LifecycleOk (release lease s).
Proof.
  intros Hs. pose proof Hs as [Hh He Hl Hc Hcalls Honce]. unfold release.
  destruct (leases s !! lease) as [[i []]|] eqn:Elease; [done| |done]. destruct (heap s !! i) as [e|] eqn:E.
  2: { apply lookup_ge_None in E. apply list_elem_of_lookup_2, Hl in Elease. lia. }
  pose proof (Hh i e E) as [Hcount Hmap Hsched Hlive Hgone Hatt Hdet]. pose proof (held_insert_eq _ _ _ Elease) as Hheld.
  unfold heldLeases in Hcount. rewrite Hheld in Hcount.
  assert (Hattached : detachState e = Attached).
  { destruct (decide (detachState e = Attached)) as [|Hne]; [done|]. apply Hgone in Hne. lia. }
  assert (Hnone : scheduledDetach e = None).
  { destruct (scheduledDetach e) as [t|]; [|done]. destruct (Hsched t eq_refl) as (_ & ? & _). lia. }
  assert (Hother : ∀ s' j e0, leases s' = <[lease := (i, true)]> (leases s) → entries s' = entries s → calls s' = calls s →
    (∀ t, callbacks s !! t = Some j → callbacks s' !! t = Some j) → j ≠ i → heap s !! j = Some e0 → EntryOk s' j e0).
  { intros s' j e0 Hls Hen Hca Hcb Hne H. apply (entry_frame s); [by apply Hh| |by rewrite Hen|done|by rewrite Hca..].
    unfold heldLeases. rewrite Hls. by apply (held_insert_ne lease i). }
  assert (Hleases : ∀ j b, (j, b) ∈ <[lease:=(i, true)]> (leases s) → j < length (heap s)).
  { intros j b [n Hn]%list_elem_of_lookup. apply list_lookup_insert_Some in Hn as [(_ & [= <- <-] & _)|[_ Hn]].
    - by apply heap_bound in E.
    - by eapply Hl, list_elem_of_lookup_2. }
  rewrite Hnone. rewrite bool_decide_eq_false_2, orb_false_r by (by intros [??]). case_test.
  - apply (places_ok (withLease (leaseCount e - 1) None) i _ s); cbn; try done; try by eauto.
    intros e0 He0. assert (e0 = e) as -> by congruence. split; cbn; try done; [lia|by left; lia].
  - apply (places_ok (withLease (leaseCount e - 1) (Some (length (callbacks s)))) i _ s); cbn; try done; try by eauto.
    + intros j [?|Hin]%elem_of_app; [by left|right]. apply list_elem_of_singleton in Hin as ->. by apply heap_bound in E.
    + intros e0 He0. assert (e0 = e) as -> by congruence. split; cbn; try done; [lia| |by right; eexists].
      intros t [= <-]. split_and!; [|lia|done]. by rewrite lookup_app_r, Nat.sub_diag.
    + intros j e0 Hne Hj. apply Hother; try done. cbn. intros t Ht. by apply lookup_app_l_Some.
Qed.

Lemma held_snoc i j (ls : list (nat * bool)) :
  filter (λ x, x = (j, false)) (ls ++ [(i, false)]) =
  filter (λ x, x = (j, false)) ls ++ (if decide (i = j) then [(i, false)] else []).
Proof.
  rewrite filter_app, filter_cons, filter_nil. f_equal. repeat case_decide; congruence.
Qed.

Lemma filter_none (P : nat * bool → Prop) `{!∀ x, Decision (P x)} ls : (∀ x, x ∈ ls → ¬ P x) → filter P ls = [].
Proof.
  induction ls as [|x ls IH]; intros Hnot; [done|]. rewrite filter_cons_False by (apply Hnot; set_solver). apply IH. set_solver.
Qed.

Lemma acquire_ok session newConsumerId s : LifecycleOk s → LifecycleOk (acquire session newConsumerId s).
Proof.
  intros Hs. pose proof Hs as [Hh He Hl Hc Hcalls Honce]. unfold acquire, entryOf.
  destruct (entries s !! session) as [i|] eqn:Ei.
  - destruct (He session i Ei) as (e & E & Hsid). pose proof (Hh i e E) as [Hcount Hmap Hsched Hlive Hgone Hatt Hdet].
    assert (Hattached : detachState e = Attached) by (apply Hmap; by rewrite Hsid).
    apply (places_ok (λ e, withLease (leaseCount e + 1) None e) i _ s); cbn; try done; try by eauto.
    + intros j b [Hin|Hin]%elem_of_app; [by eauto|]. apply list_elem_of_singleton in Hin as [= -> ->].
      by apply heap_bound in E.
    + intros e0 He0. assert (e0 = e) as -> by congruence. split; cbn; try done; [|by left; lia].
      unfold heldLeases. cbn. rewrite held_snoc, decide_True, length_app by done. cbn. rewrite Hcount.
      unfold heldLeases. lia.
    + intros j e0 Hne Hj. apply (entry_frame s); [by apply Hh| |done..]. unfold heldLeases. cbn.
      rewrite held_snoc, decide_False by congruence. by rewrite app_nil_r.
  - set (new := mkEntry session newConsumerId false 1 None Attached). unfold updateEntry. cbn [heap entries leases callbacks calls].
    rewrite (alter_app_r_alt _ (heap s)), Nat.sub_diag by done. change (alter _ 0 [_]) with [new].
    assert (Hfresh : ∀ j e, heap s !! j = Some e → j ≠ length (heap s)) by (intros j e ?%heap_bound; lia).
    assert (Hnocall : ∀ c, c ∈ calls s → match c with Attach j _ _ | Detach j _ _ => j ≠ length (heap s) end).
    { intros [j ? ?|j ? ?] (e & H & _)%Hcalls; by eapply Hfresh. }
    split; cbn [heap entries leases callbacks calls].
    + intros j e [Hj|[Hge Hj]]%lookup_app_Some.
      * apply (entry_frame s); [by apply Hh| | |done|cbn; set_solver|].
        -- unfold heldLeases. cbn. rewrite held_snoc, decide_False by (apply not_eq_sym; by eapply Hfresh). by rewrite app_nil_r.
        -- cbn. destruct (decide (session = sessionId e)) as [->|Hne]; [|by rewrite lookup_insert_ne].
           rewrite lookup_insert_eq, Ei. split; [|done]. intros [= <-]. by destruct (Hfresh _ _ Hj).
        -- cbn. intros [?|Hin]%elem_of_app; [done|]. by apply list_elem_of_singleton in Hin.
      * apply list_lookup_singleton_Some in Hj as [Hj <-]. assert (j = length (heap s)) as -> by lia.
        split; cbn; try done; [|by rewrite lookup_insert_eq|by left|set_solver|].
        -- unfold heldLeases. cbn. rewrite held_snoc, decide_True, length_app by done. cbn.
           enough (filter (λ x, x = (length (heap s), false)) (leases s) = []) as -> by done.
           apply filter_none. intros x Hx ->. apply Hl in Hx. lia.
        -- split; [|done]. intros [Hin|Hin]%elem_of_app; [by apply Hnocall in Hin|by apply list_elem_of_singleton in Hin].
    + intros session' j [[<- <-]|[Hne Hj]]%lookup_insert_Some.
      * exists new. by rewrite lookup_app_r, Nat.sub_diag.
      * destruct (He _ _ Hj) as (e & H & ?). exists e. split; [by apply lookup_app_l_Some|done].
    + intros j b [Hin|Hin]%elem_of_app; rewrite length_app; cbn; [apply Hl in Hin; lia|].
      apply list_elem_of_singleton in Hin as [= -> ->]. lia.
    + intros j Hin%Hc. rewrite length_app. lia.
    + intros call [Hin|Hin]%elem_of_app.
      * apply Hcalls in Hin. destruct call; destruct Hin as (e & H & ?); exists e; (split; [by apply lookup_app_l_Some|done]).
      * apply list_elem_of_singleton in Hin as ->. exists new. by rewrite lookup_app_r, Nat.sub_diag.
    + apply NoDup_app. split_and!; [done| |by repeat constructor; set_solver]. intros c Hin Hc'.
      apply list_elem_of_singleton in Hc' as ->. by apply Hnocall in Hin.
Qed.

Lemma lifecycle_step_ok e s : LifecycleOk s → LifecycleOk (lifecycleStep s e).
Proof.
  intros Hs. destruct e; cbn;
    auto using acquire_ok, release_ok, runCallback_ok, settleAttach_ok, detachEntry_ok.
Qed.

Lemma lifecycle_run_ok events : LifecycleOk (lifecycleRun events).
Proof.
  unfold lifecycleRun. assert (Hinit : LifecycleOk createTerminalAttachmentLifecycle).
  { split; cbn; intros *; rewrite ?lookup_empty; try done; try by intros ?%not_elem_of_nil. constructor. }
  revert Hinit. generalize createTerminalAttachmentLifecycle. induction events as [|e events IH]; intros s Hs; cbn; [done|].
  by apply IH, lifecycle_step_ok.
Qed.

(** The entry of a lease that is held. *)
Lemma held_attached s i e :
  LifecycleOk s → (i, false) ∈ leases s → heap s !! i = Some e →
  detachState e = Attached ∧ entries s !! sessionId e = Some i.
Proof.
  intros Hs Hi E. destruct (heap_ok _ Hs i e E) as [Hcount Hmap _ _ Hgone _ _].
  enough (detachState e = Attached) by (split; [done|by apply Hmap]).
  destruct (decide (detachState e = Attached)) as [|Hne]; [done|]. apply Hgone in Hne. exfalso.
  assert (Hin : (i, false) ∈ heldLeases i s) by (by apply list_elem_of_filter).
  destruct (heldLeases i s); [by apply not_elem_of_nil in Hin|]. cbn in Hcount. lia.
Qed.

(** C19: a terminal stays attached exactly while a view needs it.  Whatever the
    order of leases, releases (repeated ones included), scheduled callbacks
    (cancelled ones included) and answers: the entry of a lease that is held is
    attached, the only one of its session, and has not been detached; no request
    is sent twice, and only what was attached is detached; and when no lease is
    held, no detach is scheduled and none awaits the end of its attach, everything
    that was attached has been detached. *)
Theorem terminals_attached_while_used events :
  let s := lifecycleRun events in
  (∀ i, (i, false) ∈ leases s → ∃ e, heap s !! i = Some e ∧ entries s !! sessionId e = Some i ∧
     Detach i (sessionId e) (consumerId e) ∉ calls s ∧
     (∀ j e', heap s !! j = Some e' → sessionId e' = sessionId e → detachState e' = Attached → j = i)) ∧
  NoDup (calls s) ∧
  (∀ i session consumer, Detach i session consumer ∈ calls s → Attach i session consumer ∈ calls s) ∧
  ((∀ i, (i, false) ∉ leases s) →
   (∀ i e, heap s !! i = Some e → scheduledDetach e = None ∧ detachState e ≠ AwaitingAttach) →
   ∀ i session consumer, Attach i session consumer ∈ calls s → Detach i session consumer ∈ calls s).
Proof.
  pose proof (lifecycle_run_ok events) as Hok. cbv zeta. set (s := lifecycleRun events) in *.
  pose proof Hok as [Hh He Hl Hc Hcalls Honce].
  split_and!; [|done|..].
  - intros i Hi. destruct (lookup_lt_is_Some_2 (heap s) i (Hl _ _ Hi)) as [e E]. exists e. split; [done|].
    destruct (held_attached s i e Hok Hi E) as [Hattached Hi'].
    split_and!; [done|rewrite (entry_detach _ _ _ (Hh i e E)); congruence|].
    intros j e' E' Hsid Hatt'. apply (entry_mapped _ _ _ (Hh j e' E')) in Hatt'. congruence.
  - intros i session consumer Hd. destruct (Hcalls _ Hd) as (e & E & <- & <-). apply (entry_attach _ _ _ (Hh i e E)).
  - intros Hnone Hidle i session consumer Ha. destruct (Hcalls _ Ha) as (e & E & <- & <-).
    destruct (Hh i e E) as [Hcount Hmap Hsched Hlive Hgone Hatt Hdet]. destruct (Hidle i e E) as [Hs Hw].
    apply Hdet. destruct (detachState e) eqn:Es; [|done|done]. exfalso.
    destruct (Hlive eq_refl) as [Hpos|[t Ht]]; [|congruence].
    enough (heldLeases i s = []) as Hnil by (rewrite Hnil in Hcount; cbn in Hcount; lia).
    apply filter_none. intros x Hx ->. by apply (Hnone i).
Qed.

(** A view that moves between panes keeps its terminal.  A session whose last
    lease is released and which is leased again before the scheduled callback runs
    stays attached to the same consumer: nothing is sent to the engine, and the
    callback, which may run all the same, changes nothing. *)
Theorem moved_view_keeps_attachment events lease i e newConsumerId :
  let s := lifecycleRun events in
  leases s !! lease = Some (i, false) → heap s !! i = Some e →
  let s' := acquire (sessionId e) newConsumerId (release lease s) in
  calls s' = calls s ∧ last (leases s') = Some (i, false) ∧ entries s' = entries s ∧
  ∀ token, callbacks s' !! token = Some i → runCallback token s' = s'.
Proof.
  cbv zeta. set (s := lifecycleRun events). intros Hlease He.
  assert (Hok : LifecycleOk s) by apply lifecycle_run_ok.
  destruct (held_attached s i e Hok (list_elem_of_lookup_2 _ _ _ Hlease) He) as [_ Hent].
  assert (Hrel : calls (release lease s) = calls s ∧ entries (release lease s) = entries s).
  { unfold release. rewrite Hlease, He. by case_test. }
  destruct Hrel as [Hc Hen]. unfold acquire, entryOf. rewrite Hen, Hent. cbn.
  split_and!; [done|by rewrite last_snoc|done|].
  intros token Htoken. unfold runCallback. cbn. rewrite Htoken, list_lookup_alter_eq.
  destruct (heap (release lease s) !! i) as [e1|]; [|done]. cbn. done.
Qed.

(** A view moves, and its first callback runs late. *)
Definition movedView : list LifecycleEvent := [Acquire (js "s") (js "c1"); Release 0; Acquire (js "s") (js "c2"); RunCallback 0].

Example moved_view_calls :
  calls (lifecycleRun (movedView ++ [Release 1; RunCallback 1; SettleAttach 0; DetachEntry 0])) =
  [Attach 0 (js "s") (js "c1"); Detach 0 (js "s") (js "c1")].
Proof. by vm_compute. Qed.

Lemma moved_view_keeps_attachment_witness :
  let s := lifecycleRun [Acquire (js "s") (js "c1")] in
  calls (acquire (js "s") (js "c2") (release 0 s)) = calls s.
Proof.
  apply (moved_view_keeps_attachment [Acquire (js "s") (js "c1")] 0 0 (mkEntry (js "s") (js "c1") false 1 None Attached) (js "c2"));
    by vm_compute.
Defined.

Lemma terminals_attached_while_used_witness :
  let s := lifecycleRun (movedView ++ [Release 1; RunCallback 1; SettleAttach 0; DetachEntry 0]) in
  Detach 0 (js "s") (js "c1") ∈ calls s.
Proof.
  apply (proj2 (proj2 (proj2 (terminals_attached_while_used
    (movedView ++ [Release 1; RunCallback 1; SettleAttach 0; DetachEntry 0]))))).
  - intros i Hi%list_elem_of_In. vm_compute in Hi. destruct Hi as [Hi|[Hi|[]]]; discriminate Hi.
  - intros [|i] e He; vm_compute in He; [|discriminate He]. injection He as <-. done.
  - apply list_elem_of_In. vm_compute. by left.
Defined.
