(* ===== verification/SqlInClipboard.v ===== *)
(** * SqlInClipboard: the values of a copied text for an IN list

    Models [utils/sqlInClipboard.ts]: a text from the clipboard is cut at the
    delimiter that it uses, with values in double quotes as one, and the values
    become the list of an [IN] condition. *)

From S2P Require Import Prelude.
Local Open Scope nat_scope.

Definition quoteChar : N := 34.
Definition comma : N := ch ",".
Definition tab : N := 9.
Definition newline : N := 10.

(** [text.replace(/\r\n/g, '\n').replace(/\r/g, '\n')]. *)
Fixpoint unixNewlines (text : jstr) : jstr :=
  match text with
  | [] => []
  | c :: text' =>
      if (c =? 13)%N then
        match text' with
        | d :: text'' => if (d =? newline)%N then newline :: unixNewlines text'' else newline :: unixNewlines text'
        | [] => [newline]
        end
      else c :: unixNewlines text'
  end.

(** The characters before the quote, the nearest one first. *)
Fixpoint isAtQuotedValueStart (before : jstr) : bool :=
  match before with
  | [] => true
  | c :: before' =>
      if (c =? comma)%N || (c =? tab)%N || (c =? newline)%N then true
      else if negb (c =? ch " ")%N then false
      else isAtQuotedValueStart before'
  end.

Record DelimiterScan := mkScan { hasComma : bool; hasTab : bool }.

(** [skip]: the second quote of a pair is behind. *)
Fixpoint scanDelimiters (before text : jstr) (skip inQuotes : bool) (s : DelimiterScan) : DelimiterScan :=
  match text with
  | [] => s
  | c :: text' =>
      if skip then scanDelimiters (c :: before) text' false inQuotes s
      else if (c =? quoteChar)%N && (inQuotes || isAtQuotedValueStart before) then
        if inQuotes && bool_decide (head text' = Some quoteChar)
        then scanDelimiters (c :: before) text' true inQuotes s
        else scanDelimiters (c :: before) text' false (negb inQuotes) s
      else if inQuotes then scanDelimiters (c :: before) text' false inQuotes s
      else
        scanDelimiters (c :: before) text' false inQuotes
          (if (c =? tab)%N then mkScan (hasComma s) true
           else if (c =? comma)%N then mkScan true (hasTab s) else s)
  end.

Definition detectDelimiter (text : jstr) : N :=
  let s := scanDelimiters [] text false false (mkScan false false) in
  if hasTab s then tab else if hasComma s then comma else newline.

Definition isAtQuotedTokenStart (current : jstr) : bool := length (trim current) =? 0.

Definition isTokenSeparator (c delimiter : N) : bool := (c =? newline)%N || (c =? delimiter)%N.

Fixpoint parseFrom (delimiter : N) (current text : jstr) (skip inQuotes : bool) : list jstr :=
  match text with
  | [] => [current]
  | c :: text' =>
      if skip then parseFrom delimiter current text' false inQuotes
      else if (c =? quoteChar)%N && (inQuotes || isAtQuotedTokenStart current) then
        if inQuotes && bool_decide (head text' = Some quoteChar)
        then parseFrom delimiter (current ++ [quoteChar]) text' true inQuotes
        else parseFrom delimiter current text' false (negb inQuotes)
      else if negb inQuotes && isTokenSeparator c delimiter
      then current :: parseFrom delimiter [] text' false inQuotes
      else parseFrom delimiter (current ++ [c]) text' false inQuotes
  end.

Definition parseDelimitedText (text : jstr) (delimiter : N) : list jstr := parseFrom delimiter [] text false false.

Definition splitClipboardText (text : jstr) : list jstr := parseDelimitedText text (detectDelimiter text).

Definition parseClipboardTextToSqlInTokens (text : jstr) : list jstr :=
  let normalized := trim (unixNewlines text) in
  match normalized with
  | [] => []
  | _ => filter (λ token, token ≠ []) (map trim (splitClipboardText normalized))
  end.

(** ** Written values *)

(** A value as a spreadsheet copies it: bare, or in quotes with its quotes
    doubled. *)
Inductive WrittenValue := BareValue (text : jstr) | QuotedValue (text : jstr).

Definition doubleQuotes (text : jstr) : jstr := text ≫= λ c, if (c =? quoteChar)%N then [c; c] else [c].

Definition valueOf (v : WrittenValue) : jstr := match v with BareValue s | QuotedValue s => s end.

Definition writeValue (v : WrittenValue) : jstr :=
  match v with BareValue s => s | QuotedValue s => quoteChar :: doubleQuotes s ++ [quoteChar] end.

Fixpoint writeValues (d : N) (v : WrittenValue) (vs : list WrittenValue) : jstr :=
  writeValue v ++ match vs with [] => [] | v' :: vs' => d :: writeValues d v' vs' end.

(** A value has no white space at its ends and no carriage return; a bare one has
    no quote and no delimiter. *)
Definition writable (v : WrittenValue) : Prop :=
  solid (valueOf v) ∧ 13%N ∉ valueOf v ∧
  match v with
  | BareValue s => quoteChar ∉ s ∧ comma ∉ s ∧ tab ∉ s ∧ newline ∉ s
  | QuotedValue _ => True
  end.

(** ** Lemmas *)

Definition delimiterChar (d : N) : Prop := d = comma ∨ d = tab ∨ d = newline.

(** The characters of a bare value. *)
Definition bareChar (c : N) : Prop := c ≠ quoteChar ∧ c ≠ comma ∧ c ≠ tab ∧ c ≠ newline.

Lemma bare_chars s : quoteChar ∉ s → comma ∉ s → tab ∉ s → newline ∉ s → Forall bareChar s.
Proof. intros H1 H2 H3 H4. apply Forall_forall. intros c Hc. split_and!; intros ->; done. Qed.

Lemma bare_tests c d :
  bareChar c → delimiterChar d → (c =? quoteChar)%N = false ∧ (c =? tab)%N = false ∧ (c =? comma)%N = false ∧
  isTokenSeparator c d = false.
Proof.
  intros (H1 & H2 & H3 & H4) Hd. unfold isTokenSeparator. rewrite orb_false_iff, !N.eqb_neq.
  split_and!; try done. by destruct Hd as [-> |[-> | ->]].
Qed.

Lemma parse_bare d s cur rest :
  delimiterChar d → Forall bareChar s → parseFrom d cur (s ++ rest) false false = parseFrom d (cur ++ s) rest false false.
Proof.
  intros Hd Hs. revert cur. induction Hs as [|c s Hc _ IH]; intros cur; cbn [app parseFrom]; [by rewrite app_nil_r|].
  destruct (bare_tests c d Hc Hd) as (-> & _ & _ & ->). cbn [andb negb]. rewrite IH. by rewrite <-app_assoc.
Qed.

Lemma parse_quoted d s cur rest :
  head rest ≠ Some quoteChar →
  parseFrom d cur (doubleQuotes s ++ quoteChar :: rest) false true = parseFrom d (cur ++ s) rest false false.
Proof.
  intros Hrest. revert cur. induction s as [|c s IH]; intros cur.
  - cbn. rewrite app_nil_r. by rewrite bool_decide_eq_false_2.
  - unfold doubleQuotes in *. cbn [mbind list_bind]. destruct (c =? quoteChar)%N eqn:E.
    + apply N.eqb_eq in E as ->. cbn. rewrite IH. by rewrite <-app_assoc.
    + cbn [app parseFrom]. rewrite E. cbn [andb negb]. rewrite IH. by rewrite <-app_assoc.
Qed.

Lemma parse_value d v rest :
  delimiterChar d → writable v → head rest ≠ Some quoteChar →
  parseFrom d [] (writeValue v ++ rest) false false = parseFrom d (valueOf v) rest false false.
Proof.
  intros Hd (_ & _ & Hv) Hrest. destruct v as [s|s]; cbn [writeValue valueOf].
  - destruct Hv as (H1 & H2 & H3 & H4). by rewrite parse_bare by (by try apply bare_chars).
  - cbn [app parseFrom]. rewrite <-app_assoc. cbn [app]. by rewrite parse_quoted.
Qed.

(** [d] separates the values for the parser with the delimiter [d']. *)
Lemma parse_values d d' v vs :
  delimiterChar d → delimiterChar d' → (vs = [] ∨ isTokenSeparator d d' = true) → writable v → Forall writable vs →
  parseFrom d' [] (writeValues d v vs) false false = map valueOf (v :: vs).
Proof.
  intros Hd Hd' Hsep Hv Hvs. revert v Hv Hsep. induction Hvs as [|v' vs Hv' _ IH]; intros v Hv Hsep; cbn [writeValues].
  - by rewrite parse_value.
  - destruct Hsep as [|Hsep]; [done|]. rewrite parse_value; [|done|done|by destruct Hd as [-> |[-> | ->]]].
    cbn [parseFrom]. assert ((d =? quoteChar)%N = false) as -> by (by destruct Hd as [-> |[-> | ->]]).
    cbn [andb negb]. rewrite Hsep. cbn [map]. f_equal. by apply IH; [|right].
Qed.

(** The scan passes over a value. *)
Lemma scan_bare s before rest sc :
  Forall bareChar s → ∃ before', scanDelimiters before (s ++ rest) false false sc = scanDelimiters before' rest false false sc.
Proof.
  intros Hs. revert before. induction Hs as [|c s Hc _ IH]; intros before; [by exists before|]. cbn [app scanDelimiters].
  destruct (bare_tests c comma Hc) as (-> & -> & -> & _); [by left|]. cbn [andb]. apply IH.
Qed.

Lemma scan_quoted s before rest sc :
  head rest ≠ Some quoteChar →
  ∃ before', scanDelimiters before (doubleQuotes s ++ quoteChar :: rest) false true sc = scanDelimiters before' rest false false sc.
Proof.
  intros Hrest. revert before. induction s as [|c s IH]; intros before.
  - cbn. rewrite bool_decide_eq_false_2 by done. cbn. by eexists.
  - unfold doubleQuotes in *. cbn [mbind list_bind]. destruct (c =? quoteChar)%N eqn:E.
    + apply N.eqb_eq in E as ->. cbn. apply IH.
    + cbn [app scanDelimiters]. rewrite E. cbn [andb]. apply IH.
Qed.

Lemma scan_value v before rest sc :
  isAtQuotedValueStart before = true → writable v → head rest ≠ Some quoteChar →
  ∃ before', scanDelimiters before (writeValue v ++ rest) false false sc = scanDelimiters before' rest false false sc.
Proof.
  intros Hb (_ & _ & Hv) Hrest. destruct v as [s|s]; cbn [writeValue].
  - destruct Hv as (H1 & H2 & H3 & H4). apply scan_bare. by apply bare_chars.
  - cbn [app scanDelimiters]. rewrite Hb. cbn [andb orb]. rewrite <-app_assoc. cbn [app].
    change (quoteChar =? quoteChar)%N with true. cbn [andb]. by apply scan_quoted.
Qed.

Definition seen (d : N) (sc : DelimiterScan) : DelimiterScan :=
  if (d =? tab)%N then mkScan (hasComma sc) true else if (d =? comma)%N then mkScan true (hasTab sc) else sc.

Lemma scan_values d v vs before sc :
  delimiterChar d → isAtQuotedValueStart before = true → writable v → Forall writable vs →
  scanDelimiters before (writeValues d v vs) false false sc = match vs with [] => sc | _ => seen d sc end.
Proof.
  intros Hd Hb Hv Hvs. revert v before sc Hb Hv.
  induction Hvs as [|v' vs Hv' _ IH]; intros v before sc Hb Hv; cbn [writeValues].
  - destruct (scan_value v before [] sc) as [before' ->]; done.
  - destruct (scan_value v before (d :: writeValues d v' vs) sc) as [before' ->];
      [done|done|by destruct Hd as [-> |[-> | ->]]|].
    cbn [scanDelimiters]. assert ((d =? quoteChar)%N = false) as -> by (by destruct Hd as [-> |[-> | ->]]).
    cbn [andb]. rewrite IH; [|by destruct Hd as [-> |[-> | ->]]|done]. fold (seen d sc).
    by destruct vs, Hd as [-> |[-> | ->]].
Qed.

Lemma detect_values d v vs :
  delimiterChar d → writable v → Forall writable vs →
  detectDelimiter (writeValues d v vs) = match vs with [] => newline | _ => d end.
Proof.
  intros Hd Hv Hvs. unfold detectDelimiter. rewrite scan_values by done. by destruct vs, Hd as [-> |[-> | ->]].
Qed.

Lemma unix_id text : 13%N ∉ text → unixNewlines text = text.
Proof.
  induction text as [|c text IH]; [done|]. intros [Hc Ht]%not_elem_of_cons. cbn.
  rewrite (proj2 (N.eqb_neq c 13)) by congruence. by rewrite IH.
Qed.

Lemma doubled_elem c s : c ∈ doubleQuotes s → c ∈ s.
Proof.
  unfold doubleQuotes. rewrite list_elem_of_bind. intros (x & Hc & Hx). destruct (x =? quoteChar)%N; set_solver.
Qed.

Lemma write_solid v : writable v → solid (writeValue v).
Proof.
  intros (Hs & _ & _). destruct v as [s|s]; cbn [writeValue valueOf] in *; [done|]. split; [by eauto|].
  by exists (quoteChar :: doubleQuotes s), quoteChar.
Qed.

Lemma write_values_solid d v vs : writable v → Forall writable vs → solid (writeValues d v vs).
Proof.
  intros Hv Hvs. revert v Hv. induction Hvs as [|v' vs Hv' _ IH]; intros v Hv; cbn [writeValues].
  - rewrite app_nil_r. by apply write_solid.
  - destruct (write_solid v Hv) as [(c & t & -> & Hc) _]. destruct (IH v' Hv') as [_ (t' & c' & -> & Hc')]. split.
    + eexists _, _. split; [reflexivity|done].
    + exists ((c :: t) ++ d :: t'), c'. split; [by rewrite <-app_assoc|done].
Qed.

Lemma write_values_no_return d v vs :
  delimiterChar d → writable v → Forall writable vs → 13%N ∉ writeValues d v vs.
Proof.
  intros Hd Hv Hvs. assert (Hone : ∀ v, writable v → 13%N ∉ writeValue v).
  { intros [s|s] (_ & Hr & _); cbn in *; [done|]. intros [?|[?%doubled_elem|?%list_elem_of_singleton]%elem_of_app]%elem_of_cons; done. }
  revert v Hv. induction Hvs as [|v' vs Hv' _ IH]; intros v Hv; cbn [writeValues]; rewrite elem_of_app.
  - intros [H|H]; [by apply (Hone v)|by apply not_elem_of_nil in H].
  - intros [H|[H|H]%elem_of_cons]; [by apply (Hone v)| |by apply (IH v')]. by destruct Hd as [-> |[-> | ->]].
Qed.

Lemma solid_not_empty t : solid t → t ≠ [].
Proof. by intros [(c & t' & -> & _) _]. Qed.

(** Copied values come back.  Values written one behind the other with
    commas, tabs or line breaks, bare or in quotes that may hold any of them and
    doubled quotes, are read as exactly these values, the delimiter being
    recognized; and of any text no value is empty or has white space around it. *)
Theorem in_list_roundtrip d v vs text :
  delimiterChar d → writable v → Forall writable vs →
  parseClipboardTextToSqlInTokens (writeValues d v vs) = map valueOf (v :: vs) ∧
  Forall (λ t, t ≠ []) (parseClipboardTextToSqlInTokens text).
Proof.
  intros Hd Hv Hvs. split.
  - unfold parseClipboardTextToSqlInTokens. cbv zeta. rewrite unix_id by (by apply write_values_no_return).
    pose proof (write_values_solid d v vs Hv Hvs) as Hsolid. rewrite trim_solid_id by done.
    destruct (writeValues d v vs) as [|c t] eqn:E; [by apply solid_not_empty in Hsolid|]. rewrite <-E.
    unfold splitClipboardText, parseDelimitedText. rewrite detect_values by done.
    assert (Hd' : delimiterChar (match vs with [] => newline | _ => d end)) by (destruct vs; [right; by right|done]).
    assert (Hsep : vs = [] ∨ isTokenSeparator d (match vs with [] => newline | _ => d end) = true)
      by (destruct vs; [by left|right; unfold isTokenSeparator; by rewrite N.eqb_refl, orb_true_r]).
    rewrite (parse_values d _ v vs Hd Hd' Hsep Hv Hvs).
    assert (Hall : Forall writable (v :: vs)) by (by constructor). generalize (v :: vs) Hall. clear.
    induction 1 as [|v vs (Hs & _) _ IH]; [done|]. cbn [map]. rewrite trim_solid_id by done.
    rewrite filter_cons_True by (by apply solid_not_empty). by rewrite IH.
  - unfold parseClipboardTextToSqlInTokens. destruct (trim (unixNewlines text)); [constructor|].
    apply Forall_forall. by intros t [? _]%list_elem_of_filter.
Qed.

Lemma in_list_roundtrip_witness :
  parseClipboardTextToSqlInTokens
    (writeValues tab (BareValue (js "a b")) [QuotedValue (js "c," ++ [quoteChar] ++ js "d")])
  = [js "a b"; js "c," ++ [quoteChar] ++ js "d"].
Proof.
  apply (in_list_roundtrip tab (BareValue (js "a b")) [QuotedValue (js "c," ++ [quoteChar] ++ js "d")] []).
  - right. by left.
  - split_and!; [split| |..]; [by eexists _, _|by exists (js "a "), (ch "b")|..];
      apply (bool_decide_unpack _); by vm_compute.
  - constructor; [|constructor]. split_and!; [split| |done]; [by eexists _, _|by exists (js "c," ++ [quoteChar]), (ch "d")|].
    apply (bool_decide_unpack _). by vm_compute.
Defined.
