(* ===== verification/EditorDataSource.v ===== *)
(** * EditorDataSource: the data source an editor is bound to

    Models [utils/editorDataSourceLifecycle.ts] and the operations of the tree
    store that use it ([setDataSourceRuntimeAvailability] and
    [restoreDataSourceRuntimeAvailability]): what is known of a data source at
    run time, and what an editor may do with it.  Each change of what is known
    begins a generation; an execution remembers the generation it started in, so
    that its success does not hide a failure that came after it. *)

From S2P Require Import Prelude.
Local Open Scope nat_scope.

(** ** Availability *)

Inductive DataSourceRuntimeAvailability := Available | Unavailable.

#[export] Instance DataSourceRuntimeAvailability_eq_dec : EqDecision DataSourceRuntimeAvailability.
Proof. solve_decision. Defined.

Record DataSourceRuntimeAvailabilityState := mkAvailability {
  runtimeAvailabilityByDataSourceId : gmap Z DataSourceRuntimeAvailability;
  runtimeAvailabilityGenerationByDataSourceId : gmap Z nat;
}.

Definition getDataSourceRuntimeAvailabilityGeneration (generationByDataSourceId : gmap Z nat) (dataSourceId : Z) : nat :=
  default 0 (generationByDataSourceId !! dataSourceId).

(** [None]: the generation is another one, and nothing changes. *)
Definition transitionDataSourceRuntimeAvailability (state : DataSourceRuntimeAvailabilityState) (dataSourceId : Z)
    (availability : option DataSourceRuntimeAvailability) (expectedGeneration : option nat)
    : option DataSourceRuntimeAvailabilityState :=
  let currentGeneration :=
    getDataSourceRuntimeAvailabilityGeneration (runtimeAvailabilityGenerationByDataSourceId state) dataSourceId in
  if match expectedGeneration with Some g => negb (currentGeneration =? g) | None => false end then None
  else
    Some (mkAvailability
      (match availability with
       | Some a => <[dataSourceId := a]> (runtimeAvailabilityByDataSourceId state)
       | None => delete dataSourceId (runtimeAvailabilityByDataSourceId state)
       end)
      (<[dataSourceId := S currentGeneration]> (runtimeAvailabilityGenerationByDataSourceId state))).

(** ** The store *)

Definition setDataSourceRuntimeAvailability (dataSourceId : Z) (availability : option DataSourceRuntimeAvailability)
    (state : DataSourceRuntimeAvailabilityState) : DataSourceRuntimeAvailabilityState :=
  default state (transitionDataSourceRuntimeAvailability state dataSourceId availability None).

Definition restoreDataSourceRuntimeAvailability (dataSourceId : Z) (expectedGeneration : nat)
    (state : DataSourceRuntimeAvailabilityState) : DataSourceRuntimeAvailabilityState :=
  default state (transitionDataSourceRuntimeAvailability state dataSourceId (Some Available) (Some expectedGeneration)).

Inductive AvailabilityEvent :=
  | SetAvailability (dataSourceId : Z) (availability : option DataSourceRuntimeAvailability)
  | RestoreAvailability (dataSourceId : Z) (expectedGeneration : nat).

Definition availabilityStep (state : DataSourceRuntimeAvailabilityState) (e : AvailabilityEvent)
    : DataSourceRuntimeAvailabilityState :=
  match e with
  | SetAvailability dataSourceId availability => setDataSourceRuntimeAvailability dataSourceId availability state
  | RestoreAvailability dataSourceId expectedGeneration =>
      restoreDataSourceRuntimeAvailability dataSourceId expectedGeneration state
  end.

(** ** The editor *)

Inductive EditorDataSourceState := Unbound | LoadingSources | SourceAvailable | SourceUnavailable | SourceDeleted.

(** [dataSourceList]: the ids of the data sources; [None] while they load. *)
Definition resolveEditorDataSourceState (dataSourceId : option Z) (dataSourceList : option (list (option Z)))
    (runtimeAvailability : gmap Z DataSourceRuntimeAvailability) : EditorDataSourceState :=
  match dataSourceId, dataSourceList with
  | None, _ => Unbound
  | Some _, None => LoadingSources
  | Some k, Some sources =>
      if negb (existsb (λ source, bool_decide (source = Some k)) sources) then SourceDeleted
      else if decide (runtimeAvailability !! k = Some Unavailable) then SourceUnavailable else SourceAvailable
  end.

Definition resolveEditorDataSourceConnectable (state : EditorDataSourceState) (fallbackConnectable : option bool)
    : option bool :=
  match state with
  | LoadingSources => fallbackConnectable
  | SourceAvailable => Some true
  | _ => Some false
  end.

Inductive SqlExecutionBlockReason := MissingDataSource | DeletedDataSource.

Definition getSqlExecutionBlockReason (dataSourceId : option Z) (state : EditorDataSourceState)
    : option SqlExecutionBlockReason :=
  match dataSourceId, state with
  | None, _ => Some MissingDataSource
  | Some _, SourceDeleted => Some DeletedDataSource
  | Some _, _ => None
  end.

(** *** The context that follows the data source *)

Section context.
Context {Env Rest : Type} `{EqDecision Env}.

(** An environment is known by its identity. *)
Record LiveDataSourceContext := mkLive {
  dataSourceId : option Z;
  dataSourceName : option jstr;
  environmentId : option Z;
  environment : option Env;
  identityColor : option jstr;
  watermarkEnabled : option bool;
  watermarkContent : option jstr;
  connectable : option bool;
}.

#[local] Instance LiveDataSourceContext_eq_dec : EqDecision LiveDataSourceContext.
Proof. solve_decision. Defined.

(** The bound information is the context and the rest. *)
Record BoundContext := mkBound { context : LiveDataSourceContext; rest : Rest }.

(** The boolean: it is the object [current] itself. *)
Definition mergeLiveDataSourceContext (current : BoundContext) (live : LiveDataSourceContext) : BoundContext * bool :=
  if decide (context current = live) then (current, true) else (mkBound live (rest current), false).

Lemma merge_live_context current live :
  (mergeLiveDataSourceContext current live).1 = mkBound live (rest current) ∧
  ((mergeLiveDataSourceContext current live).2 = true ↔ context current = live).
Proof. unfold mergeLiveDataSourceContext. destruct current as [c r]. cbn. by case_decide as E; [subst|]. Qed.
End context.

(** ** Lemmas *)

Definition generationOf (k : Z) (state : DataSourceRuntimeAvailabilityState) : nat :=
  getDataSourceRuntimeAvailabilityGeneration (runtimeAvailabilityGenerationByDataSourceId state) k.

(** The event changes what is known of the data source. *)
Definition changes (k : Z) (state : DataSourceRuntimeAvailabilityState) (e : AvailabilityEvent) : bool :=
  match e with
  | SetAvailability k' _ => bool_decide (k' = k)
  | RestoreAvailability k' g => bool_decide (k' = k) && (generationOf k state =? g)
  end.

Lemma transition_generation k state k' a g state' :
  transitionDataSourceRuntimeAvailability state k' a g = Some state' →
  generationOf k state' = generationOf k state + (if decide (k' = k) then 1 else 0).
Proof.
  unfold transitionDataSourceRuntimeAvailability. case_test; [done|]. intros [= <-].
  unfold generationOf, getDataSourceRuntimeAvailabilityGeneration. cbn. case_decide as E.
  - subst. rewrite lookup_insert_eq. cbn. lia.
  - by rewrite lookup_insert_ne, Nat.add_0_r.
Qed.

Lemma step_generation k state e :
  generationOf k (availabilityStep state e) = generationOf k state + (if changes k state e then 1 else 0).
Proof.
  destruct e as [k' a|k' g]; cbn [availabilityStep changes].
  - unfold setDataSourceRuntimeAvailability.
    destruct (transitionDataSourceRuntimeAvailability state k' a None) as [state'|] eqn:E; [|done]. change (default state (Some state')) with state'.
    rewrite (transition_generation k _ _ _ _ _ E). by case_decide; case_bool_decide.
  - unfold restoreDataSourceRuntimeAvailability.
    destruct (transitionDataSourceRuntimeAvailability state k' (Some Available) (Some g)) as [state'|] eqn:E.
    + change (default state (Some state')) with state'. rewrite (transition_generation k _ _ _ _ _ E).
      unfold transitionDataSourceRuntimeAvailability in E. fold (generationOf k' state) in E.
      destruct (generationOf k' state =? g) eqn:Eg; [|done]. by case_decide; case_bool_decide; subst; rewrite ?Eg.
    + change (default state None) with state. unfold transitionDataSourceRuntimeAvailability in E.
      fold (generationOf k' state) in E. destruct (generationOf k' state =? g) eqn:Eg; [done|].
      case_bool_decide; subst; rewrite ?Eg; cbn; lia.
Qed.

Definition availabilityRun (state : DataSourceRuntimeAvailabilityState) (events : list AvailabilityEvent) :=
  fold_left availabilityStep events state.

(** No event of the run changes what is known of the data source. *)
Fixpoint quiet (k : Z) (state : DataSourceRuntimeAvailabilityState) (events : list AvailabilityEvent) : bool :=
  match events with
  | [] => true
  | e :: events' => negb (changes k state e) && quiet k (availabilityStep state e) events'
  end.

Lemma run_generation k state events :
  generationOf k state ≤ generationOf k (availabilityRun state events) ∧
  (generationOf k (availabilityRun state events) = generationOf k state ↔ quiet k state events = true).
Proof.
  revert state. induction events as [|e events IH]; intros state; [done|].
  change (availabilityRun state (e :: events)) with (availabilityRun (availabilityStep state e) events). cbn [quiet].
  destruct (IH (availabilityStep state e)) as [Hle Heq]. rewrite step_generation in Hle, Heq.
  destruct (changes k state e); cbn; [split; [lia|split; [lia|done]]|]. by rewrite Nat.add_0_r in *.
Qed.

(** The success of an execution does not hide a failure behind it.  An
    execution remembers the generation of its data source when it starts; when it
    succeeds, the data source becomes available exactly if nothing was learned of
    the source since then, and otherwise nothing changes at all, whatever else
    happened to this and the other sources. *)
Theorem late_success_ignored k state events :
  let remembered := generationOf k state in
  let now := availabilityRun state events in
  if quiet k state events
  then runtimeAvailabilityByDataSourceId (restoreDataSourceRuntimeAvailability k remembered now) !! k = Some Available
  else restoreDataSourceRuntimeAvailability k remembered now = now.
Proof.
  cbv zeta. destruct (run_generation k state events) as [_ Heq]. unfold restoreDataSourceRuntimeAvailability.
  unfold transitionDataSourceRuntimeAvailability. fold (generationOf k (availabilityRun state events)).
  destruct (quiet k state events).
  - rewrite (proj2 Heq eq_refl), Nat.eqb_refl. cbn. by rewrite lookup_insert_eq.
  - destruct (generationOf k (availabilityRun state events) =? generationOf k state) eqn:E; [|done].
    apply Nat.eqb_eq, Heq in E. done.
Qed.

(** An editor executes only for a data source that is not known to be deleted. *)
Lemma execution_blocked k sources available :
  getSqlExecutionBlockReason k (resolveEditorDataSourceState k sources available) = None ↔
  ∃ d, k = Some d ∧ (sources = None ∨ ∃ l, sources = Some l ∧ Some d ∈ l).
Proof.
  destruct k as [d|]; cbn; [|split; [done|by intros (? & ? & _)]]. destruct sources as [l|]; cbn; [|naive_solver].
  assert (Hin : existsb (λ source, bool_decide (source = Some d)) l = true ↔ Some d ∈ l).
  { rewrite existsb_exists. setoid_rewrite <-list_elem_of_In. setoid_rewrite bool_decide_eq_true. naive_solver. }
  destruct (existsb _ l) eqn:E; cbn.
  - case_decide; naive_solver.
  - split; [done|]. intros (d' & [= <-] & [?|(l' & [= <-] & Hd)]); [done|]. apply Hin in Hd. congruence.
Qed.
