(* ===== verification/EditorClose.v ===== *)
(** * EditorClose: what is asked and saved before editors close

    Models [utils/editorCloseGuard.ts] and its uses in
    [utils/editorCloseConfirmation.tsx].  The editors' methods and the dialog are
    code of others: they run in a world [W] that they, and whatever runs while
    they are awaited, change.  The functions return the answer, the world and the
    calls they made.  A method that rejects ends the function with the rejection,
    and nothing is closed; such runs are left out. *)

From S2P Require Import Prelude.
Local Open Scope nat_scope.

Inductive EditorCloseDecision := Save | Saved | Discard | Cancel.

#[export] Instance EditorCloseDecision_eq_dec : EqDecision EditorCloseDecision.
Proof. solve_decision. Defined.

(** [CONSOLE] tabs, tabs of local SQL files with or without a preview type, and
    the rest. *)
Inductive EditorTabType := Console | LocalSQLFile (filePreviewMimeType : jstr) | OtherTab.

Record EditorTab := mkEditorTab { tabId : Z; tabType : EditorTabType }.

Section world.
Context {W : Type}.

(** A method that is missing is [None]. *)
Record EditorCloseGuardRef := mkGuardRef {
  hasUnsavedChangesBeforeClose : option (W → bool);
  saveBeforeClose : option (W → bool * W);
  waitForPendingSave : option (W → W);
  persistBeforeApplicationExit : option (W → bool * W);
}.

(** The calls made, with their answers, and the tabs found without changes. *)
Inductive CloseCall :=
  | Waited (id : Z)
  | Unchanged (id : Z)
  | Asked (id : Z) (decision : EditorCloseDecision)
  | SaveEnded (id : Z) (ok : bool)
  | Persisted (id : Z) (ok : bool).

(** [editorList] is an object that others change; the dialog gets the tab and its
    editor. *)
Context (editorList : W → Z → option EditorCloseGuardRef)
  (requestDecision : EditorTab → EditorCloseGuardRef → W → EditorCloseDecision * W).

Definition requiresEditorCloseGuard (tab : EditorTab) : bool :=
  match tabType tab with
  | Console => true
  | LocalSQLFile mimeType => bool_decide (mimeType = [])
  | OtherTab => false
  end.

Fixpoint waitForPendingEditorTabs (tabs : list EditorTab) (w : W) : bool * W * list CloseCall :=
  match tabs with
  | [] => (true, w, [])
  | tab :: tabs' =>
      match editorList w (tabId tab) with
      | None => if requiresEditorCloseGuard tab then (false, w, []) else waitForPendingEditorTabs tabs' w
      | Some editor =>
          let w := match waitForPendingSave editor with Some wait => wait w | None => w end in
          let '(ok, w, calls) := waitForPendingEditorTabs tabs' w in (ok, w, Waited (tabId tab) :: calls)
      end
  end.

Fixpoint confirmDirtyEditorTabsAfterPending (tabs : list EditorTab) (w : W) : bool * W * list CloseCall :=
  match tabs with
  | [] => (true, w, [])
  | tab :: tabs' =>
      match editorList w (tabId tab) with
      | None => confirmDirtyEditorTabsAfterPending tabs' w
      | Some editor =>
          if negb (match hasUnsavedChangesBeforeClose editor with Some has => has w | None => false end) then
            let '(ok, w, calls) := confirmDirtyEditorTabsAfterPending tabs' w in (ok, w, Unchanged (tabId tab) :: calls)
          else
            let (decision, w) := requestDecision tab editor w in
            match decision with
            | Cancel => (false, w, [Asked (tabId tab) Cancel])
            | Save =>
                match saveBeforeClose editor with
                | None => (false, w, [Asked (tabId tab) Save])
                | Some save =>
                    let (saved, w) := save w in
                    if saved then
                      let '(ok, w, calls) := confirmDirtyEditorTabsAfterPending tabs' w in
                      (ok, w, Asked (tabId tab) Save :: SaveEnded (tabId tab) true :: calls)
                    else (false, w, [Asked (tabId tab) Save; SaveEnded (tabId tab) false])
                end
            | _ =>
                let '(ok, w, calls) := confirmDirtyEditorTabsAfterPending tabs' w in
                (ok, w, Asked (tabId tab) decision :: calls)
            end
      end
  end.

Definition confirmDirtyEditorTabs (tabs : list EditorTab) (w : W) : bool * W * list CloseCall :=
  let '(ready, w, waited) := waitForPendingEditorTabs tabs w in
  if negb ready then (false, w, waited)
  else let '(ok, w, calls) := confirmDirtyEditorTabsAfterPending tabs w in (ok, w, waited ++ calls).

(** The first loop of the exit: the tabs that cannot persist their text. *)
Fixpoint persistEditors (tabs : list EditorTab) (w : W) : option (list EditorTab) * W * list CloseCall :=
  match tabs with
  | [] => (Some [], w, [])
  | tab :: tabs' =>
      match match editorList w (tabId tab) with Some editor => persistBeforeApplicationExit editor | None => None end with
      | Some persist =>
          let (ok, w) := persist w in
          if ok then
            let '(r, w, calls) := persistEditors tabs' w in (r, w, Persisted (tabId tab) true :: calls)
          else (None, w, [Persisted (tabId tab) false])
      | None => let '(r, w, calls) := persistEditors tabs' w in ((λ tabs, tab :: tabs) <$> r, w, calls)
      end
  end.

Definition prepareEditorsForApplicationExit (tabs : list EditorTab) (confirmDirtyEditors : bool) (w : W)
    : bool * W * list CloseCall :=
  let '(ready, w, waited) := waitForPendingEditorTabs tabs w in
  if negb ready then (false, w, waited)
  else
    let '(r, w, persisted) := persistEditors tabs w in
    match r with
    | None => (false, w, waited ++ persisted)
    | Some tabsRequiringConfirmation =>
        if negb confirmDirtyEditors then (true, w, waited ++ persisted)
        else
          let '(ok, w, calls) := confirmDirtyEditorTabsAfterPending tabsRequiringConfirmation w in
          (ok, w, waited ++ persisted ++ calls)
    end.

(** *** Closing tabs of the workspace *)

Definition isEditorCloseConfirmationEnabled (confirmBeforeClose : option bool) : bool := default true confirmBeforeClose.

Definition confirmDirtyWorkspaceEditors (confirmBeforeClose : option bool) (tabs : list EditorTab) (w : W)
    : bool * W * list CloseCall :=
  if negb (isEditorCloseConfirmationEnabled confirmBeforeClose) then waitForPendingEditorTabs tabs w
  else confirmDirtyEditorTabs tabs w.

Definition prepareWorkspaceEditorsForApplicationExit (confirmBeforeClose : option bool) (tabs : list EditorTab) (w : W) :=
  prepareEditorsForApplicationExit tabs (isEditorCloseConfirmationEnabled confirmBeforeClose) w.

(** ** What the calls say *)

(** The end of a call that stops everything. *)
Definition refuses (call : CloseCall) : bool :=
  match call with Asked _ Cancel | SaveEnded _ false | Persisted _ false => true | _ => false end.

(** The text of the tab may go: it has no changes, or the user decided so, and
    what he wanted saved is saved. *)
Definition released (id : Z) (calls : list CloseCall) : Prop :=
  Unchanged id ∈ calls ∨ Asked id Discard ∈ calls ∨ Asked id Saved ∈ calls ∨
  (Asked id Save ∈ calls ∧ SaveEnded id true ∈ calls) ∨ Persisted id true ∈ calls.

(** Calls before and behind do not matter. *)
Lemma released_mono id calls calls' : (∀ c, c ∈ calls → c ∈ calls') → released id calls → released id calls'.
Proof. unfold released. intros H. naive_solver. Qed.

Lemma waited_only tabs w : let r := waitForPendingEditorTabs tabs w in
  Forall (λ c, ∃ id, c = Waited id) r.2.
Proof.
  cbv zeta. revert w. induction tabs as [|tab tabs IH]; intros w; cbn [waitForPendingEditorTabs]; [constructor|].
  destruct (editorList w (tabId tab)) as [editor|]; [|case_test; [constructor|apply IH]]. cbv zeta.
  set (w' := match _ with Some _ => _ | None => w end). specialize (IH w').
  destruct (waitForPendingEditorTabs tabs w') as [[ok w2] calls]. constructor; [by eexists|apply IH].
Qed.

(** A refusal is the last call, and then the answer is no. *)
Definition endsRefused (r : bool * W * list CloseCall) : Prop :=
  ∀ pre c post, r.2 = pre ++ c :: post → refuses c = true → post = [] ∧ r.1.1 = false.

Lemma endsRefused_cons ok w calls c :
  refuses c = false → endsRefused (ok, w, calls) → endsRefused (ok, w, c :: calls).
Proof.
  intros Hc H [|c' pre] c'' post; cbn; intros [= -> Heq] Hr; [congruence|]. by apply (H pre c'' post).
Qed.

Lemma endsRefused_nil ok w : endsRefused (ok, w, []).
Proof. intros [|? ?] ? ? ?; done. Qed.

Lemma endsRefused_one w c : endsRefused (false, w, [c]).
Proof. intros [|? [|? ?]] ? ? Heq Hr; cbn in Heq; simplify_eq; done. Qed.

Lemma confirm_spec tabs w :
  let r := confirmDirtyEditorTabsAfterPending tabs w in
  endsRefused r ∧
  (r.1.1 = true → ∀ tab, tab ∈ tabs → released (tabId tab) r.2 ∨ ∃ w', editorList w' (tabId tab) = None).
Proof.
  cbv zeta. revert w. induction tabs as [|tab tabs IH]; intros w; cbn [confirmDirtyEditorTabsAfterPending].
  { split; [apply endsRefused_nil|]. intros _ tab ?%not_elem_of_nil. done. }
  assert (Hstep : ∀ w' first calls ok w2, confirmDirtyEditorTabsAfterPending tabs w' = (ok, w2, calls) →
    Forall (λ c, refuses c = false) first → (released (tabId tab) first ∨ ∃ w', editorList w' (tabId tab) = None) →
    endsRefused (ok, w2, first ++ calls) ∧ (ok = true → ∀ tab', tab' ∈ tab :: tabs →
      released (tabId tab') (first ++ calls) ∨ ∃ w', editorList w' (tabId tab') = None)).
  { intros w' first calls ok w2 Heq Hfirst Hrel. specialize (IH w'). rewrite Heq in IH. destruct IH as [Hend Hok]. split.
    - clear Hrel. induction Hfirst; [done|]. by apply endsRefused_cons.
    - intros Htrue tab' [-> |Hin]%elem_of_cons.
      + destruct Hrel as [Hrel|?]; [left|by right]. eapply released_mono; [|exact Hrel]. intros c ?. apply elem_of_app. by left.
      + destruct (Hok Htrue tab' Hin) as [Hrel'|?]; [left|by right]. eapply released_mono; [|exact Hrel']. intros c ?. apply elem_of_app. by right. }
  destruct (editorList w (tabId tab)) as [editor|] eqn:E.
  2: { destruct (confirmDirtyEditorTabsAfterPending tabs w) as [[ok w2] calls] eqn:Er.
       apply (Hstep w [] calls ok w2 Er); [constructor|right; by eexists]. }
  case_test.
  { destruct (confirmDirtyEditorTabsAfterPending tabs w) as [[ok w2] calls] eqn:Er.
    apply (Hstep w [Unchanged (tabId tab)] calls ok w2 Er); [by repeat constructor|]. left. left. apply elem_of_cons. by left. }
  destruct (requestDecision tab editor w) as [decision w1]. destruct decision.
  - destruct (saveBeforeClose editor) as [save|]; [|split; [apply endsRefused_one|done]].
    destruct (save w1) as [[] w2].
    + destruct (confirmDirtyEditorTabsAfterPending tabs w2) as [[ok w3] calls] eqn:Er.
      apply (Hstep w2 [Asked (tabId tab) Save; SaveEnded (tabId tab) true] calls ok w3 Er); [by repeat constructor|].
      left. unfold released. rewrite !elem_of_cons. tauto.
    + split; [|done]. apply endsRefused_cons; [done|apply endsRefused_one].
  - destruct (confirmDirtyEditorTabsAfterPending tabs w1) as [[ok w2] calls] eqn:Er.
    apply (Hstep w1 [Asked (tabId tab) Saved] calls ok w2 Er); [by repeat constructor|]. left. unfold released. rewrite !elem_of_cons. tauto.
  - destruct (confirmDirtyEditorTabsAfterPending tabs w1) as [[ok w2] calls] eqn:Er.
    apply (Hstep w1 [Asked (tabId tab) Discard] calls ok w2 Er); [by repeat constructor|]. left. unfold released. rewrite !elem_of_cons. tauto.
  - split; [apply endsRefused_one|done].
Qed.
Lemma wait_spec tabs w : let r := waitForPendingEditorTabs tabs w in
  r.1.1 = true → ∀ tab, tab ∈ tabs → requiresEditorCloseGuard tab = true → Waited (tabId tab) ∈ r.2.
Proof.
  cbv zeta. revert w. induction tabs as [|tab tabs IH]; intros w; cbn [waitForPendingEditorTabs].
  { intros _ tab ?%not_elem_of_nil. done. }
  destruct (editorList w (tabId tab)) as [editor|].
  - cbv zeta. set (w' := match _ with Some _ => _ | None => w end). specialize (IH w').
    destruct (waitForPendingEditorTabs tabs w') as [[ok w2] calls]. cbn in *. intros Hok tab' [-> |Hin]%elem_of_cons Hreq.
    + set_solver.
    + apply elem_of_cons. right. by apply IH.
  - case_test; [done|]. intros Hok tab' [-> |Hin]%elem_of_cons Hreq; [congruence|by apply IH].
Qed.

Lemma persist_spec tabs w : let r := persistEditors tabs w in
  match r.1.1 with
  | None => endsRefused (false, r.1.2, r.2)
  | Some remaining =>
      Forall (λ c, refuses c = false) r.2 ∧ ∀ tab, tab ∈ tabs → tab ∈ remaining ∨ Persisted (tabId tab) true ∈ r.2
  end.
Proof.
  cbv zeta. revert w. induction tabs as [|tab tabs IH]; intros w; cbn [persistEditors].
  { split; [constructor|]. by intros tab ?%not_elem_of_nil. }
  destruct (match editorList w (tabId tab) with Some editor => persistBeforeApplicationExit editor | None => None end) as [persist|].
  - destruct (persist w) as [[] w1]; [|apply endsRefused_one]. specialize (IH w1).
    destruct (persistEditors tabs w1) as [[[remaining|] w2] calls]; cbn in *.
    + destruct IH as [Hf Hall]. split; [by constructor|]. intros tab' [-> |Hin]%elem_of_cons; [right; set_solver|].
      destruct (Hall tab' Hin); [by left|right; set_solver].
    + by apply endsRefused_cons.
  - specialize (IH w). destruct (persistEditors tabs w) as [[[remaining|] w2] calls]; cbn in *; [|done].
    destruct IH as [Hf Hall]. split; [done|]. intros tab' [-> |Hin]%elem_of_cons; [left; set_solver|].
    destruct (Hall tab' Hin); [left; set_solver|by right].
Qed.

Lemma endsRefused_app ok w first calls :
  Forall (λ c, refuses c = false) first → endsRefused (ok, w, calls) → endsRefused (ok, w, first ++ calls).
Proof. intros Hfirst H. induction Hfirst; [done|]. by apply endsRefused_cons. Qed.

Lemma waited_not_refusing tabs w : Forall (λ c, refuses c = false) (waitForPendingEditorTabs tabs w).2.
Proof. eapply Forall_impl; [apply (waited_only tabs w)|]. by intros c [id ->]. Qed.

(** Nothing the user wrote is lost by closing.  Before tabs close and before
    the application exits with confirmation on, saves that are running are awaited
    first, and an editor that should be there and is not refuses; the answer is yes
    only if every tab with an editor has no changes, was persisted, or was decided
    upon by the user, and saved when he said so; a refusal (a cancelled dialog, a
    failed save, a text that could not be kept) is the last thing that is done, and
    then the answer is no. *)
Theorem close_loses_nothing tabs w exiting :
  let r := if exiting : bool then prepareEditorsForApplicationExit tabs true w else confirmDirtyEditorTabs tabs w in
  (∃ waited calls, r.2 = waited ++ calls ∧ Forall (λ c, ∃ id, c = Waited id) waited ∧
     (r.1.1 = true → ∀ tab, tab ∈ tabs → requiresEditorCloseGuard tab = true → Waited (tabId tab) ∈ waited)) ∧
  (r.1.1 = true → ∀ tab, tab ∈ tabs → released (tabId tab) r.2 ∨ ∃ w', editorList w' (tabId tab) = None) ∧
  endsRefused r.
Proof.
  pose proof (waited_only tabs w) as Honly. pose proof (wait_spec tabs w) as Hwait. pose proof (waited_not_refusing tabs w) as Hnr.
  cbv zeta in *. unfold prepareEditorsForApplicationExit, confirmDirtyEditorTabs.
  destruct (waitForPendingEditorTabs tabs w) as [[[] w1] waited]; cbn [fst snd negb] in *.
  2: { assert (Hno : endsRefused (false, w1, waited)) by (rewrite <-(app_nil_r waited); by apply endsRefused_app, endsRefused_nil).
       destruct exiting; (split_and!; [exists waited, []; by rewrite app_nil_r|done|done]). }
  destruct exiting.
  - pose proof (persist_spec tabs w1) as Hp. cbv zeta in Hp. destruct (persistEditors tabs w1) as [[[remaining|] w2] persisted]; cbn [fst snd] in *.
    + destruct Hp as [Hf Hall]. destruct (confirm_spec remaining w2) as [Hend Hrel].
      destruct (confirmDirtyEditorTabsAfterPending remaining w2) as [[ok w3] calls]; cbn [fst snd] in *. split_and!.
      * exists waited, (persisted ++ calls). split_and!; [done..|]. intros _. by apply Hwait.
      * intros Hok tab Hin. destruct (Hall tab Hin) as [Hleft|Hpers]; [|left; unfold released; rewrite !elem_of_app; tauto].
        destruct (Hrel Hok tab Hleft) as [Hr|?]; [left|by right]. eapply released_mono; [|exact Hr]. intros c ?. rewrite !elem_of_app. auto.
      * apply endsRefused_app; [done|]. by apply endsRefused_app.
    + split_and!; [exists waited, persisted; by split_and!|done|by apply endsRefused_app].
  - destruct (confirm_spec tabs w1) as [Hend Hrel].
    destruct (confirmDirtyEditorTabsAfterPending tabs w1) as [[ok w2] calls]; cbn [fst snd] in *. split_and!.
    + exists waited, calls. split_and!; [done..|]. intros _. by apply Hwait.
    + intros Hok tab Hin. destruct (Hrel Hok tab Hin) as [Hr|?]; [left|by right]. eapply released_mono; [|exact Hr]. intros c ?. rewrite !elem_of_app. auto.
    + by apply endsRefused_app.
Qed.
End world.
