(* ===== verification/TextRanges.v ===== *)
(** * TextRanges: positions and ranges in a text

    The positions and ranges of the editor's hints, which
    [helper/insertValueHighlight.ts], [helper/routineParameterHint.ts] and
    [helper/parameterHint.ts] each define for themselves in the same way: the
    lexical order of positions, valid, touching and merged ranges, and the ranges
    that come from the engine. *)

From S2P Require Import Prelude.
Local Open Scope Z_scope.

Record TextPosition := mkPosition { lineNumber : Z; column : Z }.

Record TextRange := mkTextRange {
  startLineNumber : Z;
  startColumn : Z;
  endLineNumber : Z;
  endColumn : Z;
}.

#[export] Instance TextPosition_eq_dec : EqDecision TextPosition.
Proof. solve_decision. Defined.
#[export] Instance TextRange_eq_dec : EqDecision TextRange.
Proof. solve_decision. Defined.

Definition rangeStart (r : TextRange) : TextPosition := mkPosition (startLineNumber r) (startColumn r).
Definition rangeEnd (r : TextRange) : TextPosition := mkPosition (endLineNumber r) (endColumn r).

(** [comparePosition(lineA, colA, lineB, colB)]. *)
Definition comparePosition (a b : TextPosition) : Z :=
  if negb (lineNumber a =? lineNumber b) then lineNumber a - lineNumber b else column a - column b.

Definition isPositionInRange (p : TextPosition) (r : TextRange) : bool :=
  (comparePosition (rangeStart r) p <=? 0) && (comparePosition p (rangeEnd r) <=? 0).

Definition hasValidRange (r : TextRange) : bool :=
  (0 <? startLineNumber r) && (0 <? startColumn r) && (0 <? endLineNumber r) && (0 <? endColumn r)
  && (comparePosition (rangeStart r) (rangeEnd r) <=? 0).

Definition isCollapsedRange (r : TextRange) : bool :=
  (startLineNumber r =? endLineNumber r) && (startColumn r =? endColumn r).

Definition rangesIntersect (a b : TextRange) : bool :=
  (comparePosition (rangeStart a) (rangeEnd b) <? 0) && (comparePosition (rangeStart b) (rangeEnd a) <? 0).

Definition rangesTouch (a b : TextRange) : bool :=
  if isCollapsedRange a then isPositionInRange (rangeStart a) b
  else if isCollapsedRange b then isPositionInRange (rangeStart b) a
  else rangesIntersect a b.

Definition collapsedRange (p : TextPosition) : TextRange :=
  mkTextRange (lineNumber p) (column p) (lineNumber p) (column p).

(** The step of [reduce] in [mergeRanges]. *)
Definition hull (merged range : TextRange) : TextRange :=
  let earlier := comparePosition (rangeStart range) (rangeStart merged) <? 0 in
  let later := 0 <? comparePosition (rangeEnd range) (rangeEnd merged) in
  mkTextRange
    (if earlier then startLineNumber range else startLineNumber merged)
    (if earlier then startColumn range else startColumn merged)
    (if later then endLineNumber range else endLineNumber merged)
    (if later then endColumn range else endColumn merged).

Definition mergeRanges (ranges : list TextRange) : option TextRange :=
  match List.filter hasValidRange ranges with
  | [] => None
  | range :: ranges' => Some (fold_left hull ranges' range)
  end.

(** ** Ranges of the engine *)

(** [Number(text)] where it is an integer; [None] is everything else. *)
Class NumberParser := parseNumber : jstr → option Z.

(** A value of type [number | string | null | undefined]; numbers are integers
    or [NaN], as the engine sends them. *)
Inductive LooseNumber := FiniteNumber (n : Z) | NotFinite | TextNumber (text : jstr) | NullNumber | UndefinedNumber.

Record ISqlEditorHintRangeVO := mkHintRange {
  hintStartLine : LooseNumber;
  hintStartColumn : LooseNumber;
  hintEndLine : LooseNumber;
  hintEndColumn : LooseNumber;
}.

Section parser.
Context {parse : NumberParser}.

Definition toFiniteNumber (value : LooseNumber) (fallback : Z) : Z :=
  match value with
  | FiniteNumber n => n
  | NotFinite | UndefinedNumber => fallback
  | TextNumber text => default fallback (parseNumber text)
  | NullNumber => 0
  end.

Definition toTextRange (range : option ISqlEditorHintRangeVO) : option TextRange :=
  match range with
  | None => None
  | Some r =>
      let textRange := mkTextRange (toFiniteNumber (hintStartLine r) 0) (toFiniteNumber (hintStartColumn r) 0)
                         (toFiniteNumber (hintEndLine r) 0) (toFiniteNumber (hintEndColumn r) 0) in
      if hasValidRange textRange then Some textRange else None
  end.

Lemma toTextRange_valid range r : toTextRange range = Some r → hasValidRange r = true.
Proof. destruct range as [x|]; cbn; [|done]. destruct (hasValidRange _) eqn:E; [by intros [= <-]|done]. Qed.
End parser.

(** ** The order of positions *)

Definition notAfter (a b : TextPosition) : Prop := comparePosition a b ≤ 0.

(** Facts about positions are facts of linear arithmetic. *)
Ltac solve_positions :=
  unfold notAfter, isPositionInRange, hasValidRange, isCollapsedRange, comparePosition, rangeStart, rangeEnd in *;
  cbn [lineNumber column startLineNumber startColumn endLineNumber endColumn] in *;
  repeat match goal with
  | H : context [ (?x =? ?y)%Z ] |- _ => destruct (Z.eqb_spec x y); cbn [negb andb orb] in *
  | |- context [ (?x =? ?y)%Z ] => destruct (Z.eqb_spec x y); cbn [negb andb orb] in *
  | H : (_ && _) = true |- _ => apply andb_true_iff in H as [??]
  | H : (_ <=? _) = true |- _ => apply Z.leb_le in H
  | H : (_ <=? _) = false |- _ => apply Z.leb_gt in H
  | H : (_ <? _) = true |- _ => apply Z.ltb_lt in H
  | H : (_ <? _) = false |- _ => apply Z.ltb_ge in H
  end; try done; try lia.

Lemma notAfter_refl a : notAfter a a.
Proof. solve_positions. Qed.

Lemma notAfter_trans a b c : notAfter a b → notAfter b c → notAfter a c.
Proof. intros H1 H2. solve_positions. Qed.

Lemma notAfter_total a b : notAfter a b ∨ notAfter b a.
Proof.
  unfold notAfter, comparePosition. destruct (Z.eqb_spec (lineNumber a) (lineNumber b)), (Z.eqb_spec (lineNumber b) (lineNumber a));
    cbn [negb]; lia.
Qed.

Lemma notAfter_antisym a b : notAfter a b → notAfter b a → a = b.
Proof.
  destruct a as [l c], b as [l' c']. intros H1 H2. solve_positions. f_equal; lia.
Qed.

Lemma isPositionInRange_iff p r : isPositionInRange p r = true ↔ notAfter (rangeStart r) p ∧ notAfter p (rangeEnd r).
Proof. unfold isPositionInRange. by rewrite andb_true_iff, !Z.leb_le. Qed.

Lemma hasValidRange_notAfter r : hasValidRange r = true → notAfter (rangeStart r) (rangeEnd r).
Proof. unfold hasValidRange. rewrite !andb_true_iff, Z.leb_le. by intros [_ H]. Qed.

Lemma hull_start merged range :
  rangeStart (hull merged range) =
  if comparePosition (rangeStart range) (rangeStart merged) <? 0 then rangeStart range else rangeStart merged.
Proof. unfold hull, rangeStart at 1. cbn. by case_match. Qed.

Lemma hull_end merged range :
  rangeEnd (hull merged range) =
  if 0 <? comparePosition (rangeEnd range) (rangeEnd merged) then rangeEnd range else rangeEnd merged.
Proof. unfold hull, rangeEnd at 1. cbn. by case_match. Qed.

(** The smallest range around all of them. *)
Definition isHull (ranges : list TextRange) (h : TextRange) : Prop :=
  (∃ r, r ∈ ranges ∧ rangeStart h = rangeStart r) ∧ (∃ r, r ∈ ranges ∧ rangeEnd h = rangeEnd r) ∧
  ∀ r, r ∈ ranges → notAfter (rangeStart h) (rangeStart r) ∧ notAfter (rangeEnd r) (rangeEnd h).

Lemma comparePosition_opp a b : comparePosition b a = - comparePosition a b.
Proof.
  unfold comparePosition.
  destruct (Z.eqb_spec (lineNumber a) (lineNumber b)), (Z.eqb_spec (lineNumber b) (lineNumber a)); cbn [negb]; lia.
Qed.

Lemma hull_step ranges h r : isHull ranges h → isHull (ranges ++ [r]) (hull h r).
Proof.
  intros ((r1 & Hr1 & Hs) & (r2 & Hr2 & He) & Hall).
  assert (Hsub : ∀ x, x ∈ ranges → x ∈ ranges ++ [r]) by (intros x ?; apply elem_of_app; by left).
  assert (Hin : r ∈ ranges ++ [r]) by (apply elem_of_app; right; by apply list_elem_of_singleton).
  assert (Hstart : notAfter (rangeStart (hull h r)) (rangeStart h) ∧ notAfter (rangeStart (hull h r)) (rangeStart r)).
  { rewrite hull_start. unfold notAfter. destruct (Z.ltb_spec (comparePosition (rangeStart r) (rangeStart h)) 0).
    - split; [lia|apply notAfter_refl].
    - split; [apply notAfter_refl|]. rewrite comparePosition_opp. lia. }
  assert (Hend : notAfter (rangeEnd h) (rangeEnd (hull h r)) ∧ notAfter (rangeEnd r) (rangeEnd (hull h r))).
  { rewrite hull_end. unfold notAfter. destruct (Z.ltb_spec 0 (comparePosition (rangeEnd r) (rangeEnd h))).
    - split; [rewrite comparePosition_opp; lia|apply notAfter_refl].
    - split; [apply notAfter_refl|lia]. }
  split_and!.
  - rewrite hull_start. case_match; [by exists r|]. exists r1. auto.
  - rewrite hull_end. case_match; [by exists r|]. exists r2. auto.
  - intros x [Hx| ->%list_elem_of_singleton]%elem_of_app; [|split; [apply Hstart|apply Hend]].
    destruct (Hall x Hx) as [H1 H2], Hstart as [Hs1 _], Hend as [He1 _]. split; by eapply notAfter_trans.
Qed.

Lemma hull_fold ranges pre h : isHull pre h → isHull (pre ++ ranges) (fold_left hull ranges h).
Proof.
  revert pre h. induction ranges as [|x ranges IH]; intros pre h H; cbn [fold_left]; [by rewrite app_nil_r|].
  replace (pre ++ x :: ranges) with ((pre ++ [x]) ++ ranges) by (by rewrite <-app_assoc). by apply IH, hull_step.
Qed.

Lemma mergeRanges_spec ranges :
  match mergeRanges ranges with
  | Some h => isHull (List.filter hasValidRange ranges) h
  | None => ∀ r, r ∈ ranges → hasValidRange r = false
  end.
Proof.
  unfold mergeRanges. destruct (List.filter hasValidRange ranges) as [|r rs] eqn:E.
  - intros r Hr. destruct (hasValidRange r) eqn:Ev; [|done].
    assert (H : r ∈ List.filter hasValidRange ranges) by (apply list_elem_of_In, filter_In; by rewrite <-list_elem_of_In).
    rewrite E in H. by apply not_elem_of_nil in H.
  - clear E. assert (H : isHull [r] r).
    { split_and!; [exists r; split; [by apply list_elem_of_singleton|done]..|]. intros x ->%list_elem_of_singleton.
      split; apply notAfter_refl. }
    change (r :: rs) with ([r] ++ rs). by apply hull_fold.
Qed.
