(* ===== verification/InsertValueHints.v ===== *)
(** * InsertValueHints: columns and values of an insert statement

    Models [components/SQLEditor/helper/insertValueHighlight.ts]: the engine maps
    the values of an insert statement to its columns; the editor highlights the
    partner of what is selected, shows the columns of the row at the cursor, and
    marks rows whose values do not match the columns.  A mapping that the engine
    leaves without a row has the row [-1] here. *)

From S2P Require Import Prelude StableSort TextRanges.
Local Open Scope Z_scope.

(** ** Data *)

Inductive InsertValueMappingStatusEnum := MATCHED | UNMAPPED_COLUMN | UNMAPPED_VALUE.

#[export] Instance InsertValueMappingStatusEnum_eq_dec : EqDecision InsertValueMappingStatusEnum.
Proof. solve_decision. Defined.

Record SimpleInsertValueMapping := mkMapping {
  columnStartRowNum : option Z; columnStartColNum : option Z; columnEndRowNum : option Z; columnEndColNum : option Z;
  valueStartRowNum : option Z; valueStartColNum : option Z; valueEndRowNum : option Z; valueEndColNum : option Z;
  rowStartRowNum : option Z; rowStartColNum : option Z; rowEndRowNum : option Z; rowEndColNum : option Z;
  rowIndex : Z;
  columnIndex : Z;
  mappingStatus : InsertValueMappingStatusEnum;
}.

Record ISimpleColumnVO := mkColumn { columnName : jstr; dataType : jstr }.

(** The fields of a statement that the hints read; [isInsert]: its type is
    [INSERT].  Missing lists are empty. *)
Record SqlStatement := mkSqlStatement {
  sql : jstr;
  sqlStartRowNum : Z;
  sqlStartColNum : Z;
  isInsert : bool;
  tableColumns : list (list ISimpleColumnVO);
  insertValueMappings : list SimpleInsertValueMapping;
}.

Record InsertValueHintItem := mkItem {
  itemRowIndex : Z;
  itemColumnIndex : Z;
  itemFieldName : jstr;
  itemFieldType : option jstr;
  label : jstr;
  range : TextRange;
  active : bool;
}.

Record InsertValueHintContext := mkContext {
  contextRowIndex : Z;
  contextColumnIndex : Z;
  fieldName : jstr;
  fieldType : option jstr;
  hints : list InsertValueHintItem;
  highlightRanges : list TextRange;
  rowRange : TextRange;
  valueRange : option TextRange;
  editingValue : bool;
}.

(** All marks have the type [warning]. *)
Record MarkMessage := mkMark { markRange : TextRange; message : jstr }.

(** The text of the editor; both the function and its answer may be missing. *)
Abbreviation GetTextInRange := (option (TextRange → option jstr)).

(** ** Ranges of a mapping *)

Definition orZero (n : option Z) : Z := default 0 n.

Definition getColumnRange (m : SimpleInsertValueMapping) : TextRange :=
  mkTextRange (orZero (columnStartRowNum m)) (orZero (columnStartColNum m)) (orZero (columnEndRowNum m)) (orZero (columnEndColNum m)).
Definition getValueRange (m : SimpleInsertValueMapping) : TextRange :=
  mkTextRange (orZero (valueStartRowNum m)) (orZero (valueStartColNum m)) (orZero (valueEndRowNum m)) (orZero (valueEndColNum m)).
Definition getRowRange (m : SimpleInsertValueMapping) : TextRange :=
  mkTextRange (orZero (rowStartRowNum m)) (orZero (rowStartColNum m)) (orZero (rowEndRowNum m)) (orZero (rowEndColNum m)).

Definition isStatus (s : InsertValueMappingStatusEnum) (m : SimpleInsertValueMapping) : bool := bool_decide (mappingStatus m = s).

(** ** Highlighting *)

Definition isHighlightMapping (m : SimpleInsertValueMapping) : bool :=
  isStatus MATCHED m && hasValidRange (getColumnRange m) && hasValidRange (getValueRange m).

Definition getInsertValueHighlightRanges (statement : option SqlStatement) (selection : option TextRange) : list TextRange :=
  match statement, selection with
  | Some statement, Some selection =>
      if negb (isInsert statement) then []
      else
        let mappings := List.filter isHighlightMapping (insertValueMappings statement) in
        match js_find (λ m, rangesTouch (getColumnRange m) selection) mappings with
        | Some selectedColumn =>
            List.filter hasValidRange
              (map getValueRange (List.filter (λ m, columnIndex m =? columnIndex selectedColumn) mappings))
        | None =>
            match js_find (λ m, rangesTouch (getValueRange m) selection) mappings with
            | Some selectedValue => List.filter hasValidRange [getColumnRange selectedValue]
            | None => []
            end
        end
  | _, _ => []
  end.

(** ** Names and types of columns *)

Definition enclosedIn (o c : N) (name : jstr) : bool := startsWithChar o name && endsWithChar c name.

(** The code unit 39 is the single quote, 34 the double quote. *)
Definition normalizeIdentifier (identifier : jstr) : jstr :=
  let name := trim identifier in
  if enclosedIn (ch "`") (ch "`") name || enclosedIn 34 34 name || enclosedIn 39 39 name || enclosedIn (ch "[") (ch "]") name
  then toLowerCase (drop 1 (take (length name - 1) name))
  else toLowerCase name.

Definition getColumnType (statement : SqlStatement) (name : jstr) : option jstr :=
  let normalizedColumnName := normalizeIdentifier name in
  match normalizedColumnName with
  | [] => None
  | _ =>
      match js_find (λ c, bool_decide (normalizeIdentifier (columnName c) = normalizedColumnName)) (concat (tableColumns statement)) with
      | Some c => match dataType c with [] => None | t => Some t end
      | None => None
      end
  end.

(** [text.split(/\r\n|\r|\n/)]. *)
Fixpoint splitSqlLines (text : jstr) : list jstr :=
  match text with
  | [] => [[]]
  | c :: text' =>
      if (c =? 10)%N then [] :: splitSqlLines text'
      else if (c =? 13)%N then
        match text' with
        | d :: text'' => if (d =? 10)%N then [] :: splitSqlLines text'' else [] :: splitSqlLines text'
        | [] => [[]; []]
        end
      else match splitSqlLines text' with l :: ls => (c :: l) :: ls | [] => [[c]] end
  end.

(** [line.slice(Math.max(0, from), Math.max(0, to))]. *)
Definition sliceFrom (line : jstr) (from to : Z) : jstr := drop (Z.to_nat from) (take (Z.to_nat to) line).

Definition statementLine (statement : SqlStatement) (lines : list jstr) (r : TextRange) (line : Z) : jstr :=
  let lineIndex := line - sqlStartRowNum statement in
  let text := if 0 <=? lineIndex then default [] (lines !! Z.to_nat lineIndex) else [] in
  let baseColumn := if line =? sqlStartRowNum statement then sqlStartColNum statement else 1 in
  let start := if line =? startLineNumber r then startColumn r else baseColumn in
  let stop := if line =? endLineNumber r then endColumn r else baseColumn + Z.of_nat (length text) in
  sliceFrom text (start - baseColumn) (stop - baseColumn).

Definition getStatementTextInRange (statement : SqlStatement) (r : TextRange) : jstr :=
  let lines := splitSqlLines (sql statement) in
  join [10%N] (map (statementLine statement lines r) (seqZ (startLineNumber r) (endLineNumber r - startLineNumber r + 1))).

(** [text.replace(/,$/, '')]. *)
Definition dropTrailingComma (text : jstr) : jstr :=
  if endsWithChar (ch ",") text then take (length text - 1) text else text.

Definition getColumnName (statement : SqlStatement) (r : TextRange) (getTextInRange : GetTextInRange) : jstr :=
  let raw := match getTextInRange with
             | Some f => default (getStatementTextInRange statement r) (f r)
             | None => getStatementTextInRange statement r
             end in
  trim (dropTrailingComma (trim raw)).

(** [fieldType ? `${fieldName}:${fieldType}` : fieldName]. *)
Definition fieldLabel (name : jstr) (type : option jstr) : jstr :=
  match type with Some t => name ++ ch ":" :: t | None => name end.

Definition getInsertValueHintItem (statement : SqlStatement) (currentMapping : SimpleInsertValueMapping)
    (getTextInRange : GetTextInRange) (m : SimpleInsertValueMapping) : option InsertValueHintItem :=
  let columnRange := getColumnRange m in
  if negb (hasValidRange columnRange) || isStatus UNMAPPED_VALUE m then None
  else
    match getColumnName statement columnRange getTextInRange with
    | [] => None
    | name =>
        let type := getColumnType statement name in
        Some (mkItem (rowIndex m) (columnIndex m) name type (fieldLabel name type) columnRange
               (columnIndex m =? columnIndex currentMapping))
    end.

(** ** The row at the cursor *)

Definition valueHas (cursorPosition : TextPosition) (m : SimpleInsertValueMapping) : bool :=
  hasValidRange (getValueRange m) && isPositionInRange cursorPosition (getValueRange m).

Definition getCurrentInsertValueMapping (mappings : list SimpleInsertValueMapping) (cursorPosition : TextPosition)
    : option SimpleInsertValueMapping :=
  match js_find (valueHas cursorPosition) mappings with
  | Some selectedValue => Some selectedValue
  | None =>
      match js_find (isStatus UNMAPPED_COLUMN) mappings with
      | Some firstMissingValue => Some firstMissingValue
      | None =>
          let valueMappings := List.filter (λ m, hasValidRange (getValueRange m)) mappings in
          match last valueMappings with
          | None => js_find (λ m, negb (isStatus UNMAPPED_VALUE m)) mappings
          | Some lastValue =>
              Some (default lastValue
                (js_find (λ m, comparePosition cursorPosition (rangeEnd (getValueRange m)) <=? 0) valueMappings))
          end
      end
  end.

Definition isFollowedByValueDelimiter (text : jstr) : bool :=
  match trimStart text with c :: _ => (c =? ch ",")%N || (c =? ch ")")%N | [] => false end.

Definition isEditingInsertValueSlot (m : SimpleInsertValueMapping) (cursorPosition : TextPosition) (valueRange : TextRange)
    (valueText textAfterCursor : jstr) : bool :=
  if isStatus UNMAPPED_COLUMN m then true
  else if negb (hasValidRange valueRange) then false
  else if negb (isPositionInRange cursorPosition valueRange) then false
  else if isCollapsedRange valueRange then true
  else if bool_decide (trim valueText = []) then true
  else if comparePosition cursorPosition (rangeEnd valueRange) <? 0 then true
  else negb (isFollowedByValueDelimiter textAfterCursor).

(** The comparator of the sort of a row gives no positive number. *)
Definition columnsInOrder (a b : SimpleInsertValueMapping) : bool := columnIndex a <=? columnIndex b.

(** [getTextInRange?.(range) ?? '']. *)
Definition textIn (getTextInRange : GetTextInRange) (r : TextRange) : jstr :=
  match getTextInRange with Some f => default [] (f r) | None => [] end.

Definition getInsertValueHintContext (statement : option SqlStatement) (cursorPosition : option TextPosition)
    (getTextInRange : GetTextInRange) : option InsertValueHintContext :=
  statement ← statement;
  cursor ← cursorPosition;
  if negb (isInsert statement) then None
  else
    rowMapping ← js_find (λ m, hasValidRange (getRowRange m) && isPositionInRange cursor (getRowRange m))
                   (insertValueMappings statement);
    let rowRange := getRowRange rowMapping in
    let rowMappings := stable_sort columnsInOrder
                         (List.filter (λ m, rowIndex m =? rowIndex rowMapping) (insertValueMappings statement)) in
    current ← getCurrentInsertValueMapping rowMappings cursor;
    if isStatus UNMAPPED_VALUE current then None
    else
      let hintItems := omap (getInsertValueHintItem statement current getTextInRange) rowMappings in
      currentHint ← js_find (λ item, itemColumnIndex item =? columnIndex current) hintItems;
      let currentValueRange := getValueRange current in
      let currentValueText := if hasValidRange currentValueRange then textIn getTextInRange currentValueRange else [] in
      let textAfterCursor :=
        if isPositionInRange cursor rowRange
        then textIn getTextInRange (mkTextRange (lineNumber cursor) (column cursor) (endLineNumber rowRange) (endColumn rowRange))
        else [] in
      Some (mkContext (rowIndex current) (columnIndex current) (itemFieldName currentHint) (itemFieldType currentHint) hintItems
        (List.filter hasValidRange [getColumnRange current]) rowRange
        (if hasValidRange currentValueRange then Some currentValueRange else None)
        (isEditingInsertValueSlot current cursor currentValueRange currentValueText textAfterCursor)).

Definition shouldAutoShowInsertValueHint (context : option InsertValueHintContext) : bool :=
  match context with Some c => editingValue c | None => false end.

(** ** Hints of the engine *)

Record ISqlEditorHintItemVO := mkHintItem {
  hintRowIndex : LooseNumber;
  hintColumnIndex : LooseNumber;
  hintFieldName : jstr;
  hintFieldType : jstr;
  hintLabel : jstr;
  hintRange : option ISqlEditorHintRangeVO;
  hintActive : bool;
}.

Inductive EditorHintType := INSERT_VALUE | ROUTINE_PARAMETER | OtherHint.

Record ISqlEditorHintVO := mkHint {
  hintType : EditorHintType;
  hintStatementRange : option ISqlEditorHintRangeVO;
  hintRowRange : option ISqlEditorHintRangeVO;
  hintValueRange : option ISqlEditorHintRangeVO;
  hintItems : list ISqlEditorHintItemVO;
}.

(** A text that is missing when it is empty. *)
Definition nonEmpty (t : jstr) : option jstr := match t with [] => None | _ => Some t end.

(** [a || b] of values that may be missing. *)
Definition orRange (a b : option TextRange) : option TextRange := match a with Some r => Some r | None => b end.

Section parser.
Context {parse : NumberParser}.

Definition hintItemOf (valueRange rowRange : option TextRange) (item : ISqlEditorHintItemVO) : option InsertValueHintItem :=
  match or_else (hintFieldName item) (hintLabel item), orRange (toTextRange (hintRange item)) (orRange valueRange rowRange) with
  | [], _ | _, None => None
  | name, Some r =>
      let type := nonEmpty (hintFieldType item) in
      Some (mkItem (toFiniteNumber (hintRowIndex item) 0) (toFiniteNumber (hintColumnIndex item) 0) name type
        (or_else (hintLabel item) (fieldLabel name type)) r (hintActive item))
  end.

Definition insertValueHintContextFromEditorHint (editorHint : option ISqlEditorHintVO) : option InsertValueHintContext :=
  editorHint ← editorHint;
  match hintType editorHint with
  | INSERT_VALUE =>
      let rowRange := orRange (toTextRange (hintRowRange editorHint)) (toTextRange (hintStatementRange editorHint)) in
      let valueRange := toTextRange (hintValueRange editorHint) in
      let hints := omap (hintItemOf valueRange rowRange) (hintItems editorHint) in
      match hints with
      | [] => None
      | first :: _ =>
          let currentHint := default first (js_find active hints) in
          Some (mkContext (itemRowIndex currentHint) (itemColumnIndex currentHint) (itemFieldName currentHint)
            (itemFieldType currentHint) hints (List.filter hasValidRange [range currentHint])
            (default (range currentHint) rowRange) valueRange (active currentHint))
      end
  | _ => None
  end.
End parser.

(** ** Rows whose values do not match *)

Record InsertRowValueCount := mkCount { expectedCount : nat; actualCount : nat }.

Definition countMapping (counts : gmap Z InsertRowValueCount) (m : SimpleInsertValueMapping) : gmap Z InsertRowValueCount :=
  let c := default (mkCount 0 0) (counts !! rowIndex m) in
  <[rowIndex m := mkCount
      (expectedCount c + if isStatus MATCHED m || isStatus UNMAPPED_COLUMN m then 1 else 0)
      (actualCount c + if isStatus MATCHED m || isStatus UNMAPPED_VALUE m then 1 else 0)]> counts.

Definition getInsertRowValueCounts (mappings : list SimpleInsertValueMapping) : gmap Z InsertRowValueCount :=
  fold_left countMapping mappings ∅.

(** The key of a group is its row and status. *)
Record InsertValueMismatchGroup := mkGroup {
  groupRowIndex : Z;
  groupStatus : InsertValueMappingStatusEnum;
  ranges : list TextRange;
}.

Definition groupKey (g : InsertValueMismatchGroup) : Z * InsertValueMappingStatusEnum := (groupRowIndex g, groupStatus g).

(** [groups.get(key) || ...] with the range pushed, and [groups.set]. *)
Fixpoint addRange (row : Z) (status : InsertValueMappingStatusEnum) (r : TextRange) (groups : list InsertValueMismatchGroup)
    : list InsertValueMismatchGroup :=
  match groups with
  | [] => [mkGroup row status [r]]
  | g :: groups' =>
      if decide (groupKey g = (row, status)) then mkGroup row status (ranges g ++ [r]) :: groups'
      else g :: addRange row status r groups'
  end.

Definition mismatchRange (m : SimpleInsertValueMapping) : TextRange :=
  if isStatus UNMAPPED_COLUMN m then getColumnRange m else getValueRange m.

(** The mapping takes part in a group. *)
Definition mismatched (m : SimpleInsertValueMapping) : bool :=
  (isStatus UNMAPPED_COLUMN m || isStatus UNMAPPED_VALUE m) && hasValidRange (mismatchRange m).

Definition addMismatch (groups : list InsertValueMismatchGroup) (m : SimpleInsertValueMapping) : list InsertValueMismatchGroup :=
  if mismatched m then addRange (rowIndex m) (mappingStatus m) (mismatchRange m) groups else groups.

Definition getInsertValueMismatchGroups (mappings : list SimpleInsertValueMapping) : list InsertValueMismatchGroup :=
  fold_left addMismatch mappings [].

Definition getInsertValueMismatchMarker (getMessage : option nat → option nat → jstr) (count : option InsertRowValueCount)
    (group : InsertValueMismatchGroup) : option MarkMessage :=
  let message :=
    match count with Some c => getMessage (Some (expectedCount c)) (Some (actualCount c)) | None => getMessage None None end in
  (λ r, mkMark r message) <$> mergeRanges (ranges group).

Definition getInsertValueMismatchMarkersWithMessage (statementList : list SqlStatement)
    (getMessage : option nat → option nat → jstr) : list MarkMessage :=
  statementList ≫= λ statement,
    if negb (isInsert statement) then []
    else
      let counts := getInsertRowValueCounts (insertValueMappings statement) in
      omap (λ group, getInsertValueMismatchMarker getMessage (counts !! groupRowIndex group) group)
        (getInsertValueMismatchGroups (insertValueMappings statement)).

Definition mismatchMessage (expected actual : option nat) : jstr :=
  match expected, actual with
  | Some e, Some a =>
      js "INSERT value count mismatch: expected " ++ znum (Z.of_nat e) ++ js ", got " ++ znum (Z.of_nat a)
  | _, _ => js "INSERT value count mismatch"
  end.

Definition getInsertValueMismatchMarkers (statementList : list SqlStatement) : list MarkMessage :=
  getInsertValueMismatchMarkersWithMessage statementList mismatchMessage.

(** ** The marks of a statement *)

Definition mismatchKey (m : SimpleInsertValueMapping) : Z * InsertValueMappingStatusEnum := (rowIndex m, mappingStatus m).

(** The rows that have columns or values too many, in order. *)
Definition mismatchKeys (ms : list SimpleInsertValueMapping) : list (Z * InsertValueMappingStatusEnum) :=
  uniq (map mismatchKey (List.filter mismatched ms)).

Definition mismatchRanges (ms : list SimpleInsertValueMapping) (k : Z * InsertValueMappingStatusEnum) : list TextRange :=
  map mismatchRange (List.filter (λ m, mismatched m && bool_decide (mismatchKey m = k)) ms).

(** How many columns and how many values a row has. *)
Definition columnsOf (ms : list SimpleInsertValueMapping) (row : Z) : nat :=
  length (List.filter (λ m, (rowIndex m =? row) && (isStatus MATCHED m || isStatus UNMAPPED_COLUMN m)) ms).
Definition valuesOf (ms : list SimpleInsertValueMapping) (row : Z) : nat :=
  length (List.filter (λ m, (rowIndex m =? row) && (isStatus MATCHED m || isStatus UNMAPPED_VALUE m)) ms).

Lemma uniq_snoc {A} `{EqDecision A} (xs : list A) x :
  uniq (xs ++ [x]) = if decide (x ∈ xs) then uniq xs else uniq xs ++ [x].
Proof.
  induction xs as [|y xs IH]; [done|]. cbn [app uniq]. rewrite IH. destruct (decide (x ∈ xs)) as [Hin|Hin].
  - by rewrite decide_True by (by apply elem_of_cons; right).
  - destruct (decide (x = y)) as [-> |Hne].
    + rewrite decide_True by (apply elem_of_cons; by left). rewrite filter_app, filter_cons_False, filter_nil by (by intros H).
      by rewrite app_nil_r.
    + rewrite decide_False by (by intros [?|?]%elem_of_cons). rewrite filter_app. cbn [app]. f_equal.
      by rewrite filter_cons_True, filter_nil.
Qed.

Lemma filter_snoc {A} (f : A → bool) xs x : List.filter f (xs ++ [x]) = List.filter f xs ++ (if f x then [x] else []).
Proof. by rewrite List.filter_app. Qed.

(** The groups of the keys, with the ranges [f] gives. *)
Definition groupsOf (f : Z * InsertValueMappingStatusEnum → list TextRange) (ks : list (Z * InsertValueMappingStatusEnum))
    : list InsertValueMismatchGroup := map (λ k, mkGroup k.1 k.2 (f k)) ks.

Lemma groupsOf_ext f g ks : (∀ k, k ∈ ks → f k = g k) → groupsOf f ks = groupsOf g ks.
Proof. intros H. apply map_ext_in. intros k Hk. rewrite H; [done|]. by apply list_elem_of_In. Qed.

Lemma groupsOf_cons f k ks : groupsOf f (k :: ks) = mkGroup k.1 k.2 (f k) :: groupsOf f ks.
Proof. done. Qed.

Lemma addRange_groups f ks row status r :
  NoDup ks →
  addRange row status r (groupsOf f ks) =
  if decide ((row, status) ∈ ks) then groupsOf (λ k, f k ++ (if decide (k = (row, status)) then [r] else [])) ks
  else groupsOf f ks ++ [mkGroup row status [r]].
Proof.
  induction 1 as [|k ks Hk _ IH]; [done|]. rewrite !groupsOf_cons. cbn [addRange].
  change (groupKey _) with (k.1, k.2). rewrite <-surjective_pairing. destruct (decide (k = (row, status))) as [-> |Hne].
  - rewrite decide_True by (apply elem_of_cons; by left). cbn [ranges fst snd]. f_equal. apply groupsOf_ext. intros k Hin.
    rewrite decide_False, app_nil_r; [done|]. by intros ->.
  - rewrite IH. destruct (decide ((row, status) ∈ ks)) as [Hin|Hin].
    + rewrite decide_True by (by apply elem_of_cons; right). by rewrite app_nil_r.
    + rewrite decide_False by (by intros [?|?]%elem_of_cons). done.
Qed.

Lemma mismatchRanges_snoc ms m k :
  mismatchRanges (ms ++ [m]) k =
  mismatchRanges ms k ++ (if mismatched m then if decide (k = mismatchKey m) then [mismatchRange m] else [] else []).
Proof.
  unfold mismatchRanges. rewrite filter_snoc, map_app. f_equal. destruct (mismatched m); [|done]. cbn [andb].
  case_bool_decide; case_decide; done || congruence.
Qed.

Lemma mismatchRanges_none ms k : k ∉ mismatchKeys ms → mismatchRanges ms k = [].
Proof.
  intros Hk. unfold mismatchRanges. rewrite list_filter_none; [done|]. intros m Hm.
  destruct (mismatched m) eqn:E; [|done]. apply bool_decide_eq_false. intros <-. apply Hk, elem_of_uniq.
  apply list_elem_of_In, in_map, filter_In. split; [|done]. by apply list_elem_of_In.
Qed.

Lemma mismatchKeys_snoc ms m :
  mismatchKeys (ms ++ [m]) =
  if mismatched m then if decide (mismatchKey m ∈ mismatchKeys ms) then mismatchKeys ms else mismatchKeys ms ++ [mismatchKey m]
  else mismatchKeys ms.
Proof.
  unfold mismatchKeys. rewrite filter_snoc, map_app. destruct (mismatched m); [|by rewrite app_nil_r].
  cbn [map]. rewrite uniq_snoc. do 2 case_decide; try done; exfalso; rewrite elem_of_uniq in *; done.
Qed.

Lemma groups_spec ms : getInsertValueMismatchGroups ms = groupsOf (mismatchRanges ms) (mismatchKeys ms).
Proof.
  induction ms as [|m ms IH] using rev_ind; [done|]. unfold getInsertValueMismatchGroups in *. rewrite fold_left_app, IH.
  cbn [fold_left]. unfold addMismatch. rewrite mismatchKeys_snoc. destruct (mismatched m) eqn:E.
  - rewrite addRange_groups by apply NoDup_uniq. fold (mismatchKey m). destruct (decide _) as [Hin|Hin].
    + apply groupsOf_ext. intros k _. by rewrite mismatchRanges_snoc, E.
    + unfold groupsOf at 2. rewrite map_app. f_equal.
      * apply groupsOf_ext. intros k Hk. rewrite mismatchRanges_snoc, E, decide_False, app_nil_r; [done|]. by intros ->.
      * cbn [map fst snd mismatchKey]. by rewrite mismatchRanges_snoc, E, decide_True, mismatchRanges_none.
  - apply groupsOf_ext. intros k _. by rewrite mismatchRanges_snoc, E, app_nil_r.
Qed.

Lemma columnsOf_snoc ms m row :
  columnsOf (ms ++ [m]) row =
  Nat.add (columnsOf ms row) (if (rowIndex m =? row) && (isStatus MATCHED m || isStatus UNMAPPED_COLUMN m) then 1 else 0).
Proof. unfold columnsOf. rewrite filter_snoc, length_app. by case_match. Qed.

Lemma valuesOf_snoc ms m row :
  valuesOf (ms ++ [m]) row =
  Nat.add (valuesOf ms row) (if (rowIndex m =? row) && (isStatus MATCHED m || isStatus UNMAPPED_VALUE m) then 1 else 0).
Proof. unfold valuesOf. rewrite filter_snoc, length_app. by case_match. Qed.

(** The count of a row without entry is zero. *)
Lemma counts_default ms row :
  default (mkCount 0 0) (getInsertRowValueCounts ms !! row) = mkCount (columnsOf ms row) (valuesOf ms row).
Proof.
  unfold getInsertRowValueCounts. induction ms as [|m ms IH] using rev_ind; [done|].
  rewrite fold_left_app, columnsOf_snoc, valuesOf_snoc. cbn [fold_left]. unfold countMapping at 1.
  destruct (Z.eqb_spec (rowIndex m) row) as [<-|Hne]; cbn [andb].
  - rewrite lookup_insert_eq. cbn [from_option]. by rewrite IH.
  - rewrite lookup_insert_ne by done. by rewrite IH, !Nat.add_0_r.
Qed.

Lemma counts_some ms m : m ∈ ms → is_Some (getInsertRowValueCounts ms !! rowIndex m).
Proof.
  unfold getInsertRowValueCounts. induction ms as [|x ms IH] using rev_ind; [by intros ?%not_elem_of_nil|].
  rewrite fold_left_app. cbn [fold_left]. unfold countMapping at 1.
  intros [Hm| ->%list_elem_of_singleton]%elem_of_app; [|by rewrite lookup_insert_eq].
  destruct (decide (rowIndex x = rowIndex m)) as [->|Hne]; [by rewrite lookup_insert_eq|]. rewrite lookup_insert_ne by done. auto.
Qed.

Lemma counts_spec ms m :
  m ∈ ms → getInsertRowValueCounts ms !! rowIndex m = Some (mkCount (columnsOf ms (rowIndex m)) (valuesOf ms (rowIndex m))).
Proof. intros Hm. rewrite <-counts_default. by destruct (counts_some ms m Hm) as [c ->]. Qed.

Lemma mismatchKeys_elem ms k : k ∈ mismatchKeys ms → ∃ m, m ∈ ms ∧ mismatched m = true ∧ mismatchKey m = k.
Proof.
  unfold mismatchKeys. rewrite elem_of_uniq. intros (m & <- & Hm)%list_elem_of_In%List.in_map_iff.
  apply filter_In in Hm as [Hm E]. exists m. split_and!; [by apply list_elem_of_In|done|done].
Qed.

(** All ranges of a group are valid, and there is one at least. *)
Lemma mismatchRanges_valid ms k : List.filter hasValidRange (mismatchRanges ms k) = mismatchRanges ms k.
Proof.
  unfold mismatchRanges. induction ms as [|m ms IH]; [done|]. cbn [List.filter].
  destruct (mismatched m) eqn:E; cbn [andb]; [|done]. case_bool_decide; [|done].
  cbn [map List.filter]. apply andb_true_iff in E as [_ ->]. by rewrite IH.
Qed.

Lemma mismatchRanges_elem ms m : m ∈ ms → mismatched m = true → mismatchRange m ∈ mismatchRanges ms (mismatchKey m).
Proof.
  intros Hm E. apply list_elem_of_In, in_map, filter_In. split; [by apply list_elem_of_In|].
  by rewrite E, bool_decide_eq_true_2.
Qed.

Lemma mergeRanges_group ms k :
  k ∈ mismatchKeys ms → ∃ h, mergeRanges (mismatchRanges ms k) = Some h ∧ isHull (mismatchRanges ms k) h.
Proof.
  intros (m & Hm & E & <-)%mismatchKeys_elem. pose proof (mergeRanges_spec (mismatchRanges ms (mismatchKey m))) as H.
  rewrite mismatchRanges_valid in H. destruct (mergeRanges _) as [h|]; [by exists h|].
  specialize (H _ (mismatchRanges_elem ms m Hm E)). apply andb_true_iff in E as [_ E]. congruence.
Qed.

(** What a mark of a row says of it. *)
Definition marksRow (getMessage : option nat → option nat → jstr) (k : SqlStatement * (Z * InsertValueMappingStatusEnum))
    (mark : MarkMessage) : Prop :=
  let ms := insertValueMappings k.1 in
  isHull (mismatchRanges ms k.2) (markRange mark) ∧
  message mark = getMessage (Some (columnsOf ms k.2.1)) (Some (valuesOf ms k.2.1)).

Definition mismatchRows (st : SqlStatement) : list (SqlStatement * (Z * InsertValueMappingStatusEnum)) :=
  if isInsert st then map (pair st) (mismatchKeys (insertValueMappings st)) else [].

(** The marks of a text are, in order, one for every row of an insert
    statement that has columns without value and one for every row that has
    values without column.  The mark covers exactly the columns, or the values,
    that have no partner - the smallest range around them -, and its message is
    given the number of columns and of values of that row. *)
Theorem mismatch_markers statementList getMessage :
  Forall2 (marksRow getMessage) (statementList ≫= mismatchRows) (getInsertValueMismatchMarkersWithMessage statementList getMessage).
Proof.
  unfold getInsertValueMismatchMarkersWithMessage. induction statementList as [|st sts IH]; [constructor|].
  apply Forall2_app; [|exact IH]. unfold mismatchRows. destruct (isInsert st); [|constructor]. cbn [negb].
  rewrite groups_spec. set (ms := insertValueMappings st).
  assert (Hks : ∀ k, k ∈ mismatchKeys ms → k ∈ mismatchKeys ms) by done. revert Hks.
  generalize (mismatchKeys ms) at 1 3 4. intros ks. induction ks as [|k ks IHks]; intros Hks; [constructor|].
  destruct (mergeRanges_group ms k) as (h & Eh & Hh); [apply Hks, elem_of_cons; by left|].
  destruct (mismatchKeys_elem ms k) as (m & Hm & _ & <-); [apply Hks, elem_of_cons; by left|].
  cbn [map groupsOf omap list_omap]. unfold getInsertValueMismatchMarker. cbn [ranges groupRowIndex fst]. rewrite Eh.
  cbn [fmap option_fmap option_map mismatchKey fst]. rewrite (counts_spec ms m Hm).
  constructor; [done|]. apply IHks. intros k' ?. apply Hks, elem_of_cons. by right.
Qed.

(** ** The hints at the cursor *)

Lemma hintItem_spec st current get m item :
  getInsertValueHintItem st current get m = Some item →
  itemRowIndex item = rowIndex m ∧ itemColumnIndex item = columnIndex m ∧ range item = getColumnRange m ∧
  hasValidRange (range item) = true ∧ active item = (columnIndex m =? columnIndex current).
Proof.
  unfold getInsertValueHintItem. destruct (hasValidRange (getColumnRange m)) eqn:E; [|done]. cbn [negb orb].
  destruct (isStatus UNMAPPED_VALUE m); [done|]. by destruct (getColumnName _ _ _); intros [= <-].
Qed.

Lemma omap_sorted {A B} (f : A → option B) (R : A → A → Prop) (S : B → B → Prop) xs :
  (∀ x x' y y', f x = Some y → f x' = Some y' → R x x' → S y y') → StronglySorted R xs → StronglySorted S (omap f xs).
Proof.
  intros H. induction 1 as [|x xs _ IH Hall]; [constructor|]. cbn. destruct (f x) as [y|] eqn:E; [|done].
  constructor; [done|]. apply Forall_forall. intros y' (x' & Hx' & E')%list_elem_of_omap.
  rewrite Forall_forall in Hall. eauto.
Qed.

#[local] Instance columnsInOrder_preorder : Preorder columnsInOrder.
Proof. unfold columnsInOrder. split; intros *; rewrite !Z.leb_le; lia. Qed.

Lemma current_in ms cursor m : getCurrentInsertValueMapping ms cursor = Some m → m ∈ ms.
Proof.
  unfold getCurrentInsertValueMapping. intros H.
  assert (Hf : ∀ x, x ∈ List.filter (λ m, hasValidRange (getValueRange m)) ms → x ∈ ms).
  { intros x. rewrite !list_elem_of_In. by intros [? _]%filter_In. }
  destruct (js_find (valueHas cursor) ms) eqn:E1; [apply js_find_Some in E1; naive_solver|].
  destruct (js_find (isStatus UNMAPPED_COLUMN) ms) eqn:E2; [apply js_find_Some in E2; naive_solver|].
  destruct (last _) eqn:E3; [|by apply js_find_Some in H as [? _]].
  injection H as <-. apply Hf. destruct (js_find _ (List.filter _ _)) eqn:E4; [by apply js_find_Some in E4 as [? _]|].
  cbn. by apply last_Some_elem_of.
Qed.

Lemma current_value ms cursor m m' :
  getCurrentInsertValueMapping ms cursor = Some m → m' ∈ ms → valueHas cursor m' = true → valueHas cursor m = true.
Proof.
  unfold getCurrentInsertValueMapping. intros H Hin Hm'. destruct (js_find_is_Some _ _ _ Hin Hm') as [x E].
  rewrite E in H. injection H as <-. by apply js_find_Some in E as [_ ?].
Qed.

(** The hints shown at the cursor are those of a row of values the cursor
    is in: the named columns of that row in the order of the columns.  One of
    them is marked, and the marked ones are those of the current column; its name
    and type are shown.  When a value of the row has the cursor, the
    current value is one that has it. *)
Theorem insert_hints_at_cursor st cursor get c :
  getInsertValueHintContext (Some st) (Some cursor) get = Some c →
  isInsert st = true ∧ hasValidRange (rowRange c) = true ∧ isPositionInRange cursor (rowRange c) = true ∧
  StronglySorted (λ a b, itemColumnIndex a ≤ itemColumnIndex b) (hints c) ∧
  (∀ i, i ∈ hints c → itemRowIndex i = contextRowIndex c ∧ hasValidRange (range i) = true ∧
                      (active i = true ↔ itemColumnIndex i = contextColumnIndex c)) ∧
  (∃ i, i ∈ hints c ∧ active i = true ∧ fieldName c = itemFieldName i ∧ fieldType c = itemFieldType i) ∧
  (∀ m, m ∈ insertValueMappings st → rowIndex m = contextRowIndex c → valueHas cursor m = true →
        ∃ r, valueRange c = Some r ∧ isPositionInRange cursor r = true).
Proof.
  unfold getInsertValueHintContext. cbn [mbind option_bind]. destruct (isInsert st); [|done]. cbn [negb].
  destruct (js_find _ _) as [rowM|] eqn:Erow; [|done]. cbn [mbind option_bind].
  set (rows := stable_sort _ _). destruct (getCurrentInsertValueMapping rows cursor) as [cur|] eqn:Ecur; [|done].
  cbn [mbind option_bind]. destruct (isStatus UNMAPPED_VALUE cur); [done|].
  destruct (js_find _ (omap _ _)) as [hint|] eqn:Ehint; [|done]. cbn [mbind option_bind]. intros [= <-].
  apply js_find_Some in Erow as [_ Erow]. apply andb_true_iff in Erow as [Hvalid Hin].
  assert (Hrows : ∀ m, m ∈ rows ↔ m ∈ insertValueMappings st ∧ rowIndex m = rowIndex rowM).
  { intros m. subst rows. rewrite stable_sort_perm. by rewrite !list_elem_of_In, filter_In, Z.eqb_eq. }
  assert (Hcur : rowIndex cur = rowIndex rowM) by (by apply Hrows, (current_in _ cursor)).
  apply js_find_Some in Ehint as [Hhint Ehint]. apply Z.eqb_eq in Ehint.
  assert (Hitems : ∀ i, i ∈ omap (getInsertValueHintItem st cur get) rows →
    itemRowIndex i = rowIndex cur ∧ hasValidRange (range i) = true ∧ (active i = true ↔ itemColumnIndex i = columnIndex cur)).
  { intros i (m & Hm & E)%list_elem_of_omap. apply Hrows in Hm as [_ Hm].
    apply hintItem_spec in E as (-> & -> & -> & ? & ->). rewrite Z.eqb_eq. by rewrite Hm, Hcur. }
  cbn [rowRange hints contextRowIndex contextColumnIndex fieldName fieldType valueRange]. split_and!; try done.
  - apply (omap_sorted _ (λ a b, columnsInOrder a b = true)).
    + intros x x' y y' Hy Hy' Hle%Z.leb_le. apply hintItem_spec in Hy as (_ & -> & _), Hy' as (_ & -> & _). done.
    + apply stable_sort_sorted, _.
  - exists hint. split_and!; [done| |done..]. by apply Hitems.
  - intros m Hm Hr Hv. assert (Hc : valueHas cursor cur = true).
    { eapply current_value; [done| |done]. apply Hrows. by rewrite Hr. }
    apply andb_true_iff in Hc as [-> Hc]. by eexists.
Qed.

(** [insert into t (a, b) values (1, 2)], all on line 1. *)
Definition demoMapping (i vc : Z) : SimpleInsertValueMapping :=
  mkMapping (Some 1) (Some (16 + 3 * i)) (Some 1) (Some (17 + 3 * i)) (Some 1) (Some vc) (Some 1) (Some (vc + 1))
    (Some 1) (Some 29) (Some 1) (Some 35) 0 i MATCHED.
Definition demoStatement : SqlStatement :=
  mkSqlStatement (js "insert into t (a, b) values (1, 2)") 1 1 true [[mkColumn (js "B") (js "int")]] [demoMapping 1 33; demoMapping 0 30].

Lemma insert_hints_at_cursor_witness :
  ∃ c, getInsertValueHintContext (Some demoStatement) (Some (mkPosition 1 33)) None = Some c ∧
       fieldName c = js "b" ∧ fieldType c = Some (js "int") ∧ map label (hints c) = [js "a"; js "b:int"] ∧
       ∃ i, i ∈ hints c ∧ active i = true ∧ fieldName c = itemFieldName i ∧ fieldType c = itemFieldType i.
Proof.
  eexists. split; [vm_compute; reflexivity|]. split_and!; [reflexivity..|].
  apply (insert_hints_at_cursor demoStatement (mkPosition 1 33) None). reflexivity.
Defined.
