(* ===== verification/RoutineHints.v ===== *)
(** * RoutineHints: the parameters of a routine call

    Models [components/SQLEditor/helper/routineParameterHint.ts]: the parameters a
    routine declares, read from the detail of its completion, and the arguments of
    the call around the cursor, read from the line.  The loops over characters
    recurse on the rest of the line with the index of its first character; [skip]
    tells that the loop has stepped over the next character ([index += 1]). *)

From S2P Require Import Prelude SqlText SqlValuesRow StableSort TextRanges InsertValueHints.
Local Open Scope nat_scope.

(** ** Data *)

Inductive TIP_TYPE :=
  | TIP_SNIPPET | TIP_KEYWORD | TIP_FUNCTION | TIP_TYPE_ | TIP_DATABASE | TIP_SCHEMA | TIP_TABLE | TIP_COLUMN | TIP_VIEW
  | TIP_PROCEDURE | TIP_TRIGGER | TIP_EVENT | TIP_PARAMETER | TIP_VARIABLE | TIP_ALIAS | TIP_JOIN_CLAUSE | TIP_ALL_COLUMN.

Record RoutineParameterHintPayload := mkPayload {
  routineName : option jstr;
  routineType : option TIP_TYPE;
  detail : option jstr;
  insertText : option jstr;
}.

Record RoutineParameterHintItem := mkRoutineItem {
  parameterIndex : Z;
  parameterName : jstr;
  parameterType : option jstr;
  parameterLabel : jstr;
  parameterRange : TextRange;
  parameterActive : bool;
}.

Record RoutineParameterHintContext := mkRoutineContext {
  contextRoutineName : option jstr;
  contextRoutineType : option TIP_TYPE;
  routineHints : list RoutineParameterHintItem;
  anchorRange : TextRange;
}.

Record ParsedRoutineParameter := mkParameter { parsedName : jstr; parsedType : option jstr }.

#[export] Instance ParsedRoutineParameter_eq_dec : EqDecision ParsedRoutineParameter.
Proof. solve_decision. Defined.

(** ** Scanning a line *)

(** The quotes are code units 39, 34 and 96. *)
Definition isQuote (c : N) : bool := ((c =? 39) || (c =? 34) || (c =? 96))%N.

(** Inside a quote: what follows [c], and whether the next character is skipped. *)
Definition quoteStep (q c : N) (rest : jstr) : option N * bool :=
  if (c =? 92)%N then (Some q, true)
  else if (c =? q)%N then (if bool_decide (head rest = Some q) then (Some q, true) else (None, false))
  else (Some q, false).

(** The loop of [findMatchingParenthesis]; [None] is [-1]. *)
Fixpoint findMatchingFrom (index depth : nat) (quote : option N) (skip : bool) (text : jstr) : option nat :=
  match text with
  | [] => None
  | c :: rest =>
      if skip then findMatchingFrom (S index) depth quote false rest
      else
        match quote with
        | Some q => let '(quote, skip) := quoteStep q c rest in findMatchingFrom (S index) depth quote skip rest
        | None =>
            if isQuote c then findMatchingFrom (S index) depth (Some c) false rest
            else if (c =? LPAREN)%N then findMatchingFrom (S index) (S depth) None false rest
            else if (c =? RPAREN)%N then (if depth =? 1 then Some index else findMatchingFrom (S index) (depth - 1) None false rest)
            else findMatchingFrom (S index) depth None false rest
        end
  end.

(** [text[openIndex]] is an opening parenthesis where this is called, so the
    depth is positive after the first character. *)
Definition findMatchingParenthesis (text : jstr) (openIndex : nat) : option nat :=
  findMatchingFrom openIndex 0 None false (drop openIndex text).

(** The loop of [splitTopLevel]: the indices [onSplit] is called with. *)
Fixpoint topLevelCommas (index endIndex depth : nat) (quote : option N) (skip : bool) (text : jstr) : list nat :=
  match text with
  | [] => []
  | c :: rest =>
      if endIndex <=? index then []
      else if skip then topLevelCommas (S index) endIndex depth quote false rest
      else
        match quote with
        | Some q => let '(quote, skip) := quoteStep q c rest in topLevelCommas (S index) endIndex depth quote skip rest
        | None =>
            if isQuote c then topLevelCommas (S index) endIndex depth (Some c) false rest
            else if (c =? LPAREN)%N || (c =? LBRACKET)%N then topLevelCommas (S index) endIndex (S depth) None false rest
            else if (c =? RPAREN)%N || (c =? RBRACKET)%N then topLevelCommas (S index) endIndex (depth - 1) None false rest
            else if (c =? COMMA)%N && (depth =? 0) then index :: topLevelCommas (S index) endIndex depth None false rest
            else topLevelCommas (S index) endIndex depth None false rest
        end
  end.

(** The segments between the splits. *)
Fixpoint segmentsAt (segmentStart endIndex : nat) (splits : list nat) : list (nat * nat) :=
  match splits with
  | [] => [(segmentStart, endIndex)]
  | splitIndex :: splits => (segmentStart, splitIndex) :: segmentsAt (S splitIndex) endIndex splits
  end.

Definition splitTopLevel (text : jstr) (startIndex endIndex : nat) : list jstr :=
  map (λ s, take (s.2 - s.1) (drop s.1 text))
    (segmentsAt startIndex endIndex (topLevelCommas startIndex endIndex 0 None false (drop startIndex text))).

(** The loops are those of [trimOffsetRange]. *)
Definition trimTextRange (text : jstr) (startIndex endIndex : nat) : OffsetRange := trimOffsetRange text startIndex endIndex.

Definition splitTopLevelRanges (text : jstr) (startIndex endIndex : nat) : list OffsetRange :=
  List.filter (λ r, start r <=? end_ r)
    (map (λ s, trimTextRange text s.1 s.2)
       (segmentsAt startIndex endIndex (topLevelCommas startIndex endIndex 0 None false (drop startIndex text)))).

(** ** The declared parameters *)

Definition stripOuterParentheses (text : jstr) : jstr :=
  if negb (startsWithChar LPAREN text) || negb (endsWithChar RPAREN text) then text
  else if bool_decide (findMatchingParenthesis text 0 = Some (length text - 1))
  then trim (drop 1 (take (length text - 1) text)) else text.

(** [text.split(/\s+/)]; [gap] tells that the last character was a space. *)
Fixpoint splitSpaces (gap : bool) (text : jstr) : list jstr :=
  match text with
  | [] => [[]]
  | c :: rest =>
      if is_space c then (if gap then splitSpaces true rest else [] :: splitSpaces true rest)
      else match splitSpaces false rest with p :: ps => (c :: p) :: ps | [] => [[c]] end
  end.

Definition parseRoutineParameterSegment (segment : jstr) : option ParsedRoutineParameter :=
  match trim segment with
  | [] => None
  | trimmedSegment =>
      match indexOf (ch ":") trimmedSegment with
      | Some colonIndex =>
          match trim (take colonIndex trimmedSegment) with
          | [] => None
          | name => Some (mkParameter name (nonEmpty (trim (drop (colonIndex + 1) trimmedSegment))))
          end
      | None =>
          match splitSpaces false trimmedSegment with
          | [] | [] :: _ => None
          | name :: typeParts => Some (mkParameter name (nonEmpty (join [32%N] typeParts)))
          end
      end
  end.

(** [(detail || '').trim()]. *)
Definition parseRoutineParameterDetail (detail : option jstr) : list ParsedRoutineParameter :=
  match stripOuterParentheses (trim (default [] detail)) with
  | [] => []
  | normalizedDetail => omap parseRoutineParameterSegment (splitTopLevel normalizedDetail 0 (length normalizedDetail))
  end.

(** Of a value that is an object. *)
Definition isRoutineParameterHintPayload (payload : RoutineParameterHintPayload) : bool :=
  negb (bool_decide (parseRoutineParameterDetail (detail payload) = [])).

(** ** The call at the cursor *)

Definition stripSqlIdentifierQuote (identifier : option jstr) : jstr :=
  let trimmed := trim (default [] identifier) in
  if enclosedIn (ch "`") (ch "`") trimmed || enclosedIn 34 34 trimmed || enclosedIn 39 39 trimmed
     || enclosedIn (ch "[") (ch "]") trimmed
  then drop 1 (take (length trimmed - 1) trimmed)
  else trimmed.

Definition getLastNamePart (name : option jstr) : jstr :=
  match name with
  | None | Some [] => []
  | Some name => default [] (last (split_char (ch ".") name))
  end.

Definition getRoutineNameCandidates (routineName : option jstr) : list jstr :=
  uniq (filter (λ name, name ≠ [])
    (map trim [default [] routineName; stripSqlIdentifierQuote routineName;
               stripSqlIdentifierQuote (Some (getLastNamePart routineName))])).

(** The loop of [getNextOpenParenthesisIndex] on the characters from [index] on. *)
Fixpoint openParenthesisFrom (index : nat) (text : jstr) : option nat :=
  match text with
  | [] => None
  | c :: rest => if is_space c then openParenthesisFrom (S index) rest else if (c =? LPAREN)%N then Some index else None
  end.

Definition getNextOpenParenthesisIndex (line : jstr) (fromIndex : nat) : option nat :=
  openParenthesisFrom fromIndex (drop fromIndex line).

Record CallRange := mkCall { nameIndex : nat; openIndex : nat; closeIndex : nat }.

(** [normalizedLine.indexOf(normalizedName, fromIndex)] on the characters from
    [index] on. *)
Fixpoint indexOfFrom (name : jstr) (index : nat) (text : jstr) : option nat :=
  if startsWith name text then Some index
  else match text with [] => None | _ :: rest => indexOfFrom name (S index) rest end.

(** The call whose name is at [nameIndex], when the cursor is in it. *)
Definition callAt (line : jstr) (cursorIndex : nat) (name : jstr) (nameIndex : nat) : option CallRange :=
  openIndex ← getNextOpenParenthesisIndex line (nameIndex + length name);
  closeIndex ← findMatchingParenthesis line openIndex;
  if (openIndex <=? cursorIndex) && (cursorIndex <=? closeIndex + 1) then Some (mkCall nameIndex openIndex closeIndex) else None.

(** The loop over the occurrences of a name; the name is not empty, so each
    round moves [fromIndex] and [length line] rounds are enough. *)
Fixpoint callsOf (fuel : nat) (line : jstr) (cursorIndex : nat) (name : jstr) (fromIndex : nat) : list CallRange :=
  match fuel with
  | O => []
  | S fuel =>
      if fromIndex <? length (toLowerCase line) then
        match indexOfFrom (toLowerCase name) fromIndex (drop fromIndex (toLowerCase line)) with
        | None => []
        | Some nameIndex =>
            option_list (callAt line cursorIndex name nameIndex)
            ++ callsOf fuel line cursorIndex name (nameIndex + length (toLowerCase name))
        end
      else []
  end.

(** The loop of [getNearestCallRange]: the indices below [n], downwards. *)
Fixpoint nearestCallBelow (line : jstr) (cursorIndex n : nat) : option CallRange :=
  match n with
  | O => None
  | S index =>
      let next := nearestCallBelow line cursorIndex index in
      if bool_decide (line !! index = Some LPAREN) then
        match findMatchingParenthesis line index with
        | Some closeIndex => if cursorIndex <=? closeIndex + 1 then Some (mkCall index index closeIndex) else next
        | None => next
        end
      else next
  end.

Definition getNearestCallRange (line : jstr) (cursorIndex : nat) : option CallRange :=
  nearestCallBelow line cursorIndex (S cursorIndex `min` length line).

(** The comparator of the sort of the candidates gives no positive number. *)
Definition laterName (a b : CallRange) : bool := nameIndex b <=? nameIndex a.

Definition getRoutineCallRange (line : jstr) (cursorColumn : Z) (routineName : option jstr) : option CallRange :=
  let cursorIndex := Z.to_nat (cursorColumn - 1) in
  let routineNames := getRoutineNameCandidates routineName in
  let candidates := routineNames ≫= λ name, callsOf (length line) line cursorIndex name 0 in
  match candidates with
  | _ :: _ => head (stable_sort laterName candidates)
  | [] => match routineNames with _ :: _ => None | [] => getNearestCallRange line cursorIndex end
  end.

Definition lineRange (lineNumber : Z) (r : OffsetRange) : TextRange :=
  mkTextRange lineNumber (Z.of_nat (start r) + 1) lineNumber (Z.of_nat (end_ r) + 1).

Definition getRoutineArgumentRanges (line : jstr) (lineNumber : Z) (openIndex closeIndex : nat) : list TextRange :=
  if closeIndex <=? openIndex then [] else map (lineRange lineNumber) (splitTopLevelRanges line (openIndex + 1) closeIndex).

(** [xs.findIndex(f)]; [None] is [-1]. *)
Fixpoint findIndex {A} (f : A → bool) (xs : list A) : option nat :=
  match xs with
  | [] => None
  | x :: xs => if f x then Some 0 else S <$> findIndex f xs
  end.

Definition startsAfter (position : TextPosition) (r : TextRange) : bool := (comparePosition position (rangeStart r) <? 0)%Z.

(** The subtractions stop at [0], as [Math.max(0, ...)]. *)
Definition getActiveArgumentIndex (position : TextPosition) (argumentRanges : list TextRange) (parameterCount : nat) : nat :=
  match findIndex (isPositionInRange position) argumentRanges with
  | Some matchedIndex => matchedIndex `min` (parameterCount - 1)
  | None =>
      match findIndex (startsAfter position) argumentRanges with
      | Some nextIndex => nextIndex `min` (parameterCount - 1)
      | None => (length argumentRanges - 1) `min` (parameterCount - 1)
      end
  end.

Definition routineHintItem (argumentRanges : list TextRange) (fallbackRange : TextRange) (activeIndex index : nat)
    (parameter : ParsedRoutineParameter) : RoutineParameterHintItem :=
  mkRoutineItem (Z.of_nat index) (parsedName parameter) (parsedType parameter)
    (fieldLabel (parsedName parameter) (parsedType parameter)) (default fallbackRange (argumentRanges !! index))
    (index =? activeIndex).

Definition getRoutineParameterHintContext (payload : option RoutineParameterHintPayload) (cursorPosition : option TextPosition)
    (getLineContent : option (Z → option jstr)) : option RoutineParameterHintContext :=
  payload ← payload;
  cursor ← cursorPosition;
  match parseRoutineParameterDetail (detail payload) with
  | [] => None
  | parameters =>
      let line := match getLineContent with Some f => default [] (f (lineNumber cursor)) | None => [] end in
      let callRange := match line with [] => None | _ => getRoutineCallRange line (column cursor) (routineName payload) end in
      match line, callRange with
      | _ :: _, None => None
      | _, _ =>
          let argumentRanges :=
            match callRange with
            | Some call => getRoutineArgumentRanges line (lineNumber cursor) (openIndex call) (closeIndex call)
            | None => []
            end in
          let fallbackRange := default (collapsedRange cursor) (head argumentRanges) in
          let activeIndex := getActiveArgumentIndex cursor argumentRanges (length parameters) in
          Some (mkRoutineContext (routineName payload) (routineType payload)
            (imap (routineHintItem argumentRanges fallbackRange activeIndex) parameters)
            (default fallbackRange (argumentRanges !! activeIndex)))
      end
  end.

(** ** Hints of the engine *)

Section parser.
Context {parse : NumberParser}.

Definition routineHintItemOf (valueRange : option TextRange) (item : ISqlEditorHintItemVO) : option RoutineParameterHintItem :=
  match or_else (hintFieldName item) (hintLabel item), orRange (toTextRange (hintRange item)) valueRange with
  | [], _ | _, None => None
  | name, Some r =>
      let type := nonEmpty (hintFieldType item) in
      Some (mkRoutineItem (toFiniteNumber (hintColumnIndex item) 0) name type (or_else (hintLabel item) (fieldLabel name type)) r
        (hintActive item))
  end.

Definition routineParameterHintContextFromEditorHint (editorHint : option ISqlEditorHintVO) : option RoutineParameterHintContext :=
  editorHint ← editorHint;
  match hintType editorHint with
  | ROUTINE_PARAMETER =>
      let valueRange := toTextRange (hintValueRange editorHint) in
      let hints := omap (routineHintItemOf valueRange) (hintItems editorHint) in
      match hints with
      | [] => None
      | first :: _ =>
          let activeHint := default first (js_find parameterActive hints) in
          Some (mkRoutineContext None None hints (default (parameterRange activeHint) valueRange))
      end
  | _ => None
  end.
End parser.

(** ** Well-formed arguments *)

(** What may stand between two quotes [q]: escapes, doubled quotes and other
    characters. *)
Inductive quotedBody (q : N) : jstr → Prop :=
  | quoted_nil : quotedBody q []
  | quoted_escape c t : quotedBody q t → quotedBody q (92%N :: c :: t)
  | quoted_double t : quotedBody q t → quotedBody q (q :: q :: t)
  | quoted_char c t : c ≠ 92%N → c ≠ q → quotedBody q t → quotedBody q (c :: t).

Definition pairs (o c : N) : Prop := (o = LPAREN ∧ c = RPAREN) ∨ (o = LBRACKET ∧ c = RBRACKET).

Definition isBracket (c : N) : bool :=
  (c =? LPAREN)%N || (c =? LBRACKET)%N || (c =? RPAREN)%N || (c =? RBRACKET)%N.

(** [argument true] is an argument: its quotes are closed, its brackets are
    balanced, and its commas are inside of them; [argument false] is the text
    inside brackets. *)
Inductive argument (top : bool) : jstr → Prop :=
  | argument_nil : argument top []
  | argument_char c t :
      isQuote c = false → isBracket c = false → (top = true → c ≠ COMMA) → argument top t → argument top (c :: t)
  | argument_quoted q body t :
      isQuote q = true → quotedBody q body → head t ≠ Some q → argument top t → argument top (q :: body ++ q :: t)
  | argument_group o inner c t :
      pairs o c → argument false inner → argument top t → argument top (o :: inner ++ c :: t).

(** No quote follows. *)
Definition noQuote (k : jstr) : Prop := ∀ q, isQuote q = true → head k ≠ Some q.

Lemma noQuote_cons c k : isQuote c = false → noQuote (c :: k).
Proof. intros Hc q Hq [= ->]. congruence. Qed.

Lemma noQuote_after q t k : head t ≠ Some q → isQuote q = true → noQuote k → head (t ++ k) ≠ Some q.
Proof. intros Ht Hq Hk. destruct t; [by apply Hk|done]. Qed.

Lemma isQuote_not_escape q : isQuote q = true → (q =? 92)%N = false.
Proof. unfold isQuote. rewrite !orb_true_iff, !N.eqb_eq, N.eqb_neq. intros [[-> | ->] | ->]; done. Qed.

Lemma isBracket_false c :
  isBracket c = false → (c =? LPAREN)%N = false ∧ (c =? LBRACKET)%N = false ∧ (c =? RPAREN)%N = false ∧ (c =? RBRACKET)%N = false.
Proof. unfold isBracket. rewrite !orb_false_iff. tauto. Qed.

Lemma quoteStep_escape q rest : quoteStep q 92 rest = (Some q, true).
Proof. done. Qed.

Lemma quoteStep_double q t : (q =? 92)%N = false → quoteStep q q (q :: t) = (Some q, true).
Proof. unfold quoteStep. intros ->. by rewrite N.eqb_refl, bool_decide_eq_true_2. Qed.

Lemma quoteStep_close q t : (q =? 92)%N = false → head t ≠ Some q → quoteStep q q t = (None, false).
Proof. unfold quoteStep. intros -> H. by rewrite N.eqb_refl, bool_decide_eq_false_2. Qed.

Lemma quoteStep_char q c t : c ≠ 92%N → c ≠ q → quoteStep q c t = (Some q, false).
Proof. unfold quoteStep. by intros ->%N.eqb_neq ->%N.eqb_neq. Qed.

(** *** Matching parentheses *)

Lemma find_quoted q body :
  isQuote q = true → quotedBody q body → ∀ i d k, head k ≠ Some q →
  findMatchingFrom i d (Some q) false (body ++ q :: k) = findMatchingFrom (i + length body + 1) d None false k.
Proof.
  intros Hq. induction 1 as [|c t _ IH|t _ IH|c t H1 H2 _ IH]; intros i d k Hk; cbn [app length findMatchingFrom].
  - rewrite quoteStep_close by (done || by apply isQuote_not_escape). f_equal. lia.
  - rewrite quoteStep_escape, IH by done. f_equal. lia.
  - rewrite quoteStep_double by (by apply isQuote_not_escape). rewrite IH by done. f_equal. lia.
  - rewrite quoteStep_char, IH by done. f_equal. lia.
Qed.

Lemma find_argument top s :
  argument top s → ∀ i d k, 0 < d → noQuote k →
  findMatchingFrom i d None false (s ++ k) = findMatchingFrom (i + length s) d None false k.
Proof.
  induction 1 as [top|top c t Hq Hb _ _ IH|top q body t Hq Hbody Ht _ IH|top o inner c t Hp _ IH1 _ IH2];
    intros i d k Hd Hk.
  - cbn. f_equal. lia.
  - apply isBracket_false in Hb as (H1 & _ & H2 & _). cbn [app length findMatchingFrom]. rewrite Hq, H1, H2, IH by done. f_equal. lia.
  - cbn [app findMatchingFrom]. rewrite Hq, <-(assoc_L (++)). cbn [app].
    rewrite find_quoted by (done || by apply noQuote_after). rewrite IH by done. f_equal. cbn. rewrite length_app. cbn. lia.
  - assert (Hlen : i + length (o :: inner ++ c :: t) = S (S i + length inner) + length t) by (cbn; rewrite length_app; cbn; lia).
    rewrite Hlen. cbn [app findMatchingFrom]. rewrite <-(assoc_L (++)). cbn [app]. destruct Hp as [[-> ->]|[-> ->]]; cbn.
    + rewrite IH1 by (lia || by apply noQuote_cons). cbn. destruct d as [|d]; [lia|]. cbn. by rewrite IH2.
    + rewrite IH1 by (lia || by apply noQuote_cons). cbn. by rewrite IH2.
Qed.

Lemma findMatching_argument top pre s post :
  argument top s → findMatchingParenthesis (pre ++ LPAREN :: s ++ RPAREN :: post) (length pre) = Some (length pre + 1 + length s).
Proof.
  intros Hs. unfold findMatchingParenthesis. rewrite drop_app_length. cbn [findMatchingFrom isQuote LPAREN orb N.eqb Pos.eqb].
  rewrite (find_argument top) by (done || lia || by apply noQuote_cons). cbn. f_equal. lia.
Qed.

(** *** Top-level commas *)

Lemma commas_quoted q body :
  isQuote q = true → quotedBody q body → ∀ i e d k, i + length body + 1 ≤ e → head k ≠ Some q →
  topLevelCommas i e d (Some q) false (body ++ q :: k) = topLevelCommas (i + length body + 1) e d None false k.
Proof.
  intros Hq. induction 1 as [|c t _ IH|t _ IH|c t H1 H2 _ IH]; intros i e d k He Hk; cbn [app length topLevelCommas] in *;
    rewrite (proj2 (Nat.leb_gt _ _)) by lia.
  - rewrite quoteStep_close by (done || by apply isQuote_not_escape). f_equal. lia.
  - rewrite quoteStep_escape, (proj2 (Nat.leb_gt _ _)), IH by (done || lia). f_equal. lia.
  - rewrite quoteStep_double by (by apply isQuote_not_escape). rewrite (proj2 (Nat.leb_gt _ _)), IH by (done || lia). f_equal. lia.
  - rewrite quoteStep_char, IH by (done || lia). f_equal. lia.
Qed.

Lemma commas_argument top s :
  argument top s → ∀ i e d k, (top = false → 0 < d) → i + length s ≤ e → noQuote k →
  topLevelCommas i e d None false (s ++ k) = topLevelCommas (i + length s) e d None false k.
Proof.
  induction 1 as [top|top c t Hq Hb Hc _ IH|top q body t Hq Hbody Ht _ IH|top o inner c t Hp _ IH1 _ IH2];
    intros i e d k Hd He Hk.
  - cbn. f_equal. lia.
  - apply isBracket_false in Hb as (H1 & H2 & H3 & H4). cbn [app length topLevelCommas] in *.
    rewrite (proj2 (Nat.leb_gt _ _)) by lia. rewrite Hq, H1, H2, H3, H4. cbn [orb].
    replace ((c =? COMMA)%N && (d =? 0)) with false.
    { rewrite IH by (done || lia). f_equal. lia. }
    symmetry. apply andb_false_iff. destruct top; [left; apply N.eqb_neq; auto|right; apply Nat.eqb_neq; specialize (Hd eq_refl); lia].
  - cbn [length] in He. rewrite length_app in He. cbn [length] in He. cbn [app topLevelCommas].
    rewrite (proj2 (Nat.leb_gt _ _)) by lia. rewrite Hq, <-(assoc_L (++)). cbn [app].
    rewrite commas_quoted by (done || lia || by apply noQuote_after). rewrite IH by (done || lia). f_equal. cbn. rewrite length_app. cbn. lia.
  - assert (Hlen : i + length (o :: inner ++ c :: t) = S (S i + length inner) + length t) by (cbn; rewrite length_app; cbn; lia).
    rewrite Hlen in *. cbn [app topLevelCommas]. rewrite (proj2 (Nat.leb_gt _ _)) by lia. rewrite <-(assoc_L (++)). cbn [app].
    destruct Hp as [[-> ->]|[-> ->]]; cbn [isQuote LPAREN LBRACKET N.eqb Pos.eqb orb].
    + rewrite IH1 by (lia || by apply noQuote_cons). cbn [topLevelCommas]. rewrite (proj2 (Nat.leb_gt _ _)) by lia. cbn.
      rewrite Nat.sub_0_r. by apply IH2.
    + rewrite IH1 by (lia || by apply noQuote_cons). cbn [topLevelCommas]. rewrite (proj2 (Nat.leb_gt _ _)) by lia. cbn.
      rewrite Nat.sub_0_r. by apply IH2.
Qed.

(** *** Segments *)

(** Where the arguments written with a comma between them stand. *)
Fixpoint spansFrom (i : nat) (args : list jstr) : list (nat * nat) :=
  match args with
  | [] => []
  | arg :: args => (i, i + length arg) :: spansFrom (i + length arg + 1) args
  end.

Definition written (args : list jstr) : jstr := join [COMMA] args.

Lemma written_cons arg a args : written (arg :: a :: args) = arg ++ COMMA :: written (a :: args).
Proof. done. Qed.

Lemma commas_end e d text : topLevelCommas e e d None false text = [].
Proof. destruct text; cbn; [done|]. by rewrite Nat.leb_refl. Qed.

Lemma segments_written args : ∀ i k,
  args ≠ [] → Forall (argument true) args → noQuote k →
  let e := i + length (written args) in
  segmentsAt i e (topLevelCommas i e 0 None false (written args ++ k)) = spansFrom i args.
Proof.
  induction args as [|arg args IH]; intros i k Hne Hargs Hk; [done|].
  apply Forall_cons in Hargs as [Harg Hargs]. destruct args as [|a args].
  - cbn [written join spansFrom]. by rewrite (commas_argument true), commas_end by done.
  - rewrite written_cons, <-(assoc_L (++)). cbn [app]. set (W := written (a :: args)) in *.
    assert (He : i + length (arg ++ COMMA :: W) = i + length arg + 1 + length W) by (rewrite length_app; cbn; lia).
    cbv zeta. rewrite He. rewrite (commas_argument true) by (done || lia || by apply noQuote_cons).
    cbn [topLevelCommas]. rewrite (proj2 (Nat.leb_gt _ _)) by lia.
    cbn [isQuote COMMA LPAREN RPAREN LBRACKET RBRACKET N.eqb Pos.eqb orb andb Nat.eqb segmentsAt].
    cbn [spansFrom]. f_equal. replace (S (i + length arg)) with (i + length arg + 1) by lia. by apply IH.
Qed.

Lemma spans_bound args : ∀ i s, s ∈ spansFrom i args → i ≤ s.1 ∧ s.1 ≤ s.2.
Proof.
  induction args as [|arg args IH]; intros i s; cbn [spansFrom]; [by intros ?%not_elem_of_nil|].
  intros [-> |Hs]%elem_of_cons; cbn [fst snd]; [lia|]. apply IH in Hs. lia.
Qed.

(** Cutting the written arguments at their spans gives them back. *)
Lemma cut_spans args : ∀ pre post,
  map (λ s, take (s.2 - s.1) (drop s.1 (pre ++ written args ++ post))) (spansFrom (length pre) args) = args.
Proof.
  induction args as [|arg args IH]; intros pre post; [done|]. cbn [spansFrom map fst snd]. f_equal.
  - rewrite drop_app_length. replace (length pre + length arg - length pre) with (length arg) by lia.
    destruct args as [|a args]; [|rewrite written_cons, <-(assoc_L (++))]; apply take_app_length.
  - destruct args as [|a args]; [done|]. rewrite written_cons.
    specialize (IH (pre ++ arg ++ [COMMA]) post). rewrite <-IH at 2.
    replace (length (pre ++ arg ++ [COMMA])) with (length pre + length arg + 1) by (rewrite !length_app; cbn; lia).
    apply map_ext. intros s. by rewrite <-!(assoc_L (++)).
Qed.

Lemma splitTopLevel_written args :
  args ≠ [] → Forall (argument true) args → splitTopLevel (written args) 0 (length (written args)) = args.
Proof.
  intros Hne Hargs. unfold splitTopLevel. rewrite drop_0.
  pose proof (segments_written args 0 [] Hne Hargs) as H. rewrite app_nil_r in H. cbn [Nat.add] in H. rewrite H by (by intros ?).
  pose proof (cut_spans args [] []) as Hc. by rewrite app_nil_r in Hc.
Qed.

(** *** Ranges of the arguments *)

Lemma argument_inside top s : argument top s → argument false s.
Proof.
  induction 1; [apply argument_nil|apply argument_char|apply argument_quoted|apply argument_group]; done.
Qed.

Lemma argument_app top s t : argument top s → argument top t → noQuote t → argument top (s ++ t).
Proof.
  intros Hs Ht Hq. induction Hs as [top|top c s ??? _ IH|top q body s ??? _ IH|top o inner c s ? Hi _ _ IH]; cbn; [done| | |].
  - apply argument_char; auto.
  - rewrite <-(assoc_L (++)). cbn. apply argument_quoted; [done..|by apply noQuote_after|auto].
  - rewrite <-(assoc_L (++)). cbn. apply argument_group; auto.
Qed.

Lemma argument_written args : Forall (argument true) args → argument false (written args).
Proof.
  induction 1 as [|arg args Harg _ IH]; [constructor|]. apply argument_inside in Harg.
  destruct args as [|a args]; [done|]. rewrite written_cons. apply argument_app; [done| |by apply noQuote_cons].
  by apply argument_char.
Qed.

(** [r] is a range of line [n] inside the span of an argument, and its text is
    the trimmed argument. *)
Definition covers (line : jstr) (n : Z) (a : (nat * nat) * jstr) (r : TextRange) : Prop :=
  ∃ o, r = lineRange n o ∧ a.1.1 ≤ start o ∧ start o ≤ end_ o ∧ end_ o ≤ a.1.2 ∧ substring line o = trim a.2.

Lemma trimmed_spans n args : ∀ pre post,
  let line := pre ++ written args ++ post in
  let trimmed := map (λ s, trimTextRange line s.1 s.2) (spansFrom (length pre) args) in
  List.filter (λ r, start r <=? end_ r) trimmed = trimmed ∧
  Forall2 (covers line n) (zip (spansFrom (length pre) args) args) (map (lineRange n) trimmed).
Proof.
  induction args as [|arg args IH]; intros pre post; [by split; [|constructor]|].
  assert (Hline : ∃ rest, pre ++ written (arg :: args) ++ post = pre ++ arg ++ rest ∧
    (args ≠ [] → pre ++ arg ++ rest = (pre ++ arg ++ [COMMA]) ++ written args ++ post)).
  { destruct args as [|a args]; [by exists post|]. exists (COMMA :: written (a :: args) ++ post).
    rewrite written_cons. split; [|intros _]; by rewrite <-!(assoc_L (++)). }
  destruct Hline as (rest & Hline & Hrest). cbv zeta. rewrite Hline. cbn [spansFrom map zip_with List.filter fst snd].
  destruct (trimOffsetRange_spec pre arg rest) as (Hsub & H1 & H2 & H3).
  change (trimOffsetRange _ _ _) with (trimTextRange (pre ++ arg ++ rest) (length pre) (length pre + length arg)) in *.
  rewrite (proj2 (Nat.leb_le _ _)) by done.
  assert (Htail : List.filter (λ r, start r <=? end_ r)
      (map (λ s, trimTextRange (pre ++ arg ++ rest) s.1 s.2) (spansFrom (length pre + length arg + 1) args))
      = map (λ s, trimTextRange (pre ++ arg ++ rest) s.1 s.2) (spansFrom (length pre + length arg + 1) args) ∧
    Forall2 (covers (pre ++ arg ++ rest) n) (zip (spansFrom (length pre + length arg + 1) args) args)
      (map (lineRange n) (map (λ s, trimTextRange (pre ++ arg ++ rest) s.1 s.2) (spansFrom (length pre + length arg + 1) args)))).
  { destruct args as [|a args]; [by split; [|constructor]|]. rewrite Hrest by done.
    replace (length pre + length arg + 1) with (length (pre ++ arg ++ [COMMA])) by (rewrite !length_app; cbn; lia). apply IH. }
  destruct Htail as [-> Htail]. split; [done|]. constructor; [|exact Htail]. eexists. by split_and!.
Qed.

Lemma spans_sorted args : ∀ i, StronglySorted (λ s s', s.2 < s'.1) (spansFrom i args).
Proof.
  induction args as [|arg args IH]; intros i; constructor; [apply IH|]. apply Forall_forall. intros s Hs.
  apply spans_bound in Hs as [Hs _]. cbn [snd]. lia.
Qed.

Lemma sorted_lookup {A} (R : A → A → Prop) xs : StronglySorted R xs →
  ∀ i j x y, i < j → xs !! i = Some x → xs !! j = Some y → R x y.
Proof.
  induction 1 as [|z xs _ IH Hall]; intros i j x y Hij Hi Hj; [done|]. destruct j as [|j]; [lia|]. destruct i as [|i].
  - injection Hi as <-. rewrite Forall_forall in Hall. apply Hall. by eapply list_elem_of_lookup_2.
  - by apply (IH i j); [lia|..].
Qed.

Lemma findIndex_first {A} (f : A → bool) xs : ∀ i x,
  xs !! i = Some x → f x = true → (∀ j y, j < i → xs !! j = Some y → f y = false) → findIndex f xs = Some i.
Proof.
  induction xs as [|z xs IH]; intros i x Hi Hx Hbefore; [done|]. cbn. destruct i as [|i].
  - injection Hi as ->. by rewrite Hx.
  - rewrite (Hbefore 0 z) by (done || lia). rewrite (IH i x); [done..|]. intros j y Hj Hy. apply (Hbefore (S j)); [lia|done].
Qed.

Lemma covers_separated line n a a' r r' p :
  covers line n a r → covers line n a' r' → a.1.2 < a'.1.1 → isPositionInRange p r' = true → isPositionInRange p r = false.
Proof.
  intros (o & -> & _ & _ & He & _) (o' & -> & Hs & _) Hlt Hp. destruct (isPositionInRange p (lineRange n o)) eqn:E; [|done].
  unfold lineRange in *. solve_positions.
Qed.

(** In a line where a parenthesis opens after [pre] and arguments stand
    between it and the next closing one - quotes closed, brackets balanced -,
    the parenthesis that closes the call is found, whatever the line holds
    elsewhere; there is one range per argument, in order, which lies inside that
    argument and holds its trimmed text; and the active argument of a position in
    the range of the [i]-th one is the [i]-th parameter, or the last one when
    there are fewer. *)
Theorem routine_arguments pre args post n :
  args ≠ [] → Forall (argument true) args →
  let line := pre ++ LPAREN :: written args ++ RPAREN :: post in
  let close := length pre + 1 + length (written args) in
  let ranges := getRoutineArgumentRanges line n (length pre) close in
  findMatchingParenthesis line (length pre) = Some close ∧
  Forall2 (covers line n) (zip (spansFrom (length pre + 1) args) args) ranges ∧
  ∀ i r p count, ranges !! i = Some r → isPositionInRange p r = true →
    getActiveArgumentIndex p ranges count = i `min` (count - 1).
Proof.
  intros Hne Hargs line close ranges.
  assert (Hranges : Forall2 (covers line n) (zip (spansFrom (length pre + 1) args) args) ranges).
  { subst ranges close. unfold getRoutineArgumentRanges, splitTopLevelRanges. rewrite (proj2 (Nat.leb_gt _ _)) by lia.
    assert (Hl : line = (pre ++ [LPAREN]) ++ written args ++ RPAREN :: post) by (subst line; by rewrite <-(assoc_L (++))).
    replace (length pre + 1) with (length (pre ++ [LPAREN])) by (rewrite length_app; done).
    rewrite Hl, drop_app_length, segments_written by (done || by apply noQuote_cons).
    destruct (trimmed_spans n args (pre ++ [LPAREN]) (RPAREN :: post)) as [-> H]. exact H. }
  split_and!; [|done|].
  - apply (findMatching_argument false). by apply argument_written.
  - intros i r p count Hi Hp. unfold getActiveArgumentIndex. rewrite (findIndex_first _ _ i r); [done..|].
    intros j r' Hj Hr'. destruct (Forall2_lookup_r _ _ _ _ _ Hranges Hi) as (a & Ha & Hc).
    destruct (Forall2_lookup_r _ _ _ _ _ Hranges Hr') as (a' & Ha' & Hc'). apply (covers_separated line n a' a r' r p Hc' Hc); [|done].
    rewrite lookup_zip_with in Ha, Ha'. simplify_option_eq. by eapply (sorted_lookup _ _ (spans_sorted _ _)).
Qed.

Ltac plain_characters := repeat (apply argument_char; [reflexivity|reflexivity|discriminate|]); try apply argument_nil.

(** [f(a, 'x,(', g(1,2))]. *)
Definition demoArguments : list jstr := [js "a"; js " 'x,('"; js " g(1,2)"].

Lemma demoArguments_ok : Forall (argument true) demoArguments.
Proof.
  repeat apply Forall_cons_2; [| | |apply Forall_nil_2].
  - plain_characters.
  - apply argument_char; [reflexivity|reflexivity|discriminate|].
    apply (argument_quoted true 39 (js "x,(") []); [reflexivity| |discriminate|plain_characters].
    repeat (apply quoted_char; [discriminate|discriminate|]). apply quoted_nil.
  - do 2 (apply argument_char; [reflexivity|reflexivity|discriminate|]).
    apply (argument_group true LPAREN (js "1,2") RPAREN []); [by left|plain_characters|plain_characters].
Qed.

Lemma routine_arguments_witness :
  demoArguments ≠ [] ∧ Forall (argument true) demoArguments ∧
  getRoutineArgumentRanges (js "x = f(a, 'x,(', g(1,2)) + 1") 7 5 22
  = [mkTextRange 7 7 7 8; mkTextRange 7 10 7 15; mkTextRange 7 17 7 23] ∧
  findMatchingParenthesis (js "x = f" ++ LPAREN :: written demoArguments ++ RPAREN :: js " + 1") 5 = Some 22.
Proof.
  split; [discriminate|]. split; [exact demoArguments_ok|]. split; [vm_compute; reflexivity|].
  apply (routine_arguments (js "x = f") demoArguments (js " + 1") 7); [discriminate|exact demoArguments_ok].
Defined.

(** ** The declared parameters *)

Definition showParameter (p : ParsedRoutineParameter) : jstr :=
  match parsedType p with Some t => parsedName p ++ ch ":" :: t | None => parsedName p end.

Definition showDetail (ps : list ParsedRoutineParameter) : jstr :=
  LPAREN :: join (COMMA :: [32%N]) (map showParameter ps) ++ [RPAREN].

(** Names and types that the parser can tell apart: a type may hold commas in
    brackets, as [numeric(10, 2)]. *)
Definition parameterOk (p : ParsedRoutineParameter) : Prop :=
  solid (parsedName p) ∧ argument true (parsedName p) ∧ ch ":" ∉ parsedName p ∧
  match parsedType p with
  | Some t => solid t ∧ argument true t
  | None => Forall (λ c, is_space c = false) (parsedName p)
  end.

Lemma solid_app s t u : solid s → solid u → solid (s ++ t ++ u).
Proof.
  intros [(c & s' & -> & Hc) _] [_ (u' & d & -> & Hd)]. split.
  - by exists c, (s' ++ t ++ u' ++ [d]).
  - exists (c :: s' ++ t ++ u'), d. cbn. by rewrite <-!(assoc_L (++)).
Qed.

Lemma solid_not_nil t : solid t → t ≠ [].
Proof. by intros [(c & t' & -> & _) _]. Qed.

Lemma solid_nonEmpty t : solid t → nonEmpty t = Some t.
Proof. by intros [(c & t' & -> & _) _]. Qed.

Lemma splitSpaces_solid t : t ≠ [] → Forall (λ c, is_space c = false) t → splitSpaces false t = [t].
Proof.
  intros _. induction 1 as [|c t Hc _ IH]; [done|]. cbn. by rewrite Hc, IH.
Qed.

Lemma show_solid p : parameterOk p → solid (showParameter p).
Proof.
  intros (Hn & _ & _ & Ht). unfold showParameter. destruct (parsedType p) as [t|]; [|done]. destruct Ht as [Ht _].
  apply (solid_app _ [ch ":"]); done.
Qed.

Lemma show_argument p : parameterOk p → argument true (showParameter p).
Proof.
  intros (_ & Hn & _ & Ht). unfold showParameter. destruct (parsedType p) as [t|]; [|done]. destruct Ht as [_ Ht].
  apply argument_app; [done| |by apply noQuote_cons]. by apply argument_char.
Qed.

Lemma segment_roundtrip sp p : blank sp → parameterOk p → parseRoutineParameterSegment (sp ++ showParameter p) = Some p.
Proof.
  intros Hsp Hp. unfold parseRoutineParameterSegment.
  pose proof (trim_solid sp _ [] Hsp (show_solid p Hp) (Forall_nil_2 _)) as Htrim. rewrite app_nil_r in Htrim. rewrite Htrim.
  pose proof (solid_not_nil _ (show_solid p Hp)) as Hne. destruct (showParameter p) as [|c s] eqn:E; [done|]. rewrite <-E. clear E.
  destruct Hp as (Hn & _ & Hcolon & Ht). unfold showParameter. destruct p as [name [t|]]; cbn [parsedName parsedType] in *.
  - rewrite indexOf_app, take_app_length by done. rewrite trim_solid_id by done.
    destruct Ht as [Ht _]. replace (drop (length name + 1) (name ++ ch ":" :: t)) with t.
    + rewrite trim_solid_id, solid_nonEmpty by done. by destruct name as [|x name]; [apply solid_not_nil in Hn|].
    + change (ch ":" :: t) with ([ch ":"] ++ t). rewrite (assoc_L (++)), drop_app_length'; [done|]. by rewrite length_app.
  - rewrite (proj2 (indexOf_None _ _)), splitSpaces_solid by (done || by apply solid_not_nil).
    by destruct name as [|x name]; [apply solid_not_nil in Hn|].
Qed.

(** The segments of the detail: all but the first have a space before them. *)
Definition showSegments (ps : list ParsedRoutineParameter) : list jstr :=
  match ps with [] => [] | p :: ps => showParameter p :: map (λ p, 32%N :: showParameter p) ps end.

Lemma join_segments ps : join (COMMA :: [32%N]) (map showParameter ps) = written (showSegments ps).
Proof.
  destruct ps as [|p ps]; [done|]. cbn [map showSegments]. generalize (showParameter p). induction ps as [|q ps IH]; intros t; [done|].
  cbn [map]. rewrite written_cons. cbn [join] in IH |- *. specialize (IH (32%N :: showParameter q)). rewrite <-IH. cbn [map].
  by destruct (map showParameter ps).
Qed.

Lemma showSegments_argument ps : Forall parameterOk ps → Forall (argument true) (showSegments ps).
Proof.
  destruct 1 as [|p ps Hp Hps]; [constructor|]. constructor; [by apply show_argument|]. apply Forall_map.
  eapply Forall_impl; [exact Hps|]. intros q Hq. apply argument_char; [done|done|done|by apply show_argument].
Qed.

Lemma showSegments_parse ps : Forall parameterOk ps → omap parseRoutineParameterSegment (showSegments ps) = ps.
Proof.
  destruct 1 as [|p ps Hp Hps]; [done|]. cbn [showSegments omap list_omap].
  rewrite (segment_roundtrip [] p (Forall_nil_2 _) Hp : parseRoutineParameterSegment (showParameter p) = _). f_equal.
  induction Hps as [|q ps Hq _ IH]; [done|]. cbn [map omap list_omap].
  assert (Hsp : blank [32%N]) by (by constructor).
  rewrite (segment_roundtrip [32%N] q Hsp Hq : parseRoutineParameterSegment (32%N :: showParameter q) = _). by rewrite IH.
Qed.

Lemma join_solid ps : ps ≠ [] → Forall parameterOk ps → solid (join (COMMA :: [32%N]) (map showParameter ps)).
Proof.
  intros Hne H. induction H as [|p ps Hp _ IH]; [done|]. apply show_solid in Hp. destruct ps as [|q ps]; [done|].
  apply (solid_app _ (COMMA :: [32%N])); [done|]. by apply IH.
Qed.

(** Reading the detail of a routine gives back the parameters it was
    written from: names with types - a type may hold commas inside of brackets and
    quotes - and names without type. *)
Theorem detail_roundtrip ps : Forall parameterOk ps → parseRoutineParameterDetail (Some (showDetail ps)) = ps.
Proof.
  intros Hps. unfold parseRoutineParameterDetail, showDetail. cbn [default from_option id].
  rewrite join_segments. set (W := written (showSegments ps)). set (text := LPAREN :: W ++ [RPAREN]).
  pose proof (showSegments_argument ps Hps) as Hargs.
  assert (Htext : solid text).
  { split; [by exists LPAREN, (W ++ [RPAREN])|by exists (LPAREN :: W), RPAREN]. }
  assert (Hlen : length text - 1 = 1 + length W) by (subst text; cbn; rewrite length_app; cbn; lia).
  assert (Hstrip : stripOuterParentheses (trim text) = trim W).
  { rewrite trim_solid_id by done. unfold stripOuterParentheses.
    replace (startsWithChar LPAREN text) with true by done.
    replace (endsWithChar RPAREN text) with true
      by (symmetry; apply bool_decide_eq_true_2; subst text; by rewrite app_comm_cons, last_snoc).
    cbn [negb orb]. rewrite bool_decide_eq_true_2.
    - rewrite Hlen. subst text. cbn [Nat.add take drop]. by rewrite take_app_length.
    - rewrite Hlen. apply (findMatching_argument false [] W []). by apply argument_written. }
  rewrite Hstrip. destruct ps as [|p ps]; [done|].
  assert (HW : solid W) by (subst W; rewrite <-join_segments; by apply join_solid).
  rewrite trim_solid_id by done. pose proof (solid_not_nil _ HW). destruct W as [|c w] eqn:E; [done|]. rewrite <-E. subst W.
  rewrite splitTopLevel_written by done. by apply showSegments_parse.
Qed.

(** [(id:int, price:numeric(10, 2), note)]. *)
Definition demoParameters : list ParsedRoutineParameter :=
  [mkParameter (js "id") (Some (js "int")); mkParameter (js "price") (Some (js "numeric(10, 2)")); mkParameter (js "note") None].

Lemma solid_check t :
  match head t, last t with Some c, Some d => negb (is_space c) && negb (is_space d) | _, _ => false end = true → solid t.
Proof.
  destruct (head t) as [c|] eqn:Eh; [|done]. destruct (last t) as [d|] eqn:El; [|done]. intros [Hc Hd]%andb_true_iff.
  apply negb_true_iff in Hc, Hd. apply head_Some in Eh as [t' ->]. apply last_Some in El as [u El].
  split; [by exists c, t'|by exists u, d].
Qed.

Lemma demoParameters_ok : Forall parameterOk demoParameters.
Proof.
  repeat apply Forall_cons_2; [| | |apply Forall_nil_2]; split_and!; cbn [parsedName parsedType].
  all: try (apply solid_check; reflexivity).
  all: try (apply indexOf_None; vm_compute; reflexivity).
  all: try (plain_characters; fail).
  - split; [apply solid_check; reflexivity|plain_characters].
  - split; [apply solid_check; reflexivity|]. do 7 (apply argument_char; [reflexivity|reflexivity|discriminate|]).
    apply (argument_group true LPAREN (js "10, 2") RPAREN []); [by left|plain_characters|plain_characters].
  - repeat apply Forall_cons_2; reflexivity || apply Forall_nil_2.
Qed.

Lemma detail_roundtrip_witness :
  Forall parameterOk demoParameters ∧ showDetail demoParameters = js "(id:int, price:numeric(10, 2), note)" ∧
  parseRoutineParameterDetail (Some (showDetail demoParameters)) = demoParameters.
Proof.
  split; [exact demoParameters_ok|]. split; [vm_compute; reflexivity|]. apply detail_roundtrip. exact demoParameters_ok.
Defined.

(** ** The innermost call *)

(** [call] is a call around the cursor: its parentheses match. *)
Definition encloses (line : jstr) (cursorIndex : nat) (call : CallRange) : Prop :=
  line !! openIndex call = Some LPAREN ∧ findMatchingParenthesis line (openIndex call) = Some (closeIndex call) ∧
  openIndex call ≤ cursorIndex ≤ closeIndex call + 1.

(** One of the names stands before the parenthesis, with white space between. *)
Definition named (line : jstr) (names : list jstr) (call : CallRange) : Prop :=
  ∃ name gap, name ∈ names ∧ blank gap ∧
    startsWith (toLowerCase name) (drop (nameIndex call) (toLowerCase line)) = true ∧
    openIndex call = nameIndex call + length name + length gap ∧
    take (length gap) (drop (nameIndex call + length name) line) = gap.

Lemma openParenthesisFrom_spec text : ∀ i j,
  openParenthesisFrom i text = Some j →
  ∃ gap rest, text = gap ++ LPAREN :: rest ∧ blank gap ∧ j = i + length gap.
Proof.
  induction text as [|c text IH]; intros i j; cbn; [done|]. destruct (is_space c) eqn:Ec.
  - intros (gap & rest & -> & Hgap & ->)%IH. exists (c :: gap), rest. split_and!; [done|by constructor|cbn; lia].
  - destruct (N.eqb_spec c LPAREN) as [-> |]; [|done]. intros [= <-]. exists [], text. split_and!; [done|constructor|cbn; lia].
Qed.

Lemma indexOfFrom_spec name text : ∀ i j,
  indexOfFrom name i text = Some j → i ≤ j ∧ startsWith name (drop (j - i) text) = true.
Proof.
  induction text as [|c text IH]; intros i j; cbn [indexOfFrom]; destruct (startsWith _ _) eqn:E; try done.
  - intros [= <-]. by rewrite Nat.sub_diag.
  - intros [= <-]. by rewrite Nat.sub_diag.
  - intros [H1 H2]%IH. split; [lia|]. by replace (j - i) with (S (j - S i)) by lia.
Qed.

Lemma callAt_spec line cursorIndex name i call :
  callAt line cursorIndex name i = Some call →
  nameIndex call = i ∧ encloses line cursorIndex call ∧
  ∃ gap, blank gap ∧ openIndex call = i + length name + length gap ∧ take (length gap) (drop (i + length name) line) = gap.
Proof.
  unfold callAt, getNextOpenParenthesisIndex. destruct (openParenthesisFrom _ _) as [o|] eqn:Eo; [|done].
  cbn [mbind option_bind]. destruct (findMatchingParenthesis line o) as [close|] eqn:Ec; [|done]. cbn [mbind option_bind].
  destruct ((o <=? cursorIndex) && _) eqn:E; [|done]. intros [= <-]. to_prop.
  apply openParenthesisFrom_spec in Eo as (gap & rest & Htext & Hgap & Ho).
  split; [done|]. unfold encloses. cbn [openIndex closeIndex]. split_and!.
  - rewrite Ho, <-lookup_drop, Htext. by apply list_lookup_middle.
  - done.
  - by apply Nat.leb_le.
  - by apply Nat.leb_le.
  - exists gap. split_and!; [done|done|]. by rewrite Htext, take_app_length.
Qed.

Lemma callsOf_spec line cursorIndex name call : ∀ fuel from,
  call ∈ callsOf fuel line cursorIndex name from → encloses line cursorIndex call ∧ named line [name] call.
Proof.
  induction fuel as [|fuel IH]; intros from; cbn [callsOf]; [by intros ?%not_elem_of_nil|].
  destruct (from <? _); [|by intros ?%not_elem_of_nil].
  destruct (indexOfFrom _ _ _) as [i|] eqn:Ei; [|by intros ?%not_elem_of_nil].
  apply indexOfFrom_spec in Ei as [Hle Hi]. rewrite drop_drop in Hi. replace (from + (i - from)) with i in Hi by lia.
  intros [Hc|Hc]%elem_of_app; [|by eapply IH]. destruct (callAt _ _ _ _) as [call'|] eqn:Ec; [|by apply not_elem_of_nil in Hc].
  apply list_elem_of_singleton in Hc as ->. apply callAt_spec in Ec as (<- & He & gap & Hgap & Ho & Ht). split; [done|].
  exists name, gap. split_and!; [by apply list_elem_of_singleton|done..].
Qed.

Lemma nearestCall_spec line cursorIndex : ∀ n,
  n ≤ S cursorIndex →
  match nearestCallBelow line cursorIndex n with
  | Some call => encloses line cursorIndex call ∧ openIndex call < n ∧
                 ∀ call', encloses line cursorIndex call' → openIndex call' < n → openIndex call' ≤ openIndex call
  | None => ∀ call', encloses line cursorIndex call' → n ≤ openIndex call'
  end.
Proof.
  induction n as [|i IH]; intros Hn; cbn [nearestCallBelow]; [intros; lia|]. specialize (IH ltac:(lia)).
  assert (Hskip : (∀ call', encloses line cursorIndex call' → openIndex call' ≠ i) →
    match nearestCallBelow line cursorIndex i with
    | Some call => encloses line cursorIndex call ∧ openIndex call < S i ∧
                   ∀ call', encloses line cursorIndex call' → openIndex call' < S i → openIndex call' ≤ openIndex call
    | None => ∀ call', encloses line cursorIndex call' → S i ≤ openIndex call'
    end).
  { intros Hne. destruct (nearestCallBelow line cursorIndex i) as [call|].
    - destruct IH as (H1 & H2 & H3). split_and!; [done|lia|]. intros call' He Hlt. specialize (Hne _ He). apply H3; [done|lia].
    - intros call' He. specialize (IH _ He). specialize (Hne _ He). lia. }
  case_bool_decide as Hopen; [|apply Hskip; intros call' (Hl & _) E; congruence].
  destruct (findMatchingParenthesis line i) as [close|] eqn:Ec; [|apply Hskip; intros call' (_ & Hm & _) E; congruence].
  destruct (Nat.leb_spec cursorIndex (close + 1)) as [Hle|Hgt].
  - split_and!; [|cbn; lia|cbn; lia]. unfold encloses. cbn. split_and!; [done..|lia|lia].
  - apply Hskip. intros call' (_ & Hm & _ & Hcur) E. rewrite E, Ec in Hm. injection Hm as Hm. lia.
Qed.

Lemma stable_sort_head {A} (le : A → A → bool) xs x : head (stable_sort le xs) = Some x → x ∈ xs.
Proof. intros H. rewrite <-(stable_sort_perm le xs). apply head_Some in H as [t ->]. apply elem_of_cons. by left. Qed.

(** The call found at the cursor opens with a parenthesis whose partner
    closes it, and the cursor is between the two or next to one.  With a name,
    the name or its last part stands before the parenthesis.  Without one it is
    the innermost of all the calls around the cursor, and there is none when no
    call is found. *)
Theorem call_at_cursor line cursorColumn name :
  let cursorIndex := Z.to_nat (cursorColumn - 1) in
  match getRoutineCallRange line cursorColumn name with
  | Some call =>
      encloses line cursorIndex call ∧
      (getRoutineNameCandidates name ≠ [] → named line (getRoutineNameCandidates name) call) ∧
      (getRoutineNameCandidates name = [] →
       ∀ call', encloses line cursorIndex call' → openIndex call' ≤ openIndex call)
  | None => getRoutineNameCandidates name = [] → ∀ call', ¬ encloses line cursorIndex call'
  end.
Proof.
  intros cursorIndex. unfold getRoutineCallRange. fold cursorIndex. set (names := getRoutineNameCandidates name).
  destruct (names ≫= _) as [|c cs] eqn:Ec.
  - destruct names as [|nm names]; [|done]. unfold getNearestCallRange.
    pose proof (nearestCall_spec line cursorIndex (S cursorIndex `min` length line) ltac:(lia)) as H.
    assert (Hbound : ∀ call', encloses line cursorIndex call' → openIndex call' < S cursorIndex `min` length line).
    { intros call' (Hl & _ & Hle & _). apply lookup_lt_Some in Hl. lia. }
    destruct (nearestCallBelow _ _ _) as [call|].
    + destruct H as (H1 & _ & H3). split_and!; [done|done|]. intros _ call' He. auto.
    + intros _ call' He. specialize (H _ He). specialize (Hbound _ He). lia.
  - destruct (head _) as [call|] eqn:Eh.
    + apply stable_sort_head in Eh. rewrite <-Ec in Eh. apply list_elem_of_bind in Eh as (nm & Hc & Hnm).
      apply callsOf_spec in Hc as [He Hn]. split_and!; [done| |intros E; rewrite E in Hnm; by apply not_elem_of_nil in Hnm].
      intros _. destruct Hn as (nm' & gap & ->%list_elem_of_singleton & H). by exists nm, gap.
    + intros E. rewrite E in Ec. done.
Qed.
