(* ===== verification/ParameterHints.v ===== *)
(** * ParameterHints: the parameter shown at the cursor

    Models [components/SQLEditor/helper/parameterHint.ts]: the hints the engine
    sends for an insert statement or a routine call become one list of
    parameters, in which the parameter at the cursor is marked. *)

From S2P Require Import Prelude StableSort TextRanges InsertValueHints RoutineHints.
Local Open Scope Z_scope.

(** ** Data *)

Inductive ParameterHintSource := FromInsertValue | FromRoutineParameter.

Record ParameterHintItem := mkParameterItem {
  itemIndex : Z;
  itemName : jstr;
  itemType : option jstr;
  itemLabel : jstr;
  itemRange : TextRange;
  itemActive : bool;
}.

Record ParameterHintContext := mkParameterContext {
  source : ParameterHintSource;
  contextAnchor : TextRange;
  contextRow : option TextRange;
  contextValue : option TextRange;
  contextItems : list ParameterHintItem;
}.

Definition fromInsertItem (hint : InsertValueHintItem) : ParameterHintItem :=
  mkParameterItem (itemColumnIndex hint) (itemFieldName hint) (itemFieldType hint) (label hint) (range hint) (active hint).

Definition parameterHintContextFromInsertValue (context : option InsertValueHintContext) : option ParameterHintContext :=
  context ← context;
  match hints context with
  | [] => None
  | hints =>
      Some (mkParameterContext FromInsertValue (default (rowRange context) (valueRange context)) (Some (rowRange context))
        (valueRange context) (map fromInsertItem hints))
  end.

Definition fromRoutineItem (hint : RoutineParameterHintItem) : ParameterHintItem :=
  mkParameterItem (parameterIndex hint) (parameterName hint) (parameterType hint) (parameterLabel hint) (parameterRange hint)
    (parameterActive hint).

Definition parameterHintContextFromRoutine (context : option RoutineParameterHintContext) : option ParameterHintContext :=
  context ← context;
  match routineHints context with
  | [] => None
  | hints => Some (mkParameterContext FromRoutineParameter (anchorRange context) None None (map fromRoutineItem hints))
  end.

(** ** The item at the cursor *)

(** The comparator of the sort of the items gives no positive number. *)
Definition startsNotAfter (a b : nat * ParameterHintItem) : bool :=
  comparePosition (rangeStart (itemRange a.2)) (rangeStart (itemRange b.2)) <=? 0.

Definition numbered {A} (xs : list A) : list (nat * A) := imap pair xs.

(** [None] is [-1]. *)
Definition getActiveParameterHintItemIndex (items : list ParameterHintItem) (position : TextPosition) : option nat :=
  match findIndex (λ item, isPositionInRange position (itemRange item)) items with
  | Some directIndex => Some directIndex
  | None =>
      let sortedItems := stable_sort startsNotAfter (numbered items) in
      match js_find (λ entry, startsAfter position (itemRange entry.2)) sortedItems with
      | Some nextItem => Some nextItem.1
      | None => fst <$> last sortedItems
      end
  end.

Definition withActive (activeIndex index : nat) (item : ParameterHintItem) : ParameterHintItem :=
  mkParameterItem (itemIndex item) (itemName item) (itemType item) (itemLabel item) (itemRange item) (Nat.eqb index activeIndex).

Definition markActiveParameterHintItem (context : option ParameterHintContext) (position : option TextPosition)
    : option ParameterHintContext :=
  match context, position with
  | Some c, Some p =>
      match getActiveParameterHintItemIndex (contextItems c) p with
      | None => Some c
      | Some activeIndex =>
          match contextItems c !! activeIndex with
          | Some item =>
              Some (mkParameterContext (source c) (itemRange item) (contextRow c) (contextValue c)
                (imap (withActive activeIndex) (contextItems c)))
          | None => Some c
          end
      end
  | _, _ => context
  end.

(** ** Hints of the engine *)

Section parser.
Context {parse : NumberParser}.

(** The number an arithmetic operation sees; [None] is [NaN]. *)
Definition toNumber (value : LooseNumber) : option Z :=
  match value with
  | FiniteNumber n => Some n
  | NotFinite | UndefinedNumber => None
  | TextNumber text => parseNumber text
  | NullNumber => Some 0
  end.

(** [comparePosition] of a number and a value as the engine sent it: a line that
    is no number differs from every line. *)
Definition compareLoose (line : Z) (col : Z) (looseLine looseCol : LooseNumber) : option Z :=
  let same := match looseLine with FiniteNumber n => line =? n | _ => false end in
  if same then (λ c, col - c) <$> toNumber looseCol else (λ l, line - l) <$> toNumber looseLine.

Definition isPositionInHintRange (position : TextPosition) (r : ISqlEditorHintRangeVO) : bool :=
  match compareLoose (lineNumber position) (column position) (hintStartLine r) (hintStartColumn r) with
  | Some d => 0 <=? d
  | None => false
  end
  && match compareLoose (lineNumber position) (column position) (hintEndLine r) (hintEndColumn r) with
     | Some d => d <=? 0
     | None => false
     end.

Definition isEditorHintActiveAtPosition (position : option TextPosition) (editorHint : ISqlEditorHintVO) : bool :=
  match position with
  | None => true
  | Some p =>
      let r := match hintType editorHint with
               | ROUTINE_PARAMETER => hintRowRange editorHint
               | _ => match hintValueRange editorHint with Some r => Some r | None => hintRowRange editorHint end
               end in
      match r with Some r => isPositionInHintRange p r | None => true end
  end.

Definition routineContext (position : option TextPosition) (hint : ISqlEditorHintVO) : option ParameterHintContext :=
  markActiveParameterHintItem (parameterHintContextFromRoutine (routineParameterHintContextFromEditorHint (Some hint))) position.

Definition insertContext (position : option TextPosition) (hint : ISqlEditorHintVO) : option ParameterHintContext :=
  markActiveParameterHintItem (parameterHintContextFromInsertValue (insertValueHintContextFromEditorHint (Some hint))) position.

(** [contexts.find((context) => !!context)] of the contexts of the hints. *)
Definition parameterHintContextFromEditorHints (editorHints : option (list ISqlEditorHintVO)) (position : option TextPosition)
    : option ParameterHintContext :=
  let hints := List.filter (isEditorHintActiveAtPosition position) (default [] editorHints) in
  match head (omap (routineContext position) hints) with
  | Some routineHint => Some routineHint
  | None => head (omap (insertContext position) hints)
  end.
End parser.

(** ** The marked item *)

#[local] Instance startsNotAfter_preorder : Preorder startsNotAfter.
Proof.
  unfold startsNotAfter. split; intros *; rewrite !Z.leb_le.
  - apply notAfter_total.
  - apply notAfter_trans.
Qed.

Lemma findIndex_Some {A} (f : A → bool) xs : ∀ i,
  findIndex f xs = Some i →
  (∃ x, xs !! i = Some x ∧ f x = true) ∧ ∀ j y, (j < i)%nat → xs !! j = Some y → f y = false.
Proof.
  induction xs as [|x xs IH]; intros i; cbn; [done|]. destruct (f x) eqn:E.
  - intros [= <-]. split; [by exists x|]. intros j y Hj. lia.
  - destruct (findIndex f xs) as [k|]; [|done]. cbn. intros [= <-]. destruct (IH k eq_refl) as [H1 H2].
    split; [done|]. intros [|j] y Hj Hy; [by injection Hy as <-|]. apply (H2 j); [lia|done].
Qed.

Lemma findIndex_None {A} (f : A → bool) xs : findIndex f xs = None → ∀ y, y ∈ xs → f y = false.
Proof.
  induction xs as [|x xs IH]; cbn; [by intros _ y ?%not_elem_of_nil|]. destruct (f x) eqn:E; [done|].
  intros H%fmap_None y [-> |Hy]%elem_of_cons; auto.
Qed.

Lemma find_sorted {A} (R : A → A → Prop) `{!Reflexive R} (f : A → bool) xs x :
  StronglySorted R xs → js_find f xs = Some x → ∀ y, y ∈ xs → f y = true → R x y.
Proof.
  intros H. induction H as [|z xs _ IH Hall]; [done|]. cbn. destruct (f z) eqn:E.
  - intros [= <-] y [-> |Hy]%elem_of_cons _; [done|]. rewrite Forall_forall in Hall. auto.
  - intros Hf y [-> |Hy]%elem_of_cons Hy'; [congruence|]. by apply IH.
Qed.

Lemma last_sorted {A} (R : A → A → Prop) `{!Reflexive R} xs x :
  StronglySorted R xs → last xs = Some x → ∀ y, y ∈ xs → R y x.
Proof.
  intros H. induction H as [|z xs _ IH Hall]; [done|]. rewrite last_cons. destruct (last xs) as [w|] eqn:E.
  - intros [= ->] y [-> |Hy]%elem_of_cons; [|by apply IH]. rewrite Forall_forall in Hall. apply Hall.
    by apply last_Some_elem_of.
  - apply last_None in E as ->. by intros [= ->] y ->%list_elem_of_singleton.
Qed.

Lemma numbered_elem {A} (xs : list A) i x : (i, x) ∈ numbered xs ↔ xs !! i = Some x.
Proof.
  unfold numbered. rewrite elem_of_lookup_imap. split; [by intros (j & y & [= -> ->] & ?)|]. intros H. by exists i, x.
Qed.

Definition atCursor (p : TextPosition) (item : ParameterHintItem) : bool := isPositionInRange p (itemRange item).
Definition itemStart (item : ParameterHintItem) : TextPosition := rangeStart (itemRange item).

(** The item to mark: the first at the cursor; else the next one; else the
    last one. *)
Definition current (p : TextPosition) (items : list ParameterHintItem) (i : nat) (item : ParameterHintItem) : Prop :=
  (atCursor p item = true ∧ ∀ j item', (j < i)%nat → items !! j = Some item' → atCursor p item' = false) ∨
  (∀ item', item' ∈ items → atCursor p item' = false) ∧
  ((startsAfter p (itemRange item) = true ∧
    ∀ item', item' ∈ items → startsAfter p (itemRange item') = true → notAfter (itemStart item) (itemStart item')) ∨
   ∀ item', item' ∈ items → startsAfter p (itemRange item') = false ∧ notAfter (itemStart item') (itemStart item)).

#[local] Instance startsNotAfter_refl : Reflexive (λ a b, startsNotAfter a b = true).
Proof. intros a. apply Z.leb_le, notAfter_refl. Qed.

Lemma activeIndex_current items p :
  items ≠ [] → ∃ i item, getActiveParameterHintItemIndex items p = Some i ∧ items !! i = Some item ∧ current p items i item.
Proof.
  intros Hne. unfold getActiveParameterHintItemIndex. destruct (findIndex _ items) as [i|] eqn:Ei.
  - apply findIndex_Some in Ei as [(item & Hi & Hp) Hbefore]. exists i, item. split_and!; [done..|]. by left.
  - assert (Hnone : ∀ item, item ∈ items → atCursor p item = false) by exact (findIndex_None _ _ Ei).
    set (sorted := stable_sort startsNotAfter (numbered items)).
    assert (Helem : ∀ i item, (i, item) ∈ sorted ↔ items !! i = Some item).
    { intros i item. subst sorted. rewrite (stable_sort_perm startsNotAfter). apply numbered_elem. }
    assert (Hsorted : StronglySorted (λ a b, startsNotAfter a b = true) sorted) by apply stable_sort_sorted, _.
    destruct (js_find _ sorted) as [[i item]|] eqn:Ef.
    + pose proof Ef as Hf. apply js_find_Some in Hf as [Hin Hafter]. cbn [snd] in Hafter.
      exists i, item. split_and!; [done|by apply Helem|]. right. split; [done|]. left. split; [done|].
      intros item' (j & Hj)%list_elem_of_lookup Ha. apply Helem in Hj.
      pose proof (find_sorted _ _ _ _ Hsorted Ef (j, item') Hj Ha) as H. by apply Z.leb_le in H.
    + rewrite js_find_None in Ef. destruct (last sorted) as [[i item]|] eqn:El.
      * exists i, item. split_and!; [done|by apply Helem, last_Some_elem_of|]. right. split; [done|]. right.
        intros item' (j & Hj)%list_elem_of_lookup. apply Helem in Hj. split; [exact (Ef _ Hj)|].
        pose proof (last_sorted _ _ _ Hsorted El (j, item') Hj) as H. by apply Z.leb_le in H.
      * apply last_None in El. destruct items as [|item items]; [done|].
        assert (Hin : (0%nat, item) ∈ sorted) by (by apply Helem). rewrite El in Hin. by apply not_elem_of_nil in Hin.
Qed.

(** One item of [c] is marked, the one for the cursor, and [c] is anchored to it. *)
Definition markedAt (p : TextPosition) (c : ParameterHintContext) : Prop :=
  ∃ i item, contextItems c !! i = Some item ∧ contextAnchor c = itemRange item ∧ current p (contextItems c) i item ∧
    ∀ j item', contextItems c !! j = Some item' → (itemActive item' = true ↔ j = i).

Lemma current_withActive p items a i item :
  current p items i item → current p (imap (withActive a) items) i (withActive a i item).
Proof.
  assert (Hin : ∀ item', item' ∈ imap (withActive a) items → ∃ x, x ∈ items ∧ itemRange item' = itemRange x).
  { intros item' (j & x & -> & Hx)%elem_of_lookup_imap. exists x. split; [by eapply list_elem_of_lookup_2|done]. }
  unfold current, atCursor, itemStart. cbn [withActive itemRange]. intros [[H1 H2]|[H1 [[H2 H3]|H2]]].
  - left. split; [done|]. intros j item' Hj. rewrite list_lookup_imap. destruct (items !! j) as [x|] eqn:Ex; [|done].
    cbn. intros [= <-]. exact (H2 j x Hj Ex).
  - right. split; [intros item' (x & Hx & ->)%Hin; auto|]. left. split; [done|]. intros item' (x & Hx & ->)%Hin. auto.
  - right. split; [intros item' (x & Hx & ->)%Hin; auto|]. right. intros item' (x & Hx & ->)%Hin. auto.
Qed.

Lemma mark_spec c p : contextItems c ≠ [] →
  ∃ c', markActiveParameterHintItem (Some c) (Some p) = Some c' ∧ source c' = source c ∧ markedAt p c'.
Proof.
  intros Hne. destruct (activeIndex_current _ p Hne) as (i & item & Hi & Hitem & Hcur).
  unfold markActiveParameterHintItem. rewrite Hi, Hitem. eexists. split_and!; [done..|].
  exists i, (withActive i i item). cbn [contextItems contextAnchor]. split_and!.
  - by rewrite list_lookup_imap, Hitem.
  - done.
  - by apply current_withActive.
  - intros j item'. rewrite list_lookup_imap. destruct (contextItems c !! j) as [x|]; [|done].
    cbn. intros [= <-]. cbn. apply Nat.eqb_eq.
Qed.

Lemma routine_items context c : parameterHintContextFromRoutine context = Some c → contextItems c ≠ [] ∧ source c = FromRoutineParameter.
Proof. destruct context as [x|]; [|done]. cbn. by destruct (routineHints x); intros [= <-]. Qed.

Lemma insert_items context c : parameterHintContextFromInsertValue context = Some c → contextItems c ≠ [] ∧ source c = FromInsertValue.
Proof. destruct context as [x|]; [|done]. cbn. by destruct (hints x); intros [= <-]. Qed.

Section parser.
Context {parse : NumberParser}.

Lemma routineContext_spec p hint c :
  routineContext (Some p) hint = Some c → markedAt p c ∧ source c = FromRoutineParameter.
Proof.
  unfold routineContext. destruct (parameterHintContextFromRoutine _) as [x|] eqn:E; [|done].
  apply routine_items in E as [Hne Hs]. destruct (mark_spec x p Hne) as (c' & -> & Hs' & Hm). intros [= <-]. by rewrite Hs'.
Qed.

Lemma insertContext_spec p hint c :
  insertContext (Some p) hint = Some c → markedAt p c ∧ source c = FromInsertValue.
Proof.
  unfold insertContext. destruct (parameterHintContextFromInsertValue _) as [x|] eqn:E; [|done].
  apply insert_items in E as [Hne Hs]. destruct (mark_spec x p Hne) as (c' & -> & Hs' & Hm). intros [= <-]. by rewrite Hs'.
Qed.

(** At a cursor, exactly one of the parameters shown is marked, and the
    popup is anchored to it: the first parameter whose range has the cursor; when
    there is none, the nearest one that starts after the cursor; when there is
    none either, the one that starts last.  The parameters of a routine call
    around the cursor are shown before those of an insert statement. *)
Theorem one_marked_parameter editorHints p c :
  parameterHintContextFromEditorHints (Some editorHints) (Some p) = Some c →
  markedAt p c ∧
  (source c = FromInsertValue →
   ∀ hint, hint ∈ editorHints → isEditorHintActiveAtPosition (Some p) hint = true → routineContext (Some p) hint = None).
Proof.
  unfold parameterHintContextFromEditorHints. cbn [default from_option id]. set (hs := List.filter _ editorHints).
  destruct (head (omap (routineContext (Some p)) hs)) as [r|] eqn:Er.
  - intros [= <-]. apply head_Some_elem_of, list_elem_of_omap in Er as (hint & _ & Er). apply routineContext_spec in Er as [H ->]. done.
  - intros Hc. apply head_Some_elem_of, list_elem_of_omap in Hc as (hint & _ & Hc). apply insertContext_spec in Hc as [H _].
    split; [done|]. intros _ h Hh Hactive. apply head_None in Er.
    destruct (routineContext (Some p) h) as [x|] eqn:Ex; [|done].
    assert (Hin : x ∈ omap (routineContext (Some p)) hs).
    { apply list_elem_of_omap. exists h. split; [|done]. subst hs. by rewrite list_elem_of_In, filter_In, <-list_elem_of_In. }
    rewrite Er in Hin. by apply not_elem_of_nil in Hin.
Qed.
End parser.

Definition demoRange (a b : Z) : option ISqlEditorHintRangeVO :=
  Some (mkHintRange (FiniteNumber 1) (FiniteNumber a) (FiniteNumber 1) (FiniteNumber b)).
Definition demoItem (i a b : Z) (name : jstr) : ISqlEditorHintItemVO :=
  mkHintItem (FiniteNumber 0) (FiniteNumber i) name (js "INT") [] (demoRange a b) false.
Definition demoHints : list ISqlEditorHintVO :=
  [mkHint INSERT_VALUE None None (demoRange 1 40) [demoItem 0 1 40 (js "a")];
   mkHint ROUTINE_PARAMETER None (demoRange 8 20) (demoRange 9 19) [demoItem 0 9 11 (js "left"); demoItem 1 14 19 (js "right")]].
Definition noText : NumberParser := λ _, None.

(** The cursor is after the comma. *)
Lemma one_marked_parameter_witness :
  ∃ c, @parameterHintContextFromEditorHints noText (Some demoHints) (Some (mkPosition 1 13)) = Some c ∧
       map itemActive (contextItems c) = [false; true] ∧ markedAt (mkPosition 1 13) c.
Proof.
  eexists. split; [vm_compute; reflexivity|]. split; [reflexivity|].
  apply (@one_marked_parameter noText demoHints (mkPosition 1 13)). reflexivity.
Defined.
