(* ===== verification/SqlExecutor.v ===== *)
(** * SqlExecutor: running the statements of an editor

    Models [hooks/useSqlExecutor.ts] with [cancelSqlExecutionWithReconciliation] of
    [service/sqlExecutionStream.ts]: the promise of an execution, the events the
    desktop engine pushes for it, and its cancellation.  A request is named by its
    sequence number, which stands for its promise, its control, the unique
    identifier of its event subscription and its call of the engine.  The answers
    of the engine arrive in any order; what a callback throws is part of the
    input. *)

From S2P Require Import Prelude SqlExecutionTypes LatestRequest SqlExecutionRequests.
Local Open Scope Z_scope.

(** ** Data *)

Record IExecuteSqlParams := mkExecuteParams {
  paramDataSourceId : option Z;
  paramDatabaseName : option jstr;
  paramSchemaName : option jstr;
  paramSql : jstr;
  paramConsoleId : option Z;
  paramApplyId : option Z;
  paramSingle : option bool;
  paramPageNo : option Z;
  paramPageSize : option Z;
  paramResultSetId : option Z;
  paramErrorContinue : option bool;
  paramExplain : option bool;
}.

Record ISqlEditorExecuteRequest := mkExecuteRequest {
  dataSourceId : Z;
  databaseName : option jstr;
  schemaName : option jstr;
  sql : jstr;
  consoleId : option Z;
  applyId : option Z;
  single : option bool;
  pageNo : Z;
  pageSize : Z;
  resultSetId : option Z;
  errorContinue : option bool;
  explain : option bool;
}.

(** What a promise is rejected with; errors of callbacks and of the engine are
    opaque texts. *)
Inductive ExecutorError :=
  | DataSourceRequired
  | SqlExecutionBusyError
  | ThrownError (error : jstr)
  | FailedEvent (message : jstr).

Inductive Outcome := Resolved (results : list IManageResultData) | Rejected (error : ExecutorError).

(** The message of a response that started nothing. *)
Inductive StartMessage := NoMessage | TextMessage (text : jstr) | ObjectMessage (message errorMessage : option jstr).

Record StartResponse := mkStartResponse {
  responseExecutionId : option jstr;
  responseMessage : StartMessage;
  responseErrorMessage : option jstr;
}.

Inductive StartAnswer := Started (response : option StartResponse) | StartThrew (error : jstr).

Inductive ExecutionEvent := Progress | Finished | Failed (message : jstr) | Cancelled.

#[export] Instance ExecutionEvent_eq_dec : EqDecision ExecutionEvent.
Proof. solve_decision. Defined.

Inductive CancelAnswer := CancelAccepted | ExecutionMissing | CancelThrew (error : jstr).

(** A request that has begun: what was sent, whether its events are still
    subscribed to, whether the engine has yet to answer its start, and its
    promise. *)
Record Request := mkRequest {
  sent : ISqlEditorExecuteRequest;
  subscribed : bool;
  starting : bool;
  outcome : option Outcome;
}.

(** [executionControl] is the request of [desktopExecutionControlRef]; [cancels]
    are the calls of [sql-cancel] with the request they were made for, and
    [cancellationErrors] what [onExecutionCancellationError] was told. *)
Record Executor := mkExecutor {
  tracker : SqlExecutionRequestTracker;
  executing : bool;
  executionControl : option Z;
  requests : gmap Z Request;
  cancels : list (jstr * Z);
  cancellationErrors : list jstr;
}.

Definition newExecutor : Executor := mkExecutor createSqlExecutionRequestTracker false None ∅ [] [].

Definition withTracker (t : SqlExecutionRequestTracker) (s : Executor) : Executor :=
  mkExecutor t (executing s) (executionControl s) (requests s) (cancels s) (cancellationErrors s).
Definition setExecuting (b : bool) (s : Executor) : Executor :=
  mkExecutor (tracker s) b (executionControl s) (requests s) (cancels s) (cancellationErrors s).
Definition withControl (c : option Z) (s : Executor) : Executor :=
  mkExecutor (tracker s) (executing s) c (requests s) (cancels s) (cancellationErrors s).
Definition onRequest (f : Request → Request) (n : Z) (s : Executor) : Executor :=
  mkExecutor (tracker s) (executing s) (executionControl s) (alter f n (requests s)) (cancels s) (cancellationErrors s).

Definition unsubscribed (r : Request) : Request := mkRequest (sent r) false (starting r) (outcome r).
Definition answered (r : Request) : Request := mkRequest (sent r) (subscribed r) false (outcome r).

(** Settling a promise again changes nothing. *)
Definition settled (o : Outcome) (r : Request) : Request :=
  mkRequest (sent r) (subscribed r) (starting r) (Some (default o (outcome r))).

Definition unsubscribe (n : Z) (s : Executor) : Executor := onRequest unsubscribed n s.
Definition settle (n : Z) (o : Outcome) (s : Executor) : Executor := onRequest (settled o) n s.

Definition clearControl (n : Z) (s : Executor) : Executor :=
  if bool_decide (executionControl s = Some n) then withControl None s else s.

(** [if (finishSqlExecutionRequest(...)) setExecuting(false)], and whether it was so. *)
Definition finishRequest (n : Z) (s : Executor) : Executor * bool :=
  let '(t, finished) := finishSqlExecutionRequest (tracker s) n in
  (if finished then setExecuting false (withTracker t s) else withTracker t s, finished).

(** [errorCallback]: what [onExecutionRequestStartError] throws. *)
Definition rejectStart (n : Z) (error : ExecutorError) (errorCallback : option jstr) (s : Executor) : Executor :=
  let '(s', finished) := finishRequest n (clearControl n (unsubscribe n s)) in
  let rejection := match errorCallback with Some e => if finished then ThrownError e else error | None => error end in
  settle n (Rejected rejection) s'.

Definition nonEmptyText (t : option jstr) : option jstr := match t with Some [] => None | _ => t end.

Definition getStartExecutionError (response : option StartResponse) : jstr :=
  let fallback := js "SQL execution failed to start" in
  match response with
  | None => fallback
  | Some r =>
      match responseMessage r with
      | TextMessage text => text
      | m =>
          let '(message, errorMessage) := match m with ObjectMessage a b => (nonEmptyText a, nonEmptyText b) | _ => (None, None) end in
          default fallback
            (match message with Some t => Some t | None =>
               match errorMessage with Some t => Some t | None => nonEmptyText (responseErrorMessage r) end end)
      end
  end.

(** The call of [sql-cancel]. *)
Definition requestDesktopCancellation (executionId : jstr) (n : Z) (s : Executor) : Executor :=
  mkExecutor (tracker s) (executing s) (executionControl s) (requests s) (cancels s ++ [(executionId, n)]) (cancellationErrors s).

Definition cancellationError (error : jstr) (s : Executor) : Executor :=
  mkExecutor (tracker s) (executing s) (executionControl s) (requests s) (cancels s) (cancellationErrors s ++ [error]).

(** [onExecutionMissing]; what the callback throws is caught by
    [cancelSqlExecutionWithReconciliation] after the [finally] block. *)
Definition onExecutionMissing (n : Z) (eventCallback : option jstr) (s : Executor) : Executor :=
  if bool_decide (executionControl s = Some n) then
    let s1 := unsubscribe n s in
    let s2 := withTracker (finishSqlExecutionRequest (tracker s1) n).1 s1 in
    let s3 := settle n (Resolved []) (setExecuting false (withControl None s2)) in
    match eventCallback with Some e => cancellationError e s3 | None => s3 end
  else s.

Definition cancelAnswered (n : Z) (answer : CancelAnswer) (eventCallback : option jstr) (s : Executor) : Executor :=
  match answer with
  | CancelAccepted => s
  | ExecutionMissing => onExecutionMissing n eventCallback s
  | CancelThrew error => cancellationError error s
  end.

(** The handler of the pushed events. *)
Definition eventArrived (n : Z) (event : ExecutionEvent) (eventCallback : option jstr) (s : Executor) : Executor :=
  match event with
  | Progress => s
  | _ =>
      let s' := (finishRequest n (clearControl n (unsubscribe n s))).1 in
      settle n
        (match eventCallback with
         | Some e => Rejected (ThrownError e)
         | None => match event with Failed message => Rejected (FailedEvent message) | _ => Resolved [] end
         end) s'
  end.

(** The answer of [startSqlExecution]. *)
Definition startAnswered (n : Z) (answer : StartAnswer) (errorCallback : option jstr) (s : Executor) : Executor :=
  let s := onRequest answered n s in
  match answer with
  | StartThrew error => rejectStart n (ThrownError error) errorCallback s
  | Started response =>
      match nonEmptyText (response ≫= responseExecutionId) with
      | None => rejectStart n (ThrownError (getStartExecutionError response)) errorCallback s
      | Some id =>
          let '(t, executionIdAttached) := setSqlExecutionRequestId (tracker s) n id in
          let s := withTracker t s in
          if executionIdAttached && isSqlExecutionCancellationRequested t n then requestDesktopCancellation id n s else s
      end
  end.

Section executor.
(** [streamed]: [isDesktop && onExecutionEvent]. *)
Context (streamed onlyOne : bool) (defaultPageSize : Z).

Definition executeRequestOf (params : IExecuteSqlParams) (id : Z) : ISqlEditorExecuteRequest :=
  mkExecuteRequest id (paramDatabaseName params) (paramSchemaName params) (paramSql params) (paramConsoleId params)
    (paramApplyId params) (paramSingle params) (default 1 (paramPageNo params)) (default defaultPageSize (paramPageSize params))
    (paramResultSetId params) (paramErrorContinue params) (paramExplain params).

(** [startThrows]: what [onExecutionRequestStart] or the subscription throws.
    The answer is the promise: a request that has begun, or an error. *)
Definition executeSQL (params : IExecuteSqlParams) (startThrows errorCallback : option jstr) (s : Executor)
    : Executor * (Z + ExecutorError) :=
  match paramDataSourceId params with
  | None => (s, inr DataSourceRequired)
  | Some id =>
      match beginSqlExecutionRequest (tracker s) with
      | (t, None) => (withTracker t s, inr SqlExecutionBusyError)
      | (t, Some n) =>
          let starts := negb streamed || bool_decide (startThrows = None) in
          let request := mkRequest (executeRequestOf params id) (streamed && starts) starts None in
          let s := mkExecutor t true (if streamed then Some n else executionControl s) (<[n := request]> (requests s))
                     (cancels s) (cancellationErrors s) in
          match startThrows with
          | Some e => (if streamed then rejectStart n (ThrownError e) errorCallback s else s, inl n)
          | None => (s, inl n)
          end
      end
  end.

(** The answer of a request that is not streamed, and [finally]. *)
Definition requestAnswered (n : Z) (answer : list IManageResultData + jstr) (s : Executor) : Executor :=
  let s' := (finishRequest n (onRequest answered n s)).1 in
  settle n (match answer with
            | inl data => Resolved (if onlyOne then take 1 data else data)
            | inr error => Rejected (ThrownError error)
            end) s'.

(** Without streaming, the call is aborted, and its request is answered with an
    error. *)
Definition stopExecuteSQL (s : Executor) : Executor :=
  if streamed then
    let activeRequest := activeRequestSequence (tracker s) in
    let '(t, activeExecutionId) := requestSqlExecutionCancellation (tracker s) in
    let s := withTracker t s in
    match nonEmptyText activeExecutionId, activeRequest with
    | Some id, Some n => requestDesktopCancellation id n s
    | _, _ => s
    end
  else s.

Inductive Input :=
  | ExecuteInput (params : IExecuteSqlParams) (startThrows errorCallback : option jstr)
  | StopInput
  | StartAnswerInput (n : Z) (answer : StartAnswer) (errorCallback : option jstr)
  | EventInput (n : Z) (event : ExecutionEvent) (eventCallback : option jstr)
  | CancelAnswerInput (n : Z) (id : jstr) (answer : CancelAnswer) (eventCallback : option jstr)
  | RequestAnswerInput (n : Z) (answer : list IManageResultData + jstr).

(** Inputs that cannot arrive are ignored: a call is answered once, events come
    while they are subscribed to, and only calls of [sql-cancel] are answered. *)
Definition dispatch (s : Executor) (i : Input) : Executor :=
  match i with
  | ExecuteInput params startThrows errorCallback => (executeSQL params startThrows errorCallback s).1
  | StopInput => stopExecuteSQL s
  | StartAnswerInput n answer errorCallback =>
      match requests s !! n with
      | Some r => if streamed && starting r then startAnswered n answer errorCallback s else s
      | None => s
      end
  | EventInput n event eventCallback =>
      match requests s !! n with
      | Some r => if subscribed r then eventArrived n event eventCallback s else s
      | None => s
      end
  | CancelAnswerInput n id answer eventCallback =>
      if bool_decide ((id, n) ∈ cancels s) then cancelAnswered n answer eventCallback s else s
  | RequestAnswerInput n answer =>
      match requests s !! n with
      | Some r => if negb streamed && starting r then requestAnswered n answer s else s
      | None => s
      end
  end.

Definition run (inputs : list Input) : Executor := fold_left dispatch inputs newExecutor.
End executor.

(** ** The invariant *)

Section invariant.
Context (streamed onlyOne : bool) (defaultPageSize : Z).

Definition request_ok (s : Executor) (n : Z) (r : Request) : Prop :=
  let active := activeRequestSequence (tracker s) in
  n <= generationRef (tracker s) ∧
  (outcome r = None ↔ active = Some n) ∧
  (subscribed r = true → streamed = true ∧ active = Some n) ∧
  (active = Some n →
   if streamed then subscribed r = true ∧ (starting r = false → ∃ id, trackedExecutionId (tracker s) = Some id ∧ id ≠ [])
   else starting r = true).

Definition executor_ok (s : Executor) : Prop :=
  let active := activeRequestSequence (tracker s) in
  tracker_ok (tracker s) ∧
  (executing s = true ↔ is_Some active) ∧
  executionControl s = (if streamed then active else None) ∧
  (∀ n r, requests s !! n = Some r → request_ok s n r) ∧
  (∀ n, active = Some n → is_Some (requests s !! n)) ∧
  (∀ n id, active = Some n → trackedExecutionId (tracker s) = Some id →
     id ≠ [] ∧ (cancelRequested (tracker s) = true → (id, n) ∈ cancels s)).

(** What a request does when it ends. *)
Definition ending (f : Request → Request) (n : Z) (o : Outcome) (s : Executor) : Executor :=
  settle n o (finishRequest n (clearControl n (onRequest f n s))).1.

Lemma finish_spec t n :
  tracker_ok t →
  finishSqlExecutionRequest t n =
  if bool_decide (activeRequestSequence t = Some n) then (mkTracker (generationRef t) None None false, true) else (t, false).
Proof.
  intros Hok. unfold finishSqlExecutionRequest. case_bool_decide as E.
  - by rewrite (proj2 (isCurrentRequest_true t n Hok)).
  - destruct (isCurrentRequest t n) eqn:E'; [|done]. by apply isCurrentRequest_true in E'.
Qed.

Lemma ending_eq f n o s :
  executor_ok s →
  ending f n o s =
  if bool_decide (activeRequestSequence (tracker s) = Some n)
  then mkExecutor (mkTracker (generationRef (tracker s)) None None false) false None (alter (settled o) n (alter f n (requests s)))
         (cancels s) (cancellationErrors s)
  else mkExecutor (tracker s) (executing s) (executionControl s) (alter (settled o) n (alter f n (requests s)))
         (cancels s) (cancellationErrors s).
Proof.
  intros (Ht & _ & Hc & _). unfold ending, finishRequest, clearControl, onRequest. cbn [executionControl]. rewrite Hc.
  destruct (decide (activeRequestSequence (tracker s) = Some n)) as [E|E];
    [rewrite !(bool_decide_eq_true_2 _ E)|rewrite !(bool_decide_eq_false_2 _ E)]; destruct streamed;
    rewrite ?E, ?(bool_decide_eq_true_2 (Some n = Some n) eq_refl), ?(bool_decide_eq_false_2 (@None Z = Some n)) by done;
    rewrite ?(bool_decide_eq_false_2 _ E); cbn [tracker withControl]; rewrite finish_spec by done;
    rewrite ?(bool_decide_eq_true_2 _ E), ?(bool_decide_eq_false_2 _ E); cbn; by rewrite ?Hc.
Qed.

(** [f] keeps the promise and ends the subscription. *)
Definition ends (f : Request → Request) : Prop :=
  ∀ r, outcome (f r) = outcome r ∧ (subscribed (f r) = true → streamed = false ∧ subscribed r = true).

Lemma ending_ok f n o s :
  ends f → executor_ok s → is_Some (requests s !! n) → executor_ok (ending f n o s).
Proof.
  intros Hf Hok [r0 Hr0]. rewrite ending_eq by done. destruct Hok as (Ht & He & Hc & Hr & Ha & Hcan).
  assert (Hother : ∀ m r, alter (settled o) n (alter f n (requests s)) !! m = Some r →
    (m ≠ n ∧ requests s !! m = Some r) ∨ (m = n ∧ r = settled o (f r0))).
  { intros m r. destruct (decide (m = n)) as [-> |Hne].
    - rewrite !lookup_alter_eq, Hr0. cbn. intros [= <-]. by right.
    - rewrite !lookup_alter_ne by done. by left. }
  destruct (Hf r0) as [Hout Hsub]. destruct (Hr n r0 Hr0) as (Hle & Hnone & Hsub0 & Hact).
  case_bool_decide as E.
  - split_and!; cbn.
    + done.
    + split; [done|by intros [? ?]].
    + by destruct streamed.
    + intros m r [[Hne Hm]|[-> ->]]%Hother; unfold request_ok; cbn.
      * destruct (Hr m r Hm) as (H1 & H2 & H3 & _). split_and!; [done| |intros H; apply H3 in H as [_ H]; congruence|done].
        rewrite H2, E. split; [intros [= ->]; done|done].
      * split_and!; [done|by split|intros H; apply Hsub in H as [H1 H2]; apply Hsub0 in H2 as [H2 _]; congruence|done].
    + done.
    + done.
  - split_and!; cbn; [done|done|done| | |done].
    + intros m r [[Hne Hm]|[-> ->]]%Hother; [by apply Hr|]. unfold request_ok. cbn. rewrite Hout.
      destruct (outcome r0) as [o'|] eqn:Eo; [|by rewrite <-Hnone in E].
      split_and!; [done|split; [done|intros H; by apply Hnone in H]|
        intros H; apply Hsub in H as [H1 H2]; apply Hsub0 in H2 as [H2 _]; congruence|done].
    + intros m Hm. destruct (decide (m = n)) as [-> |Hne]; [done|]. rewrite !lookup_alter_ne by done. auto.
Qed.

Lemma ending_outcome f n o s r :
  ends f → executor_ok s → requests s !! n = Some r → activeRequestSequence (tracker s) = Some n →
  let s' := ending f n o s in
  (outcome <$> requests s' !! n) = Some (Some o) ∧ executing s' = false ∧ canBeginSqlExecutionRequest (tracker s') = true.
Proof.
  intros Hf Hok Hr Ha s'. subst s'. rewrite ending_eq, (bool_decide_eq_true_2 _ Ha) by done. cbn. split_and!; [|done|done].
  rewrite !lookup_alter_eq, Hr. cbn. destruct Hok as (_ & _ & _ & Hreq & _). destruct (Hreq n r Hr) as (_ & Hnone & _).
  destruct (Hf r) as [-> _]. by rewrite (proj2 Hnone Ha).
Qed.

(** The operations that end a request. *)
Lemma rejectStart_ending n error cb s : ∃ rejection, rejectStart n error cb s = ending unsubscribed n (Rejected rejection) s.
Proof.
  unfold rejectStart, ending, unsubscribe. destruct (finishRequest n _) as [s' finished] eqn:E. by eexists.
Qed.

Lemma event_ending n event cb s : event ≠ Progress → ∃ o, eventArrived n event cb s = ending unsubscribed n o s.
Proof. destruct event; [done|..]; intros _; by eexists. Qed.

Lemma missing_ending n cb s :
  executor_ok s → executionControl s = Some n →
  onExecutionMissing n cb s =
  let s' := ending unsubscribed n (Resolved []) s in match cb with Some e => cancellationError e s' | None => s' end.
Proof.
  intros Hok Hc. pose proof Hok as (Ht & _ & Hc' & _). rewrite Hc in Hc'. destruct streamed; [|done].
  unfold onExecutionMissing. rewrite (bool_decide_eq_true_2 _ Hc), ending_eq, (bool_decide_eq_true_2 _ (eq_sym Hc')) by done.
  cbn [unsubscribe onRequest tracker]. rewrite finish_spec, (bool_decide_eq_true_2 _ (eq_sym Hc')) by done. done.
Qed.

Definition answerOutcome (answer : list IManageResultData + jstr) : Outcome :=
  match answer with
  | inl data => Resolved (if onlyOne then take 1 data else data)
  | inr error => Rejected (ThrownError error)
  end.

Lemma request_ending n answer s :
  streamed = false → executor_ok s → requestAnswered onlyOne n answer s = ending answered n (answerOutcome answer) s.
Proof.
  intros Hs (_ & _ & Hc & _). rewrite Hs in Hc. unfold requestAnswered, ending, clearControl, onRequest. cbn [executionControl].
  by rewrite Hc, bool_decide_eq_false_2.
Qed.

Lemma unsubscribed_ends : ends unsubscribed.
Proof. intros r. by split. Qed.

Lemma answered_ends : streamed = false → ends answered.
Proof. intros Hs r. by split. Qed.

Lemma cancellationError_ok error s : executor_ok s → executor_ok (cancellationError error s).
Proof. done. Qed.

Lemma onRequest_compose f g n s : onRequest g n (onRequest f n s) = onRequest (g ∘ f) n s.
Proof.
  unfold onRequest. cbn. f_equal. apply map_eq. intros m. destruct (decide (m = n)) as [-> |Hne].
  - rewrite !lookup_alter_eq. by destruct (requests s !! n).
  - by rewrite !lookup_alter_ne.
Qed.

Lemma rejectStart_after f n error cb s :
  ∃ rejection, rejectStart n error cb (onRequest f n s) = ending (unsubscribed ∘ f) n (Rejected rejection) s.
Proof.
  destruct (rejectStart_ending n error cb (onRequest f n s)) as [rejection ->]. exists rejection.
  unfold ending. by rewrite onRequest_compose.
Qed.

Lemma setId_spec t n id :
  tracker_ok t →
  setSqlExecutionRequestId t n id =
  if bool_decide (activeRequestSequence t = Some n)
  then (mkTracker (generationRef t) (Some n) (Some id) (cancelRequested t), true) else (t, false).
Proof.
  intros Hok. unfold setSqlExecutionRequestId. case_bool_decide as E.
  - by rewrite (proj2 (isCurrentRequest_true t n Hok)), E.
  - destruct (isCurrentRequest t n) eqn:E'; [|done]. by apply isCurrentRequest_true in E'.
Qed.

(** What the answer does when an execution was started. *)
Lemma started_eq n id s :
  executor_ok s →
  (let '(t, attached) := setSqlExecutionRequestId (tracker (onRequest answered n s)) n id in
   let s' := withTracker t (onRequest answered n s) in
   if attached && isSqlExecutionCancellationRequested t n then requestDesktopCancellation id n s' else s')
  = if bool_decide (activeRequestSequence (tracker s) = Some n)
    then mkExecutor (mkTracker (generationRef (tracker s)) (Some n) (Some id) (cancelRequested (tracker s))) (executing s)
           (executionControl s) (alter answered n (requests s))
           (if cancelRequested (tracker s) then cancels s ++ [(id, n)] else cancels s) (cancellationErrors s)
    else onRequest answered n s.
Proof.
  intros (Ht & _). cbn [onRequest tracker]. rewrite setId_spec by done.
  destruct (bool_decide (activeRequestSequence (tracker s) = Some n)); [|done].
  unfold isSqlExecutionCancellationRequested. cbn. rewrite bool_decide_eq_true_2 by done. cbn. by destruct (cancelRequested _).
Qed.

Lemma answered_lookup n m s r r0 :
  requests s !! n = Some r0 → alter answered n (requests s) !! m = Some r →
  (m ≠ n ∧ requests s !! m = Some r) ∨ (m = n ∧ r = answered r0).
Proof.
  intros Hr0. destruct (decide (m = n)) as [-> |Hne].
  - rewrite lookup_alter_eq, Hr0. cbn. intros [= <-]. by right.
  - rewrite lookup_alter_ne by done. by left.
Qed.

Lemma answered_is_Some n m s : is_Some (requests s !! m) → is_Some (alter answered n (requests s) !! m).
Proof. by rewrite lookup_alter_is_Some. Qed.

Lemma started_ok n id s r0 :
  streamed = true → executor_ok s → requests s !! n = Some r0 → id ≠ [] →
  executor_ok (if bool_decide (activeRequestSequence (tracker s) = Some n)
    then mkExecutor (mkTracker (generationRef (tracker s)) (Some n) (Some id) (cancelRequested (tracker s))) (executing s)
           (executionControl s) (alter answered n (requests s))
           (if cancelRequested (tracker s) then cancels s ++ [(id, n)] else cancels s) (cancellationErrors s)
    else onRequest answered n s).
Proof.
  intros Hs (Ht & He & Hc & Hr & Ha & Hcan) Hr0 Hid. case_bool_decide as E.
  - unfold tracker_ok in Ht. rewrite E in Ht. split_and!; cbn.
    + done.
    + by rewrite He, E.
    + by rewrite Hc, E.
    + intros m r [[Hne Hm]|[-> ->]]%(answered_lookup _ _ _ _ _ Hr0); unfold request_ok; cbn.
      * destruct (Hr m r Hm) as (H1 & H2 & H3 & _). rewrite E in H2, H3. split_and!; [done..|congruence].
      * destruct (Hr n r0 Hr0) as (H1 & H2 & H3 & H4). rewrite E in H2, H3, H4. split_and!; [done..|].
        specialize (H4 eq_refl). rewrite Hs in *. split; [apply H4|]. intros _. by exists id.
    + intros m [= <-]. by apply answered_is_Some, Ha.
    + intros m id' [= <-] [= <-]. split; [done|]. intros ->. apply elem_of_app. right. by apply list_elem_of_singleton.
  - split_and!; cbn; [done|done|done| | |done].
    + intros m r [[Hne Hm]|[-> ->]]%(answered_lookup _ _ _ _ _ Hr0); [by apply Hr|].
      destruct (Hr n r0 Hr0) as (H1 & H2 & H3 & _). split_and!; done.
    + intros m Hm. by apply answered_is_Some, Ha.
Qed.

Lemma startAnswered_ok n answer cb s r0 :
  streamed = true → executor_ok s → requests s !! n = Some r0 → executor_ok (startAnswered n answer cb s).
Proof.
  intros Hs Hok Hr0. unfold startAnswered.
  assert (Hends : ends (unsubscribed ∘ answered)) by (intros r; by split).
  assert (Hrej : ∀ error, executor_ok (rejectStart n error cb (onRequest answered n s))).
  { intros error. destruct (rejectStart_after answered n error cb s) as [rejection ->]. by apply ending_ok. }
  destruct answer as [response|error]; [|apply Hrej].
  destruct (nonEmptyText _) as [id|] eqn:Eid; [|apply Hrej]. rewrite started_eq by done. apply (started_ok _ _ _ r0); [done..|].
  intros ->. by destruct (response ≫= responseExecutionId) as [[|c t]|].
Qed.

Lemma executeSQL_ok params startThrows cb s :
  executor_ok s → executor_ok (executeSQL streamed defaultPageSize params startThrows cb s).1.
Proof.
  intros Hok. pose proof Hok as (Ht & He & Hc & Hr & Ha & Hcan). unfold executeSQL.
  destruct (paramDataSourceId params) as [id|]; [|done]. unfold beginSqlExecutionRequest, canBeginSqlExecutionRequest.
  destruct (activeRequestSequence (tracker s)) as [k|] eqn:Ek; cbn [negb]; [by destruct s|].
  set (n := beginLatestRequest _). set (starts := negb streamed || _).
  set (s1 := mkExecutor _ _ _ _ _ _).
  assert (Hfresh : ∀ m r, requests s !! m = Some r → m < n).
  { intros m r Hm. destruct (Hr m r Hm) as [H _]. unfold n, beginLatestRequest. lia. }
  (* with the start not failed yet *)
  set (s2 := mkExecutor (tracker s1) true (executionControl s1)
    (<[n := mkRequest (executeRequestOf defaultPageSize params id) streamed true None]> (requests s)) (cancels s) (cancellationErrors s)).
  assert (Hok2 : executor_ok s2).
  { split_and!; cbn.
    - done.
    - split; [intros _; by eexists|done].
    - rewrite Hc. by destruct streamed.
    - intros m r. destruct (decide (m = n)) as [-> |Hne].
      + rewrite lookup_insert_eq. intros [= <-]. split_and!; cbn; [done|done|by intros ->|]. intros _. by destruct streamed.
      + rewrite lookup_insert_ne by done. intros Hm. pose proof (Hfresh m r Hm). destruct (Hr m r Hm) as (H1 & H2 & H3 & _).
        rewrite Ek in H2, H3. split_and!; cbn; [lia| |intros H'; apply H3 in H' as [_ ?]; done|intros [= ->]; done].
        rewrite H2. split; [done|intros [= ->]; done].
    - intros m [= <-]. rewrite lookup_insert_eq. by eexists.
    - done. }
  destruct startThrows as [e|].
  - destruct streamed eqn:Es; [|exact Hok2]. cbn [fst].
    destruct (rejectStart_ending n (ThrownError e) cb s1) as [rejection ->].
    assert (Heq : ending unsubscribed n (Rejected rejection) s1 = ending (λ r, mkRequest (sent r) false false (outcome r)) n (Rejected rejection) s2).
    { unfold ending. f_equal. f_equal. unfold onRequest. f_equal. cbn. by rewrite !alter_insert_eq. }
    rewrite Heq. apply ending_ok; [by intros r; split|done|]. cbn. rewrite lookup_insert_eq. by eexists.
  - destruct streamed; exact Hok2.
Qed.

Lemma stop_eq s n :
  streamed = true → executor_ok s → activeRequestSequence (tracker s) = Some n →
  stopExecuteSQL streamed s =
  mkExecutor (mkTracker (generationRef (tracker s)) (Some n) (trackedExecutionId (tracker s)) true) (executing s) (executionControl s)
    (requests s) (match trackedExecutionId (tracker s) with Some id => cancels s ++ [(id, n)] | None => cancels s end)
    (cancellationErrors s).
Proof.
  intros Hs (_ & _ & _ & _ & _ & Hcan) Hn. unfold stopExecuteSQL, requestSqlExecutionCancellation. rewrite Hs, Hn.
  destruct (trackedExecutionId (tracker s)) as [id|] eqn:Eid; [|done]. destruct (Hcan n id Hn eq_refl) as [Hne _]. by destruct id.
Qed.

Lemma stop_ok s : executor_ok s → executor_ok (stopExecuteSQL streamed s).
Proof.
  intros Hok. destruct (decide (streamed = true)) as [Es|Es]; [|unfold stopExecuteSQL; by destruct streamed].
  destruct (activeRequestSequence (tracker s)) as [n|] eqn:En.
  - rewrite (stop_eq s n) by done. destruct Hok as (Ht & He & Hc & Hr & Ha & Hcan). unfold tracker_ok in Ht.
    rewrite En in *. split_and!; cbn; [done|done|done| |done|].
    + intros m r Hm. specialize (Hr m r Hm). unfold request_ok in *. rewrite En in Hr. done.
    + intros m id [= <-] Hid. rewrite Hid. destruct (Hcan n id eq_refl Hid) as [H1 _]. split; [done|]. intros _.
      apply elem_of_app. right. by apply list_elem_of_singleton.
  - unfold stopExecuteSQL, requestSqlExecutionCancellation. rewrite Es, En. by destruct s.
Qed.

Lemma dispatch_ok s i : executor_ok s → executor_ok (dispatch streamed onlyOne defaultPageSize s i).
Proof.
  intros Hok. destruct i as [params st cb| |n answer cb|n event cb|n id answer cb|n answer]; cbn [dispatch].
  - by apply executeSQL_ok.
  - by apply stop_ok.
  - destruct (requests s !! n) as [r|] eqn:Er; [|done]. destruct streamed eqn:Es; [|done]. cbn [andb].
    destruct (starting r); [|done]. by eapply startAnswered_ok.
  - destruct (requests s !! n) as [r|] eqn:Er; [|done]. destruct (subscribed r); [|done].
    destruct (decide (event = Progress)) as [-> |Hne]; [done|]. destruct (event_ending n event cb s Hne) as [o ->].
    by apply ending_ok; [apply unsubscribed_ends|..].
  - case_bool_decide; [|done]. destruct answer as [| |error]; [done| |by apply cancellationError_ok]. cbn [cancelAnswered].
    destruct (decide (executionControl s = Some n)) as [E|E].
    + rewrite missing_ending by done. assert (Hreq : is_Some (requests s !! n)).
      { destruct Hok as (_ & _ & Hc & _ & Ha & _). apply Ha. rewrite Hc in E. by destruct streamed. }
      pose proof (ending_ok unsubscribed n (Resolved []) s unsubscribed_ends Hok Hreq). by destruct cb.
    + unfold onExecutionMissing. by rewrite bool_decide_eq_false_2.
  - destruct (requests s !! n) as [r|] eqn:Er; [|done]. destruct streamed eqn:Es; [done|]. cbn [andb negb].
    destruct (starting r); [|done]. rewrite (request_ending n answer s Es Hok).
    by apply ending_ok; [by apply answered_ends|..].
Qed.

Lemma run_inputs_ok inputs : executor_ok (run streamed onlyOne defaultPageSize inputs).
Proof.
  unfold run. assert (H : executor_ok newExecutor) by (split_and!; cbn; (done || by destruct streamed || by split; [|intros [??]])).
  revert H. generalize newExecutor. induction inputs as [|i inputs IH]; intros s H; [done|]. by apply IH, dispatch_ok.
Qed.

(** ** Properties *)

Lemma clearControl_tracker n s : tracker (clearControl n s) = tracker s.
Proof. unfold clearControl. by case_bool_decide. Qed.

Lemma rejectStart_active f n error cb s :
  executor_ok s → activeRequestSequence (tracker s) = Some n →
  rejectStart n error cb (onRequest f n s)
  = ending (unsubscribed ∘ f) n (Rejected (match cb with Some e => ThrownError e | None => error end)) s.
Proof.
  intros (Ht & _) Ha. unfold rejectStart, ending, unsubscribe, finishRequest. rewrite onRequest_compose, clearControl_tracker.
  cbn [onRequest tracker]. rewrite finish_spec, (bool_decide_eq_true_2 _ Ha) by done. done.
Qed.

Lemma ending_other f n m o s :
  executor_ok s → activeRequestSequence (tracker s) = Some n → m ≠ n →
  activeRequestSequence (tracker (ending f m o s)) = Some n ∧ requests (ending f m o s) !! n = requests s !! n.
Proof.
  intros Hok Ha Hne. rewrite ending_eq, bool_decide_eq_false_2 by (done || congruence). cbn. by rewrite !lookup_alter_ne.
Qed.

(** How the promise of the running request [n] is settled by an input, if it is. *)
Definition outcomeOf (s : Executor) (n : Z) (r : Request) (i : Input) : option Outcome :=
  match i with
  | ExecuteInput _ _ _ | StopInput => None
  | StartAnswerInput m answer cb =>
      let rejected (error : jstr) := Some (Rejected (ThrownError (default error cb))) in
      if (m =? n) && streamed && starting r then
        match answer with
        | StartThrew error => rejected error
        | Started response =>
            match nonEmptyText (response ≫= responseExecutionId) with
            | None => rejected (getStartExecutionError response)
            | Some _ => None
            end
        end
      else None
  | EventInput m event cb =>
      if (m =? n) && streamed then
        match event, cb with
        | Progress, _ => None
        | _, Some e => Some (Rejected (ThrownError e))
        | Failed message, None => Some (Rejected (FailedEvent message))
        | _, None => Some (Resolved [])
        end
      else None
  | CancelAnswerInput m id answer _ =>
      match answer with
      | ExecutionMissing => if (m =? n) && streamed && bool_decide ((id, n) ∈ cancels s) then Some (Resolved []) else None
      | _ => None
      end
  | RequestAnswerInput m answer =>
      if (m =? n) && negb streamed then Some (answerOutcome answer) else None
  end.

Definition runs (n : Z) (s : Executor) : Prop :=
  activeRequestSequence (tracker s) = Some n ∧ (outcome <$> requests s !! n) = Some None.

Definition ended (n : Z) (o : Outcome) (s : Executor) : Prop :=
  (outcome <$> requests s !! n) = Some (Some o) ∧ executing s = false ∧ canBeginSqlExecutionRequest (tracker s) = true.

Lemma runs_active n s r :
  executor_ok s → requests s !! n = Some r → activeRequestSequence (tracker s) = Some n → runs n s.
Proof.
  intros (_ & _ & _ & Hr & _) Er Ha. split; [done|]. rewrite Er. cbn. destruct (Hr n r Er) as (_ & Hnone & _).
  by rewrite (proj2 Hnone Ha).
Qed.

Lemma runs_ending_other f n m o s :
  executor_ok s → runs n s → m ≠ n → runs n (ending f m o s).
Proof. intros Hok [Ha Ho] Hne. unfold runs. by destruct (ending_other f n m o s Hok Ha Hne) as [-> ->]. Qed.

Lemma start_outcome s n m r answer cb :
  executor_ok s → requests s !! n = Some r → runs n s →
  let i := StartAnswerInput m answer cb in
  match outcomeOf s n r i with
  | Some o => ended n o (dispatch streamed onlyOne defaultPageSize s i)
  | None => runs n (dispatch streamed onlyOne defaultPageSize s i)
  end.
Proof.
  intros Hok Hr Hruns i. pose proof Hruns as [Ha _]. subst i. cbn [outcomeOf dispatch].
  assert (Hends : ends (unsubscribed ∘ answered)) by (intros x; by split).
  destruct (Z.eqb_spec m n) as [-> |Hne]; cbn [andb].
  - rewrite Hr. destruct (streamed && starting r) eqn:E; [|done]. apply andb_true_iff in E as [Es Est].
    assert (Hrej : ∀ error, ended n (Rejected (ThrownError (default error cb))) (rejectStart n (ThrownError error) cb (onRequest answered n s))).
    { intros error. rewrite rejectStart_active by done. destruct cb; by apply (ending_outcome _ _ _ _ r). }
    unfold startAnswered. destruct answer as [response|error]; [|apply Hrej].
    destruct (nonEmptyText _) as [id|]; [|apply Hrej]. rewrite started_eq, (bool_decide_eq_true_2 _ Ha) by done.
    split; [done|]. cbn. rewrite lookup_alter_eq, Hr. cbn. destruct Hruns as [_ Ho]. by rewrite Hr in Ho.
  - destruct (requests s !! m) as [r'|] eqn:Em; [|done]. destruct (streamed && starting r'); [|done].
    assert (Hrej : ∀ error, runs n (rejectStart m (ThrownError error) cb (onRequest answered m s))).
    { intros error. destruct (rejectStart_after answered m (ThrownError error) cb s) as [o ->]. by apply runs_ending_other. }
    unfold startAnswered. destruct answer as [response|error]; [|apply Hrej].
    destruct (nonEmptyText _) as [id|]; [|apply Hrej]. rewrite started_eq, bool_decide_eq_false_2 by (done || congruence).
    split; [done|]. cbn. rewrite lookup_alter_ne by done. apply Hruns.
Qed.

Lemma event_outcome s n m r event cb :
  executor_ok s → requests s !! n = Some r → runs n s →
  let i := EventInput m event cb in
  match outcomeOf s n r i with
  | Some o => ended n o (dispatch streamed onlyOne defaultPageSize s i)
  | None => runs n (dispatch streamed onlyOne defaultPageSize s i)
  end.
Proof.
  intros Hok Hr Hruns i. pose proof Hruns as [Ha _]. subst i. cbn [outcomeOf dispatch].
  destruct (Z.eqb_spec m n) as [-> |Hne]; cbn [andb].
  - pose proof Hok as (_ & _ & _ & Hreq & _). destruct (Hreq n r Hr) as (_ & _ & Hsub & Hstream). specialize (Hstream Ha).
    rewrite Hr. destruct (decide (streamed = true)) as [Es|Es%not_true_is_false]; rewrite Es in *.
    + destruct Hstream as [-> _]. destruct event; [done|..]; destruct cb; by apply (ending_outcome _ _ _ _ r unsubscribed_ends).
    + destruct (subscribed r); [by destruct (Hsub eq_refl)|done].
  - destruct (requests s !! m) as [r'|]; [|done]. destruct (subscribed r'); [|done].
    destruct (decide (event = Progress)) as [-> |Hp]; [done|]. destruct (event_ending m event cb s Hp) as [o ->].
    by apply runs_ending_other.
Qed.

Lemma ended_error n o error s : ended n o s → ended n o (cancellationError error s).
Proof. done. Qed.

Lemma cancel_outcome s n m r id answer cb :
  executor_ok s → requests s !! n = Some r → runs n s →
  let i := CancelAnswerInput m id answer cb in
  match outcomeOf s n r i with
  | Some o => ended n o (dispatch streamed onlyOne defaultPageSize s i)
  | None => runs n (dispatch streamed onlyOne defaultPageSize s i)
  end.
Proof.
  intros Hok Hr Hruns i. pose proof Hruns as [Ha _]. subst i. cbn [outcomeOf dispatch].
  destruct answer as [| |error]; [by case_bool_decide| |by case_bool_decide]. cbn [cancelAnswered].
  destruct (Z.eqb_spec m n) as [-> |Hne]; cbn [andb].
  - destruct (decide (streamed = true)) as [Es|Es%not_true_is_false]; rewrite Es; cbn [andb].
    + case_bool_decide; [|done]. pose proof Hok as (_ & _ & Hc & _). rewrite Es, Ha in Hc.
      rewrite missing_ending by done. pose proof (ending_outcome _ n (Resolved []) s r unsubscribed_ends Hok Hr Ha) as Hend.
      by destruct cb; [apply ended_error|].
    + pose proof Hok as (_ & _ & Hc & _). rewrite Es in Hc. unfold onExecutionMissing.
      rewrite Hc, (bool_decide_eq_false_2 (None = Some n)) by done. by case_bool_decide.
  - case_bool_decide; [|done]. destruct (decide (executionControl s = Some m)) as [E|E].
    + pose proof Hok as (_ & _ & Hc & _). rewrite E, Ha in Hc. destruct streamed; congruence.
    + unfold onExecutionMissing. by rewrite bool_decide_eq_false_2.
Qed.

Lemma request_outcome s n m r answer :
  executor_ok s → requests s !! n = Some r → runs n s →
  let i := RequestAnswerInput m answer in
  match outcomeOf s n r i with
  | Some o => ended n o (dispatch streamed onlyOne defaultPageSize s i)
  | None => runs n (dispatch streamed onlyOne defaultPageSize s i)
  end.
Proof.
  intros Hok Hr Hruns i. pose proof Hruns as [Ha _]. subst i. cbn [outcomeOf dispatch].
  destruct (Z.eqb_spec m n) as [-> |Hne]; cbn [andb].
  - pose proof Hok as (_ & _ & _ & Hreq & _). destruct (Hreq n r Hr) as (_ & _ & _ & Hstream). specialize (Hstream Ha).
    rewrite Hr. destruct (decide (streamed = true)) as [Es|Es%not_true_is_false]; rewrite Es in *; [done|]. rewrite Hstream.
    cbn [negb andb]. rewrite request_ending by done. by apply (ending_outcome _ _ _ _ r (answered_ends Es)).
  - destruct (requests s !! m) as [r'|]; [|done].
    destruct (decide (streamed = true)) as [Es|Es%not_true_is_false]; rewrite Es; [done|]. destruct (starting r'); [|done].
    cbn [negb andb]. rewrite request_ending by done. by apply runs_ending_other.
Qed.

(** Nothing that was sent and no promise that was settled is different later. *)
Definition keepsSettled (s s' : Executor) : Prop :=
  ∀ m r o, requests s !! m = Some r → outcome r = Some o → ∃ r', requests s' !! m = Some r' ∧ sent r' = sent r ∧ outcome r' = Some o.

Lemma keepsSettled_same s s' : requests s' = requests s → keepsSettled s s'.
Proof. intros He m r o Hr Ho. exists r. by rewrite He. Qed.

Lemma keepsSettled_onRequest f n s s' :
  requests s' = alter f n (requests s) → (∀ r o, outcome r = Some o → sent (f r) = sent r ∧ outcome (f r) = Some o) → keepsSettled s s'.
Proof.
  intros He Hf m r o Hr Ho. rewrite He. destruct (decide (m = n)) as [-> |Hne].
  - exists (f r). rewrite lookup_alter_eq, Hr. split; [done|by apply Hf].
  - exists r. by rewrite lookup_alter_ne.
Qed.

Lemma keepsSettled_ending f n o s : (∀ r, sent (f r) = sent r ∧ outcome (f r) = outcome r) → keepsSettled s (ending f n o s).
Proof.
  intros Hf. apply (keepsSettled_onRequest (settled o ∘ f) n).
  - assert (requests (ending f n o s) = alter (settled o) n (alter f n (requests s))) as ->.
    { unfold ending, finishRequest, clearControl. case_bool_decide; by destruct (finishSqlExecutionRequest _ n) as [t [|]]. }
    exact (f_equal requests (onRequest_compose f (settled o) n s)).
  - intros r o' Ho. destruct (Hf r) as [Hs Ho']. cbn. by rewrite Ho', Ho.
Qed.

Lemma dispatch_keepsSettled s i : executor_ok s → keepsSettled s (dispatch streamed onlyOne defaultPageSize s i).
Proof.
  intros Hok. destruct i as [params st cb| |n answer cb|n event cb|n id answer cb|n answer]; cbn [dispatch].
  - unfold executeSQL. destruct (paramDataSourceId params) as [id|]; [|done || by apply keepsSettled_same].
    unfold beginSqlExecutionRequest. destruct (canBeginSqlExecutionRequest (tracker s)); cbn [negb]; [|by apply keepsSettled_same].
    set (n := beginLatestRequest _). set (s1 := mkExecutor _ _ _ _ _ _).
    assert (keepsSettled s s1) as Hins.
    { intros m r o Hr Ho. exists r. subst s1. cbn. rewrite lookup_insert_ne; [done|]. pose proof Hok as (_ & _ & _ & Hreq & _).
      destruct (Hreq m r Hr) as [Hle _]. unfold n, beginLatestRequest. lia. }
    destruct st as [e|]; [|exact Hins]. destruct streamed; [|exact Hins]. cbn [fst].
    destruct (rejectStart_ending n (ThrownError e) cb s1) as [o ->]. intros m r o' Hr Ho. destruct (Hins m r o' Hr Ho) as (r1 & Hr1 & Hs1 & Ho1).
    destruct (keepsSettled_ending unsubscribed n (Rejected o) s1 (λ r, conj eq_refl eq_refl) m r1 o' Hr1 Ho1) as (r2 & ? & Hs2 & ?).
    exists r2. by rewrite Hs2.
  - apply keepsSettled_same. unfold stopExecuteSQL. destruct streamed; [|done].
    destruct (requestSqlExecutionCancellation (tracker s)) as [t c]. by destruct (nonEmptyText c), (activeRequestSequence (tracker s)).
  - destruct (requests s !! n); [|by apply keepsSettled_same]. destruct (streamed && _); [|by apply keepsSettled_same]. unfold startAnswered.
    assert (Hrej : ∀ error, keepsSettled s (rejectStart n error cb (onRequest answered n s))).
    { intros error. destruct (rejectStart_after answered n error cb s) as [o ->]. by apply keepsSettled_ending. }
    destruct answer as [response|error]; [|apply Hrej]. destruct (nonEmptyText _); [|apply Hrej].
    rewrite started_eq by done. apply (keepsSettled_onRequest answered n); [by case_bool_decide|done].
  - destruct (requests s !! n) as [r|]; [|by apply keepsSettled_same]. destruct (subscribed r); [|by apply keepsSettled_same].
    destruct (decide (event = Progress)) as [-> |Hp]; [by apply keepsSettled_same|]. destruct (event_ending n event cb s Hp) as [o ->].
    by apply keepsSettled_ending.
  - case_bool_decide; [|by apply keepsSettled_same]. destruct answer as [| |error]; [by apply keepsSettled_same| |by apply keepsSettled_same].
    cbn [cancelAnswered]. destruct (decide (executionControl s = Some n)) as [E|E].
    + rewrite missing_ending by done. pose proof (keepsSettled_ending unsubscribed n (Resolved []) s (λ r, conj eq_refl eq_refl)). by destruct cb.
    + apply keepsSettled_same. unfold onExecutionMissing. by rewrite bool_decide_eq_false_2.
  - destruct (requests s !! n) as [r|]; [|by apply keepsSettled_same].
    destruct (decide (streamed = false)) as [Es|Es%not_false_is_true]; rewrite Es; [|by apply keepsSettled_same].
    destruct (starting r); [|by apply keepsSettled_same]. cbn [negb andb]. rewrite request_ending by done. by apply keepsSettled_ending.
Qed.

(** C4: the running execution is the one thing that keeps an editor busy, and
    its promise is settled by exactly these inputs, with these outcomes: the answer
    that nothing was started, the event that ends it, the answer to a cancellation
    that the engine knows no such execution, or, without events, the answer itself.
    Then the editor is free again.  Everything else - late answers of earlier
    executions, progress, attempts to execute, cancellations that were accepted or
    failed - leaves it running.  And whatever arrives, a promise that was settled
    keeps its outcome: no request but the running one is settled, and none again. *)
Theorem execution_outcome inputs i :
  let s := run streamed onlyOne defaultPageSize inputs in
  let s' := dispatch streamed onlyOne defaultPageSize s i in
  (∀ m r o, requests s !! m = Some r → outcome r = Some o → ∃ r', requests s' !! m = Some r' ∧ sent r' = sent r ∧ outcome r' = Some o)
  ∧ (∀ m r, requests s !! m = Some r → outcome r = None → activeRequestSequence (tracker s) = Some m)
  ∧ (∀ n r, activeRequestSequence (tracker s) = Some n → requests s !! n = Some r →
       match outcomeOf s n r i with Some o => ended n o s' | None => runs n s' end).
Proof.
  intros s s'. assert (Hok : executor_ok s) by apply run_inputs_ok. clearbody s.
  split; [by apply dispatch_keepsSettled|split].
  { intros m r Hr Ho. destruct Hok as (_ & _ & _ & Hreq & _). destruct (Hreq m r Hr) as (_ & Hn & _). by apply Hn. }
  intros n r Ha Hr. pose proof (runs_active n s r Hok Hr Ha) as Hruns. destruct i as [params st cb| |m answer cb|m event cb|m id answer cb|m answer].
  - subst s'. cbn [outcomeOf dispatch]. unfold executeSQL. destruct (paramDataSourceId params); [|done].
    unfold beginSqlExecutionRequest, canBeginSqlExecutionRequest. by rewrite Ha.
  - subst s'. cbn [outcomeOf dispatch]. unfold stopExecuteSQL, requestSqlExecutionCancellation. destruct streamed; [|done].
    rewrite Ha. cbn. destruct (nonEmptyText _); (split; [done|apply Hruns]).
  - by apply start_outcome.
  - by apply event_outcome.
  - by apply cancel_outcome.
  - by apply request_outcome.
Qed.

(** C3: an editor runs one execution at a time.  It shows that it is executing
    exactly while a request is active; the promise of a request is open, and its
    events are subscribed to, only while it is the active one, so no promise and
    no subscription is left behind; and whoever executes meanwhile is told that the
    editor is busy, which changes nothing. *)
Theorem one_execution inputs :
  let s := run streamed onlyOne defaultPageSize inputs in
  let active := activeRequestSequence (tracker s) in
  (executing s = true ↔ is_Some active) ∧
  (∀ n r, requests s !! n = Some r → (outcome r = None ↔ active = Some n) ∧ (subscribed r = true → active = Some n)) ∧
  (∀ n, active = Some n → is_Some (requests s !! n)) ∧
  (∀ params startThrows cb, is_Some (paramDataSourceId params) → is_Some active →
    executeSQL streamed defaultPageSize params startThrows cb s = (s, inr SqlExecutionBusyError)).
Proof.
  intros s active. destruct (run_inputs_ok inputs) as (_ & He & _ & Hr & Ha & _). fold s in He, Hr, Ha. split_and!; [done| |done|].
  - intros n r H. destruct (Hr n r H) as (_ & H2 & H3 & _). split; [done|]. intros Hs. by apply H3 in Hs as [_ ?].
  - intros params st cb [id Hid] [n Hn]. unfold executeSQL. rewrite Hid. unfold beginSqlExecutionRequest, canBeginSqlExecutionRequest.
    subst active. rewrite Hn. by destruct s.
Qed.

(** A cancellation is remembered while its request runs. *)
Lemma cancel_remembered s n i :
  executor_ok s → activeRequestSequence (tracker s) = Some n → cancelRequested (tracker s) = true →
  let s' := dispatch streamed onlyOne defaultPageSize s i in
  activeRequestSequence (tracker s') = Some n → cancelRequested (tracker s') = true.
Proof.
  intros Hok Ha Hcancel. assert (Hend : ∀ f m o, activeRequestSequence (tracker (ending f m o s)) = Some n →
    cancelRequested (tracker (ending f m o s)) = true).
  { intros f m o. rewrite ending_eq by done. by case_bool_decide. }
  destruct i as [params st cb| |m answer cb|m event cb|m id answer cb|m answer]; cbn [dispatch].
  - unfold executeSQL. destruct (paramDataSourceId params); [|done]. unfold beginSqlExecutionRequest, canBeginSqlExecutionRequest.
    by rewrite Ha.
  - destruct (decide (streamed = true)) as [Es|Es%not_true_is_false].
    + by rewrite (stop_eq s n).
    + unfold stopExecuteSQL. by rewrite Es.
  - destruct (requests s !! m); [|done]. destruct (streamed && _); [|done]. unfold startAnswered.
    assert (Hrej : ∀ error, activeRequestSequence (tracker (rejectStart m error cb (onRequest answered m s))) = Some n →
      cancelRequested (tracker (rejectStart m error cb (onRequest answered m s))) = true).
    { intros error. destruct (rejectStart_after answered m error cb s) as [o ->]. apply Hend. }
    destruct answer as [response|error]; [|apply Hrej]. destruct (nonEmptyText _); [|apply Hrej].
    rewrite started_eq by done. by case_bool_decide.
  - destruct (requests s !! m) as [r|]; [|done]. destruct (subscribed r); [|done].
    destruct (decide (event = Progress)) as [-> |Hp]; [done|]. destruct (event_ending m event cb s Hp) as [o ->]. apply Hend.
  - case_bool_decide; [|done]. destruct answer as [| |error]; [done| |done]. cbn [cancelAnswered].
    destruct (decide (executionControl s = Some m)) as [E|E].
    + rewrite missing_ending by done. specialize (Hend unsubscribed m (Resolved [])). by destruct cb.
    + unfold onExecutionMissing. by rewrite bool_decide_eq_false_2.
  - destruct (requests s !! m) as [r|]; [|done]. destruct (decide (streamed = false)) as [Es|Es%not_false_is_true]; rewrite Es; [|done].
    destruct (starting r); [|done]. cbn [negb andb]. rewrite request_ending by done. apply Hend.
Qed.

(** Every input acts on the tracker by its operations. *)
Lemma ending_tracker f n o s : tracker (ending f n o s) = tracker_run (tracker s) (TFinish n).
Proof.
  unfold ending, finishRequest. rewrite clearControl_tracker. cbn [onRequest tracker tracker_run].
  destruct (finishSqlExecutionRequest (tracker s) n) as [t finished]. by destruct finished.
Qed.

Lemma dispatch_tracker s i :
  executor_ok s → ∃ ops, tracker (dispatch streamed onlyOne defaultPageSize s i) = fold_left tracker_run ops (tracker s).
Proof.
  intros Hok. assert (Hnone : ∃ ops, tracker s = fold_left tracker_run ops (tracker s)) by (by exists []).
  assert (Hend : ∀ f m o, ∃ ops, tracker (ending f m o s) = fold_left tracker_run ops (tracker s)).
  { intros f m o. exists [TFinish m]. apply ending_tracker. }
  destruct i as [params st cb| |m answer cb|m event cb|m id answer cb|m answer]; cbn [dispatch].
  - unfold executeSQL. destruct (paramDataSourceId params); [|done].
    destruct (beginSqlExecutionRequest (tracker s)) as [t [k|]] eqn:Et; [|exists [TBegin]; cbn; by rewrite Et].
    destruct st as [e|]; [destruct streamed|].
    + exists [TBegin; TFinish k]. cbn [fst]. set (s1 := mkExecutor _ _ _ _ _ _).
      destruct (rejectStart_ending k (ThrownError e) cb s1) as [o ->]. rewrite ending_tracker. subst s1. cbn. by rewrite Et.
    + exists [TBegin]. cbn. by rewrite Et.
    + exists [TBegin]. cbn. by rewrite Et.
  - unfold stopExecuteSQL. destruct streamed; [|done]. exists [TCancel]. cbn [fold_left tracker_run].
    destruct (requestSqlExecutionCancellation (tracker s)) as [t c]. by destruct (nonEmptyText c), (activeRequestSequence (tracker s)).
  - destruct (requests s !! m); [|done]. destruct (streamed && _); [|done]. unfold startAnswered.
    assert (Hrej : ∀ error, ∃ ops, tracker (rejectStart m error cb (onRequest answered m s)) = fold_left tracker_run ops (tracker s)).
    { intros error. destruct (rejectStart_after answered m error cb s) as [o ->]. apply Hend. }
    destruct answer as [response|error]; [|apply Hrej]. destruct (nonEmptyText _) as [id|]; [|apply Hrej].
    exists [TSetId m id]. cbn [fold_left tracker_run onRequest tracker].
    destruct (setSqlExecutionRequestId (tracker s) m id) as [t b]. cbn. by destruct (b && _).
  - destruct (requests s !! m) as [r|]; [|done]. destruct (subscribed r); [|done].
    destruct (decide (event = Progress)) as [-> |Hp]; [done|]. destruct (event_ending m event cb s Hp) as [o ->]. apply Hend.
  - case_bool_decide; [|done]. destruct answer as [| |error]; [done| |done]. cbn [cancelAnswered].
    destruct (decide (executionControl s = Some m)) as [E|E].
    + rewrite missing_ending by done. specialize (Hend unsubscribed m (Resolved [])). by destruct cb.
    + unfold onExecutionMissing. by rewrite bool_decide_eq_false_2.
  - destruct (requests s !! m) as [r|]; [|done]. destruct (decide (streamed = false)) as [Es|Es%not_false_is_true]; rewrite Es; [|done].
    destruct (starting r); [|done]. cbn [negb andb]. rewrite request_ending by done. apply Hend.
Qed.

(** A sequence number becomes active only when it is new. *)
Lemma tracker_run_active t op n :
  activeRequestSequence (tracker_run t op) = Some n → activeRequestSequence t = Some n ∨ generationRef t < n.
Proof.
  destruct op as [|m id|m|]; cbn; unfold beginSqlExecutionRequest, setSqlExecutionRequestId, finishSqlExecutionRequest,
    requestSqlExecutionCancellation, beginLatestRequest; repeat case_match; cbn; try (by left); try done.
  - intros [= <-]. right. lia.
  - intros H'. left. congruence.
Qed.

Lemma tracker_runs_active ops : ∀ t n,
  activeRequestSequence (fold_left tracker_run ops t) = Some n → activeRequestSequence t = Some n ∨ generationRef t < n.
Proof.
  induction ops as [|op ops IH]; intros t n Hn; [by left|]. apply IH in Hn as [Hn|Hn]; [by apply (tracker_run_active _ op)|].
  right. pose proof (tracker_generation_mono t op). lia.
Qed.

Lemma tracker_runs_mono ops : ∀ t, generationRef t <= generationRef (fold_left tracker_run ops t).
Proof. induction ops as [|op ops IH]; intros t; cbn; [lia|]. etrans; [apply (tracker_generation_mono t op)|apply IH]. Qed.

Lemma cancel_remembered_run n inputs : ∀ s,
  executor_ok s → n <= generationRef (tracker s) →
  (activeRequestSequence (tracker s) = Some n → cancelRequested (tracker s) = true) →
  let s' := fold_left (dispatch streamed onlyOne defaultPageSize) inputs s in
  activeRequestSequence (tracker s') = Some n → cancelRequested (tracker s') = true.
Proof.
  induction inputs as [|i inputs IH]; intros s Hok Hgen Hc; [done|]. destruct (dispatch_tracker s i Hok) as [ops Hops].
  apply IH; [by apply dispatch_ok| |].
  - rewrite Hops. pose proof (tracker_runs_mono ops (tracker s)). lia.
  - intros Ha. pose proof Ha as Hold. rewrite Hops in Hold. apply tracker_runs_active in Hold as [Hold|Hold]; [|lia].
    apply (cancel_remembered s n i); auto.
Qed.

(** C28: a cancellation is never lost.  If the user stops while an execution is
    active and it is still active later, then either its start has not been
    answered yet, or the engine has been asked to cancel the execution it started
    for it - even when its identifier arrived only after the user stopped. *)
Theorem cancellation_reaches_engine before after n :
  streamed = true →
  activeRequestSequence (tracker (run streamed onlyOne defaultPageSize before)) = Some n →
  let s := run streamed onlyOne defaultPageSize (before ++ StopInput :: after) in
  activeRequestSequence (tracker s) = Some n →
  ∃ r, requests s !! n = Some r ∧
    (starting r = true ∨ ∃ id, trackedExecutionId (tracker s) = Some id ∧ (id, n) ∈ cancels s).
Proof.
  intros Hs Hbefore s Ha. pose proof (run_inputs_ok (before ++ StopInput :: after)) as Hok. fold s in Hok.
  assert (Hcancel : cancelRequested (tracker s) = true).
  { subst s. unfold run in Ha |- *. rewrite fold_left_app in Ha |- *. cbn [fold_left] in Ha |- *. set (s0 := fold_left _ before _) in *.
    assert (Hok0 : executor_ok s0) by apply run_inputs_ok.
    apply (cancel_remembered_run n after (dispatch streamed onlyOne defaultPageSize s0 StopInput)); [by apply dispatch_ok| | |done];
      cbn [dispatch]; rewrite (stop_eq s0 n) by done; [|done].
    destruct Hok0 as (Ht & _). unfold tracker_ok in Ht. change (activeRequestSequence (tracker s0) = Some n) in Hbefore.
    rewrite Hbefore in Ht. cbn. lia. }
  destruct Hok as (_ & _ & _ & Hr & Hact & Hcan). destruct (Hact n Ha) as [r Er]. exists r. split; [done|].
  destruct (Hr n r Er) as (_ & _ & _ & Hstream). specialize (Hstream Ha). rewrite Hs in Hstream. destruct Hstream as [_ Hid].
  destruct (starting r); [by left|]. right. destruct (Hid eq_refl) as (id & Hid' & _). exists id. split; [done|]. by apply Hcan.
Qed.
End invariant.

(** The user runs a statement and stops before the engine has answered. *)
Definition demoParams : IExecuteSqlParams := mkExecuteParams (Some 1) None None (js "select 1") None None None None None None None None.

Lemma cancellation_reaches_engine_witness :
  let s := run true false 200 ([ExecuteInput demoParams None None] ++ StopInput ::
    [StartAnswerInput 1 (Started (Some (mkStartResponse (Some (js "e1")) NoMessage None))) None; EventInput 1 Progress None]) in
  activeRequestSequence (tracker s) = Some 1 ∧ cancels s = [(js "e1", 1)] ∧
  ∃ r, requests s !! 1 = Some r ∧ (starting r = true ∨ ∃ id, trackedExecutionId (tracker s) = Some id ∧ (id, 1) ∈ cancels s).
Proof.
  split; [reflexivity|]. split; [reflexivity|].
  apply (cancellation_reaches_engine true false 200 [ExecuteInput demoParams None None]); reflexivity.
Defined.

(** The engine does not know the execution: the promise is resolved, and an error of the start that comes later does not change it. *)
Lemma execution_outcome_witness :
  let started := [ExecuteInput demoParams None None; StartAnswerInput 1 (Started (Some (mkStartResponse (Some (js "e1")) NoMessage None))) None; StopInput] in
  (∃ r, requests (run true false 200 started) !! 1 = Some r ∧
     ended 1 (Resolved []) (dispatch true false 200 (run true false 200 started) (CancelAnswerInput 1 (js "e1") ExecutionMissing None)))
  ∧ (let s := run true false 200 [ExecuteInput demoParams None None; EventInput 1 Finished None] in
     ∃ r', requests (dispatch true false 200 s (StartAnswerInput 1 (StartThrew (js "late")) None)) !! 1 = Some r' ∧ outcome r' = Some (Resolved [])).
Proof.
  split.
  - eexists. split; [reflexivity|].
    apply (execution_outcome true false 200 [ExecuteInput demoParams None None;
      StartAnswerInput 1 (Started (Some (mkStartResponse (Some (js "e1")) NoMessage None))) None; StopInput]
      (CancelAnswerInput 1 (js "e1") ExecutionMissing None)) with (n := 1) (r := mkRequest (executeRequestOf 200 demoParams 1) true false None); reflexivity.
  - destruct (execution_outcome true false 200 [ExecuteInput demoParams None None; EventInput 1 Finished None]
      (StartAnswerInput 1 (StartThrew (js "late")) None)) as [H _].
    destruct (H 1 (mkRequest (executeRequestOf 200 demoParams 1) false true (Some (Resolved []))) (Resolved [])) as (r' & ? & _ & ?);
      [reflexivity..|]. by exists r'.
Defined.
