(* ===== verification/UpdateChecks.v ===== *)
(** * UpdateChecks: looking for updates of the application

    Models [store/global/slices/hotUpdate/action.ts], [setUpdateDetail] of
    [store/global/slices/settings/action.ts], [blocks/UpdateDetection/updateCheckSchedule.ts]
    and the effects of [blocks/UpdateDetection/index.tsx] that schedule checks: the
    status of an update, the one check that all triggers share, and the timer of
    the scheduled checks.  The desktop updater answers later, and pushes its
    progress at any time. *)

From S2P Require Import Prelude.
Local Open Scope Z_scope.

(** ** Data *)

Inductive UpdatedStatus := Default | Available | NotAvailable | Updating | Updated | Installing | Installed | UpdateFailed.
Inductive UpdateCheckTrigger := Startup | Scheduled | Manual.

#[export] Instance UpdatedStatus_eq_dec : EqDecision UpdatedStatus.
Proof. solve_decision. Defined.
#[export] Instance UpdateCheckTrigger_eq_dec : EqDecision UpdateCheckTrigger.
Proof. solve_decision. Defined.

(** What is written to the detail; [None] is a field that is not there. *)
Record IUpdateDetail := mkDetail { status : option UpdatedStatus; progress : option Z; version : option jstr }.

Record StoredDetail := mkStored { currentStatus : UpdatedStatus; currentProgress : option Z; currentVersion : option jstr }.

Record IHotUpdateConfig := mkConfig { remindMe : bool; autoDownload : bool; autoInstall : bool; receiveBeta : bool }.
Inductive ConfigProperty := PRemindMe | PAutoDownload | PAutoInstall | PReceiveBeta.

Definition setProperty (p : ConfigProperty) (value : bool) (c : IHotUpdateConfig) : IHotUpdateConfig :=
  match p with
  | PRemindMe => mkConfig value (autoDownload c) (autoInstall c) (receiveBeta c)
  | PAutoDownload => mkConfig (remindMe c) value (autoInstall c) (receiveBeta c)
  | PAutoInstall => mkConfig (remindMe c) (autoDownload c) value (receiveBeta c)
  | PReceiveBeta => mkConfig (remindMe c) (autoDownload c) (autoInstall c) value
  end.

(** What [updateAndRestartApp] waits for. *)
Inductive InstallPhase := WaitsForInstallation | WaitsForRestart.

(** The timer of the scheduled checks: the effect's [cancelled], [running],
    whether [timer] is armed, [round] and [dueAt]. *)
Record Schedule := mkSchedule {
  cancelled : bool;
  running : bool;
  armed : bool;
  round : Z;
  dueAt : Z;
}.

(** [pendingCheck] is what the updater was asked (the trigger, and whether the
    product was activated offline) and everyone who awaits its answer; [answers] is what each of them was told, in order. *)
Record UpdateState := mkUpdate {
  updateDetail : StoredDetail;
  hotUpdateConfig : IHotUpdateConfig;
  offlineActivation : bool;
  pendingCheck : option ((UpdateCheckTrigger * bool) * list UpdateCheckTrigger);
  answers : list (UpdateCheckTrigger * bool);
  installs : list InstallPhase;
  schedule : option Schedule;
}.

Definition initialHotUpdateState : UpdateState :=
  mkUpdate (mkStored Default None None) (mkConfig true false false false) false None [] [] None.

Definition withDetail (d : StoredDetail) (s : UpdateState) : UpdateState :=
  mkUpdate d (hotUpdateConfig s) (offlineActivation s) (pendingCheck s) (answers s) (installs s) (schedule s).
Definition withConfig (c : IHotUpdateConfig) (s : UpdateState) : UpdateState :=
  mkUpdate (updateDetail s) c (offlineActivation s) (pendingCheck s) (answers s) (installs s) (schedule s).
Definition setOfflineActivation (b : bool) (s : UpdateState) : UpdateState :=
  mkUpdate (updateDetail s) (hotUpdateConfig s) b (pendingCheck s) (answers s) (installs s) (schedule s).
Definition withPending (p : option ((UpdateCheckTrigger * bool) * list UpdateCheckTrigger)) (s : UpdateState) : UpdateState :=
  mkUpdate (updateDetail s) (hotUpdateConfig s) (offlineActivation s) p (answers s) (installs s) (schedule s).
Definition answer (l : list (UpdateCheckTrigger * bool)) (s : UpdateState) : UpdateState :=
  mkUpdate (updateDetail s) (hotUpdateConfig s) (offlineActivation s) (pendingCheck s) (answers s ++ l) (installs s) (schedule s).
Definition withInstalls (l : list InstallPhase) (s : UpdateState) : UpdateState :=
  mkUpdate (updateDetail s) (hotUpdateConfig s) (offlineActivation s) (pendingCheck s) (answers s) l (schedule s).
Definition withSchedule (x : option Schedule) (s : UpdateState) : UpdateState :=
  mkUpdate (updateDetail s) (hotUpdateConfig s) (offlineActivation s) (pendingCheck s) (answers s) (installs s) x.

(** [Object.assign(draft, updateDetail)]. *)
Definition setUpdateDetail (d : IUpdateDetail) (s : UpdateState) : UpdateState :=
  let o := updateDetail s in
  let orOld {A} (n old : option A) := match n with Some _ => n | None => old end in
  withDetail (mkStored (default (currentStatus o) (status d)) (orOld (progress d) (currentProgress o)) (orOld (version d) (currentVersion o))) s.

Definition setStatus (x : UpdatedStatus) (s : UpdateState) : UpdateState := setUpdateDetail (mkDetail (Some x) None None) s.
Definition statusOf (s : UpdateState) : UpdatedStatus := currentStatus (updateDetail s).

(** ** The status of an update *)

Definition hasPendingUpdate (x : UpdatedStatus) : bool :=
  match x with Available | Updating | Updated | Installing | Installed => true | _ => false end.

Definition isUpdateInProgress (x : UpdatedStatus) : bool :=
  match x with Updating | Installing | Installed => true | _ => false end.

Definition keepsUpdateProgress (current next : UpdatedStatus) : bool :=
  if isUpdateInProgress current then true
  else match current with
       | Updated => match next with Available | Updated => false | _ => true end
       | _ => false
       end.

Definition applyCheckStatus (x : UpdatedStatus) (v : option jstr) (s : UpdateState) : UpdateState :=
  if keepsUpdateProgress (statusOf s) x then s else setUpdateDetail (mkDetail (Some x) None v) s.

(** ** The schedule *)

(** The delays in minutes. *)
Definition UPDATE_CHECK_INTERVAL_MINUTES : list Z := [30; 60; 120; 240; 360].

(** [Z.rem] is the remainder of the language, whose sign is that of the round. *)
Definition updateCheckDelayMs (r : Z) : Z :=
  let n := Z.of_nat (length UPDATE_CHECK_INTERVAL_MINUTES) in
  let index := Z.rem (Z.rem r n + n) n in
  default 0 (UPDATE_CHECK_INTERVAL_MINUTES !! Z.to_nat index) * 60 * 1000.

Definition nextCheckDueAt (now r : Z) : Z := now + updateCheckDelayMs r.

Definition isCheckDue (now due : Z) : bool := (0 <? due) && (due <=? now).

Definition shouldNotifyVersion (v : option jstr) (lastNotifiedVersion : jstr) : bool :=
  match v with
  | None | Some [] => false
  | Some v => negb (bool_decide (v = lastNotifiedVersion))
  end.

Definition nextNotifiedVersion (remind : bool) (v : option jstr) (lastNotifiedVersion : jstr) : jstr :=
  if remind && shouldNotifyVersion v lastNotifiedVersion then default [] v else lastNotifiedVersion.

(** Arms the timer at time [now]. *)
Definition scheduleNext (now : Z) (c : Schedule) : Schedule :=
  mkSchedule (cancelled c) (running c) true (round c) (nextCheckDueAt now (round c)).

(** [finally] of the scheduled check. *)
Definition scheduledSettled (now : Z) (c : Schedule) : Schedule :=
  if cancelled c then mkSchedule true false (armed c) (round c) (dueAt c)
  else scheduleNext now (mkSchedule false false (armed c) (round c + 1) (dueAt c)).

(** [clearTimeout(timer)], and a timer that has fired. *)
Definition disarm (c : Schedule) : Schedule := mkSchedule (cancelled c) (running c) false (round c) (dueAt c).

(** What an answer to these callers does to the schedule. *)
Definition settleCallers (now : Z) (callers : list UpdateCheckTrigger) (s : UpdateState) : UpdateState :=
  if bool_decide (Scheduled ∈ callers) then withSchedule (scheduledSettled now <$> schedule s) s else s.

Section updates.
(** [isDesktop] and [clientRuntime.enableAutoUpdate]. *)
Context (isDesktop enableAutoUpdate : bool).

(** A disabled check is answered at once. *)
Definition handleCheckUpdate (now : Z) (trigger : UpdateCheckTrigger) (s : UpdateState) : UpdateState :=
  if negb isDesktop || negb enableAutoUpdate then settleCallers now [trigger] (answer [(trigger, false)] s)
  else
    match pendingCheck s with
    | Some (asked, callers) => withPending (Some (asked, callers ++ [trigger])) s
    | None => withPending (Some ((trigger, offlineActivation s), [trigger])) s
    end.

(** The end of [performCheck], and [finally]; [None] is a failed check. *)
Definition checkAnswered (now : Z) (response : option (UpdatedStatus * option jstr)) (s : UpdateState) : UpdateState :=
  match pendingCheck s with
  | None => s
  | Some (_, callers) =>
      let s := match response with
               | Some (x, v) => applyCheckStatus x v s
               | None => applyCheckStatus UpdateFailed None s
               end in
      let available := hasPendingUpdate (statusOf s) in
      settleCallers now callers (answer (map (λ c, (c, available)) callers) (withPending None s))
  end.

(** [updateAndRestartApp] up to its first answer. *)
Definition updateAndRestartApp (s : UpdateState) : UpdateState :=
  if negb enableAutoUpdate then s
  else if bool_decide (statusOf s = Updated) then withInstalls (installs s ++ [WaitsForInstallation]) (setStatus Installing s)
  else withInstalls (installs s ++ [WaitsForRestart]) s.

(** The [k]-th call is answered; [Some true] is an installation that was accepted
    or a restart that was begun, [None] an error. *)
Definition installAnswered (k : nat) (accepted : option bool) (s : UpdateState) : UpdateState :=
  match installs s !! k with
  | None => s
  | Some WaitsForInstallation =>
      match accepted with
      | Some true => withInstalls (<[k := WaitsForRestart]> (installs s)) s
      | _ => setStatus UpdateFailed (withInstalls (delete k (installs s)) s)
      end
  | Some WaitsForRestart =>
      let s := withInstalls (delete k (installs s)) s in
      match accepted with Some _ => s | None => setStatus UpdateFailed s end
  end.

(** The answer of [updatePreferences]; [None] is an error. *)
Definition syncUpdatePreferences (preferences : option bool) (s : UpdateState) : UpdateState :=
  if negb isDesktop || negb enableAutoUpdate then s
  else match preferences with Some beta => withConfig (setProperty PReceiveBeta beta (hotUpdateConfig s)) s | None => s end.

(** [saved] and [receiveBeta] of the answer, [None] for an error. *)
Definition updateHotUpdateConfig (p : ConfigProperty) (value : bool) (saved : option (bool * bool)) (s : UpdateState) : UpdateState :=
  match p with
  | PReceiveBeta =>
      if isDesktop && enableAutoUpdate then
        match saved with
        | Some (true, beta) => withConfig (setProperty p beta (hotUpdateConfig s)) s
        | _ => s
        end
      else withConfig (setProperty p value (hotUpdateConfig s)) s
  | _ => withConfig (setProperty p value (hotUpdateConfig s)) s
  end.

(** ** The effects of the component *)

(** The effect that schedules checks, once the application is ready. *)
Definition startSchedule (now : Z) (s : UpdateState) : UpdateState :=
  if enableAutoUpdate then withSchedule (Some (scheduleNext now (mkSchedule false false false 0 0))) s else s.

Definition onSchedule (f : Schedule → Schedule) (s : UpdateState) : UpdateState := withSchedule (f <$> schedule s) s.

Definition runCheck (now : Z) (s : UpdateState) : UpdateState :=
  match schedule s with
  | Some c => if running c then s
              else handleCheckUpdate now Scheduled (onSchedule (λ c, mkSchedule (cancelled c) true (armed c) (round c) (dueAt c)) s)
  | None => s
  end.

Definition timerFired (now : Z) (s : UpdateState) : UpdateState :=
  match schedule s with
  | Some c => if armed c then let s := onSchedule disarm s in if cancelled c then s else runCheck now s else s
  | None => s
  end.

(** [catchUp]: the window is shown or gets the focus. *)
Definition catchUp (now : Z) (visible : bool) (s : UpdateState) : UpdateState :=
  match schedule s with
  | Some c => if cancelled c || negb visible || negb (isCheckDue now (dueAt c)) then s else runCheck now (onSchedule disarm s)
  | None => s
  end.

(** The clean-up of the effect. *)
Definition stopSchedule (s : UpdateState) : UpdateState :=
  onSchedule (λ c, disarm (mkSchedule true (running c) (armed c) (round c) (dueAt c))) s.

Inductive UpdateInput :=
  | StartScheduleInput (now : Z)
  | TimerInput (now : Z)
  | CatchUpInput (now : Z) (visible : bool)
  | StopScheduleInput
  | CheckInput (now : Z) (trigger : UpdateCheckTrigger)
  | CheckAnswerInput (now : Z) (response : option (UpdatedStatus * option jstr))
  | ProgressInput (d : IUpdateDetail)
  | RestartInput
  | InstallAnswerInput (k : nat) (accepted : option bool)
  | DownloadRefusedInput
  | OfflineInput (value : bool)
  | SyncInput (preferences : option bool)
  | ConfigInput (p : ConfigProperty) (value : bool) (saved : option (bool * bool)).

(** The effect runs once; only its own check has the trigger [Scheduled]. *)
Definition updateStep (s : UpdateState) (i : UpdateInput) : UpdateState :=
  match i with
  | StartScheduleInput now => match schedule s with None => startSchedule now s | Some _ => s end
  | TimerInput now => timerFired now s
  | CatchUpInput now visible => catchUp now visible s
  | StopScheduleInput => stopSchedule s
  | CheckInput now trigger => match trigger with Scheduled => s | _ => handleCheckUpdate now trigger s end
  | CheckAnswerInput now response => checkAnswered now response s
  | ProgressInput d => setUpdateDetail d s
  | RestartInput => updateAndRestartApp s
  | InstallAnswerInput k accepted => installAnswered k accepted s
  | DownloadRefusedInput => setStatus UpdateFailed s
  | OfflineInput value => setOfflineActivation value s
  | SyncInput preferences => syncUpdatePreferences preferences s
  | ConfigInput p value saved => updateHotUpdateConfig p value saved s
  end.

Definition updateRun (inputs : list UpdateInput) : UpdateState := fold_left updateStep inputs initialHotUpdateState.
End updates.

(** ** The invariant of the checks *)

Section properties.
Context (isDesktop enableAutoUpdate : bool).
Notation step := (updateStep isDesktop enableAutoUpdate).
Notation handleCheck := (handleCheckUpdate isDesktop enableAutoUpdate).

Definition waiting (s : UpdateState) : list UpdateCheckTrigger := match pendingCheck s with Some (_, l) => l | None => [] end.

(** The schedule waits for its check, or its timer is armed. *)
Definition schedule_ok (w : list UpdateCheckTrigger) (c : Schedule) : Prop :=
  (running c = true ↔ Scheduled ∈ w) ∧ (cancelled c = false → armed c = negb (running c)) ∧ 0 <= round c.

Definition checks_ok (s : UpdateState) : Prop :=
  match schedule s with Some c => schedule_ok (waiting s) c | None => Scheduled ∉ waiting s end ∧
  (∀ asked, pendingCheck s ≠ Some (asked, [])) ∧
  (negb isDesktop || negb enableAutoUpdate = true → pendingCheck s = None).

Lemma setUpdateDetail_ok d s : checks_ok s → checks_ok (setUpdateDetail d s).
Proof. done. Qed.

(** A caller other than the schedule asks. *)
Lemma check_ok now trigger s : trigger ≠ Scheduled → checks_ok s → checks_ok (handleCheck now trigger s).
Proof.
  intros Ht Hok. pose proof Hok as (H1 & H2 & H3). unfold handleCheckUpdate.
  destruct (negb isDesktop || negb enableAutoUpdate) eqn:E.
  - unfold settleCallers. rewrite bool_decide_eq_false_2 by (intros ?%list_elem_of_singleton; congruence). exact Hok.
  - unfold checks_ok, waiting in *. destruct (pendingCheck s) as [[asked l]|]; cbn in *.
    + split_and!; [|intros a [= _ H]; by destruct l|by rewrite E].
      destruct (schedule s); [|intros [?|?%list_elem_of_singleton]%elem_of_app; by try congruence].
      destruct H1 as (Ha & Hb & Hc). split_and!; [|done|done]. rewrite Ha, elem_of_app, list_elem_of_singleton. naive_solver.
    + split_and!; [|done|by rewrite E]. destruct (schedule s); [|by intros ?%list_elem_of_singleton].
      destruct H1 as (Ha & Hb & Hc). split_and!; [|done|done]. rewrite Ha, list_elem_of_singleton.
      split; [by intros ?%not_elem_of_nil|congruence].
Qed.

(** The schedule asks, its timer being disarmed. *)
Lemma runCheck_ok now s c :
  schedule s = Some c → cancelled c = false → checks_ok s → checks_ok (runCheck isDesktop enableAutoUpdate now (onSchedule disarm s)).
Proof.
  intros Hs Hc (H1 & H2 & H3). rewrite Hs in H1. destruct H1 as (Ha & Hb & Hd). unfold runCheck, onSchedule.
  cbn [withSchedule schedule]. rewrite Hs. cbn [fmap option_fmap option_map]. cbn [disarm running].
  destruct (running c) eqn:Er.
  - split_and!; [|done|done]. split_and!; cbn; [by rewrite Er| |done]. intros _. by rewrite Er.
  - assert (Hw : Scheduled ∉ waiting s) by (intros H; apply Ha in H; done).
    unfold handleCheckUpdate. destruct (negb isDesktop || negb enableAutoUpdate) eqn:E.
    + unfold settleCallers. rewrite (bool_decide_eq_true_2 (Scheduled ∈ [Scheduled])) by (by apply list_elem_of_singleton). cbn. unfold scheduledSettled. cbn.
      rewrite Hc. cbn. split_and!; [|done|by intros _; apply H3]. split_and!; cbn; [|done|lia]. by split.
    + unfold checks_ok, waiting in *. cbn [withSchedule pendingCheck]. destruct (pendingCheck s) as [[asked l]|]; cbn in *.
      * split_and!; [|intros a [= _ H]; by destruct l|by rewrite E]. split_and!; cbn; [|done|done]. split; [|done]. intros _.
        apply elem_of_app. right. by apply list_elem_of_singleton.
      * split_and!; [|done|by rewrite E]. split_and!; cbn; [|done|done]. split; [|done]. intros _. by apply list_elem_of_singleton.
Qed.

Lemma checkAnswered_ok now response s : checks_ok s → checks_ok (checkAnswered now response s).
Proof.
  intros Hok. unfold checkAnswered. destruct (pendingCheck s) as [[asked l]|] eqn:Ep; [|done].
  set (s1 := match response with Some _ => _ | None => _ end).
  assert (Hs1 : schedule s1 = schedule s ∧ pendingCheck s1 = pendingCheck s).
  { subst s1. unfold applyCheckStatus. destruct response as [[x v]|]; by case_match. }
  destruct Hs1 as [Hsch _]. destruct Hok as (H1 & H2 & H3). unfold waiting in H1. rewrite Ep in H1.
  unfold settleCallers. cbn [answer withPending schedule]. case_bool_decide as Hin; unfold checks_ok, waiting; cbn; rewrite Hsch.
  - destruct (schedule s) as [c|]; [|done]. destruct H1 as (Ha & Hb & Hc). split_and!; [|done|done]. cbn.
    unfold scheduledSettled. destruct (cancelled c) eqn:Ec; split_and!; cbn; (done || lia || by split; [|intros ?%not_elem_of_nil]).
  - destruct (schedule s) as [c|]; [|split_and!; [by intros ?%not_elem_of_nil|done|done]]. destruct H1 as (Ha & Hb & Hc).
    split_and!; [|done|done]. split_and!; [|done|done]. rewrite Ha. split; [done|by intros ?%not_elem_of_nil].
Qed.

Lemma step_checks_ok s i : checks_ok s → checks_ok (step s i).
Proof.
  intros Hok. pose proof Hok as (H1 & H2 & H3).
  destruct i as [now|now|now visible| |now trigger|now response|d| |k accepted| |value|prefs|p value saved]; cbn [updateStep].
  - destruct (schedule s) as [c|] eqn:Es; [done|]. unfold startSchedule. destruct enableAutoUpdate eqn:Ee; [|done].
    split_and!; [|done|apply Hok]. split_and!; cbn; [by split|done|done].
  - unfold timerFired. destruct (schedule s) as [c|] eqn:Es; [|done]. destruct (armed c) eqn:Ea; [|done].
    destruct (cancelled c) eqn:Ec; [|by apply (runCheck_ok _ _ c)]. unfold onSchedule. rewrite Es. cbn.
    split_and!; [|done|done]. cbn. destruct H1 as (Ha & Hb & Hc). split_and!; cbn; [done|congruence|done].
  - unfold catchUp. destruct (schedule s) as [c|] eqn:Es; [|done]. destruct (cancelled c) eqn:Ec; [done|].
    cbn [orb]. destruct (negb visible || _); [done|]. by apply (runCheck_ok _ _ c).
  - unfold stopSchedule, onSchedule, checks_ok, waiting in *. cbn. destruct (schedule s) as [c|]; [|done]. cbn.
    split_and!; [|done|done]. destruct H1 as (Ha & Hb & Hc). by split_and!.
  - destruct trigger; [by apply check_ok|done|by apply check_ok].
  - by apply checkAnswered_ok.
  - done.
  - unfold updateAndRestartApp. destruct enableAutoUpdate; [|done]. cbn [negb]. by case_bool_decide.
  - unfold installAnswered. destruct (installs s !! k) as [[]|]; [|by destruct accepted|done]. by destruct accepted as [[]|].
  - done.
  - done.
  - unfold syncUpdatePreferences. destruct (negb isDesktop || negb enableAutoUpdate); [done|]. by destruct prefs.
  - unfold updateHotUpdateConfig. destruct p; [done..|]. destruct (isDesktop && enableAutoUpdate); [|done]. by destruct saved as [[[] ?]|].
Qed.

Lemma updateRun_ok inputs : checks_ok (updateRun isDesktop enableAutoUpdate inputs).
Proof.
  unfold updateRun. assert (H : checks_ok initialHotUpdateState) by (split_and!; cbn; (done || by intros ?%not_elem_of_nil)).
  revert H. generalize initialHotUpdateState. induction inputs as [|i inputs IH]; intros s H; [done|]. by apply IH, step_checks_ok.
Qed.

(** ** Properties *)

Lemma settleCallers_detail now l s : updateDetail (settleCallers now l s) = updateDetail s ∧ answers (settleCallers now l s) = answers s.
Proof. unfold settleCallers. by case_bool_decide. Qed.

Lemma handleCheck_detail now t s : updateDetail (handleCheck now t s) = updateDetail s.
Proof.
  unfold handleCheckUpdate. destruct (negb isDesktop || negb enableAutoUpdate); [|by destruct (pendingCheck s) as [[??]|]].
  by rewrite (proj1 (settleCallers_detail _ _ _)).
Qed.

Lemma runCheck_detail now s : updateDetail (runCheck isDesktop enableAutoUpdate now s) = updateDetail s.
Proof. unfold runCheck. destruct (schedule s) as [c|]; [|done]. destruct (running c); [done|]. by rewrite handleCheck_detail. Qed.

Definition answeredWith (response : option (UpdatedStatus * option jstr)) (s : UpdateState) : UpdateState :=
  match response with Some (x, v) => applyCheckStatus x v s | None => applyCheckStatus UpdateFailed None s end.

Lemma checkAnswered_spec now response s asked callers :
  pendingCheck s = Some (asked, callers) →
  let s' := checkAnswered now response s in
  updateDetail s' = updateDetail (answeredWith response s) ∧
  answers s' = answers s ++ map (λ c, (c, hasPendingUpdate (statusOf s'))) callers.
Proof.
  intros Hp. cbn zeta. unfold checkAnswered. rewrite Hp. fold (answeredWith response s). unfold statusOf.
  destruct (settleCallers_detail now callers (answer (map (λ c, (c, hasPendingUpdate (currentStatus (updateDetail (answeredWith response s)))))
    callers) (withPending None (answeredWith response s)))) as [-> ->]. cbn. split; [done|]. f_equal.
  unfold answeredWith, applyCheckStatus. destruct response as [[x v]|]; by case_match.
Qed.

Definition furtherAlong (x : UpdatedStatus) : bool := isUpdateInProgress x || bool_decide (x = Updated).

(** An update that is downloading, downloaded, installing or installed is
    only moved on by the updater's progress, by a restart, by a refused download or
    installation, or, once it is downloaded, by a newer release a check finds.
    Nothing else touches what is stored of it: no check that fails or finds
    nothing, however long ago it was started, no timer and no change of the
    settings.  Everyone who waits for such a check is told of the update. *)
Theorem progress_survives_checks s i :
  furtherAlong (statusOf s) = true →
  match i with
  | ProgressInput _ | RestartInput | InstallAnswerInput _ _ | DownloadRefusedInput => True
  | CheckAnswerInput now response =>
      (updateDetail (step s i) = updateDetail s ∨
       statusOf s = Updated ∧ ∃ x v, response = Some (x, v) ∧ (x = Available ∨ x = Updated) ∧ statusOf (step s i) = x) ∧
      ∀ asked callers, pendingCheck s = Some (asked, callers) → answers (step s i) = answers s ++ map (λ c, (c, true)) callers
  | _ => updateDetail (step s i) = updateDetail s
  end.
Proof.
  intros Hfar. destruct i as [now|now|now visible| |now trigger|now response|d| |k accepted| |value|prefs|p value saved]; cbn [updateStep]; try done.
  - destruct (schedule s); [done|]. unfold startSchedule. by destruct enableAutoUpdate.
  - unfold timerFired. destruct (schedule s) as [c|]; [|done]. destruct (armed c); [|done]. cbn zeta. destruct (cancelled c); [done|].
    by rewrite runCheck_detail.
  - unfold catchUp. destruct (schedule s) as [c|]; [|done]. destruct (_ || _); [done|]. by rewrite runCheck_detail.
  - destruct trigger; [apply handleCheck_detail|done|apply handleCheck_detail].
  - destruct (pendingCheck s) as [[asked callers]|] eqn:Ep.
    2: { unfold checkAnswered. rewrite Ep. split; [by left|done]. }
    destruct (checkAnswered_spec now response s asked callers Ep) as [Hd Ha].
    assert (Hcase : updateDetail (answeredWith response s) = updateDetail s ∨
      statusOf s = Updated ∧ ∃ x v, response = Some (x, v) ∧ (x = Available ∨ x = Updated) ∧ statusOf (answeredWith response s) = x).
    { unfold answeredWith, applyCheckStatus, keepsUpdateProgress. unfold furtherAlong in Hfar.
      destruct (isUpdateInProgress (statusOf s)) eqn:Ei; [left; by destruct response as [[??]|]|]. cbn in Hfar. to_prop. rewrite Hfar.
      destruct response as [[x v]|]; [|by left]. destruct x; try (by left); right; (split; [done|]); eexists _, _; (split; [done|]); auto. }
    split.
    + unfold statusOf in *. by rewrite Hd.
    + intros asked' callers' [= <- <-]. rewrite Ha. f_equal. apply map_ext. intros c. f_equal. unfold statusOf. rewrite Hd.
      destruct Hcase as [-> |[_ (x & v & _ & Hx & E)]].
      * unfold furtherAlong in Hfar. unfold statusOf in Hfar. by destruct (currentStatus (updateDetail s)).
      * unfold statusOf in E. rewrite E. by destruct Hx as [-> | ->].
  - unfold syncUpdatePreferences. destruct (_ || _); [done|]. by destruct prefs.
  - unfold updateHotUpdateConfig. destruct p; [done..|]. destruct (_ && _); [|done]. by destruct saved as [[[] ?]|].
Qed.

(** How often a trigger asked, was answered and still waits. *)
Definition asks (t : UpdateCheckTrigger) (i : UpdateInput) : bool := match i with CheckInput _ t' => bool_decide (t' = t) | _ => false end.
Definition timesAnswered (t : UpdateCheckTrigger) (s : UpdateState) : nat := length (List.filter (λ a, bool_decide (a.1 = t)) (answers s)).
Definition timesWaiting (t : UpdateCheckTrigger) (s : UpdateState) : nat := length (List.filter (λ t', bool_decide (t' = t)) (waiting s)).
Definition account (t : UpdateCheckTrigger) (s : UpdateState) : nat := timesAnswered t s + timesWaiting t s.

Lemma account_answers t s l : account t (answer l s) = (account t s + length (List.filter (λ a, bool_decide (a.1 = t)) l))%nat.
Proof. unfold account, timesAnswered, timesWaiting, waiting. cbn. rewrite List.filter_app, length_app. lia. Qed.

Lemma account_settle t now l s : account t (settleCallers now l s) = account t s.
Proof. unfold settleCallers. by case_bool_decide. Qed.

Lemma account_handleCheck t t' now s :
  account t (handleCheck now t' s) = (account t s + if bool_decide (t' = t) then 1 else 0)%nat.
Proof.
  unfold handleCheckUpdate. destruct (negb isDesktop || negb enableAutoUpdate).
  - rewrite account_settle, account_answers. cbn. by case_bool_decide.
  - unfold account, timesAnswered, timesWaiting, waiting. destruct (pendingCheck s) as [[asked l]|]; cbn.
    + rewrite List.filter_app, length_app. cbn. case_bool_decide; cbn; lia.
    + case_bool_decide; cbn; lia.
Qed.

Lemma account_checkAnswered t now response s : account t (checkAnswered now response s) = account t s.
Proof.
  destruct (pendingCheck s) as [[asked callers]|] eqn:Ep; [|unfold checkAnswered; by rewrite Ep].
  assert (Hl : ∀ b l, length (List.filter (λ a : UpdateCheckTrigger * bool, bool_decide (a.1 = t)) (map (λ c, (c, b)) l))
    = length (List.filter (λ t', bool_decide (t' = t)) l)).
  { intros b l. induction l as [|c l IH]; [done|]. cbn. case_bool_decide; cbn; by rewrite IH. }
  unfold checkAnswered. rewrite Ep. fold (answeredWith response s). rewrite account_settle, account_answers, Hl.
  assert (Hs : answers (answeredWith response s) = answers s).
  { unfold answeredWith, applyCheckStatus. destruct response as [[x v]|]; by case_match. }
  unfold account, timesAnswered, timesWaiting, waiting. cbn. rewrite Hs, Ep. cbn. lia.
Qed.

Lemma account_runCheck t now s : t ≠ Scheduled → account t (runCheck isDesktop enableAutoUpdate now s) = account t s.
Proof.
  intros Ht. unfold runCheck. destruct (schedule s) as [c|]; [|done]. destruct (running c); [done|].
  rewrite account_handleCheck, bool_decide_eq_false_2 by congruence. unfold account, timesAnswered, timesWaiting, waiting. cbn. lia.
Qed.

Lemma account_step t s i : t ≠ Scheduled → account t (step s i) = (account t s + if asks t i then 1 else 0)%nat.
Proof.
  intros Ht. destruct i as [now|now|now visible| |now trigger|now response|d| |k accepted| |value|prefs|p value saved];
    cbn [updateStep asks]; rewrite ?Nat.add_0_r.
  - destruct (schedule s); [done|]. unfold startSchedule. by destruct enableAutoUpdate.
  - unfold timerFired. destruct (schedule s) as [c|]; [|done]. destruct (armed c); [|done]. cbn zeta. destruct (cancelled c); [done|].
    by rewrite account_runCheck.
  - unfold catchUp. destruct (schedule s) as [c|]; [|done]. destruct (_ || _); [done|]. by rewrite account_runCheck.
  - done.
  - destruct trigger; [apply account_handleCheck| |apply account_handleCheck]. rewrite bool_decide_eq_false_2 by congruence. lia.
  - apply account_checkAnswered.
  - done.
  - unfold updateAndRestartApp. destruct enableAutoUpdate; [|done]. cbn [negb]. by case_bool_decide.
  - unfold installAnswered. destruct (installs s !! k) as [[]|]; [|by destruct accepted|done]. by destruct accepted as [[]|].
  - done.
  - done.
  - unfold syncUpdatePreferences. destruct (_ || _); [done|]. by destruct prefs.
  - unfold updateHotUpdateConfig. destruct p; [done..|]. destruct (_ && _); [|done]. by destruct saved as [[[] ?]|].
Qed.

(** The delays repeat, between half an hour and six hours. *)
Lemma delay_cycle r : 0 <= r →
  updateCheckDelayMs r = default 0 (UPDATE_CHECK_INTERVAL_MINUTES !! Z.to_nat (r mod 5)) * 60000 ∧
  30 * 60000 <= updateCheckDelayMs r <= 360 * 60000.
Proof.
  intros Hr. unfold updateCheckDelayMs. change (Z.of_nat (length UPDATE_CHECK_INTERVAL_MINUTES)) with 5.
  assert (Heq : Z.rem (Z.rem r 5 + 5) 5 = r mod 5).
  { rewrite (Z.rem_mod_nonneg r 5) by lia. rewrite Z.rem_mod_nonneg by (pose proof (Z.mod_pos_bound r 5 eq_refl); lia).
    rewrite Z.add_mod_idemp_l by lia. rewrite <-(Z.add_mod_idemp_r r 5 5), Z.mod_same, Z.add_0_r by lia. done. }
  rewrite Heq. split; [by rewrite <-Z.mul_assoc|]. pose proof (Z.mod_pos_bound r 5 eq_refl) as Hb. revert Hb. generalize (r mod 5). intros m Hm.
  assert (m = 0 ∨ m = 1 ∨ m = 2 ∨ m = 3 ∨ m = 4) as [-> |[-> |[-> |[-> | ->]]]] by lia; by vm_compute.
Qed.

(** C29: triggers that overlap share one check, and nobody is forgotten: at any
    time, everyone who asked has been answered exactly once or waits for the check
    that is running.  The scheduled checks never die out: until the component is
    closed, either the running check is going to answer the schedule too, or its
    timer is armed; and the answer arms the timer for the next interval, which lies
    between half an hour and six hours. *)
Theorem checks_answered_and_scheduled inputs :
  let s := updateRun isDesktop enableAutoUpdate inputs in
  (∀ t, t ≠ Scheduled → length (List.filter (asks t) inputs) = (timesAnswered t s + timesWaiting t s)%nat) ∧
  ∀ c, schedule s = Some c → cancelled c = false →
    armed c = negb (running c) ∧ (running c = true ↔ Scheduled ∈ waiting s) ∧
    ∀ now response, running c = true →
      schedule (checkAnswered now response s) = Some (mkSchedule false false true (round c + 1) (now + updateCheckDelayMs (round c + 1))) ∧
      30 * 60000 <= updateCheckDelayMs (round c + 1) <= 360 * 60000.
Proof.
  intros s. split.
  - intros t Ht. change (length (List.filter (asks t) inputs) = account t s). subst s. unfold updateRun.
    assert (H : ∀ s0, account t (fold_left step inputs s0) = (account t s0 + length (List.filter (asks t) inputs))%nat).
    { induction inputs as [|i inputs IH]; intros s0; cbn [fold_left List.filter]; [cbn; lia|].
      rewrite IH, account_step by done. destruct (asks t i); cbn; lia. }
    rewrite H. done.
  - intros c Hs Hc. destruct (updateRun_ok inputs) as (H1 & H2 & _). fold s in H1, H2. rewrite Hs in H1.
    destruct H1 as (Ha & Hb & Hd). split; [by apply Hb|]. split; [done|]. intros now response Hr. apply Ha in Hr as Hin.
    split; [|apply delay_cycle; lia].
    unfold waiting in Hin. unfold checkAnswered. destruct (pendingCheck s) as [[asked l]|]; [|by apply not_elem_of_nil in Hin].
    fold (answeredWith response s). unfold settleCallers. rewrite (bool_decide_eq_true_2 _ Hin). cbn.
    assert (Hsch : schedule (answeredWith response s) = schedule s).
    { unfold answeredWith, applyCheckStatus. destruct response as [[x v]|]; by case_match. }
    rewrite Hsch, Hs. cbn. unfold scheduledSettled. by rewrite Hc.
Qed.
End properties.


(** A manual check overlaps the one at startup; the download begins meanwhile, and
    the check that fails afterwards does not end it. *)
Lemma progress_survives_checks_witness :
  let s := updateRun true true [CheckInput 0 Startup; CheckInput 5 Manual; ProgressInput (mkDetail (Some Updating) (Some 10) None)] in
  furtherAlong (statusOf s) = true ∧ pendingCheck s = Some ((Startup, false), [Startup; Manual]) ∧
  ((updateDetail (updateStep true true s (CheckAnswerInput 9 None)) = updateDetail s ∨
    statusOf s = Updated ∧ ∃ x v, (None : option (UpdatedStatus * option jstr)) = Some (x, v) ∧ (x = Available ∨ x = Updated) ∧
      statusOf (updateStep true true s (CheckAnswerInput 9 None)) = x) ∧
   ∀ asked callers, pendingCheck s = Some (asked, callers) →
     answers (updateStep true true s (CheckAnswerInput 9 None)) = answers s ++ map (λ c, (c, true)) callers).
Proof.
  split; [reflexivity|]. split; [reflexivity|].
  apply (progress_survives_checks true true (updateRun true true [CheckInput 0 Startup; CheckInput 5 Manual;
    ProgressInput (mkDetail (Some Updating) (Some 10) None)]) (CheckAnswerInput 9 None)). reflexivity.
Defined.
