(* ===== verification/CommandLine.v ===== *)
(** * CommandLine: requests to the desktop engine

    Models [service/commandLine/commandLine.ts] with the list of requests of
    [store/global/slices/request/action.ts], [service/interceptorsResponse.ts], the
    desktop part of [hooks/useAbortRequest.ts] and
    [service/commandLine/redactForLog.ts]: a request is listed under its identifier
    until its answer, its timeout or its abortion, and what is logged of it holds
    no credentials.  Identifiers are unique; here they are counted. *)

From S2P Require Import Prelude TreeSearch.
Local Open Scope nat_scope.

(** ** Logged values *)

(** A value that came through [JSON.parse]; numbers are their text. *)
Inductive json :=
  | JNull
  | JBool (b : bool)
  | JNumber (text : jstr)
  | JString (text : jstr)
  | JArray (items : list json)
  | JObject (fields : dict json).

Section json_ind.
Context (P : json → Prop).
Hypotheses (Hnull : P JNull) (Hbool : ∀ b, P (JBool b)) (Hnumber : ∀ t, P (JNumber t)) (Hstring : ∀ t, P (JString t))
  (Harray : ∀ l, Forall P l → P (JArray l)) (Hobject : ∀ d, Forall (λ f, P f.2) d → P (JObject d)).

Fixpoint json_nested_ind (v : json) : P v :=
  match v with
  | JNull => Hnull
  | JBool b => Hbool b
  | JNumber t => Hnumber t
  | JString t => Hstring t
  | JArray l =>
      Harray l ((fix go l : Forall P l :=
        match l with [] => Forall_nil_2 _ | x :: l => Forall_cons_2 _ x l (json_nested_ind x) (go l) end) l)
  | JObject d =>
      Hobject d ((fix go d : Forall (λ f, P f.2) d :=
        match d with [] => Forall_nil_2 _ | f :: d => Forall_cons_2 _ f d (json_nested_ind f.2) (go d) end) d)
  end.
End json_ind.

(** [SENSITIVE_LOG_KEY.test(key)]. *)
Definition SENSITIVE_LOG_KEY : list jstr :=
  [js "password"; js "passphrase"; js "apikey"; js "api_key"; js "api-key"; js "secret"; js "token"; js "authorization"].
Definition isSensitiveKey (key : jstr) : bool := existsb (λ word, containsText word (toLowerCase key)) SENSITIVE_LOG_KEY.

(** [/^jdbc:/i.test(value.trimStart())]. *)
Definition isConnectionString (text : jstr) : bool := startsWith (js "jdbc:") (toLowerCase (trimStart text)).

Definition stars : json := JString (js "***").

(** [sensitiveEntry]. *)
Definition isSensitiveEntry (fields : dict json) : bool :=
  match dget (js "key") fields with Some (JString key) => isSensitiveKey key | _ => false end.

Definition isMasked (fields : dict json) (key : jstr) : bool :=
  isSensitiveKey key || (bool_decide (key = js "value") && isSensitiveEntry fields).

Fixpoint redactForLog (v : json) : json :=
  match v with
  | JString text => if isConnectionString text then stars else v
  | JArray items => JArray (map redactForLog items)
  | JObject fields => JObject (map (λ f, (f.1, if isMasked fields f.1 then stars else redactForLog f.2)) fields)
  | _ => v
  end.

(** ** Requests *)

Inductive IErrorLevel := LToast | LNotification | LOther.

Record IOptions := mkOptions { errorLevel : IErrorLevel; hasTimeout : bool; fullResponse : bool }.

Record ICommandLineRequest := mkCommand { requestUrl : jstr; method : jstr; message : json }.

(** The message of a response; without one all is missing. *)
Record Response := mkResponse {
  success : bool;
  errorCode : option jstr;
  errorMessage : option jstr;
  data : json;
  whole : json;
}.

Definition NetworkError : jstr := js "api.networkError".

Definition ErrorCodesWithoutToast : list jstr :=
  [js "common.needLoggedIn"; js "NO_DATA_ACCESS_PERMISSION"; js "NO_SCRIPT_PERMISSION"; js "FREE_TRIAL_USAGE_LIMIT";
   js "api.invalidDevice"; js "api.invalidTrial"; js "api.trialExpired"; js "api.licenseExpired"; NetworkError;
   js "api.licenseBindCountExceeds"; js "ai.licenseNotSupported"].

Definition withoutToast (r : Response) : bool :=
  match errorCode r with Some code => includes code ErrorCodesWithoutToast | None => false end.

(** How a promise was settled. *)
Inductive Settlement :=
  | ResolvedWith (v : json)
  | RejectedResponse (r : Response)
  | RejectedTimeout (url : jstr)
  | RejectedFailure (text : jstr)
  | RejectedAbort.

(** What the user is shown: a toast of an error message (before it is
    translated), a notification, the toast that the network is down, an alert. *)
Inductive Notice := Toast (text : option jstr) | Notification (r : Response) | NotOnline | Alert (text : jstr).

Record CommandLine := mkCommandLine {
  nextId : nat;
  commandLineRequestList : gmap nat (ICommandLineRequest * IOptions);
  timers : gset nat;
  promises : gmap nat (option Settlement);
  notices : list Notice;
  serviceReady : bool;
}.

Definition newCommandLine : CommandLine := mkCommandLine 0 ∅ ∅ ∅ [] false.

(** Settling a promise again changes nothing. *)
Definition settleWith (o : Settlement) (p : option Settlement) : option Settlement := Some (default o p).

Definition settlePromise (id : nat) (o : Settlement) (s : CommandLine) : CommandLine :=
  mkCommandLine (nextId s) (commandLineRequestList s) (timers s) (alter (settleWith o) id (promises s)) (notices s) (serviceReady s).
Definition removeCommandLineRequestListItem (id : nat) (s : CommandLine) : CommandLine :=
  mkCommandLine (nextId s) (delete id (commandLineRequestList s)) (timers s) (promises s) (notices s) (serviceReady s).
Definition dropTimer (id : nat) (s : CommandLine) : CommandLine :=
  mkCommandLine (nextId s) (commandLineRequestList s) (timers s ∖ {[id]}) (promises s) (notices s) (serviceReady s).
Definition show (l : list Notice) (s : CommandLine) : CommandLine :=
  mkCommandLine (nextId s) (commandLineRequestList s) (timers s) (promises s) (notices s ++ l) (serviceReady s).

Definition commandLineRequest (d : ICommandLineRequest) (options : IOptions) (s : CommandLine) : CommandLine :=
  let id := nextId s in
  mkCommandLine (S id) (<[id := (d, options)]> (commandLineRequestList s)) (if hasTimeout options then {[id]} ∪ timers s else timers s)
    (<[id := None]> (promises s)) (notices s) (serviceReady s).

(** The timer of a request. *)
Definition timeoutFired (id : nat) (s : CommandLine) : CommandLine :=
  if bool_decide (id ∈ timers s) then
    let s := dropTimer id s in
    match commandLineRequestList s !! id with
    | Some (d, _) => settlePromise id (RejectedTimeout (requestUrl d)) (removeCommandLineRequestListItem id s)
    | None => s
    end
  else s.

(** [onFailure] of the bridge. *)
Definition requestFailed (id : nat) (text : jstr) (s : CommandLine) : CommandLine :=
  settlePromise id (RejectedFailure text) (show [Alert text] s).

Definition interceptorsResponse (r : Response) : list Notice :=
  if bool_decide (errorCode r = Some NetworkError) then [NotOnline] else [].

Definition errorNotice (level : IErrorLevel) (r : Response) : list Notice :=
  match level with LToast => [Toast (errorMessage r)] | LNotification => [Notification r] | LOther => [] end.

(** The response of a request that is listed. *)
Definition responseArrived (id : nat) (options : IOptions) (r : Response) (s : CommandLine) : CommandLine :=
  let s := show (interceptorsResponse r) (dropTimer id s) in
  if success r then removeCommandLineRequestListItem id (settlePromise id (ResolvedWith (if fullResponse options then whole r else data r)) s)
  else
    let s := settlePromise id (RejectedResponse r) s in
    if withoutToast r then s
    else removeCommandLineRequestListItem id (show (errorNotice (errorLevel options) r) s).

Inductive Pushed := ServiceStarted | ResponseOf (id : nat) (r : Response).

Definition pushMessageFlow (p : Pushed) (s : CommandLine) : CommandLine :=
  match p with
  | ServiceStarted => mkCommandLine (nextId s) (commandLineRequestList s) (timers s) (promises s) (notices s) true
  | ResponseOf id r =>
      match commandLineRequestList s !! id with Some (_, options) => responseArrived id options r s | None => s end
  end.

(** [abortRequest] of the last request of a hook. *)
Definition abortRequest (id : nat) (s : CommandLine) : CommandLine :=
  settlePromise id RejectedAbort (removeCommandLineRequestListItem id s).

Inductive CommandInput :=
  | RequestInput (d : ICommandLineRequest) (options : IOptions)
  | TimeoutInput (id : nat)
  | FailureInput (id : nat) (text : jstr)
  | PushInput (p : Pushed)
  | AbortInput (id : nat).

Definition commandStep (s : CommandLine) (i : CommandInput) : CommandLine :=
  match i with
  | RequestInput d options => commandLineRequest d options s
  | TimeoutInput id => timeoutFired id s
  | FailureInput id text => requestFailed id text s
  | PushInput p => pushMessageFlow p s
  | AbortInput id => abortRequest id s
  end.

Definition commandRun (inputs : list CommandInput) : CommandLine := fold_left commandStep inputs newCommandLine.

(** ** Nothing secret is logged *)

(** No connection string, and nothing but stars under a sensitive key. *)
Fixpoint public (v : json) : Prop :=
  match v with
  | JString text => isConnectionString text = false
  | JArray items => fold_right (λ x P, public x ∧ P) True items
  | JObject fields => fold_right (λ f P, (if isSensitiveKey f.1 then f.2 = stars else public f.2) ∧ P) True fields
  | _ => True
  end.

(** The value under [value] next to a sensitive [key], in any object inside. *)
Fixpoint entriesHidden (v : json) : Prop :=
  match v with
  | JArray items => fold_right (λ x P, entriesHidden x ∧ P) True items
  | JObject fields =>
      (isSensitiveEntry fields = true → ∀ w, (js "value", w) ∈ fields → w = stars) ∧
      fold_right (λ f P, entriesHidden f.2 ∧ P) True fields
  | _ => True
  end.

Lemma dget_map_redact key (fields : dict json) (g : jstr → json → json) :
  dget key (map (λ f : jstr * json, (f.1, g f.1 f.2)) fields) = g key <$> dget key fields.
Proof.
  induction fields as [|[k x] fields IH]; [done|]. cbn. destruct (decide (k = key)) as [-> |]; [done|]. apply IH.
Qed.

Definition redactFields (fields : dict json) : dict json :=
  map (λ f, (f.1, if isMasked fields f.1 then stars else redactForLog f.2)) fields.

Lemma isMasked_sensitive fields key : isSensitiveKey key = true → isMasked fields key = true.
Proof. unfold isMasked. by intros ->. Qed.

(** Redacting never makes an entry sensitive. *)
Lemma redacted_entry fields : isSensitiveEntry (redactFields fields) = true → isSensitiveEntry fields = true.
Proof.
  unfold isSensitiveEntry, redactFields.
  rewrite (dget_map_redact _ _ (λ k x, if isMasked fields k then stars else redactForLog x)).
  destruct (dget (js "key") fields) as [x|]; [|done].
  cbn [fmap option_fmap option_map]. unfold isMasked. replace (isSensitiveKey (js "key")) with false by done.
  rewrite bool_decide_eq_false_2 by done. cbn [orb andb]. destruct x as [| | |t| |]; cbn; try done.
  by destruct (isConnectionString t).
Qed.

Lemma redacted_masked fields key : isMasked (redactFields fields) key = true → isMasked fields key = true.
Proof.
  unfold isMasked. rewrite !orb_true_iff, !andb_true_iff. intros [H|[H1 H2]]; [by left|]. right. split; [done|]. by apply redacted_entry.
Qed.

Definition redactedOk (v : json) : Prop :=
  public (redactForLog v) ∧ entriesHidden (redactForLog v) ∧ redactForLog (redactForLog v) = redactForLog v.

Lemma redactedOk_object fields : Forall (λ f, redactedOk f.2) fields → redactedOk (JObject fields).
Proof.
  intros IH. unfold redactedOk. cbn [redactForLog]. fold (redactFields fields). split_and!.
  - cbn [public]. unfold redactFields. pose proof (isMasked_sensitive fields) as Hm. revert Hm. generalize (isMasked fields). intros masked Hm.
    induction IH as [|[k x] fields (H1 & _) _ I]; [done|]. cbn [map fold_right fst snd] in *. split; [|done].
    destruct (isSensitiveKey k) eqn:Ek; [by rewrite Hm|]. by destruct (masked k).
  - cbn [entriesHidden]. split.
    + intros He%redacted_entry w ([k x] & [= Hk Hw] & _)%list_elem_of_fmap. cbn [map fold_right fst snd] in *.
      rewrite Hw. unfold isMasked. rewrite He, (bool_decide_eq_true_2 _ (eq_sym Hk)). by destruct (isSensitiveKey k).
    + unfold redactFields. generalize (isMasked fields). intros masked.
      induction IH as [|[k x] fields (_ & H2 & _) _ I]; [done|]. cbn [map fold_right fst snd] in *. split; [|done]. by destruct (masked k).
  - assert (Hgen : ∀ masked masked' : jstr → bool, (∀ k, masked' k = true → masked k = true) →
      map (λ f, (f.1, if masked' f.1 then stars else redactForLog f.2)) (map (λ f, (f.1, if masked f.1 then stars else redactForLog f.2)) fields)
      = map (λ f, (f.1, if masked f.1 then stars else redactForLog f.2)) fields).
    { intros masked masked' Hm. induction IH as [|[k x] fields (_ & _ & H3) _ I]; [done|]. cbn [map fst snd] in *. f_equal; [|done].
      f_equal. destruct (masked' k) eqn:E'; [by rewrite Hm|]. by destruct (masked k). }
    cbn [redactForLog]. f_equal. exact (Hgen _ _ (redacted_masked fields)).
Qed.

(** C27: what is logged holds no connection string anywhere, whatever is nested
    in what; only stars stand under a key that names a credential, and only stars
    stand under the [value] of an entry whose [key] still names one.  Logging
    the log again changes nothing. *)
Theorem logs_are_redacted v :
  public (redactForLog v) ∧ entriesHidden (redactForLog v) ∧ redactForLog (redactForLog v) = redactForLog v.
Proof.
  change (redactedOk v). induction v as [| | |text|items IH|fields IH] using json_nested_ind; try done.
  - unfold redactedOk. cbn. destruct (isConnectionString text) eqn:E; cbn; [done|]. by rewrite E.
  - unfold redactedOk. cbn. induction IH as [|x items (H1 & H2 & H3) _ (I1 & I2 & I3)]; [done|]. cbn. split_and!; [done..|].
    rewrite H3. injection I3 as I3. by rewrite I3.
  - by apply redactedOk_object.
Qed.

(** ** Every request is settled *)

(** The settlements that leave a request in the list. *)
Definition leavesListed (o : Settlement) : Prop :=
  match o with RejectedFailure _ => True | RejectedResponse r => withoutToast r = true | _ => False end.

Definition request_listed (s : CommandLine) (id : nat) (p : option Settlement) : Prop :=
  match p with
  | None => ∃ d o, commandLineRequestList s !! id = Some (d, o) ∧ (hasTimeout o = true → id ∈ timers s)
  | Some o => is_Some (commandLineRequestList s !! id) → leavesListed o
  end.

Definition command_ok (s : CommandLine) : Prop :=
  (∀ id, is_Some (promises s !! id) → id < nextId s) ∧
  (∀ id, is_Some (commandLineRequestList s !! id) → is_Some (promises s !! id)) ∧
  (∀ id p, promises s !! id = Some p → request_listed s id p).

Lemma settle_is_Some id id' o s : is_Some (promises (settlePromise id o s) !! id') ↔ is_Some (promises s !! id').
Proof. apply lookup_alter_is_Some. Qed.

Lemma settle_lookup id id' o s p :
  promises (settlePromise id o s) !! id' = Some p →
  (id' ≠ id ∧ promises s !! id' = Some p) ∨ (id' = id ∧ ∃ p0, promises s !! id = Some p0 ∧ p = Some (default o p0)).
Proof.
  cbn. destruct (decide (id' = id)) as [-> |Hne]; [|rewrite lookup_alter_ne by done; by left].
  rewrite lookup_alter_eq. destruct (promises s !! id) as [p0|]; [|done]. cbn. intros [= <-]. right. eauto.
Qed.

(** An operation that settles [id] and, unless [keep], takes it off the list; the
    timers of the others stay. *)
Lemma settled_ok id o (keep : bool) timers' notices' ready s :
  command_ok s →
  (keep = true → leavesListed o) →
  (∀ id', id' ≠ id → id' ∈ timers s → id' ∈ timers') →
  command_ok (settlePromise id o (mkCommandLine (nextId s)
    (if keep then commandLineRequestList s else delete id (commandLineRequestList s)) timers' (promises s) notices' ready)).
Proof.
  intros (H1 & H2 & H3) Hkeep Htimers. split_and!.
  - intros id' H%settle_is_Some. by apply H1.
  - intros id' H. apply settle_is_Some. apply H2. cbn in H. destruct keep; [done|]. destruct H as [x Hx]. apply lookup_delete_Some in Hx as [_ Hx]. eauto.
  - intros id' p [[Hne Hp]|[-> (p0 & Hp0 & ->)]]%settle_lookup.
    + cbn in Hp. specialize (H3 id' p Hp). unfold request_listed in *. cbn.
      assert (Hl : (if keep then commandLineRequestList s else delete id (commandLineRequestList s)) !! id' = commandLineRequestList s !! id').
      { destruct keep; [done|by rewrite lookup_delete_ne]. }
      rewrite Hl. destruct p; [done|]. destruct H3 as (d & op & Hd & Ht). exists d, op. auto.
    + cbn in Hp0. cbn. destruct keep.
      * intros Hl. specialize (H3 id p0 Hp0). destruct p0 as [o'|]; [by apply H3|by apply Hkeep].
      * rewrite lookup_delete_eq. by intros [??].
Qed.

Lemma responseArrived_ok id op r s :
  command_ok s → command_ok (responseArrived id op r s).
Proof.
  intros Hok. assert (Ht : ∀ id', id' ≠ id → id' ∈ timers s → id' ∈ timers s ∖ {[id]}) by set_solver.
  unfold responseArrived. destruct (success r).
  - exact (settled_ok id (ResolvedWith (if fullResponse op then whole r else data r)) false _ _ _ s Hok ltac:(done) Ht).
  - destruct (withoutToast r) eqn:E.
    + exact (settled_ok id (RejectedResponse r) true _ _ _ s Hok (λ _, E) Ht).
    + exact (settled_ok id (RejectedResponse r) false _ _ _ s Hok ltac:(done) Ht).
Qed.

Lemma command_step_ok s i : command_ok s → command_ok (commandStep s i).
Proof.
  intros Hok. pose proof Hok as (H1 & H2 & H3). destruct i as [d op|id|id text|p|id]; cbn [commandStep].
  - assert (Hfresh : ∀ id, is_Some (promises s !! id) → id ≠ nextId s) by (intros id Hp ->; apply H1 in Hp; lia).
    split_and!; cbn.
    + intros id [p Hp]. apply lookup_insert_Some in Hp as [[<- _]|[_ Hp]]; [lia|]. assert (id < nextId s) by eauto. lia.
    + intros id [x Hx]. apply lookup_insert_Some in Hx as [[<- _]|[Hne Hx]]; [rewrite lookup_insert_eq; eauto|].
      rewrite lookup_insert_ne by done. eauto.
    + intros id p Hp. unfold request_listed. cbn. apply lookup_insert_Some in Hp as [[<- <-]|[Hne Hp]].
      * exists d, op. rewrite lookup_insert_eq. split; [done|]. intros ->. set_solver.
      * rewrite lookup_insert_ne by done. specialize (H3 id p Hp). destruct p; [done|]. destruct H3 as (d' & op' & Hd & Ht).
        exists d', op'. split; [done|]. intros H%Ht. destruct (hasTimeout op); set_solver.
  - unfold timeoutFired. case_bool_decide as Ht; [|done]. cbn zeta. destruct (commandLineRequestList (dropTimer id s) !! id) as [[d op]|] eqn:E.
    + refine (settled_ok id (RejectedTimeout (requestUrl d)) false _ _ _ s Hok ltac:(done) _). set_solver.
    + split_and!; [done|done|]. intros id' p Hp. specialize (H3 id' p Hp). destruct p; [done|]. destruct H3 as (d & op & Hd & Ht').
      exists d, op. split; [done|]. intros H%Ht'. cbn. assert (id' ≠ id) by (intros ->; cbn in E; congruence). set_solver.
  - exact (settled_ok id (RejectedFailure text) true _ _ _ s Hok (λ _, I) (λ _ _ H, H)).
  - destruct p as [|id r]; [done|]. cbn. destruct (commandLineRequestList s !! id) as [[d op]|]; [|done]. by apply responseArrived_ok.
  - exact (settled_ok id RejectedAbort false _ _ _ s Hok ltac:(done) (λ _ _ H, H)).
Qed.

Lemma commandRun_ok inputs : command_ok (commandRun inputs).
Proof.
  unfold commandRun. assert (H : command_ok newCommandLine) by (split_and!; intros id; by intros [??] || done).
  revert H. generalize newCommandLine. induction inputs as [|i inputs IH]; intros s H; [done|]. by apply IH, command_step_ok.
Qed.

(** A settled promise stays as it is. *)
Lemma settled_kept s i id o :
  command_ok s → promises s !! id = Some (Some o) → promises (commandStep s i) !! id = Some (Some o).
Proof.
  intros (H1 & _ & _) Hp. assert (Hset : ∀ id' o' (m : gmap nat (option Settlement)), m !! id = Some (Some o) → alter (settleWith o') id' m !! id = Some (Some o)).
  { intros id' o' m Hm. destruct (decide (id' = id)) as [-> |]; [by rewrite lookup_alter_eq, Hm|by rewrite lookup_alter_ne]. }
  destruct i as [d op|id'|id' text|p|id']; cbn [commandStep].
  - cbn. rewrite lookup_insert_ne; [done|]. intros <-. assert (nextId s < nextId s) by eauto. lia.
  - unfold timeoutFired. case_bool_decide; [|done]. cbn zeta. destruct (commandLineRequestList _ !! _) as [[??]|]; [by apply Hset|done].
  - by apply Hset.
  - destruct p as [|id' r]; [done|]. cbn. destruct (commandLineRequestList s !! id') as [[d op]|]; [|done].
    unfold responseArrived. destruct (success r); [by apply Hset|]. destruct (withoutToast r); by apply Hset.
  - by apply Hset.
Qed.

(** What a response settles a promise with. *)
Definition settlementOf (op : IOptions) (r : Response) : Settlement :=
  if success r then ResolvedWith (if fullResponse op then whole r else data r) else RejectedResponse r.

(** How an input settles request [id], if it does: an answer, its timeout while the timer runs, a failure of the bridge, or an abortion. *)
Definition settledBy (s : CommandLine) (id : nat) (d : ICommandLineRequest) (op : IOptions) (i : CommandInput) : option Settlement :=
  match i with
  | PushInput (ResponseOf id' r) => if decide (id' = id) then Some (settlementOf op r) else None
  | TimeoutInput id' => if decide (id' = id ∧ id ∈ timers s) then Some (RejectedTimeout (requestUrl d)) else None
  | FailureInput id' text => if decide (id' = id) then Some (RejectedFailure text) else None
  | AbortInput id' => if decide (id' = id) then Some RejectedAbort else None
  | RequestInput _ _ | PushInput ServiceStarted => None
  end.

Lemma settled_by s id d op i :
  command_ok s → promises s !! id = Some None → commandLineRequestList s !! id = Some (d, op) →
  promises (commandStep s i) !! id = Some (settledBy s id d op i).
Proof.
  intros (H1 & _ & _) Hp Hd.
  assert (Hset : ∀ id' o' s', promises s' = promises s →
    promises (settlePromise id' o' s') !! id = Some (if decide (id' = id) then Some o' else None)).
  { intros id' o' s' Hs. cbn. rewrite Hs. case_decide as E; [subst; by rewrite lookup_alter_eq, Hp|by rewrite lookup_alter_ne]. }
  destruct i as [d' op'|id'|id' text|[|id' r]|id']; cbn [commandStep settledBy]; [| |by apply Hset|done| |by apply Hset].
  - cbn. rewrite lookup_insert_ne; [done|]. intros <-. assert (nextId s < nextId s) by eauto. lia.
  - unfold timeoutFired. destruct (decide (id' ∈ timers s)) as [Ht|Ht];
      [rewrite bool_decide_eq_true_2 by done|rewrite bool_decide_eq_false_2 by done; rewrite decide_False; [done|by intros [-> ?]]].
    cbn zeta. destruct (decide (id' = id)) as [-> |Hne].
    + change (commandLineRequestList (dropTimer id s)) with (commandLineRequestList s). rewrite Hd, decide_True by done.
      rewrite Hset by done. by rewrite decide_True.
    + rewrite (decide_False (P := id' = id ∧ _)) by (by intros [? ?]). destruct (commandLineRequestList _ !! id') as [[??]|]; [|done].
      rewrite Hset by done. by rewrite decide_False.
  - cbn. destruct (decide (id' = id)) as [-> |Hne].
    + rewrite Hd. unfold responseArrived, settlementOf. destruct (success r); [|destruct (withoutToast r)]; cbn; by rewrite lookup_alter_eq, Hp.
    + destruct (commandLineRequestList s !! id') as [[??]|]; [|done].
      unfold responseArrived. destruct (success r); [|destruct (withoutToast r)]; cbn; by rewrite lookup_alter_ne.
Qed.

(** C10: every request is settled once.  While its promise is open, the request is
    listed, with its timer running if it has a timeout, and it is settled by exactly
    these inputs and with these outcomes: its answer, with the data or the error, its
    timeout, a failure of the bridge, or its abortion; anything else leaves it open.
    A settled promise is never settled differently, and its request is off the list - unless
    the bridge failed or the error code is one that is shown nowhere. *)
Theorem requests_settled_once inputs id p :
  let s := commandRun inputs in
  promises s !! id = Some p →
  match p with
  | None =>
      ∃ d op, commandLineRequestList s !! id = Some (d, op) ∧ (hasTimeout op = true → id ∈ timers s) ∧
        ∀ i, promises (commandStep s i) !! id = Some (settledBy s id d op i)
  | Some o => (∀ i, promises (commandStep s i) !! id = Some (Some o)) ∧ (is_Some (commandLineRequestList s !! id) → leavesListed o)
  end.
Proof.
  intros s Hp. pose proof (commandRun_ok inputs) as Hok. fold s in Hok. pose proof Hok as (H1 & H2 & H3).
  pose proof (H3 id p Hp) as Hl. destruct p as [o|].
  - split; [|exact Hl]. intros i. by apply settled_kept.
  - destruct Hl as (d & op & Hd & Ht). exists d, op. split_and!; [done..|]. intros i. by apply settled_by.
Qed.

(** An error code without toast leaves the request in the list for good: its
    timer is gone. *)
Lemma silent_errors_stay_listed s id d op r :
  commandLineRequestList s !! id = Some (d, op) → success r = false → withoutToast r = true →
  let s' := commandStep s (PushInput (ResponseOf id r)) in
  commandLineRequestList s' !! id = Some (d, op) ∧ id ∉ timers s'.
Proof.
  intros Hd Hs Hw. cbn. rewrite Hd. unfold responseArrived. rewrite Hs, Hw. cbn. split; [done|]. set_solver.
Qed.

Definition demoRequest : ICommandLineRequest := mkCommand (js "/api/console") (js "get") JNull.

Lemma requests_settled_once_witness :
  let s := commandRun [RequestInput demoRequest (mkOptions LToast true false)] in
  ∃ d op, commandLineRequestList s !! 0 = Some (d, op) ∧ (hasTimeout op = true → 0 ∈ timers s) ∧
    ∀ i, promises (commandStep s i) !! 0 = Some (settledBy s 0 d op i).
Proof. apply (requests_settled_once [RequestInput demoRequest (mkOptions LToast true false)] 0 None). reflexivity. Defined.
