(* ===== verification/CompletionHintStore.v ===== *)
(** * CompletionHintStore: the hints of a completion

    Models [components/SQLEditor/core/sqlCompletionHintStore.ts]: the hints of the
    engine in buckets, one per place in the text, and the replacement of those
    that a new answer covers.  The numbers of the ranges are integers. *)

From S2P Require Import Prelude TextRanges.
Local Open Scope Z_scope.

(** ** Data *)

(** The parts of an [ISqlEditorHintVO] that are read here: its type, which may be
    empty, its ranges and those of its items. *)
Record EditorHint := mkEditorHint {
  type : jstr;
  statementRange : option TextRange;
  rowRange : option TextRange;
  valueRange : option TextRange;
  itemRanges : list (option TextRange);
}.

#[export] Instance EditorHint_eq_dec : EqDecision EditorHint.
Proof. solve_decision. Defined.

Record SqlCompletionHintScope := mkScope { key : jstr; scopeRange : option TextRange }.
Record HintBucket := mkBucket { scope : SqlCompletionHintScope; hints : list EditorHint }.

(** [buckets]: a map in insertion order. *)
Abbreviation Buckets := (dict HintBucket).

(** ** Ranges *)

Definition isPointRange (r : TextRange) : bool := comparePosition (rangeStart r) (rangeEnd r) =? 0.

Definition isSamePosition (a b : TextRange) : bool :=
  (startLineNumber a =? startLineNumber b) && (startColumn a =? startColumn b).

Definition isPointInsideRange (point r : TextRange) : bool :=
  if isPointRange r then isSamePosition point r
  else (comparePosition (rangeStart r) (rangeStart point) <=? 0) && (comparePosition (rangeStart point) (rangeEnd r) <? 0).

Definition isRangeIntersecting (a b : TextRange) : bool :=
  if isPointRange a then isPointInsideRange a b
  else if isPointRange b then isPointInsideRange b a
  else (comparePosition (rangeStart a) (rangeEnd b) <? 0) && (comparePosition (rangeStart b) (rangeEnd a) <? 0).

Definition rangeKey (r : TextRange) : jstr :=
  znum (startLineNumber r) ++ ch ":" :: znum (startColumn r) ++ ch "-" :: znum (endLineNumber r) ++ ch ":" :: znum (endColumn r).

(** The reduction is that of [mergeRanges], on valid ranges only. *)
Definition itemRangesEnvelope (h : EditorHint) : option TextRange :=
  match List.filter hasValidRange (omap id (itemRanges h)) with
  | [] => None
  | r :: rs => Some (fold_left hull rs r)
  end.

(** ** Scopes *)

Definition sqlCompletionHintScopeFromRange (prefix : jstr) (r : option TextRange) : option SqlCompletionHintScope :=
  match r with
  | Some r => if hasValidRange r then Some (mkScope (prefix ++ ch ":" :: rangeKey r) (Some r)) else None
  | None => None
  end.

Definition firstOf (l : list (option TextRange)) : option TextRange := head (omap id l).

Definition scopeFromEditorHint (h : EditorHint) (index : nat) : SqlCompletionHintScope :=
  let name := or_else (type h) (js "UNKNOWN") in
  let r := firstOf [rowRange h; valueRange h; itemRangesEnvelope h; statementRange h] in
  default (mkScope (name ++ js ":unscoped:" ++ znum (Z.of_nat index)) None) (sqlCompletionHintScopeFromRange name r).

Definition isSameScope (a b : SqlCompletionHintScope) : bool := bool_decide (key a = key b).

Definition isIntersectingScope (a b : SqlCompletionHintScope) : bool :=
  match scopeRange a, scopeRange b with Some r, Some r' => isRangeIntersecting r r' | _, _ => false end.

(** ** The store *)

Definition getHints (b : Buckets) : list EditorHint := dvalues b ≫= hints.

Definition upsertHint (b : Buckets) (entry : nat * EditorHint) : Buckets :=
  let scope := scopeFromEditorHint entry.2 entry.1 in
  dset (key scope) (mkBucket scope [entry.2]) b.

Definition upsertHints (editorHints : option (list EditorHint)) (b : Buckets) : Buckets :=
  fold_left upsertHint (imap pair (default [] editorHints)) b.

Definition deleteScope (s : SqlCompletionHintScope) (b : Buckets) : Buckets :=
  List.filter (λ e, negb (isSameScope (scope e.2) s || isIntersectingScope (scope e.2) s)) b.

Definition clear (b : Buckets) : Buckets * list EditorHint := ([], []).

Definition commitHints (editorHints : option (list EditorHint)) (b : Buckets) : Buckets * list EditorHint :=
  let b := upsertHints editorHints [] in (b, getHints b).

Definition commitScoped (s : option SqlCompletionHintScope) (editorHints : option (list EditorHint)) (b : Buckets)
    : Buckets * list EditorHint :=
  match s with
  | None => commitHints editorHints b
  | Some s => let b := upsertHints editorHints (deleteScope s b) in (b, getHints b)
  end.

(** ** Places in the text *)

(** The positions of a range: a collapsed one is its position, another does not
    include its end. *)
Definition atPosition (r : TextRange) (p : TextPosition) : Prop :=
  if isPointRange r then p = rangeStart r else notAfter (rangeStart r) p ∧ comparePosition p (rangeEnd r) < 0.

Lemma isPointRange_iff r : isPointRange r = true ↔ rangeStart r = rangeEnd r.
Proof.
  unfold isPointRange. rewrite Z.eqb_eq. split.
  - intros H. apply notAfter_antisym; unfold notAfter; [lia|]. rewrite comparePosition_opp. lia.
  - intros ->. pose proof (notAfter_refl (rangeEnd r)) as H. unfold notAfter in H.
    pose proof (comparePosition_opp (rangeEnd r) (rangeEnd r)). lia.
Qed.

Lemma isSamePosition_iff a b : isSamePosition a b = true ↔ rangeStart a = rangeStart b.
Proof.
  unfold isSamePosition, rangeStart. rewrite andb_true_iff, !Z.eqb_eq. split; [by intros [-> ->]|by intros [= -> ->]].
Qed.

Lemma before_iff a b : comparePosition a b < 0 ↔ ¬ notAfter b a.
Proof. unfold notAfter. rewrite (comparePosition_opp a b). lia. Qed.

Lemma pointInside_iff a b : isPointRange a = true → isPointInsideRange a b = true ↔ atPosition b (rangeStart a).
Proof.
  intros Ha. unfold isPointInsideRange, atPosition. destruct (isPointRange b).
  - apply isSamePosition_iff.
  - by rewrite andb_true_iff, Z.leb_le, Z.ltb_lt.
Qed.

(** Two places intersect when they have a position in common. *)
Lemma intersecting_iff a b :
  hasValidRange a = true → hasValidRange b = true →
  isRangeIntersecting a b = true ↔ ∃ p, atPosition a p ∧ atPosition b p.
Proof.
  intros Ha%hasValidRange_notAfter Hb%hasValidRange_notAfter. unfold isRangeIntersecting.
  destruct (isPointRange a) eqn:Ea.
  { rewrite pointInside_iff by done. unfold atPosition at 2. rewrite Ea. split; [by eauto|by intros (p & -> & H)]. }
  destruct (isPointRange b) eqn:Eb.
  { rewrite pointInside_iff by done. unfold atPosition at 3. rewrite Eb. split; [by eauto|by intros (p & H & ->)]. }
  unfold atPosition. rewrite Ea, Eb, andb_true_iff, !Z.ltb_lt, !before_iff. split.
  - intros [H1 H2]. destruct (notAfter_total (rangeStart a) (rangeStart b)) as [H|H].
    + exists (rangeStart b). rewrite !before_iff. split_and!; [done|done|apply notAfter_refl|].
      intros H'. assert (Heq : rangeStart b = rangeEnd b) by (by apply notAfter_antisym). apply isPointRange_iff in Heq. congruence.
    + exists (rangeStart a). rewrite !before_iff. split_and!; [apply notAfter_refl| |done|done].
      intros H'. assert (Heq : rangeStart a = rangeEnd a) by (by apply notAfter_antisym). apply isPointRange_iff in Heq. congruence.
  - intros (p & [H1 H2] & [H3 H4]). rewrite !before_iff in *. split; intros H; [apply H4|apply H2]; by eapply notAfter_trans.
Qed.

(** ** The store after an answer *)

(** Every bucket stands under the key of its scope and holds one hint; the range
    of a scope is valid. *)
Definition bucket_ok (e : jstr * HintBucket) : Prop :=
  e.1 = key (scope e.2) ∧ (∃ h, hints e.2 = [h]) ∧ (∀ r, scopeRange (scope e.2) = Some r → hasValidRange r = true).

Definition buckets_ok (b : Buckets) : Prop := NoDup (dkeys b) ∧ Forall bucket_ok b.

Lemma scopeFromRange_valid prefix r s :
  sqlCompletionHintScopeFromRange prefix r = Some s → ∀ r', scopeRange s = Some r' → hasValidRange r' = true.
Proof. unfold sqlCompletionHintScopeFromRange. destruct r as [r|]; [|done]. destruct (hasValidRange r) eqn:E; [|done]. by intros [= <-] r' [= <-]. Qed.

Lemma scopeFromEditorHint_valid h i r : scopeRange (scopeFromEditorHint h i) = Some r → hasValidRange r = true.
Proof.
  unfold scopeFromEditorHint. destruct (sqlCompletionHintScopeFromRange _ _) as [s|] eqn:E; [|done]. cbn. by eapply scopeFromRange_valid.
Qed.

Lemma upsertHint_ok b e : buckets_ok b → buckets_ok (upsertHint b e).
Proof.
  intros [H1 H2]. unfold upsertHint. split; [by apply NoDup_dkeys_dset|]. apply dset_Forall; [|done].
  split_and!; cbn; [done|by eexists|]. intros r. apply scopeFromEditorHint_valid.
Qed.

Lemma upserts_ok es b : buckets_ok b → buckets_ok (fold_left upsertHint es b).
Proof. revert b. induction es as [|e es IH]; intros b Hb; [done|]. by apply IH, upsertHint_ok. Qed.

Lemma deleteScope_ok s b : buckets_ok b → buckets_ok (deleteScope s b).
Proof.
  intros [H1 H2]. unfold deleteScope. split.
  - unfold dkeys in *. induction b as [|e b IH]; [done|]. cbn in *. apply NoDup_cons in H1 as [Hn Hd]. apply Forall_cons in H2 as [_ H2].
    destruct (negb _); [|by apply IH]. cbn. apply NoDup_cons. split; [|by apply IH].
    intros (e' & He & Hin)%list_elem_of_fmap. apply Hn. rewrite He. apply list_elem_of_fmap_2.
    by apply list_elem_of_In, filter_In, proj1, list_elem_of_In in Hin.
  - apply Forall_forall. intros e He. rewrite Forall_forall in H2. apply H2. by apply list_elem_of_In, filter_In, proj1, list_elem_of_In in He.
Qed.

Inductive StoreInput := CommitInput (editorHints : option (list EditorHint))
  | CommitScopedInput (s : option SqlCompletionHintScope) (editorHints : option (list EditorHint)) | ClearInput.

Definition storeStep (b : Buckets) (i : StoreInput) : Buckets :=
  match i with
  | CommitInput hs => (commitHints hs b).1
  | CommitScopedInput s hs => (commitScoped s hs b).1
  | ClearInput => (clear b).1
  end.

Definition storeRun (inputs : list StoreInput) : Buckets := fold_left storeStep inputs [].

Lemma empty_ok : buckets_ok [].
Proof. by split; [constructor|]. Qed.

Lemma storeStep_ok b i : buckets_ok b → buckets_ok (storeStep b i).
Proof.
  intros Hb. destruct i as [hs|[s|] hs|]; cbn; [apply upserts_ok, empty_ok|by apply upserts_ok, deleteScope_ok|apply upserts_ok, empty_ok|apply empty_ok].
Qed.

Lemma storeRun_ok inputs : buckets_ok (storeRun inputs).
Proof.
  unfold storeRun. generalize empty_ok. generalize ([] : Buckets). induction inputs as [|i inputs IH]; intros b Hb; [done|]. by apply IH, storeStep_ok.
Qed.

(** The last of the new hints whose scope has the key [k]. *)
Definition bucketOf (k : jstr) (e : nat * EditorHint) : option HintBucket :=
  let s := scopeFromEditorHint e.2 e.1 in if decide (key s = k) then Some (mkBucket s [e.2]) else None.
Definition newest (k : jstr) (editorHints : list EditorHint) : option HintBucket := last (omap (bucketOf k) (imap pair editorHints)).

Lemma dget_upserts k es : ∀ b,
  dget k (fold_left upsertHint es b) = match last (omap (bucketOf k) es) with Some x => Some x | None => dget k b end.
Proof.
  induction es as [|e es IH]; intros b; [done|]. cbn [fold_left omap list_omap]. rewrite IH. unfold upsertHint at 1.
  rewrite dget_dset. unfold bucketOf at 2. destruct (decide (key (scopeFromEditorHint e.2 e.1) = k)); [|done].
  rewrite last_cons. by destruct (last _).
Qed.

Lemma dget_filter {V} (f : jstr * V → bool) k (d : dict V) :
  NoDup (dkeys d) → dget k (List.filter f d) = match dget k d with Some v => if f (k, v) then Some v else None | None => None end.
Proof.
  unfold dkeys. induction d as [|[k' v] d IH]; [done|]. cbn. rewrite NoDup_cons. intros [Hn Hd]. specialize (IH Hd).
  destruct (decide (k' = k)) as [-> |Hne].
  - destruct (f (k, v)) eqn:E; cbn; [by rewrite decide_True|]. rewrite IH. destruct (dget k d) as [w|] eqn:Ew; [|done].
    exfalso. apply Hn. apply (list_elem_of_fmap_2 fst _ (k, w)). by apply dget_Some_elem.
  - destruct (f (k', v)); cbn; [rewrite decide_False by done|]; exact IH.
Qed.

(** The scope [s] covers [bucket]: the same key, or a place in common. *)
Definition coveredBy (s : SqlCompletionHintScope) (bucket : HintBucket) : Prop :=
  key (scope bucket) = key s ∨
  ∃ r r' p, scopeRange (scope bucket) = Some r ∧ scopeRange s = Some r' ∧ atPosition r p ∧ atPosition r' p.

(** After the hints of a scope were committed, each place has the newest
    hint that was sent for it; of the others exactly those are left that the scope
    does not cover - they have another key and no position in common with it -, as
    they were.  So no outdated hint stays where the engine has answered, and none
    is lost elsewhere.  What is returned is all that is stored, one hint per
    place. *)
Theorem scoped_commit inputs prefix r s editorHints k :
  let b := storeRun inputs in
  sqlCompletionHintScopeFromRange prefix (Some r) = Some s →
  let (b', shown) := commitScoped (Some s) (Some editorHints) b in
  (match newest k editorHints with
   | Some bucket => dget k b' = Some bucket
   | None => ∀ bucket, dget k b' = Some bucket ↔ dget k b = Some bucket ∧ ¬ coveredBy s bucket
   end) ∧
  NoDup (dkeys b') ∧ length shown = length b' ∧ Forall2 (λ e h, hints e.2 = [h]) b' shown.
Proof.
  intros b Hs. pose proof (storeRun_ok inputs) as Hb. fold b in Hb. clearbody b. cbn [commitScoped]. unfold upsertHints. cbn [default from_option id].
  set (b' := fold_left _ _ _). assert (Hb' : buckets_ok b') by (by apply upserts_ok, deleteScope_ok). split.
  - subst b'. rewrite dget_upserts. unfold newest. destruct (last _) as [bucket|]; [done|]. intros bucket.
    destruct Hb as [Hnd Hall]. unfold deleteScope. rewrite dget_filter by done. destruct (dget k b) as [old|] eqn:Eold; [|by split; [|intros [??]]].
    apply dget_Some_elem in Eold. rewrite Forall_forall in Hall. destruct (Hall _ Eold) as (Hk & _ & Hvalid). cbn in Hk, Hvalid. cbn [snd].
    assert (Hcover : isSameScope (scope old) s || isIntersectingScope (scope old) s = true ↔ coveredBy s old).
    { rewrite orb_true_iff. unfold coveredBy, isSameScope, isIntersectingScope. rewrite bool_decide_eq_true.
      assert (Hr : ∀ r', scopeRange s = Some r' → hasValidRange r' = true) by (by eapply scopeFromRange_valid).
      destruct (scopeRange (scope old)) as [r1|] eqn:E1; [|split; [intros [?|?]; [by left|done]|intros [?|(?&?&?&?&_)]; [by left|done]]].
      destruct (scopeRange s) as [r2|] eqn:E2; [|split; [intros [?|?]; [by left|done]|intros [?|(?&?&?&?&?&_)]; [by left|done]]].
      rewrite intersecting_iff by auto. split; intros [?|H']; [by left| |by left|]; right.
      - destruct H' as (p & Hp). by exists r1, r2, p.
      - destruct H' as (r3 & r4 & p & [= <-] & [= <-] & Hp). by exists p. }
    destruct (_ || _); cbn; split.
    + done.
    + intros [[= ->] H]. exfalso. by apply H, Hcover.
    + intros [= ->]. split; [done|]. intros H%Hcover. done.
    + by intros [[= ->] _].
  - destruct Hb' as [Hnd Hall]. split; [done|]. unfold getHints, dvalues. clear -Hall.
    assert (H : Forall2 (λ e h, hints e.2 = [h]) b' (b'.*2 ≫= hints)).
    { induction Hall as [|[k0 x] bb (_ & [h Hh] & _) _ IH]; [constructor|]. cbn in *. rewrite Hh. cbn. by constructor. }
    split; [symmetry; by eapply Forall2_length|done].
Qed.

(** One hint at columns 1 to 5, one at 10 to 20; the engine answers for 12 to 15. *)
Definition hintAt (a b : Z) : EditorHint := mkEditorHint (js "INSERT_VALUE") None (Some (mkTextRange 1 a 1 b)) None [].

Lemma scoped_commit_witness :
  let b := storeRun [CommitInput (Some [hintAt 1 5; hintAt 10 20])] in
  let r := mkTextRange 1 12 1 15 in
  ∃ s, sqlCompletionHintScopeFromRange (js "CALL") (Some r) = Some s ∧
    (commitScoped (Some s) (Some [hintAt 12 14]) b).2 = [hintAt 1 5; hintAt 12 14] ∧
    (let k := js "INSERT_VALUE:1:10-1:20" in
     let (b', shown) := commitScoped (Some s) (Some [hintAt 12 14]) b in
     (match newest k [hintAt 12 14] with
      | Some bucket => dget k b' = Some bucket
      | None => ∀ bucket, dget k b' = Some bucket ↔ dget k b = Some bucket ∧ ¬ coveredBy s bucket
      end) ∧
     NoDup (dkeys b') ∧ length shown = length b' ∧ Forall2 (λ e h, hints e.2 = [h]) b' shown).
Proof.
  eexists. split; [reflexivity|]. split; [vm_compute; reflexivity|].
  apply (scoped_commit [CommitInput (Some [hintAt 1 5; hintAt 10 20])] (js "CALL") (mkTextRange 1 12 1 15)). reflexivity.
Defined.
