(* ===== verification/ExecutionSnapshots.v ===== *)
(** * ExecutionSnapshots: what an execution was started against

    Models [service/dataSourceExecutionSnapshot.ts]: the data source of an editor is
    copied when an execution starts, registered under the sequence number of the
    request and, once the engine has named the execution, found by that name too,
    until it is released.  Frozen objects are values. *)

From S2P Require Import Prelude.
Local Open Scope Z_scope.

Record Environment := mkEnvironment { envId : option Z; envName : option jstr; envShortName : option jstr }.

(** The fields of [IBoundInfo] that are read here. *)
Record BoundSource := mkBound {
  boundDataSourceId : option Z;
  boundDataSourceName : option jstr;
  boundEnvironmentId : option Z;
  boundEnvironment : option Environment;
  boundDatabaseName : option jstr;
  boundSchemaName : option jstr;
  boundDatabaseType : option jstr;
  boundConnectable : option bool;
}.

Record DataSourceExecutionSnapshot := mkSnapshot {
  dataSourceId : option Z;
  dataSourceName : option jstr;
  environmentId : option Z;
  environmentName : option jstr;
  environmentShortName : option jstr;
  databaseName : option jstr;
  schemaName : option jstr;
  databaseType : option jstr;
  connectable : option bool;
  startedAt : Z;
}.

Record DataSourceExecutionSnapshotRegistry := mkRegistry {
  snapshotsBySequence : gmap Z DataSourceExecutionSnapshot;
  sequenceByExecutionId : gmap jstr Z;
}.

Definition createDataSourceExecutionSnapshotRegistry : DataSourceExecutionSnapshotRegistry := mkRegistry ∅ ∅.

Definition createDataSourceExecutionSnapshot (b : BoundSource) (startedAt : Z) : DataSourceExecutionSnapshot :=
  mkSnapshot (boundDataSourceId b) (boundDataSourceName b)
    (match boundEnvironmentId b with Some id => Some id | None => boundEnvironment b ≫= envId end)
    (boundEnvironment b ≫= envName) (boundEnvironment b ≫= envShortName) (boundDatabaseName b) (boundSchemaName b)
    (boundDatabaseType b) (boundConnectable b) startedAt.

Definition registerDataSourceExecutionSnapshot (r : DataSourceExecutionSnapshotRegistry) (executionSequence : Z)
    (snapshot : DataSourceExecutionSnapshot) : DataSourceExecutionSnapshotRegistry :=
  mkRegistry (<[executionSequence := snapshot]> (snapshotsBySequence r)) (sequenceByExecutionId r).

Definition captureDataSourceExecutionSnapshot (r : DataSourceExecutionSnapshotRegistry) (executionSequence : Z) (b : BoundSource)
    (startedAt : Z) : DataSourceExecutionSnapshotRegistry :=
  registerDataSourceExecutionSnapshot r executionSequence (createDataSourceExecutionSnapshot b startedAt).

Definition attachDataSourceExecutionId (r : DataSourceExecutionSnapshotRegistry) (executionSequence : Z) (executionId : jstr)
    : DataSourceExecutionSnapshotRegistry * option DataSourceExecutionSnapshot :=
  match snapshotsBySequence r !! executionSequence with
  | None => (r, None)
  | Some snapshot => (mkRegistry (snapshotsBySequence r) (<[executionId := executionSequence]> (sequenceByExecutionId r)), Some snapshot)
  end.

(** The identity an execution is looked up by; an empty identifier is none. *)
Record ExecutionIdentity := mkIdentity { executionSequence : option Z; executionId : option jstr }.

Definition identityId (i : ExecutionIdentity) : option jstr := match executionId i with Some [] => None | id => id end.

Definition sequenceOf (r : DataSourceExecutionSnapshotRegistry) (i : ExecutionIdentity) : option Z :=
  match executionSequence i with Some n => Some n | None => identityId i ≫= λ id, sequenceByExecutionId r !! id end.

Definition getDataSourceExecutionSnapshot (r : DataSourceExecutionSnapshotRegistry) (i : ExecutionIdentity)
    : option DataSourceExecutionSnapshot := sequenceOf r i ≫= λ n, snapshotsBySequence r !! n.

Definition releaseDataSourceExecutionSnapshot (r : DataSourceExecutionSnapshotRegistry) (i : ExecutionIdentity)
    : DataSourceExecutionSnapshotRegistry :=
  let ids := match identityId i with Some id => delete id (sequenceByExecutionId r) | None => sequenceByExecutionId r end in
  match sequenceOf r i with
  | None => mkRegistry (snapshotsBySequence r) ids
  | Some n => mkRegistry (delete n (snapshotsBySequence r)) (filter (λ e, e.2 ≠ n) ids)
  end.

Definition trimmed (t : option jstr) : jstr := trim (default [] t).

Definition getDataSourceExecutionTargetLabel (target : option DataSourceExecutionSnapshot) : jstr :=
  match target with
  | None => []
  | Some t =>
      join (js " / ") (filter (λ part, part ≠ [])
        [or_else (trimmed (environmentShortName t)) (trimmed (environmentName t)); trimmed (dataSourceName t);
         trimmed (databaseName t); trimmed (schemaName t)])
  end.

Inductive RegistryInput :=
  | CaptureInput (n : Z) (b : BoundSource) (startedAt : Z)
  | AttachInput (n : Z) (id : jstr)
  | ReleaseInput (i : ExecutionIdentity).

Definition registryStep (r : DataSourceExecutionSnapshotRegistry) (x : RegistryInput) : DataSourceExecutionSnapshotRegistry :=
  match x with
  | CaptureInput n b startedAt => captureDataSourceExecutionSnapshot r n b startedAt
  | AttachInput n id => (attachDataSourceExecutionId r n id).1
  | ReleaseInput i => releaseDataSourceExecutionSnapshot r i
  end.

Definition registryRun (inputs : list RegistryInput) (r : DataSourceExecutionSnapshotRegistry) : DataSourceExecutionSnapshotRegistry :=
  fold_left registryStep inputs r.

(** Every identifier leads to a snapshot. *)
Definition registry_ok (r : DataSourceExecutionSnapshotRegistry) : Prop :=
  ∀ id n, sequenceByExecutionId r !! id = Some n → is_Some (snapshotsBySequence r !! n).

Lemma registryStep_ok r x : registry_ok r → registry_ok (registryStep r x).
Proof.
  intros Hr. destruct x as [n b t|n id|i]; cbn.
  - intros id m Hm. cbn in *. destruct (decide (n = m)) as [-> |Hne]; [rewrite lookup_insert_eq; by eexists|].
    rewrite lookup_insert_ne by done. by eapply Hr.
  - unfold attachDataSourceExecutionId. destruct (snapshotsBySequence r !! n) as [x|] eqn:E; [|done]. intros id' m Hm. cbn in *.
    apply lookup_insert_Some in Hm as [[_ <-]|[_ Hm]]; [by eexists|by eapply Hr].
  - unfold releaseDataSourceExecutionSnapshot. set (ids := match identityId i with Some _ => _ | None => _ end).
    assert (Hids : ∀ id m, ids !! id = Some m → sequenceByExecutionId r !! id = Some m).
    { intros id m. subst ids. destruct (identityId i) as [id'|]; [|done]. by intros [_ ?]%lookup_delete_Some. }
    destruct (sequenceOf r i) as [n|]; intros id m Hm; cbn in *; [|by eapply Hr, Hids].
    apply map_lookup_filter_Some in Hm as [Hm Hne]. cbn in Hne. rewrite lookup_delete_ne by done. by eapply Hr, Hids.
Qed.

Lemma registryRun_ok inputs r : registry_ok r → registry_ok (registryRun inputs r).
Proof. revert r. induction inputs as [|x inputs IH]; intros r Hr; [done|]. by apply IH, registryStep_ok. Qed.

Lemma registry_empty_ok : registry_ok createDataSourceExecutionSnapshotRegistry.
Proof. intros id n. cbn. by rewrite lookup_empty. Qed.

(** The inputs after which the execution [n] named [id] is still the registered one. *)
Definition keepsExecution (n : Z) (id : jstr) (r : DataSourceExecutionSnapshotRegistry) (x : RegistryInput) : Prop :=
  match x with
  | CaptureInput m _ _ => m ≠ n
  | AttachInput m id' => id' ≠ id ∨ m = n
  | ReleaseInput i => sequenceOf r i ≠ Some n ∧ identityId i ≠ Some id
  end.

Fixpoint allKeep (n : Z) (id : jstr) (r : DataSourceExecutionSnapshotRegistry) (inputs : list RegistryInput) : Prop :=
  match inputs with
  | [] => True
  | x :: inputs => keepsExecution n id r x ∧ allKeep n id (registryStep r x) inputs
  end.

Definition holds (n : Z) (id : jstr) (snapshot : DataSourceExecutionSnapshot) (r : DataSourceExecutionSnapshotRegistry) : Prop :=
  snapshotsBySequence r !! n = Some snapshot ∧ sequenceByExecutionId r !! id = Some n.

Lemma holds_step n id snapshot r x : holds n id snapshot r → keepsExecution n id r x → holds n id snapshot (registryStep r x).
Proof.
  intros [H1 H2]. destruct x as [m b t|m id'|i]; cbn.
  - intros Hne. split; cbn; [by rewrite lookup_insert_ne|done].
  - unfold attachDataSourceExecutionId. destruct (snapshotsBySequence r !! m) as [y|]; [|done]. intros Hk. split; [done|]. cbn.
    destruct (decide (id' = id)) as [-> |Hne]; [|by rewrite lookup_insert_ne]. rewrite lookup_insert_eq. by destruct Hk as [|<-].
  - intros [Hn Hid]. unfold releaseDataSourceExecutionSnapshot. set (ids := match identityId i with Some _ => _ | None => _ end).
    assert (Hids : ids !! id = Some n).
    { subst ids. destruct (identityId i) as [id'|]; [|done]. by rewrite lookup_delete_ne by congruence. }
    destruct (sequenceOf r i) as [m|]; split; cbn; [| |done|done].
    + rewrite lookup_delete_ne by congruence. done.
    + apply map_lookup_filter_Some. split; [done|]. cbn. congruence.
Qed.

(** Once an execution is named, looking it up - by its number or by its name
    - gives the data source it was started against, whatever happens to the editor
    and to other executions, until it is released, replaced or its name is given to
    another.  Its release makes it unknown under both, and takes every name of it
    along: a registry without snapshots holds no names. *)
Theorem execution_target_kept before after n id b t :
  let r := registryRun (before ++ [CaptureInput n b t; AttachInput n id]) createDataSourceExecutionSnapshotRegistry in
  id ≠ [] → allKeep n id r after →
  let r' := registryRun after r in
  let snapshot := createDataSourceExecutionSnapshot b t in
  getDataSourceExecutionSnapshot r' (mkIdentity None (Some id)) = Some snapshot ∧
  getDataSourceExecutionSnapshot r' (mkIdentity (Some n) None) = Some snapshot ∧
  (∀ i, sequenceOf r' i = Some n →
    let r'' := releaseDataSourceExecutionSnapshot r' i in
    getDataSourceExecutionSnapshot r'' (mkIdentity None (Some id)) = None ∧
    getDataSourceExecutionSnapshot r'' (mkIdentity (Some n) None) = None) ∧
  (snapshotsBySequence r' = ∅ → sequenceByExecutionId r' = ∅).
Proof.
  intros r Hid Hkeep r' snapshot. assert (Hr : holds n id snapshot r).
  { subst r. unfold registryRun. rewrite fold_left_app. cbn. unfold attachDataSourceExecutionId. cbn. rewrite lookup_insert_eq.
    split; cbn; apply lookup_insert_eq. }
  assert (Hr' : holds n id snapshot r').
  { subst r'. clearbody r. revert r Hkeep Hr. induction after as [|x after IH]; intros r Hkeep Hr; [done|]. destruct Hkeep as [Hx Hkeep].
    apply IH; [done|]. by apply holds_step. }
  assert (Hok : registry_ok r') by (apply registryRun_ok, registryRun_ok, registry_empty_ok).
  destruct Hr' as [H1 H2]. assert (Hident : identityId (mkIdentity None (Some id)) = Some id) by (by destruct id).
  split_and!.
  - unfold getDataSourceExecutionSnapshot, sequenceOf. cbn [executionSequence]. rewrite Hident. cbn. by rewrite H2.
  - done.
  - intros i Hi r''. subst r''. unfold releaseDataSourceExecutionSnapshot. rewrite Hi. split.
    + unfold getDataSourceExecutionSnapshot, sequenceOf. cbn [executionSequence]. rewrite Hident. cbn.
      destruct (filter _ _ !! id) as [m|] eqn:E; [|done]. cbn. apply map_lookup_filter_Some in E as [E Hne]. cbn in Hne.
      assert (Hm : sequenceByExecutionId r' !! id = Some m) by (destruct (identityId i); [by apply lookup_delete_Some in E as [_ ?]|done]).
      congruence.
    + cbn. apply lookup_delete_eq.
  - intros Hempty. apply map_eq. intros id'. rewrite lookup_empty. destruct (sequenceByExecutionId r' !! id') as [m|] eqn:E; [|done].
    apply Hok in E as [x Hx]. by rewrite Hempty, lookup_empty in Hx.
Qed.

Definition demoBound (name : jstr) : BoundSource := mkBound (Some 1) (Some name) None None None None None None.

Lemma execution_target_kept_witness :
  let r := registryRun ([] ++ [CaptureInput 1 (demoBound (js "live")) 10; AttachInput 1 (js "e1")]) createDataSourceExecutionSnapshotRegistry in
  let after := [CaptureInput 2 (demoBound (js "test")) 20; AttachInput 2 (js "e2"); ReleaseInput (mkIdentity (Some 2) None)] in
  allKeep 1 (js "e1") r after ∧
  getDataSourceExecutionTargetLabel (getDataSourceExecutionSnapshot (registryRun after r) (mkIdentity None (Some (js "e1")))) = js "live" ∧
  getDataSourceExecutionSnapshot (registryRun after r) (mkIdentity None (Some (js "e1"))) = Some (createDataSourceExecutionSnapshot (demoBound (js "live")) 10).
Proof.
  intros r after. assert (Hkeep : allKeep 1 (js "e1") r after) 
    by (repeat split; [discriminate|left; intros H%js_inj; discriminate|vm_compute; discriminate|discriminate]).
  split; [exact Hkeep|]. split; [vm_compute; reflexivity|].
  assert (Hid : js "e1" ≠ []) by discriminate.
  exact (proj1 (execution_target_kept [] after 1 (js "e1") (demoBound (js "live")) 10 Hid Hkeep)).
Defined.
