(* ===== verification/ConsoleTabs.v ===== *)
(** * ConsoleTabs: what the tabs of consoles hold

    The values of [uniqueData] of a workspace tab, with the functions that
    [store/workspace/slices/console/action.ts] strips from them, and the names of
    console tabs ([store/workspace/utils/consoleTabName.ts]). *)

From S2P Require Import Prelude WorkspaceTabLayout.
Local Open Scope Z_scope.

(** ** Values *)

(** A value of a record; the numbers that are read are integers. *)
Inductive Value :=
  | VUndefined
  | VNull
  | VBool (b : bool)
  | VNumber (n : Z)
  | VString (text : jstr)
  | VFunction
  | VArray (items : list Value)
  | VObject (fields : dict Value).

Section value_ind.
Context (P : Value → Prop).
Hypotheses (Hundefined : P VUndefined) (Hnull : P VNull) (Hbool : ∀ b, P (VBool b)) (Hnumber : ∀ n, P (VNumber n))
  (Hstring : ∀ t, P (VString t)) (Hfunction : P VFunction) (Harray : ∀ l, Forall P l → P (VArray l))
  (Hobject : ∀ d, Forall (λ f, P f.2) d → P (VObject d)).

Fixpoint value_nested_ind (v : Value) : P v :=
  match v with
  | VUndefined => Hundefined
  | VNull => Hnull
  | VBool b => Hbool b
  | VNumber n => Hnumber n
  | VString t => Hstring t
  | VFunction => Hfunction
  | VArray l =>
      Harray l ((fix go l : Forall P l :=
        match l with [] => Forall_nil_2 _ | x :: l => Forall_cons_2 _ x l (value_nested_ind x) (go l) end) l)
  | VObject d =>
      Hobject d ((fix go d : Forall (λ f, P f.2) d :=
        match d with [] => Forall_nil_2 _ | f :: d => Forall_cons_2 _ f d (value_nested_ind f.2) (go d) end) d)
  end.
End value_ind.

Definition isDefined (v : Value) : bool := match v with VUndefined => false | _ => true end.

Fixpoint hasFunctionValue (v : Value) : bool :=
  match v with
  | VFunction => true
  | VArray items => existsb hasFunctionValue items
  | VObject fields => existsb (λ f, hasFunctionValue f.2) fields
  | _ => false
  end.

Fixpoint stripFunctionValues (v : Value) : Value :=
  match v with
  | VFunction => VUndefined
  | VArray items => VArray (List.filter isDefined (map stripFunctionValues items))
  | VObject fields =>
      VObject (List.filter (λ f, isDefined f.2) (map (λ f, (f.1, stripFunctionValues f.2)) fields))
  | _ => v
  end.

(** [stripFunctionValues] of an object. *)
Definition stripFields (fields : dict Value) : dict Value :=
  List.filter (λ f, isDefined f.2) (map (λ f, (f.1, stripFunctionValues f.2)) fields).

(** A field, which may be missing, as a value or as a text. *)
Definition field (k : jstr) (d : dict Value) : Value := default VUndefined (dget k d).
Definition textField (k : jstr) (d : dict Value) : jstr := match field k d with VString t => t | _ => [] end.

(** [a ?? b]. *)
Definition orNullish (a b : Value) : Value := match a with VUndefined | VNull => b | _ => a end.

(** [{ ...a, ...b }]. *)
Definition dmerge (a b : dict Value) : dict Value := fold_left (λ d f, dset f.1 f.2 d) b a.

(** A value that is an identifier. *)
Definition asId (v : Value) : option TabId :=
  match v with VNumber n => Some (IdNum n) | VString t => Some (IdStr t) | _ => None end.

(** ** Tabs *)

(** The fields of an [IWorkspaceTab] as the store of consoles sees them; the type
    is its text, empty when it is missing. *)
Record ConsoleTab := mkConsoleTab {
  tabId : TabId;
  tabType : jstr;
  tabTitle : jstr;
  uniqueData : option (dict Value);
  pinned : bool;
}.

Definition dataOf (tab : ConsoleTab) : dict Value := default [] (uniqueData tab).

Definition consoleType : jstr := js "console".

(** ** Names *)

Definition buildConsoleDefaultTabName (context : dict Value) : jstr :=
  or_else (textField (js "databaseName") context) (textField (js "schemaName") context)
  ++ match textField (js "dataSourceName") context with [] => [] | name => js "[" ++ name ++ js "]" end.

Definition isConsoleTabNameCustomized (title : jstr) (boundInfo : dict Value) : bool :=
  match field (js "nameCustomized") boundInfo with
  | VBool b => b
  | _ => negb (bool_decide (title = buildConsoleDefaultTabName boundInfo))
  end.

Definition applyWorkspaceTabBoundInfo (tab : ConsoleTab) (info : dict Value) : ConsoleTab :=
  let old := dataOf tab in
  let nextBoundInfo := dmerge old info in
  if bool_decide (tabType tab = consoleType) then
    let nameCustomized :=
      isConsoleTabNameCustomized (tabTitle tab)
        (dset (js "nameCustomized") (orNullish (field (js "nameCustomized") info) (field (js "nameCustomized") old)) old) in
    mkConsoleTab (tabId tab) (tabType tab)
      (if nameCustomized then tabTitle tab else buildConsoleDefaultTabName nextBoundInfo)
      (Some (dset (js "nameCustomized") (VBool nameCustomized) nextBoundInfo)) (pinned tab)
  else mkConsoleTab (tabId tab) (tabType tab) (tabTitle tab) (Some nextBoundInfo) (pinned tab).

(** ** Lemmas on values *)

Lemma existsb_false_Forall {A} (f : A → bool) l : existsb f l = false ↔ Forall (λ x, f x = false) l.
Proof.
  induction l as [|x l IH]; cbn; [by rewrite Forall_nil|]. by rewrite orb_false_iff, IH, Forall_cons.
Qed.

Lemma strip_no_function v : hasFunctionValue (stripFunctionValues v) = false.
Proof.
  induction v as [| | | | | |l IH|d IH] using value_nested_ind; try done; cbn; apply existsb_false_Forall, Forall_forall.
  - intros x Hx%list_elem_of_In. apply filter_In in Hx as [Hx _]. apply in_map_iff in Hx as (y & <- & Hy).
    rewrite Forall_forall in IH. by apply IH, list_elem_of_In.
  - intros x Hx%list_elem_of_In. apply filter_In in Hx as [Hx _]. apply in_map_iff in Hx as (y & <- & Hy).
    rewrite Forall_forall in IH. by apply IH, list_elem_of_In.
Qed.

Lemma dget_strip k d :
  NoDup (dkeys d) →
  dget k (stripFields d) = match dget k d with
                           | Some v => if isDefined (stripFunctionValues v) then Some (stripFunctionValues v) else None
                           | None => None
                           end.
Proof.
  induction d as [|[k' v] d IH]; [done|]. intros [Hk Hd]%NoDup_cons. specialize (IH Hd).
  unfold stripFields in *. cbn.
  assert (k = k' → dget k (List.filter (λ f : jstr * Value, isDefined f.2) (map (λ f, (f.1, stripFunctionValues f.2)) d)) = None) as Hnone.
  { intros ->. rewrite IH. by rewrite (proj2 (eq_None_not_Some (dget k' d))) by (by rewrite dget_is_Some). }
  destruct (isDefined (stripFunctionValues v)) eqn:E; cbn.
  - case_decide as Ek; [by rewrite E|done].
  - case_decide as Ek; [rewrite E; by apply Hnone|done].
Qed.

Lemma field_dset k k' v d : field k' (dset k v d) = if decide (k = k') then v else field k' d.
Proof. unfold field. rewrite dget_dset. by case_decide. Qed.

Lemma field_dset_eq k v d : field k (dset k v d) = v.
Proof. rewrite field_dset. by case_decide. Qed.

Lemma field_dset_ne k k' v d : k ≠ k' → field k' (dset k v d) = field k' d.
Proof. intros H. rewrite field_dset. by case_decide. Qed.

Lemma textField_dset_ne k k' v d : k ≠ k' → textField k' (dset k v d) = textField k' d.
Proof. intros H. unfold textField. rewrite field_dset. by case_decide. Qed.

Lemma dget_dmerge k b : ∀ a,
  NoDup (dkeys b) → dget k (dmerge a b) = match dget k b with Some v => Some v | None => dget k a end.
Proof.
  unfold dmerge. induction b as [|[k' v] b IH]; intros a; [done|]. intros [Hk Hb]%NoDup_cons. cbn [fold_left dget fst snd].
  rewrite IH by done. rewrite dget_dset.
  destruct (dget k b) eqn:Eb; [|by repeat case_decide].
  case_decide; subst; [|done]. destruct Hk. apply dget_is_Some. by eexists.
Qed.

Lemma NoDup_dmerge b : ∀ a, NoDup (dkeys a) → NoDup (dkeys (dmerge a b)).
Proof. unfold dmerge. induction b as [|f b IH]; intros a Ha; [done|]. cbn. by apply IH, NoDup_dkeys_dset. Qed.

(** ** Names that follow the data source *)

(** A console tab that is not named by the user bears the default name. *)
Definition auto_named (tab : ConsoleTab) : Prop :=
  tabType tab = consoleType → field (js "nameCustomized") (dataOf tab) = VBool false →
  tabTitle tab = buildConsoleDefaultTabName (dataOf tab).

Lemma defaultName_dset k v d :
  k ∉ [js "databaseName"; js "schemaName"; js "dataSourceName"] →
  buildConsoleDefaultTabName (dset k v d) = buildConsoleDefaultTabName d.
Proof. intros H. unfold buildConsoleDefaultTabName. by rewrite !textField_dset_ne by set_solver. Qed.

(** Reads fields, and the default name, of a record with more fields set. *)
Ltac fields :=
  unfold textField;
  repeat first
    [ rewrite field_dset_eq
    | rewrite field_dset_ne by (vm_compute; discriminate)
    | rewrite defaultName_dset by (vm_compute; let H := fresh in intros H%list_elem_of_In; naive_solver) ].

Lemma applied_auto_named tab info : auto_named (applyWorkspaceTabBoundInfo tab info).
Proof.
  unfold applyWorkspaceTabBoundInfo, auto_named. case_bool_decide as Ht; [|done].
  intros _. unfold dataOf; cbn [uniqueData default from_option id tabTitle].
  fields. by intros [= ->].
Qed.
