(* ===== verification/ConsoleActions.v ===== *)
(** * ConsoleActions: opening, naming and closing the tabs of consoles

    Models [store/workspace/slices/console/action.ts] with
    [store/workspace/utils/workspaceTabScrollRequest.ts] and the plan and end of a
    removal of [store/workspace/utils/savedConsoleLifecycle.ts].  The service
    answers later, and other actions run in between: an action that waits keeps
    what it has read of the store, as the closures of the code do.  An editor is
    named by a number; its text is that of the editor, not of the store. *)

From S2P Require Import Prelude WorkspaceTabLayout WorkspaceTabInvariant WorkspaceTab WorkspaceTabPersistence ConsoleTabs.
Local Open Scope nat_scope.

(** ** Data *)

Definition RECENTLY_CLOSED_WORKSPACE_TAB_LIMIT : nat := 20.

(** What the services were told: [updateSavedConsole] with [NOT_OPEN], and
    [deleteValue] of the store of drafts. *)
Inductive Effect := ClosedConsole (id : Z) | DeletedDraft (key : jstr).

(** A console that is being created: the tabs when it was asked for, and the new
    console. *)
Record CreateJob := mkCreate { createTabs : option (list ConsoleTab); newConsole : dict Value }.

(** A tab that is being closed, with the tabs, the layout and the editors when
    its closing began. *)
Inductive ClosePhase := AsksTheUser | UpdatesConsole.
Record CloseJob := mkClose {
  closeId : TabId;
  closeTabs : list ConsoleTab;
  closeLayout : option IWorkspaceTabSplitLayout;
  closeEditors : dict nat;
  closePhase : ClosePhase;
}.

Record ConsoleState := mkConsoles {
  activeConsoleId : nul TabId;
  workspaceTabScrollRequest : option (TabId * Z);
  workspaceTabList : option (list ConsoleTab);
  workspaceTabSplitLayout : option IWorkspaceTabSplitLayout;
  recentlyClosedWorkspaceTabs : list ConsoleTab;
  createConsoleLoading : bool;
  editorList : dict nat;
  editorTexts : gmap nat jstr;
  creating : list CreateJob;
  removing : list (Z * option TabId);
  closing : list CloseJob;
  effects : list Effect;
}.

Definition initConsoleState : ConsoleState := mkConsoles Null None None None [] false [] ∅ [] [] [] [].

Definition withActive (a : nul TabId) (r : option (TabId * Z)) (s : ConsoleState) : ConsoleState :=
  mkConsoles a r (workspaceTabList s) (workspaceTabSplitLayout s) (recentlyClosedWorkspaceTabs s) (createConsoleLoading s)
    (editorList s) (editorTexts s) (creating s) (removing s) (closing s) (effects s).
Definition withTabs (l : option (list ConsoleTab)) (a : nul TabId) (s : ConsoleState) : ConsoleState :=
  mkConsoles a (workspaceTabScrollRequest s) l (workspaceTabSplitLayout s) (recentlyClosedWorkspaceTabs s) (createConsoleLoading s)
    (editorList s) (editorTexts s) (creating s) (removing s) (closing s) (effects s).
Definition withLayout (l : option IWorkspaceTabSplitLayout) (s : ConsoleState) : ConsoleState :=
  mkConsoles (activeConsoleId s) (workspaceTabScrollRequest s) (workspaceTabList s) l (recentlyClosedWorkspaceTabs s)
    (createConsoleLoading s) (editorList s) (editorTexts s) (creating s) (removing s) (closing s) (effects s).
Definition withRecentlyClosed (l : list ConsoleTab) (s : ConsoleState) : ConsoleState :=
  mkConsoles (activeConsoleId s) (workspaceTabScrollRequest s) (workspaceTabList s) (workspaceTabSplitLayout s) l
    (createConsoleLoading s) (editorList s) (editorTexts s) (creating s) (removing s) (closing s) (effects s).
Definition withEditors (l : dict nat) (texts : gmap nat jstr) (s : ConsoleState) : ConsoleState :=
  mkConsoles (activeConsoleId s) (workspaceTabScrollRequest s) (workspaceTabList s) (workspaceTabSplitLayout s)
    (recentlyClosedWorkspaceTabs s) (createConsoleLoading s) l texts (creating s) (removing s) (closing s) (effects s).
Definition withCreating (l : list CreateJob) (loading : bool) (s : ConsoleState) : ConsoleState :=
  mkConsoles (activeConsoleId s) (workspaceTabScrollRequest s) (workspaceTabList s) (workspaceTabSplitLayout s)
    (recentlyClosedWorkspaceTabs s) loading (editorList s) (editorTexts s) l (removing s) (closing s) (effects s).
Definition withRemoving (l : list (Z * option TabId)) (s : ConsoleState) : ConsoleState :=
  mkConsoles (activeConsoleId s) (workspaceTabScrollRequest s) (workspaceTabList s) (workspaceTabSplitLayout s)
    (recentlyClosedWorkspaceTabs s) (createConsoleLoading s) (editorList s) (editorTexts s) (creating s) l (closing s) (effects s).
Definition withClosing (l : list CloseJob) (s : ConsoleState) : ConsoleState :=
  mkConsoles (activeConsoleId s) (workspaceTabScrollRequest s) (workspaceTabList s) (workspaceTabSplitLayout s)
    (recentlyClosedWorkspaceTabs s) (createConsoleLoading s) (editorList s) (editorTexts s) (creating s) (removing s) l (effects s).
Definition withEffects (l : list Effect) (s : ConsoleState) : ConsoleState :=
  mkConsoles (activeConsoleId s) (workspaceTabScrollRequest s) (workspaceTabList s) (workspaceTabSplitLayout s)
    (recentlyClosedWorkspaceTabs s) (createConsoleLoading s) (editorList s) (editorTexts s) (creating s) (removing s) (closing s) l.

Definition tabsIn (s : ConsoleState) : list ConsoleTab := default [] (workspaceTabList s).
Definition idsOf (l : list ConsoleTab) : list TabId := tabId <$> l.

(** ** Active tab and tabs *)

Definition createNextWorkspaceTabScrollRequest (currentRequest : option (TabId * Z)) (t : TabId) : TabId * Z :=
  (t, (default 0 (snd <$> currentRequest) + 1)%Z).

Definition setActiveConsoleId (a : nul TabId) (s : ConsoleState) : ConsoleState :=
  withActive a
    (match a with Val t => Some (createNextWorkspaceTabScrollRequest (workspaceTabScrollRequest s) t) | _ => None end) s.

Definition setWorkspaceTabList (l : option (list ConsoleTab)) (s : ConsoleState) : ConsoleState :=
  withTabs l (activeAmong (activeConsoleId s) (idsOf (default [] l))) s.

Definition addWorkspaceTab (tab : ConsoleTab) (activate : bool) (s : ConsoleState) : ConsoleState :=
  if includes (tabId tab) (idsOf (tabsIn s)) then
    if activate then setActiveConsoleId (Val (tabId tab)) s else s
  else
    let s := setWorkspaceTabList (Some (tabsIn s ++ [tab])) s in
    if activate then setActiveConsoleId (Val (tabId tab)) s else s.

(** ** Creating consoles *)

Definition textOr (a b : jstr) : Value := VString (or_else a b).

(** The new console of [createConsole]; [support] are the two fields of the
    current connection. *)
Definition consoleOf (params : dict Value) (support : Value * Value) : dict Value :=
  let given := textField (js "name") params in
  dmerge params
    [(js "name", textOr given (buildConsoleDefaultTabName params));
     (js "nameCustomized", VBool (negb (bool_decide (given = []))));
     (js "ddl", textOr (textField (js "ddl") params) []);
     (js "status", VString (js "DRAFT"));
     (js "operationType", textOr (textField (js "operationType") params) consoleType);
     (js "type", field (js "databaseType") params);
     (js "supportDatabase", support.1);
     (js "supportSchema", support.2)].

Definition createConsole (params : dict Value) (support : Value * Value) (s : ConsoleState) : ConsoleState :=
  withCreating (creating s ++ [mkCreate (workspaceTabList s) (consoleOf params support)]) true s.

Definition createdTab (job : CreateJob) (id : Z) : ConsoleTab :=
  mkConsoleTab (IdNum id) (textField (js "operationType") (newConsole job)) (textField (js "name") (newConsole job))
    (Some (dset (js "consoleId") (VNumber id) (newConsole job))) false.

(** The service answers the [k]-th creation; [None] is an error, after which
    only [finally] runs. *)
Definition consoleCreated (k : nat) (answer : option Z) (s : ConsoleState) : ConsoleState :=
  match creating s !! k with
  | None => s
  | Some job =>
      let s := withCreating (delete k (creating s)) false s in
      match answer with
      | None => s
      | Some id =>
          setActiveConsoleId (Val (IdNum id))
            (setWorkspaceTabList (Some (default [] (createTabs job) ++ [createdTab job id])) s)
      end
  end.

(** ** Editors *)

(** The property name of an identifier. *)
Definition tabKey (t : TabId) : jstr := match t with IdStr t => t | IdNum n => znum n end.

Definition setEditorToList (t : TabId) (editor : nat) (text : jstr) (s : ConsoleState) : ConsoleState :=
  withEditors (dset (tabKey t) editor (editorList s)) (<[editor := text]> (editorTexts s)) s.

Definition deleteEditor (t : TabId) (s : ConsoleState) : ConsoleState :=
  if truthyId t && bool_decide (is_Some (dget (tabKey t) (editorList s)))
  then withEditors (filter (λ e, e.1 ≠ tabKey t) (editorList s)) (editorTexts s) s
  else s.

(** ** Data sources and names of tabs *)

Definition isTarget (t : option TabId) (tab : ConsoleTab) : bool :=
  match t with Some t => bool_decide (tabId tab = t) | None => false end.

Definition isTargetConsole (console : option TabId) (tab : ConsoleTab) : bool :=
  match console with
  | Some c => bool_decide (asId (field (js "consoleId") (dataOf tab)) = Some c) || bool_decide (tabId tab = c)
  | None => false
  end.

Definition isBound (info : dict Value) (tab : ConsoleTab) : bool :=
  isTarget (asId (field (js "workspaceTabId") info)) tab || isTargetConsole (asId (field (js "consoleId") info)) tab.

Definition updateWorkspaceTabBoundInfo (info : dict Value) (s : ConsoleState) : ConsoleState :=
  match workspaceTabList s with
  | None => s
  | Some l =>
      setWorkspaceTabList (Some (map (λ tab, if isBound info tab then applyWorkspaceTabBoundInfo tab info else tab) l)) s
  end.

(** The tab of a console that was saved. *)
Definition savedTab (console : Z) (name : jstr) (nameCustomized : option bool) (tab : ConsoleTab) : ConsoleTab :=
  mkConsoleTab (tabId tab) (tabType tab) (or_else name (tabTitle tab))
    (Some (dmerge (dataOf tab)
       [(js "consoleId", VNumber console); (js "status", VString (js "RELEASE"));
        (js "nameCustomized",
         match nameCustomized with Some b => VBool b | None => field (js "nameCustomized") (dataOf tab) end)]))
    (pinned tab).

Definition markWorkspaceTabConsoleSaved (t : option TabId) (console : Z) (name : jstr) (nameCustomized : option bool)
    (s : ConsoleState) : ConsoleState :=
  match workspaceTabList s with
  | None => s
  | Some l =>
      setWorkspaceTabList
        (Some (map (λ tab, if isTarget t tab || isTargetConsole (Some (IdNum console)) tab
                           then savedTab console name nameCustomized tab else tab) l)) s
  end.

(** ** Removing saved consoles *)

(** The tab whose console stays as a draft; [None] deletes the console. *)
Definition resolveSavedConsoleRemoval (l : option (list ConsoleTab)) (console : Z) : option TabId :=
  tabId <$> js_find (λ tab, bool_decide (tabType tab = consoleType) &&
    bool_decide (match orNullish (field (js "consoleId") (dataOf tab)) VUndefined with
                 | VUndefined => Some (tabId tab)
                 | v => asId v
                 end = Some (IdNum console))) (default [] l).

Definition removeSavedConsole (console : Z) (s : ConsoleState) : ConsoleState :=
  withRemoving (removing s ++ [(console, resolveSavedConsoleRemoval (workspaceTabList s) console)]) s.

Definition draftInfo (t : TabId) (console : Z) : dict Value :=
  [(js "workspaceTabId", match t with IdNum n => VNumber n | IdStr t => VString t end);
   (js "consoleId", VNumber console); (js "status", VString (js "DRAFT"))].

(** The end of [executeSavedConsoleRemoval]: whether the removal is the latest
    mutation of the console, [None] when it failed. *)
Definition consoleRemoved (k : nat) (current : option bool) (s : ConsoleState) : ConsoleState :=
  match removing s !! k with
  | None => s
  | Some (console, plan) =>
      let s := withRemoving (delete k (removing s)) s in
      match current, plan with
      | Some true, Some t => updateWorkspaceTabBoundInfo (draftInfo t console) s
      | _, _ => s
      end
  end.

(** ** Closing the active tab *)

Definition isSavedConsoleLikeWorkspaceTab (tab : ConsoleTab) : bool :=
  includes (tabType tab) [consoleType; js "function"; js "procedure"; js "trigger"; js "view"; js "table"; []].

(** [removedWorkspaceTab?.uniqueData?.consoleId ?? removedWorkspaceTab?.id], if it
    is a number. *)
Definition savedConsoleId (tab : ConsoleTab) : option Z :=
  match orNullish (field (js "consoleId") (dataOf tab)) VUndefined with
  | VNumber n => Some n
  | VUndefined => match tabId tab with IdNum n => Some n | IdStr _ => None end
  | _ => None
  end.

Definition removedTab (job : CloseJob) : option ConsoleTab :=
  js_find (λ tab, bool_decide (tabId tab = closeId job)) (closeTabs job).

Definition remainingTabs (job : CloseJob) : list ConsoleTab := filter (λ tab, tabId tab ≠ closeId job) (closeTabs job).

Definition lastId (l : list ConsoleTab) : nul TabId := match last l with Some tab => Val (tabId tab) | None => Null end.

(** The pane of a tab, if it has a name. *)
Definition getPaneIdForWorkspaceTab (layout : option IWorkspaceTabSplitLayout) (t : TabId) : option jstr :=
  layout ≫= λ l, findActivePane (paneTabIds l) t.

(** [newActiveId] and [nextWorkspaceTabSplitLayout]. *)
Definition nextActive (job : CloseJob) : nul TabId * option IWorkspaceTabSplitLayout :=
  let fallback := lastId (remainingTabs job) in
  match closeLayout job, getPaneIdForWorkspaceTab (closeLayout job) (closeId job) with
  | Some l, Some activePaneId =>
      let ids := tabsOf l activePaneId in
      let currentIndex := findTabIndex (closeId job) ids in
      let nextPaneTabIds := filter (λ t, t ≠ closeId job) ids in
      let newActiveId :=
        match nextPaneTabIds !! (currentIndex - 1) with
        | Some t => Val t
        | None => match nextPaneTabIds !! currentIndex with Some t => Val t | None => fallback end
        end in
      (newActiveId,
       Some (mkLayout (direction l) activePaneId (lastNonTerminalActiveTabId l)
               (dset activePaneId nextPaneTabIds (paneTabIds l)) (dset activePaneId newActiveId (activeTabIds l)) (root l)))
  | _, _ => (fallback, closeLayout job)
  end.

(** The entry of the history of closed tabs. *)
Definition closedTab (job : CloseJob) (tab : ConsoleTab) (s : ConsoleState) : ConsoleTab :=
  let currentEditorValue := dget (tabKey (tabId tab)) (closeEditors job) ≫= λ editor, editorTexts s !! editor in
  mkConsoleTab (tabId tab) (tabType tab) (tabTitle tab)
    ((λ d, match currentEditorValue with
           | Some text => dset (js "ddl") (VString text) (stripFields d)
           | None => stripFields d
           end) <$> uniqueData tab)
    false.

Definition rememberClosed (job : CloseJob) (s : ConsoleState) : ConsoleState :=
  match removedTab job with
  | Some tab =>
      if hasFunctionValue (VObject (dataOf tab)) then s
      else withRecentlyClosed
             (take RECENTLY_CLOSED_WORKSPACE_TAB_LIMIT (closedTab job tab s :: recentlyClosedWorkspaceTabs s)) s
  | None => s
  end.

(** From [Set new activation tag] to the end. *)
Definition finishClose (job : CloseJob) (s : ConsoleState) : ConsoleState :=
  let '(newActiveId, nextLayout) := nextActive job in
  setActiveConsoleId newActiveId
    (setWorkspaceTabList (Some (remainingTabs job)) (withLayout nextLayout (rememberClosed job s))).

(** After the confirmation. *)
Definition closeConfirmed (job : CloseJob) (s : ConsoleState) : ConsoleState :=
  let s := if bool_decide (is_Some (dget (tabKey (closeId job)) (closeEditors job))) then deleteEditor (closeId job) s else s in
  match removedTab job with
  | Some tab =>
      match isSavedConsoleLikeWorkspaceTab tab, savedConsoleId tab with
      | true, Some id =>
          withClosing (closing s ++ [mkClose (closeId job) (closeTabs job) (closeLayout job) (closeEditors job) UpdatesConsole])
            (withEffects (effects s ++ [ClosedConsole id]) s)
      | _, _ => finishClose job s
      end
  | None => finishClose job s
  end.

Definition deleteActiveWorkspaceTab (s : ConsoleState) : ConsoleState :=
  match activeConsoleId s, workspaceTabList s with
  | Val t, Some l =>
      if negb (truthyId t) then s else
      let job := mkClose t l (workspaceTabSplitLayout s) (editorList s) AsksTheUser in
      match removedTab job with
      | Some tab => if pinned tab then s else withClosing (closing s ++ [job]) s
      | None => closeConfirmed job s
      end
  | _, _ => s
  end.

(** The answer the [k]-th closing waits for: that of the user, or that of the
    service, where [false] is an error. *)
Definition closeAnswered (k : nat) (answer : bool) (s : ConsoleState) : ConsoleState :=
  match closing s !! k with
  | None => s
  | Some job =>
      let s := withClosing (delete k (closing s)) s in
      if negb answer then s else
      match closePhase job with
      | AsksTheUser => closeConfirmed job s
      | UpdatesConsole =>
          let deleted := match removedTab job ≫= savedConsoleId with Some id => [DeletedDraft (znum id)] | None => [] end in
          finishClose job (withEffects (effects s ++ deleted) s)
      end
  end.

Inductive ConsoleInput :=
  | ActivateInput (a : nul TabId)
  | TabsInput (l : option (list ConsoleTab))
  | AddInput (tab : ConsoleTab) (activate : bool)
  | CreateInput (params : dict Value) (support : Value * Value)
  | CreatedInput (k : nat) (answer : option Z)
  | EditorInput (t : TabId) (editor : nat) (text : jstr)
  | EditorGoneInput (t : TabId)
  | TypedInput (editor : nat) (text : jstr)
  | BoundInput (info : dict Value)
  | SavedInput (t : option TabId) (console : Z) (name : jstr) (nameCustomized : option bool)
  | RemoveInput (console : Z)
  | RemovedInput (k : nat) (current : option bool)
  | LayoutInput (l : option IWorkspaceTabSplitLayout)
  | CloseInput
  | CloseAnswerInput (k : nat) (answer : bool).

Definition consoleStep (s : ConsoleState) (i : ConsoleInput) : ConsoleState :=
  match i with
  | ActivateInput a => setActiveConsoleId a s
  | TabsInput l => setWorkspaceTabList l s
  | AddInput tab activate => addWorkspaceTab tab activate s
  | CreateInput params support => createConsole params support s
  | CreatedInput k answer => consoleCreated k answer s
  | EditorInput t editor text => setEditorToList t editor text s
  | EditorGoneInput t => deleteEditor t s
  | TypedInput editor text => withEditors (editorList s) (<[editor := text]> (editorTexts s)) s
  | BoundInput info => updateWorkspaceTabBoundInfo info s
  | SavedInput t console name nameCustomized => markWorkspaceTabConsoleSaved t console name nameCustomized s
  | RemoveInput console => removeSavedConsole console s
  | RemovedInput k current => consoleRemoved k current s
  | LayoutInput l => withLayout l s
  | CloseInput => deleteActiveWorkspaceTab s
  | CloseAnswerInput k answer => closeAnswered k answer s
  end.

Definition consoleRun (inputs : list ConsoleInput) : ConsoleState := fold_left consoleStep inputs initConsoleState.

(** ** The invariant *)

Definition tabs_ok (l : list ConsoleTab) : Prop := NoDup (idsOf l) ∧ Forall auto_named l.

Definition closed_ok (tab : ConsoleTab) : Prop := pinned tab = false ∧ hasFunctionValue (VObject (dataOf tab)) = false.

(** A layout of these tabs: the panes have names of their own, and no tab is in
    two of them. *)
Definition panes_ok (layout : option IWorkspaceTabSplitLayout) (l : list ConsoleTab) : Prop :=
  match layout with
  | Some y => NoDup (dkeys (paneTabIds y)) ∧ [] ∉ dkeys (paneTabIds y) ∧ NoDup (allTabs (paneTabIds y)) ∧
              (∀ t, t ∈ allTabs (paneTabIds y) → t ∈ idsOf l)
  | None => True
  end.

Definition active_ok (a : nul TabId) (ids : list TabId) : Prop := a = Null ∨ ∃ t, a = Val t ∧ t ∈ ids.

Definition create_ok (job : CreateJob) : Prop :=
  tabs_ok (default [] (createTabs job)) ∧ ∀ id, auto_named (createdTab job id).

Definition close_ok (job : CloseJob) : Prop := tabs_ok (closeTabs job) ∧ panes_ok (closeLayout job) (closeTabs job).

Definition consoles_ok (s : ConsoleState) : Prop :=
  tabs_ok (tabsIn s) ∧ active_ok (activeConsoleId s) (idsOf (tabsIn s)) ∧
  length (recentlyClosedWorkspaceTabs s) ≤ RECENTLY_CLOSED_WORKSPACE_TAB_LIMIT ∧ Forall closed_ok (recentlyClosedWorkspaceTabs s) ∧
  Forall create_ok (creating s) ∧ Forall close_ok (closing s).

(** What the callers of the store keep to: the tabs they activate are there, the
    lists they set have no tab twice, the service gives a new console a number of
    its own, a console is saved under a name the user gave or under its default
    name, and a tab is closed when the panes hold the tabs of the list. *)
Definition input_ok (s : ConsoleState) (i : ConsoleInput) : Prop :=
  match i with
  | ActivateInput a => active_ok a (idsOf (tabsIn s))
  | TabsInput l => tabs_ok (default [] l)
  | AddInput tab _ => auto_named tab
  | CreatedInput k (Some id) => ∀ job, creating s !! k = Some job → IdNum id ∉ idsOf (default [] (createTabs job))
  | SavedInput t console name nameCustomized =>
      match nameCustomized with
      | Some true => True
      | _ => ∀ tab, tab ∈ tabsIn s → name = [] ∧ nameCustomized = None ∨ or_else name (tabTitle tab) = buildConsoleDefaultTabName (dataOf tab)
      end
  | CloseInput => panes_ok (workspaceTabSplitLayout s) (tabsIn s)
  | _ => True
  end.

Fixpoint inputs_ok (s : ConsoleState) (inputs : list ConsoleInput) : Prop :=
  match inputs with [] => True | i :: inputs => input_ok s i ∧ inputs_ok (consoleStep s i) inputs end.

Lemma activeAmong_ok a ids : active_ok (activeAmong a ids) ids.
Proof.
  destruct ids as [|id0 ids]; [by left|]. unfold active_ok.
  destruct a as [| |t]; cbn; [right; exists id0; set_solver..|].
  repeat case_test; autorewrite with js in *; [right; exists t; set_solver|by left|right; exists id0; set_solver].
Qed.

Lemma activeAmong_kept t ids : t ∈ ids → truthyId t = true → activeAmong (Val t) ids = Val t.
Proof. destruct ids; [set_solver|]. intros H Ht. cbn. by rewrite (proj2 (includes_true t _)), Ht by done. Qed.

Lemma setTabs_ok l s : consoles_ok s → tabs_ok (default [] l) → consoles_ok (setWorkspaceTabList l s).
Proof. intros (_ & _ & H) Hl. split; [done|]. split; [apply activeAmong_ok|done]. Qed.

Lemma setActive_ok a s : consoles_ok s → active_ok a (idsOf (tabsIn s)) → consoles_ok (setActiveConsoleId a s).
Proof. intros (H1 & _ & H) Ha. by split; [|split]. Qed.

Lemma mapTabs_ids f l : (∀ tab, tabId (f tab) = tabId tab) → idsOf (map f l) = idsOf l.
Proof. intros H. unfold idsOf. induction l; [done|]. csimpl. congruence. Qed.

Lemma mapTabs_ok f l s :
  (∀ tab, tabId (f tab) = tabId tab) → (∀ tab, tab ∈ tabsIn s → auto_named tab → auto_named (f tab)) →
  workspaceTabList s = Some l → consoles_ok s → consoles_ok (setWorkspaceTabList (Some (map f l)) s).
Proof.
  intros Hid Hf Hl Hok. apply setTabs_ok; [done|]. destruct Hok as ([H1 H2] & _).
  unfold tabsIn in *. rewrite Hl in *. cbn in *. split; [by rewrite mapTabs_ids|].
  rewrite Forall_forall in *. intros x (tab & -> & Ht)%list_elem_of_fmap. auto.
Qed.

Lemma applied_id tab info : tabId (applyWorkspaceTabBoundInfo tab info) = tabId tab.
Proof. unfold applyWorkspaceTabBoundInfo. by case_bool_decide. Qed.

Lemma bound_ok info s : consoles_ok s → consoles_ok (updateWorkspaceTabBoundInfo info s).
Proof.
  intros H. unfold updateWorkspaceTabBoundInfo. destruct (workspaceTabList s) as [l|] eqn:El; [|done].
  apply mapTabs_ok; [| |done|done].
  - intros tab. case_test; [apply applied_id|done].
  - intros tab _ Ht. case_test; [apply applied_auto_named|done].
Qed.

Lemma saved_ok t console name nc s :
  consoles_ok s → input_ok s (SavedInput t console name nc) → consoles_ok (markWorkspaceTabConsoleSaved t console name nc s).
Proof.
  intros H Hi. unfold markWorkspaceTabConsoleSaved. destruct (workspaceTabList s) as [l|] eqn:El; [|done].
  apply mapTabs_ok; [by intros tab; case_test| |done|done].
  intros tab Hin Ht. case_test; [|done]. cbn in Hi. unfold auto_named, savedTab, dataOf, dmerge in *.
  cbn [uniqueData tabTitle tabType default from_option id fold_left fst snd]. intros Hty.
  fields.
  destruct nc as [[]|]; [done| |]; intros Hf.
  - by destruct (Hi tab Hin) as [[_ ?]|?].
  - destruct (Hi tab Hin) as [[-> _]|?]; [by apply Ht|done].
Qed.

Lemma add_ok tab activate s : consoles_ok s → auto_named tab → consoles_ok (addWorkspaceTab tab activate s).
Proof.
  intros H Ht. unfold addWorkspaceTab. destruct (includes _ _) eqn:Ei; autorewrite with js in Ei.
  { case_test; [|done]. apply setActive_ok; [done|]. right. by eexists. }
  assert (tabs_ok (tabsIn s ++ [tab])) as Hl.
  { destruct H as ([H1 H2] & _). split; [|apply Forall_app_2; [done|by repeat constructor]].
    unfold idsOf. rewrite fmap_app. apply NoDup_app. split_and!; [done| |apply NoDup_singleton].
    intros x Hx. intros ->%list_elem_of_singleton. by apply Ei. }
  assert (consoles_ok (setWorkspaceTabList (Some (tabsIn s ++ [tab])) s)) by by apply setTabs_ok.
  case_test; [|done]. apply setActive_ok; [done|]. right. exists (tabId tab).
  split; [done|]. unfold tabsIn at 1; cbn. unfold idsOf. rewrite fmap_app. set_solver.
Qed.

Lemma created_auto_named params support l n : auto_named (createdTab (mkCreate l (consoleOf params support)) n).
Proof.
  unfold auto_named, createdTab, dataOf, consoleOf, dmerge.
  cbn [uniqueData tabTitle tabType default from_option id fold_left fst snd newConsole]. intros _.
  fields. unfold textOr. match goal with |- context [bool_decide (?given = [])] => by destruct given end.
Qed.

Lemma Forall_delete {A} (P : A → Prop) k (l : list A) : Forall P l → Forall P (delete k l).
Proof. apply Forall_sublist, sublist_delete. Qed.

Lemma consoleCreated_ok k answer s : consoles_ok s → input_ok s (CreatedInput k answer) → consoles_ok (consoleCreated k answer s).
Proof.
  intros (H1 & H2 & H3 & H4 & H5 & H6) Hi. unfold consoleCreated. destruct (creating s !! k) as [job|] eqn:Ek; [|done].
  assert (consoles_ok (withCreating (delete k (creating s)) false s)) as Hs by (split_and!; try done; by apply Forall_delete).
  destruct answer as [id|]; [|done]. rewrite Forall_lookup in H5. destruct (H5 k job Ek) as [[Hj1 Hj2] Hnew].
  apply setActive_ok; [apply setTabs_ok; [done|]|]; cbn.
  - split; [|apply Forall_app_2; [done|by constructor]]. unfold idsOf. rewrite fmap_app. apply NoDup_app.
    split_and!; [done| |apply NoDup_singleton]. intros x Hx ->%list_elem_of_singleton. by apply (Hi job Ek).
  - right. eexists. split; [done|]. unfold tabsIn; cbn. unfold idsOf. rewrite fmap_app. set_solver.
Qed.

Lemma removedTab_Some job tab : removedTab job = Some tab → tab ∈ closeTabs job ∧ tabId tab = closeId job.
Proof. intros [H1 H2]%js_find_Some. to_prop. done. Qed.

Lemma remaining_ok job : tabs_ok (closeTabs job) → tabs_ok (remainingTabs job).
Proof.
  intros [H1 H2]. split; [|by eapply Forall_sublist; [apply sublist_filter|]].
  eapply NoDup_fmap_sublist; [|done]. apply sublist_filter.
Qed.

Lemma remaining_ids t job : t ∈ idsOf (remainingTabs job) ↔ t ∈ idsOf (closeTabs job) ∧ t ≠ closeId job.
Proof.
  unfold idsOf, remainingTabs. rewrite !list_elem_of_fmap. setoid_rewrite list_elem_of_filter. naive_solver.
Qed.

Lemma lastId_ok l : active_ok (lastId l) (idsOf l).
Proof.
  unfold lastId. destruct (last l) as [tab|] eqn:E; [right|by left]. eexists. split; [done|].
  apply last_Some in E as [l' ->]. unfold idsOf. rewrite fmap_app. set_solver.
Qed.

Lemma nextActive_ok job : close_ok job → active_ok (nextActive job).1 (idsOf (remainingTabs job)).
Proof.
  intros [Ht Hp]. unfold nextActive. destruct (closeLayout job) as [y|]; [|apply lastId_ok]. cbn.
  destruct (findActivePane _ _) as [p|]; [|apply lastId_ok]. cbn. destruct Hp as (_ & _ & _ & Hin).
  assert (∀ t, t ∈ filter (λ t, t ≠ closeId job) (tabsOf y p) → active_ok (Val t) (idsOf (remainingTabs job))) as Hf.
  { intros t [H1 H2]%list_elem_of_filter. right. eexists. split; [done|]. apply remaining_ids. split; [|done].
    by eapply Hin, tabsAt_allTabs. }
  repeat case_match; try apply lastId_ok; eapply Hf, list_elem_of_lookup_2; done.
Qed.

Lemma closedTab_ok job tab s : closed_ok (closedTab job tab s).
Proof.
  split; [done|]. unfold closedTab, dataOf; cbn. destruct (uniqueData tab) as [d|]; [|done]. cbn.
  assert (Forall (λ f : jstr * Value, hasFunctionValue f.2 = false) (stripFields d)) as Hs.
  { apply existsb_false_Forall. apply (strip_no_function (VObject d)). }
  apply existsb_false_Forall. case_match; [|done]. by apply dset_Forall.
Qed.

Lemma remember_ok job s : consoles_ok s → consoles_ok (rememberClosed job s).
Proof.
  intros (H1 & H2 & H3 & H4 & H5 & H6). unfold rememberClosed. destruct (removedTab job); [|done]. case_test; [done|].
  split_and!; try done; cbn [recentlyClosedWorkspaceTabs withRecentlyClosed]; [rewrite length_take; lia|].
  eapply Forall_sublist; [apply sublist_take|]. constructor; [apply closedTab_ok|done].
Qed.

Lemma finishClose_ok job s : consoles_ok s → close_ok job → consoles_ok (finishClose job s).
Proof.
  intros Hs Hj. unfold finishClose. pose proof (nextActive_ok job Hj) as Hn. destruct (nextActive job) as [a y].
  apply setActive_ok; [|done]. apply setTabs_ok; [|apply remaining_ok, Hj].
  by apply (remember_ok job) in Hs as (? & ? & ? & ? & ? & ?).
Qed.

Lemma deleteEditor_ok t s : consoles_ok s → consoles_ok (deleteEditor t s).
Proof. unfold deleteEditor. by case_test. Qed.

Lemma closing_ok l s : consoles_ok s → Forall close_ok l → consoles_ok (withClosing l s).
Proof. by intros (? & ? & ? & ? & ? & _) Hl. Qed.

Lemma closing_kept s : consoles_ok s → Forall close_ok (closing s).
Proof. by intros (_ & _ & _ & _ & _ & H). Qed.

Lemma closeConfirmed_ok job s : consoles_ok s → close_ok job → consoles_ok (closeConfirmed job s).
Proof.
  intros Hs Hj. unfold closeConfirmed.
  assert (consoles_ok (if bool_decide (is_Some (dget (tabKey (closeId job)) (closeEditors job))) then deleteEditor (closeId job) s else s))
    as H by (case_test; [by apply deleteEditor_ok|done]).
  revert H. match goal with |- consoles_ok ?x → _ => generalize x end. clear s Hs. intros s H.
  repeat case_match; try by apply finishClose_ok.
  apply closing_ok; [done|]. apply Forall_app_2; [by apply closing_kept in H|by constructor].
Qed.

Lemma consoleStep_ok s i : consoles_ok s → input_ok s i → consoles_ok (consoleStep s i).
Proof.
  intros Hs Hi. destruct i as [a|l|tab activate|params support|k answer|t editor text|t|editor text|info|t console name nc
    |console|k current|y| |k answer]; cbn.
  - by apply setActive_ok.
  - by apply setTabs_ok.
  - by apply add_ok.
  - destruct Hs as (H1 & ? & ? & ? & H5 & ?). split_and!; try done. apply Forall_app_2; [done|]. constructor; [|done].
    split; [done|]. intros n. apply created_auto_named.
  - by apply consoleCreated_ok.
  - done.
  - by apply deleteEditor_ok.
  - done.
  - by apply bound_ok.
  - by apply saved_ok.
  - done.
  - unfold consoleRemoved. destruct (removing s !! k) as [[console plan]|]; [|done].
    destruct current as [[]|]; [|done..]. destruct plan; [|done]. by apply bound_ok.
  - done.
  - unfold deleteActiveWorkspaceTab. destruct (activeConsoleId s) as [| |t]; [done..|].
    destruct (workspaceTabList s) as [l|] eqn:El; [|done]. case_test; [done|].
    assert (close_ok (mkClose t l (workspaceTabSplitLayout s) (editorList s) AsksTheUser)) as Hj.
    { cbn in Hi. unfold tabsIn in Hi. rewrite El in Hi. split; [|done]. destruct Hs as (H1 & _). unfold tabsIn in H1. by rewrite El in H1. }
    destruct (removedTab _); [|by apply closeConfirmed_ok]. case_test; [done|].
    apply closing_ok; [done|]. apply Forall_app_2; [by apply closing_kept|by constructor].
  - unfold closeAnswered. destruct (closing s !! k) as [job|] eqn:Ek; [|done].
    assert (close_ok job) as Hj by (pose proof (closing_kept s Hs) as Hc; rewrite Forall_lookup in Hc; eauto).
    assert (consoles_ok (withClosing (delete k (closing s)) s)) as H by (apply closing_ok; [done|]; by apply Forall_delete, closing_kept).
    case_test; [done|]. destruct (closePhase job); [by apply closeConfirmed_ok|by apply finishClose_ok].
Qed.

Lemma consoleRun_ok inputs : ∀ s, consoles_ok s → inputs_ok s inputs → consoles_ok (fold_left consoleStep inputs s).
Proof.
  induction inputs as [|i inputs IH]; intros s Hs Hi; [done|]. destruct Hi as [Hi Hin]. cbn. apply IH; [by apply consoleStep_ok|done].
Qed.

(** C5: whatever happens while consoles are created, saved, removed and closed, in any order of the answers: no tab is
    listed twice, the active tab is a listed one (or none), a console tab the user has not named bears the name of its
    data source, and at most twenty closed tabs are remembered, none of them pinned and none with a function. *)
Theorem console_tabs_invariant inputs :
  inputs_ok initConsoleState inputs →
  let s := consoleRun inputs in
  NoDup (tabId <$> tabsIn s) ∧
  (activeConsoleId s = Null ∨ ∃ tab, tab ∈ tabsIn s ∧ activeConsoleId s = Val (tabId tab)) ∧
  (∀ tab, tab ∈ tabsIn s → tabType tab = js "console" → field (js "nameCustomized") (dataOf tab) = VBool false →
     tabTitle tab = buildConsoleDefaultTabName (dataOf tab)) ∧
  length (recentlyClosedWorkspaceTabs s) ≤ 20 ∧
  (∀ tab, tab ∈ recentlyClosedWorkspaceTabs s → pinned tab = false ∧ hasFunctionValue (VObject (dataOf tab)) = false).
Proof.
  intros Hi s. assert (consoles_ok s) as ([H1 H2] & H3 & H4 & H5 & _).
  { apply consoleRun_ok; [|done]. split_and!; try constructor; cbn; try done; [apply NoDup_nil_2|lia]. }
  rewrite Forall_forall in H2, H5. split_and!; [done| |by intros tab Ht; apply H2|done|done].
  destruct H3 as [|(t & Ha & (tab & -> & Ht)%list_elem_of_fmap)]; [by left|right; eauto].
Qed.

(** ** Closing the active tab *)

(** The tab that becomes active: the one before it in its pane, else the one
    after it, else the last of the others. *)
Definition neighbour (pre post : list TabId) (others : list ConsoleTab) : nul TabId :=
  match last pre, post with
  | Some t, _ => Val t
  | None, t :: _ => Val t
  | None, [] => lastId others
  end.

Lemma nextActive_spec job y p pre post :
  panes_ok (closeLayout job) (closeTabs job) → closeLayout job = Some y → tabsOf y p = pre ++ closeId job :: post →
  nextActive job =
    (neighbour pre post (remainingTabs job),
     Some (mkLayout (direction y) p (lastNonTerminalActiveTabId y) (dset p (pre ++ post) (paneTabIds y))
             (dset p (neighbour pre post (remainingTabs job)) (activeTabIds y)) (root y))).
Proof.
  intros Hp Hy Hpane. rewrite Hy in Hp. destruct Hp as (Hk & Hne & Hd & _).
  assert (closeId job ∈ tabsOf y p) as Hin by (rewrite Hpane; set_solver).
  assert (p ∈ dkeys (paneTabIds y)) as Hpk.
  { apply dget_is_Some. unfold tabsOf in Hin. destruct (dget p (paneTabIds y)); [by eexists|by apply not_elem_of_nil in Hin]. }
  unfold nextActive, getPaneIdForWorkspaceTab. rewrite Hy. cbn.
  rewrite (findActivePane_unique _ p) by (done || by intros ->). rewrite Hpane.
  assert (NoDup (pre ++ closeId job :: post)) as Hnd by (rewrite <- Hpane; by apply NoDup_tabsAt).
  apply NoDup_app in Hnd as (_ & Hpre & [Hpost _]%NoDup_cons).
  assert (closeId job ∉ pre) as Hpre' by (intros H; apply (Hpre _ H); set_solver).
  rewrite findTabIndex_app by done.
  rewrite filter_app, filter_cons_False by naive_solver. rewrite !filter_neq_absent by done.
  assert (match (pre ++ post) !! (length pre - 1) with
          | Some t => Val t
          | None => match (pre ++ post) !! length pre with Some t => Val t | None => lastId (remainingTabs job) end
          end = neighbour pre post (remainingTabs job)) as ->; [|done].
  unfold neighbour. destruct pre as [|x pre _] using rev_ind.
  - cbn. destruct post; done.
  - rewrite last_snoc, length_app, <- (assoc_L (++)), lookup_app_r by (cbn; lia). by replace (length pre + _ - 1 - _) with 0 by (cbn; lia).
Qed.

Lemma removedTab_unique job tab :
  NoDup (idsOf (closeTabs job)) → tab ∈ closeTabs job → tabId tab = closeId job → removedTab job = Some tab.
Proof.
  intros Hd Hin Hid. apply list_elem_of_split in Hin as (pre & post & Hl). unfold removedTab. rewrite Hl.
  apply js_find_first; [|by apply bool_decide_eq_true_2].
  intros x Hx. apply bool_decide_eq_false_2. intros Hxid. rewrite Hl in Hd. unfold idsOf in Hd.
  rewrite fmap_app in Hd. apply NoDup_app in Hd as (_ & Hd & _). apply (Hd (closeId job)).
  - rewrite <- Hxid. by apply list_elem_of_fmap_2.
  - csimpl. rewrite Hid. by left.
Qed.

(** Whether the closing of a tab waits for the service. *)
Definition updatesConsole (tab : ConsoleTab) : bool :=
  isSavedConsoleLikeWorkspaceTab tab && bool_decide (is_Some (savedConsoleId tab)).

Lemma closeConfirmed_spec job s tab :
  removedTab job = Some tab →
  ∃ s', workspaceTabList s' = workspaceTabList s ∧ activeConsoleId s' = activeConsoleId s ∧
    workspaceTabSplitLayout s' = workspaceTabSplitLayout s ∧ recentlyClosedWorkspaceTabs s' = recentlyClosedWorkspaceTabs s ∧
    editorTexts s' = editorTexts s ∧ closing s' = closing s ∧
    closeConfirmed job s =
      if updatesConsole tab
      then withClosing (closing s ++ [mkClose (closeId job) (closeTabs job) (closeLayout job) (closeEditors job) UpdatesConsole]) s'
      else finishClose job s'.
Proof.
  intros Hr. unfold closeConfirmed, updatesConsole. rewrite Hr.
  set (s1 := if bool_decide _ then _ else _).
  assert (∃ l, s1 = withEditors l (editorTexts s) s ∨ s1 = s) as (l & Hs1).
  { unfold s1, deleteEditor. repeat case_test; [by eexists; left|exists []; by right..]. }
  destruct (isSavedConsoleLikeWorkspaceTab tab), (savedConsoleId tab) as [n|].
  1: exists (withEffects (effects s1 ++ [ClosedConsole n]) s1).
  2-4: exists s1.
  all: by destruct Hs1 as [->| ->].
Qed.

Lemma finishClose_spec job s :
  let s' := finishClose job s in
  workspaceTabList s' = Some (remainingTabs job) ∧ activeConsoleId s' = (nextActive job).1 ∧
  workspaceTabSplitLayout s' = (nextActive job).2 ∧ closing s' = closing s ∧
  recentlyClosedWorkspaceTabs s' = recentlyClosedWorkspaceTabs (rememberClosed job s).
Proof.
  unfold finishClose, rememberClosed. destruct (nextActive job). destruct (removedTab job); [|done]. by case_test.
Qed.

(** The answers a closing gets when the user agrees and the service accepts. *)
Definition closeFully (tab : ConsoleTab) (s : ConsoleState) : ConsoleState :=
  let confirmed := closeAnswered 0 true (deleteActiveWorkspaceTab s) in
  if updatesConsole tab then closeAnswered 0 true confirmed else confirmed.

Section closing.
Context (s : ConsoleState) (tab : ConsoleTab) (l : list ConsoleTab).
Hypotheses (Hok : consoles_ok s) (Hclosing : closing s = []) (Hactive : activeConsoleId s = Val (tabId tab))
  (Htruthy : truthyId (tabId tab) = true) (Htabs : workspaceTabList s = Some l) (Htab : tab ∈ l) (Hpinned : pinned tab = false).

Let job := mkClose (tabId tab) l (workspaceTabSplitLayout s) (editorList s) AsksTheUser.

Lemma removed_job : removedTab job = Some tab.
Proof.
  apply removedTab_unique; [|done..]. destruct Hok as ([H _] & _). unfold tabsIn in H. by rewrite Htabs in H.
Qed.

Lemma asked_eq : deleteActiveWorkspaceTab s = withClosing [job] s.
Proof.
  unfold deleteActiveWorkspaceTab. rewrite Hactive, Htabs, Htruthy. cbn [negb]. fold job.
  by rewrite removed_job, Hpinned, Hclosing.
Qed.

Lemma refused_eq : closeAnswered 0 false (deleteActiveWorkspaceTab s) = s.
Proof. rewrite asked_eq. unfold closeAnswered; cbn. destruct s; cbn in *. by rewrite Hclosing. Qed.

Lemma confirmed_eq :
  ∃ s', workspaceTabList s' = Some l ∧ activeConsoleId s' = Val (tabId tab) ∧
    workspaceTabSplitLayout s' = workspaceTabSplitLayout s ∧ recentlyClosedWorkspaceTabs s' = recentlyClosedWorkspaceTabs s ∧
    editorTexts s' = editorTexts s ∧ closing s' = [] ∧
    closeAnswered 0 true (deleteActiveWorkspaceTab s) =
      if updatesConsole tab then withClosing [mkClose (tabId tab) l (workspaceTabSplitLayout s) (editorList s) UpdatesConsole] s'
      else finishClose job s'.
Proof.
  rewrite asked_eq. unfold closeAnswered; cbn [closing withClosing lookup list_lookup delete list_delete].
  destruct (closeConfirmed_spec job (withClosing [] (withClosing [job] s)) tab removed_job)
    as (s' & H1 & H2 & H3 & H4 & H5 & H6 & H7).
  exists s'. split_and!; [by rewrite H1|by rewrite H2|done..].
Qed.

Lemma closed_eq :
  ∃ job' s', closeId job' = tabId tab ∧ closeTabs job' = l ∧ closeLayout job' = workspaceTabSplitLayout s ∧
    closeEditors job' = editorList s ∧ recentlyClosedWorkspaceTabs s' = recentlyClosedWorkspaceTabs s ∧
    editorTexts s' = editorTexts s ∧ closing s' = [] ∧ closeFully tab s = finishClose job' s'.
Proof.
  destruct confirmed_eq as (s' & H1 & H2 & H3 & H4 & H5 & H6 & H7). unfold closeFully. rewrite H7.
  destruct (updatesConsole tab); [|by exists job, s'].
  eexists (mkClose (tabId tab) l (workspaceTabSplitLayout s) (editorList s) UpdatesConsole), _.
  split_and!; [done..|idtac|idtac|idtac|reflexivity]; done.
Qed.
End closing.

(** C11: closing the active tab.  While the user or the service says no, the tabs, the active tab and the layout stay as
    they were.  Otherwise exactly that tab is gone from the list and from its pane; the tab before it in the pane becomes
    active, else the one after it, else the last tab that is left; and unless it holds functions it is the first of
    the remembered tabs, unpinned, with the text that its editor has now. *)
Theorem close_active_tab s tab l :
  consoles_ok s → closing s = [] → activeConsoleId s = Val (tabId tab) → truthyId (tabId tab) = true →
  workspaceTabList s = Some l → tab ∈ l → pinned tab = false → panes_ok (workspaceTabSplitLayout s) l →
  closeAnswered 0 false (deleteActiveWorkspaceTab s) = s ∧
  (updatesConsole tab = true →
     let failed := closeAnswered 0 false (closeAnswered 0 true (deleteActiveWorkspaceTab s)) in
     workspaceTabList failed = Some l ∧ activeConsoleId failed = Val (tabId tab) ∧
     workspaceTabSplitLayout failed = workspaceTabSplitLayout s ∧
     recentlyClosedWorkspaceTabs failed = recentlyClosedWorkspaceTabs s) ∧
  let closed := closeFully tab s in
  let others := filter (λ x, tabId x ≠ tabId tab) l in
  workspaceTabList closed = Some others ∧ closing closed = [] ∧
  (∀ y p pre post, workspaceTabSplitLayout s = Some y → tabsOf y p = pre ++ tabId tab :: post →
     activeConsoleId closed = neighbour pre post others ∧
     ∃ y', workspaceTabSplitLayout closed = Some y' ∧ activePane y' = p ∧ root y' = root y ∧
       activeOf y' p = neighbour pre post others ∧ tabsOf y' p = pre ++ post ∧
       ∀ q, q ≠ p → tabsOf y' q = tabsOf y q ∧ activeOf y' q = activeOf y q) ∧
  ((∀ y p, workspaceTabSplitLayout s = Some y → tabId tab ∉ tabsOf y p) →
     activeConsoleId closed = lastId others ∧ workspaceTabSplitLayout closed = workspaceTabSplitLayout s) ∧
  (hasFunctionValue (VObject (dataOf tab)) = false →
     ∃ entry, recentlyClosedWorkspaceTabs closed = take 20 (entry :: recentlyClosedWorkspaceTabs s) ∧
       tabId entry = tabId tab ∧ tabType entry = tabType tab ∧ tabTitle entry = tabTitle tab ∧ pinned entry = false ∧
       ∀ e text, dget (tabKey (tabId tab)) (editorList s) = Some e → editorTexts s !! e = Some text →
         is_Some (uniqueData tab) → field (js "ddl") (dataOf entry) = VString text).
Proof.
  intros Hok Hc Ha Ht Hl Hin Hp Hpanes. split; [by eapply refused_eq|]. split.
  { intros Hu failed. destruct (confirmed_eq s tab l Hok Hc Ha Ht Hl Hin Hp) as (s' & H1 & H2 & H3 & H4 & _ & _ & H7).
    unfold failed. by rewrite H7, Hu. }
  destruct (closed_eq s tab l Hok Hc Ha Ht Hl Hin Hp) as (job & s' & Hid & Hjl & Hjy & Hje & H4 & H5 & H6 & Hend).
  intros closed others. unfold closed. rewrite Hend.
  destruct (finishClose_spec job s') as (F1 & F2 & F3 & F4 & F5).
  assert (remainingTabs job = others) as Hrem by (unfold remainingTabs, others; by rewrite Hid, Hjl).
  assert (removedTab job = Some tab) as Hr.
  { apply removedTab_unique; rewrite ?Hjl; [|done..]. destruct Hok as ([Hd _] & _). unfold tabsIn in Hd. by rewrite Hl in Hd. }
  split_and!; [by rewrite F1, Hrem|by rewrite F4| | |].
  - intros y p pre post Hy Hpane. rewrite <- Hid in Hpane.
    pose proof (nextActive_spec job y p pre post) as N. rewrite Hjy, Hjl, Hrem in N. specialize (N Hpanes Hy Hpane).
    rewrite F2, F3, N. split; [done|]. eexists. split; [done|]. cbn. split_and!; [done..| | |].
    + unfold activeOf; cbn. by rewrite dget_dset_eq.
    + unfold tabsOf; cbn. by rewrite dget_dset_eq.
    + intros q Hq. unfold activeOf, tabsOf; cbn. by rewrite !dget_dset_ne.
  - intros Hno. assert (nextActive job = (lastId others, workspaceTabSplitLayout s)) as N; [|by rewrite F2, F3, N].
    unfold nextActive, getPaneIdForWorkspaceTab. rewrite Hjy, Hid, Hrem.
    destruct (workspaceTabSplitLayout s) as [y|]; [|done]. cbn.
    destruct (findActivePane (paneTabIds y) (tabId tab)) as [p|] eqn:E; [|done]. exfalso. apply (Hno y p); [done|].
    unfold findActivePane in E. destruct (js_find _ _) as [[|c q]|] eqn:Ef; simplify_eq.
    apply js_find_Some in Ef as [_ Ef]. by apply includes_true in Ef.
  - intros Hf. exists (closedTab job tab s'). rewrite F5. unfold rememberClosed. rewrite Hr, Hf. cbn [recentlyClosedWorkspaceTabs withRecentlyClosed].
    rewrite H4. split_and!; [done..|]. intros e text He Htext [d Hd].
    unfold closedTab, dataOf; cbn. rewrite Hje, He. cbn. rewrite H5, Htext, Hd. cbn.
    by rewrite dget_dset_eq.
Qed.

(** ** Naming tabs *)

(** An update of the data source of tabs changes exactly the tabs it names: it sets the given fields and keeps the
    others, a name the user gave stays, and a console tab with a default name gets that of its new data source. *)
Theorem bound_info_applied info s l :
  workspaceTabList s = Some l → NoDup (dkeys info) →
  ∃ l', workspaceTabList (updateWorkspaceTabBoundInfo info s) = Some l' ∧ length l' = length l ∧
    ∀ i tab tab', l !! i = Some tab → l' !! i = Some tab' →
      (isBound info tab = false → tab' = tab) ∧
      (isBound info tab = true →
         tabId tab' = tabId tab ∧ tabType tab' = tabType tab ∧ pinned tab' = pinned tab ∧
         (∀ k, k ≠ js "nameCustomized" →
            dget k (dataOf tab') = match dget k info with Some v => Some v | None => dget k (dataOf tab) end) ∧
         (tabType tab ≠ consoleType → tabTitle tab' = tabTitle tab) ∧
         (tabType tab = consoleType → dget (js "nameCustomized") info = None →
            ∃ b, field (js "nameCustomized") (dataOf tab') = VBool b ∧
              (b = true ↔ isConsoleTabNameCustomized (tabTitle tab) (dataOf tab) = true) ∧
              tabTitle tab' = if b then tabTitle tab else buildConsoleDefaultTabName (dataOf tab'))).
Proof.
  intros Hl Hinfo. unfold updateWorkspaceTabBoundInfo. rewrite Hl. eexists. split; [reflexivity|]. split; [by rewrite length_map|].
  intros i tab tab' Hi Hi'. rewrite list_lookup_fmap, Hi in Hi'. cbn in Hi'. injection Hi' as <-.
  split; intros Hb; rewrite Hb; [done|].
  unfold applyWorkspaceTabBoundInfo. case_bool_decide as Hty; (split_and!; [done..| | |]); cbn [tabTitle]; try done;
    unfold dataOf; cbn [uniqueData default from_option id].
  - intros k Hk. rewrite dget_dset_ne by done. by rewrite dget_dmerge.
  - intros _ Hn. eexists. fields. split; [reflexivity|]. split; [|by case_match].
    unfold isConsoleTabNameCustomized at 1. fields. replace (field (js "nameCustomized") info) with VUndefined by (unfold field; by rewrite Hn).
    cbn. unfold isConsoleTabNameCustomized. by destruct (field _ _).
  - intros k Hk. by rewrite dget_dmerge.
Qed.

(** ** What is lost *)

(** A tab that is opened while a console is being created is lost when the
    service answers: the list of tabs is the one from before. *)
Lemma creation_drops_tabs params support tab n :
  tabsIn (consoleRun [CreateInput params support; AddInput tab true; CreatedInput 0 (Some n)])
  = [createdTab (mkCreate None (consoleOf params support)) n].
Proof. done. Qed.

(** The same while the user is asked, or the service told, that a tab is closed. *)
Lemma closing_drops_tabs s tab l tab' :
  consoles_ok s → closing s = [] → activeConsoleId s = Val (tabId tab) → truthyId (tabId tab) = true →
  workspaceTabList s = Some l → tab ∈ l → pinned tab = false → updatesConsole tab = false →
  workspaceTabList (closeAnswered 0 true (addWorkspaceTab tab' false (deleteActiveWorkspaceTab s)))
  = Some (filter (λ x, tabId x ≠ tabId tab) l).
Proof.
  intros Hok Hc Ha Ht Hl Hin Hp Hu.
  pose proof (removed_job s tab l Hok Hl Hin) as Hr. rewrite (asked_eq s tab l) by done. clear Hok.
  set (job := mkClose _ _ _ _ _) in *. unfold addWorkspaceTab. set (s0 := withClosing [job] s).
  assert (∀ s1, closing s1 = [job] → workspaceTabList (closeAnswered 0 true s1) = Some (filter (λ x, tabId x ≠ tabId tab) l)) as H.
  { intros s1 H1. unfold closeAnswered. rewrite H1. cbn [lookup list_lookup negb closePhase job].
    destruct (closeConfirmed_spec job (withClosing (delete 0 [job]) s1) tab Hr) as (s' & _ & _ & _ & _ & _ & _ & ->).
    rewrite Hu. by destruct (finishClose_spec job s') as (-> & _). }
  apply H. by case_test.
Qed.

(** ** Witnesses *)

Definition demoTab (n : Z) : ConsoleTab :=
  mkConsoleTab (IdNum n) (js "localSQLFile") (js "file") (Some [(js "nameCustomized", VBool true)]) false.
Definition demoPanes : IWorkspaceTabSplitLayout :=
  mkLayout horizontal (js "main") Undefined [(js "main", [IdNum 1; IdNum 2])] [(js "main", Val (IdNum 2))] None.
Definition demoInputs : list ConsoleInput :=
  [AddInput (demoTab 1) true; AddInput (demoTab 2) true; LayoutInput (Some demoPanes); EditorInput (IdNum 2) 7 (js "select 1")].

Lemma demo_inputs_ok : inputs_ok initConsoleState demoInputs.
Proof. by repeat split. Qed.

Lemma demo_ok : consoles_ok (consoleRun demoInputs).
Proof.
  apply consoleRun_ok; [|apply demo_inputs_ok].
  split_and!; try constructor; cbn; try done; [apply NoDup_nil_2|lia].
Qed.

(** A console is created, a file is opened next to it, and the file is closed. *)
Definition workInputs : list ConsoleInput :=
  [CreateInput [(js "databaseName", VString (js "shop")); (js "dataSourceName", VString (js "local")); (js "operationType", VString (js "console"))]
     (VBool true, VBool true);
   CreatedInput 0 (Some 11%Z); AddInput (demoTab 1) true; EditorInput (IdNum 1) 7 (js "select 1"); CloseInput; CloseAnswerInput 0 true;
   CloseAnswerInput 0 true].

Lemma work_inputs_ok : inputs_ok initConsoleState workInputs.
Proof. split; [done|]. split; [intros job [= <-]; apply not_elem_of_nil|]. by repeat split. Qed.

Lemma console_tabs_invariant_witness :
  let s := consoleRun workInputs in
  (tabId <$> tabsIn s = [IdNum 11] ∧ (tabTitle <$> tabsIn s) = [js "shop[local]"] ∧ (tabId <$> recentlyClosedWorkspaceTabs s) = [IdNum 1]) ∧
  (activeConsoleId s = Null ∨ ∃ tab, tab ∈ tabsIn s ∧ activeConsoleId s = Val (tabId tab)) ∧
  (∀ tab, tab ∈ tabsIn s → tabType tab = js "console" → field (js "nameCustomized") (dataOf tab) = VBool false →
     tabTitle tab = buildConsoleDefaultTabName (dataOf tab)) ∧
  (∀ tab, tab ∈ recentlyClosedWorkspaceTabs s → pinned tab = false ∧ hasFunctionValue (VObject (dataOf tab)) = false).
Proof.
  intros s. destruct (console_tabs_invariant workInputs work_inputs_ok) as (_ & Ha & Hn & _ & Hc).
  split; [split_and!; vm_compute; reflexivity|]. exact (conj Ha (conj Hn Hc)).
Defined.

Lemma demo_panes_ok : panes_ok (Some demoPanes) [demoTab 1; demoTab 2].
Proof. split_and!; [by apply (bool_decide_unpack _)|by apply (bool_decide_unpack _)|by apply (bool_decide_unpack _)|done]. Qed.

Lemma close_active_tab_witness :
  workspaceTabList (closeFully (demoTab 2) (consoleRun demoInputs)) = Some [demoTab 1].
Proof.
  exact (proj1 (proj2 (proj2 (close_active_tab (consoleRun demoInputs) (demoTab 2) [demoTab 1; demoTab 2] demo_ok
    eq_refl eq_refl eq_refl eq_refl ltac:(set_solver) eq_refl demo_panes_ok)))).
Defined.

Lemma bound_info_applied_witness :
  let info := [(js "workspaceTabId", VNumber 2); (js "databaseName", VString (js "shop"))] in
  ∃ l', workspaceTabList (updateWorkspaceTabBoundInfo info (consoleRun demoInputs)) = Some l' ∧ length l' = 2.
Proof.
  intros info. destruct (bound_info_applied info (consoleRun demoInputs) [demoTab 1; demoTab 2] eq_refl) as (l' & H1 & H2 & _).
  - by apply (bool_decide_unpack _).
  - eauto.
Defined.
