(* ===== verification/SqlInputPunctuation.v ===== *)
(** * SqlInputPunctuation: punctuation typed in another script

    Models [components/SQLEditor/helper/sqlInputPunctuation.ts]: the ASCII
    punctuation an editor inserts for a full-width one, and where in a SQL text it
    does so.  The scan is a second one beside [sqlCodeMask] of [SqlText]. *)

From S2P Require Import Prelude SqlText SqlTextMask.
Local Open Scope nat_scope.

(** ** Keys *)

(** Tables from texts to characters. *)
Definition normalPunctuationByCode : dict N :=
  [(js "Backquote", 96); (js "Minus", 45); (js "Equal", 61); (js "BracketLeft", 91); (js "BracketRight", 93);
   (js "Backslash", 92); (js "IntlBackslash", 92); (js "Semicolon", 59); (js "Quote", 39); (js "Comma", 44);
   (js "Period", 46); (js "Slash", 47); (js "NumpadAdd", 43); (js "NumpadSubtract", 45); (js "NumpadMultiply", 42);
   (js "NumpadDivide", 47); (js "NumpadDecimal", 46); (js "NumpadComma", 44); (js "NumpadEqual", 61)]%N.

Definition shiftPunctuationByCode : dict N :=
  [(js "Backquote", 126); (js "Digit1", 33); (js "Digit2", 64); (js "Digit3", 35); (js "Digit4", 36); (js "Digit5", 37);
   (js "Digit6", 94); (js "Digit7", 38); (js "Digit8", 42); (js "Digit9", 40); (js "Digit0", 41); (js "Minus", 95);
   (js "Equal", 43); (js "BracketLeft", 123); (js "BracketRight", 125); (js "Backslash", 124); (js "IntlBackslash", 124);
   (js "Semicolon", 58); (js "Quote", 34); (js "Comma", 60); (js "Period", 62); (js "Slash", 63)]%N.

Definition normalizedSqlPunctuation : list (N * N) :=
  [(12290, 46); (65294, 46); (65377, 46); (65292, 44); (65380, 44); (65307, 59); (65306, 58); (65288, 40); (65289, 41);
   (65339, 91); (65341, 93); (12304, 91); (12305, 93); (65371, 123); (65373, 125); (12289, 47); (65295, 47); (65340, 92);
   (65344, 96); (65374, 126); (65281, 33); (65311, 63); (65312, 64); (65283, 35); (65284, 36); (65285, 37); (65342, 94);
   (65286, 38); (65290, 42); (65293, 45); (65343, 95); (65309, 61); (65291, 43); (65308, 60); (65310, 62); (65372, 124);
   (65282, 34); (8220, 34); (8221, 34); (65287, 39); (8216, 39); (8217, 39)]%N.

Definition lookupChar (c : N) : option N := snd <$> js_find (λ e, (e.1 =? c)%N) normalizedSqlPunctuation.

Definition normalizeSqlInputPunctuation (text : option jstr) : option jstr :=
  match text with
  | Some [c] => match lookupChar c with Some n => if (n =? c)%N then None else Some [n] | None => None end
  | _ => None
  end.

Record KeyboardLikeEvent := mkKey {
  altKey : bool;
  code : jstr;
  ctrlKey : bool;
  isComposing : bool;
  key : jstr;
  metaKey : bool;
  shiftKey : bool;
}.

Definition sqlPunctuationFromKeyboardEvent (event : option KeyboardLikeEvent) : option jstr :=
  match event with
  | None => None
  | Some e =>
      if metaKey e || ctrlKey e || altKey e || isComposing e then None
      else
        match normalizeSqlInputPunctuation (Some (key e)) with
        | Some normalizedKey => Some normalizedKey
        | None =>
            if includes (key e) [js "Process"; js "Unidentified"; js "Dead"]
            then (λ c, [c]) <$> dget (code e) (if shiftKey e then shiftPunctuationByCode else normalPunctuationByCode)
            else None
        end
  end.

(** ** Places *)

Inductive SqlPunctuationContext :=
  | sql | singleQuoteString | doubleQuoteString | backtickIdentifier | bracketIdentifier | lineComment | blockComment.

#[export] Instance context_eq_dec : EqDecision SqlPunctuationContext.
Proof. solve_decision. Defined.

Definition CR : N := 13%N.

(** A quoted text: a doubled quote is part of it, another quote that is not
    [escaped] ends it. *)
Definition quotedStep (context : SqlPunctuationContext) (quote : N) (escaped : bool) (char : N) (nextChar : option N)
    : SqlPunctuationContext * nat :=
  if (char =? quote)%N then
    if bool_decide (nextChar = Some quote) then (context, 1) else if escaped then (context, 0) else (sql, 0)
  else (context, 0).

(** The loop body: the next context, and how many characters are skipped. *)
Definition contextStep (context : SqlPunctuationContext) (escaped : bool) (char : N) (nextChar : option N)
    : SqlPunctuationContext * nat :=
  match context with
  | sql =>
      if (char =? QUOTE)%N then (singleQuoteString, 0)
      else if (char =? DQUOTE)%N then (doubleQuoteString, 0)
      else if (char =? BACKTICK)%N then (backtickIdentifier, 0)
      else if (char =? LBRACKET)%N then (bracketIdentifier, 0)
      else if (char =? DASH)%N && bool_decide (nextChar = Some DASH) then (lineComment, 1)
      else if (char =? SLASH)%N && bool_decide (nextChar = Some STAR) then (blockComment, 1)
      else (sql, 0)
  | singleQuoteString => quotedStep context QUOTE escaped char nextChar
  | doubleQuoteString => quotedStep context DQUOTE escaped char nextChar
  | backtickIdentifier => quotedStep context BACKTICK false char nextChar
  | bracketIdentifier => quotedStep context RBRACKET false char nextChar
  | lineComment => if (char =? LF)%N || (char =? CR)%N then (sql, 0) else (lineComment, 0)
  | blockComment => if (char =? STAR)%N && bool_decide (nextChar = Some SLASH) then (sql, 1) else (blockComment, 0)
  end.

(** [isBackslashEscaped] counts the backslashes before a character; here their
    parity is kept. *)
Definition nextEscaped (escaped : bool) (char : N) : bool := (char =? BACKSLASH)%N && negb escaped.

(** The scan of the first [n] characters. *)
Fixpoint contextFrom (context : SqlPunctuationContext) (skip : nat) (escaped : bool) (n : nat) (text : jstr)
    : SqlPunctuationContext :=
  match n, text with
  | S n, char :: rest =>
      match skip with
      | S skip => contextFrom context skip (nextEscaped escaped char) n rest
      | O =>
          let '(context', skip') := contextStep context escaped char (head rest) in
          contextFrom context' skip' (nextEscaped escaped char) n rest
      end
  | _, _ => context
  end.

(** [safeOffset]: an offset past either end is cut. *)
Definition sqlPunctuationContextAtOffset (text : jstr) (offset : Z) : SqlPunctuationContext :=
  contextFrom sql 0 false (Z.to_nat (Z.max 0 (Z.min offset (Z.of_nat (length text))))) text.

Definition shouldNormalizeSqlInputPunctuation (text : option jstr) (offset : Z) : bool :=
  bool_decide (sqlPunctuationContextAtOffset (default [] text) offset = sql).

(** ** Keys and characters *)

(** The printable ASCII characters that are no letters, digits or spaces. *)
Definition is_punctuation (c : N) : bool :=
  (((33 <=? c) && (c <=? 47)) || ((58 <=? c) && (c <=? 64)) || ((91 <=? c) && (c <=? 96)) || ((123 <=? c) && (c <=? 126)))%N.

Lemma punctuation_range c : is_punctuation c = true → (33 <= c <= 126)%N.
Proof. unfold is_punctuation. rewrite !orb_true_iff, !andb_true_iff, !N.leb_le. lia. Qed.

Lemma dget_Forall {V} (P : V → Prop) (k : jstr) (d : dict V) v : Forall (λ e, P e.2) d → dget k d = Some v → P v.
Proof. intros H Hg. rewrite Forall_forall in H. apply dget_Some_elem in Hg. by apply (H (k, v)). Qed.

Lemma lookupChar_ok c n : lookupChar c = Some n → is_punctuation n = true ∧ (127 < c)%N.
Proof.
  unfold lookupChar. intros ([k v] & [H1 H2]%js_find_Some & ->)%fmap_Some. cbn in *. apply N.eqb_eq in H2 as ->.
  assert (Forall (λ e : N * N, is_punctuation e.2 = true ∧ (127 < e.1)%N) normalizedSqlPunctuation) as H
    by (repeat constructor).
  rewrite Forall_forall in H. by apply (H (c, v)).
Qed.

Lemma lookupChar_ascii c : (c <= 127)%N → lookupChar c = None.
Proof. intros H. destruct (lookupChar c) eqn:E; [|done]. apply lookupChar_ok in E as [_ E]. lia. Qed.

(** What the editor inserts for a key: nothing while a modifier is held or a text is composed; otherwise a single
    ASCII punctuation character, which is not replaced again.  A full-width punctuation character gives the ASCII one it
    stands for, and an ASCII character is left to the editor. *)
Theorem typed_punctuation e :
  (metaKey e || ctrlKey e || altKey e || isComposing e = true → sqlPunctuationFromKeyboardEvent (Some e) = None) ∧
  (∀ text, sqlPunctuationFromKeyboardEvent (Some e) = Some text →
     ∃ c, text = [c] ∧ is_punctuation c = true ∧ normalizeSqlInputPunctuation (Some text) = None) ∧
  (∀ c, is_punctuation c = true → metaKey e || ctrlKey e || altKey e || isComposing e = false →
     (key e = [c + 65248]%N → sqlPunctuationFromKeyboardEvent (Some e) = Some [c]) ∧
     (key e = [c] → sqlPunctuationFromKeyboardEvent (Some e) = None)).
Proof.
  assert (∀ c, is_punctuation c = true → normalizeSqlInputPunctuation (Some [c]) = None) as Hascii.
  { intros c Hc. unfold normalizeSqlInputPunctuation. rewrite lookupChar_ascii; [done|]. apply punctuation_range in Hc. lia. }
  unfold sqlPunctuationFromKeyboardEvent. split; [by intros ->|]. split.
  - intros text. case_test; [done|]. destruct (normalizeSqlInputPunctuation (Some (key e))) as [t|] eqn:En.
    + intros [= <-]. destruct (key e) as [|c [|]]; [done| |done]. unfold normalizeSqlInputPunctuation in En.
      destruct (lookupChar c) as [n|] eqn:El; [|done]. apply lookupChar_ok in El as [Hn _].
      case_test; simplify_eq. eauto.
    + case_test; [|done]. intros (c & Hc & ->)%fmap_Some. exists c.
      assert (is_punctuation c = true) as Hp; [|eauto].
      revert Hc. apply (dget_Forall (λ c, is_punctuation c = true)). case_match; repeat constructor.
  - intros c Hc ->. split; intros ->.
    + assert (lookupChar (c + 65248) = Some c) as Hl.
      { pose proof (punctuation_range c Hc) as Hr.
        assert (Forall (λ k, let c := N.of_nat k in is_punctuation c = true → lookupChar (c + 65248) = Some c) (seq 33 94)) as Hall
          by (repeat (constructor; [vm_compute; done|]); constructor).
        rewrite Forall_forall in Hall. specialize (Hall (N.to_nat c)). rewrite N2Nat.id in Hall. apply Hall; [|done].
        apply elem_of_seq. lia. }
      unfold normalizeSqlInputPunctuation. rewrite Hl. replace (c =? c + 65248)%N with false by (symmetry; apply N.eqb_neq; lia). done.
    + rewrite Hascii by done. case_test; [|done]. autorewrite with js in Etest.
      apply list_elem_of_In in Etest as [E|[E|[E|[]]]]; by apply (f_equal length) in E.
Qed.

(** ** The two scans *)

(** What neither scan treats specially and the other does not. *)
Definition common (c : N) : Prop := c ∉ [BACKSLASH; DOLLAR; HASH; CR].

Definition modeOf (context : SqlPunctuationContext) : Mode :=
  match context with
  | sql => Code
  | singleQuoteString => Quoted QUOTE
  | doubleQuoteString => Quoted DQUOTE
  | backtickIdentifier => Quoted BACKTICK
  | bracketIdentifier => Quoted RBRACKET
  | lineComment => LineComment
  | blockComment => BlockComment
  end.

Lemma maskStep_common context before c rest :
  common c →
  let step := contextStep context false c (head rest) in
  maskStep (modeOf context) before c rest = (bool_decide (context = sql ∧ step = (sql, 0)), modeOf step.1, step.2).
Proof.
  unfold common. intros Hc.
  assert (c =? BACKSLASH = false ∧ c ≠ DOLLAR ∧ c =? HASH = false ∧ c =? CR = false)%N as (H1 & H2 & H3 & H4).
  { rewrite !N.eqb_neq. set_solver. }
  destruct context; cbn [modeOf maskStep contextStep]; unfold quotedStep.
  all: rewrite ?dollarAt_other, ?H1, ?H3, ?H4 by done; cbn [andb orb]; rewrite ?andb_false_r, ?orb_false_r.
  all: repeat case_test; cbn [andb] in *; try reflexivity.
  all: exfalso; to_prop; repeat match goal with H : (_ =? _)%N = true |- _ => apply N.eqb_eq in H end; by subst.
Qed.

Lemma nextEscaped_common c : common c → nextEscaped false c = false.
Proof. unfold common, nextEscaped. intros Hc. by rewrite (proj2 (N.eqb_neq c BACKSLASH)) by set_solver. Qed.

(** A skipped character of code is the end of a block comment. *)
Definition skip_ok (context : SqlPunctuationContext) (skip : nat) (text : jstr) : Prop :=
  skip ≤ 1 ∧ (skip = 1 → context = sql → head text = Some SLASH).

Lemma contextStep_skip context c rest :
  let step := contextStep context false c (head rest) in skip_ok step.1 step.2 rest.
Proof.
  unfold skip_ok. destruct context; cbn [contextStep]; unfold quotedStep; repeat case_test; cbn; (split; [lia|done]) || idtac.
  split; [lia|]. to_prop. by intros.
Qed.

Lemma same_scan n : ∀ context skip before text,
  Forall common text → n ≤ length text → skip_ok context skip text →
  ∃ skip' before', skip_ok (contextFrom context skip false n text) skip' (drop n text) ∧
    drop n (maskFrom (modeOf context) skip before text)
    = maskFrom (modeOf (contextFrom context skip false n text)) skip' before' (drop n text).
Proof.
  induction n as [|n IH]; intros context skip before text Ht Hn Hs; [by exists skip, before|].
  destruct text as [|c rest]; [cbn in Hn; lia|]. apply Forall_cons in Ht as [Hc Ht]. cbn in Hn.
  destruct skip as [|skip]; cbn [contextFrom maskFrom drop]; rewrite nextEscaped_common by done.
  - rewrite maskStep_common by done. pose proof (contextStep_skip context c rest) as Hs'.
    destruct (contextStep context false c (head rest)) as [context' skip']. apply IH; [done|lia|done].
  - apply IH; [done|lia|]. destruct Hs as [Hs _]. split; [lia|lia].
Qed.

(** For texts of both scans, what comes before code does not matter. *)
Lemma maskFrom_before text : ∀ context skip before before',
  Forall common text → maskFrom (modeOf context) skip before text = maskFrom (modeOf context) skip before' text.
Proof.
  induction text as [|c rest IH]; intros context skip before before' Ht; [done|]. apply Forall_cons in Ht as [Hc Ht].
  cbn [maskFrom]. destruct skip; [|done]. rewrite !maskStep_common by done. done.
Qed.

(** The two scans of SQL texts agree.  In a text without backslashes, dollars, hash signs and carriage returns,
    typed punctuation is replaced at every character that [sqlCodeMask] calls code; and where it is replaced, the rest of
    the text is masked as the beginning of a text would be, except between the two characters that end a comment. *)
Theorem punctuation_where_code text n :
  Forall common text → n < length text →
  (sqlCodeMask text !! n = Some true → shouldNormalizeSqlInputPunctuation (Some text) (Z.of_nat n) = true) ∧
  (shouldNormalizeSqlInputPunctuation (Some text) (Z.of_nat n) = true →
     drop n (sqlCodeMask text) = sqlCodeMask (drop n text) ∨
     (text !! n = Some SLASH ∧ drop (S n) (sqlCodeMask text) = sqlCodeMask (drop (S n) text))).
Proof.
  intros Ht Hn. unfold shouldNormalizeSqlInputPunctuation, sqlPunctuationContextAtOffset. cbn [default from_option id].
  replace (Z.to_nat (Z.max 0 (Z.min (Z.of_nat n) (Z.of_nat (length text))))) with n by lia.
  destruct (same_scan n sql 0 None text Ht ltac:(lia) ltac:(split; [lia|done])) as (skip & before & [Hs Hslash] & Hm).
  change (maskFrom (modeOf sql) 0 None text) with (sqlCodeMask text) in Hm. destruct (drop n text) as [|c rest] eqn:Ed.
  { apply (f_equal length) in Ed. rewrite length_drop in Ed. cbn in Ed. lia. }
  assert (Forall common (c :: rest)) as Hr by (rewrite <- Ed; by apply Forall_drop).
  assert (text !! n = Some c) as Hc.
  { pose proof (lookup_drop text n 0) as E. rewrite Ed, Nat.add_0_r in E. done. }
  assert (drop (S n) text = rest) as Er by (rewrite <- Nat.add_1_r, <- drop_drop, Ed; done).
  split.
  - intros Hcode. apply bool_decide_eq_true_2. pose proof (lookup_drop (sqlCodeMask text) n 0) as E.
    rewrite Nat.add_0_r, Hcode, Hm in E. apply Forall_cons in Hr as [Hcc _]. cbn [maskFrom] in E. destruct skip; [|done].
    rewrite maskStep_common in E by done. cbn in E. injection E as E. by apply bool_decide_eq_true_1 in E as [? _].
  - intros Hctx%bool_decide_eq_true_1. rewrite Hctx in Hm, Hslash. destruct skip as [|[|]]; [left|right|lia].
    + rewrite Hm. by apply (maskFrom_before (c :: rest) sql).
    + injection (Hslash eq_refl eq_refl) as ->. split; [done|].
      rewrite <- Nat.add_1_r, <- drop_drop, Hm, Nat.add_1_r, Er. cbn [maskFrom drop].
      apply Forall_cons in Hr as [_ Hr]. by apply (maskFrom_before rest sql).
Qed.

Lemma punctuation_where_code_witness :
  let text := js "select 'a' -- b" in
  Forall common text ∧ 6 < length text ∧ shouldNormalizeSqlInputPunctuation (Some text) 6 = true.
Proof.
  intros text. assert (Forall common text) as H by (apply (bool_decide_unpack _); by vm_compute).
  split; [done|]. split; [vm_compute; lia|]. apply (punctuation_where_code text 6 H); [vm_compute; lia|]. by vm_compute.
Defined.

(** ** Where the scans part *)

(** After an escaped quote that ends a text, the rest is taken for text: the two
    quotes count as a doubled one. *)
Lemma escaped_quote_at_end :
  let text := [QUOTE; BACKSLASH; QUOTE; QUOTE; COMMA] in
  sqlCodeMask text !! 4 = Some true ∧ shouldNormalizeSqlInputPunctuation (Some text) 4 = false.
Proof. done. Qed.

(** Comments after a hash sign and texts between dollars are not known to the
    scan of the punctuation. *)
Lemma other_comments :
  let comment := [HASH; COMMA] in let body := [DOLLAR; DOLLAR; COMMA; DOLLAR; DOLLAR] in
  sqlCodeMask comment !! 1 = Some false ∧ shouldNormalizeSqlInputPunctuation (Some comment) 1 = true ∧
  sqlCodeMask body !! 2 = Some false ∧ shouldNormalizeSqlInputPunctuation (Some body) 2 = true.
Proof. done. Qed.
