(* ===== verification/CompletionSuggestions.v ===== *)
(** * CompletionSuggestions: the suggestions of the engine

    Models [components/SQLEditor/core/sqlCompletionBackendSuggestion.ts] and the
    construction of suggestions in [core/completionProviderManager.ts]
    ([constructBackendSuggestion], [toBackendSuggestions] and what they call): the
    texts of a candidate, the text it replaces and the command that runs after it.
    The icon of a suggestion is left out.  Positions in a text are those of the
    editor. *)

From S2P Require Import Prelude TextRanges SqlText SqlInsertValues.
Import TextRanges.
Local Open Scope Z_scope.

(** ** The text of an editor *)

(** The methods of the editor's text model that are called. *)
Class PositionModel := {
  getPositionAt : jstr → Z → TextPosition;
  getValueInRange : jstr → TextRange → jstr;
}.

Definition rangeBetween (a b : TextPosition) : TextRange :=
  mkTextRange (lineNumber a) (column a) (lineNumber b) (column b).

Definition textBetween (value : jstr) (a b : Z) : jstr := take (Z.to_nat (b - a)) (drop (Z.to_nat a) value).

(** The text between the positions of two offsets is the text between them. *)
Class PositionLaws `{PositionModel} : Prop :=
  value_between value a b : 0 <= a <= b → b <= Z.of_nat (length value) →
    getValueInRange value (rangeBetween (getPositionAt value a) (getPositionAt value b)) = textBetween value a b.

(** ** Candidates *)

Record ISqlCompletionCandidate := mkCandidate {
  label : jstr;
  type : jstr;
  insertText : jstr;
  insertAsSnippet : bool;
  candidateStart : option Z;
  candidateEnd : option Z;
  detail : jstr;
  description : jstr;
  dataType : jstr;
  objectType : jstr;
  tableName : jstr;
  tableAlias : jstr;
  sortText : option jstr;
  snippetSlots : list jstr;
}.

(** Offsets of the text to replace, as the engine or a slot gives them. *)
Record ReplacementOffsets := mkReplacement { replaceStart : option Z; replaceEnd : option Z }.

Definition candidateOffsets (c : ISqlCompletionCandidate) : ReplacementOffsets := mkReplacement (candidateStart c) (candidateEnd c).

Inductive CompletionCommand :=
  | ActivateSnippetSlot (modelUri : jstr) (slots : list jstr)
  | TriggerQualifiedReference (modelUri : jstr).

Record CompletionItem := mkItem {
  itemLabel : jstr;
  itemDetail : jstr;
  itemDescription : jstr;
  itemInsertText : jstr;
  itemFilterText : jstr;
  itemSortText : option jstr;
  itemIsSnippet : bool;
  itemRange : option TextRange;
  itemCommand : option CompletionCommand;
}.

Definition COLUMN_LIKE_TYPES : list jstr := [js "COLUMN"; js "JOIN_CLAUSE"].
Definition QUALIFIED_REFERENCE_TYPES : list jstr := [js "DATABASE"; js "SCHEMA"; js "TABLE"; js "VIEW"; js "ALIAS"].
Definition VARIABLE_TYPE : jstr := js "VARIABLE".

Definition wrapDetail (value : jstr) : jstr := match value with [] => [] | _ => js "(" ++ value ++ js ")" end.

Definition isColumnLikeCandidate (c : ISqlCompletionCandidate) : bool := includes (type c) COLUMN_LIKE_TYPES.
Definition isVariable (c : ISqlCompletionCandidate) : bool := bool_decide (type c = VARIABLE_TYPE).

(** An absent text is empty; so is a missing detail of a label. *)
Definition getBackendCompletionItemDetail (c : ISqlCompletionCandidate) : jstr :=
  if isColumnLikeCandidate c then wrapDetail (or_else (tableAlias c) (tableName c))
  else if isVariable c then [] else detail c.

Definition getBackendCompletionItemDescription (c : ISqlCompletionCandidate) : jstr :=
  if isColumnLikeCandidate c then or_else (dataType c) (or_else (description c) (or_else (detail c) (objectType c)))
  else if isVariable c then dataType c else description c.

Definition getBackendCompletionItemFilterText (c : ISqlCompletionCandidate) : jstr := or_else (label c) (insertText c).

(** [text.substring(1)] of a text that starts with the marker. *)
Definition AT : N := ch "@".
Definition withoutMarker (text : jstr) : jstr := if startsWithChar AT text then tail text else text.

Definition getBackendCompletionItemInsertText (c : ISqlCompletionCandidate) (userVariableMarkerAlreadyTyped : bool) : jstr :=
  let text := or_else (insertText c) (label c) in
  if isVariable c && userVariableMarkerAlreadyTyped then withoutMarker text else text.

Definition getBackendCompletionItemEffectiveFilterText (c : ISqlCompletionCandidate) (inserted : jstr) : jstr :=
  let filterText := getBackendCompletionItemFilterText c in
  if isVariable c && negb (startsWithChar AT inserted) then withoutMarker filterText else filterText.

Definition shouldTriggerQualifiedReferenceCompletion (c : ISqlCompletionCandidate) : bool :=
  endsWithChar (ch ".") (insertText c) && includes (type c) QUALIFIED_REFERENCE_TYPES.

(** The regular expression of a tabstop: a dollar with digits, or with digits and
    perhaps a default after a colon, in braces.  The states are what has been
    read. *)
Inductive TabstopState := AfterDollar | AfterBrace | InNumber | InDefault.

Fixpoint tabstopFrom (state : TabstopState) (text : jstr) : bool :=
  match text with
  | [] => false
  | c :: rest =>
      match state with
      | AfterDollar => is_digit c || ((c =? ch "{")%N && tabstopFrom AfterBrace rest)
      | AfterBrace => is_digit c && tabstopFrom InNumber rest
      | InNumber => (c =? ch "}")%N || (is_digit c && tabstopFrom InNumber rest) || ((c =? ch ":")%N && tabstopFrom InDefault rest)
      | InDefault => (c =? ch "}")%N || tabstopFrom InDefault rest
      end
  end.

Fixpoint hasSnippetTabstop (text : jstr) : bool :=
  match text with
  | [] => false
  | c :: rest => ((c =? DOLLAR)%N && tabstopFrom AfterDollar rest) || hasSnippetTabstop rest
  end.

Definition shouldTriggerSuggestAfterSnippet (c : ISqlCompletionCandidate) : bool :=
  negb (bool_decide (snippetSlots c = [])) || hasSnippetTabstop (insertText c).

Definition getSnippetSlotCommand (c : ISqlCompletionCandidate) (modelUri : jstr) : option CompletionCommand :=
  if bool_decide (type c = js "SNIPPET") && shouldTriggerSuggestAfterSnippet c
  then Some (ActivateSnippetSlot modelUri (snippetSlots c)) else None.

Definition getQualifiedReferenceCompletionCommand (c : ISqlCompletionCandidate) (modelUri : jstr) : option CompletionCommand :=
  if shouldTriggerQualifiedReferenceCompletion c then Some (TriggerQualifiedReference modelUri) else None.

(** ** Suggestions *)

Section suggestions.
Context `{PositionModel}.

(** With [strict], the clamped offsets are the offsets. *)
Definition getCandidateReplacementRange (offsets : ReplacementOffsets) (value : jstr) (strict : bool) : option TextRange :=
  match replaceStart offsets, replaceEnd offsets with
  | Some startOffset, Some endOffset =>
      let modelLength := Z.of_nat (length value) in
      if strict && ((startOffset <? 0) || (endOffset <? startOffset) || (modelLength <? endOffset)) then None
      else
        let safeStartOffset := Z.max 0 (Z.min startOffset modelLength) in
        let safeEndOffset := Z.max safeStartOffset (Z.min endOffset modelLength) in
        let start := getPositionAt value safeStartOffset in
        let stop := getPositionAt value safeEndOffset in
        if lineNumber start =? lineNumber stop then Some (rangeBetween start stop) else None
  | _, _ => None
  end.

Definition hasReplacementOffsets (offsets : option ReplacementOffsets) : bool :=
  match offsets with
  | Some o => bool_decide (is_Some (replaceStart o)) || bool_decide (is_Some (replaceEnd o))
  | None => false
  end.

Definition isUserVariableMarkerAlreadyTyped (c : ISqlCompletionCandidate) (value : jstr) (offsets : ReplacementOffsets) : bool :=
  isVariable c &&
  match replaceStart offsets with
  | Some s => (0 <? s) && bool_decide (getValueInRange value (rangeBetween (getPositionAt value (s - 1)) (getPositionAt value s)) = [AT])
  | None => false
  end.

(** [a ?? b]. *)
Definition coalesce {A} (a b : option A) : option A := match a with Some _ => a | None => b end.

Definition replacementOffsetsOf (c : ISqlCompletionCandidate) (slot : option ReplacementOffsets) (result : ReplacementOffsets)
    : ReplacementOffsets :=
  mkReplacement
    (coalesce (candidateStart c) (coalesce (slot ≫= replaceStart) (replaceStart result)))
    (coalesce (candidateEnd c) (coalesce (slot ≫= replaceEnd) (replaceEnd result))).

(** A suggestion whose offsets cannot be used is none. *)
Definition constructBackendSuggestion (c : ISqlCompletionCandidate) (modelUri value : jstr) (result : ReplacementOffsets)
    (slot : option ReplacementOffsets) : option CompletionItem :=
  let offsets := replacementOffsetsOf c slot result in
  let replacementRange := getCandidateReplacementRange offsets value true in
  let inserted := getBackendCompletionItemInsertText c (isUserVariableMarkerAlreadyTyped c value offsets) in
  let item :=
    mkItem (getBackendCompletionItemFilterText c) (getBackendCompletionItemDetail c) (getBackendCompletionItemDescription c)
      inserted (getBackendCompletionItemEffectiveFilterText c inserted) (sortText c) (insertAsSnippet c) replacementRange
      (coalesce (getQualifiedReferenceCompletionCommand c modelUri) (getSnippetSlotCommand c modelUri)) in
  match replacementRange with
  | Some _ => Some item
  | None =>
      if hasReplacementOffsets (Some (candidateOffsets c)) || hasReplacementOffsets slot || hasReplacementOffsets (Some result)
      then None else Some item
  end.

Definition toBackendSuggestions (candidates : list ISqlCompletionCandidate) (modelUri value : jstr) (result : ReplacementOffsets)
    (slot : option ReplacementOffsets) : list CompletionItem :=
  omap (λ c, constructBackendSuggestion c modelUri value result slot) candidates.
End suggestions.

(** ** What a suggestion replaces *)

Section laws.
Context `{PositionLaws}.

Lemma strict_range offsets value r :
  getCandidateReplacementRange offsets value true = Some r →
  ∃ a b, replaceStart offsets = Some a ∧ replaceEnd offsets = Some b ∧ 0 <= a <= b ∧ b <= Z.of_nat (length value) ∧
    r = rangeBetween (getPositionAt value a) (getPositionAt value b) ∧
    lineNumber (getPositionAt value a) = lineNumber (getPositionAt value b).
Proof.
  unfold getCandidateReplacementRange. destruct (replaceStart offsets) as [a|], (replaceEnd offsets) as [b|]; try done.
  cbn [andb]. case_test; [done|]. apply orb_false_iff in Etest as [[H1 H2]%orb_false_iff H3].
  apply Z.ltb_ge in H1, H2, H3.
  replace (Z.max 0 (Z.min a (Z.of_nat (length value)))) with a by lia.
  replace (Z.max a (Z.min b (Z.of_nat (length value)))) with b by lia.
  case_test; [|done]. intros [= <-]. apply Z.eqb_eq in Etest. exists a, b. split_and!; done || lia.
Qed.

Lemma construct_spec c uri value result slot item :
  constructBackendSuggestion c uri value result slot = Some item →
  let offsets := replacementOffsetsOf c slot result in
  itemRange item = getCandidateReplacementRange offsets value true ∧
  itemInsertText item = getBackendCompletionItemInsertText c (isUserVariableMarkerAlreadyTyped c value offsets) ∧
  (itemRange item = None →
   hasReplacementOffsets (Some (candidateOffsets c)) = false ∧ hasReplacementOffsets slot = false ∧
   hasReplacementOffsets (Some result) = false).
Proof.
  unfold constructBackendSuggestion. cbv zeta. destruct (getCandidateReplacementRange _ _ _) as [r|] eqn:E.
  - intros [= <-]. cbn. split_and!; [done..|discriminate].
  - case_test; [done|]. intros [= <-]. apply orb_false_iff in Etest as [[? ?]%orb_false_iff ?]. by cbn.
Qed.

Lemma no_offsets offsets : hasReplacementOffsets (Some offsets) = false → replaceStart offsets = None ∧ replaceEnd offsets = None.
Proof. destruct offsets as [[a|] [b|]]; done. Qed.

(** What the suggestions of the engine replace.  They come in its order; each either replaces the text between two
    offsets of the candidate, else of the active slot, else of the whole answer - offsets that are in order, in the text
    and on one line - or there are no offsets at all; a candidate with other offsets is not suggested. *)
Theorem suggestions_replace candidates uri value result slot :
  ∃ kept, kept `sublist_of` candidates ∧
    Forall2 (λ c item,
      (∃ a b, 0 <= a <= b ∧ b <= Z.of_nat (length value) ∧
         coalesce (candidateStart c) (coalesce (slot ≫= replaceStart) (replaceStart result)) = Some a ∧
         coalesce (candidateEnd c) (coalesce (slot ≫= replaceEnd) (replaceEnd result)) = Some b ∧
         lineNumber (getPositionAt value a) = lineNumber (getPositionAt value b) ∧
         ∃ r, itemRange item = Some r ∧ getValueInRange value r = textBetween value a b) ∨
      (itemRange item = None ∧ candidateOffsets c = mkReplacement None None ∧ result = mkReplacement None None))
      kept (toBackendSuggestions candidates uri value result slot) ∧
    ∀ c, c ∈ candidates → c ∉ kept →
      getCandidateReplacementRange (replacementOffsetsOf c slot result) value true = None ∧
      (candidateOffsets c ≠ mkReplacement None None ∨ is_Some slot ∨ result ≠ mkReplacement None None).
Proof.
  exists (List.filter (λ c, bool_decide (is_Some (constructBackendSuggestion c uri value result slot))) candidates).
  split_and!.
  - induction candidates as [|c l IH]; cbn; [constructor|]. case_match; by constructor.
  - unfold toBackendSuggestions. induction candidates as [|c l IH]; [constructor|]. cbn [List.filter omap list_omap].
    destruct (constructBackendSuggestion c uri value result slot) as [item|] eqn:E; [|done].
    rewrite bool_decide_eq_true_2 by done. constructor; [|done].
    destruct (construct_spec _ _ _ _ _ _ E) as (H1 & _ & H3). destruct (itemRange item) as [r|] eqn:Er; [left|right].
    + symmetry in H1. apply strict_range in H1 as (a & b & Ha & Hb & Hab & Hlen & -> & Hline).
      exists a, b. split_and!; try done; try lia. eexists. split; [done|]. by apply value_between.
    + destruct (H3 eq_refl) as (Hc & _ & Hr). apply no_offsets in Hc as [? ?], Hr as [? ?].
      destruct result; cbn in *. unfold candidateOffsets in *. cbn in *. by subst; split_and!; [|f_equal|f_equal].
  - intros c Hc Hk. assert (constructBackendSuggestion c uri value result slot = None) as E.
    { destruct (constructBackendSuggestion c uri value result slot) eqn:E; [|done]. exfalso. apply Hk.
      apply list_elem_of_In, filter_In. split; [by apply list_elem_of_In|]. by rewrite E, bool_decide_eq_true_2. }
    unfold constructBackendSuggestion in E. cbv zeta in E. destruct (getCandidateReplacementRange _ _ _); [done|].
    split; [done|]. case_test; [|done]. apply orb_true_iff in Etest as [[He|He]%orb_true_iff|He].
    + left. by intros Hn; rewrite Hn in He.
    + right; left. by destruct slot.
    + right; right. by intros ->.
Qed.
End laws.

(** ** Plain texts *)

(** Texts whose lines end in line feeds have the positions of [SqlText]. *)
#[export] Instance plainPositions : PositionModel := {
  getPositionAt value o := let p := positionAtOffset value o in mkPosition (SqlText.lineNumber p) (SqlText.column p);
  getValueInRange value r :=
    textBetween value (offsetAtPosition value (startLineNumber r) (startColumn r))
      (offsetAtPosition value (endLineNumber r) (endColumn r));
}.

#[export] Instance plainPositions_laws : PositionLaws.
Proof. intros value a b Ha Hb. cbn. by rewrite !position_roundtrip by lia. Qed.

Definition sampleUsers : ISqlCompletionCandidate :=
  mkCandidate (js "users") (js "TABLE") (js "users") false None None [] [] [] [] [] [] None [].
Definition sampleOther : ISqlCompletionCandidate :=
  mkCandidate (js "orders") (js "TABLE") (js "orders") false (Some 9) None [] [] [] [] [] [] None [].

(** The second candidate begins after the end of what is replaced. *)
Lemma suggestions_replace_witness :
  let items := toBackendSuggestions [sampleUsers; sampleOther] (js "m") (js "SELECT u") (mkReplacement (Some 7) (Some 8)) None in
  itemRange <$> items = [Some (mkTextRange 1 8 1 9)] ∧ ∃ kept, kept `sublist_of` [sampleUsers; sampleOther] ∧ length kept = length items.
Proof.
  split; [vm_compute; reflexivity|].
  destruct (suggestions_replace [sampleUsers; sampleOther] (js "m") (js "SELECT u") (mkReplacement (Some 7) (Some 8)) None)
    as (kept & Hs & Hf & _).
  exists kept. split; [exact Hs|]. by eapply Forall2_length.
Defined.
