(* ===== verification/CompletionSession.v ===== *)
(** * CompletionSession: asking the engine for completions

    Models the requests of [components/SQLEditor/core/completionProviderManager.ts]
    for databases whose completions come from the engine: the data source and the
    listener of each editor, the numbers by which a request knows that it is the
    latest, the suggestions prepared before the list is opened, the slot of a
    snippet that is being filled in and the session of moving between slots
    ([sqlCompletionSnippetNavigation.ts], [sqlCompletionContext.ts]).  An editor is
    named by the URI of its text; what the user does to it is an input.  Timers and
    answers come in any order.  The hints of the engine are opaque. *)

From S2P Require Import Prelude JsNumber TextRanges SqlText WorkspaceTabLayout CompletionSuggestions.
Import TextRanges.
Local Open Scope Z_scope.

(** ** Data *)

Section session.
Context {Hint : Type} `{PositionModel}.

(** The fields of [IBoundInfo] that are read. *)
Record DbInfo := mkDbInfo {
  consoleId : option Z;
  workspaceTabId : option TabId;
  dataSourceId : option Z;
  databaseType : option jstr;
  databaseName : option jstr;
  schemaName : option jstr;
}.

(** An editor and its text: its version, the offsets of the cursor and of the ends
    of the selection, and whether it is filling in a snippet. *)
Record Doc := mkDoc {
  value : jstr;
  versionId : Z;
  cursor : Z;
  selection : Z * Z;
  inSnippet : bool;
}.

(** A slot as it is sent to the engine. *)
Record ActiveSlot := mkSlot { slotType : jstr; slotStart : Z; slotEnd : Z }.
Record TrackedSnippetSlot := mkTracked { slot : ActiveSlot; slotUri : jstr; slotVersion : Z }.

Record PreparedTips := mkPrepared {
  preparedUri : jstr;
  preparedVersion : Z;
  preparedCursor : Z;
  suggestions : list CompletionItem;
}.

Record SnippetNavigationSnapshot := mkSnapshot {
  snapshotVersion : Z;
  snapshotCursor : Z;
  selectionStart : Z;
  selectionEnd : Z;
}.

Record SnippetNavigationSession := mkNavigation { navigationUri : jstr; expiresAt : Z; navigationTimer : option nat }.

(** The callbacks of [setTimeout]. *)
Inductive Timer :=
  | SlotTimer (uri : jstr) (slots : list jstr)
  | ReferenceTimer (uri : jstr)
  | PlaceholderTimer (uri : jstr) (before : SnippetNavigationSnapshot).

(** What awaits the answer of the engine. *)
Inductive Purpose := ForHints | ForSuggestions | ForSlot | ForReference | ForPlaceholder.

Record Request := mkRequest {
  requestUri : jstr;
  requestSeq : Z;
  requestSignature : jstr;
  requestSql : jstr;
  requestCursor : Z;
  requestSlot : option ActiveSlot;
  purpose : Purpose;
}.

Record ISqlCompletionResult := mkResult {
  candidates : list ISqlCompletionCandidate;
  editorHints : list Hint;
  offsets : ReplacementOffsets;
}.

(** What the manager tells others: a listener its hints, the caller of
    [refreshEditorHints] and of the provider their answers, and an editor that it
    should open the list. *)
Inductive Output :=
  | Notified (listener : nat) (hints : list Hint)
  | HintsAnswer (hints : option (list Hint))
  | SuggestionsAnswer (uri : jstr) (items : option (list CompletionItem))
  | TriggerSuggest (uri : jstr).

Record Manager := mkManager {
  docs : gmap jstr Doc;
  modelDbInfoMap : gmap jstr DbInfo;
  editorHintsListeners : gmap jstr nat;
  editorHintsRequestSeqMap : gmap jstr Z;
  activeSnippetSlot : option TrackedSnippetSlot;
  preparedTips : option PreparedTips;
  snippetNavigationSession : option SnippetNavigationSession;
  timers : gmap nat Timer;
  requests : gmap nat Request;
  nextId : nat;
  outputs : list Output;
}.

Definition newManager : Manager := mkManager ∅ ∅ ∅ ∅ None None None ∅ ∅ 0 [].

Definition withSlot (x : option TrackedSnippetSlot) (p : option PreparedTips) (s : Manager) : Manager :=
  mkManager (docs s) (modelDbInfoMap s) (editorHintsListeners s) (editorHintsRequestSeqMap s) x p
    (snippetNavigationSession s) (timers s) (requests s) (nextId s) (outputs s).
Definition withNavigation (x : option SnippetNavigationSession) (t : gmap nat Timer) (s : Manager) : Manager :=
  mkManager (docs s) (modelDbInfoMap s) (editorHintsListeners s) (editorHintsRequestSeqMap s) (activeSnippetSlot s)
    (preparedTips s) x t (requests s) (nextId s) (outputs s).
Definition withMaps (d : gmap jstr DbInfo) (l : gmap jstr nat) (q : gmap jstr Z) (s : Manager) : Manager :=
  mkManager (docs s) d l q (activeSnippetSlot s) (preparedTips s) (snippetNavigationSession s) (timers s) (requests s)
    (nextId s) (outputs s).
Definition withRequests (r : gmap nat Request) (n : nat) (s : Manager) : Manager :=
  mkManager (docs s) (modelDbInfoMap s) (editorHintsListeners s) (editorHintsRequestSeqMap s) (activeSnippetSlot s)
    (preparedTips s) (snippetNavigationSession s) (timers s) r n (outputs s).
Definition withDoc (uri : jstr) (d : Doc) (s : Manager) : Manager :=
  mkManager (<[uri := d]> (docs s)) (modelDbInfoMap s) (editorHintsListeners s) (editorHintsRequestSeqMap s)
    (activeSnippetSlot s) (preparedTips s) (snippetNavigationSession s) (timers s) (requests s) (nextId s) (outputs s).
Definition output (o : list Output) (s : Manager) : Manager :=
  mkManager (docs s) (modelDbInfoMap s) (editorHintsListeners s) (editorHintsRequestSeqMap s) (activeSnippetSlot s)
    (preparedTips s) (snippetNavigationSession s) (timers s) (requests s) (nextId s) (outputs s ++ o).
Definition withTimer (t : Timer) (s : Manager) : Manager :=
  mkManager (docs s) (modelDbInfoMap s) (editorHintsListeners s) (editorHintsRequestSeqMap s) (activeSnippetSlot s)
    (preparedTips s) (snippetNavigationSession s) (<[nextId s := t]> (timers s)) (requests s) (S (nextId s)) (outputs s).

(** ** Data sources and numbers of requests *)

Definition getSqlCompletionContextId (info : option DbInfo) : option Z :=
  info ≫= λ d,
    match consoleId d with
    | Some n => Some n
    | None => match workspaceTabId d with Some (IdNum n) => Some n | _ => None end
    end.

Definition getDBInfoSignature (info : option DbInfo) : jstr :=
  match info with
  | None => []
  | Some d =>
      let number n := default [] (znum <$> n) in
      join (js "|") [number (getSqlCompletionContextId info); number (dataSourceId d); default [] (databaseType d);
                     default [] (databaseName d); default [] (schemaName d)]
  end.

Definition getEditorHintsRequestSeq (uri : jstr) (s : Manager) : Z := default 0 (editorHintsRequestSeqMap s !! uri).

Definition bumpEditorHintsRequestSeq (uri : jstr) (s : Manager) : Manager :=
  withMaps (modelDbInfoMap s) (editorHintsListeners s)
    (<[uri := getEditorHintsRequestSeq uri s + 1]> (editorHintsRequestSeqMap s)) s.

Definition bindModelDBInfo (uri : jstr) (info : DbInfo) (s : Manager) : Manager :=
  let s' := if bool_decide (getDBInfoSignature (modelDbInfoMap s !! uri) = getDBInfoSignature (Some info)) then s
            else bumpEditorHintsRequestSeq uri s in
  withMaps (<[uri := info]> (modelDbInfoMap s')) (editorHintsListeners s') (editorHintsRequestSeqMap s') s'.

Definition clearActiveSnippetSlot (s : Manager) : Manager := withSlot None None s.

Definition clearSnippetNavigationSession (s : Manager) : Manager :=
  withNavigation None
    (match snippetNavigationSession s ≫= navigationTimer with Some t => delete t (timers s) | None => timers s end) s.

Definition clearModelDBInfo (uri : jstr) (s : Manager) : Manager :=
  let s := withMaps (delete uri (modelDbInfoMap s)) (delete uri (editorHintsListeners s)) (delete uri (editorHintsRequestSeqMap s)) s in
  let s := if bool_decide (slotUri <$> activeSnippetSlot s = Some uri) then clearActiveSnippetSlot s else s in
  if bool_decide (navigationUri <$> snippetNavigationSession s = Some uri) then clearSnippetNavigationSession s else s.

(** [changeDBInfo]: the providers are registered again. *)
Definition changeDBInfo (s : Manager) : Manager := clearSnippetNavigationSession (clearActiveSnippetSlot s).

Definition setEditorHintsListener (uri : jstr) (listener : option nat) (s : Manager) : Manager :=
  withMaps (modelDbInfoMap s)
    (match listener with Some l => <[uri := l]> (editorHintsListeners s) | None => delete uri (editorHintsListeners s) end)
    (editorHintsRequestSeqMap s) s.

Definition clearEditorHintsListener (uri : jstr) (listener : nat) (s : Manager) : Manager :=
  if bool_decide (editorHintsListeners s !! uri = Some listener) then setEditorHintsListener uri None s else s.

(** ** The slot of a snippet *)

(** [/^[A-Za-z0-9_$]+$/.test(prefix)]. *)
Definition isWord (text : jstr) : bool := negb (bool_decide (text = [])) && forallb is_ident text.

Definition tryExtendActiveSnippetSlot (d : Doc) (t : TrackedSnippetSlot) : option TrackedSnippetSlot :=
  if cursor d <=? slotStart (slot t) then None
  else
    let start := getPositionAt (value d) (slotStart (slot t)) in
    let stop := getPositionAt (value d) (cursor d) in
    if negb (lineNumber start =? lineNumber stop) then None
    else if isWord (getValueInRange (value d) (rangeBetween start stop))
    then Some (mkTracked (mkSlot (slotType (slot t)) (slotStart (slot t)) (cursor d)) (slotUri t) (versionId d))
    else None.

Definition getActiveSnippetSlotForRequest (uri : jstr) (d : Doc) (s : Manager) : Manager * option ActiveSlot :=
  match activeSnippetSlot s with
  | None => (s, None)
  | Some t =>
      if negb (bool_decide (slotUri t = uri)) then (s, None)
      else
        let '(mkSlot _ start stop) := slot t in
        let modelLength := Z.of_nat (length (value d)) in
        let versionChanged := negb (slotVersion t =? versionId d) in
        let extended := match tryExtendActiveSnippetSlot d t with
                        | Some t' => (withSlot (Some t') (preparedTips s) s, Some (slot t'))
                        | None => (clearActiveSnippetSlot s, None)
                        end in
        if (modelLength <? start) || (modelLength <? stop) then (clearActiveSnippetSlot s, None)
        else if (cursor d <? start) || (stop <? cursor d) then
          if versionChanged then extended else (clearActiveSnippetSlot s, None)
        else if versionChanged then
          if cursor d =? start then (clearActiveSnippetSlot s, None) else extended
        else (s, Some (slot t))
  end.

(** ** Moving between slots *)

Definition SNIPPET_NAVIGATION_SESSION_TTL : Z := 30 * 1000.

Definition trackSnippetNavigationSession (uri : jstr) (now : Z) (s : Manager) : Manager :=
  withNavigation
    (Some (mkNavigation uri (now + SNIPPET_NAVIGATION_SESSION_TTL) (snippetNavigationSession s ≫= navigationTimer))) (timers s) s.

Definition hasActiveSnippetNavigationSession (uri : jstr) (now : Z) (s : Manager) : Manager * bool :=
  match snippetNavigationSession s with
  | Some n =>
      if negb (bool_decide (navigationUri n = uri)) then (s, false)
      else if expiresAt n <? now then (clearSnippetNavigationSession s, false)
      else (s, true)
  | None => (s, false)
  end.

Definition getSnippetNavigationSnapshot (d : Doc) : SnippetNavigationSnapshot :=
  mkSnapshot (versionId d) (cursor d) (Z.min (selection d).1 (selection d).2) (Z.max (selection d).1 (selection d).2).

Definition shouldTriggerSnippetPlaceholderCompletion (before after : SnippetNavigationSnapshot) : bool :=
  (snapshotVersion before =? snapshotVersion after)
  && (negb (snapshotCursor before =? snapshotCursor after) || negb (selectionStart before =? selectionStart after)
      || negb (selectionEnd before =? selectionEnd after)).

(** The handler of the tab key in [bindSnippetPlaceholderCompletion]. *)
Definition tabPressed (uri : jstr) (now : Z) (s : Manager) : Manager :=
  match docs s !! uri with
  | None => s
  | Some d =>
      let '(s, active) := hasActiveSnippetNavigationSession uri now s in
      if active && inSnippet d then
        match snippetNavigationSession s with
        | Some n =>
            let s := withNavigation (snippetNavigationSession s)
                       (match navigationTimer n with Some t => delete t (timers s) | None => timers s end) s in
            let timer := nextId s in
            let s := withTimer (PlaceholderTimer uri (getSnippetNavigationSnapshot d)) s in
            withNavigation (Some (mkNavigation (navigationUri n) (expiresAt n) (Some timer))) (timers s) s
        | None => s
        end
      else s
  end.

(** ** Requests *)

(** The end of [prepareCompletionSuggestions]: nothing is prepared. *)
Definition nothingPrepared (s : Manager) : Manager := withSlot (activeSnippetSlot s) None s.

Definition triggerSuggest (uri : jstr) (s : Manager) : Manager := output [TriggerSuggest uri] s.

(** What follows [await this.prepareCompletionSuggestions(...)]. *)
Definition afterPreparing (p : Purpose) (prepared : PreparedTips) (s : Manager) : Manager :=
  match p with
  | ForSlot => triggerSuggest (preparedUri prepared) s
  | _ =>
      match docs s !! preparedUri prepared with
      | Some d =>
          if (versionId d =? preparedVersion prepared) && (cursor d =? preparedCursor prepared)
          then triggerSuggest (preparedUri prepared) s else s
      | None => s
      end
  end.

(** What awaits [fetchBackendCompletion]; [None] is its [null]. *)
Definition completionFetched (r : Request) (result : option ISqlCompletionResult) (s : Manager) : Manager :=
  let d := default (mkDoc [] 0 0 (0, 0) false) (docs s !! requestUri r) in
  let tips := match result with
              | Some x => toBackendSuggestions (candidates x) (requestUri r) (value d) (offsets x)
                            ((λ t, mkReplacement (Some (slotStart t)) (Some (slotEnd t))) <$> requestSlot r)
              | None => []
              end in
  match purpose r with
  | ForHints => output [HintsAnswer (editorHints <$> result)] s
  | ForSuggestions => output [SuggestionsAnswer (requestUri r) (match tips with [] => None | _ => Some tips end)] s
  | p =>
      match tips with
      | [] => nothingPrepared s
      | _ =>
          let prepared := mkPrepared (requestUri r) (versionId d) (requestCursor r) tips in
          afterPreparing p prepared (withSlot (activeSnippetSlot s) (Some prepared) s)
      end
  end.

(** [fetchTipsResult] asks the engine if it knows the data source. *)
Definition canFetch (uri : jstr) (s : Manager) : bool :=
  let info := modelDbInfoMap s !! uri in
  bool_decide (is_Some (getSqlCompletionContextId info)) &&
  match info ≫= dataSourceId with Some n => negb (n =? 0) | None => false end.

Definition fetchBackendCompletion (uri : jstr) (d : Doc) (t : option ActiveSlot) (p : Purpose) (s : Manager) : Manager :=
  let s := bumpEditorHintsRequestSeq uri s in
  let r := mkRequest uri (getEditorHintsRequestSeq uri s) (getDBInfoSignature (modelDbInfoMap s !! uri)) (value d)
             (cursor d) t p in
  if canFetch uri s then withRequests (<[nextId s := r]> (requests s)) (S (nextId s)) s
  else completionFetched r None s.

Definition refreshEditorHints (uri : jstr) (s : Manager) : Manager :=
  match docs s !! uri with Some d => fetchBackendCompletion uri d None ForHints s | None => s end.

(** The hints for the listener of the text. *)
Definition notifyEditorHints (uri : jstr) (hints : list Hint) (s : Manager) : Manager :=
  match editorHintsListeners s !! uri with Some l => output [Notified l hints] s | None => s end.

(** The engine answers a request; [None] is an error.  [refreshEditorHints] awaits
    [fetchTipsResult] itself. *)
Definition engineAnswered (k : nat) (result : option ISqlCompletionResult) (s : Manager) : Manager :=
  match requests s !! k with
  | None => s
  | Some r =>
      let s := withRequests (delete k (requests s)) (nextId s) s in
      match purpose r, result with
      | ForHints, _ | _, None => completionFetched r result s
      | _, Some x =>
          if bool_decide (requestSignature r = getDBInfoSignature (modelDbInfoMap s !! requestUri r)) then
            let s := if requestSeq r =? getEditorHintsRequestSeq (requestUri r) s
                     then notifyEditorHints (requestUri r) (editorHints x) s else s in
            completionFetched r result s
          else completionFetched r None s
      end
  end.

(** A text without a data source has no completions. *)
Definition prepareCompletionSuggestions (uri : jstr) (d : Doc) (t : option ActiveSlot) (p : Purpose) (s : Manager) : Manager :=
  if bool_decide (modelDbInfoMap s !! uri = None) then nothingPrepared s else fetchBackendCompletion uri d t p s.

Definition consumePreparedTips (uri : jstr) (d : Doc) (s : Manager) : Manager * option (list CompletionItem) :=
  match preparedTips s with
  | Some p =>
      if bool_decide (preparedUri p = uri) && (preparedVersion p =? versionId d) && (preparedCursor p =? cursor d)
      then (nothingPrepared s, Some (suggestions p)) else (s, None)
  | None => (s, None)
  end.

(** [provideCompletionItems] of the provider of tips. *)
Definition provideCompletionItems (uri : jstr) (s : Manager) : Manager :=
  match docs s !! uri with
  | None => s
  | Some d =>
      if bool_decide (modelDbInfoMap s !! uri = None) then output [SuggestionsAnswer uri (Some [])] s
      else
        let '(s, t) := getActiveSnippetSlotForRequest uri d s in
        let '(s, prepared) := consumePreparedTips uri d s in
        match prepared with
        | Some items => output [SuggestionsAnswer uri (Some items)] s
        | None => fetchBackendCompletion uri d t ForSuggestions s
        end
  end.

(** ** Commands and timers *)

Definition activateSnippetSlot (payload : option (jstr * list jstr)) (now : Z) (s : Manager) : Manager :=
  match payload with
  | None | Some ([], _) => clearSnippetNavigationSession (clearActiveSnippetSlot s)
  | Some (uri, slots) => withTimer (SlotTimer uri slots) (trackSnippetNavigationSession uri now s)
  end.

Definition triggerQualifiedReferenceCompletion (uri : jstr) (s : Manager) : Manager :=
  match uri with [] => s | _ => withTimer (ReferenceTimer uri) s end.

Definition slotTimerFired (uri : jstr) (slots : list jstr) (s : Manager) : Manager :=
  match docs s !! uri with
  | None => clearSnippetNavigationSession (clearActiveSnippetSlot s)
  | Some d =>
      let prepare s :=
        let '(s, t) := getActiveSnippetSlotForRequest uri d s in prepareCompletionSuggestions uri d t ForSlot s in
      match slots with
      | [] => prepare (clearActiveSnippetSlot s)
      | [] :: _ => clearActiveSnippetSlot s
      | name :: _ =>
          let '(start, stop) := selection d in
          prepare (withSlot (Some (mkTracked (mkSlot name (Z.min start stop) (Z.max start stop)) uri (versionId d))) (preparedTips s) s)
      end
  end.

Definition referenceTimerFired (uri : jstr) (s : Manager) : Manager :=
  match docs s !! uri with
  | None => s
  | Some d => prepareCompletionSuggestions uri d None ForReference (clearActiveSnippetSlot s)
  end.

(** [handleSnippetPlaceholderNavigation]. *)
Definition placeholderTimerFired (uri : jstr) (before : SnippetNavigationSnapshot) (now : Z) (s : Manager) : Manager :=
  match docs s !! uri with
  | None => s
  | Some d =>
      let '(s, active) := hasActiveSnippetNavigationSession uri now s in
      if active && inSnippet d && shouldTriggerSnippetPlaceholderCompletion before (getSnippetNavigationSnapshot d) then
        let '(s, t) := getActiveSnippetSlotForRequest uri d (trackSnippetNavigationSession uri now s) in
        prepareCompletionSuggestions uri d t ForPlaceholder s
      else s
  end.

Definition timerFired (k : nat) (now : Z) (s : Manager) : Manager :=
  match timers s !! k with
  | None => s
  | Some t =>
      let s := withNavigation (snippetNavigationSession s) (delete k (timers s)) s in
      match t with
      | SlotTimer uri slots => slotTimerFired uri slots s
      | ReferenceTimer uri => referenceTimerFired uri s
      | PlaceholderTimer uri before => placeholderTimerFired uri before now s
      end
  end.

Inductive Input :=
  | DocInput (uri : jstr) (d : Doc)
  | BindInput (uri : jstr) (info : DbInfo)
  | ChangeInput
  | ClearInput (uri : jstr)
  | ListenInput (uri : jstr) (listener : option nat)
  | UnlistenInput (uri : jstr) (listener : nat)
  | RefreshInput (uri : jstr)
  | ProvideInput (uri : jstr)
  | ActivateInput (payload : option (jstr * list jstr)) (now : Z)
  | ReferenceInput (uri : jstr)
  | TabInput (uri : jstr) (now : Z)
  | TimerInput (k : nat) (now : Z)
  | AnswerInput (k : nat) (result : option ISqlCompletionResult).

Definition step (s : Manager) (i : Input) : Manager :=
  match i with
  | DocInput uri d => withDoc uri d s
  | BindInput uri info => bindModelDBInfo uri info s
  | ChangeInput => changeDBInfo s
  | ClearInput uri => clearModelDBInfo uri s
  | ListenInput uri listener => setEditorHintsListener uri listener s
  | UnlistenInput uri listener => clearEditorHintsListener uri listener s
  | RefreshInput uri => refreshEditorHints uri s
  | ProvideInput uri => provideCompletionItems uri s
  | ActivateInput payload now => activateSnippetSlot payload now s
  | ReferenceInput uri => triggerQualifiedReferenceCompletion uri s
  | TabInput uri now => tabPressed uri now s
  | TimerInput k now => timerFired k now s
  | AnswerInput k result => engineAnswered k result s
  end.

Definition run (inputs : list Input) (s : Manager) : Manager := fold_left step inputs s.

(** ** Hints of the latest request *)

(** What leaves the requests and their numbers alone. *)
Definition quiet (s s' : Manager) : Prop :=
  requests s' = requests s ∧ editorHintsRequestSeqMap s' = editorHintsRequestSeqMap s ∧ modelDbInfoMap s' = modelDbInfoMap s.

#[local] Instance quiet_preorder : PreOrder quiet.
Proof. split; [done|]. intros a b c (? & ? & ?) (? & ? & ?). split_and!; congruence. Qed.

(** The data of a text as a request remembers it. *)
Definition dataOf (uri : jstr) (s : Manager) : jstr := getDBInfoSignature (modelDbInfoMap s !! uri).

Lemma znum_nonempty n : znum n ≠ [].
Proof.
  unfold znum. destruct n as [|x|x]; [done| |].
  - destruct (pretty_N_head (N.pos x)) as (c & t & E & _). change (pretty (Z.pos x)) with (pretty (N.pos x)). by rewrite E.
  - change (pretty (Z.neg x)) with ("-" +:+ pretty (N.pos x)). by rewrite js_app.
Qed.

Definition numberText (n : option Z) : jstr := default [] (znum <$> n).

Lemma bar_not_in_number n : ch "|" ∉ numberText n.
Proof. destruct n as [n|]; cbn; [|apply not_elem_of_nil]. apply znum_not_in. vm_compute. intros [H1|[H1 H2]]; [discriminate|by apply H2]. Qed.

Lemma numberText_inj n n' : numberText n = numberText n' → n = n'.
Proof.
  destruct n as [n|], n' as [n'|]; cbn; intros E; [|by apply znum_nonempty in E|by symmetry in E; apply znum_nonempty in E|done].
  assert (Hs : js_Number (znum n) = js_Number (znum n')) by (by rewrite E). rewrite !js_Number_znum in Hs. by simplify_eq.
Qed.

(** Whether the engine is asked at all is part of how the data is described. *)
Lemma dataOf_canFetch uri s s' : dataOf uri s = dataOf uri s' → canFetch uri s = canFetch uri s'.
Proof.
  assert (∀ d, getDBInfoSignature (Some d) = numberText (getSqlCompletionContextId (Some d)) ++ ch "|" :: numberText (dataSourceId d) ++ ch "|" ::
    join (js "|") [default [] (databaseType d); default [] (databaseName d); default [] (schemaName d)]) as Hd by done.
  assert (∀ d, getDBInfoSignature (Some d) ≠ []) as Hn by (intros d; rewrite Hd; by destruct (numberText _)).
  unfold dataOf, canFetch. destruct (modelDbInfoMap s !! uri) as [d|], (modelDbInfoMap s' !! uri) as [d'|]; try done.
  - rewrite !Hd. intros E. apply app_sep_inj_l in E as [E1%numberText_inj E]; [|apply bar_not_in_number..].
    apply app_sep_inj_l in E as [E2%numberText_inj _]; [|apply bar_not_in_number..]. cbn [mbind option_bind] in *. by rewrite E1, E2.
  - intros E. by apply Hn in E.
  - intros E. symmetry in E. by apply Hn in E.
Qed.

Ltac quiet_done :=
  repeat first
    [ progress unfold nothingPrepared, clearActiveSnippetSlot, clearSnippetNavigationSession, triggerSuggest,
        trackSnippetNavigationSession, notifyEditorHints, triggerQualifiedReferenceCompletion
    | case_match | progress simplify_eq/= ];
  done.

Lemma afterPreparing_quiet p t s : quiet s (afterPreparing p t s).
Proof. unfold afterPreparing. quiet_done. Qed.

Lemma completionFetched_quiet r result s : quiet s (completionFetched r result s).
Proof.
  unfold completionFetched. cbv zeta.
  destruct (purpose r); [quiet_done..| | |]; (case_match; [quiet_done|]; etrans; [|apply afterPreparing_quiet]; done).
Qed.

Lemma slotForRequest_quiet uri d s : quiet s (getActiveSnippetSlotForRequest uri d s).1.
Proof. unfold getActiveSnippetSlotForRequest. quiet_done. Qed.

Lemma navigation_quiet uri now s : quiet s (hasActiveSnippetNavigationSession uri now s).1.
Proof. unfold hasActiveSnippetNavigationSession. quiet_done. Qed.

Lemma tabPressed_quiet uri now s : quiet s (tabPressed uri now s).
Proof.
  unfold tabPressed. case_match; [|done]. pose proof (navigation_quiet uri now s) as Hq.
  destruct (hasActiveSnippetNavigationSession uri now s) as [s1 active]. cbn in Hq. quiet_done.
Qed.

(** A step never lowers the number of a text, and raises it when the data of the text changes; its new requests have the new
    number and are about the new data.  It is raised only then, or when the engine is asked or would be if it could. *)
Definition advances (uri : jstr) (s s' : Manager) : Prop :=
  getEditorHintsRequestSeq uri s <= getEditorHintsRequestSeq uri s' ∧
  (∀ k r, requests s' !! k = Some r → requestUri r = uri →
    requests s !! k = Some r ∨
    (requestSeq r = getEditorHintsRequestSeq uri s' ∧ getEditorHintsRequestSeq uri s < getEditorHintsRequestSeq uri s'
      ∧ requestSignature r = dataOf uri s' ∧ canFetch uri s' = true)) ∧
  (dataOf uri s' ≠ dataOf uri s → getEditorHintsRequestSeq uri s < getEditorHintsRequestSeq uri s') ∧
  (getEditorHintsRequestSeq uri s < getEditorHintsRequestSeq uri s' →
    dataOf uri s' ≠ dataOf uri s ∨ canFetch uri s = false ∨
    ∃ k r, requests s' !! k = Some r ∧ requestUri r = uri ∧ getEditorHintsRequestSeq uri s < requestSeq r).

Lemma quiet_advances uri s s' : quiet s s' → advances uri s s'.
Proof.
  intros (Hr & Hq & Hm). unfold advances, getEditorHintsRequestSeq, dataOf, canFetch. rewrite Hr, Hq, Hm.
  split_and!; [done|auto|done|lia].
Qed.

Lemma quiet_advances_l uri s1 s2 s3 : quiet s1 s2 → advances uri s2 s3 → advances uri s1 s3.
Proof. intros (Hr & Hq & Hm). unfold advances, getEditorHintsRequestSeq, dataOf, canFetch. by rewrite Hr, Hq, Hm. Qed.

Lemma quiet_advances_r uri s1 s2 s3 : advances uri s1 s2 → quiet s2 s3 → advances uri s1 s3.
Proof. intros Ha (Hr & Hq & Hm). revert Ha. unfold advances, getEditorHintsRequestSeq, dataOf, canFetch. by rewrite Hr, Hq, Hm. Qed.

Lemma bump_seq uri uri' s :
  getEditorHintsRequestSeq uri' (bumpEditorHintsRequestSeq uri s) =
  if bool_decide (uri' = uri) then getEditorHintsRequestSeq uri s + 1 else getEditorHintsRequestSeq uri' s.
Proof.
  unfold getEditorHintsRequestSeq. cbn. case_bool_decide as E; [subst; by rewrite lookup_insert_eq|].
  by rewrite lookup_insert_ne.
Qed.

Lemma fetch_advances uri uri' d t p s : advances uri s (fetchBackendCompletion uri' d t p s).
Proof.
  unfold fetchBackendCompletion. cbv zeta. change (canFetch uri' (bumpEditorHintsRequestSeq uri' s)) with (canFetch uri' s).
  pose proof (bump_seq uri' uri s) as Hb. destruct (canFetch uri' s) eqn:Ec.
  - set (s1 := withRequests _ _ _). assert (getEditorHintsRequestSeq uri s1 = getEditorHintsRequestSeq uri (bumpEditorHintsRequestSeq uri' s)) as Hs by done.
    unfold advances. rewrite Hs, Hb. change (dataOf uri s1) with (dataOf uri s). split_and!; [case_bool_decide; subst; lia| |done|].
    + intros k r. cbn [requests s1 withRequests]. rewrite lookup_insert_Some. intros [[<- <-]|[_ Hk]] Hu; [|by left]. right.
      cbn [requestUri requestSeq requestSignature] in *. subst uri'. rewrite Hb, bool_decide_eq_true_2 by done. split_and!; [done|lia|done|exact Ec].
    + case_bool_decide as E; [subst uri'|lia]. intros _. right; right. eexists _, _. cbn [requests s1 withRequests]. rewrite lookup_insert_eq.
      split_and!; [done|done|]. cbn [requestSeq]. rewrite Hb. lia.
  - eapply quiet_advances_r; [|apply completionFetched_quiet]. unfold advances. rewrite Hb.
    split_and!; [case_bool_decide; subst; lia|by left|done|]. case_bool_decide as E; [subst; by right; left|lia].
Qed.

Lemma prepare_advances uri uri' d t p s : advances uri s (prepareCompletionSuggestions uri' d t p s).
Proof. unfold prepareCompletionSuggestions. case_match; [by apply quiet_advances|apply fetch_advances]. Qed.

Lemma provide_advances uri uri' s : advances uri s (provideCompletionItems uri' s).
Proof.
  unfold provideCompletionItems. case_match; [|by apply quiet_advances]. case_match; [by apply quiet_advances|].
  pose proof (slotForRequest_quiet uri' d s) as Hq.
  destruct (getActiveSnippetSlotForRequest uri' d s) as [s1 t]. cbn in Hq.
  unfold consumePreparedTips. repeat case_match; simplify_eq;
    first [apply quiet_advances; etrans; [exact Hq|done] | eapply quiet_advances_l; [exact Hq|apply fetch_advances]].
Qed.

Lemma timer_advances uri k now s : advances uri s (timerFired k now s).
Proof.
  unfold timerFired. case_match; [|by apply quiet_advances].
  set (s0 := withNavigation _ _ s). apply (quiet_advances_l uri s s0); [done|]. clearbody s0.
  destruct t as [uri' slots|uri'|uri' before].
  - unfold slotTimerFired. case_match; [|apply quiet_advances; quiet_done]. cbv zeta.
    assert (∀ s1, quiet s0 s1 → advances uri s0 (let '(s, t) := getActiveSnippetSlotForRequest uri' d s1 in
              prepareCompletionSuggestions uri' d t ForSlot s)) as Hp.
    { intros s1 Hs1. pose proof (slotForRequest_quiet uri' d s1) as Hq.
      destruct (getActiveSnippetSlotForRequest uri' d s1) as [s2 t]. cbn in Hq.
      eapply quiet_advances_l; [by etrans|apply prepare_advances]. }
    destruct slots as [|[|c name] slots]; [by apply Hp|by apply quiet_advances|].
    destruct (selection d) as [start stop]. by apply Hp.
  - unfold referenceTimerFired. case_match; [|by apply quiet_advances].
    eapply quiet_advances_l; [|apply prepare_advances]. done.
  - unfold placeholderTimerFired. case_match; [|by apply quiet_advances].
    pose proof (navigation_quiet uri' now s0) as Hq.
    destruct (hasActiveSnippetNavigationSession uri' now s0) as [s1 active]. cbn in Hq.
    case_match; [|by apply quiet_advances].
    pose proof (slotForRequest_quiet uri' d (trackSnippetNavigationSession uri' now s1)) as Hq'.
    destruct (getActiveSnippetSlotForRequest uri' d _) as [s2 t]. cbn in Hq'.
    eapply quiet_advances_l; [|apply prepare_advances]. etrans; [exact Hq|]. etrans; [|exact Hq']. done.
Qed.

Lemma answered_quiet k result s :
  quiet (withRequests (delete k (requests s)) (nextId s) s) (engineAnswered k result s) ∨ engineAnswered k result s = s.
Proof.
  unfold engineAnswered. case_match; [left|by right]. cbv zeta.
  repeat case_match; (etrans; [|apply completionFetched_quiet]); quiet_done.
Qed.

Lemma step_advances uri s i : i ≠ ClearInput uri → advances uri s (step s i).
Proof.
  intros Hi. destruct i as [uri' d|uri' info| |uri'|uri' l|uri' l|uri'|uri'|payload now|uri'|uri' now|k now|k result]; cbn [step].
  - by apply quiet_advances.
  - unfold bindModelDBInfo. cbv zeta. destruct (bool_decide (getDBInfoSignature _ = _)) eqn:Ed; [apply bool_decide_eq_true in Ed|apply bool_decide_eq_false in Ed];
      pose proof (bump_seq uri' uri s) as Hb; unfold advances, dataOf, canFetch.
    + unfold getEditorHintsRequestSeq. cbn. split_and!; [done|by left| |lia]. intros Hne. exfalso. apply Hne.
      destruct (decide (uri' = uri)) as [->|Hu]; [by rewrite lookup_insert_eq|by rewrite lookup_insert_ne].
    + change (getEditorHintsRequestSeq uri (withMaps _ _ _ ?x)) with (getEditorHintsRequestSeq uri x).
      cbn [modelDbInfoMap requests withMaps bumpEditorHintsRequestSeq] in *. rewrite Hb.
      case_bool_decide as Eu; [subst uri'; rewrite lookup_insert_eq|rewrite lookup_insert_ne by done; split_and!; [done|by left|done|lia]].
      split_and!; [lia|by left|lia|]. intros _. left. congruence.
  - apply quiet_advances. unfold changeDBInfo. quiet_done.
  - assert (uri' ≠ uri) by congruence. unfold clearModelDBInfo. cbv zeta.
    set (s1 := withMaps _ _ _ s). assert (advances uri s s1) as Ha.
    { unfold advances, getEditorHintsRequestSeq, dataOf, canFetch. cbn. rewrite !lookup_delete_ne by done. split_and!; [done|by left|done|lia]. }
    eapply quiet_advances_r; [exact Ha|]. clearbody s1. quiet_done.
  - by apply quiet_advances.
  - unfold clearEditorHintsListener. case_match; by apply quiet_advances.
  - unfold refreshEditorHints. case_match; [apply fetch_advances|by apply quiet_advances].
  - apply provide_advances.
  - apply quiet_advances. unfold activateSnippetSlot. quiet_done.
  - apply quiet_advances. quiet_done.
  - apply quiet_advances, tabPressed_quiet.
  - apply timer_advances.
  - destruct (answered_quiet k result s) as [Hq| ->]; [|by apply quiet_advances].
    eapply quiet_advances_r; [|exact Hq]. split_and!; [done| |done|cbn; unfold getEditorHintsRequestSeq; cbn; lia].
    intros k' r. cbn. rewrite lookup_delete_Some. intros [_ ?]. by left.
Qed.

(** Since request [k], which is [r], was made, the data of its text was described otherwise, if only for a while, or the engine
    was asked about the text again. *)
Definition overtaken (inputs : list Input) (k : nat) (r : Request) : Prop :=
  ∃ before i after, inputs = before ++ i :: after ∧
    let s := run before newManager in
    let s' := step s i in
    requests s !! k = Some r ∧
    (getDBInfoSignature (modelDbInfoMap s' !! requestUri r) ≠ getDBInfoSignature (modelDbInfoMap s !! requestUri r) ∨
     ∃ k' r', requests s' !! k' = Some r' ∧ requestUri r' = requestUri r ∧ requests s !! k' ≠ Some r').

Lemma run_app a b s : run (a ++ b) s = run b (run a s).
Proof. apply fold_left_app. Qed.

Lemma run_snoc inputs i s : run (inputs ++ [i]) s = step (run inputs s) i.
Proof. by rewrite run_app. Qed.

Lemma run_numbers uri inputs s : ClearInput uri ∉ inputs → getEditorHintsRequestSeq uri s <= getEditorHintsRequestSeq uri (run inputs s).
Proof.
  revert s. induction inputs as [|i inputs IH]; intros s Hc; [done|]. apply not_elem_of_cons in Hc as [Hi Hc].
  cbn. etrans; [|by apply IH]. apply step_advances. congruence.
Qed.

Lemma request_number inputs k r :
  ClearInput (requestUri r) ∉ inputs → requests (run inputs newManager) !! k = Some r →
  requestSeq r <= getEditorHintsRequestSeq (requestUri r) (run inputs newManager).
Proof.
  induction inputs as [|i inputs IH] using rev_ind; intros Hc Hk; [done|].
  rewrite not_elem_of_app, list_elem_of_singleton in Hc. destruct Hc as [Hc Hi]. rewrite run_snoc in *.
  destruct (step_advances (requestUri r) (run inputs newManager) i) as (Hmono & Hnew & _); [congruence|].
  destruct (Hnew k r Hk eq_refl) as [Hold|[-> _]]; [|done]. etrans; [|exact Hmono]. by apply IH.
Qed.

Lemma overtaken_number inputs k r :
  ClearInput (requestUri r) ∉ inputs → overtaken inputs k r → requestSeq r < getEditorHintsRequestSeq (requestUri r) (run inputs newManager).
Proof.
  intros Hc (before & i & after & -> & Hb & Hover). rewrite not_elem_of_app, not_elem_of_cons in Hc. destruct Hc as (Hc1 & Hi & Hc2).
  apply request_number in Hb; [|done]. pose proof (run_numbers _ after (run (before ++ [i]) newManager) Hc2) as Hmono.
  rewrite <- run_app, <- app_assoc, run_snoc in Hmono. cbn [app] in Hmono.
  destruct (step_advances (requestUri r) (run before newManager) i) as (_ & Hnew & Hdata & _); [congruence|].
  assert (getEditorHintsRequestSeq (requestUri r) (run before newManager) <
    getEditorHintsRequestSeq (requestUri r) (step (run before newManager) i)); [|lia].
  destruct Hover as [?|(k' & r' & Hk' & Hu & Hne)]; [by apply Hdata|]. by destruct (Hnew k' r' Hk' Hu) as [?|(_ & ? & _)].
Qed.

(** A request that was not overtaken has the number of its text and is about its data. *)
Lemma latest_number inputs k r :
  ClearInput (requestUri r) ∉ inputs → requests (run inputs newManager) !! k = Some r → ¬ overtaken inputs k r →
  let s := run inputs newManager in
  requestSeq r = getEditorHintsRequestSeq (requestUri r) s ∧ requestSignature r = dataOf (requestUri r) s ∧ canFetch (requestUri r) s = true.
Proof.
  induction inputs as [|i inputs IH] using rev_ind; [done|]. intros Hall Hk Ho. pose proof Hall as Hc.
  rewrite not_elem_of_app, list_elem_of_singleton in Hc. destruct Hc as [Hc Hi]. rewrite run_snoc in *. cbv zeta.
  destruct (step_advances (requestUri r) (run inputs newManager) i) as (Hmono & Hnew & Hdata & Hwhy); [congruence|].
  destruct (Hnew k r Hk eq_refl) as [Hold|(? & _ & ? & ?)]; [|done].
  assert (¬ overtaken inputs k r) as Ho'.
  { intros (before & j & after & -> & ? & ?). apply Ho. exists before, j, (after ++ [i]). by rewrite <- app_assoc. }
  destruct (IH Hc Hold Ho') as (Hseq & Hsig & Hfetch).
  assert (¬ (dataOf (requestUri r) (step (run inputs newManager) i) ≠ dataOf (requestUri r) (run inputs newManager) ∨
    ∃ k' r', requests (step (run inputs newManager) i) !! k' = Some r' ∧ requestUri r' = requestUri r ∧ requests (run inputs newManager) !! k' ≠ Some r')) as Hn.
  { intros Hover. apply Ho. by exists inputs, i, []. }
  assert (dataOf (requestUri r) (step (run inputs newManager) i) = dataOf (requestUri r) (run inputs newManager)) as Hd
    by (apply dec_stable; tauto).
  rewrite (dataOf_canFetch _ _ (run inputs newManager) Hd), Hd. split_and!; [|done|done].
  destruct (decide (getEditorHintsRequestSeq (requestUri r) (run inputs newManager)
    < getEditorHintsRequestSeq (requestUri r) (step (run inputs newManager) i))) as [Hlt|]; [|lia].
  exfalso. destruct (Hwhy Hlt) as [?|[?|(k' & r' & Hk' & Hu & Hs)]]; [done|congruence|]. apply Hn. right. exists k', r'. split_and!; [done..|].
  intros Hk0. apply request_number in Hk0; rewrite Hu in *; [lia|done].
Qed.

(** What [engineAnswered] tells the listener. *)
Definition notices (os : list Output) : list (nat * list Hint) :=
  omap (λ o, match o with Notified l hints => Some (l, hints) | _ => None end) os.

Lemma notices_app a b : notices (a ++ b) = notices a ++ notices b.
Proof. unfold notices. by rewrite omap_app. Qed.

Lemma completionFetched_notices r result s : notices (outputs (completionFetched r result s)) = notices (outputs s).
Proof.
  unfold completionFetched, afterPreparing, triggerSuggest, nothingPrepared. cbv zeta.
  repeat case_match; cbn; rewrite ?notices_app; cbn; by rewrite ?app_nil_r.
Qed.

Lemma answered_notices s k r result :
  requests s !! k = Some r → purpose r ≠ ForHints →
  notices (outputs (engineAnswered k result s)) =
  notices (outputs s) ++
  match result, editorHintsListeners s !! requestUri r with
  | Some x, Some l =>
      if decide (requestSignature r = getDBInfoSignature (modelDbInfoMap s !! requestUri r)) then
        if decide (requestSeq r = getEditorHintsRequestSeq (requestUri r) s) then [(l, editorHints x)] else []
      else []
  | _, _ => []
  end.
Proof.
  intros Hk Hp. unfold engineAnswered. rewrite Hk. cbv zeta.
  destruct result as [x|]; [|by destruct (purpose r); rewrite completionFetched_notices, app_nil_r].
  assert (∀ A B : Manager, match purpose r with ForHints => A | _ => B end = B) as -> by (intros; by destruct (purpose r)).
  unfold notifyEditorHints, getEditorHintsRequestSeq. cbn [modelDbInfoMap editorHintsListeners editorHintsRequestSeqMap withRequests].
  destruct (editorHintsListeners s !! requestUri r) as [l|];
    (case_bool_decide; [rewrite ?decide_True by done|rewrite ?decide_False by done]);
    rewrite completionFetched_notices, ?app_nil_r; try done;
    (case_match eqn:Eq; [apply Z.eqb_eq in Eq; rewrite ?decide_True by done|apply Z.eqb_neq in Eq; rewrite ?decide_False by done]);
    cbn; by rewrite ?notices_app, ?app_nil_r.
Qed.


(** ** Slots that follow the typing *)

Definition DocOk (d : Doc) : Prop :=
  0 <= cursor d <= Z.of_nat (length (value d)) ∧ 0 <= (selection d).1 ∧ 0 <= (selection d).2.

(** A slot is in the text and the cursor is in the slot. *)
Definition SlotHolds (text : jstr) (at_ : Z) (t : ActiveSlot) : Prop :=
  0 <= slotStart t <= at_ ∧ at_ <= slotEnd t <= Z.of_nat (length text).

Record Inv (s : Manager) : Prop := mkInv {
  docs_ok : ∀ uri d, docs s !! uri = Some d → DocOk d;
  slot_ok : ∀ t, activeSnippetSlot s = Some t → 0 <= slotStart (slot t);
  requests_ok : ∀ k r t, requests s !! k = Some r → requestSlot r = Some t → SlotHolds (requestSql r) (requestCursor r) t;
}.

(** What touches neither texts, nor makes slots or requests. *)
Record tame (s s' : Manager) : Prop := mkTame {
  tame_docs : docs s' = docs s;
  tame_slot : activeSnippetSlot s' = activeSnippetSlot s ∨ activeSnippetSlot s' = None;
  tame_requests : ∀ k r, requests s' !! k = Some r → requests s !! k = Some r;
}.

#[local] Instance tame_preorder : PreOrder tame.
Proof.
  split; [by intros s; split; [|left|]|]. intros a b c [? Ha ?] [? Hb ?]. split; [congruence| |by eauto].
  destruct Hb as [->| ->]; [exact Ha|by right].
Qed.

Lemma tame_inv s s' : tame s s' → Inv s → Inv s'.
Proof.
  intros [Hd Hs Hr] [H1 H2 H3]. split; [by rewrite Hd| |by eauto]. destruct Hs as [->| ->]; [done|discriminate].
Qed.

Ltac tame_done :=
  repeat first
    [ progress unfold nothingPrepared, clearActiveSnippetSlot, clearSnippetNavigationSession, triggerSuggest,
        trackSnippetNavigationSession, notifyEditorHints, triggerQualifiedReferenceCompletion
    | case_match | progress simplify_eq/= ];
  split; cbn; auto.

Lemma completionFetched_tame r result s : tame s (completionFetched r result s).
Proof. unfold completionFetched, afterPreparing. cbv zeta. tame_done. Qed.

Lemma navigation_tame uri now s : tame s (hasActiveSnippetNavigationSession uri now s).1.
Proof. unfold hasActiveSnippetNavigationSession. tame_done. Qed.

Lemma tabPressed_tame uri now s : tame s (tabPressed uri now s).
Proof.
  unfold tabPressed. case_match; [|done]. pose proof (navigation_tame uri now s) as Hq.
  destruct (hasActiveSnippetNavigationSession uri now s) as [s1 active]. cbn in Hq. etrans; [exact Hq|]. tame_done.
Qed.

Lemma slotForRequest_inv uri d s :
  DocOk d → Inv s → Inv (getActiveSnippetSlotForRequest uri d s).1 ∧
    ∀ t, (getActiveSnippetSlotForRequest uri d s).2 = Some t → SlotHolds (value d) (cursor d) t.
Proof.
  intros Hd Hs. assert (Inv (clearActiveSnippetSlot s)) as Hc by (apply (tame_inv s); [tame_done|done]).
  unfold getActiveSnippetSlotForRequest. destruct (activeSnippetSlot s) as [[[ty start stop] u v]|] eqn:Es; [|done].
  pose proof (slot_ok s Hs _ Es) as H0. cbn in H0. cbn [slotUri slot slotVersion]. cbv zeta.
  assert (∀ t', tryExtendActiveSnippetSlot d (mkTracked (mkSlot ty start stop) u v) = Some t' →
            Inv (withSlot (Some t') (preparedTips s) s) ∧ SlotHolds (value d) (cursor d) (slot t')) as Hx.
  { unfold tryExtendActiveSnippetSlot. cbn [slot slotStart slotType slotUri]. cbv zeta. intros t'.
    case_test; [done|]. case_test; [done|]. case_test; [|done]. intros [= <-]. apply Z.leb_gt in Etest.
    destruct Hd as [? _]. split; [|unfold SlotHolds; cbn; lia]. destruct Hs. split; cbn; [done| |done]. by intros ? [= <-]. }
  case_test; [done|]. case_test; [done|]. apply orb_false_iff in Etest0 as [L1%Z.ltb_ge L2%Z.ltb_ge].
  destruct ((cursor d <? start) || (stop <? cursor d)) eqn:Ec.
  - case_test; [|done]. destruct (tryExtendActiveSnippetSlot d _) as [t'|]; [|done].
    destruct (Hx t' eq_refl) as [? ?]. split; [done|]. by intros ? [= <-].
  - apply orb_false_iff in Ec as [C1%Z.ltb_ge C2%Z.ltb_ge]. case_test.
    + case_test; [done|]. destruct (tryExtendActiveSnippetSlot d _) as [t'|]; [|done].
      destruct (Hx t' eq_refl) as [? ?]. split; [done|]. by intros ? [= <-].
    + split; [done|]. intros ? [= <-]. unfold SlotHolds. cbn. lia.
Qed.

Lemma fetch_inv uri d t p s :
  (∀ x, t = Some x → SlotHolds (value d) (cursor d) x) → Inv s → Inv (fetchBackendCompletion uri d t p s).
Proof.
  intros Ht Hs. assert (Inv (bumpEditorHintsRequestSeq uri s)) as Hb by (apply (tame_inv s); [tame_done|done]).
  unfold fetchBackendCompletion. cbv zeta. case_match; [|eapply tame_inv; [apply completionFetched_tame|exact Hb]].
  destruct Hb as [H1 H2 H3]. split; [exact H1|exact H2|]. intros k r x. cbn. rewrite lookup_insert_Some.
  intros [[<- <-]|[_ Hk]]; [cbn; apply Ht|exact (H3 k r x Hk)].
Qed.

Lemma prepare_inv uri d t p s :
  (∀ x, t = Some x → SlotHolds (value d) (cursor d) x) → Inv s → Inv (prepareCompletionSuggestions uri d t p s).
Proof.
  intros Ht Hs. unfold prepareCompletionSuggestions. case_match; [apply (tame_inv s); [tame_done|done]|by apply fetch_inv].
Qed.

Lemma slot_then_prepare_inv uri d p s :
  DocOk d → Inv s → Inv (let '(s, t) := getActiveSnippetSlotForRequest uri d s in prepareCompletionSuggestions uri d t p s).
Proof.
  intros Hd Hs. destruct (slotForRequest_inv uri d s Hd Hs) as [H1 H2].
  destruct (getActiveSnippetSlotForRequest uri d s) as [s1 t]. by apply prepare_inv.
Qed.

Lemma timer_inv k now s : Inv s → Inv (timerFired k now s).
Proof.
  intros Hs. unfold timerFired. case_match; [|done]. cbv zeta.
  assert (Inv (withNavigation (snippetNavigationSession s) (delete k (timers s)) s)) as Hw by (apply (tame_inv s); [tame_done|done]).
  revert Hw. generalize (withNavigation (snippetNavigationSession s) (delete k (timers s)) s). clear Hs. intros s0 Hs.
  assert (Inv (clearActiveSnippetSlot s0)) as Hc by (apply (tame_inv s0); [tame_done|done]).
  destruct t as [uri slots|uri|uri before].
  - unfold slotTimerFired. destruct (docs s0 !! uri) as [d|] eqn:Ed; [|apply (tame_inv s0); [tame_done|done]].
    pose proof (docs_ok s0 Hs _ _ Ed) as Hd. destruct slots as [|[|c name] slots]; [by apply slot_then_prepare_inv|done|].
    destruct (selection d) as [start stop] eqn:Esel. apply slot_then_prepare_inv; [done|].
    destruct Hs as [H1 H2 H3]. split; [done| |done]. intros t [= <-]. destruct Hd as (_ & Ha & Hb). rewrite Esel in Ha, Hb. cbn in *. lia.
  - unfold referenceTimerFired. case_match; [|done]. by apply prepare_inv.
  - unfold placeholderTimerFired. destruct (docs s0 !! uri) as [d|] eqn:Ed; [|done]. pose proof (docs_ok s0 Hs _ _ Ed) as Hd.
    pose proof (navigation_tame uri now s0) as Hq.
    destruct (hasActiveSnippetNavigationSession uri now s0) as [s1 active]. cbn in Hq. apply tame_inv in Hq; [|done].
    case_match; [|done]. apply slot_then_prepare_inv; [done|]. apply (tame_inv s1); [tame_done|done].
Qed.

Lemma step_inv s i : match i with DocInput _ d => DocOk d | _ => True end → Inv s → Inv (step s i).
Proof.
  intros Hi Hs. destruct i as [uri d|uri info| |uri|uri l|uri l|uri|uri|payload now|uri|uri now|k now|k result]; cbn [step].
  - destruct Hs as [H1 H2 H3]. split; [|exact H2|exact H3]. intros u d'. cbn. rewrite lookup_insert_Some.
    intros [[<- <-]|[_ Hd]]; [exact Hi|by apply (H1 u)].
  - apply (tame_inv s); [|done]. unfold bindModelDBInfo, bumpEditorHintsRequestSeq. cbv zeta. tame_done.
  - apply (tame_inv s); [|done]. unfold changeDBInfo. tame_done.
  - apply (tame_inv s); [|done]. unfold clearModelDBInfo. cbv zeta. tame_done.
  - apply (tame_inv s); [tame_done|done].
  - apply (tame_inv s); [unfold clearEditorHintsListener, setEditorHintsListener; tame_done|done].
  - unfold refreshEditorHints. case_match; [|done]. by apply fetch_inv.
  - unfold provideCompletionItems. destruct (docs s !! uri) as [d|] eqn:Ed; [|done].
    case_test; [apply (tame_inv s); [tame_done|done]|].
    destruct (slotForRequest_inv uri d s (docs_ok s Hs _ _ Ed) Hs) as [H1 H2].
    destruct (getActiveSnippetSlotForRequest uri d s) as [s1 t]. cbn in H1, H2. unfold consumePreparedTips.
    repeat case_match; simplify_eq; first [by apply fetch_inv | apply (tame_inv s1); [tame_done|done]].
  - apply (tame_inv s); [unfold activateSnippetSlot; tame_done|done].
  - apply (tame_inv s); [tame_done|done].
  - apply (tame_inv s); [apply tabPressed_tame|done].
  - by apply timer_inv.
  - apply (tame_inv s); [|done]. unfold engineAnswered. case_match; [|done]. cbv zeta.
    set (s0 := withRequests _ _ s). assert (tame s s0) as Hw.
    { split; [done|by left|]. intros ? ?. cbn. rewrite lookup_delete_Some. by intros [_ ?]. }
    clearbody s0. repeat case_match; (etrans; [exact Hw|]; etrans; [|apply completionFetched_tame]); try done; tame_done.
Qed.

Lemma run_inv inputs : (∀ uri d, DocInput uri d ∈ inputs → DocOk d) → Inv (run inputs newManager).
Proof.
  intros Hd. induction inputs as [|i inputs IH] using rev_ind; [by split; intros; simplify_map_eq|].
  rewrite run_snoc. apply step_inv; [|apply IH; intros; eapply Hd; apply elem_of_app; by left].
  destruct i; try done. eapply Hd. apply elem_of_app. right. by apply list_elem_of_singleton.
Qed.

(** What the engine is told of the slot that is being filled in.  Whatever is typed and selected, and whenever timers and
    answers come, the slot sent with a request lies in the text sent and holds the cursor sent. *)
Theorem requested_slots_hold_cursor inputs k r t :
  (∀ uri d, DocInput uri d ∈ inputs → DocOk d) →
  requests (run inputs newManager) !! k = Some r → requestSlot r = Some t → SlotHolds (requestSql r) (requestCursor r) t.
Proof.
  intros Hd%run_inv. by apply requests_ok.
Qed.

(** ** Prepared suggestions *)

(** What does not prepare suggestions. *)
Definition keeps (s s' : Manager) : Prop := preparedTips s' = preparedTips s ∨ preparedTips s' = None.

#[local] Instance keeps_preorder : PreOrder keeps.
Proof. split; [by left|]. intros a b c Ha [Hb|Hb]; [unfold keeps; by rewrite Hb|by right]. Qed.

Ltac keeps_done :=
  repeat first
    [ progress unfold nothingPrepared, clearActiveSnippetSlot, clearSnippetNavigationSession, triggerSuggest,
        trackSnippetNavigationSession, notifyEditorHints, triggerQualifiedReferenceCompletion
    | case_match | progress simplify_eq/= ];
  unfold keeps; cbn; auto.

Lemma completionFailed_keeps r s : keeps s (completionFetched r None s).
Proof. unfold completionFetched. cbv zeta. keeps_done. Qed.

Lemma slotForRequest_keeps uri d s : keeps s (getActiveSnippetSlotForRequest uri d s).1.
Proof. unfold getActiveSnippetSlotForRequest. keeps_done. Qed.

Lemma navigation_keeps uri now s : keeps s (hasActiveSnippetNavigationSession uri now s).1.
Proof. unfold hasActiveSnippetNavigationSession. keeps_done. Qed.

Lemma fetch_keeps uri d t p s : keeps s (fetchBackendCompletion uri d t p s).
Proof.
  unfold fetchBackendCompletion. cbv zeta. case_match; [by left|]. etrans; [|apply completionFailed_keeps]. by left.
Qed.

Lemma prepare_keeps uri d t p s : keeps s (prepareCompletionSuggestions uri d t p s).
Proof. unfold prepareCompletionSuggestions. case_match; [by right|apply fetch_keeps]. Qed.

Lemma slot_then_prepare_keeps uri d p s s0 :
  keeps s0 s → keeps s0 (let '(s, t) := getActiveSnippetSlotForRequest uri d s in prepareCompletionSuggestions uri d t p s).
Proof.
  intros Hk. etrans; [exact Hk|]. pose proof (slotForRequest_keeps uri d s) as Hq.
  destruct (getActiveSnippetSlotForRequest uri d s) as [s1 t]. etrans; [exact Hq|apply prepare_keeps].
Qed.

Lemma timer_keeps k now s : keeps s (timerFired k now s).
Proof.
  unfold timerFired. case_match; [|done]. cbv zeta. set (s0 := withNavigation _ _ s).
  assert (keeps s s0) as Hw by (by left). etrans; [exact Hw|]. clear Hw. clearbody s0.
  destruct t as [uri slots|uri|uri before].
  - unfold slotTimerFired. case_match; [|keeps_done]. cbv zeta. destruct slots as [|[|c name] slots].
    + apply slot_then_prepare_keeps. by right.
    + by right.
    + destruct (selection d). apply slot_then_prepare_keeps. by left.
  - unfold referenceTimerFired. case_match; [|done]. etrans; [|apply prepare_keeps]. by right.
  - unfold placeholderTimerFired. case_match; [|done]. pose proof (navigation_keeps uri now s0) as Hq.
    destruct (hasActiveSnippetNavigationSession uri now s0) as [s1 active]. cbn in Hq.
    case_match; [|done]. apply slot_then_prepare_keeps. etrans; [exact Hq|]. by left.
Qed.

(** The suggestions that are made of an answer. *)
Definition preparedBy (r : Request) (x : ISqlCompletionResult) (d : Doc) : PreparedTips :=
  mkPrepared (requestUri r) (versionId d) (requestCursor r)
    (toBackendSuggestions (candidates x) (requestUri r) (value d) (offsets x)
       ((λ t, mkReplacement (Some (slotStart t)) (Some (slotEnd t))) <$> requestSlot r)).

Definition noDoc : Doc := mkDoc [] 0 0 (0, 0) false.

Lemma answered_prepared s k result p :
  preparedTips (engineAnswered k result s) = Some p →
  preparedTips s = Some p ∨
  ∃ x r, result = Some x ∧ requests s !! k = Some r ∧ p = preparedBy r x (default noDoc (docs s !! requestUri r)).
Proof.
  unfold engineAnswered. case_match; [|by left]. cbv zeta. set (s0 := withRequests _ _ s).
  assert (preparedTips s0 = preparedTips s ∧ docs s0 = docs s) as [Hp Hd] by done. clearbody s0.
  assert (∀ s1, preparedTips s1 = preparedTips s → docs s1 = docs s →
    preparedTips (completionFetched r result s1) = Some p →
    preparedTips s = Some p ∨ ∃ x r0, result = Some x ∧ Some r = Some r0 ∧ p = preparedBy r0 x (default noDoc (docs s !! requestUri r0)))
    as Hf.
  { intros s1 Hp1 Hd1. unfold completionFetched. rewrite Hd1. cbv zeta. fold noDoc. rewrite <- Hp1.
    assert (∀ q t s2, preparedTips (afterPreparing q t s2) = preparedTips s2) as Ha.
    { intros q t s2. unfold afterPreparing. by repeat case_match. }
    destruct result as [x|]; [|destruct (purpose r); cbn match; cbn; by auto].
    destruct (purpose r); cbn match; [by auto|by auto|..];
      (case_match eqn:Et; [done|]; rewrite Ha; intros [= <-]; right; exists x, r; split_and!; [done..|];
       unfold preparedBy; by rewrite Et). }
  assert (∀ s1, preparedTips s1 = preparedTips s → preparedTips (completionFetched r None s1) = Some p → preparedTips s = Some p) as Hn.
  { intros s1 Hp1 He. destruct (completionFailed_keeps r s1) as [Hk|Hk]; congruence. }
  destruct (purpose r) eqn:Ep; [by apply Hf|..]; (destruct result as [x|]; [|intros He; left; by apply (Hn s0)]);
    (case_bool_decide; [|intros He; left; by apply (Hn s0)]); apply Hf; unfold notifyEditorHints; by repeat case_match.
Qed.

Lemma step_prepared s i p :
  preparedTips (step s i) = Some p →
  preparedTips s = Some p ∨
  ∃ k x r, i = AnswerInput k (Some x) ∧ requests s !! k = Some r ∧ p = preparedBy r x (default noDoc (docs s !! requestUri r)).
Proof.
  assert (∀ s', keeps s s' → preparedTips s' = Some p → preparedTips s = Some p) as Hk.
  { intros s' [<-| ->]; done. }
  destruct i as [uri d|uri info| |uri|uri l|uri l|uri|uri|payload now|uri|uri now|k now|k result]; cbn [step];
    [intros He; left; revert He; apply Hk..|].
  - by left.
  - unfold bindModelDBInfo, bumpEditorHintsRequestSeq. cbv zeta. keeps_done.
  - by right.
  - unfold clearModelDBInfo. cbv zeta. keeps_done.
  - by left.
  - unfold clearEditorHintsListener, setEditorHintsListener. keeps_done.
  - unfold refreshEditorHints. case_match; [apply fetch_keeps|by left].
  - unfold provideCompletionItems. case_match; [|by left]. case_match; [by left|].
    pose proof (slotForRequest_keeps uri d s) as Hq. destruct (getActiveSnippetSlotForRequest uri d s) as [s1 t]. cbn in Hq.
    etrans; [exact Hq|]. unfold consumePreparedTips. repeat case_match; simplify_eq; first [apply fetch_keeps|keeps_done].
  - unfold activateSnippetSlot. keeps_done.
  - keeps_done.
  - unfold tabPressed. case_match; [|by left]. pose proof (navigation_keeps uri now s) as Hq.
    destruct (hasActiveSnippetNavigationSession uri now s) as [s1 active]. cbn in Hq. etrans; [exact Hq|]. keeps_done.
  - apply timer_keeps.
  - intros He. destruct (answered_prepared s k result p He) as [?|(x & r & -> & ? & ?)]; [by left|]. right. by exists k, x, r.
Qed.

Lemma run_prepared inputs p :
  preparedTips (run inputs newManager) = Some p →
  ∃ before k x r after, inputs = before ++ AnswerInput k (Some x) :: after ∧ requests (run before newManager) !! k = Some r ∧
    p = preparedBy r x (default noDoc (docs (run before newManager) !! requestUri r)).
Proof.
  induction inputs as [|i inputs IH] using rev_ind; [done|]. rewrite run_snoc. intros He.
  destruct (step_prepared _ _ _ He) as [Hp|(k & x & r & -> & ? & ?)].
  - destruct (IH Hp) as (before & k & x & r & after & -> & ? & ?). exists before, k, x, r, (after ++ [i]).
    by rewrite <- app_assoc.
  - exists inputs, k, x, r, []. done.
Qed.

Lemma slotForRequest_outputs uri d s : outputs (getActiveSnippetSlotForRequest uri d s).1 = outputs s.
Proof. unfold getActiveSnippetSlotForRequest. quiet_done. Qed.

Lemma fetch_outputs uri d t s :
  outputs (fetchBackendCompletion uri d t ForSuggestions s) = outputs s ∨
  outputs (fetchBackendCompletion uri d t ForSuggestions s) = outputs s ++ [SuggestionsAnswer uri None].
Proof. unfold fetchBackendCompletion. cbv zeta. case_match; [by left|by right]. Qed.

(** C20: suggestions that were prepared.  When the list is opened and suggestions are given without asking the engine, they
    were made of one of its answers, to a request for the same text at the same cursor, and the text has the version that it
    had when the answer came; they are given once. *)
Theorem prepared_suggestions_once inputs uri d items :
  let s := run inputs newManager in
  docs s !! uri = Some d → items ≠ [] →
  outputs (step s (ProvideInput uri)) = outputs s ++ [SuggestionsAnswer uri (Some items)] →
  preparedTips (step s (ProvideInput uri)) = None ∧
  ∃ before k x r d' after, inputs = before ++ AnswerInput k (Some x) :: after ∧
    requests (run before newManager) !! k = Some r ∧ requestUri r = uri ∧ requestCursor r = cursor d ∧
    default noDoc (docs (run before newManager) !! uri) = d' ∧ versionId d' = versionId d ∧
    items = suggestions (preparedBy r x d').
Proof.
  intros s Hd Hn. cbn [step]. unfold provideCompletionItems. rewrite Hd.
  case_test; [by intros [= E]%app_inv_head|].
  pose proof (slotForRequest_keeps uri d s) as Hk. pose proof (slotForRequest_outputs uri d s) as Ho.
  destruct (getActiveSnippetSlotForRequest uri d s) as [s1 t]. cbn in Hk, Ho. unfold consumePreparedTips.
  assert (∀ s2, outputs s2 = outputs s → outputs (fetchBackendCompletion uri d t ForSuggestions s2) ≠
            outputs s ++ [SuggestionsAnswer uri (Some items)]) as Hf.
  { intros s2 <- He. destruct (fetch_outputs uri d t s2) as [E|E]; rewrite E in He.
    - by apply (f_equal length) in He; rewrite length_app in He; cbn in He; lia.
    - by apply app_inv_head in He. }
  destruct (preparedTips s1) as [p|] eqn:Ep; [|intros He; by apply Hf in He].
  destruct (_ && _) eqn:Ec; [|intros He; by apply Hf in He].
  apply andb_true_iff in Ec as [[Hu%bool_decide_eq_true Hv%Z.eqb_eq]%andb_true_iff Hc%Z.eqb_eq].
  cbn. rewrite Ho. intros [= <-]%app_inv_head. split; [done|].
  destruct Hk as [Hk|Hk]; [|congruence]. rewrite Ep in Hk.
  destruct (run_prepared inputs p (eq_sym Hk)) as (before & k & x & r & after & -> & Hr & ->).
  cbn in Hu, Hv, Hc. exists before, k, x, r, (default noDoc (docs (run before newManager) !! uri)), after.
  split_and!; try done; by rewrite <- Hu.
Qed.

(** ** A slot while it is typed in *)

(** The slot for a text that has its ends: unchanged while the text is and the
    cursor is in it; else from its start to the cursor, when they are on one line
    with only a word between. *)
Definition followed (d : Doc) (t : TrackedSnippetSlot) : option ActiveSlot :=
  let '(mkSlot ty start stop) := slot t in
  if decide (Z.max start stop <= Z.of_nat (length (value d))) then
    if decide (slotVersion t = versionId d) then
      if decide (start <= cursor d <= stop) then Some (mkSlot ty start stop) else None
    else if decide (start < cursor d ∧
                    lineNumber (getPositionAt (value d) start) = lineNumber (getPositionAt (value d) (cursor d)) ∧
                    Forall is_ident (textBetween (value d) start (cursor d)))
    then Some (mkSlot ty start (cursor d)) else None
  else None.

Lemma extended_slot `{!PositionLaws} d t :
  DocOk d → 0 <= slotStart (slot t) →
  tryExtendActiveSnippetSlot d t =
  if decide (slotStart (slot t) < cursor d ∧
             lineNumber (getPositionAt (value d) (slotStart (slot t))) = lineNumber (getPositionAt (value d) (cursor d)) ∧
             Forall is_ident (textBetween (value d) (slotStart (slot t)) (cursor d)))
  then Some (mkTracked (mkSlot (slotType (slot t)) (slotStart (slot t)) (cursor d)) (slotUri t) (versionId d)) else None.
Proof.
  intros [Hd _] Hs. unfold tryExtendActiveSnippetSlot. cbv zeta.
  destruct (Z.leb_spec (cursor d) (slotStart (slot t))); [rewrite decide_False by lia; done|].
  destruct (Z.eqb_spec (lineNumber (getPositionAt (value d) (slotStart (slot t)))) (lineNumber (getPositionAt (value d) (cursor d))));
    cbn [negb]; [|by rewrite decide_False by tauto].
  rewrite value_between by lia. unfold isWord.
  assert (textBetween (value d) (slotStart (slot t)) (cursor d) ≠ []) as Hw.
  { intros E%(f_equal length). unfold textBetween in E. rewrite length_take, length_drop in E. cbn in E. lia. }
  rewrite bool_decide_eq_false_2 by done. cbn [negb andb].
  assert (Forall is_ident (textBetween (value d) (slotStart (slot t)) (cursor d)) ↔
          forallb is_ident (textBetween (value d) (slotStart (slot t)) (cursor d)) = true) as Hf.
  { by rewrite <- Is_true_true, forallb_True. }
  case_test; [rewrite decide_True by tauto|rewrite decide_False by (rewrite Hf; intuition congruence)]; done.
Qed.

(** C14: the slot that is being filled in, as a request sees it.  It is the slot where the text has not changed and the cursor
    is in it, else what was typed from its start up to the cursor, a word on one line; in every other case, and when the
    text became shorter than the slot, it is forgotten, with the prepared suggestions, until a snippet is inserted. *)
Theorem slot_follows_typing `{!PositionLaws} uri d s t :
  DocOk d → Inv s → activeSnippetSlot s = Some t → slotUri t = uri →
  let '(s', seen) := getActiveSnippetSlotForRequest uri d s in
  seen = followed d t ∧
  match seen with
  | Some x => activeSnippetSlot s' = Some (mkTracked x uri (versionId d)) ∧ preparedTips s' = preparedTips s
  | None => activeSnippetSlot s' = None ∧ preparedTips s' = None
  end.
Proof.
  intros Hd Hs Ht Hu. pose proof (slot_ok s Hs t Ht) as Hpos. pose proof (extended_slot d t Hd Hpos) as He.
  unfold getActiveSnippetSlotForRequest, followed. rewrite Ht, bool_decide_eq_true_2 by done. cbn [negb].
  rewrite He. clear He. destruct t as [[ty start stop] u v]. cbn [slot slotStart slotType slotUri slotVersion] in *. cbv zeta. subst u.
  destruct ((Z.of_nat (length (value d)) <? start) || (Z.of_nat (length (value d)) <? stop)) eqn:El.
  { rewrite decide_False by (apply orb_true_iff in El as [?%Z.ltb_lt|?%Z.ltb_lt]; lia). done. }
  apply orb_false_iff in El as [L1%Z.ltb_ge L2%Z.ltb_ge]. rewrite (decide_True (P := Z.max _ _ <= _)) by lia.
  destruct (Z.eqb_spec v (versionId d)) as [->|Hv]; cbn [negb].
  - rewrite decide_True by done. destruct ((cursor d <? start) || (stop <? cursor d)) eqn:Ec.
    + rewrite decide_False by (apply orb_true_iff in Ec as [?%Z.ltb_lt|?%Z.ltb_lt]; lia). done.
    + apply orb_false_iff in Ec as [?%Z.ltb_ge ?%Z.ltb_ge]. rewrite decide_True by lia. done.
  - rewrite (decide_False (P := v = _)) by done. destruct ((cursor d <? start) || (stop <? cursor d)) eqn:Ec.
    + case_decide; done.
    + apply orb_false_iff in Ec as [?%Z.ltb_ge ?%Z.ltb_ge]. destruct (Z.eqb_spec (cursor d) start) as [E|E].
      * rewrite decide_False by lia. done.
      * case_decide; done.
Qed.
End session.

(** ** Concrete editors *)

Definition sampleInfo : DbInfo := mkDbInfo (Some 1) None (Some 2) (Some (js "MYSQL")) (Some (js "shop")) None.
Definition sampleDoc (text : jstr) (version : Z) : Doc :=
  mkDoc text version (Z.of_nat (length text)) (Z.of_nat (length text), Z.of_nat (length text)) true.
Definition sampleCandidate : ISqlCompletionCandidate :=
  mkCandidate (js "users") (js "TABLE") (js "users") false None None [] [] [] [] [] [] None [].
Definition sampleResult : ISqlCompletionResult (Hint := nat) := mkResult [sampleCandidate] [7%nat] (mkReplacement None None).
Definition m : jstr := js "m".

Definition sampleOpened : list (Input (Hint := nat)) :=
  [BindInput m sampleInfo; ListenInput m (Some 5%nat); DocInput m (sampleDoc (js "SELECT u") 1)].

(** Two lists are asked for; the answers come in the other order. *)
Definition sampleHistory : list (Input (Hint := nat)) := sampleOpened ++ [ProvideInput m; ProvideInput m].


(** A snippet is inserted: its first placeholder, a table, is selected. *)
Definition snippetDoc (text : jstr) : Doc := mkDoc text 2 20 (14, 20) true.
Definition snippetHistory (text : jstr) : list (Input (Hint := nat)) :=
  sampleOpened ++ [DocInput m (snippetDoc text); ActivateInput (Some (m, [js "TABLE"])) 0; TimerInput 0 0].

Lemma sample_docs_ok text : (20 <= length text)%nat → ∀ uri d, DocInput uri d ∈ snippetHistory text → DocOk d.
Proof.
  intros Hl uri d. unfold snippetHistory, sampleOpened. cbn [app]. rewrite !elem_of_cons, elem_of_nil.
  intros Hd. repeat destruct Hd as [Hd|Hd]; try done; injection Hd as -> ->; unfold DocOk; cbn; lia.
Qed.

Lemma requested_slots_hold_cursor_witness :
  requestSlot <$> requests (run (snippetHistory (js "SELECT * FROM tables")) newManager) !! 1%nat = Some (Some (mkSlot (js "TABLE") 14 20)) ∧
  SlotHolds (js "SELECT * FROM tables") 20 (mkSlot (js "TABLE") 14 20).
Proof.
  split; [vm_compute; reflexivity|].
  apply (requested_slots_hold_cursor (snippetHistory (js "SELECT * FROM tables")) 1
    (mkRequest m 2 (js "1|2|MYSQL|shop|") (js "SELECT * FROM tables") 20 (Some (mkSlot (js "TABLE") 14 20)) ForSlot)).
  - apply sample_docs_ok. vm_compute. lia.
  - vm_compute. reflexivity.
  - reflexivity.
Defined.

(** The engine answers and the list is opened. *)
Definition preparedHistory : list (Input (Hint := nat)) :=
  snippetHistory (js "SELECT * FROM tables") ++ [AnswerInput 1 (Some sampleResult)].

Definition usersItem (r : option TextRange) : CompletionItem :=
  mkItem (js "users") [] [] (js "users") (js "users") None false r None.

Lemma prepared_suggestions_once_witness :
  preparedTips (step (run preparedHistory newManager) (ProvideInput m)) = None.
Proof.
  apply (prepared_suggestions_once preparedHistory m (snippetDoc (js "SELECT * FROM tables"))
    [usersItem (Some (mkTextRange 1 15 1 21))]).
  - vm_compute. reflexivity.
  - discriminate.
  - vm_compute. reflexivity.
Defined.

(** The first letter of a name is typed over the placeholder, with text after it. *)
Definition snippetSlot : TrackedSnippetSlot := mkTracked (mkSlot (js "TABLE") 14 20) m 2.
Definition typedDoc (text : jstr) : Doc := mkDoc text 3 15 (15, 15) true.

Lemma slot_follows_typing_witness :
  (getActiveSnippetSlotForRequest m (typedDoc (js "SELECT * FROM u WHERE x"))
     (run (snippetHistory (js "SELECT * FROM tables WHERE x")) newManager)).2 = Some (mkSlot (js "TABLE") 14 15).
Proof.
  pose proof (slot_follows_typing m (typedDoc (js "SELECT * FROM u WHERE x"))
    (run (snippetHistory (js "SELECT * FROM tables WHERE x")) newManager) snippetSlot) as H.
  destruct (getActiveSnippetSlotForRequest m _ _) as [s' seen]. destruct H as [-> _].
  - unfold DocOk. vm_compute. intuition discriminate.
  - apply run_inv, sample_docs_ok. vm_compute. lia.
  - vm_compute. reflexivity.
  - reflexivity.
  - vm_compute. reflexivity.
Defined.

(** A shorter name typed at the end of the text loses its slot. *)
Example slot_lost_at_end :
  let s := run (snippetHistory (js "SELECT * FROM tables")) newManager in
  activeSnippetSlot s = Some snippetSlot ∧
  let '(s', seen) := getActiveSnippetSlotForRequest m (typedDoc (js "SELECT * FROM u")) s in
  seen = None ∧ activeSnippetSlot s' = None.
Proof. vm_compute. done. Qed.

(** The text changes, at the same cursor, while the engine prepares suggestions: the
    list is opened and shows what was found for the text before. *)
Definition staleHistory : list (Input (Hint := nat)) :=
  snippetHistory (js "SELECT * FROM tables") ++
  [DocInput m (mkDoc (js "SELECT * FROM x JOIN") 3 20 (20, 20) true); AnswerInput 1 (Some sampleResult)].

Example stale_suggestions_shown :
  (requestSql <$> requests (run (snippetHistory (js "SELECT * FROM tables")) newManager) !! 1%nat = Some (js "SELECT * FROM tables")) ∧
  outputs (run staleHistory newManager) = [Notified 5 [7%nat]; TriggerSuggest m] ∧
  (value <$> docs (run staleHistory newManager) !! m = Some (js "SELECT * FROM x JOIN")) ∧
  (preparedVersion <$> preparedTips (run staleHistory newManager) = Some 3).
Proof. vm_compute. done. Qed.
