(* ===== verification/EditorSave.v ===== *)
(** * EditorSave: how the text of an editor is kept

    Models the hook [components/SQLEditor/hooks/useSaveEditorData.ts] with
    [store/workspace/utils/savedConsolePersistence.ts] and
    [utils/savedConsoleDirty.ts]: manual and automatic saves of one editor, as drafts
    in the browser's database or as mutations of its console in the coordinator of
    [SavedConsoleMutation], whose other users may mutate the console too.  The
    writes of the database end in the order in which they were asked for, each well
    or not; the service answers a save with the id of the console, or fails.  What
    the hook tells views is left out, and the bound information other than the
    console and its status stays. *)

From S2P Require Import Prelude EditorClose SavedConsoleMutation.
Local Open Scope Z_scope.

(** ** The service *)

(** What the service has for an id: a failed question has the error
    [common.dataNotFound] or another. *)
Inductive SavedConsoleAnswer := ConsoleFound | NoConsole | NotFoundError | OtherError.

Inductive PersistAction := created | updated.

Inductive ServiceCall := GetSavedConsole (id : Z) | CreateConsole (id : Z) | UpdateSavedConsole (id : Z).

(** [persistSavedConsoleRecord]: the calls made and the result, [None] being an
    error.  [create] and [update] are what the service answers. *)
Definition persistSavedConsoleRecord (manually : bool) (id : Z) (answer : SavedConsoleAnswer) (create : option Z) (update : bool)
    : list ServiceCall * option (PersistAction * Z) :=
  let updateIt := ([UpdateSavedConsole id], if update then Some (updated, id) else None) in
  if manually then
    match answer with
    | ConsoleFound => (GetSavedConsole id :: updateIt.1, updateIt.2)
    | NoConsole | NotFoundError => ([GetSavedConsole id; CreateConsole id], (λ n, (created, n)) <$> create)
    | OtherError => ([GetSavedConsole id], None)
    end
  else updateIt.

Definition hasUnsavedSavedConsoleChanges (value : jstr) (hasSavedSqlRecord : bool) (lastSyncValue : jstr) : bool :=
  if negb hasSavedSqlRecord then negb (bool_decide (trim value = [])) else negb (bool_decide (value = lastSyncValue)).

(** ** The editor *)

Inductive ConsoleStatus := DRAFT | RELEASE.

#[export] Instance ConsoleStatus_eq_dec : EqDecision ConsoleStatus.
Proof. solve_decision. Defined.

Record EditorProps := mkProps {
  type : EditorTabType;
  isWorkspace : bool;
  storageId : option jstr;
  isReadOnly : bool;
  defaultValue : jstr;
}.

(** A call that saves; its promise is named by its number. *)
Record SaveCall := mkSaveCall { job : nat; mode : SavedConsoleSaveMode; saved : option jstr }.

(** [value ?? '']. *)
Definition savedText (c : SaveCall) : jstr := default [] (saved c).

(** A mutation of a console: a save of this editor, or a save or a removal by others. *)
Inductive Mutation := OwnSave (call : SaveCall) | ForeignSave (v : jstr) | ForeignRemove.

Definition isForeign (m : Mutation) : bool := match m with OwnSave _ => false | _ => true end.

(** What the service has: the text of each console.  [home] is the console that this
    editor was opened with or saved last, and [disturbed] whether others have saved
    or removed that one since. *)
Record Service := mkService { consoles : gmap Z jstr; home : option Z; disturbed : bool }.

Definition ownSaved (id : Z) (v : jstr) (sv : Service) : Service := mkService (<[id := v]> (consoles sv)) (Some id) false.
Definition foreignSaved (id : Z) (v : jstr) (sv : Service) : Service :=
  mkService (<[id := v]> (consoles sv)) (home sv) (disturbed sv || bool_decide (home sv = Some id)).
Definition foreignRemoved (id : Z) (sv : Service) : Service :=
  mkService (delete id (consoles sv)) (home sv) (disturbed sv || bool_decide (home sv = Some id)).

Inductive DraftOp := SetDraft (call : SaveCall) | DeleteDraft.

(** How a call ended: a rejection counts as [false]. *)
Record SaveAnswer := mkAnswer { answered : SaveCall; ok : bool }.

(** [kept] lists what was ever written, as a draft or by the service, the latest
    last. *)
Record EditorState := mkEditor {
  text : option jstr;
  boundConsoleId : option Z;
  boundStatus : ConsoleStatus;
  effectiveConsoleId : option Z;
  lastSyncConsole : jstr;
  saveStatus : ConsoleStatus;
  autoSave : bool;
  coordinator : Coordinator (Call := Mutation);
  draftOps : list DraftOp;
  draft : option jstr;
  published : Service;
  kept : list jstr;
  answers : list SaveAnswer;
  nextJob : nat;
}.

(** ** The queues of the coordinator *)

Section queues.
Context {Call : Type}.
Implicit Types (c : Coordinator (Call := Call)) (m : Call).

Definition queueOf (k : Z) c : list (Execution (Call := Call)) := queue (getState k c).

Definition consoles_ok c : Prop := ∀ k, console_ok k c.

Lemma queueOf_other k k' o c :
  (match o with OpSave x _ _ | OpRemove x _ _ | OpSettle x _ => x end) = k → k' ≠ k →
  queueOf k' (SavedConsoleMutation.run c o) = queueOf k' c.
Proof. intros Ho Hk. unfold queueOf, getState. rewrite run_states_other; [done|]. congruence. Qed.

Lemma getState_enqueue k (st : SavedConsoleMutationState) e c :
  getState k (enqueue k st e c) =
  mkState (queue st ++ [e]) (generation st) (publishDesired st) (retainDraftBlock st) (pending st + 1).
Proof. unfold getState, enqueue. cbn. by rewrite lookup_insert_eq. Qed.

Lemma queueOf_save k mode m c :
  queueOf k (save k mode m c) = queueOf k c ∧ mode = automatic ∧ publishDesired (getState k c) = false ∨
  ∃ e, queueOf k (save k mode m c) = queueOf k c ++ [e] ∧ call e = m ∧ isCurrent e (getState k (save k mode m c)) = true ∧
    (mode = automatic → publishDesired (getState k c) = true).
Proof.
  unfold queueOf, save. destruct mode.
  - right. eexists. rewrite getState_enqueue. split_and!; [done|done| |done]. unfold isCurrent. cbn. by rewrite Z.eqb_refl.
  - destruct (publishDesired (getState k c)) eqn:E; cbn [negb].
    + right. eexists. rewrite getState_enqueue. split_and!; [done|done| |done]. unfold isCurrent. cbn. by rewrite Z.eqb_refl, E.
    + left. unfold getState at 1. cbn. by rewrite lookup_insert_eq.
Qed.

Lemma queueOf_remove k retain m c : ∃ e, queueOf k (remove k retain m c) = queueOf k c ++ [e] ∧ call e = m.
Proof. unfold queueOf, remove. eexists. by rewrite getState_enqueue. Qed.

(** The end of the head, and whether it is current. *)
Lemma settle_head k b c e rest :
  console_ok k c → queueOf k c = e :: rest →
  queueOf k (settle k b c) = rest ∧
  (b = true → last (outcomes (settle k b c)) = Some (Executed k (call e) (isCurrent e (getState k c)))).
Proof.
  unfold queueOf, getState. intros Hok Hq. destruct (states c !! k) as [[q g pd r n]|] eqn:E; [|done]. cbn in Hq. subst q.
  destruct (Hok _ E) as (Hn & _). cbn in Hn. unfold settle. rewrite E.
  assert (∀ pd' r' c', queue (default newState (states (finish k (mkState rest g pd' r' n) c') !! k)) = rest) as Hf.
  { intros pd' r' c'. unfold finish. cbn. destruct ((n - 1 =? 0) && _) eqn:Et; cbn.
    - apply andb_true_iff in Et as [Et%Z.eqb_eq _]. rewrite lookup_delete_eq. cbn. destruct rest; [done|]. cbn in Hn. lia.
    - by rewrite lookup_insert_eq. }
  destruct b.
  - split; [apply Hf|]. intros _. cbn. by rewrite last_snoc.
  - split; [|done]. destruct (onError_state e rest g pd r n) as (pd' & r' & -> & _). apply Hf.
Qed.
End queues.

Section editor.
Context (p : EditorProps).
Implicit Types (s : EditorState).

Definition withText (t : option jstr) s : EditorState :=
  mkEditor t (boundConsoleId s) (boundStatus s) (effectiveConsoleId s) (lastSyncConsole s) (saveStatus s) (autoSave s) (coordinator s)
    (draftOps s) (draft s) (published s) (kept s) (answers s) (nextJob s).
Definition withBound (id : option Z) (status : ConsoleStatus) (effective : option Z) (current : ConsoleStatus) s : EditorState :=
  mkEditor (text s) id status effective (lastSyncConsole s) current (autoSave s) (coordinator s)
    (draftOps s) (draft s) (published s) (kept s) (answers s) (nextJob s).
Definition withSync (v : jstr) s : EditorState :=
  mkEditor (text s) (boundConsoleId s) (boundStatus s) (effectiveConsoleId s) v (saveStatus s) (autoSave s) (coordinator s)
    (draftOps s) (draft s) (published s) (kept s) (answers s) (nextJob s).
Definition withAutoSave (b : bool) s : EditorState :=
  mkEditor (text s) (boundConsoleId s) (boundStatus s) (effectiveConsoleId s) (lastSyncConsole s) (saveStatus s) b (coordinator s)
    (draftOps s) (draft s) (published s) (kept s) (answers s) (nextJob s).
Definition withCoordinator (c : Coordinator) s : EditorState :=
  mkEditor (text s) (boundConsoleId s) (boundStatus s) (effectiveConsoleId s) (lastSyncConsole s) (saveStatus s) (autoSave s) c
    (draftOps s) (draft s) (published s) (kept s) (answers s) (nextJob s).
Definition withDraftOps (ops : list DraftOp) s : EditorState :=
  mkEditor (text s) (boundConsoleId s) (boundStatus s) (effectiveConsoleId s) (lastSyncConsole s) (saveStatus s) (autoSave s) (coordinator s)
    ops (draft s) (published s) (kept s) (answers s) (nextJob s).
Definition withStore (d : option jstr) (pub : Service) (k : list jstr) s : EditorState :=
  mkEditor (text s) (boundConsoleId s) (boundStatus s) (effectiveConsoleId s) (lastSyncConsole s) (saveStatus s) (autoSave s) (coordinator s)
    (draftOps s) d pub k (answers s) (nextJob s).
Definition withNext (n : nat) s : EditorState :=
  mkEditor (text s) (boundConsoleId s) (boundStatus s) (effectiveConsoleId s) (lastSyncConsole s) (saveStatus s) (autoSave s) (coordinator s)
    (draftOps s) (draft s) (published s) (kept s) (answers s) n.
Definition answer (c : SaveCall) (b : bool) s : EditorState :=
  mkEditor (text s) (boundConsoleId s) (boundStatus s) (effectiveConsoleId s) (lastSyncConsole s) (saveStatus s) (autoSave s) (coordinator s)
    (draftOps s) (draft s) (published s) (kept s) (answers s ++ [mkAnswer c b]) (nextJob s).

(** The hook is mounted with what the database and the service have. *)
Definition mounted (consoleId : option Z) (status : ConsoleStatus) (c : Coordinator) (d : option jstr) (pub : gmap Z jstr) : EditorState :=
  mkEditor (Some []) consoleId status consoleId (defaultValue p) status false c [] d (mkService pub consoleId false) [] [] 0.

Definition isLocalSQLFile : bool := match type p with LocalSQLFile _ => true | _ => false end.
Definition isConsole : bool := match type p with Console => true | _ => false end.

(** The effect of mounting; [draftLoaded] is what follows the read of the draft. *)
Definition loadsDraft s : bool :=
  negb isLocalSQLFile && negb (bool_decide (saveStatus s = RELEASE)) && negb (isReadOnly p) && bool_decide (is_Some (storageId p)).

Definition mountEffect s : EditorState := if loadsDraft s then s else withText (Some (defaultValue p)) s.

Definition draftLoaded (res : option jstr) s : EditorState :=
  match text s with Some [] => withText (Some (default [] res)) s | _ => s end.

(** [saveConsole]; the number of the call is taken. *)
Definition saveConsole (c : SaveCall) s : EditorState :=
  match storageId p with
  | None => answer c true s
  | Some _ =>
      if isReadOnly p then answer c true (withSync (savedText c) s)
      else
        match effectiveConsoleId s with
        | Some k =>
            if isConsole then
              let refused := bool_decide (mode c = automatic) && negb (publishDesired (getState k (coordinator s))) in
              let s := withCoordinator (save k (mode c) (OwnSave c) (coordinator s)) s in
              if refused then withDraftOps (draftOps s ++ [SetDraft c]) s else s
            else withDraftOps (draftOps s ++ [SetDraft c]) s
        | None => withDraftOps (draftOps s ++ [SetDraft c]) s
        end
  end.

Definition saveManually (v : option jstr) s : EditorState :=
  saveConsole (mkSaveCall (nextJob s) manual v) (withNext (S (nextJob s)) s).

Definition persistAutomaticValue s : EditorState :=
  let c := mkSaveCall (nextJob s) automatic (text s) in
  let s := withNext (S (nextJob s)) s in
  if isLocalSQLFile then answer c true s
  else if bool_decide (text s = None) || bool_decide (text s = Some (lastSyncConsole s)) || isReadOnly p then answer c true s
  else
    match storageId p with
    | None => answer c false s
    | Some _ =>
        if bool_decide (saveStatus s = RELEASE) then saveConsole c s else withDraftOps (draftOps s ++ [SetDraft c]) s
    end.

Definition draftSettled (b : bool) s : EditorState :=
  match draftOps s with
  | [] => s
  | SetDraft c :: ops =>
      let s := withDraftOps ops s in
      if b then answer c true (withSync (savedText c) (withStore (Some (savedText c)) (published s) (kept s ++ [savedText c]) s)) else answer c false s
  | DeleteDraft :: ops =>
      let s := withDraftOps ops s in if b then withStore None (published s) (kept s) s else s
  end.

(** What follows a save that is current. *)
Definition saveCurrent (c : SaveCall) (id : Z) s : EditorState :=
  let s := withBound (boundConsoleId s) (boundStatus s) (Some id) RELEASE s in
  let s := withSync (savedText c) (withDraftOps (draftOps s ++ [DeleteDraft]) s) in
  answer c true (match mode c with automatic => s | manual => withAutoSave true s end).

(** The mutation of console [k] in progress ends; [result] is the id that
    [persistSavedConsoleRecord] returned, or [None] when it failed. *)
Definition mutationSettled (k : Z) (result : option Z) s : EditorState :=
  match queue (getState k (coordinator s)) with
  | [] => s
  | e :: _ =>
      let s := withCoordinator (settle k (bool_decide (is_Some result)) (coordinator s)) s in
      match call e with
      | ForeignSave v => match result with Some id => withStore (draft s) (foreignSaved id v (published s)) (kept s) s | None => s end
      | ForeignRemove => match result with Some _ => withStore (draft s) (foreignRemoved k (published s)) (kept s) s | None => s end
      | OwnSave c =>
          match result with
          | None => answer c false s
          | Some id =>
              let s := withStore (draft s) (ownSaved id (savedText c) (published s)) (kept s ++ [savedText c]) s in
              match last (outcomes (coordinator s)) with
              | Some (Executed _ _ true) => saveCurrent c id s
              | _ => answer c true s
              end
          end
      end
  end.

(** Others save or remove a console. *)
Inductive ForeignOp := OthersSave (k : Z) (m : SavedConsoleSaveMode) (v : jstr) | OthersRemove (k : Z) (retain : bool).

Definition foreignMutation (o : ForeignOp) s : EditorState :=
  match o with
  | OthersSave k m v => withCoordinator (save k m (ForeignSave v) (coordinator s)) s
  | OthersRemove k retain => withCoordinator (remove k retain ForeignRemove (coordinator s)) s
  end.

(** The effects of new bound information. *)
Definition boundChanged (id : option Z) (status : ConsoleStatus) s : EditorState :=
  let moved := negb (bool_decide (id = boundConsoleId s)) in
  withBound id status (if moved then id else effectiveConsoleId s)
    (if moved || negb (bool_decide (status = boundStatus s)) then status else saveStatus s) s.

(** The effect of [isActive]. *)
Definition activeChanged (isActive : bool) s : EditorState :=
  if negb (isWorkspace p) then s
  else if isActive then withAutoSave true s else persistAutomaticValue (withAutoSave false s).

Definition tick s : EditorState := if autoSave s then persistAutomaticValue s else s.

Definition unmounted s : EditorState := withText None (withAutoSave false s).

Inductive Input :=
  | MountInput
  | DraftLoadedInput (res : option jstr)
  | TypeInput (v : jstr)
  | SaveInput (v : option jstr)
  | FlushInput
  | TickInput
  | ActiveInput (isActive : bool)
  | BoundInput (id : option Z) (status : ConsoleStatus)
  | DraftInput (b : bool)
  | MutationInput (k : Z) (result : option Z)
  | ForeignInput (o : ForeignOp)
  | UnmountInput.

Definition step s (i : Input) : EditorState :=
  match i with
  | MountInput => mountEffect s
  | DraftLoadedInput res => draftLoaded res s
  | TypeInput v => withText (Some v) s
  | SaveInput v => saveManually v s
  | FlushInput => persistAutomaticValue s
  | TickInput => tick s
  | ActiveInput b => activeChanged b s
  | BoundInput id status => boundChanged id status s
  | DraftInput b => draftSettled b s
  | MutationInput k result => mutationSettled k result s
  | ForeignInput o => foreignMutation o s
  | UnmountInput => unmounted s
  end.

Definition run (inputs : list Input) s : EditorState := fold_left step inputs s.

(** ** What was kept *)

Lemma editor_run_snoc inputs i s : run (inputs ++ [i]) s = step (run inputs s) i.
Proof. unfold run. by rewrite fold_left_app. Qed.

(** The values that need not be written, or were. *)
Definition was_kept s (v : jstr) : Prop := v = defaultValue p ∨ v ∈ kept s.

Record KeptInv s : Prop := mkKept {
  sync_kept : was_kept s (lastSyncConsole s);
  answers_kept : ∀ a v, a ∈ answers s → ok a = true → mode (answered a) = automatic → saved (answered a) = Some v → was_kept s v;
}.

(** What leaves the calls and the stores alone. *)
Definition still s s' : Prop := lastSyncConsole s' = lastSyncConsole s ∧ kept s' = kept s ∧ answers s' = answers s.

Lemma still_kept s s' : still s s' → KeptInv s → KeptInv s'.
Proof. intros (Hl & Hk & Ha) [H1 H2]. split; unfold was_kept; rewrite Hk; [by rewrite Hl|]. rewrite Ha. exact H2. Qed.

Lemma answer_kept c b s :
  KeptInv s → (b = true → mode c = automatic → ∀ v, saved c = Some v → was_kept s v) → KeptInv (answer c b s).
Proof.
  intros [H1 H2] Hc. split; [exact H1|]. intros a v. cbn [answers answer]. rewrite elem_of_app, list_elem_of_singleton.
  intros [Ha| ->]; [by apply H2|]. cbn. intros -> Hm Hv. by apply Hc.
Qed.

Lemma store_kept d pub v s : KeptInv s → KeptInv (withStore d pub (kept s ++ [v]) s).
Proof.
  intros [H1 H2]. assert (∀ w, was_kept s w → was_kept (withStore d pub (kept s ++ [v]) s) w) as Hm.
  { intros w [?|?]; [by left|right]. cbn. apply elem_of_app. by left. }
  split; [by apply Hm|]. intros a w Ha Ho Ht Hw. apply Hm. by eapply H2.
Qed.

Lemma sync_of_kept v s : KeptInv s → was_kept s v → KeptInv (withSync v s).
Proof. intros [H1 H2] Hv. by split. Qed.

Lemma just_kept d pub v s : was_kept (withStore d pub (kept s ++ [v]) s) v.
Proof. right. cbn. apply elem_of_app. right. by apply list_elem_of_singleton. Qed.

Lemma saveConsole_kept c s :
  isReadOnly p = false → (mode c = manual ∨ is_Some (storageId p)) → KeptInv s → KeptInv (saveConsole c s).
Proof.
  intros Hr Hm Hs. unfold saveConsole. rewrite Hr. destruct (storageId p) as [id|].
  - cbv zeta. repeat case_match; (eapply still_kept; [|exact Hs]); done.
  - destruct Hm as [Hm|[? ?]]; [|done]. apply answer_kept; [done|congruence].
Qed.

Lemma persist_kept s : isReadOnly p = false → isLocalSQLFile = false → KeptInv s → KeptInv (persistAutomaticValue s).
Proof.
  intros Hr Hl Hs. unfold persistAutomaticValue. rewrite Hr, Hl. cbv zeta.
  set (s0 := withNext _ s). assert (KeptInv s0) as H0 by (by eapply still_kept; [|exact Hs]).
  change (text s0) with (text s). rewrite orb_false_r. case_test.
  - apply answer_kept; [done|]. cbn. intros _ _ v Hv. apply orb_true_iff in Etest as [E|E]; apply bool_decide_eq_true in E; [congruence|].
    rewrite E in Hv. injection Hv as <-. apply Hs.
  - destruct (storageId p) eqn:Es; [|by apply answer_kept].
    case_test; [apply saveConsole_kept; [done|right; by rewrite Es|done]|]. by eapply still_kept; [|exact H0].
Qed.

Lemma draft_kept b s : KeptInv s → KeptInv (draftSettled b s).
Proof.
  intros Hs. unfold draftSettled. destruct (draftOps s) as [|[c|] ops]; [done| |].
  - cbv zeta. assert (KeptInv (withDraftOps ops s)) as H0 by (by eapply still_kept; [|exact Hs]). destruct b; [|by apply answer_kept].
    apply answer_kept; [apply sync_of_kept; [by apply store_kept|apply just_kept]|].
    intros _ _ v Hv. replace v with (savedText c) by (unfold savedText; by rewrite Hv). apply just_kept.
  - destruct b; (eapply still_kept; [|exact Hs]); done.
Qed.

Lemma mutation_kept k result s : KeptInv s → KeptInv (mutationSettled k result s).
Proof.
  intros Hs. unfold mutationSettled. destruct (queue _) as [|e rest]; [done|]. cbv zeta.
  set (s0 := withCoordinator _ s). assert (KeptInv s0) as H0 by (by eapply still_kept; [|exact Hs]). clearbody s0.
  destruct (call e) as [c|v|]; [|destruct result; by (eapply still_kept; [|exact H0])..].
  destruct result as [id|]; [|by apply answer_kept].
  pose proof (store_kept (draft s0) (ownSaved id (savedText c) (published s0)) (savedText c) s0 H0) as H1.
  pose proof (just_kept (draft s0) (ownSaved id (savedText c) (published s0)) (savedText c) s0) as Hj.
  assert (∀ v, saved c = Some v → v = savedText c) as Hv by (unfold savedText; by intros v ->).
  set (s1 := withStore _ _ _ s0) in *. clearbody s1.
  assert (KeptInv (answer c true s1)) as H2 by (apply answer_kept; [done|]; intros _ _ v ->%Hv; exact Hj).
  destruct (last _) as [[| |]|]; try exact H2. case_match; [|exact H2]. unfold saveCurrent. cbv zeta.
  set (s2 := withSync _ _). assert (KeptInv s2) as H3.
  { apply sync_of_kept; [|exact Hj]. by eapply still_kept; [|exact H1]. }
  apply answer_kept; [destruct (mode c); by eapply still_kept; [|exact H3]|].
  intros _ -> v ->%Hv. exact Hj.
Qed.

Lemma step_kept s i : isReadOnly p = false → isLocalSQLFile = false → KeptInv s → KeptInv (step s i).
Proof.
  intros Hr Hl Hs. destruct i as [|res|v|v| | |b|id status|b|k result|o|]; cbn [step].
  - unfold mountEffect. case_match; [done|]. by eapply still_kept; [|exact Hs].
  - unfold draftLoaded. repeat case_match; by eapply still_kept; [|exact Hs].
  - by eapply still_kept; [|exact Hs].
  - apply saveConsole_kept; [done|by left|]. by eapply still_kept; [|exact Hs].
  - by apply persist_kept.
  - unfold tick. case_match; [by apply persist_kept|done].
  - unfold activeChanged. repeat case_match; [done|by eapply still_kept; [|exact Hs]|].
    apply persist_kept; [done..|]. by eapply still_kept; [|exact Hs].
  - by eapply still_kept; [|exact Hs].
  - by apply draft_kept.
  - by apply mutation_kept.
  - destruct o; by eapply still_kept; [|exact Hs].
  - by eapply still_kept; [|exact Hs].
Qed.

(** An automatic save - of the timer, of leaving the tab, of closing the application - that was answered with [true] had a
    text that is the one the editor was opened with, or was written as a draft or by the service.  So does the text that the
    editor takes for stored. *)
Theorem automatic_saves_kept consoleId status c d pub inputs :
  isReadOnly p = false → isLocalSQLFile = false →
  let s := run inputs (mounted consoleId status c d pub) in
  was_kept s (lastSyncConsole s) ∧
  ∀ a v, a ∈ answers s → ok a = true → mode (answered a) = automatic → saved (answered a) = Some v → was_kept s v.
Proof.
  intros Hr Hl s. assert (KeptInv s) as []; [|done]. subst s. induction inputs as [|i inputs IH] using rev_ind.
  - split; [by left|]. by intros a v Ha%not_elem_of_nil.
  - rewrite editor_run_snoc. by apply step_kept.
Qed.

(** ** Every save is answered *)

(** The call with number [j] is answered, or its write or mutation is waited for. *)
Definition accounted s (j : nat) : Prop :=
  (∃ a, a ∈ answers s ∧ job (answered a) = j) ∨
  (∃ c, SetDraft c ∈ draftOps s ∧ job c = j) ∨
  ∃ k e c, e ∈ queueOf k (coordinator s) ∧ call e = OwnSave c ∧ job c = j.

Definition grows s s' : Prop :=
  answers s ⊆ answers s' ∧ draftOps s ⊆ draftOps s' ∧ ∀ k, queueOf k (coordinator s) ⊆ queueOf k (coordinator s').

#[local] Instance grows_preorder : PreOrder grows.
Proof. split; [by intros s|]. intros a b c (H1 & H2 & H3) (H4 & H5 & H6). split_and!; [set_solver..|]. intros k. etrans; eauto. Qed.

Lemma grows_accounted s s' j : grows s s' → accounted s j → accounted s' j.
Proof.
  intros (H1 & H2 & H3) [(a & Ha & Hj)|[(c & Hc & Hj)|(k & e & c & He & Hc & Hj)]];
    [left; exists a|right; left; exists c|right; right; exists k, e, c]; split_and!; try done; set_solver.
Qed.

Lemma grows_save k m mu s : grows s (withCoordinator (save k m mu (coordinator s)) s).
Proof.
  split_and!; [done|done|]. intros k'. cbn. destruct (decide (k' = k)) as [->|Hk].
  - destruct (queueOf_save k m mu (coordinator s)) as [(-> & _)|(e & -> & _)]; set_solver.
  - change (save k m mu (coordinator s)) with (SavedConsoleMutation.run (coordinator s) (OpSave k m mu)). by rewrite (queueOf_other k).
Qed.

Lemma grows_remove k retain mu s : grows s (withCoordinator (remove k retain mu (coordinator s)) s).
Proof.
  split_and!; [done|done|]. intros k'. cbn. destruct (decide (k' = k)) as [->|Hk].
  - destruct (queueOf_remove k retain mu (coordinator s)) as (e & -> & _); set_solver.
  - change (remove k retain mu (coordinator s)) with (SavedConsoleMutation.run (coordinator s) (OpRemove k retain mu)).
    by rewrite (queueOf_other k).
Qed.

Lemma grows_answer c b s : grows s (answer c b s).
Proof. split_and!; cbn; set_solver. Qed.

Lemma grows_draftOp op s : grows s (withDraftOps (draftOps s ++ [op]) s).
Proof. split_and!; cbn; set_solver. Qed.

Lemma answer_accounted c b s : accounted (answer c b s) (job c).
Proof. left. exists (mkAnswer c b). cbn. split; [set_solver|done]. Qed.

Lemma draftOp_accounted c s : accounted (withDraftOps (draftOps s ++ [SetDraft c]) s) (job c).
Proof. right; left. exists c. cbn. split; [set_solver|done]. Qed.

Lemma saveConsole_accounted c s : grows s (saveConsole c s) ∧ accounted (saveConsole c s) (job c).
Proof.
  unfold saveConsole. destruct (storageId p); [|split; [apply grows_answer|apply answer_accounted]].
  destruct (isReadOnly p); [split; [by etrans; [|apply grows_answer]|apply answer_accounted]|].
  assert (∀ s0, grows s s0 → grows s (withDraftOps (draftOps s0 ++ [SetDraft c]) s0)) as Hd.
  { intros s0 Hg. etrans; [exact Hg|apply grows_draftOp]. }
  destruct (effectiveConsoleId s) as [k|]; [|split; [by apply Hd|apply draftOp_accounted]].
  destruct isConsole; [|split; [by apply Hd|apply draftOp_accounted]]. cbv zeta.
  pose proof (grows_save k (mode c) (OwnSave c) s) as Hg.
  case_test; [split; [by apply Hd|apply draftOp_accounted]|]. split; [exact Hg|].
  destruct (queueOf_save k (mode c) (OwnSave c) (coordinator s)) as [(_ & Hm & Hp)|(e & Hq & He & _)].
  - by rewrite Hm, Hp in Etest.
  - right; right. exists k, e, c. cbn. rewrite Hq. split_and!; [set_solver|done..].
Qed.

Lemma accounted_head op s j :
  accounted s j → (∃ rest, draftOps s = op :: rest) →
  (∃ c, op = SetDraft c ∧ job c = j) ∨ accounted (withDraftOps (tail (draftOps s)) s) j.
Proof.
  intros [Ha|[(c & Hc & Hj)|Hq]] (rest & E); [by right; left| |by right; right; right].
  rewrite E in *. apply elem_of_cons in Hc as [<-|Hc]; [left; by exists c|]. right; right; left. exists c. cbn. done.
Qed.

(** The coordinator is well formed and no call is lost. *)
Record Accounts s : Prop := mkAccounts {
  coordinator_ok : consoles_ok (coordinator s);
  all_accounted : ∀ j, (j < nextJob s)%nat → accounted s j;
}.

Lemma grows_accounts s s' : nextJob s' = nextJob s → consoles_ok (coordinator s') → grows s s' → Accounts s → Accounts s'.
Proof. intros Hn Hc Hg [H1 H2]. split; [done|]. rewrite Hn. intros j Hj. eapply grows_accounted; [exact Hg|by apply H2]. Qed.

Lemma consoles_ok_run o c : @consoles_ok Mutation c → consoles_ok (SavedConsoleMutation.run c o).
Proof. intros Hc k. by apply SavedConsoleMutation.run_ok. Qed.

Lemma saveConsole_ok c s :
  consoles_ok (coordinator s) → consoles_ok (coordinator (saveConsole c s)) ∧ nextJob (saveConsole c s) = nextJob s.
Proof.
  intros Hc. unfold saveConsole. cbv zeta. repeat case_match; cbn; try done;
    (split; [|done]); by apply (consoles_ok_run (OpSave _ _ _)).
Qed.

Lemma new_call s s' :
  Accounts s → nextJob s' = S (nextJob s) → consoles_ok (coordinator s') → grows s s' → accounted s' (nextJob s) → Accounts s'.
Proof.
  intros [H1 H2] Hn Hc Hg Ha. split; [done|]. intros j Hj. destruct (decide (j = nextJob s)) as [->|Hne]; [done|].
  eapply grows_accounted; [exact Hg|]. apply H2. lia.
Qed.

Lemma saveManually_accounts v s : Accounts s → Accounts (saveManually v s).
Proof.
  intros Hs. unfold saveManually. set (c := mkSaveCall (nextJob s) manual v). set (s0 := withNext _ s).
  destruct (saveConsole_accounted c s0) as [Hg Ha]. destruct (saveConsole_ok c s0) as [Hc Hn]; [apply Hs|].
  by apply (new_call s).
Qed.

Lemma persist_accounts s : Accounts s → Accounts (persistAutomaticValue s).
Proof.
  intros Hs. unfold persistAutomaticValue. set (c := mkSaveCall (nextJob s) automatic (text s)). cbv zeta.
  set (s0 := withNext _ s).
  assert (∀ b, Accounts (answer c b s0)) as Hb.
  { intros b. apply (new_call s); [done|done|apply Hs|apply (grows_answer c b s0)|apply (answer_accounted c)]. }
  destruct isLocalSQLFile; [apply Hb|]. case_test; [apply Hb|]. destruct (storageId p); [|apply Hb]. case_test.
  - destruct (saveConsole_accounted c s0) as [Hg Ha]. destruct (saveConsole_ok c s0) as [Hc Hn]; [apply Hs|].
    by apply (new_call s).
  - apply (new_call s); [done|done|apply Hs|apply (grows_draftOp _ s0)|apply (draftOp_accounted c)].
Qed.

Lemma draftSettled_accounts b s : Accounts s → Accounts (draftSettled b s).
Proof.
  intros [Hc Ha]. unfold draftSettled. destruct (draftOps s) as [|op ops] eqn:E; [done|].
  assert (∀ j, (j < nextJob s)%nat → (∃ c, op = SetDraft c ∧ job c = j) ∨ accounted (withDraftOps ops s) j) as Hj.
  { intros j Hj. replace ops with (tail (draftOps s)) by (by rewrite E). apply accounted_head; eauto. }
  destruct op as [c|]; cbv zeta.
  - assert (∀ s', grows (withDraftOps ops s) s' → coordinator s' = coordinator s → nextJob s' = nextJob s → Accounts (answer c b s')) as Hd.
    { intros s' Hg Hc' Hn. split; [cbn; by rewrite Hc'|]. intros j. cbn. rewrite Hn. intros Hlt.
      destruct (Hj j Hlt) as [(c' & [= <-] & <-)|Hp]; [apply answer_accounted|].
      eapply grows_accounted; [|exact Hp]. etrans; [exact Hg|apply grows_answer]. }
    destruct b; by apply Hd.
  - assert (Accounts (withDraftOps ops s)) as Hd.
    { split; [done|]. intros j Hlt. destruct (Hj j Hlt) as [(c & Hx & _)|Hp]; done. }
    destruct b; [|exact Hd]. by eapply grows_accounts; [| | |exact Hd].
Qed.

Lemma mutationSettled_accounts k result s : Accounts s → Accounts (mutationSettled k result s).
Proof.
  intros [Hc Ha]. unfold mutationSettled. destruct (queue (getState k (coordinator s))) as [|e rest] eqn:E; [done|]. cbv zeta.
  set (b := bool_decide _). set (s0 := withCoordinator _ s).
  destruct (settle_head k b (coordinator s) e rest (Hc k) E) as [Hq _].
  assert (consoles_ok (coordinator s0)) as Hc0 by (by apply (consoles_ok_run (OpSettle k b))).
  assert (∀ j, (j < nextJob s)%nat → (∃ c, call e = OwnSave c ∧ job c = j) ∨ accounted s0 j) as Hj.
  { intros j Hlt. destruct (Ha j Hlt) as [Hx|[Hx|(k' & e' & c & He & Hcall & Hjob)]]; [by right; left|by right; right; left|].
    destruct (decide (k' = k)) as [->|Hk].
    - unfold queueOf in He. rewrite E in He. apply elem_of_cons in He as [->|He]; [left; by exists c|].
      right; right; right. exists k, e', c. cbn. rewrite Hq. done.
    - right; right; right. exists k', e', c. cbn. change (settle k b (coordinator s)) with (SavedConsoleMutation.run (coordinator s) (OpSettle k b)).
      by rewrite (queueOf_other k). }
  assert (coordinator s0 = settle k b (coordinator s) ∧ nextJob s0 = nextJob s) as [Es0 Hn0] by done.
  clearbody s0. destruct (call e) as [c|v|].
  - assert (∀ s' b', grows s0 s' → consoles_ok (coordinator s') → nextJob s' = nextJob s → Accounts (answer c b' s')) as Hd.
    { intros s' b' Hg Hc' Hn. split; [done|]. intros j. cbn. rewrite Hn. intros Hlt.
      destruct (Hj j Hlt) as [(c' & [= <-] & <-)|Hp]; [apply answer_accounted|].
      eapply grows_accounted; [|exact Hp]. etrans; [exact Hg|apply grows_answer]. }
    destruct result as [id|]; [|by apply Hd].
    assert (∀ s1, grows s0 s1 → consoles_ok (coordinator s1) → nextJob s1 = nextJob s → Accounts (saveCurrent c id s1)) as Hs.
    { intros s1 Hg Hc1 Hn1. unfold saveCurrent. cbv zeta. apply Hd.
      - etrans; [exact Hg|]. destruct (mode c); split_and!; cbn; set_solver.
      - by destruct (mode c).
      - by destruct (mode c). }
    destruct (last _) as [[]|]; try case_match; first [by apply Hd | by apply Hs].
  - assert (Accounts s0) as H0 by (split; [done|]; intros j; rewrite Hn0; intros Hlt; destruct (Hj j Hlt) as [(c & Hx & _)|Hp]; done).
    destruct result; [by apply (grows_accounts s0)|done].
  - assert (Accounts s0) as H0 by (split; [done|]; intros j; rewrite Hn0; intros Hlt; destruct (Hj j Hlt) as [(c & Hx & _)|Hp]; done).
    destruct result; [by apply (grows_accounts s0)|done].
Qed.

Lemma step_accounts s i : Accounts s → Accounts (step s i).
Proof.
  intros Hs. assert (∀ s', grows s s' → coordinator s' = coordinator s → nextJob s' = nextJob s → Accounts s') as Hk.
  { intros s' Hg Hc Hn. apply (grows_accounts s); [done| |done|done]. rewrite Hc. apply Hs. }
  destruct i as [|res|v|v| | |b|id status|b|k result|o|]; cbn [step].
  - unfold mountEffect. case_match; [done|]. by apply Hk.
  - unfold draftLoaded. repeat case_match; by apply Hk.
  - by apply Hk.
  - by apply saveManually_accounts.
  - by apply persist_accounts.
  - unfold tick. case_match; [by apply persist_accounts|done].
  - unfold activeChanged. repeat case_match; [done|by apply Hk|]. apply persist_accounts. by apply Hk.
  - by apply Hk.
  - by apply draftSettled_accounts.
  - by apply mutationSettled_accounts.
  - destruct o as [k m v|k r]; cbn [foreignMutation].
    + apply (grows_accounts s); [done|apply (consoles_ok_run (OpSave k m (ForeignSave v))), Hs|apply grows_save|done].
    + apply (grows_accounts s); [done|apply (consoles_ok_run (OpRemove k r ForeignRemove)), Hs|apply grows_remove|done].
  - by apply Hk.
Qed.

(** C13: every save is answered.  Whatever happens and whatever fails, with whatever mutations others made of the console
    before and in between, once no write of the database and no mutation is waited for, each call of the editor's saves has
    been answered. *)
Theorem saves_answered consoleId status ops d pub inputs :
  let s := run inputs (mounted consoleId status (fold_left SavedConsoleMutation.run ops newCoordinator) d pub) in
  draftOps s = [] → (∀ k, queueOf k (coordinator s) = []) →
  ∀ j, (j < nextJob s)%nat → ∃ a, a ∈ answers s ∧ job (answered a) = j.
Proof.
  intros s Hd Hq j Hj. assert (Accounts s) as Hs.
  { subst s. clear Hd Hq Hj. induction inputs as [|i inputs IH] using rev_ind.
    - split; [|intros; cbn in *; lia]. intros k. cbn. apply runs_console_ok. by intros st.
    - rewrite editor_run_snoc. by apply step_accounts. }
  destruct (all_accounted s Hs j Hj) as [?|[(c & Hc & _)|(k & e & c & He & _)]]; [done| |].
  - rewrite Hd in Hc. by apply not_elem_of_nil in Hc.
  - rewrite Hq in He. by apply not_elem_of_nil in He.
Qed.

(** ** What is stored *)

(** The service has the text for the console that was saved last, unless others have changed that console since. *)
Definition atService (sv : Service) (v : jstr) : Prop := ∃ id, home sv = Some id ∧ (disturbed sv = true ∨ consoles sv !! id = Some v).

(** The draft or the console's text at the service. *)
Definition held s (v : jstr) : Prop := draft s = Some v ∨ atService (published s) v.

Lemma ownSaved_at id v sv : atService (ownSaved id v sv) v.
Proof. exists id. cbn. rewrite lookup_insert_eq. split; [done|by right]. Qed.

Lemma foreignSaved_at id w sv v : atService sv v → atService (foreignSaved id w sv) v.
Proof.
  intros (k & Hk & Hv). exists k. cbn. rewrite Hk. split; [done|]. destruct (decide (k = id)) as [->|Hne].
  - left. by rewrite bool_decide_eq_true_2, orb_true_r by done.
  - rewrite lookup_insert_ne by done. destruct Hv as [->|Hv]; [by left|by right].
Qed.

Lemma foreignRemoved_at id sv v : atService sv v → atService (foreignRemoved id sv) v.
Proof.
  intros (k & Hk & Hv). exists k. cbn. rewrite Hk. split; [done|]. destruct (decide (k = id)) as [->|Hne].
  - left. by rewrite bool_decide_eq_true_2, orb_true_r by done.
  - rewrite lookup_delete_ne by done. destruct Hv as [->|Hv]; [by left|by right].
Qed.

Definition quietQueues s : Prop := ∀ k, queueOf k (coordinator s) = [].

Definition quiet s : Prop := draftOps s = [] ∧ quietQueues s.

(** Inputs that may begin a save or another mutation. *)
Definition starts (i : Input) : bool :=
  match i with SaveInput _ | FlushInput | TickInput | ActiveInput _ | ForeignInput _ => true | _ => false end.

(** Saves and mutations begin only when nothing is waited for. *)
Fixpoint oneAtATime (inputs : list Input) s : Prop :=
  match inputs with
  | [] => True
  | i :: rest => (starts i = true → quiet s) ∧ oneAtATime rest (step s i)
  end.

(** What is waited for: nothing, a write of the database, or one mutation, which is
    current when it is a save. *)
Inductive Waiting s : Prop :=
  | WaitsNot : quiet s → Waiting s
  | WaitsDraft c : draftOps s = [SetDraft c] → quietQueues s → Waiting s
  | WaitsDelete : draftOps s = [DeleteDraft] → quietQueues s → atService (published s) (lastSyncConsole s) → Waiting s
  | WaitsMutation k e : draftOps s = [] → queueOf k (coordinator s) = [e] → (∀ k', k' ≠ k → queueOf k' (coordinator s) = []) →
      (isForeign (call e) = false → isCurrent e (getState k (coordinator s)) = true) → Waiting s.

Record StoredInv s : Prop := mkStored {
  queues_ok : consoles_ok (coordinator s);
  sync_held : held s (lastSyncConsole s);
  waiting : Waiting s;
}.

Definition sameStore s s' : Prop :=
  lastSyncConsole s' = lastSyncConsole s ∧ draft s' = draft s ∧ published s' = published s ∧ coordinator s' = coordinator s ∧
  draftOps s' = draftOps s.

Lemma sameStore_inv s s' : sameStore s s' → StoredInv s → StoredInv s'.
Proof.
  intros (H1 & H2 & H3 & H4 & H5) [Hc Hs Hw]. split; [by rewrite H4|unfold held; by rewrite H1, H2, H3|].
  destruct Hw as [[Hd Hq]|c Hd Hq|Hd Hq Hp|k e Hd Hk Ho He].
  - apply WaitsNot. split; [by rewrite H5|]. intros k. by rewrite H4.
  - apply (WaitsDraft _ c); [by rewrite H5|]. intros k. by rewrite H4.
  - apply WaitsDelete; [by rewrite H5|intros k; by rewrite H4|by rewrite H1, H3].
  - apply (WaitsMutation _ k e); [by rewrite H5|by rewrite H4..].
Qed.

Lemma saveConsole_stored c s : isReadOnly p = false → quiet s → StoredInv s → StoredInv (saveConsole c s).
Proof.
  intros Hr [Hd Hq] Hs. unfold saveConsole. rewrite Hr. destruct (storageId p); [|by apply (sameStore_inv s)].
  assert (∀ s0, lastSyncConsole s0 = lastSyncConsole s → draft s0 = draft s → published s0 = published s → draftOps s0 = [] →
            quietQueues s0 → consoles_ok (coordinator s0) → StoredInv (withDraftOps (draftOps s0 ++ [SetDraft c]) s0)) as Hw.
  { intros s0 H1 H2 H3 H4 H5 H6. split; [done| |apply (WaitsDraft _ c); [cbn; by rewrite H4|done]].
    unfold held. cbn. rewrite H1, H2, H3. apply Hs. }
  pose proof (queues_ok s Hs) as Hc.
  destruct (effectiveConsoleId s) as [k|]; [|by apply Hw]. destruct isConsole; [|by apply Hw]. cbv zeta.
  assert (consoles_ok (save k (mode c) (OwnSave c) (coordinator s))) as Hc' by (by apply (consoles_ok_run (OpSave k (mode c) (OwnSave c)))).
  assert (∀ k', k' ≠ k → queueOf k' (save k (mode c) (OwnSave c) (coordinator s)) = []) as Ho.
  { intros k' Hk. change (save k (mode c) (OwnSave c) (coordinator s))
      with (SavedConsoleMutation.run (coordinator s) (OpSave k (mode c) (OwnSave c))). by rewrite (queueOf_other k). }
  destruct (queueOf_save k (mode c) (OwnSave c) (coordinator s)) as [(Hk & Hm & Hp)|(e & Hk & He & Hcur & Hp)].
  - rewrite bool_decide_eq_true_2 by done. rewrite Hp. apply Hw; try done. intros k'. cbn.
    destruct (decide (k' = k)) as [->|Hne]; [by rewrite Hk|by apply Ho].
  - replace (bool_decide (mode c = automatic) && negb (publishDesired (getState k (coordinator s)))) with false.
    + split; [done|by apply (sync_held s)|]. apply (WaitsMutation _ k e); [done|cbn; by rewrite Hk, (Hq k)|done|done].
    + case_bool_decide as Em; [|done]. by rewrite (Hp Em).
Qed.

Lemma persist_stays_stored s : isReadOnly p = false → quiet s → StoredInv s → StoredInv (persistAutomaticValue s).
Proof.
  intros Hr Hq Hs. unfold persistAutomaticValue. cbv zeta. set (c := mkSaveCall _ _ _). set (s0 := withNext _ s).
  assert (StoredInv s0) as H0 by (by apply (sameStore_inv s)).
  assert (∀ b, StoredInv (answer c b s0)) as Hb by (intros b; by apply (sameStore_inv s0)).
  destruct isLocalSQLFile; [apply Hb|]. case_test; [apply Hb|]. destruct (storageId p); [|apply Hb].
  case_test; [by apply saveConsole_stored|]. destruct Hq as [Hd Hq].
  split; [apply H0|apply (sync_held s0 H0)|]. apply (WaitsDraft _ c); [cbn; by rewrite Hd|done].
Qed.

Lemma draftSettled_stored b s : StoredInv s → StoredInv (draftSettled b s).
Proof.
  intros [Hc Hs Hw]. unfold draftSettled. destruct Hw as [[Hd Hq]|c Hd Hq|Hd Hq Hp|k e Hd Hk Ho He]; rewrite Hd; cbv zeta.
  - split; [done|done|by apply WaitsNot].
  - destruct b; (split; [exact Hc| |by apply WaitsNot]); [by left|exact Hs].
  - destruct b; (split; [exact Hc| |by apply WaitsNot]); [by right|exact Hs].
  - split; [done|done|by apply (WaitsMutation _ k e)].
Qed.

Lemma mutationSettled_stored k result s : StoredInv s → StoredInv (mutationSettled k result s).
Proof.
  intros Hs. unfold mutationSettled. destruct (queue (getState k (coordinator s))) as [|e rest] eqn:E; [done|]. cbv zeta.
  destruct Hs as [Hc Hh Hw]. fold (queueOf k (coordinator s)) in E.
  assert (draftOps s = [] ∧ rest = [] ∧ (∀ k', k' ≠ k → queueOf k' (coordinator s) = []) ∧
          (isForeign (call e) = false → isCurrent e (getState k (coordinator s)) = true)) as (Hd & -> & Ho & Hcur).
  { destruct Hw as [[Hd Hq]|c Hd Hq|Hd Hq Hp|k0 e0 Hd Hk Ho He]; [by rewrite Hq in E..|].
    destruct (decide (k = k0)) as [->|Hne]; [|by rewrite Ho in E]. rewrite Hk in E. injection E as <- <-. done. }
  set (b := bool_decide _). set (s0 := withCoordinator _ s).
  destruct (settle_head k b (coordinator s) e [] (Hc k) E) as [Hk Hlast].
  assert (consoles_ok (coordinator s0)) as Hc0 by (by apply (consoles_ok_run (OpSettle k b))).
  assert (quietQueues s0) as Hq0.
  { intros k'. cbn. destruct (decide (k' = k)) as [->|Hne]; [exact Hk|].
    change (settle k b (coordinator s)) with (SavedConsoleMutation.run (coordinator s) (OpSettle k b)). rewrite (queueOf_other k); auto. }
  assert (StoredInv s0) as H0 by (split; [done|exact Hh|by apply WaitsNot]).
  assert (∀ sv, atService sv (lastSyncConsole s) ∨ draft s = Some (lastSyncConsole s) → StoredInv (withStore (draft s0) sv (kept s0) s0)) as Hforeign.
  { intros sv Hsv. split; [done|unfold held; cbn; tauto|by apply WaitsNot]. }
  destruct (call e) as [c|v|] eqn:Ecall.
  2, 3: destruct result as [id|]; [|exact H0]; apply Hforeign; destruct Hh; [by right|left; by first [apply foreignSaved_at|apply foreignRemoved_at]].
  destruct result as [id|]; [|by apply (sameStore_inv s0)].
  cbn [coordinator withStore s0 withCoordinator]. rewrite Hlast by done. rewrite Hcur by done. unfold saveCurrent. cbv zeta.
  match goal with |- StoredInv (answer _ _ ?x) => set (s1 := x) end.
  assert (lastSyncConsole s1 = savedText c ∧ published s1 = ownSaved id (savedText c) (published s0) ∧ draftOps s1 = [DeleteDraft] ∧ coordinator s1 = coordinator s0)
    as (H1 & H2 & H3 & H4).
  { subst s1. destruct (mode c); cbn; by rewrite Hd. }
  apply (sameStore_inv s1); [done|]. clearbody s1. split; [by rewrite H4|right; rewrite H1, H2; apply ownSaved_at|].
  apply WaitsDelete; [done| |rewrite H1, H2; apply ownSaved_at]. intros k'. by rewrite H4.
Qed.

Lemma step_stored s i : isReadOnly p = false → (starts i = true → quiet s) → StoredInv s → StoredInv (step s i).
Proof.
  intros Hr Hi Hs. destruct i as [|res|v|v| | |b|id status|b|k result|o|]; cbn [step].
  - unfold mountEffect. case_match; [done|by apply (sameStore_inv s)].
  - unfold draftLoaded. repeat case_match; by apply (sameStore_inv s).
  - by apply (sameStore_inv s).
  - apply saveConsole_stored; [done|by apply Hi|by apply (sameStore_inv s)].
  - apply persist_stays_stored; auto.
  - unfold tick. case_match; [apply persist_stays_stored; auto|done].
  - unfold activeChanged. repeat case_match; [done|by apply (sameStore_inv s)|].
    apply persist_stays_stored; [done|by apply Hi|by apply (sameStore_inv s)].
  - by apply (sameStore_inv s).
  - by apply draftSettled_stored.
  - by apply mutationSettled_stored.
  - destruct (Hi eq_refl) as [Hd Hq].
    assert (∀ k o' c', c' = SavedConsoleMutation.run (coordinator s) o' →
      (match o' with OpSave x _ _ | OpRemove x _ _ | OpSettle x _ => x end) = k →
      (queueOf k c' = [] ∨ ∃ e, queueOf k c' = [e] ∧ isForeign (call e) = true) → StoredInv (withCoordinator c' s)) as Hf.
    { intros k o' c' -> Hk Hc. split; [by apply consoles_ok_run, Hs|by apply (sync_held s)|].
      assert (∀ k', k' ≠ k → queueOf k' (SavedConsoleMutation.run (coordinator s) o') = []) as Ho.
      { intros k' Hne. by rewrite (queueOf_other k). }
      destruct Hc as [Hc|(e & Hc & He)]; [apply WaitsNot|apply (WaitsMutation _ k e); try done; by rewrite He].
      split; [done|]. intros k'. destruct (decide (k' = k)) as [->|Hne]; [done|by apply Ho]. }
    destruct o as [k m v|k r]; cbn [foreignMutation].
    + apply (Hf k (OpSave k m (ForeignSave v))); [done..|].
      destruct (queueOf_save k m (ForeignSave v) (coordinator s)) as [(-> & _)|(e & Hk & He & _)]; [by left|right].
      exists e. by rewrite Hk, (Hq k), He.
    + apply (Hf k (OpRemove k r ForeignRemove)); [done..|].
      destruct (queueOf_remove k r ForeignRemove (coordinator s)) as (e & Hk & He). right. exists e. by rewrite Hk, (Hq k), He.
  - by apply (sameStore_inv s).
Qed.

(** C6: nothing that the editor takes for stored is lost, as long as no save or removal of a console, its own or by others, begins
    before the one before it has ended: whatever fails, at any time a saved text without unsaved changes, for which closing the
    editor does not ask, is the draft in the database or the text that the service has for the console it was opened with or
    saved to last, unless others have saved or removed that console since: then only they know what is there. *)
Theorem synchronised_text_stored consoleId status ops d pub inputs :
  let c := fold_left SavedConsoleMutation.run ops newCoordinator in
  let s := run inputs (mounted consoleId status c d pub) in
  isReadOnly p = false → (∀ k, queueOf k c = []) → d = Some (defaultValue p) ∨ (∃ id, consoleId = Some id ∧ pub !! id = Some (defaultValue p)) →
  oneAtATime inputs (mounted consoleId status c d pub) →
  ∀ v, hasUnsavedSavedConsoleChanges v true (lastSyncConsole s) = false →
  draft s = Some v ∨ ∃ id, home (published s) = Some id ∧ (disturbed (published s) = true ∨ consoles (published s) !! id = Some v).
Proof.
  intros c s Hr Hq Hh Hone v Hv. unfold hasUnsavedSavedConsoleChanges in Hv. apply negb_false_iff, bool_decide_eq_true in Hv as ->.
  assert (StoredInv s) as Hs; [|by apply (sync_held s)]. subst s.
  assert (StoredInv (mounted consoleId status c d pub)) as H0.
  { split; [|destruct Hh as [Hh|(id & Hi & Hp)]; [by left|right; exists id; split; [done|by right]]|by apply WaitsNot].
    intros k. apply runs_console_ok. by intros st. }
  revert Hone H0. generalize (mounted consoleId status c d pub). induction inputs as [|i inputs IH]; intros s Hone H0; [done|].
  destruct Hone as [Hi Hone]. cbn. apply IH; [done|]. by apply step_stored.
Qed.
End editor.

(** ** Concrete editors *)

Definition sampleProps : EditorProps := mkProps Console true (Some (js "tab")) false [].
Definition newConsole : EditorState := mounted sampleProps (Some 7) DRAFT newCoordinator (Some []) ∅.

(** A text is typed, stored as a draft by the timer, and saved by the user. *)
Definition sampleInputs : list Input :=
  [MountInput; ActiveInput true; TypeInput (js "a"); TickInput; DraftInput true; TypeInput (js "ab"); SaveInput (Some (js "ab"));
   MutationInput 7 (Some 7); DraftInput true].

Lemma automatic_saves_kept_witness :
  let s := run sampleProps sampleInputs newConsole in
  answers s = [mkAnswer (mkSaveCall 0 automatic (Some (js "a"))) true; mkAnswer (mkSaveCall 1 manual (Some (js "ab"))) true] ∧
  was_kept sampleProps s (js "a").
Proof.
  assert (answers (run sampleProps sampleInputs newConsole) =
    [mkAnswer (mkSaveCall 0 automatic (Some (js "a"))) true; mkAnswer (mkSaveCall 1 manual (Some (js "ab"))) true]) as E
    by (vm_compute; reflexivity).
  split; [exact E|].
  apply (automatic_saves_kept sampleProps (Some 7) DRAFT newCoordinator (Some []) ∅ sampleInputs eq_refl eq_refl)
    with (a := mkAnswer (mkSaveCall 0 automatic (Some (js "a"))) true); [|reflexivity..].
  fold newConsole. rewrite E. apply elem_of_cons. by left.
Defined.

Lemma saves_answered_witness :
  ∃ a, a ∈ answers (run sampleProps sampleInputs newConsole) ∧ job (answered a) = 1%nat.
Proof.
  apply (saves_answered sampleProps (Some 7) DRAFT [] (Some []) ∅ sampleInputs).
  - vm_compute. reflexivity.
  - intros k. vm_compute. reflexivity.
  - vm_compute. lia.
Defined.

Lemma synchronised_text_stored_witness :
  let s := run sampleProps sampleInputs newConsole in
  draft s = Some (js "ab") ∨ ∃ id, home (published s) = Some id ∧ (disturbed (published s) = true ∨ consoles (published s) !! id = Some (js "ab")).
Proof.
  apply (synchronised_text_stored sampleProps (Some 7) DRAFT [] (Some []) ∅ sampleInputs);
    [reflexivity|intros k; reflexivity|by left| |vm_compute; reflexivity].
  unfold sampleInputs. cbn [oneAtATime].
  repeat (split; [intros H; first [discriminate H | split; [vm_compute; reflexivity|intros k; vm_compute; reflexivity]]|]). exact I.
Defined.

(** The timer fires while a save ends: the deletion of the draft removes the newer
    draft, and the editor takes its text for stored. *)
Definition overlapping : list Input :=
  [MountInput; ActiveInput true; TypeInput (js "a"); SaveInput (Some (js "a")); TypeInput (js "ab"); TickInput; MutationInput 7 (Some 7);
   DraftInput true; DraftInput true; FlushInput].

Example newer_draft_deleted :
  let s := run sampleProps overlapping newConsole in
  text s = Some (js "ab") ∧ lastSyncConsole s = js "ab" ∧ draft s = None ∧ consoles (published s) !! 7 = Some (js "a") ∧
  ok <$> answers s = [true; true; true].
Proof. vm_compute. done. Qed.

(** A draft is loaded and its text deleted: nothing is written, and the draft is
    there again the next time. *)
Example cleared_draft_returns :
  let s := run sampleProps [MountInput; DraftLoadedInput (Some (js "a")); TypeInput []; FlushInput]
             (mounted sampleProps (Some 7) DRAFT newCoordinator (Some (js "a")) ∅) in
  text s = Some [] ∧ draft s = Some (js "a") ∧ draftOps s = [] ∧ ok <$> answers s = [true].
Proof. vm_compute. done. Qed.
