(* ===== verification/RegExps.v ===== *)
(** * RegExps: regular expressions

    The regular expressions of the language, as far as the connection forms use
    them: literal texts, classes of characters, greedy repetitions of a class,
    optional parts and groups.  A match is found by backtracking in the order of the
    language, with what follows as a continuation. *)

From S2P Require Import Prelude SqlText.
Local Open Scope nat_scope.

Inductive RegExp :=
  | Lit (text : jstr)
  | One (class : N → bool)
  | Many (class : N → bool)
  | Cat (a b : RegExp)
  | Maybe (a : RegExp)
  | Group (n : nat) (a : RegExp).

Definition Plus (class : N → bool) : RegExp := Cat (One class) (Many class).

(** [.], [\d], [[\w-]] and [\S]. *)
Definition anyChar (c : N) : bool := negb (includes c [10; 13; 8232; 8233]%N).
Definition wordDash (c : N) : bool := is_word_char c || (c =? ch "-")%N.
Definition notSpace (c : N) : bool := negb (is_space c).

(** What the groups matched, the latest first. *)
Definition Captures := list (nat * jstr).

Definition capture (n : nat) (caps : Captures) : option jstr := snd <$> List.find (λ p, p.1 =? n) caps.

Fixpoint matchMany {R} (f : N → bool) (s : jstr) (k : jstr → option R) : option R :=
  match s with
  | c :: s' => if f c then match matchMany f s' k with Some x => Some x | None => k s end else k s
  | [] => k s
  end.

(** The match of [r] at the beginning of [s]. *)
Fixpoint matchAt {R} (r : RegExp) (s : jstr) (caps : Captures) (k : jstr → Captures → option R) : option R :=
  match r with
  | Lit t => if startsWith t s then k (drop (length t) s) caps else None
  | One f => match s with c :: s' => if f c then k s' caps else None | [] => None end
  | Many f => matchMany f s (λ s', k s' caps)
  | Cat a b => matchAt a s caps (λ s' caps', matchAt b s' caps' k)
  | Maybe a =>
      match matchAt a s caps (λ s' caps', if length s' =? length s then None else k s' caps') with
      | Some x => Some x
      | None => k s caps
      end
  | Group n a => matchAt a s caps (λ s' caps', k s' ((n, take (length s - length s') s) :: caps'))
  end.

(** [text.match(r)]: the groups of the first match. *)
Fixpoint matchRegExp (r : RegExp) (s : jstr) : option Captures :=
  match matchAt r s [] (λ _ caps, Some caps) with
  | Some caps => Some caps
  | None => match s with [] => None | _ :: s' => matchRegExp r s' end
  end.

Definition testRegExp (r : RegExp) (s : jstr) : bool := bool_decide (is_Some (matchRegExp r s)).

(** ** Lemmas *)

Lemma matchRegExp_at r s caps : matchAt r s [] (λ _ caps, Some caps) = Some caps → matchRegExp r s = Some caps.
Proof. intros H. destruct s; cbn [matchRegExp]; by rewrite H. Qed.

Lemma matchAt_lit {R} t s caps (k : jstr → Captures → option R) : matchAt (Lit t) (t ++ s) caps k = k s caps.
Proof. cbn. by rewrite startsWith_app, drop_app_length. Qed.

Lemma matchMany_none {R} f s (k : jstr → option R) : (∀ a b, s = a ++ b → k b = None) → matchMany f s k = None.
Proof.
  induction s as [|c s IH]; intros H; cbn; [by apply (H [])|]. rewrite (H [] (c :: s)) by done.
  case_match; [|done]. rewrite IH; [done|]. intros a b ->. by apply (H (c :: a)).
Qed.

(** A greedy repetition ends at the last place where what follows matches. *)
Lemma matchMany_last {R} f a b (k : jstr → option R) x :
  Forall (λ c, f c = true) a → k b = Some x → (∀ a2 b2, b = a2 ++ b2 → a2 ≠ [] → k b2 = None) →
  matchMany f (a ++ b) k = Some x.
Proof.
  intros Ha Hk Hlast. induction Ha as [|c a Hc Ha IH]; cbn.
  - destruct b as [|c b]; cbn; [done|]. rewrite matchMany_none; [by case_match|].
    intros a2 b2 ->. by apply (Hlast (c :: a2)).
  - by rewrite Hc, IH.
Qed.

(** ... and, when it cannot go on, at the end of the class. *)
Lemma matchMany_all {R} f a b (k : jstr → option R) x :
  Forall (λ c, f c = true) a → k b = Some x → (∀ c, head b = Some c → f c = false) →
  matchMany f (a ++ b) k = Some x.
Proof.
  intros Ha Hk Hb. induction Ha as [|c a Hc Ha IH]; cbn; [|by rewrite Hc, IH].
  destruct b as [|c b]; cbn; [done|]. by rewrite (Hb c).
Qed.

Lemma matchMany_end {R} f a (k : jstr → option R) x : Forall (λ c, f c = true) a → k [] = Some x → matchMany f a k = Some x.
Proof. intros Ha Hk. rewrite <- (app_nil_r a). by apply matchMany_all. Qed.

Lemma taken {A} (a b : list A) : take (length (a ++ b) - length b) (a ++ b) = a.
Proof. rewrite length_app. replace (length a + length b - length b) with (length a) by lia. apply take_app_length. Qed.

Lemma taken_all {A} (a : list A) : take (length a - 0) a = a.
Proof. by rewrite Nat.sub_0_r, firstn_all. Qed.

Lemma capture_cons n m t caps : capture n ((m, t) :: caps) = if m =? n then Some t else capture n caps.
Proof. unfold capture. cbn. by case_match. Qed.

(** ** What a match consists of *)

Inductive Matches : RegExp → jstr → Captures → Captures → Prop :=
  | Matches_Lit t caps : Matches (Lit t) t caps caps
  | Matches_One f c caps : f c = true → Matches (One f) [c] caps caps
  | Matches_Many f m caps : Forall (λ c, f c = true) m → Matches (Many f) m caps caps
  | Matches_Cat a b m1 m2 caps1 caps2 caps3 :
      Matches a m1 caps1 caps2 → Matches b m2 caps2 caps3 → Matches (Cat a b) (m1 ++ m2) caps1 caps3
  | Matches_none a caps : Matches (Maybe a) [] caps caps
  | Matches_Maybe a m caps caps' : m ≠ [] → Matches a m caps caps' → Matches (Maybe a) m caps caps'
  | Matches_Group n a m caps caps' : Matches a m caps caps' → Matches (Group n a) m caps ((n, m) :: caps').

Lemma matchMany_sound {R} f s (k : jstr → option R) x :
  matchMany f s k = Some x → ∃ m s', s = m ++ s' ∧ Forall (λ c, f c = true) m ∧ k s' = Some x.
Proof.
  induction s as [|c s IH]; cbn; [by exists [], []|]. destruct (f c) eqn:Ec; [|by exists [], (c :: s)].
  destruct (matchMany f s k) eqn:Em; [|by exists [], (c :: s)].
  intros [= <-]. destruct (IH eq_refl) as (m & s' & -> & Hm & Hk). exists (c :: m), s'. split_and!; [done|by constructor|done].
Qed.

Lemma matchAt_sound {R} r : ∀ s caps (k : jstr → Captures → option R) x,
  matchAt r s caps k = Some x → ∃ m s' caps', s = m ++ s' ∧ Matches r m caps caps' ∧ k s' caps' = Some x.
Proof.
  induction r as [t|f|f|a IHa b IHb|a IHa|n a IHa]; intros s caps k x; cbn [matchAt].
  - case_match eqn:Et; [|done]. apply startsWith_inv in Et. intros Hk. exists t, (drop (length t) s), caps.
    split_and!; [by rewrite <- Et|constructor|done].
  - destruct s as [|c s]; [done|]. case_match; [|done]. intros Hk. exists [c], s, caps. split_and!; [done|by constructor|done].
  - intros (m & s' & -> & Hm & Hk)%matchMany_sound. exists m, s', caps. split_and!; [done|by constructor|done].
  - intros (m1 & s1 & c1 & -> & H1 & (m2 & s2 & c2 & -> & H2 & Hk)%IHb)%IHa. exists (m1 ++ m2), s2, c2.
    split_and!; [by rewrite (assoc_L (++))|by econstructor|done].
  - destruct (matchAt a s caps _) eqn:Ea.
    + intros [= <-]. apply IHa in Ea as (m & s' & c' & -> & Hm & Hk). exists m, s', c'.
      case_match eqn:El; [done|]. split_and!; [done| |done]. constructor; [|done]. intros ->. by rewrite Nat.eqb_refl in El.
    + intros Hk. exists [], s, caps. split_and!; [done|constructor|done].
  - intros (m & s' & c' & -> & Hm & Hk)%IHa. exists m, s', ((n, m) :: c').
    rewrite taken in Hk. split_and!; [done|by constructor|done].
Qed.

(** ** Addresses *)

(** [literal(.star):(\d+)], with what follows.  The host goes as far as a colon and
    a digit do. *)
Definition digitAfterColon (s : jstr) : Prop := ∃ a c b, s = a ++ ch ":" :: c :: b ∧ is_digit c = true.

Lemma port_fails {R} s caps r (k : jstr → Captures → option R) :
  (∀ c b, s = ch ":" :: c :: b → is_digit c = false) →
  matchAt (Cat (Lit [ch ":"]) (Cat (Group 2 (Plus is_digit)) r)) s caps k = None.
Proof.
  intros H. cbn [matchAt]. case_match eqn:Es; [|done]. apply startsWith_inv in Es. rewrite Es in *. cbn [length app] in *.
  set (b := drop 1 s) in *. clearbody b. change (drop 1 (ch ":" :: b)) with b. cbn [Plus matchAt].
  destruct b as [|d b]; [done|]. by rewrite (H d b).
Qed.

Lemma match_host_port {R} host port tail caps r (k : jstr → Captures → option R) x :
  Forall (λ c, anyChar c = true) host → port ≠ [] → Forall (λ c, is_digit c = true) port →
  (∀ c, head tail = Some c → is_digit c = false) → ¬ digitAfterColon tail →
  matchAt r tail ((2, port) :: (1, host) :: caps) k = Some x →
  matchAt (Cat (Group 1 (Many anyChar)) (Cat (Lit [ch ":"]) (Cat (Group 2 (Plus is_digit)) r)))
    (host ++ ch ":" :: port ++ tail) caps k = Some x.
Proof.
  intros Hh Hp Hd Ht Hc Hr. set (rest := Cat (Lit _) _). cbn [matchAt]. apply matchMany_last; [exact Hh| |].
  - rewrite (taken host). subst rest. change (ch ":" :: port ++ tail) with ([ch ":"] ++ (port ++ tail)).
    set (s := port ++ tail). cbn [matchAt]. rewrite startsWith_app, drop_app_length. subst s.
    destruct port as [|c port]; [done|]. apply Forall_cons in Hd as [Hc0 Hd]. cbn [app Plus matchAt]. rewrite Hc0.
    apply matchMany_all; [exact Hd| |exact Ht]. change (c :: port ++ tail) with ((c :: port) ++ tail). by rewrite taken.
  - intros a2 b2 E Ha. apply port_fails. intros d b ->. destruct a2 as [|z a2]; [done|]. injection E as _ E.
    destruct (is_digit d) eqn:Ed; [|done]. exfalso.
    assert (digitAfterColon (port ++ tail)) as (a & e & b' & Eq & He) by (exists a2, d, b; by rewrite E).
    apply Hc. clear -Hd Eq He. revert a Eq. induction Hd as [|y port Hy Hd IH]; intros a Eq; [by exists a, e, b'|].
    destruct a as [|w a]; injection Eq as -> Eq; [by vm_compute in Hy|]. by apply (IH a).
Qed.
