(* ===== verification/ConnectionUrl.v ===== *)
(** * ConnectionUrl: the address of a data source and its fields

    Models how the form of a data source keeps its URL and its fields in step
    ([extractObj] and [regEXFormatting] of [components/ConnectionEdit/index.tsx]),
    [utils/jdbcUrl.ts], [utils/nativeUrl.ts] and the patterns and templates of
    [config/dataSource.ts].  A field without a value has the empty text, which the
    code treats alike. *)

From S2P Require Import Prelude SqlText RegExps.
Local Open Scope nat_scope.

(** ** Texts *)

Fixpoint splitFirst (pat text : jstr) : option (jstr * jstr) :=
  if startsWith pat text then Some ([], drop (length pat) text)
  else match text with [] => None | c :: rest => (λ ab, (c :: ab.1, ab.2)) <$> splitFirst pat rest end.

Definition contains (pat text : jstr) : bool := bool_decide (is_Some (splitFirst pat text)).

(** The text that [String.prototype.replace] inserts: a dollar with another dollar,
    an ampersand or a quote stands for something. *)
Fixpoint expandReplacement (before matched after rep : jstr) : jstr :=
  match rep with
  | [] => []
  | c :: rest =>
      let go := expandReplacement before matched after in
      if (c =? DOLLAR)%N then
        match rest with
        | d :: rest' =>
            if (d =? DOLLAR)%N then DOLLAR :: go rest'
            else if (d =? ch "&")%N then matched ++ go rest'
            else if (d =? ch "`")%N then before ++ go rest'
            else if (d =? ch "'")%N then after ++ go rest'
            else c :: go rest
        | [] => [c]
        end
      else c :: go rest
  end.

(** [text.replace(pat, rep)] with a text as pattern. *)
Definition replaceFirst (pat rep text : jstr) : jstr :=
  match splitFirst pat text with
  | Some (before, after) => before ++ expandReplacement before pat after rep ++ after
  | None => text
  end.

(** ** [utils/jdbcUrl.ts] *)

Definition stripJdbcHostBrackets (host : jstr) : jstr :=
  if startsWithChar (ch "[") host && endsWithChar (ch "]") host then removelast (tail host) else host.

Definition hexChar (c : N) : bool :=
  is_digit c || ((97 <=? c) && (c <=? 102))%N || ((65 <=? c) && (c <=? 70))%N || (c =? ch ":")%N || (c =? ch ".")%N.
Definition zoneChar (c : N) : bool := wordDash c || (c =? ch ".")%N.

(** [/^[0-9a-fA-F:.]+(%[\w.-]+)?$/.test(text)]. *)
Definition isIpv6Text (text : jstr) : bool :=
  let address := match indexOf (ch "%") text with Some n => take n text | None => text end in
  let zone := match indexOf (ch "%") text with Some n => Some (drop (S n) text) | None => None end in
  negb (bool_decide (address = [])) && forallb hexChar address &&
  match zone with Some z => negb (bool_decide (z = [])) && forallb zoneChar z | None => true end.

Definition isIpv6LiteralHost (host : jstr) : bool :=
  let hostValue := stripJdbcHostBrackets (trim host) in
  includes (ch ":") hostValue &&
  negb (contains (js "://") hostValue || includes (ch "/") hostValue || includes (ch "?") hostValue || includes (ch "#") hostValue) &&
  (2 <=? length (List.filter (λ c, (c =? ch ":")%N) hostValue)) &&
  isIpv6Text hostValue.

Definition formatJdbcHostForUrl (host : jstr) : jstr :=
  let bareHost := stripJdbcHostBrackets host in
  if isIpv6LiteralHost bareHost then js "[" ++ bareHost ++ js "]" else bareHost.

Definition normalizeJdbcHostFromUrl (host : jstr) : jstr := stripJdbcHostBrackets host.

(** The matches of [/{(.*?)}/g]; [inside] is what was read after a brace. *)
Fixpoint templateFieldsFrom (inside : option jstr) (template : jstr) : list jstr :=
  match template with
  | [] => []
  | c :: rest =>
      match inside with
      | None => templateFieldsFrom (if (c =? ch "{")%N then Some [] else None) rest
      | Some name =>
          if (c =? ch "}")%N then name :: templateFieldsFrom None rest
          else if anyChar c then templateFieldsFrom (Some (name ++ [c])) rest
          else templateFieldsFrom None rest
      end
  end.

Definition templateFields (template : jstr) : list jstr := templateFieldsFrom None template.

Definition getJdbcTemplateFieldNames (template : jstr) : list jstr :=
  List.filter (λ name, negb (bool_decide (name = []))) (uniq (templateFields template)).

Definition shouldSyncJdbcUrlForField (fieldName : option jstr) (template : jstr) : bool :=
  match fieldName with
  | None | Some [] => true
  | Some name =>
      bool_decide (name = js "url") || bool_decide (name = js "alias") || includes name (getJdbcTemplateFieldNames template)
  end.

(** ** [utils/nativeUrl.ts] *)

Definition NATIVE_PREFIXES : list (jstr * jstr) :=
  [(js "jdbc:mysql://", js "mysql://"); (js "jdbc:postgresql://", js "postgresql://"); (js "jdbc:sqlserver://", js "sqlserver://")].

Definition ORACLE_JDBC_PREFIX : jstr := js "jdbc:oracle:thin:@".
Definition ORACLE_NATIVE_PREFIX : jstr := js "oracle://".

Definition oracleToDisplay (url : jstr) : jstr :=
  let lower := toLowerCase url in
  if startsWith ORACLE_NATIVE_PREFIX lower then url
  else if startsWith ORACLE_JDBC_PREFIX lower then
    let rest := drop (length ORACLE_JDBC_PREFIX) url in
    ORACLE_NATIVE_PREFIX ++ (if startsWith (js "//") rest then drop 2 rest else rest)
  else url.

Definition oracleToStored (url : jstr) : jstr :=
  let lower := toLowerCase url in
  if startsWith ORACLE_JDBC_PREFIX lower then url
  else if startsWith ORACLE_NATIVE_PREFIX lower then
    let rest := drop (length ORACLE_NATIVE_PREFIX) url in
    ORACLE_JDBC_PREFIX ++ (if includes (ch "/") rest then js "//" else []) ++ rest
  else url.

Fixpoint nativePrefixed (prefixes : list (jstr * jstr)) (url : jstr) : jstr :=
  match prefixes with
  | [] => url
  | (jdbcPrefix, nativePrefix) :: rest =>
      if startsWith jdbcPrefix (toLowerCase url) then nativePrefix ++ drop (length jdbcPrefix) url
      else if startsWith nativePrefix (toLowerCase url) then url
      else nativePrefixed rest url
  end.

Definition toDisplayUrl (url : jstr) : jstr :=
  match url with
  | [] => url
  | _ =>
      let oracle := oracleToDisplay url in
      if negb (bool_decide (oracle = url)) then oracle else nativePrefixed NATIVE_PREFIXES url
  end.

Definition toStoredUrl (url : jstr) : jstr := toDisplayUrl url.

Definition isNativeDriverConfig (jdbcDriverClass : option jstr) : bool :=
  match jdbcDriverClass with Some driverClass => startsWith (js "rust:") driverClass | None => false end.

(** ** The form *)

Record UrlFormat := mkFormat { pattern : RegExp; template : jstr }.

(** [{...a, ...b}]. *)
Definition assignAll {V} (a b : dict V) : dict V := fold_left (λ d kv, dset kv.1 kv.2 d) b a.

Definition extractField (caps : Captures) (i : nat) (t : jstr) : jstr * jstr :=
  let value := default [] (if bool_decide (t = js "database") then capture (i + 2) caps else capture (i + 1) caps) in
  (t, if bool_decide (t = js "host") then normalizeJdbcHostFromUrl value else value).

Definition extractObj (fmt : UrlFormat) (caps : Captures) : dict jstr :=
  assignAll [] (imap (extractField caps) (templateFields (template fmt))).

Definition fieldText (kv : jstr * jstr) : jstr := if bool_decide (kv.1 = js "host") then formatJdbcHostForUrl kv.2 else kv.2.

Definition fillTemplate (data : dict jstr) (template : jstr) : jstr :=
  fold_left (λ url kv, replaceFirst (js "{" ++ kv.1 ++ js "}") (fieldText kv) url) data template.

(** The fields of the form, and whether the name was entered since the form was last
    rendered ([aliasChanged] is a variable of the rendering). *)
Record FormState := mkForm { fields : dict jstr; aliasChanged : bool }.

Section form.
Context (fmt : UrlFormat) (native : bool).

Definition displayUrl (url : jstr) : jstr := if native then toDisplayUrl url else url.

(** The URL is entered. *)
Definition urlEntered (keyValue : jstr) : dict jstr :=
  let submitted := toStoredUrl keyValue in
  match matchRegExp (pattern fmt) submitted with
  | None => []
  | Some caps =>
      let newData := extractObj fmt caps in
      let host := default [] (dget (js "host") newData) in
      let formattedHost := formatJdbcHostForUrl host in
      if negb (bool_decide (host = [])) && negb (bool_decide (formattedHost = host)) && negb (contains formattedHost submitted)
      then dset (js "url") (displayUrl (replaceFirst host formattedHost submitted)) newData
      else newData
  end.

(** Another field is entered. *)
Definition fieldEntered (keyName : option jstr) (data : dict jstr) : dict jstr :=
  let normalized := match dget (js "host") data with
                    | Some ((_ :: _) as host) => dset (js "host") (normalizeJdbcHostFromUrl host) data
                    | _ => data
                    end in
  let url := [(js "url", displayUrl (fillTemplate normalized (template fmt)))] in
  if bool_decide (keyName = Some (js "host")) then dset (js "host") (default [] (dget (js "host") normalized)) url else url.

(** [regEXFormatting]: field [keyName] got the value [keyValue] and [data] are the
    fields.  The first key of an empty object is none. *)
Definition regEXFormatting (keyName : option jstr) (keyValue : jstr) (data : dict jstr) (s : FormState) : FormState :=
  if negb (shouldSyncJdbcUrlForField keyName (template fmt)) then s
  else
    let changed := aliasChanged s || bool_decide (keyName = Some (js "alias")) in
    let newData :=
      if bool_decide (keyName = Some (js "url")) then urlEntered keyValue
      else if bool_decide (keyName = Some (js "alias")) then []
      else fieldEntered keyName data in
    let newData :=
      if bool_decide (keyName = Some (js "host")) && negb changed
      then dset (js "alias") (js "@" ++ normalizeJdbcHostFromUrl keyValue) newData else newData in
    mkForm (assignAll (fields s) (assignAll data newData)) changed.

(** [handleFormItemValueChange]: a field is changed. *)
Definition fieldChanged (keyName keyValue : jstr) (s : FormState) : FormState :=
  let finalData := dset keyName keyValue (fields s) in
  regEXFormatting (Some keyName) keyValue finalData (mkForm finalData (aliasChanged s)).
End form.

(** ** [config/dataSource.ts] *)

(** [scheme(.star):(\d+)(sep(database))?] and its template. *)
Definition addressPattern (scheme : RegExp) (sep : jstr) (database : RegExp) : RegExp :=
  Cat scheme (Cat (Group 1 (Many anyChar)) (Cat (Lit [ch ":"]) (Cat (Group 2 (Plus is_digit))
    (Maybe (Group 3 (Cat (Lit sep) (Group 4 database))))))).

Definition hostPort : jstr := js "{host}:{port}".

Definition standardFormat (scheme : jstr) : UrlFormat :=
  mkFormat (addressPattern (Lit scheme) (js "/") (Plus wordDash)) (scheme ++ hostPort ++ js "/{database}").

Definition nativeFormat (scheme : jstr) : UrlFormat :=
  mkFormat (addressPattern (Cat (Maybe (Lit (js "jdbc:"))) (Lit scheme)) (js "/") (Plus wordDash)) (scheme ++ hostPort ++ js "/{database}").

Definition fileFormat (scheme : jstr) : UrlFormat :=
  mkFormat (Cat (Lit scheme) (Maybe (Group 1 (Many anyChar)))) (scheme ++ js "{file}").

Definition oracleFormat (colon : jstr) (sep : jstr) (last : jstr) : UrlFormat :=
  mkFormat
    (Cat (Lit (js "jdbc:oracle:")) (Cat (Group 1 (Many anyChar)) (Cat (Lit colon) (Cat (Group 2 (Many anyChar))
       (Cat (Lit (js ":")) (Cat (Group 3 (Plus is_digit)) (Cat (Lit sep) (Group 4 (Many anyChar)))))))))
    (js "jdbc:oracle:{driver}" ++ colon ++ hostPort ++ sep ++ js "{" ++ last ++ js "}").

(** The formats of the data sources with an address, with those that are chosen in
    their forms. *)
Definition mysqlFormat : UrlFormat := nativeFormat (js "mysql://").
Definition postgresqlFormat : UrlFormat := nativeFormat (js "postgresql://").
Definition sqlserverFormat : UrlFormat := mkFormat
  (addressPattern (Lit (js "jdbc:sqlserver://")) (js ";database=") (Plus wordDash))
  (js "jdbc:sqlserver://" ++ hostPort ++ js ";database={database}").
Definition snowflakeFormat : UrlFormat := mkFormat
  (addressPattern (Lit (js "jdbc:snowflake://")) (js "/?db=") (Plus wordDash))
  (js "jdbc:snowflake://" ++ hostPort ++ js "/?db={database}").
Definition h2Format : UrlFormat := standardFormat (js "jdbc:h2:tcp://").
Definition mariadbFormat : UrlFormat := standardFormat (js "jdbc:mariadb://").
Definition clickhouseFormat : UrlFormat := standardFormat (js "jdbc:clickhouse://").
Definition dmFormat : UrlFormat := standardFormat (js "jdbc:dm://").
Definition oscarFormat : UrlFormat := standardFormat (js "jdbc:oscar://").
Definition db2Format : UrlFormat := standardFormat (js "jdbc:db2://").
Definition prestoFormat : UrlFormat := standardFormat (js "jdbc:presto://").
Definition oceanbaseFormat : UrlFormat := standardFormat (js "jdbc:oceanbase://").
Definition oceanbaseOracleFormat : UrlFormat := standardFormat (js "jdbc:oceanbase://").
Definition redisFormat : UrlFormat := standardFormat (js "jdbc:redis://").
Definition redisClusterFormat : UrlFormat := standardFormat (js "jdbc:redis:cluster://").
Definition hiveFormat : UrlFormat := standardFormat (js "jdbc:hive2://").
Definition kingbaseFormat : UrlFormat := standardFormat (js "jdbc:kingbase8://").
Definition mongodbFormat : UrlFormat := standardFormat (js "mongodb://").
Definition opengaussFormat : UrlFormat := standardFormat (js "jdbc:opengauss://").
Definition sundbFormat : UrlFormat := standardFormat (js "jdbc:sundb://").
Definition tidbFormat : UrlFormat := standardFormat (js "jdbc:mysql://").
Definition cockroachdbFormat : UrlFormat := standardFormat (js "jdbc:postgresql://").
Definition kylinFormat : UrlFormat := standardFormat (js "jdbc:kylin://").
Definition xugudbFormat : UrlFormat := standardFormat (js "jdbc:xugu://").
Definition elasticsearchFormat : UrlFormat := standardFormat (js "jdbc:es://").
Definition tdengineFormat : UrlFormat := standardFormat (js "jdbc:TAOS-RS://").
Definition redshiftFormat : UrlFormat := standardFormat (js "jdbc:redshift://").
Definition informixFormat : UrlFormat := standardFormat (js "jdbc:informix-sqli://").
Definition dorisFormat : UrlFormat := standardFormat (js "jdbc:mysql://").
Definition starrocksFormat : UrlFormat := standardFormat (js "jdbc:mysql://").
Definition gaussdbFormat : UrlFormat := standardFormat (js "jdbc:postgresql://").
Definition gbase8sFormat : UrlFormat := standardFormat (js "jdbc:gbasedbt-sqli://").

Definition addressFormats : list (jstr * UrlFormat) :=
  [(js "MYSQL", mysqlFormat); (js "POSTGRESQL", postgresqlFormat); (js "SQLSERVER", sqlserverFormat);
   (js "SNOWFLAKE", snowflakeFormat); (js "H2", h2Format); (js "MARIADB", mariadbFormat);
   (js "CLICKHOUSE", clickhouseFormat); (js "DM", dmFormat); (js "OSCAR", oscarFormat); (js "DB2", db2Format);
   (js "PRESTO", prestoFormat); (js "OCEANBASE", oceanbaseFormat); (js "OCEANBASE_ORACLE", oceanbaseOracleFormat);
   (js "REDIS", redisFormat); (js "REDIS cluster", redisClusterFormat); (js "HIVE", hiveFormat);
   (js "KINGBASE", kingbaseFormat); (js "MONGODB", mongodbFormat); (js "OPENGAUSS", opengaussFormat);
   (js "SUNDB", sundbFormat); (js "TIDB", tidbFormat); (js "COCKROACHDB", cockroachdbFormat);
   (js "KYLIN", kylinFormat); (js "XUGUDB", xugudbFormat); (js "ELASTICSEARCH", elasticsearchFormat);
   (js "TDENGINE", tdengineFormat); (js "REDSHIFT", redshiftFormat); (js "INFORMIX", informixFormat);
   (js "DORIS", dorisFormat); (js "STARROCKS", starrocksFormat); (js "GAUSSDB", gaussdbFormat);
   (js "GBASE8S", gbase8sFormat)].

(** Those with a file, those of Oracle and the one without a database. *)
Definition h2FileFormat : UrlFormat := fileFormat (js "jdbc:h2:").
Definition sqliteFormat : UrlFormat := fileFormat (js "jdbc:sqlite:").
Definition duckdbFormat : UrlFormat := fileFormat (js "jdbc:duckdb:").
Definition oracleSidFormat : UrlFormat := oracleFormat (js ":@") (js ":") (js "sid").
Definition oracleServiceFormat : UrlFormat := oracleFormat (js ":@//") (js "/") (js "serviceName").
Definition bigqueryFormat : UrlFormat := mkFormat
  (addressPattern (Lit (js "jdbc:bigquery://")) (js "/") (Plus wordDash)) (js "jdbc:bigquery://{host}:{port}/").

Definition otherFormats : list (jstr * UrlFormat) :=
  [(js "H2 LocalFile", h2FileFormat); (js "SQLITE", sqliteFormat); (js "DUCKDB", duckdbFormat);
   (js "ORACLE", oracleSidFormat); (js "ORACLE service", oracleServiceFormat); (js "BIGQUERY", bigqueryFormat)].

(** ** Lemmas on texts *)

Lemma splitFirst_here pat t : splitFirst pat (pat ++ t) = Some ([], t).
Proof. destruct (pat ++ t) as [|c r] eqn:E; cbn; rewrite <- E, startsWith_app, drop_app_length; done. Qed.

(** A pattern does not begin in a text without its first character. *)
Lemma splitFirst_skip c pat t r :
  c ∉ t → splitFirst (c :: pat) (t ++ r) = (λ ab, (t ++ ab.1, ab.2)) <$> splitFirst (c :: pat) r.
Proof.
  induction t as [|x t IH]; intros Hc.
  - cbn [app]. by destruct (splitFirst (c :: pat) r) as [[]|].
  - apply not_elem_of_cons in Hc as [Hx Hc]. cbn [app splitFirst]. assert (startsWith (c :: pat) (x :: t ++ r) = false) as ->.
    { unfold startsWith. apply bool_decide_eq_false_2. intros [= ? _]. congruence. }
    rewrite IH by done. by destruct (splitFirst (c :: pat) r) as [[]|].
Qed.

Lemma splitFirst_nil c pat t : c ∉ t → splitFirst (c :: pat) t = None.
Proof. intros Hc. rewrite <- (app_nil_r t), splitFirst_skip by done. done. Qed.

Lemma contains_app a pat b : contains pat (a ++ pat ++ b) = true.
Proof.
  unfold contains. apply bool_decide_eq_true_2. induction a as [|c a IH]; [cbn [app]; rewrite splitFirst_here; by eexists|].
  cbn [app splitFirst]. case_match; [by eexists|]. destruct IH as [x Hx]. rewrite Hx. by eexists.
Qed.

Lemma expand_plain before matched after rep : DOLLAR ∉ rep → expandReplacement before matched after rep = rep.
Proof.
  induction rep as [|c rep IH]; [done|]. intros [Hc Hr]%not_elem_of_cons. cbn.
  destruct (N.eqb_spec c DOLLAR); [congruence|]. by rewrite IH.
Qed.

Lemma dset_same {V} k v (d : dict V) : dget k d = Some v → dset k v d = d.
Proof.
  induction d as [|[k' v'] d IH]; [done|]. cbn. case_decide; [intros [= ->]; by subst|]. intros Hd. by rewrite IH.
Qed.

Lemma dget_assignAll {V} k (b : dict V) : ∀ a,
  NoDup (dkeys b) → dget k (assignAll a b) = match dget k b with Some v => Some v | None => dget k a end.
Proof.
  unfold assignAll. induction b as [|[k' v] b IH]; intros a Hd; [done|]. unfold dkeys in Hd. cbn in Hd.
  apply NoDup_cons in Hd as [Hk Hd]. cbn [fold_left dget fst snd]. rewrite IH by done. rewrite dget_dset.
  case_decide as E; [|done]. subst. destruct (dget k b) eqn:Eb; [|done]. exfalso. apply Hk.
  change (b.*1) with (dkeys b). apply dget_is_Some. by eexists.
Qed.

Lemma NoDup_assignAll {V} (b : dict V) : ∀ a, NoDup (dkeys a) → NoDup (dkeys (assignAll a b)).
Proof. unfold assignAll. induction b as [|[k v] b IH]; intros a Ha; [done|]. cbn. by apply IH, NoDup_dkeys_dset. Qed.

(** ** Filling a template *)

Inductive Piece := PText (t : jstr) | PField (k : jstr).

#[export] Instance Piece_eq_dec : EqDecision Piece.
Proof. solve_decision. Defined.

Definition showPiece (x : Piece) : jstr := match x with PText t => t | PField k => js "{" ++ k ++ js "}" end.
Definition showPieces (ps : list Piece) : jstr := concat (showPiece <$> ps).

Definition plain (t : jstr) : Prop := ch "{" ∉ t.
Definition fieldName (k : jstr) : Prop := ch "{" ∉ k ∧ ch "}" ∉ k.

Definition PieceOk (x : Piece) : Prop := match x with PText t => plain t | PField k => fieldName k end.

(** The first field with the name gets the text. *)
Fixpoint fillPiece (k v : jstr) (ps : list Piece) : list Piece :=
  match ps with
  | [] => []
  | PText t :: ps => PText t :: fillPiece k v ps
  | PField k' :: ps => if decide (k' = k) then PText v :: ps else PField k' :: fillPiece k v ps
  end.

Lemma brace_split k t : js "{" ++ k ++ js "}" ++ t = ch "{" :: (k ++ ch "}" :: t).
Proof. done. Qed.

Lemma splitFirst_field k k' t :
  fieldName k → fieldName k' → k ≠ k' →
  splitFirst (js "{" ++ k ++ js "}") (js "{" ++ k' ++ js "}" ++ t) =
  (λ ab, (js "{" ++ k' ++ js "}" ++ ab.1, ab.2)) <$> splitFirst (js "{" ++ k ++ js "}") t.
Proof.
  intros [_ Hk] [Hb Hk'] Hne. rewrite brace_split. change (js "{" ++ k ++ js "}") with (ch "{" :: (k ++ js "}")).
  cbn [splitFirst]. assert (startsWith (ch "{" :: (k ++ js "}")) (ch "{" :: (k' ++ ch "}" :: t)) = false) as ->.
  { apply not_true_iff_false. intros E%startsWith_inv. cbn [app] in E. injection E as E. rewrite <- (assoc_L (++)) in E. cbn [app js] in E.
    apply app_sep_inj_l in E as [E _]; [congruence|done|done]. }
  replace (k' ++ ch "}" :: t) with ((k' ++ js "}") ++ t) by (by rewrite <- (assoc_L (++))).
  rewrite splitFirst_skip.
  - destruct (splitFirst _ t) as [[a b]|]; [|done]. cbn. by rewrite <- (assoc_L (++)).
  - rewrite not_elem_of_app. split; [done|]. by apply (bool_decide_unpack _).
Qed.

Lemma splitFirst_absent k ps :
  fieldName k → Forall PieceOk ps → PField k ∉ ps → splitFirst (js "{" ++ k ++ js "}") (showPieces ps) = None.
Proof.
  intros Hk Hps. induction Hps as [|[t|k'] ps Hx Hps IH]; intros Hn; [done| |]; apply not_elem_of_cons in Hn as [Hne Hn].
  - change (showPieces (PText t :: ps)) with (t ++ showPieces ps). change (js "{" ++ k ++ js "}") with (ch "{" :: (k ++ js "}")) in *.
    rewrite splitFirst_skip by done. by rewrite IH.
  - change (showPieces (PField k' :: ps)) with ((js "{" ++ k' ++ js "}") ++ showPieces ps).
    rewrite <- !(assoc_L (++)), splitFirst_field by (done || congruence). by rewrite IH.
Qed.

Lemma replace_pieces k v ps :
  fieldName k → (PField k ∈ ps → DOLLAR ∉ v) → Forall PieceOk ps →
  replaceFirst (js "{" ++ k ++ js "}") v (showPieces ps) = showPieces (fillPiece k v ps).
Proof.
  intros Hk Hv. unfold replaceFirst.
  assert (∀ ps, Forall PieceOk ps → match splitFirst (js "{" ++ k ++ js "}") (showPieces ps) with
    | Some (a, b) => a ++ v ++ b | None => showPieces ps end = showPieces (fillPiece k v ps)) as H.
  { clear ps Hv. intros ps Hps. induction Hps as [|x ps Hx Hps IH]; [done|]. destruct x as [t|k']; cbn [PieceOk] in Hx.
    - change (showPieces (PText t :: ps)) with (t ++ showPieces ps). cbn [fillPiece].
      change (showPieces (PText t :: fillPiece k v ps)) with (t ++ showPieces (fillPiece k v ps)). rewrite <- IH.
      change (js "{" ++ k ++ js "}") with (ch "{" :: (k ++ js "}")). rewrite splitFirst_skip by done.
      destruct (splitFirst _ _) as [[a b]|]; cbn; [by rewrite <- (assoc_L (++))|done].
    - change (showPieces (PField k' :: ps)) with ((js "{" ++ k' ++ js "}") ++ showPieces ps). cbn [fillPiece].
      case_decide as E; [subst; by rewrite splitFirst_here|].
      change (showPieces (PField k' :: fillPiece k v ps)) with ((js "{" ++ k' ++ js "}") ++ showPieces (fillPiece k v ps)).
      rewrite <- IH, <- !(assoc_L (++)), splitFirst_field by (done || congruence).
      destruct (splitFirst _ (showPieces ps)) as [[a b]|]; cbn; [by rewrite <- !(assoc_L (++))|done]. }
  intros Hps. rewrite <- H by done. destruct (splitFirst _ _) as [[a b]|] eqn:E; [|done].
  destruct (decide (PField k ∈ ps)) as [Hin|Hout]; [by rewrite expand_plain by auto|].
  rewrite splitFirst_absent in E; done.
Qed.

Lemma fillPiece_absent k v ps : PField k ∉ ps → fillPiece k v ps = ps.
Proof.
  induction ps as [|[t|k'] ps IH]; intros Hn; [done| |]; apply not_elem_of_cons in Hn as [Hne Hn]; cbn; [by rewrite IH|].
  rewrite decide_False by congruence. by rewrite IH.
Qed.

Lemma fillPiece_ok k v ps : (PField k ∈ ps → plain v) → Forall PieceOk ps → Forall PieceOk (fillPiece k v ps).
Proof.
  intros Hv Hps. destruct (decide (PField k ∈ ps)) as [Hin|Hn]; [|by rewrite fillPiece_absent].
  specialize (Hv Hin). clear Hin. induction Hps as [|[t|k'] ps Hx Hps IH]; cbn; [constructor|by constructor|]. case_decide; by constructor.
Qed.

Lemma fillPiece_fields k v ps k' : PField k' ∈ fillPiece k v ps → PField k' ∈ ps.
Proof.
  induction ps as [|[t|k0] ps IH]; cbn; [done| |].
  - rewrite !elem_of_cons. intros [?|?]; auto.
  - case_decide; rewrite !elem_of_cons; [|intros [?|?]; auto]. intros [?|?]; auto. done.
Qed.

Definition fillAll (data : dict jstr) (ps : list Piece) : list Piece := fold_left (λ ps kv, fillPiece kv.1 (fieldText kv) ps) data ps.

Definition valueOk (v : jstr) : Prop := DOLLAR ∉ v ∧ plain v.

Definition dataOk (data : dict jstr) (ps : list Piece) : Prop :=
  Forall (λ kv, fieldName kv.1 ∧ (PField kv.1 ∈ ps → valueOk (fieldText kv))) data.

Lemma fill_pieces data : ∀ ps,
  Forall PieceOk ps → dataOk data ps → fillTemplate data (showPieces ps) = showPieces (fillAll data ps).
Proof.
  unfold fillTemplate, fillAll. induction data as [|kv data IH]; intros ps Hps Hd; [done|].
  apply Forall_cons in Hd as [[Hk Hv] Hd]. cbn [fold_left]. rewrite replace_pieces; [|done|by intros [? _]%Hv|done]. apply IH.
  - apply fillPiece_ok; [by intros [_ ?]%Hv|done].
  - eapply Forall_impl; [exact Hd|]. intros kv' [? Hv']. split; [done|]. intros ?%fillPiece_fields. by apply Hv'.
Qed.

Lemma fillAll_text data t ps : fillAll data (PText t :: ps) = PText t :: fillAll data ps.
Proof. unfold fillAll. revert ps. induction data as [|kv data IH]; intros ps; [done|]. cbn. by rewrite IH. Qed.

Lemma fillAll_field data k ps :
  NoDup (dkeys data) → PField k ∉ ps →
  fillAll data (PField k :: ps) =
  (match dget k data with Some v => PText (fieldText (k, v)) | None => PField k end) :: fillAll data ps.
Proof.
  intros Hd Hn. revert ps Hn Hd. induction data as [|[k' v] data IH]; intros ps Hn Hd; [done|].
  unfold dkeys in Hd. cbn in Hd. apply NoDup_cons in Hd as [Hk Hd]. unfold fillAll in *. cbn.
  destruct (decide (k = k')) as [->|Hne].
  - rewrite decide_True by done. rewrite fillPiece_absent by done. apply (fillAll_text data).
  - rewrite (decide_False (P := k' = k)) by congruence. apply IH; [by intros ?%fillPiece_fields|done].
Qed.

(** ** Matching an address *)

(** What stands between the parts of an address. *)
Definition sepOk (sep : jstr) : Prop :=
  (∃ c rest, sep = c :: rest ∧ is_digit c = false) ∧ ch ":" ∉ sep ∧ DOLLAR ∉ sep ∧ plain sep.

(** The scheme of an address and its pattern. *)
Definition matchesScheme (rx : RegExp) (scheme : jstr) : Prop :=
  ∀ R s (k : jstr → Captures → option R), matchAt rx (scheme ++ s) [] k = k s [].

Lemma noColon_tail t : ch ":" ∉ t → ¬ digitAfterColon t.
Proof. intros Hn (a & c & b & -> & _). apply Hn. rewrite elem_of_app, elem_of_cons. auto. Qed.

(** What the optional last part adds to the groups. *)
Lemma match_database sep f db caps :
  sep ≠ [] → Forall (λ c, f c = true) db →
  ∃ caps', matchAt (Maybe (Group 3 (Cat (Lit sep) (Group 4 (Plus f))))) (sep ++ db) caps (λ _ caps, Some caps) = Some caps' ∧
    default [] (capture 4 caps') = (match db with [] => default [] (capture 4 caps) | _ => db end) ∧
    capture 1 caps' = capture 1 caps ∧ capture 2 caps' = capture 2 caps.
Proof.
  intros Hs Hf. destruct db as [|c db].
  - exists caps. rewrite app_nil_r. split_and!; [|done..]. cbn [matchAt Plus].
    assert (startsWith sep sep = true) as -> by (rewrite <- (app_nil_r sep) at 2; apply startsWith_app). by rewrite drop_all.
  - exists ((3, sep ++ c :: db) :: (4, c :: db) :: caps). split_and!; [|by rewrite !capture_cons..].
    apply Forall_cons in Hf as [Hc Hf]. cbn [matchAt Plus]. rewrite startsWith_app, drop_app_length, Hc.
    replace db with (db ++ []) at 1 by apply app_nil_r. erewrite matchMany_all; [done|exact Hf| |done]. cbn [length].
    rewrite (proj2 (Nat.eqb_neq 0 _)) by (rewrite length_app; cbn; lia). rewrite !Nat.sub_0_r, firstn_all. change (S (length db)) with (length (c :: db)). by rewrite firstn_all.
Qed.

Lemma match_address rx scheme sep f host port db :
  matchesScheme rx scheme → sepOk sep → (∀ c, f c = true → c ≠ ch ":") →
  Forall (λ c, anyChar c = true) host → port ≠ [] → Forall (λ c, is_digit c = true) port → Forall (λ c, f c = true) db →
  ∃ caps, matchRegExp (addressPattern rx sep (Plus f)) (scheme ++ host ++ ch ":" :: port ++ sep ++ db) = Some caps ∧
    capture 1 caps = Some host ∧ capture 2 caps = Some port ∧ default [] (capture 4 caps) = db.
Proof.
  intros Hrx ((c0 & rest & Hsep & Hc0) & Hcolon & _) Hf Hh Hp Hd Hdb.
  destruct (match_database sep f db [(2, port); (1, host)]) as (caps & Hm & H4 & H1 & H2); [by rewrite Hsep|done|].
  exists caps. split_and!; [|by rewrite H1|by rewrite H2|rewrite H4; by destruct db].
  apply matchRegExp_at. unfold addressPattern. set (rest' := Cat (Group 1 _) _). cbn [matchAt]. rewrite Hrx. subst rest'.
  apply (match_host_port host port (sep ++ db) []); try done.
  - rewrite Hsep. cbn. by intros c [= <-].
  - apply noColon_tail. rewrite not_elem_of_app. split; [done|]. intros Hin.
    rewrite Forall_forall in Hdb. by apply (Hf (ch ":")); [apply Hdb|].
Qed.

(** ** URLs of the form *)

Lemma startsWith_incompatible q a x : startsWith q a = false → startsWith a q = false → startsWith q (a ++ x) = false.
Proof.
  unfold startsWith. rewrite !bool_decide_eq_false. intros H1 H2 E. destruct (decide (length q ≤ length a)) as [Hl|Hl].
  - apply H1. by rewrite <- E at 2; rewrite take_app_le.
  - apply H2. rewrite <- E, take_take, Nat.min_l by lia. by rewrite take_app_length.
Qed.

(** A URL with the scheme is stored and shown as it is. *)
Definition settledScheme (scheme : jstr) : bool :=
  forallb (λ q, negb (startsWith q (toLowerCase scheme)) && negb (startsWith (toLowerCase scheme) q))
    (ORACLE_JDBC_PREFIX :: NATIVE_PREFIXES.*1).

Lemma settled_url scheme x : settledScheme scheme = true → toDisplayUrl (scheme ++ x) = scheme ++ x.
Proof.
  intros Hs. assert (∀ q, q ∈ ORACLE_JDBC_PREFIX :: NATIVE_PREFIXES.*1 → startsWith q (toLowerCase (scheme ++ x)) = false) as Hq.
  { intros q Hin. unfold settledScheme in Hs. rewrite forallb_forall in Hs. apply list_elem_of_In, Hs, andb_true_iff in Hin as [H1 H2].
    unfold toLowerCase. rewrite fmap_app. apply startsWith_incompatible; by apply negb_true_iff. }
  assert (oracleToDisplay (scheme ++ x) = scheme ++ x) as Ho.
  { unfold oracleToDisplay. case_match; [done|]. rewrite Hq by (by left). done. }
  assert (nativePrefixed NATIVE_PREFIXES (scheme ++ x) = scheme ++ x) as Hn.
  { assert (∀ ps, ps ⊆ NATIVE_PREFIXES → nativePrefixed ps (scheme ++ x) = scheme ++ x) as H; [|by apply H].
    induction ps as [|[jp np] ps IH]; intros Hsub; [done|]. cbn. rewrite Hq.
    - case_match; [done|]. apply IH. set_solver.
    - right. apply list_elem_of_fmap. exists (jp, np). split; [done|]. apply Hsub. by left. }
  unfold toDisplayUrl. rewrite Ho, bool_decide_eq_true_2 by done. cbn [negb]. rewrite Hn. by destruct (scheme ++ x).
Qed.

Record AddressFormat (rx : RegExp) (scheme sep : jstr) (fmt : UrlFormat) : Prop := mkAddressFormat {
  format_eq : fmt = mkFormat (addressPattern rx sep (Plus wordDash)) (scheme ++ hostPort ++ sep ++ js "{database}");
  scheme_match : matchesScheme rx scheme;
  scheme_plain : plain scheme;
  scheme_settled : settledScheme scheme = true;
  sep_ok : sepOk sep;
}.

Definition AddressFields (d : dict jstr) (host port database : jstr) : Prop :=
  dget (js "host") d = Some host ∧ dget (js "port") d = Some port ∧ dget (js "database") d = Some database.

(** The fields of a form whose address can be written: the host has no brackets. *)
Record FieldsOk (d : dict jstr) (host port database : jstr) : Prop := mkFieldsOk {
  fields_unique : NoDup (dkeys d);
  fields_named : Forall fieldName (dkeys d);
  fields_address : AddressFields d host port database;
  host_bare : stripJdbcHostBrackets host = host;
  host_line : Forall (λ c, anyChar c = true) host;
  host_value : valueOk host;
  port_number : port ≠ [] ∧ Forall (λ c, is_digit c = true) port;
  database_name : Forall (λ c, wordDash c = true) database;
}.

Lemma valueOk_class f t : (∀ c, f c = true → c ≠ DOLLAR ∧ c ≠ ch "{") → Forall (λ c, f c = true) t → valueOk t.
Proof. intros Hf Ht. rewrite Forall_forall in Ht. split; intros Hin; by destruct (Hf _ (Ht _ Hin)). Qed.

Lemma wordDash_plain c : wordDash c = true → c ≠ DOLLAR ∧ c ≠ ch "{" ∧ c ≠ ch ":".
Proof. intros H. split_and!; intros ->; by vm_compute in H. Qed.

Lemma format_host_value host : valueOk host → stripJdbcHostBrackets host = host → valueOk (formatJdbcHostForUrl host).
Proof.
  intros [H1 H2] Hs. unfold formatJdbcHostForUrl, plain in *. rewrite Hs. case_match; [|by split].
  split; unfold plain; rewrite !elem_of_app; intros [E|[?|E]]; try done; revert E; by apply (bool_decide_unpack _).
Qed.

Lemma removelast_snoc {A} (l : list A) x : removelast (l ++ [x]) = l.
Proof. by rewrite removelast_last. Qed.

Lemma strip_format host : stripJdbcHostBrackets host = host → stripJdbcHostBrackets (formatJdbcHostForUrl host) = host.
Proof.
  intros Hs. unfold formatJdbcHostForUrl. rewrite Hs. case_match; [|done]. unfold stripJdbcHostBrackets.
  change (js "[" ++ host ++ js "]") with (ch "[" :: (host ++ [ch "]"])).
  assert (endsWithChar (ch "]") (ch "[" :: (host ++ [ch "]"])) = true) as ->.
  { unfold endsWithChar. rewrite app_comm_cons, last_snoc. by apply bool_decide_eq_true_2. }
  cbn [tail]. by rewrite removelast_last.
Qed.

Lemma format_host_line host :
  stripJdbcHostBrackets host = host → Forall (λ c, anyChar c = true) host → Forall (λ c, anyChar c = true) (formatJdbcHostForUrl host).
Proof.
  intros Hs Hh. unfold formatJdbcHostForUrl. rewrite Hs. case_match; [|done].
  rewrite !Forall_app. split_and!; [by apply (bool_decide_unpack _)|done|by apply (bool_decide_unpack _)].
Qed.

(** The URL of an address. *)
Definition addressUrl (scheme sep host port database : jstr) : jstr :=
  scheme ++ formatJdbcHostForUrl host ++ ch ":" :: port ++ sep ++ database.

Lemma fillAll_nil data : fillAll data [] = [].
Proof. unfold fillAll. by induction data. Qed.

Definition addressPieces (scheme sep : jstr) : list Piece :=
  [PText scheme; PField (js "host"); PText (js ":"); PField (js "port"); PText sep; PField (js "database")].

Lemma not_in_pieces k ps : Forall (λ x, match x with PField k' => k ≠ k' | PText _ => True end) ps → PField k ∉ ps.
Proof. rewrite Forall_forall. intros Hf Hin. by apply (Hf _ Hin). Qed.

Ltac other_fields := apply not_in_pieces; repeat constructor; apply (bool_decide_unpack _); vm_compute; exact I.

Lemma fill_address_pieces d scheme sep host port database :
  NoDup (dkeys d) → AddressFields d host port database →
  showPieces (fillAll d (addressPieces scheme sep)) = addressUrl scheme sep host port database.
Proof.
  intros Hu (Eh & Ep & Ed). unfold addressPieces.
  rewrite fillAll_text, fillAll_field by (done || other_fields). rewrite fillAll_text, fillAll_field by (done || other_fields).
  rewrite fillAll_text, fillAll_field by (done || other_fields). rewrite fillAll_nil, Eh, Ep, Ed.
  unfold showPieces, addressUrl. cbn [fmap list_fmap showPiece concat]. by rewrite app_nil_r.
Qed.

Lemma address_values d scheme sep host port database :
  FieldsOk d host port database → dataOk d (addressPieces scheme sep).
Proof.
  intros [Hu Hn (Eh & Ep & Ed) Hs Hl Hv [_ Hpn] Hdb]. unfold dataOk. apply Forall_forall. intros [k v] Hkv. split.
  - unfold dkeys in Hn. rewrite Forall_fmap, Forall_forall in Hn. by apply (Hn (k, v)).
  - pose proof (elem_dget k v d Hu Hkv) as Hk. unfold addressPieces, fieldText. cbn. rewrite !elem_of_cons, elem_of_nil.
    intros [?|[[= ->]|[?|[[= ->]|[?|[[= ->]|?]]]]]]; try done; simplify_eq.
    + by apply format_host_value.
    + apply (valueOk_class is_digit); [|done]. intros c Hc. split; intros ->; by vm_compute in Hc.
    + apply (valueOk_class wordDash); [|done]. intros c Hc. by destruct (wordDash_plain c Hc) as (? & ? & _).
Qed.

Lemma fill_address rx scheme sep fmt d host port database :
  AddressFormat rx scheme sep fmt → FieldsOk d host port database →
  fillTemplate d (template fmt) = addressUrl scheme sep host port database.
Proof.
  intros [-> _ Hp _ (_ & _ & Hd & Hsep)] Hok. cbn [template].
  replace (scheme ++ hostPort ++ sep ++ js "{database}") with (showPieces (addressPieces scheme sep)).
  - rewrite fill_pieces; [apply fill_address_pieces; apply Hok| |by eapply address_values].
    unfold addressPieces. repeat constructor; try done; by apply (bool_decide_unpack _).
  - unfold showPieces, addressPieces. cbn [fmap list_fmap showPiece concat]. rewrite app_nil_r. done.
Qed.

Lemma templateFields_plain t r : plain t → templateFieldsFrom None (t ++ r) = templateFieldsFrom None r.
Proof.
  unfold plain. induction t as [|c t IH]; [done|]. intros [Hc Ht]%not_elem_of_cons. cbn.
  destruct (N.eqb_spec c (ch "{")); [congruence|]. by apply IH.
Qed.

Lemma address_template rx scheme sep fmt :
  AddressFormat rx scheme sep fmt → templateFields (template fmt) = [js "host"; js "port"; js "database"].
Proof.
  intros [-> _ Hp _ (_ & _ & _ & Hsep)]. cbn [template]. unfold templateFields. rewrite templateFields_plain by done.
  change (templateFieldsFrom None (hostPort ++ sep ++ js "{database}"))
    with (js "host" :: js "port" :: templateFieldsFrom None (sep ++ js "{database}")).
  by rewrite templateFields_plain by done.
Qed.

Lemma extract_address fmt caps host port database :
  templateFields (template fmt) = [js "host"; js "port"; js "database"] →
  stripJdbcHostBrackets (default [] (capture 1 caps)) = host → default [] (capture 2 caps) = port →
  default [] (capture 4 caps) = database →
  extractObj fmt caps = [(js "host", host); (js "port", port); (js "database", database)].
Proof. intros Ht <- <- <-. unfold extractObj. rewrite Ht. reflexivity. Qed.

(** What is read back from a URL. *)
Lemma read_address rx scheme sep fmt native d host port database :
  AddressFormat rx scheme sep fmt → FieldsOk d host port database →
  urlEntered fmt native (addressUrl scheme sep host port database) =
    [(js "host", host); (js "port", port); (js "database", database)].
Proof.
  intros Hf Hok. pose proof (host_bare _ _ _ _ Hok) as Hs. pose proof (strip_format host Hs) as Hsf.
  pose proof (address_template rx scheme sep fmt Hf) as Ht. destruct Hf as [Hfmt Hm _ Hset Hsep].
  destruct (match_address rx scheme sep wordDash (formatJdbcHostForUrl host) port database) as (caps & Hc & H1 & H2 & H4); try apply Hok; try done.
  - by intros c (_ & _ & ?)%wordDash_plain.
  - apply format_host_line; apply Hok.
  - unfold urlEntered, toStoredUrl, addressUrl. rewrite settled_url by done. rewrite Hfmt at 1. cbn [pattern]. rewrite Hc.
    rewrite (extract_address fmt caps host port database) by (done || by rewrite ?H1, ?H2).
    cbv zeta. change (dget (js "host") _) with (Some host). cbn [default from_option id].
    rewrite (contains_app scheme (formatJdbcHostForUrl host)). by rewrite !andb_false_r.
Qed.

(** The fields after a change. *)
Lemma spread_fields {V} x (a b : dict V) : NoDup (dkeys a) → NoDup (dkeys b) →
  dget x (assignAll a (assignAll a b)) = match dget x b with Some v => Some v | None => dget x a end.
Proof.
  intros Ha Hb. rewrite dget_assignAll by (by apply NoDup_assignAll). rewrite dget_assignAll by done.
  destruct (dget x b); [done|]. by destruct (dget x a).
Qed.

(** Entering a URL that gives the fields the values they have changes nothing. *)
Lemma enter_same fmt native url newData d changed x :
  dget (js "url") d = Some url → NoDup (dkeys d) → NoDup (dkeys newData) → urlEntered fmt native url = newData →
  (∀ k v, dget k newData = Some v → dget k d = Some v) →
  dget x (fields (fieldChanged fmt native (js "url") url (mkForm d changed))) = dget x d.
Proof.
  intros Hurl Hd Hn Hu Hsame. unfold fieldChanged. cbn [fields]. rewrite dset_same by done. cbn [aliasChanged].
  unfold regEXFormatting.
  assert (shouldSyncJdbcUrlForField (Some (js "url")) (template fmt) = true) as -> by reflexivity.
  assert (bool_decide (Some (js "url") = Some (js "url")) = true) as -> by reflexivity.
  assert (bool_decide (Some (js "url") = Some (js "host")) = false) as -> by reflexivity.
  rewrite Hu. cbn [negb andb fields]. rewrite spread_fields by done.
  destruct (dget x newData) as [v|] eqn:Ex; [|done]. symmetry. by apply Hsame.
Qed.

Lemma address_fieldNames rx scheme sep fmt :
  AddressFormat rx scheme sep fmt → getJdbcTemplateFieldNames (template fmt) = [js "host"; js "port"; js "database"].
Proof. intros Hf. unfold getJdbcTemplateFieldNames. by rewrite (address_template rx scheme sep). Qed.

(** What a change of a field of the address sets. *)
Lemma enter_address rx scheme sep fmt native k d host port database :
  AddressFormat rx scheme sep fmt → FieldsOk d host port database →
  fieldEntered fmt native (Some k) d =
  let url := [(js "url", addressUrl scheme sep host port database)] in
  if bool_decide (k = js "host") then url ++ [(js "host", host)] else url.
Proof.
  intros Hf Hok. pose proof (host_bare _ _ _ _ Hok) as Hs. destruct (fields_address _ _ _ _ Hok) as (Eh & _ & _).
  unfold fieldEntered. rewrite Eh.
  assert (match Some host with Some ((_ :: _) as host') => dset (js "host") (normalizeJdbcHostFromUrl host') d | _ => d end = d) as ->.
  { unfold normalizeJdbcHostFromUrl. destruct host; [done|]. rewrite Hs. by apply dset_same. }
  rewrite (fill_address rx scheme sep) with (host := host) (port := port) (database := database) by done.
  assert (displayUrl native (addressUrl scheme sep host port database) = addressUrl scheme sep host port database) as ->.
  { unfold displayUrl, addressUrl. destruct native; [|done]. apply settled_url, Hf. }
  rewrite Eh. cbv zeta. destruct (decide (k = js "host")) as [->|Hk].
  - rewrite !bool_decide_eq_true_2 by done. reflexivity.
  - rewrite !bool_decide_eq_false_2 by congruence. reflexivity.
Qed.

Lemma change_address rx scheme sep fmt native k v d changed host port database :
  AddressFormat rx scheme sep fmt → k ∈ [js "host"; js "port"; js "database"] → FieldsOk (dset k v d) host port database →
  let s := fieldChanged fmt native k v (mkForm d changed) in
  NoDup (dkeys (fields s)) ∧ AddressFields (fields s) host port database ∧
  dget (js "url") (fields s) = Some (addressUrl scheme sep host port database).
Proof.
  intros Hf Hk Hok. cbv zeta. unfold fieldChanged, regEXFormatting. cbn [fields aliasChanged].
  set (final := dset k v d) in *. pose proof (fields_unique _ _ _ _ Hok) as Hu. destruct (fields_address _ _ _ _ Hok) as (Eh & Ep & Ed).
  assert (shouldSyncJdbcUrlForField (Some k) (template fmt) = true) as ->.
  { unfold shouldSyncJdbcUrlForField. rewrite (address_fieldNames rx scheme sep fmt Hf).
    rewrite !elem_of_cons, elem_of_nil in Hk. destruct Hk as [->|[->|[->|[]]]]; reflexivity. }
  cbn [negb]. assert (bool_decide (Some k = Some (js "url")) = false ∧ bool_decide (Some k = Some (js "alias")) = false) as [-> ->].
  { rewrite !elem_of_cons, elem_of_nil in Hk. destruct Hk as [->|[->|[->|[]]]]; split; reflexivity. }
  rewrite (enter_address rx scheme sep fmt native k final host port database Hf Hok). cbv zeta. cbn [fields].
  set (url := addressUrl scheme sep host port database).
  set (newData := if _ && _ then _ else _).
  assert (NoDup (dkeys newData) ∧ dget (js "url") newData = Some url ∧
    dget (js "port") newData = None ∧ dget (js "database") newData = None ∧
    (dget (js "host") newData = None ∨ dget (js "host") newData = Some host)) as (Hnd & H1 & H2 & H3 & H4).
  { subst newData. set (alias := js "@" ++ normalizeJdbcHostFromUrl v). clearbody url alias. clear.
    assert (NoDup (dkeys [(js "url", url); (js "host", host)])) as Hn2 by (apply (bool_decide_unpack _); vm_compute; exact I).
    assert (NoDup (dkeys [(js "url", url)])) as Hn1 by apply NoDup_singleton.
    destruct (bool_decide (k = js "host")), (bool_decide (Some k = Some (js "host"))), changed; cbn [andb orb negb app];
      split_and!; try done; try (by apply NoDup_dkeys_dset); try reflexivity; by (left; reflexivity) || (right; reflexivity). }
  clearbody newData. unfold AddressFields. split_and!.
  - by apply NoDup_assignAll.
  - rewrite spread_fields by done. destruct H4 as [-> | ->]; done.
  - rewrite spread_fields by done. by rewrite H2.
  - rewrite spread_fields by done. by rewrite H3.
  - rewrite spread_fields by done. by rewrite H1.
Qed.

(** ** The formats of the data sources *)

(** The data sources whose URL is converted before it is matched with a pattern for
    the unconverted one. *)
Definition unreadFormats : list jstr :=
  [js "SQLSERVER"; js "TIDB"; js "COCKROACHDB"; js "DORIS"; js "STARROCKS"; js "GAUSSDB"].

Lemma lit_scheme t : matchesScheme (Lit t) t.
Proof. intros R s k. apply matchAt_lit. Qed.

Lemma maybe_scheme pre t : startsWith pre t = false → startsWith t pre = false → matchesScheme (Cat (Maybe (Lit pre)) (Lit t)) t.
Proof.
  intros H1 H2 R s k. cbn [matchAt]. rewrite startsWith_incompatible by done. by rewrite startsWith_app, drop_app_length.
Qed.

Lemma slash_ok sep : includes (ch ":") sep || includes DOLLAR sep || includes (ch "{") sep = false →
  match sep with c :: _ => is_digit c = false | [] => False end → sepOk sep.
Proof.
  intros [[H1 H2]%orb_false_iff H3]%orb_false_iff Hc. apply bool_decide_eq_false in H1, H2, H3.
  split_and!; [|done..]. destruct sep as [|c rest]; [done|]. by exists c, rest.
Qed.

Lemma plain_check t : includes (ch "{") t = false → plain t.
Proof. apply bool_decide_eq_false. Qed.

Lemma standard_ok scheme :
  includes (ch "{") scheme = false → settledScheme scheme = true →
  AddressFormat (Lit scheme) scheme (js "/") (standardFormat scheme).
Proof. intros H1 H2. split; [done|apply lit_scheme|by apply plain_check|done|by apply slash_ok]. Qed.

Lemma native_ok scheme :
  includes (ch "{") scheme = false → settledScheme scheme = true →
  startsWith (js "jdbc:") scheme = false → startsWith scheme (js "jdbc:") = false →
  AddressFormat (Cat (Maybe (Lit (js "jdbc:"))) (Lit scheme)) scheme (js "/") (nativeFormat scheme).
Proof. intros H1 H2 H3 H4. split; [done|by apply maybe_scheme|by apply plain_check|done|by apply slash_ok]. Qed.

Definition addressFormat (fmt : UrlFormat) : Prop := ∃ rx scheme sep, AddressFormat rx scheme sep fmt.

Lemma address_formats : Forall (λ nf, nf.1 ∈ unreadFormats ∨ addressFormat nf.2) addressFormats.
Proof.
  unfold addressFormats. repeat apply Forall_cons_2; [..|apply Forall_nil_2];
    first [left; apply (bool_decide_unpack _); vm_compute; exact I
          | right; eexists _, _, _; first [apply standard_ok; vm_compute; reflexivity | apply native_ok; vm_compute; reflexivity]
          | right; exists (Lit (js "jdbc:snowflake://")), (js "jdbc:snowflake://"), (js "/?db=");
            split; [reflexivity|apply lit_scheme|by apply plain_check|reflexivity|by apply slash_ok]].
Qed.

(** C35: the URL of a data source and its fields agree.  For every data source with an address whose URL is read as it is
    written: after the host, the port or the database of a form is changed, to a host without brackets, a number and a name
    of letters, digits, underscores and hyphens, the URL is the template with the fields, and entering this URL, which is
    also done when the data source is opened again, leaves every field as it is. *)
Theorem url_and_fields_agree name fmt native k v d changed host port database :
  (name, fmt) ∈ addressFormats → name ∉ unreadFormats → k ∈ [js "host"; js "port"; js "database"] →
  FieldsOk (dset k v d) host port database →
  let s := fieldChanged fmt native k v (mkForm d changed) in
  AddressFields (fields s) host port database ∧
  dget (js "url") (fields s) = Some (fillTemplate (dset k v d) (template fmt)) ∧
  ∀ x, dget x (fields (fieldChanged fmt native (js "url") (fillTemplate (dset k v d) (template fmt)) s)) = dget x (fields s).
Proof.
  intros Hin Hread Hk Hok s. assert (addressFormat fmt) as (rx & scheme & sep & Hf).
  { pose proof address_formats as Hall. rewrite Forall_forall in Hall. by destruct (Hall _ Hin). }
  rewrite (fill_address rx scheme sep fmt _ host port database Hf Hok).
  destruct (change_address rx scheme sep fmt native k v d changed host port database Hf Hk Hok) as (Hu & Ha & Hurl). fold s in Hu, Ha, Hurl.
  split_and!; [done|done|]. intros x. destruct s as [d' changed'] eqn:Es. cbn [fields] in *.
  eapply enter_same; [done|done| |by apply (read_address rx scheme sep fmt native (dset k v d))|].
  - apply (bool_decide_unpack _). vm_compute. exact I.
  - destruct Ha as (Eh & Ep & Ed). intros k' v'. cbn [dget]. by repeat (case_decide; [subst; by intros [= <-]|]).
Qed.

(** ** Concrete forms *)

Definition sampleForm : dict jstr :=
  [(js "alias", js "@db"); (js "host", js "db"); (js "port", js "3306"); (js "user", js "root"); (js "password", js "p$1{host}");
   (js "database", js "shop"); (js "url", [])].

Lemma url_and_fields_agree_witness :
  let fmt := nativeFormat (js "mysql://") in
  let s := fieldChanged fmt false (js "host") (js "::1") (mkForm sampleForm false) in
  dget (js "url") (fields s) = Some (js "mysql://[::1]:3306/shop") ∧
  dget (js "host") (fields (fieldChanged fmt false (js "url") (js "mysql://[::1]:3306/shop") s)) = Some (js "::1").
Proof.
  cbv zeta.
  pose proof (url_and_fields_agree (js "MYSQL") (nativeFormat (js "mysql://")) false (js "host") (js "::1") sampleForm false
    (js "::1") (js "3306") (js "shop")) as H.
  cbv zeta in H. destruct H as (_ & Hurl & Hsame).
  - by left.
  - apply (bool_decide_unpack _). vm_compute. exact I.
  - by left.
  - split; [apply (bool_decide_unpack _); vm_compute; exact I|apply (bool_decide_unpack _); vm_compute; exact I
           |split_and!; reflexivity|vm_compute; reflexivity|apply (bool_decide_unpack _); vm_compute; exact I
           |split; apply (bool_decide_unpack _); vm_compute; exact I
           |split; [discriminate|apply (bool_decide_unpack _); vm_compute; exact I]|apply (bool_decide_unpack _); vm_compute; exact I].
  - assert (fillTemplate (dset (js "host") (js "::1") sampleForm) (template (nativeFormat (js "mysql://"))) = js "mysql://[::1]:3306/shop")
      as E by (vm_compute; reflexivity).
    rewrite E in Hurl, Hsame. split; [exact Hurl|]. rewrite Hsame. vm_compute. reflexivity.
Defined.

Definition formatOf (name : jstr) : UrlFormat :=
  default (standardFormat []) (snd <$> List.find (λ nf, bool_decide (nf.1 = name)) (addressFormats ++ otherFormats)).

(** The URL that the form wrote itself is entered again: the fields of these data
    sources do not follow it. *)
Example own_urls_not_read :
  List.filter (λ nf, bool_decide (urlEntered nf.2 false (fillTemplate (sampleForm ++ [(js "driver", js "thin"); (js "sid", js "XE");
    (js "serviceName", js "XE"); (js "file", js "f")]) (template nf.2)) = [])) (addressFormats ++ otherFormats)
  = List.filter (λ nf, bool_decide (nf.1 ∈ unreadFormats ++ [js "ORACLE"; js "ORACLE service"])) (addressFormats ++ otherFormats).
Proof. vm_compute. reflexivity. Qed.

(** The database of a URL is cut at the first character that the pattern does not
    know; the URL itself keeps it. *)
Example database_name_cut :
  let s := fieldChanged (formatOf (js "MARIADB")) false (js "database") (js "my.shop") (mkForm sampleForm false) in
  dget (js "url") (fields s) = Some (js "jdbc:mariadb://db:3306/my.shop") ∧
  dget (js "database") (fields (fieldChanged (formatOf (js "MARIADB")) false (js "url") (js "jdbc:mariadb://db:3306/my.shop") s)) = Some (js "my").
Proof. vm_compute. done. Qed.

(** A dollar in a field is read as a replacement pattern. *)
Example dollar_in_field :
  dget (js "url") (fields (fieldChanged (formatOf (js "MARIADB")) false (js "host") (js "a$$b$&") (mkForm sampleForm false)))
  = Some (js "jdbc:mariadb://a$b{host}:3306/shop").
Proof. vm_compute. reflexivity. Qed.
