(* ===== verification/DynamicDatabases.v ===== *)
(** * DynamicDatabases: the types of databases that the engine adds

    Models [utils/dynamicDatabaseRegistry.ts], its caller
    [layouts/init/useGlobalData.tsx], [initialFormData] of
    [components/ConnectionEdit/index.tsx] and the shared items of
    [config/dataSource.ts]: types the engine knows and the client does not get an
    entry, an icon and a form made of their sample URL. *)

From S2P Require Import Prelude SqlText RegExps ConnectionUrl.
Local Open Scope nat_scope.

(** ** Forms *)

(** A text in the languages of the client. *)
Record ILocalizedConnectionText := mkLabel { enUS : jstr; zhCN : jstr; jaJP : jstr; esES : option jstr; koKR : option jstr }.

Inductive InputType := INPUT | PASSWORD | SELECT | FILE | COLOR | CHECKBOX.

(** A value of a field. *)
Inductive Value := VUndefined | VBool (b : bool) | VNum (n : Z) | VText (t : jstr).

#[export] Instance Value_eq_dec : EqDecision Value.
Proof. solve_decision. Defined.

Record ItemStyles := mkStyles { width : option jstr; labelWidth : option ILocalizedConnectionText; labelAlign : option jstr }.

Inductive IFormItem :=
  mkItem (defaultValue : Value) (inputType : InputType) (labelName : ILocalizedConnectionText) (name : jstr) (required : bool)
    (selects : list ISelect) (styles : option ItemStyles) (labelTextAlign : option jstr) (hidden : bool)
with ISelect := mkSelect (value : Value) (label : jstr) (items : list IFormItem).

Definition defaultValue (i : IFormItem) : Value := match i with mkItem d _ _ _ _ _ _ _ _ => d end.
Definition itemName (i : IFormItem) : jstr := match i with mkItem _ _ _ n _ _ _ _ _ => n end.

(** [{ ...item, defaultValue: v }]. *)
Definition withDefault (v : Value) (i : IFormItem) : IFormItem :=
  match i with mkItem _ ty l n r ss st al h => mkItem v ty l n r ss st al h end.

Record IConnectionConfig := mkConfig { type_ : jstr; items : list IFormItem; format : UrlFormat; ssh : list IFormItem }.

(** What one item of a form adds to its first values; a choice that is the default
    adds those of its own items. *)
Fixpoint addDefaults (t : IFormItem) (initValue : dict Value) : dict Value :=
  match t with
  | mkItem d _ _ n _ selects _ _ _ =>
      (fix choose (selects : list ISelect) (initValue : dict Value) : dict Value :=
         match selects with
         | [] => initValue
         | mkSelect v _ its :: selects' =>
             choose selects'
               (if decide (v = d)
                then assignAll initValue
                       ((fix all (its : list IFormItem) (acc : dict Value) : dict Value :=
                           match its with [] => acc | i :: its' => all its' (addDefaults i acc) end) its [])
                else initValue)
         end) selects (dset n d initValue)
  end.

Definition initialFormData (items : list IFormItem) : dict Value := fold_left (λ initValue t, addDefaults t initValue) items [].

(** The text that a template is filled with. *)
Definition valueText (v : Value) : jstr := match v with VText t => t | VNum n => znum n | VBool true => js "true" | _ => [] end.

Definition formTexts (d : dict Value) : dict jstr := prod_map id valueText <$> d.

(** *** The items that all forms share *)

Definition widthOnly (w : jstr) : option ItemStyles := Some (mkStyles (Some w) None None).

Definition envItem : IFormItem :=
  mkItem (VNum 1) SELECT (mkLabel (js "Env") [29615; 22659]%N [29872; 22659]%N None None) (js "environmentId") true
    [mkSelect (VNum 2) (js "TEST") []; mkSelect (VNum 3) (js "DEV") []; mkSelect (VNum 1) (js "RELEASE") []]
    (widthOnly (js "50%")) None false.

Definition storageItem (usesLocalPersistence : bool) : IFormItem :=
  mkItem (VText (js "CLOUD")) SELECT (mkLabel (js "Storage") [23384; 20648]%N [12473; 12488; 12524; 12540; 12472]%N None None)
    (js "storageType") true
    [mkSelect (VText (js "LOCAL")) (js "LOCAL") []; mkSelect (VText (js "CLOUD")) (js "CLOUD") []]
    (Some (mkStyles (Some (js "50%")) (Some (mkLabel (js "100px") (js "70px") (js "110px") None None)) None)) None usesLocalPersistence.

Definition portItem : IFormItem :=
  mkItem VUndefined INPUT (mkLabel (js "Port") [31471; 21475]%N [12509; 12540; 12488]%N None None) (js "port") true []
    (Some (mkStyles (Some (js "30%")) (Some (mkLabel (js "70px") (js "70px") (js "80px") None None)) (Some (js "right"))))
    (Some (js "right")) false.

Record SharedFormItems := mkShared { sharedEnv : IFormItem; sharedStorage : IFormItem; sharedPort : IFormItem; sharedSsh : list IFormItem }.

(** ** Summaries of the engine *)

Record ISupportedDatabaseSummary := mkSummary {
  dbType : jstr; name : jstr; supportDatabase : bool; supportSchema : bool; sqlDialect : option jstr;
  jdbcDriverClass : option jstr; urlSample : option jstr; icon : option jstr;
}.

Record IDatabase := mkDatabase {
  dbName : jstr; code : jstr; dbIcon : jstr; iconExistDark : option bool; hasDatabase : bool; hasSchema : bool;
}.

Definition DYNAMIC_DATABASE_ICON : jstr := js "icon-colourful-table".

Definition CONNECTION_FORM_LABELS : dict ILocalizedConnectionText :=
  [(js "Name", mkLabel (js "Name") [21517; 31216]%N [21517; 21069]%N (Some (js "Nombre")) (Some [51060; 47492]%N));
   (js "Host", mkLabel (js "Host") [20027; 26426]%N [12507; 12473; 12488]%N (Some (js "Host")) (Some [54840; 49828; 53944]%N));
   (js "Authentication", mkLabel (js "Authentication") [36523; 20221; 39564; 35777]%N [35469; 35388]%N (Some [65; 117; 116; 101; 110; 116; 105; 99; 97; 99; 105; 243; 110]%N) (Some [51064; 51613]%N));
   (js "User", mkLabel (js "User") [29992; 25143; 21517]%N [12518; 12540; 12470; 12540; 21517]%N (Some (js "Usuario")) (Some [49324; 50857; 51088]%N));
   (js "Password", mkLabel (js "Password") [23494; 30721]%N [12497; 12473; 12527; 12540; 12489]%N (Some [67; 111; 110; 116; 114; 97; 115; 101; 241; 97]%N) (Some [48708; 48128; 48264; 54840]%N));
   (js "Database", mkLabel (js "Database") [25968; 25454; 24211]%N [12487; 12540; 12479; 12505; 12540; 12473]%N (Some (js "Base de datos")) (Some [45936; 51060; 53552; 48288; 51060; 49828]%N));
   (js "URL", mkLabel (js "URL") (js "URL") (js "URL") (Some (js "URL")) (Some (js "URL")));
   (js "File", mkLabel (js "File") [25991; 20214]%N [12501; 12449; 12452; 12523]%N (Some (js "Archivo")) (Some [54028; 51068]%N))].

Definition localized (text : jstr) : ILocalizedConnectionText :=
  default (mkLabel text text text (Some text) (Some text)) (dget text CONNECTION_FORM_LABELS).

(** *** Icons *)

Definition dynamicIconCode (dbType : jstr) : jstr := js "icon-colourful-dyn-" ++ toLowerCase dbType.

Definition notGreater (c : N) : bool := negb (c =? ch ">")%N.
Definition notQuote (c : N) : bool := negb (c =? DQUOTE)%N.
Definition anything (c : N) : bool := true.

Definition svgPattern : RegExp :=
  Cat (Lit (js "<svg")) (Cat (Many notGreater) (Cat (Lit (js "viewBox=" ++ [DQUOTE])) (Cat (Group 1 (Plus notQuote))
    (Cat (Lit [DQUOTE]) (Cat (Many notGreater) (Cat (Lit (js ">")) (Cat (Group 2 (Many anything)) (Lit (js "</svg>"))))))))).

Definition buildIconSymbol (summary : ISupportedDatabaseSummary) : option jstr :=
  match matchRegExp svgPattern (default [] (icon summary)) with
  | None => None
  | Some caps =>
      Some (js "<symbol id=" ++ [DQUOTE] ++ dynamicIconCode (dbType summary) ++ [DQUOTE] ++ js " viewBox=" ++ [DQUOTE] ++
            default [] (capture 1 caps) ++ [DQUOTE] ++ js ">" ++ default [] (capture 2 caps) ++ js "</symbol>")
  end.

Definition buildIconSprite (summaries : list ISupportedDatabaseSummary) : jstr :=
  match concat (omap buildIconSymbol summaries) with
  | [] => []
  | symbols =>
      js "<svg style=" ++ [DQUOTE] ++ js "position:absolute;width:0;height:0;overflow:hidden" ++ [DQUOTE] ++
      js " aria-hidden=" ++ [DQUOTE] ++ js "true" ++ [DQUOTE] ++ js ">" ++ symbols ++ js "</svg>"
  end.

Definition buildDynamicDatabase (summary : ISupportedDatabaseSummary) : IDatabase :=
  let hasOwnIcon := bool_decide (is_Some (buildIconSymbol summary)) in
  mkDatabase (or_else (name summary) (dbType summary)) (dbType summary)
    (if hasOwnIcon then dynamicIconCode (dbType summary) else DYNAMIC_DATABASE_ICON)
    (if hasOwnIcon then None else Some true) (supportDatabase summary) (supportSchema summary).

(** *** Sample URLs *)

(** A match of the whole text. *)
Definition matchWhole (r : RegExp) (s : jstr) : option Captures :=
  matchAt r s [] (λ rest caps, match rest with [] => Some caps | _ => None end).

Definition schemeChar (c : N) : bool := is_letter c || is_digit c || includes c [ch "."; ch "_"; ch "-"].
Definition hostChar (c : N) : bool := negb (includes c [ch ":"; ch "/"; ch "?"]).
Definition fileChar (c : N) : bool := negb (includes c [ch "/"; ch ":"]).

Definition hostPortSample : RegExp :=
  Cat (Group 1 (Cat (Lit (js "jdbc:")) (Plus schemeChar))) (Cat (Lit (js "://")) (Cat (Group 2 (Plus hostChar)) (Cat (Lit (js ":"))
    (Cat (Group 3 (Plus is_digit)) (Maybe (Cat (Lit (js "/")) (Group 4 (Many anyChar)))))))).

Definition fileSample : RegExp :=
  Cat (Group 1 (Cat (Lit (js "jdbc:")) (Cat (Plus schemeChar) (Cat (Lit (js ":")) (Maybe (Lit (js "file:")))))))
    (Maybe (Group 2 (Cat (One fileChar) (Many anything)))).

Record ParsedUrlSample := mkSample { scheme : jstr; host : jstr; port : jstr; database : jstr }.

Definition parseHostPortUrlSample (urlSample : option jstr) : option ParsedUrlSample :=
  caps ← matchWhole hostPortSample (default [] urlSample);
  Some (mkSample (default [] (capture 1 caps)) (default [] (capture 2 caps)) (default [] (capture 3 caps)) (default [] (capture 4 caps))).

(** The prefix and the file. *)
Definition parseFileUrlSample (urlSample : option jstr) : option (jstr * jstr) :=
  caps ← matchWhole fileSample (default [] urlSample);
  if contains (js "://") (default [] urlSample) then None
  else Some (default [] (capture 1 caps), default [] (capture 2 caps)).

(** *** The form of an added type *)

Definition textItem (name label defaultValue : jstr) (required : bool) (width : option jstr) : IFormItem :=
  mkItem (VText defaultValue) INPUT (localized label) name required [] (w ← width; widthOnly w) None false.

Definition authenticationItem : IFormItem :=
  mkItem (VText (js "1")) SELECT (localized (js "Authentication")) (js "authenticationType") true
    [mkSelect (VText (js "1")) (js "User&Password")
       [textItem (js "user") (js "User") [] false None;
        mkItem (VText []) PASSWORD (localized (js "Password")) (js "password") false [] None None false];
     mkSelect (VText (js "2")) (js "NONE") []]
    (widthOnly (js "50%")) None false.

Definition buildDynamicFormConfig (summary : ISupportedDatabaseSummary) (shared : SharedFormItems) : IConnectionConfig :=
  let urlSample := or_else (default [] (urlSample summary)) (js "jdbc:") in
  let alias := textItem (js "alias") (js "Name") (js "@" ++ or_else (name summary) (dbType summary)) true None in
  match parseHostPortUrlSample (Some urlSample) with
  | Some hostPort =>
      mkConfig (dbType summary)
        [alias; sharedEnv shared; sharedStorage shared; textItem (js "host") (js "Host") (host hostPort) true (Some (js "70%"));
         withDefault (VText (port hostPort)) (sharedPort shared); authenticationItem;
         textItem (js "database") (js "Database") (database hostPort) false None; textItem (js "url") (js "URL") urlSample true None]
        (mkFormat (addressPattern (Lit (scheme hostPort ++ js "://")) (js "/") (Many anyChar))
           (scheme hostPort ++ js "://{host}:{port}/{database}"))
        (sharedSsh shared)
  | None =>
      match parseFileUrlSample (Some urlSample) with
      | Some (prefix, file) =>
          mkConfig (dbType summary)
            [alias; sharedEnv shared; sharedStorage shared;
             mkItem (VText file) FILE (localized (js "File")) (js "file") true [] None None false;
             authenticationItem; textItem (js "url") (js "URL") urlSample true None]
            (mkFormat (Cat (Lit prefix) (Maybe (Group 1 (Many anyChar)))) (prefix ++ js "{file}"))
            (sharedSsh shared)
      | None =>
          mkConfig (dbType summary)
            [alias; sharedEnv shared; sharedStorage shared; textItem (js "url") (js "URL") urlSample true None; authenticationItem]
            (mkFormat (Cat (Lit (js "jdbc:")) (Plus notSpace)) urlSample)
            (sharedSsh shared)
      end
  end.

(** ** The registry *)

Record DynamicDatabaseRegistries := mkRegistries {
  databaseMap : dict IDatabase; databaseTypeList : list IDatabase; dataSourceFormConfigs : list IConnectionConfig;
}.

(** What every object has without an entry of its own. *)
Definition objectMembers : list jstr :=
  [js "constructor"; js "hasOwnProperty"; js "isPrototypeOf"; js "propertyIsEnumerable"; js "toLocaleString"; js "toString"; js "valueOf";
   js "__proto__"; js "__defineGetter__"; js "__defineSetter__"; js "__lookupGetter__"; js "__lookupSetter__"].

(** [databaseMap[dbType]] is a value. *)
Definition isKnown (r : DynamicDatabaseRegistries) (dbType : jstr) : bool :=
  bool_decide (is_Some (dget dbType (databaseMap r))) || includes dbType objectMembers.

Definition hasConfig (r : DynamicDatabaseRegistries) (dbType : jstr) : bool :=
  existsb (λ config, bool_decide (type_ config = dbType)) (dataSourceFormConfigs r).

Definition registerSummary (shared : SharedFormItems) (ra : DynamicDatabaseRegistries * list jstr)
    (summary : option ISupportedDatabaseSummary) : DynamicDatabaseRegistries * list jstr :=
  let '(r, added) := ra in
  match summary with
  | None => ra
  | Some summary =>
      let type := trim (dbType summary) in
      if bool_decide (type = []) || isKnown r type then ra
      else
        let database := buildDynamicDatabase summary in
        let r' := mkRegistries (dset type database (databaseMap r)) (databaseTypeList r ++ [database]) (dataSourceFormConfigs r) in
        (if hasConfig r type then r'
         else mkRegistries (databaseMap r') (databaseTypeList r') (dataSourceFormConfigs r' ++ [buildDynamicFormConfig summary shared]),
         added ++ [type])
  end.

(** The registries, the version and the listeners, and which of them were called. *)
Record Dynamic := mkDynamic {
  registries : DynamicDatabaseRegistries; dynamicDatabaseVersion : Z; dynamicDatabaseListeners : list nat; called : list nat;
}.

Definition subscribeDynamicDatabases (listener : nat) (d : Dynamic) : Dynamic :=
  mkDynamic (registries d) (dynamicDatabaseVersion d)
    (if decide (listener ∈ dynamicDatabaseListeners d) then dynamicDatabaseListeners d else dynamicDatabaseListeners d ++ [listener]) (called d).

Definition unsubscribe (listener : nat) (d : Dynamic) : Dynamic :=
  mkDynamic (registries d) (dynamicDatabaseVersion d) (filter (λ l, l ≠ listener) (dynamicDatabaseListeners d)) (called d).

Definition registerDynamicDatabases (summaries : option (list (option ISupportedDatabaseSummary))) (shared : SharedFormItems) (d : Dynamic)
    : list jstr * Dynamic :=
  let '(r, added) := fold_left (registerSummary shared) (default [] summaries) (registries d, []) in
  (added,
   match added with
   | [] => mkDynamic r (dynamicDatabaseVersion d) (dynamicDatabaseListeners d) (called d)
   | _ => mkDynamic r (dynamicDatabaseVersion d + 1) (dynamicDatabaseListeners d) (called d ++ dynamicDatabaseListeners d)
   end).

(** [useGlobalData]: the engine answered; [sprite] is the element with the icons.  A
    missing summary makes the search for icons fail after the registration. *)
Definition summariesArrived (summaries : option (list (option ISupportedDatabaseSummary))) (usesLocalPersistence : bool)
    (sshConfig : list IFormItem) (d : Dynamic) (sprite : option jstr) : Dynamic * option jstr :=
  let '(added, d') := registerDynamicDatabases summaries (mkShared envItem (storageItem usesLocalPersistence) portItem sshConfig) d in
  (d',
   match added with
   | [] => sprite
   | _ =>
       match mapM id (default [] summaries) with
       | None => sprite
       | Some all =>
           match buildIconSprite (List.filter (λ summary, includes (dbType summary) added) all) with
           | [] => sprite
           | icons => Some (default icons sprite)
           end
       end
   end).

(** ** Sample URLs are taken apart as they are put together *)

(** [s] is a sample URL with the parts of [p]. *)
Record SampleUrl (s : jstr) (p : ParsedUrlSample) : Prop := mkSampleUrl {
  sample_scheme : ∃ sc, scheme p = js "jdbc:" ++ sc ∧ sc ≠ [] ∧ Forall (λ c, schemeChar c = true) sc;
  sample_host : host p ≠ [] ∧ Forall (λ c, hostChar c = true) (host p);
  sample_port : port p ≠ [] ∧ Forall (λ c, is_digit c = true) (port p);
  sample_database : Forall (λ c, anyChar c = true) (database p);
  sample_text : ∃ tail, s = scheme p ++ js "://" ++ host p ++ js ":" ++ port p ++ tail ∧
    (tail = [] ∧ database p = [] ∨ tail = js "/" ++ database p);
}.

Lemma class_not (f : N → bool) c : f c = false → ∀ t, Forall (λ c, f c = true) t → c ∉ t.
Proof. intros Hc t Ht Hin. rewrite Forall_forall in Ht. specialize (Ht _ Hin). cbn in Ht. congruence. Qed.

(** A repetition of at least one character that ends where the class does. *)
Lemma match_plus {R} f a b caps (k : jstr → Captures → option R) x :
  a ≠ [] → Forall (λ c, f c = true) a → (∀ c, head b = Some c → f c = false) → k b caps = Some x →
  matchAt (Plus f) (a ++ b) caps k = Some x.
Proof.
  intros Ha Hf Hb Hk. destruct a as [|c a]; [done|]. apply Forall_cons in Hf as [Hc Hf].
  cbn [Plus matchAt app]. rewrite Hc. by apply matchMany_all.
Qed.

Lemma match_group_plus {R} n f r a b caps (k : jstr → Captures → option R) x :
  a ≠ [] → Forall (λ c, f c = true) a → (∀ c, head b = Some c → f c = false) → matchAt r b ((n, a) :: caps) k = Some x →
  matchAt (Cat (Group n (Plus f)) r) (a ++ b) caps k = Some x.
Proof. intros Ha Hf Hb Hk. cbn [matchAt]. apply match_plus; [done..|]. by rewrite taken. Qed.

Lemma match_lit_cat {R} t r s caps (k : jstr → Captures → option R) : matchAt (Cat (Lit t) r) (t ++ s) caps k = matchAt r s caps k.
Proof. cbn [matchAt]. by rewrite startsWith_app, drop_app_length. Qed.

Ltac inv_matches :=
  repeat match goal with
  | H : Matches (Lit _) _ _ _ |- _ => inversion H; clear H; subst
  | H : Matches (One _) _ _ _ |- _ => inversion H; clear H; subst
  | H : Matches (Many _) _ _ _ |- _ => inversion H; clear H; subst
  | H : Matches (Plus _) _ _ _ |- _ => unfold Plus in H
  | H : Matches (Cat _ _) _ _ _ |- _ => inversion H; clear H; subst
  | H : Matches (Maybe _) _ _ _ |- _ => inversion H; clear H; subst
  | H : Matches (Group _ _) _ _ _ |- _ => inversion H; clear H; subst
  end.

Lemma matchWhole_sound r s caps : matchWhole r s = Some caps → Matches r s [] caps.
Proof.
  unfold matchWhole. intros (m & s' & c' & -> & Hm & Hk)%matchAt_sound.
  destruct s'; [|done]. injection Hk as <-. by rewrite app_nil_r.
Qed.

Lemma parse_sound s p : parseHostPortUrlSample (Some s) = Some p → SampleUrl s p.
Proof.
  unfold parseHostPortUrlSample. cbn [default from_option id]. destruct (matchWhole hostPortSample s) as [caps|] eqn:Em; [|done].
  cbn [mbind option_bind]. intros [= <-]. apply matchWhole_sound in Em. unfold hostPortSample in Em. inv_matches.
  all: rewrite !capture_cons; cbn [Nat.eqb default from_option id]; split; cbn [scheme host port database].
  all: try (split; [done|by constructor]).
  all: try (eexists; split_and!; [reflexivity|done|by constructor]).
  all: try done.
  all: try constructor.
  - exists []. auto.
  - exists (js "/" ++ m5). auto.
Qed.

Lemma parse_complete s p : SampleUrl s p → parseHostPortUrlSample (Some s) = Some p.
Proof.
  destruct p as [sch h po db]. intros [(sc & Hsch & Hne & Hsc) [Hh Hhc] [Hp Hpc] Hdb (tail & -> & Ht)].
  cbn [scheme host port database] in *. subst sch. unfold parseHostPortUrlSample. cbn [default from_option id].
  set (caps := (match tail with [] => [] | _ => [(4, db)] end ++ [(3, po); (2, h); (1, js "jdbc:" ++ sc)])).
  assert (matchWhole hostPortSample ((js "jdbc:" ++ sc) ++ js "://" ++ h ++ js ":" ++ po ++ tail) = Some caps) as ->.
  2: { cbn [mbind option_bind]. subst caps. destruct Ht as [[-> ->]| ->]; reflexivity. }
  unfold matchWhole, hostPortSample.
  set (r4 := Maybe (Cat (Lit (js "/")) (Group 4 (Many anyChar)))). set (r3 := Cat (Group 3 (Plus is_digit)) r4).
  set (r2 := Cat (Group 2 _) _). cbn [matchAt]. rewrite <- (assoc_L (++)), startsWith_app, drop_app_length.
  apply match_plus; [done|done|by intros ? [= <-]|]. rewrite startsWith_app, drop_app_length, (assoc_L (++) (js "jdbc:") sc), taken.
  subst r2. apply match_group_plus; [done|done|by intros ? [= <-]|]. rewrite match_lit_cat. subst r3.
  apply match_group_plus; [done|done| |].
  - intros c. destruct Ht as [[-> _]| ->]; [done|]. by intros [= <-].
  - subst caps r4. destruct Ht as [[-> _]| ->]; [done|]. cbn [matchAt]. rewrite startsWith_app, drop_app_length.
    change (match js "/" ++ db with [] => [] | _ => [(4, db)] end) with [(4, db)].
    rewrite (matchMany_end _ db _ ((4, db) :: [(3, po); (2, h); (1, js "jdbc:" ++ sc)])); [done|done|].
    cbn [length Nat.eqb js app]. by rewrite Nat.sub_0_r, firstn_all.
Qed.

(** Sample URLs are parsed exactly.  A sample URL has a scheme, a host, a port and a database exactly when it is
    [jdbc:] with letters, digits, dots, underscores and hyphens, then a host without colon, slash and question mark, a
    number and, after a slash, a database on one line; it is null for every other text. *)
Theorem sample_urls_parsed s p : parseHostPortUrlSample (Some s) = Some p ↔ SampleUrl s p.
Proof. split; [apply parse_sound|apply parse_complete]. Qed.

(** ** The form of an added type *)

Lemma scheme_plain_text sc : Forall (λ c, schemeChar c = true) sc → plain (js "jdbc:" ++ sc ++ js "://").
Proof.
  intros Hsc. unfold plain. rewrite !not_elem_of_app. split_and!; [by apply (bool_decide_unpack _)|by apply (class_not schemeChar)|by apply (bool_decide_unpack _)].
Qed.

Lemma removelast_elem (c : N) t : c ∈ removelast t → c ∈ t.
Proof. intros Hc. destruct t as [|d t _] using rev_ind; [done|]. rewrite removelast_last in Hc. rewrite elem_of_app. by left. Qed.

Lemma strip_elem c t : c ∈ stripJdbcHostBrackets t → c ∈ t.
Proof. unfold stripJdbcHostBrackets. case_match; [|done]. intros Hc%removelast_elem. destruct t; [done|by right]. Qed.

(** A host of a sample URL is no IPv6 address. *)
Lemma sample_host_kept h : Forall (λ c, hostChar c = true) h → stripJdbcHostBrackets h = h → formatJdbcHostForUrl h = h.
Proof.
  intros Hh Hs. unfold formatJdbcHostForUrl. rewrite Hs. unfold isIpv6LiteralHost.
  assert (includes (ch ":") (stripJdbcHostBrackets (trim h)) = false) as ->; [|done].
  apply bool_decide_eq_false. intros Hc%strip_elem%trim_elem. by eapply (class_not hostChar); [| |exact Hc].
Qed.

Lemma slash_digit db : ¬ digitAfterColon db → ¬ digitAfterColon (js "/" ++ db).
Proof. intros Hn (a & c & b & E & Hc). destruct a as [|d a]; [done|]. injection E as _ E. apply Hn. by exists a, c, b. Qed.

Section added.
Context (s : jstr) (p : ParsedUrlSample).
Hypothesis Hsample : SampleUrl s p.
Hypothesis Hline : Forall (λ c, anyChar c = true) s.
Hypothesis Hhost : stripJdbcHostBrackets (host p) = host p.
Hypothesis Hdb : ¬ digitAfterColon (database p).
Hypothesis Hsettled : toDisplayUrl s = s.

Lemma sample_matches :
  ∃ caps, matchRegExp (addressPattern (Lit (scheme p ++ js "://")) (js "/") (Many anyChar)) s = Some caps ∧
    capture 1 caps = Some (host p) ∧ capture 2 caps = Some (port p) ∧ default [] (capture 4 caps) = database p.
Proof.
  destruct p as [sch h po db]. destruct Hsample as [_ _ [Hp Hpc] Hdbl (tail & Es & Ht)]. cbn [scheme host port database] in *.
  set (caps := match tail with [] => [] | _ => [(3, tail); (4, db)] end ++ [(2, po); (1, h)]).
  exists caps. split_and!; [|destruct Ht as [[-> ->]| ->]; reflexivity..].
  apply matchRegExp_at. unfold addressPattern. set (r := Maybe _). rewrite Es, (assoc_L (++) sch (js "://")), match_lit_cat.
  apply (match_host_port h po tail []); try done.
  - rewrite Es, !Forall_app in Hline. tauto.
  - intros c. destruct Ht as [[-> _]| ->]; [done|]. by intros [= <-].
  - destruct Ht as [[-> _]| ->]; [|by apply slash_digit]. by intros ([|] & ? & ? & ? & _).
  - subst caps r. destruct Ht as [[-> _]| ->]; [done|]. cbn [matchAt]. rewrite startsWith_app, drop_app_length.
    change (match js "/" ++ db with [] => [] | _ => [(3, js "/" ++ db); (4, db)] end) with [(3, js "/" ++ db); (4, db)].
    rewrite (matchMany_end _ db _ ((3, js "/" ++ db) :: (4, db) :: [(2, po); (1, h)])); [done|done|].
    cbn [length Nat.eqb js app]. by rewrite !Nat.sub_0_r, firstn_all, firstn_all.
Qed.

Lemma sample_template : templateFields (scheme p ++ js "://{host}:{port}/{database}") = [js "host"; js "port"; js "database"].
Proof.
  destruct Hsample as [(sc & -> & _ & Hsc) _ _ _ _]. unfold templateFields. rewrite templateFields_plain; [reflexivity|].
  apply scheme_plain_text in Hsc. unfold plain in *. rewrite !not_elem_of_app in *. tauto.
Qed.

Lemma sample_read native :
  urlEntered (mkFormat (addressPattern (Lit (scheme p ++ js "://")) (js "/") (Many anyChar)) (scheme p ++ js "://{host}:{port}/{database}"))
    native s = [(js "host", host p); (js "port", port p); (js "database", database p)].
Proof.
  destruct sample_matches as (caps & Hm & H1 & H2 & H4). unfold urlEntered, toStoredUrl. rewrite Hsettled. cbn [pattern]. rewrite Hm.
  rewrite (extract_address _ caps (host p) (port p) (database p)); [|apply sample_template|by rewrite H1|by rewrite H2|done].
  cbv zeta. change (dget (js "host") _) with (Some (host p)). cbn [default from_option id].
  rewrite sample_host_kept by (apply Hsample || done). rewrite (bool_decide_eq_true_2 (host p = host p)) by done.
  by rewrite andb_false_r.
Qed.
End added.

(** Sample URLs with a file. *)
Lemma parse_file_sound s prefix file :
  parseFileUrlSample (Some s) = Some (prefix, file) → s = prefix ++ file ∧ plain prefix.
Proof.
  unfold parseFileUrlSample. cbn [default from_option id]. destruct (matchWhole fileSample s) as [caps|] eqn:Em; [|done].
  cbn [mbind option_bind]. case_match; [done|]. intros [= <- <-]. apply matchWhole_sound in Em. unfold fileSample in Em. inv_matches.
  all: rewrite ?capture_cons; cbn [Nat.eqb default from_option id]; rewrite ?capture_cons; cbn [Nat.eqb default from_option id].
  all: split; [by rewrite ?app_nil_r, <- ?(assoc_L (++))|].
  all: unfold plain; rewrite !not_elem_of_app.
  all: split_and!; try (by apply (bool_decide_unpack _)); try (by eapply (class_not schemeChar); [|eassumption]).
  all: rewrite list_elem_of_singleton; intros <-; discriminate.
Qed.

Lemma file_read prefix file native :
  plain prefix → Forall (λ c, anyChar c = true) (prefix ++ file) → toDisplayUrl (prefix ++ file) = prefix ++ file →
  urlEntered (mkFormat (Cat (Lit prefix) (Maybe (Group 1 (Many anyChar)))) (prefix ++ js "{file}")) native (prefix ++ file)
  = [(js "file", file)].
Proof.
  intros Hp [_ Hf]%Forall_app Hs. unfold urlEntered, toStoredUrl. rewrite Hs. cbn [pattern].
  set (caps := match file with [] => [] | _ => [(1, file)] end : Captures).
  rewrite (matchRegExp_at _ _ caps).
  - unfold extractObj. cbn [template]. unfold templateFields. rewrite templateFields_plain by done.
    subst caps. by destruct file.
  - subst caps. rewrite match_lit_cat. cbn [matchAt]. destruct file as [|c file]; [done|].
    rewrite (matchMany_end _ (c :: file) _ [(1, c :: file)]); [|done|pose proof (taken_all (c :: file)) as E; cbn [length] in *; by rewrite E]. done.
Qed.

(** A sample URL that the form can read back. *)
Record SampleOk (url : jstr) : Prop := mkSampleOk {
  ok_line : Forall (λ c, anyChar c = true) url;
  ok_settled : toDisplayUrl url = url;
  ok_address : ∀ p, SampleUrl url p → stripJdbcHostBrackets (host p) = host p ∧ ¬ digitAfterColon (database p);
  ok_plain : plain url;
}.

Definition formUrl (summary : ISupportedDatabaseSummary) : jstr := or_else (default [] (urlSample summary)) (js "jdbc:").

(** The fields that the form of an added type opens with. *)
Definition openedWith (summary : ISupportedDatabaseSummary) (usesLocalPersistence : bool) (sshConfig : list IFormItem) : dict jstr :=
  formTexts (initialFormData (items (buildDynamicFormConfig summary (mkShared envItem (storageItem usesLocalPersistence) portItem sshConfig)))).

Section opened.
Context (shown url : jstr) (usesLocalPersistence : bool).
Let alias : IFormItem := textItem (js "alias") (js "Name") shown true None.
Let urlItem : IFormItem := textItem (js "url") (js "URL") url true None.
Let storage : IFormItem := storageItem usesLocalPersistence.

Lemma opened_address host port database :
  formTexts (initialFormData [alias; envItem; storage; textItem (js "host") (js "Host") host true (Some (js "70%"));
    withDefault (VText port) portItem; authenticationItem; textItem (js "database") (js "Database") database false None; urlItem]) =
  [(js "alias", shown); (js "environmentId", js "1"); (js "storageType", js "CLOUD"); (js "host", host); (js "port", port);
   (js "authenticationType", js "1"); (js "user", []); (js "password", []); (js "database", database); (js "url", url)].
Proof. reflexivity. Qed.

Lemma opened_file file :
  formTexts (initialFormData [alias; envItem; storage; mkItem (VText file) FILE (localized (js "File")) (js "file") true [] None None false;
    authenticationItem; urlItem]) =
  [(js "alias", shown); (js "environmentId", js "1"); (js "storageType", js "CLOUD"); (js "file", file);
   (js "authenticationType", js "1"); (js "user", []); (js "password", []); (js "url", url)].
Proof. reflexivity. Qed.

Lemma opened_url :
  formTexts (initialFormData [alias; envItem; storage; urlItem; authenticationItem]) =
  [(js "alias", shown); (js "environmentId", js "1"); (js "storageType", js "CLOUD"); (js "url", url);
   (js "authenticationType", js "1"); (js "user", []); (js "password", [])].
Proof. reflexivity. Qed.
End opened.

(** A template without fields reads nothing. *)
Lemma url_read rx url native : plain url → urlEntered (mkFormat rx url) native url = [].
Proof.
  intros Hp. unfold urlEntered. cbn [pattern]. case_match; [|done].
  assert (extractObj (mkFormat rx url) c = []) as ->; [|done].
  unfold extractObj, templateFields. cbn [template]. by rewrite <- (app_nil_r url), templateFields_plain.
Qed.

Ltac closed_names := apply (bool_decide_unpack _); vm_compute; exact I.

(** The form of an added type opens with the address of its sample URL, and entering that URL leaves every field as it is;
    this holds for sample URLs of a host and port, of a file and of any other kind, with a URL on one line that is not
    rewritten to another scheme. *)
Theorem added_form_reads_sample summary usesLocalPersistence sshConfig native changed :
  SampleOk (formUrl summary) →
  let fmt := format (buildDynamicFormConfig summary (mkShared envItem (storageItem usesLocalPersistence) portItem sshConfig)) in
  let d := openedWith summary usesLocalPersistence sshConfig in
  dget (js "url") d = Some (formUrl summary) ∧
  (∀ p, SampleUrl (formUrl summary) p → AddressFields d (host p) (port p) (database p)) ∧
  (∀ prefix file, parseFileUrlSample (Some (formUrl summary)) = Some (prefix, file) →
     parseHostPortUrlSample (Some (formUrl summary)) = None → dget (js "file") d = Some file) ∧
  ∀ x, dget x (fields (fieldChanged fmt native (js "url") (formUrl summary) (mkForm d changed))) = dget x d.
Proof.
  intros [Hline Hset Haddr Hplain] fmt d. subst fmt d. unfold openedWith, buildDynamicFormConfig. fold (formUrl summary).
  set (url := formUrl summary) in *. clearbody url. set (shown := js "@" ++ _). clearbody shown.
  destruct (parseHostPortUrlSample (Some url)) as [p|] eqn:Ep.
  - pose proof (parse_sound url p Ep) as Hp. destruct (Haddr p Hp) as [Hh Hd]. cbn [items format sharedEnv sharedStorage sharedPort].
    rewrite opened_address. split_and!; [reflexivity| |done|].
    + intros p' Hp'%parse_complete. rewrite Ep in Hp'. injection Hp' as <-. by split_and!.
    + intros x. eapply enter_same; [reflexivity|closed_names| |by apply (sample_read url p)|]; [closed_names|].
      intros k v. cbn [dget]. by repeat (case_decide; [subst; by intros [= <-]|]).
  - assert (∀ p, ¬ SampleUrl url p) as Hno by (intros p Hp%parse_complete; congruence).
    destruct (parseFileUrlSample (Some url)) as [[prefix file]|] eqn:Ef; cbn [items format sharedEnv sharedStorage sharedPort].
    + rewrite opened_file. destruct (parse_file_sound _ _ _ Ef) as [-> Hp]. split_and!; [reflexivity|by intros p ?%Hno|by intros ? ? [= <- <-]|].
      intros x. eapply enter_same; [reflexivity|closed_names| |by apply file_read|]; [closed_names|].
      intros k v. cbn [dget]. by repeat (case_decide; [subst; by intros [= <-]|]).
    + rewrite opened_url. split_and!; [reflexivity|by intros p ?%Hno|done|].
      intros x. eapply enter_same; [reflexivity|closed_names| |by apply url_read|done]. constructor.
Qed.

(** The summary of the tests. *)
Definition sampleSummary (type url : jstr) : ISupportedDatabaseSummary :=
  mkSummary type type true false None None (Some url) None.

Lemma added_form_reads_sample_witness :
  let summary := sampleSummary (js "FIREBIRD") (js "jdbc:firebird://localhost:3050//var/lib/fb/demo.fdb") in
  let fmt := format (buildDynamicFormConfig summary (mkShared envItem (storageItem true) portItem [])) in
  let d := openedWith summary true [] in
  dget (js "database") d = Some (js "/var/lib/fb/demo.fdb") ∧
  dget (js "host") (fields (fieldChanged fmt true (js "url") (formUrl summary) (mkForm d false))) = Some (js "localhost").
Proof.
  cbv zeta. set (summary := sampleSummary _ _).
  destruct (added_form_reads_sample summary true [] true false) as (_ & Ha & _ & Hx).
  - split; [apply (bool_decide_unpack _); vm_compute; exact I|vm_compute; reflexivity| |apply (bool_decide_unpack _); vm_compute; exact I].
    intros p Hp%parse_complete. vm_compute in Hp. injection Hp as <-. cbn [host database]. split; [vm_compute; reflexivity|].
    apply noColon_tail. apply (bool_decide_unpack _). vm_compute. exact I.
  - split; [|rewrite Hx]; vm_compute; reflexivity.
Defined.

(** The sample URL of the tests of the registry: its form does not follow the URL it opens with. *)
Example native_sample_not_read :
  let summary := sampleSummary (js "QUESTDB") (js "jdbc:postgresql://localhost:8812/qdb") in
  urlEntered (format (buildDynamicFormConfig summary (mkShared envItem (storageItem true) portItem []))) false (js "jdbc:postgresql://myhost:5555/mydb") = [].
Proof. vm_compute. reflexivity. Qed.

(** ** The registration *)

(** The types that the summaries name, blank ones left out. *)
Definition named (summary : option ISupportedDatabaseSummary) : option (jstr * ISupportedDatabaseSummary) :=
  s ← summary; match trim (dbType s) with [] => None | type => Some (type, s) end.

(** The first summary of each type. *)
Fixpoint firstOfEach (xs : list (jstr * ISupportedDatabaseSummary)) : list (jstr * ISupportedDatabaseSummary) :=
  match xs with [] => [] | x :: xs' => x :: filter (λ y, y.1 ≠ x.1) (firstOfEach xs') end.

(** What a registration adds: the first summary of each type that is not known. *)
Definition unknownTypes (r : DynamicDatabaseRegistries) (summaries : list (option ISupportedDatabaseSummary))
    : list (jstr * ISupportedDatabaseSummary) :=
  firstOfEach (List.filter (λ x, negb (isKnown r x.1)) (omap named summaries)).

Definition withTypes (shared : SharedFormItems) (news : list (jstr * ISupportedDatabaseSummary)) (r : DynamicDatabaseRegistries) :=
  mkRegistries (databaseMap r ++ (prod_map id buildDynamicDatabase <$> news))
    (databaseTypeList r ++ (buildDynamicDatabase ∘ snd <$> news))
    (dataSourceFormConfigs r ++ ((λ x, buildDynamicFormConfig x.2 shared) <$> List.filter (λ x, negb (hasConfig r x.1)) news)).

Lemma firstOfEach_subset x xs : x ∈ firstOfEach xs → x ∈ xs.
Proof.
  induction xs as [|y xs IH]; [done|]. cbn. rewrite !elem_of_cons, list_elem_of_filter. intros [?|[_ ?]]; auto.
Qed.

Lemma firstOfEach_types t xs : t ∈ (firstOfEach xs).*1 ↔ t ∈ xs.*1.
Proof.
  induction xs as [|y xs IH]; [done|]. cbn. rewrite !elem_of_cons. destruct (decide (t = y.1)) as [->|Hne]; [tauto|].
  assert (t ∈ (filter (λ z, z.1 ≠ y.1) (firstOfEach xs)).*1 ↔ t ∈ (firstOfEach xs).*1) as ->; [|by rewrite IH].
  rewrite !list_elem_of_fmap. split; intros (z & -> & Hz); exists z; rewrite list_elem_of_filter in *; naive_solver.
Qed.

Lemma NoDup_firstOfEach xs : NoDup (firstOfEach xs).*1.
Proof.
  induction xs as [|y xs IH]; cbn; constructor.
  - rewrite list_elem_of_fmap. intros (z & Hz & Hin). apply list_elem_of_filter in Hin as [Hne _]. congruence.
  - eapply NoDup_sublist; [|exact IH]. apply fmap_sublist, sublist_filter.
Qed.

Lemma filter_swap {V} (f : jstr → bool) t (xs : dict V) :
  filter (λ y, y.1 ≠ t) (List.filter (λ x, f x.1) xs) = List.filter (λ x, f x.1) (filter (λ y, y.1 ≠ t) xs).
Proof.
  induction xs as [|z zs IH]; [done|]. cbn [List.filter]. destruct (f z.1) eqn:Ez; rewrite !filter_cons; case_decide;
    cbn [List.filter]; rewrite ?Ez; by rewrite ?IH.
Qed.

Lemma filter_absent {V} (f : jstr → bool) t (xs : dict V) :
  f t = false → List.filter (λ x, f x.1) (filter (λ y, y.1 ≠ t) xs) = List.filter (λ x, f x.1) xs.
Proof.
  intros Ht. induction xs as [|z zs IH]; [done|]. rewrite filter_cons. case_decide as Ez; cbn [List.filter]; rewrite IH; [done|].
  assert (z.1 = t) as -> by (by destruct (decide (z.1 = t))). by rewrite Ht.
Qed.

Lemma firstOfEach_filter (f : jstr → bool) xs :
  firstOfEach (List.filter (λ x, f x.1) xs) = List.filter (λ x, f x.1) (firstOfEach xs).
Proof.
  induction xs as [|y xs IH]; [done|]. cbn. destruct (f y.1) eqn:Ey; cbn; rewrite IH; [by rewrite filter_swap|by rewrite filter_absent].
Qed.

Lemma dget_app {V} k (a b : dict V) : dget k (a ++ b) = match dget k a with Some v => Some v | None => dget k b end.
Proof. induction a as [|[k' v] a IH]; [done|]. cbn. by case_decide. Qed.

Section registration.
Context (shared : SharedFormItems).

(** The registries after one type was added. *)
Definition addType (type : jstr) (summary : ISupportedDatabaseSummary) (r : DynamicDatabaseRegistries) : DynamicDatabaseRegistries :=
  withTypes shared [(type, summary)] r.

Lemma registerSummary_named r added summary :
  registerSummary shared (r, added) summary =
  match named summary with
  | Some (type, s) => if isKnown r type then (r, added) else (addType type s r, added ++ [type])
  | None => (r, added)
  end.
Proof.
  unfold registerSummary, named. destruct summary as [s|]; [|done]. cbn [mbind option_bind].
  destruct (trim (dbType s)) as [|c t] eqn:Et; [by rewrite bool_decide_eq_true_2|].
  rewrite bool_decide_eq_false_2 by done. cbn [orb]. destruct (isKnown r (c :: t)) eqn:Ek; [done|].
  assert (c :: t ∉ dkeys (databaseMap r)) as Hk.
  { rewrite <- dget_is_Some. unfold isKnown in Ek. apply orb_false_iff in Ek as [Ek _]. by apply bool_decide_eq_false in Ek. }
  rewrite dset_fresh by done. unfold addType, withTypes. cbn [List.filter fmap list_fmap prod_map fst snd id compose].
  by destruct (hasConfig r (c :: t)); cbn [negb fmap list_fmap databaseMap databaseTypeList dataSourceFormConfigs]; rewrite ?app_nil_r.
Qed.

Lemma isKnown_addType r type s t : isKnown (addType type s r) t = isKnown r t || bool_decide (t = type).
Proof.
  unfold isKnown, addType, withTypes. cbn [databaseMap fmap list_fmap prod_map fst snd id].
  assert (is_Some (dget t (databaseMap r ++ [(type, buildDynamicDatabase s)])) ↔ is_Some (dget t (databaseMap r)) ∨ t = type) as E.
  { rewrite !dget_is_Some. unfold dkeys. rewrite fmap_app, elem_of_app. cbn. by rewrite list_elem_of_singleton. }
  destruct (bool_decide (t = type)) eqn:Et; to_prop.
  - rewrite orb_true_r. apply orb_true_iff. left. apply bool_decide_eq_true_2, E. by right.
  - rewrite orb_false_r. f_equal. apply bool_decide_ext. rewrite E. tauto.
Qed.

Lemma type_buildDynamicFormConfig s : type_ (buildDynamicFormConfig s shared) = dbType s.
Proof. unfold buildDynamicFormConfig. destruct (parseHostPortUrlSample _); [done|]. by destruct (parseFileUrlSample _) as [[]|]. Qed.

Lemma hasConfig_addType r type s t :
  trim (dbType s) = type → trim t = t → t ≠ type → hasConfig (addType type s r) t = hasConfig r t.
Proof.
  intros Hs Ht Hne. unfold hasConfig, addType, withTypes. cbn [dataSourceFormConfigs]. rewrite existsb_app.
  cbn [List.filter fst]. destruct (negb _); cbn [fmap list_fmap existsb]; [|by rewrite orb_false_r].
  rewrite type_buildDynamicFormConfig. rewrite bool_decide_eq_false_2; [by rewrite !orb_false_r|]. intros E. cbn [snd] in E. congruence.
Qed.

Lemma named_type summary t s : named summary = Some (t, s) → trim (dbType s) = t ∧ trim t = t ∧ t ≠ [].
Proof.
  unfold named. destruct summary as [s'|]; [|done]. cbn. case_match eqn:Et; [done|]. intros [= <- <-]. split_and!; [done| |done]. by rewrite <- Et, trim_trim.
Qed.

Lemma unknown_type r summaries x :
  x ∈ unknownTypes r summaries → trim (dbType x.2) = x.1 ∧ trim x.1 = x.1 ∧ isKnown r x.1 = false ∧ Some x ∈ named <$> summaries.
Proof.
  intros Hx%firstOfEach_subset%list_elem_of_In%filter_In. destruct Hx as [Hx%list_elem_of_In Hk]. apply negb_true_iff in Hk.
  apply list_elem_of_omap in Hx as (summary & Hin & Hn). destruct x as [t s]. destruct (named_type _ _ _ Hn) as (? & ? & ?).
  split_and!; try done. rewrite <- Hn. by apply list_elem_of_fmap_2.
Qed.

Lemma unknownTypes_cons r summary summaries :
  unknownTypes r (summary :: summaries) =
  match named summary with
  | Some (t, s) => if isKnown r t then unknownTypes r summaries else (t, s) :: unknownTypes (addType t s r) summaries
  | None => unknownTypes r summaries
  end.
Proof.
  unfold unknownTypes. cbn [omap list_omap]. destruct (named summary) as [[t s]|]; [|done]. cbn [List.filter fst].
  destruct (isKnown r t) eqn:Ek; [done|]. cbn [negb firstOfEach fst]. f_equal.
  rewrite !(firstOfEach_filter (λ t, negb (isKnown _ t))). rewrite (filter_swap (λ u, negb (isKnown r u)) t). clear.
  induction (firstOfEach _) as [|x xs IH]; [done|]. cbn [List.filter]. rewrite isKnown_addType, filter_cons.
  destruct (bool_decide (x.1 = t)) eqn:Et; to_prop.
  - rewrite orb_true_r, decide_False by tauto. done.
  - rewrite orb_false_r, decide_True by done. cbn [List.filter]. by rewrite IH.
Qed.

Lemma withTypes_cons t s news r :
  (∀ x, x ∈ news → hasConfig (addType t s r) x.1 = hasConfig r x.1) →
  withTypes shared news (addType t s r) = withTypes shared ((t, s) :: news) r.
Proof.
  intros Hc. assert (List.filter (λ x, negb (hasConfig (addType t s r) x.1)) news = List.filter (λ x, negb (hasConfig r x.1)) news) as E.
  { induction news as [|x news IH]; [done|]. cbn [List.filter]. rewrite Hc by (by left). rewrite IH; [done|]. intros y Hy. apply Hc. by right. }
  unfold withTypes at 1. rewrite E. unfold withTypes, addType, withTypes. cbn [databaseMap databaseTypeList dataSourceFormConfigs List.filter fst].
  rewrite !fmap_cons, <- !(assoc_L (++)). f_equal. by destruct (hasConfig r t).
Qed.

Lemma withTypes_nil r : withTypes shared [] r = r.
Proof. unfold withTypes. destruct r. cbn. by rewrite !app_nil_r. Qed.

Lemma register_all summaries : ∀ r added,
  fold_left (registerSummary shared) summaries (r, added) =
  (withTypes shared (unknownTypes r summaries) r, added ++ (unknownTypes r summaries).*1).
Proof.
  induction summaries as [|summary summaries IH]; intros r added.
  - change (unknownTypes r []) with (@nil (jstr * ISupportedDatabaseSummary)). cbn. by rewrite withTypes_nil, app_nil_r.
  - cbn [fold_left]. rewrite registerSummary_named, unknownTypes_cons.
    destruct (named summary) as [[t s]|] eqn:En; [|done]. destruct (isKnown r t) eqn:Ek; [done|].
    destruct (named_type _ _ _ En) as (Hs & Ht & _). rewrite IH, fmap_cons, <- (assoc_L (++)). cbn [fst app]. f_equal.
    apply withTypes_cons. intros x (_ & Hx & Hk & _)%unknown_type. apply hasConfig_addType; [done|done|].
    intros E. rewrite isKnown_addType, E, bool_decide_eq_true_2, orb_true_r in Hk; done.
Qed.

Lemma dkeys_withTypes news r : dkeys (databaseMap (withTypes shared news r)) = dkeys (databaseMap r) ++ news.*1.
Proof. unfold withTypes, dkeys. cbn [databaseMap]. rewrite fmap_app, <- list_fmap_compose. f_equal. Qed.

Lemma isKnown_withTypes news r t : isKnown (withTypes shared news r) t = isKnown r t || bool_decide (t ∈ news.*1).
Proof.
  apply eq_true_iff_eq. unfold isKnown. rewrite !orb_true_iff, !bool_decide_eq_true, !dget_is_Some, dkeys_withTypes, elem_of_app. tauto.
Qed.

(** A known type stays known, and those that were added are known. *)
Lemma register_again summaries r :
  unknownTypes (withTypes shared (unknownTypes r summaries) r) summaries = [].
Proof.
  unfold unknownTypes at 1. assert (List.filter (λ x, negb (isKnown (withTypes shared (unknownTypes r summaries) r) x.1)) (omap named summaries) = []) as ->; [|done].
  apply list_filter_none. intros x Hx. rewrite isKnown_withTypes. destruct (isKnown r x.1) eqn:Ek; [done|]. cbn [orb].
  rewrite bool_decide_eq_true_2; [done|]. apply firstOfEach_types, list_elem_of_fmap_2, list_elem_of_In, filter_In.
  rewrite Ek. by rewrite <- list_elem_of_In.
Qed.
End registration.

(** C23: a registration adds each type once.  It adds the types that the summaries name and that are not known, each with the entry of
    its first summary and, if it has none, a form; what was registered stays as it was; the listeners are called, once each, exactly
    when a type was added; and the same summaries add nothing again. *)
Theorem registration_adds_unknown summaries shared d :
  let '(added, d') := registerDynamicDatabases summaries shared d in
  let news := unknownTypes (registries d) (default [] summaries) in
  added = news.*1 ∧ NoDup added ∧
  (∀ t, t ∈ added ↔ t ∈ (omap named (default [] summaries)).*1 ∧ isKnown (registries d) t = false) ∧
  registries d' = withTypes shared news (registries d) ∧
  (∀ t s, (t, s) ∈ news → dget t (databaseMap (registries d')) = Some (buildDynamicDatabase s)) ∧
  (∀ t e, dget t (databaseMap (registries d)) = Some e → dget t (databaseMap (registries d')) = Some e) ∧
  called d' = called d ++ (if decide (added = []) then [] else dynamicDatabaseListeners d) ∧
  registerDynamicDatabases summaries shared d' = ([], d').
Proof.
  unfold registerDynamicDatabases. rewrite register_all. cbn [app]. set (news := unknownTypes _ _).
  set (d' := match _ with [] => _ | _ => _ end). assert (registries d' = withTypes shared news (registries d)) as Hr by (subst d'; by case_match).
  split_and!; [done|apply NoDup_firstOfEach| |done|..].
  - intros t. unfold news, unknownTypes. rewrite firstOfEach_types, !list_elem_of_fmap. split.
    + intros (x & -> & Hx). rewrite list_elem_of_In, filter_In, negb_true_iff, <- list_elem_of_In in Hx. destruct Hx. eauto.
    + intros [(x & -> & Hx) Hk]. exists x. rewrite list_elem_of_In, filter_In, negb_true_iff, <- list_elem_of_In. auto.
  - intros t s Hts. rewrite Hr. unfold withTypes. cbn [databaseMap].
    destruct (unknown_type _ _ _ Hts) as (_ & _ & Hk & _). cbn [fst] in Hk. unfold isKnown in Hk.
    apply orb_false_iff in Hk as [Hk%bool_decide_eq_false _]. rewrite dget_app.
    destruct (dget t (databaseMap (registries d))) eqn:E; [by destruct Hk; eexists|].
    apply elem_dget; [|by apply (list_elem_of_fmap_2 (prod_map id buildDynamicDatabase) news (t, s))].
    unfold dkeys. rewrite <- list_fmap_compose. apply NoDup_firstOfEach.
  - intros t e He. rewrite Hr. unfold withTypes. cbn [databaseMap]. by rewrite dget_app, He.
  - subst d'. case_match eqn:E; case_decide; try done. cbn [called]. by rewrite app_nil_r.
  - assert (unknownTypes (registries d') (default [] summaries) = []) as E by (rewrite Hr; apply register_again).
    rewrite register_all, E, withTypes_nil. by destruct d'.
Qed.

(** The registration of the tests. *)
Definition knownRegistries : DynamicDatabaseRegistries :=
  mkRegistries [(js "MYSQL", mkDatabase (js "MySQL") (js "MYSQL") (js "x") None true false)] [] [].

Definition testSummaries : list (option ISupportedDatabaseSummary) :=
  [Some (sampleSummary (js "MYSQL") (js "jdbc:mysql://localhost:3306/db")); Some (sampleSummary (js "FIREBIRD") (js "jdbc:firebird://localhost:1234/db"));
   Some (sampleSummary (js "FIREBIRD") (js "jdbc:firebird://localhost:1234/db")); Some (sampleSummary (js "  ") []); None].

Example test_registration :
  let '(added, d') := registerDynamicDatabases (Some testSummaries) (mkShared envItem (storageItem true) portItem []) (mkDynamic knownRegistries 0 [7; 9] []) in
  added = [js "FIREBIRD"] ∧ length (databaseTypeList (registries d')) = 1 ∧ length (dataSourceFormConfigs (registries d')) = 1 ∧
  dynamicDatabaseVersion d' = 1%Z ∧ called d' = [7; 9].
Proof. vm_compute. done. Qed.

(** A type with spaces around it is listed under its trimmed name, but its entry and its form carry the name as it came; its
    icon is not in the sprite although its entry refers to it. *)
Example padded_type :
  let svg := js "<svg viewBox=" ++ [DQUOTE] ++ js "0 0 1 1" ++ [DQUOTE] ++ js "><g/></svg>" in
  let summary := mkSummary (js " FOO") (js "Foo") true false None None (Some (js "jdbc:foo://h:1/d")) (Some svg) in
  let '(d, sprite) := summariesArrived (Some [Some summary]) true [] (mkDynamic knownRegistries 0 [] []) None in
  code <$> dget (js "FOO") (databaseMap (registries d)) = Some (js " FOO") ∧
  type_ <$> dataSourceFormConfigs (registries d) = [js " FOO"] ∧
  dbIcon <$> dget (js "FOO") (databaseMap (registries d)) = Some (js "icon-colourful-dyn- foo") ∧ sprite = None.
Proof. vm_compute. done. Qed.
