(* ===== verification/DatabaseTypes.v ===== *)
(** * DatabaseTypes: the types of databases and what they support
    Models [constants/database.ts], [DatabaseTypeCode] of [constants/common.ts],
    [constants/databaseCapabilities.ts] and [utils/databaseJudgments.ts].  The map of
    the databases is an argument: the registry of [DynamicDatabases] adds to it. *)

From S2P Require Import Prelude SqlText DynamicDatabases.
Local Open Scope nat_scope.

Inductive DatabaseTypeCode :=
  | MYSQL | ORACLE | DB2 | MONGODB | REDIS | H2 | POSTGRESQL | SQLSERVER | SQLITE | MARIADB | CLICKHOUSE | DM | OSCAR
  | OCEANBASE | OCEANBASE_ORACLE | PRESTO | HIVE | KINGBASE | SNOWFLAKE | OPENGAUSS | SUNDB | TIDB | COCKROACHDB
  | KYLIN | XUGUDB | DUCKDB | ELASTICSEARCH | TDENGINE | BIGQUERY | REDSHIFT | INFORMIX | DORIS | STARROCKS | GAUSSDB
  | GBASE8S.

#[export] Instance DatabaseTypeCode_eq_dec : EqDecision DatabaseTypeCode.
Proof. solve_decision. Defined.

(** The text that a code is. *)
Definition typeCode (code : DatabaseTypeCode) : jstr :=
  match code with
  | MYSQL => js "MYSQL" | ORACLE => js "ORACLE" | DB2 => js "DB2" | MONGODB => js "MONGODB" | REDIS => js "REDIS"
  | H2 => js "H2" | POSTGRESQL => js "POSTGRESQL" | SQLSERVER => js "SQLSERVER" | SQLITE => js "SQLITE"
  | MARIADB => js "MARIADB" | CLICKHOUSE => js "CLICKHOUSE" | DM => js "DM" | OSCAR => js "OSCAR"
  | OCEANBASE => js "OCEANBASE" | OCEANBASE_ORACLE => js "OCEANBASE_ORACLE" | PRESTO => js "PRESTO" | HIVE => js "HIVE"
  | KINGBASE => js "KINGBASE" | SNOWFLAKE => js "SNOWFLAKE" | OPENGAUSS => js "OPENGAUSS" | SUNDB => js "SUNDB"
  | TIDB => js "TIDB" | COCKROACHDB => js "COCKROACHDB" | KYLIN => js "KYLIN" | XUGUDB => js "XUGUDB"
  | DUCKDB => js "DUCKDB" | ELASTICSEARCH => js "ELASTICSEARCH" | TDENGINE => js "TDENGINE" | BIGQUERY => js "BIGQUERY"
  | REDSHIFT => js "REDSHIFT" | INFORMIX => js "INFORMIX" | DORIS => js "DORIS" | STARROCKS => js "STARROCKS"
  | GAUSSDB => js "GAUSSDB" | GBASE8S => js "GBASE8S"
  end.

(** ** [constants/database.ts] *)

(** An entry of the map under its own code. *)
Definition entry (code : DatabaseTypeCode) (name icon : jstr) (dark : option bool) (supportDatabase supportSchema : bool) : jstr * IDatabase :=
  (typeCode code, mkDatabase name (typeCode code) icon dark supportDatabase supportSchema).

Definition firstDatabases : dict IDatabase :=
  [entry MYSQL (js "MySQL") (js "icon-colourful-MySQL") (Some true) true false;
   entry ORACLE (js "Oracle") (js "icon-colourful-Oracle") None false true;
   entry POSTGRESQL (js "PostgreSql") (js "icon-colourful-PostgreSQL") (Some true) true true;
   entry SQLSERVER (js "SQLServer") (js "icon-colourful-SQLServer") None true true;
   entry MARIADB (js "Mariadb") (js "icon-colourful-MariaDB") (Some true) true false;
   entry CLICKHOUSE (js "ClickHouse") (js "icon-colourful-Clickhouse") None false true;
   entry DM (js "DM") (js "icon-colourful-DAMENGDM8") None false true;
   entry OSCAR (js "OSCAR") (js "icon-colourful-OSCAR") None false true;
   entry PRESTO (js "Presto") (js "icon-colourful-PrestoDB") None true true;
   entry DB2 (js "DB2") (js "icon-colourful-DB2") None false true;
   entry OCEANBASE (js "OceanBase") (js "icon-colourful-OceanBase") None true false;
   entry OCEANBASE_ORACLE (js "OceanBase Oracle") (js "icon-colourful-OceanBase") None false true;
   entry SQLITE (js "SQLite") (js "icon-colourful-SQLite") (Some true) true false;
   entry H2 (js "H2") (js "icon-colourful-H2") None true true;
   entry HIVE (js "Hive") (js "icon-colourful-HIVE") None true false;
   entry KINGBASE (js "Kingbase") (js "icon-colourful-Kingbase") None true true;
   entry MONGODB (js "MongoDB") (js "icon-colourful-MongoDB") None false true;
   entry REDIS (js "Redis") (js "icon-colourful-Redis") None true false].

Definition otherDatabases : dict IDatabase :=
  [entry SNOWFLAKE (js "Snowflake") (js "icon-colourful-Snowflake") None true true;
   entry OPENGAUSS (js "openGauss") (js "icon-colourful-openGauss") None true true;
   entry SUNDB (js "SUNDB") (js "icon-colourful-SUNDB") (Some true) false true;
   entry TIDB (js "TiDB") (js "icon-colourful-TiDB") None true false;
   entry COCKROACHDB (js "CockroachDB") (js "icon-colourful-cockroachdb") (Some true) true true;
   entry KYLIN (js "Apache Kylin") (js "icon-colourful-KYLIN") None true true;
   entry XUGUDB (js "xuguDB") (js "icon-colourful-xuguDB") None true true;
   entry DUCKDB (js "DuckDB") (js "icon-colourful-duckDB") None true true;
   entry ELASTICSEARCH (js "Elasticsearch") (js "icon-colourful-elasticsearch") (Some true) true false;
   entry TDENGINE (js "TDengine") (js "icon-colourful-tdengine") (Some true) true false;
   entry BIGQUERY (js "BigQuery") (js "icon-colourful-bigquery") None true true;
   entry REDSHIFT (js "Redshift") (js "icon-colourful-redshift") None true true;
   entry INFORMIX (js "Informix") (js "icon-colourful-informix") (Some true) true true;
   entry DORIS (js "Doris") (js "icon-colourful-doris") None true false;
   entry STARROCKS (js "StarRocks") (js "icon-colourful-starrocks") None true false;
   entry GAUSSDB (js "GaussDB") (js "icon-colourful-gaussdb") None true true;
   entry GBASE8S (js "GBase8s") (js "icon-colourful-gbase8s") None true false].

Definition databaseMap : dict IDatabase := firstDatabases ++ otherDatabases.

Definition databaseTypeList : list IDatabase := databaseMap.*2.

Definition databaseTypeAliasMap : dict DatabaseTypeCode :=
  [(js "OSCAR", OSCAR); (js "OSCARDB", OSCAR); (js "SHENTONG", OSCAR); (js "SHENTONGDB", OSCAR)].

(** [databaseMap[type]] is a value: an entry or what every object has. *)
Definition hasEntry (databases : dict IDatabase) (type : jstr) : bool :=
  bool_decide (is_Some (dget type databases)) || includes type objectMembers.

Definition separator (c : N) : bool := is_space c || includes c [ch "_"; ch "-"].

Definition normalizeDatabaseType (databases : dict IDatabase) (databaseType : option jstr) : option jstr :=
  match databaseType with
  | None | Some [] => None
  | Some t =>
      let rawType := trim t in
      let upperType := toUpperCase rawType in
      let compactType := List.filter (λ c, negb (separator c)) upperType in
      if hasEntry databases rawType then Some rawType
      else if hasEntry databases upperType then Some upperType
      else typeCode <$> match dget upperType databaseTypeAliasMap with
                        | Some code => Some code
                        | None => dget compactType databaseTypeAliasMap
                        end
  end.

Definition getDatabaseInfo (databases : dict IDatabase) (databaseType : option jstr) : option IDatabase :=
  match normalizeDatabaseType databases databaseType with
  | None | Some [] => None
  | Some normalizedType => dget normalizedType databases
  end.

(** ** [utils/databaseJudgments.ts] *)

Inductive DatabaseCapability :=
  | ROUTINE_OPERATION | ACCOUNT_MANAGEMENT | ACTIVE_TRANSACTION_INSPECTION | DATABASE_DELETE | SCHEMA_DELETE
  | DATABASE_CREATE | DATABASE_CREATE_COMMENT | DATABASE_CREATE_CHARSET | DATABASE_CREATE_COLLATION | SCHEMA_CREATE
  | SCHEMA_CREATE_COMMENT | IMPORT_EXPORT | JAVA_CLASS_GENERATION | BACKEND_COMPLETION | BACKEND_EDITOR_HINTS
  | TABLE_EDITOR_BASE_INFO | TABLE_EDITOR_INDEX_METHOD | TABLE_EDITOR_COLUMN_VISIBILITY | TABLE_EDITOR_INDEX_VISIBILITY
  | TABLE_EDITOR_INDEX_COLUMN | TABLE_EDITOR_INCLUDE_COLLATION | TABLE_EDITOR_EXISTING_COLUMN_EDIT
  | TABLE_EDITOR_SPARSE_COLUMN | REDIS_TREE | MONGODB_TREE.

(** Who implements a capability: those listed, or all but those listed. *)
Inductive Implementers :=
  | ImplementedBy (databaseTypes : list DatabaseTypeCode)
  | ImplementedByDefaultExcept (databaseTypes : list DatabaseTypeCode).

(** The implementers, and whether the type is normalized first. *)
Definition databaseJudgments (capability : DatabaseCapability) : Implementers * bool :=
  match capability with
  | ROUTINE_OPERATION => (ImplementedBy [MYSQL], true)
  | ACCOUNT_MANAGEMENT => (ImplementedBy [MYSQL], true)
  | ACTIVE_TRANSACTION_INSPECTION => (ImplementedBy [MYSQL], false)
  | DATABASE_DELETE => (ImplementedBy [MYSQL; POSTGRESQL], false)
  | SCHEMA_DELETE => (ImplementedBy [POSTGRESQL], false)
  | DATABASE_CREATE => (ImplementedByDefaultExcept [H2], false)
  | DATABASE_CREATE_COMMENT => (ImplementedByDefaultExcept [MYSQL; REDSHIFT], false)
  | DATABASE_CREATE_CHARSET => (ImplementedBy [MYSQL], false)
  | DATABASE_CREATE_COLLATION => (ImplementedBy [MYSQL], false)
  | SCHEMA_CREATE => (ImplementedByDefaultExcept [ORACLE; OSCAR], false)
  | SCHEMA_CREATE_COMMENT => (ImplementedByDefaultExcept [MYSQL], false)
  | IMPORT_EXPORT => (ImplementedByDefaultExcept [REDIS; H2; PRESTO; MONGODB; SNOWFLAKE; KYLIN; KINGBASE; HIVE], false)
  | JAVA_CLASS_GENERATION => (ImplementedBy [CLICKHOUSE; DB2; DM; KINGBASE; POSTGRESQL; SQLITE; SQLSERVER; MYSQL; ORACLE], false)
  | BACKEND_COMPLETION => (ImplementedBy [MYSQL], false)
  | BACKEND_EDITOR_HINTS => (ImplementedBy [MYSQL; POSTGRESQL; GAUSSDB], false)
  | TABLE_EDITOR_BASE_INFO => (ImplementedBy [MYSQL], false)
  | TABLE_EDITOR_INDEX_METHOD => (ImplementedBy [MYSQL], false)
  | TABLE_EDITOR_COLUMN_VISIBILITY => (ImplementedBy [MYSQL], false)
  | TABLE_EDITOR_INDEX_VISIBILITY => (ImplementedBy [MYSQL], false)
  | TABLE_EDITOR_INDEX_COLUMN => (ImplementedByDefaultExcept [ORACLE], false)
  | TABLE_EDITOR_INCLUDE_COLLATION => (ImplementedBy [SQLITE], false)
  | TABLE_EDITOR_EXISTING_COLUMN_EDIT => (ImplementedByDefaultExcept [SQLITE], false)
  | TABLE_EDITOR_SPARSE_COLUMN => (ImplementedBy [SQLSERVER], false)
  | REDIS_TREE => (ImplementedBy [REDIS], false)
  | MONGODB_TREE => (ImplementedBy [MONGODB], false)
  end.

Definition containsStrict (databaseTypes : list DatabaseTypeCode) (databaseType : option jstr) : bool :=
  match databaseType with
  | None | Some [] => false
  | Some t => includes t (typeCode <$> databaseTypes)
  end.

Section judgments.
Context (databases : dict IDatabase).

Definition containsNormalized (databaseTypes : list DatabaseTypeCode) (databaseType : option jstr) : bool :=
  containsStrict databaseTypes (normalizeDatabaseType databases databaseType).

Definition isDatabaseCapabilitySupported (databaseType : option jstr) (capability : DatabaseCapability) : bool :=
  let '(implementers, normalizes) := databaseJudgments capability in
  let matches databaseTypes := if normalizes : bool then containsNormalized databaseTypes databaseType else containsStrict databaseTypes databaseType in
  match implementers with
  | ImplementedBy databaseTypes => matches databaseTypes
  | ImplementedByDefaultExcept databaseTypes => negb (matches databaseTypes)
  end.

(** Whether there are databases and schemas. *)
Definition getDatabaseSupport (databaseType : option jstr) : bool * bool :=
  match getDatabaseInfo databases databaseType with
  | Some databaseInfo => (hasDatabase databaseInfo, hasSchema databaseInfo)
  | None => (false, false)
  end.
End judgments.

(** *** Quoted identifiers *)

Inductive IdentifierQuoteMode := NONE | DOUBLE_QUOTE | SQUARE_BRACKET | BACKTICK.

(** The types that quote with double quotes, with brackets and with backticks. *)
Definition QuoteJudgments : Type := list DatabaseTypeCode * list DatabaseTypeCode * list DatabaseTypeCode.

Definition openTableIdentifierQuoteJudgments : QuoteJudgments :=
  ([ORACLE; OSCAR; SQLITE; POSTGRESQL; H2; DB2; KINGBASE; DM],
   [SQLSERVER], [MYSQL; CLICKHOUSE; MARIADB]).

Definition sqlCompletionIdentifierQuoteJudgments : QuoteJudgments :=
  ([POSTGRESQL; ORACLE; OSCAR; DB2; DM; H2; SQLITE; OCEANBASE_ORACLE; KINGBASE; SNOWFLAKE; OPENGAUSS; SUNDB; COCKROACHDB; KYLIN; XUGUDB; PRESTO],
   [SQLSERVER], [MYSQL; MARIADB; TIDB; CLICKHOUSE; OCEANBASE; HIVE]).

Definition getIdentifierQuoteModeFromConfig (config : QuoteJudgments) (databaseType : option jstr) : IdentifierQuoteMode :=
  let '(doubleQuote, squareBracket, backtick) := config in
  if containsStrict doubleQuote databaseType then DOUBLE_QUOTE
  else if containsStrict squareBracket databaseType then SQUARE_BRACKET
  else if containsStrict backtick databaseType then BACKTICK
  else NONE.

Definition getOpenTableIdentifierQuoteMode : option jstr → IdentifierQuoteMode :=
  getIdentifierQuoteModeFromConfig openTableIdentifierQuoteJudgments.

Definition getSqlCompletionIdentifierQuoteMode : option jstr → IdentifierQuoteMode :=
  getIdentifierQuoteModeFromConfig sqlCompletionIdentifierQuoteJudgments.

Definition quoteIdentifierByMode (name : jstr) (quoteMode : IdentifierQuoteMode) : jstr :=
  match quoteMode with
  | DOUBLE_QUOTE => [DQUOTE] ++ name ++ [DQUOTE]
  | SQUARE_BRACKET => js "[" ++ name ++ js "]"
  | BACKTICK => js "`" ++ name ++ js "`"
  | NONE => name
  end.

Definition quoteOpenTableIdentifier (name : jstr) (databaseType : option jstr) : jstr :=
  quoteIdentifierByMode name (getOpenTableIdentifierQuoteMode databaseType).

Definition quoteSqlCompletionIdentifier (name : jstr) (databaseType : option jstr) : jstr :=
  quoteIdentifierByMode name (getSqlCompletionIdentifierQuoteMode databaseType).

(** ** Types after registrations *)

Lemma typeCode_key code : typeCode code ∈ dkeys databaseMap.
Proof. destruct code; apply (bool_decide_unpack _); vm_compute; exact I. Qed.

Lemma databaseMap_keys : NoDup (dkeys databaseMap) ∧ Forall (λ t, trim t = t ∧ t ≠ []) (dkeys databaseMap).
Proof. split; apply (bool_decide_unpack _); vm_compute; exact I. Qed.

Lemma objectMembers_trim : Forall (λ t, trim t = t ∧ t ≠ []) objectMembers.
Proof. apply (bool_decide_unpack _). vm_compute. exact I. Qed.

(** The built-in entries, and those of other types under names without white space around them. *)
Record Databases (databases : dict IDatabase) : Prop := mkDatabases {
  builtin_first : ∃ added, databases = databaseMap ++ added;
  keys_once : NoDup (dkeys databases);
  keys_trimmed : Forall (λ t, trim t = t ∧ t ≠ []) (dkeys databases);
}.

Lemma builtin_databases : Databases databaseMap.
Proof. destruct databaseMap_keys. split; [exists []; by rewrite app_nil_r|done|done]. Qed.

Lemma registered_databases summaries shared d :
  Databases (DynamicDatabases.databaseMap (registries d)) →
  Databases (DynamicDatabases.databaseMap (registries (registerDynamicDatabases summaries shared d).2)).
Proof.
  intros [[added Ha] Hnd Ht]. unfold registerDynamicDatabases. rewrite register_all. cbn [app].
  set (news := unknownTypes _ _). cbn [snd].
  replace (registries _) with (withTypes shared news (registries d)) by (by case_match).
  split.
  - exists (added ++ (prod_map id buildDynamicDatabase <$> news)). unfold withTypes. cbn [DynamicDatabases.databaseMap]. by rewrite Ha, (assoc_L (++)).
  - rewrite dkeys_withTypes. apply NoDup_app. split_and!; [done| |apply NoDup_firstOfEach].
    intros t Hk (x & -> & Hx)%list_elem_of_fmap. apply unknown_type in Hx as (_ & _ & Hx & _).
    unfold isKnown in Hx. apply orb_false_iff in Hx as [Hx%bool_decide_eq_false _]. by apply Hx, dget_is_Some.
  - rewrite dkeys_withTypes, Forall_app. split; [done|]. rewrite Forall_fmap, Forall_forall. intros x Hx. cbn.
    destruct (unknown_type _ _ _ Hx) as (_ & Htr & _ & (s & Hs & _)%list_elem_of_fmap). split; [done|].
    destruct x as [t s']. symmetry in Hs. by apply named_type in Hs as (_ & _ & ?).
Qed.

Lemma hasEntry_key databases t : t ∈ dkeys databases → hasEntry databases t = true.
Proof. intros Ht. unfold hasEntry. rewrite bool_decide_eq_true_2; [done|]. by apply dget_is_Some. Qed.

Lemma hasEntry_trim databases t : Databases databases → hasEntry databases t = true → trim t = t ∧ t ≠ [].
Proof.
  intros [_ _ Ht] [Hk%bool_decide_eq_true|Hk%includes_true]%orb_true_iff.
  - apply dget_is_Some in Hk. rewrite Forall_forall in Ht. by apply Ht.
  - pose proof objectMembers_trim as Ho. rewrite Forall_forall in Ho. by apply Ho.
Qed.

Lemma normalize_known databases t : Databases databases → hasEntry databases t = true → normalizeDatabaseType databases (Some t) = Some t.
Proof.
  intros Hd Hk. destruct (hasEntry_trim databases t Hd Hk) as [Ht Hne]. unfold normalizeDatabaseType. destruct t as [|c t]; [done|]. cbn zeta. by rewrite Ht, Hk.
Qed.

Lemma type_normalize_again databases t u :
  Databases databases → normalizeDatabaseType databases t = Some u → normalizeDatabaseType databases (Some u) = Some u.
Proof.
  intros Hd Hu. apply normalize_known; [done|]. destruct t as [[|c t]|]; [done| |done]. unfold normalizeDatabaseType in Hu.
  set (raw := trim _) in Hu. clearbody raw. destruct (hasEntry databases raw) eqn:E1; [congruence|].
  destruct (hasEntry databases (toUpperCase raw)) eqn:E2; [congruence|]. apply fmap_Some in Hu as (code & _ & ->).
  destruct Hd as [[added ->] _ _]. apply hasEntry_key. unfold dkeys. rewrite fmap_app, elem_of_app. left. apply typeCode_key.
Qed.

Lemma info_key databases t e : Databases databases → dget t databases = Some e → getDatabaseInfo databases (Some t) = Some e.
Proof.
  intros Hd He. assert (t ∈ dkeys databases) as Hk by (apply dget_is_Some; eauto). unfold getDatabaseInfo.
  rewrite normalize_known by (done || by apply hasEntry_key). pose proof (keys_trimmed _ Hd) as Ht. rewrite Forall_forall in Ht.
  destruct (Ht t Hk) as [_ Hne]. by destruct t.
Qed.

(** A type that is not built in is in no list. *)
Lemma contains_added databases codes t :
  Databases databases → t ∉ dkeys databaseMap → containsStrict codes (Some t) = false.
Proof.
  intros Hd Ht. unfold containsStrict. destruct t as [|c t]; [done|]. apply includes_false.
  intros (code & E & _)%list_elem_of_fmap. apply Ht. rewrite E. apply typeCode_key.
Qed.

(** C34: registrations leave the built-in types alone and give the types they add what their summaries say.  However often the engine's
    types are registered, a normalized type is its own normal form, a built-in type supports what it did, and a type that was added
    is found with its entry and has exactly the capabilities that every type has unless it is excepted. *)
Theorem types_after_registrations registrations formConfigs version listeners :
  let initial := mkDynamic (mkRegistries databaseMap databaseTypeList formConfigs) version listeners [] in
  let d := fold_left (λ d reg, (registerDynamicDatabases reg.1 reg.2 d).2) registrations initial in
  let databases := DynamicDatabases.databaseMap (registries d) in
  (∀ t u, normalizeDatabaseType databases t = Some u → normalizeDatabaseType databases (Some u) = Some u) ∧
  (∀ code, getDatabaseSupport databases (Some (typeCode code)) = getDatabaseSupport databaseMap (Some (typeCode code))) ∧
  ∀ t e, dget t databases = Some e →
    getDatabaseInfo databases (Some t) = Some e ∧ getDatabaseSupport databases (Some t) = (hasDatabase e, hasSchema e) ∧
    (t ∉ dkeys databaseMap → ∀ capability, isDatabaseCapabilitySupported databases (Some t) capability =
       match (databaseJudgments capability).1 with ImplementedBy _ => false | ImplementedByDefaultExcept _ => true end).
Proof.
  intros initial d databases. assert (Databases databases) as Hd.
  { unfold databases, d. assert (Databases (DynamicDatabases.databaseMap (registries initial))) as H by apply builtin_databases.
    clearbody initial. revert initial d databases H. induction registrations as [|reg regs IH]; intros x d databases Hx; [done|].
    apply (IH (registerDynamicDatabases reg.1 reg.2 x).2). by apply registered_databases. }
  clearbody databases. split_and!; [intros t u; by apply type_normalize_again| |].
  - intros code. unfold getDatabaseSupport. pose proof (typeCode_key code) as Hk. apply dget_is_Some in Hk as [e He].
    rewrite (info_key databaseMap _ e builtin_databases He), (info_key databases _ e); [done|done|].
    destruct (builtin_first _ Hd) as [added ->]. by rewrite dget_app, He.
  - intros t e He. pose proof (info_key _ _ _ Hd He) as Hi. unfold getDatabaseSupport. rewrite Hi. split_and!; [done..|].
    intros Ht capability. unfold isDatabaseCapabilitySupported, containsNormalized.
    rewrite normalize_known by (done || apply hasEntry_key, dget_is_Some; eauto).
    destruct (databaseJudgments capability) as [[codes|codes] []]; cbn [fst]; by rewrite (contains_added databases).
Qed.

(** A quote inside a name is not doubled: the text is not the quoted form of this name. *)
Example quote_in_name :
  quoteOpenTableIdentifier (js "a`b") (Some (typeCode MYSQL)) = js "`a`b`" ∧
  quoteSqlCompletionIdentifier (js "a]b") (Some (typeCode SQLSERVER)) = js "[a]b]".
Proof. split; reflexivity. Qed.

(** The account node and the monitor of a data source judge the same type differently. *)
Example strict_and_normalized :
  isDatabaseCapabilitySupported databaseMap (Some (js "mysql")) ACCOUNT_MANAGEMENT = true ∧
  isDatabaseCapabilitySupported databaseMap (Some (js "mysql")) ACTIVE_TRANSACTION_INSPECTION = false.
Proof. split; vm_compute; reflexivity. Qed.
