(* ===== verification/ObjectTree.v ===== *)
(** * ObjectTree: the keys and the children of the nodes of the object tree
    Models [blocks/NewTree/treeConfig.tsx] and [blocks/NewTree/monitorTree.ts]: for every type of node how
    its key is made and what its children are.  The answers of the engine are the record [Engine]; a
    translated title is a parameter, and so are the unique parts of keys. *)

From S2P Require Import Prelude SqlText UriComponent DatabaseTypes TreeNodes TreeData.
Local Open Scope nat_scope.

(** ** Keys *)

(** A name in a template after [formatObject]: missing and empty names are shown alike. *)
Definition shownName (name : option jstr) : jstr := match name with None | Some [] => js "undefined" | Some t => t end.
Definition shownId (id : option Z) : jstr := match id with None => js "undefined" | Some n => znum n end.

Definition idPart (dataSourceId : option Z) : jstr := js "dataSource_" ++ shownId dataSourceId.
Definition namePart (prefix : jstr) (name : option jstr) : jstr := prefix ++ js "_" ++ shownName name.
Definition truthyName (name : option jstr) : bool := match name with None | Some [] => false | _ => true end.
Definition joined (parts : list jstr) : jstr := join (js "-") parts.

(** The place of a node: its data source, database and schema. *)
Record Place := mkPlace { placeId : option Z; placeDatabase : option jstr; placeSchema : option jstr }.

Definition placeParts (p : Place) : list jstr :=
  [idPart (placeId p); namePart (js "database") (placeDatabase p); namePart (js "schema") (placeSchema p)].

Definition groupKey (groupId : option Z) : jstr := js "group_" ++ shownId groupId.
Definition dataSourcesKey : jstr := js "dataSources_chat2dbCatalogue".
Definition dataSourceNodeKey (dataSourceId : option Z) : jstr := joined [idPart dataSourceId].
Definition createMonitorTreeNodeKey (dataSourceId : option Z) : jstr := joined [idPart dataSourceId; js "monitor"].
Definition createActiveTransactionsTreeNodeKey (dataSourceId : option Z) : jstr :=
  joined [idPart dataSourceId; js "monitor"; js "activeTransactions"].
Definition databaseAccountsKey (dataSourceId : option Z) : jstr := joined [idPart dataSourceId; js "databaseAccounts"].

(** Names that are no well-formed text make [encodeURIComponent] throw. *)
Definition databaseAccountKey (dataSourceId : option Z) (user host : option jstr) : option jstr :=
  u ← encodeURIComponent (default [] user);
  h ← encodeURIComponent (default [] host);
  Some (joined [idPart dataSourceId; js "databaseAccount_" ++ u ++ js "_" ++ h]).

Definition schemasKey (dataSourceId : option Z) (schemaName : option jstr) : jstr :=
  joined [idPart dataSourceId; namePart (js "schema") schemaName].
Definition databaseNodeKey (dataSourceId : option Z) (databaseName : option jstr) : jstr :=
  joined [idPart dataSourceId; namePart (js "database") databaseName].
Definition allDataKey (dataSourceId : option Z) (databaseName : option jstr) : jstr :=
  joined [idPart dataSourceId; namePart (js "database") databaseName; js "allData_chat2dbCatalogue"].
Definition schemaNodeKey (p : Place) : jstr := joined (placeParts p).

Definition folderKey (folder : jstr) (p : Place) : jstr := joined (placeParts p ++ [folder]).
Definition tablesKey : Place → jstr := folderKey (js "tables_chat2dbCatalogue").
Definition viewsKey : Place → jstr := folderKey (js "views_chat2dbCatalogue").
Definition functionsKey : Place → jstr := folderKey (js "functions_chat2dbCatalogue").
Definition proceduresKey : Place → jstr := folderKey (js "procedures_chat2dbCatalogue").
Definition triggersKey : Place → jstr := folderKey (js "triggers_chat2dbCatalogue").
Definition saveConsolesKey : Place → jstr := folderKey (js "consoles_chat2dbCatalogue").

Definition tableKey (p : Place) (table : option jstr) : jstr :=
  joined [idPart (placeId p);
          if truthyName (placeDatabase p) then namePart (js "database") (placeDatabase p) else [];
          if truthyName (placeSchema p) then namePart (js "schema") (placeSchema p) else [];
          namePart (js "table") table].
Definition viewKey (p : Place) (table : option jstr) : jstr := joined (placeParts p ++ [namePart (js "view") table]).

Definition columnsKey (p : Place) (table : option jstr) : jstr :=
  joined (placeParts p ++ [namePart (js "table") table; js "columns_chat2dbCatalogue"]).
Definition keysKey (p : Place) (table : option jstr) : jstr :=
  joined (placeParts p ++ [namePart (js "table") table; js "keys_chat2dbCatalogue"]).
Definition indexesKey (p : Place) (table : option jstr) : jstr :=
  joined (placeParts p ++ [namePart (js "table") table; js "indexes_chat2dbCatalogue"]).
Definition viewColumnsKey (p : Place) (table : option jstr) : jstr :=
  joined (placeParts p ++ [namePart (js "view") table; js "columns_chat2dbCatalogue"]).

(** Keys that end in a unique part. *)
Definition uniqueKey (p : Place) (parts : list jstr) (uuid : jstr) : jstr := joined (placeParts p ++ parts ++ [js "uuid_" ++ uuid]).
Definition procedureKey (p : Place) (name : option jstr) : jstr → jstr := uniqueKey p [namePart (js "procedure") name].
Definition functionKey (p : Place) (name specificName : option jstr) : jstr → jstr :=
  uniqueKey p [namePart (js "function") (if truthyName specificName then specificName else name)].
Definition triggerKey (p : Place) (name : option jstr) : jstr → jstr := uniqueKey p [namePart (js "trigger") name].
Definition viewColumnKey (p : Place) (table column : option jstr) : jstr → jstr :=
  uniqueKey p [namePart (js "view") table; namePart (js "column") column].
Definition columnKey (p : Place) (table column : option jstr) : jstr → jstr :=
  uniqueKey p [namePart (js "table") table; namePart (js "column") column].
Definition keyKey (p : Place) (table key : option jstr) : jstr → jstr :=
  uniqueKey p [namePart (js "table") table; namePart (js "key") key].
Definition indexKey (p : Place) (table index : option jstr) : jstr → jstr :=
  uniqueKey p [namePart (js "table") table; namePart (js "index") index].
Definition createSavedConsoleTreeNodeKey (p : Place) (consoleId : option Z) : jstr :=
  joined (placeParts p ++ [js "console_" ++ shownId consoleId]).

(** ** What the engine answers *)

Record Page (A : Type) := mkPage { pageData : option (list A); pageTotal : option Z }.
Arguments mkPage {A}.
Arguments pageData {A}.
Arguments pageTotal {A}.

Record DataSourceInfo := mkDataSourceInfo { sourceId : Z; sourceAlias : jstr; sourceType : jstr }.
Record AccountInfo := mkAccount { accountUser : jstr; accountHost : jstr; displayName : jstr }.
Record TableInfo := mkTable { tableTitle : jstr; tableComment : option jstr; tablePinned : option bool }.
Record ColumnInfo := mkColumn { columnTitle : jstr; columnInfoType : option jstr; columnInfoComment : option jstr }.
Record ConsoleInfo := mkConsole { consoleId : Z; consoleName : option jstr; consoleStatus : jstr; consoleDdl : option jstr; connectable : bool }.

(** The services: [None] is a request that is refused, or answered without a list. *)
Record Engine := mkEngine {
  getList : option (list DataSourceInfo);
  getSchemaList : IExtraParams → option (list jstr);
  getDatabaseList : option Z → option bool → option (list jstr);
  getAccountList : option Z → option (list AccountInfo);
  getTableList : IExtraParams → option (Page TableInfo);
  getViewList : IExtraParams → option (Page jstr);
  getFunctionList : IExtraParams → option (Page (jstr * option jstr));
  getProcedureList : IExtraParams → option (Page jstr);
  getTriggerList : IExtraParams → option (Page jstr);
  getViewColumnList : IExtraParams → option (Page jstr);
  getColumnList : IExtraParams → option (Page ColumnInfo);
  getKeyList : IExtraParams → option (Page jstr);
  getIndexList : IExtraParams → option (Page jstr);
  getConsoleList : IExtraParams → option (Page ConsoleInfo);
}.

(** ** Parameters of nodes *)

Definition placeOf (p : IExtraParams) : Place := mkPlace (dataSourceId p) (databaseName p) (schemaName p).

Definition newParams (id : Z) (type : jstr) : IExtraParams :=
  mkExtraParams (Some id) (Some type) None None false None None None None None None None None None None.

Definition withDatabase (name : jstr) (p : IExtraParams) : IExtraParams :=
  let '(mkExtraParams a b _ d e f g h i j k l m n o) := p in mkExtraParams a b (Some name) d e f g h i j k l m n o.
Definition withSchema (name : jstr) (p : IExtraParams) : IExtraParams :=
  let '(mkExtraParams a b c _ e f g h i j k l m n o) := p in mkExtraParams a b c (Some name) e f g h i j k l m n o.
Definition withTable (name : jstr) (p : IExtraParams) : IExtraParams :=
  let '(mkExtraParams a b c d e _ g h i j k l m n o) := p in mkExtraParams a b c d e (Some name) g h i j k l m n o.
Definition withView (name : jstr) (p : IExtraParams) : IExtraParams :=
  let '(mkExtraParams a b c d e _ _ h i j k l m n o) := p in mkExtraParams a b c d e (Some name) (Some name) h i j k l m n o.
Definition withFunction (name : jstr) (p : IExtraParams) : IExtraParams :=
  let '(mkExtraParams a b c d e f g _ i j k l m n o) := p in mkExtraParams a b c d e f g (Some name) i j k l m n o.
Definition withProcedure (name : jstr) (p : IExtraParams) : IExtraParams :=
  let '(mkExtraParams a b c d e f g h _ j k l m n o) := p in mkExtraParams a b c d e f g h (Some name) j k l m n o.
Definition withTrigger (name : jstr) (p : IExtraParams) : IExtraParams :=
  let '(mkExtraParams a b c d e f g h i _ k l m n o) := p in mkExtraParams a b c d e f g h i (Some name) k l m n o.
Definition withAccount (account : AccountInfo) (p : IExtraParams) : IExtraParams :=
  let '(mkExtraParams a b c d e f g h i j _ _ _ n o) := p in
  mkExtraParams a b c d e f g h i j (Some (accountUser account)) (Some (accountHost account)) (Some (displayName account)) n o.
Definition withConsole (console : ConsoleInfo) (p : IExtraParams) : IExtraParams :=
  let '(mkExtraParams a b c d e f g h i j k l m _ o) := p in
  mkExtraParams a b c d e f g h i j k l m (Some (consoleStatus console, consoleDdl console, connectable console)) o.
Definition withRefresh (refresh : bool) (p : IExtraParams) : IExtraParams :=
  let '(mkExtraParams a b c d e f g h i j k l m n _) := p in mkExtraParams a b c d e f g h i j k l m n (Some refresh).

(** ** Children *)

Definition mapList {A B} (f : A → B) (answer : option (list A)) : option (list B) := map f <$> answer.

Section tree_config.
Context (databases : dict DynamicDatabases.IDatabase) (i18n : jstr → jstr) (engine : Engine) (uuid : nat → jstr).

Definition newNode (key title : jstr) (type : TreeNodeType) (leaf : bool) (p : IExtraParams) : TreeNodeData :=
  TreeNode (mkNodeData key title None type p leaf None None None None None) None.

Definition createSaveConsolesNode (p : IExtraParams) : TreeNodeData :=
  newNode (saveConsolesKey (placeOf p)) (i18n (js "common.text.consoles")) SAVE_CONSOLES false p.

Definition createMonitorNode (p : IExtraParams) : TreeNodeData :=
  newNode (createMonitorTreeNodeKey (dataSourceId p)) (i18n (js "workspace.ops.monitor")) MONITOR false p.

(** The folders of the objects of a place. *)
Definition objectFolders (place : Place) (p : IExtraParams) : list TreeNodeData :=
  [newNode (tablesKey place) (i18n (js "common.text.tables")) TABLES false p;
   newNode (viewsKey place) (i18n (js "common.text.views")) VIEWS false p;
   newNode (functionsKey place) (i18n (js "common.text.functions")) FUNCTIONS false p;
   newNode (proceduresKey place) (i18n (js "common.text.procedures")) PROCEDURES false p;
   newNode (triggersKey place) (i18n (js "common.text.triggers")) TRIGGERS false p;
   createSaveConsolesNode p].

Definition schemaNode (databaseName : option jstr) (p : IExtraParams) (name : jstr) : TreeNodeData :=
  newNode (schemaNodeKey (mkPlace (dataSourceId p) databaseName (Some name))) name SCHEMA false (withSchema name p).

Definition databaseNode (p : IExtraParams) (name : jstr) : TreeNodeData :=
  newNode (databaseNodeKey (dataSourceId p) (Some name)) name DATABASE false (withDatabase name p).

Definition dataSourcesChildren : option (list TreeNodeData) :=
  mapList (λ t, newNode (dataSourceNodeKey (Some (sourceId t))) (sourceAlias t) DATA_SOURCE false (newParams (sourceId t) (sourceType t))) (getList engine).

Definition accountsNode (p : IExtraParams) : TreeNodeData :=
  newNode (databaseAccountsKey (dataSourceId p)) (i18n (js "workspace.databaseAccount.title")) DATABASE_ACCOUNTS false p.

Definition dataSourceChildren (p : IExtraParams) : option (list TreeNodeData) :=
  let '(supportDatabase, supportSchema) := getDatabaseSupport databases (databaseType p) in
  let capable := isDatabaseCapabilitySupported databases (databaseType p) in
  let appendDataSourceNodes data :=
    data ++ (if capable ACTIVE_TRANSACTION_INSPECTION then [createMonitorNode p] else [])
         ++ (if capable ACCOUNT_MANAGEMENT then [accountsNode p] else []) in
  appendDataSourceNodes <$>
    if negb supportDatabase && negb supportSchema then Some (objectFolders (mkPlace (dataSourceId p) None None) p)
    else if negb supportDatabase then mapList (schemaNode None p) (getSchemaList engine p)
    else mapList (databaseNode p) (getDatabaseList engine (dataSourceId p) (refreshParam p)).

Definition monitorChildren (p : IExtraParams) : list TreeNodeData :=
  if isDatabaseCapabilitySupported databases (databaseType p) ACTIVE_TRANSACTION_INSPECTION
  then [newNode (createActiveTransactionsTreeNodeKey (dataSourceId p)) (i18n (js "workspace.ops.activeTransactions")) ACTIVE_TRANSACTIONS true p]
  else [].

Definition accountNode (p : IExtraParams) (account : AccountInfo) : option TreeNodeData :=
  key ← databaseAccountKey (dataSourceId p) (Some (accountUser account)) (Some (accountHost account));
  Some (newNode key (displayName account) DATABASE_ACCOUNT true (withAccount account p)).

Definition databaseAccountsChildren (p : IExtraParams) : option (list TreeNodeData) :=
  accounts ← getAccountList engine (dataSourceId p); mapM (accountNode p) accounts.

Definition schemasChildren (p : IExtraParams) : option (list TreeNodeData) :=
  if negb (getDatabaseSupport databases (databaseType p)).1 then mapList (schemaNode None p) (getSchemaList engine p)
  else mapList (databaseNode p) (getDatabaseList engine (dataSourceId p) (refreshParam p)).

Definition databaseChildren (p : IExtraParams) : option (list TreeNodeData) :=
  if (getDatabaseSupport databases (databaseType p)).2 then mapList (schemaNode (databaseName p) p) (getSchemaList engine p)
  else if isDatabaseCapabilitySupported databases (databaseType p) REDIS_TREE
  then Some [newNode (allDataKey (dataSourceId p) (databaseName p)) (i18n (js "common.text.allData")) ALL_DATA true p; createSaveConsolesNode p]
  else Some (objectFolders (mkPlace (dataSourceId p) (databaseName p) None) p).

Definition schemaChildren (p : IExtraParams) : list TreeNodeData :=
  if isDatabaseCapabilitySupported databases (databaseType p) MONGODB_TREE
  then [newNode (tablesKey (placeOf p)) (i18n (js "common.text.collections")) TABLES false p; createSaveConsolesNode p]
  else objectFolders (placeOf p) p.

Definition tableNode (p : IExtraParams) (t : TableInfo) : TreeNodeData :=
  TreeNode (mkNodeData (tableKey (placeOf p) (Some (tableTitle t))) (tableTitle t) (tableComment t) TABLE (withTable (tableTitle t) p) false
    None None (Some (mkDecorative (tablePinned t) (tableComment t))) None None) None.

(** One table of the list: the pinned ones come first and are left out where they come again. *)
Definition addTable (p : IExtraParams) (acc : list jstr * list TreeNodeData) (t : TableInfo) : list jstr * list TreeNodeData :=
  let '(pinnedList, tableList) := acc in
  (if default false (tablePinned t) then pinnedList ++ [tableTitle t] else pinnedList,
   if includes (tableTitle t) pinnedList then tableList else tableList ++ [tableNode p t]).

Definition tablesChildren (p : IExtraParams) : option TreeNodeRefreshResult :=
  res ← getTableList engine p;
  Some (mkRefresh (fold_left (addTable p) (default [] (pageData res)) ([], [])).2 (pageTotal res)).

Definition tableChildren (p : IExtraParams) : list TreeNodeData :=
  [newNode (columnsKey (placeOf p) (tableName p)) (i18n (js "common.text.columns")) COLUMNS false p;
   newNode (keysKey (placeOf p) (tableName p)) (i18n (js "common.text.keys")) KEYS false p;
   newNode (indexesKey (placeOf p) (tableName p)) (i18n (js "common.text.indexs")) INDEXES false p].

(** A page whose items become nodes; the position of an item chooses its unique part. *)
Definition pageNodes {A} (node : nat → A → TreeNodeData) (page : option (Page A)) : option TreeNodeRefreshResult :=
  res ← page; Some (mkRefresh (imap node (default [] (pageData res))) (pageTotal res)).

(** The same, with the number of items where the total is missing. *)
Definition countedNodes {A} (node : nat → A → TreeNodeData) (page : option (Page A)) : option TreeNodeRefreshResult :=
  res ← page;
  let list := imap node (default [] (pageData res)) in
  Some (mkRefresh list (Some (default (Z.of_nat (length list)) (pageTotal res)))).

Definition viewsChildren (p : IExtraParams) : option TreeNodeRefreshResult :=
  pageNodes (λ _ name, newNode (viewKey (placeOf p) (Some name)) name VIEW false (withView name p)) (getViewList engine p).
Definition functionsChildren (p : IExtraParams) : option TreeNodeRefreshResult :=
  pageNodes (λ i t, newNode (functionKey (placeOf p) (Some t.1) t.2 (uuid i)) t.1 FUNCTION true (withFunction t.1 p)) (getFunctionList engine p).
Definition proceduresChildren (p : IExtraParams) : option TreeNodeRefreshResult :=
  pageNodes (λ i name, newNode (procedureKey (placeOf p) (Some name) (uuid i)) name PROCEDURE true (withProcedure name p)) (getProcedureList engine p).
Definition triggersChildren (p : IExtraParams) : option TreeNodeRefreshResult :=
  pageNodes (λ i name, newNode (triggerKey (placeOf p) (Some name) (uuid i)) name TRIGGER true (withTrigger name p)) (getTriggerList engine p).
Definition viewColumnsChildren (p : IExtraParams) : option TreeNodeRefreshResult :=
  countedNodes (λ i name, newNode (viewColumnKey (placeOf p) (Some name) (Some name) (uuid i)) name VIEWCOLUMN true p) (getViewColumnList engine p).
Definition viewChildren (p : IExtraParams) : list TreeNodeData :=
  [newNode (viewColumnsKey (placeOf p) (tableName p)) (i18n (js "common.text.columns")) COLUMNS false p].
Definition columnsChildren (p : IExtraParams) : option TreeNodeRefreshResult :=
  countedNodes (λ i t, TreeNode (mkNodeData (columnKey (placeOf p) (tableName p) (Some (columnTitle t)) (uuid i)) (columnTitle t) (columnInfoComment t)
                          COLUMN p true None None None (columnInfoType t) (columnInfoComment t)) None) (getColumnList engine p).
Definition keysChildren (p : IExtraParams) : option TreeNodeRefreshResult :=
  countedNodes (λ i name, newNode (keyKey (placeOf p) (tableName p) (Some name) (uuid i)) name KEY true p) (getKeyList engine p).
Definition indexesChildren (p : IExtraParams) : option TreeNodeRefreshResult :=
  countedNodes (λ i name, newNode (indexKey (placeOf p) (tableName p) (Some name) (uuid i)) name INDEX true p) (getIndexList engine p).

Definition consoleNode (p : IExtraParams) (item : ConsoleInfo) : TreeNodeData :=
  TreeNode (mkNodeData (createSavedConsoleTreeNodeKey (placeOf p) (Some (consoleId item))) (default [] (consoleName item)) None SAVE_CONSOLE
    (withConsole item p) true None (Some (consoleId item)) None None None) None.

Definition saveConsolesChildren (p : IExtraParams) : option TreeNodeRefreshResult :=
  res ← getConsoleList engine p; data ← pageData res; Some (mkRefresh (consoleNode p <$> data) (pageTotal res)).

(** [normalizeTreeNodeLoadResult] of a list. *)
Definition normalizeTreeNodeLoadResult (list : list TreeNodeData) : TreeNodeRefreshResult := mkRefresh list None.

(** [treeConfig[type].getChildren]: [None] where there is none; the inner [None] is a promise that is rejected. *)
Definition getChildren (type : TreeNodeType) (p : IExtraParams) : option (option TreeNodeRefreshResult) :=
  let all nodes := Some (Some (normalizeTreeNodeLoadResult nodes)) in
  let listed nodes := Some (normalizeTreeNodeLoadResult <$> nodes) in
  match type with
  | GROUPS | GROUP | ALL_DATA | ACTIVE_TRANSACTIONS | DATABASE_ACCOUNT => all []
  | DATA_SOURCES => listed dataSourcesChildren
  | DATA_SOURCE => listed (dataSourceChildren p)
  | MONITOR => all (monitorChildren p)
  | DATABASE_ACCOUNTS => listed (databaseAccountsChildren p)
  | SCHEMAS => listed (schemasChildren p)
  | DATABASE => listed (databaseChildren p)
  | SCHEMA => all (schemaChildren p)
  | TABLES => Some (tablesChildren p)
  | TABLE => all (tableChildren p)
  | VIEWS => Some (viewsChildren p)
  | FUNCTIONS => Some (functionsChildren p)
  | PROCEDURES => Some (proceduresChildren p)
  | TRIGGERS => Some (triggersChildren p)
  | VIEWCOLUMNS => Some (viewColumnsChildren p)
  | VIEW => all (viewChildren p)
  | COLUMNS => Some (columnsChildren p)
  | KEYS => Some (keysChildren p)
  | INDEXES => Some (indexesChildren p)
  | SAVE_CONSOLES => Some (saveConsolesChildren p)
  | PROCEDURE | FUNCTION | TRIGGER | VIEWCOLUMN | COLUMN | KEY | INDEX | SAVE_CONSOLE => None
  end.
End tree_config.

(** ** Tables are listed once *)

Lemma tableKey_inj p t t' : t ≠ [] → t' ≠ [] → tableKey p (Some t) = tableKey p (Some t') → t = t'.
Proof.
  intros Ht Ht'. unfold tableKey, joined. cbn [join]. intros E. do 6 apply app_inv_head in E.
  unfold namePart in E. do 2 apply app_inv_head in E. by destruct t, t'.
Qed.

Lemma addTables p ts pins nodes :
  (fold_left (addTable p) ts (pins, nodes)).2 =
  nodes ++ (fold_left (addTable p) ts (pins, [])).2.
Proof.
  revert pins nodes. induction ts as [|t ts IH]; intros pins nodes; [by rewrite app_nil_r|]. cbn [fold_left addTable].
  rewrite IH. rewrite (IH _ (if includes (tableTitle t) pins then [] else _)). case_match; [done|]. by rewrite <- (assoc_L (++)).
Qed.

(** Tables with distinct names: those are left out whose name is pinned already. *)
Lemma addTable_distinct p ts pins :
  NoDup (tableTitle <$> ts) →
  (fold_left (addTable p) ts (pins, [])).2 = tableNode p <$> List.filter (λ t, negb (includes (tableTitle t) pins)) ts.
Proof.
  revert pins. induction ts as [|t ts IH]; intros pins; [done|]. rewrite fmap_cons. intros [Hin Hnd]%NoDup_cons. cbn [fold_left addTable List.filter].
  rewrite addTables, IH by done.
  assert (List.filter (λ u, negb (includes (tableTitle u) (if default false (tablePinned t) then pins ++ [tableTitle t] else pins))) ts =
          List.filter (λ u, negb (includes (tableTitle u) pins)) ts) as ->.
  { apply filter_ext_in. intros u Hu%list_elem_of_In. f_equal. apply bool_decide_ext. case_match; [|done].
    rewrite elem_of_app, list_elem_of_singleton. split; [|tauto]. intros [?|E]; [done|]. destruct Hin. rewrite <- E. by apply list_elem_of_fmap_2. }
  by destruct (includes (tableTitle t) pins).
Qed.

Lemma addTable_pins p ps : ∀ pins,
  Forall (λ t, tablePinned t = Some true) ps → (fold_left (addTable p) ps (pins, [])).1 = pins ++ (tableTitle <$> ps).
Proof.
  assert (∀ ps pins nodes, Forall (λ t, tablePinned t = Some true) ps → (fold_left (addTable p) ps (pins, nodes)).1 = pins ++ (tableTitle <$> ps)) as H.
  { intros qs. induction qs as [|t qs IH]; intros pins nodes Hall; [by rewrite app_nil_r|]. inversion_clear Hall as [|?? Ht Hq].
    cbn [fold_left addTable]. rewrite Ht. cbn [default from_option id]. rewrite IH by done. by rewrite <- (assoc_L (++)), fmap_cons. }
  intros pins. apply H.
Qed.

(** Tables are listed once, the pinned ones first.  When the engine answers with the pinned tables and then with all tables,
    each in its order and once, the nodes are those of the pinned tables and then of the others, and no two have the same key. *)
Theorem tables_listed_once engine p pinnedTables tables total :
  getTableList engine p = Some (mkPage (Some (pinnedTables ++ tables)) total) →
  Forall (λ t, tablePinned t = Some true) pinnedTables → NoDup (tableTitle <$> pinnedTables) → NoDup (tableTitle <$> tables) →
  Forall (λ t, tableTitle t ≠ []) (pinnedTables ++ tables) →
  ∃ result, tablesChildren engine p = Some result ∧
    children result = tableNode p <$> (pinnedTables ++ List.filter (λ t, negb (includes (tableTitle t) (tableTitle <$> pinnedTables))) tables) ∧
    NoDup (nodeKey <$> children result).
Proof.
  intros He Hp Hndp Hnd Hne. unfold tablesChildren. rewrite He. cbn [mbind option_bind pageData pageTotal default from_option id].
  eexists. split; [done|]. cbn [children]. rewrite fold_left_app. destruct (fold_left (addTable p) pinnedTables ([], [])) as [pins nodes] eqn:E.
  assert (pins = tableTitle <$> pinnedTables) as -> by (change pins with (pins, nodes).1; rewrite <- E; by apply addTable_pins).
  assert (nodes = tableNode p <$> pinnedTables) as ->.
  { change nodes with (((tableTitle <$> pinnedTables) : list jstr, nodes).2). rewrite <- E. rewrite addTable_distinct by done. f_equal. apply list_filter_all.
    intros t _. apply negb_true_iff, includes_false. by apply not_elem_of_nil. }
  rewrite addTables, addTable_distinct, <- fmap_app by done. split; [done|].
  set (all := pinnedTables ++ _). assert (NoDup (tableTitle <$> all)) as Hall.
  { unfold all. rewrite fmap_app. apply NoDup_app. split_and!; [done| |].
    - intros x Hx (t & -> & Ht)%list_elem_of_fmap. apply list_elem_of_In, filter_In in Ht as [_ Ht]. apply negb_true_iff in Ht. by apply includes_false in Ht.
    - eapply NoDup_sublist; [|exact Hnd]. apply fmap_sublist. clear. induction tables as [|t ts IH]; cbn; [done|]. destruct (negb _); by constructor. }
  assert (Forall (λ t, tableTitle t ≠ []) all) as Hnames.
  { rewrite Forall_forall in *. intros t Ht. apply Hne. unfold all in Ht. rewrite elem_of_app in *. destruct Ht as [?|Ht]; [by left|right].
    by apply list_elem_of_In, filter_In in Ht as [?%list_elem_of_In _]. }
  clearbody all. clear -Hall Hnames. induction all as [|t all IH]; cbn; [constructor|]. inversion_clear Hnames as [|?? Ht Hts].
  cbn in Hall. apply NoDup_cons in Hall as [Hin Hall]. constructor; [|by apply IH].
  intros (n & E & (u & -> & Hu)%list_elem_of_fmap)%list_elem_of_fmap. rewrite Forall_forall in Hts. destruct Hin.
  rewrite (tableKey_inj (placeOf p) (tableTitle t) (tableTitle u)); [by apply list_elem_of_fmap_2|done|by apply Hts|done].
Qed.

(** ** Witnesses *)

Definition sampleTable (title : string) (pinned : option bool) : TableInfo := mkTable (js title) None pinned.

(** A server with one database and two tables, one of them pinned. *)
Definition sampleEngine : Engine := {|
  getList := Some [mkDataSourceInfo 7 (js "shop") (js "MYSQL")];
  getSchemaList := λ _, Some [];
  getDatabaseList := λ _ _, Some [js "shop"];
  getAccountList := λ _, None;
  getTableList := λ _, Some (mkPage (Some [sampleTable "orders" (Some true); sampleTable "customers" None; sampleTable "orders" (Some true)]) None);
  getViewList := λ _, None;
  getFunctionList := λ _, None;
  getProcedureList := λ _, None;
  getTriggerList := λ _, None;
  getViewColumnList := λ _, None;
  getColumnList := λ _, None;
  getKeyList := λ _, None;
  getIndexList := λ _, None;
  getConsoleList := λ _, None;
|}.

Lemma tables_listed_once_witness :
  ∃ result, tablesChildren sampleEngine (newParams 7 (js "MYSQL")) = Some result ∧
    originalTitle ∘ nodeData <$> children result = [js "orders"; js "customers"].
Proof.
  destruct (tables_listed_once sampleEngine (newParams 7 (js "MYSQL")) [sampleTable "orders" (Some true)]
    [sampleTable "customers" None; sampleTable "orders" (Some true)] None) as (result & Hr & Hc & _).
  - reflexivity.
  - by repeat constructor.
  - apply (bool_decide_unpack _). vm_compute. exact I.
  - apply (bool_decide_unpack _). vm_compute. exact I.
  - by repeat constructor.
  - exists result. split; [exact Hr|]. rewrite Hc. vm_compute. reflexivity.
Defined.
