(* ===== verification/ObjectTreeKeys.v ===== *)
(** * ObjectTreeKeys: which node a key stands for
    The nodes that can be in the object tree - the data sources and what [getChildren] lists below - and the
    result that a key determines the type and the parameters of a node, for the nodes above the objects and for
    tables and views, as long as the names in it have no hyphen, which the keys do not escape. *)

From S2P Require Import Prelude SqlText UriComponent DatabaseTypes TreeNodes TreeData ObjectTree.
Local Open Scope nat_scope.

(** ** Pieces of keys *)

Definition pieces (key : jstr) : list jstr := split_char (ch "-") key.

(** No hyphen. *)
Notation unbroken t := (ch "-" ∉ t).

(** A name whose place in a key is certain. *)
Definition plainName (t : jstr) : Prop := t ≠ [] ∧ unbroken t ∧ t ≠ js "undefined".
Definition plainOption (name : option jstr) : Prop := match name with None => True | Some t => plainName t end.

Lemma pieces_one a : unbroken a → pieces a = [a].
Proof. apply split_char_one. Qed.

Lemma pieces_joined a b rest : unbroken a → pieces (joined (a :: b :: rest)) = a :: pieces (joined (b :: rest)).
Proof. intros Ha. apply (split_char_before (ch "-") a (joined (b :: rest)) Ha). Qed.

(** A text that begins with [w] has a first piece that does. *)
Lemma pieces_prefix w t : unbroken w → ∃ q rest, pieces (w ++ t) = (w ++ q) :: rest.
Proof.
  intros Hw. unfold pieces. induction w as [|c w IH]; cbn [app split_char].
  - destruct (split_char (ch "-") t) as [|q rest] eqn:E; [by apply split_char_not_nil in E|]. by exists q, rest.
  - apply not_elem_of_cons in Hw as [Hc Hw]. rewrite decide_False by congruence.
    destruct (IH Hw) as (q & rest & ->). by exists q, rest.
Qed.

Lemma joined_cons a b rest : joined (a :: b :: rest) = a ++ js "-" ++ joined (b :: rest).
Proof. done. Qed.

(** A joined text whose first part begins with [w]. *)
Lemma pieces_joined_prefix w t rest : unbroken w → ∃ q rest', pieces (joined ((w ++ t) :: rest)) = (w ++ q) :: rest'.
Proof.
  intros Hw. destruct rest as [|b rest]; [by apply pieces_prefix|]. rewrite joined_cons, <- (assoc_L (++)). by apply pieces_prefix.
Qed.

(** More parts make more pieces. *)
Lemma pieces_length a b rest : 2 ≤ length (pieces (joined (a :: b :: rest))).
Proof.
  rewrite joined_cons. unfold pieces. induction a as [|c a IH]; cbn [app split_char].
  - change (2 ≤ length ([] :: split_char (ch "-") (joined (b :: rest)))). cbn [length].
    destruct (split_char _ (joined (b :: rest))) eqn:E; [by apply split_char_not_nil in E|cbn; lia].
  - destruct (decide _); cbn [length]; [lia|]. destruct (split_char _ (a ++ _)) eqn:E; [by apply split_char_not_nil in E|]. cbn [length] in *. lia.
Qed.

Lemma shownName_unbroken name : plainOption name → unbroken (shownName name).
Proof. destruct name as [[|c t]|]; [by intros [? _]|by intros (_ & ? & _)|]. intros _. by apply (bool_decide_unpack _). Qed.

Lemma shownName_inj a b : plainOption a → plainOption b → shownName a = shownName b → a = b.
Proof.
  destruct a as [[|c a]|], b as [[|c' b]|]; cbn [plainOption shownName]; unfold plainName; intros Ha Hb E;
    repeat match goal with H : _ ∧ _ |- _ => destruct H end; congruence.
Qed.

Lemma namePart_inj prefix a b : plainOption a → plainOption b → namePart prefix a = namePart prefix b → a = b.
Proof. unfold namePart. intros Ha Hb E%app_inv_head%app_inv_head. by apply shownName_inj. Qed.

Lemma namePart_unbroken prefix name : unbroken prefix → plainOption name → unbroken (namePart prefix name).
Proof.
  intros Hp Hn. unfold namePart. rewrite !not_elem_of_app. split_and!; [done|by apply (bool_decide_unpack _)|by apply shownName_unbroken].
Qed.

Lemma idPart_unbroken n : (0 ≤ n)%Z → unbroken (idPart (Some n)).
Proof.
  intros Hn. unfold idPart. rewrite not_elem_of_app. split; [by apply (bool_decide_unpack _)|]. intros Hin. pose proof (znum_digits n Hn) as H.
  rewrite Forall_forall in H. apply H in Hin. revert Hin. unfold is_digit_char, ch. cbn. lia.
Qed.

Lemma idPart_inj n m : idPart (Some n) = idPart (Some m) → n = m.
Proof. unfold idPart. intros E%app_inv_head. by apply (inj znum). Qed.

(** ** The nodes that can be in the tree *)

(** Equal up to the parameter [refresh], which every load sets anew. *)
Definition sameParams (p q : IExtraParams) : Prop := withRefresh false p = withRefresh false q.

Definition setPlace (db sc : option jstr) (p : IExtraParams) : IExtraParams :=
  let '(mkExtraParams a b _ _ e f g h i j k l m n o) := p in mkExtraParams a b db sc e f g h i j k l m n o.

Lemma sameParams_refresh p q r : sameParams p q → withRefresh r p = withRefresh r q.
Proof. destruct p, q. unfold sameParams, withRefresh. intros [=]. by subst. Qed.

Lemma refresh_same r p : sameParams (withRefresh r p) p.
Proof. by destruct p. Qed.

#[export] Instance sameParams_equiv : Equivalence sameParams.
Proof.
  split; unfold sameParams; [intros ?; reflexivity|intros ?? H; symmetry; exact H|intros ??? H1 H2; etransitivity; [exact H1|exact H2]].
Qed.

(** The types of the nodes above the objects. *)
Definition folderName (type : TreeNodeType) : option jstr :=
  match type with
  | TABLES => Some (js "tables_chat2dbCatalogue") | VIEWS => Some (js "views_chat2dbCatalogue")
  | FUNCTIONS => Some (js "functions_chat2dbCatalogue") | PROCEDURES => Some (js "procedures_chat2dbCatalogue")
  | TRIGGERS => Some (js "triggers_chat2dbCatalogue") | SAVE_CONSOLES => Some (js "consoles_chat2dbCatalogue")
  | _ => None
  end.

Definition placePieces (type : TreeNodeType) (i D S : jstr) : option (list jstr) :=
  match type with
  | DATA_SOURCE => Some [i]
  | MONITOR => Some [i; js "monitor"]
  | DATABASE_ACCOUNTS => Some [i; js "databaseAccounts"]
  | DATABASE => Some [i; D]
  | SCHEMA => Some [i; D; S]
  | _ => f ← folderName type; Some [i; D; S; f]
  end.

(** A name of the place that the key does not show is missing. *)
Definition hiddenNames (type : TreeNodeType) (db sc : option jstr) : Prop :=
  match type with DATA_SOURCE | MONITOR | DATABASE_ACCOUNTS => db = None ∧ sc = None | DATABASE => sc = None | _ => True end.

Definition objectPrefixes : list jstr := [js "table_"; js "view_"; js "procedure_"; js "function_"; js "trigger_"].

Section listed.
Context (databases : dict DynamicDatabases.IDatabase) (i18n : jstr → jstr) (engine : Engine) (sources : Z → IExtraParams).

(** The data sources, known by their numbers, and the groups they are in; what [getChildren] lists for such a node; nodes that a load changed. *)
Inductive Listed : NodeData → Prop :=
  | listed_source d id : treeNodeType d = DATA_SOURCE → key d = dataSourceNodeKey (Some id) → (0 ≤ id)%Z → isLeaf d = false →
      sameParams (extraParams d) (sources id) → Listed d
  | listed_group d id : treeNodeType d = GROUP → key d = groupKey id → Listed d
  | listed_child d uuid r result c : Listed d →
      getChildren databases i18n engine uuid (treeNodeType d) (withRefresh r (extraParams d)) = Some (Some result) →
      c ∈ children result → Listed (nodeData c)
  | listed_refresh d result : Listed d → Listed (refreshData d result).

(** The parameters of data sources, and names that can be told in keys. *)
Record PlainEngine : Prop := mkPlainEngine {
  sources_place id : placeOf (sources id) = mkPlace (Some id) None None;
  plain_schemas p l : getSchemaList engine p = Some l → Forall plainName l;
  plain_databases id r l : getDatabaseList engine id r = Some l → Forall plainName l;
}.

(** The pieces of the key of a node, by its type and place. *)
Definition keyForm (d : NodeData) (id : Z) (db sc : option jstr) : Prop :=
  let p := extraParams d in
  let i := idPart (Some id) in
  let D := namePart (js "database") db in
  let S := namePart (js "schema") sc in
  match placePieces (treeNodeType d) i D S with
  | Some ps => pieces (key d) = ps ∧ hiddenNames (treeNodeType d) db sc ∧ isLeaf d = false ∧ sameParams p (setPlace db sc (sources id))
  | None =>
      match treeNodeType d with
      | ALL_DATA => pieces (key d) = [i; D; js "allData_chat2dbCatalogue"]
      | ACTIVE_TRANSACTIONS => pieces (key d) = [i; js "monitor"; js "activeTransactions"]
      | DATABASE_ACCOUNT => ∃ q rest, pieces (key d) = i :: (js "databaseAccount_" ++ q) :: rest
      | TABLE => ∃ t, key d = tableKey (mkPlace (Some id) db sc) (Some t) ∧ sameParams p (withTable t (setPlace db sc (sources id)))
      | VIEW => ∃ t, key d = viewKey (mkPlace (Some id) db sc) (Some t) ∧ sameParams p (withView t (setPlace db sc (sources id)))
      | SAVE_CONSOLE => ∃ q rest, pieces (key d) = i :: D :: S :: (js "console_" ++ q) :: rest
      | FUNCTION | PROCEDURE | TRIGGER | COLUMN | COLUMNS | KEY | KEYS | INDEX | INDEXES | VIEWCOLUMN | VIEWCOLUMNS =>
          ∃ w q rest, w ∈ objectPrefixes ∧ pieces (key d) = i :: D :: S :: (w ++ q) :: rest ∧ 5 ≤ length (pieces (key d))
      | _ => False
      end
  end.

Definition Form (d : NodeData) : Prop :=
  (treeNodeType d = GROUP ∧ ∃ id, key d = groupKey id) ∨
  ∃ id db sc, (0 ≤ id)%Z ∧ plainOption db ∧ plainOption sc ∧ placeOf (extraParams d) = mkPlace (Some id) db sc ∧ keyForm d id db sc.

(** *** Every listed node has the key of its type and place *)

Context (Hplain : PlainEngine).

Lemma same_place p q : sameParams p q → placeOf p = placeOf q.
Proof. destruct p, q. unfold sameParams, withRefresh. intros [=]. by subst. Qed.

Lemma same_databaseType p q : sameParams p q → databaseType p = databaseType q.
Proof. destruct p, q. unfold sameParams, withRefresh. intros [=]. by subst. Qed.

Ltac same_with := let H := fresh in intros H; match type of H with sameParams ?p ?q => destruct p, q end;
  unfold sameParams, withRefresh in *; revert H; intros [=]; by subst.

Lemma same_withDatabase t p q : sameParams p q → sameParams (withDatabase t p) (withDatabase t q).
Proof. same_with. Qed.
Lemma same_withSchema t p q : sameParams p q → sameParams (withSchema t p) (withSchema t q).
Proof. same_with. Qed.
Lemma same_withTable t p q : sameParams p q → sameParams (withTable t p) (withTable t q).
Proof. same_with. Qed.
Lemma same_withView t p q : sameParams p q → sameParams (withView t p) (withView t q).
Proof. same_with. Qed.

Lemma withDatabase_setPlace t db sc p : withDatabase t (setPlace db sc p) = setPlace (Some t) sc p.
Proof. by destruct p. Qed.
Lemma withSchema_setPlace t db sc p : withSchema t (setPlace db sc p) = setPlace db (Some t) p.
Proof. by destruct p. Qed.
Lemma setPlace_source id : setPlace None None (sources id) = sources id.
Proof. pose proof (sources_place Hplain id) as H. destruct (sources id). unfold placeOf in H. cbn in H. injection H as -> -> ->. done. Qed.
Lemma placeOf_setPlace id db sc : placeOf (setPlace db sc (sources id)) = mkPlace (Some id) db sc.
Proof. pose proof (sources_place Hplain id) as H. destruct (sources id). unfold placeOf in *. cbn in *. congruence. Qed.

Section place.
Context (id : Z) (db sc : option jstr) (Hid : (0 ≤ id)%Z) (Hdb : plainOption db) (Hsc : plainOption sc).
Let i := idPart (Some id).
Let D := namePart (js "database") db.
Let S := namePart (js "schema") sc.
Let place := mkPlace (Some id) db sc.

Lemma place_unbroken : unbroken i ∧ unbroken D ∧ unbroken S.
Proof.
  split_and!; [by apply idPart_unbroken|apply namePart_unbroken; [|done]..]; by apply (bool_decide_unpack _).
Qed.

(** The pieces of a place come before those of the rest. *)
Lemma pieces_place x rest : pieces (joined (placeParts place ++ x :: rest)) = i :: D :: S :: pieces (joined (x :: rest)).
Proof.
  destruct place_unbroken as (Hi & HD & HS). change (placeParts place ++ x :: rest) with (i :: D :: S :: x :: rest).
  by rewrite !pieces_joined.
Qed.

Lemma pieces_schema : pieces (schemaNodeKey place) = [i; D; S].
Proof. destruct place_unbroken as (Hi & HD & HS). change (schemaNodeKey place) with (joined [i; D; S]). by rewrite !pieces_joined, pieces_one. Qed.

Lemma pieces_folder f : unbroken f → pieces (folderKey f place) = [i; D; S; f].
Proof. intros Hf. unfold folderKey. by rewrite pieces_place, pieces_one. Qed.

(** An object of the place and what is below it. *)
Lemma pieces_object w t rest : unbroken w →
  ∃ q rest', pieces (joined (placeParts place ++ (w ++ t) :: rest)) = i :: D :: S :: (w ++ q) :: rest' ∧
    (rest ≠ [] → 5 ≤ length (pieces (joined (placeParts place ++ (w ++ t) :: rest)))).
Proof.
  intros Hw. rewrite pieces_place. destruct (pieces_joined_prefix w t rest Hw) as (q & rest' & E). exists q, rest'. rewrite E. split; [done|].
  intros Hne. destruct rest as [|b rest]; [done|]. pose proof (pieces_length (w ++ t) b rest) as Hl. rewrite E in Hl. cbn [length] in *. lia.
Qed.

(** What a node below a node of this place needs for its form. *)
Lemma form_of d : placeOf (extraParams d) = place → keyForm d id db sc → Form d.
Proof. intros Hp Hk. right. exists id, db, sc. by split_and!. Qed.

Context (q : IExtraParams) (Hq : placeOf q = place).

Lemma form_leafless type key title :
  placePieces type i D S = Some (pieces key) → hiddenNames type db sc → sameParams q (setPlace db sc (sources id)) →
  Form (nodeData (newNode key title type false q)).
Proof. intros Hk Hh Hs. apply form_of; [done|]. unfold keyForm. cbn [nodeData newNode treeNodeType ObjectTree.newNode TreeNodes.key isLeaf extraParams]. fold i D S. by rewrite Hk. Qed.

Lemma form_deep type key title leaf w t rest ct cc deco ty com :
  type ∈ [FUNCTION; PROCEDURE; TRIGGER; COLUMN; COLUMNS; KEY; KEYS; INDEX; INDEXES; VIEWCOLUMN; VIEWCOLUMNS] →
  w ∈ objectPrefixes → rest ≠ [] → ∀ p, placeOf p = place →
  key = joined (placeParts place ++ (w ++ t) :: rest) →
  Form (mkNodeData key title ct type p leaf cc None deco ty com).
Proof.
  intros Ht Hw Hr p Hp ->. apply form_of; [done|].
  assert (unbroken w) as Hu by (revert w Hw; rewrite <- Forall_forall; apply (bool_decide_unpack _); vm_compute; exact I).
  destruct (pieces_object w t rest Hu) as (x & rest' & E & Hl). unfold keyForm. cbn [treeNodeType TreeNodes.key].
  repeat (apply elem_of_cons in Ht as [->|Ht]; [exists w, x, rest'; auto|]). by apply not_elem_of_nil in Ht.
Qed.
End place.

Lemma elem_page {A} (node : nat → A → TreeNodeData) page result c :
  pageNodes node page = Some result → c ∈ children result → ∃ n x, c = node n x.
Proof.
  unfold pageNodes. destruct page as [res|]; [|done]. intros [= <-]. cbn [children]. intros (n & Hn)%list_elem_of_lookup.
  rewrite list_lookup_imap in Hn. apply fmap_Some in Hn as (x & _ & ->). by exists n, x.
Qed.

Lemma elem_counted {A} (node : nat → A → TreeNodeData) page result c :
  countedNodes node page = Some result → c ∈ children result → ∃ n x, c = node n x.
Proof.
  unfold countedNodes. destruct page as [res|]; [|done]. intros [= <-]. cbn [children]. intros (n & Hn)%list_elem_of_lookup.
  rewrite list_lookup_imap in Hn. apply fmap_Some in Hn as (x & _ & ->). by exists n, x.
Qed.

Lemma elem_mapList {A} (f : A → TreeNodeData) answer nodes c :
  mapList f answer = Some nodes → c ∈ nodes → ∃ l x, answer = Some l ∧ x ∈ l ∧ c = f x.
Proof.
  unfold mapList. destruct answer as [l|]; [|done]. intros [= <-] (x & -> & Hx)%list_elem_of_fmap. by exists l, x.
Qed.

Section children.
Context (id : Z) (db sc : option jstr) (Hid : (0 ≤ id)%Z) (Hdb : plainOption db) (Hsc : plainOption sc).
Context (q : IExtraParams) (Hq : placeOf q = mkPlace (Some id) db sc).
Let place := mkPlace (Some id) db sc.

Lemma names_of_place : dataSourceId q = Some id ∧ databaseName q = db ∧ schemaName q = sc.
Proof. unfold placeOf in Hq. by injection Hq as -> -> ->. Qed.

Section same.
Context (Hs : sameParams q (setPlace db sc (sources id))).

Lemma folders_form c : c ∈ objectFolders i18n place q → Form (nodeData c).
Proof.
  unfold objectFolders, createSaveConsolesNode. rewrite Hq. intros Hc.
  repeat (apply elem_of_cons in Hc as [->|Hc]; [apply (form_leafless id db sc Hid Hdb Hsc q Hq); [|done|done];
    cbn [placePieces folderName mbind option_bind]; f_equal; symmetry; apply pieces_folder; try done; by apply (bool_decide_unpack _)|]).
  by apply not_elem_of_nil in Hc.
Qed.

Lemma consoles_form : Form (nodeData (createSaveConsolesNode i18n q)).
Proof. apply folders_form. unfold objectFolders. rewrite !elem_of_cons. tauto. Qed.

Lemma schema_form name : plainName name → Form (nodeData (schemaNode db q name)).
Proof.
  intros Hn. destruct names_of_place as (Hi & _ & _). right. exists id, db, (Some name). split_and!; [done..| |].
  - unfold schemaNode. cbn [nodeData ObjectTree.newNode extraParams]. rewrite (same_place _ _ (same_withSchema name _ _ Hs)), withSchema_setPlace. by apply placeOf_setPlace.
  - unfold schemaNode. rewrite Hi. unfold keyForm. cbn [nodeData ObjectTree.newNode treeNodeType TreeNodes.key extraParams placePieces folderName isLeaf].
    split_and!; [by apply pieces_schema|done|done|]. rewrite (same_withSchema name _ _ Hs), withSchema_setPlace. reflexivity.
Qed.

Lemma database_form name : sc = None → plainName name → Form (nodeData (databaseNode q name)).
Proof.
  intros Esc Hn. destruct names_of_place as (Hi & _ & _). pose proof Hs as Hs'. rewrite Esc in Hs'.
  right. exists id, (Some name), None. split_and!; [done..| |].
  - unfold databaseNode. cbn [nodeData ObjectTree.newNode extraParams]. rewrite (same_place _ _ (same_withDatabase name _ _ Hs')), withDatabase_setPlace. by apply placeOf_setPlace.
  - unfold databaseNode. rewrite Hi. unfold keyForm. cbn [nodeData ObjectTree.newNode treeNodeType TreeNodes.key extraParams placePieces folderName isLeaf].
    split_and!; [|done|done|].
    + destruct (place_unbroken id (Some name) None Hid Hn I) as (Hu & HD & _). unfold databaseNodeKey. by rewrite pieces_joined, pieces_one.
    + rewrite (same_withDatabase name _ _ Hs'), withDatabase_setPlace. reflexivity.
Qed.

Lemma dataSource_form nodes c :
  db = None → sc = None → dataSourceChildren databases i18n engine q = Some nodes → c ∈ nodes → Form (nodeData c).
Proof.
  intros Edb Esc. unfold dataSourceChildren. destruct names_of_place as (Hi & _ & _).
  destruct (getDatabaseSupport databases (databaseType q)) as [supportDatabase supportSchema].
  intros (data & Hdata & ->)%fmap_Some. rewrite !elem_of_app. intros [Hc|[Hc|Hc]].
  - destruct (negb supportDatabase && negb supportSchema); [|destruct (negb supportDatabase)].
    + injection Hdata as <-. apply folders_form. unfold place. by rewrite Edb, Esc, <- Hi.
    + apply (elem_mapList _ _ _ _ Hdata) in Hc as (l & name & Hl & Hn & ->). pose proof (plain_schemas Hplain _ _ Hl) as Hall.
      rewrite Forall_forall in Hall. rewrite <- Edb. apply schema_form, Hall, Hn.
    + apply (elem_mapList _ _ _ _ Hdata) in Hc as (l & name & Hl & Hn & ->). pose proof (plain_databases Hplain _ _ _ Hl) as Hall.
      rewrite Forall_forall in Hall. apply database_form; [done|]. by apply Hall.
  - case_match; [|by apply not_elem_of_nil in Hc]. apply list_elem_of_singleton in Hc as ->.
    apply (form_leafless id db sc Hid Hdb Hsc q Hq); [|done|done]. cbn [placePieces]. rewrite Hi. unfold createMonitorTreeNodeKey.
    destruct (place_unbroken id db sc Hid Hdb Hsc) as (Hu & _ & _). rewrite pieces_joined by done. rewrite pieces_one by (by apply (bool_decide_unpack _)). done.
  - case_match; [|by apply not_elem_of_nil in Hc]. apply list_elem_of_singleton in Hc as ->.
    apply (form_leafless id db sc Hid Hdb Hsc q Hq); [|done|done]. cbn [placePieces]. rewrite Hi. unfold databaseAccountsKey.
    destruct (place_unbroken id db sc Hid Hdb Hsc) as (Hu & _ & _). rewrite pieces_joined by done. rewrite pieces_one by (by apply (bool_decide_unpack _)). done.
Qed.

Lemma database_children_form nodes c :
  sc = None → databaseChildren databases i18n engine q = Some nodes → c ∈ nodes → Form (nodeData c).
Proof.
  intros Esc. unfold databaseChildren. destruct names_of_place as (Hi & Hd & _). case_match; [|case_match].
  - intros Hdata Hc. apply (elem_mapList _ _ _ _ Hdata) in Hc as (l & name & Hl & Hn & ->). pose proof (plain_schemas Hplain _ _ Hl) as Hall.
    rewrite Forall_forall in Hall. rewrite Hd. apply schema_form, Hall, Hn.
  - intros [= <-] [->|[->|Hc]%elem_of_cons]%elem_of_cons; [|apply consoles_form|by apply not_elem_of_nil in Hc].
    apply (form_of id db sc Hid Hdb Hsc); [done|]. unfold keyForm. cbn [nodeData ObjectTree.newNode treeNodeType placePieces folderName mbind option_bind TreeNodes.key].
    rewrite Hi, Hd. unfold allDataKey. destruct (place_unbroken id db sc Hid Hdb Hsc) as (Hu & HD & _).
    rewrite !pieces_joined by done. rewrite pieces_one by (by apply (bool_decide_unpack _)). done.
  - intros [= <-]. rewrite Hi, Hd, <- Esc. apply folders_form.
Qed.

Lemma schema_children_form c : c ∈ schemaChildren databases i18n q → Form (nodeData c).
Proof.
  unfold schemaChildren. rewrite Hq. case_match; [|apply folders_form].
  intros [->|[->|Hc]%elem_of_cons]%elem_of_cons; [|apply consoles_form|by apply not_elem_of_nil in Hc].
  apply (form_leafless id db sc Hid Hdb Hsc q Hq); [|done|done]. cbn [placePieces folderName mbind option_bind]. f_equal. symmetry. by apply pieces_folder; [..|apply (bool_decide_unpack _)].
Qed.

Lemma tables_form result c : tablesChildren engine q = Some result → c ∈ children result → Form (nodeData c).
Proof.
  unfold tablesChildren. destruct (getTableList engine q) as [res|]; [|done]. intros [= <-]. cbn [children].
  assert (∀ ts acc, (∀ c, c ∈ acc.2 → Form (nodeData c)) → ∀ c, c ∈ (fold_left (addTable q) ts acc).2 → Form (nodeData c)) as H.
  { induction ts as [|t ts IH]; intros [pins nodes] Hacc; [done|]. cbn [fold_left addTable]. apply IH. cbn [snd] in *.
    intros c'. case_match; [apply Hacc|]. rewrite elem_of_app. intros [?|Hx%list_elem_of_singleton]; [by apply Hacc|]. subst c'.
    right. exists id, db, sc. split_and!; [done..| |].
    - unfold tableNode. cbn [nodeData extraParams]. rewrite (same_place _ _ (same_withTable (tableTitle t) _ _ Hs)).
      etrans; [|apply (placeOf_setPlace id db sc)]. by destruct (setPlace db sc (sources id)).
    - unfold keyForm, tableNode. cbn [nodeData treeNodeType placePieces folderName mbind option_bind TreeNodes.key extraParams].
      rewrite Hq. exists (tableTitle t). split; [done|]. by apply same_withTable. }
  apply H. by intros ? ?%not_elem_of_nil.
Qed.

Lemma views_form result c : viewsChildren engine q = Some result → c ∈ children result → Form (nodeData c).
Proof.
  unfold viewsChildren. intros Hr (n & name & ->)%(elem_page _ _ _ _ Hr). right. exists id, db, sc. split_and!; [done..| |].
  - cbn [nodeData ObjectTree.newNode extraParams]. rewrite (same_place _ _ (same_withView name _ _ Hs)).
    etrans; [|apply (placeOf_setPlace id db sc)]. by destruct (setPlace db sc (sources id)).
  - unfold keyForm. cbn [nodeData ObjectTree.newNode treeNodeType placePieces folderName mbind option_bind TreeNodes.key extraParams].
    rewrite Hq. exists name. split; [done|]. by apply same_withView.
Qed.

End same.

(** A node below a table, a view or a folder whose key goes on after [w] and the name. *)
Ltac deep_form prefix name :=
  cbn [nodeData ObjectTree.newNode];
  eapply (form_deep id db sc Hid Hdb Hsc) with (w := js prefix) (t := shownName name);
  [by apply (bool_decide_unpack _)|by apply (bool_decide_unpack _)| |solve [exact Hq|etrans; [|exact Hq]; auto]|
   rewrite Hq; unfold columnsKey, keysKey, indexesKey, viewColumnsKey, procedureKey, functionKey, triggerKey, viewColumnKey, columnKey, keyKey, indexKey, uniqueKey;
   cbn [app]; reflexivity]; done.

Lemma with_place :
  (∀ t, placeOf (withFunction t q) = placeOf q) ∧ (∀ t, placeOf (withProcedure t q) = placeOf q) ∧ (∀ t, placeOf (withTrigger t q) = placeOf q) ∧
  (∀ a, placeOf (withAccount a q) = placeOf q) ∧ (∀ c, placeOf (withConsole c q) = placeOf q).
Proof. by destruct q. Qed.

Lemma other_children_form uuid type result c :
  type ∉ [DATA_SOURCES; DATA_SOURCE; SCHEMAS; DATABASE; SCHEMA; TABLES; VIEWS] →
  getChildren databases i18n engine uuid type q = Some (Some result) → c ∈ children result → Form (nodeData c).
Proof.
  intros Ht. destruct with_place as (Hf & Hpr & Htr & Ha & Hc'). destruct names_of_place as (Hi & _ & _).
  destruct type; try (exfalso; apply Ht; by apply (bool_decide_unpack _)); cbn [getChildren normalizeTreeNodeLoadResult]; try done;
    try (by intros [= <-] ?%not_elem_of_nil).
  - intros [= <-]. cbn [children normalizeTreeNodeLoadResult]. unfold monitorChildren. case_match; [|by intros ?%not_elem_of_nil]. intros ->%list_elem_of_singleton.
    apply (form_of id db sc Hid Hdb Hsc); [done|]. unfold keyForm. cbn [nodeData ObjectTree.newNode treeNodeType placePieces folderName mbind option_bind TreeNodes.key].
    rewrite Hi. unfold createActiveTransactionsTreeNodeKey. destruct (place_unbroken id db sc Hid Hdb Hsc) as (Hu & _ & _).
    rewrite !pieces_joined by (done || by apply (bool_decide_unpack _)). rewrite pieces_one by (by apply (bool_decide_unpack _)). done.
  - unfold databaseAccountsChildren. destruct (getAccountList engine (dataSourceId q)) as [accounts|]; [|done]. cbn [mbind option_bind].
    destruct (mapM (accountNode q) accounts) as [nodes|] eqn:E; [|done]. intros [= <-] Hc. cbn [children normalizeTreeNodeLoadResult] in Hc.
    apply mapM_Some in E. apply list_elem_of_lookup in Hc as (n & Hc). destruct (Forall2_lookup_r _ _ _ _ _ E Hc) as (a & _ & Hn). unfold accountNode in Hn.
    destruct (databaseAccountKey _ _ _) as [k|] eqn:Ek; [|done]. injection Hn as <-. unfold databaseAccountKey in Ek.
    apply bind_Some in Ek as (u & _ & Ek). apply bind_Some in Ek as (h & _ & Ek). injection Ek as <-.
    apply (form_of id db sc Hid Hdb Hsc); [by rewrite <- Hq; apply Ha|]. unfold keyForm. cbn [nodeData ObjectTree.newNode treeNodeType placePieces folderName mbind option_bind TreeNodes.key].
    rewrite Hi. destruct (place_unbroken id db sc Hid Hdb Hsc) as (Hu & _ & _). rewrite pieces_joined by done.
    destruct (pieces_prefix (js "databaseAccount_") (u ++ js "_" ++ h)) as (x & rest & E'); [by apply (bool_decide_unpack _)|]. exists x, rest. by f_equal.
  - intros [= <-]. cbn [children normalizeTreeNodeLoadResult]. unfold tableChildren. intros Hc.
    repeat (apply elem_of_cons in Hc as [->|Hc]; [deep_form "table_" (tableName q)|]). by apply not_elem_of_nil in Hc.
  - intros [= Hr] (n & t & ->)%(elem_counted _ _ _ _ Hr). deep_form "table_" (tableName q).
  - intros [= Hr] (n & t & ->)%(elem_counted _ _ _ _ Hr). deep_form "table_" (tableName q).
  - intros [= Hr] (n & t & ->)%(elem_counted _ _ _ _ Hr). deep_form "table_" (tableName q).
  - intros [= <-]. cbn [children normalizeTreeNodeLoadResult]. unfold viewChildren. intros ->%list_elem_of_singleton. deep_form "view_" (tableName q).
  - intros [= Hr] (n & t & ->)%(elem_counted _ _ _ _ Hr). deep_form "view_" (Some t).
  - intros [= Hr] (n & t & ->)%(elem_page _ _ _ _ Hr). deep_form "function_" (if truthyName t.2 then t.2 else Some t.1).
  - intros [= Hr] (n & t & ->)%(elem_page _ _ _ _ Hr). deep_form "procedure_" (Some t).
  - intros [= Hr] (n & t & ->)%(elem_page _ _ _ _ Hr). deep_form "trigger_" (Some t).
  - unfold saveConsolesChildren. destruct (getConsoleList engine q) as [res|]; [|done]. cbn [mbind option_bind].
    destruct (pageData res) as [data|]; [|done]. intros [= <-] (x & -> & _)%list_elem_of_fmap.
    apply (form_of id db sc Hid Hdb Hsc); [by rewrite <- Hq; apply Hc'|]. unfold keyForm, consoleNode. cbn [nodeData treeNodeType placePieces folderName mbind option_bind TreeNodes.key].
    rewrite Hq. destruct (pieces_object id db sc Hid Hdb Hsc (js "console_") (shownId (Some (consoleId x))) []) as (y & rest & E & _); [by apply (bool_decide_unpack _)|].
    exists y, rest. exact E.
Qed.
End children.

Lemma children_form d uuid r result c :
  Form d → getChildren databases i18n engine uuid (treeNodeType d) (withRefresh r (extraParams d)) = Some (Some result) → c ∈ children result →
  Form (nodeData c).
Proof.
  intros [[-> _]|(id & db & sc & Hid & Hdb & Hsc & Hp & Hk)]; [by intros [= <-] ?%not_elem_of_nil|].
  set (q := withRefresh r (extraParams d)). assert (sameParams q (extraParams d)) as Hqs by apply refresh_same.
  assert (placeOf q = mkPlace (Some id) db sc) as Hq by (rewrite <- Hp; by apply same_place).
  assert (∀ ps, placePieces (treeNodeType d) (idPart (Some id)) (namePart (js "database") db) (namePart (js "schema") sc) = Some ps →
            hiddenNames (treeNodeType d) db sc ∧ sameParams q (setPlace db sc (sources id))) as Hplace.
  { intros ps Hps. unfold keyForm in Hk. rewrite Hps in Hk. destruct Hk as (_ & Hh & _ & Hs). split; [done|]. by rewrite Hqs. }
  destruct (decide (treeNodeType d ∈ [DATA_SOURCES; DATA_SOURCE; SCHEMAS; DATABASE; SCHEMA; TABLES; VIEWS])) as [Ht|Ht];
    [|intros Hg Hc; by apply (other_children_form id db sc Hid Hdb Hsc q Hq uuid (treeNodeType d) result c Ht Hg)].
  assert (∀ list, Some (normalizeTreeNodeLoadResult <$> list) = Some (Some result) → c ∈ children result → ∃ nodes, list = Some nodes ∧ c ∈ nodes) as Hlisted.
  { intros [nodes|]; [|done]. intros [= <-] Hc. by exists nodes. }
  unfold keyForm in Hk. repeat rewrite elem_of_cons in Ht. destruct Ht as [Ht|[Ht|[Ht|[Ht|[Ht|[Ht|[Ht|Ht%not_elem_of_nil]]]]]]]; [..|done];
    rewrite Ht in *; cbn [getChildren] in *; try done; cbn [placePieces folderName mbind option_bind] in Hplace; destruct (Hplace _ eq_refl) as [Hh Hs].
  - intros Hg Hc. destruct (Hlisted _ Hg Hc) as (nodes & Hn & Hc'). destruct Hh. eapply (dataSource_form id db sc); eauto.
  - intros Hg Hc. destruct (Hlisted _ Hg Hc) as (nodes & Hn & Hc'). eapply (database_children_form id db sc); eauto.
  - intros [= <-] Hc. eapply (schema_children_form id db sc); eauto.
  - intros [= Hg] Hc. eapply (tables_form id db sc); eauto.
  - intros [= Hg] Hc. eapply (views_form id db sc); eauto.
Qed.

Lemma listed_form d : Listed d → Form d.
Proof.
  induction 1 as [d id Ht Hk Hid Hl Hs|d id Ht Hk|d uuid r result c _ IH Hg Hc|d result _ IH].
  - right. exists id, None, None. split_and!; [done|done|done| |].
    + rewrite (same_place _ _ Hs). apply (sources_place Hplain).
    + unfold keyForm. rewrite Ht. cbn [placePieces]. rewrite Hk, setPlace_source. split_and!; try done. apply pieces_one. by apply idPart_unbroken.
  - left. eauto.
  - by eapply children_form.
  - destruct IH as [IH|(id & db & sc & Hid & Hdb & Hsc & Hp & Hk)]; [by left|]. right. exists id, db, sc. split_and!; try done.
    unfold keyForm in *. cbn [refreshData treeNodeType TreeNodes.key extraParams isLeaf]. destruct (placePieces _ _ _ _); [|exact Hk]. by destruct Hk as (? & ? & _ & ?).
Qed.

(** *** The type that a key shows *)

Definition objectFolder (x : jstr) : option TreeNodeType :=
  if bool_decide (x = js "tables_chat2dbCatalogue") then Some TABLES
  else if bool_decide (x = js "views_chat2dbCatalogue") then Some VIEWS
  else if bool_decide (x = js "functions_chat2dbCatalogue") then Some FUNCTIONS
  else if bool_decide (x = js "procedures_chat2dbCatalogue") then Some PROCEDURES
  else if bool_decide (x = js "triggers_chat2dbCatalogue") then Some TRIGGERS
  else if bool_decide (x = js "consoles_chat2dbCatalogue") then Some SAVE_CONSOLES
  else if startsWith (js "table_") x then Some TABLE
  else if startsWith (js "view_") x then Some VIEW
  else None.

Definition pieceType (ps : list jstr) : option TreeNodeType :=
  match ps with
  | a :: rest =>
      if startsWith (js "dataSource_") a then
        match rest with
        | [] => Some DATA_SOURCE
        | [b] => if bool_decide (b = js "monitor") then Some MONITOR
                 else if bool_decide (b = js "databaseAccounts") then Some DATABASE_ACCOUNTS
                 else if startsWith (js "database_") b then Some DATABASE
                 else None
        | [b; c] => if startsWith (js "database_") b && startsWith (js "schema_") c then Some SCHEMA else None
        | [b; c; x] => if (bool_decide (b = []) || startsWith (js "database_") b) then objectFolder x else None
        | _ => None
        end
      else None
  | [] => None
  end.

Lemma startsWith_more p w q : startsWith p (p ++ w ++ q) = true.
Proof. apply startsWith_app. Qed.

Lemma objectFolder_name type f : folderName type = Some f → objectFolder f = Some type.
Proof. destruct type; intros [= <-]; by vm_compute. Qed.

(** Objects whose key goes on after their name, and saved consoles. *)
Lemma objectFolder_object q :
  objectFolder (js "table_" ++ q) = Some TABLE ∧ objectFolder (js "view_" ++ q) = Some VIEW ∧ objectFolder (js "console_" ++ q) = None.
Proof.
  unfold objectFolder. repeat split; repeat (rewrite bool_decide_eq_false_2; [|by intros [=]]); reflexivity.
Qed.

Lemma pieceType_place type id db sc ps :
  placePieces type (idPart (Some id)) (namePart (js "database") db) (namePart (js "schema") sc) = Some ps → pieceType ps = Some type.
Proof.
  assert (startsWith (js "dataSource_") (idPart (Some id)) = true) as Hi by apply startsWith_app.
  assert (startsWith (js "database_") (namePart (js "database") db) = true) as Hd by apply (startsWith_app (js "database_")).
  assert (startsWith (js "schema_") (namePart (js "schema") sc) = true) as Hs by apply (startsWith_app (js "schema_")).
  assert (bool_decide (namePart (js "database") db = js "monitor") = false) as E1 by (apply bool_decide_eq_false_2; by intros [=]).
  assert (bool_decide (namePart (js "database") db = js "databaseAccounts") = false) as E2 by (apply bool_decide_eq_false_2; by intros [=]).
  destruct type; cbn [placePieces folderName mbind option_bind]; try done; intros [= <-]; cbn [pieceType]; rewrite Hi; try reflexivity;
    rewrite ?E1, ?E2, ?Hd, ?Hs, ?orb_true_r; try reflexivity.
Qed.

(** The pieces of the key of a table. *)
Lemma pieces_table id db sc t :
  (0 ≤ id)%Z → plainOption db → plainOption sc →
  pieces (tableKey (mkPlace (Some id) db sc) (Some t)) =
  idPart (Some id) :: (if truthyName db then namePart (js "database") db else []) :: (if truthyName sc then namePart (js "schema") sc else [])
    :: pieces (namePart (js "table") (Some t)).
Proof.
  intros Hid Hdb Hsc. destruct (place_unbroken id db sc Hid Hdb Hsc) as (Hi & HD & HS). unfold tableKey. cbn [placeId placeDatabase placeSchema].
  rewrite !pieces_joined; [done|by destruct (truthyName sc); [|apply not_elem_of_nil]|by destruct (truthyName db); [|apply not_elem_of_nil]|done].
Qed.

Lemma pieceType_long a b c x y rest : pieceType (a :: b :: c :: x :: y :: rest) = None.
Proof. cbn. by destruct (startsWith _ a). Qed.

Lemma form_type d T : Form d → pieceType (pieces (key d)) = Some T → treeNodeType d = T.
Proof.
  intros [[Ht [id ->]]|(id & db & sc & Hid & Hdb & Hsc & Hp & Hk)].
  - destruct (pieces_prefix (js "group_") (shownId id)) as (q & rest & E); [by apply (bool_decide_unpack _)|]. unfold groupKey. rewrite E. by vm_compute.
  - unfold keyForm in Hk. destruct (placePieces _ _ _ _) as [ps|] eqn:Eps.
    { destruct Hk as (-> & _). rewrite (pieceType_place _ _ _ _ _ Eps). congruence. }
    assert (startsWith (js "dataSource_") (idPart (Some id)) = true) as Hi by apply startsWith_app.
    assert (startsWith (js "database_") (namePart (js "database") db) = true) as Hd by apply (startsWith_app (js "database_")).
    destruct (treeNodeType d) eqn:Et; try done;
      try (destruct Hk as (w & q & rest & _ & E & Hl); rewrite E in *; destruct rest as [|y rest]; [cbn in Hl; lia|by rewrite pieceType_long]).
    + rewrite Hk. cbn [pieceType]. rewrite Hi, Hd. intros H. by vm_compute in H.
    + rewrite Hk. cbn [pieceType]. rewrite Hi. intros H. by vm_compute in H.
    + destruct Hk as (q & rest & ->). destruct rest as [|x [|y rest]]; cbn [pieceType]; rewrite Hi; [|intros H; by vm_compute in H|].
      * rewrite !bool_decide_eq_false_2 by (by intros [=]). intros H. by vm_compute in H.
      * destruct rest; [|done]. rewrite bool_decide_eq_false_2 by (by intros [=]). intros H. by vm_compute in H.
    + destruct Hk as (t & -> & _). rewrite pieces_table by done.
      destruct (pieces_prefix (js "table_") (shownName (Some t))) as (q & rest & E); [by apply (bool_decide_unpack _)|].
      change (namePart (js "table") (Some t)) with (js "table_" ++ shownName (Some t)). rewrite E. destruct rest as [|y rest]; [|by rewrite pieceType_long].
      cbn [pieceType]. rewrite Hi. case_match; [|done]. destruct (objectFolder_object q) as (-> & _ & _). congruence.
    + destruct Hk as (t & -> & _). unfold viewKey. rewrite pieces_place by done.
      destruct (pieces_prefix (js "view_") (shownName (Some t))) as (q & rest & E); [by apply (bool_decide_unpack _)|].
      change (joined [namePart (js "view") (Some t)]) with (js "view_" ++ shownName (Some t)). rewrite E. destruct rest as [|y rest]; [|by rewrite pieceType_long].
      cbn [pieceType]. rewrite Hi. case_match; [|done]. destruct (objectFolder_object q) as (_ & -> & _). congruence.
    + destruct Hk as (q & rest & ->). destruct rest as [|y rest]; [|by rewrite pieceType_long].
      cbn [pieceType]. rewrite Hi. case_match; [|done]. by destruct (objectFolder_object q) as (_ & _ & ->).
Qed.

(** *** A key stands for one node *)

Lemma cons4_inj (a b c a' b' c' : jstr) (l l' : list jstr) : a :: b :: c :: l = a' :: b' :: c' :: l' → a = a' ∧ b = b' ∧ c = c' ∧ l = l'.
Proof. by intros [=]. Qed.

Lemma pieces_inj a b : pieces a = pieces b → a = b.
Proof. intros E. rewrite <- (join_split_char (ch "-") a), <- (join_split_char (ch "-") b). unfold pieces in E. by rewrite E. Qed.

Lemma shownPart_inj prefix t t' : plainName t → namePart prefix (Some t) = namePart prefix (Some t') → t = t'.
Proof.
  intros (Hne & _ & Hu). unfold namePart. intros E%app_inv_head%app_inv_head. destruct t as [|c t]; [done|]. destruct t' as [|c' t']; cbn in *; congruence.
Qed.

Lemma truthy_inj prefix a b :
  plainOption a → plainOption b → (if truthyName a then namePart prefix a else []) = (if truthyName b then namePart prefix b else []) → a = b.
Proof.
  intros Ha Hb. assert (∀ t x, prefix ++ js "_" ++ t :: x ≠ []) as Hne by (intros ?? [_ ?]%app_nil; done).
  destruct a as [[|c a]|], b as [[|c' b]|]; cbn [truthyName plainOption]; try (by destruct Ha); try (by destruct Hb); try done.
  - by apply namePart_inj.
  - unfold namePart. cbn [shownName]. intros E. by apply Hne in E.
  - unfold namePart. cbn [shownName]. intros E. symmetry in E. by apply Hne in E.
Qed.

Definition isPlaceType (type : TreeNodeType) : bool := bool_decide (is_Some (placePieces type [] [] [])).

Lemma isPlaceType_pieces type i D S : isPlaceType type = true → ∃ ps, placePieces type i D S = Some ps.
Proof. unfold isPlaceType. intros H%bool_decide_eq_true. destruct type; cbn in *; eauto; by destruct H. Qed.

Lemma placePieces_parts type i D S i' D' S' ps :
  placePieces type i D S = Some ps → placePieces type i' D' S' = Some ps →
  i = i' ∧ match type with DATA_SOURCE | MONITOR | DATABASE_ACCOUNTS => True | DATABASE => D = D' | _ => D = D' ∧ S = S' end.
Proof. destruct type; cbn [placePieces folderName mbind option_bind]; try done; intros [= <-] [=]; by subst. Qed.

(** The place of two nodes of one type whose keys show it alike. *)
Lemma placePieces_inj type id db sc id' db' sc' ps :
  plainOption db → plainOption sc → plainOption db' → plainOption sc' → hiddenNames type db sc → hiddenNames type db' sc' →
  placePieces type (idPart (Some id)) (namePart (js "database") db) (namePart (js "schema") sc) = Some ps →
  placePieces type (idPart (Some id')) (namePart (js "database") db') (namePart (js "schema") sc') = Some ps →
  id = id' ∧ db = db' ∧ sc = sc'.
Proof.
  intros Hdb Hsc Hdb' Hsc' Hh Hh' E1 E2. destruct (placePieces_parts _ _ _ _ _ _ _ _ E1 E2) as [Ei EDS]. apply idPart_inj in Ei.
  assert (namePart (js "database") db = namePart (js "database") db' → db = db') as Hd by (by apply namePart_inj).
  assert (namePart (js "schema") sc = namePart (js "schema") sc' → sc = sc') as Hs by (by apply namePart_inj).
  destruct type; cbn [hiddenNames] in *; try (destruct Hh, Hh'); try destruct EDS; split_and!; auto; congruence.
Qed.

(** The name of a node that is a table or a view. *)
Definition plainObject (d : NodeData) : Prop :=
  (treeNodeType d = TABLE ∨ treeNodeType d = VIEW) ∧ ∃ t, tableName (extraParams d) = Some t ∧ plainName t.

Lemma same_tableName p q : sameParams p q → tableName p = tableName q.
Proof. destruct p, q. unfold sameParams, withRefresh. intros [=]. by subst. Qed.

Lemma tableName_with t p : tableName (withTable t p) = Some t ∧ tableName (withView t p) = Some t.
Proof. by destruct p. Qed.
Lemma place_node d d' :
  Form d → Form d' → key d = key d' → isPlaceType (treeNodeType d) = true →
  treeNodeType d' = treeNodeType d ∧ sameParams (extraParams d') (extraParams d).
Proof.
  intros [[Ht _]|(id & db & sc & Hid & Hdb & Hsc & Hp & Hk)] Hf' E Ht'; [by rewrite Ht in Ht'|].
  destruct (isPlaceType_pieces _ (idPart (Some id)) (namePart (js "database") db) (namePart (js "schema") sc) Ht') as [ps Eps].
  unfold keyForm in Hk. rewrite Eps in Hk. destruct Hk as (Epieces & Hh & _ & Hs).
  assert (treeNodeType d' = treeNodeType d) as Et.
  { apply form_type; [done|]. rewrite <- E, Epieces. by eapply pieceType_place. }
  split; [done|]. destruct Hf' as [[Hg _]|(id' & db' & sc' & Hid' & Hdb' & Hsc' & _ & Hk')]; [rewrite <- Et, Hg in Ht'; done|].
  unfold keyForm in Hk'. rewrite Et in Hk'.
  destruct (isPlaceType_pieces _ (idPart (Some id')) (namePart (js "database") db') (namePart (js "schema") sc') Ht') as [ps' Eps'].
  rewrite Eps' in Hk'. destruct Hk' as (Epieces' & Hh' & _ & Hs'). assert (ps' = ps) as -> by congruence.
  destruct (placePieces_inj _ _ _ _ _ _ _ _ Hdb Hsc Hdb' Hsc' Hh Hh' Eps Eps') as (-> & -> & ->). by rewrite Hs'.
Qed.

Lemma table_node d id db sc t :
  Form d → (0 ≤ id)%Z → plainOption db → plainOption sc → plainName t → key d = tableKey (mkPlace (Some id) db sc) (Some t) →
  treeNodeType d = TABLE ∧ sameParams (extraParams d) (withTable t (setPlace db sc (sources id))).
Proof.
  intros Hf Hid Hdb Hsc Hn E. assert (treeNodeType d = TABLE) as Et.
  { apply form_type; [done|]. rewrite E, pieces_table, pieces_one by (first [done|apply namePart_unbroken; [by apply (bool_decide_unpack _)|done]]).
    cbn [pieceType]. rewrite (startsWith_app (js "dataSource_") _ : startsWith _ (idPart (Some id)) = true).
    destruct (objectFolder_object (shownName (Some t))) as (Ho & _). change (namePart (js "table") (Some t)) with (js "table_" ++ shownName (Some t)).
    destruct (truthyName db); [|by rewrite bool_decide_eq_true_2].
    rewrite (startsWith_app (js "database_") _ : startsWith _ (namePart (js "database") db) = true). by rewrite orb_true_r. }
  split; [done|]. destruct Hf as [[Hg _]|(id' & db' & sc' & Hid' & Hdb' & Hsc' & _ & Hk)]; [congruence|].
  unfold keyForm in Hk. rewrite Et in Hk. cbn [placePieces folderName mbind option_bind] in Hk. destruct Hk as (t' & Ek & Hs).
  rewrite E in Ek. apply (f_equal pieces) in Ek. rewrite !pieces_table in Ek by done.
  apply cons4_inj in Ek as (Ei & Ed & Es & Epc). apply idPart_inj in Ei as ->. apply truthy_inj in Ed as ->; [|done..].
  apply truthy_inj in Es as ->; [|done..]. apply pieces_inj, shownPart_inj in Epc as ->; done.
Qed.

Lemma view_node d id db sc t :
  Form d → (0 ≤ id)%Z → plainOption db → plainOption sc → plainName t → key d = viewKey (mkPlace (Some id) db sc) (Some t) →
  treeNodeType d = VIEW ∧ sameParams (extraParams d) (withView t (setPlace db sc (sources id))).
Proof.
  intros Hf Hid Hdb Hsc Hn E.
  assert (∀ id db sc t, (0 ≤ id)%Z → plainOption db → plainOption sc → pieces (viewKey (mkPlace (Some id) db sc) (Some t)) =
    idPart (Some id) :: namePart (js "database") db :: namePart (js "schema") sc :: pieces (namePart (js "view") (Some t))) as Hv.
  { intros. unfold viewKey. by rewrite pieces_place. }
  assert (treeNodeType d = VIEW) as Et.
  { apply form_type; [done|]. rewrite E, Hv, pieces_one by (first [done|apply namePart_unbroken; [by apply (bool_decide_unpack _)|done]]).
    cbn [pieceType]. rewrite (startsWith_app (js "dataSource_") _ : startsWith _ (idPart (Some id)) = true).
    rewrite (startsWith_app (js "database_") _ : startsWith _ (namePart (js "database") db) = true), orb_true_r.
    change (namePart (js "view") (Some t)) with (js "view_" ++ shownName (Some t)). apply objectFolder_object. }
  split; [done|]. destruct Hf as [[Hg _]|(id' & db' & sc' & Hid' & Hdb' & Hsc' & _ & Hk)]; [congruence|].
  unfold keyForm in Hk. rewrite Et in Hk. cbn [placePieces folderName mbind option_bind] in Hk. destruct Hk as (t' & Ek & Hs).
  rewrite E in Ek. apply (f_equal pieces) in Ek. rewrite !Hv in Ek by done.
  apply cons4_inj in Ek as (Ei & Ed & Es & Epc). apply idPart_inj in Ei as ->. apply namePart_inj in Ed as ->; [|done..].
  apply namePart_inj in Es as ->; [|done..]. apply pieces_inj, shownPart_inj in Epc as ->; done.
Qed.

Lemma same_node d d' :
  Form d → Form d' → key d = key d' → isPlaceType (treeNodeType d) = true ∨ plainObject d →
  treeNodeType d' = treeNodeType d ∧ sameParams (extraParams d') (extraParams d).
Proof.
  intros Hd Hd' E [Ht|[Ht (t & Hn & Ht')]]; [by apply place_node|].
  destruct Hd as [[Hg _]|(id & db & sc & Hid & Hdb & Hsc & Hp & Hk)]; [destruct Ht; congruence|]. unfold keyForm in Hk.
  destruct Ht as [Ht|Ht]; rewrite Ht in *; cbn [placePieces folderName mbind option_bind] in Hk; destruct Hk as (u & Ek & Hs);
    rewrite (same_tableName _ _ Hs) in Hn; [rewrite (proj1 (tableName_with u _)) in Hn|rewrite (proj2 (tableName_with u _)) in Hn];
    injection Hn as ->; rewrite E in Ek.
  - destruct (table_node d' id db sc t Hd') as [-> Hs']; [done..|]. by rewrite Hs'.
  - destruct (view_node d' id db sc t Hd') as [-> Hs']; [done..|]. by rewrite Hs'.
Qed.

(** C37: a key stands for one node.  Two nodes that can be in the tree and have the same key are of the same type and have the same
    parameters, where names of databases and schemas have no hyphen and one of the nodes is above the objects, or is a table or
    a view whose name has no hyphen either. *)
Theorem keys_identify_nodes d d' :
  Listed d → Listed d' → key d = key d' → isPlaceType (treeNodeType d) = true ∨ plainObject d →
  treeNodeType d' = treeNodeType d ∧ sameParams (extraParams d') (extraParams d).
Proof. intros Hd%listed_form Hd'%listed_form. by apply same_node. Qed.
End listed.

(** ** Witnesses *)

Definition sampleSources (id : Z) : IExtraParams := newParams id (js "MYSQL").

Lemma sample_plain : PlainEngine sampleEngine sampleSources.
Proof.
  split; [done|intros p l [= <-]; constructor|]. intros id r l [= <-]. constructor; [|constructor]. unfold plainName. split_and!; [done| |done].
  by apply (bool_decide_unpack _).
Qed.

Definition sampleSource : NodeData :=
  mkNodeData (dataSourceNodeKey (Some 7%Z)) (js "shop") None DATA_SOURCE (sampleSources 7) false None None None None None.

(** The database as a load lists it, forced or not. *)
Definition sampleDatabase (refresh : bool) : NodeData := nodeData (databaseNode (withRefresh refresh (extraParams sampleSource)) (js "shop")).

Lemma sample_source_listed : Listed databaseMap (λ t, t) sampleEngine sampleSources sampleSource.
Proof. by apply (listed_source _ _ _ _ _ 7). Qed.

Lemma sample_database_listed refresh : Listed databaseMap (λ t, t) sampleEngine sampleSources (sampleDatabase refresh).
Proof.
  unfold sampleDatabase. eapply (listed_child _ _ _ _ sampleSource (λ _, []) refresh); [apply sample_source_listed|destruct refresh; vm_compute; reflexivity|].
  apply elem_of_cons. left. by destruct refresh.
Qed.

Lemma keys_identify_nodes_witness :
  let d := refreshData (sampleDatabase true) (mkRefresh [] None) in
  treeNodeType d = DATABASE ∧ sameParams (extraParams d) (extraParams (sampleDatabase false)).
Proof.
  apply (keys_identify_nodes databaseMap (λ t, t) sampleEngine sampleSources sample_plain (sampleDatabase false));
    [apply sample_database_listed|apply listed_refresh, sample_database_listed|reflexivity|by left].
Defined.
