(* ===== verification/TreeLoading.v ===== *)
(** * TreeLoading: loading the children of a node of the object tree
    Models [handleLoadData] of [store/tree/index.tsx] with [removeSubkeys] of [utils/index.ts]: one load from its
    call to its end, while nothing else happens to the tree; loads of one node that overtake each other are those of
    [LatestLoad].  No search is typed meanwhile. *)

From S2P Require Import Prelude SqlText EditorDataSource DatabaseTypes TreeNodes TreeData ObjectTree ObjectTreeKeys.
Local Open Scope nat_scope.

(** ** The store *)

Record TreeStore := mkTreeStore {
  treeData : option (list TreeNodeData);
  interaction : TreeInteraction;
  currentLoadingTreeNode : option TreeNodeData;
  availability : DataSourceRuntimeAvailabilityState;
}.

Definition setExpandedKeys (keys : list jstr) (s : TreeStore) : TreeStore :=
  let i := interaction s in
  mkTreeStore (treeData s) (mkInteraction (selectedKeys i) (currentTreeNode i) (uniq keys) (scrollTargetKey i)) (currentLoadingTreeNode s) (availability s).

Definition setSelection (keys : list jstr) (node : option TreeNodeData) (s : TreeStore) : TreeStore :=
  let i := interaction s in
  mkTreeStore (treeData s) (mkInteraction keys node (expandedKeys i) (scrollTargetKey i)) (currentLoadingTreeNode s) (availability s).

Definition setTreeData (tree : list TreeNodeData) (s : TreeStore) : TreeStore :=
  mkTreeStore (Some tree) (interaction s) (currentLoadingTreeNode s) (availability s).

Definition setCurrentLoadingTreeNode (node : option TreeNodeData) (s : TreeStore) : TreeStore :=
  mkTreeStore (treeData s) (interaction s) node (availability s).

(** [setDataSourceRuntimeAvailability] where the node is a data source. *)
Definition setAvailable (id : option Z) (a : DataSourceRuntimeAvailability) (s : TreeStore) : TreeStore :=
  match id with
  | None => s
  | Some n => mkTreeStore (treeData s) (interaction s) (currentLoadingTreeNode s) (setDataSourceRuntimeAvailability n (Some a) (availability s))
  end.

Definition isAvailable (s : TreeStore) (id : option Z) : bool :=
  match id with None => false | Some n => bool_decide (runtimeAvailabilityByDataSourceId (availability s) !! n = Some Available) end.

Definition removeSubkeys (expandedKeys : list jstr) (tree : list TreeNodeData) (targetKey : jstr) : list jstr :=
  match findNode targetKey (Some tree) with
  | None => expandedKeys
  | Some node => filter (λ k, k ∉ nodeKey <$> preorder node) expandedKeys
  end.

(** ** A load *)

Record ILoadDataOptions := mkOptions { refresh : bool; closeExpandTreeNode : bool; preserveInteraction : bool }.

Record ILoadDataResult := mkResult { loadedChildren : list TreeNodeData; committed : bool }.

Section loading.
Context (databases : dict DynamicDatabases.IDatabase) (i18n : jstr → jstr) (engine : Engine).

(** The number of a node that is a data source. *)
Definition rootDataSourceId (node : TreeNodeData) : option Z :=
  if decide (treeNodeType (nodeData node) = DATA_SOURCE) then dataSourceId (extraParams (nodeData node)) else None.

Definition reusesChildren (node : TreeNodeData) (refresh : bool) (s : TreeStore) : bool :=
  shouldReuseTreeNodeChildren (bool_decide (is_Some (nodeChildren node))) refresh (bool_decide (is_Some (rootDataSourceId node)))
    (isAvailable s (rootDataSourceId node)).

(** The [finally] of the load. *)
Definition loadEnded (k : jstr) (s : TreeStore) : TreeStore :=
  match currentLoadingTreeNode s with
  | Some n => if decide (nodeKey n = k) then setCurrentLoadingTreeNode None s else s
  | None => s
  end.

(** The answer of the engine arrived. *)
Definition commitChildren (k : jstr) (refresh : bool) (id : option Z) (loadResult : TreeNodeRefreshResult) (s : TreeStore) : TreeStore * ILoadDataResult :=
  match findNode k (treeData s), treeData s with
  | Some latestNode, Some currentTreeData =>
      let s := setAvailable id Available s in
      let children := resolveLoadedTreeData (children loadResult) (nodeChildren latestNode) refresh in
      (setTreeData (applyExistingTreeNodeRefresh currentTreeData k (mkRefresh children (total loadResult))) s, mkResult children true)
  | _, _ => (s, mkResult (children loadResult) false)
  end.

(** The load itself; [None] is a promise that is rejected. *)
Definition loadChildren (uuid : nat → jstr) (node : TreeNodeData) (refresh : bool) (s : TreeStore) : TreeStore * option ILoadDataResult :=
  let k := nodeKey node in
  let requestNode := default node (findNode k (treeData s)) in
  let requestDataSourceId := rootDataSourceId requestNode in
  if reusesChildren requestNode refresh s then (s, Some (mkResult (childList requestNode) true))
  else
    match getChildren databases i18n engine uuid (treeNodeType (nodeData node)) (withRefresh refresh (extraParams (nodeData requestNode))) with
    | None => (s, Some (mkResult (childList requestNode) false))
    | Some response =>
        let s := setCurrentLoadingTreeNode (Some requestNode) s in
        match response with
        | None => (loadEnded k (setAvailable requestDataSourceId Unavailable s), None)
        | Some loadResult =>
            let '(s, result) := commitChildren k refresh requestDataSourceId loadResult s in
            (loadEnded k s, Some result)
        end
    end.

Definition handleLoadData (uuid : nat → jstr) (node : TreeNodeData) (options : ILoadDataOptions) (s : TreeStore)
    : TreeStore * option ILoadDataResult :=
  let k := nodeKey node in
  let currentNode := default node (findNode k (treeData s)) in
  if reusesChildren currentNode (refresh options) s then
    (if closeExpandTreeNode options || includes k (expandedKeys (interaction s)) then s
     else setExpandedKeys (appendExpandedTreeKey (expandedKeys (interaction s)) k) s,
     Some (mkResult (childList currentNode) true))
  else
    let interactionTreeData := if preserveInteraction options then None else treeData s in
    let s := if preserveInteraction options then s else setSelection [k] (Some currentNode) s in
    let '(s, result) := loadChildren uuid node (refresh options) s in
    (match result with
     | Some (mkResult _ true) =>
         match findNode k (treeData s), treeData s with
         | Some _, Some tree =>
             let s := if preserveInteraction options then
                        let '(selected, current) := reconcileTreeInteractionAfterRefresh tree (selectedKeys (interaction s)) (currentTreeNode (interaction s)) in
                        setSelection selected current s
                      else s in
             let keys := match interactionTreeData with
                         | Some before => removeSubkeys (expandedKeys (interaction s)) before k
                         | None => expandedKeys (interaction s)
                         end in
             setExpandedKeys (if closeExpandTreeNode options then keys else appendExpandedTreeKey keys k) s
         | _, _ => s
         end
     | _ => s
     end, result).
End loading.

(** ** What the tree holds after loads *)

(** Nodes without children. *)
Definition unloaded (nodes : list TreeNodeData) : Prop := Forall (λ c, nodeChildren c = None) nodes.

Lemma unloaded_map {A} (f : A → TreeNodeData) answer nodes :
  (∀ x, nodeChildren (f x) = None) → mapList f answer = Some nodes → unloaded nodes.
Proof.
  intros Hf Hm. apply Forall_forall. intros c Hc. apply (elem_mapList _ _ _ _ Hm) in Hc as (l & x & _ & _ & ->). apply Hf.
Qed.

Lemma unloaded_page {A} (node : nat → A → TreeNodeData) page result :
  (∀ n x, nodeChildren (node n x) = None) → pageNodes node page = Some result ∨ countedNodes node page = Some result → unloaded (children result).
Proof.
  intros Hf [Hp|Hp]; apply Forall_forall; intros c Hc; [apply (elem_page _ _ _ _ Hp) in Hc|apply (elem_counted _ _ _ _ Hp) in Hc];
    destruct Hc as (n & x & ->); apply Hf.
Qed.

Lemma unloaded_tables p ts acc : unloaded acc.2 → unloaded (fold_left (addTable p) ts acc).2.
Proof.
  revert acc. induction ts as [|t ts IH]; intros [pins nodes] Hacc; [done|]. cbn [fold_left addTable]. apply IH. cbn [snd] in *. case_match; [done|].
  apply Forall_app. split; [done|]. by repeat constructor.
Qed.

Lemma unloaded_folders i18n place p : unloaded (objectFolders i18n place p).
Proof. by repeat constructor. Qed.

Lemma unloaded_dataSource databases i18n engine p nodes : dataSourceChildren databases i18n engine p = Some nodes → unloaded nodes.
Proof.
  unfold dataSourceChildren. destruct (getDatabaseSupport databases (databaseType p)) as [supportDatabase supportSchema]. intros (data & Hd & ->)%fmap_Some.
  unfold unloaded. rewrite !Forall_app. split_and!; [|by destruct (isDatabaseCapabilitySupported _ _ _); repeat constructor|by destruct (isDatabaseCapabilitySupported _ _ _); repeat constructor].
  destruct (negb supportDatabase && negb supportSchema); [|destruct (negb supportDatabase)].
  - injection Hd as <-. apply unloaded_folders.
  - by eapply unloaded_map; [|exact Hd].
  - by eapply unloaded_map; [|exact Hd].
Qed.

(** What is loaded is not loaded further. *)
Lemma getChildren_unloaded databases i18n engine uuid type p result :
  getChildren databases i18n engine uuid type p = Some (Some result) → unloaded (children result).
Proof.
  assert (∀ list, (∀ nodes, list = Some nodes → unloaded nodes) → Some (normalizeTreeNodeLoadResult <$> list) = Some (Some result) → unloaded (children result)) as Hlisted.
  { intros [nodes|] Hl; [|done]. intros [= <-]. by apply Hl. }
  destruct type; cbn [getChildren]; try done; try (by intros [= <-]; repeat constructor);
    try (by intros [= Hp]; eapply unloaded_page; [|left; exact Hp]); try (by intros [= Hp]; eapply unloaded_page; [|right; exact Hp]).
  - apply Hlisted. intros nodes. unfold schemasChildren. intros Hn. destruct (negb _); by eapply unloaded_map; [|exact Hn].
  - apply Hlisted. intros nodes Hn. by eapply unloaded_map; [|exact Hn].
  - apply Hlisted. intros nodes. by apply unloaded_dataSource.
  - intros [= <-]. cbn [children normalizeTreeNodeLoadResult]. unfold monitorChildren. case_match; by repeat constructor.
  - apply Hlisted. intros nodes. unfold databaseAccountsChildren. intros (accounts & _ & Hn)%bind_Some. apply mapM_Some in Hn.
    apply Forall_forall. intros c (n & Hc)%list_elem_of_lookup. destruct (Forall2_lookup_r _ _ _ _ _ Hn Hc) as (a & _ & Ha).
    unfold accountNode in Ha. apply bind_Some in Ha as (k & _ & Ha). by injection Ha as <-.
  - apply Hlisted. intros nodes. unfold databaseChildren. case_match; [by apply unloaded_map|]. case_match; intros [= <-]; [by repeat constructor|apply unloaded_folders].
  - intros [= <-]. cbn [children normalizeTreeNodeLoadResult]. unfold schemaChildren. case_match; [by repeat constructor|apply unloaded_folders].
  - unfold tablesChildren. destruct (getTableList engine p); [|done]. intros [= <-]. cbn [children]. apply unloaded_tables. constructor.
  - unfold saveConsolesChildren. destruct (getConsoleList engine p) as [res|]; [|done]. cbn [mbind option_bind]. destruct (pageData res) as [data|]; [|done].
    intros [= <-]. apply Forall_fmap, Forall_forall. done.
Qed.

(** ** What a change leaves in the tree *)

(** The keys below a node come with the node. *)
Lemma preorder_trans a b c : a ∈ preorder b → b ∈ preorder c → a ∈ preorder c.
Proof.
  intros Ha. induction c as [d|d cs IH] using tree_ind'; intros Hb; rewrite preorder_unfold, elem_of_cons in Hb; (destruct Hb as [->|Hb]; [done|]).
  - by apply not_elem_of_nil in Hb.
  - rewrite preorder_unfold, elem_of_cons. right. apply elem_of_preorders in Hb as (r & Hr & Hb). apply elem_of_preorders. exists r. split; [done|].
    rewrite Forall_forall in IH. by apply IH.
Qed.

Lemma below_preorders a n ns : n ∈ preorders ns → a ∈ preorders (childList n) → a ∈ preorders ns.
Proof.
  rewrite !elem_of_preorders. intros (r & Hr & Hn) (c & Hc & Ha). exists r. split; [done|]. eapply preorder_trans; [|exact Hn].
  rewrite preorder_unfold, elem_of_cons. right. apply elem_of_preorders. by exists c.
Qed.

(** A node of a refreshed tree: the refreshed one, one of the new children, or one that was there. *)
Definition fromRefresh (k : jstr) (result : TreeNodeRefreshResult) (before : list TreeNodeData) (m : TreeNodeData) : Prop :=
  (∃ n, n ∈ before ∧ nodeKey n = k ∧ m = refreshedNode result n) ∨ m ∈ preorders (children result) ∨
  ∃ n, n ∈ before ∧ nodeKey n ≠ k ∧ nodeData m = nodeData n ∧ nodeChildren m = map (refreshFrom k result) <$> nodeChildren n.

Lemma refresh_nodes k result n m : m ∈ preorder (refreshFrom k result n) → fromRefresh k result (preorder n) m.
Proof.
  revert m. induction n as [d|d cs IH] using tree_ind'; intros m Hm; cbn [refreshFrom] in Hm; destruct (decide (key d = k)) as [E|E];
    rewrite preorder_unfold, elem_of_cons in Hm; destruct Hm as [->|Hm].
  - left. eexists. split; [rewrite preorder_unfold; apply elem_of_cons; by left|]. done.
  - right. by left.
  - right. right. eexists. split; [rewrite preorder_unfold; apply elem_of_cons; by left|]. done.
  - by apply not_elem_of_nil in Hm.
  - left. eexists. split; [rewrite preorder_unfold; apply elem_of_cons; by left|]. done.
  - right. by left.
  - right. right. eexists. split; [rewrite preorder_unfold; apply elem_of_cons; by left|]. done.
  - apply elem_of_preorders in Hm as (r & Hr & Hm). change (childList _) with (map (refreshFrom k result) cs) in Hr.
    apply list_elem_of_In, in_map_iff in Hr as (c & <- & Hc%list_elem_of_In). rewrite Forall_forall in IH.
    assert (∀ x, x ∈ preorder c → x ∈ preorder (TreeNode d (Some cs))) as Hin.
    { intros x Hx. rewrite preorder_unfold, elem_of_cons. right. apply elem_of_preorders. by exists c. }
    destruct (IH c Hc m Hm) as [(x & Hx & ?)|[?|(x & Hx & ?)]]; [left|right; by left|right; right]; exists x; split; auto.
Qed.

Lemma refresh_tree_nodes k result tree m :
  m ∈ preorders (applyExistingTreeNodeRefresh tree k result) → fromRefresh k result (preorders tree) m.
Proof.
  intros Hm. apply elem_of_preorders in Hm as (r & Hr & Hm). unfold applyExistingTreeNodeRefresh in Hr.
  apply list_elem_of_In, in_map_iff in Hr as (n & <- & Hn%list_elem_of_In).
  assert (∀ x, x ∈ preorder n → x ∈ preorders tree) as Hin by (intros x Hx; apply elem_of_preorders; by exists n).
  destruct (refresh_nodes _ _ _ _ Hm) as [(x & Hx & ?)|[?|(x & Hx & ?)]]; [left|right; by left|right; right]; exists x; split; auto.
Qed.

Lemma refreshFrom_key k result n : nodeKey (refreshFrom k result n) = nodeKey n.
Proof. destruct n as [d [cs|]]; cbn [refreshFrom]; by case_decide. Qed.

Lemma refresh_keys k result ns : nodeKey <$> map (refreshFrom k result) ns = nodeKey <$> ns.
Proof. induction ns as [|n ns IH]; [done|]. cbn [map]. by rewrite !fmap_cons, IH, refreshFrom_key. Qed.

(** The node that is found has the new children. *)
Lemma find_refresh_node k result n : List.find (hasKey k) (preorder (refreshFrom k result n)) = refreshedNode result <$> List.find (hasKey k) (preorder n).
Proof.
  assert (∀ m, nodeKey m = k → List.find (hasKey k) (preorder m) = Some m) as Hself by apply find_self.
  induction n as [d|d cs IH] using tree_ind'; cbn [refreshFrom]; destruct (decide (key d = k)) as [E|E];
    [by rewrite !Hself| |by rewrite !Hself|].
  - assert (List.find (hasKey k) (preorder (TreeNode d None)) = None) as -> by (simpl; unfold hasKey; by rewrite bool_decide_eq_false_2). done.
  - rewrite !find_below by done. induction IH as [|c cs Hc _ IH]; [done|]. cbn [map]. rewrite !preorders_cons, !find_app, Hc. destruct (List.find _ (preorder c)); [done|exact IH].
Qed.

Lemma findNode_refresh k result tree : findNode k (Some (applyExistingTreeNodeRefresh tree k result)) = refreshedNode result <$> findNode k (Some tree).
Proof.
  rewrite !findNode_spec. cbn [default from_option id]. unfold applyExistingTreeNodeRefresh. induction tree as [|n tree IH]; [done|].
  cbn [map]. rewrite !preorders_cons, !find_app, find_refresh_node. destruct (List.find _ (preorder n)); [done|exact IH].
Qed.

(** A node of a merge: a new one, with what was below its key, or one that was there. *)
Definition fromMerge (current fresh : list TreeNodeData) (m : TreeNodeData) : Prop :=
  m ∈ fresh ∨ m ∈ preorders current ∨
  ∃ f n cs, f ∈ fresh ∧ n ∈ preorders current ∧ nodeKey n = nodeKey f ∧ nodeChildren n = Some cs ∧ m = TreeNode (nodeData f) (Some cs).

Lemma merge_nodes current fresh m :
  unloaded fresh → m ∈ preorders (resolveLoadedTreeData fresh (Some current) false) → fromMerge current fresh m.
Proof.
  intros Hu. cbn [resolveLoadedTreeData mergeLoadedTreeData]. unfold unloaded in Hu. rewrite Forall_forall in Hu.
  assert (∀ m, m ∈ preorders fresh → m ∈ fresh) as Hself.
  { intros x (f & Hf & Hx)%elem_of_preorders. rewrite preorder_unfold in Hx. unfold childList in Hx. rewrite (Hu f Hf) in Hx. by apply list_elem_of_singleton in Hx as ->. }
  destruct current as [|c current]; [intros ?; left; by apply Hself|]. set (cur := c :: current).
  intros (r & Hr & Hm)%elem_of_preorders. apply list_elem_of_In, in_map_iff in Hr as (f & <- & Hf%list_elem_of_In).
  pose proof (Hu f Hf) as Hn. destruct f as [d [cs|]]; [done|]. cbn [mergeNode] in Hm. rewrite indexNodes_lookup in Hm.
  destruct (List.find _ _) as [[d' [cs|]]|] eqn:E; [|by apply list_elem_of_singleton in Hm as ->; left..].
  apply find_elem in E as [Hin Hk]. rewrite elem_of_reverse in Hin. unfold hasKey in Hk. apply bool_decide_eq_true in Hk.
  rewrite preorder_unfold, elem_of_cons in Hm. destruct Hm as [->|Hm].
  - right. right. by exists (TreeNode d None), (TreeNode d' (Some cs)), cs.
  - right. left. by eapply below_preorders.
Qed.

Lemma merge_keys current fresh : nodeKey <$> resolveLoadedTreeData fresh (Some current) false = nodeKey <$> fresh.
Proof.
  cbn [resolveLoadedTreeData mergeLoadedTreeData]. destruct current as [|c current]; [done|].
  induction fresh as [|f fresh IH]; [done|]. cbn [map]. rewrite !fmap_cons, IH. f_equal. unfold nodeKey. by rewrite mergeNode_data.
Qed.

(** ** Loads keep the tree true to the engine *)

Section good.
Context (databases : dict DynamicDatabases.IDatabase) (i18n : jstr → jstr) (engine : Engine) (sources : Z → IExtraParams).
Context (Hplain : PlainEngine engine sources).
Notation Listed := (Listed databases i18n engine sources).

(** What is below a node that is no object was listed for it. *)
Definition Answered (n : TreeNodeData) : Prop :=
  ∀ cs, isPlaceType (treeNodeType (nodeData n)) = true → nodeChildren n = Some cs →
    ∃ uuid r result, getChildren databases i18n engine uuid (treeNodeType (nodeData n)) (withRefresh r (extraParams (nodeData n))) = Some (Some result) ∧
      nodeKey <$> cs = nodeKey <$> children result.

Definition GoodNode (n : TreeNodeData) : Prop := Listed (nodeData n) ∧ Answered n.
Definition GoodTree (tree : list TreeNodeData) : Prop := Forall GoodNode (preorders tree).
Definition GoodStore (s : TreeStore) : Prop := GoodTree (default [] (treeData s)).

(** A node whose key tells its type. *)
Definition certain (d : NodeData) : Prop := Listed d ∧ (isPlaceType (treeNodeType d) = true ∨ plainObject d).

Lemma certain_same d d' : certain d → Listed d' → key d' = key d → treeNodeType d' = treeNodeType d ∧ sameParams (extraParams d') (extraParams d).
Proof. intros [Hd Hc] Hd' E. eapply same_node; [eapply listed_form; eassumption..|done|done]. Qed.

Lemma good_node n tree : GoodTree tree → n ∈ preorders tree → GoodNode n.
Proof. unfold GoodTree. rewrite Forall_forall. auto. Qed.

Lemma same_children uuid d d' r :
  treeNodeType d' = treeNodeType d → sameParams (extraParams d') (extraParams d) →
  getChildren databases i18n engine uuid (treeNodeType d') (withRefresh r (extraParams d')) =
  getChildren databases i18n engine uuid (treeNodeType d) (withRefresh r (extraParams d)).
Proof. intros -> Hs. by rewrite (sameParams_refresh _ _ r Hs). Qed.

Section commit.
Context (tree : list TreeNodeData) (latest : TreeNodeData) (uuid : nat → jstr) (r : bool) (loadResult : TreeNodeRefreshResult).
Context (Hgood : GoodTree tree) (Hin : latest ∈ preorders tree) (Hcertain : certain (nodeData latest)).
Context (Hanswer : getChildren databases i18n engine uuid (treeNodeType (nodeData latest)) (withRefresh r (extraParams (nodeData latest))) = Some (Some loadResult)).
Let loaded := resolveLoadedTreeData (children loadResult) (nodeChildren latest) r.

Lemma loaded_keys : nodeKey <$> loaded = nodeKey <$> children loadResult.
Proof. unfold loaded. destruct r; [done|]. destruct (nodeChildren latest); [apply merge_keys|done]. Qed.

Lemma loaded_fromMerge m : m ∈ preorders loaded → fromMerge (childList latest) (children loadResult) m.
Proof.
  pose proof (getChildren_unloaded _ _ _ _ _ _ _ Hanswer) as Hu.
  assert (loaded = children loadResult ∨ ∃ cs, nodeChildren latest = Some cs ∧ loaded = resolveLoadedTreeData (children loadResult) (Some cs) false) as [->|(cs & Hcs & ->)].
  { unfold loaded. destruct r; [by left|]. destruct (nodeChildren latest) as [cs|]; [right; by exists cs|by left]. }
  - intros Hm. left. destruct (merge_nodes [] (children loadResult) m Hu Hm) as [?|[Hx|(? & ? & ? & _ & Hx & _)]]; [done|by apply not_elem_of_nil in Hx..].
  - intros Hm. unfold childList. rewrite Hcs. by apply merge_nodes.
Qed.

Lemma fresh_listed f : f ∈ children loadResult → Listed (nodeData f).
Proof. intros Hf. destruct Hcertain as [Hl _]. by eapply listed_child. Qed.

Lemma good_loaded m : m ∈ preorders loaded → GoodNode m.
Proof.
  intros Hm. pose proof (getChildren_unloaded _ _ _ _ _ _ _ Hanswer) as Hu. unfold unloaded in Hu. rewrite Forall_forall in Hu.
  destruct (loaded_fromMerge m Hm) as [Hf|[Hc|(f & n & cs & Hf & Hn & Hk & Hcs & ->)]].
  - split; [by apply fresh_listed|]. intros cs _ Hcs. by rewrite (Hu m Hf) in Hcs.
  - eapply good_node; [exact Hgood|]. by eapply below_preorders.
  - split; [exact (fresh_listed f Hf)|]. intros cs' Hp [= <-]. cbn [nodeData] in *.
    destruct (good_node n tree Hgood) as [Hl Ha]; [by eapply below_preorders|].
    destruct (certain_same (nodeData f) (nodeData n)) as [Ht Hs]; [split; [by apply fresh_listed|by left]|done|done|].
    destruct (Ha cs) as (u & r' & result & Hg & E); [by rewrite Ht|done|]. exists u, r', result. split; [|done].
    by rewrite <- (same_children u (nodeData f) (nodeData n) r' Ht Hs).
Qed.

Lemma good_commit : GoodTree (applyExistingTreeNodeRefresh tree (nodeKey latest) (mkRefresh loaded (total loadResult))).
Proof.
  apply Forall_forall. intros m Hm. destruct (refresh_tree_nodes _ _ _ _ Hm) as [(n & Hn & Hk & ->)|[Hc|(n & Hn & _ & Hd & Hc)]].
  - destruct (good_node n tree Hgood Hn) as [Hl Ha]. split; [by apply listed_refresh|]. intros cs Hp [= <-]. cbn [nodeData refreshedNode refreshData treeNodeType extraParams].
    destruct (certain_same (nodeData latest) (nodeData n)) as [Ht Hs]; [done..|]. exists uuid, r, loadResult. split; [|apply loaded_keys].
    by rewrite (same_children uuid (nodeData latest) (nodeData n) r Ht Hs).
  - by apply good_loaded.
  - destruct (good_node n tree Hgood Hn) as [Hl Ha]. split; [by rewrite Hd|]. intros cs Hp Hcs. rewrite Hd in Hp |- *. rewrite Hc in Hcs.
    destruct (nodeChildren n) as [cs'|] eqn:E; [|done]. injection Hcs as <-.
    destruct (Ha cs' Hp E) as (u & r' & result & Hg & Ek). exists u, r', result. split; [done|]. by rewrite refresh_keys.
Qed.
End commit.

Lemma treeData_loadEnded k s : treeData (loadEnded k s) = treeData s.
Proof. unfold loadEnded. destruct (currentLoadingTreeNode s); [|done]. by case_decide. Qed.

Lemma treeData_setAvailable id b s : treeData (setAvailable id b s) = treeData s.
Proof. by destruct id. Qed.

Lemma findNode_in k tree n : findNode k tree = Some n → n ∈ preorders (default [] tree) ∧ nodeKey n = k.
Proof. rewrite findNode_spec. intros [Hin Hk]%find_elem. split; [done|]. unfold hasKey in Hk. by apply bool_decide_eq_true in Hk. Qed.

(** A load either leaves the tree or puts what the engine answered below the node. *)
Lemma load_tree uuid node r s :
  certain (nodeData node) → GoodStore s →
  let '(s', result) := loadChildren databases i18n engine uuid node r s in
  GoodStore s' ∧ (treeData s' = treeData s ∨
    ∃ tree latest loadResult, treeData s = Some tree ∧ findNode (nodeKey node) (Some tree) = Some latest ∧
      getChildren databases i18n engine uuid (treeNodeType (nodeData latest)) (withRefresh r (extraParams (nodeData latest))) = Some (Some loadResult) ∧
      let loaded := resolveLoadedTreeData (children loadResult) (nodeChildren latest) r in
      treeData s' = Some (applyExistingTreeNodeRefresh tree (nodeKey node) (mkRefresh loaded (total loadResult))) ∧
      result = Some (mkResult loaded true)).
Proof.
  intros Hc Hs. unfold loadChildren. cbv zeta. destruct (reusesChildren _ _ _); [by split; [|left]|].
  set (request := default node (findNode (nodeKey node) (treeData s))).
  destruct (getChildren _ _ _ _ _ _) as [[loadResult|]|] eqn:Eg; [|split; [unfold GoodStore in *|left]; by rewrite treeData_loadEnded, treeData_setAvailable|by split; [|left]].
  unfold commitChildren. cbn [setCurrentLoadingTreeNode treeData]. destruct (findNode (nodeKey node) (treeData s)) as [latest|] eqn:Ef;
    [|split; [unfold GoodStore in *|left]; by rewrite treeData_loadEnded].
  destruct (treeData s) as [tree|] eqn:Et; [|done]. subst request. cbn [default from_option id] in Eg.
  destruct (findNode_in _ _ _ Ef) as [Hin Hk]. cbn [default from_option id] in Hin. unfold GoodStore in Hs. rewrite Et in Hs. cbn [default from_option id] in Hs.
  destruct (good_node _ _ Hs Hin) as [Hl _]. destruct (certain_same _ _ Hc Hl) as [Ht Hp]; [exact Hk|].
  assert (certain (nodeData latest)) as Hc'.
  { split; [done|]. destruct Hc as [_ [?|[? (t & Htn & ?)]]]; [left; by rewrite Ht|right]. split; [by rewrite Ht|]. exists t. by rewrite (same_tableName _ _ Hp). }
  rewrite <- Ht in Eg. split.
  - unfold GoodStore. rewrite treeData_loadEnded. cbn [setTreeData treeData default from_option id]. rewrite <- Hk. by eapply good_commit.
  - right. exists tree, latest, loadResult. by rewrite treeData_loadEnded.
Qed.

Lemma handle_good uuid node options s :
  certain (nodeData node) → GoodStore s → GoodStore (handleLoadData databases i18n engine uuid node options s).1.
Proof.
  intros Hc Hs. unfold handleLoadData. destruct (reusesChildren _ _ _); [by destruct (_ || _)|].
  set (s1 := if preserveInteraction options then s else _). assert (treeData s1 = treeData s) as E1 by (unfold s1; by case_match).
  assert (GoodStore s1) as Hs1 by (unfold GoodStore; by rewrite E1). pose proof (load_tree uuid node (refresh options) s1 Hc Hs1) as Hl.
  destruct (loadChildren _ _ _ _ _ _ _) as [s2 result]. destruct Hl as [Hs2 _]. cbn [fst].
  destruct result as [[? []]|]; [|done..]. case_match; [|done]. destruct (treeData s2) eqn:E2; [|done].
  unfold GoodStore in *. cbn [setExpandedKeys treeData]. case_match; [|exact Hs2]. case_match; exact Hs2.
Qed.

(** A load of a node of the tree that is answered. *)
Section answered.
Context (uuid : nat → jstr) (node n : TreeNodeData) (r : bool) (s : TreeStore) (tree : list TreeNodeData) (loadResult : TreeNodeRefreshResult).
Context (Et : treeData s = Some tree) (Ef : findNode (nodeKey node) (Some tree) = Some n) (Er : reusesChildren n r s = false).
Context (Eg : getChildren databases i18n engine uuid (treeNodeType (nodeData node)) (withRefresh r (extraParams (nodeData n))) = Some (Some loadResult)).
Let loaded := resolveLoadedTreeData (children loadResult) (nodeChildren n) r.
Let next := applyExistingTreeNodeRefresh tree (nodeKey node) (mkRefresh loaded (total loadResult)).

Lemma load_answered :
  ∃ s', loadChildren databases i18n engine uuid node r s = (s', Some (mkResult loaded true)) ∧ treeData s' = Some next ∧ interaction s' = interaction s.
Proof.
  unfold loadChildren. rewrite Et, Ef. cbn [default from_option id]. rewrite Er, Eg. unfold commitChildren. cbn [setCurrentLoadingTreeNode treeData]. rewrite Et, Ef.
  eexists. split; [reflexivity|]. rewrite treeData_loadEnded. split; [done|]. unfold loadEnded. case_match; [case_decide|]; by destruct (rootDataSourceId n).
Qed.

Lemma find_next : findNode (nodeKey node) (Some next) = Some (refreshedNode (mkRefresh loaded (total loadResult)) n).
Proof. unfold next. by rewrite findNode_refresh, Ef. Qed.
End answered.

Lemma appendExpanded_in k keys : k ∈ appendExpandedTreeKey keys k.
Proof. unfold appendExpandedTreeKey. destruct (includes k keys) eqn:E; [by apply includes_true in E|]. rewrite elem_of_app. right. by apply list_elem_of_singleton. Qed.

Lemma handle_answered uuid node n options s tree loadResult :
  treeData s = Some tree → findNode (nodeKey node) (Some tree) = Some n → reusesChildren n (refresh options) s = false →
  getChildren databases i18n engine uuid (treeNodeType (nodeData node)) (withRefresh (refresh options) (extraParams (nodeData n))) = Some (Some loadResult) →
  let loaded := resolveLoadedTreeData (children loadResult) (nodeChildren n) (refresh options) in
  let next := applyExistingTreeNodeRefresh tree (nodeKey node) (mkRefresh loaded (total loadResult)) in
  let '(s', result) := handleLoadData databases i18n engine uuid node options s in
  result = Some (mkResult loaded true) ∧ treeData s' = Some next ∧ (closeExpandTreeNode options = false → nodeKey node ∈ expandedKeys (interaction s')).
Proof.
  intros Et Ef Er Eg. cbv zeta. unfold handleLoadData. rewrite Et, Ef. cbn [default from_option id]. rewrite Er.
  set (s1 := if preserveInteraction options then s else _). assert (treeData s1 = treeData s) as E1 by (unfold s1; by case_match).
  assert (reusesChildren n (refresh options) s1 = false) as Er1 by (rewrite <- Er; unfold s1; by case_match).
  destruct (load_answered uuid node n (refresh options) s1 tree loadResult) as (s2 & -> & E2 & Ei); [by rewrite E1|done..|].
  rewrite E2, find_next by done. split; [done|]. split; [unfold setExpandedKeys; destruct (preserveInteraction options); done|].
  intros ->. cbn [setExpandedKeys interaction expandedKeys]. apply elem_of_uniq, appendExpanded_in.
Qed.

(** C38: a load follows the engine and keeps the tree true to it.  Where every node of the tree was listed, and the children of every node that is
    no object are those of an answer for it, they still are after the load of a node, whatever the engine answers.  A forced load that is answered
    puts exactly what was answered below the node, and expands it unless the caller asked not to. *)
Theorem loads_follow_engine uuid node options s :
  certain (nodeData node) → GoodStore s →
  let '(s', result) := handleLoadData databases i18n engine uuid node options s in
  GoodStore s' ∧
  ∀ tree n loadResult, treeData s = Some tree → findNode (nodeKey node) (Some tree) = Some n → refresh options = true →
    getChildren databases i18n engine uuid (treeNodeType (nodeData node)) (withRefresh true (extraParams (nodeData n))) = Some (Some loadResult) →
    result = Some (mkResult (children loadResult) true) ∧
    findNode (nodeKey node) (treeData s') = Some (refreshedNode loadResult n) ∧
    (closeExpandTreeNode options = false → nodeKey node ∈ expandedKeys (interaction s')).
Proof.
  intros Hc Hs. pose proof (handle_good uuid node options s Hc Hs) as Hgood. pose proof (λ tree n l, handle_answered uuid node n options s tree l) as Ha.
  destruct (handleLoadData _ _ _ _ _ _ _) as [s' result]. split; [exact Hgood|]. intros tree n loadResult Et Ef Er Eg. rewrite Er in Ha.
  destruct (Ha tree n loadResult Et Ef) as (-> & -> & He); [by unfold reusesChildren, shouldReuseTreeNodeChildren|done|].
  split; [done|]. split; [|done]. destruct loadResult as [cs t]. by apply find_next.
Qed.
End good.

(** ** Witnesses *)

Definition sourceTree : list TreeNodeData := [TreeNode sampleSource None].
Definition sourceStore : TreeStore := mkTreeStore (Some sourceTree) (mkInteraction [] None [] None) None (mkAvailability ∅ ∅).

Lemma sample_good : GoodStore databaseMap (λ t, t) sampleEngine sampleSources sourceStore.
Proof. constructor; [|constructor]. split; [apply sample_source_listed|done]. Qed.

Lemma loads_follow_engine_witness :
  let '(s', result) := handleLoadData databaseMap (λ t, t) sampleEngine (λ _, []) (TreeNode sampleSource None) (mkOptions true false false) sourceStore in
  GoodStore databaseMap (λ t, t) sampleEngine sampleSources s' ∧
  (originalTitle ∘ nodeData <$> (default (mkResult [] false) result).(loadedChildren)) = [js "shop"; js "workspace.ops.monitor"; js "workspace.databaseAccount.title"] ∧
  nodeKey (TreeNode sampleSource None) ∈ expandedKeys (interaction s').
Proof.
  pose proof (loads_follow_engine databaseMap (λ t, t) sampleEngine sampleSources sample_plain (λ _, []) (TreeNode sampleSource None)
    (mkOptions true false false) sourceStore) as H.
  destruct (handleLoadData _ _ _ _ _ _ _) as [s' result]. destruct H as [Hs H]; [split; [apply sample_source_listed|by left]|apply sample_good|].
  destruct (H sourceTree (TreeNode sampleSource None) _ eq_refl eq_refl eq_refl eq_refl) as (Hr & _ & He). split; [exact Hs|]. split; [|by apply He].
  rewrite Hr. vm_compute. reflexivity.
Defined.
