(* ===== verification/TabLocator.v ===== *)
(** * TabLocator: showing the active tab in the object tree
    Models [pages/main/workspace/utils/activeTabTarget.ts] and [activeTabLocator.ts], and of the component
    [WorkspaceLeft] the file [loadDatabaseTreePath.ts] and the functions of [index.tsx] that look for a tab: the nodes
    a tab can stand for, the loads on the way to them and the selection of the first that is found.  Between the loads
    nothing else happens to the tree; whether the request is still the latest is asked of [current], a clock and an answer. *)

From S2P Require Import Prelude SqlText UriComponent WorkspaceTabLayout WorkspaceTab DatabaseTypes TreeNodes TreeData ObjectTree ObjectTreeKeys TreeLoading.
Local Open Scope nat_scope.

(** ** [activeTabTarget.ts] *)

Inductive WorkspaceLeftPanel := Explorer | Database.

Inductive ExplorerActiveTabLocateTarget := ExplorerSession (sessionId : TabId) | LocalFile (filePath : jstr).

(** What the locator reads of a tab. *)
Record TabData := mkTabData {
  tabSourceId : option Z;
  tabDatabase : option jstr;
  tabSchema : option jstr;
  tabTable : option jstr;
  tabView : option jstr;
  tabFunction : option jstr;
  tabProcedure : option jstr;
  tabTrigger : option jstr;
  tabUser : option jstr;
  tabHost : option jstr;
  tabFilePath : option jstr;
}.

Record ActiveTab := mkActiveTab { activeTabId : TabId; activeTabType : WorkspaceTabType; activeTabData : option TabData }.

Record DirectActiveTabLocateTargets := mkDirect { directExplorer : option ExplorerActiveTabLocateTarget; directDatabase : bool }.

Definition resolveWorkspaceLeftPanel (panel : option WorkspaceLeftPanel) : WorkspaceLeftPanel := default Database panel.

(** The number of the data source of a tab; zero is falsy. *)
Definition sourceOf (uniqueData : option TabData) : option (Z * TabData) :=
  match uniqueData with
  | Some u => match tabSourceId u with Some 0%Z | None => None | Some id => Some (id, u) end
  | None => None
  end.

Definition truthyText (t : option jstr) : option jstr := match t with Some [] | None => None | Some t => Some t end.

Definition getDirectActiveTabLocateTargets (activeTab : option ActiveTab) : option DirectActiveTabLocateTargets :=
  match activeTab with
  | None => Some (mkDirect None false)
  | Some tab =>
      match activeTabType tab with
      | CONSOLE => Some (mkDirect (Some (ExplorerSession (activeTabId tab))) (bool_decide (is_Some (sourceOf (activeTabData tab)))))
      | LocalSQLFile => Some (mkDirect (LocalFile <$> (truthyText (activeTabData tab ≫= tabFilePath))) false)
      | _ => None
      end
  end.

(** ** [activeTabLocator.ts] *)

Record ActiveTabDatabaseCandidate := mkCandidate {
  candidateKey : option jstr;
  candidateType : TreeNodeType;
  candidateName : option jstr;
  candidateSource : option Z;
  candidateDatabase : option jstr;
  candidateSchema : option jstr;
  fallback : bool;
}.

Record DatabaseActiveTabLocateTarget := mkTarget { candidates : list ActiveTabDatabaseCandidate; loadPath : list jstr }.

Record ActiveTabLocateTargets := mkTargets { explorer : option ExplorerActiveTabLocateTarget; database : option DatabaseActiveTabLocateTarget }.

Inductive ActiveTabLocateTarget := ToExplorer (target : ExplorerActiveTabLocateTarget) | ToDatabase (target : DatabaseActiveTabLocateTarget).

Definition getActiveTabLocateTargetForPanel (targets : ActiveTabLocateTargets) (panel : WorkspaceLeftPanel) : option ActiveTabLocateTarget :=
  match panel with Explorer => ToExplorer <$> explorer targets | Database => ToDatabase <$> database targets end.

(** The keys the locator asks for; those of accounts, which can throw, are asked for below. *)
Definition createTreeKey (type : TreeNodeType) (p : Place) (table : option jstr) : option jstr :=
  match type with
  | DATA_SOURCE => Some (dataSourceNodeKey (placeId p))
  | DATABASE => Some (databaseNodeKey (placeId p) (placeDatabase p))
  | SCHEMA => Some (schemaNodeKey p)
  | TABLES => Some (tablesKey p)
  | VIEWS => Some (viewsKey p)
  | FUNCTIONS => Some (functionsKey p)
  | PROCEDURES => Some (proceduresKey p)
  | TRIGGERS => Some (triggersKey p)
  | ALL_DATA => Some (allDataKey (placeId p) (placeDatabase p))
  | DATABASE_ACCOUNTS => Some (databaseAccountsKey (placeId p))
  | TABLE => Some (tableKey p table)
  | VIEW => Some (viewKey p table)
  | _ => None
  end.

Definition compact {A} (values : list (option A)) : list A := omap id values.

Definition candidateOf (key : option jstr) (type : TreeNodeType) (isFallback : bool) : option ActiveTabDatabaseCandidate :=
  match truthyText key with
  | None => None
  | Some k => Some (mkCandidate (Some k) type None None None None isFallback)
  end.

Definition keyCandidate (type : TreeNodeType) (p : Place) (table : option jstr) : option ActiveTabDatabaseCandidate :=
  candidateOf (createTreeKey type p table) type false.
Definition fallbackKeyCandidate (type : TreeNodeType) (p : Place) : option ActiveTabDatabaseCandidate :=
  candidateOf (createTreeKey type p None) type true.

Definition objectCandidate (type : TreeNodeType) (uniqueData : option TabData) (name : option jstr) : option ActiveTabDatabaseCandidate :=
  match sourceOf uniqueData, truthyText name with
  | Some (id, u), Some t => Some (mkCandidate None type (Some t) (Some id) (tabDatabase u) (tabSchema u) false)
  | _, _ => None
  end.

Definition tabPlace (id : Z) (u : TabData) : Place := mkPlace (Some id) (tabDatabase u) (tabSchema u).

(** A name that is there. *)
Definition given {A} (name : option jstr) (x : option A) : option A := if truthyName name then x else None.

Definition getContextCandidates (uniqueData : option TabData) : list ActiveTabDatabaseCandidate :=
  match sourceOf uniqueData with
  | None => []
  | Some (id, u) =>
      compact [given (tabSchema u) (fallbackKeyCandidate SCHEMA (tabPlace id u));
               given (tabDatabase u) (fallbackKeyCandidate DATABASE (tabPlace id u));
               fallbackKeyCandidate DATA_SOURCE (tabPlace id u)]
  end.

Definition getContextLoadPath (uniqueData : option TabData) : list jstr :=
  match sourceOf uniqueData with
  | None => []
  | Some (id, u) =>
      compact [createTreeKey DATA_SOURCE (tabPlace id u) None;
               given (tabDatabase u) (createTreeKey DATABASE (tabPlace id u) None);
               given (tabSchema u) (createTreeKey SCHEMA (tabPlace id u) None)]
  end.

Definition getObjectParentLoadPath (uniqueData : option TabData) (parentTreeNodeType : TreeNodeType) : list jstr :=
  match sourceOf uniqueData with
  | None => []
  | Some (id, u) => compact ((Some <$> getContextLoadPath uniqueData) ++ [createTreeKey parentTreeNodeType (tabPlace id u) None])
  end.

Definition databaseTreeTarget (candidates : list ActiveTabDatabaseCandidate) (loadPath : list jstr) : option DatabaseActiveTabLocateTarget :=
  match candidates with [] => None | _ => Some (mkTarget candidates loadPath) end.

(** The target of a tab that edits or shows an object; the outer [None] is an exception. *)
Definition getDatabaseObjectLocateTarget (activeTab : ActiveTab) : option (option DatabaseActiveTabLocateTarget) :=
  let uniqueData := activeTabData activeTab in
  match sourceOf uniqueData with
  | None => Some None
  | Some (id, u) =>
      let p := tabPlace id u in
      let context := getContextCandidates uniqueData in
      let named type name := objectCandidate type uniqueData name in
      let target cs path := Some (databaseTreeTarget (compact cs ++ context) path) in
      match activeTabType activeTab with
      | EditTable | EditTableData =>
          target [given (tabTable u) (keyCandidate TABLE p (tabTable u)); named TABLE (tabTable u)] (getObjectParentLoadPath uniqueData TABLES)
      | ViewView | WorkspaceTab.VIEW =>
          let viewName := if truthyName (tabView u) then tabView u else tabTable u in
          target [given viewName (keyCandidate VIEW p viewName); named VIEW viewName; fallbackKeyCandidate VIEWS p] (getObjectParentLoadPath uniqueData VIEWS)
      | WorkspaceTab.FUNCTION => target [named FUNCTION (tabFunction u); fallbackKeyCandidate FUNCTIONS p] (getObjectParentLoadPath uniqueData FUNCTIONS)
      | WorkspaceTab.PROCEDURE => target [named PROCEDURE (tabProcedure u); fallbackKeyCandidate PROCEDURES p] (getObjectParentLoadPath uniqueData PROCEDURES)
      | WorkspaceTab.TRIGGER => target [named TRIGGER (tabTrigger u); fallbackKeyCandidate TRIGGERS p] (getObjectParentLoadPath uniqueData TRIGGERS)
      | ViewAllTable => target [keyCandidate TABLES p None] (getContextLoadPath uniqueData)
      | ViewAllView => target [keyCandidate VIEWS p None] (getContextLoadPath uniqueData)
      | RedisAllData => target [keyCandidate ALL_DATA p None] (getContextLoadPath uniqueData)
      | AccountPrivileges =>
          account ← (if truthyName (tabUser u)
                     then k ← databaseAccountKey (Some id) (tabUser u) (tabHost u); Some (candidateOf (Some k) DATABASE_ACCOUNT false)
                     else Some None);
          target [account; named DATABASE_ACCOUNT (tabUser u); fallbackKeyCandidate DATABASE_ACCOUNTS p]
            (compact [createTreeKey DATA_SOURCE p None; createTreeKey DATABASE_ACCOUNTS p None])
      | CreateTable | ViewERModal => target [] (getContextLoadPath uniqueData)
      | _ => Some None
      end
  end.

Definition getActiveTabLocateTargets (activeTab : option ActiveTab) : option ActiveTabLocateTargets :=
  match activeTab with
  | None => Some (mkTargets None None)
  | Some tab =>
      match getDirectActiveTabLocateTargets activeTab with
      | Some direct =>
          Some (mkTargets (directExplorer direct)
            (if directDatabase direct then databaseTreeTarget (getContextCandidates (activeTabData tab)) (getContextLoadPath (activeTabData tab)) else None))
      | None => mkTargets None <$> getDatabaseObjectLocateTarget tab
      end
  end.

(** ** Looking for a tab: [WorkspaceLeft] *)

Inductive LocateStatus := Hit | Fallback | Miss.
#[export] Instance LocateStatus_eq_dec : EqDecision LocateStatus.
Proof. solve_decision. Defined.

Record LocatedTreeNode := mkLocated { node : TreeNodeData; ancestors : list jstr; locatedByFallback : bool }.

Definition normalizeLocateValue (value : option jstr) : option jstr := toLowerCase <$> truthyText value.
Definition isSameLocateValue (left right : option jstr) : bool := bool_decide (normalizeLocateValue left = normalizeLocateValue right).

Definition getNodeObjectName (n : TreeNodeData) : option jstr :=
  let p := extraParams (nodeData n) in
  let first names := head (omap truthyText names) in
  let title := originalTitle (nodeData n) in
  let orTitle name := match name with Some t => Some t | None => Some title end in
  match treeNodeType (nodeData n) with
  | VIEW => orTitle (first [viewName p; tableName p])
  | FUNCTION => orTitle (first [functionName p])
  | PROCEDURE => orTitle (first [procedureName p])
  | TRIGGER => orTitle (first [triggerName p])
  | DATABASE_ACCOUNT => orTitle (first [user p])
  | _ => orTitle (first [tableName p])
  end.

(** A wanted name that the node does not have. *)
Definition differs (wanted actual : option jstr) : bool := bool_decide (is_Some (normalizeLocateValue wanted)) && negb (isSameLocateValue actual wanted).

Definition isDatabaseCandidateMatch (candidate : ActiveTabDatabaseCandidate) (n : TreeNodeData) : bool :=
  let p := extraParams (nodeData n) in
  if bool_decide (is_Some (truthyText (candidateKey candidate)) ∧ Some (nodeKey n) = candidateKey candidate) then true
  else if bool_decide (treeNodeType (nodeData n) ≠ candidateType candidate) then false
  else if bool_decide (is_Some (candidateSource candidate) ∧ dataSourceId p ≠ candidateSource candidate) then false
  else if differs (candidateDatabase candidate) (databaseName p) then false
  else if differs (candidateSchema candidate) (schemaName p) then false
  else if differs (candidateName candidate) (getNodeObjectName n) then false
  else truthyName (candidateName candidate) || bool_decide (is_Some (candidateSource candidate)).

(** [findTreeNodeWithAncestors] *)
Section with_ancestors.
Context (predicate : TreeNodeData → bool).

Fixpoint locateFrom (ancestors : list jstr) (n : TreeNodeData) : option (TreeNodeData * list jstr) :=
  if predicate n then Some (n, ancestors)
  else match n with
       | TreeNode d (Some cs) => firstSome (locateFrom (ancestors ++ [key d])) cs
       | TreeNode _ None => None
       end.

Definition findTreeNodeWithAncestors (treeData : option (list TreeNodeData)) : option (TreeNodeData * list jstr) :=
  firstSome (locateFrom []) (default [] treeData).
End with_ancestors.

Definition findDatabaseLocateNode (treeData : option (list TreeNodeData)) (candidates : list ActiveTabDatabaseCandidate) : option LocatedTreeNode :=
  firstSome (λ candidate,
    match findTreeNodeWithAncestors (isDatabaseCandidateMatch candidate) treeData with
    | Some (n, ancestors) => Some (mkLocated n ancestors (fallback candidate))
    | None => None
    end) candidates.

(** [findTreeNodeByKey] of [loadDatabaseTreePath.ts], the same walk as [findNode]. *)
Fixpoint findByKeyFrom (k : jstr) (n : TreeNodeData) : option TreeNodeData :=
  if decide (nodeKey n = k) then Some n
  else match n with
       | TreeNode _ (Some cs) => firstSome (findByKeyFrom k) cs
       | TreeNode _ None => None
       end.
Definition findTreeNodeByKey (treeData : option (list TreeNodeData)) (k : jstr) : option TreeNodeData := firstSome (findByKeyFrom k) (default [] treeData).

Definition setScrollTargetKey (k : option jstr) (s : TreeStore) : TreeStore :=
  let i := interaction s in
  mkTreeStore (treeData s) (mkInteraction (selectedKeys i) (currentTreeNode i) (expandedKeys i) k) (currentLoadingTreeNode s) (availability s).

Definition selectDatabaseTreeNode (located : LocatedTreeNode) (s : TreeStore) : TreeStore :=
  let s := setExpandedKeys (expandedKeys (interaction s) ++ ancestors located) s in
  setScrollTargetKey (Some (nodeKey (node located))) (setSelection [nodeKey (node located)] (Some (node located)) s).

Section locate.
Context (databases : dict DynamicDatabases.IDatabase) (i18n : jstr → jstr) (engine : Engine) (uuid : jstr → nat → jstr) (current : nat → bool).

(** The load of a node of the path, if it has no children yet, with whether the path goes on. *)
Definition loadPathNode (n : TreeNodeData) (s : TreeStore) (time : nat) : TreeStore * nat * bool :=
  if bool_decide (nodeChildren n = None) && negb (isLeaf (nodeData n)) then
    let '(s, result) := handleLoadData databases i18n engine (uuid (nodeKey n)) n (mkOptions false true true) s in
    match result with
    | Some (mkResult _ true) => (s, S time, current time)
    | _ => (s, time, false)
    end
  else (s, time, true).

Fixpoint loadDatabaseTreePath (loadPath : list jstr) (s : TreeStore) (time : nat) : TreeStore * nat * bool :=
  match loadPath with
  | [] => (s, S time, current time)
  | k :: loadPath =>
      if negb (current time) then (s, S time, false)
      else match findTreeNodeByKey (treeData s) k with
           | None => (s, S (S time), current (S time))
           | Some n =>
               let '(s, time, ok) := loadPathNode n s (S time) in
               if negb ok then (s, time, false)
               else if negb (current time) then (s, S time, false)
               else match findTreeNodeByKey (treeData s) k with
                    | None => (s, S time, false)
                    | Some _ => loadDatabaseTreePath loadPath (setExpandedKeys (expandedKeys (interaction s) ++ [k]) s) (S time)
                    end
           end
  end.

Definition locateDatabaseTree (target : DatabaseActiveTabLocateTarget) (s : TreeStore) (time : nat) : TreeStore * LocateStatus :=
  if negb (current time) then (s, Miss)
  else
    let '(s, time, loaded) := loadDatabaseTreePath (loadPath target) s (S time) in
    if negb (current time) then (s, Miss)
    else if negb loaded then (s, Miss)
    else
      let result := findDatabaseLocateNode (treeData s) (candidates target) in
      if negb (current (S time)) then (s, Miss)
      else match result with
           | None => (s, Miss)
           | Some located => (selectDatabaseTreeNode located s, if locatedByFallback located then Fallback else Hit)
           end.

(** [locateLocalFile] is the operation of the explorer; [false] also where there is none. *)
Definition locateActiveWorkspaceTab (locateLocalFile : jstr → bool) (activeConsoleId : option TabId) (targets : ActiveTabLocateTargets)
    (panel : WorkspaceLeftPanel) (s : TreeStore) : TreeStore * LocateStatus :=
  match getActiveTabLocateTargetForPanel targets panel with
  | None => (s, Miss)
  | Some (ToExplorer (ExplorerSession sessionId)) => (s, if bool_decide (Some sessionId = activeConsoleId) then Hit else Miss)
  | Some (ToExplorer (LocalFile filePath)) => (s, if locateLocalFile filePath then Hit else Miss)
  | Some (ToDatabase target) => locateDatabaseTree target s 0
  end.
End locate.

(** ** What is found *)

Lemma locateFrom_spec predicate n ancestors : fst <$> locateFrom predicate ancestors n = List.find predicate (preorder n).
Proof.
  revert ancestors. induction n as [d|d cs IH] using tree_ind'; intros ancestors; [simpl; by destruct (predicate _)|].
  rewrite preorder_unfold. cbn [locateFrom List.find]. destruct (predicate _); [done|]. change (childList (TreeNode d (Some cs))) with cs.
  induction IH as [|c cs Hc _ IHcs]; [done|]. cbn [firstSome]. rewrite preorders_cons, find_app, <- (Hc (ancestors ++ [key d])).
  destruct (locateFrom predicate (ancestors ++ [key d]) c); [done|exact IHcs].
Qed.

Lemma located_spec predicate tree : fst <$> findTreeNodeWithAncestors predicate tree = List.find predicate (preorders (default [] tree)).
Proof.
  unfold findTreeNodeWithAncestors. induction (default [] tree) as [|n ns IH]; [done|]. cbn [firstSome]. rewrite preorders_cons, find_app, <- (locateFrom_spec _ _ []).
  destruct (locateFrom predicate [] n); [done|exact IH].
Qed.

Lemma findByKey_same k tree : findTreeNodeByKey tree k = findNode k tree.
Proof.
  rewrite findNode_spec. apply firstSome_find, Forall_forall. intros n _. induction n as [d|d cs IH] using tree_ind'.
  - simpl. unfold hasKey. by case_decide; [rewrite bool_decide_eq_true_2|rewrite bool_decide_eq_false_2].
  - rewrite (preorder_find_children (findByKeyFrom k)) by done. unfold hasKey. cbn [findByKeyFrom].
    by case_decide; [rewrite bool_decide_eq_true_2|rewrite bool_decide_eq_false_2].
Qed.

Lemma find_ext_bool {A} (f g : A → bool) l : (∀ x, f x = g x) → List.find f l = List.find g l.
Proof. intros H. induction l as [|x l IH]; [done|]. simpl. by rewrite H, IH. Qed.

(** The first candidate that some node matches, and the first such node. *)
Lemma find_located tree cs located :
  findDatabaseLocateNode tree cs = Some located →
  ∃ c, c ∈ cs ∧ node located ∈ preorders (default [] tree) ∧ isDatabaseCandidateMatch c (node located) = true ∧ locatedByFallback located = fallback c.
Proof.
  unfold findDatabaseLocateNode. induction cs as [|c cs IH]; [done|]. cbn [firstSome].
  pose proof (located_spec (isDatabaseCandidateMatch c) tree) as Hspec. destruct (findTreeNodeWithAncestors _ _) as [[n a]|].
  - intros [= <-]. symmetry in Hspec. apply find_elem in Hspec as [Hin Hm]. exists c. split_and!; [apply elem_of_cons; by left|done..].
  - intros (c' & Hc & H)%IH. exists c'. split; [apply elem_of_cons; by right|done].
Qed.

(** A key matches the nodes that have it, and no others. *)
Lemma match_key k type isFallback n : k ≠ [] → isDatabaseCandidateMatch (mkCandidate (Some k) type None None None None isFallback) n = hasKey k n.
Proof.
  intros Hk. unfold isDatabaseCandidateMatch, hasKey. cbn [candidateKey candidateType candidateName candidateSource candidateDatabase candidateSchema truthyText].
  assert (∀ x, differs None x = false) as Hd by done. rewrite !Hd. destruct k as [|c k]; [done|]. cbn [truthyName orb].
  destruct (decide (nodeKey n = c :: k)) as [E|E].
  - rewrite (bool_decide_eq_true_2 (nodeKey n = _)) by done. rewrite bool_decide_eq_true_2; [done|]. split; [by eexists|by rewrite E].
  - rewrite (bool_decide_eq_false_2 (nodeKey n = _)) by done. rewrite bool_decide_eq_false_2 by (intros [_ [=]]; done).
    case_match; [done|]. rewrite !bool_decide_eq_false_2; [done|by intros [? ?]|by intros [[? ?] _]].
Qed.

(** ** The way to a table *)

Section paths.
Context (databases : dict DynamicDatabases.IDatabase) (i18n : jstr → jstr) (engine : Engine) (sources : Z → IExtraParams).
Context (Hplain : PlainEngine engine sources) (uuid : jstr → nat → jstr).
Notation Listed := (Listed databases i18n engine sources).
Notation GoodStore := (GoodStore databases i18n engine sources).

(** What the engine lists on the way does not depend on whether a refresh was asked for. *)
Record SteadyEngine : Prop := mkSteady {
  steady_schemas p r r' : getSchemaList engine (withRefresh r p) = getSchemaList engine (withRefresh r' p);
  steady_databases id r r' : getDatabaseList engine id r = getDatabaseList engine id r';
  steady_tables p r r' : getTableList engine (withRefresh r p) = getTableList engine (withRefresh r' p);
}.

(** The nodes on the way to a table. *)
Definition onPath (type : TreeNodeType) : bool := match type with DATA_SOURCE | DATABASE | SCHEMA | TABLES => true | _ => false end.

Definition shows (d d' : NodeData) : Prop :=
  onPath (treeNodeType d) = true ∧ ∃ uuid r result c,
    getChildren databases i18n engine uuid (treeNodeType d) (withRefresh r (extraParams d)) = Some (Some result) ∧ c ∈ children result ∧ nodeData c = d'.

Fixpoint shownPath (d : NodeData) (ds : list NodeData) : Prop :=
  match ds with [] => True | d' :: ds' => shows d d' ∧ shownPath d' ds' end.

Lemma shows_listed d d' : Listed d → shows d d' → Listed d'.
Proof. intros Hd (_ & u & r & result & c & Hg & Hc & <-). by eapply listed_child. Qed.

Lemma onPath_place type : onPath type = true → isPlaceType type = true.
Proof. by destruct type. Qed.

Lemma place_not_leaf d : Listed d → isPlaceType (treeNodeType d) = true → isLeaf d = false.
Proof.
  intros Hf%listed_form Ht; [|done]. destruct Hf as [[Hg _]|(id & db & sc & _ & _ & _ & _ & Hk)]; [by rewrite Hg in Ht|].
  unfold keyForm in Hk. destruct (isPlaceType_pieces _ (idPart (Some id)) (namePart (js "database") db) (namePart (js "schema") sc) Ht) as [ps E].
  rewrite E in Hk. by destruct Hk as (_ & _ & ? & _).
Qed.

Context (Hsteady : SteadyEngine).

Notation keys := (@fmap list _ TreeNodeData jstr nodeKey).

Lemma steady_folders p r r' place : keys (objectFolders i18n place (withRefresh r p)) = keys (objectFolders i18n place (withRefresh r' p)).
Proof. by destruct p. Qed.

Lemma steady_list (f : bool → jstr → TreeNodeData) answer r r' :
  (∀ t, nodeKey (f r t) = nodeKey (f r' t)) → keys <$> mapList (f r) answer = keys <$> mapList (f r') answer.
Proof. intros Hf. destruct answer as [l|]; [|done]. cbn. f_equal. induction l as [|t l IH]; [done|]. cbn [map]. by rewrite !fmap_cons, IH, Hf. Qed.

Lemma steady_addTable p r r' ts pins nodes nodes' :
  keys nodes = keys nodes' → keys (fold_left (addTable (withRefresh r p)) ts (pins, nodes)).2 = keys (fold_left (addTable (withRefresh r' p)) ts (pins, nodes')).2.
Proof.
  revert pins nodes nodes'. induction ts as [|t ts IH]; intros pins nodes nodes' E; [done|]. cbn [fold_left addTable]. apply IH. case_match; [done|].
  rewrite !fmap_app, E. by destruct p.
Qed.

Definition answeredKeys (answer : option (option TreeNodeRefreshResult)) : option (list jstr) :=
  match answer with Some (Some result) => Some (keys (children result)) | _ => None end.

(** The keys below a node on the way are always the same. *)
Lemma steady_children u u' type p r r' :
  onPath type = true →
  answeredKeys (getChildren databases i18n engine u type (withRefresh r p)) = answeredKeys (getChildren databases i18n engine u' type (withRefresh r' p)).
Proof.
  assert (∀ list list', keys <$> list = keys <$> list' →
    answeredKeys (Some (normalizeTreeNodeLoadResult <$> list)) = answeredKeys (Some (normalizeTreeNodeLoadResult <$> list'))) as Hlisted.
  { intros [l|] [l'|]; [|done..]. cbn. congruence. }
  intros Ht. destruct type; try done; cbn [getChildren].
  - apply Hlisted. unfold dataSourceChildren. 
    assert (databaseType (withRefresh r p) = databaseType (withRefresh r' p)) as -> by (by destruct p).
    destruct (getDatabaseSupport _ _) as [supportDatabase supportSchema].
    assert (dataSourceId (withRefresh r p) = dataSourceId (withRefresh r' p)) as Ei by (by destruct p).
    assert (∀ (l l' : option (list TreeNodeData)) (a a' : list TreeNodeData), keys <$> l = keys <$> l' → keys a = keys a' →
      keys <$> ((λ data, data ++ a) <$> l) = keys <$> ((λ data, data ++ a') <$> l')) as Happ.
    { intros [l|] [l'|] a a' [=] Ea; [|done]. cbn. f_equal. rewrite !fmap_app. congruence. }
    rewrite Ei, (steady_schemas Hsteady p r r'), (steady_databases Hsteady _ (refreshParam (withRefresh r p)) (refreshParam (withRefresh r' p))). apply Happ.
    + destruct (negb supportDatabase && negb supportSchema); [|destruct (negb supportDatabase)].
      * cbn [fmap option_fmap option_map]. f_equal. apply steady_folders.
      * apply (steady_list (λ r, schemaNode None (withRefresh r p))). intros t. by destruct p.
      * apply (steady_list (λ r, databaseNode (withRefresh r p))). intros t. by destruct p.
    + rewrite !fmap_app. f_equal; case_match; by destruct p.
  - apply Hlisted. unfold databaseChildren. assert (databaseType (withRefresh r p) = databaseType (withRefresh r' p)) as -> by (by destruct p).
    destruct (_.2); [|destruct (isDatabaseCapabilitySupported _ _ _)].
    + rewrite (steady_schemas Hsteady p r r'). assert (databaseName (withRefresh r p) = databaseName (withRefresh r' p)) as -> by (by destruct p).
      apply (steady_list (λ r, schemaNode _ (withRefresh r p))). intros t. by destruct p.
    + by destruct p.
    + cbn [fmap option_fmap option_map]. f_equal. destruct p. apply (steady_folders (mkExtraParams _ _ _ _ _ _ _ _ _ _ _ _ _ _ _)).
  - cbn. f_equal. unfold schemaChildren. assert (databaseType (withRefresh r p) = databaseType (withRefresh r' p)) as -> by (by destruct p).
    assert (placeOf (withRefresh r p) = placeOf (withRefresh r' p)) as -> by (by destruct p). case_match; [by destruct p|apply steady_folders].
  - unfold tablesChildren. rewrite (steady_tables Hsteady p r r'). destruct (getTableList _ _) as [page|]; [|done]. cbn. f_equal. by apply steady_addTable.
Qed.

Lemma findNode_some k tree : is_Some (findNode k (Some tree)) ↔ k ∈ keys (preorders tree).
Proof.
  rewrite findNode_spec. cbn [default from_option id]. split.
  - intros (n & [Hin Hk]%find_elem). unfold hasKey in Hk. apply bool_decide_eq_true in Hk as <-. by apply list_elem_of_fmap_2.
  - intros (n & -> & Hin)%list_elem_of_fmap. destruct (find_is_Some (hasKey (nodeKey n)) (preorders tree) n Hin) as [m ->]; [by apply bool_decide_eq_true_2|done].
Qed.

(** The children of a node that is found are found. *)
Lemma find_child k k' tree n cs : findNode k (Some tree) = Some n → nodeChildren n = Some cs → k' ∈ keys cs → is_Some (findNode k' (Some tree)).
Proof.
  intros [Hin _]%findNode_in Hcs (c & -> & Hc)%list_elem_of_fmap. apply findNode_some, list_elem_of_fmap_2. eapply below_preorders; [exact Hin|].
  unfold childList. rewrite Hcs. apply elem_of_preorders. exists c. split; [done|]. rewrite preorder_unfold. apply elem_of_cons. by left.
Qed.

(** A node that is listed, and that the tree has, has what is shown below it once it was loaded. *)
Lemma same_keys d d' n u' r' :
  Listed d → shows d d' → Listed (nodeData n) → nodeKey n = key d →
  isPlaceType (treeNodeType (nodeData n)) = true ∧
  ∃ result, getChildren databases i18n engine u' (treeNodeType (nodeData n)) (withRefresh r' (extraParams (nodeData n))) = Some (Some result) ∧
    key d' ∈ keys (children result).
Proof.
  intros Hd (Hp & u & r & result & c & Hg & Hc & <-) Hn Hk. pose proof (onPath_place _ Hp) as Hplace.
  destruct (certain_same databases i18n engine sources Hplain d (nodeData n)) as [Ht Hs]; [by split; [|left]|done|exact Hk|].
  split; [by rewrite Ht|]. rewrite Ht, (sameParams_refresh _ _ r' Hs).
  pose proof (steady_children u u' (treeNodeType d) (extraParams d) r r' Hp) as E. rewrite Hg in E.
  destruct (getChildren _ _ _ u' _ _) as [[result'|]|]; [|done..]. cbn in E. injection E as E. exists result'. split; [done|]. rewrite <- E. by apply (list_elem_of_fmap_2 nodeKey).
Qed.

Context (current : nat → bool) (Hcurrent : ∀ time, current time = true).

Lemma path_node d d' n s time :
  Listed d → shows d d' → GoodStore s → findNode (key d) (treeData s) = Some n →
  ∃ s' time', loadPathNode databases i18n engine uuid current n s time = (s', time', true) ∧ GoodStore s' ∧
    is_Some (findNode (key d) (treeData s')) ∧ is_Some (findNode (key d') (treeData s')).
Proof.
  intros Hd Hshow Hs Hn. destruct (findNode_in _ _ _ Hn) as [Hin Hk].
  destruct (treeData s) as [tree|] eqn:Et; [|by apply not_elem_of_nil in Hin]. cbn [default from_option id] in Hin.
  pose proof Hs as Hs'. unfold TreeLoading.GoodStore in Hs'. rewrite Et in Hs'. destruct (good_node _ _ _ _ _ _ Hs' Hin) as [Hl Ha].
  destruct (same_keys d d' n (uuid (nodeKey n)) false Hd Hshow Hl Hk) as (Hp & result & Hg & Hc). unfold loadPathNode.
  destruct (nodeChildren n) as [cs|] eqn:Ecs.
  - rewrite bool_decide_eq_false_2 by done. cbn [andb]. exists s, time. split_and!; [done|done|by rewrite Et, Hn|]. rewrite Et.
    eapply find_child; [exact Hn|exact Ecs|]. destruct (Ha cs Hp Ecs) as (u & r & result' & Hg' & ->).
    destruct (same_keys d d' n u r Hd Hshow Hl Hk) as (_ & result'' & Hg'' & Hc''). by rewrite Hg' in Hg''; injection Hg'' as <-.
  - rewrite bool_decide_eq_true_2 by done. rewrite place_not_leaf by done. cbn [andb negb].
    assert (certain databases i18n engine sources (nodeData n)) as Hcertain by (by split; [|left]).
    pose proof (handle_good databases i18n engine sources Hplain (uuid (nodeKey n)) n (mkOptions false true true) s Hcertain Hs) as Hgood.
    pose proof (handle_answered databases i18n engine (uuid (nodeKey n)) n n (mkOptions false true true) s tree result Et) as Hh.
    rewrite Hk in Hh. specialize (Hh Hn). cbn [refresh] in Hh. rewrite Hk in *.
    assert (reusesChildren n false s = false) as Er by (unfold reusesChildren; rewrite Ecs; done). specialize (Hh Er Hg). cbv zeta in Hh.
    destruct (handleLoadData _ _ _ _ _ _ _) as [s' res]. destruct Hh as (-> & Et' & _). rewrite Hcurrent. exists s', (S time). split; [done|]. split; [exact Hgood|].
    rewrite Et', Ecs. cbn [resolveLoadedTreeData mergeLoadedTreeData].
    assert (findNode (key d) (Some (applyExistingTreeNodeRefresh tree (key d) (mkRefresh (children result) (total result)))) =
            Some (refreshedNode (mkRefresh (children result) (total result)) n)) as Ef by (by rewrite findNode_refresh, Hn).
    split; [by rewrite Ef|]. eapply find_child; [exact Ef|done|done].
Qed.

Lemma good_expanded ks s : GoodStore s → GoodStore (setExpandedKeys ks s).
Proof. done. Qed.

(** Every node of the path is reached. *)
Lemma path_reached d ds s time :
  Listed d → shownPath d ds → GoodStore s → is_Some (findNode (key d) (treeData s)) →
  ∃ s' time', loadDatabaseTreePath databases i18n engine uuid current (removelast (key <$> d :: ds)) s time = (s', time', true) ∧ GoodStore s' ∧
    is_Some (findNode (default [] (last (key <$> d :: ds))) (treeData s')).
Proof.
  revert d s time. induction ds as [|d' ds IH]; intros d s time Hd Hpath Hs [n Hn].
  - cbn. exists s, (S time). rewrite Hcurrent. by rewrite Hn.
  - destruct Hpath as [Hshow Hpath]. rewrite fmap_cons. change (removelast (key d :: (key <$> d' :: ds))) with (key d :: removelast (key <$> d' :: ds)).
    cbn [loadDatabaseTreePath]. rewrite Hcurrent, findByKey_same, Hn. cbn [negb].
    destruct (path_node d d' n s (S time) Hd Hshow Hs Hn) as (s' & time' & -> & Hs' & [m Hm] & Hnext). cbn [negb].
    rewrite Hcurrent, findByKey_same, Hm. cbn [negb].
    destruct (IH d' (setExpandedKeys (expandedKeys (interaction s') ++ [key d]) s') (S time')) as (s'' & time'' & E & Hs'' & Hlast);
      [by eapply shows_listed|done|by apply good_expanded|done|]. exists s'', time''. split_and!; [exact E|done|exact Hlast].
Qed.
End paths.

(** ** The tab of a table *)

Section table_tab.
Context (databases : dict DynamicDatabases.IDatabase) (i18n : jstr → jstr) (engine : Engine) (sources : Z → IExtraParams).
Context (Hplain : PlainEngine engine sources) (uuid : jstr → nat → jstr).
Notation Listed := (Listed databases i18n engine sources).
Notation GoodStore := (GoodStore databases i18n engine sources).

(** A tab that shows or edits the table [t] of the data source [id]. *)
Record TableTab (tab : ActiveTab) (id : Z) (u : TabData) (t : jstr) : Prop := mkTableTab {
  table_tab_type : activeTabType tab ∈ [EditTable; EditTableData];
  table_tab_data : activeTabData tab = Some u;
  table_tab_id : tabSourceId u = Some id ∧ (0 < id)%Z;
  table_tab_place : plainOption (tabDatabase u) ∧ plainOption (tabSchema u);
  table_tab_table : tabTable u = Some t ∧ plainName t;
}.

Context (tab : ActiveTab) (id : Z) (u : TabData) (t : jstr) (Htab : TableTab tab id u t).
Let place := tabPlace id u.

Lemma table_source : sourceOf (Some u) = Some (id, u).
Proof. destruct (table_tab_id _ _ _ _ Htab) as [E Hid]. unfold sourceOf. rewrite E. by destruct id. Qed.

Lemma table_named : truthyText (tabTable u) = Some t ∧ truthyName (tabTable u) = true.
Proof. destruct (table_tab_table _ _ _ _ Htab) as [-> (Hne & _)]. by destruct t. Qed.

Definition tableCandidates : list ActiveTabDatabaseCandidate :=
  mkCandidate (Some (tableKey place (Some t))) TABLE None None None None false ::
  mkCandidate None TABLE (Some t) (Some id) (tabDatabase u) (tabSchema u) false :: getContextCandidates (Some u).

Lemma tableKey_not_empty p x : tableKey p x ≠ [].
Proof. done. Qed.

Lemma table_targets :
  getActiveTabLocateTargets (Some tab) = Some (mkTargets None (Some (mkTarget tableCandidates (getObjectParentLoadPath (Some u) TABLES)))).
Proof.
  destruct (table_named) as [En Et]. unfold getActiveTabLocateTargets, getDirectActiveTabLocateTargets, getDatabaseObjectLocateTarget.
  rewrite (table_tab_data _ _ _ _ Htab), table_source. pose proof (table_tab_type _ _ _ _ Htab) as Htype.
  assert (objectCandidate TABLE (Some u) (tabTable u) = Some (mkCandidate None TABLE (Some t) (Some id) (tabDatabase u) (tabSchema u) false)) as Eo
    by (unfold objectCandidate; by rewrite table_source, En).
  assert (given (tabTable u) (keyCandidate TABLE (tabPlace id u) (tabTable u)) = Some (mkCandidate (Some (tableKey place (Some t))) TABLE None None None None false)) as Ek.
  { unfold given. rewrite Et. unfold keyCandidate, candidateOf. cbn [createTreeKey]. destruct (table_tab_table _ _ _ _ Htab) as [-> _]. done. }
  rewrite Eo, Ek. repeat (apply elem_of_cons in Htype as [->|Htype]; [done|]). by apply not_elem_of_nil in Htype.
Qed.

(** The keys of the path are those of nodes above the objects. *)
Lemma place_key type k d : onPath type = true → createTreeKey type place None = Some k → Listed d → key d = k → treeNodeType d = type.
Proof.
  intros Htype Hk Hd%listed_form E; [|done]. destruct (table_tab_id _ _ _ _ Htab) as [_ Hid]. destruct (table_tab_place _ _ _ _ Htab) as [Hdb Hsc].
  assert (0 ≤ id)%Z as Hid' by lia. destruct (place_unbroken id _ _ Hid' Hdb Hsc) as (Hi & HD & _).
  assert (∃ ps, placePieces type (idPart (Some id)) (namePart (js "database") (tabDatabase u)) (namePart (js "schema") (tabSchema u)) = Some ps ∧ pieces k = ps) as (ps & Eps & Ek).
  { destruct type; try done; cbn [createTreeKey] in Hk; injection Hk as <-; (eexists; split; [reflexivity|]).
    - by apply pieces_one.
    - unfold databaseNodeKey. cbn [tabPlace placeId placeDatabase]. by rewrite pieces_joined, pieces_one.
    - by apply pieces_schema.
    - apply pieces_folder; try done. by apply (bool_decide_unpack _). }
  apply (form_type sources d type Hd). rewrite E, Ek. by eapply pieceType_place.
Qed.

Lemma path_types k : k ∈ getObjectParentLoadPath (Some u) TABLES → ∃ type, onPath type = true ∧ createTreeKey type place None = Some k.
Proof.
  unfold getObjectParentLoadPath, getContextLoadPath, given. rewrite table_source. fold place. intros Hk.
  assert (Some k = createTreeKey DATA_SOURCE place None ∨ Some k = createTreeKey DATABASE place None ∨ Some k = createTreeKey SCHEMA place None ∨
    Some k = createTreeKey TABLES place None) as [?|[?|[?|?]]].
  { cbn [createTreeKey] in *. clear -Hk. destruct (truthyName _), (truthyName _); revert Hk; cbn; rewrite !elem_of_cons, elem_of_nil; intros; naive_solver. }
  all: eexists; split; [|by symmetry]; done.
Qed.

Lemma path_place k d : k ∈ getObjectParentLoadPath (Some u) TABLES → Listed d → key d = k → isPlaceType (treeNodeType d) = true.
Proof. intros (type & Ht & Hk)%path_types Hd E. rewrite (place_key type k d Ht Hk Hd E). by apply onPath_place. Qed.

(** The names of a node that the tab asks for, if it does. *)
Definition agrees (wanted actual : option jstr) : Prop := truthyText wanted = None ∨ normalizeLocateValue actual = normalizeLocateValue wanted.

Lemma differs_false wanted actual : differs wanted actual = false → agrees wanted actual.
Proof.
  unfold differs, isSameLocateValue, agrees, normalizeLocateValue. destruct (truthyText wanted) as [x|]; [|by left]. right.
  cbn [fmap option_fmap option_map] in *. rewrite bool_decide_eq_true_2 in H by (by eexists). cbn [andb] in H. by apply negb_false_iff, bool_decide_eq_true in H.
Qed.

(** The node of the table, up to the case of names. *)
Definition TableNode (n : TreeNodeData) : Prop :=
  let p := extraParams (nodeData n) in
  treeNodeType (nodeData n) = TABLE ∧ dataSourceId p = Some id ∧ agrees (tabDatabase u) (databaseName p) ∧ agrees (tabSchema u) (schemaName p) ∧
  agrees (Some t) (getNodeObjectName n).

(** A node above the table. *)
Definition ContextNode (n : TreeNodeData) : Prop :=
  treeNodeType (nodeData n) ∈ [DATA_SOURCE; DATABASE; SCHEMA] ∧ Some (nodeKey n) = createTreeKey (treeNodeType (nodeData n)) place None.

Lemma names_same p : sameParams p (withTable t (setPlace (tabDatabase u) (tabSchema u) (sources id))) →
  dataSourceId p = Some id ∧ databaseName p = tabDatabase u ∧ schemaName p = tabSchema u ∧ tableName p = Some t.
Proof.
  intros Hs. pose proof (same_place _ _ Hs) as Hp. pose proof (same_tableName _ _ Hs) as Ht. rewrite (proj1 (tableName_with t _)) in Ht.
  assert (placeOf (withTable t (setPlace (tabDatabase u) (tabSchema u) (sources id))) = mkPlace (Some id) (tabDatabase u) (tabSchema u)) as E.
  { rewrite <- (placeOf_setPlace engine sources Hplain id (tabDatabase u) (tabSchema u)). by destruct (setPlace _ _ _). }
  rewrite E in Hp. unfold placeOf in Hp. by injection Hp as -> -> ->.
Qed.

Lemma tableNode_key n :
  Listed (nodeData n) → nodeKey n = tableKey place (Some t) →
  TableNode n ∧ sameParams (extraParams (nodeData n)) (withTable t (setPlace (tabDatabase u) (tabSchema u) (sources id))).
Proof.
  intros Hd%listed_form Hk; [|done]. destruct (table_tab_id _ _ _ _ Htab) as [_ Hid]. destruct (table_tab_place _ _ _ _ Htab) as [Hdb Hsc].
  destruct (table_tab_table _ _ _ _ Htab) as [_ Hn]. destruct (table_node sources (nodeData n) id (tabDatabase u) (tabSchema u) t Hd) as [Ht Hs]; [lia|done..|].
  split; [|done]. destruct (names_same _ Hs) as (Ei & Ed & Es & Et). unfold TableNode, agrees. rewrite Ht, Ei, Ed, Es. split_and!; [done|done|by right..|].
  right. unfold getNodeObjectName. rewrite Ht, Et. destruct Hn as [Hne _]. by destruct t.
Qed.

Lemma elem_compact {A} (x : A) l : x ∈ compact l ↔ Some x ∈ l.
Proof. unfold compact. rewrite list_elem_of_omap. split; [intros (y & Hy & E); by rewrite <- E|]. intros Hx. by exists (Some x). Qed.

Lemma candidateOf_some k type isFallback : k ≠ [] → candidateOf (Some k) type isFallback = Some (mkCandidate (Some k) type None None None None isFallback).
Proof. by destruct k. Qed.

(** What a node is that a candidate of the tab matches. *)
Lemma table_candidate c n :
  Listed (nodeData n) → c ∈ tableCandidates → isDatabaseCandidateMatch c n = true → if fallback c then ContextNode n else TableNode n.
Proof.
  intros Hl Hc Hm. unfold tableCandidates in Hc. apply elem_of_cons in Hc as [->|[->|Hc]%elem_of_cons].
  - rewrite match_key in Hm by done. apply bool_decide_eq_true in Hm. by apply tableNode_key.
  - unfold isDatabaseCandidateMatch in Hm. cbn [candidateKey candidateType candidateName candidateSource candidateDatabase candidateSchema fallback] in *.
    rewrite bool_decide_eq_false_2 in Hm by (by intros [_ ?]). unfold TableNode.
    repeat match type of Hm with (if ?b then false else _) = true => destruct b eqn:?; [done|] end.
    split_and!; [apply dec_stable; by apply bool_decide_eq_false in Heqb| |by apply differs_false..].
    destruct (decide (dataSourceId (extraParams (nodeData n)) = Some id)) as [?|Hne]; [done|].
    match goal with H : bool_decide (is_Some (Some id) ∧ _) = false |- _ => apply bool_decide_eq_false in H; destruct H end. by split; [eexists|].
  - assert (∃ type, type ∈ [DATA_SOURCE; DATABASE; SCHEMA] ∧ ∃ k, createTreeKey type place None = Some k ∧ k ≠ [] ∧ c = mkCandidate (Some k) type None None None None true)
      as (type & Htype & k & Ek & Hne & ->).
    { unfold getContextCandidates in Hc. rewrite table_source in Hc. unfold given, fallbackKeyCandidate in Hc. fold place in Hc. cbn [createTreeKey] in Hc.
      assert (c ∈ [mkCandidate (Some (schemaNodeKey place)) SCHEMA None None None None true;
                   mkCandidate (Some (databaseNodeKey (placeId place) (placeDatabase place))) DATABASE None None None None true;
                   mkCandidate (Some (dataSourceNodeKey (placeId place))) DATA_SOURCE None None None None true]) as Hcs.
      { rewrite !candidateOf_some, elem_compact, !elem_of_cons, elem_of_nil in Hc by done. rewrite !elem_of_cons.
        destruct Hc as [Hc|[Hc|[Hc|[]]]]; try (destruct (truthyName _); [|done]); injection Hc; auto. }
      rewrite !elem_of_cons, elem_of_nil in Hcs.
      destruct Hcs as [->|[->|[->|[]]]]; [exists SCHEMA|exists DATABASE|exists DATA_SOURCE];
        (split; [by apply (bool_decide_unpack _)|]); (eexists; split_and!; [reflexivity|done|reflexivity]). }
    rewrite match_key in Hm by done. apply bool_decide_eq_true in Hm. cbn [fallback]. unfold ContextNode.
    assert (treeNodeType (nodeData n) = type) as ->; [|by rewrite Hm].
    apply (place_key type k); [|done..]. clear -Htype. revert type Htype. rewrite <- Forall_forall. by repeat constructor.
Qed.

Section located.
Context (current : nat → bool).

Lemma path_good path s time :
  (∀ k d, k ∈ path → Listed d → key d = k → isPlaceType (treeNodeType d) = true) → GoodStore s →
  GoodStore (loadDatabaseTreePath databases i18n engine uuid current path s time).1.1.
Proof.
  revert s time. induction path as [|k path IH]; intros s time Hpath Hs; [done|]. cbn [loadDatabaseTreePath].
  destruct (negb (current time)); [done|]. rewrite findByKey_same. destruct (findNode k (treeData s)) as [n|] eqn:En; [|done].
  assert (GoodStore (loadPathNode databases i18n engine uuid current n s (S time)).1.1) as Hload.
  { unfold loadPathNode. destruct (_ && _); [|done]. destruct (findNode_in _ _ _ En) as [Hin Hk]. destruct (good_node _ _ _ _ _ _ Hs Hin) as [Hl _].
    pose proof (handle_good databases i18n engine sources Hplain (uuid (nodeKey n)) n (mkOptions false true true) s) as Hg.
    destruct (handleLoadData _ _ _ _ _ _ _) as [s' [[? []]|]]; cbn [fst] in *; apply Hg; try done;
      (split; [done|left]; apply (Hpath k); [apply elem_of_cons; by left|done|done]). }
  destruct (loadPathNode _ _ _ _ _ _ _ _) as [[s' time'] ok]. cbn [fst] in Hload. destruct ok; [|done]. cbn [negb]. destruct (negb (current time')); [done|].
  rewrite findByKey_same. destruct (findNode k (treeData s')); [|done]. apply IH; [|by apply good_expanded].
  intros k' d Hk'. apply Hpath, elem_of_cons. by right.
Qed.

(** A node of the tree is selected. *)
Definition Selected (n : TreeNodeData) (s : TreeStore) : Prop :=
  n ∈ preorders (default [] (treeData s)) ∧ currentTreeNode (interaction s) = Some n ∧ selectedKeys (interaction s) = [nodeKey n] ∧
  scrollTargetKey (interaction s) = Some (nodeKey n).

Lemma located_selected target s time :
  let '(s', status) := locateDatabaseTree databases i18n engine uuid current target s time in
  status ≠ Miss → ∃ n c, Selected n s' ∧ c ∈ candidates target ∧ isDatabaseCandidateMatch c n = true ∧ status = if fallback c then Fallback else Hit.
Proof.
  unfold locateDatabaseTree. destruct (negb (current time)); [done|]. destruct (loadDatabaseTreePath _ _ _ _ _ _ _ _) as [[s1 time'] loaded].
  destruct (negb (current time')); [done|]. destruct (negb loaded); [done|]. destruct (negb (current (S time'))); [done|].
  destruct (findDatabaseLocateNode _ _) as [located|] eqn:E; [|done]. intros _. destruct (find_located _ _ _ E) as (c & Hc & Hin & Hm & ->).
  by exists (node located), c.
Qed.

Lemma located_good target s time :
  (∀ k d, k ∈ loadPath target → Listed d → key d = k → isPlaceType (treeNodeType d) = true) → GoodStore s →
  GoodStore (locateDatabaseTree databases i18n engine uuid current target s time).1.
Proof.
  intros Hpath Hs. unfold locateDatabaseTree. destruct (negb (current time)); [done|]. pose proof (path_good (loadPath target) s (S time) Hpath Hs) as Hg.
  destruct (loadDatabaseTreePath _ _ _ _ _ _ _ _) as [[s1 time'] loaded]. repeat (case_match; [exact Hg|]). by destruct (findDatabaseLocateNode _ _).
Qed.
End located.

(** C40: what is shown for the tab of a table is its node, where the names of the tab and of the databases and schemas that the engine lists have no
    hyphen and are neither empty nor "undefined".  Whatever else the engine answers and whenever the request is superseded, the tree stays true to
    the engine; if a node is shown for the tab it is a node of the tree, selected and scrolled to, and it is the table, of the data source
    of the tab and with the names of the tab up to case, or, reported as a fallback, the schema, the database or the data source of the tab. *)
Theorem locating_is_right current locateLocalFile activeConsoleId s :
  GoodStore s →
  ∃ targets, getActiveTabLocateTargets (Some tab) = Some targets ∧
    let '(s', status) := locateActiveWorkspaceTab databases i18n engine uuid current locateLocalFile activeConsoleId targets Database s in
    GoodStore s' ∧
    (status = Hit → ∃ n, Selected n s' ∧ TableNode n) ∧
    (status = Fallback → ∃ n, Selected n s' ∧ ContextNode n).
Proof.
  intros Hs. eexists. split; [apply table_targets|]. cbn [locateActiveWorkspaceTab getActiveTabLocateTargetForPanel database fmap option_fmap option_map].
  set (target := mkTarget _ _). pose proof (located_selected current target s 0) as Hsel. pose proof (located_good current target s 0) as Hgood.
  destruct (locateDatabaseTree _ _ _ _ _ _ _ _) as [s' status]. assert (GoodStore s') as Hs' by (apply Hgood; [intros k d; apply path_place|done]).
  split; [done|]. split; intros ->; (destruct Hsel as (n & c & Hn & Hc & Hm & E); [done|]); exists n; (split; [done|]);
    (destruct Hn as [Hin _]; destruct (good_node _ _ _ _ _ _ Hs' Hin) as [Hl _]); pose proof (table_candidate c n Hl Hc Hm) as H; by destruct (fallback c).
Qed.

(** C33: the tab of a table that the engine lists is found.  Where the data source of the tab is in the tree and the engine lists, on every request alike, the
    database and the schema of the tab, the folder of tables and in it the table, the nodes that are missing are loaded and the node of the table is
    selected, with the parameters of the table. *)
Theorem table_tab_located current locateLocalFile activeConsoleId s d ds :
  SteadyEngine engine → (∀ time, current time = true) → GoodStore s →
  Listed d → shownPath databases i18n engine d ds → is_Some (findNode (key d) (treeData s)) →
  key <$> d :: ds = getObjectParentLoadPath (Some u) TABLES ++ [tableKey place (Some t)] →
  ∃ targets, getActiveTabLocateTargets (Some tab) = Some targets ∧
    let '(s', status) := locateActiveWorkspaceTab databases i18n engine uuid current locateLocalFile activeConsoleId targets Database s in
    status = Hit ∧ GoodStore s' ∧
    ∃ n, Selected n s' ∧ nodeKey n = tableKey place (Some t) ∧
      sameParams (extraParams (nodeData n)) (withTable t (setPlace (tabDatabase u) (tabSchema u) (sources id))).
Proof.
  intros Hsteady Hcurrent Hs Hd Hpath Hn Ekeys. eexists. split; [apply table_targets|].
  cbn [locateActiveWorkspaceTab getActiveTabLocateTargetForPanel database fmap option_fmap option_map].
  destruct (path_reached databases i18n engine sources Hplain uuid Hsteady current Hcurrent d ds s 1 Hd Hpath Hs Hn) as (s' & time' & E & Hs' & Hlast).
  change (list_fmap NodeData jstr key (d :: ds)) with (key <$> d :: ds) in *. rewrite Ekeys in E, Hlast. rewrite removelast_last in E. rewrite last_snoc in Hlast. cbn [default from_option Datatypes.id] in Hlast.
  unfold locateDatabaseTree. cbn [loadPath candidates]. rewrite E, !Hcurrent. cbn [negb].
  destruct Hlast as [n Hn']. unfold findDatabaseLocateNode, tableCandidates. cbn [firstSome].
  pose proof (located_spec (isDatabaseCandidateMatch (mkCandidate (Some (tableKey place (Some t))) TABLE None None None None false)) (treeData s')) as Hspec.
  assert (List.find (isDatabaseCandidateMatch (mkCandidate (Some (tableKey place (Some t))) TABLE None None None None false)) (preorders (default [] (treeData s'))) = Some n) as Ef.
  { rewrite <- Hn', findNode_spec. apply find_ext_bool. intros m. by apply match_key. }
  rewrite Ef in Hspec. destruct (findTreeNodeWithAncestors _ _) as [[m ancestors]|]; [|done]. cbn in Hspec. injection Hspec as ->.
  destruct (findNode_in _ _ _ Hn') as [Hin Hk]. destruct (good_node _ _ _ _ _ _ Hs' Hin) as [Hl _].
  split; [done|]. split; [done|]. exists n. split; [done|]. split; [done|]. by apply tableNode_key.
Qed.
End table_tab.

(** ** Witnesses *)

Definition sampleTabData : TabData := mkTabData (Some 7%Z) (Some (js "shop")) None (Some (js "customers")) None None None None None None None.
Definition sampleTab : ActiveTab := mkActiveTab (IdNum 1) EditTableData (Some sampleTabData).

Lemma sample_tab : TableTab sampleTab 7 sampleTabData (js "customers").
Proof.
  split; [apply elem_of_cons; right; by apply elem_of_cons; left|done|done|split; [|done]|split; [done|]];
    unfold plainOption, plainName; (split_and!; [done|by apply (bool_decide_unpack _)|done]).
Qed.

Definition sampleFolder : NodeData := nodeData (newNode (tablesKey (placeOf (extraParams (sampleDatabase false)))) (js "common.text.tables") TABLES false
  (withRefresh false (extraParams (sampleDatabase false)))).
Definition sampleTableNode : NodeData := nodeData (tableNode (withRefresh false (extraParams sampleFolder)) (sampleTable "customers" None)).

Lemma sample_steady : SteadyEngine sampleEngine.
Proof. done. Qed.

Lemma sample_path : shownPath databaseMap (λ t, t) sampleEngine sampleSource [sampleDatabase false; sampleFolder; sampleTableNode].
Proof.
  cbn [shownPath]. split_and!; [| | |exact I]; (split; [vm_compute; reflexivity|]); exists (λ _, []), false.
  - eexists _, _. split; [vm_compute; reflexivity|]. split; [apply elem_of_cons; by left|]. vm_compute. reflexivity.
  - eexists _, _. split; [vm_compute; reflexivity|]. split; [apply elem_of_cons; by left|]. vm_compute. reflexivity.
  - eexists _, _. split; [vm_compute; reflexivity|]. split; [apply elem_of_cons; right; apply elem_of_cons; by left|]. vm_compute. reflexivity.
Qed.

Lemma table_tab_located_witness :
  ∃ targets, getActiveTabLocateTargets (Some sampleTab) = Some targets ∧
    (locateActiveWorkspaceTab databaseMap (λ t, t) sampleEngine (λ _ _, []) (λ _, true) (λ _, false) None targets Database sourceStore).2 = Hit.
Proof.
  destruct (table_tab_located databaseMap (λ t, t) sampleEngine sampleSources sample_plain (λ _ _, []) sampleTab 7 sampleTabData (js "customers") sample_tab
    (λ _, true) (λ _, false) None sourceStore sampleSource [sampleDatabase false; sampleFolder; sampleTableNode]) as (targets & Et & H);
    [apply sample_steady|done|apply sample_good|apply sample_source_listed|apply sample_path|by eexists|vm_compute; reflexivity|].
  exists targets. split; [exact Et|]. destruct (locateActiveWorkspaceTab _ _ _ _ _ _ _ _ _ _) as [s' status]. exact (proj1 H).
Defined.

(** Where a name has hyphens, another node can have the key: here a database is shown for the table, and reported as found. *)
Definition hyphenEngine : Engine := mkEngine (getList sampleEngine) (getSchemaList sampleEngine) (λ _ _, Some [js "shop--table_customers"])
  (getAccountList sampleEngine) (getTableList sampleEngine) (getViewList sampleEngine) (getFunctionList sampleEngine) (getProcedureList sampleEngine)
  (getTriggerList sampleEngine) (getViewColumnList sampleEngine) (getColumnList sampleEngine) (getKeyList sampleEngine) (getIndexList sampleEngine)
  (getConsoleList sampleEngine).

Example database_shown_for_table :
  let '(s', status) := locateActiveWorkspaceTab databaseMap (λ t, t) hyphenEngine (λ _ _, []) (λ _, true) (λ _, false) None
    (default (mkTargets None None) (getActiveTabLocateTargets (Some sampleTab))) Database sourceStore in
  status = Hit ∧ (treeNodeType ∘ nodeData <$> currentTreeNode (interaction s')) = Some DATABASE.
Proof. vm_compute. done. Qed.

Lemma locating_is_right_witness :
  ∃ targets, getActiveTabLocateTargets (Some sampleTab) = Some targets ∧
    GoodStore databaseMap (λ t, t) sampleEngine sampleSources
      (locateActiveWorkspaceTab databaseMap (λ t, t) sampleEngine (λ _ _, []) (λ time, time <? 3) (λ _, false) None targets Database sourceStore).1.
Proof.
  destruct (locating_is_right databaseMap (λ t, t) sampleEngine sampleSources sample_plain (λ _ _, []) sampleTab 7 sampleTabData (js "customers") sample_tab
    (λ time, time <? 3) (λ _, false) None sourceStore) as (targets & Et & H); [apply sample_good|].
  exists targets. split; [exact Et|]. destruct (locateActiveWorkspaceTab _ _ _ _ _ _ _ _ _ _) as [s' status]. exact (proj1 H).
Defined.
