(* ===== verification/Shortcuts.v ===== *)
(** * Shortcuts: the keys of the client

    Models [constants/shortcut.ts] and [utils/shortcutDispatch.ts]: bindings of keys
    and their normal form, the default shortcuts and the overrides of the user, and
    which shortcut an event of the keyboard calls. *)

From S2P Require Import Prelude SqlText RegExps ConnectionUrl.
Local Open Scope nat_scope.

Inductive ShortcutScope := ScopeGlobal | ScopeSqlEditor | ScopeLocalSqlFileTree | ScopeDatabaseTree | ScopeResultSet | ScopeWorkspace | ScopeTable.

Inductive ShortcutAction :=
  | OpenSetting | ZoomIn | ZoomOut | ZoomReset | SwitchToWorkspace | SwitchToDashboard | SwitchToChat
    | CloseCurrentConsole | NewConsole | ArouseAIAssistant | NewAIChat | WorkspaceTreeSearch | DatabaseTreeOpenTable
    | DatabaseTreeEditTable | DatabaseTreeCreateTable | DatabaseTreeRefresh | LocalSqlFileTreeOpenFolder
    | LocalSqlFileTreeAddFolder | LocalSqlFileTreeOpen | LocalSqlFileTreeRename | LocalSqlFileTreeDelete
    | LocalSqlFileTreeRemoveRoot | LocalSqlFileTreeNewFile | LocalSqlFileTreeNewFolder | LocalSqlFileTreeRefresh
    | LocalSqlFileTreeCollapseAll | LocalSqlFileTreeRevealInFinder | LocalSqlFileTreeOpenTerminal
    | LocalSqlFileTreeCopyPath | LocalSqlFileTreeCopyRelativePath | SqlCopy | SqlPaste | SqlCut | SqlCaseConvert
    | SqlFormat | SqlToggleLineComment | SqlToggleBlockComment | SqlSave | SqlSaveToDesktop | SqlExecuteCurrent
    | SqlExecuteAll | SqlInsertValueHint | SqlOpenEditorSetting | ResultSearch | ResultSubmit | ResultRefresh
    | TableCopy | TablePaste | TableSelectAll.

(** [Object.values(ShortcutAction)]. *)
Definition allActions : list ShortcutAction :=
  [OpenSetting; ZoomIn; ZoomOut; ZoomReset; SwitchToWorkspace; SwitchToDashboard; SwitchToChat; CloseCurrentConsole;
   NewConsole; ArouseAIAssistant; NewAIChat; WorkspaceTreeSearch; DatabaseTreeOpenTable; DatabaseTreeEditTable;
   DatabaseTreeCreateTable; DatabaseTreeRefresh; LocalSqlFileTreeOpenFolder; LocalSqlFileTreeAddFolder;
   LocalSqlFileTreeOpen; LocalSqlFileTreeRename; LocalSqlFileTreeDelete; LocalSqlFileTreeRemoveRoot;
   LocalSqlFileTreeNewFile; LocalSqlFileTreeNewFolder; LocalSqlFileTreeRefresh; LocalSqlFileTreeCollapseAll;
   LocalSqlFileTreeRevealInFinder; LocalSqlFileTreeOpenTerminal; LocalSqlFileTreeCopyPath;
   LocalSqlFileTreeCopyRelativePath; SqlCopy; SqlPaste; SqlCut; SqlCaseConvert; SqlFormat; SqlToggleLineComment;
   SqlToggleBlockComment; SqlSave; SqlSaveToDesktop; SqlExecuteCurrent; SqlExecuteAll; SqlInsertValueHint;
   SqlOpenEditorSetting; ResultSearch; ResultSubmit; ResultRefresh; TableCopy; TablePaste; TableSelectAll].

#[export] Instance ShortcutScope_eq_dec : EqDecision ShortcutScope.
Proof. solve_decision. Defined.
#[export] Instance ShortcutAction_eq_dec : EqDecision ShortcutAction.
Proof. solve_decision. Defined.

Record ShortcutDefinition := mkShortcut {
  action : ShortcutAction; label : jstr; defaultBinding : jstr; scope : ShortcutScope; allowInEditable : bool; canModify : bool;
}.

(** What the user chose for an action: a binding, or [None] for no shortcut. *)
Abbreviation ShortcutOverrides := (list (ShortcutAction * option jstr)).

Fixpoint override (a : ShortcutAction) (o : ShortcutOverrides) : option (option jstr) :=
  match o with [] => None | (a', b) :: o' => if decide (a' = a) then Some b else override a o' end.

Fixpoint setOverride (a : ShortcutAction) (b : option jstr) (o : ShortcutOverrides) : ShortcutOverrides :=
  match o with [] => [(a, b)] | (a', b') :: o' => if decide (a' = a) then (a, b) :: o' else (a', b') :: setOverride a b o' end.

Definition deleteOverride (a : ShortcutAction) (o : ShortcutOverrides) : ShortcutOverrides := filter (λ ab, ab.1 ≠ a) o.

Record EffectiveShortcutConfig := mkEffective { config : ShortcutDefinition; binding : option jstr; disabled : bool; isDefault : bool }.

(** An event of the keyboard. *)
Record KeyboardEvent := mkEvent { code : jstr; key : jstr; metaKey : bool; ctrlKey : bool; altKey : bool; shiftKey : bool }.

(** The signs for the keys of the Mac and for the return key. *)
Definition COMMAND : jstr := [8984]%N.
Definition OPTION : jstr := [8997]%N.
Definition SHIFT : jstr := [8679]%N.
Definition RETURN : jstr := [8629]%N.

(** ** Keys *)

Inductive Modifier := Meta | Ctrl | Alt | Shift.

#[export] Instance Modifier_eq_dec : EqDecision Modifier.
Proof. solve_decision. Defined.

Definition MODIFIER_KEYS : list jstr :=
  [js "control"; js "ctrl"; js "meta"; js "cmd"; js "command"; COMMAND; js "alt"; js "option"; OPTION; js "shift"; SHIFT].

Definition SINGLE_KEY_SHORTCUTS : list jstr :=
  [js "enter"; js "escape"; js "tab"; js "backspace"; js "delete"; js "f1"; js "f2"; js "f3"; js "f4"; js "f5"; js "f6"; js "f7"; js "f8";
   js "f9"; js "f10"; js "f11"; js "f12"].

Definition NON_PRINTABLE_KEY_LABELS : dict jstr :=
  [(js " ", js "Space"); (js "spacebar", js "Space"); (js "escape", js "Escape"); (js "esc", js "Escape"); (js "enter", js "Enter");
   (js "return", js "Enter"); (js "tab", js "Tab"); (js "backspace", js "Backspace"); (js "delete", js "Delete"); (js "arrowup", js "ArrowUp");
   (js "up", js "ArrowUp"); (js "arrowdown", js "ArrowDown"); (js "down", js "ArrowDown"); (js "arrowleft", js "ArrowLeft");
   (js "left", js "ArrowLeft"); (js "arrowright", js "ArrowRight"); (js "right", js "ArrowRight")].

Definition normalizeModifierToken (key : jstr) : option Modifier :=
  let lowerKey := toLowerCase key in
  if includes lowerKey [js "meta"; js "cmd"; js "command"; COMMAND] then Some Meta
  else if includes lowerKey [js "control"; js "ctrl"] then Some Ctrl
  else if includes lowerKey [js "alt"; js "option"; OPTION] then Some Alt
  else if includes lowerKey [js "shift"; SHIFT] then Some Shift
  else None.

(** The labels are read from an object; the names of its own members are no keys. *)
Definition normalizeMainKey (key : jstr) : jstr :=
  let trimmed := trim key in
  match dget (toLowerCase trimmed) NON_PRINTABLE_KEY_LABELS with
  | Some label => label
  | None =>
      if length trimmed =? 1 then toUpperCase trimmed
      else toUpperCase (take 1 trimmed) ++ drop 1 trimmed
  end.

Definition codeMap : dict jstr :=
  [(js "Comma", js ","); (js "Period", js "."); (js "Minus", js "-"); (js "Equal", js "="); (js "Slash", js "/"); (js "Backslash", [BACKSLASH]);
   (js "BracketLeft", js "["); (js "BracketRight", js "]"); (js "Semicolon", js ";"); (js "Quote", js "'"); (js "Backquote", js "`");
   (js "Space", js "Space")].

Definition is_upper (c : N) : bool := ((65 <=? c) && (c <=? 90))%N.

(** [prefix] and one character of a class. *)
Definition prefixed (prefix : jstr) (class : N → bool) (text : jstr) : option jstr :=
  if startsWith prefix text then
    match drop (length prefix) text with [c] => if class c then Some [c] else None | _ => None end
  else None.

Definition getShortcutKeyFromEvent (event : KeyboardEvent) : jstr :=
  match code event with
  | [] => key event
  | _ =>
      match prefixed (js "Key") is_upper (code event) with
      | Some k => k
      | None =>
          match prefixed (js "Digit") is_digit (code event) with
          | Some k => k
          | None => or_else (default [] (dget (code event) codeMap)) (key event)
          end
      end
  end.

(** ** Bindings *)

(** The tokens of a binding. *)
Definition bindingTokens (binding : jstr) : list jstr :=
  List.filter (λ t, negb (bool_decide (t = []))) (trim <$> split_char (ch "+") binding).

Definition mainKeys (binding : jstr) : list jstr :=
  normalizeMainKey <$> List.filter (λ t, negb (bool_decide (is_Some (normalizeModifierToken t)))) (bindingTokens binding).

Definition modifiers (binding : jstr) : list Modifier := omap normalizeModifierToken (bindingTokens binding).

Section platform.
Context (isMac : bool) (userAgent : jstr).

Definition modifierKey : jstr := if isMac then COMMAND else js "Ctrl".
Definition deleteKey : jstr := if isMac then js "Backspace" else js "Delete".

Definition fileManagerName : jstr :=
  let agent := toLowerCase userAgent in
  if existsb (λ p, contains p agent) [js "macintosh"; js "mac os x"; js "iphone"; js "ipad"; js "ipod"] then js "Finder"
  else if existsb (λ p, contains p agent) [js "windows"; js "win32"; js "win64"; js "wow32"; js "wow64"] then js "FileExplorer"
  else js "FileManager".

Definition localSqlFileTreeRevealLabel : jstr := js "setting.shortcut.localSqlFileTreeRevealIn" ++ fileManagerName.

Definition defaultGlobalShortcuts : list ShortcutDefinition :=
  [mkShortcut OpenSetting (js "setting.shortcut.openSetting") (modifierKey ++ js " + 4") ScopeGlobal true true;
   mkShortcut ZoomIn (js "setting.shortcut.zoomIn") (modifierKey ++ js " + =") ScopeGlobal true true;
   mkShortcut ZoomOut (js "setting.shortcut.zoomOut") (modifierKey ++ js " + -") ScopeGlobal true true;
   mkShortcut ZoomReset (js "setting.shortcut.zoomReset") (modifierKey ++ js " + 0") ScopeGlobal true true;
   mkShortcut SwitchToWorkspace (js "setting.shortcut.switchWorkspace") (modifierKey ++ js " + 2") ScopeGlobal true true;
   mkShortcut SwitchToDashboard (js "setting.shortcut.switchDashboard") (modifierKey ++ js " + 3") ScopeGlobal true true;
   mkShortcut SwitchToChat (js "setting.shortcut.switchChat") (modifierKey ++ js " + 1") ScopeGlobal true true;
   mkShortcut CloseCurrentConsole (js "setting.shortcut.closeConsole") (modifierKey ++ js " + W") ScopeGlobal true true;
   mkShortcut NewConsole (js "setting.shortcut.newConsole") (modifierKey ++ js " + T") ScopeGlobal true true;
   mkShortcut ArouseAIAssistant (js "setting.shortcut.arouseAIAssistant") (modifierKey ++ js " + K") ScopeGlobal false true;
   mkShortcut NewAIChat (js "setting.shortcut.newAIChat") (modifierKey ++ js " + L") ScopeGlobal false true].

Definition defaultTreeShortcuts : list ShortcutDefinition :=
  [mkShortcut WorkspaceTreeSearch (js "setting.shortcut.workspaceTreeSearch") (modifierKey ++ js " + F") ScopeWorkspace true true;
   mkShortcut DatabaseTreeOpenTable (js "setting.shortcut.databaseTreeOpenTable") (modifierKey ++ js " + O") ScopeDatabaseTree false true;
   mkShortcut DatabaseTreeEditTable (js "setting.shortcut.databaseTreeEditTable") (modifierKey ++ js " + D") ScopeDatabaseTree false true;
   mkShortcut DatabaseTreeCreateTable (js "setting.shortcut.databaseTreeCreateTable") (modifierKey ++ js " + N") ScopeDatabaseTree false true;
   mkShortcut DatabaseTreeRefresh (js "setting.shortcut.databaseTreeRefresh") (modifierKey ++ js " + R") ScopeDatabaseTree false true].

Definition defaultFileTreeShortcuts : list ShortcutDefinition :=
  [mkShortcut LocalSqlFileTreeOpenFolder (js "setting.shortcut.localSqlFileTreeOpenFolder") (modifierKey ++ js " + O") ScopeLocalSqlFileTree false true;
   mkShortcut LocalSqlFileTreeAddFolder (js "setting.shortcut.localSqlFileTreeAddFolder") (modifierKey ++ js " + Shift + O") ScopeLocalSqlFileTree false true;
   mkShortcut LocalSqlFileTreeOpen (js "setting.shortcut.localSqlFileTreeOpen") (js "Enter") ScopeLocalSqlFileTree false true;
   mkShortcut LocalSqlFileTreeRename (js "setting.shortcut.localSqlFileTreeRename") (js "F2") ScopeLocalSqlFileTree false true;
   mkShortcut LocalSqlFileTreeDelete (js "setting.shortcut.localSqlFileTreeDelete") (deleteKey) ScopeLocalSqlFileTree false true;
   mkShortcut LocalSqlFileTreeRemoveRoot (js "setting.shortcut.localSqlFileTreeRemoveRoot") (modifierKey ++ js " + Shift + " ++ deleteKey) ScopeLocalSqlFileTree false true;
   mkShortcut LocalSqlFileTreeNewFile (js "setting.shortcut.localSqlFileTreeNewFile") (modifierKey ++ js " + N") ScopeLocalSqlFileTree false true;
   mkShortcut LocalSqlFileTreeNewFolder (js "setting.shortcut.localSqlFileTreeNewFolder") (modifierKey ++ js " + Shift + N") ScopeLocalSqlFileTree false true;
   mkShortcut LocalSqlFileTreeRefresh (js "setting.shortcut.localSqlFileTreeRefresh") (modifierKey ++ js " + R") ScopeLocalSqlFileTree false true;
   mkShortcut LocalSqlFileTreeCollapseAll (js "setting.shortcut.localSqlFileTreeCollapseAll") (modifierKey ++ js " + Shift + C") ScopeLocalSqlFileTree false true;
   mkShortcut LocalSqlFileTreeRevealInFinder (localSqlFileTreeRevealLabel) (modifierKey ++ js " + Alt + R") ScopeLocalSqlFileTree false true;
   mkShortcut LocalSqlFileTreeOpenTerminal (js "setting.shortcut.localSqlFileTreeOpenTerminal") (modifierKey ++ js " + Alt + T") ScopeLocalSqlFileTree false true;
   mkShortcut LocalSqlFileTreeCopyPath (js "setting.shortcut.localSqlFileTreeCopyPath") (modifierKey ++ js " + Alt + C") ScopeLocalSqlFileTree false true;
   mkShortcut LocalSqlFileTreeCopyRelativePath (js "setting.shortcut.localSqlFileTreeCopyRelativePath") (modifierKey ++ js " + Shift + Alt + C") ScopeLocalSqlFileTree false true].

Definition defaultSqlShortcuts : list ShortcutDefinition :=
  [mkShortcut SqlCopy (js "setting.shortcut.sqlCopy") (modifierKey ++ js " + C") ScopeSqlEditor true true;
   mkShortcut SqlPaste (js "setting.shortcut.sqlPaste") (modifierKey ++ js " + V") ScopeSqlEditor true true;
   mkShortcut SqlCut (js "setting.shortcut.sqlCut") (modifierKey ++ js " + X") ScopeSqlEditor true true;
   mkShortcut SqlCaseConvert (js "setting.shortcut.sqlCaseConvert") (modifierKey ++ js " + Shift + U") ScopeSqlEditor true true;
   mkShortcut SqlFormat (js "setting.shortcut.sqlFormat") (modifierKey ++ js " + L") ScopeSqlEditor true true;
   mkShortcut SqlToggleLineComment (js "setting.shortcut.sqlToggleLineComment") (modifierKey ++ js " + /") ScopeSqlEditor true true;
   mkShortcut SqlToggleBlockComment (js "setting.shortcut.sqlToggleBlockComment") (modifierKey ++ js " + Shift + /") ScopeSqlEditor true true;
   mkShortcut SqlSave (js "setting.shortcut.sqlSave") (modifierKey ++ js " + S") ScopeSqlEditor true true;
   mkShortcut SqlSaveToDesktop (js "setting.shortcut.sqlSaveToDesktop") (modifierKey ++ js " + Shift + S") ScopeSqlEditor true true;
   mkShortcut SqlExecuteCurrent (js "setting.shortcut.sqlExecuteCurrent") (modifierKey ++ js " + Enter") ScopeSqlEditor true true;
   mkShortcut SqlExecuteAll (js "setting.shortcut.sqlExecuteAll") (modifierKey ++ js " + R") ScopeSqlEditor true true;
   mkShortcut SqlInsertValueHint (js "setting.shortcut.sqlInsertValueHint") (modifierKey ++ js " + P") ScopeSqlEditor true true;
   mkShortcut SqlOpenEditorSetting (js "setting.shortcut.sqlOpenEditorSetting") (modifierKey ++ js " + Shift + ,") ScopeSqlEditor true true].

Definition defaultResultShortcuts : list ShortcutDefinition :=
  [mkShortcut ResultSearch (js "setting.shortcut.resultSearch") (modifierKey ++ js " + F") ScopeResultSet true true;
   mkShortcut ResultSubmit (js "setting.shortcut.resultSubmit") (modifierKey ++ js " + S") ScopeResultSet true true;
   mkShortcut ResultRefresh (js "setting.shortcut.resultRefresh") (modifierKey ++ js " + R") ScopeResultSet true true;
   mkShortcut TableCopy (js "setting.shortcut.tableCopy") (modifierKey ++ js " + C") ScopeTable true true;
   mkShortcut TablePaste (js "setting.shortcut.tablePaste") (modifierKey ++ js " + V") ScopeTable true true;
   mkShortcut TableSelectAll (js "setting.shortcut.tableSelectAll") (modifierKey ++ js " + A") ScopeTable true true].

Definition DEFAULT_SHORTCUT_CONFIG : list ShortcutDefinition :=
  defaultGlobalShortcuts ++ defaultTreeShortcuts ++ defaultFileTreeShortcuts ++ defaultSqlShortcuts ++ defaultResultShortcuts.

Definition defaultConfig (a : ShortcutAction) : option ShortcutDefinition :=
  List.find (λ d, bool_decide (action d = a)) DEFAULT_SHORTCUT_CONFIG.

Definition MODIFIER_ORDER : list Modifier := if isMac then [Meta; Ctrl; Alt; Shift] else [Ctrl; Meta; Alt; Shift].

Definition modifierLabel (m : Modifier) : jstr :=
  match m with Meta => if isMac then COMMAND else js "Ctrl" | Ctrl => js "Ctrl" | Alt => js "Alt" | Shift => js "Shift" end.

Definition modifierLabels (binding : jstr) : list jstr :=
  modifierLabel <$> List.filter (λ m, includes m (modifiers binding)) MODIFIER_ORDER.

Definition normalizeShortcutBinding (binding : option jstr) : option jstr :=
  match binding with
  | None | Some [] => None
  | Some b =>
      match mainKeys b with
      | [] => None
      | mains => Some (join (js " + ") (modifierLabels b ++ mains))
      end
  end.

Definition getEventShortcutBinding (event : KeyboardEvent) : option jstr :=
  let k := getShortcutKeyFromEvent event in
  if bool_decide (k = []) || includes (toLowerCase k) MODIFIER_KEYS then None
  else
    let keys := (if metaKey event then [js "meta"] else if ctrlKey event then [js "ctrl"] else []) ++
                (if altKey event then [js "alt"] else []) ++ (if shiftKey event then [js "shift"] else []) ++ [k] in
    normalizeShortcutBinding (Some (join (js " + ") keys)).

Definition isShortcutBindingEqual (left right : option jstr) : bool :=
  bool_decide (normalizeShortcutBinding left = normalizeShortcutBinding right).

Definition isShortcutEventMatch (event : KeyboardEvent) (binding : option jstr) : bool :=
  match normalizeShortcutBinding binding with
  | None => false
  | normalized => bool_decide (getEventShortcutBinding event = normalized)
  end.

Definition getEffectiveShortcutConfig (d : ShortcutDefinition) (overrides : ShortcutOverrides) : EffectiveShortcutConfig :=
  let binding := match override (action d) overrides with
                 | Some o => normalizeShortcutBinding o
                 | None => Some (defaultBinding d)
                 end in
  mkEffective d binding (bool_decide (binding = None))
    (bool_decide (override (action d) overrides = None) || isShortcutBindingEqual binding (Some (defaultBinding d))).

(** The actions in their order, with their effective shortcuts. *)
Definition getEffectiveShortcutConfigMap (overrides : ShortcutOverrides) : list EffectiveShortcutConfig :=
  omap (λ a, (λ d, getEffectiveShortcutConfig d overrides) <$> defaultConfig a) allActions.

Definition effective (a : ShortcutAction) (configs : list EffectiveShortcutConfig) : option EffectiveShortcutConfig :=
  List.find (λ c, bool_decide (action (config c) = a)) configs.

Definition getShortcutOverrideValue (a : ShortcutAction) (binding : option jstr) : option (option jstr) :=
  let normalizedBinding := normalizeShortcutBinding binding in
  if isShortcutBindingEqual normalizedBinding (defaultBinding <$> defaultConfig a) then None else Some normalizedBinding.

(** [text.split(sep)]. *)
Fixpoint splitText (sep : jstr) (skip : nat) (current : jstr) (text : jstr) : list jstr :=
  match text with
  | [] => [current]
  | c :: rest =>
      match skip with
      | S n => splitText sep n current rest
      | O => if startsWith sep text then current :: splitText sep (length sep - 1) [] rest else splitText sep 0 (current ++ [c]) rest
      end
  end.

Definition getShortcutLabel (binding : option jstr) : jstr :=
  match normalizeShortcutBinding binding with
  | None => []
  | Some normalized =>
      join (if isMac then [] else js "+")
        ((λ k, if bool_decide (k = js "Shift") then (if isMac then SHIFT else js "Shift")
               else if bool_decide (k = js "Alt") then (if isMac then OPTION else js "Alt")
               else if bool_decide (k = js "Enter") then RETURN else k) <$> splitText (js " + ") 0 [] normalized)
  end.

(** The numbers of the editor for keys and modifiers. *)
Record Monaco := mkMonaco { CtrlCmd : Z; ShiftMod : Z; AltMod : Z; KeyCode : jstr → option Z }.

Definition keyCodeNames : dict jstr :=
  [(js "Enter", js "Enter"); (js "Escape", js "Escape"); (js "Tab", js "Tab"); (js "Space", js "Space"); (js ",", js "Comma"); (js ".", js "Period");
   (js "-", js "Minus"); (js "=", js "Equal"); (js "/", js "Slash"); ([BACKSLASH], js "Backslash"); (js "[", js "BracketLeft");
   (js "]", js "BracketRight"); (js ";", js "Semicolon"); (js "'", js "Quote"); (js "`", js "Backquote")].

(** One key of a binding for the editor: the modifiers and the key so far. *)
Definition monacoKey (monaco : Monaco) (kc : Z * option Z) (k : jstr) : Z * option Z :=
  let '(keybinding, keyCode) := kc in
  if bool_decide (k = COMMAND) || bool_decide (k = js "Ctrl") then (Z.lor keybinding (CtrlCmd monaco), keyCode)
  else if bool_decide (k = js "Shift") then (Z.lor keybinding (ShiftMod monaco), keyCode)
  else if bool_decide (k = js "Alt") then (Z.lor keybinding (AltMod monaco), keyCode)
  else
    (keybinding,
     match k with
     | [c] => if is_upper c then KeyCode monaco (js "Key" ++ k)
              else if is_digit c then KeyCode monaco (js "Digit" ++ k)
              else n ← dget k keyCodeNames; KeyCode monaco n
     | _ => n ← dget k keyCodeNames; KeyCode monaco n
     end).

Definition shortcutBindingToMonacoKeybinding (binding : option jstr) (monaco : Monaco) : option Z :=
  normalized ← normalizeShortcutBinding binding;
  let '(keybinding, keyCode) := fold_left (monacoKey monaco) (splitText (js " + ") 0 [] normalized) (0%Z, None) in
  match keyCode with
  | None | Some 0%Z => None
  | Some n => Some (Z.lor keybinding n)
  end.

(** ** Dispatch *)

Inductive ShortcutDispatchResolution := Global (a : ShortcutAction) | WorkspaceSave.

Definition matchesIn (event : KeyboardEvent) (s : ShortcutScope) (c : EffectiveShortcutConfig) : bool :=
  bool_decide (scope (config c) = s) && negb (disabled c) && isShortcutEventMatch event (binding c).

Definition resolveShortcutDispatch (event : KeyboardEvent) (shortcutConfig : list EffectiveShortcutConfig)
    (activeScope : option ShortcutScope) (editableTarget workspaceSaveAllowed : bool) : option ShortcutDispatchResolution :=
  match (s ← activeScope; List.find (matchesIn event s) shortcutConfig) with
  | Some _ => None
  | None =>
      match List.find (matchesIn event ScopeGlobal) shortcutConfig with
      | Some globalShortcut =>
          if editableTarget && negb (allowInEditable (config globalShortcut)) then None
          else Some (Global (action (config globalShortcut)))
      | None =>
          match effective SqlSave shortcutConfig with
          | Some saveShortcut =>
              if negb editableTarget && workspaceSaveAllowed && negb (disabled saveShortcut) && isShortcutEventMatch event (binding saveShortcut)
              then Some WorkspaceSave else None
          | None => None
          end
      end
  end.

(** The zoom is left to the browser outside the desktop client. *)
Definition prepareGlobalShortcutHandling (a : ShortcutAction) (canHandleWebFrameZoom : bool) : bool :=
  negb (includes a [ZoomIn; ZoomOut; ZoomReset] && negb canHandleWebFrameZoom).

(** What may be captured as a shortcut. *)
Definition isShortcutCaptureAllowed (pressedKeys : list jstr) : bool :=
  let keys := toLowerCase <$> pressedKeys in
  let hasModifierKey := existsb (λ k, includes k MODIFIER_KEYS) keys in
  let isAllowedSingleKey := match keys with [k] => includes k SINGLE_KEY_SHORTCUTS | _ => false end in
  isAllowedSingleKey || (1 <? length keys) && hasModifierKey.
End platform.

(** ** Normal forms *)

(** A key of a normal form: without plus sign and not surrounded by white space. *)
Definition keyLike (k : jstr) : Prop := solid k ∧ ch "+" ∉ k.

Lemma keyLike_check k : match k, reverse k with c :: _, d :: _ => negb (is_space c) && negb (is_space d) && negb (includes (ch "+") k) | _, _ => false end = true → keyLike k.
Proof.
  destruct k as [|c k]; [done|]. destruct (c :: k) as [|d k' _] eqn:E using rev_ind; [done|]. rewrite reverse_snoc.
  intros [[Hc Hd]%andb_true_iff Hp]%andb_true_iff. apply negb_true_iff in Hc, Hd, Hp. apply includes_false in Hp. split; [|done].
  split; [rewrite <- E; by exists c, k|by exists k', d].
Qed.

Lemma join_cons sep k k' ks : join sep (k :: k' :: ks) = k ++ sep ++ join sep (k' :: ks).
Proof. done. Qed.

Lemma trim_around sp k sp' : blank sp → blank sp' → keyLike k → trim (sp ++ k ++ sp') = k.
Proof. intros Hs Hs' [Hk _]. by apply trim_solid. Qed.

Lemma blank_space : blank (js " ").
Proof. repeat constructor. Qed.

Lemma trim_pieces ks : ∀ sp,
  ks ≠ [] → Forall keyLike ks → blank sp → ch "+" ∉ sp → trim <$> split_char (ch "+") (sp ++ join (js " + ") ks) = ks.
Proof.
  induction ks as [|k ks IH]; [done|]. intros sp _ [Hk Hks]%Forall_cons Hsp Hp. destruct ks as [|k' ks].
  - cbn [join]. rewrite split_char_one by (rewrite not_elem_of_app; split; [done|apply Hk]).
    cbn. rewrite <- (app_nil_r k) at 1. by rewrite trim_around by (done || constructor).
  - rewrite join_cons. change (js " + ") with (js " " ++ ch "+" :: js " ") at 1. rewrite <- (assoc_L (++)).
    change ((ch "+" :: js " ") ++ ?x) with (ch "+" :: (js " " ++ x)).
    rewrite !(assoc_L (++) sp), (assoc_L (++) (sp ++ k)). rewrite split_char_before.
    + rewrite fmap_cons. f_equal; [rewrite <- (assoc_L (++)); by apply trim_around, Hk; [|apply blank_space]|].
      apply IH; [done|done|apply blank_space|by apply (bool_decide_unpack _)].
    + rewrite !not_elem_of_app. split_and!; [done|apply Hk|by apply (bool_decide_unpack _)].
Qed.

Lemma keyLike_nonempty k : keyLike k → k ≠ [].
Proof. by intros [[(c & t & -> & _) _] _]. Qed.

Lemma tokens_join ks : ks ≠ [] → Forall keyLike ks → bindingTokens (join (js " + ") ks) = ks.
Proof.
  intros Hne Hks. unfold bindingTokens. pose proof (trim_pieces ks [] Hne Hks) as E. cbn [app] in E. rewrite E; [|constructor|by apply not_elem_of_nil].
  apply list_filter_all. intros k Hk. rewrite Forall_forall in Hks. rewrite bool_decide_eq_false_2; [done|]. by apply keyLike_nonempty, Hks.
Qed.

Lemma token_keyLike b t : t ∈ bindingTokens b → keyLike t.
Proof.
  unfold bindingTokens. intros Ht%list_elem_of_In%filter_In. destruct Ht as [Ht%list_elem_of_In Hne].
  apply negb_true_iff, bool_decide_eq_false in Hne. apply list_elem_of_fmap in Ht as (p & -> & Hp). split; [by apply solid_trim|].
  intros Hin%trim_elem. pose proof (split_char_no_sep (ch "+") b) as Hall. rewrite Forall_forall in Hall. by apply (Hall p).
Qed.

(** *** Letters *)

Lemma is_space_upper c : is_space (upper_char c) = is_space c.
Proof.
  unfold upper_char. destruct ((97 <=? c) && (c <=? 122))%N eqn:E; [|done]. apply andb_true_iff in E as [H1%N.leb_le H2%N.leb_le].
  assert (is_space c = false ∧ is_space (c - 32) = false) as [-> ->]; [|done].
  unfold is_space. repeat rewrite orb_false_iff. rewrite !andb_false_iff, !N.eqb_neq, !N.leb_gt. lia.
Qed.

Lemma lower_upper c : lower_char (upper_char c) = lower_char c.
Proof.
  unfold upper_char. destruct ((97 <=? c) && (c <=? 122))%N eqn:E; [|done]. apply andb_true_iff in E as [H1%N.leb_le H2%N.leb_le].
  unfold lower_char. rewrite (proj2 (N.leb_le 65 (c - 32))), (proj2 (N.leb_le (c - 32) 90)) by lia. cbn [andb].
  rewrite (proj2 (N.leb_gt c 90)) by lia. rewrite andb_false_r. lia.
Qed.

Lemma upper_upper c : upper_char (upper_char c) = upper_char c.
Proof.
  unfold upper_char at 2 3. destruct ((97 <=? c) && (c <=? 122))%N eqn:E; [|unfold upper_char; by rewrite E].
  apply andb_true_iff in E as [H1%N.leb_le H2%N.leb_le]. unfold upper_char. by rewrite (proj2 (N.leb_gt 97 (c - 32))) by lia.
Qed.

Lemma upper_plus c : upper_char c = ch "+" → c = ch "+".
Proof. unfold upper_char, ch. cbn. case_match eqn:E; [|done]. apply andb_true_iff in E as [H1%N.leb_le H2%N.leb_le]. lia. Qed.

(** The first character in upper case; for a text of one character this is all. *)
Definition capitalized (t : jstr) : jstr := toUpperCase (take 1 t) ++ drop 1 t.

Lemma capitalized_cons c t : capitalized (c :: t) = upper_char c :: t.
Proof. done. Qed.

Lemma capitalized_keyLike t : keyLike t → keyLike (capitalized t).
Proof.
  intros [[(c & t' & -> & Hc) (u & d & Ht & Hd)] Hp]. rewrite capitalized_cons. split; [split|].
  - exists (upper_char c), t'. by rewrite is_space_upper.
  - destruct u as [|c' u]; injection Ht as -> ->; [exists [], (upper_char d); by rewrite is_space_upper|by exists (upper_char c' :: u), d].
  - apply not_elem_of_cons in Hp as [Hne Hp]. apply not_elem_of_cons. split; [|done]. intros E. symmetry in E. apply upper_plus in E. congruence.
Qed.

Lemma lower_capitalized t : toLowerCase (capitalized t) = toLowerCase t.
Proof. destruct t as [|c t]; [done|]. rewrite capitalized_cons. unfold toLowerCase. by rewrite !fmap_cons, lower_upper. Qed.

Lemma capitalized_idem t : capitalized (capitalized t) = capitalized t.
Proof. destruct t as [|c t]; [done|]. rewrite !capitalized_cons. by rewrite upper_upper. Qed.

(** *** Main keys *)

Lemma normalizeMainKey_eq t :
  keyLike t → normalizeMainKey t = match dget (toLowerCase t) NON_PRINTABLE_KEY_LABELS with Some l => l | None => capitalized t end.
Proof.
  intros [Ht _]. unfold normalizeMainKey. rewrite trim_solid_id by done. case_match; [done|].
  destruct Ht as [(c & t' & -> & _) _]. destruct t'; done.
Qed.

Lemma labels_normal :
  Forall (λ kl, keyLike kl.2 ∧ normalizeModifierToken kl.2 = None ∧ normalizeMainKey kl.2 = kl.2) NON_PRINTABLE_KEY_LABELS.
Proof. repeat (apply Forall_cons_2; [split_and!; [by apply keyLike_check|reflexivity..]|]). apply Forall_nil_2. Qed.

Lemma normalizeMainKey_normal t :
  keyLike t → normalizeModifierToken t = None →
  keyLike (normalizeMainKey t) ∧ normalizeModifierToken (normalizeMainKey t) = None ∧ normalizeMainKey (normalizeMainKey t) = normalizeMainKey t.
Proof.
  intros Ht Hm. rewrite (normalizeMainKey_eq t) by done. destruct (dget (toLowerCase t) NON_PRINTABLE_KEY_LABELS) as [l|] eqn:El.
  - pose proof labels_normal as H. rewrite Forall_forall in H. apply dget_Some_elem, H in El. exact El.
  - pose proof (capitalized_keyLike t Ht) as Hc. split_and!; [done| |].
    + unfold normalizeModifierToken in *. by rewrite lower_capitalized.
    + rewrite normalizeMainKey_eq by done. by rewrite lower_capitalized, El, capitalized_idem.
Qed.

Definition normalMain (k : jstr) : Prop := keyLike k ∧ normalizeModifierToken k = None ∧ normalizeMainKey k = k.

Lemma mainKeys_normal b : Forall normalMain (mainKeys b).
Proof.
  unfold mainKeys. rewrite Forall_fmap, Forall_forall. intros t Ht%list_elem_of_In%filter_In. destruct Ht as [Ht%list_elem_of_In Hm].
  apply negb_true_iff, bool_decide_eq_false in Hm. apply normalizeMainKey_normal; [by eapply token_keyLike|].
  destruct (normalizeModifierToken t); [|done]. by destruct Hm; eexists.
Qed.

Lemma mains_no_modifier ks : Forall normalMain ks → omap normalizeModifierToken ks = [].
Proof. induction 1 as [|k ks (_ & Hk & _) _ IH]; [done|]. cbn. by rewrite Hk. Qed.

Lemma mains_again ks :
  Forall normalMain ks →
  normalizeMainKey <$> List.filter (λ t, negb (bool_decide (is_Some (normalizeModifierToken t)))) ks = ks.
Proof.
  intros Hks. rewrite list_filter_all.
  - induction Hks as [|k ks (_ & _ & Hk) _ IH]; [done|]. rewrite fmap_cons, Hk. by f_equal.
  - intros k Hk. rewrite Forall_forall in Hks. destruct (Hks k Hk) as (_ & Hm & _). rewrite Hm. by rewrite bool_decide_eq_false_2 by (by intros []).
Qed.

Section normal.
Context (isMac : bool).

Notation normalize := (normalizeShortcutBinding isMac).

Lemma labels_keyLike b : Forall keyLike (modifierLabels isMac b).
Proof.
  unfold modifierLabels. rewrite Forall_fmap, Forall_forall. intros m _. destruct m, isMac; by apply keyLike_check.
Qed.

Lemma label_token m : normalizeModifierToken (modifierLabel isMac m) = Some (match m with Meta => if isMac then Meta else Ctrl | _ => m end).
Proof. destruct m, isMac; reflexivity. Qed.

Lemma normalize_parts b n :
  normalize (Some b) = Some n → n = join (js " + ") (modifierLabels isMac b ++ mainKeys b) ∧ mainKeys b ≠ [].
Proof. unfold normalizeShortcutBinding. destruct b; [done|]. case_match; [done|]. by intros [= <-]. Qed.

Lemma normalize_tokens b n : normalize (Some b) = Some n → bindingTokens n = modifierLabels isMac b ++ mainKeys b.
Proof.
  intros [-> Hne]%normalize_parts. apply tokens_join.
  - by intros [_ ?]%app_eq_nil.
  - apply Forall_app. split; [apply labels_keyLike|]. eapply Forall_impl; [apply mainKeys_normal|]. by intros k (? & _).
Qed.

Lemma normalize_mains b n : normalize (Some b) = Some n → mainKeys n = mainKeys b.
Proof.
  intros Hn. unfold mainKeys at 1. rewrite (normalize_tokens b n) by done. rewrite List.filter_app, fmap_app.
  rewrite (mains_again (mainKeys b)) by apply mainKeys_normal.
  assert (List.filter (λ t, negb (bool_decide (is_Some (normalizeModifierToken t)))) (modifierLabels isMac b) = []) as ->; [|done].
  unfold modifierLabels. induction (List.filter (λ m, includes m (modifiers b)) (MODIFIER_ORDER isMac)) as [|m ms IH]; [done|].
  rewrite fmap_cons. cbn [List.filter].
  rewrite label_token, bool_decide_eq_true_2 by (by eexists). done.
Qed.

Lemma normalize_modifiers b n :
  normalize (Some b) = Some n →
  modifiers n = (λ m, match m with Meta => if isMac then Meta else Ctrl | _ => m end) <$> List.filter (λ m, includes m (modifiers b)) (MODIFIER_ORDER isMac).
Proof.
  intros Hn. unfold modifiers at 1. rewrite (normalize_tokens b n) by done. rewrite omap_app, (mains_no_modifier (mainKeys b)) by apply mainKeys_normal.
  rewrite app_nil_r. unfold modifierLabels. induction (List.filter (λ m, includes m (modifiers b)) (MODIFIER_ORDER isMac)) as [|m ms IH]; [done|].
  rewrite !fmap_cons. cbn [omap list_omap].
  rewrite label_token. by f_equal.
Qed.

(** A binding with both the command and the control key has no label for the first outside the Mac. *)
Definition bothControls (b : jstr) : bool := negb isMac && includes Meta (modifiers b) && includes Ctrl (modifiers b).

Lemma normalize_again b n :
  normalize (Some b) = Some n → bothControls b = false → normalize (Some n) = Some n.
Proof.
  intros Hn Hb. destruct (normalize_parts b n Hn) as [En Hne]. unfold normalizeShortcutBinding.
  assert (n ≠ []) as Hnn.
  { intros ->. pose proof (normalize_tokens b [] Hn) as E. change (bindingTokens []) with (@nil jstr) in E. symmetry in E. apply app_eq_nil in E as [_ ?]. done. }
  destruct n as [|c n']; [done|]. set (n := c :: n') in *. clearbody n. rewrite (normalize_mains b n Hn).
  assert (modifierLabels isMac n = modifierLabels isMac b) as ->; [|rewrite En; by destruct (mainKeys b)].
  unfold modifierLabels. rewrite (normalize_modifiers b n Hn). unfold bothControls, MODIFIER_ORDER in *. destruct isMac; cbn [List.filter negb andb] in *;
    destruct (includes Meta (modifiers b)), (includes Ctrl (modifiers b)), (includes Alt (modifiers b)), (includes Shift (modifiers b)); first [discriminate Hb|reflexivity].
Qed.

Lemma normalize_one_control b n : normalize (Some b) = Some n → bothControls n = false.
Proof.
  intros Hn. unfold bothControls. rewrite (normalize_modifiers b n Hn). unfold MODIFIER_ORDER. destruct isMac; cbn [List.filter];
    destruct (includes Meta (modifiers b)), (includes Ctrl (modifiers b)), (includes Alt (modifiers b)), (includes Shift (modifiers b)); reflexivity.
Qed.
End normal.
