(* ===== verification/ShortcutSettings.v ===== *)
(** * ShortcutSettings: the user changes shortcuts

    Models [blocks/Setting/ShortcutSetting] with its [ShortcutInput], the shortcuts
    of [store/global/slices/settings/action.ts] and the handling of keys by
    [utils/shortcutManager.ts], on top of [Shortcuts]. *)

From S2P Require Import Prelude StableSort SqlText RegExps ConnectionUrl Shortcuts.
Local Open Scope nat_scope.

Section settings.
Context (isMac : bool) (userAgent : jstr).

Notation normalize := (normalizeShortcutBinding isMac).
Notation shortcutConfig o := (getEffectiveShortcutConfigMap isMac userAgent o).
Notation eventBinding := (getEventShortcutBinding isMac).

(** ** The input *)

(** [keysPressed], [pendingShortcutRef] and [displayValue]. *)
Record Input := mkInput { keysPressed : list jstr; pendingShortcut : jstr; displayValue : jstr }.

Definition normalizedOr (value : option jstr) : jstr := default [] (normalize value).

(** The effect of a value, also when the input is first shown. *)
Definition valueChanged (value : option jstr) (i : Input) : Input := mkInput (keysPressed i) (default [] value) (normalizedOr value).

Definition newInput (value : option jstr) : Input := valueChanged value (mkInput [] [] []).

Definition modifierRank (k : jstr) : nat :=
  if includes k [js "meta"; js "control"] then 1 else if bool_decide (k = js "alt") then 2 else if bool_decide (k = js "shift") then 3 else 999.

Definition keySymbol (k : jstr) : jstr :=
  if bool_decide (k = js "meta") then COMMAND else if bool_decide (k = js "control") then js "Ctrl"
  else if bool_decide (k = js "alt") then js "Alt" else if bool_decide (k = js "shift") then js "Shift"
  else toUpperCase (take 1 k) ++ drop 1 k.

Definition addKey (k : jstr) (keys : list jstr) : list jstr := if decide (k ∈ keys) then keys else keys ++ [k].

Definition inputKeyDown (e : KeyboardEvent) (i : Input) : Input :=
  let keys := addKey (toLowerCase (key e)) (keysPressed i) in
  match eventBinding e with
  | Some binding => mkInput keys binding binding
  | None =>
      let shortcut := join (js " + ") (keySymbol <$> stable_sort (λ a b, modifierRank a <=? modifierRank b) keys) in
      let normalizedShortcut := or_else (normalizedOr (Some shortcut)) shortcut in
      mkInput keys normalizedShortcut normalizedShortcut
  end.

(** The second part is the value given to [onChange]. *)
Definition inputKeyUp (value : option jstr) (i : Input) : Input * option jstr :=
  match keysPressed i with
  | [] => (i, None)
  | keys =>
      if negb (isShortcutCaptureAllowed keys) then (mkInput [] (default [] value) (normalizedOr value), None)
      else
        (mkInput [] (pendingShortcut i) (displayValue i),
         match normalize (Some (pendingShortcut i)) with
         | Some v => if bool_decide (Some v = value) then None else Some v
         | None => None
         end)
  end.

(** ** The settings *)

Definition truthyText (b : option jstr) : bool := match b with None | Some [] => false | _ => true end.

Definition validateShortcut (record : EffectiveShortcutConfig) (newValue : jstr) (o : ShortcutOverrides) : bool :=
  negb (existsb (λ item, negb (bool_decide (action (config item) = action (config record))) &&
                         bool_decide (scope (config item) = scope (config record)) && truthyText (binding item) &&
                         isShortcutBindingEqual isMac (binding item) (Some newValue)) (shortcutConfig o)).

Definition updateShortcutConfig (a : ShortcutAction) (value : option jstr) (o : ShortcutOverrides) : ShortcutOverrides :=
  match getShortcutOverrideValue isMac userAgent a (normalize value) with
  | Some b => setOverride a b o
  | None => deleteOverride a o
  end.

Definition resetShortcutConfig (a : ShortcutAction) (o : ShortcutOverrides) : ShortcutOverrides := deleteOverride a o.

Definition resetAllShortcutConfig : ShortcutOverrides := [].

(** The input of the shortcut gave a value. *)
Definition shortcutCaptured (d : ShortcutDefinition) (newValue : jstr) (o : ShortcutOverrides) : ShortcutOverrides :=
  if validateShortcut (getEffectiveShortcutConfig isMac d o) newValue o then updateShortcutConfig (action d) (Some newValue) o else o.

(** ** Keys in the window *)

(** What a shortcut does. *)
Inductive ShortcutEffect :=
  | SwitchToNav (nav : jstr) | Zoom (type : jstr) | ActionConsole (what : jstr) | ToggleAIAssistant | StartAIChat | SaveActiveTab | Unknown.

Definition handleShortcut (a : ShortcutAction) : ShortcutEffect :=
  match a with
  | OpenSetting => SwitchToNav (js "setting")
  | ZoomIn => Zoom (js "in")
  | ZoomOut => Zoom (js "out")
  | ZoomReset => Zoom (js "reset")
  | SwitchToWorkspace => SwitchToNav (js "workspace")
  | SwitchToDashboard => SwitchToNav (js "dashboard")
  | SwitchToChat => SwitchToNav (js "stream")
  | CloseCurrentConsole => ActionConsole (js "delete")
  | NewConsole => ActionConsole (js "create")
  | ArouseAIAssistant => ToggleAIAssistant
  | NewAIChat => StartAIChat
  | _ => Unknown
  end.

(** [handleKeyDown]; the flag says whether the default of the browser is prevented. *)
Definition windowKeyDown (e : KeyboardEvent) (o : ShortcutOverrides) (activeScope : option ShortcutScope)
    (editableTarget workspaceSaveAllowed canHandleWebFrameZoom : bool) : bool * option ShortcutEffect :=
  match resolveShortcutDispatch isMac e (shortcutConfig o) activeScope editableTarget workspaceSaveAllowed with
  | None => (false, None)
  | Some WorkspaceSave => (true, Some SaveActiveTab)
  | Some (Global a) => if prepareGlobalShortcutHandling a canHandleWebFrameZoom then (true, Some (handleShortcut a)) else (false, None)
  end.

(** ** Events of the keyboard *)

(** The key of an event as keyboards send it: a plus sign, or a text without one and
    without white space around it. *)
Definition keyOk (e : KeyboardEvent) : Prop := keyLike (getShortcutKeyFromEvent e) ∨ getShortcutKeyFromEvent e = js "+".

Lemma not_modifier k : includes (toLowerCase k) MODIFIER_KEYS = false → normalizeModifierToken k = None.
Proof.
  intros Hk%includes_false. unfold normalizeModifierToken, MODIFIER_KEYS in *. rewrite !not_elem_of_cons in Hk.
  repeat (case_match; [match goal with H : includes _ _ = true |- _ => apply includes_true in H; rewrite !elem_of_cons, elem_of_nil in H; tauto end|]).
  done.
Qed.

Definition heldModifiers (e : KeyboardEvent) : list jstr :=
  (if metaKey e then [js "meta"] else if ctrlKey e then [js "ctrl"] else []) ++
  (if altKey e then [js "alt"] else []) ++ (if shiftKey e then [js "shift"] else []).

Lemma eventBinding_eq e b :
  eventBinding e = Some b →
  normalize (Some (join (js " + ") (heldModifiers e ++ [getShortcutKeyFromEvent e]))) = Some b ∧
  normalizeModifierToken (getShortcutKeyFromEvent e) = None.
Proof.
  unfold getEventShortcutBinding, heldModifiers. destruct (_ || _) eqn:E; [done|]. apply orb_false_iff in E as [_ E%not_modifier].
  rewrite <- !(assoc_L (++)). done.
Qed.

Lemma event_normal e b : keyOk e → eventBinding e = Some b → normalize (Some b) = Some b.
Proof.
  intros Hk (Hb & Hm)%eventBinding_eq. eapply normalize_again; [exact Hb|].
  destruct Hk as [Hk|Hk].
  - unfold bothControls. assert (modifiers (join (js " + ") (heldModifiers e ++ [getShortcutKeyFromEvent e])) = omap normalizeModifierToken (heldModifiers e)) as ->.
    { unfold modifiers. rewrite tokens_join; [rewrite omap_app; cbn; by rewrite Hm, app_nil_r|by intros [_ ?]%app_eq_nil|].
      apply Forall_app. split; [|by apply Forall_singleton].
      unfold heldModifiers. destruct (metaKey e), (ctrlKey e), (altKey e), (shiftKey e); cbn [app];
        repeat first [apply Forall_nil_2|apply Forall_cons_2; [by apply keyLike_check|]]. }
    unfold heldModifiers. destruct isMac, (metaKey e), (ctrlKey e), (altKey e), (shiftKey e); reflexivity.
  - exfalso. rewrite Hk in Hb. clear Hm Hk. unfold heldModifiers in Hb. destruct (metaKey e), (ctrlKey e), (altKey e), (shiftKey e); vm_compute in Hb; discriminate.
Qed.

(** ** Effective bindings *)

Lemma all_actions a : a ∈ allActions.
Proof. apply (bool_decide_unpack _). destruct a; vm_compute; exact I. Qed.

Lemma defaultConfig_action a d : defaultConfig isMac userAgent a = Some d → action d = a ∧ d ∈ DEFAULT_SHORTCUT_CONFIG isMac userAgent.
Proof. unfold defaultConfig. intros [Hin Ha%bool_decide_eq_true]%find_some. by rewrite <- list_elem_of_In in Hin. Qed.

(** Every action has one default. *)
Lemma default_actions : action <$> DEFAULT_SHORTCUT_CONFIG isMac userAgent = allActions.
Proof. reflexivity. Qed.

Lemma allActions_NoDup : NoDup allActions.
Proof. apply (bool_decide_unpack _). vm_compute. exact I. Qed.

Lemma find_by_action d ds : NoDup (action <$> ds) → d ∈ ds → List.find (λ x, bool_decide (action x = action d)) ds = Some d.
Proof.
  induction ds as [|x ds IH]; [by intros _ ?%not_elem_of_nil|]. rewrite fmap_cons, NoDup_cons, elem_of_cons. intros [Hx Hn] [->|Hd]; cbn [List.find].
  - by rewrite bool_decide_eq_true_2.
  - rewrite bool_decide_eq_false_2; [by apply IH|]. intros E. apply Hx. rewrite E. by apply list_elem_of_fmap_2.
Qed.

Lemma default_of d : d ∈ DEFAULT_SHORTCUT_CONFIG isMac userAgent → defaultConfig isMac userAgent (action d) = Some d.
Proof. intros Hd. apply find_by_action; [|done]. rewrite default_actions. apply allActions_NoDup. Qed.

Lemma elem_shortcutConfig c o :
  c ∈ shortcutConfig o ↔ ∃ d, d ∈ DEFAULT_SHORTCUT_CONFIG isMac userAgent ∧ c = getEffectiveShortcutConfig isMac d o.
Proof.
  unfold getEffectiveShortcutConfigMap. rewrite list_elem_of_omap. split.
  - intros (a & _ & Hc). destruct (defaultConfig isMac userAgent a) as [d|] eqn:Ed; [|done]. injection Hc as <-. exists d.
    split; [|done]. by apply (defaultConfig_action a).
  - intros (d & Hd & ->). exists (action d). split; [apply all_actions|]. by rewrite default_of.
Qed.

Lemma override_set a a' b o : override a' (setOverride a b o) = if decide (a' = a) then Some b else override a' o.
Proof.
  induction o as [|[x y] o IH]; cbn; [repeat case_decide; congruence|]. repeat (case_decide; cbn); try congruence; rewrite ?IH; by repeat case_decide.
Qed.

Lemma override_delete a a' o : override a' (deleteOverride a o) = if decide (a' = a) then None else override a' o.
Proof.
  unfold deleteOverride. induction o as [|[x y] o IH]; [cbn; by case_decide|]. rewrite filter_cons. cbn [fst].
  destruct (decide (x = a)) as [->|Hx]; [rewrite decide_False by tauto|rewrite decide_True by done]; cbn [override]; rewrite IH; repeat case_decide; congruence.
Qed.

(** The normal form of the effective binding of a shortcut. *)
Definition effectiveKeys (o : ShortcutOverrides) (d : ShortcutDefinition) : option jstr := normalize (binding (getEffectiveShortcutConfig isMac d o)).

(** A captured value becomes the binding of its shortcut, and no other changes. *)
Lemma updated_keys d d' v o :
  d ∈ DEFAULT_SHORTCUT_CONFIG isMac userAgent → d' ∈ DEFAULT_SHORTCUT_CONFIG isMac userAgent → normalize (Some v) = Some v →
  effectiveKeys (updateShortcutConfig (action d) (Some v) o) d' = if decide (action d' = action d) then Some v else effectiveKeys o d'.
Proof.
  intros Hd Hd' Hv. unfold updateShortcutConfig, getShortcutOverrideValue, effectiveKeys, getEffectiveShortcutConfig. cbn [binding].
  rewrite !Hv, (default_of d) by done. cbn [fmap option_fmap option_map]. unfold isShortcutBindingEqual. rewrite Hv.
  case_bool_decide as E; rewrite ?override_set, ?override_delete; case_decide as Ea; try done.
  - assert (d' = d) as ->; [|done]. pose proof (default_of d Hd). pose proof (default_of d' Hd'). congruence.
  - by rewrite Hv.
Qed.

(** ** No key has two meanings in one scope *)

Definition KeysDistinct (o : ShortcutOverrides) : Prop :=
  ∀ d d', d ∈ DEFAULT_SHORTCUT_CONFIG isMac userAgent → d' ∈ DEFAULT_SHORTCUT_CONFIG isMac userAgent → scope d = scope d' →
    effectiveKeys o d = effectiveKeys o d' → effectiveKeys o d ≠ None → d = d'.

(** What tells the default shortcuts apart. *)
Definition defaultKeys (d : ShortcutDefinition) : ShortcutScope * option jstr := (scope d, normalize (Some (defaultBinding d))).

Lemma defaultKeys_NoDup : NoDup (defaultKeys <$> DEFAULT_SHORTCUT_CONFIG isMac userAgent).
Proof.
  assert (defaultKeys <$> DEFAULT_SHORTCUT_CONFIG isMac userAgent = defaultKeys <$> DEFAULT_SHORTCUT_CONFIG isMac []) as -> by reflexivity.
  unfold defaultKeys. destruct isMac; apply (bool_decide_unpack _); vm_compute; exact I.
Qed.

Lemma NoDup_fmap_inj {A B} (f : A → B) xs x y : NoDup (f <$> xs) → x ∈ xs → y ∈ xs → f x = f y → x = y.
Proof.
  induction xs as [|z xs IH]; [by intros _ ?%not_elem_of_nil|]. rewrite fmap_cons, NoDup_cons, !elem_of_cons.
  intros [Hz Hn] [->|Hx] [->|Hy] E; [done| | |by apply IH]; exfalso; apply Hz; [rewrite E|rewrite <- E]; by apply list_elem_of_fmap_2.
Qed.

Lemma same_action d d' :
  d ∈ DEFAULT_SHORTCUT_CONFIG isMac userAgent → d' ∈ DEFAULT_SHORTCUT_CONFIG isMac userAgent → action d = action d' → d = d'.
Proof. intros Hd Hd' E. pose proof (default_of d Hd). pose proof (default_of d' Hd'). congruence. Qed.

Lemma distinct_defaults : KeysDistinct [].
Proof.
  intros d d' Hd Hd' Hs Hk _. eapply (NoDup_fmap_inj defaultKeys); [apply defaultKeys_NoDup|done|done|].
  unfold effectiveKeys, getEffectiveShortcutConfig in Hk. cbn [override binding] in Hk. unfold defaultKeys. by rewrite Hs, Hk.
Qed.

Lemma getEffectiveShortcutConfig_config d o : config (getEffectiveShortcutConfig isMac d o) = d.
Proof. done. Qed.

#[local] Strategy expand [validateShortcut].

Lemma conflict_found c c' v items :
  c' ∈ items → action (config c') ≠ action (config c) → scope (config c') = scope (config c) →
  normalize (binding c') = Some v → normalize (Some v) = Some v →
  existsb (λ item, negb (bool_decide (action (config item) = action (config c))) &&
                   bool_decide (scope (config item) = scope (config c)) && truthyText (binding item) &&
                   isShortcutBindingEqual isMac (binding item) (Some v)) items = true.
Proof.
  intros Hin Ha Hs Hk Hv. apply existsb_exists. exists c'. split; [by apply list_elem_of_In|].
  rewrite bool_decide_eq_false_2, bool_decide_eq_true_2 by done. cbn [negb andb]. unfold isShortcutBindingEqual.
  rewrite Hk, Hv, bool_decide_eq_true_2, andb_true_r by done. by destruct (binding c') as [[|]|].
Qed.

(** A value that another shortcut of the scope has is not taken. *)
Lemma validated d v o d' :
  d ∈ DEFAULT_SHORTCUT_CONFIG isMac userAgent → d' ∈ DEFAULT_SHORTCUT_CONFIG isMac userAgent → scope d' = scope d → normalize (Some v) = Some v →
  validateShortcut (getEffectiveShortcutConfig isMac d o) v o = true → effectiveKeys o d' = Some v → d' = d.
Proof.
  intros Hd Hd' Hs Hv Hval Hk. destruct (decide (action d' = action d)) as [E|E]; [by apply same_action|]. exfalso.
  unfold validateShortcut in Hval.
  rewrite (conflict_found (getEffectiveShortcutConfig isMac d o) (getEffectiveShortcutConfig isMac d' o) v) in Hval; try done.
  apply elem_shortcutConfig. by exists d'.
Qed.

Lemma captured_distinct d v o :
  d ∈ DEFAULT_SHORTCUT_CONFIG isMac userAgent → normalize (Some v) = Some v → KeysDistinct o → KeysDistinct (shortcutCaptured d v o).
Proof.
  intros Hd Hv Ho. unfold shortcutCaptured. destruct (validateShortcut _ _ _) eqn:Hval; [|done].
  intros d1 d2 H1 H2 Hs. rewrite !updated_keys by done. intros Hk Hne. destruct (decide (action d1 = action d)) as [E1|E1];
    destruct (decide (action d2 = action d)) as [E2|E2].
  - apply same_action; [done..|congruence].
  - apply (same_action d1 d) in E1; [|done..]. subst d1. symmetry. by eapply validated.
  - apply (same_action d2 d) in E2; [|done..]. subst d2. by eapply validated.
  - by apply Ho.
Qed.

(** What the user does with the settings. *)
Inductive SettingsOp := Capture (d : ShortcutDefinition) (v : jstr) | ResetShortcut (a : ShortcutAction) | ResetAll.

Definition settingsStep (o : ShortcutOverrides) (op : SettingsOp) : ShortcutOverrides :=
  match op with
  | Capture d v => shortcutCaptured d v o
  | ResetShortcut a => resetShortcutConfig a o
  | ResetAll => resetAllShortcutConfig
  end.

(** A shortcut of the list is given a binding in normal form, or all are reset. *)
Definition SettingsOpOk (op : SettingsOp) : Prop :=
  match op with
  | Capture d v => d ∈ DEFAULT_SHORTCUT_CONFIG isMac userAgent ∧ normalize (Some v) = Some v
  | ResetShortcut _ => False
  | ResetAll => True
  end.

Lemma settings_distinct ops : Forall SettingsOpOk ops → KeysDistinct (fold_left settingsStep ops []).
Proof.
  assert (∀ o, KeysDistinct o → Forall SettingsOpOk ops → KeysDistinct (fold_left settingsStep ops o)) as H; [|apply H, distinct_defaults].
  induction ops as [|op ops IH]; intros o Ho; [done|]. intros [Hop Hops]%Forall_cons. cbn [fold_left]. apply IH; [|done].
  destruct op as [d v|a|]; [destruct Hop; by apply captured_distinct|done|apply distinct_defaults].
Qed.

(** ** Dispatch *)

Lemma matches_keys e o d s :
  matchesIn isMac e s (getEffectiveShortcutConfig isMac d o) = true → scope d = s ∧ effectiveKeys o d ≠ None ∧ eventBinding e = effectiveKeys o d.
Proof.
  unfold matchesIn. intros [[Hs%bool_decide_eq_true _]%andb_true_iff Hm]%andb_true_iff. split; [done|].
  unfold isShortcutEventMatch in Hm. fold (effectiveKeys o d) in Hm. destruct (effectiveKeys o d); [|done]. by apply bool_decide_eq_true in Hm.
Qed.

Lemma keys_match e o d :
  eventBinding e = effectiveKeys o d → effectiveKeys o d ≠ None → matchesIn isMac e (scope d) (getEffectiveShortcutConfig isMac d o) = true.
Proof.
  intros He Hne. unfold matchesIn. apply andb_true_iff. split; [apply andb_true_iff; split|].
  - by apply bool_decide_eq_true_2.
  - unfold effectiveKeys in Hne. unfold disabled. unfold getEffectiveShortcutConfig in *. apply negb_true_iff, bool_decide_eq_false.
    intros E. rewrite E in Hne. done.
  - unfold isShortcutEventMatch. fold (effectiveKeys o d). destruct (effectiveKeys o d); [|done]. by apply bool_decide_eq_true_2.
Qed.

(** The first match is the one whose binding the event has. *)
Lemma find_match e o d :
  KeysDistinct o → d ∈ DEFAULT_SHORTCUT_CONFIG isMac userAgent → eventBinding e = effectiveKeys o d → effectiveKeys o d ≠ None →
  List.find (matchesIn isMac e (scope d)) (shortcutConfig o) = Some (getEffectiveShortcutConfig isMac d o).
Proof.
  intros Ho Hd He Hne. destruct (List.find _ _) as [c|] eqn:Ef.
  - apply find_some in Ef as [Hin%list_elem_of_In Hm]. apply elem_shortcutConfig in Hin as (d' & Hd' & ->).
    apply matches_keys in Hm as (Hs & Hne' & He'). assert (d' = d) as ->; [|done]. apply Ho; [done..| |done]. congruence.
  - exfalso. assert (matchesIn isMac e (scope d) (getEffectiveShortcutConfig isMac d o) = false) as Hf; [|by rewrite keys_match in Hf].
    eapply find_none; [exact Ef|]. apply list_elem_of_In, elem_shortcutConfig. by exists d.
Qed.
End settings.

(** The global shortcuts are those that the window handles. *)
Lemma global_handled isMac userAgent d :
  d ∈ DEFAULT_SHORTCUT_CONFIG isMac userAgent → scope d = ScopeGlobal → handleShortcut (action d) ≠ Unknown.
Proof.
  intros Hd Hs. assert (Forall (λ as_, as_.2 = ScopeGlobal → handleShortcut as_.1 ≠ Unknown)
    ((λ d, (action d, scope d)) <$> DEFAULT_SHORTCUT_CONFIG isMac userAgent)) as H.
  { repeat (apply Forall_cons_2; [discriminate|]). apply Forall_nil_2. }
  rewrite Forall_fmap, Forall_forall in H. by apply (H d).
Qed.

(** What is captured from a key with a binding. *)
Lemma captured_binding isMac value e i v :
  keyOk e → getEventShortcutBinding isMac e ≠ None → (inputKeyUp isMac value (inputKeyDown isMac e i)).2 = Some v →
  getEventShortcutBinding isMac e = Some v ∧ normalizeShortcutBinding isMac (Some v) = Some v.
Proof.
  intros Hk Hb. unfold inputKeyDown, inputKeyUp. destruct (getEventShortcutBinding isMac e) as [b|] eqn:Eb; [|done].
  pose proof (event_normal isMac e b Hk Eb) as Hn. cbn [keysPressed pendingShortcut displayValue].
  destruct (addKey _ _) as [|k ks] eqn:Ek; [done|]. destruct (negb _); [done|]. cbn [snd]. rewrite Hn. case_bool_decide; [done|]. by intros [= <-].
Qed.

Lemma normalize_nonempty isMac b n : normalizeShortcutBinding isMac (Some b) = Some n → n ≠ [].
Proof.
  intros Hn ->. pose proof (normalize_tokens isMac b [] Hn) as E. symmetry in E. apply app_eq_nil in E as [_ E].
  by destruct (normalize_parts isMac b [] Hn) as [_ ?].
Qed.

Lemma normalize_thrice isMac b n v :
  normalizeShortcutBinding isMac (Some b) = Some n → normalizeShortcutBinding isMac (Some n) = Some v → normalizeShortcutBinding isMac (Some v) = Some v.
Proof. intros Hn Hv. eapply normalize_again; [exact Hv|]. by eapply normalize_one_control. Qed.

(** Whatever keys are pressed, a value that the input gives is in normal form. *)
Lemma given_normal isMac value es e i v :
  (inputKeyUp isMac value (inputKeyDown isMac e (fold_left (λ i e, inputKeyDown isMac e i) es i))).2 = Some v →
  normalizeShortcutBinding isMac (Some v) = Some v ∧ Some v ≠ value.
Proof.
  set (j := fold_left _ es i). clearbody j. unfold inputKeyDown, inputKeyUp.
  assert (∀ keys p, (∃ b, normalizeShortcutBinding isMac (Some b) = Some p) ∨ normalizeShortcutBinding isMac (Some p) = None →
    (match keysPressed (mkInput keys p p) with
     | [] => (mkInput keys p p, None)
     | keys0 => if negb (isShortcutCaptureAllowed keys0) then (mkInput [] (default [] value) (normalizedOr isMac value), None)
                else (mkInput [] (pendingShortcut (mkInput keys p p)) (displayValue (mkInput keys p p)),
                      match normalizeShortcutBinding isMac (Some (pendingShortcut (mkInput keys p p))) with
                      | Some v => if bool_decide (Some v = value) then None else Some v
                      | None => None
                      end)
     end).2 = Some v → normalizeShortcutBinding isMac (Some v) = Some v ∧ Some v ≠ value) as Hcase.
  { intros keys p Hp. cbn [keysPressed pendingShortcut displayValue]. destruct keys; [done|]. destruct (negb _); [done|]. cbn [snd].
    destruct (normalizeShortcutBinding isMac (Some p)) as [w|] eqn:Ew; [|done]. case_bool_decide as Hw; [done|]. intros [= <-].
    split; [|done]. destruct Hp as [[b Hb]|?]; [by eapply normalize_thrice|done]. }
  destruct (getEventShortcutBinding isMac e) as [b|] eqn:Eb.
  - apply Hcase. left. apply eventBinding_eq in Eb as [Hb _]. eauto.
  - apply Hcase. set (x := join _ _). unfold normalizedOr. destruct (normalizeShortcutBinding isMac (Some x)) as [n|] eqn:En; [|by right].
    left. exists x. cbn [default from_option id]. pose proof (normalize_nonempty isMac x n En) as Hne. by destruct n.
Qed.

(** C21: a key has one meaning in a scope.  Whatever bindings the inputs of the settings give and whenever all shortcuts are reset, an event
    of the keyboard matches the shortcut of at most one action of a scope, in the normal form that the input gives. *)
Theorem one_meaning_in_scope isMac userAgent ops d d' e :
  Forall (SettingsOpOk isMac userAgent) ops →
  d ∈ DEFAULT_SHORTCUT_CONFIG isMac userAgent → d' ∈ DEFAULT_SHORTCUT_CONFIG isMac userAgent → scope d = scope d' →
  let o := fold_left (settingsStep isMac userAgent) ops [] in
  isShortcutEventMatch isMac e (binding (getEffectiveShortcutConfig isMac d o)) = true →
  isShortcutEventMatch isMac e (binding (getEffectiveShortcutConfig isMac d' o)) = true →
  d = d'.
Proof.
  intros Hops Hd Hd' Hs o H1 H2. pose proof (settings_distinct isMac userAgent ops Hops) as Ho. fold o in Ho.
  unfold isShortcutEventMatch in H1, H2. fold (effectiveKeys isMac o d) in H1. fold (effectiveKeys isMac o d') in H2.
  destruct (effectiveKeys isMac o d) as [k|] eqn:E1; [|done]. destruct (effectiveKeys isMac o d') as [k'|] eqn:E2; [|done].
  apply bool_decide_eq_true in H1, H2. apply Ho; [done..| |by rewrite E1]. rewrite E1, E2. congruence.
Qed.

(** C22: a captured shortcut does what it is for.  A key whose event has a binding is pressed in the input of a global shortcut, the input gives
    a value and no other shortcut of the scope has it: from then on the event calls this shortcut in the window, unless the focused scope
    uses the key itself or an editable element has the focus and the shortcut is not for those; and every global shortcut does something. *)
Theorem captured_shortcut_called isMac userAgent ops d e value i v activeScope editableTarget saveAllowed zoom :
  Forall (SettingsOpOk isMac userAgent) ops → d ∈ DEFAULT_SHORTCUT_CONFIG isMac userAgent → scope d = ScopeGlobal →
  keyOk e → getEventShortcutBinding isMac e ≠ None →
  (inputKeyUp isMac value (inputKeyDown isMac e i)).2 = Some v →
  let o := fold_left (settingsStep isMac userAgent) ops [] in
  validateShortcut isMac userAgent (getEffectiveShortcutConfig isMac d o) v o = true →
  let o' := shortcutCaptured isMac userAgent d v o in
  (∀ s d', activeScope = Some s → d' ∈ DEFAULT_SHORTCUT_CONFIG isMac userAgent → scope d' = s → effectiveKeys isMac o' d' ≠ getEventShortcutBinding isMac e) →
  (editableTarget = true → allowInEditable d = true) → prepareGlobalShortcutHandling (action d) zoom = true →
  windowKeyDown isMac userAgent e o' activeScope editableTarget saveAllowed zoom = (true, Some (handleShortcut (action d))) ∧
  handleShortcut (action d) ≠ Unknown.
Proof.
  intros Hops Hd Hs Hk Hb Hup o Hval o' Hscope Hedit Hzoom. destruct (captured_binding isMac value e i v Hk Hb Hup) as [He Hv].
  pose proof (settings_distinct isMac userAgent ops Hops) as Ho. fold o in Ho.
  assert (KeysDistinct isMac userAgent o') as Ho' by (by apply captured_distinct).
  assert (effectiveKeys isMac o' d = Some v) as Hkeys.
  { unfold o', shortcutCaptured. rewrite Hval. rewrite (updated_keys isMac userAgent d d v o) by done. by rewrite decide_True. }
  split; [|by eapply global_handled]. unfold windowKeyDown, resolveShortcutDispatch.
  assert ((s ← activeScope; List.find (matchesIn isMac e s) (getEffectiveShortcutConfigMap isMac userAgent o')) = None) as ->.
  { destruct activeScope as [s|]; [|done]. cbn [mbind option_bind]. destruct (List.find _ _) as [c|] eqn:Ef; [|done]. exfalso.
    apply find_some in Ef as [Hin%list_elem_of_In Hm]. apply elem_shortcutConfig in Hin as (d' & Hd' & ->).
    apply matches_keys in Hm as (Hs' & _ & He'). eapply Hscope; [done|exact Hd'|done|]. by symmetry. }
  pose proof (find_match isMac userAgent e o' d Ho' Hd) as Hf. rewrite Hs in Hf. rewrite Hf by congruence.
  rewrite getEffectiveShortcutConfig_config.
  assert (editableTarget && negb (allowInEditable d) = false) as ->.
  { destruct editableTarget; [|done]. by rewrite Hedit. }
  by rewrite Hzoom.
Qed.

(** ** Concrete settings *)

Definition ctrlKeyPress (k c : jstr) : KeyboardEvent := mkEvent c k false true false false.

Definition windowsAgent : jstr := js "Mozilla/5.0 (Windows NT 10.0; Win64; x64)".

Definition defaultFor (a : ShortcutAction) : ShortcutDefinition :=
  default (mkShortcut a [] [] ScopeGlobal false false) (defaultConfig false windowsAgent a).

Lemma one_meaning_in_scope_witness :
  defaultFor SwitchToWorkspace ≠ defaultFor OpenSetting ∧
  let o := fold_left (settingsStep false windowsAgent) [Capture (defaultFor SwitchToWorkspace) (js "Ctrl + 9"); Capture (defaultFor OpenSetting) (js "Ctrl + 2")] [] in
  isShortcutEventMatch false (ctrlKeyPress (js "2") (js "Digit2")) (binding (getEffectiveShortcutConfig false (defaultFor OpenSetting) o)) = true ∧
  ¬ isShortcutEventMatch false (ctrlKeyPress (js "2") (js "Digit2")) (binding (getEffectiveShortcutConfig false (defaultFor SwitchToWorkspace) o)) = true.
Proof.
  split; [vm_compute; discriminate|]. cbv zeta. split; [vm_compute; reflexivity|]. intros H.
  assert (defaultFor SwitchToWorkspace = defaultFor OpenSetting) as E; [|vm_compute in E; discriminate].
  apply (one_meaning_in_scope false windowsAgent
    [Capture (defaultFor SwitchToWorkspace) (js "Ctrl + 9"); Capture (defaultFor OpenSetting) (js "Ctrl + 2")] _ _ (ctrlKeyPress (js "2") (js "Digit2"))).
  - repeat (apply Forall_cons_2; [split; [unfold defaultFor; apply list_elem_of_In; vm_compute; tauto|vm_compute; reflexivity]|]). apply Forall_nil_2.
  - apply list_elem_of_In. vm_compute. tauto.
  - apply list_elem_of_In. vm_compute. tauto.
  - reflexivity.
  - exact H.
  - vm_compute. reflexivity.
Defined.

Lemma captured_shortcut_called_witness :
  windowKeyDown false windowsAgent (ctrlKeyPress (js "9") (js "Digit9"))
    (shortcutCaptured false windowsAgent (defaultFor ZoomIn) (js "Ctrl + 9") []) (Some ScopeSqlEditor) true false true = (true, Some (Zoom (js "in"))).
Proof.
  refine (proj1 (captured_shortcut_called false windowsAgent [] (defaultFor ZoomIn) (ctrlKeyPress (js "9") (js "Digit9")) (Some (js "Ctrl + ="))
    (inputKeyDown false (ctrlKeyPress (js "Control") (js "ControlLeft")) (newInput false (Some (js "Ctrl + =")))) (js "Ctrl + 9") (Some ScopeSqlEditor) true false true _ _ _ _ _ _ _ _ _ _)).
  - apply Forall_nil_2.
  - apply list_elem_of_In. vm_compute. tauto.
  - reflexivity.
  - left. by apply keyLike_check.
  - vm_compute. discriminate.
  - vm_compute. reflexivity.
  - vm_compute. reflexivity.
  - intros s d' [= <-] Hd' Hs. intros E.
    assert (Forall (λ k, k ≠ Some (js "Ctrl + 9")) ((λ d, effectiveKeys false (shortcutCaptured false windowsAgent (defaultFor ZoomIn) (js "Ctrl + 9") []) d)
      <$> List.filter (λ d, bool_decide (scope d = ScopeSqlEditor)) (DEFAULT_SHORTCUT_CONFIG false windowsAgent))) as H.
    { apply (bool_decide_unpack _). vm_compute. exact I. }
    rewrite Forall_fmap, Forall_forall in H. apply (H d'); [|etransitivity; [exact E|vm_compute; reflexivity]].
    apply list_elem_of_In, filter_In. split; [by apply list_elem_of_In|by apply bool_decide_eq_true_2].
  - reflexivity.
  - reflexivity.
Defined.

(** One shortcut is set back to its default although another has this key meanwhile: the key has two meanings. *)
Example reset_takes_no_care :
  let o := fold_left (settingsStep false windowsAgent)
    [Capture (defaultFor SwitchToWorkspace) (js "Ctrl + 9"); Capture (defaultFor OpenSetting) (js "Ctrl + 2"); ResetShortcut SwitchToWorkspace] [] in
  binding (getEffectiveShortcutConfig false (defaultFor SwitchToWorkspace) o) = Some (js "Ctrl + 2") ∧
  binding (getEffectiveShortcutConfig false (defaultFor OpenSetting) o) = Some (js "Ctrl + 2") ∧
  windowKeyDown false windowsAgent (ctrlKeyPress (js "2") (js "Digit2")) o None false false true = (true, Some (SwitchToNav (js "setting"))).
Proof. vm_compute. done. Qed.

(** A value that the settings refuse stays in the input. *)
Example refused_value_shown :
  let i := inputKeyDown false (ctrlKeyPress (js "2") (js "Digit2")) (inputKeyDown false (ctrlKeyPress (js "Control") (js "ControlLeft")) (newInput false (Some (js "Ctrl + 4")))) in
  let '(i', v) := inputKeyUp false (Some (js "Ctrl + 4")) i in
  v = Some (js "Ctrl + 2") ∧ shortcutCaptured false windowsAgent (defaultFor OpenSetting) (js "Ctrl + 2") [] = [] ∧
  displayValue i' = js "Ctrl + 2".
Proof. vm_compute. done. Qed.

(** A function key may be captured, but the editor has no key for it; and on the Mac two bindings are one for the editor. *)
Example editor_keys monaco :
  isShortcutCaptureAllowed [js "f5"] = true ∧ shortcutBindingToMonacoKeybinding false (Some (js "F5")) monaco = None ∧
  isShortcutBindingEqual true (Some (COMMAND ++ js " + S")) (Some (js "Ctrl + S")) = false ∧
  shortcutBindingToMonacoKeybinding true (Some (COMMAND ++ js " + S")) monaco = shortcutBindingToMonacoKeybinding true (Some (js "Ctrl + S")) monaco.
Proof. split_and!; reflexivity. Qed.
