(* ===== verification/BackendMessages.v ===== *)
(** * BackendMessages: what the runtime sends and what the client accepts of it
    The second frontend ([apps/frontend/src], paths below are relative to it) talks to the runtime in JSON.
    This file has the values, an interpreter of the schemas that the types of [generated/contract.ts] are, and in
    the module [Contract] those types which the client checks before it uses a value; then the cursors, the errors and the
    type guards of [backend/client.ts], where a value of the type [unknown] is an [Unknown].  The guards are shown to be the schemas. *)

From S2P Require Import Prelude JsNumber.
Local Open Scope nat_scope.

(** A value that came as JSON; a number is told only when it is whole. *)
Inductive Payload :=
  | PNull
  | PBool (b : bool)
  | PInteger (n : Z)
  | PFraction (text : jstr)
  | PText (t : jstr)
  | PArray (items : list Payload)
  | PObject (fields : dict Payload).

(** A value of the type [unknown]; [None] is [undefined]. *)
Abbreviation Unknown := (option Payload).

(** ** Decimal integers *)

Definition isDigit (c : N) : bool := (48 <=? c)%N && (c <=? 57)%N.

(** [/^\d+$/] *)
Definition isDigits (t : jstr) : bool := negb (bool_decide (t = [])) && forallb isDigit t.

(** Zero, or digits that do not begin with a zero. *)
Definition isCanonicalDecimal (t : jstr) : bool :=
  bool_decide (t = js "0") || match t with c :: t' => isDigit c && negb (c =? 48)%N && forallb isDigit t' | [] => false end.

(** ** Schemas *)

(** Whether a field may be missing, and may be null. *)
Inductive Presence := Required | Optional | OptionalNullable.

Inductive Schema :=
  | SText
  | SNonEmptyText
  | SDecimal
  | SNumber
  | SInteger (lowest highest : Z)
  | SBoolean
  | SOneOf (texts : list jstr)
  | SArray (item : Schema)
  | SObject (fields : list (jstr * (Presence * Schema)))
  | STagged (cases : list (jstr * list (jstr * (Presence * Schema)))).

Definition textOf (v : Unknown) : option jstr := match v with Some (PText t) => Some t | _ => None end.

Section fields.
Context (conforms : Schema → Payload → bool) (d : dict Payload).

Definition fieldConforms (presence : Presence) (s : Schema) (v : Unknown) : bool :=
  match v, presence with
  | None, Required => false
  | None, _ => true
  | Some PNull, OptionalNullable => true
  | Some v, _ => conforms s v
  end.

Fixpoint fieldsConform (fields : list (jstr * (Presence * Schema))) : bool :=
  match fields with
  | [] => true
  | (k, (presence, s)) :: fields => fieldConforms presence s (dget k d) && fieldsConform fields
  end.

(** A union of objects told apart by the field [type]. *)
Fixpoint caseConforms (type : jstr) (cases : list (jstr * list (jstr * (Presence * Schema)))) : bool :=
  match cases with
  | [] => false
  | (tag, fields) :: cases => if bool_decide (type = tag) then fieldsConform fields else caseConforms type cases
  end.
End fields.

Fixpoint conforms (s : Schema) (v : Payload) : bool :=
  match s with
  | SText => match v with PText _ => true | _ => false end
  | SNonEmptyText => match v with PText (_ :: _) => true | _ => false end
  | SDecimal => match v with PText t => isCanonicalDecimal t | _ => false end
  | SNumber => match v with PInteger _ | PFraction _ => true | _ => false end
  | SInteger lowest highest => match v with PInteger n => (lowest <=? n)%Z && (n <=? highest)%Z | _ => false end
  | SBoolean => match v with PBool _ => true | _ => false end
  | SOneOf texts => match v with PText t => includes t texts | _ => false end
  | SArray item => match v with PArray items => forallb (conforms item) items | _ => false end
  | SObject fields => match v with PObject d => fieldsConform conforms d fields | _ => false end
  | STagged cases =>
      match v with
      | PObject d => match textOf (dget (js "type") d) with Some type => caseConforms conforms d type cases | None => false end
      | _ => false
      end
  end.

(** ** The types of [generated/contract.ts] *)

Module Contract.

Definition required (k : string) (s : Schema) : jstr * (Presence * Schema) := (js k, (Required, s)).
Definition optional (k : string) (s : Schema) : jstr * (Presence * Schema) := (js k, (Optional, s)).
Definition nullable (k : string) (s : Schema) : jstr * (Presence * Schema) := (js k, (OptionalNullable, s)).

Definition Int32 : Schema := SInteger (-2147483648) 2147483647.
(** The runtime's unsigned numbers, also of the format [int32]. *)
Definition Unsigned32 : Schema := SInteger 0 4294967295.

Definition ApiErrorDetails : Schema := STagged
  [(js "revision_conflict", [nullable "actualRevision" SText; required "expectedRevision" SText]);
   (js "database", [nullable "constraintName" SText; nullable "sqlState" SText; nullable "statementPosition" SNumber; nullable "vendorCode" SNumber]);
   (js "replay_window", [required "latestSequence" SText; required "oldestAvailableSequence" SText; required "requestedSequence" SText])].

Definition ApiError : Schema := SObject
  [required "code" SText; nullable "details" ApiErrorDetails; required "message" SText; optional "retryable" SBoolean].

Definition AgentUsage : Schema := SObject
  [required "inputTokens" SDecimal; required "outputTokens" SDecimal; required "totalTokens" SDecimal].

Definition AgentPermissionStatus : Schema :=
  SOneOf [js "pending"; js "approved"; js "denied"; js "consumed"; js "expired"; js "revoked"].

Definition AgentPermissionRequest : Schema := SObject
  [required "argumentsSha256" SText; required "expiresAtMs" SDecimal; required "permissionId" SText; required "requestedAtMs" SDecimal;
   required "runId" SText; required "summary" SText; required "toolCallId" SText; required "toolName" SText].

Definition AgentPermissionResponse : Schema := SObject [required "permissionId" SText; required "status" AgentPermissionStatus].

Definition JdbcValueTypes : list jstr :=
  [js "boolean"; js "signed_integer"; js "unsigned_integer"; js "float32"; js "float64"; js "decimal"; js "text"; js "binary"; js "date"; js "time";
   js "timestamp"; js "timestamp_with_time_zone"; js "json"; js "uuid"; js "opaque"].

Definition JdbcValue : Schema := STagged
  [(js "null", []); (js "boolean", [required "value" SBoolean]);
   (js "signed_integer", [required "value" SText]); (js "unsigned_integer", [required "value" SText]); (js "float32", [required "value" SText]);
   (js "float64", [required "value" SText]); (js "decimal", [required "value" SText]); (js "text", [required "value" SText]);
   (js "binary", [required "value" SText]); (js "date", [required "value" SText]); (js "time", [required "value" SText]);
   (js "timestamp", [required "value" SText]); (js "timestamp_with_time_zone", [required "value" SText]); (js "json", [required "value" SText]);
   (js "uuid", [required "value" SText]); (js "opaque", [required "displayValue" SText; required "typeName" SText])].

Definition ResultColumn : Schema := SObject
  [nullable "catalogName" SText; nullable "displaySize" Unsigned32; required "jdbcType" Int32; required "jdbcTypeName" SText; required "label" SText;
   required "name" SText; required "nullability" (SOneOf [js "unknown"; js "no_nulls"; js "nullable"]); required "ordinal" Unsigned32;
   nullable "precision" Unsigned32; nullable "scale" Int32; nullable "schemaName" SText; nullable "signed" SBoolean; nullable "tableName" SText;
   required "valueType" (SOneOf JdbcValueTypes)].

Definition ResultRow : Schema := SObject [required "values" (SArray JdbcValue)].

Definition AgentResultHandle : Schema := SObject
  [required "byteCount" SDecimal; required "columns" (SArray ResultColumn); required "columnsTruncated" SBoolean; required "createdAtMs" SDecimal;
   required "expiresAtMs" SDecimal; required "handleId" SText; required "rowCount" SDecimal; required "sampleRows" (SArray ResultRow);
   required "sampleTruncated" SBoolean; required "truncatedByMaxResultBytes" SBoolean; required "truncatedByMaxRows" SBoolean].

Definition AgentToolOutput : Schema := STagged
  [(js "text", [required "content" SText; required "truncated" SBoolean]); (js "result", [required "handle" AgentResultHandle])].

Definition AgentEvent : Schema := STagged
  [(js "started", []);
   (js "text_delta", [required "delta" SText]);
   (js "tool_started", [required "argumentsSha256" SText; required "name" SText; required "toolCallId" SText]);
   (js "tool_completed", [required "name" SText; required "output" AgentToolOutput; required "toolCallId" SText]);
   (js "tool_failed", [required "error" ApiError; required "name" SText; required "toolCallId" SText]);
   (js "permission_requested", [required "permission" AgentPermissionRequest]);
   (js "permission_resolved", [required "permissionId" SText; required "status" AgentPermissionStatus]);
   (js "context_compacted", [required "droppedTurns" SDecimal; required "strategy" (SOneOf [js "summary"; js "deterministic_trim"])]);
   (js "usage", [required "usage" AgentUsage]);
   (js "completed", [required "messageId" SText]);
   (js "failed", [required "error" ApiError]);
   (js "cancelled", [nullable "reason" SText])].

Definition AgentEventEnvelope : Schema := SObject
  [required "event" AgentEvent; required "occurredAtMs" SDecimal; required "runId" SText; required "sequence" SDecimal].

Definition AgentStreamMessage : Schema := STagged
  [(js "event", [required "event" AgentEventEnvelope]); (js "error", [required "error" ApiError]); (js "end", [])].

(** An empty identifier could not release the subscription. *)
Definition SubscriptionAccepted : Schema := SObject [required "subscriptionId" SNonEmptyText].

Definition AgentRunAccepted : Schema := SObject [required "runId" SText; required "sessionId" SText].

Definition AgentRunStatus : Schema := SOneOf [js "running"; js "waiting_for_permission"; js "completed"; js "failed"; js "cancelled"].

Definition AgentRunSnapshot : Schema := SObject
  [nullable "error" ApiError; required "lastSequence" SDecimal; nullable "messageId" SText; required "modelRounds" SDecimal;
   nullable "pendingPermission" AgentPermissionRequest; required "runId" SText; required "sessionId" SText; required "startedAtMs" SDecimal;
   required "status" AgentRunStatus; required "toolCalls" SDecimal; required "updatedAtMs" SDecimal; required "usage" AgentUsage].

Definition CancelAgentRunResponse : Schema := SObject
  [required "disposition" (SOneOf [js "accepted"; js "already_terminal"; js "unknown_operation"]); required "runId" SText].

Definition ResultMetadata : Schema := SObject
  [required "byteCount" SDecimal; required "createdAtMs" SDecimal; required "expiresAtMs" SDecimal; required "id" SText; required "rowCount" SDecimal;
   required "truncatedByMaxResultBytes" SBoolean; required "truncatedByMaxRows" SBoolean].

Definition OperationEvent : Schema := STagged
  [(js "started", []); (js "progress", [required "byteCount" SDecimal; required "rowCount" SDecimal]);
   (js "completed", [required "result" ResultMetadata]);
   (js "failed", [required "error" ApiError]); (js "cancelled", [nullable "reason" SText])].

Definition OperationEventEnvelope : Schema := SObject
  [required "event" OperationEvent; required "occurredAtMs" SDecimal; required "operationId" SText; required "sequence" SDecimal].

Definition OperationStreamMessage : Schema := STagged
  [(js "event", [required "event" OperationEventEnvelope]); (js "error", [required "error" ApiError]); (js "end", [])].

End Contract.

(** ** Errors *)

(** An [ApiRequestError]: the parts the client reads, and the status of the response. *)
Record ApiRequestError := mkApiRequestError { code : jstr; message : jstr; retryable : bool; status : option Z }.

Definition protocolError (message : jstr) (status : option Z) : ApiRequestError :=
  mkApiRequestError (js "invalid_transport_response") message false status.

(** ** Cursors *)

Definition MAX_U64 : Z := 18446744073709551615.

Definition invalidCursor : ApiRequestError :=
  mkApiRequestError (js "invalid_last_event_id") (js "Last-Event-ID must be an unsigned decimal integer") false None.

(** [BigInt(value)] of digits. *)
Definition bigInt (value : jstr) : Z := default 0%Z (parseDigits 0 value).

Definition parseOperationCursor (value : jstr) : ApiRequestError + Z :=
  if negb (isDigits value) then inl invalidCursor
  else if (MAX_U64 <? bigInt value)%Z then inl invalidCursor else inr (bigInt value).

Definition parseAgentCursor : jstr → ApiRequestError + Z := parseOperationCursor.

(** ** Guards *)

Definition isRecord (value : Unknown) : option (dict Payload) := match value with Some (PObject d) => Some d | _ => None end.

(** A record and what is asked of its fields. *)
Definition recordAnd (value : Unknown) (check : (string → Unknown) → bool) : bool :=
  match isRecord value with Some d => check (λ k, dget (js k) d) | None => false end.

(** [typeof value === ...] *)
Definition isTextValue (value : Unknown) : bool := match value with Some (PText _) => true | _ => false end.
Definition isBooleanValue (value : Unknown) : bool := match value with Some (PBool _) => true | _ => false end.
Definition isNumberValue (value : Unknown) : bool := match value with Some (PInteger _) | Some (PFraction _) => true | _ => false end.
(** [value === undefined || value === null] *)
Definition isMissing (value : Unknown) : bool := match value with None | Some PNull => true | _ => false end.
Definition isUndefined (value : Unknown) : bool := match value with None => true | _ => false end.
(** [value === text] *)
Definition isLiteral (text : string) (value : Unknown) : bool := match value with Some (PText t) => bool_decide (t = js text) | _ => false end.
(** [Array.isArray(value) && value.every(check)] *)
Definition isArrayOf (check : Unknown → bool) (value : Unknown) : bool :=
  match value with Some (PArray items) => forallb (λ x, check (Some x)) items | _ => false end.
(** [typeof value === 'string' && texts.includes(value)] *)
Definition isOneOf (texts : list jstr) (value : Unknown) : bool := match value with Some (PText t) => includes t texts | _ => false end.

Definition isNullableString (value : Unknown) : bool := isMissing value || isTextValue value.
Definition isNullableNumber (value : Unknown) : bool := isMissing value || isNumberValue value.

(** A record with a text as its [type], and what is asked of it. *)
Definition taggedAnd (value : Unknown) (check : jstr → (string → Unknown) → bool) : bool :=
  match isRecord value with
  | Some d => match dget (js "type") d with Some (PText type) => check type (λ k, dget (js k) d) | _ => false end
  | None => false
  end.

Definition isApiErrorDetails (value : Unknown) : bool :=
  taggedAnd value (λ type field,
    if bool_decide (type = js "revision_conflict") then isTextValue (field "expectedRevision") && isNullableString (field "actualRevision")
    else if bool_decide (type = js "database") then
      isNullableString (field "sqlState") && isNullableNumber (field "vendorCode") && isNullableNumber (field "statementPosition")
      && isNullableString (field "constraintName")
    else if bool_decide (type = js "replay_window") then
      isTextValue (field "requestedSequence") && isTextValue (field "oldestAvailableSequence") && isTextValue (field "latestSequence")
    else false).

Definition isApiError (value : Unknown) : bool :=
  recordAnd value (λ field,
    if negb (isTextValue (field "code")) || negb (isTextValue (field "message"))
       || (negb (isUndefined (field "retryable")) && negb (isBooleanValue (field "retryable")))
    then false
    else isMissing (field "details") || isApiErrorDetails (field "details")).

Definition isDecimalInteger (value : Unknown) : bool := match value with Some (PText t) => isCanonicalDecimal t | _ => false end.
Definition isOptionalNullableString (value : Unknown) : bool := isMissing value || isTextValue value.

Definition isI32 (value : Unknown) : bool :=
  match value with Some (PInteger n) => (-2147483648 <=? n)%Z && (n <=? 2147483647)%Z | _ => false end.
Definition isU32 (value : Unknown) : bool := match value with Some (PInteger n) => (0 <=? n)%Z && (n <=? 4294967295)%Z | _ => false end.
Definition isOptionalNullableI32 (value : Unknown) : bool := isMissing value || isI32 value.
Definition isOptionalNullableU32 (value : Unknown) : bool := isMissing value || isU32 value.
Definition isOptionalNullableBoolean (value : Unknown) : bool := isMissing value || isBooleanValue value.

Definition isJdbcValue (value : Unknown) : bool :=
  taggedAnd value (λ type field,
    if bool_decide (type = js "null") then true
    else if bool_decide (type = js "boolean") then isBooleanValue (field "value")
    else if bool_decide (type = js "opaque") then isTextValue (field "typeName") && isTextValue (field "displayValue")
    else includes type [js "signed_integer"; js "unsigned_integer"; js "float32"; js "float64"; js "decimal"; js "text"; js "binary"; js "date"; js "time";
                        js "timestamp"; js "timestamp_with_time_zone"; js "json"; js "uuid"] && isTextValue (field "value")).

Definition isResultColumn (value : Unknown) : bool :=
  recordAnd value (λ field,
    isOptionalNullableString (field "catalogName") && isOptionalNullableU32 (field "displaySize") && isI32 (field "jdbcType")
    && isTextValue (field "jdbcTypeName") && isTextValue (field "label") && isTextValue (field "name")
    && isTextValue (field "nullability") && isOneOf [js "unknown"; js "no_nulls"; js "nullable"] (field "nullability")
    && isU32 (field "ordinal") && isOptionalNullableU32 (field "precision") && isOptionalNullableI32 (field "scale")
    && isOptionalNullableString (field "schemaName") && isOptionalNullableBoolean (field "signed") && isOptionalNullableString (field "tableName")
    && isTextValue (field "valueType")
    && isOneOf [js "boolean"; js "signed_integer"; js "unsigned_integer"; js "float32"; js "float64"; js "decimal"; js "text"; js "binary"; js "date";
                js "time"; js "timestamp"; js "timestamp_with_time_zone"; js "json"; js "uuid"; js "opaque"] (field "valueType")).

Definition isResultRow (value : Unknown) : bool := recordAnd value (λ field, isArrayOf isJdbcValue (field "values")).

Definition isAgentRunStatus : Unknown → bool :=
  isOneOf [js "running"; js "waiting_for_permission"; js "completed"; js "failed"; js "cancelled"].
Definition isAgentPermissionStatus : Unknown → bool :=
  isOneOf [js "pending"; js "approved"; js "denied"; js "consumed"; js "expired"; js "revoked"].

Definition isAgentUsage (value : Unknown) : bool :=
  recordAnd value (λ field, isDecimalInteger (field "inputTokens") && isDecimalInteger (field "outputTokens") && isDecimalInteger (field "totalTokens")).

Definition isAgentPermissionRequest (value : Unknown) : bool :=
  recordAnd value (λ field,
    isTextValue (field "permissionId") && isTextValue (field "runId") && isTextValue (field "toolCallId") && isTextValue (field "toolName")
    && isTextValue (field "argumentsSha256") && isTextValue (field "summary") && isDecimalInteger (field "requestedAtMs")
    && isDecimalInteger (field "expiresAtMs")).

Definition isAgentPermissionResponse (value : Unknown) : bool :=
  recordAnd value (λ field, isTextValue (field "permissionId") && isAgentPermissionStatus (field "status")).

(** [value.handle] of an output that is a result. *)
Definition isResultHandle (value : Unknown) : bool :=
  recordAnd value (λ handle,
    isTextValue (handle "handleId") && isDecimalInteger (handle "rowCount") && isDecimalInteger (handle "byteCount")
    && isBooleanValue (handle "truncatedByMaxRows") && isBooleanValue (handle "truncatedByMaxResultBytes")
    && isDecimalInteger (handle "createdAtMs") && isDecimalInteger (handle "expiresAtMs") && isArrayOf isResultColumn (handle "columns")
    && isBooleanValue (handle "columnsTruncated") && isArrayOf isResultRow (handle "sampleRows") && isBooleanValue (handle "sampleTruncated")).

Definition isAgentToolOutput (value : Unknown) : bool :=
  taggedAnd value (λ type field,
    if bool_decide (type = js "text") then isTextValue (field "content") && isBooleanValue (field "truncated")
    else if negb (bool_decide (type = js "result")) then false else isResultHandle (field "handle")).

Definition isAgentEvent (value : Unknown) : bool :=
  taggedAnd value (λ type field,
    if bool_decide (type = js "started") then true
    else if bool_decide (type = js "text_delta") then isTextValue (field "delta")
    else if bool_decide (type = js "tool_started") then
      isTextValue (field "toolCallId") && isTextValue (field "name") && isTextValue (field "argumentsSha256")
    else if bool_decide (type = js "tool_completed") then isTextValue (field "toolCallId") && isTextValue (field "name") && isAgentToolOutput (field "output")
    else if bool_decide (type = js "tool_failed") then isTextValue (field "toolCallId") && isTextValue (field "name") && isApiError (field "error")
    else if bool_decide (type = js "permission_requested") then isAgentPermissionRequest (field "permission")
    else if bool_decide (type = js "permission_resolved") then isTextValue (field "permissionId") && isAgentPermissionStatus (field "status")
    else if bool_decide (type = js "context_compacted") then
      (isLiteral "summary" (field "strategy") || isLiteral "deterministic_trim" (field "strategy")) && isDecimalInteger (field "droppedTurns")
    else if bool_decide (type = js "usage") then isAgentUsage (field "usage")
    else if bool_decide (type = js "completed") then isTextValue (field "messageId")
    else if bool_decide (type = js "failed") then isApiError (field "error")
    else if bool_decide (type = js "cancelled") then isOptionalNullableString (field "reason")
    else false).

Definition isAgentEventEnvelope (value : Unknown) : bool :=
  recordAnd value (λ field,
    isTextValue (field "runId") && isDecimalInteger (field "sequence") && isDecimalInteger (field "occurredAtMs") && isAgentEvent (field "event")).

(** A message of a channel of the desktop: an event, an error or the end. *)
Definition isStreamMessage (isEventEnvelope : Unknown → bool) (value : Unknown) : bool :=
  taggedAnd value (λ type field,
    if bool_decide (type = js "event") then isEventEnvelope (field "event")
    else if bool_decide (type = js "error") then isApiError (field "error")
    else bool_decide (type = js "end")).

Definition isAgentStreamMessage : Unknown → bool := isStreamMessage isAgentEventEnvelope.

(** A text that is not empty. *)
Definition isGivenText (value : Unknown) : bool := match value with Some (PText t) => negb (bool_decide (t = [])) | _ => false end.

Definition isAgentSubscriptionAccepted (value : Unknown) : bool := recordAnd value (λ field, isGivenText (field "subscriptionId")).

Definition isAgentRunAccepted (value : Unknown) : bool := recordAnd value (λ field, isTextValue (field "runId") && isTextValue (field "sessionId")).

Definition isAgentRunSnapshot (value : Unknown) : bool :=
  recordAnd value (λ field,
    isTextValue (field "runId") && isTextValue (field "sessionId") && isAgentRunStatus (field "status") && isDecimalInteger (field "lastSequence")
    && isDecimalInteger (field "startedAtMs") && isDecimalInteger (field "updatedAtMs") && isDecimalInteger (field "modelRounds")
    && isDecimalInteger (field "toolCalls") && isAgentUsage (field "usage")
    && (isMissing (field "pendingPermission") || isAgentPermissionRequest (field "pendingPermission"))
    && isOptionalNullableString (field "messageId") && (isMissing (field "error") || isApiError (field "error"))).

Definition isCancelAgentRunResponse (value : Unknown) : bool :=
  recordAnd value (λ field,
    isTextValue (field "runId")
    && (isLiteral "accepted" (field "disposition") || isLiteral "already_terminal" (field "disposition") || isLiteral "unknown_operation" (field "disposition"))).

Definition isOperationEvent (value : Unknown) : bool :=
  taggedAnd value (λ type field,
    if bool_decide (type = js "started") then true
    else if bool_decide (type = js "progress") then isDecimalInteger (field "rowCount") && isDecimalInteger (field "byteCount")
    else if bool_decide (type = js "completed") then
      recordAnd (field "result") (λ result, isTextValue (result "id") && isDecimalInteger (result "rowCount") && isDecimalInteger (result "byteCount"))
    else if bool_decide (type = js "failed") then isApiError (field "error")
    else if bool_decide (type = js "cancelled") then isMissing (field "reason") || isTextValue (field "reason")
    else false).

Definition isOperationEventEnvelope (value : Unknown) : bool :=
  recordAnd value (λ field,
    isTextValue (field "operationId") && isDecimalInteger (field "sequence") && isDecimalInteger (field "occurredAtMs") && isOperationEvent (field "event")).

Definition isOperationStreamMessage : Unknown → bool := isStreamMessage isOperationEventEnvelope.

Definition isOperationSubscriptionAccepted (value : Unknown) : bool := recordAnd value (λ field, isGivenText (field "subscriptionId")).

(** [normalizeApiError] of a value that is no [ApiRequestError] already. *)
Definition apiErrorOf (value : Unknown) (status : option Z) : option ApiRequestError :=
  if isApiError value then
    match isRecord value with
    | Some d =>
        Some (mkApiRequestError (default [] (textOf (dget (js "code") d))) (default [] (textOf (dget (js "message") d)))
          (match dget (js "retryable") d with Some (PBool b) => b | _ => false end) status)
    | None => None
    end
  else None.

Definition normalizeApiError (value : ApiRequestError + Unknown) : ApiRequestError :=
  match value with
  | inl error => error
  | inr value => default (protocolError (js "The runtime returned an invalid error response") None) (apiErrorOf value None)
  end.

(** ** The guards are the contract *)

(** A guard accepts the values of a schema, and no others. *)
Definition guards (check : Unknown → bool) (s : Schema) : Prop := check None = false ∧ ∀ v, check (Some v) = conforms s v.

Lemma field_required check s u : guards check s → fieldConforms conforms Required s u = check u.
Proof. intros [Hn Hv]. destruct u as [v|]; [|done]. rewrite Hv. by destruct v. Qed.

Lemma field_nullable check s u : guards check s → fieldConforms conforms OptionalNullable s u = isMissing u || check u.
Proof. intros [Hn Hv]. destruct u as [v|]; [|by rewrite Hn]. rewrite Hv. by destruct v. Qed.

Lemma field_optional check s u : guards check s → fieldConforms conforms Optional s u = isUndefined u || check u.
Proof. intros [Hn Hv]. destruct u as [v|]; [|done]. rewrite Hv. by destruct v. Qed.

Lemma guard_text : guards isTextValue SText.
Proof. split; [done|]. by intros []. Qed.
Lemma guard_boolean : guards isBooleanValue SBoolean.
Proof. split; [done|]. by intros []. Qed.
Lemma guard_number : guards isNumberValue SNumber.
Proof. split; [done|]. by intros []. Qed.
Lemma guard_decimal : guards isDecimalInteger SDecimal.
Proof. split; [done|]. by intros []. Qed.
Lemma guard_i32 : guards isI32 Contract.Int32.
Proof. split; [done|]. by intros []. Qed.
Lemma guard_u32 : guards isU32 Contract.Unsigned32.
Proof. split; [done|]. by intros []. Qed.
Lemma guard_given : guards isGivenText SNonEmptyText.
Proof. split; [done|]. by intros [| | | |[]| |]. Qed.
Lemma guard_oneOf texts : guards (isOneOf texts) (SOneOf texts).
Proof. split; [done|]. by intros []. Qed.

Lemma guard_array check s : guards check s → guards (isArrayOf check) (SArray s).
Proof.
  intros [_ Hv]. split; [done|]. intros [| | | | |items|]; try done. cbn. induction items as [|x items IH]; [done|]. cbn. by rewrite Hv, IH.
Qed.

Create HintDb contract.
#[export] Hint Resolve guard_text guard_boolean guard_number guard_decimal guard_i32 guard_u32 guard_given guard_oneOf guard_array : contract.

(** Each field of a schema with the guard that is its own. *)
Ltac guard_fields := repeat first
  [ erewrite field_required by eauto with contract | erewrite field_nullable by eauto with contract | erewrite field_optional by eauto with contract ].

(** Both sides ask the same of the same fields. *)
Ltac same_checks :=
  unfold isNullableString, isNullableNumber, isOptionalNullableString, isOptionalNullableI32, isOptionalNullableU32, isOptionalNullableBoolean;
  repeat match goal with |- context [?check (dget (js ?k) ?d)] => generalize (check (dget (js k) d)); intros ? end;
  apply eq_iff_eq_true; rewrite ?andb_true_r, ?andb_true_iff, ?orb_true_iff; tauto.

(** The cases of a tag. *)
Ltac decide_tags := repeat match goal with
  | |- context [bool_decide (js ?a = js ?b)] =>
      let r := eval vm_compute in (bool_decide (js a = js b)) in change (bool_decide (js a = js b)) with r; cbv iota
  | t : jstr |- context [bool_decide (?t = js ?x)] =>
      destruct (decide (t = js x)) as [?|?]; [subst t|rewrite (bool_decide_eq_false_2 (t = js x)) by done; cbv iota]
  end.

Ltac guard_record def schema :=
  split; [done|]; intros [| | | | | |d]; try done; unfold def, recordAnd;
  cbn [isRecord conforms schema fieldsConform Contract.required Contract.optional Contract.nullable]; guard_fields; try same_checks.

Ltac guard_tagged def schema :=
  split; [done|]; intros [| | | | | |d]; try done; unfold def, taggedAnd; cbn [isRecord conforms schema];
  destruct (dget (js "type") d) as [[| | | |type| |]|]; try done; cbn [textOf caseConforms]; decide_tags;
  cbn [fieldsConform Contract.required Contract.optional Contract.nullable]; try done; guard_fields; try same_checks.

Lemma guard_errorDetails : guards isApiErrorDetails Contract.ApiErrorDetails.
Proof. guard_tagged isApiErrorDetails Contract.ApiErrorDetails. Qed.
#[export] Hint Resolve guard_errorDetails : contract.

Lemma guard_error : guards isApiError Contract.ApiError.
Proof.
  guard_record isApiError Contract.ApiError.
  destruct (isTextValue (dget (js "code") d)), (isTextValue (dget (js "message") d)), (isUndefined (dget (js "retryable") d)), (isBooleanValue (dget (js "retryable") d));
    cbn; by rewrite ?andb_true_r, ?andb_false_r.
Qed.

Lemma guard_usage : guards isAgentUsage Contract.AgentUsage.
Proof. guard_record isAgentUsage Contract.AgentUsage. Qed.
Lemma guard_permissionStatus : guards isAgentPermissionStatus Contract.AgentPermissionStatus.
Proof. apply guard_oneOf. Qed.
#[export] Hint Resolve guard_error guard_usage guard_permissionStatus : contract.

Lemma guard_permission : guards isAgentPermissionRequest Contract.AgentPermissionRequest.
Proof. guard_record isAgentPermissionRequest Contract.AgentPermissionRequest. Qed.
Lemma guard_permissionResponse : guards isAgentPermissionResponse Contract.AgentPermissionResponse.
Proof. guard_record isAgentPermissionResponse Contract.AgentPermissionResponse. Qed.

Lemma guard_jdbcValue : guards isJdbcValue Contract.JdbcValue.
Proof.
  guard_tagged isJdbcValue Contract.JdbcValue;
    try (match goal with |- context [includes (js ?a) ?l] => let r := eval vm_compute in (includes (js a) l) in change (includes (js a) l) with r end; same_checks).
  match goal with |- context [includes type ?l] => replace (includes type l) with false; [done|] end.
  symmetry. apply includes_false. rewrite !elem_of_cons, elem_of_nil. tauto.
Qed.
#[export] Hint Resolve guard_permission guard_permissionResponse guard_jdbcValue : contract.

Lemma text_oneOf x texts u : x && isTextValue u && isOneOf texts u = x && isOneOf texts u.
Proof. destruct u as [[]|], x; done. Qed.

Lemma guard_column : guards isResultColumn Contract.ResultColumn.
Proof.
  split; [done|]; intros [| | | | | |d]; try done; unfold isResultColumn, recordAnd.
  cbn [isRecord conforms Contract.ResultColumn fieldsConform Contract.required Contract.nullable].
  rewrite !text_oneOf. guard_fields. unfold Contract.JdbcValueTypes. same_checks.
Qed.

Lemma guard_row : guards isResultRow Contract.ResultRow.
Proof. guard_record isResultRow Contract.ResultRow. Qed.
#[export] Hint Resolve guard_column guard_row : contract.

Lemma guard_handle : guards isResultHandle Contract.AgentResultHandle.
Proof. guard_record isResultHandle Contract.AgentResultHandle. Qed.
#[export] Hint Resolve guard_handle : contract.

Lemma guard_toolOutput : guards isAgentToolOutput Contract.AgentToolOutput.
Proof. guard_tagged isAgentToolOutput Contract.AgentToolOutput. Qed.
#[export] Hint Resolve guard_toolOutput : contract.

Lemma guard_strategy : guards (λ value, isLiteral "summary" value || isLiteral "deterministic_trim" value) (SOneOf [js "summary"; js "deterministic_trim"]).
Proof.
  split; [done|]. intros [| | | |t| |]; try done. cbn. apply eq_iff_eq_true.
  by rewrite orb_true_iff, !bool_decide_eq_true, includes_true, !elem_of_cons, elem_of_nil; tauto.
Qed.
#[export] Hint Resolve guard_strategy : contract.

Lemma guard_agentEvent : guards isAgentEvent Contract.AgentEvent.
Proof. guard_tagged isAgentEvent Contract.AgentEvent. Qed.
#[export] Hint Resolve guard_agentEvent : contract.

Lemma guard_agentEnvelope : guards isAgentEventEnvelope Contract.AgentEventEnvelope.
Proof. guard_record isAgentEventEnvelope Contract.AgentEventEnvelope. Qed.
#[export] Hint Resolve guard_agentEnvelope : contract.

Lemma guard_agentMessage : guards isAgentStreamMessage Contract.AgentStreamMessage.
Proof. unfold isAgentStreamMessage. guard_tagged isStreamMessage Contract.AgentStreamMessage. Qed.

Lemma guard_accepted : guards isAgentSubscriptionAccepted Contract.SubscriptionAccepted.
Proof. guard_record isAgentSubscriptionAccepted Contract.SubscriptionAccepted. Qed.

Lemma guard_runAccepted : guards isAgentRunAccepted Contract.AgentRunAccepted.
Proof. guard_record isAgentRunAccepted Contract.AgentRunAccepted. Qed.

Lemma guard_runStatus : guards isAgentRunStatus Contract.AgentRunStatus.
Proof. apply guard_oneOf. Qed.
#[export] Hint Resolve guard_runStatus : contract.

Lemma guard_snapshot : guards isAgentRunSnapshot Contract.AgentRunSnapshot.
Proof. guard_record isAgentRunSnapshot Contract.AgentRunSnapshot. Qed.

Lemma guard_cancel : guards isCancelAgentRunResponse Contract.CancelAgentRunResponse.
Proof.
  split; [done|]. intros [| | | | | |d]; try done. unfold isCancelAgentRunResponse, recordAnd.
  cbn [isRecord conforms Contract.CancelAgentRunResponse fieldsConform Contract.required]. guard_fields.
  destruct (dget (js "disposition") d) as [[| | | |t| |]|]; cbn; try (by rewrite andb_false_r). rewrite andb_true_r, andb_comm. f_equal.
  apply eq_iff_eq_true. by rewrite !orb_true_iff, !bool_decide_eq_true, includes_true, !elem_of_cons, elem_of_nil; tauto.
Qed.

(** *** Events of operations: the result of a completed one is checked in part *)

(** The part of the contract that is checked. *)
Definition CheckedOperationEvent : Schema := STagged
  [(js "started", []); (js "progress", [Contract.required "byteCount" SDecimal; Contract.required "rowCount" SDecimal]);
   (js "completed", [Contract.required "result"
     (SObject [Contract.required "byteCount" SDecimal; Contract.required "id" SText; Contract.required "rowCount" SDecimal])]);
   (js "failed", [Contract.required "error" Contract.ApiError]); (js "cancelled", [Contract.nullable "reason" SText])].

Definition CheckedOperationEnvelope : Schema := SObject
  [Contract.required "event" CheckedOperationEvent; Contract.required "occurredAtMs" SDecimal; Contract.required "operationId" SText;
   Contract.required "sequence" SDecimal].

Lemma guard_result : guards (λ value, recordAnd value (λ result, isTextValue (result "id") && isDecimalInteger (result "rowCount") && isDecimalInteger (result "byteCount")))
  (SObject [Contract.required "byteCount" SDecimal; Contract.required "id" SText; Contract.required "rowCount" SDecimal]).
Proof.
  split; [done|]. intros [| | | | | |d]; try done. unfold recordAnd. cbn [isRecord conforms fieldsConform Contract.required]. guard_fields. same_checks.
Qed.
#[export] Hint Resolve guard_result : contract.

Lemma guard_operationEvent : guards isOperationEvent CheckedOperationEvent.
Proof. guard_tagged isOperationEvent CheckedOperationEvent. Qed.
#[export] Hint Resolve guard_operationEvent : contract.

Lemma guard_operationEnvelope : guards isOperationEventEnvelope CheckedOperationEnvelope.
Proof. guard_record isOperationEventEnvelope CheckedOperationEnvelope. Qed.

(** A value of the contract is one of what is checked of it. *)
Lemma result_checked v : conforms Contract.ResultMetadata v = true →
  conforms (SObject [Contract.required "byteCount" SDecimal; Contract.required "id" SText; Contract.required "rowCount" SDecimal]) v = true.
Proof.
  destruct v as [| | | | | |d]; try done. cbn [conforms Contract.ResultMetadata fieldsConform Contract.required]. rewrite !andb_true_iff. tauto.
Qed.

Lemma operationEvent_checked v : conforms Contract.OperationEvent v = true → conforms CheckedOperationEvent v = true.
Proof.
  destruct v as [| | | | | |d]; try done. cbn [conforms Contract.OperationEvent CheckedOperationEvent].
  destruct (textOf _) as [type|]; [|done]. cbn [caseConforms]. destruct (bool_decide (type = js "started")), (bool_decide (type = js "progress")); try done.
  destruct (bool_decide (type = js "completed")); [|done]. cbn [fieldsConform Contract.required].
  destruct (dget (js "result") d) as [v|]; [|done]. rewrite !andb_true_r. unfold fieldConforms. destruct v; try done. apply result_checked.
Qed.

Lemma operationEnvelope_checked v : conforms Contract.OperationEventEnvelope v = true → conforms CheckedOperationEnvelope v = true.
Proof.
  destruct v as [| | | | | |d]; try done. cbn [conforms Contract.OperationEventEnvelope CheckedOperationEnvelope fieldsConform Contract.required].
  rewrite !andb_true_iff. intros [He H]. split; [|done]. destruct (dget (js "event") d) as [v|]; [|done]. unfold fieldConforms in *.
  destruct v; try done; by apply operationEvent_checked.
Qed.

(** The client accepts what the contract says.  The guards of the errors, of the messages, events, snapshots and answers of
    agent runs and of the permissions accept exactly the values that conform to the types of the contract; the guard of the events of operations accepts all
    values that do.  The cursors that are accepted are the decimal texts of numbers of 64 bits. *)
Theorem guards_follow_contract :
  (∀ v, isApiError (Some v) = conforms Contract.ApiError v) ∧
  (∀ v, isAgentEventEnvelope (Some v) = conforms Contract.AgentEventEnvelope v) ∧
  (∀ v, isAgentStreamMessage (Some v) = conforms Contract.AgentStreamMessage v) ∧
  (∀ v, isAgentRunSnapshot (Some v) = conforms Contract.AgentRunSnapshot v) ∧
  (∀ v, isAgentRunAccepted (Some v) = conforms Contract.AgentRunAccepted v) ∧
  (∀ v, isAgentSubscriptionAccepted (Some v) = conforms Contract.SubscriptionAccepted v) ∧
  (∀ v, isCancelAgentRunResponse (Some v) = conforms Contract.CancelAgentRunResponse v) ∧
  (∀ v, isAgentPermissionResponse (Some v) = conforms Contract.AgentPermissionResponse v) ∧
  (∀ v, conforms Contract.OperationEventEnvelope v = true → isOperationEventEnvelope (Some v) = true) ∧
  (∀ text n, parseOperationCursor text = inr n ↔ isDigits text = true ∧ bigInt text = n ∧ (n ≤ MAX_U64)%Z).
Proof.
  split_and!.
  - apply guard_error.
  - apply guard_agentEnvelope.
  - apply guard_agentMessage.
  - apply guard_snapshot.
  - apply guard_runAccepted.
  - apply guard_accepted.
  - apply guard_cancel.
  - apply guard_permissionResponse.
  - intros v Hv. destruct guard_operationEnvelope as [_ ->]. by apply operationEnvelope_checked.
  - intros text n. unfold parseOperationCursor. destruct (isDigits text); cbn [negb]; [|split; [done|by intros [? _]]].
    destruct (Z.ltb_spec MAX_U64 (bigInt text)); split.
    + done.
    + intros (_ & <- & ?). lia.
    + by intros [= <-].
    + by intros (_ & <- & _).
Qed.

(** A completed operation whose result has no times is accepted. *)
Example completed_without_times :
  let event := PObject [(js "type", PText (js "completed"));
                        (js "result", PObject [(js "id", PText (js "r")); (js "rowCount", PText (js "1")); (js "byteCount", PText (js "1"))])] in
  let v := PObject [(js "operationId", PText (js "op")); (js "sequence", PText (js "1")); (js "occurredAtMs", PText (js "0")); (js "event", event)] in
  isOperationEventEnvelope (Some v) = true ∧ conforms Contract.OperationEventEnvelope v = false.
Proof. split; vm_compute; reflexivity. Qed.

(** A sequence number beyond 64 bits is accepted in an event and refused as a cursor. *)
Example sequence_beyond_cursor :
  isDecimalInteger (Some (PText (js "18446744073709551616"))) = true ∧ parseOperationCursor (js "18446744073709551616") = inl invalidCursor.
Proof. split; vm_compute; reflexivity. Qed.
