(* ===== verification/BackendStreams.v ===== *)
(** * BackendStreams: subscriptions to events of the runtime
    Models [subscribeAgentRun] and [subscribeOperation] of [backend/http.ts] and [backend/tauri.ts]: the two
    functions of a transport are the same but for the guard, the field of the identifier and the texts of
    their errors, a [StreamKind].  A subscription is a step function: an input is what wakes it up.  The parser of
    server-sent events and [JSON.parse] are parameters, and so is what the caller does with an event: whether it closes the subscription. *)

From S2P Require Import Prelude JsNumber BackendMessages.
Local Open Scope nat_scope.

(** ** What differs between runs of agents and operations *)

Record StreamKind := mkKind {
  isEventEnvelope : Unknown → bool;
  idField : string;
  malformedEvent : string;
  invalidStreamError : string;
  invalidEvent : string;
  inconsistentEvent : string;
  outOfOrderEvent : string;
  streamWithoutBody : string;
  desktopInvalidMessage : string;
  desktopOtherEvent : string;
  desktopOutOfOrder : string;
  desktopInvalidId : string;
}.

Definition agentKind : StreamKind := {|
  isEventEnvelope := isAgentEventEnvelope;
  idField := "runId";
  malformedEvent := "The runtime emitted malformed agent event JSON";
  invalidStreamError := "The runtime emitted an invalid agent stream error";
  invalidEvent := "The runtime emitted an invalid agent event";
  inconsistentEvent := "The runtime emitted inconsistent agent event metadata";
  outOfOrderEvent := "The runtime emitted an out-of-order agent event";
  streamWithoutBody := "The runtime opened an agent event stream without a body";
  desktopInvalidMessage := "The desktop runtime emitted an invalid agent stream message";
  desktopOtherEvent := "The desktop runtime emitted an event for another agent run";
  desktopOutOfOrder := "The desktop runtime emitted an out-of-order agent event";
  desktopInvalidId := "The desktop runtime returned an invalid agent subscription id";
|}.

Definition operationKind : StreamKind := {|
  isEventEnvelope := isOperationEventEnvelope;
  idField := "operationId";
  malformedEvent := "The runtime emitted malformed operation event JSON";
  invalidStreamError := "The runtime emitted an invalid stream error";
  invalidEvent := "The runtime emitted an invalid operation event";
  inconsistentEvent := "The runtime emitted inconsistent operation event metadata";
  outOfOrderEvent := "The runtime emitted an out-of-order operation event";
  streamWithoutBody := "The runtime opened an event stream without a body";
  desktopInvalidMessage := "The desktop runtime emitted an invalid operation stream message";
  desktopOtherEvent := "The desktop runtime emitted an event for another operation";
  desktopOutOfOrder := "The desktop runtime emitted an out-of-order operation event";
  desktopInvalidId := "The desktop runtime returned an invalid subscription id";
|}.

(** ** Fields of events *)

Definition fieldOf (k : string) (v : Payload) : Unknown := match v with PObject d => dget (js k) d | _ => None end.
Definition textField (k : string) (v : Payload) : option jstr := textOf (fieldOf k v).

(** [BigInt(payload.sequence)]. *)
Definition sequenceOf (v : Payload) : Z := bigInt (default [] (textField "sequence" v)).
(** [payload.event.type]. *)
Definition eventType (v : Payload) : option jstr := match fieldOf "event" v with Some e => textField "type" e | None => None end.

(** ** What a caller is told *)

(** An error: an [ApiRequestError], or another one, which may be that of an abort. *)
Inductive StreamError := ApiFailure (e : ApiRequestError) | OtherFailure (isAbort : bool).

Inductive Callback := OnEvent (payload : Payload) | OnError (e : StreamError) | OnClose.

Definition isAbortError (e : StreamError) : bool := match e with OtherFailure isAbort => isAbort | ApiFailure _ => false end.
Definition failure (message : string) : StreamError := ApiFailure (protocolError (js message) None).

(** A sequence number that is not after the last one. *)
Definition isStale (lastSequence : option Z) (sequence : Z) : bool :=
  match lastSequence with Some last => (sequence <=? last)%Z | None => false end.

(** A cursor that is given: the error it is, or the number. *)
Definition parseAfter (afterSequence : option jstr) : ApiRequestError + option Z :=
  match afterSequence with
  | None => inr None
  | Some text => match parseOperationCursor text with inl e => inl e | inr n => inr (Some n) end
  end.

Section subscriptions.
Context (K : StreamKind) (identifier : jstr) (closesOn : Payload → bool).

(** ** HTTP: server-sent events *)

Record SseMessage := mkSse { sseEvent : option jstr; sseId : option jstr; sseData : jstr }.

Record HttpStream := mkHttp {
  httpActive : bool;
  httpLast : option Z;
  httpAborted : bool;  (* the controller of the request *)
  httpListening : bool;  (* to the signal of the caller *)
  httpFinished : bool;
  httpCallbacks : list Callback;
}.

Definition httpTell (c : Callback) (s : HttpStream) : HttpStream :=
  mkHttp (httpActive s) (httpLast s) (httpAborted s) (httpListening s) (httpFinished s) (httpCallbacks s ++ [c]).

(** The [close] that the caller gets. *)
Definition httpClose (s : HttpStream) : HttpStream :=
  if negb (httpActive s) then s else mkHttp false (httpLast s) true false (httpFinished s) (httpCallbacks s).

Definition httpDeliver (payload : Payload) (s : HttpStream) : HttpStream :=
  if httpActive s then
    let s := httpTell (OnEvent payload) s in if closesOn payload then httpClose s else s
  else s.

Definition given (t : option jstr) : option jstr := match t with Some [] => None | _ => t end.

(** A text of the message that says otherwise than its data. *)
Definition contradicts (said : option jstr) (actual : option jstr) : bool :=
  match given said with Some t => negb (bool_decide (Some t = actual)) | None => false end.

Section http.
Context (parseJson : jstr → option Payload).

(** [onEvent] of the parser: the state after it and what it throws. *)
Definition handleMessage (m : SseMessage) (s : HttpStream) : HttpStream * option StreamError :=
  match parseJson (sseData m) with
  | None => (s, Some (failure (malformedEvent K)))
  | Some payload =>
      if bool_decide (sseEvent m = Some (js "error")) then
        (s, Some (match apiErrorOf (Some payload) None with Some e => ApiFailure e | None => failure (invalidStreamError K) end))
      else if negb (isEventEnvelope K (Some payload)) || negb (bool_decide (textField (idField K) payload = Some identifier)) then
        (s, Some (failure (invalidEvent K)))
      else if contradicts (sseId m) (textField "sequence" payload) || contradicts (sseEvent m) (eventType payload) then
        (s, Some (failure (inconsistentEvent K)))
      else
        let sequence := sequenceOf payload in
        if isStale (httpLast s) sequence then (s, Some (failure (outOfOrderEvent K)))
        else
          let s := mkHttp (httpActive s) (Some sequence) (httpAborted s) (httpListening s) (httpFinished s) (httpCallbacks s) in
          (httpDeliver payload s, None)
  end.

Fixpoint handleMessages (ms : list SseMessage) (s : HttpStream) : HttpStream * option StreamError :=
  match ms with
  | [] => (s, None)
  | m :: ms => match handleMessage m s with (s, Some e) => (s, Some e) | (s, None) => handleMessages ms s end
  end.

(** The [catch] of the loop that reads. *)
Definition readFailed (e : StreamError) (s : HttpStream) : HttpStream :=
  if httpActive s && negb (isAbortError e) then
    let s := httpTell (OnError e) s in mkHttp (httpActive s) (httpLast s) true (httpListening s) (httpFinished s) (httpCallbacks s)
  else s.

(** The [finally]. *)
Definition readEnded (s : HttpStream) : HttpStream :=
  httpTell OnClose (mkHttp false (httpLast s) (httpAborted s) false true (httpCallbacks s)).

(** A read that is answered with the messages its text completes, at the end with those that were left; a read that fails; the caller closes or aborts. *)
Inductive HttpInput := Chunk (messages : list SseMessage) | Done (messages : list SseMessage) | ReadError (e : StreamError) | HttpCallClose | HttpCallerAborts.

Definition httpStep (s : HttpStream) (i : HttpInput) : HttpStream :=
  match i with
  | HttpCallClose => httpClose s
  | HttpCallerAborts =>
      if httpListening s then mkHttp (httpActive s) (httpLast s) true false (httpFinished s) (httpCallbacks s) else s
  | Chunk ms =>
      if httpFinished s then s
      else match handleMessages ms s with
           | (s, Some e) => readEnded (readFailed e s)
           | (s, None) => if httpActive s then s else readEnded s
           end
  | Done ms =>
      if httpFinished s then s
      else match handleMessages ms s with
           | (s, Some e) => readEnded (readFailed e s)
           | (s, None) => readEnded s
           end
  | ReadError e => if httpFinished s then s else readEnded (readFailed e s)
  end.
End http.

(** What becomes of the request that opens the stream. *)
Inductive FetchOutcome := FetchFailed (e : StreamError) | Answered (status : Z) (hasBody : bool) (errorBody : option Payload).

(** [apiFailure]: [None] is a body that is no JSON. *)
Definition apiFailure (errorBody : option Payload) (status : Z) : ApiRequestError :=
  match errorBody with
  | None => protocolError (js "The runtime returned malformed JSON") (Some status)
  | Some payload =>
      default (protocolError (js "The runtime returned an invalid error response") (Some status)) (apiErrorOf (Some payload) (Some status))
  end.

Definition subscribeHttp (afterSequence : option jstr) (fetch : FetchOutcome) : StreamError + HttpStream :=
  match parseAfter afterSequence with
  | inl e => inl (ApiFailure e)
  | inr initialSequence =>
      match fetch with
      | FetchFailed e => inl e
      | Answered status hasBody errorBody =>
          if negb (status =? 200)%Z then inl (ApiFailure (apiFailure errorBody status))
          else if negb hasBody then inl (ApiFailure (protocolError (js (streamWithoutBody K)) (Some status)))
          else inr (mkHttp true initialSequence false true false [])
      end
  end.

(** ** The desktop: a channel *)

Record TauriStream := mkTauri {
  tauriActive : bool;
  tauriLast : option Z;
  subscriptionId : option jstr;
  tauriListening : bool;
  tauriAborted : bool;  (* the signal of the caller *)
  released : list jstr;
  tauriPromise : option (StreamError + unit);  (* of the subscription *)
  tauriCallbacks : list Callback;
}.

Definition tauriTell (c : Callback) (s : TauriStream) : TauriStream :=
  mkTauri (tauriActive s) (tauriLast s) (subscriptionId s) (tauriListening s) (tauriAborted s) (released s) (tauriPromise s) (tauriCallbacks s ++ [c]).

Definition unsubscribe (s : TauriStream) : TauriStream :=
  match subscriptionId s with
  | None => s
  | Some releasedId =>
      mkTauri (tauriActive s) (tauriLast s) None (tauriListening s) (tauriAborted s) (released s ++ [releasedId]) (tauriPromise s) (tauriCallbacks s)
  end.

Definition tauriClose (s : TauriStream) : TauriStream :=
  if negb (tauriActive s) then s
  else tauriTell OnClose (unsubscribe
         (mkTauri false (tauriLast s) (subscriptionId s) false (tauriAborted s) (released s) (tauriPromise s) (tauriCallbacks s))).

Definition tauriFail (e : StreamError) (s : TauriStream) : TauriStream :=
  if negb (tauriActive s) then s else tauriClose (tauriTell (OnError e) s).

(** [channel.onmessage], which a closed subscription has no more. *)
Definition tauriMessage (message : Payload) (s : TauriStream) : TauriStream :=
  if negb (tauriActive s) then s
  else if negb (isStreamMessage (isEventEnvelope K) (Some message)) then tauriFail (failure (desktopInvalidMessage K)) s
  else if bool_decide (textField "type" message = Some (js "error")) then
    tauriFail (ApiFailure (normalizeApiError (inr (fieldOf "error" message)))) s
  else if bool_decide (textField "type" message = Some (js "end")) then tauriClose s
  else match fieldOf "event" message with
       | None => s
       | Some event =>
           if negb (bool_decide (textField (idField K) event = Some identifier)) then tauriFail (failure (desktopOtherEvent K)) s
           else
             let sequence := sequenceOf event in
             if isStale (tauriLast s) sequence then tauriFail (failure (desktopOutOfOrder K)) s
             else
               let s := tauriTell (OnEvent event)
                 (mkTauri (tauriActive s) (Some sequence) (subscriptionId s) (tauriListening s) (tauriAborted s) (released s) (tauriPromise s) (tauriCallbacks s)) in
               if closesOn event then tauriClose s else s
       end.

Definition tauriSettle (outcome : StreamError + unit) (s : TauriStream) : TauriStream :=
  mkTauri (tauriActive s) (tauriLast s) (subscriptionId s) (tauriListening s) (tauriAborted s) (released s) (Some outcome) (tauriCallbacks s).

(** The [catch] around the request. *)
Definition subscribeRejected (e : StreamError) (s : TauriStream) : TauriStream := tauriSettle (inl e) (tauriClose s).

(** The runtime answered the request; [abortError] is what the signal was aborted with. *)
Definition tauriAccepted (accepted : Payload) (s : TauriStream) : TauriStream :=
  match textField "subscriptionId" accepted with
  | Some (_ :: _) =>
      let s := mkTauri (tauriActive s) (tauriLast s) (textField "subscriptionId" accepted) (tauriListening s) (tauriAborted s) (released s)
                 (tauriPromise s) (tauriCallbacks s) in
      if negb (tauriActive s) || tauriAborted s then
        let s := unsubscribe s in
        if tauriAborted s then subscribeRejected (OtherFailure true) s else tauriSettle (inr ()) s
      else tauriSettle (inr ()) s
  | _ => subscribeRejected (failure (desktopInvalidId K)) s
  end.

Inductive TauriInput := Message (v : Payload) | Accepted (v : Payload) | Refused (error : ApiRequestError + Unknown) | TauriCallClose | TauriCallerAborts.

(** The request is answered once. *)
Definition tauriStep (s : TauriStream) (i : TauriInput) : TauriStream :=
  match i with
  | Message v => tauriMessage v s
  | TauriCallClose => tauriClose s
  | TauriCallerAborts =>
      let s' := mkTauri (tauriActive s) (tauriLast s) (subscriptionId s) (tauriListening s) true (released s) (tauriPromise s) (tauriCallbacks s) in
      if tauriListening s then tauriClose s' else s'
  | Accepted v => match tauriPromise s with None => tauriAccepted v s | Some _ => s end
  | Refused error => match tauriPromise s with None => subscribeRejected (ApiFailure (normalizeApiError error)) s | Some _ => s end
  end.

(** The state while the request is under way.  A signal that is aborted already closes at once: the caller is told so, and the promise is rejected. *)
Definition subscribeTauri (afterSequence : option jstr) (callerAborted : bool) : StreamError * list Callback + TauriStream :=
  match parseAfter afterSequence with
  | inl e => inl (ApiFailure e, [])
  | inr initialSequence =>
      if callerAborted then inl (OtherFailure true, [OnClose]) else inr (mkTauri true initialSequence None true false [] None [])
  end.
End subscriptions.
