(* ===== verification/BackendStreamLaws.v ===== *)
(** * BackendStreamLaws: what a subscription tells, whatever the transport
    The contract that [backend/client.ts] offers to its callers and that both transports keep: genuine events of
    the right run or operation, in the order of their numbers and after the cursor, then at most one error and one
    end.  The contract is an abstract stream, a class; the two transports of [BackendStreams] are its instances. *)

From S2P Require Import Prelude JsNumber BackendMessages BackendStreams.
Local Open Scope nat_scope.

(** ** The contract *)

(** Numbers that go up, the first one beyond [after]. *)
Fixpoint Ascending (after : option Z) (zs : list Z) : Prop :=
  match zs with [] => True | z :: zs => isStale after z = false ∧ Ascending (Some z) zs end.

(** The last of them. *)
Fixpoint topOf (after : option Z) (zs : list Z) : option Z := match zs with [] => after | z :: zs => topOf (Some z) zs end.

(** A cursor that has come no less far. *)
Definition below (a b : option Z) : Prop :=
  match a, b with None, _ => True | Some a, Some b => (a <= b)%Z | Some _, None => False end.

Lemma below_trans a b c : below a b → below b c → below a c.
Proof. destruct a, b, c; simpl; try done; lia. Qed.

Lemma below_stale a b z : below a b → isStale b z = false → isStale a z = false.
Proof. destruct a, b; simpl; try done. rewrite !Z.leb_gt. lia. Qed.

Lemma topOf_snoc a zs z : topOf a (zs ++ [z]) = Some z.
Proof. revert a. induction zs as [|x zs IH]; intros a; simpl; [done|apply IH]. Qed.

Lemma Ascending_snoc a zs z : Ascending a (zs ++ [z]) ↔ Ascending a zs ∧ isStale (topOf a zs) z = false.
Proof. revert a. induction zs as [|x zs IH]; intros a; simpl; [tauto|]. rewrite IH. tauto. Qed.

(** How what the caller is told ends: it does not yet, with the end, or with an error and the end. *)
Inductive Ending : list Callback → Prop :=
  | StillOpen : Ending []
  | Ended : Ending [OnClose]
  | Broken e : Ending [OnError e; OnClose].

Definition genuine (K : StreamKind) (identifier : jstr) (payload : Payload) : Prop :=
  isEventEnvelope K (Some payload) = true ∧ textField (idField K) payload = Some identifier.

Section contract.
Context (K : StreamKind) (identifier : jstr).

Definition Lawful (after : option Z) (told : list Callback) : Prop :=
  ∃ events tail, told = (OnEvent <$> events) ++ tail ∧ Forall (genuine K identifier) events
    ∧ Ascending after (sequenceOf <$> events) ∧ Ending tail.

(** The contract with what a stream knows: the last number it took, and whether it goes on. *)
Definition Telling (after last : option Z) (open : bool) (told : list Callback) : Prop :=
  ∃ events tail, told = (OnEvent <$> events) ++ tail ∧ Forall (genuine K identifier) events
    ∧ Ascending after (sequenceOf <$> events) ∧ Ending tail ∧ below (topOf after (sequenceOf <$> events)) last ∧ (open = true ↔ tail = []).

Lemma telling_lawful after last open told : Telling after last open told → Lawful after told.
Proof. intros (events & tail & ? & ? & ? & ? & _). by exists events, tail. Qed.

Lemma telling_begins after : Telling after after true [].
Proof. exists [], []. repeat split; try done; [constructor|]. destruct after; simpl; [lia|done]. Qed.

Lemma telling_below after last last' open told : below last last' → Telling after last open told → Telling after last' open told.
Proof.
  intros Hb (events & tail & ? & ? & ? & ? & ? & ?).
  exists events, tail. repeat split_and; try done; tauto || by eapply below_trans.
Qed.

Lemma telling_open after last told :
  Telling after last true told ↔
  ∃ events, told = OnEvent <$> events ∧ Forall (genuine K identifier) events ∧ Ascending after (sequenceOf <$> events)
    ∧ below (topOf after (sequenceOf <$> events)) last.
Proof.
  split.
  - intros (events & tail & -> & ? & ? & _ & ? & Ht). assert (tail = []) as -> by tauto. exists events. by rewrite app_nil_r.
  - intros (events & -> & ? & ? & ?). exists events, []. rewrite app_nil_r. repeat split; try done. constructor.
Qed.

Lemma telling_event after last told payload :
  Telling after last true told → genuine K identifier payload → isStale last (sequenceOf payload) = false →
  Telling after (Some (sequenceOf payload)) true (told ++ [OnEvent payload]).
Proof.
  rewrite !telling_open. intros (events & -> & ? & ? & ?) ? Hs. exists (events ++ [payload]).
  rewrite !fmap_app; simpl. rewrite topOf_snoc, Ascending_snoc, Forall_app, Forall_singleton.
  repeat split_and; try done; [by eapply below_stale|simpl; lia].
Qed.

Lemma telling_ends after last told ending :
  Telling after last true told → Ending ending → ending ≠ [] → Telling after last false (told ++ ending).
Proof. rewrite telling_open. intros (events & -> & ? & ? & ?) ? ?. exists events, ending. by repeat split_and. Qed.

(** A stream: what wakes it up, whether it goes on, its last number and what it has told. *)
Class Stream (T In : Type) := { stepOf : T → In → T; openOf : T → bool; lastOf : T → option Z; toldOf : T → list Callback }.

(** No step breaks the contract. *)
Class KeepsContract (T In : Type) `{Stream T In} :=
  step_keeps after s i : Telling after (lastOf s) (openOf s) (toldOf s) → Telling after (lastOf (stepOf s i)) (openOf (stepOf s i)) (toldOf (stepOf s i)).

Lemma run_keeps {T In} (ST : Stream T In) (KC : KeepsContract T In) after inputs s :
  Telling after (lastOf s) (openOf s) (toldOf s) →
  Telling after (lastOf (foldl stepOf s inputs)) (openOf (foldl stepOf s inputs)) (toldOf (foldl stepOf s inputs)).
Proof. revert s. induction inputs as [|i inputs IH]; intros s ?; simpl; [done|]. by apply IH, step_keeps. Qed.
End contract.
Create HintDb streams.
#[export] Hint Resolve telling_event telling_ends telling_below : streams.

(** ** The stream of the web *)

Section http.
Context (K : StreamKind) (identifier : jstr) (closesOn : Payload → bool) (parseJson : jstr → option Payload).

#[export] Instance httpStream : Stream HttpStream HttpInput := {|
  stepOf := httpStep K identifier closesOn parseJson;
  openOf s := negb (httpFinished s);
  lastOf := httpLast;
  toldOf := httpCallbacks;
|}.

(** A stream that has not finished, and keeps the contract. *)
Definition httpRuns (after : option Z) (s : HttpStream) : Prop :=
  httpFinished s = false ∧ Telling K identifier after (httpLast s) true (httpCallbacks s).

Lemma httpClose_runs after s : httpRuns after s → httpRuns after (httpClose s).
Proof. unfold httpClose. by destruct (httpActive s). Qed.

Lemma handleMessage_runs after m s : httpRuns after s → httpRuns after (handleMessage K identifier closesOn parseJson m s).1.
Proof.
  intros [Hf Ht]. unfold handleMessage. destruct (parseJson (sseData m)) as [payload|]; [|done].
  destruct (bool_decide _); [done|].
  destruct (negb (isEventEnvelope K (Some payload))) eqn:He; simpl; [done|].
  destruct (bool_decide (textField _ _ = _)) eqn:Hid; simpl; [|done]. apply bool_decide_eq_true in Hid.
  destruct (_ || _); [done|]. destruct (isStale _ _) eqn:Hs; [done|]. simpl. unfold httpDeliver; simpl.
  assert (genuine K identifier payload) as Hg by (split; [by apply negb_false_iff|done]).
  destruct (httpActive s).
  - destruct (closesOn payload); [apply httpClose_runs|]; split; simpl; eauto with streams.
  - split; simpl; [done|]. eapply telling_below, Ht. destruct (httpLast s); simpl in *; [|done]. apply Z.leb_gt in Hs. lia.
Qed.

Lemma handleMessages_runs after ms s : httpRuns after s → httpRuns after (handleMessages K identifier closesOn parseJson ms s).1.
Proof.
  revert s. induction ms as [|m ms IH]; intros s Hs; simpl; [done|].
  pose proof (handleMessage_runs after m s Hs) as Hm. destruct (handleMessage _ _ _ _ m s) as [s' [e|]]; simpl in *; [done|]. by apply IH.
Qed.

Lemma readEnded_keeps after s : httpRuns after s → Telling K identifier after (httpLast (readEnded s)) false (httpCallbacks (readEnded s)).
Proof. intros [_ Ht]. apply telling_ends; [done|constructor|done]. Qed.

Lemma readFailed_keeps after e s :
  httpRuns after s → Telling K identifier after (httpLast (readEnded (readFailed e s))) false (httpCallbacks (readEnded (readFailed e s))).
Proof.
  intros Hs. unfold readFailed. destruct (_ && _); [|by apply readEnded_keeps].
  simpl. rewrite <- app_assoc. apply telling_ends; [apply Hs|apply Broken|done].
Qed.

#[export] Instance http_keeps : KeepsContract K identifier HttpStream HttpInput.
Proof.
  intros after s i Ht. simpl in *.
  assert (httpFinished s = false → httpRuns after s) as Hruns by (intros Hf; rewrite Hf in Ht; by split).
  destruct i as [ms|ms|e| |]; simpl.
  - destruct (httpFinished s) eqn:Hf; [by rewrite Hf|]. pose proof (handleMessages_runs after ms s (Hruns eq_refl)) as Hm.
    destruct (handleMessages _ _ _ _ ms s) as [s' [e|]]; simpl in Hm; [by apply readFailed_keeps|].
    destruct (httpActive s'); [destruct Hm as [-> ?]; done|by apply readEnded_keeps].
  - destruct (httpFinished s) eqn:Hf; [by rewrite Hf|]. pose proof (handleMessages_runs after ms s (Hruns eq_refl)) as Hm.
    destruct (handleMessages _ _ _ _ ms s) as [s' [e|]]; simpl in Hm; [by apply readFailed_keeps|by apply readEnded_keeps].
  - destruct (httpFinished s) eqn:Hf; [by rewrite Hf|]. by apply readFailed_keeps, Hruns.
  - unfold httpClose. by destruct (httpActive s).
  - by destruct (httpListening s).
Qed.
End http.

(** ** The stream of the desktop *)

Section tauri.
Context (K : StreamKind) (identifier : jstr) (closesOn : Payload → bool).

#[export] Instance tauriStream : Stream TauriStream TauriInput := {|
  stepOf := tauriStep K identifier closesOn;
  openOf := tauriActive;
  lastOf := tauriLast;
  toldOf := tauriCallbacks;
|}.

Definition tauriKeeps (after : option Z) (s : TauriStream) : Prop :=
  Telling K identifier after (tauriLast s) (tauriActive s) (tauriCallbacks s).

Lemma unsubscribe_same s : tauriLast (unsubscribe s) = tauriLast s ∧ tauriActive (unsubscribe s) = tauriActive s ∧ tauriCallbacks (unsubscribe s) = tauriCallbacks s.
Proof. unfold unsubscribe. by destruct (subscriptionId s). Qed.

Lemma unsubscribe_keeps after s : tauriKeeps after s → tauriKeeps after (unsubscribe s).
Proof. unfold tauriKeeps. by destruct (unsubscribe_same s) as (-> & -> & ->). Qed.

Lemma tauriClose_state s : tauriActive s = true →
  tauriLast (tauriClose s) = tauriLast s ∧ tauriActive (tauriClose s) = false ∧ tauriCallbacks (tauriClose s) = tauriCallbacks s ++ [OnClose].
Proof.
  intros Ha. unfold tauriClose. rewrite Ha. simpl.
  match goal with |- context [unsubscribe ?t] => destruct (unsubscribe_same t) as (-> & -> & ->) end. done.
Qed.

Lemma tauriClose_keeps after s : tauriKeeps after s → tauriKeeps after (tauriClose s).
Proof.
  intros Ht. destruct (tauriActive s) eqn:Ha; [|unfold tauriClose; by rewrite Ha].
  unfold tauriKeeps in *. destruct (tauriClose_state s Ha) as (-> & -> & ->). rewrite Ha in Ht. by apply telling_ends; [..|constructor|].
Qed.

Lemma tauriFail_keeps after e s : tauriKeeps after s → tauriKeeps after (tauriFail e s).
Proof.
  intros Ht. unfold tauriFail. destruct (tauriActive s) eqn:Ha; [|done]. simpl.
  unfold tauriKeeps in *. destruct (tauriClose_state (tauriTell (OnError e) s)) as (-> & -> & ->); [done|].
  simpl. rewrite <- app_assoc. rewrite Ha in Ht. apply telling_ends; [done|apply Broken|done].
Qed.

(** A message that is no error and no end is an event. *)
Lemma message_event message event :
  isStreamMessage (isEventEnvelope K) (Some message) = true → textField "type" message ≠ Some (js "error") → textField "type" message ≠ Some (js "end") →
  fieldOf "event" message = Some event → isEventEnvelope K (Some event) = true.
Proof.
  unfold isStreamMessage, taggedAnd, textField, fieldOf. destruct message as [| | | | | |d]; simpl; try done.
  destruct (dget (js "type") d) as [[| | | |t| |]|]; simpl; try done.
  intros Hc He Hend Hev. destruct (bool_decide (t = js "event")); [by rewrite Hev in Hc|].
  rewrite bool_decide_eq_false_2 in Hc by congruence. apply bool_decide_eq_true in Hc. congruence.
Qed.

Lemma tauriMessage_keeps after v s : tauriKeeps after s → tauriKeeps after (tauriMessage K identifier closesOn v s).
Proof.
  intros Ht. unfold tauriMessage. destruct (tauriActive s) eqn:Ha; simpl; [|done].
  destruct (isStreamMessage _ _) eqn:Hm; simpl; [|by apply tauriFail_keeps].
  destruct (bool_decide (_ = Some (js "error"))) eqn:He; [by apply tauriFail_keeps|].
  destruct (bool_decide (_ = Some (js "end"))) eqn:Hend; [by apply tauriClose_keeps|].
  apply bool_decide_eq_false in He, Hend. destruct (fieldOf "event" v) as [event|] eqn:Hev; [|done].
  destruct (bool_decide (_ = Some identifier)) eqn:Hid; simpl; [|by apply tauriFail_keeps]. apply bool_decide_eq_true in Hid.
  destruct (isStale _ _) eqn:Hs; [by apply tauriFail_keeps|]. simpl.
  assert (genuine K identifier event) as Hg by (split; [by eapply message_event|done]).
  destruct (closesOn event); [apply tauriClose_keeps|]; unfold tauriKeeps in *; simpl; rewrite Ha in *; eauto with streams.
Qed.

Lemma subscribeRejected_keeps after e s : tauriKeeps after s → tauriKeeps after (subscribeRejected e s).
Proof. intros. by apply (tauriClose_keeps after s). Qed.

#[export] Instance tauri_keeps : KeepsContract K identifier TauriStream TauriInput.
Proof.
  intros after s i Ht. change (tauriKeeps after s) in Ht. change (tauriKeeps after (tauriStep K identifier closesOn s i)).
  destruct i as [v|v|error| |]; simpl.
  - by apply tauriMessage_keeps.
  - destruct (tauriPromise s); [done|]. unfold tauriAccepted.
    destruct (textField "subscriptionId" v) as [[|c t]|]; try by apply subscribeRejected_keeps.
    match goal with |- context [unsubscribe ?t] => assert (tauriKeeps after t) as Hk by exact Ht; pose proof (unsubscribe_keeps after t Hk) as Hu end.
    destruct (negb _ || _); [|exact Hk]. destruct (tauriAborted _); [by apply subscribeRejected_keeps|exact Hu].
  - destruct (tauriPromise s); [done|]. by apply subscribeRejected_keeps.
  - by apply tauriClose_keeps.
  - destruct (tauriListening s); [|exact Ht].
    match goal with |- tauriKeeps _ (tauriClose ?t) => by apply (tauriClose_keeps after t) end.
Qed.
End tauri.

(** ** Both transports keep the contract *)

Lemma subscribeHttp_state K after fetch s :
  subscribeHttp K after fetch = inr s → ∃ cursor, parseAfter after = inr cursor ∧ s = mkHttp true cursor false true false [].
Proof. unfold subscribeHttp. intros H. repeat case_match; simplify_eq; eauto. Qed.

Lemma subscribeTauri_state after aborted s :
  subscribeTauri after aborted = inr s → ∃ cursor, parseAfter after = inr cursor ∧ s = mkTauri true cursor None true false [] None [].
Proof. unfold subscribeTauri. intros H. repeat case_match; simplify_eq; eauto. Qed.

(** Whichever way a runtime is reached and whatever it sends, a caller is told events that the guard of their kind accepts, of the run or
    operation that was asked for, their numbers going up from beyond the cursor that was given, then nothing yet, the end, or one error and the end:
    never an event after them, a second error or a second end. *)
Theorem subscriptions_lawful K identifier closesOn parseJson after fetch aborted http desktop httpInputs desktopInputs :
  subscribeHttp K after fetch = inr http → subscribeTauri after aborted = inr desktop →
  ∃ cursor, parseAfter after = inr cursor
    ∧ Lawful K identifier cursor (httpCallbacks (foldl (httpStep K identifier closesOn parseJson) http httpInputs))
    ∧ Lawful K identifier cursor (tauriCallbacks (foldl (tauriStep K identifier closesOn) desktop desktopInputs)).
Proof.
  intros (cursor & Hc & ->)%subscribeHttp_state (cursor' & Hc' & ->)%subscribeTauri_state. rewrite Hc in Hc'. injection Hc' as <-.
  exists cursor. split; [done|split].
  - eapply telling_lawful. exact (run_keeps K identifier (httpStream K identifier closesOn parseJson) _ cursor httpInputs (mkHttp true cursor false true false []) (telling_begins K identifier cursor)).
  - eapply telling_lawful. exact (run_keeps K identifier (tauriStream K identifier closesOn) _ cursor desktopInputs (mkTauri true cursor None true false [] None []) (telling_begins K identifier cursor)).
Qed.

(** ** A caller that closes *)

Section closed.
Context (K : StreamKind) (identifier : jstr) (closesOn : Payload → bool) (parseJson : jstr → option Payload).

(** Nothing but the end is told after the callbacks [base]. *)
Definition silentSince (base : list Callback) (s : HttpStream) : Prop :=
  httpActive s = false ∧ (httpCallbacks s = base ∨ httpFinished s = true ∧ httpCallbacks s = base ++ [OnClose]).

Lemma handleMessages_silent ms s : httpActive s = false →
  let s' := (handleMessages K identifier closesOn parseJson ms s).1 in
  httpActive s' = false ∧ httpFinished s' = httpFinished s ∧ httpCallbacks s' = httpCallbacks s.
Proof.
  revert s. induction ms as [|m ms IH]; intros s Ha; simpl; [done|].
  assert (∃ s' oe, handleMessage K identifier closesOn parseJson m s = (s', oe)
            ∧ httpActive s' = false ∧ httpFinished s' = httpFinished s ∧ httpCallbacks s' = httpCallbacks s) as (s' & oe & -> & Ha' & Hf & Hc).
  { unfold handleMessage. destruct (parseJson (sseData m)) as [payload|]; [|by eauto 10]. destruct (bool_decide _); [by eauto 10|].
    destruct (_ || _); [by eauto 10|]. destruct (_ || _); [by eauto 10|]. destruct (isStale _ _); [by eauto 10|].
    unfold httpDeliver; simpl. rewrite Ha. by eauto 10. }
  destruct oe; simpl; [done|]. rewrite <- Hf, <- Hc. by apply IH.
Qed.

Lemma readEnded_silent base s : httpActive s = false → httpCallbacks s = base → silentSince base (readEnded s).
Proof. intros Ha <-. split; [done|right; done]. Qed.

Lemma readFailed_silent e s : httpActive s = false → readFailed e s = s.
Proof. unfold readFailed. by intros ->. Qed.

Lemma httpStep_silent base s i : silentSince base s → silentSince base (httpStep K identifier closesOn parseJson s i).
Proof.
  intros [Ha Hc]. destruct (httpFinished s) eqn:Hf.
  - destruct i; simpl; unfold httpClose; rewrite ?Hf, ?Ha; try destruct (httpListening s); (split; [done|simpl; rewrite ?Hf; exact Hc]).
  - assert (httpCallbacks s = base) as Hb by naive_solver.
    destruct i as [ms|ms|e| |]; simpl; rewrite ?Hf.
    + destruct (handleMessages_silent ms s Ha) as (Ha' & _ & Hc'). destruct (handleMessages _ _ _ _ ms s) as [s' [e|]]; simpl in *.
      * rewrite readFailed_silent by done. apply readEnded_silent; congruence.
      * rewrite Ha'. apply readEnded_silent; congruence.
    + destruct (handleMessages_silent ms s Ha) as (Ha' & _ & Hc'). destruct (handleMessages _ _ _ _ ms s) as [s' [e|]]; simpl in *;
        rewrite ?readFailed_silent by done; apply readEnded_silent; congruence.
    + rewrite readFailed_silent by done. by apply readEnded_silent.
    + unfold httpClose. rewrite Ha. split; tauto.
    + destruct (httpListening s); split; simpl; tauto.
Qed.

Lemma tauriClose_inactive s : tauriActive (tauriClose s) = false.
Proof. destruct (tauriActive s) eqn:Ha; [by apply tauriClose_state|unfold tauriClose; by rewrite Ha]. Qed.

Lemma tauriClose_done s : tauriActive s = false → tauriClose s = s.
Proof. unfold tauriClose. by intros ->. Qed.

Lemma tauriStep_silent s i : tauriActive s = false →
  tauriActive (tauriStep K identifier closesOn s i) = false ∧ tauriCallbacks (tauriStep K identifier closesOn s i) = tauriCallbacks s.
Proof.
  intros Ha. destruct i as [v|v|error| |]; simpl.
  - unfold tauriMessage. by rewrite Ha.
  - destruct (tauriPromise s); [done|]. unfold tauriAccepted, subscribeRejected. rewrite Ha; simpl.
    destruct (textField _ v) as [[|c t]|]; simpl; rewrite ?(tauriClose_done s) by done; try done.
    destruct (tauriAborted s); simpl; [|done]. done.
  - destruct (tauriPromise s); [done|]. unfold subscribeRejected. by rewrite tauriClose_done.
  - by rewrite tauriClose_done.
  - destruct (tauriListening s); [|done]. unfold tauriClose; simpl. by rewrite Ha.
Qed.

Lemma httpStep_finished s i : httpFinished s = true →
  httpFinished (httpStep K identifier closesOn parseJson s i) = true ∧ httpCallbacks (httpStep K identifier closesOn parseJson s i) = httpCallbacks s.
Proof.
  intros Hf. destruct i; simpl; rewrite ?Hf; try done; [unfold httpClose; by destruct (httpActive s)|]. by destruct (httpListening s).
Qed.

Lemma httpClose_told s : httpCallbacks (httpClose s) = httpCallbacks s ∧ httpFinished (httpClose s) = httpFinished s ∧ httpActive (httpClose s) = false.
Proof. unfold httpClose. by destruct (httpActive s) eqn:Ha. Qed.

Lemma http_run_finished s inputs : httpFinished s = true →
  httpCallbacks (foldl (httpStep K identifier closesOn parseJson) s inputs) = httpCallbacks s.
Proof.
  revert s. induction inputs as [|i inputs IH]; intros s Hf; simpl; [done|].
  destruct (httpStep_finished s i Hf) as [Hf' <-]. by apply IH.
Qed.

Lemma http_run_silent base s inputs : silentSince base s → silentSince base (foldl (httpStep K identifier closesOn parseJson) s inputs).
Proof. revert s. induction inputs as [|i inputs IH]; intros s ?; simpl; [done|]. by apply IH, httpStep_silent. Qed.

Lemma tauri_run_silent s inputs : tauriActive s = false → tauriCallbacks (foldl (tauriStep K identifier closesOn) s inputs) = tauriCallbacks s.
Proof.
  revert s. induction inputs as [|i inputs IH]; intros s Ha; simpl; [done|].
  destruct (tauriStep_silent s i Ha) as [Ha' <-]. by apply IH.
Qed.

(** A caller that closes its subscription hears of no event and no error any more, whatever else arrives: on the web at most of the end of the
    reading, on the desktop of the end at once and then of nothing. *)
Theorem closed_streams_silent (http : HttpStream) httpInputs (desktop : TauriStream) desktopInputs :
  (∃ tail, httpCallbacks (foldl (httpStep K identifier closesOn parseJson) (httpClose http) httpInputs) = httpCallbacks http ++ tail
     ∧ tail `sublist_of` (if httpFinished http then [] else [OnClose]))
  ∧ tauriCallbacks (foldl (tauriStep K identifier closesOn) (tauriClose desktop) desktopInputs)
    = tauriCallbacks desktop ++ (if tauriActive desktop then [OnClose] else []).
Proof.
  destruct (httpClose_told http) as (Hc & Hf & Ha). split.
  - destruct (httpFinished http) eqn:Hh.
    + exists []. rewrite app_nil_r, <- Hc. split; [by apply http_run_finished|done].
    + destruct (http_run_silent (httpCallbacks http) (httpClose http) httpInputs) as [_ [->|[_ ->]]]; [by split; [|left]|exists []|by exists [OnClose]].
      rewrite app_nil_r. split; [done|apply sublist_nil_l].
  - rewrite tauri_run_silent by apply tauriClose_inactive. destruct (tauriActive desktop) eqn:Hd; [by apply tauriClose_state|].
    by rewrite app_nil_r, tauriClose_done.
Qed.
End closed.

(** ** Subscriptions that the desktop runtime holds *)

(** The subscription that the first answer to the request names, if it is one. *)
Fixpoint givenId (inputs : list TauriInput) : option jstr :=
  match inputs with
  | [] => None
  | Accepted v :: _ => match textField "subscriptionId" v with Some (_ :: _) => textField "subscriptionId" v | _ => None end
  | Refused _ :: _ => None
  | _ :: inputs => givenId inputs
  end.

Section releases.
Context (K : StreamKind) (identifier : jstr) (closesOn : Payload → bool).

Definition held (s : TauriStream) : list jstr := released s ++ option_list (subscriptionId s).

(** What a subscription still holds, only an active one does, and an active one has released nothing. *)
Definition Holding (s : TauriStream) : Prop :=
  (tauriActive s = false → subscriptionId s = None) ∧ (tauriActive s = true → released s = []).

(** A state that differs in nothing that is asked here: the same number of subscriptions, none of them lost. *)
Definition keepsHeld (s s' : TauriStream) : Prop := Holding s' ∧ held s' = held s ∧ tauriPromise s' = tauriPromise s.

Lemma tauriClose_held s : Holding s → keepsHeld s (tauriClose s).
Proof.
  intros Hs. unfold tauriClose. destruct (tauriActive s) eqn:Ha; simpl; [|done].
  unfold unsubscribe; simpl. destruct (subscriptionId s) as [id|] eqn:Hid; unfold keepsHeld, Holding, held; simpl; rewrite ?Hid, ?app_nil_r; done.
Qed.

Lemma tauriTell_held c s : Holding s → keepsHeld s (tauriTell c s).
Proof. done. Qed.

Lemma tauriFail_held e s : Holding s → keepsHeld s (tauriFail e s).
Proof. intros Hs. unfold tauriFail. destruct (tauriActive s) eqn:Ha; simpl; [|done]. by apply (tauriClose_held (tauriTell (OnError e) s)). Qed.

Lemma tauriMessage_held v s : Holding s → keepsHeld s (tauriMessage K identifier closesOn v s).
Proof.
  intros Hs. unfold tauriMessage. destruct (tauriActive s) eqn:Ha; simpl; [|done].
  destruct (isStreamMessage _ _); simpl; [|by apply tauriFail_held]. destruct (bool_decide _); [by apply tauriFail_held|].
  destruct (bool_decide _); [by apply tauriClose_held|]. destruct (fieldOf "event" v) as [event|]; [|done].
  destruct (bool_decide _); simpl; [|by apply tauriFail_held]. destruct (isStale _ _); [by apply tauriFail_held|].
  unfold Holding in Hs. rewrite Ha in Hs. destruct (closesOn event); [|done].
  match goal with |- keepsHeld _ (tauriClose ?t) => exact (tauriClose_held t Hs) end.
Qed.

Lemma subscribeRejected_held e s : Holding s → Holding (subscribeRejected e s) ∧ held (subscribeRejected e s) = held s.
Proof. intros Hs. destruct (tauriClose_held s Hs) as (? & ? & _). done. Qed.

(** The answer: what it names is held. *)
Lemma tauriAccepted_held v s : Holding s → held s = [] →
  Holding (tauriAccepted K v s) ∧ held (tauriAccepted K v s) = option_list (givenId [Accepted v]) ∧ tauriPromise (tauriAccepted K v s) ≠ None.
Proof.
  intros Hs Hh. unfold tauriAccepted; simpl. unfold held in Hh. apply app_eq_nil in Hh as [Hr Hn].
  destruct (textField "subscriptionId" v) as [[|c t]|] eqn:Ht.
  1, 3: destruct (subscribeRejected_held (failure (desktopInvalidId K)) s Hs) as [? ->]; unfold held; rewrite Hr, Hn; done.
  destruct (tauriActive s) eqn:Ha, (tauriAborted s) eqn:Hab; simpl; unfold Holding, held, subscribeRejected, tauriClose, unsubscribe; simpl;
    rewrite ?Ha, ?Hr; done.
Qed.

(** What a run holds when its request was not answered, and when it was. *)
Definition accounts (s : TauriStream) (given : option jstr) : Prop := Holding s ∧ held s = option_list given.

Lemma answered_accounts inputs s given :
  tauriPromise s ≠ None → accounts s given → accounts (foldl (tauriStep K identifier closesOn) s inputs) given.
Proof.
  revert s. induction inputs as [|i inputs IH]; intros s Hp [Hs Hh]; simpl; [done|].
  assert (keepsHeld s (tauriStep K identifier closesOn s i)) as (Hs' & Hh' & Hp').
  { destruct i as [v|v|error| |]; simpl; [by apply tauriMessage_held|by destruct (tauriPromise s)..|by apply tauriClose_held|].
    destruct (tauriListening s); [|done]. match goal with |- keepsHeld _ (tauriClose ?t) => exact (tauriClose_held t Hs) end. }
  apply IH; [by rewrite Hp'|by split; [|rewrite Hh']].
Qed.

Lemma unanswered_accounts inputs s :
  tauriPromise s = None → accounts s None → accounts (foldl (tauriStep K identifier closesOn) s inputs) (givenId inputs).
Proof.
  revert s. induction inputs as [|i inputs IH]; intros s Hp [Hs Hh]; simpl; [done|].
  destruct i as [v|v|error| |]; simpl; rewrite ?Hp.
  - destruct (tauriMessage_held v s Hs) as (? & Hh' & Hp'). apply IH; [by rewrite Hp'|by split; [|rewrite Hh']].
  - destruct (tauriAccepted_held v s Hs Hh) as (? & ? & ?). by apply answered_accounts.
  - apply answered_accounts; [done|]. destruct (subscribeRejected_held (ApiFailure (normalizeApiError error)) s Hs) as [? Hh']. by split; [|rewrite Hh'].
  - destruct (tauriClose_held s Hs) as (? & Hh' & Hp'). apply IH; [by rewrite Hp'|by split; [|rewrite Hh']].
  - destruct (tauriListening s); [|by apply IH].
    match goal with |- context [tauriClose ?t] => destruct (tauriClose_held t Hs) as (? & Hh' & Hp') end.
    apply IH; [by rewrite Hp'|by split; [|rewrite Hh']].
Qed.

(** The subscription that the desktop runtime opens for a caller is never lost and never released twice: it is held while the stream goes on, and
    released, once, as soon as the stream has ended, also when it ended or the caller went away before the runtime answered; nothing else is released. *)
Theorem desktop_subscription_released after aborted s inputs :
  subscribeTauri after aborted = inr s →
  let s' := foldl (tauriStep K identifier closesOn) s inputs in
  if tauriActive s' then released s' = [] ∧ subscriptionId s' = givenId inputs
  else subscriptionId s' = None ∧ released s' = option_list (givenId inputs).
Proof.
  intros (cursor & _ & ->)%subscribeTauri_state. intros s'.
  destruct (unanswered_accounts inputs (mkTauri true cursor None true false [] None [])) as [[Hi Ha] Hh]; [done..|].
  fold s' in Hi, Ha, Hh. unfold held in Hh. destruct (tauriActive s').
  - rewrite Ha in Hh by done. split; [by apply Ha|]. simpl in Hh. by destruct (subscriptionId s'), (givenId inputs); simplify_eq/=.
  - rewrite Hi, app_nil_r in Hh by done. split; [by apply Hi|done].
Qed.
End releases.

(** ** The same runtime through both transports *)

Section agreement.
Context (K : StreamKind) (identifier : jstr) (parseJson : jstr → option Payload).

(** What the runtime has to say, as the web and as the desktop hear it: an event, whose message says nothing else than its data, an error or the end. *)
Inductive SameInput : HttpInput → TauriInput → Prop :=
  | SameEvent m p : parseJson (sseData m) = Some p → sseEvent m ≠ Some (js "error") →
      contradicts (sseId m) (textField "sequence" p) = false → contradicts (sseEvent m) (eventType p) = false →
      SameInput (Chunk [m]) (Message (PObject [(js "type", PText (js "event")); (js "event", p)]))
  | SameError m p : parseJson (sseData m) = Some p → sseEvent m = Some (js "error") →
      SameInput (Chunk [m]) (Message (PObject [(js "type", PText (js "error")); (js "error", p)]))
  | SameEnd : SameInput (Done []) (Message (PObject [(js "type", PText (js "end"))])).

(** Callbacks that tell the same; the transports word the errors of the protocol in their own ways. *)
Inductive SameCallback : Callback → Callback → Prop :=
  | SameOnEvent p : SameCallback (OnEvent p) (OnEvent p)
  | SameOnError e e' : code e = code e' → SameCallback (OnError (ApiFailure e)) (OnError (ApiFailure e'))
  | SameOnClose : SameCallback OnClose OnClose.

(** Both go on at the same number, or both have ended. *)
Definition alike (h : HttpStream) (t : TauriStream) : Prop :=
  Forall2 SameCallback (httpCallbacks h) (tauriCallbacks t) ∧
  (httpActive h = true ∧ httpFinished h = false ∧ tauriActive t = true ∧ httpLast h = tauriLast t ∨ httpFinished h = true ∧ tauriActive t = false).

Notation step := (httpStep K identifier (λ _, false) parseJson).
Notation tstep := (tauriStep K identifier (λ _, false)).

Lemma alike_failed h t e e' :
  httpActive h = true → tauriActive t = true → Forall2 SameCallback (httpCallbacks h) (tauriCallbacks t) → code e = code e' →
  alike (readEnded (readFailed (ApiFailure e) h)) (tauriFail (ApiFailure e') t).
Proof.
  intros Hh Ht Hc He. unfold readFailed, tauriFail. rewrite Hh, Ht. simpl.
  destruct (tauriClose_state (tauriTell (OnError (ApiFailure e')) t)) as (_ & Ha & Hd); [done|].
  split; [|right; by split]. rewrite Hd; simpl. rewrite <- !app_assoc. apply Forall2_app; [done|]. repeat constructor. done.
Qed.

Lemma alike_ended h t :
  tauriActive t = true → Forall2 SameCallback (httpCallbacks h) (tauriCallbacks t) → alike (readEnded h) (tauriClose t).
Proof.
  intros Ht Hc. destruct (tauriClose_state t Ht) as (_ & Ha & Hd). split; [|right; by split].
  rewrite Hd. apply Forall2_app; [done|]. repeat constructor.
Qed.

Lemma alike_event h t m p :
  parseJson (sseData m) = Some p → sseEvent m ≠ Some (js "error") →
  contradicts (sseId m) (textField "sequence" p) = false → contradicts (sseEvent m) (eventType p) = false →
  httpActive h = true → httpFinished h = false → tauriActive t = true → httpLast h = tauriLast t → Forall2 SameCallback (httpCallbacks h) (tauriCallbacks t) →
  alike (step h (Chunk [m])) (tstep t (Message (PObject [(js "type", PText (js "event")); (js "event", p)]))).
Proof.
  intros Hp Hne Hid Hev Hh Hf Ht Hl Hc. simpl. unfold tauriMessage, handleMessage. rewrite Hf, Ht, Hp, bool_decide_eq_false_2 by done.
  change (isStreamMessage _ _) with (isEventEnvelope K (Some p)). change (fieldOf "event" _) with (Some p).
  change (textField "type" _) with (Some (js "event")). rewrite Hid, Hev, Hl.
  destruct (isEventEnvelope K (Some p)); simpl; [|by apply alike_failed].
  destruct (bool_decide (textField (idField K) p = _)); simpl; [|by apply alike_failed].
  destruct (isStale _ _); simpl; [by apply alike_failed|]. unfold httpDeliver; simpl. rewrite Hh; simpl.
  split; [apply Forall2_app; [done|]; repeat constructor|by left].
Qed.

Lemma alike_error h t m p :
  parseJson (sseData m) = Some p → sseEvent m = Some (js "error") →
  httpActive h = true → httpFinished h = false → tauriActive t = true → Forall2 SameCallback (httpCallbacks h) (tauriCallbacks t) →
  alike (step h (Chunk [m])) (tstep t (Message (PObject [(js "type", PText (js "error")); (js "error", p)]))).
Proof.
  intros Hp He Hh Hf Ht Hc. simpl. unfold tauriMessage, handleMessage. rewrite Hf, Ht, Hp, bool_decide_eq_true_2 by done.
  change (isStreamMessage _ _) with (isApiError (Some p)). change (fieldOf "error" _) with (Some p).
  change (textField "type" _) with (Some (js "error")). simpl. unfold normalizeApiError, apiErrorOf.
  destruct (isApiError (Some p)) eqn:Hp'; simpl; [|by apply alike_failed].
  destruct p as [| | | | | |d]; try discriminate Hp'. by apply alike_failed.
Qed.

Lemma step_alike h t i j : alike h t → SameInput i j → alike (step h i) (tstep t j).
Proof.
  intros [Hc [(Hh & Hf & Ht & Hl)|[Hf Ht]]] Hi.
  - destruct Hi as [m p ????|m p ??|]; [by apply alike_event|by apply alike_error|]. simpl. unfold tauriMessage. rewrite Hf, Ht. by apply alike_ended.
  - assert (step h i = h) as -> by (destruct Hi; simpl; by rewrite Hf). assert (tstep t j = t) as -> by (destruct Hi; simpl; unfold tauriMessage; by rewrite Ht).
    split; [done|by right].
Qed.

(** A runtime that says the same tells its callers the same through the web and through the desktop: the same events in the same order, an
    error where the other has one, with the same code, and the end in the same place, whatever it says, with events that are malformed, of another
    run, out of order or after the end. *)
Theorem transports_agree after fetch h t inputs messages :
  subscribeHttp K after fetch = inr h → subscribeTauri after false = inr t → Forall2 SameInput inputs messages →
  Forall2 SameCallback (httpCallbacks (foldl step h inputs)) (tauriCallbacks (foldl tstep t messages)).
Proof.
  intros (cursor & Hc & ->)%subscribeHttp_state (cursor' & Hc' & ->)%subscribeTauri_state Hs. rewrite Hc in Hc'. injection Hc' as <-.
  assert (alike (mkHttp true cursor false true false []) (mkTauri true cursor None true false [] None [])) as Hl by (split; [done|by left]).
  revert Hl. generalize (mkHttp true cursor false true false []) as h, (mkTauri true cursor None true false [] None []) as t.
  induction Hs as [|i j inputs messages Hi _ IH]; intros h t Hl; simpl; [apply Hl|]. by apply IH, step_alike.
Qed.
End agreement.

(** ** The theorems at work *)

Definition sampleEvent (sequence : string) : Payload :=
  PObject [(js "runId", PText (js "run/1")); (js "sequence", PText (js sequence)); (js "occurredAtMs", PText (js "7"));
           (js "event", PObject [(js "type", PText (js "text_delta")); (js "delta", PText (js "x"))])].
Definition sampleJson (t : jstr) : option Payload := if bool_decide (t = js "a") then Some (sampleEvent "5") else if bool_decide (t = js "b") then Some (sampleEvent "6") else None.
Definition sampleMessage (data : string) : SseMessage := mkSse (Some (js "text_delta")) None (js data).
Definition eventMessage (sequence : string) : Payload := PObject [(js "type", PText (js "event")); (js "event", sampleEvent sequence)].

(** Two events, and one that is out of order. *)
Example http_run :
  httpCallbacks (foldl (httpStep agentKind (js "run/1") (λ _, false) sampleJson) (mkHttp true (Some 4%Z) false true false [])
    [Chunk [sampleMessage "a"; sampleMessage "b"]; Chunk [sampleMessage "a"]; Done []])
  = [OnEvent (sampleEvent "5"); OnEvent (sampleEvent "6"); OnError (failure (outOfOrderEvent agentKind)); OnClose].
Proof. vm_compute. reflexivity. Qed.

Lemma subscriptions_lawful_witness :
  ∃ cursor, parseAfter (Some (js "4")) = inr cursor
    ∧ Lawful agentKind (js "run/1") cursor (httpCallbacks (foldl (httpStep agentKind (js "run/1") (λ _, false) sampleJson)
        (mkHttp true (Some 4%Z) false true false []) [Chunk [sampleMessage "a"; sampleMessage "b"]; Chunk [sampleMessage "a"]]))
    ∧ Lawful agentKind (js "run/1") cursor (tauriCallbacks (foldl (tauriStep agentKind (js "run/1") (λ _, false))
        (mkTauri true (Some 4%Z) None true false [] None []) [Message (eventMessage "6"); Message (eventMessage "5")])).
Proof. apply (subscriptions_lawful agentKind (js "run/1") (λ _, false) sampleJson (Some (js "4")) (Answered 200 true None) false); vm_compute; reflexivity. Defined.

Definition acceptedMessage : Payload := PObject [(js "subscriptionId", PText (js "s1"))].

Lemma desktop_subscription_released_witness :
  let s' := foldl (tauriStep agentKind (js "run/1") (λ _, false)) (mkTauri true (Some 4%Z) None true false [] None [])
              [Message (eventMessage "5"); TauriCallClose; Accepted acceptedMessage; TauriCallClose] in
  subscriptionId s' = None ∧ released s' = [js "s1"].
Proof.
  exact (desktop_subscription_released agentKind (js "run/1") (λ _, false) (Some (js "4")) false (mkTauri true (Some 4%Z) None true false [] None [])
    [Message (eventMessage "5"); TauriCallClose; Accepted acceptedMessage; TauriCallClose] eq_refl).
Defined.

Lemma transports_agree_witness :
  Forall2 SameCallback
    (httpCallbacks (foldl (httpStep agentKind (js "run/1") (λ _, false) sampleJson) (mkHttp true (Some 4%Z) false true false []) [Chunk [sampleMessage "b"]; Chunk [sampleMessage "a"]]))
    (tauriCallbacks (foldl (tauriStep agentKind (js "run/1") (λ _, false)) (mkTauri true (Some 4%Z) None true false [] None []) [Message (eventMessage "6"); Message (eventMessage "5")])).
Proof.
  apply (transports_agree agentKind (js "run/1") sampleJson (Some (js "4")) (Answered 200 true None)); [vm_compute; reflexivity..|].
  constructor; [|constructor; [|constructor]].
  - by apply (SameEvent sampleJson (sampleMessage "b") (sampleEvent "6")).
  - by apply (SameEvent sampleJson (sampleMessage "a") (sampleEvent "5")).
Defined.
