(* ===== verification/BackendObserver.v ===== *)
(** * BackendObserver: following a run or an operation to its end
    Models [observeAgentRun] and [observeOperation] of [backend/agent.ts] and [backend/operation.ts], which are the
    same but for what an [ObserverKind] says.  The observer opens a stream, recovers from its end with a snapshot and opens the next one, a bounded
    number of times.  A state is what its closure holds; an input is what wakes it up: a callback of the stream it
    opened as its [n]-th, the answer to that request, the microtask after a stream settled, the snapshot, or the caller.
    Callbacks of the caller that throw are left out, and so is a bound on reconnects that is no finite number.
    The invariant of the observer and what follows from it: its callbacks go forward and end once, it opens a bounded number of
    streams, each at the number it has come to, it releases every subscription it was given, and it comes to an end. *)

From S2P Require Import Prelude JsNumber BackendMessages BackendStreams BackendStreamLaws.
From Stdlib Require Import QArith Qround.
Local Open Scope nat_scope.

(** ** What differs between runs of agents and operations *)

Record ObserverKind := mkObserverKind {
  observedIdField : string;
  runningOnly : option (list jstr);  (* the states of a snapshot that are final, or [None]: all but "running" *)
  exhaustedCode : string;
  exhaustedMessage : string;
  invalidEventSequence : string;
  invalidReplayCursor : string;
  invalidSnapshotSequence : string;
  otherSnapshot : string;
  staleSnapshot : string;
}.

Definition agentRuns : ObserverKind := {|
  observedIdField := "runId";
  runningOnly := Some [js "completed"; js "failed"; js "cancelled"];
  exhaustedCode := "agent_stream_reconnect_exhausted";
  exhaustedMessage := "The agent event stream disconnected too many times";
  invalidEventSequence := "The runtime returned an invalid agent event sequence";
  invalidReplayCursor := "The runtime returned an invalid agent replay cursor";
  invalidSnapshotSequence := "The runtime returned an invalid agent snapshot sequence";
  otherSnapshot := "The runtime returned a snapshot for another agent run";
  staleSnapshot := "The runtime returned a stale agent snapshot";
|}.

Definition operations : ObserverKind := {|
  observedIdField := "operationId";
  runningOnly := None;
  exhaustedCode := "operation_stream_reconnect_exhausted";
  exhaustedMessage := "The operation event stream disconnected too many times";
  invalidEventSequence := "The runtime returned an invalid operation event sequence";
  invalidReplayCursor := "The runtime returned an invalid operation replay cursor";
  invalidSnapshotSequence := "The runtime returned an invalid operation snapshot sequence";
  otherSnapshot := "The runtime returned a snapshot for another operation";
  staleSnapshot := "The runtime returned a stale operation snapshot";
|}.

Definition DEFAULT_MAX_RECONNECT_ATTEMPTS : Q := 3.

(** [Math.max(0, Math.floor(options.maxReconnectAttempts ?? DEFAULT_MAX_RECONNECT_ATTEMPTS))]. *)
Definition maxReconnectAttempts (option_ : option Q) : Z := Z.max 0 (Qfloor (default DEFAULT_MAX_RECONNECT_ATTEMPTS option_)).

Definition isTerminalEvent (event : Payload) : bool :=
  bool_decide (eventType event = Some (js "completed")) || bool_decide (eventType event = Some (js "failed"))
  || bool_decide (eventType event = Some (js "cancelled")).

Definition isTerminalSnapshot (K : ObserverKind) (snapshot : Payload) : bool :=
  match runningOnly K with
  | Some final => match textField "status" snapshot with Some status => bool_decide (status ∈ final) | None => false end
  | None => negb (bool_decide (textField "status" snapshot = Some (js "running")))
  end.

(** A field that is no text has no digits. *)
Definition runtimeSequence (value : option jstr) : option Z :=
  match value with Some t => if isCanonicalDecimal t then Some (bigInt t) else None | None => None end.

Definition reconnectExhausted (K : ObserverKind) : ApiRequestError :=
  mkApiRequestError (js (exhaustedCode K)) (js (exhaustedMessage K)) true None.

(** ** The state *)

Inductive Outcome := Terminal | StreamEnd | StreamFailed (e : StreamError).

Inductive Notice := SeeEvent (event : Payload) | SeeSnapshot (snapshot : Payload) | SeeError (e : StreamError) | SeeClose.

(** Where the loop waits: for a stream, for a snapshot after a stream, or nowhere. *)
Inductive Phase := Streaming | Recovering (outcome : Outcome) | Finished.

Record Observer := mkObserver {
  stopped : bool;
  closeNotified : bool;
  currentSubscription : option nat;
  cursor : option Z;
  attempt : nat;  (* the streams that were opened *)
  settled : option Outcome;  (* the last one *)
  phase : Phase;
  reconnects : Z;
  openedAt : list (option Z);  (* the cursors that streams were opened with *)
  answered : list nat;  (* the streams whose request was answered *)
  closedSubscriptions : list nat;
  notices : list Notice;
}.

Definition tell (c : Notice) (s : Observer) : Observer :=
  mkObserver (stopped s) (closeNotified s) (currentSubscription s) (cursor s) (attempt s) (settled s) (phase s) (reconnects s) (openedAt s) (answered s)
    (closedSubscriptions s) (notices s ++ [c]).
Definition setCurrent (n : option nat) (s : Observer) : Observer :=
  mkObserver (stopped s) (closeNotified s) n (cursor s) (attempt s) (settled s) (phase s) (reconnects s) (openedAt s) (answered s)
    (closedSubscriptions s) (notices s).
Definition setCursor (z : Z) (s : Observer) : Observer :=
  mkObserver (stopped s) (closeNotified s) (currentSubscription s) (Some z) (attempt s) (settled s) (phase s) (reconnects s) (openedAt s) (answered s)
    (closedSubscriptions s) (notices s).
Definition setPhase (p : Phase) (s : Observer) : Observer :=
  mkObserver (stopped s) (closeNotified s) (currentSubscription s) (cursor s) (attempt s) (settled s) p (reconnects s) (openedAt s) (answered s)
    (closedSubscriptions s) (notices s).
Definition setAnswered (n : nat) (s : Observer) : Observer :=
  mkObserver (stopped s) (closeNotified s) (currentSubscription s) (cursor s) (attempt s) (settled s) (phase s) (reconnects s) (openedAt s) (answered s ++ [n])
    (closedSubscriptions s) (notices s).
(** [subscription.close()]. *)
Definition closeSubscription (n : nat) (s : Observer) : Observer :=
  mkObserver (stopped s) (closeNotified s) (currentSubscription s) (cursor s) (attempt s) (settled s) (phase s) (reconnects s) (openedAt s) (answered s)
    (closedSubscriptions s ++ [n]) (notices s).

Definition releaseCurrentSubscription (s : Observer) : Observer :=
  match currentSubscription s with None => s | Some n => closeSubscription n (setCurrent None s) end.

Definition notifyClose (s : Observer) : Observer :=
  if closeNotified s then s
  else tell SeeClose (mkObserver (stopped s) true (currentSubscription s) (cursor s) (attempt s) (settled s) (phase s) (reconnects s) (openedAt s) (answered s)
         (closedSubscriptions s) (notices s)).

Definition observerClose (s : Observer) : Observer :=
  if stopped s then s
  else notifyClose (releaseCurrentSubscription
         (mkObserver true (closeNotified s) (currentSubscription s) (cursor s) (attempt s) (settled s) (phase s) (reconnects s) (openedAt s) (answered s)
            (closedSubscriptions s) (notices s))).

Definition observerFail (e : StreamError) (s : Observer) : Observer :=
  if stopped s then s else observerClose (tell (SeeError e) s).

Definition settle (o : Outcome) (s : Observer) : Observer :=
  match settled s with
  | Some _ => s
  | None =>
      mkObserver (stopped s) (closeNotified s) (currentSubscription s) (cursor s) (attempt s) (Some o) (phase s) (reconnects s) (openedAt s) (answered s)
        (closedSubscriptions s) (notices s)
  end.

(** The [finally] of the loop. *)
Definition finish (s : Observer) : Observer := setPhase Finished (notifyClose (releaseCurrentSubscription s)).

(** [consumeStream(cursor?.toString())]. *)
Definition consumeStream (s : Observer) : Observer :=
  mkObserver (stopped s) (closeNotified s) (currentSubscription s) (cursor s) (S (attempt s)) None Streaming (reconnects s) (openedAt s ++ [cursor s]) (answered s)
    (closedSubscriptions s) (notices s).

(** The head of the loop. *)
Definition nextStream (s : Observer) : Observer := if stopped s then finish s else consumeStream s.

(** Before the first stream: what the call starts from. *)
Definition idle : Observer := mkObserver false false None None 0 (Some StreamEnd) Streaming 0 [] [] [] [].

Section observer.
Context (K : ObserverKind) (identifier : jstr) (closesOnEvent closesOnSnapshot : Payload → bool).
(** [options.maxReconnectAttempts]. *)
Context (reconnectOption : option Q).

(** The call: the signal may be aborted already. *)
Definition observe (afterSequence : option jstr) (aborted : bool) : Observer :=
  let s := if aborted then observerClose idle else idle in
  match afterSequence with
  | None => nextStream s
  | Some text =>
      match runtimeSequence (Some text) with
      | None => finish (observerFail (failure (invalidReplayCursor K)) s)
      | Some z => nextStream (setCursor z s)
      end
  end.

(** ** Callbacks of the stream that was opened as the [n]-th *)

Definition isLive (n : nat) (s : Observer) : bool := bool_decide (n = attempt s) && bool_decide (settled s = None).

Definition onStreamEvent (n : nat) (event : Payload) (s : Observer) : Observer :=
  if negb (isLive n s) || stopped s then s
  else match runtimeSequence (textField "sequence" event) with
       | None => settle (StreamFailed (failure (invalidEventSequence K))) s
       | Some sequence =>
           if isStale (cursor s) sequence then s
           else
             let s := tell (SeeEvent event) (setCursor sequence s) in
             let s := if closesOnEvent event then observerClose s else s in
             if isTerminalEvent event then settle Terminal s else s
       end.

Definition settleStream (n : nat) (o : Outcome) (s : Observer) : Observer := if isLive n s then settle o s else s.

(** The request of a stream was opened and has no answer yet. *)
Definition isPending (n : nat) (s : Observer) : bool := (1 <=? n) && (n <=? attempt s) && bool_decide (n ∉ answered s).

Definition onSubscribed (n : nat) (s : Observer) : Observer :=
  if isPending n s then
    let s := setAnswered n s in
    if negb (isLive n s) || stopped s then closeSubscription n s else setCurrent (Some n) s
  else s.

Definition onRefused (n : nat) (e : StreamError) (s : Observer) : Observer :=
  if isPending n s then settleStream n (StreamFailed e) (setAnswered n s) else s.

(** ** The loop *)

(** After [await consumeStream]. *)
Definition afterStream (s : Observer) : Observer :=
  match phase s, settled s with
  | Streaming, Some outcome =>
      let s := releaseCurrentSubscription s in
      if stopped s then finish s else match outcome with Terminal => finish s | _ => setPhase (Recovering outcome) s end
  | _, _ => s
  end.

Definition errorOf (outcome : Outcome) : StreamError := match outcome with StreamFailed e => e | _ => ApiFailure (reconnectExhausted K) end.

(** After [await] of the snapshot. *)
Definition afterSnapshot (answer : StreamError + Payload) (s : Observer) : Observer :=
  match phase s with
  | Recovering outcome =>
      match answer with
      | inl e => finish (observerFail e s)
      | inr snapshot =>
          if stopped s then finish s
          else if negb (bool_decide (textField (observedIdField K) snapshot = Some identifier)) then finish (observerFail (failure (otherSnapshot K)) s)
          else match runtimeSequence (textField "lastSequence" snapshot) with
               | None => finish (observerFail (failure (invalidSnapshotSequence K)) s)
               | Some snapshotSequence =>
                   if match cursor s with Some c => (snapshotSequence <? c)%Z | None => false end then finish (observerFail (failure (staleSnapshot K)) s)
                   else
                     let s := tell (SeeSnapshot snapshot) (setCursor snapshotSequence s) in
                     let s := if closesOnSnapshot snapshot then observerClose s else s in
                     if isTerminalSnapshot K snapshot then finish s
                     else if (maxReconnectAttempts reconnectOption <=? reconnects s)%Z then finish (observerFail (errorOf outcome) s)
                     else nextStream (mkObserver (stopped s) (closeNotified s) (currentSubscription s) (cursor s) (attempt s) (settled s) (phase s)
                                        (reconnects s + 1)%Z (openedAt s) (answered s) (closedSubscriptions s) (notices s))
               end
      end
  | _ => s
  end.

Inductive ObserverInput :=
  | StreamTells (n : nat) (c : Callback)
  | Subscribed (n : nat)
  | SubscribeRefused (n : nat) (e : StreamError)
  | Microtask
  | SnapshotAnswer (answer : StreamError + Payload)
  | CallerCloses.

Definition observerStep (s : Observer) (i : ObserverInput) : Observer :=
  match i with
  | StreamTells n (OnEvent event) => onStreamEvent n event s
  | StreamTells n (OnError e) => settleStream n (StreamFailed e) s
  | StreamTells n OnClose => settleStream n StreamEnd s
  | Subscribed n => onSubscribed n s
  | SubscribeRefused n e => onRefused n e s
  | Microtask => afterStream s
  | SnapshotAnswer answer => afterSnapshot answer s
  | CallerCloses => observerClose s
  end.
End observer.

(** ** Numbers and callbacks that go forward *)

(** Cursors that never go back, from [a] to [top]. *)
Fixpoint rising (a : option Z) (cs : list (option Z)) (top : option Z) : Prop :=
  match cs with [] => below a top | c :: cs => below a c ∧ rising c cs top end.

Lemma below_refl a : below a a.
Proof. destruct a; simpl; [lia|done]. Qed.

Lemma rising_top a cs top top' : below top top' → rising a cs top → rising a cs top'.
Proof. revert a. induction cs as [|c cs IH]; intros a Ht; simpl; [by intros; eapply below_trans|]. intros [??]. eauto. Qed.

Lemma rising_snoc a cs top : rising a cs top → rising a (cs ++ [top]) top.
Proof. revert a. induction cs as [|c cs IH]; intros a; simpl; [eauto using below_refl|]. intros [??]. eauto. Qed.

Lemma stale_below c z : isStale c z = false → below c (Some z).
Proof. destruct c; simpl; [|done]. rewrite Z.leb_gt. lia. Qed.

(** The number a sequence of events and snapshots comes to, if each event is beyond it and no snapshot is behind it. *)
Fixpoint reach (c : option Z) (seen : list Notice) : option (option Z) :=
  match seen with
  | [] => Some c
  | SeeEvent e :: seen =>
      match runtimeSequence (textField "sequence" e) with Some z => if isStale c z then None else reach (Some z) seen | None => None end
  | SeeSnapshot v :: seen =>
      match runtimeSequence (textField "lastSequence" v) with
      | Some z => if match c with Some c => (z <? c)%Z | None => false end then None else reach (Some z) seen
      | None => None
      end
  | _ => None
  end.

Lemma reach_app c seen seen' : reach c (seen ++ seen') = match reach c seen with Some c' => reach c' seen' | None => None end.
Proof.
  revert c. induction seen as [|n seen IH]; intros c; simpl; [done|].
  destruct n as [e|v| |]; [destruct (runtimeSequence _) as [z|]; [|done]..|done|done].
  - by destruct (isStale c z).
  - by destruct (match c with Some c => (z <? c)%Z | None => false end).
Qed.

(** How it ends: not yet, with the end, or with an error and the end. *)
Inductive Settled : bool → list Notice → Prop :=
  | GoesOn : Settled false []
  | HasEnded : Settled true [SeeClose]
  | HasFailed e : Settled true [SeeError e; SeeClose].

Definition Forward (c0 c : option Z) (notified : bool) (told : list Notice) : Prop :=
  ∃ seen tail, told = seen ++ tail ∧ reach c0 seen = Some c ∧ Settled notified tail.

Lemma forward_open c0 c told : Forward c0 c false told ↔ reach c0 told = Some c.
Proof.
  split; [intros (seen & tail & -> & ? & Ht); inversion Ht; by rewrite app_nil_r|].
  intros ?. exists told, []. rewrite app_nil_r. repeat split; [done|constructor].
Qed.

Lemma forward_ends c0 c told tail : Forward c0 c false told → Settled true tail → Forward c0 c true (told ++ tail).
Proof. rewrite forward_open. intros. by exists told, tail. Qed.

Lemma forward_event c0 c told e z : Forward c0 c false told → runtimeSequence (textField "sequence" e) = Some z → isStale c z = false →
  Forward c0 (Some z) false (told ++ [SeeEvent e]).
Proof. rewrite !forward_open, reach_app. intros -> Hz Hs. simpl. by rewrite Hz, Hs. Qed.

Lemma forward_snapshot c0 c told v z : Forward c0 c false told → runtimeSequence (textField "lastSequence" v) = Some z →
  match c with Some c => (z <? c)%Z | None => false end = false → Forward c0 (Some z) false (told ++ [SeeSnapshot v]).
Proof. rewrite !forward_open, reach_app. intros -> Hz Hs. simpl. by rewrite Hz, Hs. Qed.

(** ** What the parts do *)

Lemma observerClose_eq s : stopped s = false →
  observerClose s = mkObserver true true None (cursor s) (attempt s) (settled s) (phase s) (reconnects s) (openedAt s) (answered s)
    (closedSubscriptions s ++ option_list (currentSubscription s)) (notices s ++ (if closeNotified s then [] else [SeeClose])).
Proof.
  destruct s as [st cn cur c a se p r o an cl no]. simpl. intros ->. unfold observerClose, notifyClose, releaseCurrentSubscription; simpl.
  destruct cur, cn; simpl; by rewrite ?app_nil_r.
Qed.

Lemma finish_eq s :
  finish s = mkObserver (stopped s) true None (cursor s) (attempt s) (settled s) Finished (reconnects s) (openedAt s) (answered s)
    (closedSubscriptions s ++ option_list (currentSubscription s)) (notices s ++ (if closeNotified s then [] else [SeeClose])).
Proof.
  destruct s as [st cn cur c a se p r o an cl no]. unfold finish, notifyClose, releaseCurrentSubscription; simpl.
  destruct cur, cn; simpl; by rewrite ?app_nil_r.
Qed.

Lemma observerFail_eq e s : stopped s = false →
  observerFail e s = mkObserver true true None (cursor s) (attempt s) (settled s) (phase s) (reconnects s) (openedAt s) (answered s)
    (closedSubscriptions s ++ option_list (currentSubscription s)) (notices s ++ [SeeError e] ++ (if closeNotified s then [] else [SeeClose])).
Proof. intros Hs. unfold observerFail. rewrite Hs, observerClose_eq by done. simpl. by rewrite <- app_assoc. Qed.

Lemma release_eq s :
  releaseCurrentSubscription s = mkObserver (stopped s) (closeNotified s) None (cursor s) (attempt s) (settled s) (phase s) (reconnects s) (openedAt s)
    (answered s) (closedSubscriptions s ++ option_list (currentSubscription s)) (notices s).
Proof. destruct s as [st cn cur c a se p r o an cl no]. unfold releaseCurrentSubscription; simpl. destruct cur; simpl; by rewrite ?app_nil_r. Qed.

(** The subscriptions an observer was given: those it closed and the one it holds. *)
Definition inHand (s : Observer) : list nat := closedSubscriptions s ++ option_list (currentSubscription s).

Lemma inHand_close s : inHand (observerClose s) = inHand s.
Proof.
  unfold inHand. destruct (stopped s) eqn:Hs; [unfold observerClose; by rewrite Hs|]. rewrite observerClose_eq by done. simpl. by rewrite app_nil_r.
Qed.

Lemma inHand_finish s : inHand (finish s) = inHand s.
Proof. unfold inHand. rewrite finish_eq. simpl. by rewrite app_nil_r. Qed.

Lemma inHand_fail e s : inHand (observerFail e s) = inHand s.
Proof.
  unfold inHand. destruct (stopped s) eqn:Hs; [unfold observerFail; by rewrite Hs|]. rewrite observerFail_eq by done. simpl. by rewrite app_nil_r.
Qed.

(** ** The invariant *)

Section invariant.
Context (K : ObserverKind) (identifier : jstr) (closesOnEvent closesOnSnapshot : Payload → bool) (reconnectOption : option Q).
Notation step := (observerStep K identifier closesOnEvent closesOnSnapshot reconnectOption).

Record Sane (c0 : option Z) (s : Observer) : Prop := {
  sane_forward : Forward c0 (cursor s) (closeNotified s) (notices s);
  sane_stopped : stopped s = true → closeNotified s = true;
  sane_finished : phase s = Finished → closeNotified s = true;
  sane_closed : closeNotified s = true → currentSubscription s = None ∧ (stopped s = true ∨ phase s = Finished);
  sane_settled : phase s ≠ Streaming → settled s ≠ None ∧ currentSubscription s = None;
  sane_subscriptions : NoDup (inHand s) ∧ (∀ n, n ∈ inHand s → n ∈ answered s) ∧ (∀ n, n ∈ answered s → 1 <= n <= attempt s);
  sane_attempts : length (openedAt s) = attempt s ∧ (Z.of_nat (attempt s) <= reconnects s + 1)%Z
    ∧ (0 <= reconnects s <= maxReconnectAttempts reconnectOption)%Z;
  sane_opened : rising c0 (openedAt s) (cursor s);
  sane_current : ∀ n, currentSubscription s = Some n → n = attempt s;
}.

Lemma sane_open c0 s : Sane c0 s → closeNotified s = false → stopped s = false ∧ phase s ≠ Finished.
Proof.
  intros Hs Hc. split; [destruct (stopped s) eqn:Hst; [|done]; by rewrite (sane_stopped _ _ Hs Hst) in Hc|].
  intros Hf. by rewrite (sane_finished _ _ Hs Hf) in Hc.
Qed.

Lemma sane_notified c0 s : Sane c0 s → stopped s = false → phase s ≠ Finished → closeNotified s = false.
Proof. intros Hs Hst Hp. destruct (closeNotified s) eqn:Hc; [|done]. destruct (sane_closed _ _ Hs Hc) as [_ [?|?]]; congruence. Qed.

Lemma forward_notify c0 c notified told : Forward c0 c notified told → Forward c0 c true (told ++ (if notified then [] else [SeeClose])).
Proof. destruct notified; [by rewrite app_nil_r|]. intros. by apply forward_ends; [|constructor]. Qed.

Lemma sane_close c0 s : Sane c0 s → Sane c0 (observerClose s).
Proof.
  intros Hs. pose proof (inHand_close s) as Hg. destruct (stopped s) eqn:Hst; [unfold observerClose; by rewrite Hst|].
  rewrite observerClose_eq in * by done. destruct Hs. split; rewrite ?Hg; simpl; try done; [by apply forward_notify|tauto|naive_solver].
Qed.

Lemma sane_finish c0 s : Sane c0 s → settled s ≠ None → Sane c0 (finish s).
Proof.
  intros Hs Hse. pose proof (inHand_finish s) as Hg. rewrite finish_eq in *. destruct Hs.
  split; rewrite ?Hg; simpl; try done; [by apply forward_notify|by split; [|right]].
Qed.

Lemma sane_fail c0 e s : Sane c0 s → phase s ≠ Finished → Sane c0 (observerFail e s).
Proof.
  intros Hs Hp. pose proof (inHand_fail e s) as Hg. destruct (stopped s) eqn:Hst; [unfold observerFail; by rewrite Hst|].
  pose proof (sane_notified _ _ Hs Hst Hp) as Hc. rewrite observerFail_eq, Hc in * by done. destruct Hs. rewrite Hc in *.
  split; rewrite ?Hg; simpl; try done; [by apply forward_ends; [|apply HasFailed]|tauto|naive_solver].
Qed.

Lemma sane_release c0 s : Sane c0 s → Sane c0 (releaseCurrentSubscription s) ∧ inHand (releaseCurrentSubscription s) = inHand s.
Proof.
  intros Hs. assert (inHand (releaseCurrentSubscription s) = inHand s) as Hg by (rewrite release_eq; unfold inHand; simpl; by rewrite app_nil_r).
  split; [|done]. rewrite release_eq in *. destruct Hs. split; rewrite ?Hg; simpl; try done; naive_solver.
Qed.

Lemma sane_settle c0 o s : Sane c0 s → Sane c0 (settle o s).
Proof. intros Hs. unfold settle. destruct (settled s) eqn:Hse; [done|]. destruct Hs. split; simpl; try done. intros Hp. destruct (sane_settled0 Hp). done. Qed.

Lemma sane_answer c0 n s : Sane c0 s → isPending n s = true → Sane c0 (setAnswered n s) ∧ n ∉ inHand s.
Proof.
  intros Hs Hp. unfold isPending in Hp. apply andb_true_iff in Hp as [Hle%andb_true_iff Hn%bool_decide_eq_true].
  rewrite !Nat.leb_le in Hle. destruct Hs as [????? (Hd & Hin & Ha) ???]. split; [|by intros ?%Hin].
  split; simpl; try done. repeat split; [done| |set_solver..]. intros m Hm. apply elem_of_app. left. by apply Hin.
Qed.

Lemma sane_live c0 s : Sane c0 s → stopped s = false → settled s = None → phase s = Streaming ∧ closeNotified s = false.
Proof.
  intros Hs Hst Hse. assert (phase s = Streaming) as Hp by (destruct (phase s) eqn:Hp; [done|..]; destruct (sane_settled _ _ Hs) as [Hn _]; congruence).
  split; [done|]. apply (sane_notified c0); [done..|congruence].
Qed.

Lemma isLive_true n s : isLive n s = true → n = attempt s ∧ settled s = None.
Proof. unfold isLive. by intros [?%bool_decide_eq_true ?%bool_decide_eq_true]%andb_true_iff. Qed.

Lemma sane_event c0 n e s : Sane c0 s → Sane c0 (onStreamEvent K closesOnEvent n e s).
Proof.
  intros Hs. unfold onStreamEvent. destruct (isLive n s) eqn:Hl; simpl; [|done]. destruct (stopped s) eqn:Hst; [done|].
  apply isLive_true in Hl as [_ Hse]. destruct (sane_live _ _ Hs Hst Hse) as [Hp Hc].
  destruct (runtimeSequence _) as [z|] eqn:Hz; [|by apply sane_settle]. destruct (isStale (cursor s) z) eqn:Hz'; [done|].
  assert (Sane c0 (tell (SeeEvent e) (setCursor z s))) as Ht.
  { destruct Hs. rewrite Hc in *. split; simpl; rewrite ?Hc; try done; [by eapply forward_event|]. by eapply rising_top; [apply stale_below|]. }
  destruct (closesOnEvent e), (isTerminalEvent e); auto using sane_close, sane_settle.
Qed.

Lemma sane_subscribed c0 n s : Sane c0 s → Sane c0 (onSubscribed n s).
Proof.
  intros Hs. unfold onSubscribed. destruct (isPending n s) eqn:Hp; [|done]. destruct (sane_answer _ _ _ Hs Hp) as [Ha Hn].
  assert (n ∈ answered (setAnswered n s)) as Hin by (simpl; apply elem_of_app; right; by apply list_elem_of_singleton).
  destruct Ha as [????? (Hd & Hi & Hr) ???]. change (inHand (setAnswered n s)) with (inHand s) in *.
  destruct (negb (isLive n (setAnswered n s)) || stopped (setAnswered n s)) eqn:Hl.
  - assert (inHand (closeSubscription n (setAnswered n s)) ≡ₚ n :: inHand s) as Hg
      by (unfold inHand; simpl; rewrite <- app_assoc, Permutation_middle; reflexivity).
    split; try done. split; [rewrite Hg; by apply NoDup_cons|split; [|done]]. intros m. rewrite Hg, elem_of_cons. intros [->|?]; auto.
  - apply orb_false_iff in Hl as [[Hat Hse]%negb_false_iff%isLive_true Hst]. simpl in Hat, Hse, Hst.
    destruct (sane_live _ _ Hs Hst Hse) as [Hph Hc].
    assert (∀ m, m ∈ inHand (setCurrent (Some n) (setAnswered n s)) → m = n ∨ m ∈ inHand s) as Hg.
    { unfold inHand; simpl. intros m. rewrite !elem_of_app, list_elem_of_singleton. tauto. }
    split; simpl; try done; [by rewrite Hc| |by intros m [= <-]]. split; [|split; [|done]].
    + unfold inHand in *; simpl. apply NoDup_app in Hd as (Hd & _ & _). rewrite elem_of_app in Hn. apply NoDup_app.
      split; [done|split; [|apply NoDup_singleton]]. intros m Hm ->%list_elem_of_singleton. tauto.
    + intros m [->|Hm]%Hg; [done|by apply Hi].
Qed.

Lemma sane_refused c0 n e s : Sane c0 s → Sane c0 (onRefused n e s).
Proof.
  intros Hs. unfold onRefused, settleStream. destruct (isPending n s) eqn:Hp; [|done]. destruct (sane_answer _ _ _ Hs Hp) as [Ha _].
  destruct (isLive _ _); [by apply sane_settle|done].
Qed.

Lemma sane_recovering c0 o s : Sane c0 s → closeNotified s = false → settled s ≠ None → currentSubscription s = None →
  Sane c0 (setPhase (Recovering o) s).
Proof. intros Hs Hc Hse Hcur. destruct Hs. split; simpl; try done. by rewrite Hc. Qed.

Lemma sane_afterStream c0 s : Sane c0 s → Sane c0 (afterStream s).
Proof.
  intros Hs. unfold afterStream. destruct (phase s) eqn:Hp; [|done..]. destruct (settled s) as [o|] eqn:Hse; [|done].
  destruct (sane_release _ _ Hs) as [Hr _].
  assert (stopped (releaseCurrentSubscription s) = stopped s ∧ closeNotified (releaseCurrentSubscription s) = closeNotified s
    ∧ settled (releaseCurrentSubscription s) = settled s ∧ currentSubscription (releaseCurrentSubscription s) = None) as (Hst' & Hc' & Hse' & Hcur)
    by (by rewrite release_eq).
  rewrite Hse in Hse'. destruct (stopped (releaseCurrentSubscription s)) eqn:Hst; [apply sane_finish; [done|by rewrite Hse']|].
  assert (closeNotified s = false) as Hc by (apply (sane_notified c0 s Hs); [by rewrite <- Hst'|by rewrite Hp]).
  destruct o; [apply sane_finish; [exact Hr|by rewrite Hse']|..].
  all: apply sane_recovering; [exact Hr|by rewrite Hc'|by rewrite Hse'|exact Hcur].
Qed.

Lemma sane_nextStream c0 s : Sane c0 s → settled s ≠ None → currentSubscription s = None → phase s ≠ Finished →
  (Z.of_nat (attempt s) <= reconnects s)%Z → Sane c0 (nextStream s).
Proof.
  intros Hs Hse Hcur Hp Hn. unfold nextStream. destruct (stopped s) eqn:Hst; [by apply sane_finish|].
  pose proof (sane_notified _ _ Hs Hst Hp) as Hc. destruct Hs as [????? (Hd & Hi & Hr) (Hl & ? & ?) ??].
  split; simpl; try done; [by rewrite Hc| | |by apply rising_snoc|by rewrite Hcur].
  - split; [done|split; [done|]]. intros m ?%Hr. lia.
  - rewrite length_app; simpl. lia.
Qed.

(** A snapshot that is accepted. *)
Lemma sane_snapshot c0 v z s : Sane c0 s → phase s ≠ Finished → stopped s = false → runtimeSequence (textField "lastSequence" v) = Some z →
  match cursor s with Some c => (z <? c)%Z | None => false end = false → Sane c0 (tell (SeeSnapshot v) (setCursor z s)).
Proof.
  intros Hs Hp Hst Hz Hold. pose proof (sane_notified _ _ Hs Hst Hp) as Hc. destruct Hs. rewrite Hc in *.
  split; simpl; rewrite ?Hc; try done; [by eapply forward_snapshot|]. eapply rising_top; [|done].
  destruct (cursor s); simpl; [apply Z.ltb_ge in Hold; lia|done].
Qed.

Lemma sane_reconnects c0 s : Sane c0 s → (reconnects s < maxReconnectAttempts reconnectOption)%Z →
  Sane c0 (mkObserver (stopped s) (closeNotified s) (currentSubscription s) (cursor s) (attempt s) (settled s) (phase s)
    (reconnects s + 1)%Z (openedAt s) (answered s) (closedSubscriptions s) (notices s)).
Proof. intros Hs Hn. destruct Hs as [??????(? & ? & ?)??]. split; simpl; try done. lia. Qed.

Lemma same_close s : phase (observerClose s) = phase s ∧ settled (observerClose s) = settled s ∧ reconnects (observerClose s) = reconnects s
  ∧ attempt (observerClose s) = attempt s.
Proof. destruct (stopped s) eqn:Hst; [unfold observerClose; by rewrite Hst|]. by rewrite observerClose_eq. Qed.

Lemma same_fail e s : settled (observerFail e s) = settled s.
Proof. destruct (stopped s) eqn:Hst; [unfold observerFail; by rewrite Hst|]. by rewrite observerFail_eq. Qed.

Lemma sane_failed c0 e s : Sane c0 s → phase s ≠ Finished → settled s ≠ None → Sane c0 (finish (observerFail e s)).
Proof. intros Hs Hp Hse. apply sane_finish; [by apply sane_fail|by rewrite same_fail]. Qed.

Lemma sane_afterSnapshot c0 answer s : Sane c0 s → Sane c0 (afterSnapshot K identifier closesOnSnapshot reconnectOption answer s).
Proof.
  intros Hs. unfold afterSnapshot. destruct (phase s) as [|o|] eqn:Hp; [done| |done].
  assert (phase s ≠ Finished) as Hp' by congruence. destruct (sane_settled _ _ Hs) as [Hse Hcur]; [congruence|].
  destruct answer as [e|v]; [by apply sane_failed|]. destruct (stopped s) eqn:Hst; [by apply sane_finish|].
  destruct (negb _); [by apply sane_failed|]. destruct (runtimeSequence _) as [z|] eqn:Hz; [|by apply sane_failed].
  destruct (match cursor s with Some c => (z <? c)%Z | None => false end) eqn:Hold; [by apply sane_failed|].
  pose proof (sane_snapshot _ _ _ _ Hs Hp' Hst Hz Hold) as Ht. set (s1 := tell _ _) in *.
  set (s2 := if closesOnSnapshot v then observerClose s1 else s1).
  assert (Sane c0 s2 ∧ phase s2 = phase s ∧ settled s2 = settled s ∧ reconnects s2 = reconnects s) as (H2 & Hp2 & Hse2 & Hr2).
  { unfold s2. destruct (closesOnSnapshot v); [|done]. destruct (same_close s1) as (-> & -> & -> & _). auto using sane_close. }
  clearbody s2. assert (settled s2 ≠ None) as Hse3 by congruence. assert (phase s2 ≠ Finished) as Hp3 by congruence.
  destruct (isTerminalSnapshot K v); [by apply sane_finish|]. destruct (_ <=? _)%Z eqn:Hmax; [by apply sane_failed|].
  apply Z.leb_gt in Hmax. apply sane_nextStream; simpl; [by apply sane_reconnects|done| |done|].
  - apply (sane_settled _ _ H2). congruence.
  - destruct (sane_attempts _ _ H2) as (_ & ? & _). lia.
Qed.

Lemma sane_step c0 i s : Sane c0 s → Sane c0 (step s i).
Proof.
  intros Hs. destruct i as [n [e|e|]|n|n e| |answer|]; simpl.
  all: eauto using sane_event, sane_subscribed, sane_refused, sane_afterStream, sane_afterSnapshot, sane_close.
  all: unfold settleStream; destruct (isLive n s); eauto using sane_settle.
Qed.

(** The cursor that the caller gives. *)
Definition startCursor (afterSequence : option jstr) : option Z := afterSequence ≫= λ t, runtimeSequence (Some t).

Lemma sane_idle c : Sane c (mkObserver false false None c 0 (Some StreamEnd) Streaming 0 [] [] [] []).
Proof.
  split; simpl; try done; [by rewrite forward_open|split; [constructor|set_solver]| |apply below_refl].
  split; [done|]. split; [lia|]. unfold maxReconnectAttempts. lia.
Qed.

Lemma sane_observe afterSequence aborted : Sane (startCursor afterSequence) (observe K afterSequence aborted).
Proof.
  unfold observe, startCursor. set (start c := mkObserver false false None c 0 (Some StreamEnd) Streaming 0 [] [] [] []).
  assert (∀ b c, let s := if b : bool then observerClose (start c) else start c in
    Sane c s ∧ phase s ≠ Finished ∧ settled s ≠ None ∧ currentSubscription s = None ∧ attempt s = 0 ∧ reconnects s = 0%Z) as Hstart.
  { intros [] c s; (split; [|done]); [apply sane_close|]; apply sane_idle. }
  change idle with (start None). cbv zeta. destruct afterSequence as [t|]; cbn [mbind option_bind].
  - destruct (runtimeSequence (Some t)) as [z|].
    + assert (setCursor z (if aborted then observerClose (start None) else start None) = if aborted then observerClose (start (Some z)) else start (Some z))
        as -> by by destruct aborted.
      destruct (Hstart aborted (Some z)) as (? & ? & ? & ? & Ha & Hr). apply sane_nextStream; [done..|]. rewrite Ha, Hr. done.
    + destruct (Hstart aborted None) as (? & ? & ? & _). by apply sane_failed.
  - destruct (Hstart aborted None) as (? & ? & ? & ? & Ha & Hr). apply sane_nextStream; [done..|]. rewrite Ha, Hr. done.
Qed.

Definition observerRun (afterSequence : option jstr) (aborted : bool) (inputs : list ObserverInput) : Observer :=
  fold_left step inputs (observe K afterSequence aborted).

Lemma sane_run afterSequence aborted inputs : Sane (startCursor afterSequence) (observerRun afterSequence aborted inputs).
Proof.
  unfold observerRun. induction inputs as [|i inputs IH] using rev_ind; [apply sane_observe|]. rewrite fold_left_app. by apply sane_step.
Qed.

(** ** What was given stays in hand *)

Lemma inHand_next s : inHand (nextStream s) = inHand s.
Proof. unfold nextStream. destruct (stopped s); [apply inHand_finish|done]. Qed.

Lemma inHand_settle o s : inHand (settle o s) = inHand s.
Proof. unfold settle. by destruct (settled s). Qed.

Lemma inHand_settleStream n o s : inHand (settleStream n o s) = inHand s.
Proof. unfold settleStream. destruct (isLive n s); [apply inHand_settle|done]. Qed.

Lemma inHand_event n e s : inHand (onStreamEvent K closesOnEvent n e s) = inHand s.
Proof.
  unfold onStreamEvent. destruct (negb _ || _); [done|]. destruct (runtimeSequence _) as [z|]; [|apply inHand_settle].
  destruct (isStale _ _); [done|]. destruct (closesOnEvent e), (isTerminalEvent e); by rewrite ?inHand_settle, ?inHand_close.
Qed.

Lemma inHand_afterStream s : inHand (afterStream s) = inHand s.
Proof.
  assert (inHand (releaseCurrentSubscription s) = inHand s) as Hr by (rewrite release_eq; unfold inHand; simpl; by rewrite app_nil_r).
  unfold afterStream. destruct (phase s), (settled s) as [o|]; try done.
  destruct (stopped _); [by rewrite inHand_finish|]. destruct o; [by rewrite inHand_finish|done..].
Qed.

Lemma inHand_afterSnapshot answer s : inHand (afterSnapshot K identifier closesOnSnapshot reconnectOption answer s) = inHand s.
Proof.
  unfold afterSnapshot. destruct (phase s); [done| |done]. destruct answer as [e|v]; [by rewrite inHand_finish, inHand_fail|].
  destruct (stopped s); [apply inHand_finish|]. destruct (negb _); [by rewrite inHand_finish, inHand_fail|].
  destruct (runtimeSequence _) as [z|]; [|by rewrite inHand_finish, inHand_fail].
  destruct (match cursor s with Some c => (z <? c)%Z | None => false end); [by rewrite inHand_finish, inHand_fail|].
  set (s1 := tell _ _). assert (inHand (if closesOnSnapshot v then observerClose s1 else s1) = inHand s) as H1
    by (destruct (closesOnSnapshot v); [by rewrite inHand_close|done]).
  set (s2 := if closesOnSnapshot v then _ else _) in *. clearbody s2.
  destruct (isTerminalSnapshot K v); [by rewrite inHand_finish|]. destruct (_ <=? _)%Z; [by rewrite inHand_finish, inHand_fail|].
  by rewrite inHand_next.
Qed.

(** Only a subscription that is answered is added, and none is let go of. *)
Lemma inHand_step c0 i s : Sane c0 s →
  inHand (step s i) ≡ₚ match i with Subscribed n => if isPending n s then n :: inHand s else inHand s | _ => inHand s end.
Proof.
  intros Hs. destruct i as [n [e|e|]|n|n e| |answer|]; simpl.
  - by rewrite inHand_event.
  - by rewrite inHand_settleStream.
  - by rewrite inHand_settleStream.
  - unfold onSubscribed. destruct (isPending n s) eqn:Hp; [|done].
    destruct (negb (isLive n (setAnswered n s)) || stopped (setAnswered n s)) eqn:Hl.
    + unfold inHand; simpl. rewrite <- app_assoc, Permutation_middle. reflexivity.
    + apply orb_false_iff in Hl as [[Hat _]%negb_false_iff%isLive_true _]. simpl in Hat.
      assert (currentSubscription s = None) as Hcur.
      { destruct (currentSubscription s) as [m|] eqn:Hm; [|done]. pose proof (sane_current _ _ Hs _ Hm) as ->.
        destruct (sane_answer _ _ _ Hs Hp) as [_ Hn]. destruct Hn. unfold inHand. rewrite Hm, <- Hat. apply elem_of_app. right. by apply list_elem_of_singleton. }
      unfold inHand; simpl. rewrite Hcur; simpl. by rewrite app_nil_r, (comm (++)).
  - unfold onRefused. destruct (isPending n s); [by rewrite inHand_settleStream|done].
  - by rewrite inHand_afterStream.
  - by rewrite inHand_afterSnapshot.
  - by rewrite inHand_close.
Qed.

(** ** The end *)

Definition quiet (s s' : Observer) : Prop := notices s' = notices s ∧ openedAt s' = openedAt s.

Lemma quiet_finish s : closeNotified s = true → quiet s (finish s).
Proof. intros Hc. rewrite finish_eq, Hc. split; simpl; [by rewrite app_nil_r|done]. Qed.

Lemma quiet_settle o s : quiet s (settle o s).
Proof. unfold settle. by destruct (settled s). Qed.

Lemma ended_quiet c0 i s : Sane c0 s → closeNotified s = true → quiet s (step s i).
Proof.
  intros Hs Hc. destruct (sane_closed _ _ Hs Hc) as [Hcur Hend].
  assert (∀ n, isLive n s = true → stopped s = true) as Hlive.
  { intros n [_ Hse]%isLive_true. destruct Hend as [?|Hp]; [done|]. destruct (sane_settled _ _ Hs) as [? _]; congruence. }
  destruct i as [n [e|e|]|n|n e| |answer|]; simpl.
  - unfold onStreamEvent. destruct (isLive n s) eqn:Hl; [|done]. by rewrite (Hlive _ Hl).
  - unfold settleStream. destruct (isLive n s); [apply quiet_settle|done].
  - unfold settleStream. destruct (isLive n s); [apply quiet_settle|done].
  - unfold onSubscribed. destruct (isPending n s); [|done]. by destruct (negb _ || _).
  - unfold onRefused, settleStream. destruct (isPending n s); [|done]. destruct (isLive n _); [|done]. apply (quiet_settle _ (setAnswered n s)).
  - unfold afterStream. destruct (phase s) eqn:Hp, (settled s) as [o|]; try done. destruct Hend as [Hst|?]; [|congruence].
    rewrite release_eq, Hcur; simpl. rewrite Hst, app_nil_r. apply (quiet_finish (mkObserver _ _ _ _ _ _ _ _ _ _ _ _)). done.
  - unfold afterSnapshot. destruct (phase s) eqn:Hp; try done. destruct Hend as [Hst|?]; [|congruence].
    destruct answer as [e|v]; [unfold observerFail; rewrite Hst|rewrite Hst]; by apply quiet_finish.
  - unfold observerClose. destruct (stopped s); [done|]. unfold notifyClose, releaseCurrentSubscription; simpl. rewrite Hcur; simpl. by rewrite Hc.
Qed.

(** ** The way to it *)

(** The loop waits for this input. *)
Definition awaited (s : Observer) (i : ObserverInput) : bool :=
  match phase s, settled s, i with
  | Streaming, Some _, Microtask | Recovering _, _, SnapshotAnswer _ => true
  | _, _, _ => false
  end.

(** How often the loop was given what it waited for. *)
Fixpoint progress (s : Observer) (inputs : list ObserverInput) : nat :=
  match inputs with [] => 0 | i :: inputs => (if awaited s i then 1 else 0) + progress (step s i) inputs end.

(** How often it can wait still. *)
Definition waitsLeft (s : Observer) : Z :=
  match phase s with
  | Finished => 0
  | Recovering _ => 2 * (maxReconnectAttempts reconnectOption - reconnects s) + 1
  | Streaming => 2 * (maxReconnectAttempts reconnectOption - reconnects s) + 2
  end.

Lemma left_same s s' : phase s' = phase s → reconnects s' = reconnects s → waitsLeft s' = waitsLeft s.
Proof. unfold waitsLeft. by intros -> ->. Qed.

Lemma left_finish s : waitsLeft (finish s) = 0%Z.
Proof. by rewrite finish_eq. Qed.

Lemma left_settle o s : waitsLeft (settle o s) = waitsLeft s.
Proof. unfold settle. by destruct (settled s). Qed.

Lemma left_close s : waitsLeft (observerClose s) = waitsLeft s.
Proof. destruct (same_close s) as (? & _ & ? & _). by apply left_same. Qed.

Lemma left_settleStream n o s : waitsLeft (settleStream n o s) = waitsLeft s.
Proof. unfold settleStream. destruct (isLive n s); [apply left_settle|done]. Qed.

Lemma left_event n e s : waitsLeft (onStreamEvent K closesOnEvent n e s) = waitsLeft s.
Proof.
  unfold onStreamEvent. destruct (negb _ || _); [done|]. destruct (runtimeSequence _) as [z|]; [|apply left_settle].
  destruct (isStale _ _); [done|]. destruct (closesOnEvent e), (isTerminalEvent e); by rewrite ?left_settle, ?left_close.
Qed.

Lemma left_nonneg c0 s : Sane c0 s → (0 <= waitsLeft s)%Z ∧ (waitsLeft s = 0%Z → phase s = Finished).
Proof. intros Hs. destruct (sane_attempts _ _ Hs) as (_ & _ & ?). unfold waitsLeft. destruct (phase s); split; try done; lia. Qed.

Lemma left_afterStream c0 s : Sane c0 s → (waitsLeft (afterStream s) + (if awaited s Microtask then 1 else 0) <= waitsLeft s)%Z.
Proof.
  intros Hs. pose proof (left_nonneg _ _ Hs) as Hn. destruct (sane_attempts _ _ Hs) as (_ & _ & ?). unfold afterStream, awaited.
  unfold waitsLeft in Hn |- * at 2. destruct (phase s) eqn:Hp, (settled s) as [o|] eqn:Hse; try (unfold waitsLeft; rewrite Hp; lia).
  rewrite release_eq; simpl. destruct (stopped s); [rewrite left_finish; lia|].
  destruct o; [rewrite left_finish; lia|unfold waitsLeft; simpl; lia..].
Qed.

Lemma left_afterSnapshot c0 answer s : Sane c0 s →
  (waitsLeft (afterSnapshot K identifier closesOnSnapshot reconnectOption answer s) + (if awaited s (SnapshotAnswer answer) then 1 else 0) <= waitsLeft s)%Z.
Proof.
  intros Hs. destruct (sane_attempts _ _ Hs) as (_ & _ & Hr). unfold afterSnapshot, awaited.
  destruct (phase s) as [|o|] eqn:Hp; [destruct (settled s); lia| |lia].
  assert (waitsLeft s = 2 * (maxReconnectAttempts reconnectOption - reconnects s) + 1)%Z as -> by (unfold waitsLeft; by rewrite Hp).
  assert (∀ s', waitsLeft (finish s') + 1 <= 2 * (maxReconnectAttempts reconnectOption - reconnects s) + 1)%Z as Hf by (intros; rewrite left_finish; lia).
  destruct answer as [e|v]; [apply Hf|]. destruct (stopped s); [apply Hf|]. destruct (negb _); [apply Hf|].
  destruct (runtimeSequence _) as [z|]; [|apply Hf]. destruct (match cursor s with Some c => (z <? c)%Z | None => false end); [apply Hf|].
  set (s1 := tell _ _). assert (reconnects (if closesOnSnapshot v then observerClose s1 else s1) = reconnects s) as H1.
  { destruct (closesOnSnapshot v); [|done]. destruct (same_close s1) as (_ & _ & -> & _). done. }
  set (s2 := if closesOnSnapshot v then _ else _) in *. clearbody s2.
  destruct (isTerminalSnapshot K v); [apply Hf|]. destruct (_ <=? _)%Z; [apply Hf|].
  unfold nextStream. simpl. destruct (stopped s2); [apply Hf|]. unfold waitsLeft; simpl. lia.
Qed.

Lemma left_step c0 i s : Sane c0 s → (waitsLeft (step s i) + (if awaited s i then 1 else 0) <= waitsLeft s)%Z.
Proof.
  intros Hs. assert (∀ s', waitsLeft s' = waitsLeft s → awaited s i = false → waitsLeft s' + (if awaited s i then 1 else 0) <= waitsLeft s)%Z as Hsame
    by (intros ? -> ->; lia).
  destruct i as [n [e|e|]|n|n e| |answer|]; cbn [observerStep];
    try (apply left_afterStream with c0; done); try (apply left_afterSnapshot with c0; done).
  all: apply Hsame; [|unfold awaited; by destruct (phase s), (settled s)].
  - apply left_event.
  - apply left_settleStream.
  - apply left_settleStream.
  - unfold onSubscribed. destruct (isPending n s); [|done]. by destruct (negb _ || _).
  - unfold onRefused. destruct (isPending n s); [by rewrite left_settleStream|done].
  - apply left_close.
Qed.

Lemma progress_left c0 inputs s : Sane c0 s → (Z.of_nat (progress s inputs) + waitsLeft (fold_left step inputs s) <= waitsLeft s)%Z.
Proof.
  revert s. induction inputs as [|i inputs IH]; intros s Hs; simpl; [lia|].
  pose proof (IH _ (sane_step _ i _ Hs)). pose proof (left_step _ i _ Hs). destruct (awaited s i); lia.
Qed.

Lemma left_observe afterSequence aborted : (waitsLeft (observe K afterSequence aborted) <= 2 * maxReconnectAttempts reconnectOption + 2)%Z.
Proof.
  assert (0 <= maxReconnectAttempts reconnectOption)%Z as Hm by (unfold maxReconnectAttempts; lia).
  assert (∀ s, reconnects s = 0%Z → waitsLeft (nextStream s) <= 2 * maxReconnectAttempts reconnectOption + 2)%Z as Hnext.
  { intros s Hr. unfold nextStream. destruct (stopped s); [rewrite left_finish; lia|]. unfold waitsLeft; simpl. rewrite Hr. lia. }
  unfold observe. destruct afterSequence as [t|]; [destruct (runtimeSequence (Some t)); [|rewrite left_finish; lia]|]; apply Hnext; by destruct aborted.
Qed.

End invariant.

(** ** Observers at work *)

Definition sampleSnapshot (sequence status : string) : Payload :=
  PObject [(js "runId", PText (js "run/1")); (js "lastSequence", PText (js sequence)); (js "status", PText (js status))].

Definition sampleObserver (limit : Q) : list ObserverInput → Observer :=
  observerRun agentRuns (js "run/1") (λ _, false) (λ _, false) (Some limit) None false.

(** A stream that breaks off is opened again at the number of the snapshot. *)
Example observer_reconnects :
  let s := sampleObserver 3 [Subscribed 1; StreamTells 1 (OnEvent (sampleEvent "5")); StreamTells 1 OnClose; Microtask;
    SnapshotAnswer (inr (sampleSnapshot "6" "running")); Subscribed 2; StreamTells 2 (OnEvent (sampleEvent "6")); StreamTells 2 (OnEvent (sampleEvent "7"))] in
  notices s = [SeeEvent (sampleEvent "5"); SeeSnapshot (sampleSnapshot "6" "running"); SeeEvent (sampleEvent "7")]
  ∧ openedAt s = [None; Some 6%Z] ∧ closedSubscriptions s = [1] ∧ currentSubscription s = Some 2.
Proof. vm_compute. done. Qed.

Definition refusal : ApiRequestError := mkApiRequestError (js "denied") (js "no") false None.

(** On the desktop a subscription that is refused tells its end before its promise is rejected: the observer takes the end for the outcome
    and reports, when it may not reconnect, that the stream disconnected too many times instead of the refusal. *)
Example refusal_hidden :
  let t := tauriStep agentKind (js "run/1") (λ _, false) (mkTauri true None None true false [] None []) (Refused (inl refusal)) in
  let answer := SnapshotAnswer (inr (sampleSnapshot "6" "running")) in
  tauriCallbacks t = [OnClose] ∧ tauriPromise t = Some (inl (ApiFailure refusal)) ∧
  last (notices (sampleObserver 0 [SubscribeRefused 1 (ApiFailure refusal); Microtask; answer])) = Some SeeClose ∧
  SeeError (ApiFailure refusal) ∈ notices (sampleObserver 0 [SubscribeRefused 1 (ApiFailure refusal); Microtask; answer]) ∧
  notices (sampleObserver 0 [StreamTells 1 OnClose; SubscribeRefused 1 (ApiFailure refusal); Microtask; answer])
  = [SeeSnapshot (sampleSnapshot "6" "running"); SeeError (ApiFailure (reconnectExhausted agentRuns)); SeeClose].
Proof. repeat split; try (vm_compute; reflexivity). right. left. Qed.
